(* ===== verification/_CoqProject ===== *)
-Q . S2P
Prelude.v
Memory.v
Irq.v
Queue.v
RingView.v
Filter.v
RtcCmos.v
Pl011.v
Uart16550.v
AcpiPm.v
Pl031.v
Virtio.v
Block.v
Vsock.v
VsockInv.v
VsockStream.v
VsockFill.v
VsockDev.v
VsockSession.v
Gateway.v
Packets.v
Net.v
NetWire.v
FsWire.v
FsHost.v
FsState.v
FsDirs.v
FsNodes.v
FsOps.v
FsIo.v
FsReaddir.v
FsServer.v
FsDev.v
FsDemo.v
FsInv.v
FsCaches.v
FsTable.v
FsSafe.v
FsSafeOps.v
FsSafeIo.v
FsSafeReaddir.v
FsSafeServer.v
FsSafeDev.v
FsWorker.v
FsSpec.v
FsZeroCopy.v
FsReply.v
FsReadahead.v
VhostUser.v
Ledger.v
Vcpus.v
Guest.v
Aarch64.v
X86.v
X86Cpu.v
X86Boot.v
Config.v
Supervisor.v
Seccomp.v
Seatbelt.v
Signals.v
Cli.v
Plugins.v
Fdt.v
Teardown.v
Kick.v
Bridge.v
KickHvf.v
Console.v
