(* ===== verification/Prelude.v ===== *)
(** * A verification of the hvi microVMM

    The program under [src/src/] is a virtual machine monitor: it maps the
    guest's RAM, serves the guest's accesses to a handful of emulated devices,
    and carries the guest's disk, console, network and agent traffic to the
    host. The guest is not trusted. Every byte of RAM, every register value and
    every descriptor the devices read is the guest's choice, and so is every
    frame it transmits; the release build aborts the process on a panic. The
    development models the devices and what they share, the two machines around
    them, the vCPU threads, the ledger, the run and the sandbox, and proves what
    the host relies on: confinement, bounds, order, and that nothing the guest
    does stops a loop or the process.

    ** How the parts interact

    A vCPU exit names an address; the machine hands it to the device whose
    window holds it, under the device's lock. A virtio device reads the rings of
    its queues from RAM, moves data between RAM and its backend, publishes
    completions in the used ring and sets its interrupt line to its level before
    the access ends. The host side (reader threads, the vsock bridge, the
    terminal) calls the device under the same lock. So a device is a state
    record, every call on it is a function from the state and RAM to the next
    state and RAM, and a run is any sequence of calls, interleaved with
    arbitrary guest stores to RAM. What a device captures goes to the ledger,
    which a thread of its own writes out. The supervisor owns the run: it waits
    for a stop, which a vCPU, a signal or a plugin may ask for, takes the vCPUs
    and the helper threads down and reports how the run ended. Before that, each
    thread that serves the guest puts a filter on its own system calls. Where
    threads share state outside a lock, or sleep and are woken, the model is a
    transition system in which every atomic access is a step and the steps of
    the threads interleave in any order ([FsWorker], [FsReadahead], [Ledger],
    [Vcpus], [Kick], [KickHvf], [Bridge], [Teardown], [Plugins]); so is the process as its signals arrive
    ([Signals]).

    ** Files

    - [Prelude]: machine integers with their wrap-around, bytes, slices,
      little- and big-endian conversions, the automation ([hvi] hints, [zlia]).
    - [Memory] ([memory/guest.rs], [region.rs]): regions over one shared object,
      the checks of [map], resolution, reads and writes, the scan. [ram_ok] is the
      invariant and [ram_evolves] what an operation may do to RAM.
    - [Irq] ([devices/irq.rs]): the class [IrqLine] with its laws, and the
      device's end that tracks the level.
    - [Queue] ([devices/virtio/queue.rs]): the split virtqueue, its programming,
      the bounds of its rings and the used ring as a sequence of stores. [RingView]:
      the driver's side of the same ring, read from RAM by the layout of the virtio
      specification and by none of the devices' own walks, against which the theorems
      on the network and the vsock device compare what they do.
    - [Virtio] ([devices/virtio/mod.rs], [mmio.rs]): register offsets, captured
      events, the sink slot, and the class [VirtioMmio] with [VirtioMmioLaws], the
      contract between a device and the bus. [Block], [VsockDev] and [Net]
      discharge it.
    - [FsWire], [FsHost], [FsState] ([fs/server.rs]): the FUSE messages byte by
      byte; the host as a type of calls with the class [HostFs] that answers them
      and [HostFsLaws], what a file system promises; the session record and the
      monad of the handlers (state, guest RAM, host, a log of every call, errors
      and panics). [FsDirs], [FsNodes]: the walk below the export's root, the
      directory cache, nodes, handles, parked descriptors, guest attributes.
      [FsOps], [FsIo], [FsReaddir]: one program per FUSE request. [FsServer]: the
      dispatcher and the entry on a chain. [FsDev] (also [fs/fdlimit.rs]): rings,
      registers, parked locks, reset. [FsWorker] ([fs/worker.rs],
      [arch/aarch64/hvf/vcpu.rs]): the worker and the vCPUs as a transition
      system. [FsInv] states the invariant and the triples [good] of a program
      that keeps it; [FsCaches], [FsTable] the pure operations, [FsSafe],
      [FsSafeOps], [FsSafeIo], [FsSafeReaddir], [FsSafeServer], [FsSafeDev] the
      programs, bottom up. [FsSpec], [FsZeroCopy], [FsReply] what the parts
      promise, [FsDemo] a small host the witnesses run on. [FsReadahead]: the queue
      and the cache of prepared listings, and the two workers that fill them beside
      the serving thread, as a transition system; the session itself sees a prepared
      listing as an answer of the host, of which [FsReadahead] proves the law that
      [HostFsLaws] states.
    - [Block] ([block.rs]): the disk over an abstract backing file.
    - [Vsock] ([vsock.rs]): connections, flow control, both queues and the
      bridge's calls; [VsockInv] the invariant of a connection and of the device,
      [VsockStream] the bytes of one connection from the socket to the ring,
      [VsockFill] what a fill leaves in the guest's buffers, [VsockDev] every call as a sequence of such steps, [VsockSession] whole
      sessions.
    - [Gateway] ([net.rs], [tap.rs]): the gateway stream parser, the relay loop,
      the tap framing and the MAC parser; [Packets] ([net.rs]): building and
      parsing of packets, with panics as a result of their own; [Net] ([net.rs]):
      the device over its three backends and the user-space stack; [NetWire]: what
      a notification carries out, and what the stack answers.
    - [Filter] ([terminal/filter.rs]): the state machine between the guest's
      console and the operator's terminal.
    - [RtcCmos], [Pl031], [Pl011], [Uart16550], [AcpiPm] ([devices/legacy/]): the
      clocks, the serial ports and the power-management registers.
    - [VhostUser] ([fs/vhost_user.rs]): the front end that hands the rings to a
      daemon, over any daemon that answers or fails each message.
    - [Ledger] ([events.rs]): the lines under the lock, the adding threads and the
      writer.
    - [Vcpus] ([hypervisor/vcpus.rs], [hypervisor/quiesce.rs], [run/stop.rs]): the
      stop, the pause and the vCPU threads; [Guest] ([hypervisor/guest.rs]): the
      windows of the disks, the access of a device with its sink, the threads of a
      plugin and the time a safe point took.
    - [Aarch64] ([arch/aarch64/]): the memory map and the placement of the images,
      the decoding of an exit, its service and PSCI. [X86], [X86Cpu], [X86Boot]
      ([arch/x86_64/]): the memory map, the MP table and the loader; the exits of a
      vCPU; the command line, the ACPI tables, the registers and page tables of the
      boot vCPU and the boot's writes in their order.
    - [Config] ([config.rs], [open_disks] of [block.rs]): the [--fs] and [--disk]
      arguments and the checks of what they name. [Supervisor]
      ([run/supervisor.rs], [teardown.rs], [io_threads.rs], [lib.rs]): the run slot,
      the run to its stop and its records, the waits of a helper thread. [Seccomp]
      ([sandbox/seccomp.rs], [sandbox/mod.rs]): the filters and their installation.
    - [Seatbelt] ([sandbox/seatbelt.rs]): the text of the macOS profile, with a reader
      of its syntax. [Signals] ([signal.rs], [terminal/raw.rs]): the actions of the
      process's signals, the stop signals and their thread, the raw terminal and the
      fatal-signal handlers. [Cli] ([main.rs]): the arguments of [boot] up to the
      configuration they give. [Plugins] ([plugin/builtin.rs]): the chain, the memory
      dump and the I/O trace. [Fdt] ([arch/aarch64/fdt.rs]): the device tree as the
      calls on its writer, with a reader that gives the tree they describe.
      [Teardown] ([io_threads.rs], [teardown.rs], [CurrentRun] of
      [run/supervisor.rs]): the end of the helper threads and of the run's ledger.
    - [Kick] ([hypervisor/kvm.rs]) and [KickHvf] ([arch/aarch64/hvf/kick.rs],
      [hvf/vcpu.rs]): how a stop gets a vCPU out of the guest, with the loop of the
      vCPU's thread around its run. [Bridge] ([VsockBridge] of [vsock.rs]): the
      threads around the vsock device, whose calls are the sessions of
      [VsockSession]. [Console] ([terminal/input.rs]): the console reader beside the
      port it feeds.

    ** What the theorems show

    - RAM: an access resolves inside one region or is refused; a write is read
      back and changes nothing else; construction accepts exactly the sound
      region lists; the scan finds every occurrence up to its cap and nothing
      else.
    - Queues: whatever the driver programs, a ready queue's rings lie in RAM and
      every address computed from it too; at most a ring of entries is pending;
      completions appear in order, and no prefix of the stores shows a torn one.
    - Any virtio device that keeps the laws, under any session: its invariant,
      RAM's layout, and an interrupt line at the device's level.
    - Disk: no request reaches past the capacity or writes a read-only image;
      reads and writes move exactly the requested bytes; refused requests have
      the status the specification gives them and leave the file alone.
    - Vsock: the bytes the guest reads from its buffers at each completion are those
      the host wrote on the connection, in order, under any interleaving; buffers and
      credit stay bounded; the fill of RX buffers ends, and stops only for a reason the
      rings and the connections show; the
      bridge's calls are such a session, and at a stop none of its threads is left
      asleep.
    - Network: nothing the guest or the network sends causes a panic; the sink and
      the backend see exactly the frames the driver posted, in order and once; the relay delivers
      the gateway's frames however the stream is cut; the stack answers ARP, ping
      and DNS; checksums verify; a TLS server name is found.
    - Shared directories: under any interleaving of guest accesses, drains, guest
      stores and changes on the host, every host call stays below the export's
      root by single names and follows no link, a read-only share changes
      nothing, every cache stays within its bound, no register access or drain
      panics, and no notified ring or waiting lock is left without a thread that
      will serve it. The directory cache is a bounded list in order of use; a
      parked descriptor is reused only for the same file opened the same way; a
      WRITE straight from RAM is the WRITE of the gathered request, but for a signal
      that interrupts the host's write, which the direct path retries and the buffered
      one reports; every reply
      names its request and length; what INIT offers fits the ring beside the
      waiting locks. The readahead keeps its bounds, hands out only listings read
      since the last change to the share, loses no wakeup, ends when it is told to
      stop, and stays inside the share.
    - Terminal: the output is a concatenation of allowed tokens, exactly those
      present in the input, and what is held back is bounded; what the operator types
      reaches the guest's port in order.
    - Clocks, serial ports, power: CMOS reads do not tear and follow the Gregorian
      calendar, guest writes never move the clock, the lines follow the interrupt
      registers, and a shutdown is requested exactly by the writes that ask for it.
    - vhost-user: whatever the guest programs and the daemon answers, the daemon is
      sent only rings inside the memory it was given and features among those of its
      own answers; a
      reset takes every ring back.
    - Ledger: the file is a prefix of what was added, in order, however writes fail;
      every record is written or counted as dropped; a batch that waits is written
      within seven steps of the writer.
    - vCPUs: after a pause no other vCPU is in the guest; a stop leaves none asleep
      and the run ends with the first failure, else the first report; plugin threads
      start once. One round of a stop's kicks is enough on both hypervisors: a vCPU
      it has reached does not enter the guest again and ends within eight steps.
    - Machines: windows and images are apart; an exit reaches the one device its
      address names, and ends the run exactly when the device or the guest asks;
      the e820 map is RAM less the reserved bytes; every image the boot writes reads
      back; the MP and ACPI tables are found and sum to zero; the boot vCPU's page
      tables map each address to itself; hvi's parameters reach the kernel. Two
      theorems record where the aarch64 code falls short: CPU_OFF returns, and a
      kernel header can wrap the plan of the images.
    - Configuration: the disks of a guest are distinct, no image has two users of
      which one writes, and each disk answers with its own identity and refuses writes
      when it is read-only; exports that disagree on writing never overlap; an
      export's argument parses back to it.
    - Run: one run holds the process at a time and a run that left a thread behind
      keeps it; the records of a run are its starts in order and one stop, with the
      reason the caller gets, and the stop of a panic or of the run is the last record
      and the only one; a poll ends only on readiness, its deadline or an error; the
      stop of the helper threads joins every one that ended, misses no end and no
      panic.
    - Sandbox: a filtered thread makes the calls of its list and no others, opens
      nothing on glibc, and is filtered once. The macOS profile reads as the fixed
      rules and one rule for each export, whatever its path says.
    - Signals and terminal: a stop signal asks for one stop, and only a second one a
      second later ends the process; from when hvi holds the terminal raw with no restore
      in progress, a process that ends by a signal hvi handles leaves the terminal as it
      found it, however its threads and handlers interleave. A run in which a restore
      overtakes the taking of the terminal ends with it raw ([Signals.Example]).
    - Command line: reading it ends; an accepted line is a sequence of its options, its
      boot has distinct, valid exports and disks, and the shares are those the line
      names, with the owner its older flags give to their own shares only. One theorem records
      that a size of RAM past 2^44 MiB is cut.
    - Plugins: a dump that reports a count is all of the RAM of a paused guest, which
      is resumed once; a trace loses no line while its file takes the writes.
    - Device tree: it is well formed, and what it describes is the machine: the
      windows at which exits reach devices, the vCPUs PSCI finds, the interrupt
      controller, the console, the memory and the initramfs of the layout.

    ** Bounds and fuel

    Loops over a ring run for the size of the queue, as the code's [for] loops
    do. Where the code's loop has no such bound the fuel is a measure that the
    loop decreases, with a lemma that more fuel changes nothing or that the loop
    ends before it: the bytes left in a packet ([Packets]), in the stream buffer
    ([Gateway]), and the queued packets, buffered bytes and pending control
    packets of [fill_weight] ([Vsock]). In the FUSE server: the nine buffer sizes
    of [read_link_at] and the 40 expansions of [walk] are the code's own limits;
    the eviction loops have the number of entries held as fuel, and each round
    removes one or stops; the write, zero and copy loops have the bytes left, and
    each round moves at least one; the loops that retry an interrupted call have the
    signals the host still delivers, a number its state gives. Reads and writes on sockets, files
    and the tap answer from scripts, so that a theorem covers every behaviour of
    the host.

    ** Not modelled

    System calls as such (polls, descriptor passing, sealing of the shared RAM
    object, KVM and Hypervisor.framework ioctls and the code that only wraps them):
    the model starts at what they answer. Of the FUSE server, the request and
    readahead counters and their clocks (a wait that may time out may end at any
    step) and the Linux variants of the helpers; the order a hash map is iterated in, which is one
    fixed order here. The crates behind the serial port, the PL031 clock, the
    kernel loader, the ACPI and device-tree bytes, the vhost messages, the signal
    iterator and the compiled filters are arguments, with the laws the code relies
    on. The text of messages and of the panic report, the starts of threads, the
    self-tests that probe a sandbox from inside it, the commands [version] and
    [dump-fdt] and the smoke tests only print or exercise what is modelled. The
    order in which a backend builds its virtual machine before the boot is glue to
    the kernel. The atomics are
    sequentially consistent. *)

From stdpp Require Export base numbers list gmap option sorting.
From Stdlib Require Export ZArith Lia.
Global Open Scope Z_scope.

(** ** Machine integers

    A Rust unsigned integer of width [w] is a [Z] in [[0, 2^w)]; the [as] casts
    and the [wrapping_*] operations reduce modulo [2^w]. *)

Definition u8 (v : Z) : Z := v mod 2 ^ 8.
Definition u16 (v : Z) : Z := v mod 2 ^ 16.
Definition u32 (v : Z) : Z := v mod 2 ^ 32.
Definition u64 (v : Z) : Z := v mod 2 ^ 64.

(** [a + b] on [u64] in a release build, where overflow wraps. *)
Definition add64 (a b : Z) : Z := u64 (a + b).

(** [checked_add], [checked_sub] and [checked_mul] on [u64] (and on [usize],
    which is 64 bits wide on every supported target). *)
Definition checked_add (a b : Z) : option Z :=
  if a + b <? 2 ^ 64 then Some (a + b) else None.
Definition checked_sub (a b : Z) : option Z :=
  if b <=? a then Some (a - b) else None.
Definition checked_mul (a b : Z) : option Z :=
  if a * b <? 2 ^ 64 then Some (a * b) else None.

(** [saturating_sub]. *)
Definition saturating_sub (a b : Z) : Z := Z.max 0 (a - b).

(** [lo..=hi] ranges in Rust patterns. *)
Definition between (lo hi b : Z) : bool := (lo <=? b) && (b <=? hi).

(** ** Bytes *)

Definition byte_ok (b : Z) : Prop := 0 <= b < 2 ^ 8.
Definition bytes_ok (l : list Z) : Prop := Forall byte_ok l.

(** The length of a slice as the [usize] the code sees. *)
Definition zlen {A} (l : list A) : Z := Z.of_nat (length l).

(** [to_le_bytes] of an [n]-byte integer, and [from_le_bytes]. *)
Fixpoint le_bytes (n : nat) (v : Z) : list Z :=
  match n with
  | O => []
  | S n => v mod 2 ^ 8 :: le_bytes n (v / 2 ^ 8)
  end.
Fixpoint le_val (l : list Z) : Z :=
  match l with
  | [] => 0
  | b :: l => b + 2 ^ 8 * le_val l
  end.

(** [to_be_bytes] and [from_be_bytes]. *)
Definition be_bytes (n : nat) (v : Z) : list Z := rev (le_bytes n v).
Definition be_val (l : list Z) : Z := le_val (rev l).

(** [l.get(a..b)]: the subslice when the range is inside [l]. *)
Definition get_range {A} (l : list A) (a b : Z) : option (list A) :=
  if (0 <=? a) && (a <=? b) && (b <=? zlen l)
  then Some (take (Z.to_nat (b - a)) (drop (Z.to_nat a) l)) else None.

(** [l.get(a..)]. *)
Definition get_from {A} (l : list A) (a : Z) : option (list A) :=
  if (0 <=? a) && (a <=? zlen l) then Some (drop (Z.to_nat a) l) else None.

(** [l.get(i)]. *)
Definition get_at {A} (l : list A) (i : Z) : option A :=
  if 0 <=? i then l !! Z.to_nat i else None.

(** [l[i]] for a byte; the callers check the index first, and each model proves
    that they do. *)
Definition byte_at (l : list Z) (i : Z) : Z := default 0 (get_at l i).

(** [l[a..b]] for bytes, under the same convention. *)
Definition sub_bytes (l : list Z) (a b : Z) : list Z := default [] (get_range l a b).

(** [split] of a string or a slice on one byte: the parts between its occurrences. *)
Fixpoint split_on (sep : Z) (l : list Z) : list (list Z) :=
  match l with
  | [] => [[]]
  | b :: l =>
      if b =? sep then [] :: split_on sep l
      else match split_on sep l with
      | [] => [[b]]
      | p :: ps => (b :: p) :: ps
      end
  end.

(** ** Automation

    [hvi] collects the side conditions every component meets: byte ranges,
    lengths and non-negativity. [zsimp] pushes lengths through the list
    operations; [zlia] is [lia] after it, with division and remainder turned
    into their defining equations. *)

Create HintDb hvi.
Create Rewrite HintDb hvi.

Ltac unfold_uint := unfold u8, u16, u32, u64 in *.

Lemma zlen_nil {A} : zlen (@nil A) = 0.
Proof. done. Qed.

Lemma zlen_cons {A} (x : A) l : zlen (x :: l) = 1 + zlen l.
Proof. unfold zlen. simpl. lia. Qed.

Lemma zlen_app {A} (l k : list A) : zlen (l ++ k) = zlen l + zlen k.
Proof. unfold zlen. rewrite length_app. lia. Qed.

Lemma zlen_nonneg {A} (l : list A) : 0 <= zlen l.
Proof. unfold zlen. lia. Qed.

Lemma zlen_take {A} (n : nat) (l : list A) : zlen (take n l) = Z.min (Z.of_nat n) (zlen l).
Proof. unfold zlen. rewrite length_take. lia. Qed.

Lemma zlen_drop {A} (n : nat) (l : list A) : zlen (drop n l) = Z.max 0 (zlen l - Z.of_nat n).
Proof. unfold zlen. rewrite length_drop. lia. Qed.

Lemma zlen_fmap {A B} (f : A -> B) (l : list A) : zlen (f <$> l) = zlen l.
Proof. unfold zlen. by rewrite length_fmap. Qed.

Lemma zlen_rev {A} (l : list A) : zlen (rev l) = zlen l.
Proof. unfold zlen. by rewrite length_rev. Qed.

Lemma zlen_replicate {A} (x : A) n : zlen (replicate n x) = Z.of_nat n.
Proof. unfold zlen. by rewrite length_replicate. Qed.

Lemma zlen_seqZ m n : 0 <= n -> zlen (seqZ m n) = n.
Proof. intros. unfold zlen. rewrite length_seqZ. lia. Qed.

Lemma zlen_0_inv {A} (l : list A) : zlen l = 0 -> l = [].
Proof. destruct l; [done|]. rewrite zlen_cons. pose proof (zlen_nonneg l). lia. Qed.

#[export] Hint Rewrite @zlen_nil @zlen_cons @zlen_app @zlen_take @zlen_drop
  @zlen_fmap @zlen_rev @zlen_replicate : hvi.
#[export] Hint Resolve zlen_nonneg : hvi.

(** Non-negativity of every length the goal mentions. *)
Ltac zlen_pos :=
  repeat match goal with
  | |- context [zlen ?l] =>
      lazymatch goal with
      | _ : 0 <= zlen l |- _ => fail
      | _ => pose proof (zlen_nonneg l)
      end
  | _ : context [zlen ?l] |- _ =>
      lazymatch goal with
      | _ : 0 <= zlen l |- _ => fail
      | _ => pose proof (zlen_nonneg l)
      end
  end.

Ltac zsimp := autorewrite with hvi in *.
Ltac zlia := zsimp; zlen_pos; unfold_uint; Z.to_euclidean_division_equations; lia.

(** Splits a boolean guard of the code into the proposition it decides. *)
Ltac bool_hyps :=
  repeat match goal with
  | H : (_ && _) = true |- _ => apply andb_true_iff in H as [? ?]
  | H : (_ || _) = false |- _ => apply orb_false_iff in H as [? ?]
  | H : negb _ = true |- _ => apply negb_true_iff in H
  | H : negb _ = false |- _ => apply negb_false_iff in H
  | H : (_ <=? _) = true |- _ => apply Z.leb_le in H
  | H : (_ <=? _) = false |- _ => apply Z.leb_gt in H
  | H : (_ <? _) = true |- _ => apply Z.ltb_lt in H
  | H : (_ <? _) = false |- _ => apply Z.ltb_ge in H
  | H : (_ =? _) = true |- _ => apply Z.eqb_eq in H
  | H : (_ =? _) = false |- _ => apply Z.eqb_neq in H
  | H : between _ _ _ = true |- _ => unfold between in H
  end.

(** Splits the guards that failed, one goal for each way they can fail. *)
Ltac bool_cases :=
  bool_hyps;
  repeat match goal with
  | H : (_ && _) = false |- _ => apply andb_false_iff in H as [H|H]; bool_hyps
  | H : (_ || _) = true |- _ => apply orb_true_iff in H as [H|H]; bool_hyps
  end.

(** Case analysis on every guard of the goal, with the guards as hypotheses. *)
Ltac guards :=
  repeat match goal with
  | |- context [if ?b then _ else _] =>
      lazymatch type of b with
      | bool => destruct b eqn:?; bool_hyps
      | _ => destruct b
      end
  end.

(** ** Checked arithmetic *)

Lemma checked_add_Some a b c : checked_add a b = Some c <-> c = a + b /\ a + b < 2 ^ 64.
Proof. unfold checked_add. guards; (split; [intros; simplify_eq; lia | intros [-> ?]; first [done | lia]]). Qed.

Lemma checked_add_small a b : a + b < 2 ^ 64 -> checked_add a b = Some (a + b).
Proof. intros. by apply checked_add_Some. Qed.

Lemma checked_sub_Some a b c : checked_sub a b = Some c <-> c = a - b /\ b <= a.
Proof. unfold checked_sub. guards; (split; [intros; simplify_eq; lia | intros [-> ?]; first [done | lia]]). Qed.

Lemma checked_mul_Some a b c : checked_mul a b = Some c <-> c = a * b /\ a * b < 2 ^ 64.
Proof. unfold checked_mul. guards; (split; [intros; simplify_eq; lia | intros [-> ?]; first [done | lia]]). Qed.

Lemma u8_range v : 0 <= u8 v < 2 ^ 8.
Proof. apply Z.mod_pos_bound. lia. Qed.
Lemma u16_range v : 0 <= u16 v < 2 ^ 16.
Proof. apply Z.mod_pos_bound. lia. Qed.
Lemma u32_range v : 0 <= u32 v < 2 ^ 32.
Proof. apply Z.mod_pos_bound. lia. Qed.
Lemma u64_range v : 0 <= u64 v < 2 ^ 64.
Proof. apply Z.mod_pos_bound. lia. Qed.

Lemma u16_small v : 0 <= v < 2 ^ 16 -> u16 v = v.
Proof. apply Z.mod_small. Qed.
Lemma u32_small v : 0 <= v < 2 ^ 32 -> u32 v = v.
Proof. apply Z.mod_small. Qed.
Lemma u64_small v : 0 <= v < 2 ^ 64 -> u64 v = v.
Proof. apply Z.mod_small. Qed.
Lemma add64_small a b : 0 <= a + b < 2 ^ 64 -> add64 a b = a + b.
Proof. apply Z.mod_small. Qed.

#[export] Hint Resolve u8_range u16_range u32_range u64_range : hvi.

(** ** Byte strings and integers *)

Lemma length_le_bytes n v : length (le_bytes n v) = n.
Proof. revert v. induction n; simpl; auto. Qed.

Lemma zlen_le_bytes n v : zlen (le_bytes n v) = Z.of_nat n.
Proof. unfold zlen. by rewrite length_le_bytes. Qed.

Lemma le_bytes_ok n v : bytes_ok (le_bytes n v).
Proof.
  revert v. induction n; intros v; constructor; [|apply IHn].
  apply Z.mod_pos_bound. lia.
Qed.

Lemma pow_8_S n : 2 ^ (8 * Z.of_nat (S n)) = 2 ^ 8 * 2 ^ (8 * Z.of_nat n).
Proof. rewrite <-Z.pow_add_r by lia. f_equal. lia. Qed.

Lemma le_val_range l : bytes_ok l -> 0 <= le_val l < 2 ^ (8 * zlen l).
Proof.
  induction 1 as [|b l [Hb1 Hb2] _ IH]; [done|].
  unfold zlen in *. cbn [length le_val]. rewrite pow_8_S. nia.
Qed.

Lemma le_val_le_bytes n v : 0 <= v < 2 ^ (8 * Z.of_nat n) -> le_val (le_bytes n v) = v.
Proof.
  revert v. induction n as [|n IH]; intros v Hv; cbn [le_val le_bytes]; [cbn in Hv; lia|].
  rewrite pow_8_S in Hv. rewrite IH.
  - rewrite Z.add_comm. symmetry. apply Z.div_mod. lia.
  - split; [apply Z.div_pos; lia | apply Z.div_lt_upper_bound; lia].
Qed.

Lemma le_bytes_le_val l : bytes_ok l -> le_bytes (length l) (le_val l) = l.
Proof.
  induction 1 as [|b l [Hb1 Hb2] _ IH]; [done|]. simpl.
  change (Z.pow_pos 2 8) with (2 ^ 8). f_equal.
  - rewrite (Z.mul_comm (2 ^ 8)), Z.mod_add by lia. by apply Z.mod_small.
  - rewrite (Z.mul_comm (2 ^ 8)), Z.div_add by lia. rewrite Z.div_small by lia. exact IH.
Qed.

Lemma bytes_ok_app l k : bytes_ok (l ++ k) <-> bytes_ok l /\ bytes_ok k.
Proof. apply Forall_app. Qed.
Lemma bytes_ok_take n l : bytes_ok l -> bytes_ok (take n l).
Proof. apply Forall_take. Qed.
Lemma bytes_ok_drop n l : bytes_ok l -> bytes_ok (drop n l).
Proof. apply Forall_drop. Qed.
Lemma bytes_ok_rev l : bytes_ok l -> bytes_ok (rev l).
Proof. unfold bytes_ok. rewrite rev_alt. apply Forall_reverse. Qed.
Lemma bytes_ok_replicate0 n : bytes_ok (replicate n 0).
Proof. apply Forall_replicate. unfold byte_ok. lia. Qed.

#[export] Hint Rewrite zlen_le_bytes : hvi.
#[export] Hint Resolve le_bytes_ok bytes_ok_take bytes_ok_drop bytes_ok_rev
  bytes_ok_replicate0 : hvi.

Lemma length_be_bytes n v : length (be_bytes n v) = n.
Proof. unfold be_bytes. by rewrite length_rev, length_le_bytes. Qed.

Lemma zlen_be_bytes n v : zlen (be_bytes n v) = Z.of_nat n.
Proof. unfold zlen. by rewrite length_be_bytes. Qed.

Lemma be_bytes_ok n v : bytes_ok (be_bytes n v).
Proof. apply bytes_ok_rev, le_bytes_ok. Qed.

Lemma be_val_be_bytes n v : 0 <= v < 2 ^ (8 * Z.of_nat n) -> be_val (be_bytes n v) = v.
Proof. unfold be_val, be_bytes. rewrite rev_involutive. apply le_val_le_bytes. Qed.

Lemma be_val_range l : bytes_ok l -> 0 <= be_val l < 2 ^ (8 * zlen l).
Proof.
  intros H. unfold be_val. rewrite <-(zlen_rev l). apply le_val_range. by apply bytes_ok_rev.
Qed.

#[export] Hint Rewrite zlen_be_bytes : hvi.
#[export] Hint Resolve be_bytes_ok : hvi.

(** ** Subslices *)

Lemma get_range_Some {A} (l : list A) a b k :
  get_range l a b = Some k <->
  0 <= a <= b /\ b <= zlen l /\ k = take (Z.to_nat (b - a)) (drop (Z.to_nat a) l).
Proof. unfold get_range. guards; (split; [intros; simplify_eq; repeat split; try done; lia
   | intros (? & ? & ->); first [done | exfalso; bool_cases; lia]]).
Qed.

Lemma get_range_app3 {A} (l1 l2 l3 : list A) a b :
  a = zlen l1 -> b = zlen l1 + zlen l2 -> get_range (l1 ++ l2 ++ l3) a b = Some l2.
Proof.
  intros -> ->. apply get_range_Some. zsimp. zlen_pos.
  split; [lia|]. split; [lia|].
  replace (Z.to_nat (zlen l1 + zlen l2 - zlen l1)) with (length l2) by (unfold zlen; lia).
  replace (Z.to_nat (zlen l1)) with (length l1) by (unfold zlen; lia).
  by rewrite drop_app_length, take_app_length.
Qed.

Lemma get_from_Some {A} (l : list A) a k :
  get_from l a = Some k <-> 0 <= a <= zlen l /\ k = drop (Z.to_nat a) l.
Proof.
  unfold get_from. guards; (split; [intros; simplify_eq; repeat split; try done; lia
   | intros (? & ->); first [done | exfalso; bool_cases; lia]]).
Qed.

Lemma get_at_Some {A} (l : list A) i x : get_at l i = Some x -> 0 <= i < zlen l.
Proof.
  unfold get_at. guards; [|done]. intros H%lookup_lt_Some. unfold zlen. lia.
Qed.

Lemma get_at_is_Some {A} (l : list A) i : 0 <= i < zlen l -> is_Some (get_at l i).
Proof.
  intros. unfold get_at. destruct (Z.leb_spec 0 i); [|lia].
  apply lookup_lt_is_Some. unfold zlen in *. lia.
Qed.

Lemma sub_bytes_eq l a b :
  0 <= a <= b -> b <= zlen l -> sub_bytes l a b = take (Z.to_nat (b - a)) (drop (Z.to_nat a) l).
Proof.
  intros. unfold sub_bytes. by rewrite (proj2 (get_range_Some l a b (take (Z.to_nat (b - a)) (drop (Z.to_nat a) l)))).
Qed.

Lemma sub_bytes_ok l a b : bytes_ok l -> bytes_ok (sub_bytes l a b).
Proof.
  intros Hl. unfold sub_bytes. destruct (get_range l a b) as [k|] eqn:E; [|by constructor].
  apply get_range_Some in E as (_ & _ & ->). by apply bytes_ok_take, bytes_ok_drop.
Qed.

Lemma zlen_sub_bytes l a b : 0 <= a <= b -> b <= zlen l -> zlen (sub_bytes l a b) = b - a.
Proof. intros. rewrite sub_bytes_eq by done. zlia. Qed.

(** ** Bits *)

Lemma testbit_above v n i : 0 <= v < 2 ^ n -> 0 <= n <= i -> Z.testbit v i = false.
Proof. intros Hv Hi. rewrite <-(Z.mod_small v (2 ^ n)) by done. apply Z.mod_pow2_bits_high. lia. Qed.

(** Disjoint bit fields add up. *)
Lemma lor_shiftl_add a n lo : 0 <= n -> 0 <= lo < 2 ^ n -> Z.lor (Z.shiftl a n) lo = a * 2 ^ n + lo.
Proof.
  intros Hn Hlo. rewrite <-Z.shiftl_mul_pow2, <-Z.add_lor_land by done.
  enough (Z.land (Z.shiftl a n) lo = 0) as -> by (rewrite Z.add_0_r; done).
  apply Z.bits_inj'. intros i Hi. rewrite Z.land_spec, Z.shiftl_spec, Z.bits_0 by done.
  destruct (decide (i < n)).
  - by rewrite Z.testbit_neg_r by lia.
  - rewrite (testbit_above lo n i), andb_false_r by lia. done.
Qed.

Lemma land_high_mask v n k :
  0 <= n -> 0 <= k -> 0 <= v < 2 ^ (n + k) ->
  Z.land v (Z.shiftl (Z.ones k) n) = Z.shiftl (v / 2 ^ n) n.
Proof.
  intros Hn Hk Hv. rewrite <-Z.shiftr_div_pow2 by done.
  apply Z.bits_inj'. intros i Hi. rewrite Z.land_spec, !Z.shiftl_spec by done.
  destruct (decide (i < n)).
  - rewrite !(Z.testbit_neg_r _ (i - n)) by lia. apply andb_false_r.
  - rewrite Z.shiftr_spec by lia. replace (i - n + n) with i by lia.
    destruct (decide (i < n + k)).
    + rewrite Z.ones_spec_low by lia. apply andb_true_r.
    + rewrite (testbit_above v (n + k) i) by lia. done.
Qed.

(** A byte masked by one set bit. *)
Lemma land_bit v n : 0 <= n -> (Z.land v (2 ^ n) =? 0) = negb (Z.testbit v n).
Proof.
  intros Hn. destruct (Z.testbit v n) eqn:E; simpl.
  - apply Z.eqb_neq. intros H. assert (Z.testbit (Z.land v (2 ^ n)) n = true) as Ht.
    { rewrite Z.land_spec, E, Z.pow2_bits_true by done. done. }
    rewrite H, Z.bits_0 in Ht. done.
  - apply Z.eqb_eq, Z.bits_inj'. intros i Hi. rewrite Z.land_spec, Z.bits_0, Z.pow2_bits_eqb by done.
    destruct (Z.eqb_spec n i) as [<-|]; [by rewrite E|apply andb_false_r].
Qed.

Lemma lor_range v w n : 0 <= n -> 0 <= v < 2 ^ n -> 0 <= w < 2 ^ n -> 0 <= Z.lor v w < 2 ^ n.
Proof.
  intros Hn Hv Hw. replace (Z.lor v w) with (Z.lor v w mod 2 ^ n); [apply Z.mod_pos_bound; lia|].
  rewrite <-Z.land_ones, Z.land_lor_distr_l, !Z.land_ones, !Z.mod_small by done. done.
Qed.
