(* ===== verification/Memory.v ===== *)
(** * Guest RAM ([src/memory/guest.rs], [src/memory/region.rs])

    Guest RAM is a list of regions, each a guest-physical span mapped from one
    shareable object at a file offset. [GuestRam] keeps the accessor table
    ([mapped], in address order) and the object's bytes ([object], a byte that
    was never written reads 0). Two regions may map the same file offset, so the
    bytes live in the object and not in the region: a region only translates.

    Every accessor goes through [slice], which finds the one region that holds
    the whole range. [vm-memory]'s [get_slice] then re-checks the bound that
    [slice] established and hands out the bytes; it is part of the memory the
    model provides. A device operation runs on one state of RAM: what other
    vCPUs write meanwhile is what RAM holds when the next operation starts. *)

From S2P Require Import Prelude.
Local Open Scope Z_scope.

(** A guest-physical span and where it sits in the object that backs it. *)
Record RamRegion := mkRamRegion { gpa : Z; rsize : Z; file_offset : Z }.

#[export] Instance RamRegion_eq_dec : EqDecision RamRegion.
Proof. solve_decision. Defined.

Definition ALIGN : Z := 2 ^ 20.

(** What [GuestRam::new] refuses, all of it [InvalidInput] but [MmapFailed]. *)
Inductive MapError :=
  | EmptyRegion | Misaligned | PastObjectEnd | MmapFailed | Wraps
  | NoRegions | Overlap.

#[export] Instance MapError_eq_dec : EqDecision MapError.
Proof. solve_decision. Defined.

(** [RamRegion::map]: the checks in the order the code makes them. [mmap] says
    whether the host maps the region (and, on Linux, marks it [MADV_DONTDUMP]);
    [object_len] is the length the descriptor reports. *)
Definition region_map (mmap : RamRegion -> bool) (object_len : Z) (r : RamRegion)
    : RamRegion + MapError :=
  if rsize r =? 0 then inr EmptyRegion
  else if existsb (fun v => negb (v mod ALIGN =? 0)) [gpa r; rsize r; file_offset r]
  then inr Misaligned
  else match checked_add (file_offset r) (rsize r) with
  | None => inr PastObjectEnd
  | Some e =>
      if object_len <? e then inr PastObjectEnd
      else if negb (mmap r) then inr MmapFailed
      else match checked_add (gpa r) (rsize r) with
      | None => inr Wraps
      | Some _ => inl r
      end
  end.

(** [collect::<io::Result<Vec<_>>>()]: the first error, or every region. *)
Fixpoint map_all (mmap : RamRegion -> bool) (object_len : Z) (l : list RamRegion)
    : list RamRegion + MapError :=
  match l with
  | [] => inl []
  | r :: l =>
      match region_map mmap object_len r with
      | inr e => inr e
      | inl r =>
          match map_all mmap object_len l with
          | inr e => inr e
          | inl l => inl (r :: l)
          end
      end
  end.

Definition gpa_le (a b : RamRegion) : Prop := gpa a <= gpa b.
#[export] Instance gpa_le_dec a b : Decision (gpa_le a b).
Proof. unfold gpa_le. apply _. Defined.

(** The collection requires its regions disjoint in address order. *)
Fixpoint no_overlap (l : list RamRegion) : bool :=
  match l with
  | a :: (b :: _) as k => (gpa a + rsize a <=? gpa b) && no_overlap k
  | _ => true
  end.

(** Guest RAM: the accessor table and the bytes of the object behind it. *)
Record GuestRam := mkGuestRam { mapped : list RamRegion; object : gmap Z Z }.

(** [GuestRamView::from_arc_regions]: sorted by address, then refused when the
    list is empty or two regions overlap. *)
Definition from_arc_regions (l : list RamRegion) (obj : gmap Z Z) : GuestRam + MapError :=
  let l := merge_sort gpa_le l in
  match l with
  | [] => inr NoRegions
  | _ => if no_overlap l then inl (mkGuestRam l obj) else inr Overlap
  end.

(** [GuestRam::new] over a shared object of [object_len] bytes. *)
Definition new (mmap : RamRegion -> bool) (object_len : Z) (obj : gmap Z Z)
    (regions : list RamRegion) : GuestRam + MapError :=
  match map_all mmap object_len regions with
  | inr e => inr e
  | inl l => from_arc_regions l obj
  end.

(** Where region [r] keeps [g, g+len) in the object, when it holds all of it. *)
Definition resolve (r : RamRegion) (g len : Z) : option Z :=
  offset ← checked_sub g (gpa r);
  end_ ← checked_add offset len;
  if end_ <=? rsize r then Some (file_offset r + offset) else None.

(** [find_map] over the accessor table. *)
Fixpoint slice_in (l : list RamRegion) (g len : Z) : option Z :=
  match l with
  | [] => None
  | r :: l => match resolve r g len with Some p => Some p | None => slice_in l g len end
  end.

(** [GuestRamView::slice]: the object position of [g, g+len) when one region
    holds all of it. *)
Definition slice (m : GuestRam) (g len : Z) : option Z := slice_in (mapped m) g len.

Definition contains (m : GuestRam) (g len : Z) : bool :=
  match slice m g len with Some _ => true | None => false end.

(** One byte of the object. *)
Definition obj_byte (o : gmap Z Z) (p : Z) : Z := default 0 (o !! p).
Definition obj_bytes (o : gmap Z Z) (p len : Z) : list Z :=
  (fun i => obj_byte o (p + i)) <$> seqZ 0 len.
Fixpoint obj_store (o : gmap Z Z) (p : Z) (data : list Z) : gmap Z Z :=
  match data with
  | [] => o
  | b :: data => obj_store (<[p := b]> o) (p + 1) data
  end.

(** [GuestRamView::read], [GuestRam::write]: the range is resolved before any
    byte is copied. *)
Definition read (m : GuestRam) (g len : Z) : option (list Z) :=
  p ← slice m g len; Some (obj_bytes (object m) p len).
Definition write (m : GuestRam) (g : Z) (data : list Z) : option GuestRam :=
  p ← slice m g (zlen data); Some (mkGuestRam (mapped m) (obj_store (object m) p data)).

(** [load] and [store]: one little-endian integer of [n] bytes. *)
Definition load (n : nat) (m : GuestRam) (g : Z) : option Z := le_val <$> read m g (Z.of_nat n).
Definition store (n : nat) (m : GuestRam) (g v : Z) : option GuestRam := write m g (le_bytes n v).

Definition read_u16 := load 2.
Definition read_u32 := load 4.
Definition read_u64 := load 8.
Definition write_u8 := store 1.
Definition write_u16 := store 2.
Definition write_u32 := store 4.
Definition write_u64 := store 8.

(** [let _ = mem.write_*(..)]: a refused write changes nothing. *)
Definition ignore (m : GuestRam) (r : option GuestRam) : GuestRam := default m r.

(** The number of matches [scan] returns at most. *)
Definition SCAN_CAP : Z := 64.

(** The search loop of [scan] over one region's bytes [hay], from offset [i];
    the flag says that the cap ended it. The offset grows in every round, so
    the region's length bounds the rounds. *)
Fixpoint scan_loop (fuel : nat) (needle hay : list Z) (base i : Z) (out : list Z)
    : list Z * bool :=
  match fuel with
  | O => (out, false)
  | S fuel =>
      if i + zlen needle <=? zlen hay then
        if (byte_at hay i =? byte_at needle 0)
           && bool_decide (sub_bytes hay i (i + zlen needle) = needle)
        then
          let out := out ++ [base + i] in
          if SCAN_CAP <=? zlen out then (out, true)
          else scan_loop fuel needle hay base (i + zlen needle) out
        else scan_loop fuel needle hay base (i + 1) out
      else (out, false)
  end.

Definition region_bytes (o : gmap Z Z) (r : RamRegion) : list Z :=
  obj_bytes o (file_offset r) (rsize r).

Fixpoint scan_regions (o : gmap Z Z) (needle : list Z) (l : list RamRegion) (out : list Z)
    : list Z :=
  match l with
  | [] => out
  | r :: l =>
      let hay := region_bytes o r in
      match scan_loop (S (length hay)) needle hay (gpa r) 0 out with
      | (out, true) => out
      | (out, false) => scan_regions o needle l out
      end
  end.

(** [GuestRamView::scan]. *)
Definition scan (m : GuestRam) (needle : list Z) : list Z :=
  match needle with
  | [] => []
  | _ => scan_regions (object m) needle (mapped m) []
  end.

(** ** Well-formed RAM *)

(** A region as [map] accepts it. *)
Definition region_ok (r : RamRegion) : Prop :=
  0 <= gpa r /\ 0 < rsize r /\ gpa r + rsize r < 2 ^ 64 /\
  0 <= file_offset r /\ file_offset r + rsize r < 2 ^ 64.

Definition gpa_disjoint (a b : RamRegion) : Prop :=
  gpa a + rsize a <= gpa b \/ gpa b + rsize b <= gpa a.

(** No byte of the object is mapped twice. [new] does not check it; the
    architectures' region lists have it. *)
Definition file_disjoint (a b : RamRegion) : Prop :=
  file_offset a + rsize a <= file_offset b \/ file_offset b + rsize b <= file_offset a.

Definition pairwise (R : RamRegion -> RamRegion -> Prop) (l : list RamRegion) : Prop :=
  forall a b, a ∈ l -> b ∈ l -> a = b \/ R a b.

Record ram_ok (m : GuestRam) : Prop := {
  ok_regions : Forall region_ok (mapped m);
  ok_gpa : pairwise gpa_disjoint (mapped m);
  ok_file : pairwise file_disjoint (mapped m);
  ok_bytes : map_Forall (fun _ b => byte_ok b) (object m);
}.

(** The byte the guest sees at [a]. *)
Definition mem_byte (m : GuestRam) (a : Z) : option Z := obj_byte (object m) <$> slice m a 1.

(** ** Translation *)

Lemma resolve_Some r g len p :
  resolve r g len = Some p <->
  gpa r <= g /\ g - gpa r + len <= rsize r /\ g - gpa r + len < 2 ^ 64 /\
  p = file_offset r + (g - gpa r).
Proof.
  unfold resolve. rewrite bind_Some. split.
  - intros (o & [-> Ho]%checked_sub_Some & H). apply bind_Some in H as (e & [-> He]%checked_add_Some & H).
    destruct (Z.leb_spec (g - gpa r + len) (rsize r)); simplify_eq. lia.
  - intros (? & ? & ? & ->). exists (g - gpa r). rewrite checked_sub_Some. split; [lia|].
    rewrite bind_Some. exists (g - gpa r + len). rewrite checked_add_Some. split; [lia|].
    destruct (Z.leb_spec (g - gpa r + len) (rsize r)); [done|lia].
Qed.

Lemma slice_in_Some l g len p :
  slice_in l g len = Some p -> exists r, r ∈ l /\ resolve r g len = Some p.
Proof.
  induction l as [|r l IH]; simpl; [done|].
  destruct (resolve r g len) eqn:E; intros; simplify_eq.
  - exists r. split; [apply list_elem_of_here|done].
  - destruct IH as (r' & ? & ?); [done|]. exists r'. split; [by apply list_elem_of_further|done].
Qed.

Lemma slice_in_is_Some l g len r :
  r ∈ l -> is_Some (resolve r g len) -> is_Some (slice_in l g len).
Proof.
  intros Hr HR. induction Hr as [r l|r r' l _ IH]; simpl.
  - destruct HR as [p ->]. eauto.
  - destruct (resolve r' g len); eauto.
Qed.

Lemma contains_slice m g len : contains m g len = true <-> is_Some (slice m g len).
Proof. unfold contains. destruct (slice m g len); split; intros; eauto; [done|by destruct H]. Qed.

Lemma contains_region m g len :
  ram_ok m -> 0 <= len ->
  contains m g len = true <->
  exists r, r ∈ mapped m /\ gpa r <= g /\ g + len <= gpa r + rsize r.
Proof.
  intros Hok Hlen. pose proof (ok_regions m Hok) as HR. rewrite Forall_forall in HR.
  rewrite contains_slice. split.
  - intros [p Hp]. apply slice_in_Some in Hp as (r & ? & ?%resolve_Some). exists r. split; [done|lia].
  - intros (r & Hr & ? & ?). apply (slice_in_is_Some _ _ _ r); [done|].
    destruct (HR r Hr) as (? & ? & ? & ?).
    exists (file_offset r + (g - gpa r)). apply resolve_Some. lia.
Qed.

(** The region that serves a non-empty range is unique. *)
Lemma slice_region m g len p r :
  ram_ok m -> 0 < len -> slice m g len = Some p -> r ∈ mapped m ->
  gpa r <= g < gpa r + rsize r ->
  p = file_offset r + (g - gpa r) /\ g + len <= gpa r + rsize r.
Proof.
  intros Hok Hlen Hs Hr Hg.
  apply slice_in_Some in Hs as (r' & Hr' & (? & ? & ? & ->)%resolve_Some).
  destruct (ok_gpa m Hok r r' Hr Hr') as [<-|[?|?]]; lia.
Qed.

Lemma slice_sub m g len p i k :
  ram_ok m -> slice m g len = Some p -> 0 <= i -> 0 < k -> i + k <= len ->
  slice m (g + i) k = Some (p + i).
Proof.
  intros Hok Hs Hi Hk Hik.
  apply slice_in_Some in Hs as (r & Hr & (? & ? & ? & ->)%resolve_Some).
  assert (is_Some (slice m (g + i) k)) as [q Hq].
  { apply (slice_in_is_Some _ _ _ r); [done|]. exists (file_offset r + (g + i - gpa r)).
    apply resolve_Some. lia. }
  destruct (slice_region m (g + i) k q r) as [-> _]; [done..|lia|]. rewrite Hq. f_equal. lia.
Qed.

Lemma contains_sub m g len i k :
  ram_ok m -> contains m g len = true -> 0 <= i -> 0 < k -> i + k <= len ->
  contains m (g + i) k = true.
Proof.
  rewrite !contains_slice. intros Hok [p Hp] Hi Hk Hik.
  rewrite (slice_sub m g len p i k) by done. eauto.
Qed.

Lemma contains_range m g len :
  ram_ok m -> 0 <= len -> contains m g len = true -> 0 <= g /\ g + len < 2 ^ 64.
Proof.
  intros Hok Hlen (r & Hr & ? & ?)%contains_region; [|done..].
  pose proof (ok_regions m Hok) as HR. rewrite Forall_forall in HR.
  destruct (HR r Hr) as (? & ? & ? & ?). lia.
Qed.

Lemma slice_inj m a b p :
  ram_ok m -> slice m a 1 = Some p -> slice m b 1 = Some p -> a = b.
Proof.
  intros Hok Ha Hb.
  apply slice_in_Some in Ha as (r & Hr & (? & ? & ? & ->)%resolve_Some).
  apply slice_in_Some in Hb as (s & Hs & (? & ? & ? & E)%resolve_Some).
  destruct (ok_file m Hok r s Hr Hs) as [<-|[?|?]]; lia.
Qed.

(** ** The object's bytes *)

Lemma obj_byte_insert o p b q : obj_byte (<[p:=b]> o) q = if p =? q then b else obj_byte o q.
Proof.
  unfold obj_byte. destruct (Z.eqb_spec p q) as [->|]; [by rewrite lookup_insert_eq|].
  by rewrite lookup_insert_ne.
Qed.

Lemma obj_byte_store o p data q :
  obj_byte (obj_store o p data) q =
  if (p <=? q) && (q <? p + zlen data) then byte_at data (q - p) else obj_byte o q.
Proof.
  revert o p. induction data as [|b data IH]; intros o p; simpl.
  - rewrite zlen_nil. guards; [lia|done].
  - rewrite IH, obj_byte_insert, zlen_cons. unfold byte_at, get_at.
    destruct (Z.eqb_spec p q) as [->|Hne].
    + destruct (Z.leb_spec (q + 1) q); [lia|]. simpl.
      destruct (Z.leb_spec q q); [|lia]. zlen_pos. destruct (Z.ltb_spec q (q + (1 + zlen data))); [|lia].
      simpl. by rewrite Z.sub_diag.
    + destruct (Z.leb_spec (p + 1) q), (Z.leb_spec p q); simpl; try lia.
      replace (q <? p + 1 + zlen data) with (q <? p + (1 + zlen data)) by (f_equal; lia).
      destruct (q <? p + (1 + zlen data)); [|done].
      destruct (Z.leb_spec 0 (q - (p + 1))), (Z.leb_spec 0 (q - p)); try lia.
      replace (Z.to_nat (q - p)) with (S (Z.to_nat (q - (p + 1)))) by lia. done.
Qed.

Lemma get_at_obj_bytes o p len i :
  0 <= i < len -> get_at (obj_bytes o p len) i = Some (obj_byte o (p + i)).
Proof.
  intros Hi. unfold get_at, obj_bytes. destruct (Z.leb_spec 0 i); [|lia].
  rewrite list_lookup_fmap, lookup_seqZ_lt by lia. simpl. f_equal. f_equal. lia.
Qed.

Lemma zlen_obj_bytes o p len : 0 <= len -> zlen (obj_bytes o p len) = len.
Proof. intros. unfold obj_bytes. by rewrite zlen_fmap, zlen_seqZ. Qed.

Lemma obj_bytes_ok o p len :
  map_Forall (fun _ b => byte_ok b) o -> bytes_ok (obj_bytes o p len).
Proof.
  intros Ho. apply Forall_fmap, Forall_forall. intros i _. simpl. unfold obj_byte.
  destruct (o !! (p + i)) eqn:E; simpl; [by eapply Ho|unfold byte_ok; lia].
Qed.

Lemma obj_store_ok o p data :
  map_Forall (fun _ b => byte_ok b) o -> bytes_ok data ->
  map_Forall (fun _ b => byte_ok b) (obj_store o p data).
Proof.
  intros Ho Hd. revert o p Ho. induction Hd as [|b data Hb _ IH]; intros o p Ho; simpl; [done|].
  apply IH. by apply map_Forall_insert_2.
Qed.

(** Two byte strings of one length are equal when [get_at] agrees. *)
Lemma bytes_ext (l k : list Z) :
  zlen l = zlen k -> (forall i, 0 <= i < zlen l -> get_at l i = get_at k i) -> l = k.
Proof.
  intros Hlen H. apply list_eq. intros i. destruct (decide (i < length l)%nat) as [Hi|Hi].
  - specialize (H (Z.of_nat i)). unfold get_at in H. rewrite Nat2Z.id in H.
    destruct (Z.leb_spec 0 (Z.of_nat i)); [apply H; unfold zlen; lia|lia].
  - rewrite !lookup_ge_None_2; unfold zlen in *; [done|lia..].
Qed.

(** ** Reads and writes, byte by byte *)

Lemma mem_byte_slice m a v :
  mem_byte m a = Some v <-> exists p, slice m a 1 = Some p /\ v = obj_byte (object m) p.
Proof.
  unfold mem_byte. rewrite fmap_Some. split; intros (p & ? & ->); eauto.
Qed.

Lemma mem_byte_contains m a : is_Some (mem_byte m a) <-> contains m a 1 = true.
Proof. rewrite contains_slice. unfold mem_byte. by rewrite fmap_is_Some. Qed.

Lemma read_contains m g len : is_Some (read m g len) <-> contains m g len = true.
Proof.
  rewrite contains_slice. unfold read. destruct (slice m g len); simpl; split; intros [? ?]; eauto; done.
Qed.

Lemma read_ok m g len bs :
  ram_ok m -> 0 <= len -> read m g len = Some bs ->
  zlen bs = len /\ bytes_ok bs /\ (forall i, 0 <= i < len -> mem_byte m (g + i) = get_at bs i).
Proof.
  intros Hok Hlen H. apply bind_Some in H as (p & Hp & [= <-]).
  split; [by apply zlen_obj_bytes|]. split; [apply obj_bytes_ok, Hok|].
  intros i Hi. rewrite get_at_obj_bytes by done. unfold mem_byte.
  by rewrite (slice_sub m g len p i 1) by (done || lia).
Qed.

Lemma read_bytes_ok m g len bs : ram_ok m -> read m g len = Some bs -> bytes_ok bs.
Proof. intros Hok E. apply bind_Some in E as (p & _ & [= <-]). apply obj_bytes_ok, Hok. Qed.

(** A read is determined by the bytes it covers. *)
Lemma read_intro m g bs :
  ram_ok m -> contains m g (zlen bs) = true ->
  (forall i, 0 <= i < zlen bs -> mem_byte m (g + i) = get_at bs i) ->
  read m g (zlen bs) = Some bs.
Proof.
  intros Hok Hc H. apply read_contains in Hc as [bs' Hbs'].
  pose proof (zlen_nonneg bs).
  destruct (read_ok m g (zlen bs) bs' Hok) as (Hl & _ & Hb); [done..|].
  rewrite Hbs'. f_equal. apply bytes_ext; [done|]. intros i Hi.
  rewrite <-Hb, H by lia. done.
Qed.

Lemma write_contains m g data : is_Some (write m g data) <-> contains m g (zlen data) = true.
Proof.
  rewrite contains_slice. unfold write.
  destruct (slice m g (zlen data)); simpl; split; intros [? ?]; eauto; done.
Qed.

Lemma write_mapped m g data m' : write m g data = Some m' -> mapped m' = mapped m.
Proof. intros H. by apply bind_Some in H as (p & _ & [= <-]). Qed.

Lemma slice_mapped m m' g len : mapped m' = mapped m -> slice m' g len = slice m g len.
Proof. unfold slice. by intros ->. Qed.

Lemma contains_mapped m m' g len : mapped m' = mapped m -> contains m' g len = contains m g len.
Proof. intros. unfold contains. by rewrite (slice_mapped m m'). Qed.

Lemma write_ram_ok m g data m' :
  ram_ok m -> bytes_ok data -> write m g data = Some m' -> ram_ok m'.
Proof.
  intros [Hr Hg Hf Hb] Hd H. apply bind_Some in H as (p & _ & [= <-]).
  split; simpl; try done. by apply obj_store_ok.
Qed.

Lemma write_byte m g data m' a :
  ram_ok m -> write m g data = Some m' ->
  mem_byte m' a = if (g <=? a) && (a <? g + zlen data) then get_at data (a - g) else mem_byte m a.
Proof.
  intros Hok H. apply bind_Some in H as (p & Hp & [= <-]).
  unfold mem_byte. rewrite (slice_mapped m) by done.
  destruct ((g <=? a) && (a <? g + zlen data)) eqn:E; bool_hyps.
  - pose proof (slice_sub m g (zlen data) p (a - g) 1 Hok Hp) as Hs.
    rewrite Zplus_minus in Hs. rewrite Hs by lia. simpl. rewrite obj_byte_store.
    replace ((p <=? p + (a - g)) && (p + (a - g) <? p + zlen data)) with true by lia.
    replace (p + (a - g) - p) with (a - g) by lia. unfold byte_at.
    destruct (get_at_is_Some data (a - g)) as [v ->]; [lia|done].
  - destruct (slice m a 1) as [q|] eqn:Ha; [|done]. simpl. f_equal. rewrite obj_byte_store.
    destruct ((p <=? q) && (q <? p + zlen data)) eqn:Eq; [|done]. bool_hyps.
    exfalso. pose proof (slice_sub m g (zlen data) p (q - p) 1 Hok Hp) as Hs.
    rewrite Zplus_minus in Hs. rewrite (slice_inj m a (g + (q - p)) q) in E; [|done|done|apply Hs; lia].
    bool_cases; lia.
Qed.

(** The frame rule: a read outside the written range is unchanged. *)
Lemma write_read_disjoint m g data m' h len :
  ram_ok m -> write m g data = Some m' -> 0 <= len -> bytes_ok data ->
  h + len <= g \/ g + zlen data <= h ->
  read m' h len = read m h len.
Proof.
  intros Hok Hw Hlen Hd Hdis.
  pose proof (write_ram_ok _ _ _ _ Hok Hd Hw) as Hok'.
  destruct (read m h len) as [bs|] eqn:Hr.
  - destruct (read_ok m h len bs Hok Hlen Hr) as (Hl & _ & Hb). rewrite <-Hl.
    apply read_intro; [done| |].
    + rewrite (contains_mapped m) by (by eapply write_mapped). apply read_contains. rewrite Hl. eauto.
    + intros i Hi. rewrite (write_byte _ _ _ _ _ Hok Hw).
      replace ((g <=? h + i) && (h + i <? g + zlen data)) with false by lia. apply Hb. lia.
  - destruct (read m' h len) eqn:Hr'; [|done]. exfalso.
    assert (is_Some (read m h len)) as [? ?]; [|congruence].
    apply read_contains. rewrite <-(contains_mapped m m') by (by eapply write_mapped).
    apply read_contains. eauto.
Qed.

Lemma write_read_same m g data m' :
  ram_ok m -> bytes_ok data -> write m g data = Some m' -> read m' g (zlen data) = Some data.
Proof.
  intros Hok Hd Hw. apply read_intro; [by eapply write_ram_ok| |].
  - rewrite (contains_mapped m) by (by eapply write_mapped). apply write_contains. eauto.
  - intros i Hi. rewrite (write_byte _ _ _ _ _ Hok Hw).
    replace ((g <=? g + i) && (g + i <? g + zlen data)) with true by lia.
    f_equal. lia.
Qed.

(** ** Little-endian accesses *)

Lemma store_load_same n m g v m' :
  ram_ok m -> 0 <= v < 2 ^ (8 * Z.of_nat n) -> store n m g v = Some m' -> load n m' g = Some v.
Proof.
  intros Hok Hv Hs. unfold load. rewrite <-(zlen_le_bytes n v).
  rewrite (write_read_same m) by (auto with hvi). simpl. by rewrite le_val_le_bytes.
Qed.

Lemma store_load_disjoint n k m g v m' h :
  ram_ok m -> store n m g v = Some m' ->
  h + Z.of_nat k <= g \/ g + Z.of_nat n <= h -> load k m' h = load k m h.
Proof.
  intros Hok Hs Hd. unfold load. f_equal. eapply write_read_disjoint; try done; auto with hvi; [lia|].
  rewrite zlen_le_bytes. lia.
Qed.

Lemma store_ram_ok n m g v m' : ram_ok m -> store n m g v = Some m' -> ram_ok m'.
Proof. intros. eapply write_ram_ok; try done. auto with hvi. Qed.

Lemma store_mapped n m g v m' : store n m g v = Some m' -> mapped m' = mapped m.
Proof. apply write_mapped. Qed.

Lemma store_contains n m g v : is_Some (store n m g v) <-> contains m g (Z.of_nat n) = true.
Proof. unfold store. rewrite write_contains. by rewrite zlen_le_bytes. Qed.

Lemma load_contains n m g : is_Some (load n m g) <-> contains m g (Z.of_nat n) = true.
Proof. unfold load. rewrite fmap_is_Some. apply read_contains. Qed.

Lemma load_range n m g v : ram_ok m -> load n m g = Some v -> 0 <= v < 2 ^ (8 * Z.of_nat n).
Proof.
  intros Hok H. apply fmap_Some in H as (bs & Hbs & ->).
  destruct (read_ok m g (Z.of_nat n) bs Hok) as (Hl & Hb & _); [lia|done|].
  rewrite <-Hl. by apply le_val_range.
Qed.

#[export] Hint Resolve store_ram_ok write_ram_ok store_mapped write_mapped : hvi.

(** ** How device operations change RAM: its bytes, never its layout *)

Definition ram_evolves (m m' : GuestRam) : Prop :=
  (ram_ok m -> ram_ok m') /\ mapped m' = mapped m.

#[export] Instance ram_evolves_preorder : PreOrder ram_evolves.
Proof.
  split; [by split|]. intros m1 m2 m3 [H1 E1] [H2 E2]. split; [auto|congruence].
Qed.

Lemma write_evolves m g data m' : bytes_ok data -> write m g data = Some m' -> ram_evolves m m'.
Proof. split; [intros; by eapply write_ram_ok|by eapply write_mapped]. Qed.

Lemma store_evolves n m g v m' : store n m g v = Some m' -> ram_evolves m m'.
Proof. split; [intros; by eapply store_ram_ok|by eapply store_mapped]. Qed.

Lemma ignore_store_evolves n m g v : ram_evolves m (ignore m (store n m g v)).
Proof. unfold ignore. destruct (store n m g v) eqn:E; [by eapply store_evolves|done]. Qed.

#[export] Hint Resolve write_evolves store_evolves ignore_store_evolves : hvi.

(** ** Construction *)

(** What a [RamRegion] built from [u64] fields satisfies. *)
Definition region_u64 (r : RamRegion) : Prop :=
  0 <= gpa r < 2 ^ 64 /\ 0 <= rsize r < 2 ^ 64 /\ 0 <= file_offset r < 2 ^ 64.

(** What [map] asks of a region: non-empty, 1 MiB-aligned, inside the object
    and inside the address space. *)
Definition region_fits (object_len : Z) (r : RamRegion) : Prop :=
  rsize r <> 0 /\ gpa r mod ALIGN = 0 /\ rsize r mod ALIGN = 0 /\ file_offset r mod ALIGN = 0 /\
  file_offset r + rsize r <= object_len /\ file_offset r + rsize r < 2 ^ 64 /\
  gpa r + rsize r < 2 ^ 64.

Lemma region_map_inl mmap object_len r r' :
  region_map mmap object_len r = inl r' <->
  r' = r /\ region_fits object_len r /\ mmap r = true.
Proof.
  unfold region_map, region_fits. cbn [existsb]. split.
  - intros H. destruct (Z.eqb_spec (rsize r) 0); [done|].
    destruct (_ || _) eqn:E; [done|]. bool_hyps.
    destruct (checked_add (file_offset r) _) as [e|] eqn:E1; [|done].
    apply checked_add_Some in E1 as [-> ?]. destruct (Z.ltb_spec object_len (file_offset r + rsize r)); [done|].
    destruct (mmap r); [|done]. simpl in H.
    destruct (checked_add (gpa r) _) eqn:E2; [|done]. apply checked_add_Some in E2 as [_ ?].
    simplify_eq. repeat split; done || lia.
  - intros (-> & (Hs & -> & -> & -> & ? & ? & ?) & ->).
    rewrite (proj2 (Z.eqb_neq _ _)) by done. simpl. rewrite checked_add_small by done.
    destruct (Z.ltb_spec object_len (file_offset r + rsize r)); [lia|].
    by rewrite checked_add_small.
Qed.

Lemma map_all_inl mmap object_len l l' :
  map_all mmap object_len l = inl l' <->
  l' = l /\ Forall (fun r => region_fits object_len r /\ mmap r = true) l.
Proof.
  revert l'. induction l as [|r l IH]; intros l'; simpl.
  - split; [intros [= <-]; done|]. by intros [-> _].
  - destruct (region_map mmap object_len r) as [r'|e] eqn:E.
    + apply region_map_inl in E as (-> & ? & ?).
      destruct (map_all mmap object_len l) as [k|e] eqn:Ek.
      * specialize (IH k). destruct (proj1 IH eq_refl) as [-> Hl].
        split; [intros [= <-]; split; [done|by constructor]|]. by intros [-> _].
      * split; [done|]. intros [-> Hl]. inversion Hl as [|? ? ? Hl']; subst.
        by pose proof (proj2 (IH l) (conj eq_refl Hl')).
    + split; [done|]. intros [-> Hl]. inversion Hl as [|? ? [? ?]]; subst.
      assert (region_map mmap object_len r = inl r) as Hr by by apply region_map_inl. congruence.
Qed.

(** Consecutive disjointness over an address-ordered list is disjointness. *)
Lemma no_overlap_pairwise l :
  Forall (fun r => 0 < rsize r) l -> no_overlap l = true ->
  StronglySorted (fun a b => gpa a + rsize a <= gpa b) l.
Proof.
  induction l as [|a [|b l] IH]; intros Hpos H.
  - constructor.
  - repeat constructor.
  - cbn [no_overlap] in H. bool_hyps. inversion Hpos as [|? ? ? Hpos']; subst.
    specialize (IH Hpos' ltac:(done)). inversion IH as [|? ? ? Hb]; subst.
    constructor; [done|]. constructor; [lia|].
    rewrite Forall_forall in Hb |- *. intros c Hc. specialize (Hb c Hc).
    inversion Hpos'; subst. lia.
Qed.

Lemma strongly_disjoint_pairwise l :
  StronglySorted (fun a b => gpa a + rsize a <= gpa b) l -> pairwise gpa_disjoint l.
Proof.
  induction 1 as [|r l _ IH Hr]; intros a b; [set_solver|].
  rewrite Forall_forall in Hr. rewrite !elem_of_cons. unfold gpa_disjoint.
  intros [->|Ha] [->|Hb]; auto.
Qed.

(** Disjoint regions sorted by address pass the collection's check. *)
Lemma sorted_no_overlap l :
  Forall (fun r => 0 < rsize r) l -> StronglySorted gpa_le l -> NoDup l ->
  pairwise gpa_disjoint l -> no_overlap l = true.
Proof.
  intros Hpos Hs Hnd Hd. induction Hs as [|a l Hs IH Ha]; [done|].
  inversion Hpos as [|? ? ? Hpos']; inversion Hnd as [|? ? Hna Hnd']; subst.
  destruct l as [|b l]; [done|]. cbn [no_overlap]. apply andb_true_iff. split.
  - apply Z.leb_le. inversion Ha as [|? ? Hab _]; subst. inversion Hpos'; subst.
    destruct (Hd a b) as [->|[?|?]]; [set_solver..| |done|].
    + set_solver.
    + unfold gpa_le in Hab. lia.
  - apply IH; [done..|]. intros c d ? ?. apply Hd; by apply list_elem_of_further.
Qed.

#[export] Instance gpa_le_total : Total gpa_le.
Proof. intros a b. unfold gpa_le. lia. Qed.
#[export] Instance gpa_le_trans : Transitive gpa_le.
Proof. intros a b c. unfold gpa_le. lia. Qed.

(** [GuestRam::new] accepts a region list exactly when it is not empty,
    every region is non-empty, 1 MiB-aligned, inside the object and inside the
    64-bit address space, the host maps each one, and the regions are pairwise
    disjoint in guest-physical space, whatever order they come in; the accessor
    table it then builds is the list sorted by address. *)
Theorem new_accepts (mmap : RamRegion -> bool) (object_len : Z) (obj : gmap Z Z)
    (regions : list RamRegion) (m : GuestRam) :
  Forall region_u64 regions ->
  new mmap object_len obj regions = inl m <->
  regions <> [] /\
  Forall (fun r => region_fits object_len r /\ mmap r = true) regions /\
  NoDup regions /\ pairwise gpa_disjoint regions /\
  object m = obj /\ mapped m = merge_sort gpa_le regions.
Proof.
  intros Hu. unfold new.
  assert (Forall (fun r => region_fits object_len r /\ mmap r = true) regions ->
          Forall (fun r => 0 < rsize r) (merge_sort gpa_le regions)) as Hpos.
  { rewrite merge_sort_Permutation. intros HF. rewrite Forall_forall in Hu, HF |- *.
    intros r Hr. destruct (HF r Hr) as [(? & _) _]. destruct (Hu r Hr) as (_ & ? & _). lia. }
  destruct (map_all mmap object_len regions) as [l|e] eqn:E.
  - apply map_all_inl in E as [-> HF]. unfold from_arc_regions.
    destruct (merge_sort gpa_le regions) as [|r l] eqn:Es.
    + split; [done|]. intros (Hne & _). exfalso. apply Hne.
      apply Permutation_nil. rewrite <-Es. by rewrite merge_sort_Permutation.
    + rewrite <-Es in *. pose proof (merge_sort_Permutation gpa_le regions) as HP. split.
      * destruct (no_overlap (merge_sort gpa_le regions)) eqn:En; [|done]. intros [= <-].
        pose proof (no_overlap_pairwise _ (Hpos HF) En) as Hss.
        split; [intros ->; by rewrite Es in HP; apply Permutation_nil_r in HP|].
        split; [done|]. split; [|split; [|done]].
        -- rewrite <-HP. clear -Hss Hpos HF. specialize (Hpos HF).
           induction Hss as [|a k _ IH Ha]; [constructor|]. inversion Hpos; subst.
           constructor; [|auto]. rewrite Forall_forall in Ha. intros Hin%Ha. lia.
        -- intros a b Ha Hb. rewrite <-HP in Ha, Hb. by apply strongly_disjoint_pairwise in Hss; apply Hss.
      * intros (_ & _ & Hnd & Hd & Ho & Hm).
        rewrite sorted_no_overlap; [by rewrite <-Ho, <-Hm; destruct m| | | |].
        -- auto.
        -- apply StronglySorted_merge_sort; apply _.
        -- by rewrite HP.
        -- intros a b Ha Hb. rewrite HP in Ha, Hb. by apply Hd.
  - split; [done|]. intros (_ & HF & _).
    assert (map_all mmap object_len regions = inl regions) by by apply map_all_inl. congruence.
Qed.

(** A write stays where it was aimed: it succeeds exactly when one region
    holds the whole range, the range then reads back the data, every read of
    other addresses is unchanged, and the regions stay as they were. *)
Theorem write_then_read (m : GuestRam) (g : Z) (data : list Z) :
  ram_ok m -> bytes_ok data ->
  match write m g data with
  | None => contains m g (zlen data) = false
  | Some m' =>
      ram_ok m' /\ mapped m' = mapped m /\ contains m g (zlen data) = true /\
      read m' g (zlen data) = Some data /\
      forall h len, 0 <= len -> h + len <= g \/ g + zlen data <= h ->
        read m' h len = read m h len
  end.
Proof.
  intros Hok Hd. pose proof (write_contains m g data) as Hc.
  destruct (write m g data) as [m'|] eqn:Hw.
  - split; [eauto with hvi|]. split; [eauto with hvi|]. split; [apply Hc; eauto|].
    split; [by eapply write_read_same|]. intros. by eapply write_read_disjoint.
  - destruct (contains m g (zlen data)); [|done]. destruct (proj2 Hc eq_refl). done.
Qed.

(** [contains] accepts a range exactly when one region of guest RAM holds
    all of it, so a range never runs from one region into the next and an
    address in the hole between two regions is not RAM; [read] and [write]
    succeed on exactly those ranges, which never wrap the address space. *)
Theorem contains_one_region (m : GuestRam) (g len : Z) :
  ram_ok m -> 0 <= len ->
  (contains m g len = true <->
   exists r, r ∈ mapped m /\ gpa r <= g /\ g + len <= gpa r + rsize r) /\
  (is_Some (read m g len) <-> contains m g len = true) /\
  (contains m g len = true -> 0 <= g /\ g + len < 2 ^ 64).
Proof.
  intros Hok Hlen. split; [by apply contains_region|].
  split; [apply read_contains|]. by apply contains_range.
Qed.

(** ** Scanning *)

Lemma obj_bytes_sub o p len i j :
  0 <= i <= j -> j <= len -> sub_bytes (obj_bytes o p len) i j = obj_bytes o (p + i) (j - i).
Proof.
  intros Hij Hj. rewrite sub_bytes_eq by (rewrite ?zlen_obj_bytes; lia). apply bytes_ext.
  - rewrite zlen_take, zlen_drop, !zlen_obj_bytes by lia. lia.
  - rewrite zlen_take, zlen_drop, zlen_obj_bytes by lia. intros k Hk. rewrite get_at_obj_bytes by lia.
    pose proof (get_at_obj_bytes o p len (i + k) ltac:(lia)) as H. unfold get_at in *.
    destruct (Z.leb_spec 0 k), (Z.leb_spec 0 (i + k)); try lia.
    rewrite lookup_take_lt, lookup_drop by lia.
    replace (Z.to_nat i + Z.to_nat k)%nat with (Z.to_nat (i + k)) by lia.
    rewrite H. do 2 f_equal. lia.
Qed.

Lemma read_region m r i n :
  ram_ok m -> r ∈ mapped m -> 0 <= i -> 0 < n -> i + n <= rsize r ->
  read m (gpa r + i) n = Some (sub_bytes (region_bytes (object m) r) i (i + n)).
Proof.
  intros Hok Hr Hi Hn Hin. pose proof (ok_regions m Hok) as HR. rewrite Forall_forall in HR.
  destruct (HR r Hr) as (? & ? & ? & ? & ?).
  unfold region_bytes. rewrite obj_bytes_sub by lia. unfold read.
  assert (is_Some (slice m (gpa r + i) n)) as [p Hp].
  { apply contains_slice, contains_region; [done|lia|]. exists r. split; [done|lia]. }
  rewrite Hp. simpl. destruct (slice_region m (gpa r + i) n p r) as [-> _]; try done; [lia|].
  repeat f_equal; lia.
Qed.

(** [needle] occurs in [hay] at offset [i]. *)
Definition occurs (needle hay : list Z) (i : Z) : Prop :=
  0 <= i /\ i + zlen needle <= zlen hay /\ sub_bytes hay i (i + zlen needle) = needle.

Lemma occurs_first needle hay i :
  needle <> [] -> occurs needle hay i -> byte_at hay i = byte_at needle 0.
Proof.
  intros Hne (Hi & Hl & Hs). destruct needle as [|b needle]; [done|].
  rewrite zlen_cons in *. pose proof (zlen_nonneg needle). rewrite sub_bytes_eq in Hs by lia.
  replace (Z.to_nat (i + (1 + zlen needle) - i)) with (S (Z.to_nat (zlen needle))) in Hs by lia.
  unfold byte_at, get_at. destruct (Z.leb_spec 0 i); [|lia]. simpl.
  rewrite <-(Nat.add_0_r (Z.to_nat i)), <-lookup_drop.
  destruct (drop (Z.to_nat i) hay) as [|c k]; simplify_eq/=. done.
Qed.

Lemma scan_hit_spec needle hay i :
  needle <> [] -> 0 <= i -> i + zlen needle <= zlen hay ->
  ((byte_at hay i =? byte_at needle 0)
     && bool_decide (sub_bytes hay i (i + zlen needle) = needle)) = true <-> occurs needle hay i.
Proof.
  intros Hne Hi Hl. rewrite andb_true_iff, Z.eqb_eq, bool_decide_eq_true. split.
  - by intros [_ H].
  - intros H. split; [by apply occurs_first|apply H].
Qed.

Lemma scan_loop_spec fuel needle hay base i out out' full :
  needle <> [] -> 0 <= i -> (zlen hay - i < Z.of_nat fuel) -> zlen out < SCAN_CAP ->
  scan_loop fuel needle hay base i out = (out', full) ->
  exists hits,
    out' = out ++ ((fun h => base + h) <$> hits) /\
    Forall (occurs needle hay) hits /\
    (full = true -> zlen out' = SCAN_CAP) /\
    (full = false -> zlen out' < SCAN_CAP /\
       forall j, i <= j -> occurs needle hay j ->
       exists h, h ∈ hits /\ h <= j < h + zlen needle).
Proof.
  intros Hne. assert (0 < zlen needle) as Hn.
  { destruct needle; [done|]. rewrite zlen_cons. pose proof (zlen_nonneg needle). lia. }
  revert i out. induction fuel as [|fuel IH]; intros i out Hi Hf Hout; simpl.
  { intros [= <- <-]. exists []. rewrite app_nil_r. repeat split; try done.
    intros j Hj (? & ? & _). lia. }
  destruct (Z.leb_spec (i + zlen needle) (zlen hay)) as [Hl|Hl].
  2: { intros [= <- <-]. exists []. rewrite app_nil_r. repeat split; try done.
       intros j Hj (? & ? & _). lia. }
  pose proof (scan_hit_spec needle hay i Hne Hi Hl) as Hhit.
  destruct ((byte_at hay i =? byte_at needle 0) && _).
  - assert (occurs needle hay i) as Hocc by by apply Hhit.
    destruct (Z.leb_spec SCAN_CAP (zlen (out ++ [base + i]))) as [Hc|Hc].
    + intros [= <- <-]. exists [i]. split; [done|]. split; [by constructor|].
      split; [|done]. intros _. rewrite zlen_app, zlen_cons, zlen_nil in *. unfold SCAN_CAP in *. lia.
    + intros H. apply IH in H as (hits & -> & HF & Ht & Hfl); [|lia..].
      exists (i :: hits). rewrite <-app_assoc in *. split; [done|]. split; [by constructor|].
      split; [done|]. intros Hfull. destruct (Hfl Hfull) as [? Hcov]. split; [done|].
      intros j Hj Hoj. destruct (decide (j < i + zlen needle)).
      * exists i. split; [apply list_elem_of_here|lia].
      * destruct (Hcov j) as (h & Hh & ?); [lia|done|]. exists h. split; [by apply list_elem_of_further|done].
  - intros H. apply IH in H as (hits & -> & HF & Ht & Hfl); [|lia..].
    exists hits. split; [done|]. split; [done|]. split; [done|].
    intros Hfull. destruct (Hfl Hfull) as [? Hcov]. split; [done|].
    intros j Hj Hoj. destruct (decide (j = i)) as [->|]; [by apply Hhit in Hoj|].
    apply Hcov; [lia|done].
Qed.

Lemma scan_regions_spec o needle l out :
  needle <> [] -> Forall (fun r => 0 <= rsize r) l -> zlen out < SCAN_CAP ->
  exists hits,
    scan_regions o needle l out = out ++ hits /\
    zlen (out ++ hits) <= SCAN_CAP /\
    Forall (fun a => exists r, r ∈ l /\ occurs needle (region_bytes o r) (a - gpa r)) hits /\
    (zlen (out ++ hits) < SCAN_CAP -> forall r j, r ∈ l -> occurs needle (region_bytes o r) j ->
       exists h, h ∈ hits /\ h <= gpa r + j < h + zlen needle).
Proof.
  intros Hne Hpos. revert out. induction Hpos as [|r l Hr _ IH]; intros out Hout; cbn [scan_regions].
  { exists []. rewrite app_nil_r. repeat split; try done; [lia|]. intros _ r j. set_solver. }
  destruct (scan_loop (S (length (region_bytes o r))) needle (region_bytes o r) (gpa r) 0 out) as [out' full] eqn:E.
  apply scan_loop_spec in E as (hits & -> & HF & Ht & Hfl); [|done|lia|unfold zlen; lia|done].
  assert (Forall (fun a => exists r', r' ∈ r :: l /\ occurs needle (region_bytes o r') (a - gpa r'))
            ((fun h => gpa r + h) <$> hits)) as HF'.
  { apply Forall_fmap, (Forall_impl _ _ _ HF). intros h Hh. exists r. split; [apply list_elem_of_here|].
    simpl. by replace (gpa r + h - gpa r) with h by lia. }
  destruct full.
  - exists ((fun h => gpa r + h) <$> hits). rewrite Ht by done.
    repeat split; try done.
  - destruct (Hfl eq_refl) as [Hlt Hcov]. destruct (IH _ Hlt) as (hits' & -> & Hle & HFt & Hcov').
    exists (((fun h => gpa r + h) <$> hits) ++ hits'). rewrite <-app_assoc in *. split; [done|].
    split; [done|]. split.
    + apply Forall_app. split; [done|]. apply (Forall_impl _ _ _ HFt).
      intros a (r' & ? & ?). exists r'. split; [by apply list_elem_of_further|done].
    + intros Hlt' r' j [->|Hr']%elem_of_cons Hj.
      * destruct (Hcov j) as (h & Hh & ?); [apply Hj|done|]. exists (gpa r + h).
        split; [|lia]. apply elem_of_app. left. apply list_elem_of_fmap. eauto.
      * destruct (Hcov' Hlt' r' j Hr' Hj) as (h & Hh & ?). exists h.
        split; [|done]. apply elem_of_app. by right.
Qed.

(** [scan] returns at most 64 addresses and every one is a place where guest
    RAM holds the needle; when it returns fewer than 64, no match is missed:
    every address where RAM holds the needle lies inside one of the matches
    returned. *)
Theorem scan_sound_complete (m : GuestRam) (needle : list Z) :
  ram_ok m -> needle <> [] ->
  zlen (scan m needle) <= 64 /\
  (forall a, a ∈ scan m needle -> read m a (zlen needle) = Some needle) /\
  (zlen (scan m needle) < 64 ->
   forall a, read m a (zlen needle) = Some needle ->
   exists h, h ∈ scan m needle /\ h <= a < h + zlen needle).
Proof.
  intros Hok Hne. unfold scan. destruct needle as [|b k] eqn:En; [done|]. rewrite <-En in *. clear En.
  assert (0 < zlen needle) as Hn.
  { destruct needle; [done|]. rewrite zlen_cons. pose proof (zlen_nonneg needle). lia. }
  pose proof (ok_regions m Hok) as HR.
  destruct (scan_regions_spec (object m) needle (mapped m) []) as (hits & -> & Hle & HF & Hcov);
    [done| |done|].
  { apply (Forall_impl _ _ _ HR). intros r (? & ? & _). lia. }
  simpl in *. rewrite Forall_forall in HF. split; [done|]. split.
  - intros a (r & Hr & Hi & Hl & Hs)%HF. rewrite <-Hs at 2.
    replace a with (gpa r + (a - gpa r)) at 1 by lia. apply read_region; try done.
    unfold region_bytes in Hl. rewrite zlen_obj_bytes in Hl; [lia|].
    rewrite Forall_forall in HR. destruct (HR r Hr) as (? & ? & _). lia.
  - intros Hlt a Hread. assert (contains m a (zlen needle) = true) as Hc by (apply read_contains; eauto).
    apply contains_region in Hc as (r & Hr & ? & ?); [|done|lia].
    replace a with (gpa r + (a - gpa r)) in * by lia. rewrite read_region in Hread by (done || lia).
    simplify_eq. apply (Hcov Hlt r); [done|]. split; [lia|]. split; [|done].
    unfold region_bytes. rewrite zlen_obj_bytes; lia.
Qed.

(** ** A concrete machine: the x86-64 split around the MMIO hole *)

Definition two_regions : list RamRegion :=
  [mkRamRegion (2 ^ 32) ALIGN ALIGN; mkRamRegion 0 ALIGN 0].
Definition split_ram : GuestRam :=
  mkGuestRam [mkRamRegion 0 ALIGN 0; mkRamRegion (2 ^ 32) ALIGN ALIGN] ∅.

Lemma split_ram_ok : ram_ok split_ram.
Proof.
  split; simpl.
  - repeat constructor; unfold ALIGN; simpl; lia.
  - intros a b. rewrite !elem_of_cons, !elem_of_nil. unfold gpa_disjoint, ALIGN.
    intros [->|[->|[]]] [->|[->|[]]]; simpl; auto; lia.
  - intros a b. rewrite !elem_of_cons, !elem_of_nil. unfold file_disjoint, ALIGN.
    intros [->|[->|[]]] [->|[->|[]]]; simpl; auto; lia.
  - apply map_Forall_empty.
Qed.

Lemma new_accepts_witness :
  new (fun _ => true) (2 * ALIGN) ∅ two_regions = inl split_ram /\
  pairwise gpa_disjoint two_regions.
Proof.
  assert (new (fun _ => true) (2 * ALIGN) ∅ two_regions = inl split_ram) as H
    by (vm_compute; reflexivity).
  split; [exact H|]. apply new_accepts in H; [apply H|].
  repeat constructor; vm_compute; congruence.
Defined.

Lemma write_then_read_witness :
  match write split_ram (2 ^ 32 + 4) [1; 2; 3] with
  | None => False
  | Some m' => read m' (2 ^ 32 + 4) 3 = Some [1; 2; 3] /\ read m' 0 8 = read split_ram 0 8
  end.
Proof.
  assert (bytes_ok [1; 2; 3]) as Hb by (repeat constructor; vm_compute; congruence).
  pose proof (write_then_read split_ram (2 ^ 32 + 4) [1; 2; 3] split_ram_ok Hb) as H.
  destruct (write split_ram (2 ^ 32 + 4) [1; 2; 3]) as [m'|].
  - destruct H as (_ & _ & _ & H1 & H2). split; [exact H1|]. apply H2; [lia|left; vm_compute; congruence].
  - vm_compute in H. discriminate H.
Defined.

Lemma contains_one_region_witness :
  contains split_ram (ALIGN - 4) 8 = false /\
  (contains split_ram (ALIGN - 8) 8 = true -> ALIGN - 8 + 8 < 2 ^ 64).
Proof.
  split; [vm_compute; reflexivity|]. intros H.
  refine (proj2 (proj2 (proj2 (contains_one_region split_ram (ALIGN - 8) 8 split_ram_ok _)) H)).
  lia.
Defined.

(** RAM small enough to search: 40 bytes at two places. *)
Definition small_ram : GuestRam :=
  mkGuestRam [mkRamRegion 4096 16 0; mkRamRegion 8192 24 16] (list_to_map [(3, 7); (4, 9); (20, 7); (21, 9)]).

Lemma small_ram_ok : ram_ok small_ram.
Proof.
  split; simpl.
  - repeat constructor; simpl; lia.
  - intros a b. rewrite !elem_of_cons, !elem_of_nil. unfold gpa_disjoint.
    intros [->|[->|[]]] [->|[->|[]]]; simpl; auto; lia.
  - intros a b. rewrite !elem_of_cons, !elem_of_nil. unfold file_disjoint.
    intros [->|[->|[]]] [->|[->|[]]]; simpl; auto; lia.
  - apply map_Forall_to_list. vm_compute. repeat constructor; congruence.
Qed.

Lemma scan_sound_complete_witness :
  scan small_ram [7; 9] = [4099; 8196] /\ read small_ram 8196 2 = Some [7; 9].
Proof.
  assert (scan small_ram [7; 9] = [4099; 8196]) as H by (vm_compute; reflexivity).
  split; [exact H|].
  refine (proj1 (proj2 (scan_sound_complete small_ram [7; 9] small_ram_ok _)) 8196 _); [discriminate|].
  rewrite H. right. left.
Defined.
