(* ===== verification/Irq.v ===== *)
(** * The interrupt line a device drives ([src/devices/irq.rs])

    The trait [IrqLine] is a type class: a backend supplies the line, and
    setting it may fail. [Irq] is the device's end, with the level the line was
    last set to. The laws [IrqLineLaws] say what a backend promises; the
    theorems are proved against them. *)

From S2P Require Import Prelude.
Local Open Scope Z_scope.

(** The trait [IrqLine]: the line after the call, and whether it was set. *)
Class IrqLine (L : Type) := set_level : L -> bool -> L * bool.

(** What a backend's line promises: a set that succeeds leaves the line at the
    level, one that fails leaves the line as it was. *)
Class IrqLineLaws (L : Type) `{IrqLine L} := {
  line_level : L -> bool;
  set_level_ok : forall l b l', set_level l b = (l', true) -> line_level l' = b;
  set_level_err : forall l b l', set_level l b = (l', false) -> line_level l' = line_level l;
}.

(** A device's interrupt: the line once connected, and the level last set. *)
Record Irq (L : Type) := mkIrq { line : option L; high : bool }.
Arguments mkIrq {L} _ _.
Arguments line {L} _.
Arguments high {L} _.

Section Irq.
Context {L : Type} `{IrqLine L}.

Definition irq_default : Irq L := mkIrq None false.

Definition connect (i : Irq L) (l : L) : Irq L := mkIrq (Some l) (high i).

(** [Irq::set]: the line is touched only when the level changes, and the level
    is recorded only when the line took it. *)
Definition set (i : Irq L) (level : bool) : Irq L :=
  if eqb level (high i) then i
  else match line i with
  | None => i
  | Some l =>
      match set_level l level with
      | (l', true) => mkIrq (Some l') level
      | (l', false) => mkIrq (Some l') (high i)
      end
  end.

(** The recorded level is the level of the connected line. *)
Definition irq_ok `{!IrqLineLaws L} (i : Irq L) : Prop :=
  match line i with None => high i = false | Some l => line_level l = high i end.

Context `{!IrqLineLaws L}.

Lemma irq_default_ok : irq_ok irq_default.
Proof. done. Qed.

Lemma connect_ok i l : irq_ok i -> line i = None -> line_level l = false -> irq_ok (connect i l).
Proof. unfold irq_ok. intros Hi Hn Hl. rewrite Hn in Hi. simpl. congruence. Qed.

Lemma set_ok i level : irq_ok i -> irq_ok (set i level).
Proof.
  unfold irq_ok, set. intros Hi. destruct (eqb level (high i)); [done|].
  destruct (line i) as [l|] eqn:El; [|by rewrite El].
  destruct (set_level l level) as [l' []] eqn:E; simpl.
  - by eapply set_level_ok.
  - rewrite (set_level_err _ _ _ E). done.
Qed.

(** Whether the line refused the set. *)
Definition refused (i : Irq L) (level : bool) : Prop :=
  exists l, line i = Some l /\ (set_level l level).2 = false.

Lemma set_reaches i level :
  irq_ok i -> is_Some (line i) ->
  (exists l, line (set i level) = Some l /\ line_level l = level) \/
  (refused i level /\ high (set i level) <> level).
Proof.
  unfold irq_ok, set. intros Hi [l Hl]. rewrite Hl in Hi.
  destruct (eqb level (high i)) eqn:E.
  { apply eqb_prop in E. left. exists l. split; [done|congruence]. }
  rewrite Hl. destruct (set_level l level) as [l' []] eqn:Es; simpl.
  - left. exists l'. split; [done|]. by eapply set_level_ok.
  - right. split; [exists l; by rewrite Es|]. intros Heq. rewrite Heq in E.
    by rewrite eqb_reflx in E.
Qed.

(** What an access may do to its line before it is done: set it any number of times. *)
Definition sets : Irq L -> Irq L -> Prop := rtc (fun i i' => exists level, i' = set i level).

Lemma set_connected i level : is_Some (line i) -> is_Some (line (set i level)).
Proof.
  intros [l Hl]. unfold set. destruct (eqb level (high i)); [by exists l|]. rewrite Hl.
  destruct (set_level l level) as [l' []]; by exists l'.
Qed.

Lemma sets_ok i i' : sets i i' -> irq_ok i -> is_Some (line i) -> irq_ok i' /\ is_Some (line i').
Proof.
  induction 1 as [|i i1 i2 [level ->] _ IH]; [done|]. intros. apply IH; [by apply set_ok|by apply set_connected].
Qed.

(** A backend whose sets never fail. *)
Definition reliable : Prop := forall (l : L) b, (set_level l b).2 = true.

(** The device's line is connected and sits at [level]. *)
Definition line_at (i : Irq L) (level : bool) : Prop :=
  irq_ok i /\ is_Some (line i) /\ high i = level.

Lemma set_line_at i level :
  reliable -> irq_ok i -> is_Some (line i) -> line_at (set i level) level.
Proof.
  intros Hr Hi [l Hl]. split; [by apply set_ok|]. unfold set.
  destruct (eqb level (high i)) eqn:E; [apply eqb_prop in E; split; [by exists l|done]|].
  rewrite Hl. pose proof (Hr l level) as Hs. destruct (set_level l level) as [l' b]. simpl in Hs.
  subst b. simpl. by split; [exists l'|].
Qed.

Lemma line_at_level i level l : line_at i level -> line i = Some l -> line_level l = level.
Proof. intros (Hi & _ & Hh) Hl. unfold irq_ok in Hi. rewrite Hl in Hi. congruence. Qed.
End Irq.

(** A line that counts how often it is set and refuses what its script says. *)
Record ScriptLine := mkScriptLine { sl_level : bool; sl_sets : nat; sl_script : list bool }.
#[export] Instance ScriptLine_line : IrqLine ScriptLine := fun l b =>
  match sl_script l with
  | false :: k => (mkScriptLine (sl_level l) (S (sl_sets l)) k, false)
  | _ :: k => (mkScriptLine b (S (sl_sets l)) k, true)
  | [] => (mkScriptLine b (S (sl_sets l)) [], true)
  end.
#[export] Instance ScriptLine_laws : IrqLineLaws ScriptLine.
Proof.
  refine {| line_level := sl_level |}; unfold set_level, ScriptLine_line;
    intros l b l'; destruct (sl_script l) as [|[] ?]; intros; simplify_eq; done.
Defined.

(** A line that always takes the level. *)
Record PlainLine := mkPlainLine { pl_level : bool }.
#[export] Instance PlainLine_line : IrqLine PlainLine := fun _ b => (mkPlainLine b, true).
#[export] Instance PlainLine_laws : IrqLineLaws PlainLine.
Proof. refine {| line_level := pl_level |}; intros l b l' E; compute in E; by simplify_eq. Defined.

Lemma PlainLine_reliable : reliable (L := PlainLine).
Proof. done. Qed.

(** The interrupt line never disagrees with what the device recorded, and a
    set leaves the line at the requested level unless the backend refused it;
    after a refusal the recorded level still differs from the request, so the
    next set tries again. *)
Theorem irq_line_follows {L : Type} `{IrqLineLaws L} (i : Irq L) (level : bool) :
  irq_ok i ->
  irq_ok (set i level) /\
  (high i = level -> set i level = i) /\
  (is_Some (line i) ->
   (exists l, line (set i level) = Some l /\ line_level l = level) \/
   (refused i level /\ high (set i level) <> level)).
Proof.
  intros Hi. split; [by apply set_ok|]. split; [|by apply set_reaches].
  intros <-. unfold set. by rewrite eqb_reflx.
Qed.

Lemma irq_line_follows_witness :
  irq_ok (set (connect irq_default (mkScriptLine false 0 [false])) true) /\
  high (set (connect irq_default (mkScriptLine false 0 [false])) true) = false.
Proof.
  split; [|vm_compute; reflexivity].
  refine (proj1 (irq_line_follows (connect irq_default (mkScriptLine false 0 [false])) true _)).
  vm_compute. reflexivity.
Defined.
