(* ===== verification/Queue.v ===== *)
(** * The split virtqueue ([src/devices/virtio/queue.rs])

    [Queue] is what the driver programs into one queue. The setters are the only
    place a hostile programming is refused, so the invariant [queue_ok] is about
    them: the size is 0 or a power of two up to 256, and a ready queue has its
    three rings inside guest RAM. From it follow the bounds of every ring
    address and what [push_used] publishes. *)

From S2P Require Import Prelude Memory.
Local Open Scope Z_scope.

(** Descriptor flags, from the kernel's [virtio_ring.h]. *)
Definition VIRTQ_DESC_F_NEXT : Z := 1.
Definition VIRTQ_DESC_F_WRITE : Z := 2.

Definition QUEUE_NUM_MAX : Z := 256.

Record Queue := mkQueue {
  num : Z; ready : bool; desc : Z; avail : Z; used : Z; last_avail : Z }.

Definition queue_default : Queue := mkQueue 0 false 0 0 0 0.

(** [u32::is_power_of_two]. *)
Definition is_power_of_two (v : Z) : bool := negb (v =? 0) && (Z.land v (v - 1) =? 0).

Definition set_num (q : Queue) (v : Z) : Queue :=
  mkQueue (if negb (v =? 0) && (v <=? QUEUE_NUM_MAX) && is_power_of_two v then v else 0)
    false (desc q) (avail q) (used q) (last_avail q).

Definition size (q : Queue) : Z := u16 (num q).

(** The ring extents: descriptor table [16*n], avail ring [6+2*n], used ring
    [6+8*n]. *)
Definition rings_fit (q : Queue) (m : GuestRam) : bool :=
  let n := num q in
  negb (n =? 0) && contains m (desc q) (16 * n) && contains m (avail q) (6 + 2 * n)
    && contains m (used q) (6 + 8 * n).

Definition set_ready (q : Queue) (v : Z) (m : GuestRam) : Queue :=
  mkQueue (num q) ((Z.land v 1 =? 1) && rings_fit q m) (desc q) (avail q) (used q) (last_avail q).

Definition is_ready (q : Queue) : bool := ready q && negb (num q =? 0).

Definition reset (q : Queue) : Queue := queue_default.

Definition desc_addr (q : Queue) (d : Z) : option Z :=
  if d <? num q then Some (add64 (desc q) (d * 16)) else None.

Definition avail_slot (q : Queue) (idx : Z) : option Z :=
  let n := size q in
  if negb (n =? 0) then Some (add64 (add64 (avail q) 4) (idx mod n * 2)) else None.

Definition pending (q : Queue) (m : GuestRam) : option Z :=
  idx ← read_u16 m (add64 (avail q) 2);
  let n := u16 (idx - last_avail q) in
  if n <=? size q then Some n else None.

Definition set_last_avail (q : Queue) (v : Z) : Queue :=
  mkQueue (num q) (ready q) (desc q) (avail q) (used q) v.

Definition set_lo (v lo : Z) : Z := Z.lor (Z.land v 0xffff_ffff_0000_0000) lo.
Definition set_hi (v hi : Z) : Z := Z.lor (Z.land v 0x0000_0000_ffff_ffff) (Z.shiftl hi 32).

Definition set_desc_lo (q : Queue) (v : Z) : Queue :=
  mkQueue (num q) false (set_lo (desc q) v) (avail q) (used q) (last_avail q).
Definition set_desc_hi (q : Queue) (v : Z) : Queue :=
  mkQueue (num q) false (set_hi (desc q) v) (avail q) (used q) (last_avail q).
Definition set_avail_lo (q : Queue) (v : Z) : Queue :=
  mkQueue (num q) false (desc q) (set_lo (avail q) v) (used q) (last_avail q).
Definition set_avail_hi (q : Queue) (v : Z) : Queue :=
  mkQueue (num q) false (desc q) (set_hi (avail q) v) (used q) (last_avail q).
Definition set_used_lo (q : Queue) (v : Z) : Queue :=
  mkQueue (num q) false (desc q) (avail q) (set_lo (used q) v) (last_avail q).
Definition set_used_hi (q : Queue) (v : Z) : Queue :=
  mkQueue (num q) false (desc q) (avail q) (set_hi (used q) v) (last_avail q).

(** The stores [push_used] makes, in program order: address, width, value. The
    element's two words come first; the release fence keeps the index store
    after them. *)
Definition used_entry (q : Queue) (used_idx : Z) : Z :=
  add64 (add64 (used q) 4) (used_idx mod size q * 8).
Definition push_used_stores (q : Queue) (used_idx head len : Z) : list (Z * nat * Z) :=
  let entry := used_entry q used_idx in
  [(entry, 4%nat, head); (add64 entry 4, 4%nat, len); (add64 (used q) 2, 2%nat, u16 (used_idx + 1))].

(** [let _ = mem.write_*(..)] for each store. *)
Fixpoint run_stores (m : GuestRam) (l : list (Z * nat * Z)) : GuestRam :=
  match l with
  | [] => m
  | (a, n, v) :: l => run_stores (ignore m (store n m a v)) l
  end.

Definition push_used (q : Queue) (m : GuestRam) (head len : Z) : GuestRam :=
  if size q =? 0 then m
  else match read_u16 m (add64 (used q) 2) with
  | None => m
  | Some used_idx => run_stores m (push_used_stores q used_idx head len)
  end.

(** A descriptor as the devices read it, four loads at its address. *)
Record Desc := mkDesc { d_addr : Z; d_len : Z; d_flags : Z; d_next : Z }.
Definition read_desc (m : GuestRam) (da : Z) : option Desc :=
  addr ← read_u64 m da;
  len ← read_u32 m (add64 da 8);
  flags ← read_u16 m (add64 da 12);
  next ← read_u16 m (add64 da 14);
  Some (mkDesc addr len flags next).

(** What the driver and the device do to a queue, as one type. *)
Inductive QueueOp :=
  | SetNum (v : Z) | SetReady (v : Z) | Reset | SetLastAvail (v : Z)
  | SetDescLo (v : Z) | SetDescHi (v : Z) | SetAvailLo (v : Z) | SetAvailHi (v : Z)
  | SetUsedLo (v : Z) | SetUsedHi (v : Z).

Definition queue_op (m : GuestRam) (q : Queue) (op : QueueOp) : Queue :=
  match op with
  | SetNum v => set_num q v | SetReady v => set_ready q v m | Reset => reset q
  | SetLastAvail v => set_last_avail q v
  | SetDescLo v => set_desc_lo q v | SetDescHi v => set_desc_hi q v
  | SetAvailLo v => set_avail_lo q v | SetAvailHi v => set_avail_hi q v
  | SetUsedLo v => set_used_lo q v | SetUsedHi v => set_used_hi q v
  end.

(** The operands are 32-bit register values, the consumed index 16 bits. *)
Definition op_ok (op : QueueOp) : Prop :=
  match op with
  | SetNum v | SetReady v | SetDescLo v | SetDescHi v | SetAvailLo v | SetAvailHi v
  | SetUsedLo v | SetUsedHi v => 0 <= v < 2 ^ 32
  | SetLastAvail v => 0 <= v < 2 ^ 16
  | Reset => True
  end.

(** ** The invariant *)

Record queue_ok (m : GuestRam) (q : Queue) : Prop := {
  q_num : num q = 0 \/ (0 < num q <= QUEUE_NUM_MAX /\ is_power_of_two (num q) = true);
  q_ready : ready q = true -> rings_fit q m = true;
  q_desc : 0 <= desc q < 2 ^ 64;
  q_avail : 0 <= avail q < 2 ^ 64;
  q_used : 0 <= used q < 2 ^ 64;
  q_last : 0 <= last_avail q < 2 ^ 16;
}.

Lemma set_lo_eq v lo :
  0 <= v < 2 ^ 64 -> 0 <= lo < 2 ^ 32 -> set_lo v lo = v / 2 ^ 32 * 2 ^ 32 + lo.
Proof.
  intros Hv Hlo. unfold set_lo. change 0xffff_ffff_0000_0000 with (Z.shiftl (Z.ones 32) 32).
  rewrite (land_high_mask v 32 32) by (done || lia). by apply lor_shiftl_add.
Qed.

Lemma set_hi_eq v hi :
  0 <= v < 2 ^ 64 -> 0 <= hi < 2 ^ 32 -> set_hi v hi = hi * 2 ^ 32 + v mod 2 ^ 32.
Proof.
  intros Hv Hhi. unfold set_hi. change 0xffff_ffff with (Z.ones 32).
  rewrite Z.land_ones, Z.lor_comm by lia. apply lor_shiftl_add; [lia|].
  apply Z.mod_pos_bound. lia.
Qed.

Lemma set_lo_range v lo : 0 <= v < 2 ^ 64 -> 0 <= lo < 2 ^ 32 -> 0 <= set_lo v lo < 2 ^ 64.
Proof. intros. rewrite set_lo_eq by done. zlia. Qed.

Lemma set_hi_range v hi : 0 <= v < 2 ^ 64 -> 0 <= hi < 2 ^ 32 -> 0 <= set_hi v hi < 2 ^ 64.
Proof. intros. rewrite set_hi_eq by done. zlia. Qed.

(** The driver's two half-writes program the address it wanted. *)
Lemma set_lo_hi v a :
  0 <= v < 2 ^ 64 -> 0 <= a < 2 ^ 64 -> set_hi (set_lo v (a mod 2 ^ 32)) (a / 2 ^ 32) = a.
Proof.
  intros Hv Ha. rewrite set_hi_eq, set_lo_eq; [zlia|zlia|zlia| |zlia].
  apply set_lo_range; [done|zlia].
Qed.

#[export] Hint Resolve set_lo_range set_hi_range : hvi.

Lemma rings_fit_mapped q m m' : mapped m' = mapped m -> rings_fit q m' = rings_fit q m.
Proof. intros Hm. unfold rings_fit. by rewrite !(contains_mapped m m'). Qed.

Lemma queue_ok_mapped q m m' : mapped m' = mapped m -> queue_ok m q -> queue_ok m' q.
Proof. intros Hm []. split; try done. by rewrite (rings_fit_mapped q m m'). Qed.

Lemma queue_default_ok m : queue_ok m queue_default.
Proof. split; simpl; try done; lia || auto. Qed.

Lemma set_num_ok m q v : queue_ok m q -> 0 <= v < 2 ^ 32 -> queue_ok m (set_num q v).
Proof.
  intros [] Hv. split; simpl; try done. guards; [right|left; done]. split; [lia|done].
Qed.

Lemma set_ready_ok m q v : queue_ok m q -> queue_ok m (set_ready q v m).
Proof. intros []. split; simpl; try done. intros H. by bool_hyps. Qed.

Lemma set_last_avail_ok m q v : queue_ok m q -> 0 <= v < 2 ^ 16 -> queue_ok m (set_last_avail q v).
Proof. intros [] Hv. by split. Qed.

#[export] Hint Resolve queue_default_ok set_num_ok set_ready_ok set_last_avail_ok : hvi.

Lemma queue_op_ok m q op : queue_ok m q -> op_ok op -> queue_ok m (queue_op m q op).
Proof.
  intros Hq Hop. destruct op; simpl in *; auto with hvi;
    destruct Hq; split; simpl; auto with hvi; done.
Qed.

(** ** The bounds of a ready queue *)

Lemma is_ready_fit m q :
  queue_ok m q -> is_ready q = true ->
  0 < num q <= QUEUE_NUM_MAX /\ is_power_of_two (num q) = true /\
  contains m (desc q) (16 * num q) = true /\ contains m (avail q) (6 + 2 * num q) = true /\
  contains m (used q) (6 + 8 * num q) = true.
Proof.
  intros Hq Hr. unfold is_ready in Hr. bool_hyps. pose proof (q_ready m q Hq ltac:(done)) as Hf.
  unfold rings_fit in Hf. bool_hyps. destruct (q_num m q Hq) as [?|[? ?]]; [done|]. done.
Qed.

Lemma size_num m q : queue_ok m q -> size q = num q.
Proof.
  intros Hq. apply u16_small. unfold QUEUE_NUM_MAX in *. destruct (q_num m q Hq) as [->|[? _]];
    [lia|unfold QUEUE_NUM_MAX in *; lia].
Qed.

(** A ring size divides the 16-bit index space, so an index that wraps stays on
    the ring. *)
Lemma ring_size_divides n :
  0 < n <= QUEUE_NUM_MAX -> is_power_of_two n = true -> 2 ^ 16 mod n = 0.
Proof.
  intros Hn Hp.
  assert (Forall (fun n => is_power_of_two n = true -> 2 ^ 16 mod n = 0) (seqZ 1 256)) as HF.
  { apply Forall_forall. intros k Hk.
    assert (forallb (fun n => implb (is_power_of_two n) (2 ^ 16 mod n =? 0)) (seqZ 1 256) = true)
      as Hall by (vm_compute; reflexivity).
    rewrite forallb_forall in Hall. specialize (Hall k). rewrite <-list_elem_of_In in Hall.
    specialize (Hall Hk). intros Hk2. rewrite Hk2 in Hall. simpl in Hall. by apply Z.eqb_eq. }
  rewrite Forall_forall in HF. apply HF; [|done]. apply elem_of_seqZ. unfold QUEUE_NUM_MAX in *. lia.
Qed.

Lemma u16_mod_ring n v :
  0 < n <= QUEUE_NUM_MAX -> is_power_of_two n = true -> u16 v mod n = v mod n.
Proof.
  intros Hn Hp. pose proof (ring_size_divides n Hn Hp) as Hd.
  unfold u16. apply Z.mod_divide in Hd as [k Hk]; [|lia].
  rewrite (Z.div_mod v (2 ^ 16)) at 2 by lia.
  rewrite Hk at 2. replace (k * n * (v / 2 ^ 16) + v mod 2 ^ 16) with (v mod 2 ^ 16 + k * (v / 2 ^ 16) * n) by ring.
  by rewrite Z.mod_add by lia.
Qed.

(** Sub-ranges of a ring: address arithmetic inside it does not wrap. *)
Lemma ring_sub m a len i k :
  ram_ok m -> contains m a len = true -> 0 <= i -> 0 < k -> i + k <= len ->
  add64 a i = a + i /\ contains m (a + i) k = true.
Proof.
  intros Hok Hc Hi Hk Hik. split; [|by eapply contains_sub].
  destruct (contains_range m a len Hok) as [? ?]; [lia|done|]. apply add64_small. lia.
Qed.

Lemma desc_addr_ready m q d a :
  ram_ok m -> queue_ok m q -> is_ready q = true -> 0 <= d -> desc_addr q d = Some a ->
  a = desc q + 16 * d /\ contains m a 16 = true.
Proof.
  intros Hok Hq Hr Hd. destruct (is_ready_fit m q Hq Hr) as (Hn & _ & Hc & _ & _).
  unfold desc_addr. destruct (Z.ltb_spec d (num q)); [|done]. intros [= <-].
  destruct (ring_sub m (desc q) (16 * num q) (d * 16) 16) as [-> ?]; try done; try lia.
  split; [lia|done].
Qed.

Lemma avail_slot_ready m q idx :
  ram_ok m -> queue_ok m q -> is_ready q = true ->
  avail_slot q idx = Some (avail q + 4 + idx mod num q * 2) /\
  contains m (avail q + 4 + idx mod num q * 2) 2 = true.
Proof.
  intros Hok Hq Hr. destruct (is_ready_fit m q Hq Hr) as (Hn & _ & _ & Hc & _).
  unfold avail_slot. rewrite (size_num m q) by done.
  pose proof (Z.mod_pos_bound idx (num q)). destruct (Z.eqb_spec (num q) 0); [lia|]. simpl.
  destruct (ring_sub m (avail q) (6 + 2 * num q) 4 2) as [-> _]; try done; try lia.
  destruct (ring_sub m (avail q) (6 + 2 * num q) (4 + idx mod num q * 2) 2) as [Ha Hb]; try done; try lia.
  rewrite Z.add_assoc in *. split; [|done]. f_equal.
  destruct (contains_range m (avail q) (6 + 2 * num q) Hok) as [? ?]; [lia|done|].
  apply add64_small. lia.
Qed.

Lemma used_entry_ready m q idx :
  ram_ok m -> queue_ok m q -> is_ready q = true ->
  used_entry q idx = used q + 4 + idx mod num q * 8 /\
  add64 (used_entry q idx) 4 = used_entry q idx + 4 /\
  add64 (used q) 2 = used q + 2 /\
  contains m (used_entry q idx) 4 = true /\ contains m (used_entry q idx + 4) 4 = true /\
  contains m (used q + 2) 2 = true.
Proof.
  intros Hok Hq Hr. destruct (is_ready_fit m q Hq Hr) as (Hn & _ & _ & _ & Hc).
  destruct (contains_range m (used q) (6 + 8 * num q) Hok) as [? ?]; [lia|done|].
  pose proof (Z.mod_pos_bound idx (num q)).
  assert (used_entry q idx = used q + 4 + idx mod num q * 8) as E.
  { unfold used_entry. rewrite (size_num m q) by done. rewrite !add64_small by (rewrite ?add64_small; lia). lia. }
  rewrite E. split; [done|]. split; [apply add64_small; lia|]. split; [apply add64_small; lia|].
  split; [|split].
  - rewrite <-Z.add_assoc. by apply (contains_sub m (used q) (6 + 8 * num q)); try lia.
  - rewrite <-!Z.add_assoc. by apply (contains_sub m (used q) (6 + 8 * num q)); try lia.
  - by apply (contains_sub m (used q) (6 + 8 * num q)); try lia.
Qed.

Lemma ignore_store n m a v :
  contains m a (Z.of_nat n) = true ->
  exists m', store n m a v = Some m' /\ ignore m (store n m a v) = m'.
Proof. intros [m' H]%(store_contains n m a v). exists m'. rewrite H. done. Qed.

(** The effect of one completion. *)
Lemma push_used_one m q head len i0 :
  ram_ok m -> queue_ok m q -> is_ready q = true ->
  0 <= head < 2 ^ 16 -> 0 <= len < 2 ^ 32 -> read_u16 m (used q + 2) = Some i0 ->
  let m' := push_used q m head len in
  let e := used q + 4 + i0 mod num q * 8 in
  ram_ok m' /\ mapped m' = mapped m /\
  read_u16 m' (used q + 2) = Some (u16 (i0 + 1)) /\
  read_u32 m' e = Some head /\ read_u32 m' (e + 4) = Some len /\
  forall k h, (h + Z.of_nat k <= used q + 2 \/ used q + 4 <= h) ->
    (h + Z.of_nat k <= e \/ e + 8 <= h) -> load k m' h = load k m h.
Proof.
  intros Hok Hq Hr Hhead Hlen Hi m' e.
  destruct (used_entry_ready m q i0 Hok Hq Hr) as (He & He4 & Hu2 & Hc1 & Hc2 & Hc3).
  destruct (is_ready_fit m q Hq Hr) as (Hn & _). pose proof (Z.mod_pos_bound i0 (num q)).
  fold e in He. rewrite He in *.
  subst m'. unfold push_used. rewrite (size_num m q), Hu2, Hi by done.
  destruct (Z.eqb_spec (num q) 0); [lia|]. unfold push_used_stores. rewrite He, He4, Hu2.
  cbn [run_stores].
  destruct (ignore_store 4 m e head Hc1) as (m1 & H1 & ->).
  assert (ram_ok m1) as Hok1 by eauto with hvi.
  assert (mapped m1 = mapped m) as Hm1 by eauto with hvi.
  destruct (ignore_store 4 m1 (e + 4) len) as (m2 & H2 & ->).
  { by rewrite (contains_mapped m m1). }
  assert (ram_ok m2) as Hok2 by eauto with hvi.
  assert (mapped m2 = mapped m) as Hm2 by (rewrite <-Hm1; eauto with hvi).
  destruct (ignore_store 2 m2 (used q + 2) (u16 (i0 + 1))) as (m3 & H3 & ->).
  { by rewrite (contains_mapped m m2). }
  assert (ram_ok m3) as Hok3 by eauto with hvi.
  split; [done|]. split; [rewrite <-Hm2; eauto with hvi|].
  split; [by eapply store_load_same; [apply Hok2|apply u16_range|]|].
  split; [|split].
  - unfold read_u32. rewrite (store_load_disjoint _ _ _ _ _ _ _ Hok2 H3), (store_load_disjoint _ _ _ _ _ _ _ Hok1 H2) by lia.
    eapply store_load_same; [apply Hok| |done]. lia.
  - unfold read_u32. rewrite (store_load_disjoint _ _ _ _ _ _ _ Hok2 H3) by lia.
    by eapply store_load_same; [apply Hok1| |].
  - intros k h Hd1 Hd2.
    rewrite (store_load_disjoint _ _ _ _ _ _ _ Hok2 H3), (store_load_disjoint _ _ _ _ _ _ _ Hok1 H2),
      (store_load_disjoint _ _ _ _ _ _ _ Hok H1) by lia. done.
Qed.

Lemma run_stores_evolves l m : ram_evolves m (run_stores m l).
Proof.
  revert m. induction l as [|[[a n] v] l IH]; intros m; simpl; [done|].
  etrans; [apply ignore_store_evolves|apply IH].
Qed.

Lemma push_used_evolves q m head len : ram_evolves m (push_used q m head len).
Proof.
  unfold push_used. destruct (size q =? 0); [done|].
  destruct (read_u16 _ _); [apply run_stores_evolves|done].
Qed.

Lemma push_used_mapped q m head len : mapped (push_used q m head len) = mapped m.
Proof. apply push_used_evolves. Qed.

Lemma push_used_ram_ok q m head len : ram_ok m -> ram_ok (push_used q m head len).
Proof. apply push_used_evolves. Qed.

#[export] Hint Resolve push_used_ram_ok : hvi.
#[export] Hint Resolve push_used_evolves : hvi.

Lemma queue_ok_evolves q m m' : ram_evolves m m' -> queue_ok m q -> queue_ok m' q.
Proof. intros [_ ?]. by apply queue_ok_mapped. Qed.

(** [push_used] for a list of completions, in order. *)
Definition push_all (q : Queue) (m : GuestRam) (l : list (Z * Z)) : GuestRam :=
  foldl (fun m p => push_used q m p.1 p.2) m l.

Definition completion_ok (p : Z * Z) : Prop := 0 <= p.1 < 2 ^ 16 /\ 0 <= p.2 < 2 ^ 32.

(** Two different indexes less than a ring apart use different slots. *)
Lemma ring_slot_inj n i k : 0 < n -> 0 < k < n -> (i + k) mod n <> i mod n.
Proof.
  intros Hn Hk Heq. assert ((i + k - i) mod n = 0) as H.
  { rewrite Zminus_mod, Heq, Z.sub_diag. apply Z.mod_0_l. lia. }
  replace (i + k - i) with k in H by lia. rewrite Z.mod_small in H; lia.
Qed.

(** The slots a batch of completions leaves alone. *)
Lemma push_all_frame q l m i0 k h :
  ram_ok m -> queue_ok m q -> is_ready q = true -> Forall completion_ok l ->
  read_u16 m (used q + 2) = Some i0 ->
  (h + Z.of_nat k <= used q + 2 \/ used q + 4 <= h) ->
  (forall j, 0 <= j < zlen l ->
     h + Z.of_nat k <= used q + 4 + (i0 + j) mod num q * 8 \/
     used q + 4 + (i0 + j) mod num q * 8 + 8 <= h) ->
  load k (push_all q m l) h = load k m h.
Proof.
  intros Hok Hq Hr HF Hi Hh. revert m i0 Hok Hq Hi.
  induction HF as [|[head len] l [Hp1 Hp2] _ IH]; intros m i0 Hok Hq Hi Hj; [done|]. simpl in *.
  destruct (is_ready_fit m q Hq Hr) as (Hn & Hp & _).
  destruct (push_used_one m q head len i0) as (Hok' & Hm' & Hi' & _ & _ & Hfr); try done.
  cbn [push_all foldl]. fold (push_all q (push_used q m head len) l).
  erewrite IH; [|done|by eapply queue_ok_mapped|exact Hi'|].
  - apply Hfr; [done|]. specialize (Hj 0). rewrite Z.add_0_r, zlen_cons in Hj.
    pose proof (zlen_nonneg l). apply Hj. lia.
  - intros j Hjl. rewrite zlen_cons in Hj. specialize (Hj (1 + j)).
    rewrite Z.add_assoc in Hj. rewrite <-Zplus_mod_idemp_l, u16_mod_ring, Zplus_mod_idemp_l by done. apply Hj. lia.
Qed.

Lemma push_all_snoc q m l p : push_all q m (l ++ [p]) = push_used q (push_all q m l) p.1 p.2.
Proof. unfold push_all. by rewrite foldl_app. Qed.

Lemma push_all_state q m l i0 :
  ram_ok m -> queue_ok m q -> is_ready q = true -> Forall completion_ok l ->
  read_u16 m (used q + 2) = Some i0 ->
  ram_ok (push_all q m l) /\ mapped (push_all q m l) = mapped m /\
  queue_ok (push_all q m l) q /\
  read_u16 (push_all q m l) (used q + 2) = Some (u16 (i0 + zlen l)).
Proof.
  intros Hok Hq Hr HF Hi. induction l as [|p l IH] using rev_ind.
  - split; [done|]. split; [done|]. split; [done|]. simpl. rewrite Hi, zlen_nil, Z.add_0_r, u16_small; [done|].
    by apply (load_range 2 m (used q + 2)).
  - apply Forall_app in HF as [HF [[? ?] _]%Forall_cons]. rewrite push_all_snoc.
    destruct (IH HF) as (Hok' & Hm' & Hq' & Hi').
    destruct (push_used_one (push_all q m l) q p.1 p.2 (u16 (i0 + zlen l)))
      as (Hok2 & Hm2 & Hi2 & _); try done.
    split; [done|]. split; [congruence|]. split; [by eapply queue_ok_mapped|].
    rewrite Hi2. f_equal. rewrite zlen_app, zlen_cons, zlen_nil. unfold u16.
    rewrite Zplus_mod_idemp_l. f_equal. lia.
Qed.

(** C5. However the driver programs a queue, in any order and with any register
    values, the size the device uses is 0 or a power of two up to 256, fits the
    [u16] it is used as, and the queue is ready only while all three rings lie
    inside guest RAM. *)
Theorem queue_programming_safe (m : GuestRam) (ops : list QueueOp) :
  Forall op_ok ops ->
  let q := foldl (queue_op m) queue_default ops in
  (size q = 0 \/ (0 < size q <= QUEUE_NUM_MAX /\ is_power_of_two (size q) = true)) /\
  size q = num q /\
  (is_ready q = true ->
   contains m (desc q) (16 * size q) = true /\ contains m (avail q) (6 + 2 * size q) = true /\
   contains m (used q) (6 + 8 * size q) = true).
Proof.
  intros HF q. assert (queue_ok m q) as Hq.
  { subst q. induction ops as [|op ops IH] using rev_ind; [apply queue_default_ok|].
    apply Forall_app in HF as [HF [Hop _]%Forall_cons]. rewrite foldl_app. by apply queue_op_ok; [apply IH|]. }
  rewrite (size_num m q Hq). split; [apply Hq|]. split; [done|].
  intros Hr. by destruct (is_ready_fit m q Hq Hr) as (_ & _ & ? & ? & ?).
Qed.

(** On a ready queue every address the device computes is the intended one,
    with no 64-bit overflow, and lies in guest RAM: the descriptor of any index
    below the size, the avail slot of any index, the avail and used indexes and
    the used element of any index. A descriptor index at or above the size is
    refused. *)
Theorem ready_ring_bounds (m : GuestRam) (q : Queue) (i : Z) :
  ram_ok m -> queue_ok m q -> is_ready q = true -> 0 <= i < 2 ^ 16 ->
  desc_addr q i = (if i <? num q then Some (desc q + 16 * i) else None) /\
  (i < num q -> contains m (desc q + 16 * i) 16 = true) /\
  avail_slot q i = Some (avail q + 4 + i mod num q * 2) /\
  contains m (avail q + 4 + i mod num q * 2) 2 = true /\
  contains m (avail q + 2) 2 = true /\
  used_entry q i = used q + 4 + i mod num q * 8 /\
  contains m (used_entry q i) 4 = true /\ contains m (used_entry q i + 4) 4 = true /\
  contains m (used q + 2) 2 = true.
Proof.
  intros Hok Hq Hr Hi.
  destruct (avail_slot_ready m q i Hok Hq Hr) as [Ha Hac].
  destruct (used_entry_ready m q i Hok Hq Hr) as (Hu & _ & _ & Hu1 & Hu2 & Hu3).
  destruct (is_ready_fit m q Hq Hr) as (Hn & _ & _ & Hav & _).
  pose proof (desc_addr_ready m q i) as Hd.
  split; [|split].
  - unfold desc_addr in *. destruct (i <? num q); [|done].
    destruct (Hd _ Hok Hq Hr ltac:(lia) eq_refl) as [-> _]. done.
  - intros Hlt. unfold desc_addr in Hd. destruct (Z.ltb_spec i (num q)); [|lia].
    destruct (Hd _ Hok Hq Hr ltac:(lia) eq_refl) as [-> ?]. done.
  - repeat (split; [done|]). split; [|done]. by apply (contains_sub m (avail q) (6 + 2 * num q)); try lia.
Qed.

(** A notify never makes the device walk more than a ring's worth of chains:
    [pending] is the driver's published count modulo 2^16 when that is at most
    the ring size, and refuses a larger one. *)
Theorem pending_bounded (m : GuestRam) (q : Queue) (idx : Z) :
  ram_ok m -> queue_ok m q -> is_ready q = true -> read_u16 m (avail q + 2) = Some idx ->
  pending q m =
    (if u16 (idx - last_avail q) <=? num q then Some (u16 (idx - last_avail q)) else None) /\
  (forall n, pending q m = Some n -> 0 <= n <= 256 /\ u16 (last_avail q + n) = idx).
Proof.
  intros Hok Hq Hr Hi. destruct (is_ready_fit m q Hq Hr) as (Hn & _ & _ & Hav & _).
  assert (pending q m = if u16 (idx - last_avail q) <=? num q then Some (u16 (idx - last_avail q)) else None) as E.
  { unfold pending. destruct (ring_sub m (avail q) (6 + 2 * num q) 2 2) as [-> _]; try done; try lia.
    rewrite Hi. simpl. by rewrite (size_num m q). }
  split; [done|]. intros n. rewrite E.
  destruct (Z.leb_spec (u16 (idx - last_avail q)) (num q)); [|done]. intros [= <-].
  pose proof (load_range 2 m _ _ Hok Hi) as Hidx. pose proof (q_last m q Hq).
  unfold QUEUE_NUM_MAX in *. split; [pose proof (u16_range (idx - last_avail q)); lia|].
  unfold u16. rewrite Zplus_mod_idemp_r. replace (last_avail q + (idx - last_avail q)) with idx by lia.
  apply Z.mod_small. lia.
Qed.

(** Each completion of a batch is in the slot its index selects. *)
Lemma push_all_slots q m l i0 k p :
  ram_ok m -> queue_ok m q -> is_ready q = true -> Forall completion_ok l ->
  zlen l <= num q -> read_u16 m (used q + 2) = Some i0 -> get_at l k = Some p ->
  read_u32 (push_all q m l) (used q + 4 + u16 (i0 + k) mod num q * 8) = Some p.1 /\
  read_u32 (push_all q m l) (used q + 4 + u16 (i0 + k) mod num q * 8 + 4) = Some p.2.
Proof.
  intros Hok Hq Hr HF Hlen Hi Hk. set (m' := push_all q m l). pose proof (get_at_Some _ _ _ Hk) as Hkl.
  destruct (is_ready_fit m q Hq Hr) as (Hn & Hp & _).
  unfold get_at in Hk. destruct (Z.leb_spec 0 k); [|lia].
  apply list_elem_of_split_length in Hk as (l1 & l2 & -> & Hl1).
  apply Forall_app in HF as [HF1 [[Hp1 Hp2] HF2]%Forall_cons].
  destruct (push_all_state q m l1 i0) as (Hok1 & Hm1 & Hq1 & Hi1); try done.
  assert (zlen l1 = k) as Hz by (unfold zlen; lia). rewrite Hz in Hi1.
  destruct (push_used_one (push_all q m l1) q p.1 p.2 (u16 (i0 + k))) as (Hok2 & Hm2 & Hi2 & Hr1 & Hr2 & _); try done.
  assert (m' = push_all q (push_used q (push_all q m l1) p.1 p.2) l2) as ->.
  { unfold m', push_all. rewrite foldl_app. done. }
  assert (queue_ok (push_used q (push_all q m l1) p.1 p.2) q) as Hq2 by by eapply queue_ok_mapped.
  rewrite zlen_app, zlen_cons in *. pose proof (zlen_nonneg l2).
  pose proof (Z.mod_pos_bound (u16 (i0 + k)) (num q)).
  assert (forall j, 0 <= j < zlen l2 ->
            (u16 (u16 (i0 + k) + 1) + j) mod num q <> u16 (i0 + k) mod num q) as Hne.
  { intros j Hj. rewrite <-Zplus_mod_idemp_l, u16_mod_ring, Zplus_mod_idemp_l by done.
    replace (u16 (i0 + k) + 1 + j) with (u16 (i0 + k) + (1 + j)) by lia.
    apply ring_slot_inj; lia. }
  unfold read_u32 in *.
  split; (erewrite push_all_frame; [done|done|done|done|done|exact Hi2|lia|]);
    intros j Hj; specialize (Hne j Hj);
    pose proof (Z.mod_pos_bound (u16 (u16 (i0 + k) + 1) + j) (num q)); lia.
Qed.

(** C38. The used ring is a queue of completions: after the device appends up to
    a ring's worth of them to a ready queue, [used.idx] has advanced by exactly
    their number, modulo 2^16, and the driver reads each (head, length) back, in
    order, from the slot its index selects. *)
Theorem push_used_publishes (m : GuestRam) (q : Queue) (l : list (Z * Z)) (i0 : Z) :
  ram_ok m -> queue_ok m q -> is_ready q = true -> Forall completion_ok l ->
  zlen l <= num q -> read_u16 m (used q + 2) = Some i0 ->
  let m' := push_all q m l in
  read_u16 m' (used q + 2) = Some (u16 (i0 + zlen l)) /\
  forall k p, get_at l k = Some p ->
    read_u32 m' (used q + 4 + u16 (i0 + k) mod num q * 8) = Some p.1 /\
    read_u32 m' (used q + 4 + u16 (i0 + k) mod num q * 8 + 4) = Some p.2.
Proof.
  intros Hok Hq Hr HF Hlen Hi m'. split; [by apply push_all_state|]. intros k p Hk. by apply push_all_slots.
Qed.

(** The driver never sees a torn completion: whatever prefix of the stores
    of [push_used] is visible, in program order, either [used.idx] still reads
    its old value or the element it now counts is completely written. *)
Theorem push_used_never_torn (m : GuestRam) (q : Queue) (head len i0 : Z) (n : nat) :
  ram_ok m -> queue_ok m q -> is_ready q = true ->
  0 <= head < 2 ^ 16 -> 0 <= len < 2 ^ 32 -> read_u16 m (used q + 2) = Some i0 ->
  let seen := run_stores m (take n (push_used_stores q i0 head len)) in
  let e := used q + 4 + i0 mod num q * 8 in
  read_u16 seen (used q + 2) = Some i0 \/
  (read_u16 seen (used q + 2) = Some (u16 (i0 + 1)) /\
   read_u32 seen e = Some head /\ read_u32 seen (e + 4) = Some len).
Proof.
  intros Hok Hq Hr Hhead Hlen Hi seen e.
  destruct (used_entry_ready m q i0 Hok Hq Hr) as (He & He4 & Hu2 & Hc1 & Hc2 & Hc3).
  destruct (is_ready_fit m q Hq Hr) as (Hn & _). pose proof (Z.mod_pos_bound i0 (num q)).
  fold e in He. rewrite He in *.
  destruct n as [|[|[|n]]]; subst seen; unfold push_used_stores; rewrite ?He, ?He4, ?Hu2; cbn [take run_stores].
  - by left.
  - left. destruct (ignore_store 4 m e head Hc1) as (m1 & H1 & ->). unfold read_u16 in *.
    rewrite (store_load_disjoint _ _ _ _ _ _ _ Hok H1) by lia. done.
  - left. destruct (ignore_store 4 m e head Hc1) as (m1 & H1 & ->).
    assert (ram_ok m1) as Hok1 by eauto with hvi.
    destruct (ignore_store 4 m1 (e + 4) len) as (m2 & H2 & ->).
    { rewrite (contains_mapped m m1); [done|]. eauto with hvi. }
    unfold read_u16 in *.
    rewrite (store_load_disjoint _ _ _ _ _ _ _ Hok1 H2), (store_load_disjoint _ _ _ _ _ _ _ Hok H1) by lia.
    done.
  - right. destruct (push_used_one m q head len i0) as (_ & _ & H1 & H2 & H3 & _); try done.
    unfold push_used in *. rewrite (size_num m q), Hu2, Hi in * by done.
    destruct (Z.eqb_spec (num q) 0); [lia|]. unfold push_used_stores in *. rewrite He, He4, Hu2 in *.
    cbn [run_stores] in *. by rewrite take_nil.
Qed.

(** ** A queue of eight entries, programmed as the Linux driver does *)

Definition demo_ops : list QueueOp :=
  [SetNum 8; SetDescLo 0x1000; SetDescHi 0; SetAvailLo 0x2000; SetAvailHi 0;
   SetUsedLo 0x3000; SetUsedHi 0; SetReady 1].
Definition demo_queue : Queue := mkQueue 8 true 0x1000 0x2000 0x3000 0.

Lemma demo_ops_ok : Forall op_ok demo_ops.
Proof. repeat constructor; simpl; lia. Qed.

Lemma demo_queue_ok : queue_ok split_ram demo_queue.
Proof. split; simpl; try lia; [right; split; [vm_compute; split; congruence|done]|done]. Qed.

Lemma queue_programming_safe_witness :
  foldl (queue_op split_ram) queue_default demo_ops = demo_queue /\
  contains split_ram 0x3000 (6 + 8 * 8) = true.
Proof.
  assert (foldl (queue_op split_ram) queue_default demo_ops = demo_queue) as E
    by (vm_compute; reflexivity).
  split; [exact E|].
  pose proof (queue_programming_safe split_ram demo_ops demo_ops_ok) as H. cbv zeta in H.
  rewrite E in H. apply (proj2 (proj2 H)). vm_compute. reflexivity.
Defined.

Lemma ready_ring_bounds_witness :
  desc_addr demo_queue 9 = None /\ contains split_ram (0x2000 + 2) 2 = true.
Proof.
  pose proof (ready_ring_bounds split_ram demo_queue 9 split_ram_ok demo_queue_ok eq_refl) as H.
  destruct H as (H1 & _ & _ & _ & H2 & _); [split; lia|]. split; [exact H1|exact H2].
Defined.

(** RAM in which the driver has published three buffers. *)
Definition demo_ram : GuestRam := ignore split_ram (write_u16 split_ram 0x2002 3).

Lemma demo_ram_ok : ram_ok demo_ram.
Proof.
  apply (store_ram_ok 2 split_ram 0x2002 3); [apply split_ram_ok|]. vm_compute. reflexivity.
Qed.

Lemma pending_bounded_witness : pending demo_queue demo_ram = Some 3 /\ u16 (0 + 3) = 3.
Proof.
  assert (queue_ok demo_ram demo_queue) as Hq
    by (apply (queue_ok_mapped demo_queue split_ram); [reflexivity|apply demo_queue_ok]).
  assert (read_u16 demo_ram (avail demo_queue + 2) = Some 3) as Hr by (vm_compute; reflexivity).
  destruct (pending_bounded demo_ram demo_queue 3 demo_ram_ok Hq eq_refl Hr) as [H1 H2].
  split; [exact H1|]. apply (H2 3). exact H1.
Defined.

Lemma push_used_publishes_witness :
  read_u32 (push_all demo_queue split_ram [(5, 100); (2, 7)]) (0x3000 + 4 + 8) = Some 2.
Proof.
  assert (read_u16 split_ram (used demo_queue + 2) = Some 0) as Hi by (vm_compute; reflexivity).
  pose proof (push_used_publishes split_ram demo_queue [(5, 100); (2, 7)] 0 split_ram_ok demo_queue_ok eq_refl) as H.
  refine (proj1 (proj2 (H _ _ Hi) 1 (2, 7) eq_refl)).
  - repeat constructor; simpl; lia.
  - vm_compute. congruence.
Defined.

Lemma push_used_never_torn_witness :
  let seen := run_stores split_ram (take 2 (push_used_stores demo_queue 0 5 100)) in
  read_u16 seen 0x3002 = Some 0 \/
  (read_u16 seen 0x3002 = Some (u16 1) /\ read_u32 seen 0x3004 = Some 5 /\ read_u32 seen 0x3008 = Some 100).
Proof.
  refine (push_used_never_torn split_ram demo_queue 5 100 0 2 split_ram_ok demo_queue_ok eq_refl _ _ _).
  - lia.
  - lia.
  - vm_compute. reflexivity.
Defined.
