(* ===== verification/RingView.v ===== *)
(** * What a ring says, read straight from RAM (virtio 1.2, 2.7)

    The driver's side of a split virtqueue: the descriptor chain from an index,
    the entries of the available ring, the completion the driver finds in the used
    ring. Nothing here calls the devices' own walks; their theorems compare the two. *)

From S2P Require Import Prelude Memory Queue.
Local Open Scope Z_scope.

(** A buffer: a span of guest RAM, and whether it is the device that writes it. *)
Record Segment := mkSegment { s_addr : Z; s_len : Z; device_writes : bool }.

#[export] Instance Segment_eq_dec : EqDecision Segment.
Proof. solve_decision. Defined.

(** The chain that starts at descriptor [i], [n] descriptors of it at most, and
    whether it ended within them. Bit 0 of the flags continues the chain, bit 1
    marks a buffer the device writes. *)
Fixpoint chain (n : nat) (q : Queue) (m : GuestRam) (i : Z) : option (list Segment * bool) :=
  match n with
  | O => Some ([], false)
  | S n =>
      if num q <=? i then None
      else
        let e := desc q + 16 * i in
        addr ← read_u64 m e;
        len ← read_u32 m (e + 8);
        flags ← read_u16 m (e + 12);
        next ← read_u16 m (e + 14);
        let s := mkSegment addr len (Z.testbit flags 1) in
        if Z.testbit flags 0 then '(rest, ended) ← chain n q m next; Some (s :: rest, ended)
        else Some ([s], true)
  end.

Definition ring_chain (q : Queue) (m : GuestRam) (i : Z) : option (list Segment * bool) :=
  chain (Z.to_nat (num q)) q m i.

Definition to_device (segs : list Segment) : list Segment := filter (fun s => device_writes s = false) segs.
Definition from_device (segs : list Segment) : list Segment := filter (fun s => device_writes s = true) segs.
Definition capacity (segs : list Segment) : Z := foldr (fun s t => s_len s + t) 0 segs.
Definition contents (m : GuestRam) (segs : list Segment) : option (list Z) :=
  @concat Z <$> mapM (fun s => read m (s_addr s) (s_len s)) segs.

(** The heads of the [n] entries of the available ring from index [lst] on. *)
Definition posted (q : Queue) (m : GuestRam) (lst n : Z) : list Z :=
  omap (fun j => read_u16 m (avail q + 4 + 2 * ((lst + j) mod num q))) (seqZ 0 n).

(** The newest completion of the used ring: the head and the length written. *)
Definition newest_completion (q : Queue) (m : GuestRam) : option (Z * Z) :=
  idx ← read_u16 m (used q + 2);
  let e := used q + 4 + 8 * ((idx - 1) mod num q) in
  head ← read_u32 m e;
  len ← read_u32 m (e + 4);
  Some (head, len).

(** What the driver takes from the newest completion: the first [len] bytes of
    the buffers it lent the device. *)
Definition newest_bytes (q : Queue) (m : GuestRam) : option (list Z) :=
  '(head, len) ← newest_completion q m;
  '(segs, _) ← ring_chain q m head;
  bytes ← contents m (from_device segs);
  Some (take (Z.to_nat len) bytes).

(** ** Spans *)

Definition apart (s t : Z * Z) : Prop := s.1 + s.2 <= t.1 \/ t.1 + t.2 <= s.1.
#[export] Instance apart_dec s t : Decision (apart s t).
Proof. unfold apart. apply _. Defined.

Fixpoint segs_apart (segs : list (Z * Z)) : Prop :=
  match segs with
  | [] => True
  | s :: segs => Forall (apart s) segs /\ segs_apart segs
  end.

Definition seg_in (m : GuestRam) (s : Z * Z) : Prop := contains m s.1 s.2 = true.

(** RAM outside the segments is as it was. *)
Definition ram_frame (segs : list (Z * Z)) (m m' : GuestRam) : Prop :=
  forall h len, 0 <= len -> Forall (apart (h, len)) segs -> read m' h len = read m h len.

Lemma seg_in_evolves m m' segs : ram_evolves m m' -> Forall (seg_in m) segs -> Forall (seg_in m') segs.
Proof.
  intros [_ E] Hs. eapply Forall_impl; [exact Hs|]. intros s. unfold seg_in. by rewrite (contains_mapped m m').
Qed.

Lemma segs_apart_app segs s :
  segs_apart (segs ++ [s]) <-> segs_apart segs /\ Forall (fun t => apart t s) segs.
Proof.
  induction segs as [|t segs IH]; simpl; [by split|]. rewrite IH, Forall_app, !Forall_cons, Forall_nil. tauto.
Qed.

Lemma apart_sym s t : apart s t -> apart t s.
Proof. intros [?|?]; [by right|by left]. Qed.

Definition desc_span (q : Queue) : Z * Z := (desc q, 16 * num q).
Definition avail_span (q : Queue) : Z * Z := (avail q, 6 + 2 * num q).
Definition used_span (q : Queue) : Z * Z := (used q, 6 + 8 * num q).
Definition seg_span (s : Segment) : Z * Z := (s_addr s, s_len s).

(** RAM that differs from [m] inside [span] only. *)
Definition agrees_outside (span : Z * Z) (m m' : GuestRam) : Prop :=
  mapped m' = mapped m /\ forall h k, 0 <= k -> apart (h, k) span -> read m' h k = read m h k.

#[export] Instance agrees_outside_preorder span : PreOrder (agrees_outside span).
Proof.
  split; [by split|]. intros m1 m2 m3 [E1 H1] [E2 H2]. split; [congruence|]. intros h k Hk Ha. by rewrite H2, H1.
Qed.

Lemma agrees_load span m m' n h :
  agrees_outside span m m' -> apart (h, Z.of_nat n) span -> load n m' h = load n m h.
Proof. intros [_ H] Ha. unfold load. by rewrite H by (done || lia). Qed.

Lemma land_pow2 f k : 0 <= k -> (Z.land f (2 ^ k) =? 0) = negb (Z.testbit f k).
Proof.
  intros Hk. destruct (Z.testbit f k) eqn:E; simpl.
  - apply Z.eqb_neq. intros H. assert (Z.testbit (Z.land f (2 ^ k)) k = true) as Hb
      by (by rewrite Z.land_spec, E, Z.pow2_bits_true). by rewrite H, Z.bits_0 in Hb.
  - apply Z.eqb_eq. apply Z.bits_inj'. intros j Hj. rewrite Z.land_spec, Z.bits_0, Z.pow2_bits_eqb by done.
    destruct (Z.eqb_spec k j) as [<-|]; [by rewrite E|by rewrite andb_false_r].
Qed.

Lemma read_desc_fields m q i :
  ram_ok m -> queue_ok m q -> is_ready q = true -> 0 <= i < num q ->
  exists a l f nx, read_desc m (desc q + 16 * i) = Some (mkDesc a l f nx) /\
    read_u64 m (desc q + 16 * i) = Some a /\ read_u32 m (desc q + 16 * i + 8) = Some l /\
    read_u16 m (desc q + 16 * i + 12) = Some f /\ read_u16 m (desc q + 16 * i + 14) = Some nx /\
    0 <= l < 2 ^ 32 /\ 0 <= nx < 2 ^ 16.
Proof.
  intros Hm Hq Hr Hi. destruct (is_ready_fit m q Hq Hr) as (Hn & _ & Hc & _).
  destruct (contains_range m (desc q) (16 * num q) Hm) as [? ?]; [lia|done|].
  assert (forall o n, 0 <= o -> o + Z.of_nat (S n) <= 16 -> is_Some (load (S n) m (desc q + 16 * i + o))) as Hl.
  { intros o n Ho Hon. apply load_contains. rewrite <-Z.add_assoc. apply (contains_sub m (desc q) (16 * num q)); (done || lia). }
  destruct (Hl 0 7%nat) as [a Ha]; [lia..|]. destruct (Hl 8 3%nat) as [l Hl']; [lia..|]. destruct (Hl 12 1%nat) as [f Hf]; [lia..|].
  destruct (Hl 14 1%nat) as [nx Hx]; [lia..|]. rewrite Z.add_0_r in Ha.
  exists a, l, f, nx. unfold read_desc, read_u64, read_u32, read_u16.
  rewrite !add64_small by lia. rewrite Ha. cbn [mbind option_bind]. rewrite Hl'. cbn [mbind option_bind]. rewrite Hf.
  cbn [mbind option_bind]. rewrite Hx. split; [done|].
  repeat (split; [done|]). split; [by apply (load_range 4 m _ _ Hm Hl')|by apply (load_range 2 m _ _ Hm Hx)].
Qed.

Lemma desc_addr_lt m q i :
  ram_ok m -> queue_ok m q -> is_ready q = true -> 0 <= i ->
  desc_addr q i = if num q <=? i then None else Some (desc q + 16 * i).
Proof.
  intros Hm Hq Hr Hi. destruct (desc_addr q i) as [da|] eqn:E.
  - destruct (desc_addr_ready m q i da Hm Hq Hr Hi E) as [-> _]. unfold desc_addr in E.
    destruct (Z.ltb_spec i (num q)); [|done]. by rewrite (proj2 (Z.leb_gt _ _)).
  - unfold desc_addr in E. destruct (Z.ltb_spec i (num q)); [done|]. by rewrite (proj2 (Z.leb_le _ _)).
Qed.

(** A chain is what the descriptor table says, whatever else RAM holds. *)
Lemma chain_same n q m m' i :
  (forall h k, 0 <= k -> desc q <= h -> h + k <= desc q + 16 * num q -> read m' h k = read m h k) ->
  0 <= i -> ram_ok m -> queue_ok m q -> is_ready q = true -> chain n q m' i = chain n q m i.
Proof.
  intros Ha. revert i. induction n as [|n IH]; intros i Hi Hm Hq Hr; [done|]. cbn [chain].
  destruct (Z.leb_spec (num q) i); [done|].
  assert (forall o k, 0 <= o -> o + Z.of_nat k <= 16 -> load k m' (desc q + 16 * i + o) = load k m (desc q + 16 * i + o)) as Hl.
  { intros o k Ho Hk. unfold load. by rewrite Ha by lia. }
  unfold read_u64, read_u32, read_u16. pose proof (Hl 0 8%nat) as H0. rewrite Z.add_0_r in H0. rewrite H0, !Hl by lia.
  change (load 8) with read_u64. change (load 4) with read_u32. change (load 2) with read_u16.
  destruct (read_desc_fields m q i) as (a & l & f & nx & _ & -> & -> & -> & -> & _ & Hx); try done.
  cbn [mbind option_bind]. destruct (Z.testbit f 0); [|done]. by rewrite IH by (done || lia).
Qed.

Lemma chain_agrees n q m m' span i :
  agrees_outside span m m' -> apart (desc_span q) span -> 0 <= i -> ram_ok m -> queue_ok m q -> is_ready q = true ->
  chain n q m' i = chain n q m i.
Proof.
  intros [_ Ha] Hs. apply chain_same. intros h k Hk H1 H2. apply Ha; [done|].
  unfold apart, desc_span in *. cbn [fst snd] in *. lia.
Qed.

Lemma contents_agrees span m m' segs :
  agrees_outside span m m' -> Forall (fun s => 0 <= s_len s /\ apart (seg_span s) span) segs -> contents m' segs = contents m segs.
Proof.
  intros [_ Ha] Hs. unfold contents. f_equal. induction Hs as [|s segs [Hl Hap] _ IH]; [done|]. cbn [mapM]. by rewrite IH, Ha.
Qed.

Lemma chain_lens n q m i segs e : ram_ok m -> chain n q m i = Some (segs, e) -> Forall (fun s => 0 <= s_len s < 2 ^ 32) segs.
Proof.
  intros Hm. revert i segs e. induction n as [|n IH]; intros i segs e; cbn [chain]; [intros; simplify_eq; constructor|].
  destruct (num q <=? i); [done|]. intros (a & Ha & E)%bind_Some. apply bind_Some in E as (l & Hl & E).
  apply bind_Some in E as (f & Hf & E). apply bind_Some in E as (nx & Hx & E).
  apply (load_range 4 m) in Hl; [|done]. destruct (Z.testbit f 0).
  - apply bind_Some in E as ([rest e'] & Er & E). simplify_eq. constructor; [simpl; lia|by eapply IH].
  - simplify_eq. constructor; [simpl; lia|constructor].
Qed.

Lemma capacity_nonneg segs : Forall (fun s => 0 <= s_len s < 2 ^ 32) segs -> 0 <= capacity segs.
Proof. induction 1 as [|s segs Hs _ IH]; simpl; lia. Qed.
Lemma filter_lens P `{!forall s, Decision (P s)} segs :
  Forall (fun s => 0 <= s_len s < 2 ^ 32) segs -> Forall (fun s => 0 <= s_len s < 2 ^ 32) (filter P segs).
Proof. rewrite !Forall_forall. intros Hl s Hs. apply list_elem_of_filter in Hs as [_ Hs]. by apply Hl. Qed.

(** ** What completing an entry changes *)

Lemma run_stores_agrees span l m :
  ram_ok m -> Forall (fun s => let '(a, n, _) := s in span.1 <= a /\ a + Z.of_nat n <= span.1 + span.2) l ->
  agrees_outside span m (run_stores m l).
Proof.
  intros Hm Hl. revert m Hm. induction Hl as [|[[a n] v] l Ha _ IH]; intros m Hm; [reflexivity|]. cbn [run_stores].
  etrans; [|apply IH; by apply ignore_store_evolves]. unfold ignore. destruct (store n m a v) as [m1|] eqn:E; [|reflexivity].
  split; [by eapply store_mapped|]. intros h k Hk Hap. eapply write_read_disjoint; [done|exact E|done|auto with hvi|].
  rewrite zlen_le_bytes. unfold apart in Hap. simpl in *. lia.
Qed.

Lemma push_used_agrees q m head len :
  ram_ok m -> queue_ok m q -> is_ready q = true -> agrees_outside (used_span q) m (push_used q m head len).
Proof.
  intros Hm Hq Hr. destruct (is_ready_fit m q Hq Hr) as (Hn & _). unfold push_used. destruct (size q =? 0); [reflexivity|].
  destruct (read_u16 _ _) as [i|]; [|reflexivity]. destruct (used_entry_ready m q i Hm Hq Hr) as (He & He4 & Hu & _).
  apply run_stores_agrees; [done|]. unfold push_used_stores. rewrite He4, Hu, He. pose proof (Z.mod_pos_bound i (num q)).
  unfold used_span. repeat constructor; simpl; lia.
Qed.

Lemma push_all_agrees q m l :
  ram_ok m -> queue_ok m q -> is_ready q = true -> agrees_outside (used_span q) m (push_all q m l).
Proof.
  intros Hm Hq Hr. revert m Hm Hq. induction l as [|p l IH]; intros m Hm Hq; [reflexivity|]. cbn [push_all foldl].
  etrans; [by apply push_used_agrees|]. apply IH; [by apply push_used_ram_ok|]. by eapply queue_ok_evolves; [apply push_used_evolves|].
Qed.

(** The completion [push_used] makes is the newest one the driver finds. *)
Lemma push_used_newest q m head len :
  ram_ok m -> queue_ok m q -> is_ready q = true -> 0 <= head < 2 ^ 16 -> 0 <= len < 2 ^ 32 ->
  newest_completion q (push_used q m head len) = Some (head, len).
Proof.
  intros Hm Hq Hr Hh Hl. destruct (is_ready_fit m q Hq Hr) as (Hn & Hp & _ & _ & Hc).
  assert (is_Some (read_u16 m (used q + 2))) as [i0 Hi].
  { apply load_contains. apply (contains_sub m (used q) (6 + 8 * num q)); (done || lia). }
  destruct (push_used_one m q head len i0) as (_ & _ & E0 & E1 & E2 & _); try done.
  unfold newest_completion. rewrite E0. cbn [mbind option_bind].
  assert ((u16 (i0 + 1) - 1) mod num q = i0 mod num q) as ->.
  { rewrite <-(Zminus_mod_idemp_l (u16 (i0 + 1))), u16_mod_ring, Zminus_mod_idemp_l by done. f_equal. lia. }
  replace (used q + 4 + 8 * (i0 mod num q)) with (used q + 4 + i0 mod num q * 8) by lia.
  rewrite E1. cbn [mbind option_bind]. by rewrite E2.
Qed.

(** ** The available ring *)

Lemma posted_u16 q m lst n : 0 < num q <= QUEUE_NUM_MAX -> is_power_of_two (num q) = true -> posted q m (u16 lst) n = posted q m lst n.
Proof.
  intros Hn Hp. unfold posted. apply list_omap_ext, Forall_Forall2_diag, Forall_forall. intros j _.
  by rewrite <-Zplus_mod_idemp_l, u16_mod_ring, Zplus_mod_idemp_l.
Qed.

Lemma posted_S q m lst n head :
  read_u16 m (avail q + 4 + 2 * (lst mod num q)) = Some head ->
  posted q m lst (Z.of_nat (S n)) = head :: posted q m (lst + 1) (Z.of_nat n).
Proof.
  intros Hh. unfold posted. rewrite seqZ_cons by lia. cbn [omap list_omap]. rewrite Z.add_0_r, Hh. f_equal.
  replace (Z.pred (Z.of_nat (S n))) with (Z.of_nat n) by lia. change (Z.succ 0) with 1.
  replace (seqZ 1 (Z.of_nat n)) with (Z.add 1 <$> seqZ 0 (Z.of_nat n)) by (rewrite fmap_add_seqZ; done).
  induction (seqZ 0 (Z.of_nat n)) as [|j l IH]; [done|]. cbn [omap list_omap fmap list_fmap]. by rewrite IH, Z.add_assoc.
Qed.

(** The code's slot is the ring's entry, and it is in RAM. *)
Lemma avail_head m q lst :
  ram_ok m -> queue_ok m q -> is_ready q = true ->
  exists slot head, avail_slot q lst = Some slot /\ read_u16 m slot = Some head /\
    read_u16 m (avail q + 4 + 2 * (lst mod num q)) = Some head /\ 0 <= head < 2 ^ 16.
Proof.
  intros Hm Hq Hr. destruct (avail_slot_ready m q lst Hm Hq Hr) as [E Hc].
  destruct (proj2 (load_contains 2 m _) Hc) as [head Hh]. exists (avail q + 4 + lst mod num q * 2), head.
  replace (2 * (lst mod num q)) with (lst mod num q * 2) by lia. repeat (split; [done|]). by apply (load_range 2 m _ _ Hm Hh).
Qed.

Lemma avail_agrees m m' q lst :
  agrees_outside (used_span q) m m' -> apart (avail_span q) (used_span q) -> 0 < num q ->
  read_u16 m' (avail q + 4 + 2 * (lst mod num q)) = read_u16 m (avail q + 4 + 2 * (lst mod num q)).
Proof.
  intros Ha Hap Hn. apply (agrees_load (used_span q)); [done|]. pose proof (Z.mod_pos_bound lst (num q) Hn).
  unfold apart, avail_span in *. simpl in *. lia.
Qed.
