(* ===== verification/Filter.v ===== *)
(** * The console filter ([src/terminal/filter.rs])

    A byte-at-a-time state machine between the guest's console and the
    operator's terminal. Each handler returns the filter and the bytes it
    appends to [out]. The theorems say that what reaches the terminal is a
    sequence of complete, allowed tokens, and that the filter leaves its own
    output alone. *)

From S2P Require Import Prelude.
Local Open Scope Z_scope.

Definition ESC : Z := 0x1b.
Definition ENQ : Z := 0x05.
Definition BEL : Z := 0x07.
Definition CAN : Z := 0x18.
Definition SUB : Z := 0x1a.
Definition MAX_SEQ : Z := 128.
Definition REPLACEMENT : list Z := [0xef; 0xbf; 0xbd].
Definition DEC_MODES : list Z := [1; 5; 6; 7; 12; 25; 47; 1047; 1048; 1049; 2004].

Inductive State := Ground | Escape | EscapeIntermediate | Csi | CsiIgnore | ControlString.
#[export] Instance State_eq_dec : EqDecision State.
Proof. solve_decision. Defined.

Record ConsoleFilter := mkFilter {
  state : State; seq : list Z; utf8 : list Z; utf8_len : Z; utf8_want : Z }.

Definition new : ConsoleFilter := mkFilter Ground [] [0; 0; 0; 0] 0 0.

Definition with_state (f : ConsoleFilter) (s : State) : ConsoleFilter :=
  mkFilter s (seq f) (utf8 f) (utf8_len f) (utf8_want f).
Definition with_seq (f : ConsoleFilter) (s : list Z) : ConsoleFilter :=
  mkFilter (state f) s (utf8 f) (utf8_len f) (utf8_want f).
Definition with_utf8 (f : ConsoleFilter) (u : list Z) (len want : Z) : ConsoleFilter :=
  mkFilter (state f) (seq f) u len want.

(** Byte membership in an alternation of Rust byte patterns. *)
Definition one_of (l : list Z) (b : Z) : bool := existsb (Z.eqb b) l.

(** ** UTF-8, as [std::str::from_utf8] decides it: the code points, or an error. *)

Definition cont (b : Z) : bool := between 0x80 0xbf b.

Fixpoint from_utf8 (l : list Z) : option (list Z) :=
  match l with
  | [] => Some []
  | b0 :: l1 =>
      if between 0 0x7f b0 then cons b0 <$> from_utf8 l1
      else match l1 with
      | [] => None
      | b1 :: l2 =>
          if between 0xc2 0xdf b0 then
            if cont b1 then cons ((b0 - 0xc0) * 64 + (b1 - 0x80)) <$> from_utf8 l2 else None
          else match l2 with
          | [] => None
          | b2 :: l3 =>
              if between 0xe0 0xef b0 then
                if between (if b0 =? 0xe0 then 0xa0 else 0x80) (if b0 =? 0xed then 0x9f else 0xbf) b1
                   && cont b2
                then cons ((b0 - 0xe0) * 4096 + (b1 - 0x80) * 64 + (b2 - 0x80)) <$> from_utf8 l3
                else None
              else match l3 with
              | [] => None
              | b3 :: l4 =>
                  if between 0xf0 0xf4 b0
                     && between (if b0 =? 0xf0 then 0x90 else 0x80) (if b0 =? 0xf4 then 0x8f else 0xbf) b1
                     && cont b2 && cont b3
                  then cons ((b0 - 0xf0) * 262144 + (b1 - 0x80) * 4096 + (b2 - 0x80) * 64 + (b3 - 0x80))
                         <$> from_utf8 l4
                  else None
              end
          end
      end
  end.

(** ** Which control sequences may pass *)

Definition is_digit (b : Z) : bool := between 0x30 0x39 b.

(** [str::parse::<u32>]: an optional [+], at least one digit, no overflow. *)
Fixpoint digits_val (acc : Z) (l : list Z) : option Z :=
  match l with
  | [] => Some acc
  | b :: l =>
      if is_digit b then
        let acc := acc * 10 + (b - 0x30) in
        if acc <? 2 ^ 32 then digits_val acc l else None
      else None
  end.
Definition parse_u32 (l : list Z) : option Z :=
  match l with
  | [] => None
  | [0x2b] => None
  | 0x2b :: l => digits_val 0 l
  | l => digits_val 0 l
  end.

Definition modes_allowed (params : list Z) : bool :=
  negb (bool_decide (params = [])) &&
  forallb (fun p =>
    match from_utf8 p with
    | None => false
    | Some _ => match parse_u32 p with Some m => one_of DEC_MODES m | None => false end
    end) (split_on 0x3b params).

Definition erase_allowed (params : list Z) : bool :=
  bool_decide (params = []) || bool_decide (params = [0x30]) || bool_decide (params = [0x31])
    || bool_decide (params = [0x32]).

(** [rest.iter().position(..).unwrap_or(rest.len())] and [split_at]. *)
Fixpoint split_inter (l : list Z) : list Z * list Z :=
  match l with
  | [] => ([], [])
  | b :: k => if between 0x20 0x2f b then ([], l) else let '(p, i) := split_inter k in (b :: p, i)
  end.

(** The finals that move the cursor, erase, insert, delete, scroll or set
    colors: [@ A-I K-M P S X Z a b d-f m r s `]. *)
Definition plain_final (b : Z) : bool :=
  one_of [0x40; 0x50; 0x53; 0x58; 0x5a; 0x61; 0x62; 0x6d; 0x72; 0x73; 0x60] b
    || between 0x41 0x49 b || between 0x4b 0x4d b || between 0x64 0x66 b.

(** The table of [(marker, inter, fin)] patterns, in the code's order. *)
Definition csi_table (marker : option Z) (params inter : list Z) (fin : Z) : bool :=
  match marker, inter with
  | None, [] =>
      if plain_final fin then true
      else if fin =? 0x54 then negb (one_of params 0x3b)
      else if fin =? 0x4a then erase_allowed params
      else if fin =? 0x75 then bool_decide (params = [])
      else if (fin =? 0x68) || (fin =? 0x6c) then bool_decide (params = [0x34])
      else false
  | Some 0x3f, [] =>
      if fin =? 0x4a then erase_allowed params
      else if (fin =? 0x68) || (fin =? 0x6c) then modes_allowed params
      else fin =? 0x4b
  | None, [i] => ((i =? 0x20) && (fin =? 0x71)) || ((i =? 0x21) && (fin =? 0x70))
  | _, _ => false
  end.

Definition csi_allowed (body : list Z) : bool :=
  match rev body with
  | [] => false
  | fin :: r =>
      let rest := rev r in
      let '(marker, rest) :=
        match rest with
        | m :: k => if between 0x3c 0x3f m then (Some m, k) else (None, rest)
        | [] => (None, rest)
        end in
      let '(params, inter) := split_inter rest in
      if negb (forallb (fun b => is_digit b || (b =? 0x3b) || (b =? 0x3a)) params)
         || negb (forallb (between 0x20 0x2f) inter)
      then false
      else csi_table marker params inter fin
  end.

(** ** The state machine *)

Definition execute (b : Z) : list Z := if negb (b =? ENQ) then [b] else [].

Definition start_escape (f : ConsoleFilter) : ConsoleFilter :=
  with_state (with_seq f [ESC]) Escape.

Definition hold (f : ConsoleFilter) (b : Z) : ConsoleFilter :=
  if zlen (seq f) <? MAX_SEQ then with_seq f (seq f ++ [b])
  else if bool_decide (state f = Csi) then with_state f CsiIgnore
  else f.

Definition start_utf8 (f : ConsoleFilter) (b : Z) : ConsoleFilter * list Z :=
  let go want := (with_utf8 f (<[0%nat := b]> (utf8 f)) 1 want, []) in
  if between 0xc2 0xdf b then go 2
  else if between 0xe0 0xef b then go 3
  else if between 0xf0 0xf4 b then go 4
  else (f, REPLACEMENT).

(** A C1 control. *)
Definition c1 (c : Z) : bool := between 0x80 0x9f c.

Definition finish_utf8 (f : ConsoleFilter) : ConsoleFilter * list Z :=
  let bytes := take (Z.to_nat (utf8_len f)) (utf8 f) in
  let f := with_utf8 f (utf8 f) (utf8_len f) 0 in
  match from_utf8 bytes with
  | Some cs => if forallb (fun c => negb (c1 c)) cs then (f, bytes) else (f, [])
  | None => (f, REPLACEMENT)
  end.

Definition ground (f : ConsoleFilter) (b : Z) : ConsoleFilter * list Z :=
  if b =? ESC then (start_escape f, [])
  else if between 0x00 0x1f b then (f, execute b)
  else if between 0x20 0x7f b then (f, [b])
  else start_utf8 f b.

Definition escape (f : ConsoleFilter) (b : Z) : ConsoleFilter * list Z :=
  if b =? ESC then (start_escape f, [])
  else if (b =? CAN) || (b =? SUB) then (with_state f Ground, [])
  else if between 0x00 0x1f b then (f, execute b)
  else if b =? 0x5b then (with_state (with_seq f (seq f ++ [b])) Csi, [])
  else if one_of [0x5d; 0x50; 0x58; 0x5e; 0x5f] b then (with_state f ControlString, [])
  else if between 0x20 0x2f b then
    (with_state (with_seq f (seq f ++ [b])) EscapeIntermediate, [])
  else if one_of [0x37; 0x38; 0x44; 0x45; 0x4d; 0x3d; 0x3e] b then
    (with_state f Ground, [ESC; b])
  else if between 0x30 0x7f b then (with_state f Ground, [])
  else ground (with_state f Ground) b.

Definition escape_intermediate (f : ConsoleFilter) (b : Z) : ConsoleFilter * list Z :=
  if b =? ESC then (start_escape f, [])
  else if (b =? CAN) || (b =? SUB) then (with_state f Ground, [])
  else if between 0x00 0x1f b then (f, execute b)
  else if between 0x20 0x2f b then (hold f b, [])
  else if between 0x30 0x7e b then
    (with_state f Ground,
     if (zlen (seq f) =? 2) && one_of [0x28; 0x29; 0x2a; 0x2b] (byte_at (seq f) 1)
        && one_of [0x30; 0x41; 0x42] b
     then seq f ++ [b] else [])
  else if b =? 0x7f then (f, [])
  else ground (with_state f Ground) b.

Definition csi (f : ConsoleFilter) (b : Z) : ConsoleFilter * list Z :=
  if b =? ESC then (start_escape f, [])
  else if (b =? CAN) || (b =? SUB) then (with_state f Ground, [])
  else if between 0x00 0x1f b then (f, execute b)
  else if between 0x20 0x3f b then (hold f b, [])
  else if between 0x40 0x7e b then
    let f := with_seq f (seq f ++ [b]) in
    (with_state f Ground, if csi_allowed (drop 2 (seq f)) then seq f else [])
  else if b =? 0x7f then (f, [])
  else ground (with_state f Ground) b.

Definition csi_ignore (f : ConsoleFilter) (b : Z) : ConsoleFilter * list Z :=
  if b =? ESC then (start_escape f, [])
  else if (b =? CAN) || (b =? SUB) || between 0x40 0x7e b then (with_state f Ground, [])
  else if between 0x00 0x1f b then (f, execute b)
  else if between 0x20 0x3f b || (b =? 0x7f) then (f, [])
  else ground (with_state f Ground) b.

Definition control_string (f : ConsoleFilter) (b : Z) : ConsoleFilter :=
  if b =? ESC then start_escape f
  else if one_of [BEL; CAN; SUB] b then with_state f Ground
  else f.

Definition dispatch (f : ConsoleFilter) (b : Z) : ConsoleFilter * list Z :=
  match state f with
  | Ground => ground f b
  | Escape => escape f b
  | EscapeIntermediate => escape_intermediate f b
  | Csi => csi f b
  | CsiIgnore => csi_ignore f b
  | ControlString => (control_string f b, [])
  end.

Definition push (f : ConsoleFilter) (b : Z) : ConsoleFilter * list Z :=
  if negb (utf8_want f =? 0) then
    if between 0x80 0xbf b then
      let f := with_utf8 f (<[Z.to_nat (utf8_len f) := b]> (utf8 f)) (utf8_len f + 1) (utf8_want f) in
      if utf8_len f =? utf8_want f then finish_utf8 f else (f, [])
    else
      let '(f, o) := dispatch (with_utf8 f (utf8 f) (utf8_len f) 0) b in
      (f, REPLACEMENT ++ o)
  else dispatch f b.

Fixpoint filter (f : ConsoleFilter) (input : list Z) : ConsoleFilter * list Z :=
  match input with
  | [] => (f, [])
  | b :: input =>
      let '(f, o) := push f b in
      let '(f, o') := filter f input in
      (f, o ++ o')
  end.

(** The test vectors of the source. *)
Example filter_keeps_sgr :
  (filter new [0x1b; 0x5b; 0x31; 0x3b; 0x33; 0x31; 0x6d]).2 = [0x1b; 0x5b; 0x31; 0x3b; 0x33; 0x31; 0x6d].
Proof. vm_compute. reflexivity. Qed.
Example filter_drops_query : (filter new [0x1b; 0x5b; 0x36; 0x6e]).2 = [].
Proof. vm_compute. reflexivity. Qed.
Example filter_mode_2004 :
  (filter new [0x1b; 0x5b; 0x3f; 0x31; 0x3b; 0x32; 0x30; 0x30; 0x34; 0x68]).2
  = [0x1b; 0x5b; 0x3f; 0x31; 0x3b; 0x32; 0x30; 0x30; 0x34; 0x68].
Proof. vm_compute. reflexivity. Qed.
Example filter_surrogate : (filter new [0xed; 0xa0; 0x80]).2 = REPLACEMENT.
Proof. vm_compute. reflexivity. Qed.

(** ** The abstract specification: a terminal token

    What a terminal in its ground state consumes as one unit and what the
    operator allows: a C0 control other than ESC and ENQ, an ASCII character, a
    well-formed multi-byte character that is not a C1 control, a short escape, a
    character-set designation, or a complete allowed control sequence. *)

Definition want_of (b : Z) : option Z :=
  if between 0xc2 0xdf b then Some 2
  else if between 0xe0 0xef b then Some 3
  else if between 0xf0 0xf4 b then Some 4
  else None.

(** The allowed control sequences, as a terminal manual lists them: what stands
    between [ESC \[] and the final byte, and the final byte. Parameters are
    digits with [;] and [:] between them. *)
Definition csi_params (ps : list Z) : Prop := Forall (fun b => 0x30 <= b <= 0x3b) ps.

(** A decimal numeral and its value. *)
Definition numeral (p : list Z) (v : Z) : Prop :=
  p <> [] /\ Forall (fun b => 0x30 <= b <= 0x39) p /\ foldl (fun a b => a * 10 + (b - 0x30)) 0 p = v.
Fixpoint joined (ms : list (list Z)) : list Z :=
  match ms with [] => [] | [p] => p | p :: ms => p ++ 0x3b :: joined ms end.

Inductive csi_ok : list Z -> Z -> Prop :=
  | Csi_display ps fin : (* cursor, erase line, insert, delete, scroll, tabs, repeat, colors, margins, save *)
      csi_params ps ->
      fin ∈ [0x40; 0x41; 0x42; 0x43; 0x44; 0x45; 0x46; 0x47; 0x48; 0x49; 0x4b; 0x4c; 0x4d; 0x50; 0x53; 0x58; 0x5a;
             0x60; 0x61; 0x62; 0x64; 0x65; 0x66; 0x6d; 0x72; 0x73] ->
      csi_ok ps fin
  | Csi_scroll_down ps : (* one parameter: more start mouse tracking *)
      csi_params ps -> 0x3b ∉ ps -> csi_ok ps 0x54
  | Csi_erase ps : ps ∈ [[]; [0x30]; [0x31]; [0x32]] -> csi_ok ps 0x4a
  | Csi_restore : csi_ok [] 0x75
  | Csi_insert_mode fin : fin ∈ [0x68; 0x6c] -> csi_ok [0x34] fin
  | Csi_dec_erase ps : ps ∈ [[]; [0x30]; [0x31]; [0x32]] -> csi_ok (0x3f :: ps) 0x4a
  | Csi_dec_erase_line ps : csi_params ps -> csi_ok (0x3f :: ps) 0x4b
  | Csi_dec_modes ms fin :
      ms <> [] -> Forall (fun p => exists v, numeral p v /\ v ∈ [1; 5; 6; 7; 12; 25; 47; 1047; 1048; 1049; 2004]) ms ->
      fin ∈ [0x68; 0x6c] -> csi_ok (0x3f :: joined ms) fin
  | Csi_cursor_style ps : csi_params ps -> csi_ok (ps ++ [0x20]) 0x71
  | Csi_soft_reset ps : csi_params ps -> csi_ok (ps ++ [0x21]) 0x70.

(** *** The code's test against the list *)

Lemma numeral_grows k a : 0 <= a -> Forall (fun b => 0x30 <= b <= 0x39) k -> a <= foldl (fun a b => a * 10 + (b - 0x30)) a k.
Proof.
  intros Ha Hk. revert a Ha. induction Hk as [|c k Hc _ IH]; intros a Ha; cbn [foldl]; [lia|].
  specialize (IH (a * 10 + (c - 48)) ltac:(lia)). lia.
Qed.

Lemma digits_val_spec p acc v :
  0 <= acc -> v < 2 ^ 32 -> Forall (fun b => 0x30 <= b <= 0x3b) p ->
  (digits_val acc p = Some v <->
   Forall (fun b => 0x30 <= b <= 0x39) p /\ foldl (fun a b => a * 10 + (b - 0x30)) acc p = v).
Proof.
  intros Ha Hv. revert acc Ha. induction p as [|b p IH]; intros acc Ha Hp.
  { simpl. split; [intros [= ->]; by split|intros [_ ->]; done]. }
  apply Forall_cons in Hp as [Hb Hp]. cbn [digits_val foldl]. unfold is_digit, between.
  destruct (Z.leb_spec 48 b); [|lia]. destruct (Z.leb_spec b 57) as [Hd|Hd]; cbn [andb].
  2: { split; [done|]. intros [[? _]%Forall_cons _]. lia. }
  cbv zeta.
  destruct (Z.ltb_spec (acc * 10 + (b - 48)) (2 ^ 32)) as [Hlt|Hbig].
  - rewrite (IH (acc * 10 + (b - 48)) ltac:(lia) Hp), Forall_cons. split; [intros []; split; [split; [lia|done]|done]|].
    by intros [[_ ?] ?].
  - split; [done|]. intros [[_ Hk]%Forall_cons Hf]. pose proof (numeral_grows p (acc * 10 + (b - 48)) ltac:(lia) Hk). lia.
Qed.

Lemma joined_cons p ms : ms <> [] -> joined (p :: ms) = p ++ 0x3b :: joined ms.
Proof. by destruct ms. Qed.

Lemma split_on_ne sep l : split_on sep l <> [].
Proof. destruct l as [|b l]; [done|]. cbn [split_on]. destruct (b =? sep); [done|]. by destruct (split_on sep l). Qed.

Lemma joined_split l : joined (split_on 0x3b l) = l.
Proof.
  induction l as [|b l IH]; [done|]. cbn [split_on]. pose proof (split_on_ne 0x3b l) as Hne.
  destruct (Z.eqb_spec b 0x3b) as [->|].
  - rewrite joined_cons by done. by rewrite IH.
  - destruct (split_on 0x3b l) as [|p ps]; [done|]. destruct ps; [by rewrite <-IH|].
    rewrite joined_cons in * by done. by rewrite <-IH.
Qed.

Lemma split_joined ms : ms <> [] -> Forall (fun p => 0x3b ∉ p) ms -> split_on 0x3b (joined ms) = ms.
Proof.
  intros Hne Hms. induction Hms as [|p ms Hp Hms IH]; [done|].
  assert (forall p l, 0x3b ∉ p -> split_on 0x3b (p ++ 0x3b :: l) = p :: split_on 0x3b l) as Happ.
  { clear. induction p as [|b p IH]; intros l Hp; [done|]. apply not_elem_of_cons in Hp as [Hb Hp]. cbn [app split_on].
    rewrite (proj2 (Z.eqb_neq b _)) by done. by rewrite IH. }
  assert (forall p, 0x3b ∉ p -> split_on 0x3b p = [p]) as Hone.
  { clear. induction p as [|b p IH]; intros Hp; [done|]. apply not_elem_of_cons in Hp as [Hb Hp]. cbn [split_on].
    rewrite (proj2 (Z.eqb_neq b _)) by done. by rewrite IH. }
  destruct ms as [|q ms]; [by apply Hone|]. rewrite joined_cons, Happ by done. by rewrite IH.
Qed.

Lemma numeral_utf8 p : Forall (fun b => 0x30 <= b <= 0x3b) p -> is_Some (from_utf8 p).
Proof.
  induction 1 as [|b p Hb _ [cs IH]]; [by eexists|]. cbn [from_utf8]. unfold between.
  rewrite (proj2 (Z.leb_le 0 b)), (proj2 (Z.leb_le b 0x7f)), IH by lia. by eexists.
Qed.

Lemma mode_part_spec p :
  csi_params p ->
  (match from_utf8 p with
   | None => false
   | Some _ => match parse_u32 p with Some m => one_of DEC_MODES m | None => false end
   end = true <-> exists v, numeral p v /\ v ∈ DEC_MODES).
Proof.
  intros Hp. destruct (numeral_utf8 p Hp) as [cs ->].
  assert (parse_u32 p = match p with [] => None | _ => digits_val 0 p end) as ->.
  { destruct p as [|b p]; [done|]. apply Forall_cons in Hp as [Hb _]. unfold parse_u32.
    assert (b ∈ seqZ 48 12) as Hs by (apply elem_of_seqZ; lia). change (seqZ 48 12) with [48; 49; 50; 51; 52; 53; 54; 55; 56; 57; 58; 59] in Hs. rewrite !elem_of_cons, elem_of_nil in Hs.
    destruct_or!; subst; done. }
  assert (forall m, one_of DEC_MODES m = true <-> m ∈ DEC_MODES) as Hone.
  { intros m. unfold one_of. rewrite existsb_exists. setoid_rewrite Z.eqb_eq. setoid_rewrite <-list_elem_of_In.
    split; [by intros (x & Hx & ->)|by exists m]. }
  assert (forall m, m ∈ DEC_MODES -> m < 2 ^ 32) as Hsmall.
  { intros m. unfold DEC_MODES. rewrite !elem_of_cons, elem_of_nil. intros. destruct_or!; lia. }
  destruct p as [|b p]; [split; [done|by intros (v & [? _] & _)]|]. split.
  - destruct (digits_val 0 (b :: p)) as [m|] eqn:Ed; [|done]. intros Hm%Hone. exists m. split; [|done].
    apply digits_val_spec in Ed as [? ?]; [|lia|auto|done]. by split.
  - intros (v & (_ & Hd & Hv) & Hm). rewrite (proj2 (digits_val_spec (b :: p) 0 v ltac:(lia) (Hsmall v Hm) Hp)) by done.
    by apply Hone.
Qed.

Lemma split_on_Forall (P : Z -> Prop) sep l : Forall P l -> Forall (Forall P) (split_on sep l).
Proof.
  induction 1 as [|b l Hb Hl IH]; [by repeat constructor|]. cbn [split_on]. destruct (b =? sep); [by constructor|].
  destruct (split_on sep l); [by repeat constructor|]. apply Forall_cons in IH as [? ?]. constructor; [by constructor|done].
Qed.

Lemma modes_allowed_spec ps :
  csi_params ps ->
  (modes_allowed ps = true <->
   exists ms, ms <> [] /\ ps = joined ms /\ Forall (fun p => exists v, numeral p v /\ v ∈ DEC_MODES) ms).
Proof.
  intros Hps. unfold modes_allowed. rewrite andb_true_iff, negb_true_iff, bool_decide_eq_false, forallb_forall.
  setoid_rewrite <-list_elem_of_In. split.
  - intros [Hne Hall]. exists (split_on 0x3b ps). split; [apply split_on_ne|]. split; [by rewrite joined_split|].
    apply Forall_forall. intros p Hp. apply mode_part_spec; [|by apply Hall].
    exact (proj1 (Forall_forall _ _) (split_on_Forall _ 0x3b ps Hps) p Hp).
  - intros (ms & Hne & -> & Hms). rewrite split_joined; [|done|].
    + split.
      * destruct ms as [|p ms]; [done|]. apply Forall_cons in Hms as [(v & (Hp & _) & _) _].
        destruct p; [done|]. by destruct ms.
      * intros p Hp. rewrite Forall_forall in Hms. destruct (Hms p Hp) as (v & Hn & Hv). apply mode_part_spec; [|by exists v].
        eapply Forall_impl; [apply Hn|]. simpl. lia.
    + eapply Forall_impl; [exact Hms|]. intros p (v & (_ & Hd & _) & _) Hin. rewrite Forall_forall in Hd.
      specialize (Hd _ Hin). simpl in Hd. lia.
Qed.

Lemma split_inter_Some l p i :
  split_inter l = (p, i) -> l = p ++ i /\ Forall (fun b => between 0x20 0x2f b = false) p.
Proof.
  revert p i. induction l as [|b l IH]; intros p i; cbn [split_inter]; [intros [= <- <-]; by split|].
  destruct (between 0x20 0x2f b) eqn:Eb; [intros [= <- <-]; by split|].
  destruct (split_inter l) as [p1 i1]. intros [= <- <-]. destruct (IH _ _ eq_refl) as [-> Hp]. split; [done|by constructor].
Qed.

Lemma split_inter_params ps : csi_params ps -> split_inter ps = (ps, []).
Proof.
  induction 1 as [|b ps Hb _ IH]; [done|]. cbn [split_inter]. unfold between.
  rewrite (proj2 (Z.leb_gt b 0x2f)), andb_false_r, IH by lia. done.
Qed.
Lemma split_inter_one ps i : csi_params ps -> 0x20 <= i <= 0x2f -> split_inter (ps ++ [i]) = (ps, [i]).
Proof.
  intros Hps Hi. induction Hps as [|b ps Hb _ IH]; cbn [app split_inter]; unfold between.
  - by rewrite (proj2 (Z.leb_le 0x20 i)), (proj2 (Z.leb_le i 0x2f)) by lia.
  - rewrite (proj2 (Z.leb_gt b 0x2f)), andb_false_r, IH by lia. done.
Qed.

Lemma params_test ps : forallb (fun b => is_digit b || (b =? 0x3b) || (b =? 0x3a)) ps = true <-> csi_params ps.
Proof.
  unfold csi_params. rewrite forallb_forall, Forall_forall. setoid_rewrite <-list_elem_of_In.
  split; intros Hp b Hb; specialize (Hp b Hb); unfold is_digit, between in *; simpl in *; [bool_hyps; lia|].
  apply orb_true_iff. rewrite orb_true_iff, !Z.eqb_eq, andb_true_iff, !Z.leb_le. lia.
Qed.

(** The test on a body cut into its marker, its parameters and its intermediates. *)
Lemma csi_allowed_cut bd fin marker rest :
  (match bd with m :: k => if between 0x3c 0x3f m then (Some m, k) else (None, bd) | [] => (None, bd) end) = (marker, rest) ->
  csi_allowed (bd ++ [fin]) = true <->
  exists ps inter, split_inter rest = (ps, inter) /\ csi_params ps /\ forallb (between 0x20 0x2f) inter = true /\
    csi_table marker ps inter fin = true.
Proof.
  intros E. unfold csi_allowed. rewrite rev_app_distr. cbn [rev app]. rewrite rev_involutive, E.
  destruct (split_inter rest) as [ps inter]. destruct (_ || _) eqn:Et.
  - split; [done|]. intros (ps' & inter' & [= <- <-] & Hps & Hi & _). apply params_test in Hps. by rewrite Hps, Hi in Et.
  - apply orb_false_iff in Et as [H1%negb_false_iff H2%negb_false_iff]. split.
    + intros Ht. exists ps, inter. split; [done|]. split; [by apply params_test|done].
    + by intros (ps' & inter' & [= <- <-] & _ & _ & Ht).
Qed.

Lemma erase_allowed_spec ps : erase_allowed ps = true <-> ps ∈ [[]; [0x30]; [0x31]; [0x32]].
Proof.
  unfold erase_allowed. rewrite !orb_true_iff, !bool_decide_eq_true, !elem_of_cons, elem_of_nil. tauto.
Qed.
Lemma plain_final_spec b :
  plain_final b = true <->
  b ∈ [0x40; 0x41; 0x42; 0x43; 0x44; 0x45; 0x46; 0x47; 0x48; 0x49; 0x4b; 0x4c; 0x4d; 0x50; 0x53; 0x58; 0x5a;
       0x60; 0x61; 0x62; 0x64; 0x65; 0x66; 0x6d; 0x72; 0x73].
Proof.
  unfold plain_final, one_of, between. cbn [existsb].
  rewrite !orb_true_iff, !andb_true_iff, !Z.eqb_eq, !Z.leb_le, !elem_of_cons, elem_of_nil. lia.
Qed.

Lemma csi_table_sound marker ps inter fin :
  csi_params ps -> csi_table marker ps inter fin = true ->
  match marker with None => csi_ok (ps ++ inter) fin | Some m => m = 0x3f /\ csi_ok (0x3f :: ps ++ inter) fin end.
Proof.
  intros Hps. unfold csi_table. destruct marker as [m|].
  - destruct (Z.eq_dec m 0x3f) as [->|Hm].
    2: { intros Ht. exfalso. destruct m as [|q|]; try done. repeat (destruct q as [q|q|]; try done). }
    destruct inter as [|i inter]; [|done]. rewrite app_nil_r. intros Ht. split; [done|]. revert Ht.
    destruct (Z.eqb_spec fin 0x4a) as [->|]; [intros ?%erase_allowed_spec; by apply Csi_dec_erase|].
    destruct (_ || _) eqn:Eh; [|intros ->%Z.eqb_eq; by apply Csi_dec_erase_line].
    intros (ms & Hne & -> & Hms)%modes_allowed_spec; [|done]. apply Csi_dec_modes; [done|done|].
    apply orb_true_iff in Eh as [->%Z.eqb_eq| ->%Z.eqb_eq]; set_solver.
  - destruct inter as [|i [|j inter]]; [| |done].
    + rewrite app_nil_r. destruct (plain_final fin) eqn:Ep; [intros _; apply Csi_display; [done|by apply plain_final_spec]|].
      destruct (Z.eqb_spec fin 0x54) as [->|].
      { intros Hn%negb_true_iff. apply Csi_scroll_down; [done|]. intros Hin. unfold one_of in Hn.
        assert (existsb (Z.eqb 0x3b) ps = true) as Hx by (apply existsb_exists; exists 0x3b; split; [by apply list_elem_of_In|done]).
        congruence. }
      destruct (Z.eqb_spec fin 0x4a) as [->|]; [intros ?%erase_allowed_spec; by apply Csi_erase|].
      destruct (Z.eqb_spec fin 0x75) as [->|]; [intros ->%bool_decide_eq_true; apply Csi_restore|].
      destruct (_ || _) eqn:Eh; [|done]. intros ->%bool_decide_eq_true. apply Csi_insert_mode.
      apply orb_true_iff in Eh as [->%Z.eqb_eq| ->%Z.eqb_eq]; set_solver.
    + intros [[->%Z.eqb_eq ->%Z.eqb_eq]%andb_true_iff|[->%Z.eqb_eq ->%Z.eqb_eq]%andb_true_iff]%orb_true_iff;
        [by apply Csi_cursor_style|by apply Csi_soft_reset].
Qed.

Lemma no_marker bd :
  Forall (fun b => b <= 0x3b) bd ->
  (match bd with m :: k => if between 0x3c 0x3f m then (Some m, k) else (None, bd) | [] => (None, bd) end) = (None, bd).
Proof.
  destruct bd as [|m k]; [done|]. intros [Hm _]%Forall_cons. unfold between. by rewrite (proj2 (Z.leb_gt 0x3c m)) by lia.
Qed.

Lemma erase_params ps : ps ∈ [[]; [0x30]; [0x31]; [0x32]] -> csi_params ps.
Proof. rewrite !elem_of_cons, elem_of_nil. intros. destruct_or!; subst; repeat constructor; lia. Qed.

Lemma joined_params ms : Forall (fun p => exists v, numeral p v /\ v ∈ DEC_MODES) ms -> csi_params (joined ms).
Proof.
  induction 1 as [|p ms (v & (_ & Hd & _) & _) _ IH]; [by constructor|].
  assert (csi_params p) as Hp by (eapply Forall_impl; [exact Hd|]; simpl; lia).
  destruct ms; [done|]. rewrite joined_cons by done. apply Forall_app. split; [done|]. constructor; [lia|done].
Qed.

(** The code's test is the list of allowed sequences. *)
Lemma csi_allowed_spec bd fin : csi_allowed (bd ++ [fin]) = true <-> csi_ok bd fin.
Proof.
  split.
  - destruct (match bd with m :: k => if between 0x3c 0x3f m then (Some m, k) else (None, bd) | [] => (None, bd) end)
      as [marker rest] eqn:E.
    rewrite (csi_allowed_cut bd fin marker rest E). intros (ps & inter & Es & Hps & _ & Ht).
    apply split_inter_Some in Es as [Er _]. apply csi_table_sound in Ht; [|done]. rewrite <-Er in Ht. clear Er.
    destruct bd as [|m k]; [by simplify_eq|]. destruct (between 0x3c 0x3f m); simplify_eq; [|done]. by destruct Ht as [-> ?].
  - revert bd fin. assert (forall ps, csi_params ps -> Forall (fun b => b <= 0x3b) ps) as Hle by (intros ps Hp; eapply Forall_impl; [exact Hp|]; simpl; lia).
    assert (forall ps fin, csi_params ps -> csi_table None ps [] fin = true -> csi_allowed (ps ++ [fin]) = true) as Hplain.
    { intros ps fin Hp Ht. apply (csi_allowed_cut ps fin None ps); [by apply no_marker, Hle|].
      exists ps, []. by rewrite split_inter_params. }
    assert (forall ps fin, csi_params ps -> csi_table (Some 0x3f) ps [] fin = true -> csi_allowed ((0x3f :: ps) ++ [fin]) = true) as Hdec.
    { intros ps fin Hp Ht. apply (csi_allowed_cut (0x3f :: ps) fin (Some 0x3f) ps); [done|]. exists ps, []. by rewrite split_inter_params. }
    assert (forall ps i fin, csi_params ps -> 0x20 <= i <= 0x2f -> csi_table None ps [i] fin = true ->
      csi_allowed ((ps ++ [i]) ++ [fin]) = true) as Hint.
    { intros ps i fin Hp Hi Ht. apply (csi_allowed_cut (ps ++ [i]) fin None (ps ++ [i])).
      - apply no_marker, Forall_app. split; [by apply Hle|]. constructor; [lia|done].
      - exists ps, [i]. rewrite split_inter_one by done. split; [done|]. split; [done|]. split; [|done]. cbn [forallb]. unfold between.
        by rewrite (proj2 (Z.leb_le 0x20 i)), (proj2 (Z.leb_le i 0x2f)) by lia. }
    intros bd fin. destruct 1 as [ps fin Hp Hf|ps Hp Hn|ps Hp| |fin Hf|ps Hp|ps Hp|ms fin Hne Hms Hf|ps Hp|ps Hp].
    + apply Hplain; [done|]. unfold csi_table. by rewrite (proj2 (plain_final_spec fin) Hf).
    + apply Hplain; [done|]. change (negb (one_of ps 0x3b) = true). apply negb_true_iff. unfold one_of.
      destruct (existsb (Z.eqb 0x3b) ps) eqn:E; [|done]. apply existsb_exists in E as (x & Hx & <-%Z.eqb_eq). by apply list_elem_of_In in Hx.
    + apply Hplain; [by apply erase_params|]. by apply erase_allowed_spec.
    + by apply Hplain; [constructor|].
    + apply Hplain; [repeat constructor; lia|]. rewrite !elem_of_cons, elem_of_nil in Hf. destruct_or!; by subst.
    + apply Hdec; [by apply erase_params|]. by apply erase_allowed_spec.
    + by apply Hdec.
    + apply Hdec; [by apply joined_params|]. assert (modes_allowed (joined ms) = true) as Hm
        by (apply modes_allowed_spec; [by apply joined_params|by exists ms]).
      rewrite !elem_of_cons, elem_of_nil in Hf. destruct_or!; by subst.
    + by apply Hint.
    + by apply Hint.
Qed.

Inductive token : list Z -> Prop :=
  | T_c0 b : 0 <= b <= 0x1f -> b <> ESC -> b <> ENQ -> token [b]
  | T_ascii b : 0x20 <= b <= 0x7f -> token [b]
  | T_utf8 b0 cs chars :
      want_of b0 = Some (1 + zlen cs) -> Forall (fun b => cont b = true) cs ->
      from_utf8 (b0 :: cs) = Some chars -> Forall (fun c => c1 c = false) chars ->
      token (b0 :: cs)
  | T_short b : one_of [0x37; 0x38; 0x44; 0x45; 0x4d; 0x3d; 0x3e] b = true -> token [ESC; b]
  | T_charset i b :
      one_of [0x28; 0x29; 0x2a; 0x2b] i = true -> one_of [0x30; 0x41; 0x42] b = true ->
      token [ESC; i; b]
  | T_csi bd fin :
      Forall (fun b => between 0x20 0x3f b = true) bd -> 0x40 <= fin <= 0x7e ->
      csi_ok bd fin -> zlen bd <= MAX_SEQ - 2 ->
      token (ESC :: 0x5b :: bd ++ [fin]).

Definition tokens (l : list Z) : Prop := exists ts, l = concat ts /\ Forall token ts.

Lemma tokens_nil : tokens [].
Proof. exists []. done. Qed.
Lemma tokens_one t : token t -> tokens t.
Proof. intros. exists [t]. simpl. rewrite app_nil_r. split; [done|by constructor]. Qed.
Lemma tokens_app l k : tokens l -> tokens k -> tokens (l ++ k).
Proof.
  intros (ts & -> & ?) (us & -> & ?). exists (ts ++ us).
  rewrite concat_app. split; [done|by apply Forall_app].
Qed.

Lemma token_replacement : token REPLACEMENT.
Proof.
  apply (T_utf8 0xef [0xbf; 0xbd] [0xfffd]); [done|repeat constructor|done|repeat constructor].
Qed.

#[export] Hint Resolve tokens_nil tokens_one tokens_app token_replacement : hvi.

Lemma tokens_execute b : 0 <= b <= 0x1f -> b <> ESC -> tokens (execute b).
Proof.
  intros. unfold execute. destruct (Z.eqb_spec b ENQ); simpl; [auto with hvi|].
  by apply tokens_one, T_c0.
Qed.

(** ** The invariant of the filter *)

Definition seq_inv (f : ConsoleFilter) : Prop :=
  match state f with
  | Escape => seq f = [ESC]
  | EscapeIntermediate =>
      exists k, seq f = ESC :: k /\ Forall (fun b => between 0x20 0x2f b = true) k /\
        0 < zlen k /\ zlen (seq f) <= MAX_SEQ
  | Csi =>
      exists bd, seq f = ESC :: 0x5b :: bd /\ Forall (fun b => between 0x20 0x3f b = true) bd /\
        zlen (seq f) <= MAX_SEQ
  | _ => True
  end.

Definition utf8_inv (f : ConsoleFilter) : Prop :=
  zlen (utf8 f) = 4 /\
  (utf8_want f = 0 \/
   (state f = Ground /\ 1 <= utf8_len f < utf8_want f /\
    exists b0 cs, take (Z.to_nat (utf8_len f)) (utf8 f) = b0 :: cs /\
      want_of b0 = Some (utf8_want f) /\ Forall (fun b => cont b = true) cs)).

Definition filter_inv (f : ConsoleFilter) : Prop := seq_inv f /\ utf8_inv f.

Lemma want_of_bound b w : want_of b = Some w -> 2 <= w <= 4.
Proof. unfold want_of. guards; intros; simplify_eq; lia. Qed.

Lemma start_utf8_spec f b f' o :
  state f = Ground -> zlen (utf8 f) = 4 -> utf8_want f = 0 ->
  start_utf8 f b = (f', o) -> filter_inv f' /\ tokens o.
Proof.
  intros Hs Hl Hw H.
  assert (match want_of b with
          | Some w => (f', o) = (with_utf8 f (<[0%nat := b]> (utf8 f)) 1 w, [])
          | None => (f', o) = (f, REPLACEMENT) end) as E.
  { rewrite <-H. unfold start_utf8, want_of. by guards. }
  destruct (want_of b) as [w|] eqn:Ew; simplify_eq.
  - split; [|auto with hvi]. split; [unfold seq_inv; simpl; by rewrite Hs|].
    pose proof (want_of_bound _ _ Ew). split; [unfold zlen in *; simpl utf8; by rewrite length_insert|].
    right. split; [done|]. simpl. split; [lia|].
    destruct (utf8 f) as [|x u]; [done|]. exists b, []. done.
  - split; [|auto with hvi]. split; [unfold seq_inv; by rewrite Hs|]. split; [done|by left].
Qed.

Lemma ground_spec f b f' o :
  state f = Ground -> zlen (utf8 f) = 4 -> utf8_want f = 0 -> byte_ok b ->
  ground f b = (f', o) -> filter_inv f' /\ tokens o.
Proof.
  intros Hs Hl Hw Hb. unfold ground. unfold byte_ok in Hb.
  assert (filter_inv f) as Hf by (split; [unfold seq_inv; by rewrite Hs|split; [done|by left]]).
  guards; intros Heq; simplify_eq.
  - split; [|auto with hvi]. split; [done|]. split; [done|by left].
  - split; [done|]. apply tokens_execute; lia.
  - split; [done|]. apply tokens_one, T_ascii. lia.
  - by eapply start_utf8_spec.
Qed.

(** Leaving any state for the ground state, or for a fresh escape. *)
Lemma to_ground_inv f : zlen (utf8 f) = 4 -> utf8_want f = 0 -> filter_inv (with_state f Ground).
Proof. intros. split; [done|]. split; [done|by left]. Qed.
Lemma start_escape_inv f : zlen (utf8 f) = 4 -> utf8_want f = 0 -> filter_inv (start_escape f).
Proof. intros. split; [done|]. split; [done|by left]. Qed.
Lemma to_string_inv f s :
  (s = CsiIgnore \/ s = ControlString) -> zlen (utf8 f) = 4 -> utf8_want f = 0 ->
  filter_inv (with_state f s).
Proof. intros [-> | ->] ? ?; (split; [done|]; split; [done|by left]). Qed.

#[export] Hint Resolve to_ground_inv start_escape_inv : hvi.

Lemma escape_spec f b f' o :
  filter_inv f -> state f = Escape -> utf8_want f = 0 -> byte_ok b ->
  escape f b = (f', o) -> filter_inv f' /\ tokens o.
Proof.
  intros Hf Hs Hw Hb. destruct Hf as [Hq [Hl Hu]]. unfold seq_inv in Hq. rewrite Hs in Hq.
  unfold escape. unfold byte_ok in Hb. guards; intros Heq; simplify_eq;
    try (by split; auto with hvi).
  - split; [|apply tokens_execute; lia]. split; [unfold seq_inv; by rewrite Hs|by split; [|left]].
  - split; [|auto with hvi]. split; [|by split; [|left]]. unfold seq_inv. simpl. rewrite Hq.
    exists []. split; [done|]. split; [done|]. done.
  - split; [apply to_string_inv; auto|auto with hvi].
  - split; [|auto with hvi]. split; [|by split; [|left]]. unfold seq_inv. simpl. rewrite Hq.
    exists [b]. split; [done|]. split; [constructor; [unfold between; lia|done]|]. done.
  - split; [auto with hvi|]. apply tokens_one. by apply T_short.
  - eapply ground_spec; [..|exact Heq]; done.
Qed.

(** A byte the sequence keeps: it is appended, or the sequence is full. *)
Lemma hold_spec f b :
  filter_inv f -> utf8_want f = 0 ->
  (state f = EscapeIntermediate /\ between 0x20 0x2f b = true) \/
  (state f = Csi /\ between 0x20 0x3f b = true) -> filter_inv (hold f b).
Proof.
  intros [Hq [Hl Hu]] Hw H. assert (utf8_inv (hold f b)) as Hu'.
  { unfold utf8_inv, hold. guards; (split; [done|by left]). }
  split; [|done]. unfold seq_inv in Hq |- *. unfold hold.
  destruct (Z.ltb_spec (zlen (seq f)) MAX_SEQ); destruct H as [[Hs Hb]|[Hs Hb]]; rewrite Hs in Hq; simpl;
    rewrite ?Hs; simpl; rewrite ?Hs.
  - destruct Hq as (k & E & Hk & Hp & _). exists (k ++ [b]). rewrite E in *. simpl.
    split; [done|]. split; [apply Forall_app; auto|]. split; zlia.
  - destruct Hq as (k & E & Hk & _). exists (k ++ [b]). rewrite E in *. simpl.
    split; [done|]. split; [apply Forall_app; auto|]. zlia.
  - done.
  - done.
Qed.

Lemma stay_inv f : filter_inv f -> utf8_want f = 0 -> filter_inv f /\ tokens [].
Proof. auto with hvi. Qed.

#[export] Hint Resolve stay_inv hold_spec : hvi.

Lemma escape_intermediate_spec f b f' o :
  filter_inv f -> state f = EscapeIntermediate -> utf8_want f = 0 -> byte_ok b ->
  escape_intermediate f b = (f', o) -> filter_inv f' /\ tokens o.
Proof.
  intros Hf Hs Hw Hb. pose proof Hf as [Hq [Hl Hu]]. unfold seq_inv in Hq. rewrite Hs in Hq.
  unfold escape_intermediate. unfold byte_ok in Hb. guards; intros Heq; simplify_eq;
    try (by split; auto with hvi).
  - split; [done|]. apply tokens_execute; lia.
  - split; [|auto with hvi]. apply hold_spec; auto. left. split; [done|]. unfold between. lia.
  - split; [auto with hvi|]. destruct Hq as (k & E & _ & _ & _). rewrite E in *.
    destruct k as [|i [|j k]]; [zsimp; lia| |zsimp; zlen_pos; lia].
    apply tokens_one. by apply T_charset.
  - eapply ground_spec; [..|exact Heq]; done.
Qed.

Lemma csi_spec f b f' o :
  filter_inv f -> state f = Csi -> utf8_want f = 0 -> byte_ok b ->
  csi f b = (f', o) -> filter_inv f' /\ tokens o.
Proof.
  intros Hf Hs Hw Hb. pose proof Hf as [Hq [Hl Hu]]. unfold seq_inv in Hq. rewrite Hs in Hq.
  unfold csi. unfold byte_ok in Hb. cbv zeta. guards; intros Heq; simplify_eq;
    try (by split; auto with hvi).
  - split; [done|]. apply tokens_execute; lia.
  - split; [|auto with hvi]. apply hold_spec; auto. right. split; [done|]. unfold between. lia.
  - split; [auto with hvi|]. destruct Hq as (k & E & Hk & Hn). simpl in *. rewrite E in *.
    apply tokens_one. simpl. apply T_csi; [done|lia|by apply csi_allowed_spec|]. zsimp. lia.
  - eapply ground_spec; [..|exact Heq]; done.
Qed.

Lemma csi_ignore_spec f b f' o :
  filter_inv f -> state f = CsiIgnore -> utf8_want f = 0 -> byte_ok b ->
  csi_ignore f b = (f', o) -> filter_inv f' /\ tokens o.
Proof.
  intros Hf Hs Hw Hb. pose proof Hf as [Hq [Hl Hu]].
  unfold csi_ignore. unfold byte_ok in Hb. guards; intros Heq; simplify_eq;
    try (by split; auto with hvi).
  - split; [done|]. apply tokens_execute; lia.
  - eapply ground_spec; [..|exact Heq]; done.
Qed.

Lemma control_string_spec f b :
  filter_inv f -> utf8_want f = 0 -> filter_inv (control_string f b).
Proof. intros Hf Hw. pose proof Hf as [_ [Hl _]]. unfold control_string. guards; auto with hvi. Qed.

Lemma dispatch_spec f b f' o :
  filter_inv f -> utf8_want f = 0 -> byte_ok b -> dispatch f b = (f', o) -> filter_inv f' /\ tokens o.
Proof.
  intros Hf Hw Hb. pose proof Hf as [_ [Hl _]]. unfold dispatch. destruct (state f) eqn:Hs.
  - by apply ground_spec.
  - by apply escape_spec.
  - by apply escape_intermediate_spec.
  - by apply csi_spec.
  - by apply csi_ignore_spec.
  - intros Heq. simplify_eq. split; [by apply control_string_spec|auto with hvi].
Qed.

(** A continuation byte extends the character collected. *)
Lemma take_insert_here (l : list Z) n b :
  (n < length l)%nat -> take (S n) (<[n := b]> l) = take n l ++ [b].
Proof.
  intros. rewrite (take_S_r _ _ b) by (apply list_lookup_insert_eq; done).
  by rewrite take_insert_ge.
Qed.

Lemma finish_utf8_spec f b0 cs f' o :
  seq_inv f -> zlen (utf8 f) = 4 ->
  take (Z.to_nat (utf8_len f)) (utf8 f) = b0 :: cs -> want_of b0 = Some (1 + zlen cs) ->
  Forall (fun b => cont b = true) cs ->
  finish_utf8 f = (f', o) -> filter_inv f' /\ tokens o.
Proof.
  intros Hq Hl Ht Hw Hc. unfold finish_utf8. rewrite Ht.
  assert (filter_inv (with_utf8 f (utf8 f) (utf8_len f) 0)) as Hf.
  { split; [exact Hq|]. split; [done|by left]. }
  destruct (from_utf8 (b0 :: cs)) as [chars|] eqn:E; [|intros; simplify_eq; auto with hvi].
  destruct (forallb _ chars) eqn:Ec; intros; simplify_eq; [|auto with hvi].
  split; [done|]. apply tokens_one. apply (T_utf8 b0 cs chars); [done|done|done|].
  apply Forall_forall. intros c Hin. rewrite forallb_forall in Ec.
  apply negb_true_iff, Ec. by apply list_elem_of_In.
Qed.

Lemma push_spec f b f' o :
  filter_inv f -> byte_ok b -> push f b = (f', o) -> filter_inv f' /\ tokens o.
Proof.
  intros Hf Hb. pose proof Hf as [Hq [Hl Hu]]. unfold push.
  destruct (Z.eqb_spec (utf8_want f) 0) as [Hw|Hw]; simpl; [by apply dispatch_spec|].
  destruct Hu as [?|(Hs & Hr & b0 & cs & Ht & Hb0 & Hc)]; [done|].
  destruct (between 128 191 b) eqn:Eb.
  - pose proof (want_of_bound _ _ Hb0). set (g := with_utf8 f _ _ _).
    assert (take (Z.to_nat (utf8_len g)) (utf8 g) = b0 :: (cs ++ [b])) as Ht'.
    { simpl. rewrite Z2Nat.inj_add, Nat.add_comm by lia. simpl.
      rewrite take_insert_here by (unfold zlen in *; lia). by rewrite Ht. }
    assert (Forall (fun b => cont b = true) (cs ++ [b])) as Hc' by (apply Forall_app; auto).
    assert (zlen (utf8 g) = 4) as Hl' by (unfold zlen in *; simpl utf8; by rewrite length_insert).
    assert (zlen (b0 :: cs) = utf8_len f) as Hn by (rewrite <-Ht; zlia).
    destruct (Z.eqb_spec (utf8_len f + 1) (utf8_want f)) as [He|He].
    + eapply finish_utf8_spec; [exact Hq|done|exact Ht'| |done].
      rewrite Hb0, <-He. f_equal. zlia.
    + intros ?. simplify_eq. split; [|auto with hvi]. split; [exact Hq|]. split; [done|].
      right. split; [done|]. simpl. split; [lia|]. exists b0, (cs ++ [b]). auto.
  - destruct (dispatch _ b) as [g o1] eqn:E. intros ?. simplify_eq.
    apply dispatch_spec in E as [??]; [split; [done|by apply (tokens_app REPLACEMENT); auto with hvi]| |done|done].
    split; [exact Hq|]. split; [done|by left].
Qed.

(** ** What reaches the terminal *)

Lemma filter_spec f input f' o :
  filter_inv f -> bytes_ok input -> filter f input = (f', o) -> filter_inv f' /\ tokens o.
Proof.
  intros Hf Hi. revert f f' o Hf. induction Hi as [|b input Hb Hi IH]; intros f f' o Hf; simpl.
  { intros. simplify_eq. auto with hvi. }
  destruct (push f b) as [g o1] eqn:Ep, (filter g input) as [h o2] eqn:Ef. intros. simplify_eq.
  apply push_spec in Ep as [Hg ?]; [|done..]. apply IH in Ef as [? ?]; [|done]. auto with hvi.
Qed.

Lemma filter_app f l k :
  filter f (l ++ k) = let '(g, o) := filter f l in let '(h, o') := filter g k in (h, o ++ o').
Proof.
  revert f. induction l as [|b l IH]; intros f; simpl.
  { by destruct (filter f k). }
  destruct (push f b) as [g o1]. rewrite IH.
  destruct (filter g l) as [g2 o2], (filter g2 k) as [g3 o3]. by rewrite app_assoc.
Qed.

Lemma new_inv : filter_inv new.
Proof. split; [done|]. split; [done|by left]. Qed.

(** A filter between two tokens. *)
Definition idle (f : ConsoleFilter) : Prop :=
  state f = Ground /\ utf8_want f = 0 /\ zlen (utf8 f) = 4.

(** The filter passes [t] unchanged and is idle again. *)
Definition passes (t : list Z) : Prop :=
  forall f, idle f -> exists f', filter f t = (f', t) /\ idle f'.

Lemma passes_concat ts : Forall passes ts -> passes (concat ts).
Proof.
  induction 1 as [|t ts Ht _ IH]; intros f Hf; simpl; [by exists f|].
  rewrite filter_app. destruct (Ht f Hf) as (g & -> & Hg). destruct (IH g Hg) as (h & -> & Hh).
  by exists h.
Qed.

(** The continuation bytes of a character, up to its last one. *)
Lemma collect_utf8 cs f done_ b0 :
  state f = Ground -> zlen (utf8 f) = 4 -> utf8_len f = zlen done_ ->
  take (Z.to_nat (utf8_len f)) (utf8 f) = done_ ->
  utf8_want f = zlen done_ + zlen cs -> utf8_want f <= 4 -> cs <> [] ->
  Forall (fun b => cont b = true) cs -> head done_ = Some b0 ->
  exists g, filter f cs = finish_utf8 g /\ state g = Ground /\ zlen (utf8 g) = 4 /\
    take (Z.to_nat (utf8_len g)) (utf8 g) = done_ ++ cs.
Proof.
  intros Hs Hl Hn Ht Hw H4 Hne Hc. revert f done_ Hs Hl Hn Ht Hw H4.
  induction Hc as [|b cs Hb Hc IH]; [done|]. intros f dn Hs Hl Hn Ht Hw H4 Hhd. simpl.
  assert (dn <> []) by (by intros ->). assert (0 < zlen dn) by (destruct dn; [done|zlia]).
  zsimp. zlen_pos. unfold push. rewrite (proj2 (Z.eqb_neq _ _)) by lia. cbn [negb].
  unfold cont in Hb. rewrite Hb. set (g := with_utf8 f _ _ _).
  assert (take (Z.to_nat (utf8_len g)) (utf8 g) = dn ++ [b]) as Ht'.
  { simpl. rewrite Z2Nat.inj_add, Nat.add_comm by lia. simpl.
    rewrite take_insert_here by (unfold zlen in *; lia). by rewrite Ht. }
  assert (zlen (utf8 g) = 4) as Hl' by (unfold zlen in *; simpl utf8; by rewrite length_insert).
  destruct cs as [|c cs].
  - rewrite (proj2 (Z.eqb_eq (utf8_len g) (utf8_want g))) by (simpl; zsimp; lia). exists g.
    destruct (finish_utf8 g) as [h o]. simpl. by rewrite app_nil_r.
  - rewrite (proj2 (Z.eqb_neq (utf8_len g) (utf8_want g))) by (simpl; zsimp; zlen_pos; lia).
    destruct (IH ltac:(done) g (dn ++ [b])) as (h & E & Hh & Hh' & Ht2); try done.
    + simpl. zsimp. lia.
    + simpl. zsimp. lia.
    + by destruct dn.
    + exists h. rewrite <-app_assoc in Ht2. split; [|done].
      destruct (filter g (c :: cs)). by rewrite <-E.
Qed.

Lemma want_of_lead b w : want_of b = Some w -> 0xc2 <= b <= 0xf4.
Proof. unfold want_of. guards; intros; simplify_eq; lia. Qed.

Lemma start_utf8_want b w f :
  want_of b = Some w -> start_utf8 f b = (with_utf8 f (<[0%nat := b]> (utf8 f)) 1 w, []).
Proof. unfold want_of, start_utf8. guards; intros; by simplify_eq. Qed.

(** One byte from an idle filter. *)
Lemma filter_idle_cons f b l :
  idle f -> filter f (b :: l) =
    let '(g, o) := ground f b in let '(h, o') := filter g l in (h, o ++ o').
Proof. intros (Hs & Hw & _). simpl. unfold push, dispatch. rewrite Hw, Hs. done. Qed.

Lemma ground_lead f b w :
  want_of b = Some w -> ground f b = (with_utf8 f (<[0%nat := b]> (utf8 f)) 1 w, []).
Proof.
  intros Hw. pose proof (want_of_lead _ _ Hw). unfold ground, ESC.
  rewrite (proj2 (Z.eqb_neq _ _)) by lia.
  unfold between. rewrite !(proj2 (Z.leb_gt b _)) by lia. rewrite !andb_false_r.
  by apply start_utf8_want.
Qed.

Lemma passes_utf8 b0 cs chars :
  want_of b0 = Some (1 + zlen cs) -> Forall (fun b => cont b = true) cs ->
  from_utf8 (b0 :: cs) = Some chars -> Forall (fun c => c1 c = false) chars -> passes (b0 :: cs).
Proof.
  intros Hw Hc Hu H1 f Hf. rewrite filter_idle_cons by done. rewrite (ground_lead _ _ _ Hw).
  pose proof Hf as (Hs & _ & Hl). set (g := with_utf8 f _ _ _).
  pose proof (want_of_bound _ _ Hw) as Hb.
  destruct (collect_utf8 cs g [b0] b0) as (h & E & Hh & Hl' & Ht); try done.
  - unfold zlen in *; simpl utf8; by rewrite length_insert.
  - subst g. simpl. destruct (utf8 f); [done|]. done.
  - simpl. lia.
  - intros ->. zsimp. lia.
  - rewrite E. unfold finish_utf8. rewrite Ht. simpl app. rewrite Hu.
    assert (forallb (fun c => negb (c1 c)) chars = true) as ->.
    { apply forallb_forall. intros c Hin. rewrite Forall_forall in H1.
      apply negb_true_iff, H1. by apply list_elem_of_In. }
    simpl. exists (with_utf8 h (utf8 h) (utf8_len h) 0). split; [done|]. done.
Qed.

(** The body of a control sequence is held up to the final byte. *)
Lemma hold_body bd f :
  state f = Csi -> utf8_want f = 0 -> Forall (fun b => between 0x20 0x3f b = true) bd ->
  zlen (seq f) + zlen bd <= MAX_SEQ -> filter f bd = (with_seq f (seq f ++ bd), []).
Proof.
  intros Hs Hw Hb. revert f Hs Hw. induction Hb as [|b bd Hb _ IH]; intros f Hs Hw Hn; simpl.
  { rewrite app_nil_r. by destruct f. }
  zsimp. zlen_pos. unfold push, dispatch. rewrite Hw, Hs. simpl. unfold csi. unfold between in Hb. bool_hyps.
  rewrite !(proj2 (Z.eqb_neq b _)) by (unfold ESC, CAN, SUB; lia). simpl.
  unfold between at 1. rewrite (proj2 (Z.leb_gt b 0x1f)), andb_false_r by lia.
  unfold between. rewrite (proj2 (Z.leb_le 0x20 b)), (proj2 (Z.leb_le b 0x3f)) by lia. simpl.
  unfold hold. rewrite (proj2 (Z.ltb_lt _ _)) by (unfold MAX_SEQ in *; lia).
  rewrite IH; [|done|done|simpl; zsimp; lia]. unfold with_seq. cbn [seq state utf8 utf8_len utf8_want]. by rewrite <-app_assoc.
Qed.

Lemma csi_final f b :
  0x40 <= b <= 0x7e ->
  csi f b = let g := with_seq f (seq f ++ [b]) in
            (with_state g Ground, if csi_allowed (drop 2 (seq g)) then seq g else []).
Proof.
  intros. unfold csi. rewrite !(proj2 (Z.eqb_neq b _)) by (unfold ESC, CAN, SUB; lia). simpl.
  unfold between. rewrite (proj2 (Z.leb_gt b 0x1f)), (proj2 (Z.leb_gt b 0x3f)), !andb_false_r by lia.
  by rewrite (proj2 (Z.leb_le 0x40 b)), (proj2 (Z.leb_le b 0x7e)) by lia.
Qed.

Lemma passes_csi bd fin :
  Forall (fun b => between 0x20 0x3f b = true) bd -> 0x40 <= fin <= 0x7e ->
  csi_ok bd fin -> zlen bd <= MAX_SEQ - 2 ->
  passes (ESC :: 0x5b :: bd ++ [fin]).
Proof.
  intros Hb Hf Ha%csi_allowed_spec Hn f Hi. rewrite filter_idle_cons by done. pose proof Hi as (Hs & Hw & Hl).
  unfold ground. rewrite Z.eqb_refl. cbn [filter]. unfold push, dispatch. cbn. rewrite Hw. cbn.
  rewrite filter_app, hold_body; [|done|done|done|cbn; unfold MAX_SEQ in *; zsimp; lia].
  cbn. unfold push, dispatch. cbn. rewrite Hw. cbn. rewrite csi_final by done. cbn [seq with_seq with_state start_escape drop app].
  rewrite drop_0, Ha. eexists. split; [by rewrite app_nil_r|]. done.
Qed.

(** Every token passes, so the filter changes nothing of a stream of tokens. *)
Lemma token_passes t : token t -> passes t.
Proof.
  destruct 1 as [b Hb Hn1 Hn2|b Hb| |b Hb|i b Hi Hb| ].
  - intros f Hf. rewrite filter_idle_cons by done. unfold ground, execute.
    rewrite !(proj2 (Z.eqb_neq b _)) by done. unfold between.
    rewrite (proj2 (Z.leb_le 0 b)), (proj2 (Z.leb_le b 0x1f)) by lia. by exists f.
  - intros f Hf. rewrite filter_idle_cons by done. unfold ground, ESC.
    rewrite !(proj2 (Z.eqb_neq b _)) by lia. unfold between.
    rewrite (proj2 (Z.leb_gt b 0x1f)), andb_false_r by lia.
    rewrite (proj2 (Z.leb_le 0x20 b)), (proj2 (Z.leb_le b 0x7f)) by lia. by exists f.
  - by eapply passes_utf8.
  - intros f (Hs & Hw & Hl). destruct f as [st sq u ul uw]. simpl in *. subst.
    unfold one_of in Hb. simpl in Hb. bool_cases; subst; try done; (eexists; split; [reflexivity|done]).
  - intros f (Hs & Hw & Hl). destruct f as [st sq u ul uw]. simpl in *. subst.
    unfold one_of in Hi, Hb. simpl in Hi, Hb.
    bool_cases; subst; try done; (eexists; split; [reflexivity|done]).
  - by apply passes_csi.
Qed.

Lemma tokens_pass l : tokens l -> passes l.
Proof.
  intros (ts & -> & Ht). apply passes_concat. eapply Forall_impl; [exact Ht|]. apply token_passes.
Qed.

Lemma new_idle : idle new.
Proof. done. Qed.

(** The writes of a session, one [filter] call each. *)
Fixpoint filter_all (f : ConsoleFilter) (chunks : list (list Z)) : ConsoleFilter * list Z :=
  match chunks with
  | [] => (f, [])
  | c :: chunks =>
      let '(f, o) := filter f c in
      let '(f, o') := filter_all f chunks in
      (f, o ++ o')
  end.

Lemma filter_all_concat f chunks : filter_all f chunks = filter f (concat chunks).
Proof.
  revert f. induction chunks as [|c chunks IH]; intros f; simpl; [done|].
  rewrite filter_app. destruct (filter f c) as [g o]. by rewrite IH.
Qed.

(** C9. Whatever bytes the guest writes, in whatever pieces, what reaches the
    operator's terminal is a sequence of complete allowed tokens: text, C0
    controls other than ESC and ENQ, well-formed characters that are not C1
    controls, and whole escape sequences of the allowlist. The pieces do not
    matter: the output is that of one write of the concatenation. *)
Theorem filter_output_allowed (chunks : list (list Z)) :
  Forall bytes_ok chunks ->
  tokens (filter_all new chunks).2 /\
  (filter_all new chunks).2 = (filter new (concat chunks)).2.
Proof.
  intros H. rewrite filter_all_concat. split; [|done].
  destruct (filter new (concat chunks)) as [f o] eqn:E. eapply filter_spec; [apply new_inv| |exact E].
  by apply Forall_concat.
Qed.

(** C39. The filter loses nothing that is allowed: a stream passes unchanged
    exactly when it is a sequence of allowed tokens, and so the filter is
    idempotent on its own output. *)
Theorem filter_passes_exactly_tokens (l : list Z) :
  bytes_ok l ->
  ((filter new l).2 = l <-> tokens l) /\
  (filter new (filter new l).2).2 = (filter new l).2.
Proof.
  intros Hl. destruct (filter new l) as [f o] eqn:E. simpl.
  assert (tokens o) as Ho by (eapply filter_spec; [apply new_inv|exact Hl|exact E]).
  split; [split; [by intros <-|]|].
  - intros Ht. destruct (tokens_pass _ Ht new new_idle) as (g & Eg & _). rewrite E in Eg. by simplify_eq.
  - destruct (tokens_pass _ Ho new new_idle) as (g & -> & _). done.
Qed.

(** The indexing of the filter stays inside its buffers: after any input the
    held sequence is at most [MAX_SEQ] bytes wherever it can still grow, and the
    character buffer holds 4 bytes with its fill level below the length wanted,
    itself at most 4. *)
Theorem filter_buffers_bounded (l : list Z) :
  bytes_ok l ->
  let f := (filter new l).1 in
  (state f = Csi \/ state f = EscapeIntermediate \/ state f = Escape -> zlen (seq f) <= MAX_SEQ) /\
  (state f = Csi -> 2 <= zlen (seq f)) /\
  zlen (utf8 f) = 4 /\ (utf8_want f = 0 \/ 1 <= utf8_len f < utf8_want f /\ utf8_want f <= 4).
Proof.
  intros Hl. destruct (filter new l) as [f o] eqn:E. cbn.
  apply filter_spec in E as [[Hq [Hu4 Hu]] _]; [|apply new_inv|done]. unfold seq_inv in Hq.
  split; [|split; [|split; [done|]]].
  - intros [Hs|[Hs|Hs]]; rewrite Hs in Hq.
    + by destruct Hq as (? & ? & ? & ?).
    + by destruct Hq as (? & ? & ? & ? & ?).
    + by rewrite Hq.
  - intros Hs. rewrite Hs in Hq. destruct Hq as (bd & -> & _). zlia.
  - destruct Hu as [?|(_ & ? & b0 & cs & _ & Hw & _)]; [by left|right].
    apply want_of_bound in Hw. lia.
Qed.

Lemma filter_output_allowed_witness :
  tokens (filter_all new [[0x1b; 0x5b]; [0x36; 0x6e; 0x41; 0x1b]; [0x63; 0xc3]; [0xa9]]).2.
Proof. apply (filter_output_allowed [[0x1b; 0x5b]; [0x36; 0x6e; 0x41; 0x1b]; [0x63; 0xc3]; [0xa9]]). by vm_compute; repeat constructor. Defined.

Lemma filter_passes_exactly_tokens_witness :
  (filter new [0x41; 0x1b; 0x5b; 0x31; 0x6d; 0xc3; 0xa9]).2 = [0x41; 0x1b; 0x5b; 0x31; 0x6d; 0xc3; 0xa9] /\
  tokens [0x41; 0x1b; 0x5b; 0x31; 0x6d; 0xc3; 0xa9].
Proof.
  split; [by vm_compute|].
  apply (filter_passes_exactly_tokens [0x41; 0x1b; 0x5b; 0x31; 0x6d; 0xc3; 0xa9]);
    [by vm_compute; repeat constructor|by vm_compute].
Defined.

Lemma filter_buffers_bounded_witness :
  state (filter new [0x1b; 0x5b; 0x31]).1 = Csi /\ 2 <= zlen (seq (filter new [0x1b; 0x5b; 0x31]).1).
Proof.
  split; [by vm_compute|].
  apply (filter_buffers_bounded [0x1b; 0x5b; 0x31]); [by vm_compute; repeat constructor|by vm_compute].
Defined.
