(* ===== verification/RtcCmos.v ===== *)
(** * The CMOS clock ([src/devices/legacy/rtc_cmos.rs])

    The host's clocks are inputs: an operation that reads them takes the
    readings it gets. The calendar is specified by the Gregorian successor of a
    day, and the code's closed formula is proved to follow it. *)

From S2P Require Import Prelude.
Local Open Scope Z_scope.

Definition RTC_INDEX_PORT : Z := 0x70.
Definition RTC_DATA_PORT : Z := 0x71.
Definition REG_SECONDS : Z := 0x00.
Definition REG_MINUTES : Z := 0x02.
Definition REG_HOURS : Z := 0x04.
Definition REG_WEEKDAY : Z := 0x06.
Definition REG_DAY : Z := 0x07.
Definition REG_MONTH : Z := 0x08.
Definition REG_YEAR : Z := 0x09.
Definition REG_A : Z := 0x0a.
Definition REG_B : Z := 0x0b.
Definition REG_C : Z := 0x0c.
Definition REG_D : Z := 0x0d.
Definition REG_CENTURY : Z := 0x32.
Definition REG_A_VALUE : Z := 0x26.
Definition REG_B_VALUE : Z := 0x02.
Definition REG_D_VALUE : Z := 0x80.
(** 250 ms, in nanoseconds. *)
Definition LATCH_MAX_AGE : Z := 250 * 1000000.

Record Wallclock := mkWallclock {
  sec : Z; minute : Z; hour : Z; weekday : Z; day : Z; month : Z; year : Z; century : Z }.

Record RtcCmos := mkRtc { index : Z; ram : list Z; latched : Wallclock; latched_at : Z }.

(** What the host's clocks return to one operation: the monotonic clock when the
    latch's age is taken, the wall clock in seconds since the epoch ([None]
    before it), and the monotonic clock when the latch is stamped. *)
Record Readings := mkReadings { mono_age : Z; wall : option Z; mono_stamp : Z }.

Definition to_bcd (v : Z) : Z := Z.lor (u8 (Z.shiftl (v / 10) 4)) (v mod 10).

Definition civil_from_days (z : Z) : Z * Z * Z :=
  let z := z + 719468 in
  let era := (if 0 <=? z then z else z - 146096) ÷ 146097 in
  let doe := u64 (z - era * 146097) in
  let yoe := (doe - doe / 1460 + doe / 36524 - doe / 146096) / 365 in
  let y := yoe + era * 400 in
  let doy := doe - (365 * yoe + yoe / 4 - yoe / 100) in
  let mp := (5 * doy + 2) / 153 in
  let d := u32 (doy - (153 * mp + 2) / 5 + 1) in
  let m := u32 (if mp <? 10 then mp + 3 else mp - 9) in
  (if m <=? 2 then y + 1 else y, m, d).

Definition now_utc (wall : option Z) : Wallclock :=
  let secs := match wall with Some s => s | None => 0 end in
  let days := secs / 86400 in
  let tod := secs mod 86400 in
  let '(y, m, d) := civil_from_days days in
  mkWallclock (u8 (tod mod 60)) (u8 ((tod / 60) mod 60)) (u8 (tod / 3600))
    (u8 ((days + 4) mod 7 + 1)) (u8 d) (u8 m) (u8 (Z.rem y 100)) (u8 (y ÷ 100)).

Definition new (r : Readings) : RtcCmos :=
  mkRtc 0 (replicate 128 0) (now_utc (wall r)) (mono_stamp r).

Definition refresh (s : RtcCmos) (r : Readings) : RtcCmos :=
  if LATCH_MAX_AGE <=? saturating_sub (mono_age r) (latched_at s)
  then mkRtc (index s) (ram s) (now_utc (wall r)) (mono_stamp r)
  else s.

Definition is_clock_reg (i : Z) : bool :=
  existsb (Z.eqb i) [REG_SECONDS; REG_MINUTES; REG_HOURS; REG_WEEKDAY; REG_DAY; REG_MONTH; REG_YEAR; REG_CENTURY].

(** The inner [match idx] of [pio_read]: the field, in BCD but for the weekday. *)
Definition clock_reg (w : Wallclock) (i : Z) : Z :=
  if i =? REG_SECONDS then to_bcd (sec w)
  else if i =? REG_MINUTES then to_bcd (minute w)
  else if i =? REG_HOURS then to_bcd (hour w)
  else if i =? REG_WEEKDAY then weekday w
  else if i =? REG_DAY then to_bcd (day w)
  else if i =? REG_MONTH then to_bcd (month w)
  else if i =? REG_YEAR then to_bcd (year w)
  else to_bcd (century w).

Definition pio_read (s : RtcCmos) (port : Z) (r : Readings) : RtcCmos * Z :=
  if port =? RTC_INDEX_PORT then (s, index s)
  else
    let i := index s in
    if i =? REG_A then (s, REG_A_VALUE)
    else if i =? REG_B then (s, REG_B_VALUE)
    else if i =? REG_C then (s, 0)
    else if i =? REG_D then (s, REG_D_VALUE)
    else if is_clock_reg i then let s := refresh s r in (s, clock_reg (latched s) i)
    else (s, byte_at (ram s) (Z.land i 0x7f)).

Definition pio_write (s : RtcCmos) (port val : Z) : RtcCmos :=
  if port =? RTC_INDEX_PORT then mkRtc (Z.land val 0x7f) (ram s) (latched s) (latched_at s)
  else
    let i := index s in
    if is_clock_reg i || existsb (Z.eqb i) [REG_A; REG_B; REG_C; REG_D] then s
    else mkRtc i (<[Z.to_nat (Z.land i 0x7f) := val]> (ram s)) (latched s) (latched_at s).

(** ** The calendar, by successor *)

Definition leap (y : Z) : bool :=
  (y mod 4 =? 0) && (negb (y mod 100 =? 0) || (y mod 400 =? 0)).

Definition month_len (y m : Z) : Z :=
  if m =? 2 then (if leap y then 29 else 28)
  else if existsb (Z.eqb m) [4; 6; 9; 11] then 30 else 31.

Definition next_day (c : Z * Z * Z) : Z * Z * Z :=
  let '(y, m, d) := c in
  if d <? month_len y m then (y, m, d + 1)
  else if m <? 12 then (y, m + 1, 1) else (y + 1, 1, 1).

Definition date_ok (c : Z * Z * Z) : Prop :=
  let '(y, m, d) := c in 1 <= m <= 12 /\ 1 <= d <= month_len y m.

(** The formula in three steps: the 400-year era, the March-based year in it and
    the day in that year, and the month and day. *)
Definition yoe_start (y : Z) : Z := 365 * y + y / 4 - y / 100.
Definition yoe_of (doe : Z) : Z := (doe - doe / 1460 + doe / 36524 - doe / 146096) / 365.

Lemma yoe_bounds doe :
  0 <= doe < 146097 ->
  0 <= yoe_of doe < 400 /\ yoe_start (yoe_of doe) <= doe /\
  (doe < yoe_start (yoe_of doe + 1) \/ (yoe_of doe = 399 /\ doe = 146096)).
Proof.
  intros H. unfold yoe_of, yoe_start. split; [zlia|]. split; [zlia|]. zlia.
Qed.

Definition md_of (doy : Z) : Z * Z :=
  let mp := (5 * doy + 2) / 153 in
  (if mp <? 10 then mp + 3 else mp - 9, doy - (153 * mp + 2) / 5 + 1).

Definition year_of (m y : Z) : Z := if m <=? 2 then y + 1 else y.

(** The date of day [doy] of the March-based year [y]. *)
Definition date_of (y doy : Z) : Z * Z * Z := let '(m, d) := md_of doy in (year_of m y, m, d).

Lemma md_range doy :
  0 <= doy <= 365 -> 1 <= (md_of doy).1 <= 12 /\ 1 <= (md_of doy).2 <= 31.
Proof. intros. unfold md_of. cbn. destruct (Z.ltb_spec ((5 * doy + 2) / 153) 10); zlia. Qed.

Lemma civil_eras z :
  let doe := (z + 719468) mod 146097 in
  let y := yoe_of doe in
  civil_from_days z = date_of (y + (z + 719468) / 146097 * 400) (doe - yoe_start y).
Proof.
  cbv zeta. unfold civil_from_days. set (w := z + 719468).
  assert ((if 0 <=? w then w else w - 146096) ÷ 146097 = w / 146097) as ->.
  { destruct (Z.leb_spec 0 w); [apply Z.quot_div_nonneg; lia|].
    rewrite <-(Z.opp_involutive (w - 146096)), Z.quot_opp_l, Z.quot_div_nonneg by lia. zlia. }
  replace (w - w / 146097 * 146097) with (w mod 146097) by zlia.
  assert (0 <= w mod 146097 < 146097) as Hd by zlia.
  rewrite (u64_small (w mod 146097)) by lia. set (doe := w mod 146097) in *.
  destruct (yoe_bounds doe Hd) as (Hy & Hlo & Hhi). fold (yoe_of doe) (yoe_start (yoe_of doe)).
  set (y := yoe_of doe) in *. assert (0 <= doe - yoe_start y <= 365) as Hdoy.
  { unfold yoe_start in *. zlia. }
  destruct (md_range _ Hdoy) as [Hm Hdd]. unfold date_of, md_of, year_of in *. cbn [fst snd] in *.
  rewrite !u32_small by lia. done.
Qed.

(** Up to the last day of February the successor is the same in every year. *)
Definition md_succ_check (doy : Z) : bool :=
  let '(m, d) := md_of doy in
  bool_decide (md_of (doy + 1) =
    (if d <? month_len 1 m then (m, d + 1) else if m <? 12 then (m + 1, 1) else (1, 1))) &&
  negb (m =? 2) || (m =? 2) && (d <? 28) && bool_decide (md_of (doy + 1) = (2, d + 1)).

Lemma md_succ_all : forallb md_succ_check (seqZ 0 364) = true.
Proof. vm_compute. reflexivity. Qed.

Lemma date_of_succ y doy :
  0 <= doy < 364 -> date_of y (doy + 1) = next_day (date_of y doy).
Proof.
  intros H. pose proof md_succ_all as Hc. rewrite forallb_forall in Hc.
  specialize (Hc doy). assert (In doy (seqZ 0 364)) as Hin by (apply list_elem_of_In, elem_of_seqZ; lia).
  specialize (Hc Hin). unfold md_succ_check, date_of in *. destruct (md_of doy) as [m d] eqn:E.
  pose proof (md_range doy ltac:(lia)) as Hr. rewrite E in Hr. cbn in Hr.
  apply orb_true_iff in Hc as [Hc|Hc].
  - apply andb_true_iff in Hc as [Hc Hm]. apply bool_decide_eq_true in Hc. rewrite Hc.
    bool_hyps. unfold next_day, month_len. rewrite !(proj2 (Z.eqb_neq m 2)) by done.
    destruct (existsb _ _); unfold year_of; guards; try done; bool_hyps; f_equal; f_equal; lia.
  - bool_hyps. match goal with H : bool_decide _ = true |- _ => apply bool_decide_eq_true in H; rewrite H end.
    subst m. unfold next_day, month_len. simpl. destruct (leap _); rewrite (proj2 (Z.ltb_lt d _)) by lia; done.
Qed.

Lemma date_of_feb28 y : date_of y 364 = (y + 1, 2, 28).
Proof. done. Qed.
Lemma date_of_feb29 y : date_of y 365 = (y + 1, 2, 29).
Proof. done. Qed.
Lemma date_of_mar1 y : date_of y 0 = (y, 3, 1).
Proof. done. Qed.

Lemma next_feb28 y : next_day (y, 2, 28) = if leap y then (y, 2, 29) else (y, 3, 1).
Proof. unfold next_day, month_len. simpl. by destruct (leap y). Qed.
Lemma next_feb29 y : leap y = true -> next_day (y, 2, 29) = (y, 3, 1).
Proof. intros H. unfold next_day, month_len. simpl. by rewrite H. Qed.

Lemma leap_spec y : leap y = true <-> y mod 4 = 0 /\ (y mod 100 <> 0 \/ y mod 400 = 0).
Proof. unfold leap. rewrite andb_true_iff, orb_true_iff, negb_true_iff, !Z.eqb_eq, Z.eqb_neq. done. Qed.

(** A March-based year is a day longer exactly when its February is leap. *)
Lemma leap_year_len y era :
  0 <= y < 400 ->
  (if leap (y + era * 400 + 1) then 366 else 365)
  = (if y =? 399 then 146097 else yoe_start (y + 1)) - yoe_start y.
Proof.
  intros H. destruct (leap (y + era * 400 + 1)) eqn:E.
  - apply leap_spec in E. unfold yoe_start. destruct (Z.eqb_spec y 399); zlia.
  - apply not_true_iff_false in E. rewrite leap_spec in E. unfold yoe_start.
    destruct (Z.eqb_spec y 399); [exfalso; apply E; subst; split; [zlia|right; zlia]|].
    assert (y / 4 = (y + 1) / 4 \/ (y + 1) mod 4 = 0) as [|] by zlia; [zlia|].
    assert ((y + 1) mod 100 = 0) by (destruct (decide ((y + 1) mod 100 = 0)); [done|];
      exfalso; apply E; split; [zlia|left; zlia]).
    zlia.
Qed.

Definition yoe_end (y : Z) : Z := if y =? 399 then 146097 else yoe_start (y + 1).

Lemma yoe_interval doe :
  0 <= doe < 146097 -> 0 <= yoe_of doe < 400 /\ yoe_start (yoe_of doe) <= doe < yoe_end (yoe_of doe).
Proof.
  intros H. destruct (yoe_bounds doe H) as (? & ? & Hu). unfold yoe_end.
  destruct (Z.eqb_spec (yoe_of doe) 399); [lia|]. destruct Hu as [|[]]; [lia|done].
Qed.

Lemma yoe_unique doe y :
  0 <= y < 400 -> 0 <= doe < 146097 -> yoe_start y <= doe < yoe_end y -> yoe_of doe = y.
Proof.
  intros Hy Hd Hb. destruct (yoe_interval doe Hd) as [Hy' Hb']. set (x := yoe_of doe) in *. clearbody x.
  unfold yoe_end, yoe_start in *. destruct (Z.eqb_spec y 399), (Z.eqb_spec x 399); zlia.
Qed.

Lemma civil_at z era y doy :
  z + 719468 = era * 146097 + yoe_start y + doy -> 0 <= y < 400 -> 0 <= doy < yoe_end y - yoe_start y ->
  civil_from_days z = date_of (y + era * 400) doy.
Proof.
  intros Hz Hy Hd. assert (0 <= yoe_start y + doy < 146097) as Hr.
  { unfold yoe_end, yoe_start in *. destruct (Z.eqb_spec y 399); zlia. }
  rewrite civil_eras. rewrite Hz.
  replace ((era * 146097 + yoe_start y + doy) mod 146097) with (yoe_start y + doy) by zlia.
  replace ((era * 146097 + yoe_start y + doy) / 146097) with era by zlia.
  rewrite (yoe_unique _ y) by lia. f_equal. lia.
Qed.

Lemma civil_succ z : civil_from_days (z + 1) = next_day (civil_from_days z).
Proof.
  set (w := z + 719468). set (era := w / 146097). set (doe := w mod 146097).
  assert (w = era * 146097 + doe /\ 0 <= doe < 146097) as [Hw Hd] by (subst era doe; clearbody w; zlia).
  unfold w in Hw. clearbody era doe. clear w.
  destruct (yoe_interval doe Hd) as [Hy Hi]. set (y := yoe_of doe) in *.
  pose proof (leap_year_len y era Hy) as Hlen. fold (yoe_end y) in Hlen.
  rewrite (civil_at z era y (doe - yoe_start y)) by lia.
  assert (civil_from_days (z + 1) =
    if doe - yoe_start y + 1 <? yoe_end y - yoe_start y
    then date_of (y + era * 400) (doe - yoe_start y + 1) else date_of (y + era * 400 + 1) 0) as ->.
  { destruct (Z.ltb_spec (doe - yoe_start y + 1) (yoe_end y - yoe_start y)).
    { apply civil_at; lia. }
    unfold yoe_end in *. destruct (Z.eqb_spec y 399) as [E|].
    - rewrite (civil_at _ (era + 1) 0 0); [f_equal; lia| |lia|done].
      change (yoe_start 0) with 0. lia.
    - rewrite (civil_at _ era (y + 1) 0); [f_equal; lia|lia|lia|].
      unfold yoe_end, yoe_start. destruct (Z.eqb_spec (y + 1) 399); zlia. }
  set (doy := doe - yoe_start y) in *. assert (0 <= doy < yoe_end y - yoe_start y) as Hdoy by lia.
  rewrite <-Hlen in *. destruct (Z.ltb_spec doy 364) as [|].
  { rewrite (proj2 (Z.ltb_lt _ _)) by (destruct (leap _); lia). apply date_of_succ. lia. }
  destruct (leap (y + era * 400 + 1)) eqn:El.
  - assert (doy = 364 \/ doy = 365) as [-> | ->] by lia.
    + rewrite date_of_feb28, next_feb28, El. done.
    + rewrite date_of_feb29, next_feb29 by done. done.
  - assert (doy = 364) as -> by lia. rewrite date_of_feb28, next_feb28, El. done.
Qed.

Lemma next_day_ok c : date_ok c -> date_ok (next_day c).
Proof.
  destruct c as [[y m] d]. unfold date_ok, next_day. intros [Hm Hd].
  assert (28 <= month_len y (m + 1) <= 31 /\ 28 <= month_len (y + 1) 1 <= 31) by
    (unfold month_len; guards; lia).
  destruct (Z.ltb_spec d (month_len y m)); [lia|]. destruct (Z.ltb_spec m 12); lia.
Qed.

Lemma civil_epoch : civil_from_days 0 = (1970, 1, 1).
Proof. vm_compute. reflexivity. Qed.

Lemma civil_nat n : civil_from_days (Z.of_nat n) = Nat.iter n next_day (1970, 1, 1).
Proof.
  induction n as [|n IH]; [apply civil_epoch|].
  rewrite Nat2Z.inj_succ, <-Z.add_1_r, civil_succ, IH. done.
Qed.

Lemma civil_ok z : 0 <= z -> date_ok (civil_from_days z).
Proof.
  intros. rewrite <-(Z2Nat.id z), civil_nat by done. induction (Z.to_nat z); [done|].
  by apply next_day_ok.
Qed.

(** The closed formula the clock uses is the Gregorian calendar: day 0 is 1
    January 1970, and the date of every later day is the calendar's successor,
    with its month lengths and leap years, of the date before it. *)
Theorem civil_from_days_gregorian (n : nat) :
  civil_from_days (Z.of_nat n) = Nat.iter n next_day (1970, 1, 1) /\
  date_ok (civil_from_days (Z.of_nat n)).
Proof. split; [apply civil_nat|apply civil_ok; lia]. Qed.

(** ** The register file *)

(** A guest's read of register [i]: the index, then the data port. *)
Definition read_reg (s : RtcCmos) (i : Z) (r : Readings) : Z :=
  (pio_read (pio_write s RTC_INDEX_PORT i) RTC_DATA_PORT r).2.

Definition bcd_val (v : Z) : Z := v / 16 * 10 + v mod 16.

Lemma bcd_round v : 0 <= v < 100 -> bcd_val (to_bcd v) = v.
Proof.
  intros. unfold bcd_val, to_bcd, u8. rewrite Z.shiftl_mul_pow2 by lia.
  rewrite Z.mod_small by zlia. rewrite <-Z.shiftl_mul_pow2 by lia.
  rewrite lor_shiftl_add by zlia. change (2 ^ 4) with 16. zlia.
Qed.

Lemma u8_small v : 0 <= v < 256 -> u8 v = v.
Proof. apply Z.mod_small. Qed.

Lemma civil_year z : 0 <= z < 1590730 -> 0 <= (civil_from_days z).1.1 <= 6400.
Proof.
  intros Hz. set (era := (z + 719468) / 146097). set (doe := (z + 719468) mod 146097).
  assert (z + 719468 = era * 146097 + doe /\ 0 <= doe < 146097 /\ 0 <= era <= 15) as (Hw & Hd & He)
    by (subst era doe; zlia). clearbody era doe.
  destruct (yoe_interval doe Hd) as [Hy Hi]. rewrite (civil_at z era (yoe_of doe) (doe - yoe_start (yoe_of doe))) by lia.
  unfold date_of. destruct (md_of _) as [m d]. cbn. unfold year_of. destruct (m <=? 2); lia.
Qed.

(** Latched time is older than the limit when this operation takes its age. *)
Definition aged (s : RtcCmos) (r : Readings) : Prop := LATCH_MAX_AGE <= mono_age r - latched_at s.

Lemma refresh_aged s r : aged s r -> latched (refresh s r) = now_utc (wall r).
Proof.
  unfold aged, refresh, saturating_sub, LATCH_MAX_AGE. intros.
  destruct (Z.leb_spec (250 * 1000000) (Z.max 0 (mono_age r - latched_at s))); [done|lia].
Qed.

Lemma read_clock_reg s i r :
  is_clock_reg i = true ->
  read_reg s i r = clock_reg (latched (refresh (pio_write s RTC_INDEX_PORT i) r)) i.
Proof.
  unfold is_clock_reg. intros H. apply existsb_exists in H as (j & Hj & ->%Z.eqb_eq). simpl in Hj.
  unfold read_reg. destruct_or! Hj; subst; done.
Qed.

Lemma now_utc_fields secs :
  0 <= secs < 2 ^ 37 ->
  let w := now_utc (Some secs) in
  let '(y, m, d) := Nat.iter (Z.to_nat (secs / 86400)) next_day (1970, 1, 1) in
  sec w = secs mod 60 /\ minute w = secs / 60 mod 60 /\ hour w = secs / 3600 mod 24 /\
  weekday w = (secs / 86400 + 4) mod 7 + 1 /\ day w = d /\ month w = m /\
  100 * century w + year w = y /\ 0 <= year w < 100 /\ 0 <= century w < 100 /\
  1 <= d <= 31 /\ 1 <= m <= 12.
Proof.
  intros Hs. cbv zeta. unfold now_utc. assert (0 <= secs / 86400 < 1590730) as Hd by zlia.
  pose proof (civil_nat (Z.to_nat (secs / 86400))) as E. rewrite Z2Nat.id in E by lia.
  pose proof (civil_year _ Hd) as Hy. pose proof (civil_ok (secs / 86400) ltac:(lia)) as Hok.
  rewrite <-E. destruct (civil_from_days (secs / 86400)) as [[y m] d]. cbn [fst snd] in *.
  destruct Hok as [Hm Hdd]. assert (month_len y m <= 31) by (unfold month_len; guards; lia).
  cbn [sec minute hour weekday day month year century].
  rewrite (Z.rem_mod_nonneg y 100), (Z.quot_div_nonneg y 100) by lia.
  rewrite !u8_small by zlia. repeat split; zlia.
Qed.

(** A guest that reads the clock registers once the latch has aged out gets
    the host's time: seconds, minutes and hours of the day, the weekday, and the
    calendar's date with its century, each field decoded from BCD. *)
Theorem cmos_reports_host_time (s : RtcCmos) (r : Readings) (secs : Z) :
  wall r = Some secs -> 0 <= secs < 2 ^ 37 -> aged s r ->
  let '(y, m, d) := Nat.iter (Z.to_nat (secs / 86400)) next_day (1970, 1, 1) in
  bcd_val (read_reg s REG_SECONDS r) = secs mod 60 /\
  bcd_val (read_reg s REG_MINUTES r) = secs / 60 mod 60 /\
  bcd_val (read_reg s REG_HOURS r) = secs / 3600 mod 24 /\
  read_reg s REG_WEEKDAY r = (secs / 86400 + 4) mod 7 + 1 /\
  bcd_val (read_reg s REG_DAY r) = d /\ bcd_val (read_reg s REG_MONTH r) = m /\
  100 * bcd_val (read_reg s REG_CENTURY r) + bcd_val (read_reg s REG_YEAR r) = y.
Proof.
  intros Hw Hs Ha. pose proof (now_utc_fields secs Hs) as Hf. cbv zeta in Hf.
  destruct (Nat.iter _ _ _) as [[y m] d].
  destruct Hf as (E1 & E2 & E3 & E4 & E5 & E6 & E7 & ? & ? & ? & ?).
  rewrite !read_clock_reg by done. rewrite !refresh_aged by exact Ha. rewrite Hw.
  unfold clock_reg. simpl (_ =? _). cbv iota. rewrite E1, E2, E3, E4, E5, E6.
  rewrite !bcd_round by zlia. repeat split; auto.
Qed.

(** ** Whole sessions of port accesses *)

Inductive Access := In_ (port : Z) (r : Readings) | Out_ (port val : Z).

Definition access (s : RtcCmos) (a : Access) : RtcCmos :=
  match a with In_ p r => (pio_read s p r).1 | Out_ p v => pio_write s p v end.

(** The wall-clock readings a session could have latched. *)
Definition walls (l : list Access) : list (option Z) :=
  omap (fun a => match a with In_ _ r => Some (wall r) | Out_ _ _ => None end) l.

Definition rtc_ok (s : RtcCmos) : Prop := 0 <= index s < 128 /\ zlen (ram s) = 128.

Lemma land_7f v : 0 <= Z.land v 0x7f < 128.
Proof. change 0x7f with (Z.ones 7). rewrite Z.land_ones by lia. apply Z.mod_pos_bound. lia. Qed.

Lemma pio_read_state s p r :
  (pio_read s p r).1 = s \/ ((pio_read s p r).1 = refresh s r).
Proof. unfold pio_read. cbv zeta. guards; auto. Qed.

Lemma refresh_cases s r :
  refresh s r = s \/ refresh s r = mkRtc (index s) (ram s) (now_utc (wall r)) (mono_stamp r).
Proof. unfold refresh. guards; auto. Qed.

Lemma pio_read_cases s p r :
  (pio_read s p r).1 = s \/
  (pio_read s p r).1 = mkRtc (index s) (ram s) (now_utc (wall r)) (mono_stamp r).
Proof. destruct (pio_read_state s p r) as [->| ->]; [by left|apply refresh_cases]. Qed.

Lemma pio_write_latched s p v :
  latched (pio_write s p v) = latched s /\ latched_at (pio_write s p v) = latched_at s.
Proof. unfold pio_write. cbv zeta. by guards. Qed.

Lemma access_rtc_ok s a : rtc_ok s -> rtc_ok (access s a).
Proof.
  intros [Hi Hr]. destruct a as [p r|p v]; simpl.
  { destruct (pio_read_cases s p r) as [->| ->]; by split. }
  unfold pio_write. cbv zeta. guards; split; try done; simpl; [apply land_7f|].
  unfold zlen in *. by rewrite length_insert.
Qed.

Lemma session_latched l s :
  latched (foldl access s l) = latched s \/
  exists w, w ∈ walls l /\ latched (foldl access s l) = now_utc w.
Proof.
  revert s. induction l as [|a l IH]; intros s; simpl; [by left|].
  destruct (IH (access s a)) as [->|(w & ? & ->)].
  - destruct a as [p r|p v]; simpl; [|left; apply pio_write_latched].
    destruct (pio_read_cases s p r) as [->| ->]; [by left|]. right. exists (wall r).
    split; [apply list_elem_of_here|done].
  - right. exists w. split; [|done]. destruct a; simpl; [by apply list_elem_of_further|done].
Qed.

Lemma session_ok l s : rtc_ok s -> rtc_ok (foldl access s l).
Proof. revert s. induction l; intros; simpl; auto using access_rtc_ok. Qed.

Lemma new_rtc_ok r : rtc_ok (new r).
Proof. done. Qed.

(** After any session of port accesses the guest finds UIP clear, so its
    unbounded poll ends at once, the 24-hour BCD format and a valid clock; the
    register index stays inside the 128 bytes of CMOS RAM; and the time latched
    is always one the host's clock gave, whatever the guest wrote. *)
Theorem cmos_host_authoritative (r0 : Readings) (l : list Access) (r : Readings) :
  let s := foldl access (new r0) l in
  rtc_ok s /\
  read_reg s REG_A r = REG_A_VALUE /\ Z.testbit (read_reg s REG_A r) 7 = false /\
  read_reg s REG_B r = REG_B_VALUE /\ read_reg s REG_D r = REG_D_VALUE /\
  exists w, w ∈ wall r0 :: walls l /\ latched s = now_utc w.
Proof.
  cbv zeta. split; [apply session_ok, new_rtc_ok|]. do 4 (split; [done|]).
  destruct (session_latched l (new r0)) as [->|(w & ? & ->)].
  - exists (wall r0). split; [apply list_elem_of_here|done].
  - exists w. split; [by apply list_elem_of_further|done].
Qed.

(** Every clock reading of the session is within the latch's age. *)
Definition within_latch (at_ : Z) (a : Access) : Prop :=
  match a with In_ _ r => mono_age r - at_ < LATCH_MAX_AGE | Out_ _ _ => True end.

Lemma access_fresh s a :
  within_latch (latched_at s) a ->
  latched (access s a) = latched s /\ latched_at (access s a) = latched_at s.
Proof.
  destruct a as [p r|p v]; simpl; [|intros _; apply pio_write_latched].
  intros H. destruct (pio_read_state s p r) as [->| ->]; [done|].
  unfold refresh, saturating_sub, LATCH_MAX_AGE in *. by rewrite (proj2 (Z.leb_gt _ _)) by lia.
Qed.

(** A guest that reads the whole register file while the latch is younger
    than 250 ms reads every field of one instant: no access in between replaces
    the latched time. *)
Theorem cmos_reads_do_not_tear (s : RtcCmos) (l : list Access) (i : Z) (r : Readings) :
  Forall (within_latch (latched_at s)) (l ++ [In_ RTC_DATA_PORT r]) -> is_clock_reg i = true ->
  read_reg (foldl access s l) i r = clock_reg (latched s) i.
Proof.
  intros H Hi. rewrite read_clock_reg by done. f_equal.
  assert (latched (foldl access s l) = latched s /\ latched_at (foldl access s l) = latched_at s) as [E1 E2].
  { apply Forall_app in H as [H _]. clear Hi. revert s H.
    induction l as [|a l IH]; intros s H; simpl; [done|]. inversion H as [|? ? Ha Hl]; subst.
    destruct (access_fresh s a Ha) as [Ea Eb]. rewrite <-Ea, <-Eb. apply IH. by rewrite Eb. }
  apply Forall_app in H as [_ H]. inversion H as [|? ? Hr _]; subst. simpl in Hr.
  destruct (pio_write_latched (foldl access s l) RTC_INDEX_PORT i) as [F1 F2].
  unfold refresh. rewrite F2, E2, (proj2 (Z.leb_gt _ _)); [by rewrite F1, E1|].
  unfold saturating_sub, LATCH_MAX_AGE in *. lia.
Qed.

Lemma cmos_reports_host_time_witness :
  let r := mkReadings 1000000000 (Some 1709210096) 1000000000 in
  let s := new (mkReadings 0 (Some 0) 0) in
  aged s r /\ bcd_val (read_reg s REG_DAY r) = 29.
Proof.
  cbv zeta. split; [by vm_compute|].
  pose proof (cmos_reports_host_time (new (mkReadings 0 (Some 0) 0))
    (mkReadings 1000000000 (Some 1709210096) 1000000000) 1709210096 eq_refl ltac:(lia) ltac:(by vm_compute)) as H.
  vm_compute in H. vm_compute. tauto.
Defined.

Lemma cmos_reads_do_not_tear_witness :
  let s := new (mkReadings 0 (Some 1709210096) 0) in
  let r := mkReadings 200000000 (Some 1709210097) 200000000 in
  read_reg (foldl access s [Out_ 0x70 0; In_ 0x71 r; Out_ 0x71 5]) REG_MINUTES r
  = clock_reg (latched s) REG_MINUTES.
Proof.
  apply (cmos_reads_do_not_tear (new (mkReadings 0 (Some 1709210096) 0))
    [Out_ 0x70 0; In_ 0x71 (mkReadings 200000000 (Some 1709210097) 200000000); Out_ 0x71 5]
    REG_MINUTES (mkReadings 200000000 (Some 1709210097) 200000000)).
  - repeat constructor; simpl; unfold LATCH_MAX_AGE; lia.
  - reflexivity.
Defined.
