(* ===== verification/Pl011.v ===== *)
(** * The PL011 UART ([src/devices/legacy/pl011.rs])

    [stdout] is the stream of bytes handed to the host's standard output. The
    refinement at the end relates a session of accesses to a pure account of it:
    a filtered byte stream out, a bounded FIFO in, and a level-triggered line. *)

From S2P Require Import Prelude Irq Filter.
Local Open Scope Z_scope.

Definition DR : Z := 0x000.
Definition FR : Z := 0x018.
Definition IMSC : Z := 0x038.
Definition RIS : Z := 0x03c.
Definition MIS : Z := 0x040.
Definition ICR : Z := 0x044.
Definition FR_TXFE : Z := Z.shiftl 1 7.
Definition FR_RXFE : Z := Z.shiftl 1 4.
Definition INT_RX : Z := Z.shiftl 1 4.
Definition RX_CAP : Z := 4096.

(** The PrimeCell identification registers. *)
Definition ID_REGS : list (Z * Z) :=
  [(0xfe0, 0x11); (0xfe4, 0x10); (0xfe8, 0x04); (0xfec, 0x00);
   (0xff0, 0x0d); (0xff4, 0xf0); (0xff8, 0x05); (0xffc, 0xb1)].

Definition id_reg (offset : Z) : option Z :=
  snd <$> find (fun p => p.1 =? offset) ID_REGS.

Section Pl011.
Context {L : Type} `{IrqLine L}.

Record Pl011 := mkPl011 {
  stdout : list Z; filter : ConsoleFilter; passed : list Z; rx : list Z; imsc : Z; irq : Irq L }.

Definition new : Pl011 := mkPl011 [] Filter.new [] [] 0 irq_default.

Definition connect_irq (u : Pl011) (l : L) : Pl011 :=
  mkPl011 (stdout u) (filter u) (passed u) (rx u) (imsc u) (connect (irq u) l).

Definition is_empty (l : list Z) : bool := match l with [] => true | _ => false end.

Definition irq_level (u : Pl011) : bool :=
  negb (is_empty (rx u)) && negb (Z.land (imsc u) INT_RX =? 0).

(** [self.irq.set(self.irq_level())]. *)
Definition sync_irq (u : Pl011) : Pl011 :=
  mkPl011 (stdout u) (filter u) (passed u) (rx u) (imsc u) (set (irq u) (irq_level u)).

Definition push_rx (u : Pl011) (byte : Z) : Pl011 :=
  let rx' := if zlen (rx u) <? RX_CAP then rx u ++ [byte] else rx u in
  sync_irq (mkPl011 (stdout u) (filter u) (passed u) rx' (imsc u) (irq u)).

Definition raw_int (u : Pl011) : Z := if is_empty (rx u) then 0 else INT_RX.

Definition serve_mmio (u : Pl011) (offset : Z) (is_write : bool) (value : Z) : Pl011 * Z :=
  if is_write then
    (if offset =? DR then
       let '(f, o) := Filter.filter (filter u) [u8 value] in
       mkPl011 (if is_empty o then stdout u else stdout u ++ o) f o (rx u) (imsc u) (irq u)
     else if offset =? IMSC then
       mkPl011 (stdout u) (filter u) (passed u) (rx u) (u32 value) (irq u)
     else u, 0)
  else if offset =? DR then
    match rx u with
    | [] => (u, 0)
    | b :: r => (mkPl011 (stdout u) (filter u) (passed u) r (imsc u) (irq u), b)
    end
  else if offset =? FR then (u, Z.lor FR_TXFE (if is_empty (rx u) then FR_RXFE else 0))
  else if offset =? IMSC then (u, imsc u)
  else if offset =? RIS then (u, raw_int u)
  else if offset =? MIS then (u, Z.land (raw_int u) (imsc u))
  else (u, default 0 (id_reg offset)).

Definition mmio (u : Pl011) (offset : Z) (is_write : bool) (value : Z) : Pl011 * Z :=
  let '(u, read) := serve_mmio u offset is_write value in (sync_irq u, read).

(** ** Sessions *)

Inductive Op := Push (byte : Z) | Mmio (offset : Z) (is_write : bool) (value : Z).

Definition step (u : Pl011) (op : Op) : Pl011 :=
  match op with Push b => push_rx u b | Mmio o w v => (mmio u o w v).1 end.

(** ** The account of a session: transmitted bytes, and the receive FIFO with
    what it accepted and what the guest took. *)
Record Account := mkAccount { sent : list Z; accepted : list Z; taken : list Z; mask : Z }.

Definition waiting (a : Account) : list Z := drop (length (taken a)) (accepted a).

Definition tally (a : Account) (op : Op) : Account :=
  match op with
  | Push b => if zlen (waiting a) <? RX_CAP then mkAccount (sent a) (accepted a ++ [b]) (taken a) (mask a) else a
  | Mmio o true v =>
      if o =? DR then mkAccount (sent a ++ [u8 v]) (accepted a) (taken a) (mask a)
      else if o =? IMSC then mkAccount (sent a) (accepted a) (taken a) (u32 v) else a
  | Mmio o false _ =>
      if o =? DR then match waiting a with
        | [] => a
        | b :: _ => mkAccount (sent a) (accepted a) (taken a ++ [b]) (mask a)
        end
      else a
  end.

Definition agrees (u : Pl011) (a : Account) : Prop :=
  accepted a = taken a ++ rx u /\ zlen (rx u) <= RX_CAP /\ imsc u = mask a /\
  Filter.filter Filter.new (sent a) = (filter u, stdout u) /\ bytes_ok (sent a).

Context `{!IrqLineLaws L}.

Lemma agrees_waiting u a : agrees u a -> waiting a = rx u.
Proof. intros (E & _). unfold waiting. rewrite E. apply drop_app_length. Qed.

Lemma sync_irq_line u : reliable -> irq_ok (irq u) -> is_Some (line (irq u)) ->
  line_at (irq (sync_irq u)) (irq_level (sync_irq u)).
Proof. intros. by apply set_line_at. Qed.

Lemma serve_irq u o w v : irq (serve_mmio u o w v).1 = irq u.
Proof.
  unfold serve_mmio. destruct w.
  - destruct (Filter.filter (filter u) [u8 v]) as [f out]. cbn [fst].
    by destruct (o =? DR), (o =? IMSC).
  - destruct (o =? DR); [by destruct (rx u)|]. by guards.
Qed.

Lemma step_line u op : reliable -> irq_ok (irq u) -> is_Some (line (irq u)) ->
  line_at (irq (step u op)) (irq_level (step u op)).
Proof.
  intros Hr Hi Hl. destruct op as [b|o w v]; cbn [step].
  - by apply sync_irq_line.
  - unfold mmio. pose proof (serve_irq u o w v) as E.
    destruct (serve_mmio u o w v) as [u' read]. cbn [fst] in *.
    apply sync_irq_line; by rewrite ?E.
Qed.

Lemma agrees_sync u a : agrees u a -> agrees (sync_irq u) a.
Proof. done. Qed.

Lemma agrees_push u a b : agrees u a -> agrees (step u (Push b)) (tally a (Push b)).
Proof.
  intros Ha. cbn [step tally]. rewrite (agrees_waiting u a Ha). destruct Ha as (E1 & E2 & E3 & E4 & E5).
  apply agrees_sync. cbn. destruct (Z.ltb_spec (zlen (rx u)) RX_CAP); [|done].
  repeat split; try done; cbn [accepted taken rx]; [by rewrite E1, app_assoc|zlia].
Qed.

Lemma stdout_app (so o : list Z) : (if is_empty o then so else so ++ o) = so ++ o.
Proof. destruct o; [by rewrite app_nil_r|done]. Qed.

Lemma agrees_write u a o v :
  agrees u a -> agrees (step u (Mmio o true v)) (tally a (Mmio o true v)).
Proof.
  intros (E1 & E2 & E3 & E4 & E5). cbn [step tally]. unfold mmio, serve_mmio.
  destruct (o =? DR); [|by destruct (o =? IMSC)].
  destruct (Filter.filter (filter u) [u8 v]) as [f out] eqn:Ef. cbn [fst]. apply agrees_sync.
  repeat split; try done; cbn [sent filter stdout].
  - rewrite filter_app, E4, Ef. by rewrite stdout_app.
  - apply bytes_ok_app. split; [done|]. constructor; [|done]. apply u8_range.
Qed.

Lemma agrees_read u a o v :
  agrees u a -> agrees (step u (Mmio o false v)) (tally a (Mmio o false v)).
Proof.
  intros Ha. cbn [step tally]. rewrite (agrees_waiting u a Ha).
  destruct Ha as (E1 & E2 & E3 & E4 & E5). unfold mmio, serve_mmio.
  destruct (o =? DR); [|by guards].
  destruct (rx u) as [|b r] eqn:Er; cbn [fst]; apply agrees_sync.
  - by repeat split; rewrite ?Er.
  - repeat split; try done; cbn [accepted taken rx]; [by rewrite <-app_assoc|zlia].
Qed.

Lemma agrees_step u a op : agrees u a -> agrees (step u op) (tally a op).
Proof. destruct op as [b|o [] v]; [apply agrees_push|apply agrees_write|apply agrees_read]. Qed.

Lemma agrees_session ops u a : agrees u a -> agrees (foldl step u ops) (foldl tally a ops).
Proof. revert u a. induction ops; intros; simpl; auto using agrees_step. Qed.

Lemma line_session ops u : reliable ->
  line_at (irq u) (irq_level u) -> line_at (irq (foldl step u ops)) (irq_level (foldl step u ops)).
Proof.
  intros Hr. revert u. induction ops as [|op ops IH]; intros u (? & ? & ?); simpl; [done|].
  apply IH, step_line; auto.
Qed.

Definition empty_account : Account := mkAccount [] [] [] 0.

Lemma new_agrees l : agrees (connect_irq new l) empty_account.
Proof. repeat split; try done. constructor. Qed.

(** A session of the PL011, from a fresh device on a line that starts low:
    the host terminal gets exactly what the console filter passes of the bytes
    the guest wrote, all of it allowed tokens; the guest takes received bytes in
    the order the host queued them, none lost but those the full FIFO refused,
    and the FIFO never exceeds its cap; and after every access the interrupt
    line is high exactly when a byte waits and the RX interrupt is unmasked. *)
Theorem pl011_session (l : L) (ops : list Op) :
  reliable -> line_level l = false ->
  let u := foldl step (connect_irq new l) ops in
  let a := foldl tally empty_account ops in
  stdout u = (Filter.filter Filter.new (sent a)).2 /\ tokens (stdout u) /\
  accepted a = taken a ++ rx u /\ zlen (rx u) <= RX_CAP /\
  exists l', line (irq u) = Some l' /\
    line_level l' = negb (is_empty (waiting a)) && negb (Z.land (mask a) INT_RX =? 0).
Proof.
  intros Hr Hl u a. assert (agrees u a) as Ha by apply agrees_session, new_agrees.
  assert (line_at (irq u) (irq_level u)) as Hline.
  { apply line_session; [done|]. split; [done|]. split; [by eexists|done]. }
  pose proof (agrees_waiting u a Ha) as Hw. destruct Ha as (E1 & E2 & E3 & E4 & E5).
  rewrite E4. split; [done|]. split; [eapply filter_spec; [apply new_inv|exact E5|exact E4]|].
  split; [done|]. split; [done|]. destruct Hline as (Hi & [l' Hl'] & Hh). exists l'. split; [done|].
  unfold irq_ok in Hi. rewrite Hl' in Hi. rewrite Hi, Hh, Hw, <-E3. done.
Qed.
End Pl011.
Arguments Pl011 : clear implicits.

(** The interrupt status registers agree with the line: MIS reads nonzero
    exactly when the line is asserted, FR reports the receive FIFO empty exactly
    when a data read would find nothing, and transmit is always ready. *)
Lemma pl011_status_registers {L : Type} `{IrqLine L} (u : Pl011 L) (v : Z) :
  negb ((mmio u MIS false v).2 =? 0) = irq_level u /\
  Z.testbit (mmio u FR false v).2 4 = is_empty (rx u) /\
  Z.testbit (mmio u FR false v).2 7 = true /\
  (is_empty (rx u) = true -> (mmio u DR false v).2 = 0).
Proof.
  unfold mmio, serve_mmio, irq_level, raw_int. cbn. destruct (rx u) as [|b r]; cbn; [done|].
  repeat split; try done. change 16 with INT_RX. rewrite Z.land_comm. by destruct (Z.land _ INT_RX).
Qed.

Lemma pl011_session_witness :
  let u := foldl step (connect_irq new (mkPlainLine false))
    [Mmio IMSC true 0x10; Push 0x61; Mmio DR true 0x41; Mmio DR true 0x05] in
  stdout u = [0x41] /\ (exists l', line (irq u) = Some l' /\ line_level l' = true).
Proof.
  pose proof (pl011_session (mkPlainLine false)
    [Mmio IMSC true 0x10; Push 0x61; Mmio DR true 0x41; Mmio DR true 0x05]
    PlainLine_reliable eq_refl) as (H1 & _ & _ & _ & H2).
  split; [exact H1|exact H2].
Defined.
