(* ===== verification/Uart16550.v ===== *)
(** * COM1 ([src/devices/legacy/uart16550.rs])

    The 16550 register file is the crate [vm-superio]'s [Serial], here the type
    class [Serial] with the behaviour the module relies on as [SerialLaws]. The
    module's own part is the interrupt identification, which the theorems show
    to agree with the line. *)

From S2P Require Import Prelude Irq Filter.
Local Open Scope Z_scope.

Definition IER_RECEIVED_DATA : Z := 0x01.
Definition IER_THR_EMPTY : Z := 0x02.
Definition LSR_DATA_READY : Z := 0x01.
Definition LCR_DLAB : Z := 0x80.
Definition THR : Z := 0.
Definition IER : Z := 1.
Definition IIR : Z := 2.
Definition LCR : Z := 3.
Definition IIR_RECEIVED_DATA : Z := 0x04.
Definition IIR_THR_EMPTY : Z := 0x02.
Definition IIR_NONE : Z := 0x01.
Definition IIR_FIFO_ENABLED : Z := 0xc0.

(** The crate's register file. A write may hand bytes to the console writer. *)
Class Serial (S : Type) := {
  serial_new : S;
  serial_read : S -> Z -> S * Z;
  serial_write : S -> Z -> Z -> S * list Z;
  enqueue_raw_bytes : S -> list Z -> S;
  (** [state().interrupt_enable] and [state().line_status]. *)
  interrupt_enable : S -> Z;
  line_status : S -> Z;
}.

(** Whether the divisor latch is selected. *)
Definition dlab_set {S} `{Serial S} (s : S) : bool :=
  negb (Z.land (serial_read s LCR).2 LCR_DLAB =? 0).

(** What the crate documents and the module relies on: LCR and IER reads have no
    side effects; IER reads the enable bits unless the divisor latch is
    selected; an IIR read leaves the enable and the line status alone; and an
    IER write sets the two enable bits hvi uses. *)
Class SerialLaws (S : Type) `{Serial S} := {
  read_lcr_pure : forall s, (serial_read s LCR).1 = s;
  read_ier_pure : forall s, (serial_read s IER).1 = s;
  read_ier_value : forall s, dlab_set s = false -> (serial_read s IER).2 = interrupt_enable s;
  read_iir_keeps : forall s, interrupt_enable (serial_read s IIR).1 = interrupt_enable s /\
                             line_status (serial_read s IIR).1 = line_status s;
  write_ier_sets : forall s v, dlab_set s = false ->
    Z.land (interrupt_enable (serial_write s IER v).1) IER_THR_EMPTY = Z.land v IER_THR_EMPTY /\
    Z.land (interrupt_enable (serial_write s IER v).1) IER_RECEIVED_DATA = Z.land v IER_RECEIVED_DATA;
  write_thr_keeps : forall s v, dlab_set s = false ->
    interrupt_enable (serial_write s THR v).1 = interrupt_enable s;
}.

(** [ConsoleOut]: the filter and what it passed of the last write. *)
Record ConsoleOut := mkConsoleOut { filter : ConsoleFilter; passed : list Z; stdout : list Z }.

Definition console_write (o : ConsoleOut) (buf : list Z) : ConsoleOut :=
  let '(f, p) := Filter.filter (filter o) buf in
  mkConsoleOut f p (stdout o ++ p).

Section Uart.
Context {S L : Type} `{Serial S} `{IrqLine L}.

Record Uart16550 := mkUart {
  inner : S; console : ConsoleOut; thr_empty_pending : bool; irq : Irq L }.

Definition new : Uart16550 :=
  mkUart serial_new (mkConsoleOut Filter.new [] []) false irq_default.

Definition connect_irq (u : Uart16550) (l : L) : Uart16550 :=
  mkUart (inner u) (console u) (thr_empty_pending u) (connect (irq u) l).

Definition interrupt_id (u : Uart16550) : Z :=
  if negb (Z.land (interrupt_enable (inner u)) IER_RECEIVED_DATA =? 0)
     && negb (Z.land (line_status (inner u)) LSR_DATA_READY =? 0) then IIR_RECEIVED_DATA
  else if negb (Z.land (interrupt_enable (inner u)) IER_THR_EMPTY =? 0) && thr_empty_pending u
  then IIR_THR_EMPTY
  else IIR_NONE.

Definition irq_level (u : Uart16550) : bool := negb (interrupt_id u =? IIR_NONE).

Definition sync_irq (u : Uart16550) : Uart16550 :=
  mkUart (inner u) (console u) (thr_empty_pending u) (set (irq u) (irq_level u)).

Definition with_inner (u : Uart16550) (s : S) : Uart16550 :=
  mkUart s (console u) (thr_empty_pending u) (irq u).
Definition with_pending (u : Uart16550) (b : bool) : Uart16550 :=
  mkUart (inner u) (console u) b (irq u).

Definition push_rx (u : Uart16550) (b : Z) : Uart16550 :=
  sync_irq (with_inner u (enqueue_raw_bytes (inner u) [b])).

Definition read_port (u : Uart16550) (off : Z) : Uart16550 * Z :=
  if negb (off =? IIR) then
    let '(s, v) := serial_read (inner u) (u8 off) in (with_inner u s, v)
  else
    let u := with_inner u (serial_read (inner u) (u8 off)).1 in
    let id := interrupt_id u in
    (if id =? IIR_THR_EMPTY then with_pending u false else u, Z.lor id IIR_FIFO_ENABLED).

(** The bytes the crate transmits go through [ConsoleOut::write]. *)
Definition inner_write (u : Uart16550) (off val : Z) : Uart16550 :=
  let '(s, tx) := serial_write (inner u) (u8 off) val in
  mkUart s (match tx with [] => console u | _ => console_write (console u) tx end)
    (thr_empty_pending u) (irq u).

Definition write_port (u : Uart16550) (off val : Z) : Uart16550 :=
  let '(s, lcr) := serial_read (inner u) (u8 LCR) in
  let dlab := negb (Z.land lcr LCR_DLAB =? 0) in
  let '(s, ier) := serial_read s (u8 IER) in
  let u := inner_write (with_inner u s) off val in
  if dlab then u
  else if off =? THR then with_pending u true
  else if off =? IER then
    let enabled := negb (Z.land val IER_THR_EMPTY =? 0) in
    if negb (eqb enabled (negb (Z.land ier IER_THR_EMPTY =? 0)))
    then with_pending u enabled else u
  else u.

Definition pio_read (u : Uart16550) (off : Z) : Uart16550 * Z :=
  let '(u, read) := read_port u off in (sync_irq u, read).

Definition pio_write (u : Uart16550) (off val : Z) : Uart16550 := sync_irq (write_port u off val).

(** ** Sessions *)

Inductive Op := Push (b : Z) | In_ (off : Z) | Out_ (off val : Z).

Definition step (u : Uart16550) (op : Op) : Uart16550 :=
  match op with Push b => push_rx u b | In_ o => (pio_read u o).1 | Out_ o v => pio_write u o v end.

(** What an IIR read would report, without the FIFO bits. *)
Definition iir (u : Uart16550) : Z := Z.land (pio_read u IIR).2 0x0f.

Context `{!SerialLaws S} `{!IrqLineLaws L}.

Lemma interrupt_id_cases u :
  interrupt_id u = IIR_RECEIVED_DATA \/ interrupt_id u = IIR_THR_EMPTY \/ interrupt_id u = IIR_NONE.
Proof. unfold interrupt_id. guards; auto. Qed.

(** The crate's IIR read does not change what hvi reports. *)
Lemma interrupt_id_iir u : interrupt_id (with_inner u (serial_read (inner u) IIR).1) = interrupt_id u.
Proof.
  unfold interrupt_id. cbn [inner with_inner thr_empty_pending].
  destruct (read_iir_keeps (inner u)) as [-> ->]. done.
Qed.

Lemma iir_id u : iir u = interrupt_id u.
Proof.
  unfold iir, pio_read, read_port. cbn [negb Z.eqb IIR]. change (u8 2) with IIR.
  cbn. rewrite interrupt_id_iir. by destruct (interrupt_id_cases u) as [->|[->| ->]].
Qed.

Lemma irq_level_iir u : irq_level u = negb (iir u =? IIR_NONE).
Proof. by rewrite iir_id. Qed.

Lemma sync_irq_level u : irq_level (sync_irq u) = irq_level u.
Proof. done. Qed.

Lemma uart_sync_irq_line u : reliable -> irq_ok (irq u) -> is_Some (line (irq u)) ->
  line_at (irq (sync_irq u)) (irq_level (sync_irq u)).
Proof. intros. by apply set_line_at. Qed.

Lemma read_port_irq u o : irq (read_port u o).1 = irq u.
Proof.
  unfold read_port. destruct (o =? IIR); cbn [negb]; [cbn; by destruct (_ =? IIR_THR_EMPTY)|].
  by destruct (serial_read _ _).
Qed.

Lemma inner_write_irq u o v : irq (inner_write u o v) = irq u.
Proof. unfold inner_write. by destruct (serial_write _ _ _). Qed.

Lemma write_port_irq u o v : irq (write_port u o v) = irq u.
Proof.
  unfold write_port. destruct (serial_read (inner u) _) as [s lcr], (serial_read s _) as [s' ier].
  cbv zeta. guards; cbn [irq with_pending]; by rewrite inner_write_irq.
Qed.

Lemma uart_step_line u op : reliable -> irq_ok (irq u) -> is_Some (line (irq u)) ->
  line_at (irq (step u op)) (irq_level (step u op)).
Proof.
  intros Hr Hi Hl. destruct op as [b|o|o v]; cbn [step].
  - by apply uart_sync_irq_line.
  - unfold pio_read. pose proof (read_port_irq u o) as E. destruct (read_port u o) as [u' read].
    cbn [fst] in *. apply uart_sync_irq_line; by rewrite ?E.
  - unfold pio_write. apply uart_sync_irq_line; by rewrite ?write_port_irq.
Qed.

Lemma uart_line_session ops u : reliable ->
  line_at (irq u) (irq_level u) -> line_at (irq (foldl step u ops)) (irq_level (foldl step u ops)).
Proof.
  intros Hr. revert u. induction ops as [|op ops IH]; intros u (? & ? & ?); simpl; [done|].
  apply IH, uart_step_line; auto.
Qed.

(** The write of the inner register file with DLAB clear. *)
Lemma write_port_dlab_clear u o v :
  dlab_set (inner u) = false -> 0 <= o < 256 ->
  write_port u o v =
    let w := inner_write u o v in
    if o =? THR then with_pending w true
    else if o =? IER then
      let enabled := negb (Z.land v IER_THR_EMPTY =? 0) in
      if negb (eqb enabled (negb (Z.land (interrupt_enable (inner u)) IER_THR_EMPTY =? 0)))
      then with_pending w enabled else w
    else w.
Proof.
  intros Hd Ho. unfold write_port. change (u8 LCR) with LCR. change (u8 IER) with IER.
  pose proof (read_lcr_pure (inner u)) as E1. pose proof Hd as Hd'. unfold dlab_set in Hd'.
  destruct (serial_read (inner u) LCR) as [s lcr]. cbn [fst snd] in *. subst s. rewrite Hd'.
  pose proof (read_ier_pure (inner u)) as E2. pose proof (read_ier_value (inner u) Hd) as E3.
  destruct (serial_read (inner u) IER) as [s ier]. cbn [fst snd] in *. subst.
  by destruct u.
Qed.

Lemma inner_write_inner u o v : 0 <= o < 256 -> inner (inner_write u o v) = (serial_write (inner u) o v).1.
Proof.
  intros. unfold inner_write. replace (u8 o) with o by (symmetry; apply Z.mod_small; lia).
  by destruct (serial_write (inner u) o v).
Qed.

Lemma enable_masks u v :
  dlab_set (inner u) = false ->
  Z.land (interrupt_enable (inner (write_port u IER v))) IER_THR_EMPTY = Z.land v IER_THR_EMPTY.
Proof.
  intros Hd. rewrite write_port_dlab_clear by done. cbn. guards; cbn [inner with_pending];
    rewrite inner_write_inner by done; by apply write_ier_sets.
Qed.

(** Enabling THR-empty while it was disabled makes it pending. *)
Lemma enable_pends u v :
  dlab_set (inner u) = false -> Z.land v IER_THR_EMPTY <> 0 ->
  Z.land (interrupt_enable (inner u)) IER_THR_EMPTY = 0 ->
  thr_empty_pending (write_port u IER v) = true.
Proof.
  intros Hd Hv He. rewrite write_port_dlab_clear by done. cbn -[Z.land].
  rewrite He. cbn -[Z.land]. by rewrite (proj2 (Z.eqb_neq _ _) Hv).
Qed.
End Uart.
Arguments Uart16550 : clear implicits.

(** After any session on a line that starts low, COM1's line is high exactly
    when an IIR read would report an interrupt, so the guest's 8250 driver, which
    reads IIR until nothing is pending, never leaves the edge-triggered line
    high. *)
Theorem uart_line_matches_iir {S L : Type} `{SerialLaws S} `{IrqLineLaws L} (l : L)
    (ops : list Op) :
  reliable -> line_level l = false -> interrupt_enable serial_new = 0 ->
  let u := foldl step (connect_irq new l) ops in
  exists l', line (irq u) = Some l' /\ line_level l' = negb (iir u =? IIR_NONE).
Proof.
  intros Hr Hl Hn u. assert (line_at (irq u) (irq_level u)) as (Hi & [l' E] & Hh).
  { apply uart_line_session; [done|]. split; [done|]. split; [by eexists|].
    unfold irq_level, interrupt_id. cbn [inner connect_irq new thr_empty_pending]. by rewrite Hn. }
  exists l'. split; [done|]. unfold irq_ok in Hi. rewrite E in Hi. by rewrite Hi, Hh, irq_level_iir.
Qed.

(** The guest's two ways to ask for a THR-empty interrupt: a byte written to THR
    while the interrupt is enabled, or enabling it while the register is empty. *)
Definition asks_thr {S L} `{Serial S} (u : Uart16550 S L) (off v : Z) : Prop :=
  (off = THR /\ Z.land (interrupt_enable (inner u)) IER_THR_EMPTY <> 0) \/
  (off = IER /\ Z.land v IER_THR_EMPTY <> 0 /\ Z.land (interrupt_enable (inner u)) IER_THR_EMPTY = 0).

(** A THR-empty interrupt the guest asked for is never lost: after the write
    an IIR read reports it, or received data before it; the read that reports it
    clears it and no other read does, so it is reported exactly once. *)
Lemma uart_thr_empty_reported_once {S L : Type} `{SerialLaws S} `{IrqLineLaws L}
    (u : Uart16550 S L) (off v : Z) :
  dlab_set (inner u) = false -> asks_thr u off v ->
  let w := pio_write u off v in
  (iir w = IIR_THR_EMPTY \/ iir w = IIR_RECEIVED_DATA) /\
  thr_empty_pending w = true /\
  (iir w = IIR_THR_EMPTY -> iir (pio_read w IIR).1 = IIR_NONE) /\
  (iir w = IIR_RECEIVED_DATA -> thr_empty_pending (pio_read w IIR).1 = true).
Proof.
  intros Hd Ha w. assert (thr_empty_pending w = true) as Hp.
  { subst w. unfold pio_write. cbn [thr_empty_pending sync_irq]. destruct Ha as [[-> ?]|(-> & ? & ?)].
    - by rewrite write_port_dlab_clear.
    - by apply enable_pends. }
  assert (Z.land (interrupt_enable (inner w)) IER_THR_EMPTY <> 0) as He.
  { subst w. unfold pio_write. cbn [inner sync_irq]. destruct Ha as [[-> ?]|(-> & ? & ?)].
    - rewrite write_port_dlab_clear by done. cbn [Z.eqb THR inner with_pending].
      rewrite inner_write_inner by done. by rewrite write_thr_keeps.
    - by rewrite enable_masks. }
  rewrite !iir_id. split; [|split; [done|]].
  - unfold interrupt_id. rewrite Hp, (proj2 (Z.eqb_neq _ _) He). destruct (_ && _); auto.
  - unfold pio_read, read_port. change (negb (IIR =? IIR)) with false. change (u8 IIR) with IIR.
    cbv zeta iota. rewrite interrupt_id_iir. split; intros Hid; rewrite Hid; cbn [fst Z.eqb IIR_THR_EMPTY Pos.eqb IIR_RECEIVED_DATA].
    + revert Hid. unfold interrupt_id. cbn [inner sync_irq with_pending with_inner thr_empty_pending].
      destruct (read_iir_keeps (inner w)) as [-> ->]. destruct (_ && negb (Z.land (line_status _) _ =? 0)); [done|].
      by rewrite andb_false_r.
    + done.
Qed.

(** A register file of the crate's shape: enable, line control, divisor, and the
    receive buffer of 64 bytes. *)
Record DemoSerial := mkDemo { d_ier : Z; d_lcr : Z; d_div : Z; d_rx : list Z }.
#[export] Instance DemoSerial_serial : Serial DemoSerial := {|
  serial_new := mkDemo 0 0 0 [];
  serial_read s off :=
    if off =? LCR then (s, d_lcr s)
    else if off =? IER then (s, if Z.land (d_lcr s) LCR_DLAB =? 0 then d_ier s else d_div s)
    else if off =? THR then
      match d_rx s with [] => (s, 0) | b :: r => (mkDemo (d_ier s) (d_lcr s) (d_div s) r, b) end
    else (s, 0);
  serial_write s off v :=
    if off =? LCR then (mkDemo (d_ier s) v (d_div s) (d_rx s), [])
    else if off =? IER then
      (if Z.land (d_lcr s) LCR_DLAB =? 0 then mkDemo v (d_lcr s) (d_div s) (d_rx s)
       else mkDemo (d_ier s) (d_lcr s) v (d_rx s), [])
    else if off =? THR then (s, if Z.land (d_lcr s) LCR_DLAB =? 0 then [v] else [])
    else (s, []);
  enqueue_raw_bytes s l := if zlen (d_rx s) <? 64 then mkDemo (d_ier s) (d_lcr s) (d_div s) (d_rx s ++ l) else s;
  interrupt_enable := d_ier;
  line_status s := match d_rx s with [] => 0x60 | _ => 0x61 end;
|}.
#[export] Instance DemoSerial_laws : SerialLaws DemoSerial.
Proof.
  split; unfold dlab_set; cbn -[Z.land]; intros s; try done.
  - by intros ->%negb_false_iff.
  - by intros v ->%negb_false_iff.
Defined.

Lemma uart_line_matches_iir_witness :
  let u := foldl step (connect_irq (S := DemoSerial) new (mkPlainLine false)) [Out_ 1 3; In_ 2; Push 0x61] in
  exists l', line (irq u) = Some l' /\ line_level l' = true.
Proof.
  exact (uart_line_matches_iir (S := DemoSerial) (mkPlainLine false) [Out_ 1 3; In_ 2; Push 0x61]
    PlainLine_reliable eq_refl eq_refl).
Defined.

