(* ===== verification/AcpiPm.v ===== *)
(** * The ACPI power-management registers ([src/devices/legacy/acpi_pm.rs])

    A write is a loop over its bytes; the theorems give its outcome as a
    function of the two bytes that can stop the machine. *)

From S2P Require Import Prelude.
Local Open Scope Z_scope.

(** [config::Stop]. *)
Inductive Stop := SystemOff | SystemReset | Requested.
#[export] Instance Stop_eq_dec : EqDecision Stop.
Proof. solve_decision. Defined.

Definition PM1_STATUS : Z := 0.
Definition PM1_ENABLE : Z := 2.
Definition PM1_CONTROL : Z := 4.
Definition RESET_REGISTER : Z := 6.
Definition PM1_EVENT_LEN : Z := 4.
Definition PM1_CONTROL_LEN : Z := 2.
Definition PM_REGISTERS_LEN : Z := RESET_REGISTER + 1.
Definition SLP_TYP_S5 : Z := 5.
Definition RESET_VALUE : Z := 1.
Definition SCI_EN : Z := Z.shiftl 1 0.
Definition SLP_TYP_SHIFT : Z := 10.
Definition SLP_TYP_MASK : Z := 0x7.
Definition SLP_EN : Z := Z.shiftl 1 13.

Record PmRegisters := mkPm { enable : Z }.

(** [copy_from_slice] into [bytes[at..at + src.len()]]. *)
Definition splice (l : list Z) (at_ : Z) (src : list Z) : list Z :=
  take (Z.to_nat at_) l ++ src ++ drop (Z.to_nat at_ + length src) l.

Definition to_bytes (s : PmRegisters) : list Z :=
  let bytes := replicate (Z.to_nat PM_REGISTERS_LEN) 0 in
  let bytes := splice bytes PM1_ENABLE (le_bytes 2 (enable s)) in
  splice bytes PM1_CONTROL (le_bytes 2 SCI_EN).

Definition read (s : PmRegisters) (offset : Z) (len : nat) : list Z :=
  (fun i => default 0xff (get_at (to_bytes s) (offset + i))) <$> seqZ 0 (Z.of_nat len).

(** One byte of a write, at port offset [at_]. *)
Definition write_byte (s : PmRegisters) (at_ byte : Z) : PmRegisters * option Stop :=
  if at_ =? PM1_ENABLE then (mkPm (Z.lor (Z.land (enable s) 0xff00) byte), None)
  else if at_ =? PM1_ENABLE + 1 then
    (mkPm (Z.lor (Z.land (enable s) 0x00ff) (u16 (Z.shiftl byte 8))), None)
  else if at_ =? PM1_CONTROL + 1 then
    let control := u16 (Z.shiftl byte 8) in
    let slp_typ := Z.land (Z.shiftr control SLP_TYP_SHIFT) SLP_TYP_MASK in
    (s, if negb (Z.land control SLP_EN =? 0) && (slp_typ =? SLP_TYP_S5) then Some SystemOff else None)
  else if (at_ =? RESET_REGISTER) && (byte =? RESET_VALUE) then (s, Some SystemReset)
  else (s, None).

(** The loop: the port counter is a [u16], the last stop wins. *)
Fixpoint write_loop (s : PmRegisters) (at_ : Z) (data : list Z) (stop : option Stop)
  : PmRegisters * option Stop :=
  match data with
  | [] => (s, stop)
  | b :: data =>
      let '(s, o) := write_byte s at_ b in
      write_loop s (u16 (at_ + 1)) data (match o with Some _ => o | None => stop end)
  end.

Definition write (s : PmRegisters) (offset : Z) (data : list Z) : PmRegisters * option Stop :=
  write_loop s offset data None.

(** ** What a write asks for *)

(** The byte a write at [offset] puts at port [p]. *)
Definition written (offset : Z) (data : list Z) (p : Z) : option Z := get_at data (p - offset).

Definition stop_of (offset : Z) (data : list Z) : option Stop :=
  if bool_decide (written offset data RESET_REGISTER = Some RESET_VALUE) then Some SystemReset
  else match written offset data (PM1_CONTROL + 1) with
  | Some b => if Z.testbit b 5 && (Z.land (Z.shiftr b 2) 7 =? 5) then Some SystemOff else None
  | None => None
  end.

Lemma control_byte b :
  byte_ok b ->
  negb (Z.land (u16 (Z.shiftl b 8)) SLP_EN =? 0)
    && (Z.land (Z.shiftr (u16 (Z.shiftl b 8)) SLP_TYP_SHIFT) SLP_TYP_MASK =? SLP_TYP_S5)
  = Z.testbit b 5 && (Z.land (Z.shiftr b 2) 7 =? 5).
Proof.
  intros Hb. unfold byte_ok in Hb. rewrite u16_small; [|rewrite Z.shiftl_mul_pow2 by lia; lia].
  unfold SLP_EN, SLP_TYP_SHIFT, SLP_TYP_MASK, SLP_TYP_S5. change (Z.shiftl 1 13) with (2 ^ 13).
  rewrite land_bit, negb_involutive by lia. rewrite Z.shiftl_spec by lia. f_equal. f_equal. f_equal.
  apply Z.bits_inj'. intros i Hi. rewrite !Z.shiftr_spec, Z.shiftl_spec by lia. f_equal. lia.
Qed.

Lemma written_nil offset p : written offset [] p = None.
Proof. unfold written, get_at. by destruct (0 <=? p - offset). Qed.

Lemma written_cons offset b data p :
  written offset (b :: data) p = if p =? offset then Some b else written (offset + 1) data p.
Proof.
  unfold written, get_at. destruct (Z.eqb_spec p offset) as [->|].
  { by rewrite Z.sub_diag. }
  destruct (Z.leb_spec 0 (p - offset)), (Z.leb_spec 0 (p - (offset + 1))); try done; try lia.
  replace (Z.to_nat (p - offset)) with (S (Z.to_nat (p - (offset + 1)))) by lia. done.
Qed.

Lemma written_before offset data p : p < offset -> written offset data p = None.
Proof. intros. unfold written, get_at. by rewrite (proj2 (Z.leb_gt _ _)) by lia. Qed.

Definition later (stop o : option Stop) : option Stop := match o with Some _ => o | None => stop end.

Lemma later_assoc a b c : later (later a b) c = later a (later b c).
Proof. by destruct c. Qed.

Lemma later_none c : later None c = c.
Proof. by destruct c. Qed.

(** The stop of a write, one byte at a time. *)
Lemma stop_of_cons s at_ b data :
  byte_ok b -> stop_of at_ (b :: data) = later (write_byte s at_ b).2 (stop_of (at_ + 1) data).
Proof.
  intros Hb. unfold stop_of, write_byte. rewrite !written_cons, (control_byte b Hb). cbv zeta.
  unfold RESET_REGISTER, PM1_CONTROL, PM1_ENABLE in *.
  destruct (Z.eqb_spec 6 at_) as [<-|]; [|destruct (Z.eqb_spec (4 + 1) at_) as [<-|]].
  - cbn. rewrite !written_before by lia.
    destruct (Z.eqb_spec b RESET_VALUE) as [->|]; [done|].
    by rewrite !bool_decide_false by congruence.
  - cbn. rewrite (written_before _ data 5) by lia. by destruct (bool_decide _).
  - rewrite (proj2 (Z.eqb_neq at_ 6)), (proj2 (Z.eqb_neq at_ (4 + 1))) by lia.
    by destruct (at_ =? 2), (at_ =? 2 + 1); cbn [fst snd andb]; rewrite later_none.
Qed.

Lemma write_loop_stop data s at_ stop :
  bytes_ok data -> 0 <= at_ -> at_ + zlen data < 2 ^ 16 ->
  (write_loop s at_ data stop).2 = later stop (stop_of at_ data).
Proof.
  intros Hd. revert s at_ stop. induction Hd as [|b data Hb Hd IH]; intros s at_ stop Ha Hn.
  { unfold stop_of. by rewrite !written_nil. }
  zsimp. zlen_pos. cbn [write_loop]. rewrite (stop_of_cons s at_ b data Hb).
  destruct (write_byte s at_ b) as [s' o]. fold (later stop o).
  rewrite u16_small by lia. rewrite IH by lia. apply later_assoc.
Qed.

(** ** The enable register *)

Definition pm_ok (s : PmRegisters) : Prop := 0 <= enable s < 2 ^ 16.

(** The enable register with its low or high byte replaced. *)
Lemma enable_low e b : 0 <= e < 2 ^ 16 -> byte_ok b -> Z.lor (Z.land e 0xff00) b = e / 256 * 256 + b.
Proof.
  intros He Hb. change 0xff00 with (Z.shiftl (Z.ones 8) 8). rewrite land_high_mask by lia.
  apply lor_shiftl_add; [lia|exact Hb].
Qed.

Lemma enable_high e b :
  0 <= e -> byte_ok b -> Z.lor (Z.land e 0x00ff) (u16 (Z.shiftl b 8)) = b * 256 + e mod 256.
Proof.
  intros He Hb. unfold byte_ok in Hb. rewrite u16_small; [|rewrite Z.shiftl_mul_pow2 by lia; lia].
  change 0xff with (Z.ones 8). rewrite Z.land_ones, Z.lor_comm by lia.
  apply lor_shiftl_add; [lia|]. apply Z.mod_pos_bound. lia.
Qed.

(** The enable value as a function of the bytes the write puts at its ports. *)
Definition enable_of (e offset : Z) (data : list Z) : Z :=
  default (e / 256) (written offset data (PM1_ENABLE + 1)) * 256
  + default (e mod 256) (written offset data PM1_ENABLE).

Lemma write_byte_enable s at_ b :
  pm_ok s -> byte_ok b ->
  enable (write_byte s at_ b).1 =
    (if at_ =? PM1_ENABLE + 1 then b else enable s / 256) * 256
    + (if at_ =? PM1_ENABLE then b else enable s mod 256).
Proof.
  intros Hs Hb. unfold write_byte. cbv zeta. unfold pm_ok, byte_ok in *. unfold PM1_ENABLE, PM1_CONTROL.
  destruct (Z.eqb_spec at_ 2) as [->|]; [cbn [fst enable]; by rewrite enable_low|].
  destruct (Z.eqb_spec at_ (2 + 1)) as [->|].
  { cbn [fst enable]. rewrite enable_high by (done || lia). done. }
  destruct (at_ =? 4 + 1); [|destruct (_ && _)]; cbn [fst]; zlia.
Qed.

Lemma write_byte_ok s at_ b : pm_ok s -> byte_ok b -> pm_ok (write_byte s at_ b).1.
Proof.
  intros Hs Hb. unfold pm_ok. rewrite write_byte_enable by done. unfold pm_ok, byte_ok in *.
  destruct (at_ =? PM1_ENABLE + 1), (at_ =? PM1_ENABLE); zlia.
Qed.

Lemma write_loop_enable data s at_ stop :
  bytes_ok data -> pm_ok s -> 0 <= at_ -> at_ + zlen data < 2 ^ 16 ->
  enable (write_loop s at_ data stop).1 = enable_of (enable s) at_ data /\
  pm_ok (write_loop s at_ data stop).1.
Proof.
  intros Hd. revert s at_ stop. induction Hd as [|b data Hb Hd IH]; intros s at_ stop Hs Ha Hn.
  { split; [|done]. unfold enable_of. rewrite !written_nil. cbn [write_loop fst default from_option id]. zlia. }
  zsimp. zlen_pos. cbn [write_loop]. pose proof (write_byte_enable s at_ b Hs Hb) as He.
  pose proof (write_byte_ok s at_ b Hs Hb) as Hok. destruct (write_byte s at_ b) as [s' o].
  cbn [fst] in *. rewrite u16_small by lia. destruct (IH s' (at_ + 1) (match o with Some _ => o | None => stop end)) as [-> ?];
    [done|lia|lia|]. split; [|done]. unfold enable_of. rewrite !written_cons, He.
  unfold byte_ok, pm_ok, PM1_ENABLE in *. set (hi := if at_ =? 2 + 1 then b else _).
  set (lo := if at_ =? 2 then b else _).
  assert (0 <= lo < 256) by (subst lo; destruct (at_ =? 2); zlia).
  replace ((hi * 256 + lo) / 256) with hi by zlia. replace ((hi * 256 + lo) mod 256) with lo by zlia.
  subst hi lo. rewrite !(Z.eqb_sym at_).
  destruct (Z.eqb_spec 2 at_) as [<-|]; [by rewrite (written_before _ _ 2) by lia|].
  destruct (Z.eqb_spec (2 + 1) at_) as [<-|]; [by rewrite !written_before by lia|done].
Qed.

Lemma to_bytes_eq s : to_bytes s = [0; 0] ++ le_bytes 2 (enable s) ++ [1; 0; 0].
Proof. reflexivity. Qed.

(** A guest's write stops the machine exactly when it should: with the reset
    value in the reset register, or with SLP_EN and sleep type S5 in the high
    byte of PM1 control; a reset wins over a power-off in the same write, and no
    other byte asks for a stop. The enable register takes the bytes written to
    it and keeps the others. *)
Theorem acpi_write_outcome (s : PmRegisters) (offset : Z) (data : list Z) :
  pm_ok s -> bytes_ok data -> 0 <= offset -> offset + zlen data < 2 ^ 16 ->
  (write s offset data).2 = stop_of offset data /\
  enable (write s offset data).1 = enable_of (enable s) offset data /\
  pm_ok (write s offset data).1.
Proof.
  intros Hs Hd Ho Hn. unfold write. rewrite write_loop_stop by done. split; [by destruct (stop_of _ _)|].
  by apply write_loop_enable.
Qed.

(** A read of the block returns, port by port, zero status, the enable
    register the guest last wrote, SCI_EN in PM1 control, and 0xff past the end;
    a 16-bit enable value reads back as written. *)
Lemma acpi_enable_roundtrip (s : PmRegisters) (v : Z) :
  0 <= v < 2 ^ 16 ->
  let s' := (write s PM1_ENABLE (le_bytes 2 v)).1 in
  pm_ok s ->
  le_val (read s' PM1_ENABLE 2) = v /\ read s' PM1_STATUS 2 = [0; 0] /\
  le_val (read s' PM1_CONTROL 2) = SCI_EN /\ read s' RESET_REGISTER 2 = [0; 0xff] /\
  (write s PM1_ENABLE (le_bytes 2 v)).2 = None.
Proof.
  intros Hv s' Hs. assert (enable s' = v) as E.
  { subst s'. unfold write. destruct (write_loop_enable (le_bytes 2 v) s PM1_ENABLE None) as [-> _];
      [apply le_bytes_ok|done|done|done|].
    change (v / 2 ^ 8 mod 2 ^ 8 * 256 + v mod 2 ^ 8 = v). zlia. }
  split; [|split; [done|split; [done|split; [done|]]]].
  - transitivity (le_val (le_bytes 2 (enable s'))); [reflexivity|]. rewrite E. by apply le_val_le_bytes.
  - unfold write. rewrite write_loop_stop; [done|apply le_bytes_ok|done|done].
Qed.

Lemma acpi_write_outcome_witness :
  (write (mkPm 0) 4 [0; 0x34]).2 = Some SystemOff /\ (write (mkPm 0) 5 [0x34; 1]).2 = Some SystemReset.
Proof.
  split.
  - rewrite (proj1 (acpi_write_outcome (mkPm 0) 4 [0; 0x34] ltac:(done) ltac:(by repeat constructor)
      ltac:(lia) ltac:(done))). reflexivity.
  - rewrite (proj1 (acpi_write_outcome (mkPm 0) 5 [0x34; 1] ltac:(done) ltac:(by repeat constructor)
      ltac:(lia) ltac:(done))). reflexivity.
Defined.
