(* ===== verification/Pl031.v ===== *)
(** * The PL031 RTC ([src/devices/legacy/rtc_pl031.rs])

    The register file is the crate [vm-superio]'s [Rtc], here a type class; the
    host's clock is an input of each access. *)

From S2P Require Import Prelude.
Local Open Scope Z_scope.

Definition DR : Z := 0x000.
Definition LR : Z := 0x008.
Definition CR : Z := 0x00c.

(** The crate's register file. A read takes the host's time in seconds since the
    epoch and panics before it, here [None]; [tick_offset] is what the load and
    control registers move. *)
Class Rtc (R : Type) := {
  rtc_new : R;
  rtc_read : R -> Z -> Z -> option (list Z);
  rtc_write : R -> Z -> list Z -> R;
  tick_offset : R -> Z;
}.

(** What the crate documents: the data register reads the host's seconds plus
    the offset, only that register reads the clock, reads fill 4 bytes, and only
    the load and control registers move the offset. *)
Class RtcLaws (R : Type) `{Rtc R} := {
  rtc_new_offset : tick_offset rtc_new = 0;
  rtc_read_dr : forall r now, 0 <= now -> rtc_read r DR now = Some (le_bytes 4 (now + tick_offset r));
  rtc_read_total : forall r off now, off <> DR \/ 0 <= now ->
    exists b, rtc_read r off now = Some b /\ length b = 4%nat /\ bytes_ok b;
  rtc_write_offset : forall r off b, off <> LR -> off <> CR -> tick_offset (rtc_write r off b) = tick_offset r;
}.

Section Pl031.
Context {R : Type} `{Rtc R}.

Record Pl031 := mkPl031 { rtc : R }.

Definition new : Pl031 := mkPl031 rtc_new.

(** [None] is the crate's panic. *)
Definition mmio (s : Pl031) (offset width : Z) (is_write : bool) (value now : Z) : option (Pl031 * Z) :=
  if negb (offset <? 2 ^ 16) then Some (s, 0)
  else if negb (width =? 4) then Some (s, 0)
  else if is_write then
    Some (if negb (offset =? LR) && negb (offset =? CR)
          then mkPl031 (rtc_write (rtc s) offset (le_bytes 4 (u32 value))) else s, 0)
  else if (offset =? DR) && (now <? 0) then Some (s, 0)
  else match rtc_read (rtc s) offset now with
  | None => None
  | Some buf => Some (s, le_val buf)
  end.

Record Access := mkAccess { off : Z; width : Z; is_write : bool; value : Z; now : Z }.

Fixpoint run (s : Pl031) (l : list Access) : option Pl031 :=
  match l with
  | [] => Some s
  | a :: l =>
      match mmio s (off a) (width a) (is_write a) (value a) (now a) with
      | None => None
      | Some (s, _) => run s l
      end
  end.

Context `{!RtcLaws R}.

Lemma mmio_total s a :
  exists s' v, mmio s (off a) (width a) (is_write a) (value a) (now a) = Some (s', v) /\
    tick_offset (rtc s') = tick_offset (rtc s) /\ 0 <= v < 2 ^ 32.
Proof.
  unfold mmio. destruct (negb (off a <? 2 ^ 16)); [by exists s, 0|].
  destruct (negb (width a =? 4)); [by exists s, 0|]. destruct (is_write a).
  - destruct (negb (off a =? LR) && negb (off a =? CR)) eqn:E; [|by exists s, 0].
    bool_hyps. eexists _, 0. split; [done|]. split; [by apply rtc_write_offset|lia].
  - destruct ((off a =? DR) && (now a <? 0)) eqn:E; [by exists s, 0|].
    destruct (rtc_read_total (rtc s) (off a) (now a)) as (b & -> & Hl & Hb).
    { apply andb_false_iff in E as [E|E]; bool_hyps; [by left|by right]. }
    exists s, (le_val b). split; [done|]. split; [done|].
    pose proof (le_val_range b Hb) as Hr. unfold zlen in Hr. by rewrite Hl in Hr.
Qed.

Lemma run_total l s : exists s', run s l = Some s' /\ tick_offset (rtc s') = tick_offset (rtc s).
Proof.
  revert s. induction l as [|a l IH]; intros s; simpl; [by exists s|].
  destruct (mmio_total s a) as (s1 & v & -> & E & _). destruct (IH s1) as (s' & -> & E').
  exists s'. split; [done|congruence].
Qed.

(** No session of guest accesses panics the RTC, even with the host's clock
    before 1970, and none moves it: a 32-bit read of the data register still
    returns the host's seconds, and 0 while the clock is before the epoch. *)
Theorem pl031_host_clock (l : list Access) (now v : Z) :
  now < 2 ^ 32 ->
  exists s, run new l = Some s /\
    mmio s DR 4 false v now = Some (s, Z.max 0 now).
Proof.
  intros Hn. destruct (run_total l new) as (s & E & Ho). exists s. split; [done|].
  unfold mmio. cbn. destruct (Z.ltb_spec now 0); [by rewrite Z.max_l by lia|].
  rewrite rtc_read_dr, Ho by lia. cbn [rtc new]. rewrite rtc_new_offset, Z.add_0_r, Z.max_r by lia.
  rewrite le_val_le_bytes; [done|]. change (8 * Z.of_nat 4) with 32. lia.
Qed.
End Pl031.
Arguments Pl031 : clear implicits.

(** A register file with an offset and a match register. *)
Record DemoRtc := mkDemoRtc { d_offset : Z; d_match : list Z }.
#[export] Instance DemoRtc_rtc : Rtc DemoRtc := {|
  rtc_new := mkDemoRtc 0 [0; 0; 0; 0];
  rtc_read r off now :=
    if off =? DR then (if 0 <=? now then Some (le_bytes 4 (now + d_offset r)) else None)
    else Some [0; 0; 0; 0];
  rtc_write r off b :=
    if off =? LR then mkDemoRtc (le_val b) (d_match r)
    else if off =? CR then mkDemoRtc 0 (d_match r)
    else mkDemoRtc (d_offset r) b;
  tick_offset := d_offset;
|}.
#[export] Instance DemoRtc_laws : RtcLaws DemoRtc.
Proof.
  split; cbn -[le_bytes].
  - done.
  - intros r now Hn. by rewrite (proj2 (Z.leb_le _ _) Hn).
  - intros r off now Hc. destruct (Z.eqb_spec off DR) as [->|].
    + destruct Hc as [|Hc]; [done|]. rewrite (proj2 (Z.leb_le _ _) Hc).
      eexists. split; [done|]. split; [apply length_le_bytes|apply le_bytes_ok].
    + eexists. split; [done|]. split; [done|]. by repeat constructor.
  - intros r off b ? ?. by rewrite !(proj2 (Z.eqb_neq _ _)).
Defined.

Lemma pl031_host_clock_witness :
  exists s, run (R := DemoRtc) new [mkAccess LR 4 true 7 (-3); mkAccess DR 4 false 0 (-3)] = Some s /\
    mmio s DR 4 false 0 1700000000 = Some (s, 1700000000).
Proof.
  exact (pl031_host_clock [mkAccess LR 4 true 7 (-3); mkAccess DR 4 false 0 (-3)] 1700000000 0 ltac:(lia)).
Defined.
