(* ===== verification/Virtio.v ===== *)
(** * What the virtio devices share ([src/devices/virtio/mod.rs], [mmio.rs])

    The register offsets of the virtio-mmio window, the events a device
    captures, the slot of its sink, and the trait [VirtioMmio] as a type class.
    [VirtioMmioLaws] states what a device promises to the bus that serves its
    window; the session theorem is proved against the laws, and each device's
    file discharges them. *)

From S2P Require Import Prelude Memory Irq.
Local Open Scope Z_scope.

(** The offsets, with the values of the kernel's [virtio_mmio.h]. *)
Module Mmio.
Definition MAGIC : Z := 0x000.
Definition VERSION : Z := 0x004.
Definition DEVICE_ID : Z := 0x008.
Definition VENDOR_ID : Z := 0x00c.
Definition DEVICE_FEATURES : Z := 0x010.
Definition DEVICE_FEATURES_SEL : Z := 0x014.
Definition DRIVER_FEATURES : Z := 0x020.
Definition DRIVER_FEATURES_SEL : Z := 0x024.
Definition QUEUE_SEL : Z := 0x030.
Definition QUEUE_NUM_MAX : Z := 0x034.
Definition QUEUE_NUM : Z := 0x038.
Definition QUEUE_READY : Z := 0x044.
Definition QUEUE_NOTIFY : Z := 0x050.
Definition INTERRUPT_STATUS : Z := 0x060.
Definition INTERRUPT_ACK : Z := 0x064.
Definition STATUS : Z := 0x070.
Definition QUEUE_DESC_LOW : Z := 0x080.
Definition QUEUE_DESC_HIGH : Z := 0x084.
Definition QUEUE_DRIVER_LOW : Z := 0x090.
Definition QUEUE_DRIVER_HIGH : Z := 0x094.
Definition QUEUE_DEVICE_LOW : Z := 0x0a0.
Definition QUEUE_DEVICE_HIGH : Z := 0x0a4.
Definition SHM_LEN_LOW : Z := 0x0b0.
Definition SHM_LEN_HIGH : Z := 0x0b4.
Definition SHM_BASE_LOW : Z := 0x0b8.
Definition SHM_BASE_HIGH : Z := 0x0bc.
Definition CONFIG : Z := 0x100.
End Mmio.

(** [events::CapturedEvent]. *)
Inductive CapturedEvent :=
  | EvBlock (disk : list Z) (lba len : Z) (write : bool)
  | EvNetFlow (proto : Z) (src : list Z) (src_port : Z) (dst : list Z) (dst_port bytes : Z)
      (dns sni : option (list Z)).

(** A call to a plugin's [IoSink]. *)
Inductive SinkCall := OnBlock (sector len disk_id : Z) (write : bool) | OnNet (frame : list Z) (egress : bool).

(** ** The sink slot: sinks are shared objects, named by their identity. *)
Record SinkSlot := mkSlot { sink : option Z; fed : option Z }.
Definition slot_default : SinkSlot := mkSlot None None.

Definition slot_set (s : SinkSlot) (k : Z) : SinkSlot := mkSlot (Some k) (fed s).

(** The slot, and the call made to the sink. *)
Definition feed (s : SinkSlot) (c : SinkCall) : SinkSlot * list (Z * SinkCall) :=
  match sink s with
  | None => (s, [])
  | Some k => (mkSlot (Some k) (match fed s with Some f => Some f | None => Some k end), [(k, c)])
  end.

Definition take_fed (s : SinkSlot) : SinkSlot * option Z := (mkSlot (sink s) None, fed s).

(** ** The trait *)

Class VirtioMmio (D : Type) := {
  dev_mmio : D -> GuestRam -> Z -> bool -> Z -> D * GuestRam * Z;
  dev_take_events : D -> D * list CapturedEvent;
  dev_take_fed_sink : D -> D * option Z;
}.

(** What a device promises the bus: an invariant that every access keeps; RAM
    whose bytes may change but never its layout; the interrupt line at the
    device's level after every access; a drain that empties what it returned;
    and a write of 0 to STATUS that leaves no interrupt pending. *)
Class VirtioMmioLaws (D L : Type) `{VirtioMmio D} `{IrqLineLaws L} := {
  dev_ok : GuestRam -> D -> Prop;
  dev_irq : D -> Irq L;
  dev_level : D -> bool;
  dev_ok_mapped : forall m m' d, mapped m' = mapped m -> dev_ok m d -> dev_ok m' d;
  dev_mmio_ok : forall d m o w v d' m' r,
    0 <= o < 2 ^ 64 -> 0 <= v < 2 ^ 64 -> ram_ok m -> dev_ok m d -> dev_mmio d m o w v = (d', m', r) ->
    dev_ok m' d' /\ ram_ok m' /\ mapped m' = mapped m;
  dev_mmio_line : forall d m o w v d' m' r,
    ram_ok m -> dev_ok m d -> dev_mmio d m o w v = (d', m', r) ->
    exists i, sets (dev_irq d) i /\ dev_irq d' = set i (dev_level d');
  dev_take_events_twice : forall d d' l, dev_take_events d = (d', l) -> (dev_take_events d').2 = [];
  dev_reset_level : forall d m v d' m' r,
    u32 v = 0 -> dev_mmio d m Mmio.STATUS true v = (d', m', r) -> dev_level d' = false;
}.

(** One access of the guest to the window. *)
Record MmioAccess := mkMmio { a_offset : Z; a_write : bool; a_value : Z }.
Definition mmio_access_ok (a : MmioAccess) : Prop := 0 <= a_offset a < 2 ^ 64 /\ 0 <= a_value a < 2 ^ 64.

Section Bus.
Context {D L : Type} `{VirtioMmioLaws D L}.

(** RAM is shared: the session runs on it, and the guest may rewrite its bytes
    between accesses, which [touch] stands for. *)
Inductive BusStep : D * GuestRam -> D * GuestRam -> Prop :=
  | BusAccess d m a d' m' r :
      mmio_access_ok a -> dev_mmio d m (a_offset a) (a_write a) (a_value a) = (d', m', r) ->
      BusStep (d, m) (d', m')
  | BusGuestStore d m g data m' :
      bytes_ok data -> write m g data = Some m' -> BusStep (d, m) (d, m').

Lemma bus_access_once d m o w v :
  0 <= o < 2 ^ 64 -> 0 <= v < 2 ^ 64 ->
  rtc BusStep (d, m) ((dev_mmio d m o w v).1.1, (dev_mmio d m o w v).1.2).
Proof.
  intros Ho Hv. apply rtc_once. destruct (dev_mmio d m o w v) as [[d' m'] r] eqn:E.
  by apply (BusAccess _ _ (mkMmio o w v) _ _ r).
Qed.

Lemma bus_step_ok s s' :
  BusStep s s' -> ram_ok s.2 -> dev_ok s.2 s.1 ->
  ram_ok s'.2 /\ dev_ok s'.2 s'.1 /\ mapped s'.2 = mapped s.2.
Proof.
  intros Hs Hr Hd. destruct Hs as [d m a d' m' r [Ho Hv] E|d m g data m' Hb E]; simpl in *.
  - destruct (dev_mmio_ok _ _ _ _ _ _ _ _ Ho Hv Hr Hd E) as (? & ? & ?). done.
  - split; [by eapply write_ram_ok|]. assert (mapped m' = mapped m) by (by eapply write_mapped).
    split; [by eapply dev_ok_mapped|done].
Qed.

Lemma bus_steps_ok s s' :
  rtc BusStep s s' -> ram_ok s.2 -> dev_ok s.2 s.1 ->
  ram_ok s'.2 /\ dev_ok s'.2 s'.1 /\ mapped s'.2 = mapped s.2.
Proof.
  induction 1 as [s|s1 s2 s3 Hs _ IH]; intros Hr Hd; [done|].
  destruct (bus_step_ok _ _ Hs Hr Hd) as (Hr2 & Hd2 & Em). destruct (IH Hr2 Hd2) as (? & ? & ?).
  split; [done|]. split; [done|congruence].
Qed.

Lemma bus_step_line s s' :
  reliable (L := L) -> BusStep s s' -> ram_ok s.2 -> dev_ok s.2 s.1 ->
  line_at (dev_irq s.1) (dev_level s.1) -> line_at (dev_irq s'.1) (dev_level s'.1).
Proof.
  intros Hr Hs Hm Hd (Hi & Hl & Hh). destruct Hs as [d m a d' m' r _ E|]; simpl in *; [|by split].
  destruct (dev_mmio_line _ _ _ _ _ _ _ _ Hm Hd E) as (i & Hs & ->).
  destruct (sets_ok _ _ Hs Hi Hl). by apply set_line_at.
Qed.

Lemma bus_steps_line s s' :
  reliable (L := L) -> rtc BusStep s s' -> ram_ok s.2 -> dev_ok s.2 s.1 ->
  line_at (dev_irq s.1) (dev_level s.1) -> line_at (dev_irq s'.1) (dev_level s'.1).
Proof.
  intros Hr. induction 1 as [s|s1 s2 s3 Hs _ IH]; intros Hm Hd Hl; [done|].
  destruct (bus_step_ok _ _ Hs Hm Hd) as (? & ? & _). apply IH; [done..|]. by eapply bus_step_line.
Qed.
End Bus.

(** A session on any virtio device that keeps the interface's laws, its
    accesses interleaved with whatever the guest stores to RAM: the device's
    invariant holds throughout, RAM keeps its layout, the interrupt line is at
    the device's level after every step, and a reset leaves the line low. *)
Theorem virtio_session_safe {D L : Type} `{VirtioMmioLaws D L} (d : D) (m : GuestRam) (d' : D) (m' : GuestRam) :
  reliable (L := L) -> ram_ok m -> dev_ok m d -> line_at (dev_irq d) (dev_level d) ->
  rtc BusStep (d, m) (d', m') ->
  ram_ok m' /\ dev_ok m' d' /\ mapped m' = mapped m /\ line_at (dev_irq d') (dev_level d') /\
  (forall d2 m2 r, dev_mmio d' m' Mmio.STATUS true 0 = (d2, m2, r) -> line_at (dev_irq d2) false).
Proof.
  intros Hr Hm Hd Hl Hs. destruct (bus_steps_ok _ _ Hs Hm Hd) as (Hm' & Hd' & Em).
  pose proof (bus_steps_line _ _ Hr Hs Hm Hd Hl) as Hl'. simpl in *. repeat (split; [done|]).
  intros d2 m2 r E. rewrite <-(dev_reset_level _ _ 0 _ _ _ eq_refl E).
  apply (bus_step_line (d', m') (d2, m2) Hr); [|done|done|exact Hl'].
  by apply (BusAccess _ _ (mkMmio Mmio.STATUS true 0) _ _ r).
Qed.
