(* ===== verification/Block.v ===== *)
(** * The block device ([src/devices/virtio/block.rs])

    The backing file is the host's, a type class [BackingFile] with what
    positioned reads and writes promise as [BackingFileLaws]. A request's error
    is a value, and the RAM it changed before the error stays changed. The
    console trace is left out: it only writes to stderr. *)

From S2P Require Import Prelude Memory Irq Queue RingView Virtio.
Local Open Scope Z_scope.

Definition MAGIC_VALUE : Z := 0x74726976.
Definition VIRTIO_BLK_ID : Z := 2.
Definition VENDOR : Z := 0x46494f4e.
Definition F_VERSION_1_HI : Z := Z.shiftl 1 (32 - 32).
Definition F_BLK_FLUSH_LO : Z := Z.shiftl 1 9.
Definition F_BLK_RO_LO : Z := Z.shiftl 1 5.
Definition VIRTIO_BLK_T_IN : Z := 0.
Definition VIRTIO_BLK_T_OUT : Z := 1.
Definition VIRTIO_BLK_T_FLUSH : Z := 4.
Definition VIRTIO_BLK_T_GET_ID : Z := 8.
Definition SERIAL_LEN : Z := 20.
Definition VIRTIO_BLK_S_OK : Z := 0.
Definition VIRTIO_BLK_S_IOERR : Z := 1.
Definition VIRTIO_BLK_S_UNSUPP : Z := 2.
Definition SECTOR : Z := 512.

(** The host's file: the bytes read, and whether a write or a sync went through. *)
Class BackingFile (F : Type) := {
  read_exact_at : F -> Z -> Z -> option (list Z);
  write_all_at : F -> list Z -> Z -> F * bool;
  sync_data : F -> F * bool;
  file_len : F -> Z;
  file_byte : F -> Z -> Z;
}.

(** What the host promises: a read returns the file's bytes, a write changes no
    byte outside its range and, when it succeeds, stores its buffer; a write
    inside the file keeps its length; a sync changes no byte. *)
Class BackingFileLaws (F : Type) `{BackingFile F} := {
  file_byte_ok : forall f i, byte_ok (file_byte f i);
  read_exact_bytes : forall f n off bs, 0 <= n -> read_exact_at f n off = Some bs ->
    bs = (fun i => file_byte f (off + i)) <$> seqZ 0 n;
  write_all_outside : forall f bs off i, i < off \/ off + zlen bs <= i ->
    file_byte (write_all_at f bs off).1 i = file_byte f i;
  write_all_bytes : forall f bs off i, bytes_ok bs -> (write_all_at f bs off).2 = true -> 0 <= i < zlen bs ->
    get_at bs i = Some (file_byte (write_all_at f bs off).1 (off + i));
  write_all_len : forall f bs off, off + zlen bs <= file_len f ->
    file_len (write_all_at f bs off).1 = file_len f;
  sync_data_byte : forall f i, file_byte (sync_data f).1 i = file_byte f i;
  sync_data_len : forall f, file_len (sync_data f).1 = file_len f;
}.

(** [store_id]: [u64::rotate_left(32)] of the device number, xor the inode. *)
Definition rotate_left_32 (v : Z) : Z := Z.lor (u64 (Z.shiftl v 32)) (Z.shiftr v 32).
Definition store_id (block_device : bool) (dev ino rdev : Z) : Z :=
  if block_device then rdev else Z.lxor (rotate_left_32 dev) ino.

(** A guest segment: address and length. *)
Definition Seg : Type := Z * Z.

Definition total (segs : list Seg) : Z := foldr (fun s t => s.2 + t) 0 segs.

(** [scatter]: the RAM so far, and the bytes written or an error. *)
Fixpoint scatter_loop (m : GuestRam) (segs : list Seg) (src : list Z) (written : Z)
    : GuestRam * option Z :=
  match segs with
  | [] => (m, Some written)
  | (addr, len) :: segs =>
      let n := Z.min len (zlen src) in
      match write m addr (take (Z.to_nat n) src) with
      | None => (m, None)
      | Some m => scatter_loop m segs (drop (Z.to_nat n) src) (u32 (written + u32 n))
      end
  end.
Definition scatter (m : GuestRam) (segs : list Seg) (src : list Z) : GuestRam * option Z :=
  scatter_loop m segs src 0.

(** The gathering loop of a write: the buffer, or the first read that fails. *)
Fixpoint gather (m : GuestRam) (segs : list Seg) : option (list Z) :=
  match segs with
  | [] => Some []
  | (a, l) :: segs =>
      bs ← read m a l;
      rest ← gather m segs;
      Some (bs ++ rest)
  end.

(** The descriptor walk of [handle_chain]: readable and writable segments. *)
Fixpoint walk (fuel : nat) (q : Queue) (m : GuestRam) (d : Z) : list Seg * list Seg :=
  match fuel with
  | O => ([], [])
  | S fuel =>
      match desc_addr q d with
      | None => ([], [])
      | Some da =>
          match read_desc m da with
          | None => ([], [])
          | Some e =>
              let '(r, w) :=
                if Z.land (d_flags e) VIRTQ_DESC_F_NEXT =? 0 then ([], [])
                else walk fuel q m (d_next e) in
              if negb (Z.land (d_flags e) VIRTQ_DESC_F_WRITE =? 0)
              then (r, (d_addr e, d_len e) :: w) else ((d_addr e, d_len e) :: r, w)
          end
      end
  end.

(** The segments between the header or the start and the status byte. *)
Definition but_last {A} (l : list A) : list A := take (length l - 1) l.

Section Block.
Context {F L : Type} `{BackingFile F} `{IrqLine L}.

Record VirtioBlk := mkBlk {
  file : F; capacity_sectors : Z; status : Z; dev_feat_sel : Z; queue : Queue;
  interrupt_status : Z; irq : Irq L; events : list CapturedEvent; sink : SinkSlot;
  disk_id : Z; read_only : bool; serial : list Z; serial_text : list Z;
  (** The calls made to the sink, in order. *)
  sink_calls : list (Z * SinkCall) }.

(** What [open_as] builds once the file is open and locked. *)
Definition opened (f : F) (id : Z) (ro : bool) (text : list Z) : VirtioBlk :=
  mkBlk f (file_len f / SECTOR) 0 0 queue_default 0 irq_default [] slot_default id ro
    (text ++ replicate (Z.to_nat SERIAL_LEN - length text) 0) text [].

(** [open_as] on a file the host opened and locked, or refused. *)
Definition open_as (host : option F) (id : Z) (ro : bool) (text : list Z) : option VirtioBlk :=
  if SERIAL_LEN <? zlen text then None
  else match host with None => None | Some f => Some (opened f id ro text) end.

Definition with_file (b : VirtioBlk) (f : F) : VirtioBlk :=
  mkBlk f (capacity_sectors b) (status b) (dev_feat_sel b) (queue b) (interrupt_status b) (irq b)
    (events b) (sink b) (disk_id b) (read_only b) (serial b) (serial_text b) (sink_calls b).
Definition with_queue (b : VirtioBlk) (q : Queue) : VirtioBlk :=
  mkBlk (file b) (capacity_sectors b) (status b) (dev_feat_sel b) q (interrupt_status b) (irq b)
    (events b) (sink b) (disk_id b) (read_only b) (serial b) (serial_text b) (sink_calls b).
Definition with_regs (b : VirtioBlk) (st sel ist : Z) : VirtioBlk :=
  mkBlk (file b) (capacity_sectors b) st sel (queue b) ist (irq b)
    (events b) (sink b) (disk_id b) (read_only b) (serial b) (serial_text b) (sink_calls b).
Definition with_irq (b : VirtioBlk) (i : Irq L) : VirtioBlk :=
  mkBlk (file b) (capacity_sectors b) (status b) (dev_feat_sel b) (queue b) (interrupt_status b) i
    (events b) (sink b) (disk_id b) (read_only b) (serial b) (serial_text b) (sink_calls b).
Definition with_capture (b : VirtioBlk) (ev : list CapturedEvent) (s : SinkSlot)
    (calls : list (Z * SinkCall)) : VirtioBlk :=
  mkBlk (file b) (capacity_sectors b) (status b) (dev_feat_sel b) (queue b) (interrupt_status b)
    (irq b) ev s (disk_id b) (read_only b) (serial b) (serial_text b) calls.

Definition set_io_sink (b : VirtioBlk) (k : Z) : VirtioBlk :=
  with_capture b (events b) (slot_set (sink b) k) (sink_calls b).

Definition irq_level (b : VirtioBlk) : bool := negb (interrupt_status b =? 0).

Definition connect_irq (b : VirtioBlk) (l : L) : VirtioBlk := with_irq b (connect (irq b) l).

Definition sync_irq (b : VirtioBlk) : VirtioBlk := with_irq b (set (irq b) (irq_level b)).

Definition take_events (b : VirtioBlk) : VirtioBlk * list CapturedEvent :=
  (with_capture b [] (sink b) (sink_calls b), events b).

Definition take_fed_sink (b : VirtioBlk) : VirtioBlk * option Z :=
  let '(s, k) := take_fed (sink b) in (with_capture b (events b) s (sink_calls b), k).

Definition features_lo (b : VirtioBlk) : Z :=
  if read_only b then Z.lor F_BLK_FLUSH_LO F_BLK_RO_LO else F_BLK_FLUSH_LO.

Definition reset (b : VirtioBlk) : VirtioBlk :=
  with_regs (with_queue b (Queue.reset (queue b))) 0 0 0.

Definition byte_range (b : VirtioBlk) (sector len : Z) : option Z :=
  base ← checked_mul sector SECTOR;
  end_ ← checked_add base len;
  if u64 (capacity_sectors b * SECTOR) <? end_ then None else Some base.

(** The outcome of a request's work: the status byte, the bytes the device wrote
    and the data bytes moved, or an error. *)
Inductive Work := Done (st device_written data_bytes : Z) | Failed.

(** The [match typ] of [handle_request]. *)
Definition do_request (b : VirtioBlk) (m : GuestRam) (typ sector : Z) (readable writable : list Seg)
    : VirtioBlk * GuestRam * Work :=
  if typ =? VIRTIO_BLK_T_IN then
    let segs := but_last writable in
    match byte_range b sector (total segs) with
    | None => (b, m, Failed)
    | Some base =>
        match read_exact_at (file b) (total segs) base with
        | None => (b, m, Failed)
        | Some buf =>
            match scatter m segs buf with
            | (m, None) => (b, m, Failed)
            | (m, Some w) => (b, m, Done VIRTIO_BLK_S_OK w (total segs))
            end
        end
    end
  else if (typ =? VIRTIO_BLK_T_OUT) && read_only b then (b, m, Done VIRTIO_BLK_S_IOERR 0 0)
  else if (typ =? VIRTIO_BLK_T_FLUSH) && read_only b then (b, m, Done VIRTIO_BLK_S_OK 0 0)
  else if typ =? VIRTIO_BLK_T_OUT then
    let segs := drop 1 readable in
    match byte_range b sector (total segs) with
    | None => (b, m, Failed)
    | Some base =>
        match gather m segs with
        | None => (b, m, Failed)
        | Some buf =>
            match write_all_at (file b) buf base with
            | (f, false) => (with_file b f, m, Failed)
            | (f, true) => (with_file b f, m, Done VIRTIO_BLK_S_OK 0 (total segs))
            end
        end
    end
  else if typ =? VIRTIO_BLK_T_FLUSH then
    match sync_data (file b) with
    | (f, false) => (with_file b f, m, Failed)
    | (f, true) => (with_file b f, m, Done VIRTIO_BLK_S_OK 0 0)
    end
  else if typ =? VIRTIO_BLK_T_GET_ID then
    match scatter m (but_last writable) (serial b) with
    | (m, None) => (b, m, Failed)
    | (m, Some w) => (b, m, Done VIRTIO_BLK_S_OK w 0)
    end
  else (b, m, Done VIRTIO_BLK_S_UNSUPP 0 0).

(** The record of a read or write that went through, to the ledger and the sink. *)
Definition capture (b : VirtioBlk) (typ sector st data_bytes : Z) : VirtioBlk :=
  if (st =? VIRTIO_BLK_S_OK) && ((typ =? VIRTIO_BLK_T_IN) || (typ =? VIRTIO_BLK_T_OUT)) then
    let write := typ =? VIRTIO_BLK_T_OUT in
    let '(s, calls) := feed (sink b) (OnBlock sector data_bytes (disk_id b) write) in
    with_capture b (events b ++ [EvBlock (serial_text b) sector data_bytes write]) s
      (sink_calls b ++ calls)
  else b.

(** [handle_request]: the used length, or an error. *)
Definition handle_request (b : VirtioBlk) (m : GuestRam) (readable writable : list Seg)
    : VirtioBlk * GuestRam * option Z :=
  let haddr := (default (0, 0) (head readable)).1 in
  match read_u32 m haddr with
  | None => (b, m, None)
  | Some typ =>
      match read_u64 m (add64 haddr 8) with
      | None => (b, m, None)
      | Some sector =>
          match do_request b m typ sector readable writable with
          | (b, m, Failed) => (b, m, None)
          | (b, m, Done st w data_bytes) =>
              let saddr := (default (0, 0) (last writable)).1 in
              match write_u8 m saddr st with
              | None => (b, m, None)
              | Some m => (capture b typ sector st data_bytes, m, Some (u32 (w + 1)))
              end
          end
      end
  end.

Definition handle_chain (b : VirtioBlk) (m : GuestRam) (head : Z) : VirtioBlk * GuestRam * Z :=
  let '(readable, writable) := walk (Z.to_nat (size (queue b))) (queue b) m head in
  if bool_decide (readable = []) || bool_decide (writable = []) then (b, m, 0)
  else
    let saddr := (default (0, 0) (last writable)).1 in
    match handle_request b m readable writable with
    | (b, m, Some w) => (b, m, w)
    | (b, m, None) => (b, ignore m (write_u8 m saddr VIRTIO_BLK_S_IOERR), 1)
    end.

(** The loop of [process_queue], [n] chains from index [lst]. *)
Fixpoint serve_chains (n : nat) (b : VirtioBlk) (m : GuestRam) (lst : Z) (serviced : bool)
    : VirtioBlk * GuestRam * Z * bool :=
  match n with
  | O => (b, m, lst, serviced)
  | S n =>
      match avail_slot (queue b) lst with
      | None => (b, m, lst, serviced)
      | Some slot =>
          match read_u16 m slot with
          | None => (b, m, lst, serviced)
          | Some head =>
              let '(b, m, used_len) := handle_chain b m head in
              let m := push_used (queue b) m head used_len in
              serve_chains n b m (u16 (lst + 1)) true
          end
      end
  end.

Definition process_queue (b : VirtioBlk) (m : GuestRam) : VirtioBlk * GuestRam :=
  if negb (is_ready (queue b)) then (b, m)
  else match pending (queue b) m with
  | None => (b, m)
  | Some n =>
      let '(b, m, lst, serviced) := serve_chains (Z.to_nat n) b m (last_avail (queue b)) false in
      let b := with_queue b (set_last_avail (queue b) lst) in
      (if serviced then with_regs b (status b) (dev_feat_sel b) (Z.lor (interrupt_status b) 1) else b, m)
  end.

(** The 8-byte window of the capacity at [field]. *)
Definition config_window (b : VirtioBlk) (field : Z) : Z :=
  le_val ((fun i => default 0 (get_at (le_bytes 8 (capacity_sectors b)) (field + i))) <$> seqZ 0 8).

Definition serve_write (b : VirtioBlk) (m : GuestRam) (offset v : Z) : VirtioBlk * GuestRam :=
  let q := queue b in
  if offset =? Mmio.DEVICE_FEATURES_SEL then (with_regs b (status b) v (interrupt_status b), m)
  else if (offset =? Mmio.DRIVER_FEATURES_SEL) || (offset =? Mmio.DRIVER_FEATURES) then (b, m)
  else if offset =? Mmio.QUEUE_SEL then (b, m)
  else if offset =? Mmio.QUEUE_NUM then (with_queue b (set_num q v), m)
  else if offset =? Mmio.QUEUE_READY then (with_queue b (set_ready q v m), m)
  else if offset =? Mmio.QUEUE_NOTIFY then process_queue b m
  else if offset =? Mmio.INTERRUPT_ACK then
    (with_regs b (status b) (dev_feat_sel b) (Z.ldiff (interrupt_status b) v), m)
  else if (offset =? Mmio.STATUS) && (v =? 0) then (reset b, m)
  else if offset =? Mmio.STATUS then (with_regs b v (dev_feat_sel b) (interrupt_status b), m)
  else if offset =? Mmio.QUEUE_DESC_LOW then (with_queue b (set_desc_lo q v), m)
  else if offset =? Mmio.QUEUE_DESC_HIGH then (with_queue b (set_desc_hi q v), m)
  else if offset =? Mmio.QUEUE_DRIVER_LOW then (with_queue b (set_avail_lo q v), m)
  else if offset =? Mmio.QUEUE_DRIVER_HIGH then (with_queue b (set_avail_hi q v), m)
  else if offset =? Mmio.QUEUE_DEVICE_LOW then (with_queue b (set_used_lo q v), m)
  else if offset =? Mmio.QUEUE_DEVICE_HIGH then (with_queue b (set_used_hi q v), m)
  else (b, m).

Definition serve_read (b : VirtioBlk) (offset : Z) : Z :=
  if offset =? Mmio.MAGIC then MAGIC_VALUE
  else if offset =? Mmio.VERSION then 2
  else if offset =? Mmio.DEVICE_ID then VIRTIO_BLK_ID
  else if offset =? Mmio.VENDOR_ID then VENDOR
  else if (offset =? Mmio.DEVICE_FEATURES) && (dev_feat_sel b =? 0) then features_lo b
  else if (offset =? Mmio.DEVICE_FEATURES) && (dev_feat_sel b =? 1) then F_VERSION_1_HI
  else if offset =? Mmio.QUEUE_NUM_MAX then QUEUE_NUM_MAX
  else if offset =? Mmio.QUEUE_READY then Z.b2z (is_ready (queue b))
  else if offset =? Mmio.INTERRUPT_STATUS then interrupt_status b
  else if offset =? Mmio.STATUS then status b
  else if Mmio.CONFIG <=? offset then config_window b (offset - Mmio.CONFIG)
  else 0.

Definition serve_mmio (b : VirtioBlk) (m : GuestRam) (offset : Z) (is_write : bool) (value : Z)
    : VirtioBlk * GuestRam * Z :=
  if is_write then let '(b, m) := serve_write b m offset (u32 value) in (b, m, 0)
  else (b, m, serve_read b offset).

Definition mmio (b : VirtioBlk) (m : GuestRam) (offset : Z) (is_write : bool) (value : Z)
    : VirtioBlk * GuestRam * Z :=
  let '(b, m, read) := serve_mmio b m offset is_write value in (sync_irq b, m, read).
End Block.
Arguments VirtioBlk : clear implicits.

#[export] Instance VirtioBlk_mmio {F L} `{BackingFile F} `{IrqLine L} : VirtioMmio (VirtioBlk F L) := {|
  dev_mmio := mmio; dev_take_events := take_events; dev_take_fed_sink := take_fed_sink |}.

(** ** Segments *)

Definition seg_ok (s : Seg) : Prop := 0 <= s.1 < 2 ^ 64 /\ 0 <= s.2 < 2 ^ 32.

Lemma total_cons s segs : total (s :: segs) = s.2 + total segs.
Proof. done. Qed.

Lemma total_nonneg segs : Forall seg_ok segs -> 0 <= total segs.
Proof. induction 1 as [|s segs [_ ?] _ IH]; [done|]. rewrite total_cons. lia. Qed.

Lemma scatter_loop_evolves segs m src w m' r :
  bytes_ok src -> scatter_loop m segs src w = (m', r) -> ram_evolves m m'.
Proof.
  revert m src w. induction segs as [|[a l] segs IH]; intros m src w Hs; cbn [scatter_loop].
  { intros. simplify_eq. done. }
  destruct (write m a (take _ src)) as [m1|] eqn:E; [|intros; by simplify_eq].
  intros H. etrans; [eapply write_evolves; [|exact E]; auto with hvi|].
  eapply IH; [|exact H]. auto with hvi.
Qed.

Lemma scatter_evolves segs m src m' r :
  bytes_ok src -> scatter m segs src = (m', r) -> ram_evolves m m'.
Proof. apply scatter_loop_evolves. Qed.

(** ** Confinement: what any operation leaves of the disk *)

Section Confined.
Context {F L : Type} `{BackingFileLaws F} `{IrqLine L}.
Implicit Types b : VirtioBlk F L.

Record confined b b' : Prop := {
  c_capacity : capacity_sectors b' = capacity_sectors b;
  c_read_only : read_only b' = read_only b;
  c_serial : serial b' = serial b;
  c_file : read_only b = true -> file b' = file b;
  c_outside : forall i, capacity_sectors b * SECTOR <= i \/ i < 0 ->
    file_byte (file b') i = file_byte (file b) i;
  c_len : capacity_sectors b * SECTOR <= file_len (file b) ->
    file_len (file b') = file_len (file b);
}.

#[export] Instance confined_preorder : PreOrder confined.
Proof.
  split; [by split|]. intros b1 b2 b3 [C1 R1 S1 F1 O1 N1] [C2 R2 S2 F2 O2 N2].
  rewrite C1, R1 in *. split; try congruence.
  - intros Hr. rewrite F2, F1; done.
  - intros i Hi. rewrite O2, O1; done.
  - intros Hl. pose proof (N1 Hl) as E. rewrite N2; [done|]. by rewrite E.
Qed.

(** What a request leaves alone besides. *)
Record same_regs b b' : Prop := {
  s_queue : queue b' = queue b;
  s_interrupt : interrupt_status b' = interrupt_status b;
  s_irq : irq b' = irq b;
}.
#[export] Instance same_regs_preorder : PreOrder same_regs.
Proof. split; [by split|]. intros b1 b2 b3 [] []. split; congruence. Qed.

Definition disk_ok b : Prop :=
  0 <= capacity_sectors b /\ capacity_sectors b * SECTOR < 2 ^ 64 /\ bytes_ok (serial b).

Lemma confined_disk_ok b b' : confined b b' -> disk_ok b -> disk_ok b'.
Proof. intros [E _ S _ _ _]. unfold disk_ok. by rewrite E, S. Qed.

Lemma byte_range_Some b sector len base :
  disk_ok b -> 0 <= sector -> 0 <= len -> byte_range b sector len = Some base ->
  base = sector * SECTOR /\ 0 <= base /\ base + len <= capacity_sectors b * SECTOR.
Proof.
  intros (Hc & Hc' & _) Hs Hl Hb. unfold byte_range in Hb. unfold SECTOR in *.
  apply bind_Some in Hb as (x & [-> ?]%checked_mul_Some & Hb).
  apply bind_Some in Hb as (e & [-> ?]%checked_add_Some & Hb).
  rewrite u64_small in Hb by lia. revert Hb. guards; [done|]. intros. simplify_eq. lia.
Qed.

Lemma byte_range_iff b sector len :
  disk_ok b -> 0 <= sector -> 0 <= len ->
  byte_range b sector len =
    if sector * SECTOR + len <=? capacity_sectors b * SECTOR then Some (sector * SECTOR) else None.
Proof.
  intros Hd Hs Hl. destruct (byte_range b sector len) as [x|] eqn:E.
  - destruct (byte_range_Some b sector len x Hd Hs Hl E) as (-> & ? & ?).
    by rewrite (proj2 (Z.leb_le _ _)).
  - destruct (Z.leb_spec (sector * SECTOR + len) (capacity_sectors b * SECTOR)); [|done].
    destruct Hd as (? & ? & _). unfold byte_range, checked_mul, checked_add, SECTOR in *. cbn in E.
    rewrite (proj2 (Z.ltb_lt _ _)) in E by lia. cbn in E.
    rewrite (proj2 (Z.ltb_lt _ _)) in E by lia. cbn in E.
    rewrite u64_small, (proj2 (Z.ltb_ge _ _)) in E by lia. done.
Qed.

Lemma gather_length m segs bs : ram_ok m -> Forall seg_ok segs -> gather m segs = Some bs ->
  zlen bs = total segs /\ bytes_ok bs.
Proof.
  intros Hm Hs. revert bs. induction Hs as [|[a l] segs [_ Hl] _ IH]; intros bs; cbn [gather].
  { intros [= <-]. split; [done|constructor]. }
  intros (x & Hx & (r & Hr & [= <-])%bind_Some)%bind_Some.
  destruct (read_ok m a l x Hm) as (Ex & Hb & _); [simpl in Hl; lia|done|].
  destruct (IH r Hr) as [Er Hbr]. rewrite zlen_app, Ex, Er. split; [done|].
  by apply bytes_ok_app.
Qed.

Lemma read_exact_ok (f : F) n off bs : 0 <= n -> read_exact_at f n off = Some bs ->
  bytes_ok bs /\ zlen bs = n.
Proof.
  intros Hn E. apply read_exact_bytes in E as ->; [|done]. split.
  - apply Forall_fmap, Forall_forall. intros i _. apply file_byte_ok.
  - rewrite zlen_fmap. by apply zlen_seqZ.
Qed.

Lemma with_file_confined b f :
  read_only b = false ->
  (forall i, capacity_sectors b * SECTOR <= i \/ i < 0 -> file_byte f i = file_byte (file b) i) ->
  (capacity_sectors b * SECTOR <= file_len (file b) -> file_len f = file_len (file b)) ->
  confined b (with_file b f).
Proof. intros Hr Ho Hl. split; try done. simpl. by rewrite Hr. Qed.

Lemma write_file_confined b sector buf base :
  disk_ok b -> read_only b = false -> 0 <= sector -> byte_range b sector (zlen buf) = Some base ->
  confined b (with_file b (write_all_at (file b) buf base).1).
Proof.
  intros Hd Hr Hs E. destruct (byte_range_Some b sector _ base Hd Hs (zlen_nonneg _) E) as (_ & ? & ?).
  apply with_file_confined; [done| |].
  - intros i Hi. apply write_all_outside. lia.
  - intros Hl. apply write_all_len. lia.
Qed.

Lemma do_request_frame b m typ sector readable writable b' m' w :
  disk_ok b -> ram_ok m -> 0 <= sector -> Forall seg_ok readable -> Forall seg_ok writable ->
  do_request b m typ sector readable writable = (b', m', w) ->
  confined b b' /\ same_regs b b' /\ ram_evolves m m'.
Proof.
  intros Hd Hm Hs Hr Hw. pose proof Hd as (_ & _ & Hser).
  assert (Forall seg_ok (but_last writable)) as Hbl by (by apply Forall_take).
  assert (Forall seg_ok (drop 1 readable)) as Hdr by (by apply Forall_drop).
  unfold do_request. destruct (typ =? VIRTIO_BLK_T_IN).
  { destruct (byte_range b sector _) as [base|]; [|intros; by simplify_eq].
    destruct (read_exact_at _ _ _) as [buf|] eqn:Er; [|intros; by simplify_eq].
    destruct (read_exact_ok _ _ _ _ (total_nonneg _ Hbl) Er) as [Hbuf _].
    destruct (scatter m _ buf) as [m1 r] eqn:Esc. apply scatter_evolves in Esc; [|done].
    destruct r; intros; by simplify_eq. }
  destruct ((typ =? VIRTIO_BLK_T_OUT) && read_only b) eqn:Ero1; [intros; by simplify_eq|].
  destruct ((typ =? VIRTIO_BLK_T_FLUSH) && read_only b) eqn:Ero2; [intros; by simplify_eq|].
  destruct (typ =? VIRTIO_BLK_T_OUT).
  { destruct (byte_range b sector _) as [base|] eqn:Eb; [|intros; by simplify_eq].
    destruct (gather m _) as [buf|] eqn:Eg; [|intros; by simplify_eq].
    destruct (gather_length _ _ _ Hm Hdr Eg) as [El _]. rewrite <-El in Eb.
    pose proof (write_file_confined b sector buf base Hd Ero1 Hs Eb) as Hc.
    destruct (write_all_at (file b) buf base) as [f []]; intros; by simplify_eq. }
  destruct (typ =? VIRTIO_BLK_T_FLUSH).
  { assert (confined b (with_file b (sync_data (file b)).1)) as Hc.
    { apply with_file_confined; [done| |]; intros; [apply sync_data_byte|apply sync_data_len]. }
    destruct (sync_data (file b)) as [f []]; intros; by simplify_eq. }
  destruct (typ =? VIRTIO_BLK_T_GET_ID); [|intros; by simplify_eq].
  destruct (scatter m _ (serial b)) as [m1 r] eqn:Esc. apply scatter_evolves in Esc; [|done].
  destruct r; intros; by simplify_eq.
Qed.

Lemma capture_frame b typ sector st n :
  confined b (capture b typ sector st n) /\ same_regs b (capture b typ sector st n).
Proof. unfold capture. destruct (_ && _); [|done]. by destruct (feed _ _). Qed.

Lemma handle_request_frame b m readable writable b' m' r :
  disk_ok b -> ram_ok m -> Forall seg_ok readable -> Forall seg_ok writable ->
  handle_request b m readable writable = (b', m', r) ->
  confined b b' /\ same_regs b b' /\ ram_evolves m m'.
Proof.
  intros Hd Hm Hr Hw. unfold handle_request.
  destruct (read_u32 m _) as [typ|]; [|intros; by simplify_eq].
  destruct (read_u64 m _) as [sector|] eqn:Es; [|intros; by simplify_eq].
  apply load_range in Es; [|done].
  destruct (do_request b m typ sector readable writable) as [[b1 m1] w] eqn:E.
  destruct (do_request_frame _ _ _ _ _ _ _ _ _ Hd Hm (proj1 Es) Hr Hw E) as (Hc & Hsr & He).
  destruct w as [st w n|]; [|intros; by simplify_eq].
  destruct (write_u8 m1 _ st) as [m2|] eqn:Ew; [|intros; by simplify_eq].
  intros. simplify_eq. destruct (capture_frame b1 typ sector st n) as [Hc2 Hs2].
  split; [by etrans|]. split; [by etrans|]. etrans; [done|]. by eapply store_evolves.
Qed.

Lemma walk_ok fuel q m d : ram_ok m -> Forall seg_ok (walk fuel q m d).1 /\ Forall seg_ok (walk fuel q m d).2.
Proof.
  intros Hm. revert d. induction fuel as [|fuel IH]; intros d; cbn [walk]; [done|].
  destruct (desc_addr q d) as [da|]; [|done]. destruct (read_desc m da) as [e|] eqn:E; [|done].
  assert (seg_ok (d_addr e, d_len e)) as He.
  { unfold read_desc in E.
    apply bind_Some in E as (a & Ha & E). apply bind_Some in E as (l & Hl & E).
    apply bind_Some in E as (f & _ & E). apply bind_Some in E as (n & _ & E). simplify_eq.
    apply load_range in Ha, Hl; [|done..]. split; simpl; [exact Ha|exact Hl]. }
  specialize (IH (d_next e)). destruct (walk fuel q m (d_next e)) as [r w]. simpl in IH.
  destruct (Z.land (d_flags e) VIRTQ_DESC_F_NEXT =? 0), (negb _); simpl; destruct IH; split; auto.
Qed.

Lemma handle_chain_frame b m hd b' m' n :
  disk_ok b -> ram_ok m -> handle_chain b m hd = (b', m', n) ->
  confined b b' /\ same_regs b b' /\ ram_evolves m m'.
Proof.
  intros Hd Hm. unfold handle_chain. pose proof (walk_ok (Z.to_nat (size (queue b))) (queue b) m hd Hm) as [Hr Hw].
  destruct (walk _ _ _ _) as [readable writable]. simpl in *.
  destruct (_ || _); [intros; by simplify_eq|].
  destruct (handle_request b m readable writable) as [[b1 m1] r] eqn:E.
  destruct (handle_request_frame _ _ _ _ _ _ _ Hd Hm Hr Hw E) as (Hc & Hs & He).
  destruct r; intros; simplify_eq; [done|]. split; [done|]. split; [done|].
  etrans; [done|]. apply ignore_store_evolves.
Qed.

(** The chains served, whatever the guest's RAM holds: each of the [n] slots is
    on the ring and in RAM, so exactly [n] are served. *)
Lemma serve_chains_frame n b m lst s b' m' lst' s' :
  disk_ok b -> ram_ok m -> queue_ok m (queue b) -> is_ready (queue b) = true ->
  serve_chains n b m lst s = (b', m', lst', s') -> 0 <= lst < 2 ^ 16 ->
  confined b b' /\ same_regs b b' /\ ram_evolves m m' /\
  lst' = u16 (lst + Z.of_nat n) /\ s' = (s || negb (Nat.eqb n 0)).
Proof.
  revert b m lst s. induction n as [|n IH]; intros b m lst s Hd Hm Hq Hr; cbn [serve_chains].
  { intros. simplify_eq. rewrite Z.add_0_r, orb_false_r, u16_small by done. done. }
  intros E Hlst. destruct (avail_slot_ready m (queue b) lst Hm Hq Hr) as [Ea Hc]. rewrite Ea in E.
  apply (load_contains 2) in Hc as [hd Hhd]. unfold read_u16 in E. rewrite Hhd in E.
  destruct (handle_chain b m hd) as [[b1 m1] n1] eqn:Eh.
  destruct (handle_chain_frame _ _ _ _ _ _ Hd Hm Eh) as (Hc1 & Hs1 & He1).
  assert (ram_evolves m (push_used (queue b1) m1 hd n1)) as He2 by (etrans; [done|apply push_used_evolves]).
  destruct Hs1 as [Hq1 Hi1 Hir1]. apply IH in E as (Hc2 & Hs2 & He3 & -> & ->).
  - split; [by etrans|]. split; [etrans; [|done]; by split|]. split; [by etrans|]. split.
    + unfold u16. rewrite Zplus_mod_idemp_l. f_equal. lia.
    + by rewrite orb_true_l, orb_true_r.
  - by eapply confined_disk_ok.
  - by apply He2.
  - rewrite Hq1 in *. by eapply queue_ok_evolves.
  - by rewrite Hq1.
  - apply u16_range.
Qed.

Lemma with_regs_confined b x y z : confined b (with_regs b x y z).
Proof. by split. Qed.
Lemma with_queue_confined b q : confined b (with_queue b q).
Proof. by split. Qed.
Hint Resolve with_regs_confined with_queue_confined : hvi.

(** The invariant of the device. *)
Definition blk_ok (m : GuestRam) b : Prop := disk_ok b /\ queue_ok m (queue b).

(** What one access does to the rest of the machine. *)
Definition access_frame b (m : GuestRam) b' (m' : GuestRam) : Prop :=
  confined b b' /\ irq b' = irq b /\ ram_evolves m m' /\ queue_ok m' (queue b').

Lemma process_queue_frame b m b' m' :
  ram_ok m -> blk_ok m b -> process_queue b m = (b', m') -> access_frame b m b' m'.
Proof.
  intros Hm [Hd Hq]. unfold process_queue, access_frame.
  destruct (is_ready (queue b)) eqn:Hr; simpl; [|intros; by simplify_eq].
  destruct (pending (queue b) m) as [n|] eqn:Ep; [|intros; by simplify_eq].
  destruct (serve_chains _ _ _ _ _) as [[[b1 m1] lst] sv] eqn:E.
  pose proof Hq as [Hq1 Hq2 Hq3 Hq4 Hq5 Hq6].
  apply serve_chains_frame in E as (Hc & [Hsq Hsi Hsr] & He & -> & ->); [|done..].
  assert (queue_ok m1 (set_last_avail (queue b1) (u16 (last_avail (queue b) + Z.of_nat (Z.to_nat n))))) as Hq'.
  { apply set_last_avail_ok; [rewrite Hsq; by eapply queue_ok_evolves|apply u16_range]. }
  intros. destruct (_ || _); simplify_eq.
  - split; [etrans; [done|]; by split|]. split; [done|]. by split.
  - split; [etrans; [done|]; by split|]. split; [done|]. by split.
Qed.

Lemma queue_write_frame b m op :
  blk_ok m b -> op_ok op -> access_frame b m (with_queue b (queue_op m (queue b) op)) m.
Proof.
  intros [Hd Hq] Ho. split; [by split|]. split; [done|]. split; [done|]. by apply queue_op_ok.
Qed.

Lemma regs_write_frame b m x y z : blk_ok m b -> access_frame b m (with_regs b x y z) m.
Proof. intros [Hd Hq]. split; [by split|]. by split. Qed.

Lemma stay_frame b m : blk_ok m b -> access_frame b m b m.
Proof. intros [Hd Hq]. split; [done|]. by split. Qed.

Lemma serve_write_frame b m offset v b' m' :
  ram_ok m -> blk_ok m b -> 0 <= v < 2 ^ 32 -> serve_write b m offset v = (b', m') ->
  access_frame b m b' m'.
Proof.
  intros Hm Hb Hv. unfold serve_write. cbv zeta. guards; intros E; simplify_eq;
    try (by apply stay_frame); try (by apply regs_write_frame).
  - by apply (queue_write_frame b _ (SetNum v)).
  - by apply (queue_write_frame b _ (SetReady v)).
  - by apply process_queue_frame.
  - split; [by split|]. split; [done|]. split; [done|]. apply queue_default_ok.
  - by apply (queue_write_frame b _ (SetDescLo v)).
  - by apply (queue_write_frame b _ (SetDescHi v)).
  - by apply (queue_write_frame b _ (SetAvailLo v)).
  - by apply (queue_write_frame b _ (SetAvailHi v)).
  - by apply (queue_write_frame b _ (SetUsedLo v)).
  - by apply (queue_write_frame b _ (SetUsedHi v)).
Qed.

Lemma serve_mmio_frame b m o w v b' m' r :
  ram_ok m -> blk_ok m b -> serve_mmio b m o w v = (b', m', r) -> access_frame b m b' m'.
Proof.
  intros Hm Hb. unfold serve_mmio. destruct w; [|intros; simplify_eq; by apply stay_frame].
  destruct (serve_write b m o (u32 v)) as [b1 m1] eqn:E. intros. simplify_eq.
  eapply serve_write_frame; [done|done|apply u32_range|exact E].
Qed.

Lemma mmio_frame b m o w v b' m' r :
  ram_ok m -> blk_ok m b -> mmio b m o w v = (b', m', r) ->
  confined b b' /\ ram_evolves m m' /\ blk_ok m' b' /\ irq b' = set (irq b) (irq_level b').
Proof.
  intros Hm Hb. unfold mmio. destruct (serve_mmio b m o w v) as [[b1 m1] r1] eqn:E. intros. simplify_eq.
  destruct (serve_mmio_frame _ _ _ _ _ _ _ _ Hm Hb E) as (Hc & Hi & He & Hq).
  split; [etrans; [done|]; by split|]. split; [done|].
  split; [split; [apply (confined_disk_ok _ _ Hc), Hb|done]|]. unfold sync_irq. simpl. by rewrite Hi.
Qed.

End Confined.

Lemma status_zero_reset {F L} `{BackingFile F} `{IrqLine L} (b : VirtioBlk F L) m v b' m' r :
  u32 v = 0 -> mmio b m Mmio.STATUS true v = (b', m', r) -> irq_level b' = false.
Proof.
  intros Hv. unfold mmio, serve_mmio, serve_write. rewrite Hv. cbn. intros. by simplify_eq.
Qed.

#[export] Instance VirtioBlk_laws {F L} `{BackingFileLaws F} `{IrqLineLaws L} :
  VirtioMmioLaws (VirtioBlk F L) L.
Proof.
  refine {| dev_ok := blk_ok; dev_irq := irq; dev_level := irq_level |}.
  - intros m m' d E [Hd Hq]. split; [done|]. by eapply queue_ok_mapped.
  - intros d m o w v d' m' r _ _ Hm Hd E.
    destruct (mmio_frame d m o w v d' m' r Hm Hd E) as (_ & [He1 He2] & Hb & _). auto.
  - intros d m o w v d' m' r Hm Hd E. exists (irq d). split; [apply rtc_refl|].
    apply (mmio_frame d m o w v d' m' r Hm Hd E).
  - intros d d' l E. unfold dev_take_events in E. simpl in E. unfold take_events in E. by simplify_eq.
  - intros d m v d' m' r Hv E. exact (status_zero_reset d m v d' m' r Hv E).
Defined.

(** ** The disk under any guest *)

Section Sessions.
Context {F L : Type} `{BackingFileLaws F} `{IrqLineLaws L}.
Implicit Types b : VirtioBlk F L.

Lemma bus_step_confined (s s' : VirtioBlk F L * GuestRam) :
  BusStep s s' -> ram_ok s.2 -> blk_ok s.2 s.1 -> confined s.1 s'.1.
Proof.
  intros Hs Hm Hd. destruct Hs as [d m a d' m' r _ E|]; simpl in *; [|done].
  by apply (mmio_frame _ _ _ _ _ _ _ _ Hm Hd E).
Qed.

Lemma bus_steps_confined (s s' : VirtioBlk F L * GuestRam) :
  rtc BusStep s s' -> ram_ok s.2 -> blk_ok s.2 s.1 -> confined s.1 s'.1.
Proof.
  induction 1 as [s|s1 s2 s3 Hs _ IH]; intros Hm Hd; [done|].
  destruct (bus_step_ok (L := L) _ _ Hs Hm) as (? & ? & _); [exact Hd|].
  etrans; [by apply bus_step_confined|]. by apply IH.
Qed.

Lemma opened_ok (f : F) id ro text m :
  0 <= file_len f < 2 ^ 64 -> bytes_ok text -> blk_ok m (opened (L := L) f id ro text).
Proof.
  intros Hf Ht. split; [|apply queue_default_ok]. unfold disk_ok, opened, SECTOR. simpl.
  split; [apply Z.div_pos; lia|]. split; [zlia|]. apply bytes_ok_app. auto with hvi.
Qed.
End Sessions.

(** C3. Whatever a guest does with the block device, its requests in any order
    and its RAM rewritten at any time: the file keeps its length, no byte past
    the advertised capacity changes, and a read-only disk is never written at
    all. *)
Theorem blk_confined {F L : Type} `{BackingFileLaws F} `{IrqLineLaws L} (f : F) (id : Z) (ro : bool)
    (text : list Z) (l : L) (m : GuestRam) (b' : VirtioBlk F L) (m' : GuestRam) :
  0 <= file_len f < 2 ^ 64 -> bytes_ok text -> ram_ok m ->
  rtc BusStep (connect_irq (opened f id ro text) l, m) (b', m') ->
  file_len (file b') = file_len f /\
  (forall i, file_len f / SECTOR * SECTOR <= i -> file_byte (file b') i = file_byte f i) /\
  (ro = true -> file b' = f).
Proof.
  intros Hf Ht Hm Hs.
  destruct (bus_steps_confined _ _ Hs Hm (opened_ok f id ro text m Hf Ht)) as [_ _ _ Hro Ho Hl].
  simpl in *. split; [apply Hl; unfold SECTOR; zlia|]. split; [|done]. intros i Hi. apply Ho. by left.
Qed.

(** The range check of a request is exact and never wraps: it accepts a
    sector and a length, whatever the guest sent, exactly when the access ends
    inside the capacity, and then returns the sector's byte offset. *)
Lemma byte_range_exact {F L : Type} `{BackingFile F} (b : VirtioBlk F L) (sector len : Z) :
  disk_ok b -> 0 <= sector < 2 ^ 64 -> 0 <= len < 2 ^ 64 ->
  byte_range b sector len =
    if sector * SECTOR + len <=? capacity_sectors b * SECTOR then Some (sector * SECTOR) else None.
Proof. intros Hd [Hs _] [Hl _]. by apply byte_range_iff. Qed.

(** A notification serves every chain the driver published, in one pass of at
    most 256: the consumed index advances by exactly the number pending, and the
    used-buffer interrupt is raised exactly when there was one. A bad index or a
    queue that is not ready serves nothing. *)
Theorem blk_notify_serves_pending {F L : Type} `{BackingFileLaws F} `{IrqLine L}
    (b : VirtioBlk F L) (m : GuestRam) :
  ram_ok m -> blk_ok m b ->
  let '(b', _) := process_queue b m in
  match (if is_ready (queue b) then pending (queue b) m else None) with
  | None => b' = b
  | Some n =>
      0 <= n <= 256 /\
      last_avail (queue b') = u16 (last_avail (queue b) + n) /\
      interrupt_status b' = (if n =? 0 then interrupt_status b else Z.lor (interrupt_status b) 1)
  end.
Proof.
  intros Hm [Hd Hq]. unfold process_queue. destruct (is_ready (queue b)) eqn:Hr; simpl; [|done].
  destruct (pending (queue b) m) as [n|] eqn:Ep; [|done].
  assert (0 <= n <= 256) as Hn.
  { apply bind_Some in Ep as (idx & _ & Ep). revert Ep. cbv zeta. guards; [|done]. intros [= <-].
    split; [apply u16_range|]. rewrite (size_num m _ Hq) in *. unfold QUEUE_NUM_MAX in *.
    destruct (is_ready_fit m _ Hq Hr) as ([_ ?] & _). unfold QUEUE_NUM_MAX in *. lia. }
  destruct (serve_chains _ _ _ _ _) as [[[b1 m1] lst] sv] eqn:E.
  apply serve_chains_frame in E as (_ & [Hsq Hsi _] & _ & -> & ->); [|done|done|done|done|apply Hq].
  rewrite Z2Nat.id by lia. cbn [orb negb].
  destruct (Z.eqb_spec n 0) as [->|Hne].
  - simpl. by rewrite Hsi.
  - destruct (Nat.eqb_spec (Z.to_nat n) 0); [lia|]. simpl. by rewrite Hsi.
Qed.

(** ** Reads and writes that go through *)

Lemma u32_add w n k : u32 (u32 (w + u32 n) + k) = u32 (w + (n + k)).
Proof. zlia. Qed.

Lemma scatter_loop_spec segs m src w :
  ram_ok m -> bytes_ok src -> Forall seg_ok segs -> Forall (seg_in m) segs -> segs_apart segs ->
  zlen src = total segs -> 0 <= w < 2 ^ 32 ->
  exists m', scatter_loop m segs src w = (m', Some (u32 (w + total segs))) /\
    gather m' segs = Some src /\ ram_evolves m m' /\ ram_frame segs m m'.
Proof.
  intros Hm Hsrc Hok. revert m src w Hm Hsrc.
  induction Hok as [|[a l] segs [Ha Hl] Hok IH]; intros m src w Hm Hsrc Hin Hap Hlen Hw; cbn [scatter_loop].
  { apply zlen_0_inv in Hlen as ->. exists m. rewrite Z.add_0_r, u32_small by done. done. }
  rewrite total_cons in Hlen. simpl in Ha, Hl, Hlen. destruct Hap as [Hd Hap].
  apply Forall_cons in Hin as [Ha' Hin]. unfold seg_in in Ha'. simpl in Ha'.
  pose proof (total_nonneg _ Hok) as Ht. replace (Z.min l (zlen src)) with l by lia.
  assert (zlen (take (Z.to_nat l) src) = l) as Hlt by zlia.
  destruct (write m a (take (Z.to_nat l) src)) as [m1|] eqn:Ew.
  2: { assert (is_Some (write m a (take (Z.to_nat l) src))) as [? ?] by (apply write_contains; by rewrite Hlt).
       congruence. }
  assert (ram_evolves m m1) as He by (eapply write_evolves; [|exact Ew]; auto with hvi).
  assert (bytes_ok (take (Z.to_nat l) src)) as Hbt by auto with hvi.
  destruct (IH m1 (drop (Z.to_nat l) src) (u32 (w + u32 l))) as (m' & E & Hg & He' & Hf).
  { by apply He. } { auto with hvi. } { by eapply seg_in_evolves. } { done. } { zlia. } { apply u32_range. }
  exists m'. rewrite E, u32_add. split; [done|].
  assert (read m' a l = Some (take (Z.to_nat l) src)) as Hra.
  { rewrite Hf; [|lia|]. { rewrite <-Hlt at 1. by apply (write_read_same m). }
    eapply Forall_impl; [exact Hd|]. done. }
  split; [|split; [by etrans|]].
  - cbn [gather]. rewrite Hra. cbn. rewrite Hg. cbn. by rewrite take_drop.
  - intros h len Hlen0 HF. apply Forall_cons in HF as [Hh HF]. rewrite Hf by done.
    eapply write_read_disjoint; [exact Hm|exact Ew|done|done|]. rewrite Hlt. destruct Hh; simpl in *; lia.
Qed.

(** The header a request starts with. *)
Definition header_at (m : GuestRam) (readable : list Seg) (typ sector : Z) : Prop :=
  exists haddr, fst <$> head readable = Some haddr /\
    read_u32 m haddr = Some typ /\ read_u64 m (add64 haddr 8) = Some sector.

Lemma handle_request_header {F L} `{BackingFile F} (b : VirtioBlk F L) m readable writable typ sector :
  header_at m readable typ sector ->
  handle_request b m readable writable =
  match do_request b m typ sector readable writable with
  | (b, m, Failed) => (b, m, None)
  | (b, m, Done st w data_bytes) =>
      match write_u8 m (default (0, 0) (last writable)).1 st with
      | None => (b, m, None)
      | Some m => (capture b typ sector st data_bytes, m, Some (u32 (w + 1)))
      end
  end.
Proof.
  intros (haddr & Hh & H1 & H2). unfold handle_request. destruct readable as [|[x y] r]; [done|].
  simpl in *. simplify_eq. rewrite H1. unfold read_u64 in *. by rewrite H2.
Qed.

Lemma but_last_app {A} (l : list A) x : but_last (l ++ [x]) = l.
Proof. unfold but_last. rewrite length_app. simpl. rewrite Nat.add_sub. apply take_app_length. Qed.

(** The status byte goes in and nothing else changes. *)
Lemma write_status m saddr st :
  ram_ok m -> contains m saddr 1 = true -> byte_ok st ->
  exists m', write_u8 m saddr st = Some m' /\ read m' saddr 1 = Some [st] /\ ram_evolves m m' /\
    ram_frame [(saddr, 1)] m m'.
Proof.
  intros Hm Hc Hst. unfold write_u8. apply (store_contains 1 m saddr st) in Hc as [m' E]. exists m'.
  split; [done|]. unfold store in E.
  assert (le_bytes 1 st = [st]) as El by (cbn -[Z.modulo Z.pow]; f_equal; by apply Z.mod_small).
  rewrite El in E. assert (bytes_ok [st]) as Hb by (by constructor).
  split; [by apply (write_read_same m saddr [st])|]. split; [by eapply write_evolves|].
  intros h len Hl Hd. inversion Hd as [|? ? Hx _]; subst. eapply write_read_disjoint; [done|exact E|done|done|].
  destruct Hx; simpl in *; change (zlen [st]) with 1; lia.
Qed.

Lemma gather_frame segs all m m' :
  ram_frame all m m' -> Forall seg_ok segs ->
  Forall (fun s => Forall (apart s) all) segs -> gather m' segs = gather m segs.
Proof.
  intros Hf Hok. induction Hok as [|[a l] segs [_ Hl] _ IH]; intros Hd; [done|].
  apply Forall_cons in Hd as [Ha Hd]. cbn [gather]. simpl in Hl.
  rewrite (Hf a l), IH by (done || lia). done.
Qed.

(** The bytes of the file a read of [n] bytes at [sector] is due. *)
Definition disk_bytes {F} `{BackingFile F} (f : F) (sector n : Z) : list Z :=
  (fun i => file_byte f (sector * SECTOR + i)) <$> seqZ 0 n.

(** A read request inside the disk fills the guest's data segments with the
    file's bytes at the sector, sets the status byte to OK, reports the bytes
    plus the status byte as written, captures one read event, leaves the file
    and all other RAM alone. *)
Theorem blk_read_request {F L : Type} `{BackingFileLaws F} (b : VirtioBlk F L) (m : GuestRam)
    (readable segs : list Seg) (saddr sector : Z) (buf : list Z) :
  let writable := segs ++ [(saddr, 1)] in
  ram_ok m -> disk_ok b -> 0 <= sector -> header_at m readable VIRTIO_BLK_T_IN sector ->
  Forall seg_ok writable -> Forall (seg_in m) writable -> segs_apart writable ->
  sector * SECTOR + total segs <= capacity_sectors b * SECTOR ->
  read_exact_at (file b) (total segs) (sector * SECTOR) = Some buf ->
  exists m',
    handle_request b m readable writable =
      (capture b VIRTIO_BLK_T_IN sector VIRTIO_BLK_S_OK (total segs), m', Some (u32 (total segs + 1))) /\
    gather m' segs = Some (disk_bytes (file b) sector (total segs)) /\
    read m' saddr 1 = Some [VIRTIO_BLK_S_OK] /\ ram_frame writable m m' /\
    events (capture b VIRTIO_BLK_T_IN sector VIRTIO_BLK_S_OK (total segs))
      = events b ++ [EvBlock (serial_text b) sector (total segs) false].
Proof.
  intros writable Hm Hd Hs Hh Hok Hin Hap Hr Hbuf. subst writable.
  apply Forall_app in Hok as [Hok _], Hin as [Hin [Hsin _]%Forall_cons]. apply segs_apart_app in Hap as [Hap Hst].
  pose proof (total_nonneg _ Hok) as Ht. destruct (read_exact_ok _ _ _ _ Ht Hbuf) as [Hbo Hbl].
  destruct (scatter_loop_spec segs m buf 0) as (m1 & E & Hg & He & Hf); try done.
  destruct (write_status m1 saddr VIRTIO_BLK_S_OK) as (m2 & Ew & Hr2 & _ & Hf2).
  { by apply He. } { unfold seg_in in Hsin. simpl in Hsin. rewrite (contains_mapped m); [done|apply He]. } { done. }
  rewrite (handle_request_header _ _ _ _ _ _ Hh). unfold do_request. rewrite Z.eqb_refl.
  rewrite but_last_app, (byte_range_iff b sector _ Hd Hs Ht), (proj2 (Z.leb_le _ _) Hr), Hbuf.
  unfold scatter. rewrite E, last_snoc. cbn [default from_option id fst]. rewrite Ew.
  exists m2. split; [do 2 f_equal; unfold u32; by rewrite Zplus_mod_idemp_l|].
  assert (Forall (fun s => Forall (apart s) [(saddr, 1)]) segs) as Hst'.
  { eapply Forall_impl; [exact Hst|]. intros s Hx. by constructor. }
  split; [|split; [done|split]].
  - rewrite (gather_frame segs _ _ _ Hf2 Hok Hst'), Hg. f_equal. by apply read_exact_bytes in Hbuf.
  - intros h len Hlen HF. apply Forall_app in HF as [HF1 HF2]. by rewrite Hf2, Hf.
  - unfold capture. cbn. by destruct (feed _ _).
Qed.

(** A write request inside a writable disk stores the guest's data at the
    sector and changes no other byte of the file, sets the status byte to OK and
    captures one write event. *)
Theorem blk_write_request {F L : Type} `{BackingFileLaws F} (b : VirtioBlk F L) (m : GuestRam)
    (readable writable : list Seg) (saddr sector : Z) (buf : list Z) :
  let base := sector * SECTOR in
  let f' := (write_all_at (file b) buf base).1 in
  let b' := capture (with_file b f') VIRTIO_BLK_T_OUT sector VIRTIO_BLK_S_OK (zlen buf) in
  ram_ok m -> disk_ok b -> 0 <= sector -> header_at m readable VIRTIO_BLK_T_OUT sector ->
  Forall seg_ok readable -> fst <$> last writable = Some saddr -> contains m saddr 1 = true ->
  read_only b = false -> gather m (drop 1 readable) = Some buf ->
  base + zlen buf <= capacity_sectors b * SECTOR ->
  (write_all_at (file b) buf base).2 = true ->
  exists m',
    handle_request b m readable writable = (b', m', Some 1) /\
    disk_bytes (file b') sector (zlen buf) = buf /\
    (forall i, i < base \/ base + zlen buf <= i -> file_byte (file b') i = file_byte (file b) i) /\
    read m' saddr 1 = Some [VIRTIO_BLK_S_OK] /\ ram_frame [(saddr, 1)] m m' /\
    events b' = events b ++ [EvBlock (serial_text b) sector (zlen buf) true].
Proof.
  intros base f' b' Hm Hd Hs Hh Hok Hlast Hsin Hro Hg Hr Hw. unfold base in Hr, Hw.
  destruct (gather_length m (drop 1 readable) buf Hm) as [Hl Hbo]; [by apply Forall_drop|done|].
  destruct (write_status m saddr VIRTIO_BLK_S_OK Hm Hsin ltac:(done)) as (m2 & Ew & Hr2 & _ & Hf2).
  rewrite (handle_request_header _ _ _ _ _ _ Hh). unfold do_request.
  change (VIRTIO_BLK_T_OUT =? VIRTIO_BLK_T_IN) with false. change (VIRTIO_BLK_T_OUT =? VIRTIO_BLK_T_OUT) with true.
  change (VIRTIO_BLK_T_OUT =? VIRTIO_BLK_T_FLUSH) with false.
  rewrite Hro. cbn [andb]. rewrite <-Hl, (byte_range_iff b sector _ Hd Hs (zlen_nonneg _)), (proj2 (Z.leb_le _ _) Hr), Hg.
  assert (file b' = f') as Ef by (subst b'; unfold capture; cbn; by destruct (feed _ _)).
  rewrite Ef. subst b' f' base.
  pose proof (write_all_bytes (file b) buf (sector * SECTOR)) as Hb.
  pose proof (fun i => write_all_outside (file b) buf (sector * SECTOR) i) as Ho.
  destruct (write_all_at (file b) buf (sector * SECTOR)) as [f' ok]. simpl in Hw, Hb, Ho. subst ok.
  destruct (last writable) as [[x y]|]; [|done]. simpl in Hlast. simplify_eq. cbn [default from_option id fst]. rewrite Ew.
  exists m2. split; [done|]. split; [|split; [exact Ho|split; [done|split; [done|]]]].
  - apply bytes_ext; [unfold disk_bytes; rewrite zlen_fmap, zlen_seqZ; [done|zlia]|].
    intros i Hi. unfold disk_bytes in *. rewrite zlen_fmap, zlen_seqZ in Hi by zlia.
    rewrite (Hb i Hbo eq_refl Hi). unfold get_at. rewrite (proj2 (Z.leb_le 0 i)) by lia.
    rewrite list_lookup_fmap, lookup_seqZ_lt by lia. simpl. do 3 f_equal. lia.
  - unfold capture. cbn. by destruct (feed _ _).
Qed.

(** The status a request is refused with, before it touches the disk. *)
Definition refused_code {F L} (b : VirtioBlk F L) (typ sector : Z) (readable writable : list Seg) : option Z :=
  let past n := negb (sector * SECTOR + n <=? capacity_sectors b * SECTOR) in
  if typ =? VIRTIO_BLK_T_IN then if past (total (but_last writable)) then Some VIRTIO_BLK_S_IOERR else None
  else if typ =? VIRTIO_BLK_T_OUT then
    if read_only b || past (total (drop 1 readable)) then Some VIRTIO_BLK_S_IOERR else None
  else if (typ =? VIRTIO_BLK_T_FLUSH) || (typ =? VIRTIO_BLK_T_GET_ID) then None
  else Some VIRTIO_BLK_S_UNSUPP.

Lemma do_request_refused {F L} `{BackingFileLaws F} (b : VirtioBlk F L) m typ sector readable writable c :
  disk_ok b -> 0 <= sector -> Forall seg_ok readable -> Forall seg_ok writable ->
  refused_code b typ sector readable writable = Some c ->
  do_request b m typ sector readable writable = (b, m, Failed) /\ c = VIRTIO_BLK_S_IOERR \/
  do_request b m typ sector readable writable = (b, m, Done c 0 0) /\ c <> VIRTIO_BLK_S_OK.
Proof.
  intros Hd Hs Hr Hw. unfold refused_code, do_request. cbv zeta.
  assert (0 <= total (but_last writable)) by (apply total_nonneg; by apply Forall_take).
  assert (0 <= total (drop 1 readable)) by (apply total_nonneg; by apply Forall_drop).
  rewrite !(byte_range_iff b sector) by done.
  destruct (Z.eqb_spec typ VIRTIO_BLK_T_IN) as [->|].
  { destruct (sector * SECTOR + total (but_last writable) <=? _); intros; simplify_eq/=. by left. }
  destruct (Z.eqb_spec typ VIRTIO_BLK_T_OUT) as [->|].
  { destruct (read_only b); simpl; [intros; simplify_eq; by right|].
    destruct (sector * SECTOR + total (drop 1 readable) <=? _); intros; simplify_eq/=. by left. }
  destruct (Z.eqb_spec typ VIRTIO_BLK_T_FLUSH); simpl; [done|].
  destruct (Z.eqb_spec typ VIRTIO_BLK_T_GET_ID); [done|]. intros. simplify_eq. by right.
Qed.

Lemma capture_refused {F L} (b : VirtioBlk F L) typ sector c n :
  c <> VIRTIO_BLK_S_OK -> capture b typ sector c n = b.
Proof. intros. unfold capture. by rewrite (proj2 (Z.eqb_neq _ _)). Qed.

(** A request the device must refuse never reports success: one that reaches
    past the capacity, a write to a read-only disk, or a type the device does
    not implement leaves the whole device as it was, no event captured, and ends
    with an error in the status byte, IOERR or UNSUPP, and no other RAM changed. *)
Theorem blk_refused_requests {F L : Type} `{BackingFileLaws F} (b : VirtioBlk F L) (m : GuestRam)
    (hd : Z) (readable writable : list Seg) (saddr typ sector c : Z) :
  ram_ok m -> disk_ok b -> walk (Z.to_nat (size (queue b))) (queue b) m hd = (readable, writable) ->
  header_at m readable typ sector -> fst <$> last writable = Some saddr -> contains m saddr 1 = true ->
  refused_code b typ sector readable writable = Some c ->
  exists m', handle_chain b m hd = (b, m', 1) /\ read m' saddr 1 = Some [c] /\ c <> VIRTIO_BLK_S_OK /\
    ram_frame [(saddr, 1)] m m'.
Proof.
  intros Hm Hd Hwalk Hh Hlast Hsin Hc. pose proof (walk_ok (Z.to_nat (size (queue b))) (queue b) m hd Hm) as [Hr Hw].
  unfold handle_chain. rewrite Hwalk in *. simpl in Hr, Hw.
  rewrite (bool_decide_false (readable = [])) by (intros ->; by destruct Hh as (? & ? & _)).
  rewrite (bool_decide_false (writable = [])) by (by intros ->). cbn [orb].
  rewrite (handle_request_header _ _ _ _ _ _ Hh).
  assert (0 <= sector) as Hs by (destruct Hh as (? & _ & _ & Hx); apply load_range in Hx; [apply Hx|done]).
  destruct (last writable) as [[x y]|]; [|done]. simpl in Hlast. simplify_eq. cbn [default from_option id fst].
  destruct (do_request_refused b m typ sector readable writable c Hd Hs Hr Hw Hc) as [[-> ->]|[-> Hne]].
  - destruct (write_status m saddr VIRTIO_BLK_S_IOERR Hm Hsin ltac:(done)) as (m2 & Ew & ? & _ & ?).
    rewrite Ew. exists m2. done.
  - assert (byte_ok c) as Hb.
    { revert Hc. unfold refused_code. cbv zeta. guards; intros; simplify_eq; unfold byte_ok; vm_compute; split; congruence. }
    destruct (write_status m saddr c Hm Hsin Hb) as (m2 & Ew & ? & _ & ?). rewrite Ew.
    exists m2. by rewrite capture_refused.
Qed.

(** ** What a request shows of a disk *)

(** A request for the identifier is answered with [id] in the guest's 20 bytes, and
    the status OK. *)
Definition identifies_as {F L} `{BackingFile F} (b : VirtioBlk F L) (id : list Z) : Prop :=
  forall m readable segs saddr sector, let writable := segs ++ [(saddr, 1)] in
  ram_ok m -> header_at m readable 8 sector -> Forall seg_ok writable -> Forall (seg_in m) writable -> segs_apart writable -> total segs = 20 ->
  exists m', handle_request b m readable writable = (b, m', Some 21) /\ gather m' segs = Some id /\
    read m' saddr 1 = Some [0] /\ ram_frame writable m m'.

(** Every request to write is answered IOERR, and the disk is as it was. *)
Definition refuses_writes {F L} `{BackingFile F} (b : VirtioBlk F L) : Prop :=
  forall m readable writable saddr sector,
  ram_ok m -> header_at m readable 1 sector -> fst <$> last writable = Some saddr -> contains m saddr 1 = true ->
  exists m', handle_request b m readable writable = (b, m', Some 1) /\ read m' saddr 1 = Some [1] /\ ram_frame [(saddr, 1)] m m'.

(** A request to write inside the first [capacity] sectors, when the host's file takes
    the bytes, stores them at the sector and is answered OK. *)
Definition takes_writes {F L} `{BackingFile F} (b : VirtioBlk F L) (capacity : Z) : Prop :=
  forall m readable writable saddr sector buf,
  ram_ok m -> header_at m readable 1 sector -> Forall seg_ok readable -> fst <$> last writable = Some saddr -> contains m saddr 1 = true ->
  gather m (drop 1 readable) = Some buf -> sector * 512 + zlen buf <= capacity * 512 -> (write_all_at (file b) buf (sector * 512)).2 = true ->
  exists b' m', handle_request b m readable writable = (b', m', Some 1) /\ disk_bytes (file b') sector (zlen buf) = buf /\
    read m' saddr 1 = Some [0].

Lemma header_sector m readable typ sector : ram_ok m -> header_at m readable typ sector -> 0 <= sector.
Proof. intros Hm (? & _ & _ & Hx). apply load_range in Hx; [apply Hx|done]. Qed.

Lemma identifies_spec {F L} `{BackingFileLaws F} (b : VirtioBlk F L) : disk_ok b -> zlen (serial b) = 20 -> identifies_as b (serial b).
Proof.
  intros (_ & _ & Hb) Hl m readable segs saddr sector writable Hm Hh Hok Hin Hap Ht. subst writable.
  apply Forall_app in Hok as [Hok _], Hin as [Hin [Hsin _]%Forall_cons]. apply segs_apart_app in Hap as [Hap Hst].
  destruct (scatter_loop_spec segs m (serial b) 0) as (m1 & E & Hg & He & Hf); [done..|lia|done|].
  destruct (write_status m1 saddr VIRTIO_BLK_S_OK) as (m2 & Ew & Hr2 & _ & Hf2).
  { by apply He. } { unfold seg_in in Hsin. simpl in Hsin. rewrite (contains_mapped m); [done|apply He]. } { done. }
  rewrite (handle_request_header _ _ _ _ _ _ Hh). unfold do_request. cbn -[write_u8 u32]. rewrite but_last_app.
  unfold scatter. rewrite E, last_snoc. cbn [default from_option id fst]. rewrite Ew, Ht.
  exists m2. split; [by unfold capture|].
  assert (Forall (fun s => Forall (apart s) [(saddr, 1)]) segs) as Hst'.
  { eapply Forall_impl; [exact Hst|]. intros s Hx. by constructor. }
  split; [by rewrite (gather_frame segs _ _ _ Hf2 Hok Hst')|split; [done|]].
  intros h len Hlen HF. apply Forall_app in HF as [HF1 HF2]. by rewrite Hf2, Hf.
Qed.

Lemma refuses_spec {F L} `{BackingFileLaws F} (b : VirtioBlk F L) : read_only b = true -> refuses_writes b.
Proof.
  intros Hro m readable writable saddr sector Hm Hh Hlast Hsin. rewrite (handle_request_header _ _ _ _ _ _ Hh).
  destruct (write_status m saddr VIRTIO_BLK_S_IOERR Hm Hsin ltac:(done)) as (m2 & Ew & ? & _ & ?).
  unfold do_request. cbn -[write_u8 u32]. rewrite Hro. destruct (last writable) as [[x y]|]; [|done]. simpl in Hlast. simplify_eq. cbn [default from_option id fst].
  rewrite Ew. exists m2. by rewrite capture_refused.
Qed.

Lemma takes_spec {F L} `{BackingFileLaws F} (b : VirtioBlk F L) : disk_ok b -> read_only b = false -> takes_writes b (capacity_sectors b).
Proof.
  intros Hd Hro m readable writable saddr sector buf Hm Hh Hok Hlast Hsin Hg Hr Hw.
  destruct (blk_write_request b m readable writable saddr sector buf) as (m' & E & Hb & _ & Hs & _); try done; [by eapply header_sector|].
  by eexists _, m'.
Qed.

(** ** A concrete disk *)

Record ByteFile := mkByteFile { bf_len : Z; bf_at : Z -> Z }.
#[export] Instance ByteFile_backing : BackingFile ByteFile := {|
  read_exact_at f n off :=
    if (0 <=? off) && (off + n <=? bf_len f) then Some ((fun i => u8 (bf_at f (off + i))) <$> seqZ 0 n) else None;
  write_all_at f bs off :=
    if (0 <=? off) && (off + zlen bs <=? bf_len f) then
      (mkByteFile (bf_len f)
         (fun i => if (off <=? i) && (i <? off + zlen bs) then byte_at bs (i - off) else bf_at f i), true)
    else (f, false);
  sync_data f := (f, true);
  file_len := bf_len;
  file_byte f i := u8 (bf_at f i);
|}.
#[export] Instance ByteFile_laws : BackingFileLaws ByteFile.
Proof.
  split; cbn.
  - intros f i. apply u8_range.
  - intros f n off bs Hn. destruct (_ && _); intros; by simplify_eq.
  - intros f bs off i Hi. destruct ((0 <=? off) && _); [|done]. cbn.
    by replace ((off <=? i) && (i <? off + zlen bs)) with false by lia.
  - intros f bs off i Hb Hok Hi. destruct ((0 <=? off) && _); [|done]. cbn.
    replace ((off <=? off + i) && (off + i <? off + zlen bs)) with true by lia.
    replace (off + i - off) with i by lia. unfold byte_at.
    destruct (get_at_is_Some bs i Hi) as [x Hx]. rewrite Hx. cbn. f_equal. symmetry. apply Z.mod_small.
    unfold get_at in Hx. rewrite (proj2 (Z.leb_le 0 i)) in Hx by lia.
    exact (Forall_lookup_1 _ _ _ _ Hb Hx).
  - intros f bs off _. by destruct (_ && _).
  - done.
  - done.
Defined.

Definition demo_file : ByteFile := mkByteFile 1100 (fun i => i mod 251).

(** A queue of 8 with one chain: a read of 8 bytes at sector 1, the header at
    0x4000, the data at 0x5000 and the status byte at 0x6000. *)
Definition chain_stores (typ sector : Z) : list (Z * nat * Z) :=
  [(0x1000, 8%nat, 0x4000); (0x1008, 4%nat, 16); (0x100c, 2%nat, 1); (0x100e, 2%nat, 1);
   (0x1010, 8%nat, 0x5000); (0x1018, 4%nat, 8); (0x101c, 2%nat, 3); (0x101e, 2%nat, 2);
   (0x1020, 8%nat, 0x6000); (0x1028, 4%nat, 1); (0x102c, 2%nat, 2); (0x102e, 2%nat, 0);
   (0x2002, 2%nat, 1); (0x2004, 2%nat, 0); (0x4000, 4%nat, typ); (0x4008, 8%nat, sector)].
Definition chain_ram (typ sector : Z) : GuestRam := run_stores split_ram (chain_stores typ sector).

Lemma chain_ram_ok typ sector : ram_ok (chain_ram typ sector).
Proof. apply run_stores_evolves, split_ram_ok. Qed.

Definition demo_blk (ro : bool) : VirtioBlk ByteFile PlainLine :=
  with_queue (connect_irq (opened demo_file 7 ro [0x61]) (mkPlainLine false)) demo_queue.

Lemma demo_blk_ok ro typ sector : blk_ok (chain_ram typ sector) (demo_blk ro).
Proof.
  split; [|eapply queue_ok_evolves; [apply run_stores_evolves|apply demo_queue_ok]].
  split; [done|]. split; [done|]. by vm_compute; repeat constructor.
Qed.

Lemma blk_confined_witness :
  exists b' m', rtc BusStep (connect_irq (opened demo_file 7 true [0x61]) (mkPlainLine false), split_ram) (b', m') /\
    file b' = demo_file /\ status b' = 3.
Proof.
  eexists _, _. assert (rtc BusStep (connect_irq (opened demo_file 7 true [0x61]) (mkPlainLine false), split_ram)
    (mmio (connect_irq (opened demo_file 7 true [0x61]) (mkPlainLine false)) split_ram Mmio.STATUS true 3).1) as Hs.
  { apply rtc_once. eapply (BusAccess _ _ (mkMmio Mmio.STATUS true 3)); [|reflexivity]. by vm_compute. }
  split; [exact Hs|]. split; [|reflexivity].
  apply (blk_confined demo_file 7 true [0x61] (mkPlainLine false) split_ram _ _) in Hs as (_ & _ & Hf).
  - exact (Hf eq_refl).
  - simpl; lia.
  - by repeat constructor.
  - apply split_ram_ok.
Defined.


Lemma blk_notify_serves_pending_witness :
  last_avail (queue (process_queue (demo_blk false) (chain_ram 0 1)).1) = 1 /\
  interrupt_status (process_queue (demo_blk false) (chain_ram 0 1)).1 = 1.
Proof.
  pose proof (blk_notify_serves_pending (demo_blk false) (chain_ram 0 1)
    (chain_ram_ok 0 1) (demo_blk_ok false 0 1)) as H.
  assert ((if is_ready (queue (demo_blk false)) then pending (queue (demo_blk false)) (chain_ram 0 1) else None)
    = Some 1) as E by (vm_compute; reflexivity).
  destruct (process_queue (demo_blk false) (chain_ram 0 1)) as [b' m']. rewrite E in H.
  destruct H as (_ & H1 & H2). split; [exact H1|exact H2].
Defined.

(** The readable and writable segments of the chain. *)
Definition demo_readable : list Seg := [(0x4000, 16)].
Definition demo_segs : list Seg := [(0x5000, 8)].

Lemma blk_read_request_witness :
  exists m', (handle_request (demo_blk false) (chain_ram 0 1) demo_readable (demo_segs ++ [(0x6000, 1)])).1.2 = m' /\
    gather m' demo_segs = Some (disk_bytes demo_file 1 8).
Proof.
  destruct (blk_read_request (demo_blk false) (chain_ram 0 1) demo_readable demo_segs 0x6000 1
    (disk_bytes demo_file 1 8)) as (m' & E & Hg & _).
  - apply chain_ram_ok.
  - apply (demo_blk_ok false 0 1).
  - lia.
  - exists 0x4000. by vm_compute.
  - repeat constructor; simpl; lia.
  - repeat constructor.
  - split; [constructor; [left; vm_compute; congruence|constructor]|split; [constructor|exact I]].
  - vm_compute; congruence.
  - vm_compute; reflexivity.
  - exists m'. rewrite E. split; [reflexivity|exact Hg].
Defined.

Lemma blk_write_request_witness :
  exists b' m', handle_request (demo_blk false) (chain_ram 1 1) (demo_readable ++ demo_segs) [(0x6000, 1)]
      = (b', m', Some 1) /\ disk_bytes (file b') 1 8 = [0; 0; 0; 0; 0; 0; 0; 0].
Proof.
  destruct (blk_write_request (demo_blk false) (chain_ram 1 1) (demo_readable ++ demo_segs) [(0x6000, 1)]
    0x6000 1 [0; 0; 0; 0; 0; 0; 0; 0]) as (m' & E & Hb & _).
  - apply chain_ram_ok.
  - apply (demo_blk_ok false 1 1).
  - lia.
  - exists 0x4000. by vm_compute.
  - repeat constructor; simpl; lia.
  - reflexivity.
  - reflexivity.
  - reflexivity.
  - vm_compute; reflexivity.
  - vm_compute; congruence.
  - vm_compute; reflexivity.
  - eexists _, m'. split; [exact E|exact Hb].
Defined.

(** A discard, which the device does not implement, from the same chain. *)
Lemma blk_refused_requests_witness :
  exists m', handle_chain (demo_blk false) (chain_ram 11 1) 0 = (demo_blk false, m', 1) /\
    read m' 0x6000 1 = Some [VIRTIO_BLK_S_UNSUPP].
Proof.
  destruct (blk_refused_requests (demo_blk false) (chain_ram 11 1) 0 demo_readable
    (demo_segs ++ [(0x6000, 1)]) 0x6000 11 1 VIRTIO_BLK_S_UNSUPP) as (m' & E & Hr & _).
  - apply chain_ram_ok.
  - apply (demo_blk_ok false 11 1).
  - vm_compute; reflexivity.
  - exists 0x4000. by vm_compute.
  - reflexivity.
  - reflexivity.
  - reflexivity.
  - exists m'. split; [exact E|exact Hr].
Defined.

(** The interface's session theorem, at the block device: one notification. *)
Definition demo_notified : VirtioBlk ByteFile PlainLine * GuestRam * Z :=
  dev_mmio (demo_blk false) (chain_ram 0 1) Mmio.QUEUE_NOTIFY true 0.

Lemma demo_session : rtc BusStep (demo_blk false, chain_ram 0 1) (demo_notified.1.1, demo_notified.1.2).
Proof. unfold demo_notified. apply bus_access_once; by vm_compute. Qed.

Lemma demo_notified_high : irq_level demo_notified.1.1 = true.
Proof. vm_compute. reflexivity. Qed.

Lemma virtio_session_safe_witness :
  ram_ok demo_notified.1.2 /\ line_at (irq demo_notified.1.1) true.
Proof.
  destruct (virtio_session_safe (L := PlainLine) (demo_blk false) (chain_ram 0 1)
    demo_notified.1.1 demo_notified.1.2) as (H1 & _ & _ & H2 & _).
  - exact PlainLine_reliable.
  - apply chain_ram_ok.
  - apply demo_blk_ok.
  - split; [reflexivity|]. split; [by eexists|reflexivity].
  - exact demo_session.
  - split; [exact H1|]. rewrite <-demo_notified_high. exact H2.
Defined.
