(* ===== verification/Vsock.v ===== *)
(** * The vsock device ([src/devices/virtio/vsock.rs])

    One device bridging host Unix streams to guest vsock streams: the header
    codec, the handshake, credit in both directions, the per-connection close
    protocol and the delivery into the guest's RX buffers.

    A host stream is what the host's socket does to the calls made on it: a
    script of send results, a script of hangup polls, and the bytes it took. All
    theorems hold for every script. The write loop passes the first slice of the
    ring buffer, so a send here takes any number of the bytes waiting. The
    loops that the host or the guest could prolong run on a measure computed
    from the state, and are proved never to exhaust it. *)

From S2P Require Import Prelude Memory Irq Queue Virtio.
Local Open Scope Z_scope.

Definition VIRTIO_VSOCK_ID : Z := 19.
Definition F_VERSION_1_HI : Z := Z.shiftl 1 (32 - 32).
Definition HOST_CID : Z := 2.
Definition GUEST_CID : Z := 3.
Definition AGENT_PORT : Z := 1024.
Definition RX_QUEUE : Z := 0.
Definition TX_QUEUE : Z := 1.
Definition HDR_LEN : Z := 44.
Definition TYPE_STREAM : Z := 1.
Definition OP_REQUEST : Z := 1.
Definition OP_RESPONSE : Z := 2.
Definition OP_RST : Z := 3.
Definition OP_SHUTDOWN : Z := 4.
Definition OP_RW : Z := 5.
Definition OP_CREDIT_UPDATE : Z := 6.
Definition OP_CREDIT_REQUEST : Z := 7.
Definition SHUTDOWN_RCV : Z := 1.
Definition SHUTDOWN_SEND : Z := 2.
Definition SHUTDOWN_BOTH : Z := Z.lor SHUTDOWN_RCV SHUTDOWN_SEND.
Definition OUR_BUF_ALLOC : Z := 64 * 1024.
Definition MAX_RW : Z := 4096.
Definition MAX_TX_PACKET : Z := HDR_LEN + 64 * 1024.
Definition HOST_BACKLOG_MAX : Z := 64 * 1024.

(** ** The header *)

Record Hdr := mkHdr {
  src_cid : Z; dst_cid : Z; src_port : Z; dst_port : Z; h_len : Z; typ : Z; op : Z;
  h_flags : Z; buf_alloc : Z; fwd_cnt : Z }.

Definition parse (b : list Z) : option Hdr :=
  if zlen b <? HDR_LEN then None
  else
    let at_ o n := le_val (sub_bytes b o (o + n)) in
    Some (mkHdr (at_ 0 8) (at_ 8 8) (at_ 16 4) (at_ 20 4) (at_ 24 4) (at_ 28 2) (at_ 30 2)
      (at_ 32 4) (at_ 36 4) (at_ 40 4)).

(** The header is filled front to back, so its bytes are those of its fields. *)
Definition to_bytes (h : Hdr) : list Z :=
  le_bytes 8 (src_cid h) ++ le_bytes 8 (dst_cid h) ++ le_bytes 4 (src_port h) ++
  le_bytes 4 (dst_port h) ++ le_bytes 4 (h_len h) ++ le_bytes 2 (typ h) ++ le_bytes 2 (op h) ++
  le_bytes 4 (h_flags h) ++ le_bytes 4 (buf_alloc h) ++ le_bytes 4 (fwd_cnt h).

(** A header from a host port to the agent. *)
Definition to_agent (host_port op_ flags len fwd : Z) : Hdr :=
  mkHdr HOST_CID GUEST_CID host_port AGENT_PORT len TYPE_STREAM op_ flags OUR_BUF_ALLOC fwd.

Definition control_pkt (host_port op_ flags fwd : Z) : list Z :=
  to_bytes (to_agent host_port op_ flags 0 fwd).

Definition addressed_to_us (h : Hdr) : bool :=
  (typ h =? TYPE_STREAM) && (dst_cid h =? HOST_CID) && (src_cid h =? GUEST_CID).

(** ** The host stream *)

Inductive SendResult := Taken (n : Z) | WouldBlock | Interrupted | SendError.
Record Stream := mkStream {
  sends : list SendResult; hangups : list bool; got : list Z; write_shut : bool; both_shut : bool }.

(** [write] of the bytes waiting: what the host's socket answers next, a socket
    with nothing left to say being full. *)
Definition stream_write (s : Stream) (data : list Z) : Stream * SendResult :=
  match sends s with
  | [] => (s, WouldBlock)
  | Taken n :: k =>
      let n := Z.max 0 (Z.min n (zlen data)) in
      (mkStream k (hangups s) (got s ++ take (Z.to_nat n) data) (write_shut s) (both_shut s), Taken n)
  | r :: k => (mkStream k (hangups s) (got s) (write_shut s) (both_shut s), r)
  end.

(** [peer_hung_up]: what the poll answers next. *)
Definition peer_hung_up (s : Stream) : Stream * bool :=
  match hangups s with
  | [] => (s, false)
  | b :: k => (mkStream (sends s) k (got s) (write_shut s) (both_shut s), b)
  end.

Definition shutdown_write (s : Stream) : Stream :=
  mkStream (sends s) (hangups s) (got s) true (both_shut s).

(** ** A connection *)

Inductive ConnState := New | Offered | Connected.
#[export] Instance ConnState_eq_dec : EqDecision ConnState.
Proof. solve_decision. Defined.

(** The gates are the two flags [reader_closed] and [writer_closed]. *)
Record Conn := mkConn {
  stream : Stream; c_state : ConnState; rx_cnt : Z; to_host : list Z;
  backlog : list Z; c_host_eof : bool; c_host_hung_up : bool; c_host_gone : bool;
  host_write_shut : bool; guest_rcv_shut : bool; guest_send_shut : bool; guest_reset : bool;
  told : Z; reset_sent : bool; peer_buf_alloc : Z; peer_fwd_cnt : Z;
  tx_cnt : Z; reader_closed : bool; writer_closed : bool }.

Definition set_stream (c : Conn) (v : Stream) : Conn :=
  mkConn v (c_state c) (rx_cnt c) (to_host c) (backlog c) (c_host_eof c) (c_host_hung_up c) (c_host_gone
    c) (host_write_shut c) (guest_rcv_shut c) (guest_send_shut c) (guest_reset c) (told c) (reset_sent c)
    (peer_buf_alloc c) (peer_fwd_cnt c) (tx_cnt c) (reader_closed c) (writer_closed c).
Definition set_c_state (c : Conn) (v : ConnState) : Conn :=
  mkConn (stream c) v (rx_cnt c) (to_host c) (backlog c) (c_host_eof c) (c_host_hung_up c) (c_host_gone c)
    (host_write_shut c) (guest_rcv_shut c) (guest_send_shut c) (guest_reset c) (told c) (reset_sent c)
    (peer_buf_alloc c) (peer_fwd_cnt c) (tx_cnt c) (reader_closed c) (writer_closed c).
Definition set_rx_cnt (c : Conn) (v : Z) : Conn :=
  mkConn (stream c) (c_state c) v (to_host c) (backlog c) (c_host_eof c) (c_host_hung_up c) (c_host_gone
    c) (host_write_shut c) (guest_rcv_shut c) (guest_send_shut c) (guest_reset c) (told c) (reset_sent c)
    (peer_buf_alloc c) (peer_fwd_cnt c) (tx_cnt c) (reader_closed c) (writer_closed c).
Definition set_to_host (c : Conn) (v : list Z) : Conn :=
  mkConn (stream c) (c_state c) (rx_cnt c) v (backlog c) (c_host_eof c) (c_host_hung_up c) (c_host_gone c)
    (host_write_shut c) (guest_rcv_shut c) (guest_send_shut c) (guest_reset c) (told c) (reset_sent c)
    (peer_buf_alloc c) (peer_fwd_cnt c) (tx_cnt c) (reader_closed c) (writer_closed c).
Definition set_backlog (c : Conn) (v : list Z) : Conn :=
  mkConn (stream c) (c_state c) (rx_cnt c) (to_host c) v (c_host_eof c) (c_host_hung_up c) (c_host_gone c)
    (host_write_shut c) (guest_rcv_shut c) (guest_send_shut c) (guest_reset c) (told c) (reset_sent c)
    (peer_buf_alloc c) (peer_fwd_cnt c) (tx_cnt c) (reader_closed c) (writer_closed c).
Definition set_c_host_eof (c : Conn) (v : bool) : Conn :=
  mkConn (stream c) (c_state c) (rx_cnt c) (to_host c) (backlog c) v (c_host_hung_up c) (c_host_gone c)
    (host_write_shut c) (guest_rcv_shut c) (guest_send_shut c) (guest_reset c) (told c) (reset_sent c)
    (peer_buf_alloc c) (peer_fwd_cnt c) (tx_cnt c) (reader_closed c) (writer_closed c).
Definition set_c_host_hung_up (c : Conn) (v : bool) : Conn :=
  mkConn (stream c) (c_state c) (rx_cnt c) (to_host c) (backlog c) (c_host_eof c) v (c_host_gone c)
    (host_write_shut c) (guest_rcv_shut c) (guest_send_shut c) (guest_reset c) (told c) (reset_sent c)
    (peer_buf_alloc c) (peer_fwd_cnt c) (tx_cnt c) (reader_closed c) (writer_closed c).
Definition set_c_host_gone (c : Conn) (v : bool) : Conn :=
  mkConn (stream c) (c_state c) (rx_cnt c) (to_host c) (backlog c) (c_host_eof c) (c_host_hung_up c) v
    (host_write_shut c) (guest_rcv_shut c) (guest_send_shut c) (guest_reset c) (told c) (reset_sent c)
    (peer_buf_alloc c) (peer_fwd_cnt c) (tx_cnt c) (reader_closed c) (writer_closed c).
Definition set_host_write_shut (c : Conn) (v : bool) : Conn :=
  mkConn (stream c) (c_state c) (rx_cnt c) (to_host c) (backlog c) (c_host_eof c) (c_host_hung_up c)
    (c_host_gone c) v (guest_rcv_shut c) (guest_send_shut c) (guest_reset c) (told c) (reset_sent c)
    (peer_buf_alloc c) (peer_fwd_cnt c) (tx_cnt c) (reader_closed c) (writer_closed c).
Definition set_guest_rcv_shut (c : Conn) (v : bool) : Conn :=
  mkConn (stream c) (c_state c) (rx_cnt c) (to_host c) (backlog c) (c_host_eof c) (c_host_hung_up c)
    (c_host_gone c) (host_write_shut c) v (guest_send_shut c) (guest_reset c) (told c) (reset_sent c)
    (peer_buf_alloc c) (peer_fwd_cnt c) (tx_cnt c) (reader_closed c) (writer_closed c).
Definition set_guest_send_shut (c : Conn) (v : bool) : Conn :=
  mkConn (stream c) (c_state c) (rx_cnt c) (to_host c) (backlog c) (c_host_eof c) (c_host_hung_up c)
    (c_host_gone c) (host_write_shut c) (guest_rcv_shut c) v (guest_reset c) (told c) (reset_sent c)
    (peer_buf_alloc c) (peer_fwd_cnt c) (tx_cnt c) (reader_closed c) (writer_closed c).
Definition set_guest_reset (c : Conn) (v : bool) : Conn :=
  mkConn (stream c) (c_state c) (rx_cnt c) (to_host c) (backlog c) (c_host_eof c) (c_host_hung_up c)
    (c_host_gone c) (host_write_shut c) (guest_rcv_shut c) (guest_send_shut c) v (told c) (reset_sent c)
    (peer_buf_alloc c) (peer_fwd_cnt c) (tx_cnt c) (reader_closed c) (writer_closed c).
Definition set_told (c : Conn) (v : Z) : Conn :=
  mkConn (stream c) (c_state c) (rx_cnt c) (to_host c) (backlog c) (c_host_eof c) (c_host_hung_up c)
    (c_host_gone c) (host_write_shut c) (guest_rcv_shut c) (guest_send_shut c) (guest_reset c) v (reset_sent
    c) (peer_buf_alloc c) (peer_fwd_cnt c) (tx_cnt c) (reader_closed c) (writer_closed c).
Definition set_reset_sent (c : Conn) (v : bool) : Conn :=
  mkConn (stream c) (c_state c) (rx_cnt c) (to_host c) (backlog c) (c_host_eof c) (c_host_hung_up c)
    (c_host_gone c) (host_write_shut c) (guest_rcv_shut c) (guest_send_shut c) (guest_reset c) (told c) v
    (peer_buf_alloc c) (peer_fwd_cnt c) (tx_cnt c) (reader_closed c) (writer_closed c).
Definition set_peer_buf_alloc (c : Conn) (v : Z) : Conn :=
  mkConn (stream c) (c_state c) (rx_cnt c) (to_host c) (backlog c) (c_host_eof c) (c_host_hung_up c)
    (c_host_gone c) (host_write_shut c) (guest_rcv_shut c) (guest_send_shut c) (guest_reset c) (told c)
    (reset_sent c) v (peer_fwd_cnt c) (tx_cnt c) (reader_closed c) (writer_closed c).
Definition set_peer_fwd_cnt (c : Conn) (v : Z) : Conn :=
  mkConn (stream c) (c_state c) (rx_cnt c) (to_host c) (backlog c) (c_host_eof c) (c_host_hung_up c)
    (c_host_gone c) (host_write_shut c) (guest_rcv_shut c) (guest_send_shut c) (guest_reset c) (told c)
    (reset_sent c) (peer_buf_alloc c) v (tx_cnt c) (reader_closed c) (writer_closed c).
Definition set_tx_cnt (c : Conn) (v : Z) : Conn :=
  mkConn (stream c) (c_state c) (rx_cnt c) (to_host c) (backlog c) (c_host_eof c) (c_host_hung_up c)
    (c_host_gone c) (host_write_shut c) (guest_rcv_shut c) (guest_send_shut c) (guest_reset c) (told c)
    (reset_sent c) (peer_buf_alloc c) (peer_fwd_cnt c) v (reader_closed c) (writer_closed c).
Definition set_reader_closed (c : Conn) (v : bool) : Conn :=
  mkConn (stream c) (c_state c) (rx_cnt c) (to_host c) (backlog c) (c_host_eof c) (c_host_hung_up c)
    (c_host_gone c) (host_write_shut c) (guest_rcv_shut c) (guest_send_shut c) (guest_reset c) (told c)
    (reset_sent c) (peer_buf_alloc c) (peer_fwd_cnt c) (tx_cnt c) v (writer_closed c).
Definition set_writer_closed (c : Conn) (v : bool) : Conn :=
  mkConn (stream c) (c_state c) (rx_cnt c) (to_host c) (backlog c) (c_host_eof c) (c_host_hung_up c)
    (c_host_gone c) (host_write_shut c) (guest_rcv_shut c) (guest_send_shut c) (guest_reset c) (told c)
    (reset_sent c) (peer_buf_alloc c) (peer_fwd_cnt c) (tx_cnt c) (reader_closed c) v.


Definition is_empty {A} (l : list A) : bool := match l with [] => true | _ => false end.
Definition is_state (c : Conn) (s : ConnState) : bool := bool_decide (c_state c = s).
Definition has_flag (v f : Z) : bool := negb (Z.land v f =? 0).

Definition new_conn (s : Stream) : Conn :=
  mkConn s New 0 [] [] false false false false false false false 0 false 0 0 0 false true.

Definition credit (c : Conn) : Z :=
  let in_flight := u32 (tx_cnt c - peer_fwd_cnt c) in
  saturating_sub (peer_buf_alloc c) in_flight.

Definition guest_full_close (c : Conn) : bool := guest_rcv_shut c && guest_send_shut c.

Definition host_half_open (c : Conn) : bool :=
  c_host_eof c && negb (c_host_hung_up c) && negb (c_host_gone c).

Definition to_guest_done (c : Conn) : bool :=
  guest_rcv_shut c || reset_sent c || has_flag (told c) SHUTDOWN_SEND.

Definition to_host_done (c : Conn) : bool :=
  is_empty (to_host c) && (guest_send_shut c || reset_sent c || has_flag (told c) SHUTDOWN_RCV).

(** [Drop for Conn]: the stream is shut down and both gates open. *)
Definition drop_conn (c : Conn) : Conn :=
  let s := stream c in
  set_writer_closed (set_reader_closed
    (set_stream c (mkStream (sends s) (hangups s) (got s) (write_shut s) true)) false) false.

(** The three steps of [settle] on one connection. First, the host stream's write
    half. *)
Definition settle_host_write (c : Conn) : Conn :=
  if guest_send_shut c && is_empty (to_host c) && negb (host_write_shut c) && negb (c_host_gone c)
  then set_stream (set_host_write_shut c true) (shutdown_write (stream c))
  else c.

(** Second, what the guest hears of the host's end. *)
Definition settle_tell (port : Z) (c : Conn) : Conn * list (list Z) :=
  let guest_open := negb (guest_reset c) && negb (reset_sent c) && negb (guest_full_close c) in
  if guest_open && c_host_eof c && is_empty (backlog c) && negb (told c =? SHUTDOWN_BOTH) then
    if c_host_gone c then (set_reset_sent c true, [control_pkt port OP_RST 0 (rx_cnt c)])
    else
      let c :=
        if (told c =? 0) && negb (c_host_hung_up c) && negb (guest_rcv_shut c) then
          let '(s, b) := peer_hung_up (stream c) in set_c_host_hung_up (set_stream c s) b
        else c in
      let flags := if guest_rcv_shut c then 0 else SHUTDOWN_SEND in
      let flags := if c_host_hung_up c then Z.lor flags SHUTDOWN_BOTH else flags in
      if negb (Z.ldiff flags (told c) =? 0) then
        let c := set_told c (Z.lor (told c) flags) in
        (c, [control_pkt port OP_SHUTDOWN (told c) (rx_cnt c)])
      else (c, [])
  else (c, []).

(** Third, the end of the connection: the packet it leaves behind, if it ends. *)
Definition settle_end (port : Z) (c : Conn) : option (list (list Z)) :=
  if to_guest_done c && to_host_done c then
    Some (if negb (guest_reset c) && negb (reset_sent c) then
            if guest_full_close c then [control_pkt port OP_RST 0 (rx_cnt c)]
            else if negb (told c =? SHUTDOWN_BOTH) then [control_pkt port OP_SHUTDOWN SHUTDOWN_BOTH (rx_cnt c)]
            else []
          else [])
  else None.

(** The send loop of [flush_to_host]: the connection, the bytes sent, and whether
    a send failed. Each pass consumes a result of the stream's script. *)
Fixpoint send_loop (fuel : nat) (c : Conn) (sent : Z) : Conn * Z * bool :=
  match fuel with
  | O => (c, sent, false)
  | S fuel =>
      if is_empty (to_host c) then (c, sent, false)
      else
        let '(s, r) := stream_write (stream c) (to_host c) in
        let c := set_stream c s in
        match r with
        | Taken n =>
            if n =? 0 then (c, sent, false)
            else send_loop fuel (set_to_host c (drop (Z.to_nat n) (to_host c))) (sent + n)
        | Interrupted => send_loop fuel c sent
        | WouldBlock => (c, sent, false)
        | SendError => (c, sent, true)
        end
  end.
Definition send_all (c : Conn) : Conn * Z * bool := send_loop (S (length (sends (stream c)))) c 0.

(** ** The device *)

(** The RX, TX and event queues, selected by [queue_sel % 3]. *)
Record Queues := mkQueues { rxq : Queue; txq : Queue; evq : Queue }.
Definition get_queue (q : Queues) (i : Z) : Queue :=
  if i =? 0 then rxq q else if i =? 1 then txq q else evq q.
Definition put_queue (q : Queues) (i : Z) (x : Queue) : Queues :=
  if i =? 0 then mkQueues x (txq q) (evq q)
  else if i =? 1 then mkQueues (rxq q) x (evq q) else mkQueues (rxq q) (txq q) x.

(** One packet taken off [pending] for an RX buffer: the queue and RAM as the fill
    found them, and RAM as it left them. *)
Record Fill := mkFill { f_queue : Queue; f_before : GuestRam; f_after : GuestRam; f_pkt : list Z }.

Section Vsock.
Context {L : Type} `{IrqLine L}.

(** [popped] logs the packets taken off [pending] for an RX buffer, with what the
    fill did to RAM; [dropped] logs the connections that ended, as
    their [Drop] left them. *)
Record VirtioVsock := mkVsock {
  v_status : Z; v_feat_sel : Z; queue_sel : Z; queues : Queues;
  v_interrupt : Z; v_irq : Irq L; v_pending : list (list Z); conns : gmap Z Conn;
  next_port : Z; next_turn : Z; popped : list Fill; dropped : list (Z * Conn) }.

Definition set_v_status (d : VirtioVsock) (v : Z) : VirtioVsock :=
  mkVsock v (v_feat_sel d) (queue_sel d) (queues d) (v_interrupt d) (v_irq d) (v_pending d) (conns d)
    (next_port d) (next_turn d) (popped d) (dropped d).
Definition set_v_feat_sel (d : VirtioVsock) (v : Z) : VirtioVsock :=
  mkVsock (v_status d) v (queue_sel d) (queues d) (v_interrupt d) (v_irq d) (v_pending d) (conns d)
    (next_port d) (next_turn d) (popped d) (dropped d).
Definition set_queue_sel (d : VirtioVsock) (v : Z) : VirtioVsock :=
  mkVsock (v_status d) (v_feat_sel d) v (queues d) (v_interrupt d) (v_irq d) (v_pending d) (conns d)
    (next_port d) (next_turn d) (popped d) (dropped d).
Definition set_queues (d : VirtioVsock) (v : Queues) : VirtioVsock :=
  mkVsock (v_status d) (v_feat_sel d) (queue_sel d) v (v_interrupt d) (v_irq d) (v_pending d) (conns d)
    (next_port d) (next_turn d) (popped d) (dropped d).
Definition set_v_interrupt (d : VirtioVsock) (v : Z) : VirtioVsock :=
  mkVsock (v_status d) (v_feat_sel d) (queue_sel d) (queues d) v (v_irq d) (v_pending d) (conns d)
    (next_port d) (next_turn d) (popped d) (dropped d).
Definition set_v_irq (d : VirtioVsock) (v : Irq L) : VirtioVsock :=
  mkVsock (v_status d) (v_feat_sel d) (queue_sel d) (queues d) (v_interrupt d) v (v_pending d) (conns d)
    (next_port d) (next_turn d) (popped d) (dropped d).
Definition set_v_pending (d : VirtioVsock) (v : list (list Z)) : VirtioVsock :=
  mkVsock (v_status d) (v_feat_sel d) (queue_sel d) (queues d) (v_interrupt d) (v_irq d) v (conns d)
    (next_port d) (next_turn d) (popped d) (dropped d).
Definition set_conns (d : VirtioVsock) (v : gmap Z Conn) : VirtioVsock :=
  mkVsock (v_status d) (v_feat_sel d) (queue_sel d) (queues d) (v_interrupt d) (v_irq d) (v_pending d) v
    (next_port d) (next_turn d) (popped d) (dropped d).
Definition set_next_port (d : VirtioVsock) (v : Z) : VirtioVsock :=
  mkVsock (v_status d) (v_feat_sel d) (queue_sel d) (queues d) (v_interrupt d) (v_irq d) (v_pending d)
    (conns d) v (next_turn d) (popped d) (dropped d).
Definition set_next_turn (d : VirtioVsock) (v : Z) : VirtioVsock :=
  mkVsock (v_status d) (v_feat_sel d) (queue_sel d) (queues d) (v_interrupt d) (v_irq d) (v_pending d)
    (conns d) (next_port d) v (popped d) (dropped d).
Definition set_popped (d : VirtioVsock) (v : list Fill) : VirtioVsock :=
  mkVsock (v_status d) (v_feat_sel d) (queue_sel d) (queues d) (v_interrupt d) (v_irq d) (v_pending d)
    (conns d) (next_port d) (next_turn d) v (dropped d).
Definition set_dropped (d : VirtioVsock) (v : list (Z * Conn)) : VirtioVsock :=
  mkVsock (v_status d) (v_feat_sel d) (queue_sel d) (queues d) (v_interrupt d) (v_irq d) (v_pending d)
    (conns d) (next_port d) (next_turn d) (popped d) v.


Definition new : VirtioVsock :=
  mkVsock 0 0 0 (mkQueues queue_default queue_default queue_default) 0 irq_default [] ∅ 40000 0 [] [].

Definition irq_level (d : VirtioVsock) : bool := negb (v_interrupt d =? 0).
Definition connect_irq (d : VirtioVsock) (l : L) : VirtioVsock := set_v_irq d (Irq.connect (v_irq d) l).
Definition sync_irq (d : VirtioVsock) : VirtioVsock := set_v_irq d (Irq.set (v_irq d) (irq_level d)).

Definition queue (d : VirtioVsock) : Queue := get_queue (queues d) (queue_sel d mod 3).
Definition set_queue (d : VirtioVsock) (q : Queue) : VirtioVsock :=
  set_queues d (put_queue (queues d) (queue_sel d mod 3) q).

Definition set_conn (d : VirtioVsock) (port : Z) (c : Conn) : VirtioVsock :=
  set_conns d (<[port := c]> (conns d)).

(** [conns.remove(&port)] of a connection as it stands, which drops it. *)
Definition remove_conn (d : VirtioVsock) (port : Z) (c : Conn) : VirtioVsock :=
  set_dropped (set_conns d (delete port (conns d))) (dropped d ++ [(port, drop_conn c)]).

(** [conns.clear()]. *)
Definition clear_conns (d : VirtioVsock) : VirtioVsock :=
  set_dropped (set_conns d ∅) (dropped d ++ (prod_map id drop_conn <$> map_to_list (conns d))).

Definition push_pending (d : VirtioVsock) (l : list (list Z)) : VirtioVsock :=
  set_v_pending d (v_pending d ++ l).

Definition reset (d : VirtioVsock) : VirtioVsock :=
  let q := queues d in
  let d := set_queues d (mkQueues (Queue.reset (rxq q)) (Queue.reset (txq q)) (Queue.reset (evq q))) in
  let d := set_v_interrupt (set_v_status (set_v_feat_sel (set_queue_sel d 0) 0) 0) 0 in
  clear_conns (set_v_pending d []).

(** [add_conn] of a stream that took non-blocking mode. *)
Definition add_conn (d : VirtioVsock) (s : Stream) : VirtioVsock * Z :=
  let port := next_port d in
  let d := set_next_port d (u32 (port + 1)) in
  let d := match conns d !! port with Some c => remove_conn d port c | None => d end in
  (set_conn d port (new_conn s), port).

Definition drop_conns (d : VirtioVsock) : VirtioVsock := clear_conns d.

Definition settle (d : VirtioVsock) (port : Z) : VirtioVsock :=
  match conns d !! port with
  | None => d
  | Some c =>
      let c := settle_host_write c in
      let '(c, out) := settle_tell port c in
      match settle_end port c with
      | None => push_pending (set_conn d port c) out
      | Some out' => remove_conn (push_pending d (out ++ out')) port c
      end
  end.

(** Whether [frame_backlog] may frame for a connection. *)
Definition may_frame (c : Conn) : bool :=
  is_state c Connected && negb (is_empty (backlog c)) && (0 <? credit c).

(** [min_by_key(|&port| port.wrapping_sub(turn))]; the keys differ, so the order
    of the iteration does not matter. *)
Definition nearest (turn : Z) (ports : list Z) : option Z :=
  foldr (fun p best =>
    match best with
    | None => Some p
    | Some b => if u32 (p - turn) <=? u32 (b - turn) then Some p else Some b
    end) None ports.

Definition framable (d : VirtioVsock) : list Z :=
  (map_to_list (filter (fun pc => may_frame pc.2 = true) (conns d))).*1.

(** The connection and the packet [frame_backlog] makes of it. *)
Definition frame_conn (port : Z) (c : Conn) : Conn * list Z :=
  let n := Z.min (Z.min (zlen (backlog c)) MAX_RW) (credit c) in
  let pkt := to_bytes (to_agent port OP_RW 0 (u32 n) (rx_cnt c)) ++ take (Z.to_nat n) (backlog c) in
  let c := set_tx_cnt (set_backlog c (drop (Z.to_nat n) (backlog c))) (u32 (tx_cnt c + u32 n)) in
  let c := if zlen (backlog c) <? HOST_BACKLOG_MAX then set_reader_closed c false else c in
  (c, pkt).

Definition frame_backlog (d : VirtioVsock) : VirtioVsock * bool :=
  match nearest (next_turn d) (framable d) with
  | None => (d, false)
  | Some port =>
      let d := set_next_turn d (u32 (port + 1)) in
      match conns d !! port with
      | None => (d, true)
      | Some c =>
          let '(c, pkt) := frame_conn port c in
          (settle (push_pending (set_conn d port c) [pkt]) port, true)
      end
  end.

(** [split_pending]: the part that fits and the rest. *)
Definition split_pkt (pkt : list Z) (cap : Z) : list Z * list Z :=
  let keep := cap - HDR_LEN in
  match parse pkt with
  | None => (pkt, [])
  | Some h =>
      let tail_hdr := mkHdr (src_cid h) (dst_cid h) (src_port h) (dst_port h)
        (u32 (zlen pkt - HDR_LEN - keep)) (typ h) (op h) (h_flags h) (buf_alloc h) (fwd_cnt h) in
      let head_hdr := mkHdr (src_cid h) (dst_cid h) (src_port h) (dst_port h)
        (u32 keep) (typ h) (op h) (h_flags h) (buf_alloc h) (fwd_cnt h) in
      (to_bytes head_hdr ++ drop (Z.to_nat HDR_LEN) (take (Z.to_nat (HDR_LEN + keep)) pkt),
       to_bytes tail_hdr ++ drop (Z.to_nat (HDR_LEN + keep)) pkt)
  end.

(** [rx_chain]: the writable segments, or [None] past the budget. *)
Fixpoint rx_walk (fuel : nat) (q : Queue) (m : GuestRam) (d : Z) : option (list (Z * Z)) :=
  match fuel with
  | O => None
  | S fuel =>
      da ← desc_addr q d;
      e ← read_desc m da;
      let seg := if has_flag (d_flags e) VIRTQ_DESC_F_WRITE then [(d_addr e, d_len e)] else [] in
      if Z.land (d_flags e) VIRTQ_DESC_F_NEXT =? 0 then Some seg
      else rest ← rx_walk fuel q m (d_next e); Some (seg ++ rest)
  end.
Definition rx_chain (q : Queue) (m : GuestRam) (head : Z) : option (list (Z * Z)) :=
  rx_walk (Z.to_nat (size q)) q m head.

Definition seg_total (segs : list (Z * Z)) : Z := foldr (fun s t => s.2 + t) 0 segs.

(** The copy of one packet into its segments: the bytes copied, or a write that
    failed. *)
Fixpoint copy_out (m : GuestRam) (segs : list (Z * Z)) (pkt : list Z) (off : Z) : GuestRam * option Z :=
  match segs with
  | [] => (m, Some off)
  | (addr, len) :: segs =>
      if off =? zlen pkt then (m, Some off)
      else
        let n := Z.min (zlen pkt - off) len in
        match write m addr (sub_bytes pkt off (off + n)) with
        | None => (m, None)
        | Some m => copy_out m segs pkt (off + n)
        end
  end.

(** What an RX buffer can hold of the packet in front. *)
Definition blocks_queue (cap waiting : Z) : bool :=
  (cap <? HDR_LEN) || ((cap <? waiting) && (cap =? HDR_LEN)).

(** One pass of the loop of [fill_rx_buffers] over a packet in front and the head
    of the RX ring; [None] when the loop returns there. *)
Definition fill_step (d : VirtioVsock) (m : GuestRam) : option (VirtioVsock * GuestRam * bool) :=
  let rx := rxq (queues d) in
  let lst := last_avail rx in
  match Queue.pending rx m with
  | None => None
  | Some n =>
      if n =? 0 then None
      else
        slot ← avail_slot rx lst;
        head ← read_u16 m slot;
        segs ← rx_chain rx m head;
        match v_pending d with
        | [] => None
        | pkt :: rest =>
            let cap := seg_total segs in
            if blocks_queue cap (zlen pkt) then None
            else
              let '(pkt, rest) :=
                if cap <? zlen pkt then
                  let '(hd, tl) := split_pkt pkt cap in (hd, tl :: rest)
                else (pkt, rest) in
              let d := set_v_pending d rest in
              match copy_out m segs pkt 0 with
              | (m1, None) => Some (set_popped d (popped d ++ [mkFill rx m m1 pkt]), m1, false)
              | (m1, Some off) =>
                  let m2 := push_used rx m1 head (u32 off) in
                  let q := mkQueues (set_last_avail rx (u16 (lst + 1))) (txq (queues d)) (evq (queues d)) in
                  Some (set_v_interrupt (set_queues (set_popped d (popped d ++ [mkFill rx m m2 pkt])) q)
                          (Z.lor (v_interrupt d) 1), m2, true)
              end
        end
  end.

(** The loop; the flag says that it returned before its fuel ran out. *)
Fixpoint fill_loop (fuel : nat) (d : VirtioVsock) (m : GuestRam) : VirtioVsock * GuestRam * bool :=
  match fuel with
  | O => (d, m, false)
  | S fuel =>
      let '(d, more) := if is_empty (v_pending d) then frame_backlog d else (d, true) in
      if negb more then (d, m, true)
      else match fill_step d m with
      | None => (d, m, true)
      | Some (d, m, false) => (d, m, true)
      | Some (d, m, true) => fill_loop fuel d m
      end
  end.

(** The measure of the work a fill can do: each packet its length, each
    connection its backlog and the packets its close can still add. *)
Definition pkt_weight (p : list Z) : Z := 1 + zlen p.
Definition pkts_weight (l : list (list Z)) : Z := foldr (fun p t => pkt_weight p + t) 0 l.
Definition conn_weight (c : Conn) : Z :=
  100 * zlen (backlog c) + 100 * (3 - told c) + (if reset_sent c then 0 else 100) + 100.
Definition conns_weight (m : gmap Z Conn) : Z := map_fold (fun _ c t => conn_weight c + t) 0 m.
Definition fill_weight (d : VirtioVsock) : Z := pkts_weight (v_pending d) + conns_weight (conns d).

Definition fill_rx_buffers (d : VirtioVsock) (m : GuestRam) : VirtioVsock * GuestRam :=
  if negb (is_ready (rxq (queues d))) then (d, m)
  else (fill_loop (S (Z.to_nat (fill_weight d))) d m).1.

Definition fill_rx (d : VirtioVsock) (m : GuestRam) : VirtioVsock * GuestRam :=
  let '(d, m) := fill_rx_buffers d m in (sync_irq d, m).

(** ** The host's calls *)

Definition connect (d : VirtioVsock) (m : GuestRam) (port : Z) : VirtioVsock * GuestRam :=
  match conns d !! port with
  | None => (d, m)
  | Some c =>
      let d := set_conn d port (set_c_state c Offered) in
      fill_rx (push_pending d [control_pkt port OP_REQUEST 0 0]) m
  end.

(** The flag says whether the reader has to wait at its gate. *)
Definition host_data (d : VirtioVsock) (m : GuestRam) (port : Z) (data : list Z)
    : VirtioVsock * GuestRam * bool :=
  match conns d !! port with
  | None => (d, m, false)
  | Some c =>
      if guest_rcv_shut c then
        if guest_send_shut c then (d, m, false)
        else (set_conn d port (set_reader_closed c true), m, true)
      else
        let d := set_conn d port (set_backlog c (backlog c ++ data)) in
        let '(d, m) := fill_rx d m in
        match conns d !! port with
        | None => (d, m, false)
        | Some c =>
            if zlen (backlog c) <? HOST_BACKLOG_MAX then (d, m, false)
            else (set_conn d port (set_reader_closed c true), m, true)
        end
  end.

Definition host_eof (d : VirtioVsock) (m : GuestRam) (port : Z) : VirtioVsock * GuestRam * bool :=
  match conns d !! port with
  | None => (d, m, false)
  | Some c =>
      let c := set_c_host_eof c true in
      let '(s, b) := peer_hung_up (stream c) in
      let c := set_c_host_hung_up (set_stream c s) b in
      let '(d, m) := fill_rx (settle (set_conn d port c) port) m in
      (d, m, match conns d !! port with Some c => host_half_open c | None => false end)
  end.

Definition host_hung_up (d : VirtioVsock) (m : GuestRam) (port : Z) : VirtioVsock * GuestRam :=
  match conns d !! port with
  | None => (d, m)
  | Some c =>
      if negb (host_half_open c) then (d, m)
      else fill_rx (settle (set_conn d port (set_c_host_hung_up c true)) port) m
  end.

(** The connection half of [host_gone]. *)
Definition gone_conn (port : Z) (c : Conn) : Conn * list (list Z) :=
  let dropped := zlen (to_host c) in
  let c := set_writer_closed (set_to_host (set_c_host_gone c true) []) true in
  let c := set_rx_cnt c (u32 (rx_cnt c + u32 dropped)) in
  let reset_due := c_host_eof c && is_empty (backlog c) in
  let guest_sends := negb (guest_send_shut c) && negb (reset_sent c) in
  if guest_sends && negb (has_flag (told c) SHUTDOWN_RCV) && negb reset_due then
    let c := set_told c (Z.lor (told c) SHUTDOWN_RCV) in
    (c, [control_pkt port OP_SHUTDOWN SHUTDOWN_RCV (rx_cnt c)])
  else (c, []).

Definition host_gone (d : VirtioVsock) (m : GuestRam) (port : Z) : VirtioVsock * GuestRam :=
  match conns d !! port with
  | None => (d, m)
  | Some c =>
      if c_host_gone c then (d, m)
      else
        let '(c, out) := gone_conn port c in
        fill_rx (settle (push_pending (set_conn d port c) out) port) m
  end.

Definition enqueue_credit (d : VirtioVsock) (port fwd : Z) : VirtioVsock :=
  push_pending d [control_pkt port OP_CREDIT_UPDATE 0 fwd].

Definition flush_to_host (d : VirtioVsock) (m : GuestRam) (port : Z) : VirtioVsock * GuestRam * bool :=
  match conns d !! port with
  | None => (d, m, false)
  | Some c =>
      let '(c, sent, gone) := send_all c in
      if gone then
        let '(d, m) := host_gone (set_conn d port c) m port in (d, m, false)
      else
        let c := set_writer_closed c (is_empty (to_host c)) in
        let c := set_rx_cnt c (u32 (rx_cnt c + u32 sent)) in
        let d := set_conn d port c in
        let d := if (0 <? sent) && negb (guest_send_shut c) then enqueue_credit d port (rx_cnt c) else d in
        let '(d, m) := fill_rx (settle d port) m in
        (d, m, bool_decide (is_Some (conns d !! port)))
  end.

(** ** The guest's packets *)

Definition take_credit (d : VirtioVsock) (h : Hdr) : VirtioVsock :=
  if op h =? OP_REQUEST then d
  else match conns d !! dst_port h with
  | None => d
  | Some c =>
      if is_state c New then d
      else set_conn d (dst_port h) (set_peer_fwd_cnt (set_peer_buf_alloc c (buf_alloc h)) (fwd_cnt h))
  end.

(** The guest's [OP_SHUTDOWN] or [OP_RST] on its connection. *)
Definition guest_close (c : Conn) (is_rst : bool) (hflags : Z) : Conn :=
  let flags := if is_rst then SHUTDOWN_BOTH else hflags in
  let c := set_guest_reset c (guest_reset c || is_rst) in
  let c := if has_flag flags SHUTDOWN_RCV then set_backlog (set_guest_rcv_shut c true) [] else c in
  let c := if has_flag flags SHUTDOWN_SEND then set_guest_send_shut c true else c in
  if guest_rcv_shut c then set_reader_closed c (negb (guest_send_shut c)) else c.

(** The [OP_RW] arm; [None] is its early return. *)
Definition handle_rw (d : VirtioVsock) (m : GuestRam) (h : Hdr) (pkt : list Z)
    : option (VirtioVsock * GuestRam) :=
  let port := dst_port h in
  let end_ := HDR_LEN + Z.min (h_len h) (zlen pkt - HDR_LEN) in
  let body := sub_bytes pkt HDR_LEN end_ in
  match conns d !! port with
  | Some c =>
      if is_state c Connected && negb (guest_send_shut c) then
        if c_host_gone c then
          let c := set_rx_cnt c (u32 (rx_cnt c + u32 (zlen body))) in
          Some (enqueue_credit (set_conn d port c) port (rx_cnt c), m)
        else if OUR_BUF_ALLOC <? zlen (to_host c) + zlen body then
          Some (push_pending (remove_conn d port c) [control_pkt port OP_RST 0 (rx_cnt c)], m)
        else
          let '(d, m, _) := flush_to_host (set_conn d port (set_to_host c (to_host c ++ body))) m port in
          Some (d, m)
      else None
  | None => None
  end.

(** The [match h.op] of [handle_pkt]; [None] is an early return. *)
Definition handle_op (d : VirtioVsock) (m : GuestRam) (h : Hdr) (pkt : list Z)
    : option (VirtioVsock * GuestRam) :=
  let port := dst_port h in
  if op h =? OP_RESPONSE then
    Some (match conns d !! port with
          | Some c => if is_state c Offered then set_conn d port (set_c_state c Connected) else d
          | None => d
          end, m)
  else if op h =? OP_RW then handle_rw d m h pkt
  else if ((op h =? OP_SHUTDOWN) || (op h =? OP_RST))
          && match conns d !! port with Some c => negb (is_state c New) | None => false end then
    Some (match conns d !! port with
          | Some c => settle (set_conn d port (guest_close c (op h =? OP_RST) (h_flags h))) port
          | None => d
          end, m)
  else if op h =? OP_REQUEST then
    Some (push_pending d [to_bytes (mkHdr HOST_CID GUEST_CID (dst_port h) (src_port h) 0 TYPE_STREAM OP_RST 0 0 0)], m)
  else if op h =? OP_CREDIT_REQUEST then
    Some (match conns d !! port with
          | Some c => if is_state c Connected then enqueue_credit d port (rx_cnt c) else d
          | None => d
          end, m)
  else Some (d, m).

Definition handle_pkt (d : VirtioVsock) (m : GuestRam) (pkt : list Z) : VirtioVsock * GuestRam :=
  match parse pkt with
  | None => (d, m)
  | Some h =>
      if negb (addressed_to_us h) then (d, m)
      else if negb (op h =? OP_REQUEST) && negb (src_port h =? AGENT_PORT) then (d, m)
      else
        let d := take_credit d h in
        match handle_op d m h pkt with
        | None => (d, m)
        | Some (d, m) => fill_rx d m
        end
  end.

(** [read_tx]: the packet of a TX chain. *)
Fixpoint tx_walk (fuel : nat) (q : Queue) (m : GuestRam) (d : Z) (buf : list Z) : option (list Z) :=
  match fuel with
  | O => Some buf
  | S fuel =>
      da ← desc_addr q d;
      e ← read_desc m da;
      buf ← (if has_flag (d_flags e) VIRTQ_DESC_F_WRITE then Some buf
             else t ← checked_add (zlen buf) (d_len e);
                  if MAX_TX_PACKET <? t then None
                  else bs ← read m (d_addr e) (d_len e); Some (buf ++ bs));
      if Z.land (d_flags e) VIRTQ_DESC_F_NEXT =? 0 then Some buf else tx_walk fuel q m (d_next e) buf
  end.
Definition read_tx (q : Queue) (m : GuestRam) (head : Z) : option (list Z) :=
  buf ← tx_walk (Z.to_nat (size q)) q m head [];
  if HDR_LEN <=? zlen buf then Some buf else None.

Fixpoint tx_loop (n : nat) (d : VirtioVsock) (m : GuestRam) (lst : Z) : VirtioVsock * GuestRam * Z :=
  match n with
  | O => (d, m, lst)
  | S n =>
      match avail_slot (txq (queues d)) lst with
      | None => (d, m, lst)
      | Some slot =>
          match read_u16 m slot with
          | None => (d, m, lst)
          | Some head =>
              let '(d, m) :=
                match read_tx (txq (queues d)) m head with
                | Some pkt => handle_pkt d m pkt
                | None => (d, m)
                end in
              let m := push_used (txq (queues d)) m head 0 in
              tx_loop n (set_v_interrupt d (Z.lor (v_interrupt d) 1)) m (u16 (lst + 1))
          end
      end
  end.

Definition process_tx (d : VirtioVsock) (m : GuestRam) : VirtioVsock * GuestRam :=
  let tx := txq (queues d) in
  if negb (is_ready tx) then (d, m)
  else match Queue.pending tx m with
  | None => (d, m)
  | Some n =>
      let '(d, m, lst) := tx_loop (Z.to_nat n) d m (last_avail tx) in
      (set_queues d (put_queue (queues d) TX_QUEUE (set_last_avail (txq (queues d)) lst)), m)
  end.

(** ** The register window *)

Definition serve_write (d : VirtioVsock) (m : GuestRam) (offset v : Z) : VirtioVsock * GuestRam :=
  if offset =? Mmio.DEVICE_FEATURES_SEL then (set_v_feat_sel d v, m)
  else if (offset =? Mmio.DRIVER_FEATURES_SEL) || (offset =? Mmio.DRIVER_FEATURES) then (d, m)
  else if offset =? Mmio.QUEUE_SEL then (set_queue_sel d v, m)
  else if offset =? Mmio.QUEUE_NUM then (set_queue d (set_num (queue d) v), m)
  else if offset =? Mmio.QUEUE_READY then (set_queue d (set_ready (queue d) v m), m)
  else if offset =? Mmio.QUEUE_NOTIFY then
    if u16 v =? TX_QUEUE then process_tx d m
    else if u16 v =? RX_QUEUE then fill_rx d m else (d, m)
  else if offset =? Mmio.INTERRUPT_ACK then (set_v_interrupt d (Z.ldiff (v_interrupt d) v), m)
  else if (offset =? Mmio.STATUS) && (v =? 0) then (reset d, m)
  else if offset =? Mmio.STATUS then (set_v_status d v, m)
  else if offset =? Mmio.QUEUE_DESC_LOW then (set_queue d (set_desc_lo (queue d) v), m)
  else if offset =? Mmio.QUEUE_DESC_HIGH then (set_queue d (set_desc_hi (queue d) v), m)
  else if offset =? Mmio.QUEUE_DRIVER_LOW then (set_queue d (set_avail_lo (queue d) v), m)
  else if offset =? Mmio.QUEUE_DRIVER_HIGH then (set_queue d (set_avail_hi (queue d) v), m)
  else if offset =? Mmio.QUEUE_DEVICE_LOW then (set_queue d (set_used_lo (queue d) v), m)
  else if offset =? Mmio.QUEUE_DEVICE_HIGH then (set_queue d (set_used_hi (queue d) v), m)
  else (d, m).

Definition serve_read (d : VirtioVsock) (offset : Z) : Z :=
  if offset =? Mmio.MAGIC then 0x74726976
  else if offset =? Mmio.VERSION then 2
  else if offset =? Mmio.DEVICE_ID then VIRTIO_VSOCK_ID
  else if offset =? Mmio.VENDOR_ID then 0x46494f4e
  else if (offset =? Mmio.DEVICE_FEATURES) && (v_feat_sel d =? 1) then F_VERSION_1_HI
  else if offset =? Mmio.QUEUE_NUM_MAX then QUEUE_NUM_MAX
  else if offset =? Mmio.QUEUE_READY then Z.b2z (is_ready (queue d))
  else if offset =? Mmio.INTERRUPT_STATUS then v_interrupt d
  else if offset =? Mmio.STATUS then v_status d
  else if Mmio.CONFIG <=? offset then default 0 (get_at (le_bytes 8 GUEST_CID) (offset - Mmio.CONFIG))
  else 0.

Definition serve_mmio (d : VirtioVsock) (m : GuestRam) (offset : Z) (is_write : bool) (value : Z)
    : VirtioVsock * GuestRam * Z :=
  if is_write then let '(d, m) := serve_write d m offset (u32 value) in (d, m, 0)
  else (d, m, serve_read d offset).

Definition mmio (d : VirtioVsock) (m : GuestRam) (offset : Z) (is_write : bool) (value : Z)
    : VirtioVsock * GuestRam * Z :=
  let '(d, m, read) := serve_mmio d m offset is_write value in (sync_irq d, m, read).
End Vsock.
Arguments VirtioVsock : clear implicits.
