(* ===== verification/VsockInv.v ===== *)
(** * The vsock device as a step relation

    [cstep] lists every change the device makes to one connection, with the
    packets it queues for the guest; [vstep] lifts it to the device. Each
    operation is a sequence of these steps, so an invariant is proved once per
    step: the handshake, the credit the device extends, the gates of the bridge
    threads, and the packets waiting for the guest. *)

From S2P Require Import Prelude Memory Irq Queue Virtio Vsock.
Local Open Scope Z_scope.

(** ** The header codec *)

Record hdr_ok (h : Hdr) : Prop := {
  ho_src : 0 <= src_cid h < 2 ^ 64; ho_dst : 0 <= dst_cid h < 2 ^ 64;
  ho_sp : 0 <= src_port h < 2 ^ 32; ho_dp : 0 <= dst_port h < 2 ^ 32;
  ho_len : 0 <= h_len h < 2 ^ 32; ho_typ : 0 <= typ h < 2 ^ 16; ho_op : 0 <= op h < 2 ^ 16;
  ho_fl : 0 <= h_flags h < 2 ^ 32; ho_ba : 0 <= buf_alloc h < 2 ^ 32; ho_fw : 0 <= fwd_cnt h < 2 ^ 32;
}.

Lemma to_bytes_len h : zlen (to_bytes h) = HDR_LEN.
Proof. unfold to_bytes, HDR_LEN. rewrite !zlen_app, !zlen_le_bytes. done. Qed.

Lemma to_bytes_ok h : bytes_ok (to_bytes h).
Proof. unfold to_bytes. rewrite !bytes_ok_app. repeat split; apply le_bytes_ok. Qed.

(** Fields are read by skipping those before them. *)
Lemma sub_bytes_skip (l1 l2 : list Z) n a b :
  zlen l1 = n -> n <= a <= b -> sub_bytes (l1 ++ l2) a b = sub_bytes l2 (a - n) (b - n).
Proof.
  intros <- Hn. unfold sub_bytes, get_range. zlen_pos. rewrite zlen_app.
  destruct ((0 <=? a - zlen l1) && (a - zlen l1 <=? b - zlen l1) && (b - zlen l1 <=? zlen l2)) eqn:E.
  - bool_hyps. replace ((0 <=? a) && (a <=? b) && (b <=? zlen l1 + zlen l2)) with true by lia.
    simpl. rewrite drop_app_ge by (unfold zlen in *; lia).
    replace (b - zlen l1 - (a - zlen l1)) with (b - a) by lia.
    by replace (Z.to_nat a - length l1)%nat with (Z.to_nat (a - zlen l1)) by (unfold zlen in *; lia).
  - replace ((0 <=? a) && (a <=? b) && (b <=? zlen l1 + zlen l2)) with false; [done|].
    symmetry. apply not_true_iff_false. intros Ht. bool_hyps. apply not_true_iff_false in E. apply E. lia.
Qed.

Lemma field_front n v post a b :
  a = 0 -> b = Z.of_nat n -> 0 <= v < 2 ^ (8 * Z.of_nat n) ->
  le_val (sub_bytes (le_bytes n v ++ post) a b) = v.
Proof.
  intros -> -> Hv. unfold sub_bytes. rewrite (get_range_app3 [] (le_bytes n v) post); [|done|by rewrite zlen_le_bytes].
  by apply le_val_le_bytes.
Qed.

Ltac next_field := repeat (erewrite sub_bytes_skip; [|apply zlen_le_bytes|lia]).

Lemma parse_to_bytes h rest : hdr_ok h -> parse (to_bytes h ++ rest) = Some h.
Proof.
  intros [? ? ? ? ? ? ? ? ? ?]. unfold parse.
  rewrite (proj2 (Z.ltb_ge _ _)) by (rewrite zlen_app, to_bytes_len; zlen_pos; lia).
  unfold to_bytes. f_equal. destruct h as [f0 f1 f2 f3 f4 f5 f6 f7 f8 f9].
  cbn [src_cid dst_cid src_port dst_port h_len typ op h_flags buf_alloc fwd_cnt] in *. rewrite <-!app_assoc.
  f_equal; next_field; (apply field_front; [lia|lia|done]).
Qed.

Lemma sub_bytes_join b x y z :
  0 <= x <= y -> y <= z -> z <= zlen b -> sub_bytes b x y ++ sub_bytes b y z = sub_bytes b x z.
Proof.
  intros. rewrite !sub_bytes_eq by lia. replace (Z.to_nat y) with (Z.to_nat x + Z.to_nat (y - x))%nat by lia.
  rewrite <-drop_drop. replace (Z.to_nat (z - x)) with (Z.to_nat (y - x) + Z.to_nat (z - y))%nat by lia.
  by rewrite <-take_take_drop.
Qed.

Lemma field_back b a n c :
  bytes_ok b -> 0 <= a -> c = a + Z.of_nat n -> c <= zlen b ->
  le_bytes n (le_val (sub_bytes b a c)) = sub_bytes b a c /\
  0 <= le_val (sub_bytes b a c) < 2 ^ (8 * Z.of_nat n).
Proof.
  intros Hb Ha -> Hc. assert (zlen (sub_bytes b a (a + Z.of_nat n)) = Z.of_nat n) as Hl
    by (rewrite zlen_sub_bytes; lia).
  assert (bytes_ok (sub_bytes b a (a + Z.of_nat n))) as Hb' by (rewrite sub_bytes_eq by lia; auto with hvi).
  split; [|pose proof (le_val_range _ Hb') as Hr; by rewrite Hl in Hr].
  rewrite <-(le_bytes_le_val _ Hb') at 2. f_equal. unfold zlen in Hl. lia.
Qed.

Lemma to_bytes_parse b h :
  bytes_ok b -> parse b = Some h -> hdr_ok h /\ to_bytes h = take (Z.to_nat HDR_LEN) b.
Proof.
  intros Hb. unfold parse. destruct (Z.ltb_spec (zlen b) HDR_LEN) as [|Hl]; [done|]. unfold HDR_LEN in *.
  intros [= <-]. assert (forall a n c, 0 <= a -> c = a + Z.of_nat n -> c <= 44 ->
    le_bytes n (le_val (sub_bytes b a c)) = sub_bytes b a c /\
    0 <= le_val (sub_bytes b a c) < 2 ^ (8 * Z.of_nat n)) as F by (intros; apply field_back; auto; lia).
  split; [split; cbn [src_cid dst_cid src_port dst_port h_len typ op h_flags buf_alloc fwd_cnt]|].
  - by apply (F _ 8%nat).
  - by apply (F _ 8%nat).
  - by apply (F _ 4%nat).
  - by apply (F _ 4%nat).
  - by apply (F _ 4%nat).
  - by apply (F _ 2%nat).
  - by apply (F _ 2%nat).
  - by apply (F _ 4%nat).
  - by apply (F _ 4%nat).
  - by apply (F _ 4%nat).
  - unfold to_bytes. cbn [src_cid dst_cid src_port dst_port h_len typ op h_flags buf_alloc fwd_cnt].
    assert (forall a n c, 0 <= a -> c = a + Z.of_nat n -> c <= 44 ->
      le_bytes n (le_val (sub_bytes b a c)) = sub_bytes b a c) as F1 by (intros; by apply F).
    rewrite !F1 by lia. rewrite !sub_bytes_join by lia.
    rewrite sub_bytes_eq by lia. done.
Qed.

(** ** Packets for the guest *)

(** A header whose length is its payload's, from the host; the payload is one
    read's at most. *)
Definition pkt_ok (p : list Z) : Prop :=
  exists h body, p = to_bytes h ++ body /\ hdr_ok h /\ h_len h = zlen body /\ bytes_ok body /\
    src_cid h = HOST_CID /\ dst_cid h = GUEST_CID /\ zlen body <= MAX_RW.

(** The port of a packet, and the bytes it carries. *)
Definition pkt_port (p : list Z) : option Z := src_port <$> parse p.
Definition pkt_op (p : list Z) : option Z := op <$> parse p.
Definition payload (p : list Z) : list Z := drop (Z.to_nat HDR_LEN) p.

Lemma payload_app h body : payload (to_bytes h ++ body) = body.
Proof.
  unfold payload. replace (Z.to_nat HDR_LEN) with (length (to_bytes h)); [apply drop_app_length|].
  pose proof (to_bytes_len h). unfold zlen in *. lia.
Qed.

Lemma to_agent_ok port o flags len fwd :
  0 <= port < 2 ^ 32 -> 0 <= o < 2 ^ 16 -> 0 <= flags < 2 ^ 32 -> 0 <= len < 2 ^ 32 -> 0 <= fwd < 2 ^ 32 ->
  hdr_ok (to_agent port o flags len fwd).
Proof. intros. by split. Qed.

Lemma control_parse port o flags fwd :
  0 <= port < 2 ^ 32 -> 0 <= o < 2 ^ 16 -> 0 <= flags < 2 ^ 32 -> 0 <= fwd < 2 ^ 32 ->
  parse (control_pkt port o flags fwd) = Some (to_agent port o flags 0 fwd).
Proof.
  intros. rewrite <-(app_nil_r (control_pkt _ _ _ _)). apply parse_to_bytes. by apply to_agent_ok.
Qed.

Lemma control_ok port o flags fwd :
  0 <= port < 2 ^ 32 -> 0 <= o < 2 ^ 16 -> 0 <= flags < 2 ^ 32 -> 0 <= fwd < 2 ^ 32 ->
  pkt_ok (control_pkt port o flags fwd) /\ payload (control_pkt port o flags fwd) = [].
Proof.
  intros. split.
  - exists (to_agent port o flags 0 fwd), []. rewrite app_nil_r. split; [done|].
    split; [by apply to_agent_ok|]. split; [done|]. split; [constructor|done].
  - rewrite <-(app_nil_r (control_pkt _ _ _ _)). apply payload_app.
Qed.

(** ** The steps of a connection *)

Definition writer_synced (c : Conn) (sent : Z) : Conn :=
  set_rx_cnt (set_writer_closed c (is_empty (to_host c))) (u32 (rx_cnt c + u32 sent)).

(** The guest's bytes a flush starts from: those waiting, and those of an [OP_RW]
    the connection takes. *)
Inductive relays : Conn -> list Z -> Prop :=
  | R_flush c : relays c []
  | R_rw c body : c_state c = Connected -> guest_send_shut c = false -> c_host_gone c = false ->
      zlen (to_host c) + zlen body <= OUR_BUF_ALLOC -> relays c body.

Inductive cstep (port : Z) : Conn -> Conn -> list (list Z) -> Prop :=
  | CS_host_write c : cstep port c (settle_host_write c) []
  | CS_tell c c' out : settle_tell port c = (c', out) -> cstep port c c' out
  | CS_frame c c' p : may_frame c = true -> frame_conn port c = (c', p) -> cstep port c c' [p]
  | CS_offer c : c_state c = New -> cstep port c (set_c_state c Offered) [control_pkt port OP_REQUEST 0 0]
  | CS_accept c : c_state c = Offered -> cstep port c (set_c_state c Connected) []
  | CS_wait c :
      (guest_rcv_shut c = true /\ guest_send_shut c = false) \/ HOST_BACKLOG_MAX <= zlen (backlog c) ->
      cstep port c (set_reader_closed c true) []
  | CS_data c data : guest_rcv_shut c = false -> bytes_ok data ->
      cstep port c (set_backlog c (backlog c ++ data)) []
  | CS_eof c s b : peer_hung_up (stream c) = (s, b) ->
      cstep port c (set_c_host_hung_up (set_stream (set_c_host_eof c true) s) b) []
  | CS_hung c : cstep port c (set_c_host_hung_up c true) []
  | CS_gone c c' out : c_host_gone c = false -> gone_conn port c = (c', out) -> cstep port c c' out
  | CS_send c body c' sent : relays c body -> bytes_ok body ->
      send_all (set_to_host c (to_host c ++ body)) = (c', sent, false) ->
      cstep port c (writer_synced c' sent)
        (if (0 <? sent) && negb (guest_send_shut c)
         then [control_pkt port OP_CREDIT_UPDATE 0 (rx_cnt (writer_synced c' sent))] else [])
  | CS_send_gone c body c1 sent c' out : relays c body -> bytes_ok body ->
      send_all (set_to_host c (to_host c ++ body)) = (c1, sent, true) -> gone_conn port c1 = (c', out) ->
      cstep port c c' out
  | CS_late c n : c_host_gone c = true -> c_state c = Connected -> 0 <= n ->
      cstep port c (set_rx_cnt c (u32 (rx_cnt c + u32 n)))
        [control_pkt port OP_CREDIT_UPDATE 0 (u32 (rx_cnt c + u32 n))]
  | CS_credit c ba fc : c_state c <> New -> 0 <= ba < 2 ^ 32 -> 0 <= fc < 2 ^ 32 ->
      cstep port c (set_peer_fwd_cnt (set_peer_buf_alloc c ba) fc) []
  | CS_answer c : c_state c = Connected -> cstep port c c [control_pkt port OP_CREDIT_UPDATE 0 (rx_cnt c)]
  | CS_guest_close c rst flags : c_state c <> New -> cstep port c (guest_close c rst flags) [].

(** How a connection ends: the packets it leaves. *)
Inductive cend (port : Z) : Conn -> list (list Z) -> Prop :=
  | CE_settle c out : settle_end port c = Some out -> cend port c out
  | CE_overrun c (body : list Z) : c_state c = Connected -> guest_send_shut c = false -> c_host_gone c = false ->
      OUR_BUF_ALLOC < zlen (to_host c) + zlen body -> cend port c [control_pkt port OP_RST 0 (rx_cnt c)].

(** ** The invariant of a connection *)

Record conn_ok (c : Conn) : Prop := {
  ck_told : 0 <= told c < 4;
  ck_rx : 0 <= rx_cnt c < 2 ^ 32;
  ck_tx : 0 <= tx_cnt c < 2 ^ 32;
  ck_alloc : 0 <= peer_buf_alloc c < 2 ^ 32;
  ck_fwd : 0 <= peer_fwd_cnt c < 2 ^ 32;
  ck_backlog : bytes_ok (backlog c);
  ck_to_host : bytes_ok (to_host c);
  (** The guest's bytes waiting never exceed the credit we extended. *)
  ck_bound : zlen (to_host c) <= OUR_BUF_ALLOC;
  (** No byte moves before the guest accepts. *)
  ck_quiet : c_state c <> Connected -> tx_cnt c = 0 /\ rx_cnt c = 0 /\ to_host c = [];
  (** The writer waits exactly when there is nothing to write. *)
  ck_writer : writer_closed c = is_empty (to_host c);
  (** The reader waits only for a full backlog or a guest that reads no more. *)
  ck_reader : reader_closed c = true ->
    HOST_BACKLOG_MAX <= zlen (backlog c) \/ (guest_rcv_shut c = true /\ guest_send_shut c = false);
  ck_gone : c_host_gone c = true -> to_host c = [];
  ck_rcv_shut : guest_rcv_shut c = true -> backlog c = [];
  ck_guest_reset : guest_reset c = true -> guest_rcv_shut c = true /\ guest_send_shut c = true;
  ck_reset_sent : reset_sent c = true -> c_host_gone c = true;
  (** The host's stream is shut for writing only once it has every guest byte. *)
  ck_write_shut : host_write_shut c = true -> guest_send_shut c = true /\ to_host c = [];
}.

Lemma new_conn_ok s : conn_ok (new_conn s).
Proof. split; simpl; try done; try constructor. Qed.

Lemma settle_host_write_ok c : conn_ok c -> conn_ok (settle_host_write c).
Proof.
  intros Hc. unfold settle_host_write. destruct (_ && _) eqn:E; [|done].
  destruct Hc. split; simpl; try done. intros _. bool_hyps. by destruct (to_host c).
Qed.

(** The hangup check of [settle_tell]. *)
Definition tell_poll (c : Conn) : Conn :=
  if (told c =? 0) && negb (c_host_hung_up c) && negb (guest_rcv_shut c) then
    let '(s, b) := peer_hung_up (stream c) in set_c_host_hung_up (set_stream c s) b
  else c.
Definition tell_flags (c : Conn) : Z :=
  let flags := if guest_rcv_shut c then 0 else SHUTDOWN_SEND in
  if c_host_hung_up c then Z.lor flags SHUTDOWN_BOTH else flags.
Definition tells (c : Conn) : bool :=
  negb (guest_reset c) && negb (reset_sent c) && negb (guest_full_close c) && c_host_eof c
    && is_empty (backlog c) && negb (told c =? SHUTDOWN_BOTH).

(** [settle_tell] by cases: nothing, a reset, or a shutdown with new flags. *)
Lemma settle_tell_cases port c c' out :
  settle_tell port c = (c', out) ->
  (c' = c /\ out = []) \/
  (tells c = true /\ c_host_gone c = true /\ c' = set_reset_sent c true /\
   out = [control_pkt port OP_RST 0 (rx_cnt c)]) \/
  (tells c = true /\ c_host_gone c = false /\ c' = tell_poll c /\ out = []) \/
  (tells c = true /\ c_host_gone c = false /\ Z.ldiff (tell_flags (tell_poll c)) (told (tell_poll c)) <> 0 /\
   c' = set_told (tell_poll c) (Z.lor (told (tell_poll c)) (tell_flags (tell_poll c))) /\
   out = [control_pkt port OP_SHUTDOWN (told c') (rx_cnt c)]).
Proof.
  unfold settle_tell. fold (tell_poll c). fold (tells c). destruct (tells c) eqn:E; [|intros; simplify_eq; auto].
  destruct (c_host_gone c) eqn:G; [intros; simplify_eq; by right; left|].
  fold (tell_flags (tell_poll c)). set (x := tell_poll c).
  assert (rx_cnt x = rx_cnt c) as Hrx by (subst x; unfold tell_poll; destruct (_ && _); [by destruct (peer_hung_up _)|done]).
  destruct (Z.eqb_spec (Z.ldiff (tell_flags x) (told x)) 0); simpl; intros; simplify_eq; [by right; right; left|].
  right. right. right. by rewrite <-Hrx.
Qed.

(** The poll changes only what is known of the host's end. *)
Lemma tell_poll_ok c : conn_ok c -> conn_ok (tell_poll c).
Proof.
  intros Hc. unfold tell_poll. destruct (_ && _); [|done].
  destruct (peer_hung_up _). by destruct Hc.
Qed.
Lemma tell_poll_same c :
  told (tell_poll c) = told c /\ rx_cnt (tell_poll c) = rx_cnt c /\ backlog (tell_poll c) = backlog c /\
  guest_rcv_shut (tell_poll c) = guest_rcv_shut c /\ reset_sent (tell_poll c) = reset_sent c /\
  c_state (tell_poll c) = c_state c.
Proof. unfold tell_poll. destruct (_ && _); [|done]. by destruct (peer_hung_up _). Qed.

Lemma tell_flags_range c : 0 <= tell_flags c < 4.
Proof. unfold tell_flags, SHUTDOWN_BOTH, SHUTDOWN_SEND, SHUTDOWN_RCV. by destruct (guest_rcv_shut c), (c_host_hung_up c). Qed.

Lemma lor4 a b : 0 <= a < 4 -> 0 <= b < 4 -> 0 <= Z.lor a b < 4.
Proof. intros. by apply (lor_range a b 2). Qed.

Lemma settle_tell_ok port c c' out : conn_ok c -> settle_tell port c = (c', out) -> conn_ok c'.
Proof.
  intros Hc. pose proof (tell_poll_ok c Hc) as Hp.
  intros [[-> _]|[(_ & Hg & -> & _)|[(_ & _ & -> & _)|(_ & _ & _ & -> & _)]]]%settle_tell_cases; [done| |done|].
  - by destruct Hc.
  - destruct Hp. split; simpl; try done. apply lor4; [done|apply tell_flags_range].
Qed.

Lemma frame_conn_ok port c c' p : conn_ok c -> may_frame c = true -> frame_conn port c = (c', p) -> conn_ok c'.
Proof.
  intros Hc Hm. unfold frame_conn. cbv zeta. intros [= <- _].
  unfold may_frame, is_state in Hm. bool_hyps. rewrite bool_decide_eq_true in *.
  match goal with |- conn_ok (if ?b then _ else _) => destruct b eqn:E end; bool_hyps; destruct Hc;
    split; simpl in *; try done; auto with hvi; try apply u32_range.
  - intros Hs. by rewrite (ck_rcv_shut0 Hs), drop_nil.
  - intros Hs. by rewrite (ck_rcv_shut0 Hs), drop_nil.
Qed.

Lemma gone_conn_ok port c c' out : conn_ok c -> gone_conn port c = (c', out) -> conn_ok c'.
Proof.
  intros Hc. unfold gone_conn. cbv zeta.
  set (x := set_rx_cnt _ _). assert (conn_ok x) as Hx.
  { destruct Hc. split; simpl; try done; auto with hvi; try apply u32_range; try (by constructor).
    - intros Hs. destruct (ck_quiet0 Hs) as (-> & -> & ->). done.
    - intros Hs. by destruct (ck_write_shut0 Hs). }
  destruct (_ && _); intros; simplify_eq; [|done].
  destruct Hx. split; simpl in *; try done. by apply lor4.
Qed.

(** The send loop moves bytes from the front of [to_host] to the stream. *)
Definition moved (c : Conn) (sent : Z) (c' : Conn) (sent' : Z) : Prop :=
  exists s, c' = set_to_host (set_stream c s) (to_host c') /\
    got s ++ to_host c' = got (stream c) ++ to_host c /\
    sent <= sent' /\ sent' - sent = zlen (to_host c) - zlen (to_host c').

Lemma moved_none c s sent : got s = got (stream c) -> moved c sent (set_stream c s) sent.
Proof. intros E. exists s. destruct c. simpl in *. rewrite E. repeat split; try done; lia. Qed.

Lemma moved_some c s1 sent n c' sent' :
  got s1 = got (stream c) ++ take (Z.to_nat n) (to_host c) -> 0 <= n <= zlen (to_host c) ->
  moved (set_to_host (set_stream c s1) (drop (Z.to_nat n) (to_host c))) (sent + n) c' sent' ->
  moved c sent c' sent'.
Proof.
  intros Hg Hn (s & E & Hm & Hs & Hd). exists s. simpl in Hm, Hd. split; [rewrite E; by destruct c|].
  split; [by rewrite Hm, Hg, <-app_assoc, take_drop|]. rewrite zlen_drop in Hd. split; lia.
Qed.

Lemma send_loop_spec fuel c sent c' sent' gone :
  (length (sends (stream c)) < fuel)%nat -> send_loop fuel c sent = (c', sent', gone) ->
  moved c sent c' sent' /\ (gone = true -> to_host c' <> []).
Proof.
  revert c sent. induction fuel as [|fuel IH]; intros c sent Hf; cbn [send_loop]; [lia|].
  destruct (is_empty (to_host c)) eqn:Et.
  { intros [= <- <- <-]. split; [|done]. assert (c = set_stream c (stream c)) as E by (by destruct c).
    rewrite E at 2. by apply moved_none. }
  assert (to_host c <> []) as Hne by (intros E; by rewrite E in Et).
  unfold stream_write. destruct (sends (stream c)) as [|r k] eqn:Es.
  { intros [= <- <- <-]. split; [by apply moved_none|done]. }
  destruct r as [n| | |]; simpl in Hf.
  - set (n' := Z.max 0 (Z.min n (zlen (to_host c)))).
    assert (0 <= n' <= zlen (to_host c)) as Hn by (subst n'; zlen_pos; lia).
    destruct (Z.eqb_spec n' 0) as [E0|Hn0].
    + intros [= <- <- <-]. split; [|done]. apply moved_none. rewrite E0. apply app_nil_r.
    + intros H. apply IH in H as [Hm Hg]; [|simpl; lia]. split; [|done].
      eapply moved_some; [|exact Hn|exact Hm]. done.
  - intros [= <- <- <-]. split; [by apply moved_none|done].
  - intros H. apply IH in H as [(s & E & Hm) Hg]; [|simpl; lia]. split; [|done]. exists s.
    simpl in Hm. split; [rewrite E; by destruct c|done].
  - intros [= <- <- <-]. split; [by apply moved_none|done].
Qed.

Lemma send_all_spec c c' sent gone :
  send_all c = (c', sent, gone) -> moved c 0 c' sent /\ (gone = true -> to_host c' <> []).
Proof. apply send_loop_spec. lia. Qed.

Lemma bytes_ok_suffix (l1 l2 k : list Z) : bytes_ok k -> l1 ++ l2 = k -> bytes_ok l2.
Proof. intros Hk <-. by apply bytes_ok_app in Hk as [_ ?]. Qed.

(** What the loop leaves waiting is the end of what was waiting. *)
Lemma moved_suffix c sent c' sent' :
  moved c sent c' sent' -> exists pre, to_host c = pre ++ to_host c' /\ zlen pre = sent' - sent.
Proof.
  intros (s & _ & Hg & Hs & Hd). apply app_eq_inv in Hg as [(k & _ & E)|(k & _ & E)].
  - exists k. split; [done|]. rewrite E, zlen_app in Hd. lia.
  - exists []. rewrite E, zlen_app in Hd. zlen_pos. assert (k = []) as -> by (apply zlen_0_inv; lia).
    split; [done|]. rewrite zlen_nil in *. lia.
Qed.

(** A flush keeps the invariant once the writer's gate follows, whatever the
    socket took. *)
Lemma flushed_base c body c' sent gone :
  conn_ok c -> relays c body -> bytes_ok body ->
  send_all (set_to_host c (to_host c ++ body)) = (c', sent, gone) ->
  conn_ok (set_writer_closed c' (is_empty (to_host c'))) /\ (c_state c' <> Connected -> sent = 0).
Proof.
  intros Hc Hr Hb H. apply send_all_spec in H as [Hm _]. pose proof (moved_suffix _ _ _ _ Hm) as (pre & Ep & Hpl).
  destruct Hm as (s & -> & _). simpl in *. set (th := to_host c') in *. clearbody th. clear c'.
  assert (bytes_ok th) as Hth.
  { eapply bytes_ok_suffix; [|symmetry; exact Ep]. apply bytes_ok_app. split; [apply Hc|done]. }
  assert (zlen th <= OUR_BUF_ALLOC) as Hbd.
  { apply (f_equal zlen) in Ep. rewrite !zlen_app in Ep. zlen_pos. pose proof (ck_bound c Hc).
    destruct Hr; [rewrite zlen_nil in *; lia|lia]. }
  assert (to_host c = [] -> relays c [] -> body = [] -> pre = [] /\ th = []) as Hnil.
  { intros E _ ->. rewrite E in Ep. symmetry in Ep. by apply app_nil in Ep. }
  destruct Hc. split; [split; simpl; try done|].
  - intros Hs. destruct (ck_quiet0 Hs) as (H1 & H2 & H3). destruct Hr; [|done].
    by destruct (Hnil H3 (R_flush _) eq_refl) as [_ ->].
  - intros Hg. specialize (ck_gone0 Hg). destruct Hr; [|congruence].
    by destruct (Hnil ck_gone0 (R_flush _) eq_refl) as [_ ->].
  - intros Hs. destruct (ck_write_shut0 Hs) as [Hs1 Hs2]. destruct Hr; [|congruence].
    by destruct (Hnil Hs2 (R_flush _) eq_refl) as [_ ->].
  - intros Hs. destruct (ck_quiet0 Hs) as (H1 & H2 & H3). destruct Hr; [|done].
    destruct (Hnil H3 (R_flush _) eq_refl) as [-> _]. rewrite zlen_nil in Hpl. lia.
Qed.

Lemma flushed_ok c body c' sent gone :
  conn_ok c -> relays c body -> bytes_ok body ->
  send_all (set_to_host c (to_host c ++ body)) = (c', sent, gone) -> conn_ok (writer_synced c' sent).
Proof.
  intros Hc Hr Hb H. destruct (flushed_base _ _ _ _ _ Hc Hr Hb H) as [Hx H0]. unfold writer_synced.
  destruct Hx. split; simpl in *; try done; try apply u32_range.
  intros Hs. destruct (ck_quiet0 Hs) as (H1 & H2 & H3). by rewrite H1, H2, H3, (H0 Hs).
Qed.

(** [guest_close] in one step. *)
Definition closed (c : Conn) (rst rcv snd : bool) : Conn :=
  let rcv' := rcv || guest_rcv_shut c in
  let snd' := snd || guest_send_shut c in
  set_guest_reset (set_guest_rcv_shut (set_guest_send_shut (set_backlog
    (set_reader_closed c (if rcv' then negb snd' else reader_closed c))
    (if rcv then [] else backlog c)) snd') rcv') (guest_reset c || rst).

Lemma guest_close_closed c rst flags :
  guest_close c rst flags =
  closed c rst (rst || has_flag flags SHUTDOWN_RCV) (rst || has_flag flags SHUTDOWN_SEND).
Proof.
  unfold guest_close, closed. destruct rst.
  - change (has_flag SHUTDOWN_BOTH SHUTDOWN_RCV) with true. change (has_flag SHUTDOWN_BOTH SHUTDOWN_SEND) with true. done.
  - cbn [orb]. destruct c as [? ? ? ? ? ? ? ? ? rs ss ? ? ? ? ? ? rc ?].
    by destruct (has_flag flags SHUTDOWN_RCV), (has_flag flags SHUTDOWN_SEND), rs, ss.
Qed.

Lemma closed_ok c rst rcv snd :
  conn_ok c -> (rst = true -> rcv = true /\ snd = true) -> conn_ok (closed c rst rcv snd).
Proof.
  intros [] Hr. split; simpl; try done.
  - destruct rcv; [constructor|done].
  - intros Hx. destruct rcv; simpl in *.
    + right. split; [done|]. by apply negb_true_iff.
    + destruct (guest_rcv_shut c) eqn:E; [right; split; [done|by apply negb_true_iff]|].
      destruct (ck_reader0 Hx) as [?|[? _]]; [by left|done].
  - destruct rcv; [done|]. exact ck_rcv_shut0.
  - intros [Ho|Ho]%orb_true_iff.
    + destruct (ck_guest_reset0 Ho) as [-> ->]. by rewrite !orb_true_r.
    + by destruct (Hr Ho) as [-> ->].
  - intros Hs. destruct (ck_write_shut0 Hs) as [-> ?]. by rewrite orb_true_r.
Qed.

Lemma guest_close_ok c rst flags : conn_ok c -> conn_ok (guest_close c rst flags).
Proof. intros Hc. rewrite guest_close_closed. apply closed_ok; [done|]. by intros ->. Qed.

(** ** The invariant is kept by every step *)

Lemma cstep_ok port c c' out : conn_ok c -> cstep port c c' out -> conn_ok c'.
Proof.
  intros Hc Hs. destruct Hs as [c|c c' out E|c c' p Hm E|c Hn|c Ho|c Hw|c data Hr Hd|c s b E|c|c c' out Hg E
    |c body c' sent Hr Hb E|c body c1 sent c' out Hr Hb E Eg|c n Hg Hst Hn|c ba fc Hn Hba Hfc|c Hst|c rst flags Hn].
  - by apply settle_host_write_ok.
  - by eapply settle_tell_ok.
  - by eapply frame_conn_ok.
  - destruct Hc. split; simpl; try done. intros _. apply ck_quiet0. by rewrite Hn.
  - by destruct Hc.
  - destruct Hc. split; simpl; try done. intros _. destruct Hw as [?|?]; [by right|by left].
  - destruct Hc. split; simpl; try done; [by apply bytes_ok_app| |by rewrite Hr].
    intros Hx. destruct (ck_reader0 Hx) as [?|[? _]]; [left; rewrite zlen_app; zlen_pos; lia|congruence].
  - by destruct Hc.
  - by destruct Hc.
  - by eapply gone_conn_ok.
  - by eapply flushed_ok.
  - destruct (flushed_base _ _ _ _ _ Hc Hr Hb E) as [Hx _].
    eapply (gone_conn_ok port (set_writer_closed c1 (is_empty (to_host c1)))); [exact Hx|exact Eg].
  - destruct Hc. split; simpl; try done; try apply u32_range.
  - by destruct Hc.
  - done.
  - by apply guest_close_ok.
Qed.

(** ** The codec and the host's side of a connection *)

(** The header codec is a bijection on 44-byte headers: parsing what was
    written gives the header back whatever follows it, writing what was parsed
    gives the bytes back, and only a packet shorter than a header is refused. *)
Theorem vsock_hdr_roundtrip (k : Hdr) (rest b : list Z) :
  hdr_ok k -> bytes_ok b ->
  parse (to_bytes k ++ rest) = Some k /\
  match parse b with
  | Some k' => hdr_ok k' /\ to_bytes k' = take (Z.to_nat HDR_LEN) b
  | None => zlen b < HDR_LEN
  end.
Proof.
  intros Hk Hb. split; [by apply parse_to_bytes|]. destruct (parse b) as [k'|] eqn:E; [by apply to_bytes_parse|].
  unfold parse in E. destruct (Z.ltb_spec (zlen b) HDR_LEN); [done|congruence].
Qed.

(** The guest's bytes a connection has taken: those the socket has, then those
    waiting for it. *)
Definition host_bytes (c : Conn) : list Z := got (stream c) ++ to_host c.

(** The send loop moves the guest's bytes to the host's socket in order,
    whatever the socket answers to each send, a part taken, a full buffer, an
    interruption or an error: no byte is lost, repeated or reordered between the
    two, the count is what was moved, nothing else of the connection changes, and
    the loop only gives up with bytes left to send. *)
Theorem vsock_send_fifo (c c' : Conn) (sent : Z) (failed : bool) :
  send_all c = (c', sent, failed) ->
  host_bytes c' = host_bytes c /\
  sent = zlen (to_host c) - zlen (to_host c') /\ 0 <= sent /\
  c' = set_to_host (set_stream c (stream c')) (to_host c') /\
  (failed = true -> to_host c' <> []).
Proof.
  intros E. apply send_all_spec in E as [(s & E & Hg & Hs & Hd) Hf].
  assert (stream c' = s) as <- by (by rewrite E). split; [exact Hg|]. repeat (split; [done || lia|]). done.
Qed.

(** When a send of a flush fails, the connection's credit counter advances by
    the bytes still waiting only: the [sent] bytes that earlier sends of the same
    flush handed to the socket are not counted, so the guest is credited with
    fewer bytes than left its buffer. *)
Theorem flush_gone_undercounts (port : Z) (c c1 c2 : Conn) (sent : Z) (out : list (list Z)) :
  zlen (to_host c) <= OUR_BUF_ALLOC -> send_all c = (c1, sent, true) -> gone_conn port c1 = (c2, out) ->
  host_bytes c1 = host_bytes c /\ stream c2 = stream c1 /\ to_host c2 = [] /\
  rx_cnt c2 = u32 (rx_cnt c + (zlen (to_host c) - sent)).
Proof.
  intros Hb E Eg. apply send_all_spec in E as [(s & E & Hg & Hs & Hd) _].
  assert (stream c1 = s /\ rx_cnt c1 = rx_cnt c) as [E1 E2] by (by rewrite E).
  assert (stream c2 = stream c1 /\ to_host c2 = [] /\ rx_cnt c2 = u32 (rx_cnt c1 + u32 (zlen (to_host c1)))) as (E3 & -> & ->)
    by (revert Eg; unfold gone_conn; cbv zeta; destruct (_ && _); intros Eg; apply pair_equal_spec in Eg as [<- _]; done).
  rewrite <-E1 in Hg. split; [exact Hg|]. split; [done|]. split; [done|]. rewrite E2. unfold OUR_BUF_ALLOC in *. zlen_pos. rewrite (u32_small (zlen _)) by lia.
  f_equal. lia.
Qed.

Definition guest_response : Hdr := mkHdr GUEST_CID HOST_CID AGENT_PORT 40000 0 TYPE_STREAM OP_RESPONSE 0 65536 0.

Lemma vsock_hdr_roundtrip_witness :
  parse (to_bytes guest_response ++ [1; 2]) = Some guest_response /\ parse [1; 2; 3] = None.
Proof.
  split; [|vm_compute; reflexivity].
  refine (proj1 (vsock_hdr_roundtrip guest_response [1; 2] [1; 2; 3] _ _)); [split; vm_compute; split; congruence|].
  repeat constructor; lia.
Defined.

Definition demo_stream : Stream := mkStream [Taken 3; Interrupted; Taken 100] [] [] false false.

(** Three bytes taken, an interruption, then the rest. *)
Definition sent_conn : Conn := Eval vm_compute in (send_all (set_to_host (new_conn demo_stream) [1; 2; 3; 4; 5])).1.1.

Lemma vsock_send_fifo_witness : got (stream sent_conn) = [1; 2; 3; 4; 5] /\ host_bytes sent_conn = [1; 2; 3; 4; 5].
Proof.
  split; [reflexivity|].
  refine (eq_trans (proj1 (vsock_send_fifo (set_to_host (new_conn demo_stream) [1; 2; 3; 4; 5]) sent_conn 5 false _)) _);
    vm_compute; reflexivity.
Defined.

(** The socket took three of five bytes and the next send failed. *)
Definition failing_conn : Conn :=
  set_to_host (set_c_state (new_conn (mkStream [Taken 3; SendError] [] [] false false)) Connected) [1; 2; 3; 4; 5].
Definition failing_gone : Conn := Eval vm_compute in (gone_conn 40000 (send_all failing_conn).1.1).1.

Lemma flush_gone_undercounts_witness : got (stream failing_gone) = [1; 2; 3] /\ rx_cnt failing_gone = 2.
Proof.
  split; [reflexivity|].
  refine (eq_trans (proj2 (proj2 (proj2 (flush_gone_undercounts 40000 failing_conn (send_all failing_conn).1.1 failing_gone 3
    (gone_conn 40000 (send_all failing_conn).1.1).2 _ _ _)))) _); vm_compute; (reflexivity || congruence).
Defined.
