(* ===== verification/VsockStream.v ===== *)
(** * The vsock byte streams

    A session of the device, seen through the connections, the packets waiting
    for the guest and those handed to it, is a sequence of [vstep]s. Next to it
    runs the history of the bytes the host gave each connection. The refinement
    says that what leaves for the guest on a port is always a prefix of that
    port's history, in order, and all of it that is not still waiting. *)

From S2P Require Import Prelude Memory Irq Queue RingView Virtio Vsock VsockInv.
Local Open Scope Z_scope.

(** ** Payloads *)

(** The bytes a list of packets carries for [port], in order. *)
Definition data_for (port : Z) (l : list (list Z)) : list Z :=
  concat ((fun p => if bool_decide (pkt_port p = Some port) then payload p else []) <$> l).

Lemma data_for_app port l k : data_for port (l ++ k) = data_for port l ++ data_for port k.
Proof. unfold data_for. by rewrite fmap_app, concat_app. Qed.
Lemma data_for_cons port p l : data_for port (p :: l) = data_for port [p] ++ data_for port l.
Proof. apply (data_for_app port [p]). Qed.
Lemma data_for_nil port : data_for port [] = [].
Proof. done. Qed.

Lemma data_for_one port p :
  data_for port [p] = if bool_decide (pkt_port p = Some port) then payload p else [].
Proof. unfold data_for. simpl. apply app_nil_r. Qed.

(** A packet without a payload carries nothing. *)
Definition silent (p : list Z) : Prop := pkt_ok p /\ payload p = [].
Lemma data_for_silent port l : Forall silent l -> data_for port l = [].
Proof.
  induction 1 as [|p l [_ Hp] _ IH]; [done|]. rewrite data_for_cons, IH, app_nil_r, data_for_one, Hp.
  by destruct (bool_decide _).
Qed.

Definition port_ok (port : Z) : Prop := 0 <= port < 2 ^ 32.

Lemma control_silent port o flags fwd :
  port_ok port -> 0 <= o < 2 ^ 16 -> 0 <= flags < 2 ^ 32 -> 0 <= fwd < 2 ^ 32 ->
  silent (control_pkt port o flags fwd).
Proof. apply control_ok. Qed.

(** What one step of a connection does to the bytes for the guest. *)
Definition fed_by (c c' : Conn) (out : list (list Z)) (data : list Z) : Prop :=
  out = [] /\ backlog c' = backlog c ++ data /\ guest_rcv_shut c = false /\ guest_rcv_shut c' = false.
Definition flows (port : Z) (c c' : Conn) (out : list (list Z)) : Prop :=
  Forall pkt_ok out /\ (forall q, q <> port -> data_for q out = []) /\
  (guest_rcv_shut c = true -> guest_rcv_shut c' = true) /\
  ((data_for port out ++ backlog c' = backlog c) \/ (data_for port out = [] /\ guest_rcv_shut c' = true)).

Lemma silent_flows port c c' out :
  Forall silent out -> backlog c' = backlog c \/ guest_rcv_shut c' = true ->
  (guest_rcv_shut c = true -> guest_rcv_shut c' = true) -> flows port c c' out.
Proof.
  intros Hs Hb Hr. split; [eapply Forall_impl; [exact Hs|]; by intros ? []|].
  split; [intros; by apply data_for_silent|]. split; [done|].
  rewrite (data_for_silent port out Hs). destruct Hb as [->|]; [by left|by right].
Qed.

Lemma silent_one port o flags fwd :
  port_ok port -> 0 <= o < 2 ^ 16 -> 0 <= flags < 2 ^ 32 -> 0 <= fwd < 2 ^ 32 ->
  Forall silent [control_pkt port o flags fwd].
Proof. intros. constructor; [by apply control_silent|constructor]. Qed.

(** A framed packet carries the front of the backlog. *)
Lemma frame_flows port c c' p :
  port_ok port -> conn_ok c -> may_frame c = true -> frame_conn port c = (c', p) -> flows port c c' [p].
Proof.
  intros Hp Hc Hm. unfold frame_conn. cbv zeta. set (n := Z.min _ _).
  assert (0 < n <= zlen (backlog c) /\ n <= MAX_RW) as [Hn Hn'].
  { unfold may_frame in Hm. bool_hyps. subst n. unfold MAX_RW.
    assert (0 < zlen (backlog c)) by (destruct (backlog c); [done|zlia]). lia. }
  set (body := take (Z.to_nat n) (backlog c)). assert (zlen body = n) as Hl by (subst body; zlia).
  set (h := to_agent port OP_RW 0 (u32 n) (rx_cnt c)). unfold MAX_RW in *.
  assert (hdr_ok h) as Hh by (apply to_agent_ok; try done; [apply u32_range|apply Hc]).
  intros Hcp. apply pair_equal_spec in Hcp as [<- <-].
  assert (pkt_port (to_bytes h ++ body) = Some port) as Hport by (unfold pkt_port; by rewrite parse_to_bytes).
  split; [constructor; [|constructor]|].
  { exists h, body. repeat split; try apply Hh; try done.
    - simpl. rewrite Hl. apply u32_small. lia.
    - subst body. apply bytes_ok_take, Hc.
    - rewrite Hl. done. }
  split; [|split].
  - intros q Hq. rewrite data_for_one, Hport. by rewrite bool_decide_false by congruence.
  - by destruct (_ <? _).
  - left. rewrite data_for_one, Hport, bool_decide_true, payload_app by done. subst body.
    destruct (_ <? _); simpl; by rewrite take_drop.
Qed.

Lemma gone_flows port c c' out :
  port_ok port -> conn_ok (set_writer_closed c (is_empty (to_host c))) -> gone_conn port c = (c', out) -> flows port c c' out.
Proof.
  intros Hp Hc. unfold gone_conn. cbv zeta.
  destruct (_ && _); intros E; apply pair_equal_spec in E as [<- <-]; (apply silent_flows; [|by left|done]).
  - apply silent_one; try done. apply u32_range.
  - constructor.
Qed.

Lemma tell_flows port c c' out :
  port_ok port -> conn_ok c -> settle_tell port c = (c', out) -> flows port c c' out.
Proof.
  intros Hp Hc H. pose proof (settle_tell_ok _ _ _ _ Hc H) as Hc'. destruct (tell_poll_same c) as (Et & _ & Eb & Er & _).
  apply settle_tell_cases in H as [[-> ->]|[(_ & _ & -> & ->)|[(_ & _ & -> & ->)|(_ & _ & _ & -> & ->)]]].
  - apply silent_flows; [constructor|by left|done].
  - apply silent_flows; [apply silent_one; try done; apply Hc|by left|done].
  - apply silent_flows; [constructor|by left|by rewrite Er].
  - apply silent_flows; [|by left|simpl; by rewrite Er].
    apply silent_one; try done; [|apply Hc]. pose proof (ck_told _ Hc'). lia.
Qed.

Lemma cstep_flows port c c' out :
  port_ok port -> conn_ok c -> cstep port c c' out -> (exists data, fed_by c c' out data) \/ flows port c c' out.
Proof.
  intros Hp Hc Hs. pose proof (cstep_ok _ _ _ _ Hc Hs) as Hc'.
  destruct Hs as [c|c c' out E|c c' p Hm E|c Hn|c Ho|c Hw|c data Hr Hd|c s b E|c|c c' out Hg E
    |c body c' sent Hr Hb E|c body c1 sent c' out Hr Hb E Eg|c n Hg Hst Hn|c ba fc Hn Hba Hfc|c Hst|c rst flags Hn].
  - right. unfold settle_host_write. destruct (_ && _); apply silent_flows; try done; by left.
  - right. by apply tell_flows.
  - right. by apply frame_flows.
  - right. apply silent_flows; [by apply silent_one|by left|done].
  - right. apply silent_flows; [done|by left|done].
  - right. apply silent_flows; [done|by left|done].
  - left. exists data. done.
  - right. apply silent_flows; [done|by left|done].
  - right. apply silent_flows; [done|by left|done].
  - right. eapply gone_flows; [done| |exact E]. destruct Hc. by split.
  - right. apply send_all_spec in E as [(s & E & _) _].
    apply silent_flows; [|left; by rewrite E|by rewrite E].
    destruct (_ && _); [|constructor]. apply silent_one; try done. apply Hc'.
  - right. destruct (flushed_base _ _ _ _ _ Hc Hr Hb E) as [Hx _]. apply (gone_flows port c1) in Eg; [|done|done].
    apply send_all_spec in E as [(s & E & _) _]. unfold flows in *. rewrite E in Eg. exact Eg.
  - right. apply silent_flows; [|by left|done]. apply silent_one; try done. apply u32_range.
  - right. apply silent_flows; [done|by left|done].
  - right. apply silent_flows; [|by left|done]. apply silent_one; try done. apply Hc.
  - right. rewrite guest_close_closed. apply silent_flows; [done| |].
    + unfold closed. simpl. destruct (rst || _); [by right|by left].
    + unfold closed. simpl. intros ->. apply orb_true_r.
Qed.

Lemma cend_silent port c out : port_ok port -> conn_ok c -> cend port c out -> Forall silent out.
Proof.
  intros Hp Hc He. destruct He as [c out E|c body _ _ _ _]; [|apply silent_one; try done; apply Hc].
  unfold settle_end in E. destruct (_ && _); [|done]. simplify_eq.
  destruct (negb (guest_reset c) && _); [|constructor].
  destruct (guest_full_close c); [apply silent_one; try done; apply Hc|].
  destruct (negb _); [apply silent_one; try done; apply Hc|constructor].
Qed.

(** ** What the guest reads of a fill *)

(** The buffers the driver posted next, as the fill found them: a chain that ends
    within the ring, whose device-writable buffers lie in RAM, apart from each other
    and from the rings. What the device does plays no part in it. *)
Definition posted_soundly (f : Fill) : Prop :=
  let q := f_queue f in
  exists head segs,
    read_u16 (f_before f) (avail q + 4 + 2 * (last_avail q mod num q)) = Some head /\
    ring_chain q (f_before f) head = Some (segs, true) /\
    let bufs := seg_span <$> from_device segs in
    Forall (seg_in (f_before f)) bufs /\ segs_apart bufs /\
    Forall (fun s => apart s (desc_span q) /\ apart s (used_span q)) bufs /\ apart (desc_span q) (used_span q).

(** What the guest takes from the completion it finds in the RAM the fill left. *)
Definition seen (f : Fill) : list Z := default [] (newest_bytes (f_queue f) (f_after f)).

Definition faithful (f : Fill) : Prop := posted_soundly f -> seen f = f_pkt f.

(** ** The device through its streams *)

Record View := mkView {
  w_conns : gmap Z Conn; w_pending : list (list Z); w_popped : list Fill; w_next : Z }.

Definition view {L} (d : VirtioVsock L) : View :=
  mkView (conns d) (v_pending d) (popped d) (next_port d).

(** The bytes the host gave each connection. *)
Notation History := (gmap Z (list Z)).
Definition hist (H : History) (port : Z) : list Z := default [] (H !! port).

Inductive vstep : View * History -> View * History -> Prop :=
  | V_conn cs pe po nx H port c c' out :
      cs !! port = Some c -> cstep port c c' out -> flows port c c' out ->
      vstep (mkView cs pe po nx, H) (mkView (<[port := c']> cs) (pe ++ out) po nx, H)
  | V_data cs pe po nx H port c c' data :
      cs !! port = Some c -> cstep port c c' [] -> fed_by c c' [] data ->
      vstep (mkView cs pe po nx, H) (mkView (<[port := c']> cs) pe po nx, <[port := hist H port ++ data]> H)
  | V_end cs pe po nx H port c out :
      cs !! port = Some c -> cend port c out ->
      vstep (mkView cs pe po nx, H) (mkView (delete port cs) (pe ++ out) po nx, H)
  | V_add cs pe po nx H s :
      nx + 1 < 2 ^ 32 ->
      vstep (mkView cs pe po nx, H) (mkView (<[nx := new_conn s]> cs) pe po (nx + 1), H)
  | V_drop_all cs pe po nx H : vstep (mkView cs pe po nx, H) (mkView ∅ pe po nx, H)
  | V_clear pe po nx H : vstep (mkView ∅ pe po nx, H) (mkView ∅ [] po nx, H)
  | V_reply cs pe po nx H p : silent p -> vstep (mkView cs pe po nx, H) (mkView cs (pe ++ [p]) po nx, H)
  | V_pop cs p pe po nx H f :
      f_pkt f = p -> faithful f ->
      vstep (mkView cs (p :: pe) po nx, H) (mkView cs pe (po ++ [f]) nx, H)
  | V_split cs p pe po nx H cap :
      HDR_LEN < cap < zlen p ->
      vstep (mkView cs (p :: pe) po nx, H)
        (mkView cs ((split_pkt p cap).1 :: (split_pkt p cap).2 :: pe) po nx, H).

Definition vsteps := rtc vstep.

(** What left for the guest on [port], or is about to. *)
Definition sent_to (w : View) (port : Z) : list Z := data_for port ((f_pkt <$> w_popped w) ++ w_pending w).

Record view_ok (w : View) (H : History) : Prop := {
  wo_conns : forall port c, w_conns w !! port = Some c -> conn_ok c /\ 0 <= port < w_next w;
  wo_next : 0 <= w_next w < 2 ^ 32;
  wo_pending : Forall pkt_ok (w_pending w);
  wo_fresh : forall port, w_next w <= port -> hist H port = [];
  wo_prefix : forall port, sent_to w port `prefix_of` hist H port;
  wo_exact : forall port c, w_conns w !! port = Some c -> guest_rcv_shut c = false ->
    sent_to w port ++ backlog c = hist H port;
  wo_seen : Forall faithful (w_popped w);
}.

(** Splitting a packet moves no byte: two packets on the same port, whose
    payloads are the payload's two parts and whose headers say so. *)
Lemma split_pkt_spec p cap :
  pkt_ok p -> HDR_LEN < cap < zlen p ->
  let '(hd, tl) := split_pkt p cap in
  pkt_ok hd /\ pkt_ok tl /\ pkt_port hd = pkt_port p /\ pkt_port tl = pkt_port p /\
  payload hd ++ payload tl = payload p /\ zlen hd = cap /\ zlen tl < zlen p.
Proof.
  intros (h & body & -> & Hh & Hl & Hb & Hs & Hd & Hmax) Hcap. unfold split_pkt.
  rewrite zlen_app, to_bytes_len in *. unfold HDR_LEN in *.
  rewrite parse_to_bytes by done. set (k := cap - 44) in *. assert (0 < k < zlen body) as Hk by lia.
  assert (Z.to_nat 44 = length (to_bytes h)) as H44 by (pose proof (to_bytes_len h); unfold zlen, HDR_LEN in *; lia).
  assert (drop (Z.to_nat (44 + k)) (to_bytes h ++ body) = drop (Z.to_nat k) body) as ->.
  { replace (Z.to_nat (44 + k)) with (length (to_bytes h) + Z.to_nat k)%nat by lia.
    by rewrite <-drop_drop, drop_app_length. }
  assert (drop (Z.to_nat 44) (take (Z.to_nat (44 + k)) (to_bytes h ++ body)) = take (Z.to_nat k) body) as ->.
  { replace (Z.to_nat (44 + k)) with (length (to_bytes h) + Z.to_nat k)%nat by lia.
    rewrite take_app_add, H44. apply drop_app_length. }
  destruct h as [h0 h1 h2 h3 h4 h5 h6 h7 h8 h9]. destruct Hh. cbn [src_cid dst_cid src_port dst_port h_len typ op h_flags buf_alloc fwd_cnt] in *.
  set (hh := mkHdr h0 h1 h2 h3 (u32 k) h5 h6 h7 h8 h9). set (ht := mkHdr h0 h1 h2 h3 (u32 (44 + zlen body - 44 - k)) h5 h6 h7 h8 h9).
  assert (hdr_ok hh /\ hdr_ok ht) as [Hhh Hht] by (split; split; try done; apply u32_range).
  assert (zlen (take (Z.to_nat k) body) = k /\ zlen (drop (Z.to_nat k) body) = zlen body - k) as [L1 L2] by (split; zlia).
  split; [|split; [|split; [|split; [|split; [|split]]]]].
  - exists hh, (take (Z.to_nat k) body). repeat split; try apply Hhh; try done; auto with hvi; [cbn; rewrite L1; apply u32_small; lia|lia].
  - exists ht, (drop (Z.to_nat k) body). repeat split; try apply Hht; try done; auto with hvi; [cbn; rewrite L2; rewrite u32_small; lia|lia].
  - unfold pkt_port. by rewrite !parse_to_bytes.
  - unfold pkt_port. by rewrite !parse_to_bytes.
  - rewrite !payload_app. apply take_drop.
  - rewrite zlen_app, to_bytes_len, L1. unfold HDR_LEN. lia.
  - rewrite zlen_app, to_bytes_len, L2. unfold HDR_LEN. lia.
Qed.

Lemma hist_insert H port data q : hist (<[port := data]> H) q = if bool_decide (q = port) then data else hist H q.
Proof.
  unfold hist. destruct (decide (q = port)) as [->|].
  - by rewrite lookup_insert_eq, bool_decide_true.
  - by rewrite lookup_insert_ne, bool_decide_false.
Qed.

Lemma sent_to_push cs pe po nx out port :
  sent_to (mkView cs (pe ++ out) po nx) port = sent_to (mkView cs pe po nx) port ++ data_for port out.
Proof. unfold sent_to. simpl. by rewrite app_assoc, data_for_app. Qed.

Lemma sent_to_conns cs cs' pe po nx nx' port :
  sent_to (mkView cs pe po nx) port = sent_to (mkView cs' pe po nx') port.
Proof. done. Qed.

Lemma sent_to_pop cs f pe po nx port :
  sent_to (mkView cs pe (po ++ [f]) nx) port = sent_to (mkView cs (f_pkt f :: pe) po nx) port.
Proof. unfold sent_to. simpl. rewrite fmap_app, <-app_assoc. done. Qed.

Lemma data_for_split port p cap pe :
  pkt_ok p -> HDR_LEN < cap < zlen p ->
  data_for port ((split_pkt p cap).1 :: (split_pkt p cap).2 :: pe) = data_for port (p :: pe).
Proof.
  intros Hp Hc. pose proof (split_pkt_spec p cap Hp Hc) as Hs. destruct (split_pkt p cap) as [hd tl].
  destruct Hs as (_ & _ & E1 & E2 & E & _). simpl.
  rewrite data_for_cons, (data_for_cons port tl), (data_for_cons port p), !data_for_one, E1, E2, app_assoc. f_equal.
  rewrite <-E. by destruct (bool_decide _).
Qed.

(** One connection changed: its own port's account and everyone else's. *)
Lemma conn_changed cs pe po nx H port c c' out :
  view_ok (mkView cs pe po nx) H -> cs !! port = Some c -> conn_ok c' -> flows port c c' out ->
  view_ok (mkView (<[port := c']> cs) (pe ++ out) po nx) H.
Proof.
  intros [Hc Hn Hp Hf Hpre Hex Hseen] Hl Hc' (Hok & Hq & Hr & Hfl). simpl in *. split; simpl; try done.
  - intros q x Hx. destruct (decide (q = port)) as [->|].
    + rewrite lookup_insert_eq in Hx. simplify_eq. split; [done|by apply (Hc port c)].
    + rewrite lookup_insert_ne in Hx by done. by apply Hc.
  - by apply Forall_app.
  - intros q. rewrite sent_to_push. destruct (decide (q = port)) as [->|Hne].
    + destruct Hfl as [Hfl|[-> _]]; [|rewrite app_nil_r; apply Hpre].
      destruct (guest_rcv_shut c) eqn:Er.
      * pose proof (ck_rcv_shut _ (proj1 (Hc _ _ Hl)) Er) as Eb. rewrite Eb in Hfl.
        apply app_nil in Hfl as [-> _]. rewrite app_nil_r. apply Hpre.
      * rewrite <-(Hex port c Hl Er), <-Hfl. apply prefix_app. by exists (backlog c').
    + rewrite Hq, app_nil_r by done. apply Hpre.
  - intros q x Hx Hs. rewrite sent_to_push. destruct (decide (q = port)) as [->|Hne].
    + rewrite lookup_insert_eq in Hx. simplify_eq. destruct Hfl as [Hfl|[_ ?]]; [|congruence].
      assert (guest_rcv_shut c = false) as Er by (destruct (guest_rcv_shut c); [by rewrite Hr in Hs|done]).
      by rewrite <-app_assoc, Hfl, (sent_to_conns _ cs _ _ _ nx), (Hex port c).
    + rewrite lookup_insert_ne in Hx by done. rewrite Hq, app_nil_r by done. by apply (Hex q x).
Qed.

(** Data the connection took from its host. *)
Lemma conn_fed cs pe po nx H port c c' data :
  view_ok (mkView cs pe po nx) H -> cs !! port = Some c -> cstep port c c' [] -> fed_by c c' [] data ->
  view_ok (mkView (<[port := c']> cs) pe po nx) (<[port := hist H port ++ data]> H).
Proof.
  intros Hok Hl Hcs Hfed. destruct (wo_conns _ _ Hok _ _ Hl) as [Hc Hport]. simpl in Hport.
  pose proof (cstep_ok _ _ _ _ Hc Hcs) as Hc'. destruct Hfed as (_ & Eb & Er & Er').
  destruct Hok as [Hcs' Hn Hp Hf Hpre Hex Hseen]. simpl in *. split; simpl; try done.
  - intros q x Hx. destruct (decide (q = port)) as [->|].
    + rewrite lookup_insert_eq in Hx. by simplify_eq.
    + rewrite lookup_insert_ne in Hx by done. by apply Hcs'.
  - intros q Hq. rewrite hist_insert, bool_decide_false by lia. by apply Hf.
  - intros q. rewrite hist_insert. case_bool_decide; [subst; apply prefix_app_r, Hpre|apply Hpre].
  - intros q x Hx Hr. rewrite hist_insert. case_bool_decide; [subst|].
    + rewrite lookup_insert_eq in Hx. simplify_eq. rewrite Eb, app_assoc. f_equal. by apply (Hex port c).
    + rewrite lookup_insert_ne in Hx by done. by apply (Hex q x).
Qed.

Lemma silent_pushed cs pe po nx H out :
  view_ok (mkView cs pe po nx) H -> Forall silent out -> view_ok (mkView cs (pe ++ out) po nx) H.
Proof.
  intros [Hcs' Hn Hp Hf Hpre Hex Hseen] Hsil. simpl in *. split; simpl; try done.
  - apply Forall_app. split; [done|]. eapply Forall_impl; [exact Hsil|]. by intros ? [].
  - intros q. rewrite sent_to_push, data_for_silent, app_nil_r by done. apply Hpre.
  - intros q x Hx Hr. rewrite sent_to_push, data_for_silent, app_nil_r by done. by apply (Hex q x).
Qed.

Lemma conn_deleted cs pe po nx H port :
  view_ok (mkView cs pe po nx) H -> view_ok (mkView (delete port cs) pe po nx) H.
Proof.
  intros [Hcs' Hn Hp Hf Hpre Hex Hseen]. simpl in *. split; simpl; try done.
  - intros q x Hx. apply lookup_delete_Some in Hx as [_ Hx]. by apply Hcs'.
  - intros q x Hx Hr. apply lookup_delete_Some in Hx as [_ Hx]. by apply (Hex q x).
Qed.

Lemma conn_added cs pe po nx H s :
  view_ok (mkView cs pe po nx) H -> nx + 1 < 2 ^ 32 -> view_ok (mkView (<[nx := new_conn s]> cs) pe po (nx + 1)) H.
Proof.
  intros [Hcs' Hn Hp Hf Hpre Hex Hseen] Hnx. simpl in *. split; simpl; try done; try lia.
  - intros q x Hx. destruct (decide (q = nx)) as [->|].
    + rewrite lookup_insert_eq in Hx. simplify_eq. split; [apply new_conn_ok|lia].
    + rewrite lookup_insert_ne in Hx by done. destruct (Hcs' q x Hx). split; [done|lia].
  - intros q Hq. apply Hf. lia.
  - intros q x Hx Hr. destruct (decide (q = nx)) as [->|].
    + rewrite lookup_insert_eq in Hx. simplify_eq. simpl. rewrite app_nil_r.
      specialize (Hpre nx). rewrite (Hf nx) in * by lia. by apply prefix_nil_inv in Hpre.
    + rewrite lookup_insert_ne in Hx by done. by apply (Hex q x).
Qed.

Lemma packet_split cs p pe po nx H cap :
  view_ok (mkView cs (p :: pe) po nx) H -> HDR_LEN < cap < zlen p ->
  view_ok (mkView cs ((split_pkt p cap).1 :: (split_pkt p cap).2 :: pe) po nx) H.
Proof.
  intros [Hcs' Hn Hp Hf Hpre Hex Hseen] Hcap. simpl in *. apply Forall_cons in Hp as [Hp1 Hp].
  pose proof (split_pkt_spec p cap Hp1 Hcap) as Hspec.
  assert (forall q, sent_to (mkView cs ((split_pkt p cap).1 :: (split_pkt p cap).2 :: pe) po nx) q
    = sent_to (mkView cs (p :: pe) po nx) q) as Hsent.
  { intros q. unfold sent_to. simpl. rewrite !data_for_app. f_equal. by apply data_for_split. }
  split; try done; simpl.
  - destruct (split_pkt p cap). by destruct Hspec as (? & ? & _); repeat constructor.
  - intros q. rewrite Hsent. apply Hpre.
  - intros q x Hx Hr. rewrite Hsent. by apply (Hex q x).
Qed.

Lemma vstep_ok w H w' H' : view_ok w H -> vstep (w, H) (w', H') -> view_ok w' H'.
Proof.
  intros Hok Hs. inversion Hs as [cs pe po nx ? port c c' out Hl Hcs Hfl|cs pe po nx ? port c c' data Hl Hcs Hfed
    |cs pe po nx ? port c out Hl He|cs pe po nx ? s Hnx|cs pe po nx ?|pe po nx ?|cs pe po nx ? p Hp
    |cs p pe po nx ? f Ef Hfa|cs p pe po nx ? cap Hcap]; subst.
  - destruct (wo_conns _ _ Hok _ _ Hl) as [Hc _]. eapply conn_changed; [done|done| |done]. by eapply cstep_ok.
  - by eapply conn_fed.
  - destruct (wo_conns _ _ Hok _ _ Hl) as [Hc Hport]. pose proof (wo_next _ _ Hok) as Hn. simpl in *.
    apply silent_pushed; [by apply conn_deleted|]. eapply cend_silent; [|exact Hc|exact He]. split; lia.
  - by apply conn_added.
  - by destruct Hok.
  - destruct Hok as [Hcs' Hn Hp Hf Hpre Hex Hseen]. simpl in *. split; simpl; try done.
    intros q. etrans; [|apply (Hpre q)]. unfold sent_to. simpl. rewrite app_nil_r, data_for_app. by eexists.
  - apply silent_pushed; [done|]. by constructor.
  - destruct Hok as [Hcs' Hn Hp Hf Hpre Hex Hseen]. simpl in *. apply Forall_cons in Hp as [Hp1 Hp]. split; simpl; try done.
    + intros q. rewrite sent_to_pop. apply Hpre.
    + intros q x Hx Hr. rewrite sent_to_pop. by apply (Hex q x).
    + apply Forall_app. by split; [|constructor].
  - by apply packet_split.
Qed.

(** ** Framing *)

(** Framing never overruns the guest: the packet carries between one and 4096
    bytes, the next of the backlog, on its connection's port; the bytes in flight
    grow by exactly those and stay within the buffer the guest advertised, with
    the 32-bit counters wrapping. *)
Theorem frame_within_credit (port : Z) (c c' : Conn) (p : list Z) :
  port_ok port -> conn_ok c -> may_frame c = true -> frame_conn port c = (c', p) ->
  pkt_port p = Some port /\ pkt_op p = Some OP_RW /\
  0 < zlen (payload p) <= MAX_RW /\ payload p ++ backlog c' = backlog c /\
  u32 (tx_cnt c' - peer_fwd_cnt c') = u32 (tx_cnt c - peer_fwd_cnt c) + zlen (payload p) /\
  u32 (tx_cnt c' - peer_fwd_cnt c') <= peer_buf_alloc c'.
Proof.
  intros Hp Hc Hm. unfold frame_conn. cbv zeta. set (n := Z.min _ _).
  assert (0 < n <= zlen (backlog c) /\ n <= MAX_RW /\ n <= credit c) as (Hn & Hn' & Hcr).
  { unfold may_frame in Hm. bool_hyps. subst n. unfold MAX_RW.
    assert (0 < zlen (backlog c)) by (destruct (backlog c); [done|zlia]). lia. }
  set (k := to_agent port OP_RW 0 (u32 n) (rx_cnt c)). set (body := take (Z.to_nat n) (backlog c)).
  assert (hdr_ok k) as Hk by (apply to_agent_ok; try done; [apply u32_range|apply Hc]).
  assert (zlen body = n) as Hl by (subst body; zlia).
  intros E. apply pair_equal_spec in E as [<- <-]. unfold pkt_port, pkt_op. rewrite parse_to_bytes, payload_app, Hl by done.
  split; [done|]. split; [done|]. split; [lia|]. split; [destruct (_ <? _); apply take_drop|].
  assert (u32 (u32 (tx_cnt c + u32 n) - peer_fwd_cnt c) = u32 (tx_cnt c - peer_fwd_cnt c) + n /\
    u32 (tx_cnt c - peer_fwd_cnt c) + n <= peer_buf_alloc c) as [E1 E2].
  { unfold credit, saturating_sub in Hcr. pose proof (ck_alloc c Hc). pose proof (u32_range (tx_cnt c - peer_fwd_cnt c)).
    unfold MAX_RW in *. rewrite (u32_small n) by lia. split; [|lia].
    rewrite <-(u32_small (u32 (tx_cnt c - peer_fwd_cnt c) + n)) by lia. unfold u32. rewrite Zminus_mod_idemp_l, Zplus_mod_idemp_l.
    f_equal. lia. }
  destruct (_ <? _); cbn [tx_cnt peer_fwd_cnt peer_buf_alloc set_reader_closed set_tx_cnt set_backlog]; rewrite E1; done.
Qed.

(** A connection whose counters are about to wrap. *)
Definition wrapping_conn : Conn :=
  set_tx_cnt (set_peer_fwd_cnt (set_peer_buf_alloc (set_backlog (set_c_state (new_conn demo_stream) Connected)
    [9; 8; 7; 6]) 3) (2 ^ 32 - 2)) (2 ^ 32 - 1).

Lemma wrapping_conn_ok : conn_ok wrapping_conn.
Proof. split; simpl; try done; repeat constructor; lia. Qed.

Lemma frame_within_credit_witness :
  let '(c', p) := frame_conn 40000 wrapping_conn in
  payload p = [9; 8] /\ tx_cnt c' = 1 /\ u32 (tx_cnt c' - peer_fwd_cnt c') <= 3.
Proof.
  destruct (frame_conn 40000 wrapping_conn) as [c' p] eqn:E.
  destruct (frame_within_credit 40000 wrapping_conn c' p) as (_ & _ & _ & _ & _ & Hle).
  - split; lia.
  - exact wrapping_conn_ok.
  - reflexivity.
  - exact E.
  - assert (peer_buf_alloc c' = 3 /\ payload p = [9; 8] /\ tx_cnt c' = 1) as (E1 & E2 & E3).
    { replace c' with (frame_conn 40000 wrapping_conn).1 by (by rewrite E).
      replace p with (frame_conn 40000 wrapping_conn).2 by (by rewrite E). vm_compute. done. }
    rewrite E1 in Hle. done.
Defined.
