(* ===== verification/VsockFill.v ===== *)
(** * What a fill leaves in the guest's buffers

    The copy of a packet into a chain the driver posted soundly, followed by the
    completion, is what the guest reads back: the packet, whole. *)

From S2P Require Import Prelude Memory Irq Queue RingView Virtio Vsock VsockInv VsockStream.
Local Open Scope Z_scope.

(** The code's walk of an RX chain, by the specification's chain. *)
Lemma rx_walk_chain n q m i :
  ram_ok m -> queue_ok m q -> is_ready q = true -> 0 <= i ->
  rx_walk n q m i =
    match chain n q m i with Some (segs, true) => Some (seg_span <$> from_device segs) | _ => None end.
Proof.
  intros Hm Hq Hr. revert i. induction n as [|n IH]; intros i Hi; [done|]. cbn [rx_walk chain].
  rewrite (desc_addr_lt m) by done. destruct (Z.leb_spec (num q) i); [done|]. cbn [mbind option_bind].
  destruct (read_desc_fields m q i) as (a & l & f & nx & -> & -> & -> & -> & -> & _ & Hx); [done..|].
  cbn [mbind option_bind d_flags d_len d_addr d_next]. unfold has_flag.
  change VIRTQ_DESC_F_WRITE with (2 ^ 1). change VIRTQ_DESC_F_NEXT with (2 ^ 0). rewrite !land_pow2, negb_involutive by lia.
  assert (forall rest, seg_span <$> from_device (mkSegment a l (Z.testbit f 1) :: rest) =
    (if Z.testbit f 1 then [(a, l)] else []) ++ (seg_span <$> from_device rest)) as Hs.
  { intros rest. unfold from_device. rewrite filter_cons. cbn [device_writes]. by destruct (Z.testbit f 1). }
  destruct (Z.testbit f 0); cbn [negb].
  - rewrite IH by lia. destruct (chain n q m nx) as [[rest []]|]; [|done..]. cbn [mbind option_bind]. by rewrite Hs.
  - rewrite Hs. unfold from_device. by rewrite filter_nil, app_nil_r.
Qed.

Lemma rx_chain_ring q m i :
  ram_ok m -> queue_ok m q -> is_ready q = true -> 0 <= i ->
  rx_chain q m i = match ring_chain q m i with Some (segs, true) => Some (seg_span <$> from_device segs) | _ => None end.
Proof. intros. unfold rx_chain, ring_chain. by rewrite (size_num m q), rx_walk_chain. Qed.

Lemma seg_total_capacity segs : seg_total (seg_span <$> segs) = capacity segs.
Proof. induction segs as [|s segs IH]; [done|]. unfold seg_total, capacity in *. cbn [fmap list_fmap foldr seg_span snd]. by rewrite IH. Qed.

Lemma seg_total_nonneg segs : Forall (fun s : Z * Z => 0 <= s.2) segs -> 0 <= seg_total segs.
Proof. unfold seg_total. induction 1; simpl; lia. Qed.

(** ** The copy *)

Definition span_bytes (m : GuestRam) (segs : list (Z * Z)) : option (list Z) :=
  @concat Z <$> mapM (fun s => read m s.1 s.2) segs.

Lemma contents_span m segs : contents m segs = span_bytes m (seg_span <$> segs).
Proof.
  unfold contents, span_bytes. f_equal. induction segs as [|s segs IH]; [done|]. cbn [mapM fmap list_fmap seg_span fst snd].
  by rewrite IH.
Qed.

Lemma span_bytes_cons m a l segs bs k :
  read m a l = Some bs -> span_bytes m segs = Some k -> span_bytes m ((a, l) :: segs) = Some (bs ++ k).
Proof.
  intros E1 E2. unfold span_bytes in *. cbn [mapM fst snd]. rewrite E1. cbn [mbind option_bind].
  destruct (mapM _ segs); simpl in *; by simplify_eq.
Qed.

Lemma span_bytes_in m segs : Forall (seg_in m) segs -> is_Some (span_bytes m segs).
Proof.
  induction 1 as [|[a l] segs Hs _ [k IH]]; [by eexists|]. apply read_contains in Hs as [bs Hb].
  eexists. by apply (span_bytes_cons m a l segs bs k).
Qed.

(** A write at the front of a buffer is the front of what the buffer reads as. *)
Lemma write_front m a data m1 l :
  ram_ok m -> bytes_ok data -> write m a data = Some m1 -> contains m a l = true -> zlen data <= l ->
  exists bs, read m1 a l = Some bs /\ zlen bs = l /\ take (length data) bs = data.
Proof.
  intros Hm Hd Hw Hc Hl. assert (ram_ok m1) as Hm1 by (by eapply write_ram_ok).
  assert (contains m1 a l = true) as Hc1 by (rewrite (contains_mapped m); [done|by eapply write_mapped]).
  pose proof (zlen_nonneg data). apply read_contains in Hc1 as [bs Hb]. exists bs. split; [done|].
  destruct (read_ok m1 a l bs Hm1 ltac:(lia) Hb) as (Hz & _ & Hby). split; [done|].
  pose proof (write_read_same m a data m1 Hm Hd Hw) as Hr.
  destruct (read_ok m1 a (zlen data) data Hm1 ltac:(lia) Hr) as (_ & _ & Hdy).
  apply bytes_ext; [unfold zlen in *; rewrite length_take; lia|]. intros i Hi.
  assert (0 <= i < zlen data) as Hi' by (unfold zlen in *; rewrite length_take in Hi; lia).
  rewrite <-Hdy by done. rewrite Hby by lia. unfold get_at. destruct (Z.leb_spec 0 i); [|lia].
  rewrite lookup_take_lt; [done|]. unfold zlen in Hi'. lia.
Qed.

(** A packet no longer than its buffers fills their front, and RAM outside them is
    left alone. *)
Lemma copy_out_fills segs m pkt off :
  ram_ok m -> bytes_ok pkt -> 0 <= off <= zlen pkt -> Forall (fun s => 0 <= s.2) segs -> Forall (seg_in m) segs ->
  segs_apart segs -> zlen pkt - off <= seg_total segs ->
  exists m1 bs, copy_out m segs pkt off = (m1, Some (zlen pkt)) /\ ram_evolves m m1 /\ ram_frame segs m m1 /\
    span_bytes m1 segs = Some bs /\ take (Z.to_nat (zlen pkt - off)) bs = drop (Z.to_nat off) pkt.
Proof.
  intros Hm Hp Hoff Hl. revert m off Hm Hoff. induction Hl as [|[a l] segs Hl0 Hl IH]; intros m off Hm Hoff Hin Hap Ht.
  - unfold seg_total in Ht. simpl in Ht. assert (off = zlen pkt) as -> by lia. exists m, []. split; [done|]. split; [done|].
    split; [done|]. split; [done|]. rewrite take_nil, drop_ge by (unfold zlen; lia). done.
  - cbn [copy_out]. destruct (Z.eqb_spec off (zlen pkt)) as [->|Hne].
    { destruct (span_bytes_in m ((a, l) :: segs) Hin) as [bs Hb]. exists m, bs. split; [done|]. split; [done|]. split; [done|].
      split; [done|]. rewrite Z.sub_diag, drop_ge by (unfold zlen; lia). done. }
    apply Forall_cons in Hin as [Ha Hin]. destruct Hap as [Hd Hap]. unfold seg_in in Ha. cbn [fst snd] in *.
    set (n := Z.min (zlen pkt - off) l). assert (0 <= n <= l /\ off + n <= zlen pkt) as [Hn Hon] by lia.
    set (data := sub_bytes pkt off (off + n)). assert (zlen data = n) as Hz by (subst data; rewrite zlen_sub_bytes; lia).
    assert (bytes_ok data) as Hbd by (by apply sub_bytes_ok).
    assert (is_Some (write m a data)) as [m1 Ew].
    { apply write_contains. rewrite Hz. destruct (Z.eq_dec n l) as [->|]; [done|]. rewrite <-(Z.add_0_r a).
      apply (contains_sub m a l); (done || lia). }
    rewrite Ew. destruct (write_front m a data m1 l Hm Hbd Ew Ha ltac:(lia)) as (b1 & Hb1 & Hzb & Htk).
    assert (ram_evolves m m1) as He by (by eapply write_evolves).
    destruct (IH m1 (off + n)) as (m2 & bs & -> & He2 & Hf2 & Hbs & Ebs);
      [by apply He|lia|by eapply seg_in_evolves|done|pose proof (seg_total_nonneg segs Hl); unfold seg_total in *; cbn [foldr snd] in Ht; lia|].
    exists m2, (b1 ++ bs). split; [done|]. split; [by etrans|]. split; [|split].
    + intros h k Hk HF. apply Forall_cons in HF as [Hh HF]. rewrite Hf2 by done.
      eapply write_read_disjoint; [exact Hm|exact Ew|done|done|]. rewrite Hz. unfold apart in Hh. cbn [fst snd] in Hh. lia.
    + apply span_bytes_cons; [|done]. rewrite Hf2; [done|lia|]. eapply Forall_impl; [exact Hd|]. done.
    + assert (drop (Z.to_nat off) pkt = data ++ drop (Z.to_nat (off + n)) pkt) as ->.
      { subst data. rewrite sub_bytes_eq by lia. rewrite <-(take_drop (Z.to_nat (off + n - off)) (drop (Z.to_nat off) pkt)) at 1.
        rewrite drop_drop. do 2 f_equal. lia. }
      destruct (Z.eq_dec n l) as [El|].
      * assert (b1 = data) as -> by (rewrite <-Htk; symmetry; apply take_ge; unfold zlen in *; lia).
        replace (Z.to_nat (zlen pkt - off)) with (length data + Z.to_nat (zlen pkt - (off + n)))%nat by (unfold zlen in *; lia).
        by rewrite take_app_add, Ebs.
      * assert (n = zlen pkt - off) as En by lia. rewrite drop_ge by (unfold zlen in *; lia). rewrite app_nil_r.
        replace (Z.to_nat (zlen pkt - off)) with (length data) by (unfold zlen in *; lia).
        rewrite take_app_le by (unfold zlen in *; lia). done.
Qed.

(** ** The fill *)

(** What the guest reads after a copy and its completion. *)
Lemma fill_seen q m m1 head segs pkt bs :
  ram_ok m -> queue_ok m q -> is_ready q = true -> 0 <= head < 2 ^ 16 -> zlen pkt < 2 ^ 32 ->
  ring_chain q m head = Some (segs, true) ->
  let bufs := seg_span <$> from_device segs in
  Forall (fun s => apart s (desc_span q) /\ apart s (used_span q)) bufs -> apart (desc_span q) (used_span q) ->
  ram_evolves m m1 -> ram_frame bufs m m1 -> span_bytes m1 bufs = Some bs -> take (Z.to_nat (zlen pkt)) bs = pkt ->
  newest_bytes q (push_used q m1 head (u32 (zlen pkt))) = Some pkt.
Proof.
  intros Hm Hq Hr Hh Hz Hc bufs Hap Hdu He Hf Hb Ht. assert (ram_ok m1) as Hm1 by (by apply He).
  assert (queue_ok m1 q) as Hq1 by (by eapply queue_ok_evolves). zlen_pos.
  pose proof (push_used_agrees q m1 head (u32 (zlen pkt)) Hm1 Hq1 Hr) as Ha.
  unfold newest_bytes. rewrite push_used_newest by (done || apply u32_range). cbn [mbind option_bind].
  unfold ring_chain in *. rewrite (chain_agrees _ q m1 _ (used_span q)) by (done || lia).
  rewrite (chain_same _ q m m1); [|intros h k Hk H1 H2; apply Hf; [done|]|lia|done..].
  - rewrite Hc. cbn [mbind option_bind]. rewrite (contents_agrees (used_span q) m1); [|done|].
    + rewrite contents_span. fold bufs. rewrite Hb. cbn [mbind option_bind]. f_equal. rewrite u32_small by lia. exact Ht.
    + pose proof (filter_lens (fun s => device_writes s = true) segs (chain_lens _ _ _ _ _ _ Hm Hc)) as Hl.
      pose proof (proj1 (Forall_forall _ _) Hap) as Hap'. pose proof (proj1 (Forall_forall _ _) Hl) as Hl'.
      apply Forall_forall. intros s Hs. split; [apply (Hl' s Hs)|]. apply (Hap' (seg_span s)). by apply list_elem_of_fmap_2.
  - eapply Forall_impl; [exact Hap|]. intros s [Hs _]. unfold apart, desc_span in *. cbn [fst snd] in *. lia.
Qed.
