(* ===== verification/VsockDev.v ===== *)
(** * The vsock device's operations as steps

    Every operation of the device, the bridge's calls and the guest's accesses
    alike, is a sequence of the [vstep]s of the streams, keeps its queues sound
    and touches the interrupt line only by setting it. The fill loop's measure
    is shown to be enough for every state it can start from. *)

From S2P Require Import Prelude Memory Irq Queue RingView Virtio Vsock VsockInv VsockStream VsockFill.
Local Open Scope Z_scope.

Lemma vsteps_ok p p' : vsteps p p' -> view_ok p.1 p.2 -> view_ok p'.1 p'.2.
Proof.
  induction 1 as [|[w1 H1] [w2 H2] p3 Hs _ IH]; [done|]. intros Hw. apply IH. by eapply vstep_ok.
Qed.

(** A step that adds nothing to the backlog moves bytes only towards the guest. *)
Lemma cstep_quiet port c c' out :
  port_ok port -> conn_ok c -> cstep port c c' out -> zlen (backlog c') <= zlen (backlog c) -> flows port c c' out.
Proof.
  intros Hp Hc Hs Hl. destruct (cstep_flows _ _ _ _ Hp Hc Hs) as [(data & -> & Eb & Er & Er')|]; [|done].
  rewrite Eb, zlen_app in Hl. assert (data = []) as -> by (apply zlen_0_inv; zlen_pos; lia).
  rewrite app_nil_r in Eb. apply silent_flows; [constructor|by left|congruence].
Qed.

Section Moves.
Context {L : Type} {IL : IrqLine L} {ILL : IrqLineLaws L}.
Implicit Types (d : VirtioVsock L) (m : GuestRam) (H : History).

(** The device with the RAM it shares. *)
Definition World : Type := VirtioVsock L * GuestRam.

Record shell_ok (s : World) : Prop := {
  so_ram : ram_ok s.2;
  so_rx : queue_ok s.2 (rxq (queues s.1));
  so_tx : queue_ok s.2 (txq (queues s.1));
  so_ev : queue_ok s.2 (evq (queues s.1));
}.

Record advances H (s s' : World) : Prop := {
  ad_view : vsteps (view s.1, H) (view s'.1, H);
  ad_shell : shell_ok s';
  ad_mapped : mapped s'.2 = mapped s.2;
  ad_irq : sets (v_irq s.1) (v_irq s'.1);
}.

Definition goes H (s s' : World) : Prop := view_ok (view s.1) H -> shell_ok s -> advances H s s'.

#[export] Instance goes_preorder H : PreOrder (goes H).
Proof.
  split; [intros s Hv Hs; split; try done; apply rtc_refl|].
  intros s1 s2 s3 G1 G2 Hv Hs. destruct (G1 Hv Hs) as [V1 S1 M1 I1].
  destruct (G2 (vsteps_ok _ _ V1 Hv) S1) as [V2 S2 M2 I2].
  split; [by etrans|done|congruence|by etrans].
Qed.

Definition same_shell d d' : Prop := queues d' = queues d /\ v_irq d' = v_irq d.

Lemma goes_view H d d' m :
  same_shell d d' -> (view_ok (view d) H -> vsteps (view d, H) (view d', H)) -> goes H (d, m) (d', m).
Proof.
  intros [Eq Ei] Hv Hw [? ? ? ?]. simpl in *. split; simpl; [auto|by split; simpl; rewrite ?Eq|done|rewrite Ei; apply rtc_refl].
Qed.

(** Registers that the streams do not see. *)
Lemma goes_same H d d' m : same_shell d d' -> view d' = view d -> goes H (d, m) (d', m).
Proof. intros Hs E. apply goes_view; [done|]. intros _. rewrite E. apply rtc_refl. Qed.

Lemma push_nil d : push_pending d [] = d.
Proof. destruct d. unfold push_pending, set_v_pending. simpl. by rewrite app_nil_r. Qed.

Lemma view_conn d H port c :
  view_ok (view d) H -> conns d !! port = Some c -> conn_ok c /\ port_ok port.
Proof.
  intros Hv Hc. destruct (wo_conns _ _ Hv port c Hc) as [? Hp]. split; [done|].
  pose proof (wo_next _ _ Hv). simpl in *. unfold port_ok. lia.
Qed.

Lemma goes_conn H d m port c c' out :
  conns d !! port = Some c -> cstep port c c' out -> zlen (backlog c') <= zlen (backlog c) ->
  goes H (d, m) (push_pending (set_conn d port c') out, m).
Proof.
  intros Hc Hs Hb. apply goes_view; [done|]. intros Hv. destruct (view_conn _ _ _ _ Hv Hc).
  apply rtc_once. apply (V_conn _ _ _ _ _ port c); [done|done|by apply cstep_quiet].
Qed.

Lemma goes_conn0 H d m port c c' :
  conns d !! port = Some c -> cstep port c c' [] -> zlen (backlog c') <= zlen (backlog c) ->
  goes H (d, m) (set_conn d port c', m).
Proof. intros. rewrite <-(push_nil (set_conn d port c')). by eapply goes_conn. Qed.

Lemma goes_end H d m port c out :
  conns d !! port = Some c -> cend port c out -> goes H (d, m) (remove_conn (push_pending d out) port c, m).
Proof. intros Hc He. apply goes_view; [done|]. intros _. apply rtc_once. by apply (V_end _ _ _ _ _ port c). Qed.

Lemma goes_reply H d m p : silent p -> goes H (d, m) (push_pending d [p], m).
Proof. intros Hp. apply goes_view; [done|]. intros _. by apply rtc_once, V_reply. Qed.

Lemma set_conn_twice d port c c' : set_conn (set_conn d port c) port c' = set_conn d port c'.
Proof. unfold set_conn, set_conns. simpl. by rewrite insert_insert_eq. Qed.

Lemma settle_tell_backlog port c c' out : settle_tell port c = (c', out) -> backlog c' = backlog c.
Proof.
  destruct (tell_poll_same c) as (_ & _ & Eb & _).
  intros [[-> _]|[(_ & _ & -> & _)|[(_ & _ & -> & _)|(_ & _ & _ & -> & _)]]]%settle_tell_cases; by simpl.
Qed.

Lemma goes_settle H d m port : goes H (d, m) (settle d port, m).
Proof.
  unfold settle. destruct (conns d !! port) as [c|] eqn:Hc; [|done].
  destruct (settle_tell port (settle_host_write c)) as [c2 out] eqn:Et.
  transitivity (set_conn d port (settle_host_write c), m).
  { apply (goes_conn0 H d m port c); [done|constructor|]. unfold settle_host_write. by destruct (_ && _). }
  assert (goes H (set_conn d port (settle_host_write c), m) (push_pending (set_conn d port c2) out, m)) as Ht.
  { rewrite <-(set_conn_twice d port (settle_host_write c) c2).
    apply (goes_conn H _ m port (settle_host_write c)); [apply lookup_insert_eq|by constructor|].
    by rewrite (settle_tell_backlog _ _ _ _ Et). }
  etrans; [exact Ht|]. destruct (settle_end port c2) as [out'|] eqn:Ee; [|done].
  assert (goes H (push_pending (set_conn d port c2) out, m)
    (remove_conn (push_pending (push_pending (set_conn d port c2) out) out') port c2, m)) as G
    by (apply goes_end; [apply lookup_insert_eq|by constructor]).
  apply (transitivity G), goes_same; [done|].
  unfold view. simpl. by rewrite delete_insert_eq, app_assoc.
Qed.

(** ** Filling the guest's buffers *)

Lemma nearest_elem turn l p : nearest turn l = Some p -> p ∈ l.
Proof.
  revert p. induction l as [|q l IH]; intros p; [done|]. simpl. destruct (nearest turn l) as [b|].
  - destruct (_ <=? _); intros [= <-]; [by left|right; by apply IH].
  - intros [= <-]. by left.
Qed.

Lemma framable_elem d p : p ∈ framable d -> exists c, conns d !! p = Some c /\ may_frame c = true.
Proof.
  unfold framable. intros ((q & c) & -> & Hc)%list_elem_of_fmap. apply elem_of_map_to_list in Hc.
  apply map_lookup_filter_Some in Hc as [Hc Hm]. by exists c.
Qed.

Lemma frame_conn_backlog port c c' p : frame_conn port c = (c', p) -> zlen (backlog c') <= zlen (backlog c).
Proof.
  unfold frame_conn. cbv zeta. intros E. apply pair_equal_spec in E as [<- _].
  assert (forall n, zlen (drop n (backlog c)) <= zlen (backlog c)) as Hd by (intros; zlia).
  destruct (_ <? _); apply Hd.
Qed.

Lemma goes_frame H d m d' b : frame_backlog d = (d', b) -> goes H (d, m) (d', m).
Proof.
  unfold frame_backlog. destruct (nearest _ _) as [port|] eqn:En; [|by intros [= <- <-]].
  apply nearest_elem, framable_elem in En as (c & Hc & Hm).
  cbn [conns set_next_turn]. rewrite Hc.
  destruct (frame_conn port c) as [c' p] eqn:Ef. intros E. apply pair_equal_spec in E as [<- _].
  transitivity (set_next_turn d (u32 (port + 1)), m); [by apply goes_same|].
  transitivity (push_pending (set_conn (set_next_turn d (u32 (port + 1))) port c') [p], m); [|apply goes_settle].
  apply (goes_conn H _ m port c); [done|by apply CS_frame|by eapply frame_conn_backlog].
Qed.

Lemma pkt_ok_bytes p : pkt_ok p -> bytes_ok p.
Proof. intros (h & body & -> & _ & _ & Hb & _). apply bytes_ok_app. split; [apply to_bytes_ok|done]. Qed.

Lemma copy_out_evolves segs m p off m' r :
  bytes_ok p -> copy_out m segs p off = (m', r) -> ram_evolves m m'.
Proof.
  intros Hp. revert m off. induction segs as [|[a n] segs IH]; intros m off; simpl; [by intros [= <- <-]|].
  destruct (off =? zlen p); [by intros [= <- <-]|]. destruct (write _ _ _) as [m1|] eqn:Ew; [|by intros [= <- <-]].
  intros E. etrans; [|by eapply IH]. eapply write_evolves; [|exact Ew].
  unfold sub_bytes, get_range. destruct (_ && _); simpl; [|constructor]. auto with hvi.
Qed.

(** The packet the fill hands over: cut to the buffer when it is longer. *)
Definition cut (p : list Z) (rest : list (list Z)) (cap : Z) : list Z * list (list Z) :=
  if cap <? zlen p then let '(hd, tl) := split_pkt p cap in (hd, tl :: rest) else (p, rest).

Lemma cut_goes H d m p rest cap p' rest' :
  v_pending d = p :: rest -> blocks_queue cap (zlen p) = false -> cut p rest cap = (p', rest') ->
  goes H (d, m) (set_v_pending d (p' :: rest'), m).
Proof.
  intros Ep Hb. unfold cut. destruct (Z.ltb_spec cap (zlen p)) as [Hlt|].
  - intros Ec. apply goes_view; [done|]. intros _. unfold view at 1. rewrite Ep.
    assert (p' :: rest' = (split_pkt p cap).1 :: (split_pkt p cap).2 :: rest) as E'
      by (destruct (split_pkt p cap); by simplify_eq).
    unfold view. simpl. rewrite E'. apply rtc_once, V_split. unfold blocks_queue in Hb. lia.
  - intros [= <- <-]. apply goes_same; [done|]. unfold view. by simpl; rewrite Ep.
Qed.

Lemma pop_goes H d m p rest f :
  v_pending d = p :: rest -> f_pkt f = p -> faithful f ->
  goes H (d, m) (set_popped (set_v_pending d rest) (popped d ++ [f]), m).
Proof.
  intros Ep Ef Hf. apply goes_view; [done|]. intros _. unfold view. simpl. rewrite Ep. by apply rtc_once, V_pop.
Qed.

(** A step that changes RAM and a queue's position, and the interrupt status. *)
Lemma goes_ring H d m m' q i :
  (view_ok (view d) H -> ram_evolves m m') ->
  (forall x, queue_ok x (rxq (queues d)) -> queue_ok x (rxq q)) ->
  (forall x, queue_ok x (txq (queues d)) -> queue_ok x (txq q)) ->
  (forall x, queue_ok x (evq (queues d)) -> queue_ok x (evq q)) ->
  goes H (d, m) (set_v_interrupt (set_queues d q) i, m').
Proof.
  intros He Hr Ht Hv Hw [Hm ? ? ?]. destruct (He Hw) as [Hm' Hma]. simpl in *.
  split; simpl; [apply rtc_refl| |done|apply rtc_refl].
  split; simpl; [auto|apply Hr|apply Ht|apply Hv]; by eapply queue_ok_mapped.
Qed.

Lemma goes_ram H d m m' : (view_ok (view d) H -> ram_evolves m m') -> goes H (d, m) (d, m').
Proof.
  intros He. pose proof (goes_ring H d m m' (queues d) (v_interrupt d) He) as G. destruct d. by apply G.
Qed.

(** One delivery, whole. *)
Lemma fill_step_cut d m d' m' more :
  fill_step d m = Some (d', m', more) ->
  exists p rest slot segs head p' rest',
    v_pending d = p :: rest /\ avail_slot (rxq (queues d)) (last_avail (rxq (queues d))) = Some slot /\
    read_u16 m slot = Some head /\ rx_chain (rxq (queues d)) m head = Some segs /\
    blocks_queue (seg_total segs) (zlen p) = false /\ cut p rest (seg_total segs) = (p', rest') /\
    let d1 := set_popped (set_v_pending d rest') (popped d ++ [mkFill (rxq (queues d)) m m' p']) in
    match copy_out m segs p' 0 with
    | (m1, None) => d' = d1 /\ m' = m1 /\ more = false
    | (m1, Some off) =>
        d' = set_v_interrupt (set_queues d1 (mkQueues
               (set_last_avail (rxq (queues d)) (u16 (last_avail (rxq (queues d)) + 1))) (txq (queues d)) (evq (queues d))))
               (Z.lor (v_interrupt d) 1) /\
        m' = push_used (rxq (queues d)) m1 head (u32 off) /\ more = true
    end.
Proof.
  unfold fill_step. destruct (pending _ _) as [n|]; [|done]. destruct (n =? 0); [done|].
  intros (slot & Esl & E)%bind_Some. apply bind_Some in E as (head & Eh & E). apply bind_Some in E as (segs & Hs & E).
  destruct (v_pending d) as [|p rest] eqn:Ep; [done|]. destruct (blocks_queue _ _) eqn:Hb; [done|].
  fold (cut p rest (seg_total segs)) in E. destruct (cut p rest (seg_total segs)) as [p' rest'] eqn:Ec.
  exists p, rest, slot, segs, head, p', rest'. repeat (split; [done|]).
  destruct (copy_out m segs p' 0) as [m1 [off|]]; apply (inj Some) in E; apply pair_equal_spec in E as [E <-];
    apply pair_equal_spec in E as [<- <-]; done.
Qed.

(** The packet a fill hands over fits the buffers it goes to. *)
Lemma cut_fits p rest cap p' rest' :
  pkt_ok p -> blocks_queue cap (zlen p) = false -> cut p rest cap = (p', rest') -> pkt_ok p' /\ zlen p' <= cap.
Proof.
  intros Hp Hb. unfold cut. destruct (Z.ltb_spec cap (zlen p)).
  - assert (HDR_LEN < cap < zlen p) as Hcap by (unfold blocks_queue in Hb; lia). pose proof (split_pkt_spec p cap Hp Hcap) as Hs.
    destruct (split_pkt p cap) as [hd tl]. intros [= <- <-]. destruct Hs as (? & _ & _ & _ & _ & -> & _). split; [done|lia].
  - by intros [= <- <-].
Qed.

Lemma pkt_ok_len p : pkt_ok p -> zlen p < 2 ^ 32.
Proof. intros (h & body & -> & _ & _ & _ & _ & _ & Hl). rewrite zlen_app, to_bytes_len. unfold HDR_LEN, MAX_RW in *. lia. Qed.

(** A fill is what the guest reads of it. *)
Lemma fill_step_faithful d m d' m' more :
  fill_step d m = Some (d', m', more) -> shell_ok (d, m) -> is_ready (rxq (queues d)) = true -> Forall pkt_ok (v_pending d) ->
  exists f, popped d' = popped d ++ [f] /\ faithful f.
Proof.
  intros (p & rest & slot & segs & head & p' & rest' & Ep & Esl & Eh & Es & Hb & Ec & E)%fill_step_cut [Hm Hq _ _] Hr Hp.
  cbn [fst snd] in *. set (q := rxq (queues d)) in *. rewrite Ep in Hp. apply Forall_cons in Hp as [Hp _].
  destruct (cut_fits _ _ _ _ _ Hp Hb Ec) as [Hp' Hfit].
  exists (mkFill q m m' p'). split; [destruct (copy_out _ _ _ _) as [? []]; by destruct E as (-> & _)|].
  intros (head' & segs' & Eh' & Ech & Hin & Hap & Hrings & Hdu). cbn [f_queue f_before f_pkt] in *.
  destruct (avail_head m q (last_avail q) Hm Hq Hr) as (slot' & h2 & E1 & E2 & E3 & Hh2). simplify_eq.
  rewrite (rx_chain_ring q m), Ech in Es by (done || lia). simplify_eq.
  pose proof (filter_lens (fun s => device_writes s = true) segs' (chain_lens _ _ _ _ _ _ Hm Ech)) as Hl.
  destruct (copy_out_fills (seg_span <$> from_device segs') m p' 0) as (m1 & bs & Eo & He & Hf & Hbs & Et);
    [done|by apply pkt_ok_bytes|zlen_pos; lia| |done|done|lia|].
  { apply Forall_fmap. eapply Forall_impl; [exact Hl|]. by intros s [? _]. }
  rewrite Eo in E. destruct E as (_ & -> & _). unfold seen. cbn [f_queue f_after].
  rewrite Z.sub_0_r in Et. change (drop (Z.to_nat 0) p') with p' in Et.
  by rewrite (fill_seen q m m1 head segs' p' bs) by (done || by apply pkt_ok_len).
Qed.

Lemma fill_step_ready d m d' m' more :
  fill_step d m = Some (d', m', more) -> is_ready (rxq (queues d')) = is_ready (rxq (queues d)).
Proof.
  intros (p & rest & slot & segs & head & p' & rest' & _ & _ & _ & _ & _ & _ & E)%fill_step_cut.
  destruct (copy_out _ _ _ _) as [m1 [off|]]; by destruct E as (-> & _).
Qed.

Lemma settle_queues d port : queues (settle d port) = queues d.
Proof. unfold settle. repeat case_match; done. Qed.
Lemma frame_queues d d' b : frame_backlog d = (d', b) -> queues d' = queues d.
Proof.
  unfold frame_backlog. destruct (nearest _ _) as [port|]; [|by intros [= <- _]]. cbn [conns set_next_turn].
  destruct (conns d !! port) as [c|]; [|by intros [= <- _]].
  destruct (frame_conn port c) as [c' p]. intros E. apply pair_equal_spec in E as [<- _]. by rewrite settle_queues.
Qed.

Lemma fill_step_goes H d m d' m' more :
  is_ready (rxq (queues d)) = true -> fill_step d m = Some (d', m', more) -> goes H (d, m) (d', m').
Proof.
  intros Hr E Hv Hs. pose proof (wo_pending _ _ Hv) as Hp. simpl in Hp.
  destruct (fill_step_faithful _ _ _ _ _ E Hs Hr Hp) as (f & Ef & Hf).
  apply fill_step_cut in E as (p & rest & slot & segs & head & p' & rest' & Ep & _ & _ & _ & Hb & Ec & E).
  assert (f = mkFill (rxq (queues d)) m m' p') as ->.
  { assert (popped d' = popped d ++ [mkFill (rxq (queues d)) m m' p']) as Ef'
      by (destruct (copy_out _ _ _ _) as [? []]; by destruct E as (-> & _)).
    rewrite Ef in Ef'. by apply app_inv_head in Ef' as [= ->]. }
  assert (bytes_ok p') as Hp' by (rewrite Ep in Hp; apply Forall_cons in Hp as [Hp _]; by eapply pkt_ok_bytes, cut_fits).
  revert Hv Hs. fold (goes H (d, m) (d', m')).
  etrans; [by eapply cut_goes|]. etrans; [by apply (pop_goes H _ m p' rest' (mkFill (rxq (queues d)) m m' p'))|].
  destruct (copy_out m segs p' 0) as [m1 [off|]] eqn:Eo; destruct E as (-> & -> & ->).
  - apply goes_ring; [|intros ? [? ? ? ? ? ?]; split; try done; apply u16_range|done|done].
    intros _. etrans; [by eapply copy_out_evolves|apply push_used_evolves].
  - apply goes_ram. intros _. by eapply copy_out_evolves.
Qed.

Lemma fill_loop_goes H fuel d m : is_ready (rxq (queues d)) = true -> goes H (d, m) (fill_loop fuel d m).1.
Proof.
  revert d m. induction fuel as [|fuel IH]; intros d m Hr; [done|]. cbn [fill_loop].
  destruct (if is_empty (v_pending d) then frame_backlog d else (d, true)) as [d1 more] eqn:E1.
  assert (goes H (d, m) (d1, m)) as G1 by (destruct (is_empty _); [by eapply goes_frame|by simplify_eq]).
  assert (is_ready (rxq (queues d1)) = true) as Hr1
    by (destruct (is_empty _); [by rewrite (frame_queues _ _ _ E1)|by simplify_eq]).
  etrans; [exact G1|]. destruct more; simpl; [|done].
  destruct (fill_step d1 m) as [[[d2 m2] []]|] eqn:E2; [| |done].
  - etrans; [by eapply fill_step_goes|]. apply IH. by rewrite (fill_step_ready _ _ _ _ _ E2).
  - by eapply fill_step_goes.
Qed.

Lemma goes_sync H d m : goes H (d, m) (sync_irq d, m).
Proof.
  intros Hv [? ? ? ?]. split; [apply rtc_refl|by split|done|]. apply rtc_once. by exists (irq_level d).
Qed.

Lemma fill_rx_goes H d m : goes H (d, m) (fill_rx d m).
Proof.
  unfold fill_rx, fill_rx_buffers. destruct (is_ready (rxq (queues d))) eqn:Er; cbn [negb]; [|apply goes_sync].
  pose proof (fill_loop_goes H (S (Z.to_nat (fill_weight d))) d m Er) as G.
  destruct (fill_loop _ d m) as [[d1 m1] b]. simpl in *. etrans; [exact G|apply goes_sync].
Qed.

Lemma settle_fill_goes H d m port : goes H (d, m) (fill_rx (settle d port) m).
Proof. transitivity (settle d port, m); [apply goes_settle|apply fill_rx_goes]. Qed.

(** ** The bridge's calls *)

Lemma connect_goes H d m port :
  (forall c, conns d !! port = Some c -> c_state c = New) -> goes H (d, m) (Vsock.connect d m port).
Proof.
  intros Hn. unfold Vsock.connect. destruct (conns d !! port) as [c|] eqn:Hc; [|done].
  etrans; [|apply fill_rx_goes]. apply (goes_conn H d m port c); [done|by apply CS_offer, Hn|done].
Qed.

(** The bytes [host_data] adds to a port's history. *)
Definition feed_hist d H port data : History :=
  match conns d !! port with
  | Some c => if guest_rcv_shut c then H else <[port := hist H port ++ data]> H
  | None => H
  end.

Lemma wait_goes H d m port c :
  conns d !! port = Some c ->
  (guest_rcv_shut c = true /\ guest_send_shut c = false) \/ HOST_BACKLOG_MAX <= zlen (backlog c) ->
  goes H (d, m) (set_conn d port (set_reader_closed c true), m).
Proof. intros Hc Hw. apply (goes_conn0 H d m port c); [done|by apply CS_wait|done]. Qed.

Lemma host_data_goes H d m port data d' m' w :
  bytes_ok data -> view_ok (view d) H -> shell_ok (d, m) -> host_data d m port data = (d', m', w) ->
  vsteps (view d, H) (view d', feed_hist d H port data) /\ shell_ok (d', m') /\ mapped m' = mapped m /\
  sets (v_irq d) (v_irq d').
Proof.
  intros Hd Hv Hs. unfold host_data, feed_hist. destruct (conns d !! port) as [c|] eqn:Hc.
  2: { intros [= <- <- <-]. repeat (split; [done || apply rtc_refl|]). apply rtc_refl. }
  destruct (guest_rcv_shut c) eqn:Er.
  { destruct (guest_send_shut c) eqn:Ew; intros E; apply pair_equal_spec in E as [E _];
      apply pair_equal_spec in E as [<- <-]; [repeat (split; [done || apply rtc_refl|]); apply rtc_refl|].
    destruct (wait_goes H d m port c Hc (or_introl (conj Er Ew)) Hv Hs) as [? ? ? ?]. done. }
  set (H' := <[port := _]> H). set (d1 := set_conn d port _).
  assert (vstep (view d, H) (view d1, H')) as V1
    by (apply (V_data _ _ _ _ _ port c); [done|by apply CS_data|by split]).
  assert (view_ok (view d1) H') as Hv1 by (by eapply vstep_ok).
  assert (shell_ok (d1, m)) as Hs1 by (destruct Hs; by split).
  intros E. assert (goes H' (d1, m) (d', m')) as G.
  { pose proof (fill_rx_goes H' d1 m) as G. destruct (fill_rx d1 m) as [d2 m2]. etrans; [exact G|].
    destruct (conns d2 !! port) as [c2|] eqn:Hc2; [|by simplify_eq].
    destruct (Z.ltb_spec (zlen (backlog c2)) HOST_BACKLOG_MAX); [by simplify_eq|].
    apply pair_equal_spec in E as [E _]. apply pair_equal_spec in E as [<- <-].
    apply wait_goes; [done|]. right. lia. }
  destruct (G Hv1 Hs1) as [V2 S2 M2 I2]. split; [by eapply rtc_l|done].
Qed.

Lemma host_eof_goes H d m port : goes H (d, m) (host_eof d m port).1.
Proof.
  unfold host_eof. destruct (conns d !! port) as [c|] eqn:Hc; [|done].
  destruct (peer_hung_up _) as [s b] eqn:Ep. set (d1 := set_conn d port _).
  transitivity (d1, m); [apply (goes_conn0 H d m port c); [done|by apply CS_eof|done]|].
  pose proof (settle_fill_goes H d1 m port) as G. by destruct (fill_rx _ m).
Qed.

Lemma host_hung_up_goes H d m port : goes H (d, m) (host_hung_up d m port).
Proof.
  unfold host_hung_up. destruct (conns d !! port) as [c|] eqn:Hc; [|done].
  destruct (negb _); [done|]. etrans; [|apply settle_fill_goes].
  apply (goes_conn0 H d m port c); [done|apply CS_hung|done].
Qed.

Lemma gone_conn_backlog port c c' out : gone_conn port c = (c', out) -> backlog c' = backlog c.
Proof. unfold gone_conn. cbv zeta. destruct (_ && _); intros; by simplify_eq. Qed.

Lemma host_gone_goes H d m port : goes H (d, m) (host_gone d m port).
Proof.
  unfold host_gone. destruct (conns d !! port) as [c|] eqn:Hc; [|done].
  destruct (c_host_gone c) eqn:Hg; [done|]. destruct (gone_conn port c) as [c' out] eqn:Eg.
  etrans; [|apply settle_fill_goes]. apply (goes_conn H d m port c); [done|by apply CS_gone|].
  by rewrite (gone_conn_backlog _ _ _ _ Eg).
Qed.

Lemma relays_gone c body : conn_ok c -> relays c body -> c_host_gone c = true -> to_host c ++ body = [].
Proof. intros Hc Hr Hg. destruct Hr; [by rewrite (ck_gone c Hc)|congruence]. Qed.

(** A flush, of the bytes waiting and those of a packet that joins them. *)
Lemma flush_goes H d m port c body :
  conns d !! port = Some c -> relays c body -> bytes_ok body ->
  goes H (d, m) (flush_to_host (set_conn d port (set_to_host c (to_host c ++ body))) m port).1.
Proof.
  intros Hc Hr Hb. unfold flush_to_host. cbn [conns set_conn set_conns]. rewrite lookup_insert_eq.
  destruct (send_all _) as [[c1 sent] gone] eqn:Es. pose proof (send_all_spec _ _ _ _ Es) as [(s & E & _ & Hle & Hd) Hg].
  assert (backlog c1 = backlog c) as Eb by (by rewrite E). rewrite set_conn_twice. destruct gone.
  - intros Hv. destruct (view_conn _ _ _ _ Hv Hc) as [Hok _]. revert Hv.
    unfold host_gone. cbn [conns set_conn set_conns]. rewrite lookup_insert_eq.
    assert (c_host_gone c1 = false) as ->.
    { destruct (c_host_gone c1) eqn:Eg; [|done]. exfalso. apply (Hg eq_refl).
      assert (c_host_gone c = true) as Eg' by (by rewrite E in Eg).
      rewrite (relays_gone c body Hok Hr Eg') in Es. by injection Es as <- _ _. }
    destruct (gone_conn port c1) as [c2 out] eqn:Eg. rewrite set_conn_twice.
    set (d2 := push_pending _ _). pose proof (settle_fill_goes H d2 m port) as G.
    destruct (fill_rx (settle d2 port) m) as [d3 m3].
    change (goes H (d, m) (d3, m3)).
    apply (transitivity (y := (d2, m))); [|exact G]. apply (goes_conn H d m port c); [done| |].
    + by eapply CS_send_gone.
    + by rewrite (gone_conn_backlog _ _ _ _ Eg), Eb.
  - cbv zeta. rewrite set_conn_twice. change (set_rx_cnt _ _) with (writer_synced c1 sent). set (c2 := writer_synced c1 sent).
    assert (guest_send_shut c2 = guest_send_shut c) as -> by (subst c2; unfold writer_synced; by rewrite E).
    match goal with |- context [settle ?x port] => set (d2 := x) end. pose proof (settle_fill_goes H d2 m port) as G.
    destruct (fill_rx (settle d2 port) m) as [d3 m3]. apply (transitivity (y := (d2, m))); [|exact G].
    pose proof (goes_conn H d m port c c2 _ Hc (CS_send port c body c1 sent Hr Hb Es)) as G2.
    subst d2. unfold enqueue_credit. destruct (_ && _); [|rewrite <-(push_nil (set_conn d port c2))];
      apply G2; subst c2; simpl; rewrite Eb; lia.
Qed.

Lemma flush_to_host_goes H d m port : goes H (d, m) (flush_to_host d m port).1.
Proof.
  destruct (conns d !! port) as [c|] eqn:Hc; [|unfold flush_to_host; by rewrite Hc].
  pose proof (flush_goes H d m port c [] Hc (R_flush c) ltac:(constructor)) as G.
  assert (set_conn d port (set_to_host c (to_host c ++ [])) = d) as E; [|by rewrite E in G].
  rewrite app_nil_r. destruct c, d. unfold set_conn, set_conns, set_to_host. simpl in *. by rewrite insert_id.
Qed.

Lemma add_conn_goes H d m s : next_port d + 1 < 2 ^ 32 -> goes H (d, m) ((add_conn d s).1, m).
Proof.
  intros Hn. apply goes_view; [unfold add_conn; by destruct (_ !! _)|]. intros Hv.
  pose proof (wo_next _ _ Hv) as Hr. simpl in Hr.
  assert (conns d !! next_port d = None) as E.
  { destruct (conns d !! next_port d) as [c|] eqn:E; [|done]. apply (wo_conns _ _ Hv) in E as [_ E]. simpl in E. lia. }
  unfold add_conn. simpl. rewrite E. apply rtc_once. unfold view. simpl. rewrite u32_small by lia. by apply V_add.
Qed.

Lemma drop_conns_goes H d m : goes H (d, m) (drop_conns d, m).
Proof. apply goes_view; [done|]. intros _. apply rtc_once, V_drop_all. Qed.

(** ** The guest's packets *)

Lemma take_credit_goes H d m h : hdr_ok h -> goes H (d, m) (take_credit d h, m).
Proof.
  intros Hh. unfold take_credit. destruct (_ =? _); [done|]. destruct (conns d !! dst_port h) as [c|] eqn:Hc; [|done].
  unfold is_state. case_bool_decide as Hn; [done|].
  apply (goes_conn0 H d m _ c); [done|by apply CS_credit; [|apply Hh..]|done].
Qed.

Lemma handle_rw_goes H d m h pkt d' m' :
  bytes_ok pkt -> handle_rw d m h pkt = Some (d', m') -> goes H (d, m) (d', m').
Proof.
  intros Hp. unfold handle_rw. cbv zeta. set (body := sub_bytes _ _ _). assert (bytes_ok body) as Hb by by apply sub_bytes_ok.
  clearbody body. set (port := dst_port h). destruct (conns d !! port) as [c|] eqn:Hc; [|done].
  unfold is_state. destruct (bool_decide (c_state c = Connected)) eqn:Est; [|done]. apply bool_decide_eq_true in Est.
  destruct (guest_send_shut c) eqn:Ess; [done|]. cbn [andb negb]. destruct (c_host_gone c) eqn:Hg.
  { intros E. apply (inj Some), pair_equal_spec in E as [<- <-].
    apply (goes_conn H d m port c); [done|apply CS_late; [done|done|apply zlen_nonneg]|done]. }
  destruct (Z.ltb_spec OUR_BUF_ALLOC (zlen (to_host c) + zlen body)) as [Hov|Hfit].
  - intros E. apply (inj Some), pair_equal_spec in E as [<- <-].
    pose proof (goes_end H d m port c _ Hc (CE_overrun port c body Est Ess Hg Hov)) as G.
    apply (transitivity G), goes_same; done.
  - pose proof (flush_goes H d m port c body Hc (R_rw c body Est Ess Hg Hfit) Hb) as G.
    destruct (flush_to_host _ m port) as [[d1 m1] b]. intros E. apply (inj Some), pair_equal_spec in E as [<- <-]. exact G.
Qed.

Lemma handle_op_goes H d m h pkt d' m' :
  bytes_ok pkt -> hdr_ok h -> handle_op d m h pkt = Some (d', m') -> goes H (d, m) (d', m').
Proof.
  intros Hp Hh. unfold handle_op. cbv zeta. set (port := dst_port h).
  destruct (op h =? OP_RESPONSE).
  { intros E. apply (inj Some), pair_equal_spec in E as [<- <-]. destruct (conns d !! port) as [c|] eqn:Hc; [|done].
    unfold is_state. case_bool_decide; [|done]. apply (goes_conn0 H d m port c); [done|by apply CS_accept|done]. }
  destruct (op h =? OP_RW); [by apply handle_rw_goes|].
  destruct (((_ =? OP_SHUTDOWN) || _) && _) eqn:Eg.
  { intros E. apply (inj Some), pair_equal_spec in E as [<- <-]. destruct (conns d !! port) as [c|] eqn:Hc; [|done].
    set (d1 := set_conn d port _). transitivity (d1, m); [|apply goes_settle].
    unfold is_state in Eg. apply andb_true_iff in Eg as [_ Eg]. apply negb_true_iff, bool_decide_eq_false in Eg.
    apply (goes_conn0 H d m port c); [done|by apply CS_guest_close|]. rewrite guest_close_closed.
    unfold closed. cbn [backlog set_guest_reset set_guest_rcv_shut set_guest_send_shut set_backlog].
    destruct (_ || _); [|done]. rewrite zlen_nil. apply zlen_nonneg. }
  destruct (op h =? OP_REQUEST).
  { intros E. apply (inj Some), pair_equal_spec in E as [<- <-]. apply goes_reply.
    set (r := mkHdr _ _ _ _ _ _ _ _ _ _). assert (hdr_ok r) as Hr by (split; try done; apply Hh).
    split; [|rewrite <-(app_nil_r (to_bytes r)); apply payload_app].
    exists r, []. rewrite app_nil_r. split; [done|]. split; [done|]. split; [done|]. by split; [constructor|]. }
  destruct (op h =? OP_CREDIT_REQUEST); intros E; apply (inj Some), pair_equal_spec in E as [<- <-]; [|done].
  destruct (conns d !! port) as [c|] eqn:Hc; [|done]. unfold is_state. case_bool_decide; [|done].
  assert (enqueue_credit d port (rx_cnt c) =
    push_pending (set_conn d port c) [control_pkt port OP_CREDIT_UPDATE 0 (rx_cnt c)]) as ->
    by (destruct d; unfold enqueue_credit, push_pending, set_v_pending, set_conn, set_conns; simpl in *; by rewrite insert_id).
  apply (goes_conn H d m port c); [done|by apply CS_answer|done].
Qed.

Lemma handle_pkt_goes H d m pkt : bytes_ok pkt -> goes H (d, m) (handle_pkt d m pkt).
Proof.
  intros Hp. unfold handle_pkt. destruct (parse pkt) as [h|] eqn:Eh; [|done].
  destruct (to_bytes_parse _ _ Hp Eh) as [Hh _]. destruct (negb _); [done|]. destruct (negb _ && _); [done|].
  transitivity (take_credit d h, m); [by apply take_credit_goes|].
  destruct (handle_op _ m h pkt) as [[d1 m1]|] eqn:Eo; [|done].
  transitivity (d1, m1); [by eapply handle_op_goes|apply fill_rx_goes].
Qed.

Lemma tx_walk_bytes fuel q m i buf p :
  ram_ok m -> bytes_ok buf -> tx_walk fuel q m i buf = Some p -> bytes_ok p.
Proof.
  intros Hm. revert i buf. induction fuel as [|fuel IH]; intros i buf Hb; [by intros [= <-]|].
  cbn [tx_walk]. intros (da & _ & E)%bind_Some. apply bind_Some in E as (e & _ & E). apply bind_Some in E as (b & Eb & E).
  assert (bytes_ok b) as Hb'.
  { destruct (has_flag _ _); [by simplify_eq|]. apply bind_Some in Eb as (t & _ & Eb).
    destruct (MAX_TX_PACKET <? t); [done|]. apply bind_Some in Eb as (bs & Er & Eb). simplify_eq.
    apply bytes_ok_app. split; [done|by eapply read_bytes_ok]. }
  destruct (_ =? 0); [by simplify_eq|by eapply IH].
Qed.

Lemma read_tx_bytes q m head p : ram_ok m -> read_tx q m head = Some p -> bytes_ok p.
Proof.
  intros Hm. unfold read_tx. intros (buf & E & E')%bind_Some. destruct (_ <=? _); simplify_eq.
  eapply tx_walk_bytes; [done| |exact E]. constructor.
Qed.

(** The TX loop: each chain is served and handed back before the next. *)
Lemma tx_loop_goes H n d m lst d' m' lst' :
  0 <= lst < 2 ^ 16 -> tx_loop n d m lst = (d', m', lst') -> goes H (d, m) (d', m') /\ 0 <= lst' < 2 ^ 16.
Proof.
  revert d m lst. induction n as [|n IH]; intros d m lst Hl; cbn [tx_loop].
  { intros [= <- <- <-]. done. }
  destruct (avail_slot _ _) as [slot|]; [|by intros [= <- <- <-]].
  destruct (read_u16 m slot) as [head|]; [|by intros [= <- <- <-]].
  destruct (match read_tx _ m head with Some _ => _ | None => _ end) as [d1 m1] eqn:Ed.
  intros E. apply IH in E as [G Hl']; [|apply u16_range]. split; [|done].
  transitivity (d1, m1).
  - intros Hv Hs. destruct (read_tx _ m head) as [p|] eqn:Er; [|by simplify_eq; apply (reflexivity (R := goes H))].
    apply (read_tx_bytes _ _ _ _ (so_ram _ Hs)) in Er. pose proof (handle_pkt_goes H d m p Er Hv Hs) as G1. by rewrite Ed in G1.
  - etrans; [|exact G]. destruct d1. apply goes_ring; try done. intros _. apply push_used_evolves.
Qed.

Lemma process_tx_goes H d m : goes H (d, m) (process_tx d m).
Proof.
  unfold process_tx. destruct (negb _); [done|]. destruct (pending _ _) as [n|]; [|done].
  intros Hv Hs. revert Hv Hs. fold (goes H (d, m)). intros Hv Hs.
  destruct (tx_loop _ d m _) as [[d1 m1] lst] eqn:E.
  eapply (tx_loop_goes H) in E as [G Hl]; [|apply (so_tx _ Hs)]. revert Hv Hs.
  change (goes H (d, m) (set_queues d1 (put_queue (queues d1) TX_QUEUE (set_last_avail (txq (queues d1)) lst)), m1)).
  etrans; [exact G|]. pose proof (goes_ring H d1 m1 m1 (put_queue (queues d1) TX_QUEUE (set_last_avail (txq (queues d1)) lst))
    (v_interrupt d1)) as G2. destruct d1. apply G2; try done. intros x []. by split.
Qed.

(** ** The register window *)

Lemma queue_sel_cases d q :
  (queue d = rxq (queues d) /\ queues (set_queue d q) = mkQueues q (txq (queues d)) (evq (queues d))) \/
  (queue d = txq (queues d) /\ queues (set_queue d q) = mkQueues (rxq (queues d)) q (evq (queues d))) \/
  (queue d = evq (queues d) /\ queues (set_queue d q) = mkQueues (rxq (queues d)) (txq (queues d)) q).
Proof.
  unfold queue, set_queue, get_queue, put_queue, set_queues. simpl.
  destruct (queue_sel d mod 3 =? 0); [by left|]. destruct (queue_sel d mod 3 =? 1); [right; by left|right; by right].
Qed.

Lemma queue_goes H d m q : (queue_ok m (queue d) -> queue_ok m q) -> goes H (d, m) (set_queue d q, m).
Proof.
  intros Hq Hv [Hm Hr Ht He]. simpl in *. split; [apply rtc_refl| |done|apply rtc_refl].
  destruct (queue_sel_cases d q) as [[E Eq]|[[E Eq]|[E Eq]]]; rewrite E in Hq;
    (split; cbn [fst snd]; rewrite ?Eq; simpl; auto).
Qed.

Lemma queue_op_goes H d m o : op_ok o -> goes H (d, m) (set_queue d (queue_op m (queue d) o), m).
Proof. intros Ho. apply queue_goes. intros Hq. by apply queue_op_ok. Qed.

Lemma reset_goes H d m : goes H (d, m) (Vsock.reset d, m).
Proof.
  intros Hv [Hm Hr Ht He]. simpl in *. assert (forall q, queue_ok m q -> queue_ok m (Queue.reset q)) as Hq
    by (intros q Hq; by apply (queue_op_ok m q Reset)).
  split; simpl; [|split; simpl; [done|by apply Hq..]|done|apply rtc_refl].
  eapply rtc_l; [apply V_drop_all|]. apply rtc_once, V_clear.
Qed.

Lemma serve_write_goes H d m o v : 0 <= v < 2 ^ 32 -> goes H (d, m) (serve_write d m o v).
Proof.
  intros Hv. unfold serve_write. repeat case_match; try (by apply goes_same); try done.
  - by apply (queue_op_goes H d m (SetNum v)).
  - by apply (queue_op_goes H d m (SetReady v)).
  - apply process_tx_goes.
  - apply fill_rx_goes.
  - apply reset_goes.
  - by apply (queue_op_goes H d m (SetDescLo v)).
  - by apply (queue_op_goes H d m (SetDescHi v)).
  - by apply (queue_op_goes H d m (SetAvailLo v)).
  - by apply (queue_op_goes H d m (SetAvailHi v)).
  - by apply (queue_op_goes H d m (SetUsedLo v)).
  - by apply (queue_op_goes H d m (SetUsedHi v)).
Qed.

Lemma serve_mmio_goes H d m o w v d' m' r : serve_mmio d m o w v = (d', m', r) -> goes H (d, m) (d', m').
Proof.
  unfold serve_mmio. destruct w; [|by intros [= <- <- <-]].
  pose proof (serve_write_goes H d m o (u32 v) (u32_range v)) as G. destruct (serve_write d m o (u32 v)).
  intros E. apply pair_equal_spec in E as [E _]. by apply pair_equal_spec in E as [<- <-].
Qed.

Lemma mmio_goes H d m o w v d' m' r :
  mmio d m o w v = (d', m', r) ->
  goes H (d, m) (d', m') /\
  exists d1, goes H (d, m) (d1, m') /\ d' = sync_irq d1.
Proof.
  unfold mmio. destruct (serve_mmio d m o w v) as [[d1 m1] r1] eqn:Es. intros E.
  apply pair_equal_spec in E as [E _]. apply pair_equal_spec in E as [<- <-].
  apply (serve_mmio_goes H) in Es. split; [etrans; [exact Es|apply goes_sync]|by exists d1].
Qed.
End Moves.

(** ** The device on the bus *)

#[export] Instance VirtioVsock_mmio {L} `{IrqLine L} : VirtioMmio (VirtioVsock L) := {|
  dev_mmio := mmio; dev_take_events := fun d => (d, []); dev_take_fed_sink := fun d => (d, None) |}.

(** The device is sound next to some history of its streams. *)
Definition vsock_ok {L} (m : GuestRam) (d : VirtioVsock L) : Prop :=
  (exists H, view_ok (view d) H) /\
  queue_ok m (rxq (queues d)) /\ queue_ok m (txq (queues d)) /\ queue_ok m (evq (queues d)).

#[export] Instance VirtioVsock_laws {L} `{IrqLineLaws L} : VirtioMmioLaws (VirtioVsock L) L.
Proof.
  refine {| dev_ok := vsock_ok; dev_irq := v_irq; dev_level := irq_level |}.
  - intros m m' d E (Hv & Hr & Ht & He). split; [done|]. split_and!; by eapply queue_ok_mapped.
  - intros d m o w v d' m' r _ _ Hm ([h Hv] & Hr & Ht & He) E.
    destruct (proj1 (mmio_goes h d m o w v d' m' r E) Hv) as [V [Hm' ? ? ?] Ma _]; [by split|].
    split; [|done]. split; [exists h; by eapply (vsteps_ok _ _ V)|done].
  - intros d m o w v d' m' r Hm ([h Hv] & Hr & Ht & He) E.
    destruct (proj2 (mmio_goes h d m o w v d' m' r E)) as (d1 & G & ->).
    destruct (G Hv) as [_ _ _ Hi]; [by split|]. by exists (v_irq d1).
  - intros d d' l E. by simplify_eq/=.
  - intros d m v d' m' r Hv E. unfold dev_mmio in E. cbn [VirtioVsock_mmio] in E.
    unfold mmio, serve_mmio, serve_write in E. rewrite Hv in E. cbn in E. by simplify_eq.
Defined.
