(* ===== verification/VsockSession.v ===== *)
(** * Sessions of the vsock device

    The bridge's calls, the guest's accesses and the guest's stores in any order,
    and what holds after all of them: the streams, the connections, the framing
    and the delivery. *)

From S2P Require Import Prelude Memory Irq Queue RingView Virtio Vsock VsockInv VsockStream VsockFill VsockDev.
Local Open Scope Z_scope.

(** ** The measure of the fill loop *)











Section Fill.
Context {L : Type} {IL : IrqLine L} {ILL : IrqLineLaws L}.
Implicit Types (d : VirtioVsock L) (m : GuestRam) (H : History).


















End Fill.

(** ** Sessions *)

(** What can reach the device: an access of the guest to the register window, a
    store of the guest to its RAM, a host connection accepted by the bridge, and
    the calls of the bridge's reader and writer threads. Each runs under the
    device's lock, so a session is a sequence of them. *)
Inductive VsockOp :=
  | OpMmio (a : MmioAccess)
  | OpStore (g : Z) (data : list Z)
  | OpAccept (s : Stream)
  | OpData (port : Z) (data : list Z)
  | OpEof (port : Z)
  | OpHungUp (port : Z)
  | OpGone (port : Z)
  | OpFlush (port : Z)
  | OpDropConns.

Section Session.
Context {L : Type} {IL : IrqLine L} {ILL : IrqLineLaws L}.
Implicit Types (d : VirtioVsock L) (m : GuestRam) (H : History).

(** The bridge's accept: the connection registered and offered to the guest
    under one lock. *)
Definition accept d m (s : Stream) : VirtioVsock L * GuestRam :=
  let '(d, port) := add_conn d s in Vsock.connect d m port.

(** The ports are 32 bits wide and handed out in order; a session is one that
    has not used them all. *)
Definition vop_ok (s : VirtioVsock L * GuestRam * History) (o : VsockOp) : Prop :=
  match o with
  | OpMmio a => mmio_access_ok a
  | OpStore _ data | OpData _ data => bytes_ok data
  | OpAccept _ => next_port s.1.1 + 1 < 2 ^ 32
  | _ => True
  end.

Definition run_vop (s : VirtioVsock L * GuestRam * History) (o : VsockOp) : VirtioVsock L * GuestRam * History :=
  let '(d, m, H) := s in
  match o with
  | OpMmio a => ((mmio d m (a_offset a) (a_write a) (a_value a)).1, H)
  | OpStore g data => (d, ignore m (write m g data), H)
  | OpAccept st => (accept d m st, H)
  | OpData port data => ((host_data d m port data).1, feed_hist d H port data)
  | OpEof port => ((host_eof d m port).1, H)
  | OpHungUp port => (host_hung_up d m port, H)
  | OpGone port => (host_gone d m port, H)
  | OpFlush port => ((flush_to_host d m port).1, H)
  | OpDropConns => (drop_conns d, m, H)
  end.

Fixpoint session_ok (s : VirtioVsock L * GuestRam * History) (ops : list VsockOp) : Prop :=
  match ops with
  | [] => True
  | o :: ops => vop_ok s o /\ session_ok (run_vop s o) ops
  end.

(** The device as the VMM creates it, its line connected. *)
Definition vsock_start (l : L) m : VirtioVsock L * GuestRam * History := (connect_irq new l, m, ∅).

Lemma accept_goes H d m s : next_port d + 1 < 2 ^ 32 -> goes H (d, m) (accept d m s).
Proof.
  intros Hn. unfold accept. pose proof (add_conn_goes H d m s Hn) as G.
  destruct (add_conn d s) as [d1 port] eqn:Ea. etrans; [exact G|]. apply connect_goes.
  intros c Hc. unfold add_conn in Ea. apply pair_equal_spec in Ea as [<- <-].
  cbn [conns set_conn set_conns] in Hc. rewrite lookup_insert_eq in Hc. by simplify_eq.
Qed.

Lemma goes_keeps H d m d' m' :
  goes H (d, m) (d', m') -> view_ok (view d) H -> shell_ok (d, m) -> view_ok (view d') H /\ shell_ok (d', m').
Proof. intros G Hv Hs. destruct (G Hv Hs) as [V S _ _]. split; [by eapply (vsteps_ok _ _ V)|done]. Qed.

Lemma run_vop_ok d m H o d' m' H' :
  view_ok (view d) H -> shell_ok (d, m) -> vop_ok (d, m, H) o -> run_vop (d, m, H) o = (d', m', H') ->
  view_ok (view d') H' /\ shell_ok (d', m').
Proof.
  intros Hv Hs Ho E. destruct o as [a|g data|st|port data|port|port|port|port|]; simpl in E.
  - destruct (mmio _ _ _ _ _) as [[d1 m1] r] eqn:Em. simplify_eq/=. eapply goes_keeps; [|done|done].
    by eapply (mmio_goes H').
  - simplify_eq. split; [done|]. simpl in Ho.
    assert (ram_evolves m (ignore m (write m g data))) as [Hm Em]
      by (unfold ignore; destruct (write m g data) eqn:Ew; [by eapply write_evolves|done]).
    destruct Hs as [? ? ? ?]. split; simpl in *; [auto|by eapply queue_ok_mapped..].
  - destruct (accept d m st) as [d1 m1] eqn:Ea. simplify_eq. eapply goes_keeps; [|done|done].
    rewrite <-Ea. by apply accept_goes.
  - destruct (host_data d m port data) as [[d1 m1] w] eqn:Eh. simplify_eq/=.
    destruct (host_data_goes _ _ _ _ _ _ _ _ Ho Hv Hs Eh) as (V & S & _). split; [by eapply (vsteps_ok _ _ V)|done].
  - pose proof (host_eof_goes H d m port) as G. destruct (host_eof d m port) as [[d1 m1] w]. simplify_eq/=.
    by eapply goes_keeps.
  - pose proof (host_hung_up_goes H d m port) as G. destruct (host_hung_up d m port) as [d1 m1]. simplify_eq/=.
    by eapply goes_keeps.
  - pose proof (host_gone_goes H d m port) as G. destruct (host_gone d m port) as [d1 m1]. simplify_eq/=.
    by eapply goes_keeps.
  - pose proof (flush_to_host_goes H d m port) as G. destruct (flush_to_host d m port) as [[d1 m1] w]. simplify_eq/=.
    by eapply goes_keeps.
  - simplify_eq. eapply goes_keeps; [apply drop_conns_goes|done|done].
Qed.

Lemma session_keeps ops d m H d' m' H' :
  view_ok (view d) H -> shell_ok (d, m) -> session_ok (d, m, H) ops -> foldl run_vop (d, m, H) ops = (d', m', H') ->
  view_ok (view d') H' /\ shell_ok (d', m').
Proof.
  revert d m H. induction ops as [|o ops IH]; intros d m H Hv Hs Ho; cbn [foldl]; [by intros [= <- <- <-]|].
  destruct Ho as [Ho Hk]. destruct (run_vop (d, m, H) o) as [[d1 m1] H1] eqn:E.
  destruct (run_vop_ok _ _ _ _ _ _ _ Hv Hs Ho E). by apply IH.
Qed.

Lemma start_ok (l : L) m : ram_ok m -> view_ok (view (connect_irq new l)) ∅ /\ shell_ok (connect_irq new l, m).
Proof.
  intros Hm. split; [|split; simpl; [done|apply queue_default_ok..]].
  split; simpl; try done; try apply Forall_nil_2; try lia.
Qed.
End Session.

(** ** What holds after any session *)

(** C2. The host's bytes reach the guest's RAM in order and only once. After any
    interleaving of the guest's accesses and stores with the bridge's calls, provided
    the driver posted every buffer the device used soundly (inside RAM, apart from
    each other and from its rings), take what the guest reads at each completion: the
    bytes of the buffers the newest used entry names, up to its length. Their payloads
    for a port, then what is queued for it, are a prefix of the bytes the host gave
    that connection; and while the guest reads and the connection stands, those bytes
    and the backlog are all of them. *)
Theorem vsock_stream_order {L : Type} `{IrqLineLaws L} (l : L) (m : GuestRam) (ops : list VsockOp)
    (d : VirtioVsock L) (m' : GuestRam) (h : History) (port : Z) :
  ram_ok m -> session_ok (vsock_start l m) ops -> foldl run_vop (vsock_start l m) ops = (d, m', h) ->
  Forall posted_soundly (popped d) ->
  let received := data_for port (seen <$> popped d) in
  let queued := data_for port (v_pending d) in
  received ++ queued `prefix_of` hist h port /\
  (forall c, conns d !! port = Some c -> guest_rcv_shut c = false -> received ++ queued ++ backlog c = hist h port).
Proof.
  intros Hm Ho E Hsound received queued. destruct (start_ok l m Hm) as [Hv Hs].
  destruct (session_keeps ops _ _ _ _ _ _ Hv Hs Ho E) as [Hw _].
  assert (seen <$> popped d = f_pkt <$> popped d) as Es.
  { pose proof (wo_seen _ _ Hw) as Hf. simpl in Hf. clear -Hf Hsound. induction Hf as [|f fs Hf _ IH]; [done|].
    apply Forall_cons in Hsound as [Hs1 Hs]. cbn [fmap list_fmap]. by rewrite (Hf Hs1), IH. }
  subst received. rewrite Es.
  pose proof (wo_prefix _ _ Hw port) as Hp. unfold sent_to in Hp. simpl in Hp. rewrite data_for_app in Hp.
  split; [exact Hp|]. intros c Hc Hr. pose proof (wo_exact _ _ Hw port c Hc Hr) as He.
  unfold sent_to in He. simpl in He. by rewrite data_for_app, <-app_assoc in He.
Qed.

(** C18. Every connection, after any session: the guest's bytes waiting for the
    host never exceed the credit the device extends; nothing has moved either way
    before the guest accepted; the writer thread's gate is closed exactly when it
    has nothing to write, and the reader's only behind a full backlog or a guest
    that reads no more; a guest that reads no more and a host that has gone leave
    no byte waiting for them; and the host's stream is shut for writing only once
    it has every guest byte. Every packet queued for the guest is from the host
    and carries as many bytes as its header says. *)
Theorem vsock_conn_invariant {L : Type} `{IrqLineLaws L} (l : L) (m : GuestRam) (ops : list VsockOp)
    (d : VirtioVsock L) (m' : GuestRam) (h : History) :
  ram_ok m -> session_ok (vsock_start l m) ops -> foldl run_vop (vsock_start l m) ops = (d, m', h) ->
  (forall port c, conns d !! port = Some c ->
    zlen (to_host c) <= OUR_BUF_ALLOC /\
    (c_state c <> Connected -> tx_cnt c = 0 /\ rx_cnt c = 0 /\ to_host c = []) /\
    writer_closed c = is_empty (to_host c) /\
    (reader_closed c = true ->
      HOST_BACKLOG_MAX <= zlen (backlog c) \/ (guest_rcv_shut c = true /\ guest_send_shut c = false)) /\
    (guest_rcv_shut c = true -> backlog c = []) /\
    (c_host_gone c = true -> to_host c = []) /\
    (host_write_shut c = true -> guest_send_shut c = true /\ to_host c = [])) /\
  Forall (fun p => exists k, parse p = Some k /\ src_cid k = HOST_CID /\ dst_cid k = GUEST_CID /\
    zlen p = HDR_LEN + h_len k) (v_pending d).
Proof.
  intros Hm Ho E. destruct (start_ok l m Hm) as [Hv Hs].
  destruct (session_keeps ops _ _ _ _ _ _ Hv Hs Ho E) as [Hw _]. split.
  - intros port c Hc. destruct (view_conn _ _ _ _ Hw Hc) as [[] _]. done.
  - eapply Forall_impl; [apply (wo_pending _ _ Hw)|]. intros p (k & body & -> & Hk & Hl & _ & ? & ? & _).
    exists k. rewrite parse_to_bytes by done. rewrite zlen_app, to_bytes_len, Hl. done.
Qed.


(** ** A session: the guest accepts, and a packet is cut to fit its buffer *)

(** Two RX buffers, of 4096 and of 50 bytes, and one TX packet. *)
Definition vsock_stores : list (Z * nat * Z) :=
  [(0x1000, 8%nat, 0xb000); (0x1008, 4%nat, 4096); (0x100c, 2%nat, 2);
   (0x1010, 8%nat, 0xc000); (0x1018, 4%nat, 50); (0x101c, 2%nat, 2);
   (0x2002, 2%nat, 2); (0x2004, 2%nat, 0); (0x2006, 2%nat, 1);
   (0x7000, 8%nat, 0xa000); (0x7008, 4%nat, 44); (0x8002, 2%nat, 1)].
Definition vsock_ram : GuestRam := run_stores split_ram vsock_stores.

Lemma vsock_ram_ok : ram_ok vsock_ram.
Proof. apply run_stores_evolves, split_ram_ok. Qed.

Definition program_queue (i base : Z) : list VsockOp :=
  (fun '(o, v) => OpMmio (mkMmio o true v)) <$>
  [(Mmio.QUEUE_SEL, i); (Mmio.QUEUE_NUM, 8); (Mmio.QUEUE_DESC_LOW, base); (Mmio.QUEUE_DRIVER_LOW, base + 0x1000);
   (Mmio.QUEUE_DEVICE_LOW, base + 0x2000); (Mmio.QUEUE_READY, 1)].

Definition demo_vops : list VsockOp :=
  OpStore 0xa000 (to_bytes guest_response) :: program_queue RX_QUEUE 0x1000 ++ program_queue TX_QUEUE 0x7000 ++
  [OpAccept demo_stream; OpMmio (mkMmio Mmio.QUEUE_NOTIFY true TX_QUEUE);
   OpData 40000 [1; 2; 3; 4; 5; 6; 7; 8; 9; 10]].

Definition demo_start : VirtioVsock PlainLine * GuestRam * History := vsock_start (mkPlainLine false) vsock_ram.
Definition demo_end : VirtioVsock PlainLine * GuestRam * History := Eval vm_compute in foldl run_vop demo_start demo_vops.

Lemma demo_end_eq : foldl run_vop demo_start demo_vops = demo_end.
Proof. vm_compute. reflexivity. Qed.

Lemma demo_session_ok : session_ok demo_start demo_vops.
Proof. vm_compute. repeat split; repeat constructor; congruence. Qed.

Lemma demo_end_split : demo_end = (demo_end.1.1, demo_end.1.2, demo_end.2).
Proof. reflexivity. Qed.

(** A buffer of the demo, posted alone in its chain. *)
Definition posted_alone (f : Fill) (b : Z * Z * Z) : bool :=
  let '(head, addr, len) := b in
  let q := f_queue f in
  bool_decide (read_u16 (f_before f) (avail q + 4 + 2 * (last_avail q mod num q)) = Some head) &&
  bool_decide (ring_chain q (f_before f) head = Some ([mkSegment addr len true], true)) && contains (f_before f) addr len &&
  bool_decide (apart (addr, len) (desc_span q)) && bool_decide (apart (addr, len) (used_span q)) &&
  bool_decide (apart (desc_span q) (used_span q)).

Lemma posted_alone_sound fs bs :
  length fs = length bs -> forallb (fun p => posted_alone p.1 p.2) (zip fs bs) = true -> Forall posted_soundly fs.
Proof.
  revert bs. induction fs as [|f fs IH]; intros [|[[head addr] len] bs] Hlen; simpl; try done. intros [Hb Hall]%andb_prop.
  constructor; [|apply (IH bs); [by simpl in Hlen; lia|done]].
  rewrite !andb_true_iff, !bool_decide_eq_true in Hb. destruct Hb as (((((Hh & Hc) & Hin) & H1) & H2) & H3).
  exists head, [mkSegment addr len true]. split; [done|]. split; [done|]. cbv zeta.
  change (seg_span <$> from_device [mkSegment addr len true]) with [(addr, len)]. split; [by constructor|].
  split; [done|]. split; [by constructor|done].
Qed.

Lemma demo_end_sound : Forall posted_soundly (popped demo_end.1.1).
Proof. apply (posted_alone_sound _ [(0, 0xb000, 4096); (1, 0xc000, 50)]); vm_compute; reflexivity. Qed.

Lemma vsock_stream_order_witness :
  data_for 40000 (seen <$> popped demo_end.1.1) = [1; 2; 3; 4; 5; 6] /\
  data_for 40000 (seen <$> popped demo_end.1.1) ++ data_for 40000 (v_pending demo_end.1.1) `prefix_of` hist demo_end.2 40000.
Proof.
  split; [vm_compute; reflexivity|].
  refine (proj1 (vsock_stream_order (mkPlainLine false) vsock_ram demo_vops demo_end.1.1 demo_end.1.2 demo_end.2 40000
    vsock_ram_ok demo_session_ok _ demo_end_sound)).
  rewrite <-demo_end_split. exact demo_end_eq.
Defined.

Lemma vsock_conn_invariant_witness :
  exists c, conns demo_end.1.1 !! 40000 = Some c /\ c_state c = Connected /\ zlen (to_host c) <= OUR_BUF_ALLOC.
Proof.
  destruct (vsock_conn_invariant (mkPlainLine false) vsock_ram demo_vops demo_end.1.1 demo_end.1.2 demo_end.2
    vsock_ram_ok demo_session_ok) as [Hc _].
  - rewrite <-demo_end_split. exact demo_end_eq.
  - eexists. split; [vm_compute; reflexivity|]. split; [reflexivity|].
    refine (proj1 (Hc 40000 _ _)). vm_compute. reflexivity.
Defined.




