(* ===== verification/Gateway.v ===== *)
(** * The gateway stream and the tap framing ([src/devices/virtio/net.rs], [tap.rs])

    The gateway carries each frame as a 4-byte big-endian length and the frame;
    a zero length is a keepalive. [GatewayFrames] reassembles the frames from
    whatever each receive returns. The reference parser reads a whole byte
    string at once; the theorem says that the incremental one, under any
    cutting of the stream into receives, delivers the same frames in the same
    order and stops at the same place. *)

From S2P Require Import Prelude.
Local Open Scope Z_scope.

Definition NET_HDR_LEN : Z := 12.
Definition MAX_FRAME_LEN : Z := 65536.
Definition FRAME_LEN_PREFIX : Z := 4.
Definition DRAIN_BURST : nat := 256.

(** ** Reassembly *)

Record GatewayFrames := mkFrames { g_buf : list Z; g_start : Z }.
Definition frames_default : GatewayFrames := mkFrames [] 0.

Definition push (g : GatewayFrames) (bytes : list Z) : GatewayFrames :=
  let g := if zlen (g_buf g) - g_start g <=? g_start g
           then mkFrames (drop (Z.to_nat (g_start g)) (g_buf g)) 0 else g in
  mkFrames (g_buf g ++ bytes) (g_start g).

(** [io::Result<Option<&[u8]>>]. *)
Inductive FrameResult := Frame (f : list Z) | NoFrame | BadLength (len : Z).

(** The loop of [next_frame]; each keepalive consumes four bytes, so the length
    of the buffer bounds it. *)
Fixpoint next_loop (fuel : nat) (g : GatewayFrames) : GatewayFrames * FrameResult :=
  match fuel with
  | O => (g, NoFrame)
  | S fuel =>
      let pending := drop (Z.to_nat (g_start g)) (g_buf g) in
      match get_range pending 0 FRAME_LEN_PREFIX with
      | None => (g, NoFrame)
      | Some len =>
          let len := be_val len in
          if len =? 0 then next_loop fuel (mkFrames (g_buf g) (g_start g + FRAME_LEN_PREFIX))
          else if MAX_FRAME_LEN <? len then (g, BadLength len)
          else if zlen pending <? FRAME_LEN_PREFIX + len then (g, NoFrame)
          else (mkFrames (g_buf g) (g_start g + (FRAME_LEN_PREFIX + len)),
                Frame (sub_bytes (g_buf g) (g_start g + FRAME_LEN_PREFIX) (g_start g + FRAME_LEN_PREFIX + len)))
      end
  end.
Definition next_frame (g : GatewayFrames) : GatewayFrames * FrameResult :=
  next_loop (S (length (g_buf g))) g.

(** [while let Some(frame) = next_frame()? { deliver(frame) }]: the frames
    delivered, and the length that ended it when one did. *)
Fixpoint take_frames (fuel : nat) (g : GatewayFrames) : GatewayFrames * list (list Z) * option Z :=
  match fuel with
  | O => (g, [], None)
  | S fuel =>
      match next_frame g with
      | (g, NoFrame) => (g, [], None)
      | (g, BadLength len) => (g, [], Some len)
      | (g, Frame f) => let '(g, fs, e) := take_frames fuel g in (g, f :: fs, e)
      end
  end.
Definition deliver_frames (g : GatewayFrames) : GatewayFrames * list (list Z) * option Z :=
  take_frames (S (length (g_buf g))) g.

(** What one receive answers. *)
Inductive Recv := Received (bytes : list Z) | Empty | RecvError.
(** How a burst ends. *)
Inductive Burst := Continue | Break | Failed.

(** [drain_burst]: the parser, the frames delivered, how it ended and the
    answers not asked for. A socket that is never empty is asked [n] times. *)
Fixpoint drain_loop (n : nat) (g : GatewayFrames) (recvs : list Recv)
    : GatewayFrames * list (list Z) * Burst * list Recv :=
  match n with
  | O => (g, [], Continue, recvs)
  | S n =>
      match recvs with
      | [] | Empty :: _ => (g, [], Continue, drop 1 recvs)
      | RecvError :: k => (g, [], Failed, k)
      | Received [] :: k => (g, [], Break, k)
      | Received bytes :: k =>
          match deliver_frames (push g bytes) with
          | (g, fs, Some _) => (g, fs, Failed, k)
          | (g, fs, None) => let '(g, fs', b, k) := drain_loop n g k in (g, fs ++ fs', b, k)
          end
      end
  end.
Definition drain_burst (g : GatewayFrames) (recvs : list Recv) : GatewayFrames * list (list Z) * Burst * list Recv :=
  drain_loop DRAIN_BURST g recvs.

(** The frame as [relay_to_gateway] writes it, and a keepalive. *)
Definition encode_frame (f : list Z) : list Z := be_bytes 4 (u32 (zlen f)) ++ f.

(** ** The tap *)

Definition prepend_vnet_hdr (frame : list Z) : list Z := replicate (Z.to_nat NET_HDR_LEN) 0 ++ frame.

Definition strip_vnet_hdr (buf : list Z) (n : Z) : option (list Z) :=
  payload ← get_range buf NET_HDR_LEN n;
  match payload with [] => None | _ => Some payload end.

(** [drain_burst] of the tap: one read is one frame, read into the front of the
    buffer. *)
Fixpoint tap_drain_loop (n : nat) (recvs : list Recv) : list (list Z) * Burst * list Recv :=
  match n with
  | O => ([], Continue, recvs)
  | S n =>
      match recvs with
      | [] | Empty :: _ => ([], Continue, drop 1 recvs)
      | RecvError :: k => ([], Failed, k)
      | Received [] :: k => ([], Break, k)
      | Received bytes :: k =>
          let fs := match strip_vnet_hdr bytes (zlen bytes) with Some f => [f] | None => [] end in
          let '(fs', b, k) := tap_drain_loop n k in (fs ++ fs', b, k)
      end
  end.
Definition tap_drain_burst (recvs : list Recv) : list (list Z) * Burst * list Recv := tap_drain_loop DRAIN_BURST recvs.

Definition hex_digit (b : Z) : option Z :=
  if between 48 57 b then Some (b - 48) else if between 97 102 b then Some (b - 87)
  else if between 65 70 b then Some (b - 55) else None.
Fixpoint hex_digits (s : list Z) (v : Z) : option Z :=
  match s with
  | [] => Some v
  | b :: s => x ← hex_digit b; if v * 16 + x <? 256 then hex_digits s (v * 16 + x) else None
  end.
(** [u8::from_str_radix(s, 16)]: a leading plus sign is part of the syntax. *)
Definition u8_from_hex (s : list Z) : option Z :=
  match s with
  | [] => None
  | b :: k => if b =? 43 then match k with [] => None | _ => hex_digits k 0 end else hex_digits s 0
  end.

(** The loop of [parse_mac], over the parts of the text. *)
Fixpoint mac_parts (parts : list (list Z)) (out : list Z) : option (list Z) :=
  match parts with
  | [] => if zlen out =? 6 then Some out else None
  | part :: parts =>
      if (zlen out =? 6) || negb (zlen part =? 2) then None
      else b ← u8_from_hex part; mac_parts parts (out ++ [b])
  end.
Definition parse_mac (s : list Z) : option (list Z) := mac_parts (split_on 58 s) [].

(** ** The reference parser *)

(** The frames of a byte string, what is left after them, and whether it ends
    at a length that is too big. *)
Fixpoint frames_in (fuel : nat) (b : list Z) : list (list Z) * list Z * bool :=
  match fuel with
  | O => ([], b, false)
  | S fuel =>
      if zlen b <? 4 then ([], b, false)
      else
        let len := be_val (take 4 b) in
        let rest := drop 4 b in
        if MAX_FRAME_LEN <? len then ([], b, true)
        else if zlen rest <? len then ([], b, false)
        else
          let '(fs, rest', bad) := frames_in fuel (drop (Z.to_nat len) rest) in
          ((if len =? 0 then [] else [take (Z.to_nat len) rest]) ++ fs, rest', bad)
  end.
Definition frames_of (b : list Z) : list (list Z) * list Z * bool := frames_in (S (length b)) b.

(** ** The incremental parser against it *)

Definition pending_bytes (g : GatewayFrames) : list Z := drop (Z.to_nat (g_start g)) (g_buf g).
Definition frames_ok (g : GatewayFrames) : Prop := 0 <= g_start g <= zlen (g_buf g).

Lemma push_bytes g bs : frames_ok g -> frames_ok (push g bs) /\ pending_bytes (push g bs) = pending_bytes g ++ bs.
Proof.
  unfold frames_ok, push, pending_bytes. intros Hg. destruct (_ <=? _); cbn [g_buf g_start].
  - split; [zlia|done].
  - split; [zlia|]. apply drop_app_le. unfold zlen in *. lia.
Qed.

Lemma frames_in_fuel f1 f2 b :
  bytes_ok b -> (length b < f1)%nat -> (length b < f2)%nat -> frames_in f1 b = frames_in f2 b.
Proof.
  revert f2 b. induction f1 as [|f1 IH]; intros f2 b Hb H1 H2; [lia|]. destruct f2 as [|f2]; [lia|]. cbn [frames_in].
  destruct (Z.ltb_spec (zlen b) 4) as [|Hl]; [done|]. destruct (_ <? _); [done|]. destruct (_ <? _); [done|].
  rewrite (IH f2); [done|auto with hvi|rewrite !length_drop; unfold zlen in Hl; lia..].
Qed.

Lemma take4_range b : bytes_ok b -> 0 <= be_val (take 4 b).
Proof. intros Hb. apply be_val_range. auto with hvi. Qed.

(** [frames_of] by its first step. *)
Lemma frames_of_step b :
  bytes_ok b ->
  frames_of b =
    if zlen b <? 4 then ([], b, false)
    else
      let len := be_val (take 4 b) in
      let rest := drop 4 b in
      if MAX_FRAME_LEN <? len then ([], b, true)
      else if zlen rest <? len then ([], b, false)
      else
        let '(fs, rest', bad) := frames_of (drop (Z.to_nat len) rest) in
        ((if len =? 0 then [] else [take (Z.to_nat len) rest]) ++ fs, rest', bad).
Proof.
  intros Hb. unfold frames_of at 1. cbn [frames_in]. destruct (Z.ltb_spec (zlen b) 4) as [|Hl]; [done|].
  cbv zeta. destruct (_ <? _); [done|]. destruct (_ <? _); [done|]. unfold frames_of.
  rewrite (frames_in_fuel (length b) (S (length (drop (Z.to_nat (be_val (take 4 b))) (drop 4 b)))));
    [done|auto with hvi|rewrite !length_drop; unfold zlen in Hl; lia|lia].
Qed.

Lemma get_prefix (b : list Z) : get_range b 0 4 = if zlen b <? 4 then None else Some (take 4 b).
Proof.
  destruct (Z.ltb_spec (zlen b) 4).
  - destruct (get_range b 0 4) eqn:E; [|done]. apply get_range_Some in E. lia.
  - apply get_range_Some. split; [lia|]. split; [lia|done].
Qed.

Lemma pending_advance g n :
  0 <= g_start g -> 0 <= n ->
  pending_bytes (mkFrames (g_buf g) (g_start g + n)) = drop (Z.to_nat n) (pending_bytes g).
Proof. intros. unfold pending_bytes. cbn [g_start g_buf]. rewrite drop_drop. f_equal. lia. Qed.

(** One call of [next_frame] against the reference. *)
Definition next_agrees (g g' : GatewayFrames) (r : FrameResult) : Prop :=
  frames_ok g' /\ g_buf g' = g_buf g /\
  match r with
  | Frame f =>
      (length (pending_bytes g') < length (pending_bytes g))%nat /\
      frames_of (pending_bytes g) = let '(fs, rest, bad) := frames_of (pending_bytes g') in (f :: fs, rest, bad)
  | NoFrame => frames_of (pending_bytes g) = ([], pending_bytes g', false) /\ frames_of (pending_bytes g') = ([], pending_bytes g', false)
  | BadLength _ => frames_of (pending_bytes g) = ([], pending_bytes g', true)
  end.

Lemma zlen_pending g : frames_ok g -> zlen (pending_bytes g) = zlen (g_buf g) - g_start g.
Proof. intros Hg. unfold pending_bytes, frames_ok in *. zlia. Qed.

Lemma next_loop_agrees fuel g g' r :
  bytes_ok (g_buf g) -> frames_ok g -> (length (pending_bytes g) < fuel)%nat ->
  next_loop fuel g = (g', r) -> next_agrees g g' r.
Proof.
  revert g. induction fuel as [|fuel IH]; intros g Hb Hg Hf; [lia|]. cbn [next_loop].
  fold (pending_bytes g). set (p := pending_bytes g) in *. assert (bytes_ok p) as Hp by (subst p; unfold pending_bytes; auto with hvi).
  pose proof (zlen_pending g Hg) as Hlen. fold p in Hlen. unfold frames_ok in Hg.
  unfold FRAME_LEN_PREFIX. rewrite get_prefix. pose proof (frames_of_step p Hp) as Hs. cbv zeta in Hs.
  destruct (Z.ltb_spec (zlen p) 4) as [Hlt|Hge].
  { intros [= <- <-]. by split. }
  cbv zeta. pose proof (take4_range p Hp) as H0. set (len := be_val (take 4 p)) in *.
  destruct (Z.eqb_spec len 0) as [E0|Hne].
  { rewrite E0 in Hs. cbn [Z.ltb] in Hs. change (MAX_FRAME_LEN <? 0) with false in Hs.
    assert ((zlen (drop 4 p) <? 0) = false) as Ez by (apply Z.ltb_ge; zlen_pos; lia). rewrite Ez in Hs. cbn [Z.eqb] in Hs.
    set (g1 := mkFrames (g_buf g) (g_start g + 4)). pose proof (pending_advance g 4 ltac:(lia) ltac:(lia)) as Ep.
    fold g1 p in Ep. change (Z.to_nat 4) with 4%nat in Ep. change (drop (Z.to_nat 0) (drop 4 p)) with (drop 4 p) in Hs.
    rewrite <-Ep in Hs. assert (length (pending_bytes g1) < length p)%nat as Hlt1.
    { rewrite Ep, length_drop. unfold zlen in Hge. lia. }
    intros E. apply IH in E as (Hok & Hbuf & Hr); [|done|unfold frames_ok; subst g1; simpl; lia|lia].
    split; [done|]. split; [done|]. fold p. rewrite Hs. destruct r as [f| |len'].
    - destruct Hr as [Hr1 Hr2]. split; [lia|]. rewrite Hr2. by destruct (frames_of (pending_bytes g')) as [[? ?] ?].
    - destruct Hr as [Hr1 Hr2]. by rewrite Hr1.
    - by rewrite Hr. }
  destruct (Z.ltb_spec MAX_FRAME_LEN len) as [|Hmax].
  { intros [= <- <-]. by split. }
  assert (zlen (drop 4 p) = zlen p - 4) as Hd by zlia. rewrite Hd in Hs.
  destruct (Z.ltb_spec (zlen p) (4 + len)) as [Hlt|Hfit].
  { rewrite (proj2 (Z.ltb_lt _ _)) in Hs by lia. intros [= <- <-]. by split. }
  rewrite (proj2 (Z.ltb_ge _ _)) in Hs by lia. intros E. apply pair_equal_spec in E as [<- <-].
  pose proof (pending_advance g (4 + len) ltac:(lia) ltac:(lia)) as Ep. fold p in Ep.
  split; [unfold frames_ok; simpl; lia|]. split; [done|]. rewrite Ep. fold p.
  rewrite drop_drop in Hs. replace (4 + Z.to_nat len)%nat with (Z.to_nat (4 + len)) in Hs by lia.
  split; [rewrite length_drop; unfold zlen in Hge; lia|]. rewrite Hs.
  destruct (frames_of (drop (Z.to_nat (4 + len)) p)) as [[fs rest] bad]. cbn [app]. repeat f_equal.
  rewrite sub_bytes_eq by lia. subst p. unfold pending_bytes. rewrite drop_drop. f_equal; [lia|]. f_equal. lia.
Qed.

Lemma next_frame_agrees g g' r :
  bytes_ok (g_buf g) -> frames_ok g -> next_frame g = (g', r) -> next_agrees g g' r.
Proof.
  intros Hb Hg. apply next_loop_agrees; [done|done|]. unfold pending_bytes. rewrite length_drop. lia.
Qed.

Lemma take_frames_agrees fuel g g' fs e :
  bytes_ok (g_buf g) -> frames_ok g -> (length (pending_bytes g) < fuel)%nat -> take_frames fuel g = (g', fs, e) ->
  frames_ok g' /\ g_buf g' = g_buf g /\
  frames_of (pending_bytes g) = (fs, pending_bytes g', match e with Some _ => true | None => false end) /\
  (e = None -> frames_of (pending_bytes g') = ([], pending_bytes g', false)).
Proof.
  revert g fs. induction fuel as [|fuel IH]; intros g fs Hb Hg Hf; [lia|]. cbn [take_frames].
  destruct (next_frame g) as [g1 r] eqn:En. apply next_frame_agrees in En as (Hok & Hbuf & Hr); [|done|done].
  destruct r as [f| |len].
  - destruct Hr as [Hlt Hr]. destruct (take_frames fuel g1) as [[g2 fs2] e2] eqn:Et.
    intros [= <- <- <-]. apply IH in Et as (Hok2 & Hbuf2 & E2 & H2); [|congruence|done|lia].
    split; [done|]. split; [congruence|]. split; [|done]. by rewrite Hr, E2.
  - intros [= <- <- <-]. destruct Hr as [Hr1 Hr2]. done.
  - intros [= <- <- <-]. done.
Qed.

(** More bytes at the end never change the frames already complete. *)
Lemma frames_of_app a b :
  bytes_ok a -> bytes_ok b ->
  frames_of (a ++ b) =
    let '(fs, rest, bad) := frames_of a in
    if bad then (fs, rest ++ b, true)
    else let '(fs', rest', bad') := frames_of (rest ++ b) in (fs ++ fs', rest', bad').
Proof.
  intros Ha Hb. remember (length a) as n eqn:Hn. revert a Ha Hn.
  induction n as [n IH] using (well_founded_induction lt_wf). intros a Ha Hn.
  rewrite (frames_of_step a Ha). destruct (Z.ltb_spec (zlen a) 4) as [|Hl].
  { by destruct (frames_of (a ++ b)) as [[? ?] ?]. }
  assert (bytes_ok (a ++ b)) as Hab by (by apply bytes_ok_app).
  assert (take 4 (a ++ b) = take 4 a /\ drop 4 (a ++ b) = drop 4 a ++ b) as [Et Ed]
    by (unfold zlen in Hl; split; [apply take_app_le|apply drop_app_le]; lia).
  pose proof (frames_of_step (a ++ b) Hab) as Hs. rewrite Et, Ed in Hs. cbv zeta in Hs |- *.
  rewrite (proj2 (Z.ltb_ge (zlen (a ++ b)) 4)) in Hs by zlia. pose proof (take4_range a Ha) as H0.
  set (len := be_val (take 4 a)) in *. destruct (Z.ltb_spec MAX_FRAME_LEN len); [by rewrite Hs|].
  destruct (Z.ltb_spec (zlen (drop 4 a)) len) as [Hlt|Hge].
  { by destruct (frames_of (a ++ b)) as [[? ?] ?]. }
  rewrite zlen_app in Hs. rewrite (proj2 (Z.ltb_ge (zlen (drop 4 a) + zlen b) len)) in Hs by (zlen_pos; lia).
  assert (take (Z.to_nat len) (drop 4 a ++ b) = take (Z.to_nat len) (drop 4 a) /\
    drop (Z.to_nat len) (drop 4 a ++ b) = drop (Z.to_nat len) (drop 4 a) ++ b) as [Et' Ed']
    by (unfold zlen in Hge; split; [apply take_app_le|apply drop_app_le]; lia).
  rewrite Et', Ed' in Hs. rewrite Hs.
  rewrite (IH (length (drop (Z.to_nat len) (drop 4 a)))); [|rewrite Hn, !length_drop; unfold zlen in Hl; lia|auto with hvi|done].
  destruct (frames_of (drop (Z.to_nat len) (drop 4 a))) as [[fs rest] bad]. destruct bad; [done|].
  destruct (frames_of (rest ++ b)) as [[fs' rest'] bad']. by rewrite app_assoc.
Qed.

(** A parser with no complete frame left. *)
Definition settled (g : GatewayFrames) : Prop :=
  bytes_ok (g_buf g) /\ frames_ok g /\ frames_of (pending_bytes g) = ([], pending_bytes g, false).

Lemma settled_default : settled frames_default.
Proof. split; [constructor|]. split; [done|]. reflexivity. Qed.

Lemma deliver_push g bs g' fs e :
  settled g -> bytes_ok bs -> deliver_frames (push g bs) = (g', fs, e) ->
  frames_of (pending_bytes g ++ bs) = (fs, pending_bytes g', match e with Some _ => true | None => false end) /\
  (e = None -> settled g').
Proof.
  intros (Hb & Hg & _) Hbs E. destruct (push_bytes g bs Hg) as [Hg1 Ep].
  assert (bytes_ok (g_buf (push g bs))) as Hb1.
  { unfold push. destruct (_ <=? _); cbn [g_buf]; apply bytes_ok_app; auto with hvi. }
  apply take_frames_agrees in E as (Hok & Hbuf & E & Hs); [|done|done|unfold pending_bytes; rewrite length_drop; lia].
  rewrite <-Ep. split; [done|]. intros ->. split; [by rewrite Hbuf|]. split; [done|auto].
Qed.

(** A relay's wakeups, each with what its receives return, up to the stop;
    it ends when one does not continue. The shutdown of the socket and the end of
    the sink's batch are left out. *)
Fixpoint relay_run (g : GatewayFrames) (wakeups : list (list Recv)) : GatewayFrames * list (list Z) * Burst :=
  match wakeups with
  | [] => (g, [], Continue)
  | w :: ws =>
      match drain_burst g w with
      | (g, fs, Continue, _) => let '(g, fs', b) := relay_run g ws in (g, fs ++ fs', b)
      | (g, fs, b, _) => (g, fs, b)
      end
  end.

Definition chunk_ok (c : list Z) : Prop := bytes_ok c /\ c <> [].

Lemma drain_chunks n g cs :
  settled g -> Forall chunk_ok cs -> (length cs <= n)%nat ->
  exists g' k, drain_loop n g (Received <$> cs) =
    (g', (frames_of (pending_bytes g ++ concat cs)).1.1,
     if (frames_of (pending_bytes g ++ concat cs)).2 then Failed else Continue, k) /\
    ((frames_of (pending_bytes g ++ concat cs)).2 = false ->
     settled g' /\ frames_of (pending_bytes g ++ concat cs) =
       ((frames_of (pending_bytes g ++ concat cs)).1.1, pending_bytes g', false)).
Proof.
  revert g cs. induction n as [|n IH]; intros g cs Hg Hcs Hn.
  { destruct cs; [|simpl in Hn; lia]. exists g, []. simpl. rewrite app_nil_r. destruct Hg as (Hb & Hok & Hf).
    by rewrite Hf. }
  destruct cs as [|c cs].
  { exists g, []. simpl. rewrite app_nil_r. destruct Hg as (Hb & Hok & Hf). by rewrite Hf. }
  apply Forall_cons in Hcs as [[Hc Hne] Hcs]. destruct c as [|x c]; [done|]. rewrite fmap_cons.
  cbn [drain_loop concat]. set (ch := x :: c) in *.
  destruct (deliver_frames (push g ch)) as [[g1 fs] e] eqn:Ed. destruct (deliver_push _ _ _ _ _ Hg Hc Ed) as [Ef Hs].
  assert (bytes_ok (pending_bytes g ++ ch)) as Hb1.
  { apply bytes_ok_app. split; [|done]. destruct Hg as (Hb & _). unfold pending_bytes. auto with hvi. }
  assert (bytes_ok (concat cs)) as Hb2.
  { apply Forall_concat. eapply Forall_impl; [exact Hcs|]. by intros y []. }
  rewrite (app_assoc (pending_bytes g) ch), (frames_of_app _ _ Hb1 Hb2), Ef. destruct e as [len|].
  { eexists g1, _. simpl. split; [done|done]. }
  specialize (Hs eq_refl). destruct (IH g1 cs Hs Hcs ltac:(simpl in Hn; lia)) as (g2 & k & Ed2 & Hr2). rewrite Ed2.
  destruct (frames_of (pending_bytes g1 ++ concat cs)) as [[fs2 rest2] bad2]. simpl in *.
  exists g2, k. split; [done|]. intros Hbad. destruct (Hr2 Hbad) as [Hs2 E2]. simplify_eq. done.
Qed.

(** A frame the stream may carry, or a keepalive. *)
Definition item_ok (f : list Z) : Prop := bytes_ok f /\ zlen f <= MAX_FRAME_LEN.

Lemma frames_of_encode f rest :
  item_ok f -> bytes_ok rest ->
  frames_of (encode_frame f ++ rest) =
    let '(fs, rest', bad) := frames_of rest in ((match f with [] => [] | _ => [f] end) ++ fs, rest', bad).
Proof.
  intros [Hf Hl] Hr. unfold encode_frame. unfold MAX_FRAME_LEN in Hl. rewrite u32_small by (zlen_pos; lia).
  rewrite frames_of_step by (rewrite !bytes_ok_app; auto with hvi).
  assert (take 4 ((be_bytes 4 (zlen f) ++ f) ++ rest) = be_bytes 4 (zlen f) /\
    drop 4 ((be_bytes 4 (zlen f) ++ f) ++ rest) = f ++ rest) as [-> ->].
  { rewrite <-app_assoc. split; [apply take_app_length'|apply drop_app_length']; symmetry; apply length_be_bytes. }
  rewrite (proj2 (Z.ltb_ge _ 4)) by (rewrite !zlen_app, zlen_be_bytes; zlen_pos; lia).
  cbv zeta. rewrite be_val_be_bytes by (zlen_pos; lia). unfold MAX_FRAME_LEN.
  rewrite (proj2 (Z.ltb_ge 65536 _)) by lia. rewrite (proj2 (Z.ltb_ge (zlen (f ++ rest)) _)) by (rewrite zlen_app; zlen_pos; lia).
  replace (Z.to_nat (zlen f)) with (length f) by (unfold zlen; lia).
  rewrite drop_app_length, take_app_length. destruct f; [done|].
  rewrite (proj2 (Z.eqb_neq _ 0)) by (zsimp; zlen_pos; lia). done.
Qed.

Lemma encode_ok f : bytes_ok f -> bytes_ok (encode_frame f).
Proof. intros Hf. apply bytes_ok_app. auto with hvi. Qed.

Lemma frames_of_items items tl :
  Forall item_ok items -> bytes_ok tl ->
  frames_of (concat (encode_frame <$> items) ++ tl) =
    let '(fs, rest, bad) := frames_of tl in (filter (.≠ []) items ++ fs, rest, bad).
Proof.
  intros Hi Ht. induction Hi as [|f items Hf Hi IH]; cbn [fmap list_fmap concat app].
  { by destruct (frames_of tl) as [[? ?] ?]. }
  assert (bytes_ok (concat (encode_frame <$> items) ++ tl)) as Hb.
  { apply bytes_ok_app. split; [|done]. apply Forall_concat, Forall_fmap. eapply Forall_impl; [exact Hi|].
    intros y [Hy _]. by apply encode_ok. }
  rewrite <-app_assoc, (frames_of_encode f _ Hf Hb), IH. destruct (frames_of tl) as [[fs rest] bad].
  rewrite filter_cons. by destruct f.
Qed.

Definition received (w : list (list Z)) : list Recv := Received <$> w.
Definition burst_ok (w : list (list Z)) : Prop := Forall chunk_ok w /\ (length w <= DRAIN_BURST)%nat.

Lemma relay_chunks g ws :
  settled g -> Forall burst_ok ws ->
  let '(_, fs, b) := relay_run g (received <$> ws) in
  let '(fs', _, bad) := frames_of (pending_bytes g ++ concat (concat ws)) in
  fs = fs' /\ b = if bad then Failed else Continue.
Proof.
  intros Hg Hws. revert g Hg. induction Hws as [|w ws [Hw Hl] Hws IH]; intros g Hg.
  { simpl. rewrite app_nil_r. destruct Hg as (_ & _ & ->). done. }
  rewrite fmap_cons. cbn [relay_run concat]. unfold drain_burst, received at 1.
  destruct (drain_chunks DRAIN_BURST g w Hg Hw Hl) as (g1 & k & Ed & Hr). rewrite Ed.
  assert (bytes_ok (pending_bytes g ++ concat w)) as Hb1.
  { apply bytes_ok_app. split; [destruct Hg as (Hb & _); unfold pending_bytes; auto with hvi|].
    apply Forall_concat. eapply Forall_impl; [exact Hw|]. by intros ? []. }
  assert (bytes_ok (concat (concat ws))) as Hb2.
  { apply Forall_concat, Forall_concat. eapply Forall_impl; [exact Hws|]. intros y [Hy _].
    eapply Forall_impl; [exact Hy|]. by intros ? []. }
  rewrite concat_app, app_assoc, (frames_of_app _ _ Hb1 Hb2).
  destruct (frames_of (pending_bytes g ++ concat w)) as [[fs1 rest1] bad1]. simpl in *. destruct bad1; [done|].
  destruct (Hr eq_refl) as [Hs E]. simplify_eq. specialize (IH g1 Hs).
  destruct (relay_run g1 _) as [[g2 fs2] b2]. destruct (frames_of (pending_bytes g1 ++ concat (concat ws))) as [[fs3 r3] bad3].
  destruct IH as [-> ->]. done.
Qed.

(** The relay delivers what the gateway sent, however the stream is cut. For
    any wakeups and any receives in them, the frames handed to the guest are
    those the reference parser finds in the whole byte string, in order, and the
    relay fails exactly when it meets a length above the limit. In particular a
    stream of frames written as the device itself writes them, keepalives among
    them and an unfinished frame behind them, delivers each frame once. *)
Theorem gateway_relay_delivers (ws : list (list (list Z))) (items : list (list Z)) (tl : list Z) :
  Forall burst_ok ws -> Forall item_ok items -> frames_of tl = ([], tl, false) ->
  let '(_, fs, b) := relay_run frames_default (received <$> ws) in
  let '(fs', _, bad) := frames_of (concat (concat ws)) in
  fs = fs' /\ b = (if bad then Failed else Continue) /\
  (concat (concat ws) = concat (encode_frame <$> items) ++ tl -> fs = filter (.≠ []) items /\ b = Continue).
Proof.
  intros Hws Hi Ht. pose proof (relay_chunks frames_default ws settled_default Hws) as Hr.
  destruct (relay_run frames_default _) as [[g fs] b]. change (pending_bytes frames_default) with (@nil Z) in Hr.
  cbn [app] in Hr. destruct (frames_of (concat (concat ws))) as [[fs' rest] bad] eqn:Ef. destruct Hr as [-> ->].
  split; [done|]. split; [done|]. intros E.
  assert (bytes_ok tl) as Hb.
  { assert (bytes_ok (concat (concat ws))) as Hb.
    { apply Forall_concat, Forall_concat. eapply Forall_impl; [exact Hws|]. intros y [Hy _].
      eapply Forall_impl; [exact Hy|]. by intros ? []. }
    rewrite E in Hb. by apply bytes_ok_app in Hb as [_ ?]. }
  rewrite E, (frames_of_items _ _ Hi Hb), Ht in Ef. simplify_eq. by rewrite app_nil_r.
Qed.

(** Two frames around a keepalive, the second cut in the middle of its length
    and in the middle of its bytes, over two wakeups. *)
Definition demo_wakeups : list (list (list Z)) :=
  [[[0; 0; 0; 2; 7; 8; 0]; [0; 0; 0; 0; 0]]; [[0; 3; 1; 2]; [3; 0; 0]]].

Lemma gateway_relay_delivers_witness :
  (relay_run frames_default (received <$> demo_wakeups)).1.2 = [[7; 8]; [1; 2; 3]].
Proof.
  assert (Forall burst_ok demo_wakeups) as Hws.
  { repeat constructor; (lia || congruence). }
  assert (Forall item_ok [[7; 8]; []; [1; 2; 3]]) as Hi by (repeat constructor; try lia; vm_compute; congruence).
  pose proof (gateway_relay_delivers demo_wakeups [[7; 8]; []; [1; 2; 3]] [0; 0] Hws Hi eq_refl) as H.
  destruct (relay_run _ _) as [[g fs] b]. destruct (frames_of (concat (concat demo_wakeups))) as [[fs' r] bad].
  destruct H as (_ & _ & H). exact (proj1 (H eq_refl)).
Defined.

(** The tap's header is put on and taken off without touching the frame: any
    non-empty frame written to a tap comes back from a read of it, and a read
    with no byte past the header delivers nothing. *)
Lemma tap_header_roundtrip (frame junk : list Z) :
  frame <> [] ->
  strip_vnet_hdr (prepend_vnet_hdr frame ++ junk) (NET_HDR_LEN + zlen frame) = Some frame /\
  (forall n, n <= NET_HDR_LEN -> strip_vnet_hdr (prepend_vnet_hdr frame ++ junk) n = None).
Proof.
  intros Hne. unfold strip_vnet_hdr, prepend_vnet_hdr. split.
  - rewrite <-app_assoc, (get_range_app3 (replicate (Z.to_nat NET_HDR_LEN) 0) frame junk); [by destruct frame| |];
      rewrite zlen_replicate; reflexivity.
  - intros n Hn. destruct (get_range _ _ n) as [k|] eqn:E; [|done]. apply get_range_Some in E as (H1 & _ & ->).
    by replace (n - NET_HDR_LEN) with 0 by lia.
Qed.

(** ** The address of the guest *)

Definition hex_char (v : Z) : Z := if v <? 10 then 48 + v else 87 + v.
Definition hex_byte (b : Z) : list Z := [hex_char (b / 16); hex_char (b mod 16)].
(** The address as the host prints it: two digits a byte, joined by colons. *)
Fixpoint print_mac (mac : list Z) : list Z :=
  match mac with [] => [] | [b] => hex_byte b | b :: mac => hex_byte b ++ [58] ++ print_mac mac end.

Lemma hex_char_digit v : 0 <= v < 16 -> hex_digit (hex_char v) = Some v /\ hex_char v <> 58 /\ hex_char v <> 43.
Proof.
  intros Hv. assert (forallb (fun v => bool_decide (hex_digit (hex_char v) = Some v /\ hex_char v <> 58 /\ hex_char v <> 43))
    (seqZ 0 16) = true) as Hf by (vm_compute; reflexivity).
  rewrite forallb_forall in Hf. eapply bool_decide_eq_true_1, Hf, list_elem_of_In, elem_of_seqZ. lia.
Qed.

Lemma hex_byte_read b : byte_ok b -> u8_from_hex (hex_byte b) = Some b.
Proof.
  intros [H0 H1]. unfold hex_byte, u8_from_hex.
  destruct (hex_char_digit (b / 16)) as (E1 & _ & Hp); [zlia|]. destruct (hex_char_digit (b mod 16)) as (E2 & _ & _); [zlia|].
  rewrite (proj2 (Z.eqb_neq _ _) Hp). cbn [hex_digits]. rewrite E1. cbn [mbind option_bind].
  rewrite (proj2 (Z.ltb_lt _ _)) by zlia. rewrite E2. cbn [mbind option_bind].
  replace ((0 * 16 + b / 16) * 16 + b mod 16) with b by zlia. by rewrite (proj2 (Z.ltb_lt _ _)) by lia.
Qed.

Lemma split_print b mac :
  Forall byte_ok (b :: mac) -> split_on 58 (print_mac (b :: mac)) = hex_byte <$> (b :: mac).
Proof.
  revert b. induction mac as [|c mac IH]; intros b [[H0 H1] Hm]%Forall_cons.
  all: destruct (hex_char_digit (b / 16)) as (_ & Ha & _); [zlia|]; destruct (hex_char_digit (b mod 16)) as (_ & Hb & _); [zlia|].
  - cbn [print_mac hex_byte split_on]. by rewrite (proj2 (Z.eqb_neq _ _) Ha), (proj2 (Z.eqb_neq _ _) Hb).
  - rewrite fmap_cons, <-(IH c Hm). set (r := print_mac (c :: mac)). cbn [print_mac]. fold (print_mac (c :: mac)). fold r.
    cbn [hex_byte app split_on]. rewrite (proj2 (Z.eqb_neq _ _) Ha), (proj2 (Z.eqb_neq _ _) Hb). cbn [Z.eqb Pos.eqb]. done.
Qed.

(** A printed address parses back; so does a group of a plus sign and one digit,
    which is not how an address is written. *)
Lemma parse_mac_print mac : bytes_ok mac -> zlen mac = 6 -> parse_mac (print_mac mac) = Some mac.
Proof.
  intros Hm Hl. destruct mac as [|b mac]; [done|]. unfold parse_mac. rewrite split_print by done.
  assert (forall out rest, bytes_ok rest -> zlen out + zlen rest = 6 -> mac_parts (hex_byte <$> rest) out = Some (out ++ rest)) as Hp.
  { clear. intros out rest Hr. revert out. induction Hr as [|b rest Hb _ IH]; intros out Hl.
    - cbn [fmap list_fmap mac_parts]. rewrite app_nil_r. change (zlen []) with 0 in Hl. by rewrite (proj2 (Z.eqb_eq _ _)) by lia.
    - rewrite fmap_cons. cbn [mac_parts]. rewrite zlen_cons in Hl. rewrite (proj2 (Z.eqb_neq _ _)) by (zlen_pos; lia).
      change (zlen (hex_byte b) =? 2) with true. cbn [negb orb]. rewrite hex_byte_read by done. cbn [mbind option_bind].
      rewrite IH by (rewrite zlen_app; change (zlen [b]) with 1; lia). by rewrite <-app_assoc. }
  by apply (Hp []).
Qed.

Lemma parse_mac_plus :
  parse_mac ([43; 53] ++ [58] ++ print_mac [0x54; 0; 0x12; 0x34; 0x57]) = Some [5; 0x54; 0; 0x12; 0x34; 0x57].
Proof. vm_compute. reflexivity. Qed.
