(* ===== verification/Packets.v ===== *)
(** * The packets of the user-space network stack ([src/devices/virtio/net.rs])

    Parsing and building, over byte lists. An index or a slice out of range is a
    panic in the code, and a panic ends the VMM; [Run] keeps it apart from a
    result, so that the theorems can say that no packet of the guest causes one.
    [get] and the [?] on it are [get_at], [get_range], [get_from] and [try]. *)

From S2P Require Import Prelude.
Local Open Scope Z_scope.

(** ** Panics *)

Inductive Run (A : Type) := Done (a : A) | Panic.
Arguments Done {A} a.
Arguments Panic {A}.

#[export] Instance Run_ret : MRet Run := fun A a => Done a.
#[export] Instance Run_bind : MBind Run := fun A B f m => match m with Done a => f a | Panic => Panic end.

(** [l[i]], [l[a..b]] and [l[a..]]. *)
Definition index (l : list Z) (i : Z) : Run Z := match get_at l i with Some b => Done b | None => Panic end.
Definition slice_of (l : list Z) (a b : Z) : Run (list Z) := match get_range l a b with Some k => Done k | None => Panic end.
Definition slice_from (l : list Z) (a : Z) : Run (list Z) := match get_from l a with Some k => Done k | None => Panic end.

(** [o?] in a function that returns an [Option]. *)
Definition try {A B} (o : option A) (k : A -> Run (option B)) : Run (option B) :=
  match o with Some a => k a | None => Done None end.

(** [u16::from_be_bytes([l[i], l[i + 1]])]. *)
Definition index_u16 (l : list Z) (i : Z) : Run Z :=
  a ← index l i; b ← index l (i + 1); Done (a * 256 + b).

(** ** Addresses *)

Definition OUR_MAC : list Z := [0x52; 0x54; 0x00; 0x12; 0x34; 0x56].
Definition GUEST_MAC : list Z := [0x52; 0x54; 0x00; 0x12; 0x34; 0x57].
Definition GUEST_IP : list Z := [10; 0; 2; 15].
Definition GW_IP : list Z := [10; 0; 2; 2].
Definition DNS_IP : list Z := [10; 0; 2; 3].
Definition BROADCAST : list Z := [255; 255; 255; 255].
Definition ETH_ARP : Z := 0x0806.
Definition ETH_IPV4 : Z := 0x0800.
Definition IP_ICMP : Z := 1.
Definition IP_TCP : Z := 6.
Definition IP_UDP : Z := 17.

(** ** Building *)

Definition eth_frame (dst src : list Z) (ethertype : Z) (payload : list Z) : list Z :=
  dst ++ src ++ be_bytes 2 ethertype ++ payload.

(** The sum of the 16-bit words, an odd last byte being a high byte, in a [u32]. *)
Fixpoint sum_words (data : list Z) (sum : Z) : Z :=
  match data with
  | a :: b :: k => sum_words k (u32 (sum + (a * 256 + b)))
  | [a] => u32 (sum + u32 (Z.shiftl a 8))
  | [] => sum
  end.

(** [while sum >> 16 != 0]: two passes fold a [u32]. *)
Fixpoint fold_sum (fuel : nat) (sum : Z) : Z :=
  match fuel with
  | O => sum
  | S fuel =>
      if Z.shiftr sum 16 =? 0 then sum
      else fold_sum fuel (u32 (Z.land sum 0xffff + Z.shiftr sum 16))
  end.

Definition checksum16 (data : list Z) : Z := 0xffff - u16 (fold_sum 3 (sum_words data 0)).

(** The 20 bytes of an IPv4 header around its checksum. *)
Definition ipv4_header (src dst : list Z) (proto total ck : Z) : list Z :=
  [0x45; 0] ++ be_bytes 2 (u16 total) ++ [0; 0; 0; 0; 64; proto] ++ be_bytes 2 ck ++ src ++ dst.
Definition ipv4_packet (src dst : list Z) (proto : Z) (payload : list Z) : list Z :=
  let total := 20 + zlen payload in
  let ck := checksum16 (ipv4_header src dst proto total 0) in
  ipv4_header src dst proto total ck ++ payload.

Definition udp_datagram (src_port dst_port : Z) (payload : list Z) : list Z :=
  be_bytes 2 src_port ++ be_bytes 2 dst_port ++ be_bytes 2 (u16 (8 + zlen payload)) ++ [0; 0] ++ payload.

(** The echo reply to an ICMP message, around its checksum. *)
Definition echo_reply (icmp : list Z) (code : Z) : list Z :=
  let body ck := [0; code] ++ be_bytes 2 ck ++ drop 4 icmp in
  body (checksum16 (body 0)).

(** The ARP reply to a request. *)
Definition arp_reply (target_ip sender_mac sender_ip : list Z) : list Z :=
  be_bytes 2 1 ++ be_bytes 2 ETH_IPV4 ++ [6; 4] ++ be_bytes 2 2 ++ OUR_MAC ++ target_ip ++ sender_mac ++ sender_ip.

(** The BOOTP reply with its options. *)
Definition dhcp_reply (xid chaddr : list Z) (reply_type : Z) : list Z :=
  [2; 1; 6; 0] ++ xid ++ replicate 8 0 ++ GUEST_IP ++ GW_IP ++ replicate 4 0 ++ chaddr ++ replicate 192 0 ++
  [0x63; 0x82; 0x53; 0x63] ++
  [53; 1; reply_type] ++ [54; 4] ++ GW_IP ++ [51; 4] ++ be_bytes 4 86400 ++ [1; 4; 255; 255; 255; 0] ++
  [3; 4] ++ GW_IP ++ [6; 4] ++ DNS_IP ++ [255].

(** The DNS response to a question, with the host's answer if it has one. *)
Definition dns_response (id question : list Z) (ip : option (list Z)) : list Z :=
  id ++ be_bytes 2 0x8180 ++ be_bytes 2 1 ++ be_bytes 2 (match ip with Some _ => 1 | None => 0 end) ++ [0; 0; 0; 0] ++
  question ++
  match ip with
  | Some v4 => [0xc0; 0x0c] ++ be_bytes 2 1 ++ be_bytes 2 1 ++ be_bytes 4 300 ++ be_bytes 2 4 ++ v4
  | None => []
  end.

(** ** Text *)

(** [utf8_char_width] of a byte that is not ASCII. *)
Definition char_width (b : Z) : Z :=
  if between 0xc2 0xdf b then 2 else if between 0xe0 0xef b then 3 else if between 0xf0 0xf4 b then 4 else 0.
Definition is_cont (b : Z) : bool := between 0x80 0xbf b.
(** The second byte a first byte of width three or four allows. *)
Definition second_ok (b0 b1 : Z) : bool :=
  if b0 =? 0xe0 then between 0xa0 0xbf b1 else if b0 =? 0xed then between 0x80 0x9f b1
  else if b0 =? 0xf0 then between 0x90 0xbf b1 else if b0 =? 0xf4 then between 0x80 0x8f b1
  else is_cont b1.

(** How many bytes of the front form a character, and how many an invalid
    sequence would take with it; a byte past the end reads as 0. *)
Definition utf8_step (l : list Z) : bool * nat :=
  let b i := default 0 (l !! i) in
  if b 0%nat <? 128 then (true, 1%nat)
  else
    let w := char_width (b 0%nat) in
    if w =? 2 then if is_cont (b 1%nat) then (true, 2%nat) else (false, 1%nat)
    else if w =? 3 then
      if negb (second_ok (b 0%nat) (b 1%nat)) then (false, 1%nat)
      else if is_cont (b 2%nat) then (true, 3%nat) else (false, 2%nat)
    else if w =? 4 then
      if negb (second_ok (b 0%nat) (b 1%nat)) then (false, 1%nat)
      else if negb (is_cont (b 2%nat)) then (false, 2%nat)
      else if is_cont (b 3%nat) then (true, 4%nat) else (false, 3%nat)
    else (false, 1%nat).

(** [String::from_utf8_lossy]: each invalid sequence becomes U+FFFD. *)
Fixpoint lossy_loop (fuel : nat) (l : list Z) : list Z :=
  match fuel with
  | O => []
  | S fuel =>
      match l with
      | [] => []
      | _ =>
          let '(valid, n) := utf8_step l in
          (if valid then take n l else [0xef; 0xbf; 0xbd]) ++ lossy_loop fuel (drop n l)
      end
  end.
Definition from_utf8_lossy (l : list Z) : list Z := lossy_loop (length l) l.

(** ** Parsing *)

(** The loop of [parse_dns_name]: the name so far and the position; [None] is an
    early return. *)
Fixpoint dns_labels (fuel : nat) (msg name : list Z) (i : Z) : Run (option (list Z * Z)) :=
  match fuel with
  | O => Done (Some (name, i))
  | S fuel =>
      if i <? zlen msg then
        len ← index msg i;
        if len =? 0 then Done (Some (name, i + 1))
        else if negb (Z.land len 0xc0 =? 0) then Done None
        else
          let i := i + 1 in
          try (get_range msg i (i + len)) (fun label =>
            let name := name ++ (match name with [] => [] | _ => [46] end) ++ from_utf8_lossy label in
            dns_labels fuel msg name (i + len))
      else Done (Some (name, i))
  end.
Definition parse_dns_name (msg : list Z) (off : Z) : Run (option (list Z * Z)) :=
  r ← dns_labels (S (length msg)) msg [] off;
  try r (fun '(name, i) =>
    try (checked_add i 4) (fun qend => if zlen msg <? qend then Done None else Done (Some (name, qend)))).

Definition is_ascii_graphic (b : Z) : bool := between 0x21 0x7e b.

(** The extension loop of [parse_tls_sni]. *)
Fixpoint sni_exts (fuel : nat) (body : list Z) (p ext_end : Z) : Run (option (list Z)) :=
  match fuel with
  | O => Done None
  | S fuel =>
      if p + 4 <=? ext_end then
        etype ← index_u16 body p;
        elen ← index_u16 body (p + 2);
        try (get_range body (p + 4) (p + 4 + elen)) (fun data =>
          if etype =? 0 then
            if 5 <=? zlen data then
              t ← index data 2;
              if t =? 0 then
                nlen ← index_u16 data 3;
                try (get_range data 5 (5 + nlen)) (fun name =>
                  if negb (bool_decide (name = [])) && forallb is_ascii_graphic name
                  then Done (Some (from_utf8_lossy name)) else Done None)
              else Done None
            else Done None
          else sni_exts fuel body (p + (4 + elen)) ext_end)
      else Done None
  end.

(** A vector behind a 1-byte or a 2-byte length: the position past it. *)
Definition skip_vec8 {B} (body : list Z) (p : Z) (k : Z -> Run (option B)) : Run (option B) :=
  try (get_at body p) (fun n => try (checked_add p (1 + n)) k).
Definition skip_vec16 {B} (body : list Z) (p : Z) (k : Z -> Run (option B)) : Run (option B) :=
  try (get_at body p) (fun a => try (get_at body (p + 1)) (fun b => try (checked_add p (2 + (a * 256 + b))) k)).

Definition parse_tls_sni (rec : list Z) : Run (option (list Z)) :=
  if zlen rec <? 5 then Done None
  else
    t ← index rec 0;
    if negb (t =? 0x16) then Done None
    else try (get_from rec 5) (fun body =>
      if zlen body <? 4 then Done None
      else
        mt ← index body 0;
        if negb (mt =? 0x01) then Done None
        else
          try (checked_add 4 (2 + 32)) (fun p =>
          skip_vec8 body p (fun p => (* session_id *)
          skip_vec16 body p (fun p => (* cipher suites *)
          skip_vec8 body p (fun p => (* compression methods *)
          try (get_at body p) (fun e0 => try (get_at body (p + 1)) (fun e1 =>
          let p := p + 2 in
          try (checked_add p (e0 * 256 + e1)) (fun e =>
          sni_exts (S (length body)) body p (Z.min e (zlen body)))))))))).

(** The option walk of [handle_dhcp]: the message type, or an early return. *)
Fixpoint dhcp_options (fuel : nat) (bootp : list Z) (i msg_type : Z) : Run (option Z) :=
  match fuel with
  | O => Done (Some msg_type)
  | S fuel =>
      if i <? zlen bootp then
        code ← index bootp i;
        if code =? 255 then Done (Some msg_type)
        else if code =? 0 then dhcp_options fuel bootp (i + 1) msg_type
        else
          try (get_at bootp (i + 1)) (fun len =>
            let data := i + 2 in
            if zlen bootp <? data + len then Done (Some msg_type)
            else
              mt ← (if (code =? 53) && (1 <=? len) then index bootp data else Done msg_type);
              dhcp_options fuel bootp (data + len) mt)
      else Done (Some msg_type)
  end.

(** ** No packet panics *)

Definition returns {A} (r : Run A) : Prop := exists a, r = Done a.

Lemma returns_done {A} (a : A) : returns (Done a).
Proof. by exists a. Qed.

Lemma returns_bind {A B} (m : Run A) (f : A -> Run B) :
  returns m -> (forall a, m = Done a -> returns (f a)) -> returns (m ≫= f).
Proof. intros [a ->] Hf. by apply Hf. Qed.

Lemma returns_try {A B} (o : option A) (k : A -> Run (option B)) :
  (forall a, o = Some a -> returns (k a)) -> returns (try o k).
Proof. intros Hk. destruct o; [by apply Hk|by eexists]. Qed.

Lemma index_returns l i : 0 <= i < zlen l -> returns (index l i).
Proof. intros Hi. unfold index. destruct (get_at_is_Some l i Hi) as [b ->]. by exists b. Qed.

Lemma index_u16_returns l i : 0 <= i -> i + 1 < zlen l -> returns (index_u16 l i).
Proof.
  intros H0 H1. unfold index_u16. apply returns_bind; [apply index_returns; lia|]. intros a _.
  apply returns_bind; [apply index_returns; lia|]. intros b _. apply returns_done.
Qed.

Lemma slice_of_returns l a b : 0 <= a <= b -> b <= zlen l -> returns (slice_of l a b).
Proof.
  intros Hab Hb. unfold slice_of.
  rewrite (proj2 (get_range_Some l a b (take (Z.to_nat (b - a)) (drop (Z.to_nat a) l)))) by done. by eexists.
Qed.

Lemma slice_from_returns l a : 0 <= a <= zlen l -> returns (slice_from l a).
Proof.
  intros H0. unfold slice_from, get_from. rewrite (proj2 (Z.leb_le 0 a)), (proj2 (Z.leb_le a (zlen l))) by lia. by eexists.
Qed.

Lemma get_at_byte l i b : bytes_ok l -> get_at l i = Some b -> 0 <= b < 256.
Proof. intros Hl. unfold get_at. destruct (0 <=? i); [|done]. intros E. exact (Forall_lookup_1 _ _ _ _ Hl E). Qed.

Lemma index_Done l i b : index l i = Done b -> get_at l i = Some b.
Proof. unfold index. destruct (get_at l i); intros; by simplify_eq. Qed.

Lemma index_byte l i b : bytes_ok l -> index l i = Done b -> 0 <= b < 256.
Proof. intros Hl E. apply (get_at_byte l i); [done|by apply index_Done]. Qed.

Lemma index_u16_range l i v : bytes_ok l -> index_u16 l i = Done v -> 0 <= v < 65536.
Proof.
  intros Hl. unfold index_u16. destruct (index l i) as [a|] eqn:Ea; [|done]. destruct (index l (i + 1)) as [b|] eqn:Eb; [|done].
  intros [= <-]. pose proof (index_byte _ _ _ Hl Ea). pose proof (index_byte _ _ _ Hl Eb). lia.
Qed.

Lemma get_range_bytes l a b k : bytes_ok l -> get_range l a b = Some k -> bytes_ok k /\ zlen k = b - a /\ 0 <= a <= b /\ b <= zlen l.
Proof. intros Hl (? & ? & ->)%get_range_Some. split; [auto with hvi|]. split; [zlia|done]. Qed.

(** The walk over a question's labels ends within the message, and its fuel is
    enough: more of it changes nothing. *)
Lemma dns_labels_ok fuel msg name i :
  bytes_ok msg -> 0 <= i -> (Z.to_nat (zlen msg - i) < fuel)%nat ->
  exists r, dns_labels fuel msg name i = Done r /\
    (forall nm j, r = Some (nm, j) -> i <= j /\ (i <= zlen msg -> j <= zlen msg)) /\
    (forall fuel', (fuel <= fuel')%nat -> dns_labels fuel' msg name i = Done r).
Proof.
  intros Hm. revert name i. induction fuel as [|fuel IH]; intros name i Hi Hf; [lia|].
  destruct (Z.ltb_spec i (zlen msg)) as [Hlt|Hge].
  2: { exists (Some (name, i)). cbn [dns_labels]. rewrite (proj2 (Z.ltb_ge _ _)) by lia.
       split; [done|]. split; [intros nm j [= <- <-]; lia|]. intros [|fuel'] Hle; [lia|]. cbn [dns_labels].
       by rewrite (proj2 (Z.ltb_ge _ _)) by lia. }
  destruct (index_returns msg i ltac:(lia)) as [len El]. pose proof (index_byte _ _ _ Hm El) as Hlen.
  assert (forall n, dns_labels (S n) msg name i =
    if len =? 0 then Done (Some (name, i + 1)) else if negb (Z.land len 0xc0 =? 0) then Done None
    else try (get_range msg (i + 1) (i + 1 + len)) (fun label =>
      dns_labels n msg (name ++ (match name with [] => [] | _ => [46] end) ++ from_utf8_lossy label) (i + 1 + len))) as Estep.
  { intros n. cbn [dns_labels]. rewrite (proj2 (Z.ltb_lt _ _)), El by lia. done. }
  rewrite Estep. destruct (Z.eqb_spec len 0) as [->|Hne].
  { eexists. split; [done|]. split; [intros nm j [= <- <-]; lia|]. intros [|n] Hle; [lia|]. by rewrite Estep. }
  destruct (negb _) eqn:Ec.
  { eexists. split; [done|]. split; [done|]. intros [|n] Hle; [lia|]. by rewrite Estep. }
  destruct (get_range msg (i + 1) (i + 1 + len)) as [label|] eqn:Er; cbn [try].
  2: { eexists. split; [done|]. split; [done|]. intros [|n] Hle; [lia|]. by rewrite Estep. }
  apply get_range_Some in Er as Er'. destruct Er' as (_ & Hend & _).
  destruct (IH (name ++ (match name with [] => [] | _ => [46] end) ++ from_utf8_lossy label) (i + 1 + len)) as (r & Hr & Hb & Hfu);
    [lia|lia|].
  exists r. split; [done|]. split; [intros nm j E; destruct (Hb nm j E); lia|]. intros [|n] Hle; [lia|]. rewrite Estep.
  cbn [try]. apply Hfu. lia.
Qed.

Lemma parse_dns_name_ok msg off :
  bytes_ok msg -> 0 <= off ->
  exists r, parse_dns_name msg off = Done r /\ (forall nm qend, r = Some (nm, qend) -> off + 4 <= qend <= zlen msg).
Proof.
  intros Hm Ho. unfold parse_dns_name.
  destruct (dns_labels_ok (S (length msg)) msg [] off Hm Ho) as (r & -> & Hb & _); [unfold zlen; lia|].
  cbn [mbind Run_bind]. destruct r as [[nm i]|]; cbn [try]; [|by eexists].
  destruct (Hb nm i eq_refl) as [H1 _]. unfold checked_add. destruct (Z.ltb_spec (i + 4) (2 ^ 64)); cbn [try]; [|by eexists].
  destruct (Z.ltb_spec (zlen msg) (i + 4)); eexists; (split; [done|]); [done|]. intros nm' qend [= <- <-]. lia.
Qed.

Lemma sni_exts_returns fuel body p e :
  bytes_ok body -> 0 <= p -> e <= zlen body -> returns (sni_exts fuel body p e).
Proof.
  intros Hb. revert p. induction fuel as [|fuel IH]; intros p Hp He; [by eexists|]. cbn [sni_exts].
  destruct (Z.leb_spec (p + 4) e) as [Hle|]; [|by eexists].
  apply returns_bind; [apply index_u16_returns; lia|]. intros etype _.
  apply returns_bind; [apply index_u16_returns; lia|]. intros elen Eel. pose proof (index_u16_range _ _ _ Hb Eel) as Hel.
  apply returns_try. intros data Ed. destruct (get_range_bytes _ _ _ _ Hb Ed) as (Hd & Hdl & _).
  destruct (etype =? 0); [|apply IH; lia]. destruct (Z.leb_spec 5 (zlen data)) as [H5|]; [|by eexists].
  apply returns_bind; [apply index_returns; lia|]. intros t _. destruct (t =? 0); [|by eexists].
  apply returns_bind; [apply index_u16_returns; lia|]. intros nlen _.
  apply returns_try. intros nm _. destruct (_ && _); by eexists.
Qed.

(** More fuel changes nothing. *)
Lemma sni_exts_fuel f1 f2 body p e :
  bytes_ok body -> 0 <= p -> e <= zlen body -> (Z.to_nat (zlen body - p) < f1)%nat -> (Z.to_nat (zlen body - p) < f2)%nat ->
  sni_exts f1 body p e = sni_exts f2 body p e.
Proof.
  intros Hb. revert f2 p. induction f1 as [|f1 IH]; intros f2 p Hp He H1 H2; [lia|]. destruct f2 as [|f2]; [lia|].
  cbn [sni_exts]. destruct (Z.leb_spec (p + 4) e); [|done]. destruct (index_u16 body p) as [etype|]; [|done]. cbn [mbind Run_bind].
  destruct (index_u16 body (p + 2)) as [elen|] eqn:Eel; [|done]. cbn [mbind Run_bind].
  pose proof (index_u16_range _ _ _ Hb Eel). destruct (get_range _ _ _) as [data|]; [|done]. cbn [try].
  destruct (etype =? 0); [done|]. apply IH; lia.
Qed.

Lemma parse_tls_sni_returns rec : bytes_ok rec -> returns (parse_tls_sni rec).
Proof.
  intros Hr. unfold parse_tls_sni. destruct (Z.ltb_spec (zlen rec) 5); [by eexists|].
  apply returns_bind; [apply index_returns; lia|]. intros t _. destruct (negb _); [by eexists|].
  apply returns_try. intros body (_ & ->)%get_from_Some. set (b := drop _ rec).
  assert (bytes_ok b) as Hb by (subst b; auto with hvi). clearbody b.
  destruct (Z.ltb_spec (zlen b) 4); [by eexists|]. apply returns_bind; [apply index_returns; lia|]. intros mt _.
  destruct (negb _); [by eexists|].
  apply returns_try; intros p1 [-> _]%checked_add_Some.
  unfold skip_vec8, skip_vec16.
  apply returns_try; intros sid E1. pose proof (get_at_byte _ _ _ Hb E1).
  apply returns_try; intros p2 [-> _]%checked_add_Some.
  apply returns_try; intros c0 E2. pose proof (get_at_byte _ _ _ Hb E2).
  apply returns_try; intros c1 E3. pose proof (get_at_byte _ _ _ Hb E3).
  apply returns_try; intros p3 [-> _]%checked_add_Some.
  apply returns_try; intros cm E4. pose proof (get_at_byte _ _ _ Hb E4).
  apply returns_try; intros p4 [-> _]%checked_add_Some.
  apply returns_try; intros e0 E5. apply returns_try; intros e1 E6.
  apply returns_try; intros e _. apply sni_exts_returns; [done|lia|lia].
Qed.

Lemma dhcp_options_ok fuel bootp i mt :
  bytes_ok bootp -> 0 <= i -> (Z.to_nat (zlen bootp - i) < fuel)%nat ->
  exists r, dhcp_options fuel bootp i mt = Done r /\
    (forall fuel', (fuel <= fuel')%nat -> dhcp_options fuel' bootp i mt = Done r).
Proof.
  intros Hb. revert i mt. induction fuel as [|fuel IH]; intros i mt Hi Hf; [lia|].
  destruct (Z.ltb_spec i (zlen bootp)) as [Hlt|Hge].
  2: { exists (Some mt). cbn [dhcp_options]. rewrite (proj2 (Z.ltb_ge _ _)) by lia. split; [done|].
       intros [|n] Hle; [lia|]. cbn [dhcp_options]. by rewrite (proj2 (Z.ltb_ge _ _)) by lia. }
  destruct (index_returns bootp i ltac:(lia)) as [code Ec].
  assert (forall n r, (forall n', (n <= n')%nat ->
      (if code =? 255 then Done (Some mt) else if code =? 0 then dhcp_options n' bootp (i + 1) mt
       else try (get_at bootp (i + 1)) (fun len => if zlen bootp <? i + 2 + len then Done (Some mt)
         else mt ← (if (code =? 53) && (1 <=? len) then index bootp (i + 2) else Done mt);
           dhcp_options n' bootp (i + 2 + len) mt)) = Done r) ->
    dhcp_options (S n) bootp i mt = Done r /\ (forall fuel', (S n <= fuel')%nat -> dhcp_options fuel' bootp i mt = Done r)) as Estep.
  { intros n r Hr. assert (forall n', (n <= n')%nat -> dhcp_options (S n') bootp i mt = Done r) as Hn.
    { intros n' Hn'. cbn [dhcp_options]. rewrite (proj2 (Z.ltb_lt _ _)), Ec by lia. cbn [mbind Run_bind]. by apply Hr. }
    split; [by apply Hn|]. intros [|f] Hle; [lia|]. apply Hn. lia. }
  destruct (code =? 255) eqn:E255; [eexists; apply Estep; by intros|].
  destruct (code =? 0) eqn:E0.
  { destruct (IH (i + 1) mt ltac:(lia) ltac:(lia)) as (r & _ & Hr). exists r. apply Estep. intros n' Hn'. by apply Hr. }
  destruct (get_at bootp (i + 1)) as [len|] eqn:El; [|eexists; apply Estep; by intros].
  pose proof (get_at_byte _ _ _ Hb El) as Hlen. cbn [try] in Estep.
  destruct (Z.ltb_spec (zlen bootp) (i + 2 + len)) as [|Hfit]; [eexists; apply Estep; by intros|].
  assert (exists mt', (if (code =? 53) && (1 <=? len) then index bootp (i + 2) else Done mt) = Done mt') as [mt' Emt].
  { destruct ((code =? 53) && (1 <=? len)) eqn:E53; [|by eexists]. bool_hyps. apply index_returns. lia. }
  destruct (IH (i + 2 + len) mt' ltac:(lia) ltac:(lia)) as (r & _ & Hr). exists r. apply Estep. intros n' Hn'.
  rewrite Emt. cbn [mbind Run_bind]. by apply Hr.
Qed.

(** Literal byte lists. *)
Ltac bytes_lit := repeat first [apply Forall_nil_2 | apply Forall_cons_2; [first [assumption | split; lia] |]].

(** ** Checksums *)

(** The sum of the words without a width. *)
Fixpoint wsum (data : list Z) : Z :=
  match data with
  | a :: b :: k => a * 256 + b + wsum k
  | [a] => a * 256
  | [] => 0
  end.

(** Induction on a byte list two bytes at a time. *)
Lemma pairs_ind (P : list Z -> Prop) :
  P [] -> (forall a, P [a]) -> (forall a b k, P k -> P (a :: b :: k)) -> forall l, P l.
Proof.
  intros H0 H1 H2. fix IH 1. intros [|a [|b k]]; [exact H0|apply H1|apply H2, IH].
Qed.

Lemma wsum_range l : bytes_ok l -> 0 <= wsum l <= 65535 * ((zlen l + 1) / 2).
Proof.
  induction l as [|a|a b k IH] using pairs_ind; intros Hb; cbn [wsum].
  - done.
  - apply Forall_cons in Hb as [Ha _]. unfold byte_ok in Ha. change ((zlen [a] + 1) / 2) with 1. lia.
  - apply Forall_cons in Hb as [Ha Hb]. apply Forall_cons in Hb as [Hb Hk]. specialize (IH Hk). unfold byte_ok in *.
    rewrite !zlen_cons. replace (1 + (1 + zlen k) + 1) with ((zlen k + 1) + 1 * 2) by lia. rewrite Z.div_add by lia. lia.
Qed.

Lemma sum_words_wsum l s :
  bytes_ok l -> 0 <= s < 2 ^ 32 -> sum_words l s = u32 (s + wsum l).
Proof.
  revert s. induction l as [|a|a b k IH] using pairs_ind; intros s Hb Hs; cbn [sum_words wsum].
  - rewrite Z.add_0_r. symmetry. by apply u32_small.
  - apply Forall_cons in Hb as [Ha _]. unfold byte_ok in Ha. rewrite Z.shiftl_mul_pow2, (u32_small (a * 2 ^ 8)) by lia. done.
  - apply Forall_cons in Hb as [Ha Hb]. apply Forall_cons in Hb as [Hb Hk]. rewrite IH; [|done|apply u32_range].
    unfold u32. rewrite Zplus_mod_idemp_l. f_equal. lia.
Qed.

(** A pass of the fold keeps the sum modulo [2^16 - 1], and keeps it positive. *)
Lemma fold_pass s :
  0 <= s < 2 ^ 32 ->
  u32 (Z.land s 0xffff + Z.shiftr s 16) = s mod 2 ^ 16 + s / 2 ^ 16 /\
  s = s / 2 ^ 16 * 65535 + (s mod 2 ^ 16 + s / 2 ^ 16).
Proof.
  intros Hs. pose proof (Z.div_mod s (2 ^ 16) ltac:(lia)) as Hd. pose proof (Z.mod_pos_bound s (2 ^ 16) ltac:(lia)).
  assert (0 <= s / 2 ^ 16 < 2 ^ 16) by (split; [apply Z.div_pos; lia|apply Z.div_lt_upper_bound; lia]).
  assert (Z.land s 0xffff = s mod 2 ^ 16) as -> by (by apply (Z.land_ones s 16)).
  rewrite Z.shiftr_div_pow2 by lia. split; [apply u32_small; lia|lia].
Qed.

Lemma fold_sum_spec s :
  0 <= s < 2 ^ 32 ->
  0 <= fold_sum 3 s < 2 ^ 16 /\ (exists k, 0 <= k /\ s = k * 65535 + fold_sum 3 s) /\ (0 < s -> 0 < fold_sum 3 s).
Proof.
  intros Hs. assert (forall n s, 0 <= s < 2 ^ 32 -> fold_sum (S n) s =
    if s / 2 ^ 16 =? 0 then s else fold_sum n (s mod 2 ^ 16 + s / 2 ^ 16)) as Estep.
  { intros n t Ht. cbn [fold_sum]. destruct (fold_pass t Ht) as [-> _]. by rewrite Z.shiftr_div_pow2 by lia. }
  destruct (fold_pass s Hs) as [_ E1]. set (s1 := s mod 2 ^ 16 + s / 2 ^ 16) in *.
  assert (0 <= s1 <= 0x1fffe) as H1 by (subst s1; zlia). destruct (fold_pass s1 ltac:(lia)) as [_ E2].
  set (s2 := s1 mod 2 ^ 16 + s1 / 2 ^ 16) in *. assert (0 <= s2 < 2 ^ 16) as H2 by (subst s2; zlia).
  rewrite Estep by lia. destruct (Z.eqb_spec (s / 2 ^ 16) 0) as [E0|Hn0].
  { split; [zlia|]. split; [by exists 0|done]. }
  assert (0 <= s / 2 ^ 16 /\ 0 <= s1 / 2 ^ 16) as [Hq1 Hq2] by (split; apply Z.div_pos; lia). fold s1. rewrite Estep by lia. destruct (Z.eqb_spec (s1 / 2 ^ 16) 0) as [E10|Hn1].
  { split; [zlia|]. split; [by exists (s / 2 ^ 16)|]. subst s1. zlia. }
  fold s2. rewrite Estep by lia. rewrite (proj2 (Z.eqb_eq (s2 / 2 ^ 16) 0)) by zlia.
  split; [done|]. split; [exists (s / 2 ^ 16 + s1 / 2 ^ 16); lia|]. intros Hpos. subst s2. zlia.
Qed.

Lemma checksum16_spec l :
  bytes_ok l -> zlen l <= 131072 ->
  exists f k, checksum16 l = 65535 - f /\ 0 <= f < 2 ^ 16 /\ 0 <= k /\ wsum l = k * 65535 + f /\ (0 < wsum l -> 0 < f).
Proof.
  intros Hb Hl. pose proof (wsum_range l Hb) as Hr. assert (wsum l < 2 ^ 32) as Hlt by zlia.
  unfold checksum16. rewrite sum_words_wsum, Z.add_0_l, u32_small by (done || lia).
  destruct (fold_sum_spec (wsum l)) as (Hf & (k & Hk0 & Hk) & Hp); [lia|].
  exists (fold_sum 3 (wsum l)), k. rewrite u16_small by done. done.
Qed.

Lemma wsum_app_even l k : Nat.Even (length l) -> wsum (l ++ k) = wsum l + wsum k.
Proof.
  induction l as [|a|a b l IH] using pairs_ind; intros He; cbn [app wsum].
  - done.
  - exfalso. destruct He as [n Hn]. simpl in Hn. lia.
  - rewrite IH; [lia|]. destruct He as [n Hn]. exists (n - 1)%nat. simpl in Hn. lia.
Qed.

Lemma be2 v : be_bytes 2 v = [v / 256 mod 256; v mod 256].
Proof. reflexivity. Qed.

(** A message whose checksum field holds the checksum of the message with the
    field zero verifies. *)
Lemma checksum_verifies pre post :
  bytes_ok pre -> bytes_ok post -> Nat.Even (length pre) -> zlen pre + 2 + zlen post <= 131072 ->
  checksum16 (pre ++ be_bytes 2 (checksum16 (pre ++ be_bytes 2 0 ++ post)) ++ post) = 0.
Proof.
  intros Hpre Hpost He Hl.
  assert (forall v, bytes_ok (pre ++ be_bytes 2 v ++ post) /\ zlen (pre ++ be_bytes 2 v ++ post) <= 131072) as Hok.
  { intros v. rewrite !bytes_ok_app. split; [auto with hvi|]. rewrite !zlen_app, zlen_be_bytes. lia. }
  assert (forall v, 0 <= v < 65536 -> wsum (pre ++ be_bytes 2 v ++ post) = wsum pre + v + wsum post) as Hw.
  { intros v Hv. rewrite wsum_app_even by done. rewrite be2. cbn [app wsum]. zlia. }
  destruct (checksum16_spec _ (proj1 (Hok 0)) (proj2 (Hok 0))) as (f & k & E & Hf & Hk & Hs & _).
  rewrite E. destruct (checksum16_spec _ (proj1 (Hok (65535 - f))) (proj2 (Hok (65535 - f)))) as (f' & k' & -> & Hf' & Hk' & Hs' & Hp').
  rewrite Hw in Hs, Hs', Hp' by lia. pose proof (wsum_range pre Hpre). pose proof (wsum_range post Hpost).
  assert (0 < f') as Hpos.
  { apply Hp'. destruct (Z.eq_dec (wsum pre + 0 + wsum post) 0) as [E0|]; [|lia].
    assert (f = 0); lia. }
  assert ((k + 1 - k') * 65535 = f') as E' by lia. assert (k + 1 - k' = 1) by nia. lia.
Qed.

(** Every IPv4 header the stack builds verifies: with its checksum in place
    the header sums to zero, whatever the addresses, the protocol and the
    payload; the header is 20 bytes long, carries the length of the packet when
    that fits 16 bits, and the payload follows it unchanged. An ICMP echo reply
    verifies too, and keeps the identifier, the sequence number and the data of
    the request. *)
Theorem net_checksums_verify (src dst : list Z) (proto : Z) (payload icmp : list Z) (code : Z) :
  bytes_ok src -> zlen src = 4 -> bytes_ok dst -> zlen dst = 4 -> byte_ok proto ->
  bytes_ok icmp -> 8 <= zlen icmp <= 65536 -> byte_ok code ->
  checksum16 (take 20 (ipv4_packet src dst proto payload)) = 0 /\
  drop 20 (ipv4_packet src dst proto payload) = payload /\
  (zlen (ipv4_packet src dst proto payload) < 65536 ->
   be_val (sub_bytes (ipv4_packet src dst proto payload) 2 4) = zlen (ipv4_packet src dst proto payload)) /\
  checksum16 (echo_reply icmp code) = 0 /\ drop 4 (echo_reply icmp code) = drop 4 icmp.
Proof.
  intros Hs Hsl Hd Hdl Hp Hi Hil Hc. unfold ipv4_packet. set (total := 20 + zlen payload).
  assert (forall ck, length (ipv4_header src dst proto total ck) = 20%nat) as Hlen.
  { intros ck. unfold ipv4_header. rewrite !length_app, !length_be_bytes. unfold zlen in *. simpl. lia. }
  assert (forall ck, ipv4_header src dst proto total ck =
    ([0x45; 0] ++ be_bytes 2 (u16 total) ++ [0; 0; 0; 0; 64; proto]) ++ be_bytes 2 ck ++ (src ++ dst)) as Hsplit
    by (intros ck; unfold ipv4_header; by rewrite <-!app_assoc).
  split; [|split; [|split; [|split]]].
  - cbv zeta. rewrite take_app_length' by (symmetry; apply Hlen). rewrite !Hsplit. apply checksum_verifies.
    + rewrite !bytes_ok_app. split; [bytes_lit|]. split; [auto with hvi|bytes_lit].
    + by rewrite bytes_ok_app.
    + rewrite !length_app, length_be_bytes. by exists 5%nat.
    + rewrite !zlen_app, zlen_be_bytes, Hsl, Hdl. vm_compute. congruence.
  - cbv zeta. apply drop_app_length'. symmetry. apply Hlen.
  - cbv zeta. rewrite zlen_app.
    assert (zlen (ipv4_header src dst proto total (checksum16 (ipv4_header src dst proto total 0))) = 20) as ->
      by (unfold zlen; by rewrite Hlen).
    fold total. intros Ht. unfold ipv4_header, sub_bytes. rewrite <-!app_assoc.
    rewrite (get_range_app3 [0x45; 0] (be_bytes 2 (u16 total))) by reflexivity. cbn [default from_option id].
    rewrite be_val_be_bytes by apply u16_range. apply u16_small. subst total. zlen_pos. lia.
  - unfold echo_reply. apply (checksum_verifies [0; code] (drop 4 icmp)).
    + bytes_lit.
    + auto with hvi.
    + by exists 1%nat.
    + rewrite zlen_drop. change (zlen [0; code]) with 2. lia.
  - unfold echo_reply. by rewrite be2.
Qed.

Lemma net_checksums_verify_witness :
  checksum16 (take 20 (ipv4_packet GW_IP GUEST_IP IP_ICMP [1; 2; 3])) = 0 /\
  checksum16 (echo_reply [8; 0; 1; 2; 3; 4; 5; 6; 7] 0) = 0.
Proof.
  destruct (net_checksums_verify GW_IP GUEST_IP IP_ICMP [1; 2; 3] [8; 0; 1; 2; 3; 4; 5; 6; 7] 0) as (H1 & _ & _ & H2 & _).
  - bytes_lit.
  - reflexivity.
  - bytes_lit.
  - reflexivity.
  - vm_compute. split; congruence.
  - bytes_lit.
  - vm_compute. split; congruence.
  - vm_compute. split; congruence.
  - split; [exact H1|exact H2].
Defined.

(** ** The names a packet carries *)

Lemma get_at_app {A} (l k : list A) i : 0 <= i -> get_at (l ++ k) (zlen l + i) = get_at k i.
Proof.
  intros Hi. unfold get_at. zlen_pos. rewrite (proj2 (Z.leb_le 0 i)), (proj2 (Z.leb_le 0 (zlen l + i))) by lia.
  rewrite lookup_app_r by (unfold zlen; lia). f_equal. unfold zlen. lia.
Qed.

Lemma get_at_here {A} (l : list A) b k i : i = zlen l -> get_at (l ++ b :: k) i = Some b.
Proof. intros ->. replace (zlen l) with (zlen l + 0) by lia. by rewrite get_at_app. Qed.

Lemma index_u16_here l v k i : i = zlen l -> 0 <= v < 65536 -> index_u16 (l ++ be_bytes 2 v ++ k) i = Done v.
Proof.
  intros -> Hv. unfold index_u16, index. rewrite be2. cbn [app].
  rewrite (get_at_here l _ _ (zlen l)) by done. cbn [mbind Run_bind].
  change (v / 256 mod 256 :: v mod 256 :: k) with ([v / 256 mod 256] ++ v mod 256 :: k). rewrite app_assoc.
  rewrite (get_at_here _ _ k (zlen l + 1)) by (by rewrite zlen_app). cbn [mbind Run_bind]. f_equal. zlia.
Qed.

Lemma utf8_step_ascii b k : 0 <= b < 128 -> utf8_step (b :: k) = (true, 1%nat).
Proof. intros Hb. unfold utf8_step. cbn [lookup list_lookup default from_option id]. by rewrite (proj2 (Z.ltb_lt b 128)) by lia. Qed.

(** ASCII is text as it stands. *)
Lemma lossy_ascii l : Forall (fun b => 0 <= b < 128) l -> from_utf8_lossy l = l.
Proof.
  unfold from_utf8_lossy. induction 1 as [|b l Hb _ IH]; [done|]. cbn [length lossy_loop].
  rewrite utf8_step_ascii by done. cbn [take drop app]. rewrite take_0. cbn [app]. by rewrite drop_0, IH.
Qed.

Lemma graphic_ascii l : forallb is_ascii_graphic l = true -> Forall (fun b => 0 <= b < 128) l.
Proof.
  intros Hf. apply Forall_forall. intros b Hb%list_elem_of_In. rewrite forallb_forall in Hf. specialize (Hf b Hb).
  unfold is_ascii_graphic in Hf. bool_hyps. lia.
Qed.

(** An extension, and the one that names the server. *)
Definition tls_ext (t : Z) (data : list Z) : list Z := be_bytes 2 t ++ be_bytes 2 (zlen data) ++ data.
Definition sni_data (name : list Z) : list Z := be_bytes 2 (3 + zlen name) ++ [0] ++ be_bytes 2 (zlen name) ++ name.

Definition ext_ok (e : Z * list Z) : Prop := 0 < e.1 < 65536 /\ bytes_ok e.2 /\ zlen e.2 < 65536.
Definition name_ok (name : list Z) : Prop :=
  name <> [] /\ forallb is_ascii_graphic name = true /\ 5 + zlen name < 65536.

Lemma tls_ext_len t data : zlen (tls_ext t data) = 4 + zlen data.
Proof. unfold tls_ext. rewrite !zlen_app, !zlen_be_bytes. lia. Qed.

(** The three reads of an extension. *)
Lemma tls_ext_read pre t data post :
  0 <= t < 65536 -> zlen data < 65536 ->
  let body := pre ++ tls_ext t data ++ post in
  index_u16 body (zlen pre) = Done t /\ index_u16 body (zlen pre + 2) = Done (zlen data) /\
  get_range body (zlen pre + 4) (zlen pre + 4 + zlen data) = Some data.
Proof.
  intros Ht Hd body. zlen_pos. subst body. unfold tls_ext. rewrite <-!app_assoc. split; [|split].
  - by apply index_u16_here.
  - rewrite (app_assoc pre). apply index_u16_here; [rewrite zlen_app, zlen_be_bytes; lia|lia].
  - rewrite (app_assoc (be_bytes 2 t)), (app_assoc pre).
    apply get_range_app3; rewrite !zlen_app, !zlen_be_bytes; lia.
Qed.

Lemma sni_data_len name : zlen (sni_data name) = 5 + zlen name.
Proof. unfold sni_data. rewrite !zlen_app, !zlen_be_bytes. change (zlen [0]) with 1. lia. Qed.

Lemma sni_exts_here fuel pre name post e :
  name_ok name -> zlen pre + 4 + (5 + zlen name) <= e ->
  sni_exts (S fuel) (pre ++ tls_ext 0 (sni_data name) ++ post) (zlen pre) e = Done (Some name).
Proof.
  intros (Hne & Hg & Hl) He. zlen_pos. pose proof (sni_data_len name) as Hd.
  destruct (tls_ext_read pre 0 (sni_data name) post) as (E1 & E2 & E3); [lia|lia|].
  cbn [sni_exts]. rewrite (proj2 (Z.leb_le _ _)), E1 by lia. cbn [mbind Run_bind]. rewrite E2. cbn [mbind Run_bind].
  rewrite E3. cbn [try]. rewrite Z.eqb_refl, Hd, (proj2 (Z.leb_le 5 _)) by lia.
  assert (index (sni_data name) 2 = Done 0) as ->.
  { unfold index. assert (get_at (sni_data name) 2 = Some 0) as ->; [|done].
    exact (get_at_here (be_bytes 2 (3 + zlen name)) 0 (be_bytes 2 (zlen name) ++ name) 2 eq_refl). }
  cbn [mbind Run_bind]. rewrite Z.eqb_refl.
  assert (index_u16 (sni_data name) 3 = Done (zlen name)) as ->.
  { unfold sni_data. rewrite (app_assoc _ [0]). apply index_u16_here; [done|lia]. }
  cbn [mbind Run_bind]. assert (get_range (sni_data name) 5 (5 + zlen name) = Some name) as ->.
  { pose proof (get_range_app3 (be_bytes 2 (3 + zlen name) ++ [0] ++ be_bytes 2 (zlen name)) name [] 5 (5 + zlen name)) as G.
    rewrite app_nil_r, <-!app_assoc in G. by apply G. }
  cbn [try]. rewrite bool_decide_false, Hg by done. cbn [negb andb]. by rewrite lossy_ascii by (by apply graphic_ascii).
Qed.

(** Other extensions before it are skipped. *)
Lemma sni_exts_skip exts fuel pre name post e :
  Forall ext_ok exts -> name_ok name ->
  let skipped := concat ((fun x => tls_ext x.1 x.2) <$> exts) in
  zlen pre + zlen skipped + 4 + (5 + zlen name) <= e -> (length exts < fuel)%nat ->
  sni_exts fuel (pre ++ skipped ++ tls_ext 0 (sni_data name) ++ post) (zlen pre) e = Done (Some name).
Proof.
  intros Hx Hn. revert fuel pre. induction Hx as [|[t data] exts (Ht & Hb & Hl) Hx IH]; intros fuel pre skipped He Hf;
    (destruct fuel as [|fuel]; [simpl in Hf; lia|]).
  { subst skipped. apply sni_exts_here; [done|]. cbn [fmap list_fmap concat] in He. rewrite zlen_nil in He. lia. }
  subst skipped. rewrite fmap_cons in *. cbn [concat fst snd] in *. rewrite zlen_app, tls_ext_len in He.
  set (rest := concat _) in *. zlen_pos. rewrite <-!app_assoc.
  destruct (tls_ext_read pre t data (rest ++ tls_ext 0 (sni_data name) ++ post)) as (E1 & E2 & E3); [lia|lia|].
  cbn [sni_exts]. rewrite (proj2 (Z.leb_le _ _)), E1 by lia. cbn [mbind Run_bind]. rewrite E2. cbn [mbind Run_bind].
  rewrite E3. cbn [try]. rewrite (proj2 (Z.eqb_neq t 0)) by lia.
  rewrite (app_assoc pre). replace (zlen pre + (4 + zlen data)) with (zlen (pre ++ tls_ext t data)) by (rewrite zlen_app, tls_ext_len; lia).
  apply IH; [rewrite zlen_app, tls_ext_len; lia|simpl in Hf; lia].
Qed.

(** The first bytes of a TLS connection: the record header, the handshake header
    with its 3-byte length, the version and random, and the three vectors before
    the extensions. *)
Definition client_hello (rec_hdr hs_len ver_random sid cs cm exts : list Z) : list Z :=
  0x16 :: rec_hdr ++ 0x01 :: hs_len ++ ver_random ++ zlen sid :: sid ++ be_bytes 2 (zlen cs) ++ cs ++
  zlen cm :: cm ++ be_bytes 2 (zlen exts) ++ exts.

Lemma try_u16_here {B} l v k (f : Z -> Run (option B)) i :
  i = zlen l -> 0 <= v < 65536 ->
  try (get_at (l ++ be_bytes 2 v ++ k) i) (fun c0 => try (get_at (l ++ be_bytes 2 v ++ k) (i + 1)) (fun c1 => f (c0 * 256 + c1))) = f v.
Proof.
  intros Hi Hv. pose proof (index_u16_here l v k i Hi Hv) as E. unfold index_u16, index in E.
  destruct (get_at (l ++ be_bytes 2 v ++ k) i) as [c0|]; [|done]. cbn [mbind Run_bind try] in *.
  destruct (get_at (l ++ be_bytes 2 v ++ k) (i + 1)) as [c1|]; [|done]. cbn [mbind Run_bind try] in *. by simplify_eq.
Qed.

Lemma exts_count (exts : list (Z * list Z)) : (length exts <= length (concat ((fun x => tls_ext x.1 x.2) <$> exts)))%nat.
Proof.
  induction exts as [|[t data] k IH]; [done|]. rewrite fmap_cons. cbn [concat fst snd length]. rewrite length_app.
  unfold tls_ext at 1. rewrite !length_app, length_be_bytes. lia.
Qed.

Lemma skip_vec8_here {B} l v rest (k : Z -> Run (option B)) p :
  p = zlen l -> zlen l + (1 + zlen v) < 2 ^ 64 -> skip_vec8 (l ++ zlen v :: v ++ rest) p k = k (zlen l + (1 + zlen v)).
Proof. intros -> Hl. unfold skip_vec8. rewrite get_at_here by done. cbn [try]. by rewrite checked_add_small. Qed.

Lemma skip_vec16_here {B} l v rest (k : Z -> Run (option B)) p :
  p = zlen l -> zlen v < 65536 -> zlen l + (2 + zlen v) < 2 ^ 64 ->
  skip_vec16 (l ++ be_bytes 2 (zlen v) ++ v ++ rest) p k = k (zlen l + (2 + zlen v)).
Proof.
  intros -> Hv Hl. zlen_pos. unfold skip_vec16. rewrite (try_u16_here l (zlen v) (v ++ rest) (fun n => try (checked_add (zlen l) (2 + n)) k));
    [|done|lia]. by rewrite checked_add_small.
Qed.

(** Appends to the right, heads first. *)
Ltac flat_app := repeat first [rewrite <-app_assoc | rewrite <-app_comm_cons].

(** The name of a TLS connection is found: in any ClientHello, whatever its
    session, its cipher suites and its compression methods, with any other
    extensions before and after the server name, the parser returns exactly the
    name. *)
Theorem tls_sni_found (rec_hdr hs_len ver_random sid cs cm : list Z) (before : list (Z * list Z)) (name after tail : list Z) :
  zlen rec_hdr = 4 -> zlen hs_len = 3 -> zlen ver_random = 34 -> zlen sid < 256 -> zlen cs < 65536 -> zlen cm < 256 ->
  Forall ext_ok before -> name_ok name ->
  let exts := concat ((fun x => tls_ext x.1 x.2) <$> before) ++ tls_ext 0 (sni_data name) ++ after in
  zlen exts < 65536 ->
  parse_tls_sni (client_hello rec_hdr hs_len ver_random sid cs cm exts ++ tail) = Done (Some name).
Proof.
  intros Hrec Hhs Hver Hsid Hcs Hcm Hbef Hname exts Hexts. zlen_pos. unfold client_hello. flat_app.
  set (b := 1 :: _). assert (zlen b = 44 + zlen sid + zlen cs + zlen cm + zlen exts + zlen tail) as Hb.
  { subst b. repeat (rewrite zlen_app || rewrite zlen_cons || rewrite zlen_be_bytes). lia. }
  zlen_pos. unfold parse_tls_sni. rewrite (proj2 (Z.ltb_ge _ 5)) by (rewrite zlen_cons, zlen_app; lia).
  change (index (22 :: rec_hdr ++ b) 0) with (Done 22 : Run Z). cbn [mbind Run_bind]. cbn [Z.eqb Pos.eqb negb].
  assert (get_from (22 :: rec_hdr ++ b) 5 = Some b) as ->.
  { apply get_from_Some. split; [rewrite zlen_cons, zlen_app; lia|]. symmetry. apply (drop_app_length' (22 :: rec_hdr)).
    cbn [length]. unfold zlen in Hrec. lia. }
  cbn [try]. rewrite (proj2 (Z.ltb_ge _ 4)) by lia. change (index b 0) with (Done 1 : Run Z). cbn [mbind Run_bind]. cbn [Z.eqb Pos.eqb negb].
  rewrite (checked_add_small 4 (2 + 32)) by lia. cbn [try]. change (4 + (2 + 32)) with 38.
  set (l1 := 1 :: hs_len ++ ver_random). assert (zlen l1 = 38) as L1 by (subst l1; rewrite zlen_cons, zlen_app; lia).
  assert (b = l1 ++ zlen sid :: sid ++ be_bytes 2 (zlen cs) ++ cs ++ zlen cm :: cm ++ be_bytes 2 (zlen exts) ++ exts ++ tail) as E1
    by (subst b l1; by flat_app).
  rewrite E1 at 1. rewrite skip_vec8_here by (done || lia). set (l2 := l1 ++ zlen sid :: sid).
  assert (zlen l2 = zlen l1 + (1 + zlen sid)) as L2 by (subst l2; rewrite zlen_app, zlen_cons; lia).
  assert (b = l2 ++ be_bytes 2 (zlen cs) ++ cs ++ zlen cm :: cm ++ be_bytes 2 (zlen exts) ++ exts ++ tail) as E2
    by (rewrite E1; subst l2; by flat_app).
  rewrite E2 at 1. rewrite skip_vec16_here by (done || lia). set (l3 := l2 ++ be_bytes 2 (zlen cs) ++ cs).
  assert (zlen l3 = zlen l2 + (2 + zlen cs)) as L3 by (subst l3; rewrite !zlen_app, zlen_be_bytes; lia).
  assert (b = l3 ++ zlen cm :: cm ++ be_bytes 2 (zlen exts) ++ exts ++ tail) as E3 by (rewrite E2; subst l3; by flat_app).
  rewrite E3 at 1. rewrite skip_vec8_here by (done || lia). set (l4 := l3 ++ zlen cm :: cm).
  assert (zlen l4 = zlen l3 + (1 + zlen cm)) as L4 by (subst l4; rewrite zlen_app, zlen_cons; lia).
  assert (b = l4 ++ be_bytes 2 (zlen exts) ++ exts ++ tail) as E4 by (rewrite E3; subst l4; by flat_app).
  assert (forall f : Z -> Run (option (list Z)), try (get_at b (zlen l3 + (1 + zlen cm))) (fun c0 =>
    try (get_at b (zlen l3 + (1 + zlen cm) + 1)) (fun c1 => f (c0 * 256 + c1))) = f (zlen exts)) as Eu
    by (intros f; rewrite E4; apply try_u16_here; lia).
  rewrite (Eu (fun v => try (checked_add (zlen l3 + (1 + zlen cm) + 2) v) _)). rewrite checked_add_small by lia. cbn [try].
  set (l5 := l4 ++ be_bytes 2 (zlen exts)). assert (zlen l5 = zlen l4 + 2) as L5 by (subst l5; by rewrite zlen_app, zlen_be_bytes).
  replace (zlen l3 + (1 + zlen cm) + 2) with (zlen l5) by lia. rewrite Z.min_l by lia.
  assert (b = l5 ++ concat ((fun x => tls_ext x.1 x.2) <$> before) ++ tls_ext 0 (sni_data name) ++ (after ++ tail)) as E5
    by (rewrite E4; subst l5 exts; by flat_app).
  rewrite E5 at 2. apply sni_exts_skip; [done|done| |].
  - subst exts. rewrite !zlen_app, tls_ext_len, sni_data_len in *. zlen_pos. lia.
  - assert (length before <= length (concat ((fun x => tls_ext x.1 x.2) <$> before)))%nat by apply exts_count.
    unfold zlen in Hb. subst exts. rewrite !length_app in Hb. lia.
Qed.

Lemma tls_sni_found_witness :
  parse_tls_sni (client_hello [3; 1; 0; 0] [0; 0; 0] (replicate 34 7) [1; 2; 3] [0x13; 0x01] [0]
    (tls_ext 10 [0; 2; 0; 29] ++ tls_ext 0 (sni_data [97; 46; 98]) ++ [])) = Done (Some [97; 46; 98]).
Proof.
  pose proof (tls_sni_found [3; 1; 0; 0] [0; 0; 0] (replicate 34 7) [1; 2; 3] [0x13; 0x01] [0] [(10, [0; 2; 0; 29])]
    [97; 46; 98] [] []) as H.
  rewrite app_nil_r in H. apply H; try reflexivity.
  - apply Forall_cons_2; [|apply Forall_nil_2]. split; [simpl; lia|]. split; [simpl; bytes_lit|vm_compute; reflexivity].
  - split; [congruence|]. split; [reflexivity|vm_compute; reflexivity].
Defined.

(** ** A DNS question *)

Definition dns_labels_bytes (labels : list (list Z)) : list Z := concat ((fun l => zlen l :: l) <$> labels).
(** The labels joined by dots. *)
Fixpoint dotted (name : list Z) (labels : list (list Z)) : list Z :=
  match labels with
  | [] => name
  | l :: labels => dotted (name ++ (match name with [] => [] | _ => [46] end) ++ l) labels
  end.
Definition label_ok (l : list Z) : Prop := 1 <= zlen l < 64 /\ Forall (fun b => 0 <= b < 128) l.

Lemma land_c0 n : 0 <= n < 64 -> Z.land n 0xc0 = 0.
Proof.
  intros Hn. assert (forallb (fun n => Z.land n 0xc0 =? 0) (seqZ 0 64) = true) as Hf by (vm_compute; reflexivity).
  rewrite forallb_forall in Hf. apply Z.eqb_eq, Hf, list_elem_of_In, elem_of_seqZ. lia.
Qed.

Lemma dns_labels_read labels fuel pre name post :
  Forall label_ok labels -> (length labels < fuel)%nat ->
  dns_labels fuel (pre ++ dns_labels_bytes labels ++ 0 :: post) name (zlen pre) =
  Done (Some (dotted name labels, zlen pre + zlen (dns_labels_bytes labels) + 1)).
Proof.
  intros Hl. revert fuel pre name. induction Hl as [|l labels [Hll Ha] Hl IH]; intros fuel pre name Hf;
    (destruct fuel as [|fuel]; [simpl in Hf; lia|]); unfold dns_labels_bytes in *; cbn [dns_labels].
  - rewrite (proj2 (Z.ltb_lt _ _)) by (cbn [fmap list_fmap concat app]; rewrite zlen_app, zlen_cons; zlen_pos; lia).
    cbn [fmap list_fmap concat app]. unfold index. rewrite get_at_here by done. cbn [mbind Run_bind].
    by replace (zlen pre + zlen (@nil Z) + 1) with (zlen pre + 1) by (rewrite zlen_nil; lia).
  - rewrite fmap_cons. cbn [concat]. set (rest := concat _) in *. flat_app.
    rewrite (proj2 (Z.ltb_lt _ _)) by (rewrite zlen_app, zlen_cons; zlen_pos; lia).
    unfold index. rewrite get_at_here by done. cbn [mbind Run_bind]. rewrite (proj2 (Z.eqb_neq (zlen l) 0)) by lia.
    rewrite land_c0 by lia. cbn [Z.eqb negb].
    assert (get_range (pre ++ zlen l :: l ++ rest ++ 0 :: post) (zlen pre + 1) (zlen pre + 1 + zlen l) = Some l) as ->.
    { change (zlen l :: l ++ rest ++ 0 :: post) with ([zlen l] ++ l ++ rest ++ 0 :: post). rewrite app_assoc.
      apply get_range_app3; rewrite zlen_app; done. }
    cbn [try]. rewrite lossy_ascii by done. cbn [dotted].
    specialize (IH fuel (pre ++ zlen l :: l) (name ++ match name with [] => [] | _ => [46] end ++ l)).
    rewrite zlen_app, zlen_cons in IH. replace (zlen pre + (1 + zlen l)) with (zlen pre + 1 + zlen l) in IH by lia.
    rewrite <-app_assoc in IH. cbn [app] in IH. rewrite IH by (simpl in Hf; lia).
    do 3 f_equal. rewrite zlen_cons, zlen_app. lia.
Qed.

(** The name of a DNS question is found: for any labels of up to 63 ASCII
    bytes behind the 12-byte header, the parser returns them joined by dots and
    the position past the type and the class, whatever follows. *)
Lemma parse_dns_name_read (hdr qtype_class rest : list Z) (labels : list (list Z)) :
  zlen hdr = 12 -> zlen qtype_class = 4 -> Forall label_ok labels ->
  zlen hdr + zlen (dns_labels_bytes labels) + 5 < 2 ^ 64 ->
  parse_dns_name (hdr ++ dns_labels_bytes labels ++ 0 :: qtype_class ++ rest) 12 =
  Done (Some (dotted [] labels, 12 + zlen (dns_labels_bytes labels) + 5)).
Proof.
  intros Hh Hq Hl Hlt. unfold parse_dns_name.
  assert (length labels <= length (dns_labels_bytes labels))%nat as Hc.
  { unfold dns_labels_bytes. clear. induction labels as [|l k IH]; [done|]. rewrite fmap_cons. cbn [concat app length].
    rewrite length_app. lia. }
  pose proof (dns_labels_read labels (S (length (hdr ++ dns_labels_bytes labels ++ 0 :: qtype_class ++ rest))) hdr []
    (qtype_class ++ rest) Hl) as E. rewrite Hh in *. rewrite E by (rewrite !length_app; lia).
  cbn [mbind Run_bind try]. rewrite checked_add_small by lia. cbn [try].
  rewrite (proj2 (Z.ltb_ge _ _)); [do 3 f_equal; lia|].
  rewrite !zlen_app, zlen_cons, zlen_app. zlen_pos. lia.
Qed.
