(* ===== verification/Net.v ===== *)
(** * The network device ([src/devices/virtio/net.rs])

    One device over three backends: the built-in stack, the gateway socket and
    the tap. The host's resolver is a parameter, and the socket and the tap are
    scripts of what each write on them does. An index out of range in the code
    is a [Panic] here; the session theorem says that nothing the guest or the
    network sends reaches one. Lines printed to stderr are left out. *)

From S2P Require Import Prelude Memory Irq Queue Virtio Gateway Packets.
Local Open Scope Z_scope.

Definition VIRTIO_NET_ID : Z := 1.
Definition F_VERSION_1_HI : Z := Z.shiftl 1 (32 - 32).
Definition F_MAC_LO : Z := Z.shiftl 1 5.
Definition MAX_TX_FRAME : Z := NET_HDR_LEN + MAX_FRAME_LEN.
Definition RX_QUEUE : Z := 0.
Definition TX_QUEUE : Z := 1.

(** ** The backends *)

(** The gateway socket: for each [write_all], how many bytes get out before it
    fails, or [None] when all do; and the bytes the gateway received. *)
Record GwSock := mkSock { gw_script : list (option Z); gw_out : list Z }.
Definition sock_write_all (s : GwSock) (data : list Z) : GwSock * bool :=
  match gw_script s with
  | Some n :: k => (mkSock k (gw_out s ++ take (Z.to_nat n) data), false)
  | None :: k => (mkSock k (gw_out s ++ data), true)
  | [] => (mkSock [] (gw_out s ++ data), true)
  end.

(** The tap takes a write whole or refuses it. *)
Inductive TapWrite := TapOk | TapFull | TapError.
Record TapDev := mkTap { tap_script : list TapWrite; tap_out : list (list Z) }.
Definition tap_write_all (t : TapDev) (data : list Z) : TapDev * TapWrite :=
  match tap_script t with
  | [] => (mkTap [] (tap_out t ++ [data]), TapOk)
  | TapOk :: k => (mkTap k (tap_out t ++ [data]), TapOk)
  | r :: k => (mkTap k (tap_out t), r)
  end.

(** ** The device *)

Record NetQueues := mkNetQueues { n_rxq : Queue; n_txq : Queue }.

Section Net.
Context {L : Type} `{IrqLine L}.
(** The first IPv4 address the host resolves a name to. *)
Variable resolve : list Z -> option (list Z).

Record VirtioNet := mkNet {
  n_status : Z; n_feat_sel : Z; n_queue_sel : Z; n_queues : NetQueues; n_interrupt : Z; n_irq : Irq L;
  n_events : list CapturedEvent; n_gw : option GwSock; n_tap_reported : bool; n_tap : option TapDev; n_mac : list Z;
  n_sink : SinkSlot;
  (** The calls made to the sink, in order. *)
  n_calls : list (Z * SinkCall) }.

Definition with_regs (d : VirtioNet) (st fs qs ist : Z) : VirtioNet :=
  mkNet st fs qs (n_queues d) ist (n_irq d) (n_events d) (n_gw d) (n_tap_reported d) (n_tap d) (n_mac d) (n_sink d) (n_calls d).
Definition with_queues (d : VirtioNet) (q : NetQueues) : VirtioNet :=
  mkNet (n_status d) (n_feat_sel d) (n_queue_sel d) q (n_interrupt d) (n_irq d) (n_events d) (n_gw d) (n_tap_reported d) (n_tap d)
    (n_mac d) (n_sink d) (n_calls d).
Definition with_irq (d : VirtioNet) (i : Irq L) : VirtioNet :=
  mkNet (n_status d) (n_feat_sel d) (n_queue_sel d) (n_queues d) (n_interrupt d) i (n_events d) (n_gw d) (n_tap_reported d)
    (n_tap d) (n_mac d) (n_sink d) (n_calls d).
Definition with_capture (d : VirtioNet) (ev : list CapturedEvent) (s : SinkSlot) (calls : list (Z * SinkCall)) : VirtioNet :=
  mkNet (n_status d) (n_feat_sel d) (n_queue_sel d) (n_queues d) (n_interrupt d) (n_irq d) ev (n_gw d) (n_tap_reported d)
    (n_tap d) (n_mac d) s calls.
Definition with_backend (d : VirtioNet) (g : option GwSock) (r : bool) (t : option TapDev) : VirtioNet :=
  mkNet (n_status d) (n_feat_sel d) (n_queue_sel d) (n_queues d) (n_interrupt d) (n_irq d) (n_events d) g r t (n_mac d)
    (n_sink d) (n_calls d).

Definition new : VirtioNet :=
  mkNet 0 0 0 (mkNetQueues queue_default queue_default) 0 irq_default [] None false None GUEST_MAC slot_default [].
Definition with_gateway (s : GwSock) : VirtioNet := with_backend new (Some s) false None.
Definition with_tap (t : TapDev) : VirtioNet := with_backend new None false (Some t).
Definition set_io_sink (d : VirtioNet) (k : Z) : VirtioNet :=
  with_capture d (n_events d) (slot_set (n_sink d) k) (n_calls d).
Definition set_mac (d : VirtioNet) (mac : list Z) : VirtioNet :=
  mkNet (n_status d) (n_feat_sel d) (n_queue_sel d) (n_queues d) (n_interrupt d) (n_irq d) (n_events d) (n_gw d)
    (n_tap_reported d) (n_tap d) mac (n_sink d) (n_calls d).

Definition irq_level (d : VirtioNet) : bool := negb (n_interrupt d =? 0).
Definition connect_irq (d : VirtioNet) (l : L) : VirtioNet := with_irq d (Irq.connect (n_irq d) l).
Definition sync_irq (d : VirtioNet) : VirtioNet := with_irq d (Irq.set (n_irq d) (irq_level d)).

Definition take_events (d : VirtioNet) : VirtioNet * list CapturedEvent :=
  (with_capture d [] (n_sink d) (n_calls d), n_events d).
Definition take_fed_sink (d : VirtioNet) : VirtioNet * option Z :=
  let '(s, k) := take_fed (n_sink d) in (with_capture d (n_events d) s (n_calls d), k).

Definition push_event (d : VirtioNet) (e : CapturedEvent) : VirtioNet :=
  with_capture d (n_events d ++ [e]) (n_sink d) (n_calls d).
Definition capture (d : VirtioNet) (proto : Z) (src : list Z) (sport : Z) (dst : list Z) (dport bytes : Z)
    (dns : option (list Z)) : VirtioNet :=
  push_event d (EvNetFlow proto src sport dst dport bytes dns None).

(** [self.sink.feed(...)]. *)
Definition feed_net (d : VirtioNet) (frame : list Z) (egress : bool) : VirtioNet :=
  let '(s, calls) := feed (n_sink d) (OnNet frame egress) in with_capture d (n_events d) s (n_calls d ++ calls).

Definition queue (d : VirtioNet) : Queue :=
  if Z.land (n_queue_sel d) 1 =? 0 then n_rxq (n_queues d) else n_txq (n_queues d).
Definition set_queue (d : VirtioNet) (q : Queue) : VirtioNet :=
  with_queues d (if Z.land (n_queue_sel d) 1 =? 0 then mkNetQueues q (n_txq (n_queues d)) else mkNetQueues (n_rxq (n_queues d)) q).

Definition reset (d : VirtioNet) : VirtioNet :=
  let q := n_queues d in
  with_regs (with_queues d (mkNetQueues (Queue.reset (n_rxq q)) (Queue.reset (n_txq q)))) 0 0 0 0.

(** ** Receive *)

(** The walk of [inject_rx]: the RAM, and the bytes written unless it returns. *)
Fixpoint rx_spread (fuel : nat) (q : Queue) (m : GuestRam) (d : Z) (out : list Z) (written : Z) : GuestRam * option Z :=
  match fuel with
  | O => (m, Some written)
  | S fuel =>
      match desc_addr q d with
      | None => (m, None)
      | Some da =>
          match read_desc m da with
          | None => (m, None)
          | Some e =>
              let r :=
                if negb (Z.land (d_flags e) VIRTQ_DESC_F_WRITE =? 0) && (written <? zlen out) then
                  let n := Z.min (d_len e) (zlen out - written) in
                  match write m (d_addr e) (sub_bytes out written (written + n)) with
                  | None => None
                  | Some m => Some (m, written + n)
                  end
                else Some (m, written) in
              match r with
              | None => (m, None)
              | Some (m, written) =>
                  if Z.land (d_flags e) VIRTQ_DESC_F_NEXT =? 0 then (m, Some written)
                  else rx_spread fuel q m (d_next e) out written
              end
          end
      end
  end.

(** The header before each frame: [num_buffers] is 1. *)
Definition rx_packet (frame : list Z) : list Z := [0; 0; 0; 0; 0; 0; 0; 0; 0; 0; 1; 0] ++ frame.

Definition inject_rx (d : VirtioNet) (m : GuestRam) (frame : list Z) : VirtioNet * GuestRam :=
  let d := feed_net d frame false in
  let rx := n_rxq (n_queues d) in
  if negb (is_ready rx) then (d, m)
  else
    let lst := last_avail rx in
    match Queue.pending rx m with
    | None => (d, m)
    | Some n =>
        if n =? 0 then (d, m)
        else match avail_slot rx lst with
        | None => (d, m)
        | Some slot =>
            match read_u16 m slot with
            | None => (d, m)
            | Some head =>
                let out := rx_packet frame in
                match rx_spread (Z.to_nat (size rx)) rx m head out 0 with
                | (m, None) => (d, m)
                | (m, Some written) =>
                    if written <? zlen out then (d, m)
                    else
                      let m := push_used rx m head (u32 written) in
                      let q := mkNetQueues (set_last_avail rx (u16 (lst + 1))) (n_txq (n_queues d)) in
                      (with_regs (with_queues d q) (n_status d) (n_feat_sel d) (n_queue_sel d) (Z.lor (n_interrupt d) 1), m)
                end
            end
        end
    end.

Definition deliver (d : VirtioNet) (m : GuestRam) (frame : list Z) : VirtioNet * GuestRam * option Z :=
  let '(d, m) := inject_rx d m frame in
  let '(d, k) := take_fed_sink (sync_irq d) in (d, m, k).

(** ** Transmit *)

Definition relay_to_gateway (d : VirtioNet) (frame : list Z) : VirtioNet :=
  match n_gw d with
  | None => d
  | Some s =>
      let '(s, ok) := sock_write_all s (be_bytes 4 (u32 (zlen frame))) in
      let s := if ok then (sock_write_all s frame).1 else s in
      with_backend d (Some s) (n_tap_reported d) (n_tap d)
  end.

Definition write_to_tap (d : VirtioNet) (frame : list Z) : VirtioNet :=
  match n_tap d with
  | None => d
  | Some t =>
      let '(t, r) := tap_write_all t (prepend_vnet_hdr frame) in
      with_backend d (n_gw d) (match r with TapOk => n_tap_reported d | _ => true end) (Some t)
  end.

(** What [observe_tx] records of a transmitted frame. *)
Definition observe_tx (d : VirtioNet) (frame : list Z) : Run VirtioNet :=
  if zlen frame <? 14 then Done d
  else
    et ← index_u16 frame 12;
    if negb (et =? ETH_IPV4) then Done d
    else
      ip ← slice_from frame 14;
      if zlen ip <? 20 then Done d
      else
        b0 ← index ip 0;
        proto ← index ip 9;
        src ← slice_of ip 12 16;
        dst ← slice_of ip 16 20;
        match get_from ip (Z.land b0 0x0f * 4) with
        | None => Done d
        | Some l4 =>
            if (proto =? IP_TCP) && (20 <=? zlen l4) then
              sport ← index_u16 l4 0;
              dport ← index_u16 l4 2;
              off ← index l4 12;
              sni ← try (get_from l4 (Z.shiftr off 4 * 4)) parse_tls_sni;
              Done (push_event d (EvNetFlow proto src sport dst dport (zlen l4) None sni))
            else if (proto =? IP_UDP) && (8 <=? zlen l4) then
              sport ← index_u16 l4 0;
              dport ← index_u16 l4 2;
              Done (capture d IP_UDP src sport dst dport (zlen l4) None)
            else if proto =? IP_ICMP then Done (capture d IP_ICMP src 0 dst 0 (zlen l4) None)
            else Done d
        end.

(** ** The built-in stack *)

Definition ipv4_to_guest (d : VirtioNet) (src dst : list Z) (proto : Z) (payload : list Z) : list Z :=
  eth_frame (n_mac d) OUR_MAC ETH_IPV4 (ipv4_packet src dst proto payload).

Definition handle_arp (arp : list Z) : Run (option (list Z)) :=
  if zlen arp <? 28 then Done None
  else
    o ← index_u16 arp 6;
    if negb (o =? 1) then Done None
    else
      target_ip ← slice_of arp 24 28;
      if negb (bool_decide (target_ip = GW_IP)) && negb (bool_decide (target_ip = DNS_IP)) then Done None
      else
        sender_mac ← slice_of arp 8 14;
        sender_ip ← slice_of arp 14 18;
        Done (Some (eth_frame sender_mac OUR_MAC ETH_ARP (arp_reply target_ip sender_mac sender_ip))).

Definition handle_icmp (d : VirtioNet) (src dst icmp : list Z) : Run (VirtioNet * option (list Z)) :=
  if zlen icmp <? 8 then Done (d, None)
  else
    t ← index icmp 0;
    if negb (t =? 8) then Done (d, None)
    else
      code ← index icmp 1;
      let msg := echo_reply icmp code in
      let d := capture d IP_ICMP src 0 dst 0 (zlen icmp) None in
      Done (d, Some (ipv4_to_guest d dst src IP_ICMP msg)).

Definition handle_dhcp (d : VirtioNet) (bootp : list Z) : Run (option (list Z)) :=
  if zlen bootp <? 240 then Done None
  else
    op ← index bootp 0;
    if negb (op =? 1) then Done None
    else
      cookie ← slice_of bootp 236 240;
      if negb (bool_decide (cookie = [0x63; 0x82; 0x53; 0x63])) then Done None
      else
        r ← dhcp_options (S (length bootp)) bootp 240 0;
        try r (fun msg_type =>
          match (if msg_type =? 1 then Some 2 else if msg_type =? 3 then Some 5 else None) with
          | None => Done None
          | Some reply_type =>
              xid ← slice_of bootp 4 8;
              chaddr ← slice_of bootp 28 44;
              Done (Some (ipv4_to_guest d GW_IP BROADCAST IP_UDP (udp_datagram 67 68 (dhcp_reply xid chaddr reply_type))))
          end).

Definition handle_dns (d : VirtioNet) (client_port : Z) (dns : list Z) : Run (VirtioNet * option (list Z)) :=
  if zlen dns <? 12 then Done (d, None)
  else
    r ← parse_dns_name dns 12;
    match r with
    | None => Done (d, None)
    | Some (name, qend) =>
        let d := capture d IP_UDP GUEST_IP client_port DNS_IP 53 (zlen dns + 8) (Some name) in
        id ← slice_of dns 0 2;
        question ← slice_of dns 12 qend;
        let udp := udp_datagram 53 client_port (dns_response id question (resolve name)) in
        Done (d, Some (ipv4_to_guest d DNS_IP GUEST_IP IP_UDP udp))
    end.

Definition handle_ipv4 (d : VirtioNet) (ip : list Z) : Run (VirtioNet * option (list Z)) :=
  if zlen ip <? 20 then Done (d, None)
  else
    b0 ← index ip 0;
    proto ← index ip 9;
    src ← slice_of ip 12 16;
    dst ← slice_of ip 16 20;
    match get_from ip (Z.land b0 0x0f * 4) with
    | None => Done (d, None)
    | Some payload =>
        if proto =? IP_ICMP then handle_icmp d src dst payload
        else if (proto =? IP_UDP) && (8 <=? zlen payload) then
          sport ← index_u16 payload 0;
          dport ← index_u16 payload 2;
          if dport =? 67 then
            let d := capture d IP_UDP src sport dst dport (zlen payload) None in
            body ← slice_from payload 8;
            r ← handle_dhcp d body;
            Done (d, r)
          else if (dport =? 53) && bool_decide (dst = DNS_IP) then
            body ← slice_from payload 8;
            handle_dns d sport body
          else Done (capture d IP_UDP src sport dst dport (zlen payload) None, None)
        else if (proto =? IP_TCP) && (4 <=? zlen payload) then
          sport ← index_u16 payload 0;
          dport ← index_u16 payload 2;
          Done (capture d IP_TCP src sport dst dport (zlen payload) None, None)
        else Done (d, None)
    end.

Definition handle_frame (d : VirtioNet) (frame : list Z) : Run (VirtioNet * list (list Z)) :=
  if zlen frame <? 14 then Done (d, [])
  else
    ethertype ← index_u16 frame 12;
    if ethertype =? ETH_ARP then
      body ← slice_from frame 14;
      r ← handle_arp body;
      Done (d, match r with Some f => [f] | None => [] end)
    else if ethertype =? ETH_IPV4 then
      body ← slice_from frame 14;
      '(d, r) ← handle_ipv4 d body;
      Done (d, match r with Some f => [f] | None => [] end)
    else Done (d, []).

(** ** The transmit queue *)

Fixpoint tx_gather (fuel : nat) (q : Queue) (m : GuestRam) (d : Z) (buf : list Z) : option (list Z) :=
  match fuel with
  | O => Some buf
  | S fuel =>
      da ← desc_addr q d;
      e ← read_desc m da;
      buf ← (if negb (Z.land (d_flags e) VIRTQ_DESC_F_WRITE =? 0) then Some buf
             else t ← checked_add (zlen buf) (d_len e);
                  if MAX_TX_FRAME <? t then None
                  else bs ← read m (d_addr e) (d_len e); Some (buf ++ bs));
      if Z.land (d_flags e) VIRTQ_DESC_F_NEXT =? 0 then Some buf else tx_gather fuel q m (d_next e) buf
  end.
Definition read_tx_frame (q : Queue) (m : GuestRam) (head : Z) : option (list Z) :=
  buf ← tx_gather (Z.to_nat (size q)) q m head [];
  if zlen buf <=? NET_HDR_LEN then None else Some (drop (Z.to_nat NET_HDR_LEN) buf).

Fixpoint inject_all (d : VirtioNet) (m : GuestRam) (replies : list (list Z)) : VirtioNet * GuestRam :=
  match replies with
  | [] => (d, m)
  | r :: replies => let '(d, m) := inject_rx d m r in inject_all d m replies
  end.

(** One transmitted frame: published, then carried by the backend. *)
Definition send_frame (d : VirtioNet) (m : GuestRam) (frame : list Z) : Run (VirtioNet * GuestRam) :=
  let d := feed_net d frame true in
  match n_tap d, n_gw d with
  | Some _, _ => d ← observe_tx d frame; Done (write_to_tap d frame, m)
  | None, Some _ => d ← observe_tx d frame; Done (relay_to_gateway d frame, m)
  | None, None => '(d, replies) ← handle_frame d frame; Done (inject_all d m replies)
  end.

Fixpoint tx_loop (n : nat) (d : VirtioNet) (m : GuestRam) (lst : Z) (serviced : bool) : Run (VirtioNet * GuestRam * Z * bool) :=
  match n with
  | O => Done (d, m, lst, serviced)
  | S n =>
      match avail_slot (n_txq (n_queues d)) lst with
      | None => Done (d, m, lst, serviced)
      | Some slot =>
          match read_u16 m slot with
          | None => Done (d, m, lst, serviced)
          | Some head =>
              '(d, m) ← match read_tx_frame (n_txq (n_queues d)) m head with
                        | Some frame => send_frame d m frame
                        | None => Done (d, m)
                        end;
              tx_loop n d (push_used (n_txq (n_queues d)) m head 0) (u16 (lst + 1)) true
          end
      end
  end.

Definition process_tx (d : VirtioNet) (m : GuestRam) : Run (VirtioNet * GuestRam) :=
  let tx := n_txq (n_queues d) in
  if negb (is_ready tx) then Done (d, m)
  else match Queue.pending tx m with
  | None => Done (d, m)
  | Some n =>
      '(d, m, lst, serviced) ← tx_loop (Z.to_nat n) d m (last_avail tx) false;
      let d := with_queues d (mkNetQueues (n_rxq (n_queues d)) (set_last_avail (n_txq (n_queues d)) lst)) in
      Done (if (serviced : bool) then with_regs d (n_status d) (n_feat_sel d) (n_queue_sel d) (Z.lor (n_interrupt d) 1) else d, m)
  end.

(** ** The register window *)

Definition serve_write (d : VirtioNet) (m : GuestRam) (offset v : Z) : Run (VirtioNet * GuestRam) :=
  if offset =? Mmio.DEVICE_FEATURES_SEL then Done (with_regs d (n_status d) v (n_queue_sel d) (n_interrupt d), m)
  else if (offset =? Mmio.DRIVER_FEATURES_SEL) || (offset =? Mmio.DRIVER_FEATURES) then Done (d, m)
  else if offset =? Mmio.QUEUE_SEL then Done (with_regs d (n_status d) (n_feat_sel d) v (n_interrupt d), m)
  else if offset =? Mmio.QUEUE_NUM then Done (set_queue d (set_num (queue d) v), m)
  else if offset =? Mmio.QUEUE_READY then Done (set_queue d (set_ready (queue d) v m), m)
  else if (offset =? Mmio.QUEUE_NOTIFY) && (u16 v =? TX_QUEUE) then process_tx d m
  else if offset =? Mmio.INTERRUPT_ACK then
    Done (with_regs d (n_status d) (n_feat_sel d) (n_queue_sel d) (Z.ldiff (n_interrupt d) v), m)
  else if (offset =? Mmio.STATUS) && (v =? 0) then Done (reset d, m)
  else if offset =? Mmio.STATUS then Done (with_regs d v (n_feat_sel d) (n_queue_sel d) (n_interrupt d), m)
  else if offset =? Mmio.QUEUE_DESC_LOW then Done (set_queue d (set_desc_lo (queue d) v), m)
  else if offset =? Mmio.QUEUE_DESC_HIGH then Done (set_queue d (set_desc_hi (queue d) v), m)
  else if offset =? Mmio.QUEUE_DRIVER_LOW then Done (set_queue d (set_avail_lo (queue d) v), m)
  else if offset =? Mmio.QUEUE_DRIVER_HIGH then Done (set_queue d (set_avail_hi (queue d) v), m)
  else if offset =? Mmio.QUEUE_DEVICE_LOW then Done (set_queue d (set_used_lo (queue d) v), m)
  else if offset =? Mmio.QUEUE_DEVICE_HIGH then Done (set_queue d (set_used_hi (queue d) v), m)
  else Done (d, m).

Definition serve_read (d : VirtioNet) (offset : Z) : Z :=
  if offset =? Mmio.MAGIC then 0x74726976
  else if offset =? Mmio.VERSION then 2
  else if offset =? Mmio.DEVICE_ID then VIRTIO_NET_ID
  else if offset =? Mmio.VENDOR_ID then 0x46494f4e
  else if (offset =? Mmio.DEVICE_FEATURES) && (n_feat_sel d =? 1) then F_VERSION_1_HI
  else if offset =? Mmio.DEVICE_FEATURES then F_MAC_LO
  else if offset =? Mmio.QUEUE_NUM_MAX then QUEUE_NUM_MAX
  else if offset =? Mmio.QUEUE_READY then Z.b2z (is_ready (queue d))
  else if offset =? Mmio.INTERRUPT_STATUS then n_interrupt d
  else if offset =? Mmio.STATUS then n_status d
  else if Mmio.CONFIG <=? offset then default 0 (get_at (n_mac d) (offset - Mmio.CONFIG))
  else 0.

Definition serve_mmio (d : VirtioNet) (m : GuestRam) (offset : Z) (is_write : bool) (value : Z) : Run (VirtioNet * GuestRam * Z) :=
  if is_write then '(d, m) ← serve_write d m offset (u32 value); Done (d, m, 0)
  else Done (d, m, serve_read d offset).

Definition mmio (d : VirtioNet) (m : GuestRam) (offset : Z) (is_write : bool) (value : Z) : Run (VirtioNet * GuestRam * Z) :=
  '(d, m, read) ← serve_mmio d m offset is_write value; Done (sync_irq d, m, read).
End Net.
Arguments VirtioNet : clear implicits.

(** ** Runs that return *)

(** The run returns, and its result satisfies [P]. *)
Definition runs {A} (r : Run A) (P : A -> Prop) : Prop := exists a, r = Done a /\ P a.

Lemma runs_done {A} (a : A) (P : A -> Prop) : P a -> runs (Done a) P.
Proof. by exists a. Qed.
Lemma runs_bind {A B} (m : Run A) (f : A -> Run B) (Q : A -> Prop) (P : B -> Prop) :
  runs m Q -> (forall a, Q a -> runs (f a) P) -> runs (m ≫= f) P.
Proof. intros (a & -> & Ha) Hf. by apply Hf. Qed.
Lemma runs_returns {A} (r : Run A) : returns r -> runs r (fun _ => True).
Proof. intros [a ->]. by exists a. Qed.
Lemma runs_try {A B} (o : option A) (k : A -> Run (option B)) (P : option B -> Prop) :
  P None -> (forall a, o = Some a -> runs (k a) P) -> runs (try o k) P.
Proof. intros Hn Hk. destruct o; [by apply Hk|by eexists]. Qed.

Lemma runs_index l i : bytes_ok l -> 0 <= i < zlen l -> runs (index l i) byte_ok.
Proof. intros Hl Hi. destruct (index_returns l i Hi) as [b E]. exists b. split; [done|]. by eapply index_byte. Qed.
Lemma runs_u16 l i : bytes_ok l -> 0 <= i -> i + 1 < zlen l -> runs (index_u16 l i) (fun v => 0 <= v < 65536).
Proof. intros Hl Hi Hj. destruct (index_u16_returns l i Hi Hj) as [b E]. exists b. split; [done|]. by eapply index_u16_range. Qed.
Lemma runs_slice l a b :
  bytes_ok l -> 0 <= a <= b -> b <= zlen l -> runs (slice_of l a b) (fun k => bytes_ok k /\ zlen k = b - a).
Proof.
  intros Hl Hab Hb. destruct (slice_of_returns l a b Hab Hb) as [k E]. exists k. split; [done|].
  unfold slice_of in E. destruct (get_range l a b) eqn:Er; simplify_eq.
  destruct (get_range_bytes _ _ _ _ Hl Er) as (? & ? & _). done.
Qed.
Lemma runs_from l a : bytes_ok l -> 0 <= a <= zlen l -> runs (slice_from l a) (fun k => bytes_ok k /\ zlen k = zlen l - a).
Proof.
  intros Hl Ha. destruct (slice_from_returns l a Ha) as [k E]. exists k. split; [done|].
  unfold slice_from in E. destruct (get_from l a) eqn:Er; simplify_eq. apply get_from_Some in Er as (_ & ->).
  split; [auto with hvi|zlia].
Qed.

(** One step through a handler: a branch, an index or a slice. *)
Ltac run_step :=
  lazymatch goal with
  | |- runs (index _ _ ≫= _) _ => eapply runs_bind; [apply runs_index; [assumption|lia]|]; intros ? ?
  | |- runs (index_u16 _ _ ≫= _) _ => eapply runs_bind; [apply runs_u16; [assumption|lia|lia]|]; intros ? ?
  | |- runs (slice_of _ _ _ ≫= _) _ => eapply runs_bind; [apply runs_slice; [assumption|lia|lia]|]; intros ? [? ?]
  | |- runs (slice_from _ _ ≫= _) _ => eapply runs_bind; [apply runs_from; [assumption|lia]|]; intros ? [? ?]
  | |- runs (if ?a <? ?b then _ else _) _ => destruct (Z.ltb_spec a b)
  | |- runs (if ?b then _ else _) _ => let E := fresh in destruct b eqn:E; bool_hyps
  end.

(** ** The replies are frames of bytes *)

Lemma eth_frame_bytes dst src et p :
  bytes_ok dst -> bytes_ok src -> bytes_ok p -> bytes_ok (eth_frame dst src et p).
Proof. intros. unfold eth_frame. rewrite !bytes_ok_app. auto with hvi. Qed.
Lemma ipv4_packet_bytes src dst proto p :
  bytes_ok src -> bytes_ok dst -> byte_ok proto -> bytes_ok p -> bytes_ok (ipv4_packet src dst proto p).
Proof.
  intros. unfold ipv4_packet, ipv4_header. rewrite !bytes_ok_app.
  repeat split; first [assumption | by auto with hvi | by bytes_lit].
Qed.
Lemma udp_datagram_bytes a b p : bytes_ok p -> bytes_ok (udp_datagram a b p).
Proof. intros. unfold udp_datagram. rewrite !bytes_ok_app. repeat split; first [assumption | by auto with hvi | by bytes_lit]. Qed.
Lemma echo_reply_bytes icmp code : bytes_ok icmp -> byte_ok code -> bytes_ok (echo_reply icmp code).
Proof. intros. unfold echo_reply. rewrite !bytes_ok_app. repeat split; first [by auto with hvi | by bytes_lit]. Qed.
Lemma zeros_bytes n : bytes_ok (replicate n 0).
Proof. apply Forall_replicate. split; lia. Qed.
Lemma arp_reply_bytes t s p : bytes_ok t -> bytes_ok s -> bytes_ok p -> bytes_ok (arp_reply t s p).
Proof.
  intros. unfold arp_reply. rewrite !bytes_ok_app. repeat split; first [assumption | by auto with hvi | by bytes_lit].
Qed.
Lemma dhcp_reply_bytes xid ch t : bytes_ok xid -> bytes_ok ch -> byte_ok t -> bytes_ok (dhcp_reply xid ch t).
Proof.
  intros. unfold dhcp_reply. rewrite !bytes_ok_app.
  repeat split; first [assumption | by apply zeros_bytes | by auto with hvi | by bytes_lit].
Qed.
Lemma dns_response_bytes id q ip :
  bytes_ok id -> bytes_ok q -> (forall a, ip = Some a -> bytes_ok a) -> bytes_ok (dns_response id q ip).
Proof.
  intros Hid Hq Hip. unfold dns_response. rewrite !bytes_ok_app. repeat split; try first [assumption | by auto with hvi | by bytes_lit].
  destruct ip as [a|]; [|by constructor]. rewrite !bytes_ok_app. repeat split; first [by auto with hvi | by bytes_lit].
Qed.

Section NetProofs.
Context {L : Type} {IL : IrqLine L} {ILL : IrqLineLaws L}.
Variable resolve : list Z -> option (list Z).
(** The resolver answers with an IPv4 address: four bytes. *)
Definition resolve_ok : Prop := forall name a, resolve name = Some a -> bytes_ok a /\ zlen a = 4.
Hypothesis Hres : resolve_ok.
Implicit Types d : VirtioNet L.

(** The device before and after, apart from the events it recorded. *)
Definition logs d d' : Prop := exists evs, d' = with_capture d (n_events d ++ evs) (n_sink d) (n_calls d).
Definition mac_ok d : Prop := bytes_ok (n_mac d) /\ zlen (n_mac d) = 6.

Lemma logs_refl d : logs d d.
Proof. exists []. rewrite app_nil_r. by destruct d. Qed.
Lemma logs_capture d p s sp dt dp b n : logs d (capture d p s sp dt dp b n).
Proof. by eexists. Qed.
Lemma logs_push d e : logs d (push_event d e).
Proof. by eexists. Qed.
Lemma logs_mac d d' : logs d d' -> n_mac d' = n_mac d.
Proof. by intros [evs ->]. Qed.
Hint Resolve logs_refl logs_capture logs_push : hvi.

(** What a handler answers: the device with its log grown, and frames. *)
Definition answers d (r : VirtioNet L * option (list Z)) : Prop :=
  logs d r.1 /\ (forall f, r.2 = Some f -> bytes_ok f).

Lemma answers_none d d' : logs d d' -> answers d (d', None).
Proof. by split. Qed.
Lemma answers_some d d' f : logs d d' -> bytes_ok f -> answers d (d', Some f).
Proof. split; [done|]. intros f' [= <-]. done. Qed.
Hint Resolve answers_none answers_some : hvi.

Ltac answer := apply runs_done; solve [auto with hvi].

Lemma our_mac_bytes : bytes_ok OUR_MAC.
Proof. bytes_lit. Qed.
Hint Resolve our_mac_bytes : hvi.

Lemma handle_arp_runs arp : bytes_ok arp -> runs (handle_arp arp) (fun r => forall f, r = Some f -> bytes_ok f).
Proof.
  intros Ha. unfold handle_arp. repeat run_step; try (by apply runs_done).
  apply runs_done. intros f [= <-]. apply eth_frame_bytes; [done|auto with hvi|by apply arp_reply_bytes].
Qed.

Lemma to_guest_bytes d src dst proto p :
  mac_ok d -> bytes_ok src -> bytes_ok dst -> byte_ok proto -> bytes_ok p -> bytes_ok (ipv4_to_guest d src dst proto p).
Proof. intros [Hm _] **. apply eth_frame_bytes; [done|auto with hvi|by apply ipv4_packet_bytes]. Qed.

Lemma handle_icmp_runs d src dst icmp :
  mac_ok d -> bytes_ok src -> bytes_ok dst -> bytes_ok icmp -> runs (handle_icmp d src dst icmp) (answers d).
Proof.
  intros Hm Hs Hd Hi. unfold handle_icmp. repeat run_step; try answer. cbv zeta. apply runs_done.
  apply answers_some; [auto with hvi|]. apply to_guest_bytes; [done|done|done|split; done|by apply echo_reply_bytes].
Qed.

Lemma handle_dhcp_runs d bootp :
  mac_ok d -> bytes_ok bootp -> runs (handle_dhcp d bootp) (fun r => forall f, r = Some f -> bytes_ok f).
Proof.
  intros Hm Hb. unfold handle_dhcp. repeat run_step; try (by apply runs_done).
  destruct (dhcp_options_ok (S (length bootp)) bootp 240 0 Hb ltac:(lia)) as (r & Er & _); [unfold zlen; lia|].
  rewrite Er. cbn [mbind Run_bind]. apply runs_try; [done|]. intros mt _.
  destruct (if mt =? 1 then Some 2 else if mt =? 3 then Some 5 else None) as [rt|] eqn:Ert; [|by apply runs_done].
  assert (byte_ok rt) by (destruct (mt =? 1), (mt =? 3); simplify_eq; split; done).
  repeat run_step. apply runs_done. intros f [= <-].
  apply to_guest_bytes; [done|bytes_lit|bytes_lit|split; done|]. by apply udp_datagram_bytes, dhcp_reply_bytes.
Qed.

Lemma handle_dns_runs d port dns : mac_ok d -> bytes_ok dns -> runs (handle_dns resolve d port dns) (answers d).
Proof.
  intros Hm Hb. unfold handle_dns. run_step; [answer|].
  destruct (parse_dns_name_ok dns 12 Hb ltac:(lia)) as (r & -> & Hq). cbn [mbind Run_bind].
  destruct r as [[name qend]|]; [|answer]. destruct (Hq name qend eq_refl). repeat run_step.
  apply runs_done. apply answers_some; [auto with hvi|].
  apply to_guest_bytes; [done|bytes_lit|bytes_lit|split; done|].
  apply udp_datagram_bytes, dns_response_bytes; [done|done|]. intros ip E; by destruct (Hres _ _ E).
Qed.

Lemma get_from_bytes l i k : bytes_ok l -> get_from l i = Some k -> bytes_ok k.
Proof. intros Hl (_ & ->)%get_from_Some. auto with hvi. Qed.

Lemma handle_ipv4_runs d ip : mac_ok d -> bytes_ok ip -> runs (handle_ipv4 resolve d ip) (answers d).
Proof.
  intros Hm Hb. unfold handle_ipv4. run_step; [answer|]. do 4 run_step.
  destruct (get_from ip _) as [payload|] eqn:Eg; [|answer]. pose proof (get_from_bytes _ _ _ Hb Eg) as Hp.
  run_step; [by apply handle_icmp_runs|]. run_step.
  - do 2 run_step. run_step.
    + run_step. eapply runs_bind; [by apply handle_dhcp_runs|]. intros r Hr. apply runs_done. split; [apply logs_capture|done].
    + run_step; [run_step; by apply handle_dns_runs|answer].
  - run_step; [|answer]. do 2 run_step. answer.
Qed.

(** The stack answers every frame of the guest: it never panics, it only adds
    to the log, and it replies with frames of bytes. *)
Lemma handle_frame_runs d frame :
  mac_ok d -> bytes_ok frame -> runs (handle_frame resolve d frame) (fun r => logs d r.1 /\ Forall bytes_ok r.2).
Proof.
  intros Hm Hb. unfold handle_frame. run_step; [apply runs_done; by auto with hvi|]. run_step. run_step.
  - run_step. eapply runs_bind; [by apply handle_arp_runs|]. intros r Hr. apply runs_done. split; [auto with hvi|].
    destruct r; repeat constructor. by apply Hr.
  - run_step; [|apply runs_done; by auto with hvi]. run_step. eapply runs_bind; [by apply handle_ipv4_runs|]. intros [d' r] [Hl Hr].
    apply runs_done. split; [done|]. destruct r; repeat constructor. by apply Hr.
Qed.

Lemma observe_tx_runs d frame : bytes_ok frame -> runs (observe_tx d frame) (logs d).
Proof.
  intros Hb. unfold observe_tx. run_step; [answer|]. run_step. run_step; [answer|]. run_step. run_step; [answer|]. do 4 run_step.
  destruct (get_from _ _) as [l4|] eqn:Eg; [|answer]. assert (bytes_ok l4) by (eapply get_from_bytes; [|done]; done).
  run_step; [|run_step; [do 2 run_step; answer|run_step; answer]]. do 3 run_step.
  eapply runs_bind; [apply (runs_try _ _ (fun _ => True)); [done|]|].
  - intros rest Er. apply runs_returns, parse_tls_sni_returns. by eapply get_from_bytes.
  - intros sni _. answer.
Qed.

(** ** What the device does to its queues, its line and RAM *)

Definition net_ok (m : GuestRam) d : Prop :=
  queue_ok m (n_rxq (n_queues d)) /\ queue_ok m (n_txq (n_queues d)) /\ mac_ok d.

(** The line is left alone, RAM keeps its layout, the invariant is kept. *)
Definition moves (s s' : VirtioNet L * GuestRam) : Prop :=
  n_irq s'.1 = n_irq s.1 /\ ram_evolves s.2 s'.2 /\ (net_ok s.2 s.1 -> net_ok s'.2 s'.1).

#[local] Instance moves_preorder : PreOrder moves.
Proof.
  split; [by split|]. intros s1 s2 s3 (E1 & R1 & N1) (E2 & R2 & N2). split; [congruence|]. split; [by etrans|auto].
Qed.

Lemma net_ok_evolves m m' d : ram_evolves m m' -> net_ok m d -> net_ok m' d.
Proof. intros He (Hr & Ht & Hm). split; [by eapply queue_ok_evolves|]. split; [by eapply queue_ok_evolves|done]. Qed.

Lemma moves_ram d m m' : ram_evolves m m' -> moves (d, m) (d, m').
Proof. intros He. split; [done|]. split; [done|]. by apply net_ok_evolves. Qed.

Lemma moves_same d d' m : n_irq d' = n_irq d -> n_queues d' = n_queues d -> n_mac d' = n_mac d -> moves (d, m) (d', m).
Proof. intros Ei Eq Em. split; [done|]. split; [done|]. unfold net_ok, mac_ok. simpl. by rewrite Eq, Em. Qed.

Lemma moves_logs d d' m : logs d d' -> moves (d, m) (d', m).
Proof. intros [evs ->]. by apply moves_same. Qed.

Lemma feed_net_same d f e :
  n_irq (feed_net d f e) = n_irq d /\ n_queues (feed_net d f e) = n_queues d /\ n_mac (feed_net d f e) = n_mac d.
Proof. unfold feed_net. by destruct (feed _ _). Qed.

Lemma feed_net_moves d m f e : moves (d, m) (feed_net d f e, m).
Proof. destruct (feed_net_same d f e) as (? & ? & ?). by apply moves_same. Qed.

Lemma rx_spread_evolves fuel q m i out w : bytes_ok out -> ram_evolves m (rx_spread fuel q m i out w).1.
Proof.
  intros Ho. revert m i w. induction fuel as [|fuel IH]; intros m i w; [done|]. cbn [rx_spread].
  destruct (desc_addr q i) as [da|]; [|done]. destruct (read_desc m da) as [e|]; [|done]. cbv zeta.
  destruct (_ && _); [|destruct (_ =? 0); [done|apply IH]].
  destruct (write _ _ _) as [m1|] eqn:Ew; [|done].
  assert (ram_evolves m m1) as He by (eapply write_evolves; [by apply sub_bytes_ok|done]).
  destruct (_ =? 0); [done|]. etrans; [done|apply IH].
Qed.

Lemma rx_packet_bytes f : bytes_ok f -> bytes_ok (rx_packet f).
Proof. intros Hf. unfold rx_packet. apply bytes_ok_app. split; [bytes_lit|done]. Qed.

Lemma set_rx_moves d m v :
  0 <= v < 2 ^ 16 -> moves (d, m) (with_queues d (mkNetQueues (set_last_avail (n_rxq (n_queues d)) v) (n_txq (n_queues d))), m).
Proof.
  intros Hv. split; [done|]. split; [done|]. intros (Hr & Ht & Hm). split; [by apply set_last_avail_ok|]. by split.
Qed.
Lemma set_tx_moves d m v :
  0 <= v < 2 ^ 16 -> moves (d, m) (with_queues d (mkNetQueues (n_rxq (n_queues d)) (set_last_avail (n_txq (n_queues d)) v)), m).
Proof.
  intros Hv. split; [done|]. split; [done|]. intros (Hr & Ht & Hm). split; [done|]. split; [by apply set_last_avail_ok|done].
Qed.
Lemma regs_moves d m a b c i : moves (d, m) (with_regs d a b c i, m).
Proof. by apply moves_same. Qed.

Lemma inject_rx_moves d m f : bytes_ok f -> moves (d, m) (inject_rx d m f).
Proof.
  intros Hf. unfold inject_rx. cbv zeta. set (d1 := feed_net d f false).
  assert (moves (d, m) (d1, m)) as H1 by apply feed_net_moves. clearbody d1.
  destruct (negb _); [done|]. destruct (Queue.pending _ _) as [n|]; [|done]. destruct (n =? 0); [done|].
  destruct (avail_slot _ _) as [slot|]; [|done]. destruct (read_u16 m slot) as [head|]; [|done].
  pose proof (rx_spread_evolves (Z.to_nat (size (n_rxq (n_queues d1)))) (n_rxq (n_queues d1)) m head (rx_packet f) 0
    (rx_packet_bytes f Hf)) as He.
  destruct (rx_spread _ _ _ _ _ _) as [m1 [w|]]; simpl in He.
  2: { etrans; [done|]. by apply moves_ram. }
  destruct (_ <? _); [etrans; [done|]; by apply moves_ram|].
  etrans; [done|]. etrans; [apply moves_ram; etrans; [exact He|apply push_used_evolves]|].
  etrans; [apply (set_rx_moves d1 _ (u16 (last_avail (n_rxq (n_queues d1)) + 1))), u16_range|]. apply regs_moves.
Qed.

Lemma inject_all_moves d m fs : Forall bytes_ok fs -> moves (d, m) (inject_all d m fs).
Proof.
  intros Hfs. revert d m. induction Hfs as [|f fs Hf _ IH]; intros d m; [done|]. cbn [inject_all].
  pose proof (inject_rx_moves d m f Hf) as H1. destruct (inject_rx d m f) as [d1 m1]. etrans; [done|apply IH].
Qed.

Lemma relay_moves d m f : moves (d, m) (relay_to_gateway d f, m).
Proof.
  unfold relay_to_gateway. destruct (n_gw d) as [s|]; [|done]. destruct (sock_write_all _ _) as [s1 ok]. by apply moves_same.
Qed.
Lemma tap_moves d m f : moves (d, m) (write_to_tap d f, m).
Proof.
  unfold write_to_tap. destruct (n_tap d) as [t|]; [|done]. destruct (tap_write_all _ _) as [t1 r]. by apply moves_same.
Qed.

Lemma send_frame_runs d m f : bytes_ok f -> mac_ok d -> runs (send_frame resolve d m f) (moves (d, m)).
Proof.
  intros Hf Hm. unfold send_frame. cbv zeta. pose proof (feed_net_moves d m f true) as H1.
  assert (mac_ok (feed_net d f true)) as Hm1 by (unfold mac_ok; destruct (feed_net_same d f true) as (_ & _ & ->); done).
  set (d1 := feed_net d f true) in *. clearbody d1.
  destruct (n_tap d1), (n_gw d1);
    try (eapply runs_bind; [by apply observe_tx_runs|]; intros d2 H2; apply runs_done;
         etrans; [exact H1|]; etrans; [by apply moves_logs|first [apply tap_moves | apply relay_moves]]).
  eapply runs_bind; [by apply handle_frame_runs|]. intros [d2 rs] [H2 Hrs]. apply runs_done.
  etrans; [exact H1|]. etrans; [by apply moves_logs|]. by apply inject_all_moves.
Qed.

Lemma tx_gather_bytes fuel q m i buf bs : ram_ok m -> bytes_ok buf -> tx_gather fuel q m i buf = Some bs -> bytes_ok bs.
Proof.
  intros Hm. revert i buf. induction fuel as [|fuel IH]; intros i buf Hb; [by intros [= <-]|]. cbn [tx_gather].
  destruct (desc_addr q i) as [da|]; [|done]. cbn [mbind option_bind]. destruct (read_desc m da) as [e|]; [|done].
  cbn [mbind option_bind]. destruct (negb _); cbn [mbind option_bind].
  - destruct (_ =? 0); [by intros [= <-]|by apply IH].
  - destruct (checked_add _ _) as [t|]; [|done]. cbn [mbind option_bind]. destruct (_ <? t); [done|].
    destruct (read m _ _) as [k|] eqn:Er; [|done]. cbn [mbind option_bind]. apply (read_bytes_ok _ _ _ _ Hm) in Er.
    assert (bytes_ok (buf ++ k)) by (by apply bytes_ok_app). destruct (_ =? 0); [by intros [= <-]|by apply IH].
Qed.

Lemma read_tx_frame_bytes q m i f : ram_ok m -> read_tx_frame q m i = Some f -> bytes_ok f.
Proof.
  intros Hm. unfold read_tx_frame. destruct (tx_gather _ _ _ _ _) as [b|] eqn:E; [|done]. cbn [mbind option_bind].
  apply tx_gather_bytes in E; [|done|by constructor]. destruct (_ <=? _); [done|]. intros [= <-]. auto with hvi.
Qed.

Definition loop_post (s : VirtioNet L * GuestRam) (r : VirtioNet L * GuestRam * Z * bool) : Prop :=
  moves s r.1.1 /\ 0 <= r.1.2 < 2 ^ 16.

Lemma tx_loop_runs n d m lst sv :
  ram_ok m -> net_ok m d -> 0 <= lst < 2 ^ 16 -> runs (tx_loop resolve n d m lst sv) (loop_post (d, m)).
Proof.
  revert d m lst sv. induction n as [|n IH]; intros d m lst sv Hm Hn Hl; [by apply runs_done|]. cbn [tx_loop].
  destruct (avail_slot _ _) as [slot|]; [|by apply runs_done]. destruct (read_u16 m slot) as [head|]; [|by apply runs_done].
  eapply (runs_bind _ _ (moves (d, m))).
  { destruct (read_tx_frame _ _ _) as [f|] eqn:Ef; [|by apply runs_done].
    apply send_frame_runs; [by eapply read_tx_frame_bytes|apply Hn]. }
  intros [d1 m1] H1.
  assert (moves (d, m) (d1, push_used (n_txq (n_queues d1)) m1 head 0)) as H2 by (etrans; [exact H1|]; apply moves_ram, push_used_evolves).
  destruct (IH d1 (push_used (n_txq (n_queues d1)) m1 head 0) (u16 (lst + 1)) true) as (r & -> & H3 & Hr).
  - by apply H2.
  - by apply H2.
  - apply u16_range.
  - exists r. split; [done|]. split; [by etrans|done].
Qed.

Lemma process_tx_runs d m : ram_ok m -> net_ok m d -> runs (process_tx resolve d m) (moves (d, m)).
Proof.
  intros Hm Hn. unfold process_tx. cbv zeta. destruct (negb _); [by apply runs_done|].
  destruct (Queue.pending _ _) as [k|]; [|by apply runs_done].
  eapply runs_bind; [apply (tx_loop_runs (Z.to_nat k) d m); [done|done|apply Hn]|].
  intros [[[d1 m1] lst] sv] [H1 Hl]. cbn [fst snd] in H1, Hl. apply runs_done. etrans; [exact H1|].
  etrans; [by apply (set_tx_moves d1 m1 lst)|]. destruct sv; [apply regs_moves|done].
Qed.

Lemma queue_op_moves d m op : op_ok op -> moves (d, m) (set_queue d (queue_op m (queue d) op), m).
Proof.
  intros Ho. split; [done|]. split; [done|]. unfold set_queue, queue. intros (Hr & Ht & Hc). simpl in *.
  destruct (_ =? 0); (split; [|split; [|done]]); simpl; try done; by apply queue_op_ok.
Qed.

Lemma reset_moves d m : moves (d, m) (reset d, m).
Proof. split; [done|]. split; [done|]. intros (_ & _ & Hm). split; [apply queue_default_ok|]. split; [apply queue_default_ok|done]. Qed.

Lemma serve_write_runs d m o v :
  ram_ok m -> net_ok m d -> 0 <= v < 2 ^ 32 -> runs (serve_write resolve d m o v) (moves (d, m)).
Proof.
  intros Hm Hn Hv. unfold serve_write.
  repeat (match goal with |- runs (if ?b then _ else _) _ => destruct b end;
    [try solve [apply runs_done; first [reflexivity | apply regs_moves | apply reset_moves]]|]);
    try by apply runs_done.
  - apply runs_done, (queue_op_moves d m (SetNum v)), Hv.
  - apply runs_done, (queue_op_moves d m (SetReady v)), Hv.
  - by apply process_tx_runs.
  - apply runs_done, (queue_op_moves d m (SetDescLo v)), Hv.
  - apply runs_done, (queue_op_moves d m (SetDescHi v)), Hv.
  - apply runs_done, (queue_op_moves d m (SetAvailLo v)), Hv.
  - apply runs_done, (queue_op_moves d m (SetAvailHi v)), Hv.
  - apply runs_done, (queue_op_moves d m (SetUsedLo v)), Hv.
  - apply runs_done, (queue_op_moves d m (SetUsedHi v)), Hv.
Qed.

(** An access: the line is set once, to the level the device ends at. *)
Definition served (s : VirtioNet L * GuestRam) (d' : VirtioNet L) (m' : GuestRam) : Prop :=
  n_irq d' = Irq.set (n_irq s.1) (irq_level d') /\ ram_evolves s.2 m' /\ (net_ok s.2 s.1 -> net_ok m' d').

Lemma sync_served d m d' m' : moves (d, m) (d', m') -> served (d, m) (sync_irq d') m'.
Proof. intros (Ei & He & Hn). simpl in *. split; [|done]. unfold sync_irq. simpl. by rewrite Ei. Qed.

Lemma mmio_runs d m o w v : ram_ok m -> net_ok m d -> runs (mmio resolve d m o w v) (fun r => served (d, m) r.1.1 r.1.2).
Proof.
  intros Hm Hn. unfold mmio, serve_mmio. destruct w.
  - destruct (serve_write_runs d m o (u32 v) Hm Hn (u32_range v)) as ([d1 m1] & -> & H1). cbn [mbind Run_bind].
    apply runs_done. by apply sync_served.
  - cbn [mbind Run_bind]. apply runs_done. by apply sync_served.
Qed.

Lemma deliver_served d m f d' m' k : bytes_ok f -> deliver d m f = (d', m', k) -> served (d, m) d' m'.
Proof.
  intros Hf. unfold deliver. pose proof (inject_rx_moves d m f Hf) as H1. destruct (inject_rx d m f) as [d1 m1].
  unfold take_fed_sink. destruct (take_fed _) as [s k1]. intros E. apply sync_served in H1. simplify_eq. exact H1.
Qed.
End NetProofs.

(** ** The device on the bus *)

(** A panic ends the VMM, so what it would leave behind is not observed; the laws
    show that no access panics. *)
Definition net_mmio {L} `{IrqLine L} (resolve : list Z -> option (list Z)) : VirtioMmio (VirtioNet L) := {|
  dev_mmio d m o w v := match mmio resolve d m o w v with Done r => r | Panic => (d, m, 0) end;
  dev_take_events := take_events;
  dev_take_fed_sink := take_fed_sink |}.

Lemma net_reset_level {L} `{IrqLine L} resolve (d : VirtioNet L) m v d' m' r :
  u32 v = 0 -> mmio resolve d m Mmio.STATUS true v = Done (d', m', r) -> irq_level d' = false.
Proof. intros Hv. unfold mmio, serve_mmio, serve_write. rewrite Hv. cbn. intros. by simplify_eq. Qed.

Lemma net_laws {L} `{IrqLineLaws L} resolve (Hres : resolve_ok resolve) :
  @VirtioMmioLaws (VirtioNet L) L (net_mmio resolve) _ _.
Proof.
  refine (@Build_VirtioMmioLaws _ _ (net_mmio resolve) _ _ net_ok n_irq irq_level _ _ _ _ _).
  - intros m m' d E (Hr & Ht & Hm). split; [by eapply queue_ok_mapped|]. split; [by eapply queue_ok_mapped|done].
  - intros d m o w v d' m' r _ _ Hm Hd. cbn [dev_mmio net_mmio].
    destruct (mmio_runs resolve Hres d m o w v Hm Hd) as ([[d1 m1] r1] & -> & _ & [He1 He2] & Hn). intros E. simplify_eq.
    simpl in *. auto.
  - intros d m o w v d' m' r Hm Hd. cbn [dev_mmio net_mmio].
    destruct (mmio_runs resolve Hres d m o w v Hm Hd) as ([[d1 m1] r1] & -> & Ei & _). intros E. simplify_eq.
    exists (n_irq d). split; [apply rtc_refl|done].
  - intros d d' l E. cbn in E. unfold take_events in E. by simplify_eq.
  - intros d m v d' m' r Hv. cbn [dev_mmio net_mmio].
    destruct (mmio resolve d m Mmio.STATUS true v) as [[[d1 m1] r1]|] eqn:E; intros; simplify_eq.
    + by eapply net_reset_level.
    + unfold mmio, serve_mmio, serve_write in E. rewrite Hv in E. done.
Qed.

(** ** Sessions *)

(** What happens to the device: accesses, guest stores, frames from the network,
    and the backend's drains. *)
Inductive NetOp :=
  | NAccess (a : MmioAccess) | NStore (g : Z) (data : list Z) | NDeliver (frame : list Z) | NDrain | NTakeSink.
Definition net_op_ok (op : NetOp) : Prop :=
  match op with NStore _ data => bytes_ok data | NDeliver f => bytes_ok f | _ => True end.

Section NetSession.
Context {L : Type} {IL : IrqLine L} {ILL : IrqLineLaws L}.
Variable resolve : list Z -> option (list Z).

Definition net_step (s : VirtioNet L * GuestRam) (op : NetOp) : Run (VirtioNet L * GuestRam) :=
  let '(d, m) := s in
  match op with
  | NAccess a => '(d, m, _) ← mmio resolve d m (a_offset a) (a_write a) (a_value a); Done (d, m)
  | NStore g data => Done (d, default m (write m g data))
  | NDeliver f => let '(d, m, _) := deliver d m f in Done (d, m)
  | NDrain => Done ((take_events d).1, m)
  | NTakeSink => Done ((take_fed_sink d).1, m)
  end.
Fixpoint net_run (s : VirtioNet L * GuestRam) (ops : list NetOp) : Run (VirtioNet L * GuestRam) :=
  match ops with [] => Done s | op :: ops => s ← net_step s op; net_run s ops end.

(** The invariant of a session: sound RAM and queues, and a connected line that
    a backend whose sets never fail keeps at the device's level. *)
Definition net_session_ok (s : VirtioNet L * GuestRam) : Prop :=
  ram_ok s.2 /\ net_ok s.2 s.1 /\ irq_ok (n_irq s.1) /\ is_Some (line (n_irq s.1)) /\
  (reliable (L := L) -> high (n_irq s.1) = irq_level s.1).

(** One step of a session: it keeps the invariant and the layout of RAM. *)
Definition step_post (s s' : VirtioNet L * GuestRam) : Prop := net_session_ok s' /\ mapped s'.2 = mapped s.2.

Lemma served_session d m d' m' : net_session_ok (d, m) -> served (d, m) d' m' -> step_post (d, m) (d', m').
Proof.
  intros (Hm & Hn & Hi & Hc & _) (Ei & [He Em] & Hn'). split; [|done]. split; [by apply He|]. split; [by apply Hn'|]. simpl in *.
  rewrite Ei. split; [by apply set_ok|]. split; [by apply set_connected|]. intros Hr. by apply set_line_at.
Qed.

Lemma capture_session d m ev k c : net_session_ok (d, m) -> step_post (d, m) (with_capture d ev k c, m).
Proof. intros Hs. split; [exact Hs|done]. Qed.

Lemma net_step_runs s op : resolve_ok resolve -> net_session_ok s -> net_op_ok op -> runs (net_step s op) (step_post s).
Proof.
  intros Hres Hs Ho. destruct s as [d m]. pose proof Hs as (Hm & Hn & Hi & Hc & Hh). destruct op as [a|g data|f| |]; cbn [net_step].
  - destruct (mmio_runs resolve Hres d m (a_offset a) (a_write a) (a_value a) Hm Hn) as ([[d1 m1] r] & -> & H1).
    apply runs_done. by apply served_session.
  - apply runs_done. destruct (write m g data) as [m1|] eqn:E; cbn [default from_option id]; [|by split].
    assert (ram_evolves m m1) as [He Em] by (by eapply write_evolves). split; [|done].
    split; [by apply He|]. split; [by apply (net_ok_evolves m)|done].
  - destruct (deliver d m f) as [[d1 m1] k] eqn:E. apply runs_done. apply served_session; [done|]. by eapply deliver_served.
  - apply runs_done. by apply capture_session.
  - apply runs_done. by apply capture_session.
Qed.

Lemma net_run_runs ops s : resolve_ok resolve -> net_session_ok s -> Forall net_op_ok ops -> runs (net_run s ops) (step_post s).
Proof.
  intros Hres Hs Hops. revert s Hs. induction Hops as [|op ops Ho _ IH]; intros s Hs; [by apply runs_done|]. cbn [net_run].
  eapply runs_bind; [by apply net_step_runs|]. intros s1 [Hs1 E1]. destruct (IH s1 Hs1) as (s2 & -> & Hs2 & E2).
  apply runs_done. split; [done|congruence].
Qed.
End NetSession.

(** C10. Nothing the guest or the network sends makes the network device panic,
    on any of the three backends. A session is any sequence of register
    accesses, of guest stores to RAM, of frames delivered from the network and
    of drains by the VMM; each completes, with sound RAM of the same layout,
    with sound queues, and with the interrupt line at the device's level. *)
Theorem net_session_no_panic {L : Type} `{IrqLineLaws L} (resolve : list Z -> option (list Z)) (d : VirtioNet L) (m : GuestRam)
    (l : L) (ops : list NetOp) :
  resolve_ok resolve -> ram_ok m -> net_ok m d -> n_irq d = irq_default -> n_interrupt d = 0 -> line_level l = false ->
  Forall net_op_ok ops ->
  exists d' m', net_run resolve (connect_irq d l, m) ops = Done (d', m') /\
    ram_ok m' /\ mapped m' = mapped m /\ net_ok m' d' /\
    (reliable (L := L) -> line_at (n_irq d') (irq_level d')).
Proof.
  intros Hres Hm Hn Ei E0 Hl Hops.
  assert (net_session_ok (connect_irq d l, m)) as Hs.
  { unfold connect_irq, with_irq. split; [done|]. split; [exact Hn|]. simpl. rewrite Ei. split; [exact Hl|]. split; [by eexists|].
    intros _. unfold irq_level. simpl. by rewrite E0. }
  destruct (net_run_runs resolve ops _ Hres Hs Hops) as ([d' m'] & E & (Hm' & Hn' & Hi & Hc & Hh) & Em).
  exists d', m'. split; [done|]. split; [done|]. split; [done|]. split; [done|]. intros Hr. split; [done|]. split; [done|auto].
Qed.
