(* ===== verification/NetWire.v ===== *)
(** * Frames on the wire ([src/devices/virtio/net.rs])

    What a transmit notification carries out of the guest. [frame_at] is the
    frame the driver posted, read from RAM by the ring layout of [RingView]; the
    theorems say that the backend and the plugin's sink both see exactly those
    frames, in the driver's order and once, and that the built-in stack answers a
    ping. *)

From S2P Require Import Prelude Memory Irq Queue RingView Virtio Gateway Packets Net.
Local Open Scope Z_scope.

(** ** The frames the driver posted, read from RAM *)

(** The frame of the chain at [head]: the bytes it lends the device, without
    their 12-byte header; a chain that is malformed, too long or has nothing past
    the header carries none. *)
Definition frame_at (q : Queue) (m : GuestRam) (head : Z) : option (list Z) :=
  '(segs, _) ← ring_chain q m head;
  if MAX_TX_FRAME <? capacity (to_device segs) then None
  else
    packet ← contents m (to_device segs);
    if zlen packet <=? 12 then None else Some (drop 12 packet).

(** What the driver keeps apart from the used ring: its own rings and the bytes of
    the packets it posted. *)
Definition driver_apart (q : Queue) (m : GuestRam) (heads : list Z) : Prop :=
  apart (desc_span q) (used_span q) /\ apart (avail_span q) (used_span q) /\
  Forall (fun h => forall segs e, ring_chain q m h = Some (segs, e) ->
    Forall (fun s => apart (seg_span s) (used_span q)) (to_device segs)) heads.

(** ** A transmitted frame fits the gateway's stream *)

Lemma read_desc_len m da e : ram_ok m -> read_desc m da = Some e -> 0 <= d_len e.
Proof.
  intros Hm E. unfold read_desc in E. apply bind_Some in E as (a & _ & E). apply bind_Some in E as (l & Hl & E).
  apply bind_Some in E as (f & _ & E). apply bind_Some in E as (n & _ & E). simplify_eq. simpl.
  apply load_range in Hl; [|done]. lia.
Qed.

Lemma tx_gather_len fuel q m i buf bs :
  ram_ok m -> zlen buf <= MAX_TX_FRAME -> tx_gather fuel q m i buf = Some bs -> zlen bs <= MAX_TX_FRAME.
Proof.
  intros Hm. revert i buf. induction fuel as [|fuel IH]; intros i buf Hb; [by intros [= <-]|]. cbn [tx_gather].
  destruct (desc_addr q i) as [da|]; [|done]. cbn [mbind option_bind]. destruct (read_desc m da) as [e|] eqn:Ed; [|done].
  cbn [mbind option_bind]. destruct (negb _); cbn [mbind option_bind].
  - destruct (_ =? 0); [by intros [= <-]|by apply IH].
  - destruct (checked_add _ _) as [t|] eqn:Et; [|done]. apply checked_add_Some in Et as [-> _]. cbn [mbind option_bind].
    destruct (Z.ltb_spec MAX_TX_FRAME (zlen buf + d_len e)); [done|].
    destruct (read m _ _) as [k|] eqn:Er; [|done]. cbn [mbind option_bind].
    apply read_ok in Er as (Hk & _); [|done|by apply (read_desc_len m da)].
    assert (zlen (buf ++ k) <= MAX_TX_FRAME) by (rewrite zlen_app, Hk; lia).
    destruct (_ =? 0); [by intros [= <-]|by apply IH].
Qed.

Lemma read_tx_frame_ok q m i f : ram_ok m -> read_tx_frame q m i = Some f -> item_ok f /\ f <> [].
Proof.
  intros Hm E. pose proof (read_tx_frame_bytes _ _ _ _ Hm E) as Hb. unfold read_tx_frame in E.
  destruct (tx_gather _ _ _ _ _) as [b|] eqn:Eg; [|done]. cbn [mbind option_bind] in E.
  apply tx_gather_len in Eg; [|done|done]. destruct (Z.leb_spec (zlen b) NET_HDR_LEN) as [|Hl]; [done|]. simplify_eq.
  unfold MAX_TX_FRAME, NET_HDR_LEN in *. assert (zlen (drop (Z.to_nat 12) b) = zlen b - 12) as Hd by zlia. split.
  - split; [done|]. lia.
  - intros Ed. rewrite Ed in Hd. change (zlen []) with 0 in Hd. lia.
Qed.

(** The code's walk is the specification's chain. *)
Lemma tx_gather_chain n q m i buf :
  ram_ok m -> queue_ok m q -> is_ready q = true -> 0 <= i -> 0 <= zlen buf <= MAX_TX_FRAME ->
  tx_gather n q m i buf =
    '(segs, _) ← chain n q m i;
    if MAX_TX_FRAME <? zlen buf + capacity (to_device segs) then None
    else packet ← contents m (to_device segs); Some (buf ++ packet).
Proof.
  intros Hm Hq Hr. revert i buf. induction n as [|n IH]; intros i buf Hi Hb; cbn [tx_gather chain].
  { cbn [mbind option_bind]. unfold to_device. cbn. rewrite (proj2 (Z.ltb_ge _ _)) by lia. cbn. by rewrite app_nil_r. }
  rewrite (desc_addr_lt m) by done. destruct (Z.leb_spec (num q) i); [done|]. cbn [mbind option_bind].
  destruct (read_desc_fields m q i) as (a & l & f & nx & -> & -> & -> & -> & -> & Hl & Hx); [done..|]. cbn [mbind option_bind d_flags d_len d_addr d_next].
  change VIRTQ_DESC_F_WRITE with (2 ^ 1). change VIRTQ_DESC_F_NEXT with (2 ^ 0). rewrite !land_pow2 by lia.
  destruct (Z.testbit f 1) eqn:Ew; cbn [negb mbind option_bind].
  - destruct (Z.testbit f 0); cbn [negb mbind option_bind]; [|].
    + rewrite IH by (done || lia). destruct (chain n q m nx) as [[rest e]|]; [|done]. cbn [mbind option_bind].
      unfold to_device. rewrite filter_cons_False by done. done.
    + unfold to_device. rewrite filter_cons_False by done. cbn. rewrite (proj2 (Z.ltb_ge _ _)) by lia. cbn. by rewrite app_nil_r.
  - rewrite (proj2 (checked_add_Some (zlen buf) l (zlen buf + l))) by (unfold MAX_TX_FRAME, NET_HDR_LEN, MAX_FRAME_LEN in *; lia). cbn [mbind option_bind].
    destruct (Z.ltb_spec MAX_TX_FRAME (zlen buf + l)) as [Hlt|Hge].
    + destruct (Z.testbit f 0); cbn [mbind option_bind].
      * destruct (chain n q m nx) as [[rest e]|] eqn:Ec; [|done]. cbn [mbind option_bind].
        unfold to_device. rewrite filter_cons_True by done. cbn [capacity foldr s_len].
        assert (0 <= capacity (to_device rest)) by (eapply capacity_nonneg, filter_lens, chain_lens; [exact Hm|exact Ec]).
        unfold to_device, capacity in *. by rewrite (proj2 (Z.ltb_lt _ _)) by lia.
      * unfold to_device. rewrite filter_cons_True by done. cbn. by rewrite (proj2 (Z.ltb_lt _ _)) by lia.
    + destruct (read m a l) as [bs|] eqn:Er; cbn [mbind option_bind].
      * destruct (read_ok m a l bs Hm ltac:(lia) Er) as (Hz & _).
        destruct (Z.testbit f 0); cbn [negb mbind option_bind].
        -- rewrite IH by (rewrite ?zlen_app; zlen_pos; done || lia). destruct (chain n q m nx) as [[rest e]|]; [|done]. cbn [mbind option_bind].
           unfold to_device. rewrite filter_cons_True by done. cbn [capacity foldr s_len s_addr]. rewrite zlen_app, Hz, Z.add_assoc.
           unfold capacity. destruct (_ <? _); [done|]. unfold contents. cbn [mapM s_addr s_len]. rewrite Er. cbn [mbind option_bind].
           destruct (mapM _ _); cbn; [|done]. by rewrite app_assoc.
        -- unfold to_device. rewrite filter_cons_True by done. cbn [capacity foldr s_len s_addr list_filter]. rewrite filter_nil. cbn [foldr].
           rewrite Z.add_0_r, (proj2 (Z.ltb_ge _ _)) by lia. unfold contents. cbn [mapM s_addr s_len]. rewrite Er. cbn. by rewrite app_nil_r.
      * destruct (Z.testbit f 0); cbn [mbind option_bind].
        -- destruct (chain n q m nx) as [[rest e]|]; [|done]. cbn [mbind option_bind]. unfold to_device. rewrite filter_cons_True by done.
           destruct (_ <? _); [done|]. unfold contents. cbn [mapM s_addr s_len]. rewrite Er. done.
        -- unfold to_device. rewrite filter_cons_True by done. destruct (_ <? _); [done|]. unfold contents. cbn [mapM s_addr s_len]. rewrite Er. done.
Qed.

Lemma read_tx_frame_at q m head :
  ram_ok m -> queue_ok m q -> is_ready q = true -> 0 <= head -> read_tx_frame q m head = frame_at q m head.
Proof.
  intros Hm Hq Hr Hh. unfold read_tx_frame, frame_at, ring_chain. rewrite (size_num m q), tx_gather_chain; [|done..]. cbn [app].
  destruct (chain _ q m head) as [[segs e]|]; [|done]. cbn [mbind option_bind]. change (zlen []) with 0. rewrite Z.add_0_l.
  destruct (_ <? _); [done|]. by destruct (contents m (to_device segs)).
Qed.

Lemma frame_at_agrees q m m' head :
  agrees_outside (used_span q) m m' -> ram_ok m -> queue_ok m q -> is_ready q = true -> 0 <= head -> driver_apart q m [head] ->
  frame_at q m' head = frame_at q m head.
Proof.
  intros Ha Hm Hq Hr Hh (Hd & _ & Hs). apply Forall_cons in Hs as [Hs _]. unfold frame_at, ring_chain in *.
  rewrite (chain_agrees _ q m m' (used_span q)) by done. destruct (chain _ q m head) as [[segs e]|] eqn:Ec; [|done]. cbn [mbind option_bind].
  rewrite (contents_agrees (used_span q) m m'); [done|done|]. specialize (Hs _ _ eq_refl).
  pose proof (chain_lens _ _ _ _ _ _ Hm Ec) as Hl. rewrite Forall_forall in *. intros s Hin. split; [|by apply Hs].
  apply list_elem_of_filter in Hin as [_ Hin]. specialize (Hl s Hin). lia.
Qed.

Lemma frames_stream fs :
  Forall (fun f => item_ok f /\ f <> []) fs -> frames_of (concat (encode_frame <$> fs)) = (fs, [], false).
Proof.
  intros Hi. rewrite <-(app_nil_r (concat _)), frames_of_items; [|by eapply Forall_impl; [exact Hi|]; intros ? []|by constructor].
  change (frames_of []) with (@nil (list Z), @nil Z, false). cbv iota beta zeta. rewrite app_nil_r. repeat f_equal.
  induction Hi as [|f fs [_ Hf] _ IH]; [done|]. rewrite filter_cons, decide_True by done. by rewrite IH.
Qed.

(** ** What a notification carries *)

Section Wire.
Context {L : Type} {IL : IrqLine L} {ILL : IrqLineLaws L}.
Variable resolve : list Z -> option (list Z).
Implicit Types d : VirtioNet L.

(** A backend that takes every write. *)
Definition wire_open d : Prop :=
  match n_tap d with
  | Some t => tap_script t = []
  | None => match n_gw d with Some s => gw_script s = [] | None => False end
  end.

(** The backend after it took [fs]. *)
Definition wire_took d (fs : list (list Z)) d' : Prop :=
  match n_tap d with
  | Some t => n_tap d' = Some (mkTap [] (tap_out t ++ (prepend_vnet_hdr <$> fs)))
  | None =>
      n_tap d' = None /\
      match n_gw d with
      | Some s => n_gw d' = Some (mkSock [] (gw_out s ++ concat (encode_frame <$> fs)))
      | None => False
      end
  end.

(** The sink's calls, the backend and the queues across a run that carries [fs]. *)
Definition carries (k : Z) d (fs : list (list Z)) d' : Prop :=
  n_calls d' = n_calls d ++ ((fun f => (k, OnNet f true)) <$> fs) /\ sink (n_sink d') = Some k /\
  n_queues d' = n_queues d /\ wire_took d fs d' /\ wire_open d'.

Lemma carries_nil k d : wire_open d -> sink (n_sink d) = Some k -> carries k d [] d.
Proof.
  intros Ho Hk. split; [by rewrite app_nil_r|]. split; [done|]. split; [done|]. split; [|done].
  unfold wire_took. unfold wire_open in Ho. destruct (n_tap d) as [[sc out]|]; simpl in *.
  - by rewrite Ho, app_nil_r.
  - split; [done|]. destruct (n_gw d) as [[sc out]|]; [|done]. simpl in *. by rewrite Ho, app_nil_r.
Qed.

Lemma carries_app k d fs d1 gs d2 : carries k d fs d1 -> carries k d1 gs d2 -> carries k d (fs ++ gs) d2.
Proof.
  intros (C1 & K1 & Q1 & W1 & O1) (C2 & K2 & Q2 & W2 & O2).
  split; [by rewrite C2, C1, fmap_app, app_assoc|]. split; [done|]. split; [congruence|]. split; [|done].
  unfold wire_took in *. destruct (n_tap d) as [t|].
  - rewrite W1 in W2. simpl in W2. by rewrite W2, fmap_app, app_assoc.
  - destruct W1 as [E1 W1]. rewrite E1 in W2. destruct W2 as [E2 W2]. split; [done|].
    destruct (n_gw d) as [s|]; [|done]. rewrite W1 in W2. simpl in W2.
    by rewrite W2, fmap_app, concat_app, app_assoc.
Qed.

Lemma send_frame_carries k d m f :
  bytes_ok f -> wire_open d -> sink (n_sink d) = Some k ->
  runs (send_frame resolve d m f) (fun r => carries k d [f] r.1 /\ r.2 = m).
Proof.
  intros Hf Ho Hk. unfold send_frame. cbv zeta.
  assert (exists fd, feed_net d f true = with_capture d (n_events d) (mkSlot (Some k) fd) (n_calls d ++ [(k, OnNet f true)])) as [fd ->].
  { unfold feed_net, feed. rewrite Hk. by eexists. }
  set (d1 := with_capture d _ _ _). unfold wire_open in Ho.
  destruct (n_tap d) as [[sc out]|] eqn:Et; [|destruct (n_gw d) as [[sc out]|] eqn:Eg; [|done]]; simpl in Ho; subst sc.
  - replace (n_tap d1) with (Some (mkTap [] out)). eapply runs_bind; [by apply observe_tx_runs|]. intros d2 [evs ->]. apply runs_done.
    split; [|done]. unfold write_to_tap. cbn [n_tap with_capture d1]. rewrite Et. cbn.
    split; [done|]. split; [done|]. split; [done|]. unfold wire_took, wire_open. rewrite Et. done.
  - replace (n_tap d1) with (@None TapDev). replace (n_gw d1) with (Some (mkSock [] out)).
    eapply runs_bind; [by apply observe_tx_runs|]. intros d2 [evs ->]. apply runs_done.
    split; [|done]. unfold relay_to_gateway. cbn [n_gw with_capture d1]. rewrite Eg.
    unfold sock_write_all. cbn [gw_script gw_out fst snd].
    split; [done|]. split; [done|]. split; [done|]. unfold wire_took, wire_open. rewrite Et, Eg. cbn [n_tap n_gw with_backend with_capture d1 gw_out gw_script fmap list_fmap concat].
    rewrite Et, app_nil_r. split; [|done]. split; [done|]. unfold encode_frame. by rewrite app_assoc.
Qed.

(** The loop over [n] posted entries, from RAM that differs from the driver's in
    the used ring only. *)
Lemma tx_loop_carries n k d m0 m lst sv :
  let q := n_txq (n_queues d) in
  let heads := posted q m0 lst (Z.of_nat n) in
  ram_ok m0 -> ram_ok m -> queue_ok m q -> is_ready q = true -> agrees_outside (used_span q) m0 m ->
  driver_apart q m0 heads -> 0 <= lst < 2 ^ 16 -> wire_open d -> sink (n_sink d) = Some k ->
  runs (tx_loop resolve n d m lst sv) (fun r => let '(d', m', lst', sv') := r in
    carries k d (omap (frame_at q m0) heads) d' /\ m' = push_all q m ((fun h => (h, 0)) <$> heads) /\
    lst' = u16 (lst + Z.of_nat n) /\ sv' = sv || (0 <? Z.of_nat n) /\
    zlen heads = Z.of_nat n /\ Forall (fun h => 0 <= h < 2 ^ 16) heads).
Proof.
  cbv zeta. revert d m lst sv. induction n as [|n IH]; intros d m lst sv Hm0 Hm Hq Hr Ha Hap Hl Ho Hk.
  { apply runs_done. split; [by apply carries_nil|]. split; [done|]. rewrite Z.add_0_r, u16_small by done.
    split; [done|]. split; [by rewrite orb_false_r|]. by split; [|constructor]. }
  cbn [tx_loop]. set (q := n_txq (n_queues d)) in *. destruct (is_ready_fit m q Hq Hr) as (Hn & Hp & _).
  destruct Hap as (Hd & Hav & Hs).
  destruct (avail_head m q lst Hm Hq Hr) as (slot & head & -> & -> & Eh & Hh). rewrite (avail_agrees m0 m) in Eh by (done || lia).
  rewrite (posted_S _ _ _ _ _ Eh) in *. apply Forall_cons in Hs as [Hs1 Hs].
  assert (queue_ok m0 q) as Hq0 by (eapply queue_ok_mapped; [|exact Hq]; symmetry; apply Ha).
  rewrite read_tx_frame_at by (done || lia). 
  assert (driver_apart q m0 [head]) as Hap1 by (split; [exact Hd|split; [exact Hav|by apply Forall_cons_2]]).
  rewrite (frame_at_agrees q m0 m) by (done || lia).
  eapply (runs_bind _ _ (fun r => carries k d (option_list (frame_at q m0 head)) r.1 /\ r.2 = m)).
  { destruct (frame_at q m0 head) as [f|] eqn:Ef; [|apply runs_done; by split; [apply carries_nil|]].
    rewrite <-(read_tx_frame_at q) in Ef by (done || lia). apply send_frame_carries; [exact (read_tx_frame_bytes _ _ _ _ Hm0 Ef)|done|done]. }
  intros [d1 m1] [H1 Em1]. cbn [fst snd] in H1, Em1. subst m1. pose proof H1 as (_ & K1 & Q1 & _ & O1).
  destruct (IH d1 (push_used (n_txq (n_queues d1)) m head 0) (u16 (lst + 1)) true) as ([[[d' m'] lst'] sv'] & -> & H2 & Em & El & Es & Hz & Hr');
    rewrite ?Q1; fold q; try done.
  - by apply push_used_ram_ok.
  - by eapply queue_ok_evolves; [apply push_used_evolves|].
  - etrans; [exact Ha|by apply push_used_agrees].
  - rewrite posted_u16 by done. by split.
  - apply u16_range.
  - rewrite Q1 in H2, Em, Hz, Hr'. fold q in H2, Em, Hz, Hr'. rewrite posted_u16 in H2, Em, Hz, Hr' by done.
    apply runs_done. split; [|split; [done|split; [|split; [|split]]]].
    + pose proof (carries_app _ _ _ _ _ _ H1 H2) as H3. cbn [omap list_omap]. destruct (frame_at q m0 head); exact H3.
    + rewrite El. unfold u16. rewrite Zplus_mod_idemp_l. f_equal. lia.
    + rewrite Es. cbn. by rewrite orb_true_r.
    + rewrite zlen_cons, Hz. lia.
    + by constructor.
Qed.

End Wire.

(** C36. A notification sends every frame the driver posted, exactly once and in
    order, and a plugin sees all of them. The entries the driver has posted since
    the last notification, their chains and the bytes of each packet are read from
    RAM as the notification finds it, by the layout of the specification; the
    driver keeps them apart from its used ring. On a backend that takes every write,
    with a sink installed, the run returns; the sink is called with exactly those
    frames, marked as egress; the tap receives the same frames behind their headers,
    or the gateway receives them encoded, in bytes its parser cuts back into the
    same frames. Every entry is completed, in order, with length 0, nothing but the
    used ring changes in RAM, and the consumed index reaches the driver's, so that
    the next notification finds none of these entries again. *)
Theorem net_capture_complete {L : Type} `{IrqLineLaws L} (resolve : list Z -> option (list Z)) (d : VirtioNet L)
    (m : GuestRam) (k idx u0 : Z) :
  let q := n_txq (n_queues d) in
  let n := (idx - last_avail q) mod 2 ^ 16 in
  let heads := posted q m (last_avail q) n in
  let fs := omap (frame_at q m) heads in
  ram_ok m -> queue_ok m q -> is_ready q = true -> wire_open d -> sink (n_sink d) = Some k ->
  read_u16 m (avail q + 2) = Some idx -> n <= num q -> read_u16 m (used q + 2) = Some u0 -> driver_apart q m heads ->
  exists d' m', process_tx resolve d m = Done (d', m') /\
    n_calls d' = n_calls d ++ ((fun f => (k, OnNet f true)) <$> fs) /\ wire_took d fs d' /\
    frames_of (concat (encode_frame <$> fs)) = (fs, [], false) /\
    zlen heads = n /\ agrees_outside (used_span q) m m' /\ read_u16 m' (used q + 2) = Some ((u0 + n) mod 2 ^ 16) /\
    (forall j h, get_at heads j = Some h ->
       read_u32 m' (used q + 4 + (u0 + j) mod 2 ^ 16 mod num q * 8) = Some h /\
       read_u32 m' (used q + 4 + (u0 + j) mod 2 ^ 16 mod num q * 8 + 4) = Some 0) /\
    last_avail (n_txq (n_queues d')) = idx /\ (0 < n -> Z.testbit (n_interrupt d') 0 = true).
Proof.
  cbv zeta. set (q := n_txq (n_queues d)). set (n := (idx - last_avail q) mod 2 ^ 16). set (heads := posted q m (last_avail q) n).
  intros Hm Hq Hr Ho Hk Hi Hn Hu Hap. destruct (is_ready_fit m q Hq Hr) as (Hnum & Hp & _ & Hca & _).
  assert (0 <= n < 2 ^ 16) as Hnr by (apply Z.mod_pos_bound; lia).
  assert (Queue.pending q m = Some n) as Ep.
  { unfold Queue.pending. destruct (ring_sub m (avail q) (6 + 2 * num q) 2 2) as [-> _]; try done; try lia.
    rewrite Hi. cbn [mbind option_bind]. rewrite (size_num m q) by done. unfold u16. fold n. by rewrite (proj2 (Z.leb_le _ _)). }
  pose proof (tx_loop_carries resolve (Z.to_nat n) k d m m (last_avail q) false) as Hloop. cbv zeta in Hloop. fold q in Hloop.
  rewrite Z2Nat.id in Hloop by lia. fold heads in Hloop.
  destruct Hloop as ([[[d1 m1] lst] sv] & El & (C & _ & Q1 & W & _) & Em & Elst & Esv & Hz & Hh); try done; [by apply Hq|].
  unfold process_tx. fold q. rewrite Hr, Ep. cbn [negb]. rewrite El. cbn [mbind Run_bind].
  assert (Forall completion_ok ((fun h => (h, 0)) <$> heads)) as Hc.
  { apply Forall_fmap. eapply Forall_impl; [exact Hh|]. intros h Hh'. split; [exact Hh'|cbn [snd]; lia]. }
  assert (zlen ((fun h => (h, 0)) <$> heads) = n) as Hz' by (unfold zlen; rewrite length_fmap; exact Hz).
  eexists _, m1. split; [done|]. split; [by destruct sv|]. split; [unfold wire_took in *; destruct sv; exact W|]. split.
  { apply frames_stream. apply Forall_forall. intros f (h & Hin & Ef)%list_elem_of_omap. rewrite Forall_forall in Hh.
    rewrite <-read_tx_frame_at in Ef by (try done; apply Hh, Hin). by eapply read_tx_frame_ok. }
  split; [done|]. subst m1. split; [by apply push_all_agrees|].
  split; [pose proof (push_all_state q m _ u0 Hm Hq Hr Hc Hu) as (_ & _ & _ & ->); by rewrite Hz'|]. split.
  { intros j h Hj. apply (push_all_slots q m ((fun h => (h, 0)) <$> heads) u0 j (h, 0)); try done; [lia|].
    unfold get_at in *. destruct (0 <=? j); [|done]. by rewrite list_lookup_fmap, Hj. }
  assert (lst = idx) as ->.
  { rewrite Elst. unfold u16, n. rewrite Zplus_mod_idemp_r, Zplus_minus. apply Z.mod_small. by apply (load_range 2 m _ _ Hm Hi). }
  split; [by destruct sv|]. intros Hpos. rewrite Esv, (proj2 (Z.ltb_lt _ _) Hpos). cbn [orb n_interrupt with_regs]. by rewrite Z.lor_spec, orb_true_r.
Qed.

(** ** What the built-in stack answers *)

Lemma slice_from_here l k i : i = zlen l -> slice_from (l ++ k) i = Done k.
Proof.
  intros ->. unfold slice_from. rewrite (proj2 (get_from_Some (l ++ k) (zlen l) k)); [done|].
  split; [rewrite zlen_app; zlen_pos; lia|]. symmetry. apply drop_app_length'. unfold zlen. lia.
Qed.
Lemma slice_of_here l k r a b : a = zlen l -> b = zlen l + zlen k -> slice_of (l ++ k ++ r) a b = Done k.
Proof. intros Ha Hb. unfold slice_of. by rewrite (get_range_app3 l k r). Qed.
Lemma index_here l b k i : i = zlen l -> index (l ++ b :: k) i = Done b.
Proof. intros Hi. unfold index. by rewrite get_at_here. Qed.

(** The fields the stack reads from an IPv4 packet it could have built itself. *)
Lemma ipv4_fields src dst proto p :
  zlen src = 4 -> zlen dst = 4 ->
  let ip := ipv4_packet src dst proto p in
  zlen ip = 20 + zlen p /\ index ip 0 = Done 0x45 /\ index ip 9 = Done proto /\ slice_of ip 12 16 = Done src /\
  slice_of ip 16 20 = Done dst /\ get_from ip (Z.land 0x45 0x0f * 4) = Some p.
Proof.
  intros Hs Hd. cbv zeta. unfold ipv4_packet. set (ck := checksum16 _). set (t := be_bytes 2 (u16 (20 + zlen p))).
  assert (zlen t = 2) as Ht by apply zlen_be_bytes. assert (zlen (be_bytes 2 ck) = 2) as Hc by apply zlen_be_bytes.
  unfold ipv4_header. fold t. generalize dependent (be_bytes 2 ck). intros c Hc. clearbody t.
  change (Z.land 0x45 0x0f * 4) with 20.
  split; [rewrite !zlen_app, Hs, Hd, Ht, Hc; rewrite !zlen_cons, !zlen_nil; lia|]. split; [done|]. split; [|split; [|split]].
  - transitivity (index (([0x45; 0] ++ t ++ [0; 0; 0; 0; 64]) ++ proto :: (c ++ src ++ dst ++ p)) 9).
    + f_equal. by rewrite <-!app_assoc.
    + apply index_here. rewrite !zlen_app, Ht. done.
  - transitivity (slice_of (([0x45; 0] ++ t ++ [0; 0; 0; 0; 64; proto] ++ c) ++ src ++ (dst ++ p)) 12 16).
    + f_equal. by rewrite <-!app_assoc.
    + apply slice_of_here; rewrite !zlen_app, Ht, Hc; [done|by rewrite Hs].
  - transitivity (slice_of (([0x45; 0] ++ t ++ [0; 0; 0; 0; 64; proto] ++ c ++ src) ++ dst ++ p) 16 20).
    + f_equal. by rewrite <-!app_assoc.
    + apply slice_of_here; rewrite !zlen_app, Ht, Hc, Hs; [done|by rewrite Hd].
  - set (h := [0x45; 0] ++ t ++ [0; 0; 0; 0; 64; proto] ++ c ++ src ++ dst). apply get_from_Some.
    assert (zlen h = 20) as Hh by (subst h; rewrite !zlen_app, Ht, Hc, Hs, Hd; done).
    split; [rewrite zlen_app; zlen_pos; lia|]. symmetry. apply drop_app_length'. unfold zlen in Hh. lia.
Qed.

(** The frame carries its type and its payload. *)
Lemma eth_fields dst src et p :
  zlen dst = 6 -> zlen src = 6 -> 0 <= et < 65536 ->
  zlen (eth_frame dst src et p) = 14 + zlen p /\ index_u16 (eth_frame dst src et p) 12 = Done et /\
  slice_from (eth_frame dst src et p) 14 = Done p.
Proof.
  intros Hd Hs He. unfold eth_frame. rewrite !zlen_app, zlen_be_bytes, Hd, Hs. split; [lia|]. split.
  - rewrite app_assoc. apply index_u16_here; [rewrite zlen_app; lia|done].
  - rewrite (app_assoc src), (app_assoc dst). apply slice_from_here. rewrite !zlen_app, zlen_be_bytes. lia.
Qed.

(** An ARP request, as a driver sends it. *)
Definition arp_request (sender_mac sender_ip target_ip : list Z) : list Z :=
  be_bytes 2 1 ++ be_bytes 2 ETH_IPV4 ++ [6; 4] ++ be_bytes 2 1 ++ sender_mac ++ sender_ip ++ replicate 6 0 ++ target_ip.

Lemma handle_arp_request smac sip tip :
  zlen smac = 6 -> zlen sip = 4 -> tip = GW_IP \/ tip = DNS_IP ->
  handle_arp (arp_request smac sip tip) = Done (Some (eth_frame smac OUR_MAC ETH_ARP (arp_reply tip smac sip))).
Proof.
  intros Hm Hi Ht. assert (zlen tip = 4) as Htl by (by destruct Ht as [->| ->]).
  unfold handle_arp, arp_request. set (z := replicate 6 0).
  set (a := be_bytes 2 1 ++ be_bytes 2 ETH_IPV4 ++ [6; 4] : list Z).
  replace (be_bytes 2 1 ++ be_bytes 2 ETH_IPV4 ++ [6; 4] ++ be_bytes 2 1 ++ smac ++ sip ++ z ++ tip)
    with (a ++ be_bytes 2 1 ++ smac ++ sip ++ z ++ tip) by (subst a; by rewrite <-!app_assoc).
  assert (zlen a = 6 /\ zlen z = 6) as [Ha Hz] by done. clearbody a z.
  rewrite (proj2 (Z.ltb_ge _ _)) by (rewrite !zlen_app, zlen_be_bytes; lia).
  rewrite index_u16_here by lia. cbn [mbind Run_bind]. cbn [Z.eqb Pos.eqb negb].
  replace (a ++ be_bytes 2 1 ++ smac ++ sip ++ z ++ tip) with ((a ++ be_bytes 2 1 ++ smac ++ sip ++ z) ++ tip ++ [])
    by (by rewrite app_nil_r, <-!app_assoc).
  rewrite (slice_of_here _ _ _ 24 28) by (rewrite !zlen_app, zlen_be_bytes; lia). cbn [mbind Run_bind].
  assert (negb (bool_decide (tip = GW_IP)) && negb (bool_decide (tip = DNS_IP)) = false) as -> by (by destruct Ht as [->| ->]).
  replace ((a ++ be_bytes 2 1 ++ smac ++ sip ++ z) ++ tip ++ []) with ((a ++ be_bytes 2 1) ++ smac ++ (sip ++ z ++ tip))
    by (by rewrite app_nil_r, <-!app_assoc).
  rewrite (slice_of_here _ _ _ 8 14) by (rewrite !zlen_app, zlen_be_bytes; lia). cbn [mbind Run_bind].
  replace ((a ++ be_bytes 2 1) ++ smac ++ sip ++ z ++ tip) with ((a ++ be_bytes 2 1 ++ smac) ++ sip ++ (z ++ tip))
    by (by rewrite <-!app_assoc).
  by rewrite (slice_of_here _ _ _ 14 18) by (rewrite !zlen_app, zlen_be_bytes; lia).
Qed.

Lemma handle_icmp_request {L} (d : VirtioNet L) src dst code body :
  6 <= zlen body ->
  handle_icmp d src dst (8 :: code :: body) =
  Done (capture d IP_ICMP src 0 dst 0 (2 + zlen body) None, Some (ipv4_to_guest d dst src IP_ICMP (echo_reply (8 :: code :: body) code))).
Proof.
  intros Hb. unfold handle_icmp. replace (zlen (8 :: code :: body)) with (2 + zlen body) by (rewrite !zlen_cons; lia).
  rewrite (proj2 (Z.ltb_ge _ _)) by lia. done.
Qed.

Lemma udp_fields sp dp p :
  0 <= sp < 65536 -> 0 <= dp < 65536 ->
  zlen (udp_datagram sp dp p) = 8 + zlen p /\ index_u16 (udp_datagram sp dp p) 0 = Done sp /\
  index_u16 (udp_datagram sp dp p) 2 = Done dp /\ slice_from (udp_datagram sp dp p) 8 = Done p.
Proof.
  intros Hs Hd. unfold udp_datagram. set (t := be_bytes 2 (u16 _)). assert (zlen t = 2) as Ht by apply zlen_be_bytes. clearbody t.
  split; [rewrite !zlen_app, !zlen_be_bytes, !zlen_cons, zlen_nil; lia|]. split; [|split].
  - by apply (index_u16_here []).
  - by apply index_u16_here.
  - rewrite (app_assoc t), (app_assoc (be_bytes 2 dp)), (app_assoc (be_bytes 2 sp)). apply slice_from_here.
    rewrite !zlen_app, !zlen_be_bytes, !zlen_cons, zlen_nil. lia.
Qed.

(** A DNS query for one name: the identifier, the rest of the header, the labels,
    the type and the class. *)
Definition dns_query (id flags : list Z) (labels : list (list Z)) (qtype_class : list Z) : list Z :=
  (id ++ flags) ++ dns_labels_bytes labels ++ 0 :: qtype_class ++ [].

Lemma handle_dns_query {L} resolve (d : VirtioNet L) sport id flags labels qc :
  zlen id = 2 -> zlen flags = 10 -> zlen qc = 4 -> Forall label_ok labels -> zlen (dns_labels_bytes labels) < 60000 ->
  let dns := dns_query id flags labels qc in
  handle_dns resolve d sport dns =
  Done (capture d IP_UDP GUEST_IP sport DNS_IP 53 (zlen dns + 8) (Some (dotted [] labels)),
        Some (ipv4_to_guest d DNS_IP GUEST_IP IP_UDP
          (udp_datagram 53 sport (dns_response id (dns_labels_bytes labels ++ 0 :: qc) (resolve (dotted [] labels)))))).
Proof.
  intros Hid Hf Hq Hl Hn dns. unfold handle_dns.
  assert (zlen dns = 12 + zlen (dns_labels_bytes labels) + 5) as Hd.
  { unfold dns, dns_query. rewrite !zlen_app, zlen_cons, zlen_app, zlen_nil. lia. }
  rewrite (proj2 (Z.ltb_ge _ _)) by (zlen_pos; lia).
  assert (parse_dns_name dns 12 = Done (Some (dotted [] labels, 12 + zlen (dns_labels_bytes labels) + 5))) as ->.
  { apply parse_dns_name_read; [rewrite zlen_app; lia|done|done|rewrite zlen_app; lia]. }
  cbn [mbind Run_bind].
  assert (slice_of dns 0 2 = Done id) as ->.
  { transitivity (slice_of ([] ++ id ++ (flags ++ dns_labels_bytes labels ++ 0 :: qc ++ [])) 0 2).
    - unfold dns, dns_query. by rewrite <-app_assoc.
    - apply slice_of_here; [done|rewrite Hid; done]. }
  cbn [mbind Run_bind].
  assert (slice_of dns 12 (12 + zlen (dns_labels_bytes labels) + 5) = Done (dns_labels_bytes labels ++ 0 :: qc)) as ->.
  { transitivity (slice_of ((id ++ flags) ++ (dns_labels_bytes labels ++ 0 :: qc) ++ []) 12 (12 + zlen (dns_labels_bytes labels) + 5)).
    - unfold dns, dns_query. by rewrite !app_nil_r.
    - apply slice_of_here; rewrite !zlen_app, ?zlen_cons; lia. }
  done.
Qed.

(** The built-in stack answers the guest. Whatever the state of the device:
    an ARP request for the gateway or the resolver is answered with the device's
    address; an ICMP echo request is answered with the addresses swapped, the
    guest's own MAC as the destination, and the identifier, the sequence number
    and the data of the request; and a DNS query to the resolver is answered
    with the host's answer for the dotted name, under the query's identifier and
    question, to the port it came from, and recorded with its name. *)
Theorem stack_answers {L : Type} (resolve : list Z -> option (list Z)) (d : VirtioNet L)
    (dmac smac src dst tip : list Z) (code sport : Z) (body id flags qc : list Z) (labels : list (list Z)) :
  zlen dmac = 6 -> zlen smac = 6 -> zlen src = 4 -> zlen dst = 4 -> tip = GW_IP \/ tip = DNS_IP ->
  6 <= zlen body -> 0 <= sport < 65536 -> zlen id = 2 -> zlen flags = 10 -> zlen qc = 4 ->
  Forall label_ok labels -> zlen (dns_labels_bytes labels) < 60000 ->
  let icmp := 8 :: code :: body in
  let query := dns_query id flags labels qc in
  let name := dotted [] labels in
  handle_frame resolve d (eth_frame dmac smac ETH_ARP (arp_request smac src tip)) =
    Done (d, [eth_frame smac OUR_MAC ETH_ARP (arp_reply tip smac src)]) /\
  handle_frame resolve d (eth_frame dmac smac ETH_IPV4 (ipv4_packet src dst IP_ICMP icmp)) =
    Done (capture d IP_ICMP src 0 dst 0 (zlen icmp) None,
          [eth_frame (n_mac d) OUR_MAC ETH_IPV4 (ipv4_packet dst src IP_ICMP (echo_reply icmp code))]) /\
  handle_frame resolve d (eth_frame dmac smac ETH_IPV4 (ipv4_packet src DNS_IP IP_UDP (udp_datagram sport 53 query))) =
    Done (capture d IP_UDP GUEST_IP sport DNS_IP 53 (zlen query + 8) (Some name),
          [eth_frame (n_mac d) OUR_MAC ETH_IPV4 (ipv4_packet DNS_IP GUEST_IP IP_UDP
            (udp_datagram 53 sport (dns_response id (dns_labels_bytes labels ++ 0 :: qc) (resolve name))))]).
Proof.
  intros Hdm Hsm Hs Hd Ht Hb Hsp Hid Hf Hq Hl Hn icmp query name. unfold handle_frame.
  assert (forall et p, 0 <= et < 65536 -> (zlen (eth_frame dmac smac et p) <? 14) = false /\
    index_u16 (eth_frame dmac smac et p) 12 = Done et /\ slice_from (eth_frame dmac smac et p) 14 = Done p) as He.
  { intros et p Het. destruct (eth_fields dmac smac et p Hdm Hsm Het) as (E & ? & ?). split; [|done]. apply Z.ltb_ge. zlen_pos. lia. }
  split; [|split].
  - destruct (He ETH_ARP (arp_request smac src tip) ltac:(done)) as (-> & -> & ->). cbn [mbind Run_bind].
    change (ETH_ARP =? ETH_ARP) with true. cbv iota. by rewrite (handle_arp_request smac src tip Hsm Hs Ht).
  - destruct (He ETH_IPV4 (ipv4_packet src dst IP_ICMP icmp) ltac:(done)) as (-> & -> & ->). cbn [mbind Run_bind].
    change (ETH_IPV4 =? ETH_ARP) with false. change (ETH_IPV4 =? ETH_IPV4) with true. cbv iota. unfold handle_ipv4.
    destruct (ipv4_fields src dst IP_ICMP icmp Hs Hd) as (Hip & -> & -> & -> & -> & Hp).
    rewrite (proj2 (Z.ltb_ge _ _)) by (zlen_pos; lia). cbn [mbind Run_bind]. rewrite Hp.
    change (IP_ICMP =? IP_ICMP) with true. cbv iota. subst icmp. rewrite handle_icmp_request by done. cbn [mbind Run_bind].
    do 2 f_equal. f_equal. rewrite !zlen_cons. lia.
  - destruct (He ETH_IPV4 (ipv4_packet src DNS_IP IP_UDP (udp_datagram sport 53 query)) ltac:(done)) as (-> & -> & ->).
    cbn [mbind Run_bind]. change (ETH_IPV4 =? ETH_ARP) with false. change (ETH_IPV4 =? ETH_IPV4) with true. cbv iota. unfold handle_ipv4.
    destruct (ipv4_fields src DNS_IP IP_UDP (udp_datagram sport 53 query) Hs eq_refl) as (Hip & -> & -> & -> & -> & Hp).
    rewrite (proj2 (Z.ltb_ge _ _)) by (zlen_pos; lia). cbn [mbind Run_bind]. rewrite Hp.
    destruct (udp_fields sport 53 query Hsp ltac:(done)) as (Hul & -> & -> & ->).
    change (IP_UDP =? IP_ICMP) with false. change (IP_UDP =? IP_UDP) with true. cbv iota.
    rewrite (proj2 (Z.leb_le 8 _)) by (zlen_pos; lia). cbn [andb mbind Run_bind].
    change (53 =? 67) with false. change (53 =? 53) with true. cbv iota. rewrite bool_decide_true by done. cbn [andb].
    subst query. by rewrite handle_dns_query by done.
Qed.

(** ** A session: the guest asks who has the gateway's address *)

Definition demo_resolve (name : list Z) : option (list Z) := if bool_decide (name = [97; 46; 98; 99]) then Some [192; 0; 2; 7] else None.

Lemma demo_resolve_ok : resolve_ok demo_resolve.
Proof.
  intros name a. unfold demo_resolve. destruct (bool_decide _); intros; simplify_eq. split; [bytes_lit|done].
Qed.

Definition demo_arp : list Z := eth_frame (replicate 6 255) GUEST_MAC ETH_ARP (arp_request GUEST_MAC GUEST_IP GW_IP).

(** One RX buffer at 0xb000, one TX packet of a header and the frame at 0xa000. *)
Definition net_stores : list (Z * nat * Z) :=
  [(0x1000, 8%nat, 0xb000); (0x1008, 4%nat, 4096); (0x100c, 2%nat, 2); (0x2002, 2%nat, 1); (0x2004, 2%nat, 0);
   (0x7000, 8%nat, 0xa000); (0x7008, 4%nat, 54); (0x8002, 2%nat, 1); (0x8004, 2%nat, 0)].
Definition net_ram : GuestRam := run_stores split_ram net_stores.

Lemma net_ram_ok : ram_ok net_ram.
Proof. apply run_stores_evolves, split_ram_ok. Qed.

Definition program_ring (i base : Z) : list NetOp :=
  (fun '(o, v) => NAccess (mkMmio o true v)) <$>
  [(Mmio.QUEUE_SEL, i); (Mmio.QUEUE_NUM, 8); (Mmio.QUEUE_DESC_LOW, base); (Mmio.QUEUE_DRIVER_LOW, base + 0x1000);
   (Mmio.QUEUE_DEVICE_LOW, base + 0x2000); (Mmio.QUEUE_READY, 1)].
Definition demo_net_ops : list NetOp :=
  NStore 0xa000 (replicate 12 0 ++ demo_arp) :: program_ring RX_QUEUE 0x1000 ++ program_ring TX_QUEUE 0x7000 ++
  [NAccess (mkMmio Mmio.QUEUE_NOTIFY true TX_QUEUE); NDeliver [1; 2; 3]; NDrain].

Lemma demo_packet_bytes : bytes_ok (replicate 12 0 ++ demo_arp).
Proof.
  apply bytes_ok_app. split; [apply zeros_bytes|]. apply eth_frame_bytes; [apply Forall_replicate; split; lia|bytes_lit|].
  unfold arp_request. rewrite !bytes_ok_app. repeat split; first [by apply zeros_bytes | by auto with hvi | by bytes_lit].
Qed.

Lemma demo_net_ops_ok : Forall net_op_ok demo_net_ops.
Proof.
  apply Forall_cons_2; [exact demo_packet_bytes|]. rewrite !Forall_app. unfold program_ring. rewrite !Forall_fmap.
  split; [repeat constructor|]. split; [repeat constructor|].
  apply Forall_cons_2; [done|]. apply Forall_cons_2; [cbn [net_op_ok]; bytes_lit|]. by apply Forall_cons_2.
Qed.

Lemma new_net_ok m : net_ok m (new (L := PlainLine)).
Proof. split; [apply queue_default_ok|]. split; [apply queue_default_ok|]. split; [bytes_lit|done]. Qed.

(** The reply is in the guest's buffer, behind its header, and the line is up. *)
Lemma net_session_no_panic_witness :
  match net_run demo_resolve (connect_irq new (mkPlainLine false), net_ram) demo_net_ops with
  | Done (d, m) =>
      line_at (n_irq d) true /\
      read m 0xb000 54 = Some (rx_packet (eth_frame GUEST_MAC OUR_MAC ETH_ARP (arp_reply GW_IP GUEST_MAC GUEST_IP)))
  | Panic => False
  end.
Proof.
  destruct (net_session_no_panic demo_resolve new net_ram (mkPlainLine false) demo_net_ops demo_resolve_ok net_ram_ok (new_net_ok net_ram))
    as (d' & m' & E & _ & _ & _ & Hl); [reflexivity|reflexivity|reflexivity|exact demo_net_ops_ok|].
  rewrite E. specialize (Hl PlainLine_reliable).
  assert (irq_level d' = true /\
    read m' 0xb000 54 = Some (rx_packet (eth_frame GUEST_MAC OUR_MAC ETH_ARP (arp_reply GW_IP GUEST_MAC GUEST_IP)))) as [E1 E2].
  { assert (match net_run demo_resolve (connect_irq new (mkPlainLine false), net_ram) demo_net_ops with
      | Done (d, m) => irq_level d = true /\
          read m 0xb000 54 = Some (rx_packet (eth_frame GUEST_MAC OUR_MAC ETH_ARP (arp_reply GW_IP GUEST_MAC GUEST_IP)))
      | Panic => False end) as Hx by (vm_compute; split; reflexivity).
    rewrite E in Hx. exact Hx. }
  rewrite E1 in Hl. split; [exact Hl|exact E2].
Defined.

(** The same packet on the gateway, with a plugin's sink installed. *)
Definition demo_gw : VirtioNet PlainLine :=
  with_queues (set_io_sink (with_gateway (mkSock [] [])) 5) (mkNetQueues queue_default (mkQueue 8 true 0x7000 0x8000 0x9000 0)).
Definition demo_gw_ram : GuestRam := default net_ram (write net_ram 0xa000 (replicate 12 0 ++ demo_arp)).

Lemma demo_gw_ram_ok : ram_ok demo_gw_ram.
Proof.
  unfold demo_gw_ram. destruct (write net_ram _ _) as [m|] eqn:E; [|apply net_ram_ok].
  eapply write_ram_ok; [apply net_ram_ok| |exact E]. exact demo_packet_bytes.
Qed.

Lemma demo_gw_queue_ok : queue_ok demo_gw_ram (n_txq (n_queues demo_gw)).
Proof. split; simpl; try lia; [right; split; [vm_compute; split; congruence|done]|intros _; vm_compute; reflexivity]. Qed.

Lemma demo_gw_apart : driver_apart (n_txq (n_queues demo_gw)) demo_gw_ram [0].
Proof.
  split; [by left|]. split; [by left|]. constructor; [|constructor].
  assert (ring_chain (n_txq (n_queues demo_gw)) demo_gw_ram 0 = Some ([mkSegment 0xa000 54 false], true)) as E by (vm_compute; reflexivity).
  rewrite E. intros segs e [= <- <-]. constructor; [right; vm_compute; congruence|constructor].
Qed.

Lemma net_capture_complete_witness :
  exists d' m', process_tx demo_resolve demo_gw demo_gw_ram = Done (d', m') /\
    n_calls d' = [(5, OnNet demo_arp true)] /\ n_gw d' = Some (mkSock [] (0 :: 0 :: 0 :: 42 :: demo_arp)) /\
    read_u16 m' 0x9002 = Some 1 /\ last_avail (n_txq (n_queues d')) = 1.
Proof.
  pose proof (net_capture_complete demo_resolve demo_gw demo_gw_ram 5 1 0) as Hc. cbv zeta in Hc.
  assert (posted (n_txq (n_queues demo_gw)) demo_gw_ram (last_avail (n_txq (n_queues demo_gw)))
    ((1 - last_avail (n_txq (n_queues demo_gw))) mod 2 ^ 16) = [0]) as Eh by (vm_compute; reflexivity).
  rewrite Eh in Hc.
  assert (omap (frame_at (n_txq (n_queues demo_gw)) demo_gw_ram) [0] = [demo_arp]) as Ef by (vm_compute; reflexivity).
  rewrite Ef in Hc.
  destruct Hc as (d' & m' & E & Ecalls & [_ Eg] & _ & _ & _ & Eu & _ & El & _).
  - exact demo_gw_ram_ok.
  - exact demo_gw_queue_ok.
  - reflexivity.
  - reflexivity.
  - reflexivity.
  - vm_compute. reflexivity.
  - vm_compute. congruence.
  - vm_compute. reflexivity.
  - exact demo_gw_apart.
  - exists d', m'. split; [exact E|]. split; [exact Ecalls|]. split; [rewrite Eg; vm_compute; reflexivity|]. split; [exact Eu|exact El].
Defined.

Lemma stack_answers_witness :
  handle_frame demo_resolve (new (L := PlainLine)) demo_arp =
    Done (new, [eth_frame GUEST_MAC OUR_MAC ETH_ARP (arp_reply GW_IP GUEST_MAC GUEST_IP)]) /\
  dns_response [7; 7] (dns_labels_bytes [[97]; [98; 99]] ++ [0; 0; 1; 0; 1]) (demo_resolve [97; 46; 98; 99]) =
    [7; 7; 129; 128; 0; 1; 0; 1; 0; 0; 0; 0; 1; 97; 2; 98; 99; 0; 0; 1; 0; 1; 192; 12; 0; 1; 0; 1; 0; 0; 1; 44; 0; 4; 192; 0; 2; 7].
Proof.
  split; [|vm_compute; reflexivity].
  refine (proj1 (stack_answers demo_resolve new (replicate 6 255) GUEST_MAC GUEST_IP GW_IP GW_IP 0 1000 (replicate 6 0) [7; 7]
    (replicate 10 0) [0; 1; 0; 1] [[97]; [98; 99]] eq_refl eq_refl eq_refl eq_refl (or_introl eq_refl) _ _ eq_refl eq_refl eq_refl _ _)).
  - vm_compute. congruence.
  - lia.
  - apply Forall_cons_2; [|apply Forall_cons_2; [|apply Forall_nil_2]];
      (split; [vm_compute; split; congruence|]; repeat (apply Forall_cons_2; [lia|]); apply Forall_nil_2).
  - vm_compute. reflexivity.
Defined.
