(* ===== verification/FsWire.v ===== *)
(** * The FUSE wire format ([src/devices/virtio/fs/server.rs])

    The constants of the protocol, the fields of requests, and the replies the
    server builds. A reply is the byte string the code appends to its [Vec]; a
    request field is read with a bounds check, as [get_u32] and [get_u64] do. *)

From S2P Require Import Prelude.
Local Open Scope Z_scope.

(** ** Constants *)

Definition FUSE_ROOT_ID : Z := 1.
Definition IN_HEADER_LEN : Z := 40.
Definition OUT_HEADER_LEN : Z := 16.
Definition MAX_REQUEST : Z := Z.shiftl 2 20.
Definition MAX_WRITE : Z := Z.shiftl 1 20.

(** Opcodes. *)
Module Op.
Definition LOOKUP : Z := 1.
Definition FORGET : Z := 2.
Definition GETATTR : Z := 3.
Definition SETATTR : Z := 4.
Definition READLINK : Z := 5.
Definition SYMLINK : Z := 6.
Definition MKNOD : Z := 8.
Definition MKDIR : Z := 9.
Definition UNLINK : Z := 10.
Definition RMDIR : Z := 11.
Definition RENAME : Z := 12.
Definition LINK : Z := 13.
Definition OPEN : Z := 14.
Definition READ : Z := 15.
Definition WRITE : Z := 16.
Definition STATFS : Z := 17.
Definition RELEASE : Z := 18.
Definition FSYNC : Z := 20.
Definition SETXATTR : Z := 21.
Definition GETXATTR : Z := 22.
Definition LISTXATTR : Z := 23.
Definition REMOVEXATTR : Z := 24.
Definition FLUSH : Z := 25.
Definition INIT : Z := 26.
Definition OPENDIR : Z := 27.
Definition READDIR : Z := 28.
Definition RELEASEDIR : Z := 29.
Definition FSYNCDIR : Z := 30.
Definition GETLK : Z := 31.
Definition SETLK : Z := 32.
Definition SETLKW : Z := 33.
Definition ACCESS : Z := 34.
Definition CREATE : Z := 35.
Definition INTERRUPT : Z := 36.
Definition DESTROY : Z := 38.
Definition IOCTL : Z := 39.
Definition POLL : Z := 40.
Definition BATCH_FORGET : Z := 42.
Definition FALLOCATE : Z := 43.
Definition READDIRPLUS : Z := 44.
Definition RENAME2 : Z := 45.
Definition LSEEK : Z := 46.
Definition COPY_FILE_RANGE : Z := 47.
Definition SETUPMAPPING : Z := 48.
Definition REMOVEMAPPING : Z := 49.
Definition SYNCFS : Z := 50.
Definition TMPFILE : Z := 51.
Definition STATX : Z := 52.
End Op.

(** Linux error numbers, which is what a reply carries. *)
Module Errno.
Definition EPERM : Z := 1.
Definition ENOENT : Z := 2.
Definition EIO : Z := 5.
Definition ENXIO : Z := 6.
Definition EBADF : Z := 9.
Definition EAGAIN : Z := 11.
Definition ENOMEM : Z := 12.
Definition EACCES : Z := 13.
Definition EBUSY : Z := 16.
Definition EEXIST : Z := 17.
Definition EXDEV : Z := 18.
Definition ENOTDIR : Z := 20.
Definition EISDIR : Z := 21.
Definition EINVAL : Z := 22.
Definition ENFILE : Z := 23.
Definition EMFILE : Z := 24.
Definition ENOTTY : Z := 25.
Definition ETXTBSY : Z := 26.
Definition EFBIG : Z := 27.
Definition ENOSPC : Z := 28.
Definition EROFS : Z := 30.
Definition EMLINK : Z := 31.
Definition ERANGE : Z := 34.
Definition EDEADLK : Z := 35.
Definition ENAMETOOLONG : Z := 36.
Definition ENOLCK : Z := 37.
Definition ENOSYS : Z := 38.
Definition ENOTEMPTY : Z := 39.
Definition ELOOP : Z := 40.
Definition ENODATA : Z := 61.
Definition EOVERFLOW : Z := 75.
Definition EOPNOTSUPP : Z := 95.
Definition ESTALE : Z := 116.
Definition EDQUOT : Z := 122.
End Errno.
Export Errno.

(** Linux open flags on the wire. *)
Definition LINUX_O_ACCMODE : Z := 0x3.
Definition LINUX_O_WRONLY : Z := 0x1.
Definition LINUX_O_RDWR : Z := 0x2.
Definition LINUX_O_EXCL : Z := 0x80.
Definition LINUX_O_TRUNC : Z := 0x200.
Definition LINUX_O_APPEND : Z := 0x400.

Definition FATTR_MODE : Z := 1.
Definition FATTR_UID : Z := 2.
Definition FATTR_GID : Z := 4.
Definition FATTR_SIZE : Z := 8.
Definition FATTR_ATIME : Z := 16.
Definition FATTR_MTIME : Z := 32.
Definition FATTR_FH : Z := 64.
Definition FATTR_ATIME_NOW : Z := 128.
Definition FATTR_MTIME_NOW : Z := 256.
Definition FATTR_LOCKOWNER : Z := 512.
Definition FATTR_CTIME : Z := 1024.
Definition FATTR_KILL_SUIDGID : Z := 2048.

Definition FUSE_GETATTR_FH : Z := 1.
Definition FUSE_FSYNC_FDATASYNC : Z := 1.
Definition FUSE_OPEN_KILL_SUIDGID : Z := 1.
Definition FUSE_WRITE_KILL_SUIDGID : Z := 4.
Definition FUSE_LK_FLOCK : Z := 1.
Definition FUSE_RELEASE_FLOCK_UNLOCK : Z := 2.
Definition RENAME_NOREPLACE : Z := 1.
Definition RENAME_EXCHANGE : Z := 2.
Definition RENAME_WHITEOUT : Z := 4.

Definition FALLOC_FL_KEEP_SIZE : Z := 0x01.
Definition FALLOC_FL_PUNCH_HOLE : Z := 0x02.
Definition FALLOC_FL_COLLAPSE_RANGE : Z := 0x08.
Definition FALLOC_FL_ZERO_RANGE : Z := 0x10.
Definition FALLOC_FL_INSERT_RANGE : Z := 0x20.
Definition FALLOC_FL_UNSHARE_RANGE : Z := 0x40.

Definition LINUX_XATTR_CREATE : Z := 1.
Definition LINUX_XATTR_REPLACE : Z := 2.

Definition LINUX_F_RDLCK : Z := 0.
Definition LINUX_F_WRLCK : Z := 1.
Definition LINUX_F_UNLCK : Z := 2.

Definition S_IFMT : Z := 0xf000.
Definition S_IFIFO : Z := 0x1000.
Definition S_IFCHR : Z := 0x2000.
Definition S_IFBLK : Z := 0x6000.
Definition S_IFDIR : Z := 0x4000.
Definition S_IFREG : Z := 0x8000.
Definition S_IFLNK : Z := 0xa000.
Definition S_IFSOCK : Z := 0xc000.

Definition DT_UNKNOWN : Z := 0.
Definition DT_FIFO : Z := 1.
Definition DT_CHR : Z := 2.
Definition DT_DIR : Z := 4.
Definition DT_BLK : Z := 6.
Definition DT_REG : Z := 8.
Definition DT_LNK : Z := 10.
Definition DT_SOCK : Z := 12.

(** ** What the host reports of a file

    [libc::stat] as the code reads it; the accessors are those of [impl Stat].
    [st_dev] is a signed 32-bit number on macOS and the times are signed. *)
Record Stat := mkStat {
  st_dev : Z; st_ino : Z; st_mode : Z; st_nlink : Z; st_uid : Z; st_gid : Z;
  st_size : Z; st_blocks : Z; st_blksize : Z;
  st_atime : Z; st_atime_nsec : Z; st_mtime : Z; st_mtime_nsec : Z;
  st_ctime : Z; st_ctime_nsec : Z; st_birthtime : Z; st_birthtime_nsec : Z;
}.

Definition nonnegative (v : Z) : Z := Z.max v 0.

Definition dev (m : Stat) : Z := u64 (st_dev m).
Definition ino (m : Stat) : Z := st_ino m.
Definition mode (m : Stat) : Z := st_mode m.
Definition nlink (m : Stat) : Z := st_nlink m.
Definition uid (m : Stat) : Z := st_uid m.
Definition gid (m : Stat) : Z := st_gid m.
Definition fsize (m : Stat) : Z := nonnegative (st_size m).
Definition blocks (m : Stat) : Z := nonnegative (st_blocks m).
Definition blksize (m : Stat) : Z := nonnegative (st_blksize m).
Definition file_kind (m : Stat) : Z := Z.land (mode m) S_IFMT.
Definition is_dir (m : Stat) : bool := file_kind m =? S_IFDIR.
Definition is_file (m : Stat) : bool := file_kind m =? S_IFREG.
Definition is_symlink (m : Stat) : bool := file_kind m =? S_IFLNK.

(** The identity of an inode, which the node table is keyed by. *)
Definition stat_key (m : Stat) : Z * Z := (dev m, ino m).

Record GuestAttr := mkGuestAttr { ga_mode : Z; ga_uid : Z; ga_gid : Z }.
Record GuestIds := mkGuestIds { ids_uid : Z; ids_gid : Z }.
Record RequestContext := mkContext { rc_uid : Z; rc_gid : Z }.

(** ** Fields of a request *)

Definition get_u32 (input : list Z) (offset : Z) : option Z := le_val <$> get_range input offset (offset + 4).
Definition get_u64 (input : list Z) (offset : Z) : option Z := le_val <$> get_range input offset (offset + 8).

Definition has_flag (v flag : Z) : bool := negb (Z.land v flag =? 0).

(** [iter().position(|b| *b == 0)]. *)
Fixpoint nul_position (l : list Z) : option nat :=
  match l with
  | [] => None
  | b :: l => if b =? 0 then Some O else S <$> nul_position l
  end.

(** The string at [offset] up to its NUL, and the offset past the NUL. *)
Definition nul_name_with_end (input : list Z) (offset : Z) : option (list Z * Z) :=
  rest ← get_from input offset;
  len ← nul_position rest;
  let name := take len rest in
  if bool_decide (name = []) then None else Some (name, offset + Z.of_nat len + 1).

Definition nul_name (input : list Z) (offset : Z) : option (list Z) := fst <$> nul_name_with_end input offset.

Definition SLASH : Z := 0x2f.
Definition DOT : list Z := [0x2e].
Definition DOTDOT : list Z := [0x2e; 0x2e].

(** [true] for a name a mutation may use. *)
Definition validate_mutation_name (name : list Z) : bool :=
  negb (bool_decide (name = []) || bool_decide (name = DOT) || bool_decide (name = DOTDOT)
        || bool_decide (SLASH ∈ name)).

(** ** Building replies *)

Definition put_u16 (v : Z) : list Z := le_bytes 2 v.
Definition put_u32 (v : Z) : list Z := le_bytes 4 v.
Definition put_u64 (v : Z) : list Z := le_bytes 8 v.
Definition put_i32 (v : Z) : list Z := le_bytes 4 v.
Definition put_i64 (v : Z) : list Z := le_bytes 8 v.
Definition zeros (n : nat) : list Z := replicate n 0.

Definition align8 (v : Z) : Z := Z.land (v + 7) (Z.lnot 7).

(** [out.resize(align8(out.len()), 0)]. *)
Definition pad8 (out : list Z) : list Z := out ++ zeros (Z.to_nat (align8 (zlen out) - zlen out)).

Definition success_response (unique : Z) (payload : list Z) : list Z :=
  put_u32 (OUT_HEADER_LEN + zlen payload) ++ put_i32 0 ++ put_u64 unique ++ payload.

Definition error_response (unique errno : Z) : list Z :=
  put_u32 OUT_HEADER_LEN ++ put_i32 (- Z.abs errno) ++ put_u64 unique.

Definition FUSE_ATTR_LEN : nat := 88.

Definition put_attr (node : Z) (m : Stat) (g : GuestAttr) : list Z :=
  put_u64 node ++ put_u64 (fsize m) ++ put_u64 (blocks m)
  ++ put_u64 (nonnegative (st_atime m)) ++ put_u64 (nonnegative (st_mtime m)) ++ put_u64 (nonnegative (st_ctime m))
  ++ put_u32 (Z.max (st_atime_nsec m) 0) ++ put_u32 (Z.max (st_mtime_nsec m) 0) ++ put_u32 (Z.max (st_ctime_nsec m) 0)
  ++ put_u32 (ga_mode g) ++ put_u32 (nlink m) ++ put_u32 (ga_uid g) ++ put_u32 (ga_gid g)
  ++ put_u32 0 ++ put_u32 (blksize m) ++ put_u32 0.

Definition put_entry_head (node generation entry_valid attr_valid : Z) : list Z :=
  put_u64 node ++ put_u64 generation ++ put_u64 entry_valid ++ put_u64 attr_valid ++ put_u32 0 ++ put_u32 0.

Definition attr_out (node : Z) (m : Stat) (cache_seconds : Z) (g : GuestAttr) : list Z :=
  put_u64 cache_seconds ++ put_u32 0 ++ put_u32 0 ++ put_attr node m g.

Definition entry_out (node : Z) (m : Stat) (cache_seconds : Z) (g : GuestAttr) : list Z :=
  put_entry_head node 1 cache_seconds cache_seconds ++ put_attr node m g.

Definition negative_entry_out (cache_seconds : Z) : list Z :=
  put_entry_head 0 0 cache_seconds 0 ++ zeros FUSE_ATTR_LEN.

(** A socket the device holds. *)
Record SocketNode := mkSocketNode { s_mode : Z; s_uid : Z; s_gid : Z; s_ino : Z; s_time : Z * Z }.

Definition put_socket_attr (node : Z) (s : SocketNode) : list Z :=
  let '(secs, nsecs) := s_time s in
  put_u64 node ++ put_u64 0 ++ put_u64 0 ++ put_u64 secs ++ put_u64 secs ++ put_u64 secs
  ++ put_u32 nsecs ++ put_u32 nsecs ++ put_u32 nsecs
  ++ put_u32 (s_mode s) ++ put_u32 1 ++ put_u32 (s_uid s) ++ put_u32 (s_gid s)
  ++ put_u32 0 ++ put_u32 4096 ++ put_u32 0.

Definition socket_entry_out (node : Z) (s : SocketNode) : list Z :=
  put_entry_head node 1 0 0 ++ put_socket_attr node s.
Definition socket_attr_out (node : Z) (s : SocketNode) : list Z :=
  put_u64 0 ++ put_u32 0 ++ put_u32 0 ++ put_socket_attr node s.

Definition put_open_out (fh : Z) (cache : bool) : list Z :=
  put_u64 fh ++ put_u32 (if cache then 2 else 0) ++ put_u32 0.

Definition STATX_BASIC_STATS : Z := 0x07ff.
Definition STATX_BTIME : Z := 0x0800.

Definition put_statx_time (seconds nanos : Z) : list Z :=
  put_i64 seconds ++ put_u32 (Z.max nanos 0) ++ put_i32 0.

(** On macOS [metadata_btime] always has a time. *)
Definition metadata_btime (m : Stat) : Z * Z := (st_birthtime m, Z.max (st_birthtime_nsec m) 0).

Definition statx_out (node : Z) (m : Stat) (cache_seconds : Z) (g : GuestAttr) : list Z :=
  let '(birth_seconds, birth_nanos) := metadata_btime m in
  put_u64 cache_seconds ++ put_u32 0 ++ put_u32 0 ++ put_u64 0 ++ put_u64 0
  ++ put_u32 (Z.lor STATX_BASIC_STATS STATX_BTIME) ++ put_u32 (blksize m) ++ put_u64 0
  ++ put_u32 (nlink m) ++ put_u32 (ga_uid g) ++ put_u32 (ga_gid g)
  ++ put_u16 (ga_mode g) ++ put_u16 0 ++ put_u64 node ++ put_u64 (fsize m) ++ put_u64 (blocks m) ++ put_u64 0
  ++ put_statx_time (st_atime m) (st_atime_nsec m) ++ put_statx_time birth_seconds birth_nanos
  ++ put_statx_time (st_ctime m) (st_ctime_nsec m) ++ put_statx_time (st_mtime m) (st_mtime_nsec m)
  ++ zeros (4 * 4) ++ zeros (14 * 8).

(** ** File types *)

Definition dirent_type_ft_from_mode (kind : Z) : Z :=
  if kind =? S_IFIFO then DT_FIFO
  else if kind =? S_IFCHR then DT_CHR
  else if kind =? S_IFDIR then DT_DIR
  else if kind =? S_IFBLK then DT_BLK
  else if kind =? S_IFREG then DT_REG
  else if kind =? S_IFLNK then DT_LNK
  else if kind =? S_IFSOCK then DT_SOCK
  else DT_UNKNOWN.

Definition dirent_type (m : Stat) : Z := dirent_type_ft_from_mode (file_kind m).

(** ** The guest's owner and mode, kept in a private extended attribute *)

(** The bytes of ["com.nofire.hvi."] and of ["com.nofire.hvi.linux-attr"]. *)
Definition HVI_XATTR_PREFIX : list Z :=
  [0x63;0x6f;0x6d;0x2e;0x6e;0x6f;0x66;0x69;0x72;0x65;0x2e;0x68;0x76;0x69;0x2e].
Definition HVI_XATTR_LINUX_ATTR : list Z :=
  HVI_XATTR_PREFIX ++ [0x6c;0x69;0x6e;0x75;0x78;0x2d;0x61;0x74;0x74;0x72].
Definition GUEST_ATTR_LEN : Z := 12.

Definition encode_guest_attr (g : GuestAttr) : list Z :=
  le_bytes 4 (Z.land (ga_mode g) 0xffff) ++ le_bytes 4 (ga_uid g) ++ le_bytes 4 (ga_gid g).

Definition decode_guest_attr (v : list Z) : option GuestAttr :=
  if negb (zlen v =? GUEST_ATTR_LEN) then None
  else Some (mkGuestAttr (le_val (sub_bytes v 0 4)) (le_val (sub_bytes v 4 8)) (le_val (sub_bytes v 8 12))).

(** [name.starts_with(prefix)]. *)
Definition starts_with (prefix l : list Z) : bool := bool_decide (take (length prefix) l = prefix).

Definition is_private_xattr (name : list Z) : bool := starts_with HVI_XATTR_PREFIX name.

Definition filter_private_xattrs (value : list Z) : list Z :=
  concat (map (fun n => n ++ [0]) (List.filter (fun n => negb (bool_decide (n = []) || is_private_xattr n)) (split_on 0 value))).

Definition xattr_name (name : list Z) : bool :=
  negb (bool_decide (name = []) || bool_decide (SLASH ∈ name) || bool_decide (0 ∈ name)).

(** The reply to a GETXATTR or LISTXATTR, or the error. *)
Definition xattr_response (requested : Z) (value : list Z) : list Z + Z :=
  if requested =? 0 then
    if zlen value <? 2 ^ 32 then inl (put_u32 (zlen value) ++ put_u32 0) else inr EFBIG
  else if requested <? zlen value then inr ERANGE
  else inl value.

(** ** Classification of requests *)

Definition open_wants_write (flags open_flags : Z) : bool :=
  has_flag flags LINUX_O_ACCMODE || has_flag flags LINUX_O_TRUNC || has_flag open_flags FUSE_OPEN_KILL_SUIDGID.

Definition read_only_opcodes : list Z :=
  [Op.LOOKUP; Op.FORGET; Op.GETATTR; Op.READLINK; Op.READ; Op.STATFS; Op.RELEASE; Op.FSYNC; Op.GETXATTR;
   Op.LISTXATTR; Op.FLUSH; Op.INIT; Op.OPENDIR; Op.READDIR; Op.RELEASEDIR; Op.FSYNCDIR; Op.GETLK; Op.SETLK;
   Op.SETLKW; Op.IOCTL; Op.INTERRUPT; Op.ACCESS; Op.DESTROY; Op.POLL; Op.BATCH_FORGET; Op.READDIRPLUS;
   Op.LSEEK; Op.SYNCFS; Op.STATX].

Definition request_is_read_only (opcode : Z) (payload : list Z) : bool :=
  if opcode =? Op.OPEN then
    match get_u32 payload 0, get_u32 payload 4 with
    | Some flags, Some open_flags => negb (open_wants_write flags open_flags)
    | _, _ => false
    end
  else bool_decide (opcode ∈ read_only_opcodes).

(** ** Other pure helpers *)

Definition ranges_overlap (left right length : Z) : bool :=
  if length =? 0 then false
  else (left <? Z.min (right + length) (2 ^ 64 - 1)) && (right <? Z.min (left + length) (2 ^ 64 - 1)).

(** A [timespec] of a SETATTR: now, unchanged, or a time. *)
Inductive TimeSpec := UtimeNow | UtimeOmit | UtimeAt (sec nsec : Z).

Definition fuse_time (valid now : bool) (seconds nanos : Z) : option TimeSpec :=
  if now then Some UtimeNow
  else if negb valid then Some UtimeOmit
  else if (1000000000 <=? nanos) || (2 ^ 63 - 1 <? seconds) then None
  else Some (UtimeAt seconds nanos).

Definition fuse_times (valid atime atime_nsec mtime mtime_nsec : Z) : option (TimeSpec * TimeSpec) :=
  a ← fuse_time (has_flag valid FATTR_ATIME) (has_flag valid FATTR_ATIME_NOW) atime atime_nsec;
  m ← fuse_time (has_flag valid FATTR_MTIME) (has_flag valid FATTR_MTIME_NOW) mtime mtime_nsec;
  Some (a, m).

Definition host_creation_mode (mode : Z) (directory : bool) : Z :=
  Z.lor (Z.land mode 0x1ff) (if directory then 0x1c0 else 0x180).
