(* ===== verification/FsHost.v ===== *)
(** * The host file system, as the FUSE server calls it ([src/devices/virtio/fs/server.rs])

    Paths and their components ([std::path]), descriptors, the system calls the
    server makes with the errors they return, and [io_errno]. The host itself is
    a parameter: a class [HostFs] that answers each call from a state of its own,
    with the few documented facts the server relies on in [HostFsLaws]. *)

From S2P Require Import Prelude FsWire.
Local Open Scope Z_scope.

(** ** Names and paths

    A name is the bytes of one component. Every [PathBuf] the server keeps is
    absolute and normalised (the root is canonical, and a child is its parent
    joined with one name), so a path is the list of its components below ["/"];
    [Path] compares, strips and joins by components. *)
Abbreviation name := (list Z) (only parsing).
Definition path : Set := list (list Z).

(** A component that names an entry of a directory and nothing else: what a
    [*at] call may be given without leaving its directory. *)
Definition proper (n : name) : Prop := n <> [] /\ n <> DOT /\ n <> DOTDOT /\ (SLASH ∉ n) /\ (0 ∉ n).
#[export] Instance proper_dec n : Decision (proper n).
Proof. unfold proper. apply _. Defined.

Definition join (p : path) (n : name) : path := p ++ [n].

(** [strip_prefix]. *)
Fixpoint strip_prefix (prefix p : path) : option path :=
  match prefix, p with
  | [], _ => Some p
  | a :: prefix, b :: p => if bool_decide (a = b) then strip_prefix prefix p else None
  | _ :: _, [] => None
  end.

(** [file_name] and [parent]. *)
Definition file_name (p : path) : option name := last p.
Definition parent (p : path) : option path := match p with [] => None | _ => Some (removelast p) end.

(** [CString::new]: refused when the bytes hold a NUL. *)
Definition cstring (n : name) : option name := if bool_decide (0 ∈ n) then None else Some n.

(** [Path::components] of the bytes of a symlink's target: empty parts are
    dropped, and ["."] too, which the walk skips as it does [CurDir]. *)
Inductive Component := RootDir | CurDir | ParentDir | Normal (n : list Z).

Definition component_of (n : name) : Component :=
  if bool_decide (n = DOT) then CurDir else if bool_decide (n = DOTDOT) then ParentDir else Normal n.

Definition is_absolute (target : list Z) : bool :=
  match target with b :: _ => b =? SLASH | [] => false end.

Definition components (target : list Z) : list Component :=
  (if is_absolute target then [RootDir] else [])
  ++ map component_of (List.filter (fun n => negb (bool_decide (n = []))) (split_on SLASH target)).

(** ** Errors

    The host's error codes by name, and the [ErrorKind] of any other. *)
Inductive ErrorKind := NotFound | PermissionDenied | AlreadyExists | InvalidInput | InvalidData
  | NotADirectory | IsADirectory | Unsupported | Interrupted | OtherKind.

Inductive HostErrno :=
  | HEPERM | HEBADF | HEACCES | HENOENT | HEEXIST | HEXDEV | HENOTDIR | HEISDIR | HEINVAL | HENXIO | HEAGAIN
  | HEDEADLK | HENOTTY | HEFBIG | HENOSPC | HEROFS | HERANGE | HENOATTR | HEOPNOTSUPP | HENOSYS | HENOTEMPTY
  | HELOOP | HEMFILE | HENFILE | HETXTBSY | HENAMETOOLONG | HEBUSY | HENOMEM | HEMLINK | HENOLCK | HEOVERFLOW
  | HESTALE | HEDQUOT | HEother (k : ErrorKind).

#[export] Instance ErrorKind_eq_dec : EqDecision ErrorKind.
Proof. solve_decision. Defined.
#[export] Instance HostErrno_eq_dec : EqDecision HostErrno.
Proof. solve_decision. Defined.

Definition io_errno (e : HostErrno) : Z :=
  match e with
  | HEPERM => EPERM | HEBADF => EBADF | HEACCES => EACCES | HENOENT => ENOENT | HEEXIST => EEXIST
  | HEXDEV => EXDEV | HENOTDIR => ENOTDIR | HEISDIR => EISDIR | HEINVAL => EINVAL | HENXIO => ENXIO
  | HEAGAIN => EAGAIN | HEDEADLK => EDEADLK | HENOTTY => ENOTTY | HEFBIG => EFBIG | HENOSPC => ENOSPC
  | HEROFS => EROFS | HERANGE => ERANGE | HENOATTR => ENODATA | HEOPNOTSUPP => EOPNOTSUPP | HENOSYS => ENOSYS
  | HENOTEMPTY => ENOTEMPTY | HELOOP => ELOOP | HEMFILE => EMFILE | HENFILE => ENFILE | HETXTBSY => ETXTBSY
  | HENAMETOOLONG => ENAMETOOLONG | HEBUSY => EBUSY | HENOMEM => ENOMEM | HEMLINK => EMLINK
  | HENOLCK => ENOLCK | HEOVERFLOW => EOVERFLOW | HESTALE => ESTALE | HEDQUOT => EDQUOT
  | HEother k =>
      match k with
      | NotFound => ENOENT
      | PermissionDenied => EACCES
      | AlreadyExists => EEXIST
      | InvalidInput | InvalidData => EINVAL
      | NotADirectory => ENOTDIR
      | IsADirectory => EISDIR
      | Unsupported => ENOSYS
      | Interrupted | OtherKind => EIO
      end
  end.

(** ** Descriptors

    A descriptor is the host's number with a ghost: the names it was reached by,
    one for each open, from the root of the export. A duplicate keeps them. *)
Record Fd := mkFd { raw : Z; via : path }.

(** The flags of an [openat]. *)
Inductive Access := O_RDONLY | O_WRONLY | O_RDWR.
Record OFlags := mkOFlags {
  o_access : Access; o_append : bool; o_trunc : bool; o_creat : bool; o_excl : bool;
  o_directory : bool; o_nofollow : bool; o_symlink : bool; o_nonblock : bool; o_noctty : bool; o_cloexec : bool;
}.

(** [host_open_flags]: the guest's open flags in the host's terms. *)
Definition host_open_flags (flags : Z) (create : bool) : option OFlags :=
  let acc := Z.land flags LINUX_O_ACCMODE in
  access ← (if acc =? 0 then Some O_RDONLY else if acc =? LINUX_O_WRONLY then Some O_WRONLY
            else if acc =? LINUX_O_RDWR then Some O_RDWR else None);
  Some {| o_access := access; o_append := has_flag flags LINUX_O_APPEND; o_trunc := has_flag flags LINUX_O_TRUNC;
          o_creat := create; o_excl := create && has_flag flags LINUX_O_EXCL;
          o_directory := false; o_nofollow := true; o_symlink := false;
          o_nonblock := true; o_noctty := true; o_cloexec := true |}.

Definition dir_flags : OFlags := mkOFlags O_RDONLY false false false false true true false false false true.
Definition entry_flags : OFlags := mkOFlags O_RDONLY false false false false false true false true false true.
Definition symlink_flags : OFlags := mkOFlags O_RDONLY false false false false false false true true false true.

(** ** Calls *)

(** The lock of an [fcntl], and its type. *)
Inductive LockType := F_RDLCK | F_WRLCK | F_UNLCK | F_other.
Record FLock := mkFLock { l_start : Z; l_len : Z; l_pid : Z; l_type : LockType }.
Inductive FlockOp := LOCK_SH | LOCK_EX | LOCK_UN.

Inductive Whence := SEEK_SET | SEEK_CUR | SEEK_END | SEEK_DATA | SEEK_HOLE.

Record StatVfs := mkStatVfs {
  f_blocks : Z; f_bfree : Z; f_bavail : Z; f_files : Z; f_ffree : Z; f_bsize : Z; f_namemax : Z; f_frsize : Z }.

(** An entry of a directory as [readdir] reports it. *)
Record Dirent := mkDirent { d_name : list Z; d_ino : Z; d_type : Z }.

(** [DirEntryInfo]: the entry a listing keeps. *)
Record DirEntryInfo := mkEntry { e_name : list Z; e_ino : Z; e_dtype : Z }.

(** A listing a readahead worker prepared. *)
Record PreparedEntry := mkPrepared { p_info : DirEntryInfo; p_meta : Stat; p_guest : option GuestAttr }.
Record PreparedDir := mkPreparedDir { pd_ctime : Z * Z; pd_read_at : Z; pd_entries : list PreparedEntry }.

Inductive RenameMode := RenamePlain | RenameSwap | RenameExcl.

(** The calls, each with the type of its result. *)
Inductive HostE : Set -> Set :=
  | CIsDir (p : path) : HostE bool
  | CCanonicalize (p : path) : HostE path
  | CLstat (p : path) : HostE Stat
  | COpenPath (p : path) (fl : OFlags) : HostE Z
  | COpenAt (d : Fd) (n : list Z) (fl : OFlags) (mode : Z) : HostE Z
  | CDup (fd : Fd) : HostE Z
  | CFstat (fd : Fd) : HostE Stat
  | CFstatAt (d : Fd) (n : list Z) : HostE Stat
  | CFaccessAt (d : Fd) (n : list Z) : HostE unit
  | CReadlinkAt (d : Fd) (n : list Z) (size : Z) : HostE (list Z)
  | CReaddir (fd : Fd) : HostE (list Dirent)
  | CMkdirAt (d : Fd) (n : list Z) (mode : Z) : HostE unit
  | CSymlinkAt (target : list Z) (d : Fd) (n : list Z) : HostE unit
  | CMkfifoAt (d : Fd) (n : list Z) (mode : Z) : HostE unit
  | CUnlinkAt (d : Fd) (n : list Z) (directory : bool) : HostE unit
  | CLinkAt (od : Fd) (on : list Z) (nd : Fd) (nn : list Z) : HostE unit
  | CRenameAt (od : Fd) (on : list Z) (nd : Fd) (nn : list Z) (m : RenameMode) : HostE unit
  | CFchmodAt (d : Fd) (n : list Z) (mode : Z) : HostE unit
  | CFchmod (fd : Fd) (mode : Z) : HostE unit
  | CUtimensAt (d : Fd) (n : list Z) (times : TimeSpec * TimeSpec) : HostE unit
  | CFutimens (fd : Fd) (times : TimeSpec * TimeSpec) : HostE unit
  | CFtruncate (fd : Fd) (len : Z) : HostE unit
  | CGetxattrLen (fd : Fd) (n : list Z) : HostE Z
  | CGetxattr (fd : Fd) (n : list Z) (cap : Z) : HostE (list Z)
  | CListxattrLen (fd : Fd) : HostE Z
  | CListxattr (fd : Fd) (cap : Z) : HostE (list Z)
  | CSetxattr (fd : Fd) (n value : list Z) (create replace : bool) : HostE unit
  | CRemovexattr (fd : Fd) (n : list Z) : HostE unit
  | CPread (fd : Fd) (offset len : Z) : HostE (list Z)
  | CPwrite (fd : Fd) (offset : Z) (data : list Z) : HostE Z
  | CFsync (fd : Fd) (data_only : bool) : HostE unit
  | CFlock (fd : Fd) (op : FlockOp) (nonblock : bool) : HostE unit
  | COfdSetLk (fd : Fd) (l : FLock) : HostE unit
  | COfdGetLk (fd : Fd) (l : FLock) : HostE FLock
  | CLseek (fd : Fd) (offset : Z) (whence : Whence) : HostE Z
  | CPunchHole (fd : Fd) (offset len : Z) : HostE unit
  | CPreallocate (fd : Fd) (contiguous : bool) (offset len : Z) : HostE unit
  | CFstatvfs (fd : Fd) : HostE StatVfs
  | CSyncVolume (p : path) : HostE unit
  | CNow : HostE (Z * Z)
  | CClock : HostE Z
  | CGeteuid : HostE Z
  | CGetegid : HostE Z
  | CGetpid : HostE Z
  | CReadaheadTake (p : path) : HostE (option PreparedDir)
  | CReadaheadRequest (p : path) (d : Fd) (n : list Z) : HostE unit
  | CReadaheadInvalidate : HostE unit.

(** A call with the type of its result hidden, as the log keeps it. *)
Inductive Call : Type := mkCall (A : Set) (e : HostE A).
Arguments mkCall {A} e.

(** ** The host, as a parameter *)

(** [sys] answers a call; [interrupts] bounds the calls that signals have yet to
    interrupt, which is the fuel of the loops that repeat an interrupted call. *)
Class HostFs (H : Type) := {
  sys : forall A : Set, HostE A -> H -> (A + HostErrno) * H;
  interrupts : H -> nat }.

(** An entry of a directory has a name that is not empty and holds no slash; the
    dot entries are the only ones that name something else. The bytes come from a
    C string, so there is no NUL. A prepared listing holds entries read this way,
    without the dot entries. What a call fills into a buffer is bytes, and no more
    of them than the buffer holds. A call a signal interrupts is one less to come. *)
Definition dirent_name_ok (n : name) : Prop := n <> [] /\ (SLASH ∉ n) /\ (0 ∉ n) /\ bytes_ok n.
Definition name_ok (n : name) : Prop := proper n /\ bytes_ok n.

Class HostFsLaws (H : Type) `{HostFs H} := {
  readdir_names : forall fd h l h',
    sys _ (CReaddir fd) h = (inl l, h') -> Forall (fun e => dirent_name_ok (d_name e)) l;
  prepared_names : forall p h d h',
    sys _ (CReadaheadTake p) h = (inl (Some d), h') -> Forall (fun e => name_ok (e_name (p_info e))) (pd_entries d);
  pread_bytes : forall fd off len h l h',
    sys _ (CPread fd off len) h = (inl l, h') -> bytes_ok l /\ zlen l <= Z.max len 0;
  readlink_bytes : forall fd n sz h l h', sys _ (CReadlinkAt fd n sz) h = (inl l, h') -> bytes_ok l;
  getxattr_bytes : forall fd n cap h l h', sys _ (CGetxattr fd n cap) h = (inl l, h') -> bytes_ok l;
  listxattr_bytes : forall fd cap h l h', sys _ (CListxattr fd cap) h = (inl l, h') -> bytes_ok l;
  interrupts_end : forall (A : Set) (e : HostE A) h h', sys A e h = (inr (HEother Interrupted), h') -> (interrupts h' < interrupts h)%nat;
}.

(** ** What a call may do *)

(** The calls that change the file system: its names, a file's contents or its
    attributes. Opening for writing counts, and so do creation and truncation. *)
Definition writes_through (fl : OFlags) : bool :=
  match o_access fl with O_RDONLY => false | _ => true end || o_trunc fl || o_creat fl.

Definition mutating (c : Call) : bool :=
  match c with
  | mkCall e =>
      match e with
      | COpenAt _ _ fl _ | COpenPath _ fl => writes_through fl
      | CMkdirAt _ _ _ | CSymlinkAt _ _ _ | CMkfifoAt _ _ _ | CUnlinkAt _ _ _ | CLinkAt _ _ _ _
      | CRenameAt _ _ _ _ _ | CFchmodAt _ _ _ | CFchmod _ _ | CUtimensAt _ _ _ | CFutimens _ _
      | CFtruncate _ _ | CSetxattr _ _ _ _ _ | CRemovexattr _ _ | CPwrite _ _ _ | CPunchHole _ _ _
      | CPreallocate _ _ _ _ => true
      | _ => false
      end
  end.

(** A descriptor reached from the root by names that each stay in their directory. *)
Definition fd_ok (fd : Fd) : Prop := Forall proper (via fd).

(** A call that cannot leave the export: every name is one proper component,
    every descriptor was reached by such names, and an open follows nothing in
    its last component. *)
Definition no_follow (fl : OFlags) : bool := o_nofollow fl || o_symlink fl.

Definition confined (c : Call) : Prop :=
  match c with
  | mkCall e =>
      match e with
      | COpenAt d n fl _ => fd_ok d /\ proper n /\ no_follow fl = true
      | CFstatAt d n | CFaccessAt d n | CReadlinkAt d n _ | CMkdirAt d n _ | CSymlinkAt _ d n
      | CMkfifoAt d n _ | CUnlinkAt d n _ | CFchmodAt d n _ | CUtimensAt d n _ | CReadaheadRequest _ d n =>
          fd_ok d /\ proper n
      | CLinkAt od on nd nn | CRenameAt od on nd nn _ => fd_ok od /\ proper on /\ fd_ok nd /\ proper nn
      | CDup fd | CFstat fd | CReaddir fd | CFchmod fd _ | CFutimens fd _ | CFtruncate fd _ | CGetxattrLen fd _
      | CGetxattr fd _ _ | CListxattrLen fd | CListxattr fd _ | CSetxattr fd _ _ _ _ | CRemovexattr fd _
      | CPread fd _ _ | CPwrite fd _ _ | CFsync fd _ | CFlock fd _ _ | COfdSetLk fd _ | COfdGetLk fd _
      | CLseek fd _ _ | CPunchHole fd _ _ | CPreallocate fd _ _ _ | CFstatvfs fd => fd_ok fd
      | CIsDir _ | CCanonicalize _ | CLstat _ | COpenPath _ _ => False
      | CSyncVolume _ | CNow | CClock | CGeteuid | CGetegid | CGetpid | CReadaheadTake _ | CReadaheadInvalidate => True
      end
  end.
