(* ===== verification/FsState.v ===== *)
(** * The state of the FUSE server, and its programs ([src/devices/virtio/fs/server.rs])

    The fields of [VirtioFs] that belong to the FUSE session, as one record; the
    registers and queues of the device are in [FsDev]. The counters of requests
    and their times, printed when the VM stops, are left out.

    The code runs under the device's lock and calls the host as it goes, so a
    piece of it is a function from a [World] (the session, guest RAM, the host
    and the log of the calls made so far) to a result and the next world. A result
    is a value, the error number of an early return, or a panic. *)

From S2P Require Import Prelude Memory FsWire FsHost.
From stdpp Require Import countable.
Local Open Scope Z_scope.

(** ** Data *)

Inductive CachePolicy := CacheNone | CacheAuto | CacheAlways.
#[export] Instance CachePolicy_eq_dec : EqDecision CachePolicy.
Proof. solve_decision. Defined.

Record HandleAttrs := mkHandleAttrs { a_key : Z * Z; a_mode : Z; a_uid : Z; a_gid : Z; a_ctime : Z * Z }.
#[export] Instance HandleAttrs_eq_dec : EqDecision HandleAttrs.
Proof. solve_decision. Defined.

Definition attrs_of (m : Stat) : HandleAttrs :=
  mkHandleAttrs (stat_key m) (mode m) (uid m) (gid m) (st_ctime m, st_ctime_nsec m).

Record FileHandle := mkHandle {
  h_file : Fd; h_writable : bool; h_open_flags : Z; h_attrs : HandleAttrs; h_path : path;
  h_temporary : option path; h_node : Z; h_locked : bool }.

Record DirHandle := mkDirHandle { dh_file : Fd; dh_entries : list DirEntryInfo }.

Record Fh0Listing := mkFh0 {
  l_entries : list DirEntryInfo; l_prepared : list (Stat * option GuestAttr); l_prepared_at : option Z }.

Record ParkedFd := mkParked { pk_file : Fd; pk_flags : Z; pk_attrs : HandleAttrs; pk_tick : Z }.

(** [n_guest_attr]: not read yet, read and absent, or read. *)
Record Node := mkNode {
  n_key : Z * Z; n_paths : list path; n_lookups : Z; n_open_handles : Z; n_guest_attr : option (option GuestAttr) }.

(** The lock call of a request, never blocking. *)
Inductive LockCall := LFlock (op : FlockOp) | LPosix (l : FLock).
Record PendingLock := mkPending { pl_unique : Z; pl_fh : Z; pl_call : LockCall }.

Record DirCache := mkDirCache {
  dc_root : Fd; dc_open : gmap path (Fd * Z); dc_caching : bool; dc_scratch : option Fd;
  dc_lru : list (path * Z); dc_ticks : Z; dc_limit : Z }.

Definition SOCKET_DEV : Z := 2 ^ 64 - 1.
Definition MAX_NODE_ALIASES : nat := 16.
Definition FH0_LISTINGS_MAX : nat := 64.
Definition WRITABLE_CACHE_SECS : Z := 5.
Definition READ_ONLY_CACHE_SECS : Z := 60.
Definition NEGATIVE_CACHE_SECS : Z := WRITABLE_CACHE_SECS.

Record Fs := mkFs {
  f_root : path;
  f_writable : bool;
  f_cache : CachePolicy;
  f_ids : GuestIds;
  nodes : gmap Z Node;
  inode_ids : gmap (Z * Z) Z;
  next_node : Z;
  sockets : gmap path SocketNode;
  next_socket_ino : Z;
  handles : gmap Z FileHandle;
  dir_handles : gmap Z DirHandle;
  fh0_listings : gmap Z Fh0Listing;
  fh0_order : list Z;
  fh0_finished : gset Z;
  next_fh : Z;
  handle_limit : Z;
  peak_handles : Z;
  parked : gmap Z ParkedFd;
  parked_order : list (Z * Z);
  parked_ticks : Z;
  parked_limit : Z;
  parked_hits : Z;
  parked_misses : Z;
  next_tmpfile : Z;
  zero_copy_reads : Z;
  zero_copy_writes : Z;
  dirs : DirCache;
  dirty : bool;
  host_syncs : Z;
  lock_to_park : option PendingLock;
}.

(** Assignments to one field. *)
Definition set_nodes (v : gmap Z Node) (s : Fs) : Fs :=
  mkFs
    (f_root s) (f_writable s) (f_cache s) (f_ids s) v (inode_ids s) (next_node s) (sockets s)
    (next_socket_ino s) (handles s) (dir_handles s) (fh0_listings s) (fh0_order s) (fh0_finished s)
    (next_fh s) (handle_limit s) (peak_handles s) (parked s) (parked_order s) (parked_ticks s)
    (parked_limit s) (parked_hits s) (parked_misses s) (next_tmpfile s) (zero_copy_reads s)
    (zero_copy_writes s) (dirs s) (dirty s) (host_syncs s) (lock_to_park s).
Definition set_inode_ids (v : gmap (Z * Z) Z) (s : Fs) : Fs :=
  mkFs
    (f_root s) (f_writable s) (f_cache s) (f_ids s) (nodes s) v (next_node s) (sockets s)
    (next_socket_ino s) (handles s) (dir_handles s) (fh0_listings s) (fh0_order s) (fh0_finished s)
    (next_fh s) (handle_limit s) (peak_handles s) (parked s) (parked_order s) (parked_ticks s)
    (parked_limit s) (parked_hits s) (parked_misses s) (next_tmpfile s) (zero_copy_reads s)
    (zero_copy_writes s) (dirs s) (dirty s) (host_syncs s) (lock_to_park s).
Definition set_next_node (v : Z) (s : Fs) : Fs :=
  mkFs
    (f_root s) (f_writable s) (f_cache s) (f_ids s) (nodes s) (inode_ids s) v (sockets s)
    (next_socket_ino s) (handles s) (dir_handles s) (fh0_listings s) (fh0_order s) (fh0_finished s)
    (next_fh s) (handle_limit s) (peak_handles s) (parked s) (parked_order s) (parked_ticks s)
    (parked_limit s) (parked_hits s) (parked_misses s) (next_tmpfile s) (zero_copy_reads s)
    (zero_copy_writes s) (dirs s) (dirty s) (host_syncs s) (lock_to_park s).
Definition set_sockets (v : gmap path SocketNode) (s : Fs) : Fs :=
  mkFs
    (f_root s) (f_writable s) (f_cache s) (f_ids s) (nodes s) (inode_ids s) (next_node s) v
    (next_socket_ino s) (handles s) (dir_handles s) (fh0_listings s) (fh0_order s) (fh0_finished s)
    (next_fh s) (handle_limit s) (peak_handles s) (parked s) (parked_order s) (parked_ticks s)
    (parked_limit s) (parked_hits s) (parked_misses s) (next_tmpfile s) (zero_copy_reads s)
    (zero_copy_writes s) (dirs s) (dirty s) (host_syncs s) (lock_to_park s).
Definition set_next_socket_ino (v : Z) (s : Fs) : Fs :=
  mkFs
    (f_root s) (f_writable s) (f_cache s) (f_ids s) (nodes s) (inode_ids s) (next_node s) (sockets
    s) v (handles s) (dir_handles s) (fh0_listings s) (fh0_order s) (fh0_finished s) (next_fh s)
    (handle_limit s) (peak_handles s) (parked s) (parked_order s) (parked_ticks s) (parked_limit s)
    (parked_hits s) (parked_misses s) (next_tmpfile s) (zero_copy_reads s) (zero_copy_writes s)
    (dirs s) (dirty s) (host_syncs s) (lock_to_park s).
Definition set_handles (v : gmap Z FileHandle) (s : Fs) : Fs :=
  mkFs
    (f_root s) (f_writable s) (f_cache s) (f_ids s) (nodes s) (inode_ids s) (next_node s) (sockets
    s) (next_socket_ino s) v (dir_handles s) (fh0_listings s) (fh0_order s) (fh0_finished s)
    (next_fh s) (handle_limit s) (peak_handles s) (parked s) (parked_order s) (parked_ticks s)
    (parked_limit s) (parked_hits s) (parked_misses s) (next_tmpfile s) (zero_copy_reads s)
    (zero_copy_writes s) (dirs s) (dirty s) (host_syncs s) (lock_to_park s).
Definition set_dir_handles (v : gmap Z DirHandle) (s : Fs) : Fs :=
  mkFs
    (f_root s) (f_writable s) (f_cache s) (f_ids s) (nodes s) (inode_ids s) (next_node s) (sockets
    s) (next_socket_ino s) (handles s) v (fh0_listings s) (fh0_order s) (fh0_finished s) (next_fh s)
    (handle_limit s) (peak_handles s) (parked s) (parked_order s) (parked_ticks s) (parked_limit s)
    (parked_hits s) (parked_misses s) (next_tmpfile s) (zero_copy_reads s) (zero_copy_writes s)
    (dirs s) (dirty s) (host_syncs s) (lock_to_park s).
Definition set_fh0_listings (v : gmap Z Fh0Listing) (s : Fs) : Fs :=
  mkFs
    (f_root s) (f_writable s) (f_cache s) (f_ids s) (nodes s) (inode_ids s) (next_node s) (sockets
    s) (next_socket_ino s) (handles s) (dir_handles s) v (fh0_order s) (fh0_finished s) (next_fh s)
    (handle_limit s) (peak_handles s) (parked s) (parked_order s) (parked_ticks s) (parked_limit s)
    (parked_hits s) (parked_misses s) (next_tmpfile s) (zero_copy_reads s) (zero_copy_writes s)
    (dirs s) (dirty s) (host_syncs s) (lock_to_park s).
Definition set_fh0_order (v : list Z) (s : Fs) : Fs :=
  mkFs
    (f_root s) (f_writable s) (f_cache s) (f_ids s) (nodes s) (inode_ids s) (next_node s) (sockets
    s) (next_socket_ino s) (handles s) (dir_handles s) (fh0_listings s) v (fh0_finished s) (next_fh
    s) (handle_limit s) (peak_handles s) (parked s) (parked_order s) (parked_ticks s) (parked_limit
    s) (parked_hits s) (parked_misses s) (next_tmpfile s) (zero_copy_reads s) (zero_copy_writes s)
    (dirs s) (dirty s) (host_syncs s) (lock_to_park s).
Definition set_fh0_finished (v : gset Z) (s : Fs) : Fs :=
  mkFs
    (f_root s) (f_writable s) (f_cache s) (f_ids s) (nodes s) (inode_ids s) (next_node s) (sockets
    s) (next_socket_ino s) (handles s) (dir_handles s) (fh0_listings s) (fh0_order s) v (next_fh s)
    (handle_limit s) (peak_handles s) (parked s) (parked_order s) (parked_ticks s) (parked_limit s)
    (parked_hits s) (parked_misses s) (next_tmpfile s) (zero_copy_reads s) (zero_copy_writes s)
    (dirs s) (dirty s) (host_syncs s) (lock_to_park s).
Definition set_next_fh (v : Z) (s : Fs) : Fs :=
  mkFs
    (f_root s) (f_writable s) (f_cache s) (f_ids s) (nodes s) (inode_ids s) (next_node s) (sockets
    s) (next_socket_ino s) (handles s) (dir_handles s) (fh0_listings s) (fh0_order s) (fh0_finished
    s) v (handle_limit s) (peak_handles s) (parked s) (parked_order s) (parked_ticks s)
    (parked_limit s) (parked_hits s) (parked_misses s) (next_tmpfile s) (zero_copy_reads s)
    (zero_copy_writes s) (dirs s) (dirty s) (host_syncs s) (lock_to_park s).
Definition set_peak_handles (v : Z) (s : Fs) : Fs :=
  mkFs
    (f_root s) (f_writable s) (f_cache s) (f_ids s) (nodes s) (inode_ids s) (next_node s) (sockets
    s) (next_socket_ino s) (handles s) (dir_handles s) (fh0_listings s) (fh0_order s) (fh0_finished
    s) (next_fh s) (handle_limit s) v (parked s) (parked_order s) (parked_ticks s) (parked_limit s)
    (parked_hits s) (parked_misses s) (next_tmpfile s) (zero_copy_reads s) (zero_copy_writes s)
    (dirs s) (dirty s) (host_syncs s) (lock_to_park s).
Definition set_parked (v : gmap Z ParkedFd) (s : Fs) : Fs :=
  mkFs
    (f_root s) (f_writable s) (f_cache s) (f_ids s) (nodes s) (inode_ids s) (next_node s) (sockets
    s) (next_socket_ino s) (handles s) (dir_handles s) (fh0_listings s) (fh0_order s) (fh0_finished
    s) (next_fh s) (handle_limit s) (peak_handles s) v (parked_order s) (parked_ticks s)
    (parked_limit s) (parked_hits s) (parked_misses s) (next_tmpfile s) (zero_copy_reads s)
    (zero_copy_writes s) (dirs s) (dirty s) (host_syncs s) (lock_to_park s).
Definition set_parked_order (v : list (Z * Z)) (s : Fs) : Fs :=
  mkFs
    (f_root s) (f_writable s) (f_cache s) (f_ids s) (nodes s) (inode_ids s) (next_node s) (sockets
    s) (next_socket_ino s) (handles s) (dir_handles s) (fh0_listings s) (fh0_order s) (fh0_finished
    s) (next_fh s) (handle_limit s) (peak_handles s) (parked s) v (parked_ticks s) (parked_limit s)
    (parked_hits s) (parked_misses s) (next_tmpfile s) (zero_copy_reads s) (zero_copy_writes s)
    (dirs s) (dirty s) (host_syncs s) (lock_to_park s).
Definition set_parked_ticks (v : Z) (s : Fs) : Fs :=
  mkFs
    (f_root s) (f_writable s) (f_cache s) (f_ids s) (nodes s) (inode_ids s) (next_node s) (sockets
    s) (next_socket_ino s) (handles s) (dir_handles s) (fh0_listings s) (fh0_order s) (fh0_finished
    s) (next_fh s) (handle_limit s) (peak_handles s) (parked s) (parked_order s) v (parked_limit s)
    (parked_hits s) (parked_misses s) (next_tmpfile s) (zero_copy_reads s) (zero_copy_writes s)
    (dirs s) (dirty s) (host_syncs s) (lock_to_park s).
Definition set_parked_hits (v : Z) (s : Fs) : Fs :=
  mkFs
    (f_root s) (f_writable s) (f_cache s) (f_ids s) (nodes s) (inode_ids s) (next_node s) (sockets
    s) (next_socket_ino s) (handles s) (dir_handles s) (fh0_listings s) (fh0_order s) (fh0_finished
    s) (next_fh s) (handle_limit s) (peak_handles s) (parked s) (parked_order s) (parked_ticks s)
    (parked_limit s) v (parked_misses s) (next_tmpfile s) (zero_copy_reads s) (zero_copy_writes s)
    (dirs s) (dirty s) (host_syncs s) (lock_to_park s).
Definition set_parked_misses (v : Z) (s : Fs) : Fs :=
  mkFs
    (f_root s) (f_writable s) (f_cache s) (f_ids s) (nodes s) (inode_ids s) (next_node s) (sockets
    s) (next_socket_ino s) (handles s) (dir_handles s) (fh0_listings s) (fh0_order s) (fh0_finished
    s) (next_fh s) (handle_limit s) (peak_handles s) (parked s) (parked_order s) (parked_ticks s)
    (parked_limit s) (parked_hits s) v (next_tmpfile s) (zero_copy_reads s) (zero_copy_writes s)
    (dirs s) (dirty s) (host_syncs s) (lock_to_park s).
Definition set_next_tmpfile (v : Z) (s : Fs) : Fs :=
  mkFs
    (f_root s) (f_writable s) (f_cache s) (f_ids s) (nodes s) (inode_ids s) (next_node s) (sockets
    s) (next_socket_ino s) (handles s) (dir_handles s) (fh0_listings s) (fh0_order s) (fh0_finished
    s) (next_fh s) (handle_limit s) (peak_handles s) (parked s) (parked_order s) (parked_ticks s)
    (parked_limit s) (parked_hits s) (parked_misses s) v (zero_copy_reads s) (zero_copy_writes s)
    (dirs s) (dirty s) (host_syncs s) (lock_to_park s).
Definition set_zero_copy_reads (v : Z) (s : Fs) : Fs :=
  mkFs
    (f_root s) (f_writable s) (f_cache s) (f_ids s) (nodes s) (inode_ids s) (next_node s) (sockets
    s) (next_socket_ino s) (handles s) (dir_handles s) (fh0_listings s) (fh0_order s) (fh0_finished
    s) (next_fh s) (handle_limit s) (peak_handles s) (parked s) (parked_order s) (parked_ticks s)
    (parked_limit s) (parked_hits s) (parked_misses s) (next_tmpfile s) v (zero_copy_writes s) (dirs
    s) (dirty s) (host_syncs s) (lock_to_park s).
Definition set_zero_copy_writes (v : Z) (s : Fs) : Fs :=
  mkFs
    (f_root s) (f_writable s) (f_cache s) (f_ids s) (nodes s) (inode_ids s) (next_node s) (sockets
    s) (next_socket_ino s) (handles s) (dir_handles s) (fh0_listings s) (fh0_order s) (fh0_finished
    s) (next_fh s) (handle_limit s) (peak_handles s) (parked s) (parked_order s) (parked_ticks s)
    (parked_limit s) (parked_hits s) (parked_misses s) (next_tmpfile s) (zero_copy_reads s) v (dirs
    s) (dirty s) (host_syncs s) (lock_to_park s).
Definition set_dirs (v : DirCache) (s : Fs) : Fs :=
  mkFs
    (f_root s) (f_writable s) (f_cache s) (f_ids s) (nodes s) (inode_ids s) (next_node s) (sockets
    s) (next_socket_ino s) (handles s) (dir_handles s) (fh0_listings s) (fh0_order s) (fh0_finished
    s) (next_fh s) (handle_limit s) (peak_handles s) (parked s) (parked_order s) (parked_ticks s)
    (parked_limit s) (parked_hits s) (parked_misses s) (next_tmpfile s) (zero_copy_reads s)
    (zero_copy_writes s) v (dirty s) (host_syncs s) (lock_to_park s).
Definition set_dirty (v : bool) (s : Fs) : Fs :=
  mkFs
    (f_root s) (f_writable s) (f_cache s) (f_ids s) (nodes s) (inode_ids s) (next_node s) (sockets
    s) (next_socket_ino s) (handles s) (dir_handles s) (fh0_listings s) (fh0_order s) (fh0_finished
    s) (next_fh s) (handle_limit s) (peak_handles s) (parked s) (parked_order s) (parked_ticks s)
    (parked_limit s) (parked_hits s) (parked_misses s) (next_tmpfile s) (zero_copy_reads s)
    (zero_copy_writes s) (dirs s) v (host_syncs s) (lock_to_park s).
Definition set_host_syncs (v : Z) (s : Fs) : Fs :=
  mkFs
    (f_root s) (f_writable s) (f_cache s) (f_ids s) (nodes s) (inode_ids s) (next_node s) (sockets
    s) (next_socket_ino s) (handles s) (dir_handles s) (fh0_listings s) (fh0_order s) (fh0_finished
    s) (next_fh s) (handle_limit s) (peak_handles s) (parked s) (parked_order s) (parked_ticks s)
    (parked_limit s) (parked_hits s) (parked_misses s) (next_tmpfile s) (zero_copy_reads s)
    (zero_copy_writes s) (dirs s) (dirty s) v (lock_to_park s).
Definition set_lock_to_park (v : option PendingLock) (s : Fs) : Fs :=
  mkFs
    (f_root s) (f_writable s) (f_cache s) (f_ids s) (nodes s) (inode_ids s) (next_node s) (sockets
    s) (next_socket_ino s) (handles s) (dir_handles s) (fh0_listings s) (fh0_order s) (fh0_finished
    s) (next_fh s) (handle_limit s) (peak_handles s) (parked s) (parked_order s) (parked_ticks s)
    (parked_limit s) (parked_hits s) (parked_misses s) (next_tmpfile s) (zero_copy_reads s)
    (zero_copy_writes s) (dirs s) (dirty s) (host_syncs s) v.


(** [saturating_add(1)] on [u64]. *)
Definition sat_succ (v : Z) : Z := Z.min (v + 1) (2 ^ 64 - 1).

(** ** Programs *)

Inductive Res (A : Type) := Ok (a : A) | Err (e : Z) | Panicked.
Arguments Ok {A} a.
Arguments Err {A} e.
Arguments Panicked {A}.

Record World (H : Type) := mkWorld { w_fs : Fs; w_ram : GuestRam; w_host : H; w_log : list Call }.
Arguments mkWorld {H} _ _ _ _.
Arguments w_fs {H} _.
Arguments w_ram {H} _.
Arguments w_host {H} _.
Arguments w_log {H} _.

Definition M (H A : Type) : Type := World H -> Res A * World H.

Declare Scope fs_scope.
Delimit Scope fs_scope with fs.
Open Scope fs_scope.

Section Programs.
Context {H : Type} {HF : HostFs H}.

Definition ret {A} (a : A) : M H A := fun w => (Ok a, w).
Definition fail {A} (e : Z) : M H A := fun w => (Err e, w).
Definition panic {A} : M H A := fun w => (Panicked, w).
Definition bind {A B} (m : M H A) (k : A -> M H B) : M H B := fun w =>
  match m w with
  | (Ok a, w') => k a w'
  | (Err e, w') => (Err e, w')
  | (Panicked, w') => (Panicked, w')
  end.

(** [match r { Ok(..) => .., Err(..) => .. }]: the error as a value. *)
Definition attempt {A} (m : M H A) : M H (A + Z) := fun w =>
  match m w with
  | (Ok a, w') => (Ok (inl a), w')
  | (Err e, w') => (Ok (inr e), w')
  | (Panicked, w') => (Panicked, w')
  end.

(** [o.ok_or(e)?]. *)
Definition ok_or {A} (o : option A) (e : Z) : M H A :=
  match o with Some a => ret a | None => fail e end.

(** [return Err(e)] unless the condition holds. *)
Definition guard (b : bool) (e : Z) : M H unit := if b then ret tt else fail e.

(** [o.expect(..)], and an index the code takes for granted. *)
Definition expect {A} (o : option A) : M H A :=
  match o with Some a => ret a | None => panic end.

(** Reading and changing the session. *)
Definition gets {A} (f : Fs -> A) : M H A := fun w => (Ok (f (w_fs w)), w).
Definition update {A} (f : Fs -> A * Fs) : M H A := fun w =>
  let '(a, s) := f (w_fs w) in (Ok a, mkWorld s (w_ram w) (w_host w) (w_log w)).
Definition modify (f : Fs -> Fs) : M H unit := update (fun s => (tt, f s)).

Definition get_ram : M H GuestRam := fun w => (Ok (w_ram w), w).
Definition set_ram (m : GuestRam) : M H unit := fun w => (Ok tt, mkWorld (w_fs w) m (w_host w) (w_log w)).

(** One call: logged, then answered by the host. *)
Definition call {A : Set} (e : HostE A) : M H (A + HostErrno) := fun w =>
  let '(r, h) := sys A e (w_host w) in
  (Ok r, mkWorld (w_fs w) (w_ram w) h (mkCall e :: w_log w)).

(** The loops of [preadv_retry], [pwritev_retry] and [retry_on_interrupt]: the call
    again for as long as a signal interrupts it. *)
Definition interrupted {A : Set} (r : A + HostErrno) : bool := match r with inr (HEother Interrupted) => true | _ => false end.
Fixpoint retry_loop {A : Set} (fuel : nat) (e : HostE A) : M H (A + HostErrno) :=
  bind (call e) (fun r =>
    match fuel with
    | S fuel => if interrupted r then retry_loop fuel e else ret r
    | O => ret r
    end).
Definition retried {A : Set} (e : HostE A) : M H (A + HostErrno) := fun w => retry_loop (interrupts (w_host w)) e w.

(** A call whose error ends the request, translated for the guest. *)
Definition syscall {A : Set} (e : HostE A) : M H A :=
  bind (call e) (fun r => match r with inl a => ret a | inr err => fail (io_errno err) end).

Definition retried_syscall {A : Set} (e : HostE A) : M H A :=
  bind (retried e) (fun r => match r with inl a => ret a | inr err => fail (io_errno err) end).

(** A call that cannot fail, or whose failure is ignored. *)
Definition query {A : Set} (e : HostE A) (d : A) : M H A :=
  bind (call e) (fun r => ret (match r with inl a => a | inr _ => d end)).

End Programs.

Notation "x <- m ;; k" := (bind m (fun x => k)) (at level 100, m at next level, right associativity) : fs_scope.
Notation "m ;;; k" := (bind m (fun _ => k)) (at level 100, right associativity) : fs_scope.
