(* ===== verification/FsDirs.v ===== *)
(** * Directory descriptors ([DirCache], [src/devices/virtio/fs/server.rs])

    The cache of descriptors by path, the walk that opens a path component by
    component with the symlinks resolved inside the export, and the helpers that
    make the [*at] calls. *)

From S2P Require Import Prelude FsWire FsHost FsState.
Local Open Scope Z_scope.

Definition set_dc_open v (d : DirCache) := mkDirCache (dc_root d) v (dc_caching d) (dc_scratch d) (dc_lru d) (dc_ticks d) (dc_limit d).
Definition set_dc_scratch v (d : DirCache) := mkDirCache (dc_root d) (dc_open d) (dc_caching d) v (dc_lru d) (dc_ticks d) (dc_limit d).
Definition set_dc_lru v (d : DirCache) := mkDirCache (dc_root d) (dc_open d) (dc_caching d) (dc_scratch d) v (dc_ticks d) (dc_limit d).
Definition set_dc_ticks v (d : DirCache) := mkDirCache (dc_root d) (dc_open d) (dc_caching d) (dc_scratch d) (dc_lru d) v (dc_limit d).

(** ** The cache *)

Definition held (d : DirCache) : Z := Z.of_nat (size (dc_open d)).

(** The entry's stamp is [tick]. *)
Definition lru_live (open : gmap path (Fd * Z)) (e : path * Z) : bool :=
  bool_decide (snd <$> open !! e.1 = Some e.2).

(** The loop that pops a queue up to its first live appearance: what is left of
    the queue, and that appearance. *)
Fixpoint scan_live {A} (live : A -> bool) (queue : list A) : list A * option A :=
  match queue with
  | [] => ([], None)
  | e :: queue => if live e then (queue, Some e) else scan_live live queue
  end.

Definition evict_one (d : DirCache) : bool * DirCache :=
  let '(lru, gone) := scan_live (lru_live (dc_open d)) (dc_lru d) in
  match gone with
  | Some (p, _) => (true, set_dc_open (delete p (dc_open d)) (set_dc_lru lru d))
  | None => (false, set_dc_lru lru d)
  end.

Definition compact_lru (d : DirCache) : DirCache :=
  if (zlen (dc_lru d) <=? 4 * Z.max (held d) 1) then d
  else set_dc_lru (List.filter (lru_live (dc_open d)) (dc_lru d)) d.

Definition touch (relative : path) (d : DirCache) : DirCache :=
  let tick := dc_ticks d + 1 in
  let d := set_dc_ticks tick d in
  let d := match dc_open d !! relative with
  | Some (fd, _) => set_dc_lru (dc_lru d ++ [(relative, tick)]) (set_dc_open (<[relative := (fd, tick)]> (dc_open d)) d)
  | None => d
  end in
  compact_lru d.

(** The loop of [admit]: the fuel is the number of descriptors held, and each
    round closes one or stops. *)
Fixpoint evict_to (fuel : nat) (limit : Z) (d : DirCache) : DirCache :=
  match fuel with
  | O => d
  | S fuel =>
      if limit <=? held d then
        let '(went, d') := evict_one d in
        if (went : bool) then evict_to fuel limit d' else d'
      else d
  end.

Definition admit_dir (relative : path) (fd : Fd) (d : DirCache) : DirCache :=
  let d := evict_to (S (size (dc_open d))) (dc_limit d) d in
  let tick := dc_ticks d + 1 in
  let d := set_dc_ticks tick d in
  let d := set_dc_lru (dc_lru d ++ [(relative, tick)]) d in
  set_dc_open (<[relative := (fd, tick)]> (dc_open d)) d.

Definition forget_dir (relative : path) (d : DirCache) : DirCache := set_dc_open (delete relative (dc_open d)) d.

(** [starts_with]: the path itself and everything beneath it. *)
Definition beneath (prefix p : path) : bool := bool_decide (is_Some (strip_prefix prefix p)).

Definition forget_subtree (relative : path) (d : DirCache) : DirCache :=
  foldr forget_dir d (List.filter (beneath relative) (map fst (map_to_list (dc_open d)))).

Definition release_all (d : DirCache) : DirCache := set_dc_lru [] (set_dc_open ∅ d).

(** ** Calls relative to a descriptor *)

Section Dirs.
Context {H : Type} {HF : HostFs H}.

(** [open_dir_nofollow_at] with a parent. *)
Definition open_dir_nofollow_at (parent : Fd) (n : name) : M H Fd :=
  n <- ok_or (cstring n) EINVAL ;;
  r <- syscall (COpenAt parent n dir_flags 0) ;;
  ret (mkFd r (via parent ++ [n])).

Definition open_entry_nofollow (dirfd : Fd) (n : name) : M H Fd :=
  r <- call (COpenAt dirfd n entry_flags 0) ;;
  match r with
  | inl r => ret (mkFd r (via dirfd ++ [n]))
  | inr HELOOP =>
      r <- syscall (COpenAt dirfd n symlink_flags 0) ;;
      ret (mkFd r (via dirfd ++ [n]))
  | inr err => fail (io_errno err)
  end.

Definition dup_cloexec (fd : Fd) : M H Fd :=
  r <- syscall (CDup fd) ;;
  ret (mkFd r (via fd)).

Definition stat_at (dirfd : Fd) (n : name) : M H Stat := syscall (CFstatAt dirfd n).
Definition stat_of_fd (fd : Fd) : M H Stat := syscall (CFstat fd).
Definition exists_at (dirfd : Fd) (n : name) : M H unit := syscall (CFaccessAt dirfd n).

(** [read_link_at]: the buffer starts at 256 bytes and doubles while the target
    fills it; past 64 KiB the name is too long. Nine sizes are tried. *)
Fixpoint read_link_loop (fuel : nat) (dirfd : Fd) (n : name) (bufsize : Z) : M H (list Z) :=
  target <- syscall (CReadlinkAt dirfd n bufsize) ;;
  if zlen target <? bufsize then ret target
  else
    let bufsize := bufsize * 2 in
    if 64 * 1024 <? bufsize then fail ENAMETOOLONG
    else match fuel with
    | O => panic
    | S fuel => read_link_loop fuel dirfd n bufsize
    end.

Definition read_link_at (dirfd : Fd) (n : name) : M H (list Z) := read_link_loop 9 dirfd n 256.

(** [open_host_file_at]. *)
Definition open_host_file_at (dirfd : Fd) (n : name) (flags : Z) (create : bool) (mode : Z) : M H Fd :=
  fl <- ok_or (host_open_flags flags create) EINVAL ;;
  r <- syscall (COpenAt dirfd n fl (Z.land mode 0xfff)) ;;
  ret (mkFd r (via dirfd ++ [n])).

Definition mkdir_at (dirfd : Fd) (n : name) (mode : Z) : M H unit := syscall (CMkdirAt dirfd n mode).
Definition symlink_at (target : list Z) (dirfd : Fd) (n : name) : M H unit :=
  target <- ok_or (cstring target) EINVAL ;;
  syscall (CSymlinkAt target dirfd n).
Definition unlink_at (dirfd : Fd) (n : name) (directory : bool) : M H unit := syscall (CUnlinkAt dirfd n directory).
Definition chmod_at (dirfd : Fd) (n : name) (mode : Z) : M H unit := syscall (CFchmodAt dirfd n mode).
Definition mkfifo_at (dirfd : Fd) (n : name) (mode : Z) : M H unit := syscall (CMkfifoAt dirfd n (Z.land mode 0xfff)).
Definition host_link (od : Fd) (on : name) (nd : Fd) (nn : name) : M H unit := syscall (CLinkAt od on nd nn).
Definition host_rename (od : Fd) (on : name) (nd : Fd) (nn : name) (flags : Z) : M H unit :=
  syscall (CRenameAt od on nd nn
    (if flags =? 0 then RenamePlain else if has_flag flags RENAME_EXCHANGE then RenameSwap else RenameExcl)).

(** The type byte a listing keeps. *)
Definition known_dtype (t : Z) : Z :=
  if bool_decide (t ∈ [DT_FIFO; DT_CHR; DT_DIR; DT_BLK; DT_REG; DT_LNK; DT_SOCK]) then t else DT_UNKNOWN.

(** [read_dir_at]: the entries but the dot ones, in the host's order. *)
Definition read_dir_at (fd : Fd) : M H (list DirEntryInfo) :=
  l <- syscall (CReaddir fd) ;;
  ret (map (fun e => mkEntry (d_name e) (d_ino e) (known_dtype (d_type e)))
        (List.filter (fun e => negb (bool_decide (d_name e = DOT) || bool_decide (d_name e = DOTDOT))) l)).

(** ** The walk *)

(** [open_resolved]: a chain of names from the root; [None] is the root. *)
Fixpoint open_chain (current : option Fd) (root : Fd) (names : path) : M H (option Fd) :=
  match names with
  | [] => ret current
  | n :: names =>
      fd <- open_dir_nofollow_at (default root current) n ;;
      open_chain (Some fd) root names
  end.
Definition open_resolved (root : Fd) (names : path) : M H (option Fd) := open_chain None root names.

(** What a symlink's target puts in front of the pending names. *)
Definition push_components (cs : list Component) (pending : path) : path :=
  foldr (fun c acc =>
    match c with
    | Normal n => n :: acc
    | ParentDir => DOTDOT :: acc
    | CurDir | RootDir => acc
    end) pending cs.

Definition MAX_EXPANSIONS : nat := 40.

(** The loop of [walk]. [expansions] counts down the symlinks that may still be
    expanded; between two of them [pending] shrinks. *)
Fixpoint walk_from (expansions : nat) (root : Fd) : path -> path -> M H path :=
  fix go (pending resolved : path) {struct pending} : M H path :=
    match pending with
    | [] => ret resolved
    | n :: pending =>
        if bool_decide (n = DOT) then go pending resolved
        else if bool_decide (n = DOTDOT) then go pending (removelast resolved)
        else
          parent <- open_resolved root resolved ;;
          let parent_fd := default root parent in
          r <- attempt (open_dir_nofollow_at parent_fd n) ;;
          match r with
          | inl _ => go pending (resolved ++ [n])
          | inr err =>
              if (err =? ENOTDIR) || (err =? ELOOP) then
                c_name <- ok_or (cstring n) EINVAL ;;
                t <- attempt (read_link_at parent_fd c_name) ;;
                target <- ok_or (match t with inl t => Some t | inr _ => None end) err ;;
                match expansions with
                | O => fail ELOOP
                | S expansions =>
                    let resolved := if is_absolute target then [] else resolved in
                    walk_from expansions root (push_components (components target) pending) resolved
                end
              else fail err
          end
    end.

Definition walk (relative : path) : M H Fd :=
  root <- gets (fun s => dc_root (dirs s)) ;;
  guard (forallb (fun n => match component_of n with Normal _ => true | _ => false end) relative) EINVAL ;;;
  resolved <- walk_from MAX_EXPANSIONS root relative [] ;;
  fd <- open_resolved root resolved ;;
  ok_or fd EINVAL.

Definition mod_dirs (f : DirCache -> DirCache) : M H unit := modify (fun s => set_dirs (f (dirs s)) s).

Definition dir_fd (relative : path) : M H Fd :=
  d <- gets dirs ;;
  if bool_decide (relative = []) then ret (dc_root d)
  else if negb (dc_caching d) then
    fd <- walk relative ;;
    mod_dirs (set_dc_scratch (Some fd)) ;;;
    ret fd
  else
    match dc_open d !! relative with
    | Some _ => mod_dirs (touch relative)
    | None => fd <- walk relative ;; mod_dirs (admit_dir relative fd)
    end ;;;
    e <- gets (fun s => dc_open (dirs s) !! relative) ;;
    e <- expect e ;;
    ret e.1.

Definition dir_fd_owned (relative : path) : M H Fd :=
  fd <- dir_fd relative ;;
  dup_cloexec fd.

Definition root_fd : M H Fd := gets (fun s => dc_root (dirs s)).

(** ** From paths to descriptors *)

Definition relative_of_path (p : path) : M H path :=
  root <- gets f_root ;;
  ok_or (strip_prefix root p) EINVAL.

Definition at_relative (relative : path) : M H (Fd * name) :=
  n <- ok_or (file_name relative) EINVAL ;;
  n <- ok_or (cstring n) EINVAL ;;
  dirfd <- dir_fd (default [] (parent relative)) ;;
  ret (dirfd, n).

Definition at_path (p : path) : M H (Fd * name) :=
  relative <- relative_of_path p ;;
  at_relative relative.

Definition stat_in_export (p : path) : M H Stat :=
  relative <- relative_of_path p ;;
  if bool_decide (relative = []) then fd <- root_fd ;; stat_of_fd fd
  else
    e <- at_relative relative ;;
    stat_at e.1 e.2.

Definition stat_uncached (p : path) : M H Stat :=
  relative <- relative_of_path p ;;
  if bool_decide (relative = []) then fd <- root_fd ;; stat_of_fd fd
  else
    n <- ok_or (file_name relative) EINVAL ;;
    n <- ok_or (cstring n) EINVAL ;;
    match parent relative with
    | Some ((_ :: _) as up) => dirfd <- walk up ;; stat_at dirfd n
    | _ => fd <- root_fd ;; stat_at fd n
    end.

Definition two_entries_at (old new : path) : M H (Fd * name * Fd * name) :=
  old_rel <- relative_of_path old ;;
  new_rel <- relative_of_path new ;;
  old_name <- ok_or (file_name old_rel) EINVAL ;;
  old_name <- ok_or (cstring old_name) EINVAL ;;
  new_name <- ok_or (file_name new_rel) EINVAL ;;
  new_name <- ok_or (cstring new_name) EINVAL ;;
  old_fd <- dir_fd_owned (default [] (parent old_rel)) ;;
  new_fd <- dir_fd_owned (default [] (parent new_rel)) ;;
  ret (old_fd, old_name, new_fd, new_name).

(** Invalidation after a mutation of a path. *)
Definition invalidate_dirs_by_type (p : path) (dir : bool) : M H unit :=
  root <- gets f_root ;;
  match strip_prefix root p with
  | Some relative => mod_dirs (if dir then forget_subtree relative else forget_dir relative)
  | None => ret tt
  end.

End Dirs.
