(* ===== verification/FsNodes.v ===== *)
(** * Nodes, handles and parked descriptors ([src/devices/virtio/fs/server.rs])

    The table of inodes the guest has looked up, with its counts of lookups and
    of open handles; the handles; the descriptors kept after a close; and the
    listings read with handle 0. Steps that only change the session are pure
    functions; those that ask the host are programs. *)

From S2P Require Import Prelude FsWire FsHost FsState FsDirs.
Local Open Scope Z_scope.

Definition set_n_paths v (n : Node) := mkNode (n_key n) v (n_lookups n) (n_open_handles n) (n_guest_attr n).
Definition set_n_lookups v (n : Node) := mkNode (n_key n) (n_paths n) v (n_open_handles n) (n_guest_attr n).
Definition set_n_open_handles v (n : Node) := mkNode (n_key n) (n_paths n) (n_lookups n) v (n_guest_attr n).
Definition set_n_guest_attr v (n : Node) := mkNode (n_key n) (n_paths n) (n_lookups n) (n_open_handles n) v.

(** ** Parked descriptors *)

Definition parked_flag_key (flags : Z) : Z := Z.land flags (Z.lor LINUX_O_ACCMODE LINUX_O_APPEND).

Definition drop_parked (node : Z) (s : Fs) : Fs := set_parked (delete node (parked s)) s.

(** The stamp of [e] is that of the node's parked descriptor. *)
Definition parked_live (p : gmap Z ParkedFd) (e : Z * Z) : bool :=
  bool_decide (pk_tick <$> p !! e.1 = Some e.2).

Definition evict_one_parked (s : Fs) : bool * Fs :=
  let '(order, gone) := scan_live (parked_live (parked s)) (parked_order s) in
  match gone with
  | Some (node, _) => (true, set_parked (delete node (parked s)) (set_parked_order order s))
  | None => (false, set_parked_order order s)
  end.

Definition compact_parked_order (s : Fs) : Fs :=
  if zlen (parked_order s) <=? 4 * Z.max (Z.of_nat (size (parked s))) 1 then s
  else set_parked_order (List.filter (parked_live (parked s)) (parked_order s)) s.

(** The loop of [park_descriptor]: [false] when there is nothing left to evict. *)
Fixpoint make_room_parked (fuel : nat) (s : Fs) : bool * Fs :=
  match fuel with
  | O => (true, s)
  | S fuel =>
      if parked_limit s <=? Z.of_nat (size (parked s)) then
        let '(went, s') := evict_one_parked s in
        if (went : bool) then make_room_parked fuel s' else (false, s')
      else (true, s)
  end.

Definition is_orphan (node : Z) (s : Fs) : bool :=
  match nodes s !! node with Some n => bool_decide (n_paths n = []) | None => false end.

Definition park_descriptor (node flags : Z) (attrs : HandleAttrs) (file : Fd) (s : Fs) : Fs :=
  if bool_decide (nodes s !! node = None) || is_orphan node s then s
  else
    let s := drop_parked node s in
    if parked_limit s =? 0 then s
    else
      let '(room, s) := make_room_parked (S (size (parked s))) s in
      if negb room then s
      else
        let tick := parked_ticks s + 1 in
        let s := set_parked_ticks tick s in
        let s := set_parked (<[node := mkParked file (parked_flag_key flags) attrs tick]> (parked s)) s in
        let s := set_parked_order (parked_order s ++ [(node, tick)]) s in
        compact_parked_order s.

Definition drain_parked (s : Fs) : Fs := set_parked_order [] (set_parked ∅ s).

(** ** Listings of handle 0 *)

(** [position(..)] and [VecDeque::remove]. *)
Fixpoint remove_at {A} (i : nat) (l : list A) : list A :=
  match l, i with
  | [], _ => []
  | _ :: l, O => l
  | x :: l, S i => x :: remove_at i l
  end.
Fixpoint position {A} (f : A -> bool) (l : list A) : option nat :=
  match l with
  | [] => None
  | x :: l => if f x then Some O else S <$> position f l
  end.
Definition remove_first {A} (f : A -> bool) (l : list A) : list A :=
  match position f l with Some i => remove_at i l | None => l end.

Definition drop_fh0_listing (node : Z) (s : Fs) : Fs :=
  if bool_decide (is_Some (fh0_listings s !! node)) then
    let s := set_fh0_listings (delete node (fh0_listings s)) s in
    let s := set_fh0_order (remove_first (Z.eqb node) (fh0_order s)) s in
    set_fh0_finished (fh0_finished s ∖ {[node]}) s
  else s.

(** One round of [make_room_for_fh0_listing], for a queue that is not empty. *)
Definition evict_fh0 (s : Fs) : Fs :=
  let pos := default O (position (fun n => bool_decide (n ∈ fh0_finished s)) (fh0_order s)) in
  match fh0_order s !! pos with
  | Some node =>
      let s := set_fh0_order (remove_at pos (fh0_order s)) s in
      let s := set_fh0_listings (delete node (fh0_listings s)) s in
      set_fh0_finished (fh0_finished s ∖ {[node]}) s
  | None => s
  end.

Fixpoint make_room_fh0 (fuel : nat) (s : Fs) : Fs :=
  match fuel with
  | O => s
  | S fuel => if (FH0_LISTINGS_MAX <=? length (fh0_order s))%nat then make_room_fh0 fuel (evict_fh0 s) else s
  end.
Definition make_room_for_fh0_listing (s : Fs) : Fs := make_room_fh0 (length (fh0_order s)) s.

(** ** The node table *)

Definition upd_node (node : Z) (f : Node -> Node) (s : Fs) : Fs := set_nodes (alter f node (nodes s)) s.

Definition remember_lookup (node : Z) (s : Fs) : Fs :=
  upd_node node (fun n => set_n_lookups (sat_succ (n_lookups n)) n) s.
Definition hold_node (node : Z) (s : Fs) : Fs :=
  upd_node node (fun n => set_n_open_handles (sat_succ (n_open_handles n)) n) s.
Definition invalidate_guest_attr (node : Z) (s : Fs) : Fs := upd_node node (set_n_guest_attr None) s.

(** Removes a node, and its inode key while the key still names it. *)
Definition remove_node (node : Z) (key : Z * Z) (s : Fs) : Fs :=
  let s := set_nodes (delete node (nodes s)) s in
  if bool_decide (inode_ids s !! key = Some node) then set_inode_ids (delete key (inode_ids s)) s else s.

Definition forget_count (node count : Z) (s : Fs) : Fs :=
  if node =? FUSE_ROOT_ID then s
  else match nodes s !! node with
  | None => s
  | Some n =>
      let lookups := saturating_sub (n_lookups n) count in
      let s := upd_node node (set_n_lookups lookups) s in
      if negb (lookups =? 0) then s
      else if negb (n_open_handles n =? 0) then s
      else drop_fh0_listing node (drop_parked node (remove_node node (n_key n) s))
  end.

Definition forget (node : Z) (input : list Z) (s : Fs) : Fs := forget_count node (default 0 (get_u64 input 0)) s.

(** The pairs of a BATCH_FORGET, while they fit the payload. *)
Fixpoint batch_forget_loop (k : nat) (index : Z) (input : list Z) (s : Fs) : Fs :=
  match k with
  | O => s
  | S k =>
      let offset := 8 + index * 16 in
      match get_u64 input offset, get_u64 input (offset + 8) with
      | Some node, Some lookups => batch_forget_loop k (index + 1) input (forget_count node lookups s)
      | _, _ => s
      end
  end.
(** The count is the guest's; the loop leaves at the first pair past the payload,
    so the payload's length bounds it as well. *)
Definition batch_forget (input : list Z) (s : Fs) : Fs :=
  let count := default 0 (get_u32 input 0) in
  batch_forget_loop (Z.to_nat (Z.min count (zlen input))) 0 input s.

Definition release_node (node : Z) (s : Fs) : Fs :=
  match nodes s !! node with
  | None => s
  | Some n =>
      let held := saturating_sub (n_open_handles n) 1 in
      let s := upd_node node (set_n_open_handles held) s in
      if negb (held =? 0) || negb (n_lookups n =? 0) || (node =? FUSE_ROOT_ID) then s
      else remove_node node (n_key n) s
  end.

Definition forget_node_path (p : path) (m : Stat) (s : Fs) : Fs :=
  let key := stat_key m in
  match inode_ids s !! key with
  | None => s
  | Some id =>
      let s := drop_parked id s in
      let s := upd_node id (fun n => set_n_paths (List.filter (fun q => negb (bool_decide (q = p))) (n_paths n)) n) s in
      let empty := match nodes s !! id with Some n => bool_decide (n_paths n = []) | None => false end in
      if empty && negb (id =? FUSE_ROOT_ID) then
        let s := set_inode_ids (delete key (inode_ids s)) s in
        let s := drop_fh0_listing id s in
        let held := match nodes s !! id with
          | Some n => (0 <? n_lookups n) || (0 <? n_open_handles n) | None => false end in
        if held then s else set_nodes (delete id (nodes s)) s
      else s
  end.

(** A new node for an inode the table does not know. *)
Definition new_node (key : Z * Z) (p : path) (s : Fs) : Z * Fs :=
  let node := next_node s in
  let s := set_next_node (sat_succ node) s in
  let s := set_nodes (<[node := mkNode key [p] 0 0 None]> (nodes s)) s in
  (node, set_inode_ids (<[key := node]> (inode_ids s)) s).

(** [socket_node_id]. *)
Definition socket_node_id (p : path) (ino : Z) (s : Fs) : Z * Fs :=
  match inode_ids s !! (SOCKET_DEV, ino) with
  | Some node => (node, s)
  | None => new_node (SOCKET_DEV, ino) p s
  end.

Definition socket_at (node : Z) (s : Fs) : option (path * SocketNode) :=
  n ← nodes s !! node;
  if negb (fst (n_key n) =? SOCKET_DEV) then None
  else
    p ← head (n_paths n);
    sock ← sockets s !! p;
    Some (p, sock).

(** The alias of [node_for]: the name at [stale] makes room when there is one. *)
Definition add_alias (node : Z) (p : path) (stale : option nat) (s : Fs) : Fs :=
  match nodes s !! node with
  | Some n =>
      if bool_decide (p ∈ n_paths n) then s
      else
        let paths := match stale with Some i => remove_at i (n_paths n) | None => n_paths n end in
        upd_node node (fun n => set_n_guest_attr None (set_n_paths (paths ++ [p]) n)) s
  | None => s
  end.

(** A new path moves the part below [old]. *)
Definition rewrite_path (old new p : path) : path :=
  match strip_prefix old p with Some suffix => new ++ suffix | None => p end.
Definition rewrite_node_paths (old new : path) (s : Fs) : Fs :=
  set_nodes ((fun n => set_n_paths (map (rewrite_path old new) (n_paths n)) n) <$> nodes s) s.

Definition exchange_path (left right p : path) : path :=
  match strip_prefix left p with
  | Some suffix => right ++ suffix
  | None => match strip_prefix right p with Some suffix => left ++ suffix | None => p end
  end.
Definition exchange_node_paths (left right : path) (s : Fs) : Fs :=
  set_nodes ((fun n => set_n_paths (map (exchange_path left right) (n_paths n)) n) <$> nodes s) s.

Definition rewrite_renamed_paths (old new : path) (old_meta : Stat) (s : Fs) : Fs :=
  if is_dir old_meta then rewrite_node_paths old new s
  else match inode_ids s !! stat_key old_meta with
  | Some id =>
      match nodes s !! id with
      | Some _ => upd_node id (fun n => set_n_paths (map (fun p => if bool_decide (p = old) then new else p) (n_paths n)) n) s
      | None => rewrite_node_paths old new s
      end
  | None => rewrite_node_paths old new s
  end.

(** ** Handles *)

Definition next_handle (s : Fs) : Z * Fs := (next_fh s, set_next_fh (Z.max (sat_succ (next_fh s)) 1) s).
Definition open_handle_count (s : Fs) : Z := Z.of_nat (size (handles s)) + Z.of_nat (size (dir_handles s)).
Definition descriptors_held (s : Fs) : Z := open_handle_count s + Z.of_nat (size (parked s)) + held (dirs s).
Definition note_handle_peak (s : Fs) : Fs := set_peak_handles (Z.max (peak_handles s) (open_handle_count s)) s.

Definition insert_handle (file : Fd) (writable : bool) (open_flags : Z) (attrs : HandleAttrs) (p : path) (node : Z)
    (s : Fs) : Z * Fs :=
  let '(fh, s) := next_handle s in
  let s := set_handles (<[fh := mkHandle file writable open_flags attrs p None node false]> (handles s)) s in
  (fh, note_handle_peak (hold_node node s)).

(** [handle_of_node]: a writable handle of the node when there is one, else any.
    The order of the table stands for the hash map's. *)
Definition handle_of_node (node : Z) (s : Fs) : option (Z * FileHandle) :=
  let l := List.filter (fun e : Z * FileHandle => h_node e.2 =? node) (map_to_list (handles s)) in
  match List.find (fun e => h_writable e.2) l with
  | Some e => Some e
  | None => head l
  end.

Definition note_posix_lock (fh : Z) (c : LockCall) (s : Fs) : Fs :=
  match c with
  | LPosix _ =>
      set_handles (alter (fun h => mkHandle (h_file h) (h_writable h) (h_open_flags h) (h_attrs h) (h_path h)
                                     (h_temporary h) (h_node h) true) fh (handles s)) s
  | LFlock _ => s
  end.

(** ** Cache validity *)

Definition cache_seconds (s : Fs) : Z :=
  if bool_decide (f_cache s = CacheNone) then 0
  else if negb (f_writable s) then READ_ONLY_CACHE_SECS else WRITABLE_CACHE_SECS.
Definition negative_cache_seconds (s : Fs) : Z := Z.min (cache_seconds s) NEGATIVE_CACHE_SECS.

Definition may_reuse_descriptor (flags open_flags : Z) (s : Fs) : bool :=
  negb (bool_decide (f_cache s = CacheNone)) && negb (has_flag flags LINUX_O_TRUNC)
  && negb (has_flag open_flags FUSE_OPEN_KILL_SUIDGID).

Section Nodes.
Context {H : Type} {HF : HostFs H}.

(** ** Programs on nodes *)

(** The first path of [l] that satisfies a test of the host. *)
Fixpoint find_path (test : path -> M H bool) (l : list path) : M H (option path) :=
  match l with
  | [] => ret None
  | p :: l => b <- test p ;; if (b : bool) then ret (Some p) else find_path test l
  end.
Fixpoint position_path (test : path -> M H bool) (l : list path) (i : nat) : M H (option nat) :=
  match l with
  | [] => ret None
  | p :: l => b <- test p ;; if (b : bool) then ret (Some i) else position_path test l (S i)
  end.

Definition leads_to (key : Z * Z) (p : path) : M H bool :=
  r <- attempt (stat_uncached p) ;;
  ret (match r with inl m => bool_decide (stat_key m = key) | inr _ => false end).

Definition node_path (node : Z) : M H path :=
  n <- gets (fun s => nodes s !! node) ;;
  n <- ok_or n ENOENT ;;
  match n_paths n with
  | [only] => ret only
  | paths =>
      p <- find_path (leads_to (n_key n)) paths ;;
      ok_or p ENOENT
  end.

Definition relative_of (node : Z) : M H path :=
  p <- node_path node ;;
  relative_of_path p.

Definition entry_at (node : Z) : M H (Fd * name) :=
  relative <- relative_of node ;;
  at_relative relative.

(** The name of a crowded node to drop: the first that leads elsewhere, else the oldest. *)
Definition stale_alias (node : Z) (key : Z * Z) (p : path) : M H (option nat) :=
  n <- gets (fun s => nodes s !! node) ;;
  match n with
  | Some n =>
      if negb (bool_decide (p ∈ n_paths n)) && (MAX_NODE_ALIASES <=? length (n_paths n))%nat then
        i <- position_path (fun q => b <- leads_to key q ;; ret (negb b)) (n_paths n) 0 ;;
        ret (Some (default O i))
      else ret None
  | None => ret None
  end.

Definition node_for (p : path) (m : Stat) : M H Z :=
  let key := stat_key m in
  id <- gets (fun s => inode_ids s !! key) ;;
  match id with
  | Some node =>
      stale <- stale_alias node key p ;;
      modify (add_alias node p stale) ;;;
      ret node
  | None => update (new_node key p)
  end.

(** [open_entry_at]: the entry of a node, for its attributes. *)
Definition open_entry_at (node : Z) : M H Fd :=
  orphan <- gets (is_orphan node) ;;
  if (orphan : bool) then
    e <- gets (handle_of_node node) ;;
    e <- ok_or e ENOENT ;;
    dup_cloexec (h_file e.2)
  else
    relative <- relative_of node ;;
    if bool_decide (relative = []) then fd <- root_fd ;; dup_cloexec fd
    else
      e <- entry_at node ;;
      open_entry_nofollow e.1 e.2.

(** ** Guest attributes *)

Definition fd_getxattr (fd : Fd) (n : name) : M H (list Z) :=
  guard (xattr_name n) EINVAL ;;;
  needed <- syscall (CGetxattrLen fd n) ;;
  value <- syscall (CGetxattr fd n needed) ;;
  ret (take (Z.to_nat needed) value).

Definition fd_setxattr (fd : Fd) (n value : list Z) (flags : Z) : M H unit :=
  guard (xattr_name n) EINVAL ;;;
  let create := has_flag flags LINUX_XATTR_CREATE in
  syscall (CSetxattr fd n value create (negb create && has_flag flags LINUX_XATTR_REPLACE)).

Definition fd_listxattr (fd : Fd) : M H (list Z) :=
  needed <- syscall (CListxattrLen fd) ;;
  names <- syscall (CListxattr fd needed) ;;
  ret (take (Z.to_nat needed) names).

Definition fd_removexattr (fd : Fd) (n : name) : M H unit :=
  guard (xattr_name n) EINVAL ;;;
  syscall (CRemovexattr fd n).

Definition set_guest_attr (fd : Fd) (g : GuestAttr) : M H unit :=
  fd_setxattr fd HVI_XATTR_LINUX_ATTR (encode_guest_attr g) 0.

(** One read into a buffer of the record's length. *)
Definition stored_guest_attr (fd : Fd) : M H (option GuestAttr) :=
  r <- call (CGetxattr fd HVI_XATTR_LINUX_ATTR GUEST_ATTR_LEN) ;;
  ret (match r with inl v => decode_guest_attr v | inr _ => None end).

Definition host_uid_to_guest (id : Z) : M H Z :=
  ids <- gets f_ids ;; e <- query CGeteuid 0 ;; ret (if id =? e then ids_uid ids else id).
Definition host_gid_to_guest (id : Z) : M H Z :=
  ids <- gets f_ids ;; e <- query CGetegid 0 ;; ret (if id =? e then ids_gid ids else id).

(** The attributes shown to the guest: the stored ones with the file's type, or
    the host's with the owner mapped. *)
Definition shown_attr (stored : option GuestAttr) (m : Stat) : M H GuestAttr :=
  match stored with
  | Some g => ret (mkGuestAttr (Z.lor (Z.land (mode m) S_IFMT) (Z.land (ga_mode g) 0xfff)) (ga_uid g) (ga_gid g))
  | None =>
      u <- host_uid_to_guest (uid m) ;;
      g <- host_gid_to_guest (gid m) ;;
      ret (mkGuestAttr (mode m) u g)
  end.

(** The free function [guest_attr], given a descriptor. *)
Definition guest_attr_of_fd (fd : Fd) (m : Stat) : M H GuestAttr :=
  stored <- stored_guest_attr fd ;;
  shown_attr stored m.

(** The method [guest_attr]: cached on the node. *)
Definition guest_attr (node : Z) (m : Stat) : M H GuestAttr :=
  cached <- gets (fun s => n ← nodes s !! node; n_guest_attr n) ;;
  stored <- match cached with
    | Some c => ret c
    | None =>
        r <- attempt (open_entry_at node) ;;
        stored <- match r with inl fd => stored_guest_attr fd | inr _ => ret None end ;;
        modify (upd_node node (set_n_guest_attr (Some stored))) ;;;
        ret stored
    end ;;
  shown_attr stored m.

Definition self_attr_out (node : Z) (m : Stat) : M H (list Z) :=
  secs <- gets cache_seconds ;;
  g <- guest_attr node m ;;
  ret (attr_out node m secs g).

Definition self_entry_out (node : Z) (m : Stat) : M H (list Z) :=
  secs <- gets cache_seconds ;;
  g <- guest_attr node m ;;
  ret (entry_out node m secs g).

(** [initialize_guest_metadata] and [clear_suid_sgid]. *)
Definition initialize_guest_metadata (dirfd : Fd) (n : name) (fmode : Z) (c : RequestContext) : M H unit :=
  m <- stat_at dirfd n ;;
  fd <- open_entry_nofollow dirfd n ;;
  (if negb (is_symlink m) then chmod_at dirfd n (host_creation_mode fmode (is_dir m)) else ret tt) ;;;
  set_guest_attr fd (mkGuestAttr (Z.lor (Z.land (mode m) S_IFMT) (Z.land fmode 0xfff)) (rc_uid c) (rc_gid c)).

Definition clear_suid_sgid (file : Fd) : M H unit :=
  m <- stat_of_fd file ;;
  g <- guest_attr_of_fd file m ;;
  if has_flag (ga_mode g) 0xc00 then
    set_guest_attr file (mkGuestAttr (Z.land (ga_mode g) (Z.lnot 0xc00)) (ga_uid g) (ga_gid g))
  else ret tt.

(** ** Parked descriptors, taken back *)
Definition take_parked (node flags : Z) : M H (option (Fd * HandleAttrs)) :=
  p <- gets (fun s => parked s !! node) ;;
  if negb (bool_decide (pk_flags <$> p = Some (parked_flag_key flags))) then ret None
  else
    r <- attempt (e <- entry_at node ;; stat_at e.1 e.2) ;;
    match r with
    | inr _ => modify (drop_parked node) ;;; ret None
    | inl m =>
        p <- gets (fun s => parked s !! node) ;;
        match p with
        | None => ret None
        | Some p =>
            modify (drop_parked node) ;;;
            ret (if bool_decide (attrs_of m = pk_attrs p) then Some (pk_file p, pk_attrs p) else None)
        end
    end.

Definition require_writable : M H unit :=
  w <- gets f_writable ;;
  if (w : bool) then modify (set_dirty true) else fail EROFS.

Definition child_path (node : Z) (n : name) : M H path :=
  guard (validate_mutation_name n) EINVAL ;;;
  p <- node_path node ;;
  ret (join p n).

Definition new_entry (p : path) : M H (list Z) :=
  m <- stat_in_export p ;;
  node <- node_for p m ;;
  modify (remember_lookup node) ;;;
  self_entry_out node m.

(** [sync_file]: data alone when the guest asks for it. *)
Definition sync_file (fd : Fd) (flags : Z) : M H unit := syscall (CFsync fd (has_flag flags FUSE_FSYNC_FDATASYNC)).

(** Every readahead listing, and the prepared stats of the open listings. *)
Definition clear_prepared (l : Fh0Listing) : Fh0Listing := mkFh0 (l_entries l) [] None.
Definition drop_prepared : M H unit :=
  query CReadaheadInvalidate tt ;;;
  modify (fun s => set_fh0_listings (clear_prepared <$> fh0_listings s) s).

Definition remove_temporary (h : FileHandle) : M H unit :=
  match h_temporary h with
  | None => ret tt
  | Some p =>
      relative <- relative_of_path p ;;
      r <- attempt (at_relative relative) ;;
      match r with
      | inl e =>
          r <- attempt (unlink_at e.1 e.2 false) ;;
          match r with
          | inr err => if err =? ENOENT then ret tt else fail err
          | inl _ => ret tt
          end
      | inr err => if (err =? ENOENT) || (err =? ENOTDIR) then ret tt else fail err
      end
  end.

End Nodes.
