(* ===== verification/FsOps.v ===== *)
(** * Requests on names and attributes ([src/devices/virtio/fs/server.rs])

    One program per handler, from LOOKUP to REMOVEXATTR, each on the payload of
    its request. A reply is the payload of the answer. *)

From S2P Require Import Prelude Queue FsWire FsHost FsState FsDirs FsNodes.
Local Open Scope Z_scope.

(** ** INIT *)

(** [LockWaiter::cap]: a quarter of the ring. *)
Definition lock_cap (size : Z) : Z := size / 4.

Definition FUSE_HEADER_OVERHEAD : Z := 4.

(** The smallest programmed ring, 0 when there is none. *)
Definition init_ring (queues : list Queue) : Z :=
  match List.filter (fun n => negb (n =? 0)) (map Queue.size queues) with
  | [] => 0
  | n :: l => foldr Z.min n l
  end.

Definition init_max_pages (queues : list Queue) : Z :=
  let ring := init_ring queues in
  if ring =? 0 then MAX_WRITE / 4096
  else
    let beside_waiters := Z.max (saturating_sub (saturating_sub ring (lock_cap ring)) FUSE_HEADER_OVERHEAD) 1 in
    Z.min (MAX_WRITE / 4096) beside_waiters.

(** ASYNC_READ, POSIX_LOCKS, ATOMIC_O_TRUNC, EXPORT_SUPPORT, BIG_WRITES,
    FLOCK_LOCKS, AUTO_INVAL_DATA, DO_READDIRPLUS, READDIRPLUS_AUTO, MAX_PAGES,
    HANDLE_KILLPRIV_V2, SETXATTR_EXT, PARALLEL_DIROPS. *)
Definition init_base_bits : list Z := [0; 1; 3; 4; 5; 10; 12; 13; 14; 22; 28; 29; 18].
Definition CACHE_SYMLINKS : Z := Z.shiftl 1 23.
Definition WRITEBACK_CACHE : Z := Z.shiftl 1 16.

Definition init_supported (s : Fs) : Z :=
  let base := foldr (fun b acc => Z.lor (Z.shiftl 1 b) acc) 0 init_base_bits in
  let base := if negb (f_writable s) || negb (bool_decide (f_cache s = CacheNone)) then Z.lor base CACHE_SYMLINKS else base in
  if f_writable s && bool_decide (f_cache s = CacheAlways) then Z.lor base WRITEBACK_CACHE else base.

Section Ops.
Context {H : Type} {HF : HostFs H}.

Definition init (queues : list Queue) (input : list Z) : M H (list Z) :=
  major <- ok_or (get_u32 input 0) EINVAL ;;
  minor <- ok_or (get_u32 input 4) EINVAL ;;
  let readahead := default 0 (get_u32 input 8) in
  let guest_flags := default 0 (get_u32 input 12) in
  if negb (major =? 7) then ret (put_u32 7 ++ put_u32 39)
  else
    supported <- gets init_supported ;;
    let max_pages := init_max_pages queues in
    let out := put_u32 7 ++ put_u32 (Z.min minor 39) ++ put_u32 readahead ++ put_u32 (Z.land guest_flags supported)
      ++ put_u16 64 ++ put_u16 48 ++ put_u32 (max_pages * 4096) ++ put_u32 1
      ++ put_u16 max_pages ++ put_u16 0 ++ put_u32 0 in
    ret (out ++ zeros (64 - length out)).

(** ** Lookups and attributes *)

Definition lookup_path (node : Z) (n : name) : M H path :=
  parent_path <- node_path node ;;
  root <- gets f_root ;;
  ret (if bool_decide (n = DOT) then parent_path
       else if bool_decide (n = DOTDOT) then
         if bool_decide (parent_path = root) then root else default root (parent parent_path)
       else join parent_path n).

Definition lookup_op (node : Z) (input : list Z) : M H (list Z) :=
  end_ <- ok_or (nul_position input) EINVAL ;;
  let n := take end_ input in
  guard (negb (bool_decide (n = []) || bool_decide (SLASH ∈ n))) EINVAL ;;;
  p <- lookup_path node n ;;
  sock <- gets (fun s => sockets s !! p) ;;
  match sock with
  | Some socket =>
      id <- update (socket_node_id p (s_ino socket)) ;;
      modify (remember_lookup id) ;;;
      ret (socket_entry_out id socket)
  | None =>
      r <- attempt (stat_in_export p) ;;
      match r with
      | inl m =>
          id <- node_for p m ;;
          modify (remember_lookup id) ;;;
          self_entry_out id m
      | inr err =>
          negative <- gets negative_cache_seconds ;;
          if (err =? ENOENT) && (0 <? negative) then ret (negative_entry_out negative) else fail err
      end
  end.

Definition get_handle (fh : Z) : M H FileHandle :=
  h <- gets (fun s => handles s !! fh) ;;
  ok_or h EBADF.

(** What a handle of an orphan reports. *)
Definition stat_by_handle (node : Z) : M H Stat :=
  e <- gets (handle_of_node node) ;;
  e <- ok_or e ENOENT ;;
  stat_of_fd (h_file e.2).

Definition getattr (node : Z) (input : list Z) : M H (list Z) :=
  sock <- gets (socket_at node) ;;
  match sock with
  | Some (_, socket) => ret (socket_attr_out node socket)
  | None =>
      let flags := default 0 (get_u32 input 0) in
      let fh := default 0 (get_u64 input 8) in
      orphan <- gets (is_orphan node) ;;
      m <- (if has_flag flags FUSE_GETATTR_FH then h <- get_handle fh ;; stat_of_fd (h_file h)
            else if (orphan : bool) then stat_by_handle node
            else
              p <- node_path node ;;
              r <- attempt (stat_in_export p) ;;
              match r with
              | inl m => ret m
              | inr err => if err =? ENOENT then stat_by_handle node else fail err
              end) ;;
      self_attr_out node m
  end.

(** The attributes of a socket are the device's own. *)
Definition setattr_socket (node valid : Z) (input : list Z) (p : path) (socket : SocketNode) : M H (list Z) :=
  m <- (if has_flag valid FATTR_MODE then
          v <- ok_or (get_u32 input 68) EINVAL ;; ret (Z.lor S_IFSOCK (Z.land v 0xfff))
        else ret (s_mode socket)) ;;
  u <- (if has_flag valid FATTR_UID then ok_or (get_u32 input 76) EINVAL else ret (s_uid socket)) ;;
  g <- (if has_flag valid FATTR_GID then ok_or (get_u32 input 80) EINVAL else ret (s_gid socket)) ;;
  t <- (if has_flag valid (Z.lor FATTR_MTIME_NOW FATTR_ATIME_NOW) then query CNow (0, 0)
        else if has_flag valid FATTR_MTIME then
          sec <- ok_or (get_u64 input 40) EINVAL ;; nsec <- ok_or (get_u32 input 60) EINVAL ;; ret (sec, nsec)
        else if has_flag valid FATTR_ATIME then
          sec <- ok_or (get_u64 input 32) EINVAL ;; nsec <- ok_or (get_u32 input 56) EINVAL ;; ret (sec, nsec)
        else ret (s_time socket)) ;;
  let socket := mkSocketNode m u g (s_ino socket) t in
  modify (fun s => set_sockets (<[p := socket]> (sockets s)) s) ;;;
  ret (socket_attr_out node socket).

Definition FATTR_KNOWN : Z := 0xfff.

(** What a SETATTR works on: an open handle, or an entry of a directory with a
    descriptor for its attributes. *)
Inductive SetattrTarget := ByHandle (h : FileHandle) | ByEntry (p : path) (dirfd : Fd) (n : list Z) (meta_fd : Fd).

Definition target_meta_fd (t : SetattrTarget) : Fd :=
  match t with ByHandle h => h_file h | ByEntry _ _ _ fd => fd end.
Definition target_stat (t : SetattrTarget) : M H Stat :=
  match t with ByHandle h => stat_of_fd (h_file h) | ByEntry _ d n _ => stat_at d n end.

Definition setattr_target (node valid fh : Z) : M H SetattrTarget :=
  if has_flag valid FATTR_FH then h <- get_handle fh ;; ret (ByHandle h)
  else
    p <- node_path node ;;
    relative <- relative_of_path p ;;
    n <- ok_or (file_name relative) EINVAL ;;
    n <- ok_or (cstring n) EINVAL ;;
    d <- dir_fd_owned (default [] (parent relative)) ;;
    fd <- open_entry_nofollow d n ;;
    ret (ByEntry p d n fd).

Definition setattr_size (t : SetattrTarget) (size : Z) : M H unit :=
  match t with
  | ByHandle h => guard (h_writable h) EBADF ;;; syscall (CFtruncate (h_file h) size)
  | ByEntry _ d n _ =>
      file <- open_host_file_at d n LINUX_O_WRONLY false 0 ;;
      syscall (CFtruncate file size)
  end.

Definition setattr_owner (t : SetattrTarget) (valid u g : Z) : M H unit :=
  m <- target_stat t ;;
  ga <- guest_attr_of_fd (target_meta_fd t) m ;;
  set_guest_attr (target_meta_fd t)
    (mkGuestAttr (ga_mode ga) (if has_flag valid FATTR_UID then u else ga_uid ga)
      (if has_flag valid FATTR_GID then g else ga_gid ga)).

Definition setattr_mode (t : SetattrTarget) (valid fmode : Z) : M H unit :=
  m <- target_stat t ;;
  new_mode <- (if has_flag valid FATTR_MODE then ret (Z.land fmode 0xfff)
               else ga <- guest_attr_of_fd (target_meta_fd t) m ;; ret (Z.land (ga_mode ga) 0xfff)) ;;
  let new_mode := if has_flag valid FATTR_KILL_SUIDGID then Z.land new_mode (Z.lnot 0xc00) else new_mode in
  (if negb (is_symlink m) then
     let host_mode := Z.lor (host_creation_mode new_mode (is_dir m)) (Z.land (mode m) 0xc00) in
     match t with
     | ByHandle h => syscall (CFchmod (h_file h) host_mode)
     | ByEntry _ d n _ => chmod_at d n host_mode
     end
   else ret tt) ;;;
  ga <- guest_attr_of_fd (target_meta_fd t) m ;;
  set_guest_attr (target_meta_fd t) (mkGuestAttr (Z.lor (Z.land (mode m) S_IFMT) new_mode) (ga_uid ga) (ga_gid ga)).

Definition setattr (node : Z) (input : list Z) : M H (list Z) :=
  require_writable ;;;
  valid <- ok_or (get_u32 input 0) EINVAL ;;
  sock <- gets (socket_at node) ;;
  match sock with
  | Some (p, socket) => setattr_socket node valid input p socket
  | None =>
      fh <- ok_or (get_u64 input 8) EINVAL ;;
      orphan <- gets (is_orphan node) ;;
      vf <- (if negb (has_flag valid FATTR_FH) && (orphan : bool) then
               e <- gets (handle_of_node node) ;;
               e <- ok_or e ENOENT ;;
               ret (Z.lor valid FATTR_FH, e.1)
             else ret (valid, fh)) ;;
      let '(valid, fh) := vf in
      size <- ok_or (get_u64 input 16) EINVAL ;;
      atime <- ok_or (get_u64 input 32) EINVAL ;;
      mtime <- ok_or (get_u64 input 40) EINVAL ;;
      atime_nsec <- ok_or (get_u32 input 56) EINVAL ;;
      mtime_nsec <- ok_or (get_u32 input 60) EINVAL ;;
      fmode <- ok_or (get_u32 input 68) EINVAL ;;
      u <- ok_or (get_u32 input 76) EINVAL ;;
      g <- ok_or (get_u32 input 80) EINVAL ;;
      guard (Z.land valid (Z.lnot FATTR_KNOWN) =? 0) EINVAL ;;;
      t <- setattr_target node valid fh ;;
      (if has_flag valid FATTR_SIZE then setattr_size t size else ret tt) ;;;
      (if has_flag valid (Z.lor FATTR_UID FATTR_GID) then setattr_owner t valid u g else ret tt) ;;;
      (if has_flag valid (Z.lor FATTR_MODE FATTR_KILL_SUIDGID) then setattr_mode t valid fmode else ret tt) ;;;
      (if has_flag valid (Z.lor (Z.lor FATTR_ATIME FATTR_MTIME) (Z.lor FATTR_ATIME_NOW FATTR_MTIME_NOW)) then
         times <- ok_or (fuse_times valid atime atime_nsec mtime mtime_nsec) EINVAL ;;
         match t with
         | ByHandle h => syscall (CFutimens (h_file h) times)
         | ByEntry _ d n _ => syscall (CUtimensAt d n times)
         end
       else ret tt) ;;;
      m <- target_stat t ;;
      modify (invalidate_guest_attr node) ;;;
      self_attr_out node m
  end.

(** ** Creation *)

Definition create_socket (p : path) (fmode : Z) (c : RequestContext) : M H (list Z) :=
  e <- at_path p ;;
  r <- attempt (exists_at e.1 e.2) ;;
  known <- gets (fun s => bool_decide (is_Some (sockets s !! p))) ;;
  guard (negb (match r with inl _ => true | inr _ => false end || known)) EEXIST ;;;
  ino <- update (fun s => (next_socket_ino s, set_next_socket_ino (sat_succ (next_socket_ino s)) s)) ;;
  t <- query CNow (0, 0) ;;
  let socket := mkSocketNode (Z.lor S_IFSOCK (Z.land fmode 0xfff)) (rc_uid c) (rc_gid c) ino t in
  modify (fun s => set_sockets (<[p := socket]> (sockets s)) s) ;;;
  node <- update (socket_node_id p ino) ;;
  modify (remember_lookup node) ;;;
  ret (socket_entry_out node socket).

Definition mknod (node : Z) (input : list Z) (c : RequestContext) : M H (list Z) :=
  require_writable ;;;
  fmode <- ok_or (get_u32 input 0) EINVAL ;;
  n <- ok_or (nul_name input 16) EINVAL ;;
  p <- child_path node n ;;
  let host_mode := host_creation_mode fmode false in
  let kind := Z.land fmode S_IFMT in
  if kind =? S_IFSOCK then create_socket p fmode c
  else
    (if kind =? S_IFREG then
       e <- at_path p ;;
       open_host_file_at e.1 e.2 (Z.lor LINUX_O_WRONLY LINUX_O_EXCL) true host_mode ;;; ret tt
     else if kind =? S_IFIFO then
       e <- at_path p ;;
       mkfifo_at e.1 e.2 host_mode
     else fail EPERM) ;;;
    e <- at_path p ;;
    initialize_guest_metadata e.1 e.2 fmode c ;;;
    new_entry p.

Definition mkdir (node : Z) (input : list Z) (c : RequestContext) : M H (list Z) :=
  require_writable ;;;
  fmode <- ok_or (get_u32 input 0) EINVAL ;;
  n <- ok_or (nul_name input 8) EINVAL ;;
  p <- child_path node n ;;
  e <- at_path p ;;
  mkdir_at e.1 e.2 (host_creation_mode fmode true) ;;;
  e <- at_path p ;;
  initialize_guest_metadata e.1 e.2 fmode c ;;;
  new_entry p.

Definition symlink (node : Z) (input : list Z) (c : RequestContext) : M H (list Z) :=
  require_writable ;;;
  nn <- ok_or (nul_name_with_end input 0) EINVAL ;;
  target <- ok_or (nul_name input nn.2) EINVAL ;;
  p <- child_path node nn.1 ;;
  e <- at_path p ;;
  symlink_at target e.1 e.2 ;;;
  e <- at_path p ;;
  initialize_guest_metadata e.1 e.2 0x1ff c ;;;
  new_entry p.

Definition link (new_parent : Z) (input : list Z) : M H (list Z) :=
  require_writable ;;;
  old_node <- ok_or (get_u64 input 0) EINVAL ;;
  n <- ok_or (nul_name input 8) EINVAL ;;
  old_path <- node_path old_node ;;
  new_path <- child_path new_parent n ;;
  e <- two_entries_at old_path new_path ;;
  let '(old_fd, old_name, new_fd, new_name) := e in
  host_link old_fd old_name new_fd new_name ;;;
  new_entry new_path.

(** ** Removal and renaming *)

(** Unlinking a socket: its nodes go with it. *)
Definition remove_socket (p : path) (s : Fs) : Fs :=
  let s := set_sockets (delete p (sockets s)) s in
  let stale := List.filter (fun e : Z * Node => (fst (n_key e.2) =? SOCKET_DEV) && bool_decide (p ∈ n_paths e.2))
                 (map_to_list (nodes s)) in
  foldr (fun e s => set_inode_ids (delete (n_key e.2) (inode_ids s)) (set_nodes (delete e.1 (nodes s)) s)) s stale.

Definition remove (node : Z) (input : list Z) (directory : bool) : M H (list Z) :=
  require_writable ;;;
  n <- ok_or (nul_name input 0) EINVAL ;;
  p <- child_path node n ;;
  sock <- gets (fun s => sockets s !! p) ;;
  if negb directory && bool_decide (is_Some sock) then modify (remove_socket p) ;;; ret []
  else
    e <- at_path p ;;
    m <- stat_at e.1 e.2 ;;
    unlink_at e.1 e.2 directory ;;;
    invalidate_dirs_by_type p (is_dir m) ;;;
    modify (forget_node_path p m) ;;;
    ret [].

Definition rename_flags_ok (flags : Z) : bool :=
  (Z.land flags (Z.lnot 7) =? 0) && negb (has_flag flags RENAME_WHITEOUT)
  && negb (has_flag flags RENAME_NOREPLACE && has_flag flags RENAME_EXCHANGE).

Definition rename (old_parent : Z) (input : list Z) (version2 : bool) : M H (list Z) :=
  require_writable ;;;
  new_parent <- ok_or (get_u64 input 0) EINVAL ;;
  flags <- (if version2 then ok_or (get_u32 input 8) EINVAL else ret 0) ;;
  let names_at := if version2 then 16 else 8 in
  guard (rename_flags_ok flags) EOPNOTSUPP ;;;
  on <- ok_or (nul_name_with_end input names_at) EINVAL ;;
  nn <- ok_or (nul_name input on.2) EINVAL ;;
  old_path <- child_path old_parent on.1 ;;
  new_path <- child_path new_parent nn ;;
  e <- two_entries_at old_path new_path ;;
  let '(old_fd, old_name, new_fd, new_name) := e in
  old_meta <- stat_at old_fd old_name ;;
  r <- attempt (stat_at new_fd new_name) ;;
  let replaced := match r with inl m => Some m | inr _ => None end in
  host_rename old_fd old_name new_fd new_name flags ;;;
  let moves := is_dir old_meta || match replaced with Some m => is_dir m | None => false end in
  invalidate_dirs_by_type old_path moves ;;;
  invalidate_dirs_by_type new_path moves ;;;
  if has_flag flags RENAME_EXCHANGE then modify (exchange_node_paths old_path new_path) ;;; ret []
  else match replaced with
  | Some m =>
      if bool_decide (stat_key m = stat_key old_meta) then ret []
      else
        modify (forget_node_path new_path m) ;;;
        modify (rewrite_renamed_paths old_path new_path old_meta) ;;;
        ret []
  | None => modify (rewrite_renamed_paths old_path new_path old_meta) ;;; ret []
  end.

(** ** Reading what is there *)

Definition readlink (node : Z) : M H (list Z) :=
  e <- entry_at node ;;
  read_link_at e.1 e.2.

Definition statfs : M H (list Z) :=
  fd <- root_fd ;;
  v <- syscall (CFstatvfs fd) ;;
  let out := put_u64 (f_blocks v) ++ put_u64 (f_bfree v) ++ put_u64 (f_bavail v) ++ put_u64 (f_files v)
    ++ put_u64 (f_ffree v) ++ put_u32 (f_bsize v) ++ put_u32 (f_namemax v) ++ put_u32 (f_frsize v) ++ put_u32 0 in
  ret (out ++ zeros (80 - length out)).

Definition access (node : Z) (input : list Z) : M H (list Z) :=
  mask <- ok_or (get_u32 input 0) EINVAL ;;
  relative <- relative_of node ;;
  (if bool_decide (relative = []) then ret tt else e <- entry_at node ;; exists_at e.1 e.2) ;;;
  w <- gets f_writable ;;
  guard (negb (has_flag mask 2 && negb w)) EROFS ;;;
  ret [].

Definition statx (node : Z) (input : list Z) : M H (list Z) :=
  flags <- ok_or (get_u32 input 0) EINVAL ;;
  fh <- ok_or (get_u64 input 8) EINVAL ;;
  orphan <- gets (is_orphan node) ;;
  m <- (if has_flag flags FUSE_GETATTR_FH then h <- get_handle fh ;; stat_of_fd (h_file h)
        else if (orphan : bool) then stat_by_handle node
        else p <- node_path node ;; stat_in_export p) ;;
  secs <- gets cache_seconds ;;
  g <- guest_attr node m ;;
  ret (statx_out node m secs g).

(** ** Extended attributes *)

Definition setxattr (node : Z) (input : list Z) : M H (list Z) :=
  require_writable ;;;
  size <- ok_or (get_u32 input 0) EINVAL ;;
  flags <- ok_or (get_u32 input 4) EINVAL ;;
  guard (negb (negb (Z.land flags (Z.lnot 3) =? 0) || (flags =? 3))) EINVAL ;;;
  nv <- ok_or (nul_name_with_end input 16) EINVAL ;;
  guard (negb (is_private_xattr nv.1)) EPERM ;;;
  value <- ok_or (get_range input nv.2 (nv.2 + size)) EINVAL ;;
  fd <- open_entry_at node ;;
  fd_setxattr fd nv.1 value flags ;;;
  ret [].

Definition xattr_reply (size : Z) (value : list Z) : M H (list Z) :=
  match xattr_response size value with inl out => ret out | inr err => fail err end.

Definition getxattr (node : Z) (input : list Z) : M H (list Z) :=
  size <- ok_or (get_u32 input 0) EINVAL ;;
  n <- ok_or (nul_name input 8) EINVAL ;;
  guard (negb (is_private_xattr n)) ENODATA ;;;
  fd <- open_entry_at node ;;
  value <- fd_getxattr fd n ;;
  xattr_reply size value.

Definition listxattr (node : Z) (input : list Z) : M H (list Z) :=
  size <- ok_or (get_u32 input 0) EINVAL ;;
  fd <- open_entry_at node ;;
  value <- fd_listxattr fd ;;
  xattr_reply size (filter_private_xattrs value).

Definition removexattr (node : Z) (input : list Z) : M H (list Z) :=
  require_writable ;;;
  n <- ok_or (nul_name input 0) EINVAL ;;
  guard (negb (is_private_xattr n)) EPERM ;;;
  fd <- open_entry_at node ;;
  fd_removexattr fd n ;;;
  ret [].

End Ops.
