(* ===== verification/FsIo.v ===== *)
(** * Requests on open files ([src/devices/virtio/fs/server.rs])

    OPEN, CREATE and TMPFILE with the handles they make, reads and writes, buffered
    and straight between guest RAM and the host, RELEASE and the descriptors it
    parks, locks, and the calls on a handle. *)

From S2P Require Import Prelude Memory FsWire FsHost FsState FsDirs FsNodes FsOps.
Local Open Scope Z_scope.

(** ** Descriptors and guest RAM *)

(** A part of a chain: guest address and length. *)
Definition Seg : Type := Z * Z.
Definition segs_len (l : list Seg) : Z := foldr (fun d acc => d.2 + acc) 0 l.

(** [gather]: [want] bytes of the concatenation of [descs], [skip] bytes in. [pos]
    is the place of the first descriptor in the concatenation. *)
Fixpoint gather_loop (m : GuestRam) (descs : list Seg) (pos skip want : Z) : option (list Z) :=
  match descs with
  | [] => if 0 <? want then None else Some []
  | (addr, len) :: descs =>
      if want =? 0 then Some []
      else
        let desc_end := pos + len in
        if skip <? desc_end then
          let start_in_desc := saturating_sub skip pos in
          let avail := Z.min (len - start_in_desc) want in
          base ← checked_add addr start_in_desc;
          data ← Memory.read m base avail;
          rest ← gather_loop m descs desc_end skip (want - avail);
          Some (data ++ rest)
        else gather_loop m descs desc_end skip want
  end.
Definition gather (m : GuestRam) (descs : list Seg) (skip want : Z) : option (list Z) := gather_loop m descs 0 skip want.

Definition IOV_MAX : Z := 1024.

(** [build_iov]: the guest ranges an iovec covers, at most [cap] bytes in all. *)
Fixpoint iov_loop (m : GuestRam) (descs : list Seg) (pos skip cap total : Z) : option (list Seg * Z) :=
  match descs with
  | [] => Some ([], total)
  | (addr, len) :: descs =>
      if total =? cap then Some ([], total)
      else
        let desc_end := pos + len in
        if skip <? desc_end then
          let start_in_desc := saturating_sub skip pos in
          let avail := Z.min (len - start_in_desc) (cap - total) in
          if 0 <? avail then
            base ← checked_add addr start_in_desc;
            _ ← slice m base avail;
            r ← iov_loop m descs desc_end skip cap (total + avail);
            Some ((base, avail) :: r.1, r.2)
          else iov_loop m descs desc_end skip cap total
        else iov_loop m descs desc_end skip cap total
  end.
Definition build_iov (m : GuestRam) (descs : list Seg) (skip cap : Z) : option (list Seg * Z) :=
  if IOV_MAX <? zlen descs then None else iov_loop m descs 0 skip cap 0.

(** What the host stores through an iovec, and what it loads. *)
Fixpoint iov_store (m : GuestRam) (iov : list Seg) (data : list Z) : GuestRam :=
  match iov with
  | [] => m
  | (addr, len) :: iov =>
      let n := Z.to_nat len in
      iov_store (ignore m (Memory.write m addr (take n data))) iov (drop n data)
  end.
Fixpoint iov_load (m : GuestRam) (iov : list Seg) : list Z :=
  match iov with
  | [] => []
  | (addr, len) :: iov => default [] (Memory.read m addr len) ++ iov_load m iov
  end.

(** The loop [write_reply] and [write_direct_out_header] share: [data] over the
    descriptors, up to the first refused write. The bytes left over are returned. *)
Fixpoint scatter (m : GuestRam) (output : list Seg) (data : list Z) : GuestRam * list Z * bool :=
  match output with
  | [] => (m, data, true)
  | (addr, len) :: output =>
      if bool_decide (data = []) then (m, data, true)
      else
        let n := Z.to_nat (Z.min len (zlen data)) in
        match Memory.write m addr (take n data) with
        | None => (m, data, false)
        | Some m => scatter m output (drop n data)
        end
  end.

Definition write_direct_out_header (m : GuestRam) (output : list Seg) (unique total_len : Z) : GuestRam * bool :=
  let '(m, _, ok) := scatter m output (le_bytes 4 total_len ++ zeros 4 ++ le_bytes 8 unique) in (m, ok).

(** What a handler produced. *)
Inductive Reply := Buffered (response : list Z) | Direct (n : Z).

(** ** Locks *)

Definition linux_lock_to_host (t : Z) : option LockType :=
  if t =? LINUX_F_RDLCK then Some F_RDLCK
  else if t =? LINUX_F_WRLCK then Some F_WRLCK
  else if t =? LINUX_F_UNLCK then Some F_UNLCK
  else None.
Definition host_lock_to_linux (t : LockType) : option Z :=
  match t with
  | F_RDLCK => Some LINUX_F_RDLCK | F_WRLCK => Some LINUX_F_WRLCK | F_UNLCK => Some LINUX_F_UNLCK | F_other => None
  end.

(** The range of a POSIX lock request in the host's terms. *)
Definition lock_range (start end_ : Z) : (Z * Z) + Z :=
  if 2 ^ 63 - 1 <? start then inr EFBIG
  else if 2 ^ 63 - 1 <=? end_ then inl (start, 0)
  else if end_ <? start then inr EINVAL
  else
    let len := Z.min (end_ - start + 1) (2 ^ 64 - 1) in
    if 2 ^ 63 - 1 <? len then inr EFBIG else inl (start, len).

(** The range a GETLK reports of the host's answer. *)
Definition lock_reply_range (l : FLock) : Z * Z :=
  let returned_start := Z.max (l_start l) 0 in
  (returned_start,
   if l_len l =? 0 then 2 ^ 64 - 1
   else saturating_sub (Z.min (returned_start + u64 (l_len l)) (2 ^ 64 - 1)) 1).

Section Io.
Context {H : Type} {HF : HostFs H}.

(** ** Opening *)

(** The loop that gives descriptors back before an open is refused. The fuel is
    the number of descriptors held, and each round closes one or stops. *)
Fixpoint make_room_handles (fuel : nat) (s : Fs) : Fs :=
  match fuel with
  | O => s
  | S fuel =>
      if handle_limit s <=? descriptors_held s then
        let '(went, s1) := evict_one_parked s in
        if (went : bool) then make_room_handles fuel s1
        else
          let '(went, d) := evict_one (dirs s1) in
          let s2 := set_dirs d s1 in
          if (went : bool) then make_room_handles fuel s2 else s2
      else s
  end.

Definition open_failure_errno_at (dirfd : Fd) (n : name) (err : Z) : M H Z :=
  r <- attempt (stat_at dirfd n) ;;
  ret (match r with
       | inl m => if is_dir m then EISDIR else if negb (is_file m) then EPERM else err
       | inr _ => err
       end).

(** A host open of a regular file, its type checked by name and then by descriptor. *)
Definition open_regular (node flags : Z) : M H (Fd * HandleAttrs) :=
  e <- entry_at node ;;
  entry <- stat_at e.1 e.2 ;;
  guard (negb (is_dir entry)) EISDIR ;;;
  guard (is_file entry) EPERM ;;;
  r <- attempt (open_host_file_at e.1 e.2 flags false 0) ;;
  file <- match r with
    | inl file => ret file
    | inr err => err' <- open_failure_errno_at e.1 e.2 err ;; fail err'
    end ;;
  m <- stat_of_fd file ;;
  guard (negb (is_dir m)) EISDIR ;;;
  guard (is_file m) EPERM ;;;
  ret (file, attrs_of m).

Definition open_out (fh : Z) : M H (list Z) :=
  cache <- gets (fun s => negb (bool_decide (f_cache s = CacheNone))) ;;
  ret (put_open_out fh cache).

Definition open_orphan (node flags open_flags : Z) (directory : bool) : M H (list Z) :=
  guard (negb directory) ENOENT ;;;
  full <- gets (fun s => handle_limit s <=? open_handle_count s) ;;
  guard (negb full) ENFILE ;;;
  let writable := has_flag flags LINUX_O_ACCMODE in
  let wants_write := writable || has_flag flags LINUX_O_TRUNC || has_flag open_flags FUSE_OPEN_KILL_SUIDGID in
  e <- gets (handle_of_node node) ;;
  e <- ok_or e ENOENT ;;
  let h := e.2 in
  guard (negb (wants_write && negb (h_writable h))) EACCES ;;;
  file <- dup_cloexec (h_file h) ;;
  (if has_flag flags LINUX_O_TRUNC then syscall (CFtruncate file 0) else ret tt) ;;;
  (if has_flag open_flags FUSE_OPEN_KILL_SUIDGID then
     clear_suid_sgid file ;;; modify (invalidate_guest_attr node)
   else ret tt) ;;;
  m <- stat_of_fd file ;;
  fh <- update (insert_handle file writable flags (attrs_of m) (h_path h) node) ;;
  open_out fh.

(** [dir_entries] and [assemble_entries]: sorted by name, the sort stable. *)
Fixpoint bytes_le (a b : list Z) : bool :=
  match a, b with
  | [], _ => true
  | _ :: _, [] => false
  | x :: a, y :: b => (x <? y) || ((x =? y) && bytes_le a b)
  end.
Fixpoint insert_entry (e : DirEntryInfo) (l : list DirEntryInfo) : list DirEntryInfo :=
  match l with
  | [] => [e]
  | e' :: l => if bytes_le (e_name e) (e_name e') then e :: e' :: l else e' :: insert_entry e l
  end.
Definition sort_entries (l : list DirEntryInfo) : list DirEntryInfo := foldr insert_entry [] l.

Definition socket_entries (dir : path) (s : Fs) : list DirEntryInfo :=
  omap (fun e : path * SocketNode =>
    if bool_decide (parent e.1 = Some dir) then
      n ← file_name e.1;
      Some (mkEntry n (s_ino e.2) 0)
    else None) (map_to_list (sockets s)).

Definition dot_entries : list DirEntryInfo := [mkEntry DOT 0 0; mkEntry DOTDOT 0 0].

Definition assemble_entries (dir : path) (entries : list DirEntryInfo) (s : Fs) : list DirEntryInfo :=
  dot_entries ++ sort_entries (entries ++ socket_entries dir s).

Definition dir_entries (dir : path) : M H (list DirEntryInfo) :=
  relative <- relative_of_path dir ;;
  fd <- dir_fd_owned relative ;;
  entries <- read_dir_at fd ;;
  gets (assemble_entries dir entries).

Definition add_dir_handle (file : Fd) (entries : list DirEntryInfo) (s : Fs) : Z * Fs :=
  let '(fh, s) := next_handle s in
  (fh, note_handle_peak (set_dir_handles (<[fh := mkDirHandle file entries]> (dir_handles s)) s)).

Definition insert_dir_handle (dir : path) : M H Z :=
  relative <- relative_of_path dir ;;
  file <- dir_fd_owned relative ;;
  entries <- dir_entries dir ;;
  update (add_dir_handle file entries).

Definition open_op (node : Z) (input : list Z) (directory : bool) : M H (list Z) :=
  flags <- ok_or (get_u32 input 0) EINVAL ;;
  open_flags <- ok_or (get_u32 input 4) EINVAL ;;
  writable <- gets f_writable ;;
  guard (negb (open_wants_write flags open_flags && negb writable)) EROFS ;;;
  orphan <- gets (is_orphan node) ;;
  if (orphan : bool) then open_orphan node flags open_flags directory
  else
    p <- node_path node ;;
    (if directory then m <- stat_in_export p ;; guard (is_dir m) ENOTDIR else ret tt) ;;;
    reuse <- gets (may_reuse_descriptor flags open_flags) ;;
    reused <- (if negb directory && (reuse : bool) then take_parked node flags else ret None) ;;
    (if bool_decide (reused = None) then
       modify (fun s => make_room_handles (Z.to_nat (descriptors_held s)) s) ;;;
       full <- gets (fun s => handle_limit s <=? open_handle_count s) ;;
       guard (negb full) ENFILE
     else ret tt) ;;;
    fh <- (if directory then insert_dir_handle p
           else
             fa <- match reused with
               | Some fa => modify (fun s => set_parked_hits (parked_hits s + 1) s) ;;; ret fa
               | None => modify (fun s => set_parked_misses (parked_misses s + 1) s) ;;; open_regular node flags
               end ;;
             (if has_flag open_flags FUSE_OPEN_KILL_SUIDGID then
                clear_suid_sgid fa.1 ;;; modify (invalidate_guest_attr node)
              else ret tt) ;;;
             update (insert_handle fa.1 (has_flag flags LINUX_O_ACCMODE) flags fa.2 p node)) ;;
    open_out fh.

Definition create (node : Z) (input : list Z) (c : RequestContext) : M H (list Z) :=
  require_writable ;;;
  flags <- ok_or (get_u32 input 0) EINVAL ;;
  fmode <- ok_or (get_u32 input 4) EINVAL ;;
  open_flags <- ok_or (get_u32 input 12) EINVAL ;;
  n <- ok_or (nul_name input 16) EINVAL ;;
  p <- child_path node n ;;
  e <- at_path p ;;
  file <- open_host_file_at e.1 e.2 flags true (host_creation_mode fmode false) ;;
  e <- at_path p ;;
  initialize_guest_metadata e.1 e.2 fmode c ;;;
  (if has_flag open_flags FUSE_OPEN_KILL_SUIDGID then clear_suid_sgid file else ret tt) ;;;
  m <- stat_of_fd file ;;
  id <- node_for p m ;;
  modify (remember_lookup id) ;;;
  out <- self_entry_out id m ;;
  fh <- update (insert_handle file (has_flag flags LINUX_O_ACCMODE) flags (attrs_of m) p id) ;;
  tail_ <- open_out fh ;;
  ret (out ++ tail_).

(** [format!("{}", v)] for an unsigned integer; a [u64] has at most 20 digits. *)
Fixpoint decimal_loop (fuel : nat) (v : Z) (acc : list Z) : list Z :=
  match fuel with
  | O => acc
  | S fuel => let acc := 0x30 + v mod 10 :: acc in if v <? 10 then acc else decimal_loop fuel (v / 10) acc
  end.
Definition decimal (v : Z) : list Z := decimal_loop 20 v [].

(** [".hvi-tmp-{pid}-{id}"]. *)
Definition tmpfile_name (pid id : Z) : list Z :=
  [0x2e;0x68;0x76;0x69;0x2d;0x74;0x6d;0x70;0x2d] ++ decimal pid ++ [0x2d] ++ decimal id.

(** The handle of a temporary file, which RELEASE removes. *)
Definition insert_temporary (file : Fd) (flags : Z) (attrs : HandleAttrs) (p : path) (node : Z) (s : Fs) : Z * Fs :=
  let '(fh, s) := next_handle s in
  let s := set_handles (<[fh := mkHandle file true flags attrs p (Some p) node false]> (handles s)) s in
  (fh, hold_node node s).

Definition tmpfile (node : Z) (input : list Z) (c : RequestContext) : M H (list Z) :=
  require_writable ;;;
  flags <- ok_or (get_u32 input 0) EINVAL ;;
  fmode <- ok_or (get_u32 input 4) EINVAL ;;
  parent_path <- node_path node ;;
  id <- update (fun s => (next_tmpfile s, set_next_tmpfile (Z.max (sat_succ (next_tmpfile s)) 1) s)) ;;
  pid <- query CGetpid 0 ;;
  let p := join parent_path (tmpfile_name pid id) in
  e <- at_path p ;;
  file <- open_host_file_at e.1 e.2 (Z.lor flags LINUX_O_EXCL) true (host_creation_mode fmode false) ;;
  e <- at_path p ;;
  initialize_guest_metadata e.1 e.2 fmode c ;;;
  m <- stat_of_fd file ;;
  nid <- node_for p m ;;
  modify (remember_lookup nid) ;;;
  out <- self_entry_out nid m ;;
  fh <- update (insert_temporary file flags (attrs_of m) p nid) ;;
  ret (out ++ put_open_out fh false).

(** ** Reading and writing *)

Definition read_op (node : Z) (input : list Z) (capacity : Z) : M H (list Z) :=
  fh <- ok_or (get_u64 input 0) EINVAL ;;
  offset <- ok_or (get_u64 input 8) EINVAL ;;
  requested <- ok_or (get_u32 input 16) EINVAL ;;
  let want := Z.min (Z.min requested capacity) MAX_WRITE in
  h <- gets (fun s => handles s !! fh) ;;
  match h with
  | Some h => syscall (CPread (h_file h) offset want)
  | None =>
      guard (fh =? 0) EBADF ;;;
      guard (negb (node =? FUSE_ROOT_ID)) EISDIR ;;;
      e <- entry_at node ;;
      m <- stat_at e.1 e.2 ;;
      guard (is_file m) (if is_dir m then EISDIR else EINVAL) ;;;
      file <- open_host_file_at e.1 e.2 0 false 0 ;;
      syscall (CPread file offset want)
  end.

Definition write_op (node : Z) (input : list Z) : M H (list Z) :=
  require_writable ;;;
  fh <- ok_or (get_u64 input 0) EINVAL ;;
  offset <- ok_or (get_u64 input 8) EINVAL ;;
  size <- ok_or (get_u32 input 16) EINVAL ;;
  write_flags <- ok_or (get_u32 input 20) EINVAL ;;
  guard (negb ((MAX_WRITE <? size) || (zlen input <? 40 + size))) EINVAL ;;;
  h <- get_handle fh ;;
  guard (h_writable h) EBADF ;;;
  data <- expect (get_range input 40 (40 + size)) ;;
  n <- syscall (CPwrite (h_file h) offset data) ;;
  (if has_flag write_flags FUSE_WRITE_KILL_SUIDGID then
     h <- get_handle fh ;;
     clear_suid_sgid (h_file h) ;;;
     modify (invalidate_guest_attr node)
   else ret tt) ;;;
  ret (put_u32 n ++ put_u32 0).

(** [preadv_retry] and [pwritev_retry]: nothing is asked of the host for an empty iovec,
    and an interrupted call is made again. *)
Definition preadv (file : Fd) (iov : list Seg) (offset : Z) : M H Z :=
  if bool_decide (iov = []) then ret 0
  else
    data <- retried_syscall (CPread file offset (segs_len iov)) ;;
    m <- get_ram ;;
    set_ram (iov_store m iov data) ;;;
    ret (zlen data).
Definition pwritev (file : Fd) (iov : list Seg) (offset : Z) : M H Z :=
  if bool_decide (iov = []) then ret 0
  else m <- get_ram ;; retried_syscall (CPwrite file offset (iov_load m iov)).

Definition read_direct (unique declared : Z) (input output : list Seg) (max_out : Z) : M H (option Reply) :=
  if (declared <? IN_HEADER_LEN + 20) || (segs_len input <? declared) then ret None
  else
    m <- get_ram ;;
    s <- gets id ;;
    match (args ← gather m input IN_HEADER_LEN 20;
           fh ← get_u64 args 0;
           if fh =? 0 then None
           else
             offset ← get_u64 args 8;
             requested ← get_u32 args 16;
             h ← handles s !! fh;
             let capacity := saturating_sub max_out OUT_HEADER_LEN in
             let want := Z.min (Z.min requested capacity) MAX_WRITE in
             iov ← build_iov m output OUT_HEADER_LEN want;
             Some (h, iov.1, offset)) with
    | None => ret None
    | Some (h, iov, offset) =>
        r <- attempt (preadv (h_file h) iov offset) ;;
        match r with
        | inr err => ret (Some (Buffered (error_response unique err)))
        | inl n =>
            modify (fun s => set_zero_copy_reads (zero_copy_reads s + 1) s) ;;;
            m <- get_ram ;;
            let '(m, ok) := write_direct_out_header m output unique (u32 (OUT_HEADER_LEN + n)) in
            set_ram m ;;;
            ret (Some (if (ok : bool) then Direct (OUT_HEADER_LEN + n) else Buffered (error_response unique EIO)))
        end
    end.

Definition write_direct (node unique declared : Z) (input : list Seg) : M H (option Reply) :=
  w <- gets f_writable ;;
  if negb w then ret None
  else
    modify (set_dirty true) ;;;
    drop_prepared ;;;
    if (declared <? IN_HEADER_LEN) || (segs_len input <? declared) then ret None
    else
      m <- get_ram ;;
      s <- gets id ;;
      match (args ← gather m input IN_HEADER_LEN 24;
             fh ← get_u64 args 0;
             offset ← get_u64 args 8;
             size ← get_u32 args 16;
             write_flags ← get_u32 args 20;
             if (MAX_WRITE <? size) || (declared <? IN_HEADER_LEN + 40 + size) then None
             else
               h ← handles s !! fh;
               if negb (h_writable h) then None
               else
                 iov ← build_iov m input (IN_HEADER_LEN + 40) size;
                 if iov.2 <? size then None else Some (h, iov.1, offset, write_flags)) with
      | None => ret None
      | Some (h, iov, offset, write_flags) =>
          r <- attempt (pwritev (h_file h) iov offset) ;;
          match r with
          | inr err => ret (Some (Buffered (error_response unique err)))
          | inl n =>
              modify (fun s => set_zero_copy_writes (zero_copy_writes s + 1) s) ;;;
              r <- (if has_flag write_flags FUSE_WRITE_KILL_SUIDGID then
                      r <- attempt (clear_suid_sgid (h_file h)) ;;
                      match r with
                      | inr err => ret (inr err)
                      | inl _ => modify (invalidate_guest_attr node) ;;; ret (inl tt)
                      end
                    else ret (inl tt)) ;;
              ret (Some (Buffered (match r with
                | inr err => error_response unique err
                | inl _ => success_response unique (put_u32 n ++ put_u32 0)
                end)))
          end
      end.

(** ** Closing *)

(** What a descriptor is parked with: read afresh after writes. *)
Definition park_attrs (h : FileHandle) : M H HandleAttrs :=
  if h_writable h then
    r <- attempt (stat_of_fd (h_file h)) ;;
    ret (match r with inl m => attrs_of m | inr _ => h_attrs h end)
  else ret (h_attrs h).

Definition release (input : list Z) : M H (list Z) :=
  fh <- ok_or (get_u64 input 0) EINVAL ;;
  let flags := default 0 (get_u32 input 12) in
  h <- gets (fun s => handles s !! fh) ;;
  h <- ok_or h EBADF ;;
  modify (fun s => release_node (h_node h) (set_handles (delete fh (handles s)) s)) ;;;
  let unlock := has_flag flags FUSE_RELEASE_FLOCK_UNLOCK in
  (if unlock then syscall (CFlock (h_file h) LOCK_UN false) else ret tt) ;;;
  if bool_decide (is_Some (h_temporary h)) then remove_temporary h ;;; ret []
  else
    cache <- gets (fun s => negb (bool_decide (f_cache s = CacheNone))) ;;
    (if (cache : bool) && negb unlock && negb (h_locked h) then
       attrs <- park_attrs h ;;
       modify (park_descriptor (h_node h) (h_open_flags h) attrs (h_file h))
     else ret tt) ;;;
    ret [].

Definition release_dir (input : list Z) : M H (list Z) :=
  fh <- ok_or (get_u64 input 0) EINVAL ;;
  if fh =? 0 then ret []
  else
    d <- gets (fun s => dir_handles s !! fh) ;;
    ok_or d EBADF ;;;
    modify (fun s => set_dir_handles (delete fh (dir_handles s)) s) ;;;
    ret [].

Definition flush (input : list Z) : M H (list Z) :=
  fh <- ok_or (get_u64 input 0) EINVAL ;;
  get_handle fh ;;;
  ret [].

(** ** Syncing *)

Definition fsync (input : list Z) : M H (list Z) :=
  fh <- ok_or (get_u64 input 0) EINVAL ;;
  flags <- ok_or (get_u32 input 8) EINVAL ;;
  h <- get_handle fh ;;
  sync_file (h_file h) flags ;;;
  ret [].

Definition fsync_dir (node : Z) (input : list Z) : M H (list Z) :=
  fh <- ok_or (get_u64 input 0) EINVAL ;;
  flags <- ok_or (get_u32 input 8) EINVAL ;;
  if negb (fh =? 0) then
    d <- gets (fun s => dir_handles s !! fh) ;;
    d <- ok_or d EBADF ;;
    sync_file (dh_file d) flags ;;;
    ret []
  else
    dir <- node_path node ;;
    relative <- relative_of_path dir ;;
    fd <- dir_fd_owned relative ;;
    sync_file fd flags ;;;
    ret [].

(** Every handle is flushed; the first failure is kept. *)
Fixpoint sync_all (l : list Fd) (failed : option Z) : M H (option Z) :=
  match l with
  | [] => ret failed
  | fd :: l =>
      r <- attempt (syscall (CFsync fd false)) ;;
      sync_all l (match failed, r with None, inr err => Some err | _, _ => failed end)
  end.

Definition syncfs : M H (list Z) :=
  fds <- gets (fun s => map (fun e : Z * FileHandle => h_file e.2) (map_to_list (handles s))
                        ++ map (fun e : Z * DirHandle => dh_file e.2) (map_to_list (dir_handles s))) ;;
  failed <- sync_all fds None ;;
  due <- gets (fun s => f_writable s && dirty s) ;;
  failed <- (if (due : bool) then
      modify (fun s => set_host_syncs (host_syncs s + 1) s) ;;;
      root <- gets f_root ;;
      r <- attempt (syscall (CSyncVolume root)) ;;
      match r with
      | inl _ => modify (set_dirty false) ;;; ret failed
      | inr err => ret (match failed with None => Some err | _ => failed end)
      end
    else ret failed) ;;
  match failed with Some err => fail err | None => ret [] end.

(** ** Locks *)

(** One call that does not block: done, refused, or held by another ([None]). *)
Definition try_lock (file : Fd) (c : LockCall) : M H (unit + option Z) :=
  r <- match c with
    | LFlock op => retried (CFlock file op true)
    | LPosix l => retried (COfdSetLk file l)
    end ;;
  ret (match r with
       | inl _ => inl tt
       | inr HEAGAIN => inr None
       | inr HEACCES => match c with LPosix _ => inr None | LFlock _ => inr (Some (io_errno HEACCES)) end
       | inr err => inr (Some (io_errno err))
       end).

Definition settle_lock (fh unique : Z) (c : LockCall) (wait : bool) : M H (list Z) :=
  h <- get_handle fh ;;
  r <- try_lock (h_file h) c ;;
  match r with
  | inl _ => modify (note_posix_lock fh c) ;;; ret []
  | inr (Some err) => fail err
  | inr None =>
      if wait then
        match c with LFlock _ => call (CFlock (h_file h) LOCK_UN false) ;;; ret tt | LPosix _ => ret tt end ;;;
        modify (set_lock_to_park (Some (mkPending unique fh c))) ;;;
        ret []
      else fail EAGAIN
  end.

Definition lock (input : list Z) (opcode unique : Z) : M H (list Z) :=
  fh <- ok_or (get_u64 input 0) EINVAL ;;
  start <- ok_or (get_u64 input 16) EINVAL ;;
  end_ <- ok_or (get_u64 input 24) EINVAL ;;
  lock_type <- ok_or (get_u32 input 32) EINVAL ;;
  ok_or (get_u32 input 36) EINVAL ;;;
  flags <- ok_or (get_u32 input 40) EINVAL ;;
  h <- get_handle fh ;;
  if has_flag flags FUSE_LK_FLOCK then
    if opcode =? Op.GETLK then ret (put_u64 start ++ put_u64 end_ ++ put_u32 LINUX_F_UNLCK ++ put_u32 0)
    else
      op <- ok_or (if lock_type =? LINUX_F_RDLCK then Some LOCK_SH else if lock_type =? LINUX_F_WRLCK then Some LOCK_EX
                   else if lock_type =? LINUX_F_UNLCK then Some LOCK_UN else None) EINVAL ;;
      settle_lock fh unique (LFlock op) (opcode =? Op.SETLKW)
  else
    range <- match lock_range start end_ with inl r => ret r | inr err => fail err end ;;
    t <- ok_or (linux_lock_to_host lock_type) EINVAL ;;
    let l := mkFLock range.1 range.2 0 t in
    if (opcode =? Op.SETLK) || (opcode =? Op.SETLKW) then settle_lock fh unique (LPosix l) (opcode =? Op.SETLKW)
    else
      guard (opcode =? Op.GETLK) EINVAL ;;;
      l <- retried_syscall (COfdGetLk (h_file h) l) ;;
      let '(returned_start, returned_end) := lock_reply_range l in
      t <- ok_or (host_lock_to_linux (l_type l)) EIO ;;
      ret (put_u64 returned_start ++ put_u64 returned_end ++ put_u32 t ++ put_u32 (Z.max (l_pid l) 0)).

(** ** Calls on a handle *)

Definition poll (input : list Z) : M H (list Z) :=
  fh <- ok_or (get_u64 input 0) EINVAL ;;
  known <- gets (fun s => bool_decide (is_Some (handles s !! fh)) || bool_decide (is_Some (dir_handles s !! fh))) ;;
  guard known EBADF ;;;
  events <- ok_or (get_u32 input 20) EINVAL ;;
  ret (put_u32 events ++ put_u32 0).

Definition lseek (input : list Z) : M H (list Z) :=
  fh <- ok_or (get_u64 input 0) EINVAL ;;
  offset <- ok_or (get_u64 input 8) EINVAL ;;
  whence <- ok_or (get_u32 input 16) EINVAL ;;
  h <- get_handle fh ;;
  w <- ok_or (if whence =? 0 then Some SEEK_SET else if whence =? 1 then Some SEEK_CUR else if whence =? 2 then Some SEEK_END
              else if whence =? 3 then Some SEEK_DATA else if whence =? 4 then Some SEEK_HOLE else None) EINVAL ;;
  guard (offset <? 2 ^ 63) EFBIG ;;;
  r <- syscall (CLseek (h_file h) offset w) ;;
  ret (put_u64 r).

(** A write of all of [data], in as many calls as the host takes; each call writes
    a byte or more, so the length bounds the rounds. *)
Fixpoint write_all (fuel : nat) (file : Fd) (offset : Z) (data : list Z) : M H unit :=
  match fuel with
  | O => ret tt
  | S fuel =>
      if bool_decide (data = []) then ret tt
      else
        n <- syscall (CPwrite file (Z.min offset (2 ^ 64 - 1)) data) ;;
        guard (negb (n =? 0)) EIO ;;;
        write_all fuel file (offset + n) (drop (Z.to_nat n) data)
  end.

(** Zeros over a range, a megabyte at a time. *)
Fixpoint zero_loop (fuel : nat) (file : Fd) (cursor zero_end : Z) : M H unit :=
  match fuel with
  | O => ret tt
  | S fuel =>
      if zero_end <=? cursor then ret tt
      else
        let count := Z.min (zero_end - cursor) MAX_WRITE in
        let data := zeros (Z.to_nat count) in
        write_all (Z.to_nat count) file cursor data ;;;
        zero_loop fuel file (cursor + count) zero_end
  end.

Definition host_fallocate (file : Fd) (offset length fmode : Z) : M H unit :=
  let unsupported := Z.lor FALLOC_FL_COLLAPSE_RANGE (Z.lor FALLOC_FL_INSERT_RANGE FALLOC_FL_UNSHARE_RANGE) in
  let supported := Z.lor FALLOC_FL_KEEP_SIZE (Z.lor FALLOC_FL_PUNCH_HOLE FALLOC_FL_ZERO_RANGE) in
  guard (negb (has_flag fmode unsupported || has_flag fmode (Z.lnot supported))) EOPNOTSUPP ;;;
  guard (negb (length =? 0)) EINVAL ;;;
  end_ <- ok_or (checked_add offset length) EFBIG ;;
  guard ((offset <? 2 ^ 63) && (length <? 2 ^ 63)) EFBIG ;;;
  if has_flag fmode FALLOC_FL_PUNCH_HOLE then
    guard (fmode =? Z.lor FALLOC_FL_PUNCH_HOLE FALLOC_FL_KEEP_SIZE) EOPNOTSUPP ;;;
    syscall (CPunchHole file offset length)
  else if has_flag fmode FALLOC_FL_ZERO_RANGE then
    m <- stat_of_fd file ;;
    let old_size := fsize m in
    zero_end <- (if has_flag fmode FALLOC_FL_KEEP_SIZE then ret (Z.min end_ old_size)
                 else (if old_size <? end_ then syscall (CFtruncate file end_) else ret tt) ;;; ret end_) ;;
    zero_loop (Z.to_nat ((zero_end - offset) / MAX_WRITE + 1)) file offset zero_end
  else
    r <- attempt (syscall (CPreallocate file true offset length)) ;;
    match r with
    | inl _ => ret tt
    | inr _ => syscall (CPreallocate file false offset length)
    end ;;;
    if has_flag fmode FALLOC_FL_KEEP_SIZE then ret tt
    else
      m <- stat_of_fd file ;;
      if fsize m <? end_ then syscall (CFtruncate file end_) else ret tt.

Definition fallocate (input : list Z) : M H (list Z) :=
  require_writable ;;;
  fh <- ok_or (get_u64 input 0) EINVAL ;;
  offset <- ok_or (get_u64 input 8) EINVAL ;;
  length <- ok_or (get_u64 input 16) EINVAL ;;
  fmode <- ok_or (get_u32 input 24) EINVAL ;;
  h <- get_handle fh ;;
  guard (h_writable h) EBADF ;;;
  host_fallocate (h_file h) offset length fmode ;;;
  ret [].

(** The copy, a megabyte at a time: it goes on only while the reads are full, so
    the length of the range bounds the rounds. *)
Fixpoint copy_loop (fuel : nat) (source target : Fd) (source_offset target_offset requested copied : Z) : M H Z :=
  match fuel with
  | O => ret copied
  | S fuel =>
      if requested <=? copied then ret copied
      else
        let want := Z.min (requested - copied) MAX_WRITE in
        data <- syscall (CPread source (Z.min (source_offset + copied) (2 ^ 64 - 1)) want) ;;
        if bool_decide (data = []) then ret copied
        else
          write_all (length data) target (Z.min (target_offset + copied) (2 ^ 64 - 1)) data ;;;
          let copied := copied + zlen data in
          if zlen data <? want then ret copied
          else copy_loop fuel source target source_offset target_offset requested copied
  end.

Definition copy_file_range (input : list Z) : M H (list Z) :=
  require_writable ;;;
  source_fh <- ok_or (get_u64 input 0) EINVAL ;;
  source_offset <- ok_or (get_u64 input 8) EINVAL ;;
  target_fh <- ok_or (get_u64 input 24) EINVAL ;;
  target_offset <- ok_or (get_u64 input 32) EINVAL ;;
  requested <- ok_or (get_u64 input 40) EINVAL ;;
  let requested := Z.min requested (2 ^ 32 - 1) in
  flags <- ok_or (get_u64 input 48) EINVAL ;;
  guard (flags =? 0) EINVAL ;;;
  source <- get_handle source_fh ;;
  target <- get_handle target_fh ;;
  guard (h_writable target) EBADF ;;;
  sm <- stat_of_fd (h_file source) ;;
  tm <- stat_of_fd (h_file target) ;;
  guard (negb (bool_decide (stat_key sm = stat_key tm) && ranges_overlap source_offset target_offset requested)) EINVAL ;;;
  copied <- copy_loop (Z.to_nat (requested / MAX_WRITE + 1)) (h_file source) (h_file target) source_offset target_offset
              requested 0 ;;
  ret (put_u32 copied ++ put_u32 0).

End Io.
