(* ===== verification/FsReaddir.v ===== *)
(** * Listing directories ([readdir], [src/devices/virtio/fs/server.rs])

    A page of a listing starts at an index and holds the records that fit. With a
    handle the listing is the one its OPENDIR read; with handle 0 it is read here
    and kept by node, at most 64 of them. *)

From S2P Require Import Prelude FsWire FsHost FsState FsDirs FsNodes FsOps FsIo.
Local Open Scope Z_scope.

(** The records that [limit] bytes can hold at most. *)
Definition min_record (plus : bool) : Z := align8 ((if plus then 128 else 0) + 24 + 1).
Definition record_len (plus : bool) (n : name) : Z := align8 ((if plus then 128 else 0) + 24 + zlen n).

(** [enumerate().skip(offset).take(max)]. *)
Fixpoint enumerate_from {A} (i : Z) (l : list A) : list (Z * A) :=
  match l with [] => [] | x :: l => (i, x) :: enumerate_from (i + 1) l end.
Definition page_batch (entries : list DirEntryInfo) (offset : Z) (max_entries : Z) : list (Z * DirEntryInfo) :=
  take (Z.to_nat max_entries) (drop (Z.to_nat (Z.min offset (zlen entries))) (enumerate_from 0 entries)).

(** One directory entry: node, next offset, length and type, name, padding. *)
Definition dirent_record (out : list Z) (node idx : Z) (n : name) (dtype : Z) : list Z :=
  pad8 (out ++ put_u64 node ++ put_u64 (idx + 1) ++ put_u32 (zlen n) ++ put_u32 dtype ++ n).

Definition set_listing (node : Z) (l : Fh0Listing) (s : Fs) : Fs :=
  set_fh0_finished (fh0_finished s ∖ {[node]}) (set_fh0_listings (<[node := l]> (fh0_listings s)) s).

(** The listing of [node] becomes the most recently read. *)
Definition touch_fh0 (node : Z) (s : Fs) : Fs :=
  let s := set_fh0_order (remove_first (Z.eqb node) (fh0_order s)) s in
  let s := make_room_for_fh0_listing s in
  set_fh0_order (fh0_order s ++ [node]) s.

Definition NANOS : Z := 1000000000.

Section Readdir.
Context {H : Type} {HF : HostFs H}.

Definition prepared_is_fresh (at_ : Z) : M H bool :=
  now <- query CClock 0 ;;
  secs <- gets cache_seconds ;;
  ret (saturating_sub now at_ <? secs * NANOS).

Definition readahead_enabled (s : Fs) : bool := negb (bool_decide (f_cache s = CacheNone)).

Definition has_socket_under (dir : path) (s : Fs) : bool :=
  existsb (fun e : path * SocketNode => bool_decide (parent e.1 = Some dir)) (map_to_list (sockets s)).

(** The listing read from the host. *)
Definition plain_listing (dir : path) : M H Fh0Listing :=
  entries <- dir_entries dir ;;
  ret (mkFh0 entries [] None).

Definition fh0_listing_for (dir : path) (plus : bool) : M H Fh0Listing :=
  sock <- gets (has_socket_under dir) ;;
  enabled <- gets readahead_enabled ;;
  if plus && (enabled : bool) && negb sock then
    prepared <- query (CReadaheadTake dir) None ;;
    match prepared with
    | None => plain_listing dir
    | Some prepared =>
        relative <- relative_of_path dir ;;
        fd <- dir_fd relative ;;
        dm <- stat_of_fd fd ;;
        if bool_decide ((st_ctime dm, st_ctime_nsec dm) = pd_ctime prepared) then
          fresh <- prepared_is_fresh (pd_read_at prepared) ;;
          ret (mkFh0 (dot_entries ++ map p_info (pd_entries prepared))
                 (if (fresh : bool) then map (fun e => (p_meta e, p_guest e)) (pd_entries prepared) else [])
                 (if fresh then Some (pd_read_at prepared) else None))
        else plain_listing dir
    end
  else plain_listing dir.

(** The batch of a request with handle 0, and the length of its listing. *)
Definition fh0_batch (node : Z) (dir : path) (offset max_entries : Z) (plus : bool)
    : M H (option Z * list (Z * DirEntryInfo)) :=
  known <- gets (fun s => bool_decide (is_Some (fh0_listings s !! node))) ;;
  (if negb (negb (offset =? 0) && (known : bool)) then
     l <- fh0_listing_for dir plus ;;
     modify (fun s => touch_fh0 node (set_listing node l s))
   else modify (touch_fh0 node)) ;;;
  at_ <- gets (fun s => l ← fh0_listings s !! node; l_prepared_at l) ;;
  stale <- match at_ with Some t => fresh <- prepared_is_fresh t ;; ret (negb fresh) | None => ret false end ;;
  (if (stale : bool) then modify (fun s => set_fh0_listings (alter clear_prepared node (fh0_listings s)) s) else ret tt) ;;;
  l <- gets (fun s => fh0_listings s !! node) ;;
  ret (zlen ∘ l_entries <$> l, page_batch (default [] (l_entries <$> l)) offset max_entries).

Definition dir_handle (fh : Z) : M H DirHandle :=
  d <- gets (fun s => dir_handles s !! fh) ;;
  ok_or d EBADF.

(** [stat_listed]: the directory itself, its parent, or an entry by name. *)
Definition stat_listed (listing : option Fd) (idx : Z) (n : name) (parent_meta : option Stat) : M H Stat :=
  if idx =? 0 then fd <- ok_or listing EINVAL ;; stat_of_fd fd
  else if idx =? 1 then ok_or parent_meta EINVAL
  else
    n <- ok_or (cstring n) EINVAL ;;
    fd <- ok_or listing EINVAL ;;
    stat_at fd n.

(** What the records of one page share. *)
Record Page := mkPage {
  pg_node : Z; pg_fh : Z; pg_dir : path; pg_parent : path; pg_parent_meta : option Stat; pg_parent_node : Z;
  pg_listing : option Fd; pg_limit : Z; pg_plus : bool }.

Definition record_path (pg : Page) (idx : Z) (e : DirEntryInfo) : path :=
  if idx =? 0 then pg_dir pg else if idx =? 1 then pg_parent pg else join (pg_dir pg) (e_name e).

(** A prepared guest attribute is kept unless the node already has one. *)
Definition keep_guest_attr (node : Z) (g : option GuestAttr) (s : Fs) : Fs :=
  upd_node node (fun n => match n_guest_attr n with None => set_n_guest_attr (Some g) n | Some _ => n end) s.

(** A READDIRPLUS record; [None] is an entry that is gone. *)
Definition plus_record (pg : Page) (out : list Z) (idx : Z) (e : DirEntryInfo) : M H (option (list Z)) :=
  let p := record_path pg idx e in
  sock <- gets (fun s => sockets s !! p) ;;
  match sock with
  | Some socket =>
      id <- update (socket_node_id p (s_ino socket)) ;;
      modify (remember_lookup id) ;;;
      ret (Some (dirent_record (out ++ socket_entry_out id socket) id idx (e_name e) DT_SOCK))
  | None =>
      prepared <- gets (fun s =>
        if (pg_fh pg =? 0) && (1 <? idx) then l ← fh0_listings s !! pg_node pg; get_at (l_prepared l) (idx - 2) else None) ;;
      r <- match prepared with
        | Some (m, _) => ret (inl m)
        | None => attempt (stat_listed (pg_listing pg) idx (e_name e) (pg_parent_meta pg))
        end ;;
      match r with
      | inr _ => ret None
      | inl m =>
          id <- (if idx =? 0 then ret (pg_node pg) else if idx =? 1 then ret (pg_parent_node pg) else node_for p m) ;;
          match prepared with Some (_, g) => modify (keep_guest_attr id g) | None => ret tt end ;;;
          (if 1 <? idx then modify (remember_lookup id) else ret tt) ;;;
          entry <- self_entry_out id m ;;
          ret (Some (dirent_record (out ++ entry) id idx (e_name e) (dirent_type m)))
      end
  end.

(** A READDIR record. *)
Definition plain_record (pg : Page) (out : list Z) (idx : Z) (e : DirEntryInfo) : M H (option (list Z)) :=
  let p := record_path pg idx e in
  it <- (if negb (e_dtype e =? 0) && (1 <? idx) then ret (Some (e_ino e, e_dtype e))
         else
           sock <- gets (fun s => sockets s !! p) ;;
           match sock with
           | Some socket => ret (Some (s_ino socket, DT_SOCK))
           | None =>
               r <- attempt (stat_listed (pg_listing pg) idx (e_name e) (pg_parent_meta pg)) ;;
               ret (match r with inl m => Some (ino m, dirent_type m) | inr _ => None end)
           end) ;;
  ret (match it with
       | None => None
       | Some (entry_ino, dtype) =>
           let id := if idx =? 0 then pg_node pg else if idx =? 1 then pg_parent_node pg else entry_ino in
           Some (dirent_record out id idx (e_name e) dtype)
       end).

(** The records of a batch that fit, and whether one did not. *)
Fixpoint page_records (pg : Page) (batch : list (Z * DirEntryInfo)) (out : list Z) : M H (list Z * bool) :=
  match batch with
  | [] => ret (out, false)
  | (idx, e) :: batch =>
      if pg_limit pg <? zlen out + record_len (pg_plus pg) (e_name e) then ret (out, true)
      else
        r <- (if pg_plus pg then plus_record pg out idx e else plain_record pg out idx e) ;;
        page_records pg batch (default out r)
  end.

(** The subdirectories of a batch, last first, for the readahead workers. *)
Fixpoint request_subdirs (dir : path) (fd : Fd) (batch : list (Z * DirEntryInfo)) : M H unit :=
  match batch with
  | [] => ret tt
  | (idx, e) :: batch =>
      (if (idx <=? 1) || negb (e_dtype e =? DT_DIR) then ret tt
       else match cstring (e_name e) with
       | None => ret tt
       | Some n => query (CReadaheadRequest (join dir (e_name e)) fd n) tt
       end) ;;;
      request_subdirs dir fd batch
  end.

(** The descriptor the records are stat'd through, when one needs it. *)
Definition page_listing (fh : Z) (dir : path) (plus : bool) (batch : list (Z * DirEntryInfo)) : M H (option Fd) :=
  if plus || existsb (fun ie : Z * DirEntryInfo => (ie.1 <=? 1) || (e_dtype ie.2 =? DT_UNKNOWN)) batch then
    fd <- (if fh =? 0 then relative <- relative_of_path dir ;; dir_fd_owned relative
           else d <- dir_handle fh ;; dup_cloexec (dh_file d)) ;;
    ret (Some fd)
  else ret None.

Definition page_readahead (dir : path) (plus : bool) (listing : option Fd) (batch : list (Z * DirEntryInfo)) : M H unit :=
  enabled <- gets readahead_enabled ;;
  if plus && existsb (fun ie : Z * DirEntryInfo => (1 <? ie.1) && (e_dtype ie.2 =? DT_DIR)) batch && (enabled : bool) then
    match listing with
    | None => ret tt
    | Some fd =>
        r <- attempt (dup_cloexec fd) ;;
        match r with inl fd => request_subdirs dir fd (rev batch) | inr _ => ret tt end
    end
  else ret tt.

(** The page's last index, one past it. *)
Definition batch_end (offset : Z) (batch : list (Z * DirEntryInfo)) : Z :=
  match last batch with Some (idx, _) => idx + 1 | None => offset end.

Definition readdir (node : Z) (input : list Z) (capacity : Z) (plus : bool) : M H (list Z) :=
  fh <- ok_or (get_u64 input 0) EINVAL ;;
  offset <- ok_or (get_u64 input 8) EINVAL ;;
  requested <- ok_or (get_u32 input 16) EINVAL ;;
  let limit := Z.min requested capacity in
  dir <- node_path node ;;
  (if negb (fh =? 0) then dir_handle fh ;;; ret tt else ret tt) ;;;
  root <- gets f_root ;;
  match strip_prefix root dir with
  | Some relative => attempt (dir_fd relative) ;;; ret tt
  | None => ret tt
  end ;;;
  let parent_path := if bool_decide (dir = root) then root else default root (parent dir) in
  parent_meta <- (if offset <=? 1 then m <- stat_in_export parent_path ;; ret (Some m) else ret None) ;;
  parent_node <- match parent_meta with
    | Some m => if plus then node_for parent_path m else ret (ino m)
    | None => ret 0
    end ;;
  let max_entries := limit / min_record plus + 1 in
  lb <- (if fh =? 0 then fh0_batch node dir offset max_entries plus
         else d <- dir_handle fh ;; ret (None, page_batch (dh_entries d) offset max_entries)) ;;
  let '(fh0_len, batch) := lb in
  listing <- page_listing fh dir plus batch ;;
  page_readahead dir plus listing batch ;;;
  let pg := mkPage node fh dir parent_path parent_meta parent_node listing limit plus in
  recs <- page_records pg batch [] ;;
  let '(out, full) := recs in
  (if match fh0_len with Some len => negb full && (len <=? batch_end offset batch) | None => false end
   then modify (fun s => set_fh0_finished ({[node]} ∪ fh0_finished s) s) else ret tt) ;;;
  ret out.

End Readdir.
