(* ===== verification/FsServer.v ===== *)
(** * The FUSE dispatcher ([handle_fuse], [src/devices/virtio/fs/server.rs])

    A request is its bytes; the answer is the bytes of a reply, empty for the
    requests that have none and for a lock that waits. *)

From S2P Require Import Prelude Memory Queue FsWire FsHost FsState FsDirs FsNodes FsOps FsIo FsReaddir.
Local Open Scope Z_scope.

Section Server.
Context {H : Type} {HF : HostFs H}.

(** The handler of an opcode, on the payload. *)
Definition dispatch (queues : list Queue) (opcode unique node : Z) (payload : list Z) (capacity : Z) (c : RequestContext)
    : M H (list Z) :=
  let op_is v := opcode =? v in
  if op_is Op.INIT then init queues payload
  else if op_is Op.LOOKUP then lookup_op node payload
  else if op_is Op.GETATTR then getattr node payload
  else if op_is Op.SETATTR then setattr node payload
  else if op_is Op.READLINK then readlink node
  else if op_is Op.SYMLINK then symlink node payload c
  else if op_is Op.MKNOD then mknod node payload c
  else if op_is Op.MKDIR then mkdir node payload c
  else if op_is Op.UNLINK then remove node payload false
  else if op_is Op.RMDIR then remove node payload true
  else if op_is Op.RENAME then rename node payload false
  else if op_is Op.RENAME2 then rename node payload true
  else if op_is Op.LINK then link node payload
  else if op_is Op.OPEN then open_op node payload false
  else if op_is Op.OPENDIR then
    none <- gets (fun s => bool_decide (f_cache s = CacheNone)) ;;
    if (none : bool) then open_op node payload true else fail ENOSYS
  else if op_is Op.READ then read_op node payload capacity
  else if op_is Op.WRITE then write_op node payload
  else if op_is Op.READDIR then readdir node payload capacity false
  else if op_is Op.STATFS then statfs
  else if op_is Op.ACCESS then access node payload
  else if op_is Op.CREATE then create node payload c
  else if op_is Op.SETXATTR then setxattr node payload
  else if op_is Op.GETXATTR then getxattr node payload
  else if op_is Op.LISTXATTR then listxattr node payload
  else if op_is Op.REMOVEXATTR then removexattr node payload
  else if op_is Op.RELEASE then release payload
  else if op_is Op.RELEASEDIR then release_dir payload
  else if op_is Op.FLUSH then flush payload
  else if op_is Op.FSYNC then fsync payload
  else if op_is Op.FSYNCDIR then fsync_dir node payload
  else if op_is Op.GETLK || op_is Op.SETLK || op_is Op.SETLKW then lock payload opcode unique
  else if op_is Op.POLL then poll payload
  else if op_is Op.FALLOCATE then fallocate payload
  else if op_is Op.READDIRPLUS then readdir node payload capacity true
  else if op_is Op.LSEEK then lseek payload
  else if op_is Op.COPY_FILE_RANGE then copy_file_range payload
  else if op_is Op.SYNCFS then syncfs
  else if op_is Op.TMPFILE then tmpfile node payload c
  else if op_is Op.STATX then statx node payload
  else if op_is Op.IOCTL then fail ENOTTY
  else if op_is Op.SETUPMAPPING || op_is Op.REMOVEMAPPING then fail EOPNOTSUPP
  else fail ENOSYS.

Definition handle_fuse (queues : list Queue) (raw_ : list Z) (max_out : Z) : M H (list Z) :=
  let declared := default 0 (get_u32 raw_ 0) in
  let opcode := default 0 (get_u32 raw_ 4) in
  let unique := default 0 (get_u64 raw_ 8) in
  let node := default 0 (get_u64 raw_ 16) in
  (if negb (request_is_read_only opcode (default [] (get_from raw_ IN_HEADER_LEN))) then drop_prepared else ret tt) ;;;
  let c := mkContext (default 0 (get_u32 raw_ 24)) (default 0 (get_u32 raw_ 28)) in
  if (declared <? IN_HEADER_LEN) || (zlen raw_ <? declared) then ret (error_response unique EINVAL)
  else
    payload <- expect (get_range raw_ IN_HEADER_LEN declared) ;;
    if opcode =? Op.FORGET then modify (forget node payload) ;;; ret []
    else if opcode =? Op.BATCH_FORGET then modify (batch_forget payload) ;;; ret []
    else if opcode =? Op.DESTROY then ret []
    else
      r <- attempt (dispatch queues opcode unique node payload (saturating_sub max_out OUT_HEADER_LEN) c) ;;
      parked <- gets (fun s => bool_decide (is_Some (lock_to_park s))) ;;
      ret (if (parked : bool) then []
           else match r with
           | inl payload => success_response unique payload
           | inr errno => error_response unique errno
           end).

(** READ and WRITE straight to and from the chain when they fit, anything else
    from the gathered bytes. *)
Definition handle_fuse_desc (queues : list Queue) (input output : list Seg) (max_out : Z) : M H Reply :=
  m <- get_ram ;;
  match gather m input 0 IN_HEADER_LEN with
  | None => ret (Buffered (error_response 0 EIO))
  | Some header =>
      let declared := default 0 (get_u32 header 0) in
      let opcode := default 0 (get_u32 header 4) in
      let unique := default 0 (get_u64 header 8) in
      direct <- (if opcode =? Op.READ then read_direct unique declared input output max_out
                 else if opcode =? Op.WRITE then write_direct (default 0 (get_u64 header 16)) unique declared input
                 else ret None) ;;
      match direct with
      | Some reply => ret reply
      | None =>
          m <- get_ram ;;
          match gather m input 0 (segs_len input) with
          | None => ret (Buffered (error_response unique EIO))
          | Some request => response <- handle_fuse queues request max_out ;; ret (Buffered response)
          end
      end
  end.

End Server.
