(* ===== verification/FsDev.v ===== *)
(** * The virtio-fs device ([src/devices/virtio/fs/server.rs])

    The registers and the two rings around the FUSE session: the register window,
    the chains a drain serves, the SETLKW requests parked on a held lock and their
    retries, and the reset that ends a session. A device operation is a program
    over the device, whose session runs as a program of [FsState]. *)

From S2P Require Import Prelude Memory Irq Queue Virtio FsWire FsHost FsState FsDirs FsNodes FsOps FsIo FsReaddir FsServer.
Local Open Scope Z_scope.

Definition MAGIC_VALUE : Z := 0x74726976.
Definition VIRTIO_FS_ID : Z := 26.
Definition VENDOR : Z := 0x46494f4e.
Definition F_VERSION_1_HI : Z := 1.
Definition NUM_QUEUES : Z := 2.
Definition TAG_LEN : Z := 36.

(** ** The limits of a share ([fdlimit.rs], [dir_cache_limit]) *)

Definition RESERVED_FOR_THE_VMM : Z := 128.
(** [soft]: the limit in force, when the host tells. *)
Definition guest_handle_budget (soft : option Z) : Z :=
  Z.max (saturating_sub (default 256 soft) RESERVED_FOR_THE_VMM) 64.
Definition dir_cache_limit (budget : Z) : Z := Z.min (Z.min (Z.max (budget / 16) 128) 4096) (budget / 4).

(** [DirCache::new], given the descriptor of the root. *)
Definition dir_cache_new (root_fd : Fd) (limit : Z) (caching : bool) : DirCache :=
  mkDirCache root_fd ∅ caching None [] 0 (Z.max limit 1).

(** The session [VirtioFs::new] starts, given what the host says of the root. *)
Definition new_session (root : path) (writable : bool) (cache : CachePolicy) (ids : GuestIds) (root_meta : Stat)
    (root_fd : Fd) (budget : Z) : Fs :=
  mkFs root writable cache ids
    {[ FUSE_ROOT_ID := mkNode (stat_key root_meta) [root] (2 ^ 64 - 1) 0 None ]}
    {[ stat_key root_meta := FUSE_ROOT_ID ]} (FUSE_ROOT_ID + 1) ∅ 1 ∅ ∅ ∅ [] ∅ 1 budget 0
    ∅ [] 0 (budget / 4) 0 0 1 0 0
    (dir_cache_new root_fd (dir_cache_limit budget) (negb (bool_decide (cache = CacheNone)))) false 0 None.

(** ** Chains *)

(** The loop of [handle_chain]: the readable and the writable parts, [None] for a
    chain that is answered with nothing. *)
Fixpoint chain_loop (fuel : nat) (q : Queue) (m : GuestRam) (desc : Z) (input output : list Seg) (total_in : Z)
    : option (list Seg * list Seg * Z) :=
  match fuel with
  | O => Some (input, output, total_in)
  | S fuel =>
      da ← desc_addr q desc;
      d ← read_desc m da;
      let more input output total := if Z.land (d_flags d) VIRTQ_DESC_F_NEXT =? 0 then Some (input, output, total)
        else chain_loop fuel q m (d_next d) input output total in
      if negb (Z.land (d_flags d) VIRTQ_DESC_F_WRITE =? 0) then more input (output ++ [(d_addr d, d_len d)]) total_in
      else
        let total := total_in + d_len d in
        if MAX_REQUEST <? total then None
        else more (input ++ [(d_addr d, d_len d)]) output total
  end.

(** A chain with nowhere to put a reply is served only when it wants none. *)
Definition reply_not_needed (m : GuestRam) (input : list Seg) : bool :=
  match gather m input 4 4 with
  | None => false
  | Some opcode => (le_val opcode =? Op.FORGET) || (le_val opcode =? Op.BATCH_FORGET)
  end.

Definition request_chain (q : Queue) (m : GuestRam) (head : Z) : option (list Seg * list Seg) :=
  c ← chain_loop (Z.to_nat (Queue.size q)) q m head [] [] 0;
  let '(input, output, total_in) := c in
  if total_in <? IN_HEADER_LEN then None
  else if bool_decide (output = []) && negb (reply_not_needed m input) then None
  else Some (input, output).

(** [write_reply]: the RAM, and the bytes that landed. *)
Definition write_reply (m : GuestRam) (output : list Seg) (response : list Z) : GuestRam * Z :=
  if segs_len output <? zlen response then (m, 0)
  else
    let '(m, rest, _) := scatter m output response in
    (m, u32 (zlen response - zlen rest)).

(** ** The device *)

Record LockWaiter := mkWaiter {
  w_queue : nat; w_head : Z; w_descriptors : Z; w_output : list Seg; w_unique : Z; w_fh : Z; w_call : LockCall }.

(** The entries of a queue that waiters hold. *)
Definition waiters_held (qi : nat) (l : list LockWaiter) : Z :=
  foldr (fun w acc => if (w_queue w =? qi)%nat then w_descriptors w + acc else acc) 0 l.

Record Dev (H L : Type) := mkDev {
  d_tag : list Z; d_status : Z; d_feat_sel : Z; d_queue_sel : Z; d_queues : list Queue; d_interrupt : Z;
  d_irq : Irq L; d_notified : Z; d_waiters : list LockWaiter; d_world : World H }.
Arguments mkDev {H L} _ _ _ _ _ _ _ _ _ _.
Arguments d_tag {H L} _.
Arguments d_status {H L} _.
Arguments d_feat_sel {H L} _.
Arguments d_queue_sel {H L} _.
Arguments d_queues {H L} _.
Arguments d_interrupt {H L} _.
Arguments d_irq {H L} _.
Arguments d_notified {H L} _.
Arguments d_waiters {H L} _.
Arguments d_world {H L} _.

Section Fields.
Context {H L : Type}.
Definition set_d_regs (st sel qsel : Z) (d : Dev H L) : Dev H L :=
  mkDev (d_tag d) st sel qsel (d_queues d) (d_interrupt d) (d_irq d) (d_notified d) (d_waiters d) (d_world d).
Definition set_d_queues (v : list Queue) (d : Dev H L) : Dev H L :=
  mkDev (d_tag d) (d_status d) (d_feat_sel d) (d_queue_sel d) v (d_interrupt d) (d_irq d) (d_notified d) (d_waiters d) (d_world d).
Definition set_d_interrupt (v : Z) (d : Dev H L) : Dev H L :=
  mkDev (d_tag d) (d_status d) (d_feat_sel d) (d_queue_sel d) (d_queues d) v (d_irq d) (d_notified d) (d_waiters d) (d_world d).
Definition set_d_irq (v : Irq L) (d : Dev H L) : Dev H L :=
  mkDev (d_tag d) (d_status d) (d_feat_sel d) (d_queue_sel d) (d_queues d) (d_interrupt d) v (d_notified d) (d_waiters d) (d_world d).
Definition set_d_notified (v : Z) (d : Dev H L) : Dev H L :=
  mkDev (d_tag d) (d_status d) (d_feat_sel d) (d_queue_sel d) (d_queues d) (d_interrupt d) (d_irq d) v (d_waiters d) (d_world d).
Definition set_d_waiters (v : list LockWaiter) (d : Dev H L) : Dev H L :=
  mkDev (d_tag d) (d_status d) (d_feat_sel d) (d_queue_sel d) (d_queues d) (d_interrupt d) (d_irq d) (d_notified d) v (d_world d).
Definition set_d_world (v : World H) (d : Dev H L) : Dev H L :=
  mkDev (d_tag d) (d_status d) (d_feat_sel d) (d_queue_sel d) (d_queues d) (d_interrupt d) (d_irq d) (d_notified d) (d_waiters d) v.
Definition put_ram (m : GuestRam) (d : Dev H L) : Dev H L :=
  set_d_world (mkWorld (w_fs (d_world d)) m (w_host (d_world d)) (w_log (d_world d))) d.
End Fields.

(** Device programs: a panic ends them, an error cannot reach them. *)
Definition DM (H L A : Type) : Type := Dev H L -> option A * Dev H L.

Section DevPrograms.
Context {H L : Type}.
Definition dret {A} (a : A) : DM H L A := fun d => (Some a, d).
Definition dbind {A B} (p : DM H L A) (k : A -> DM H L B) : DM H L B := fun d =>
  match p d with (Some a, d) => k a d | (None, d) => (None, d) end.
Definition dget {A} (f : Dev H L -> A) : DM H L A := fun d => (Some (f d), d).
Definition dset (f : Dev H L -> Dev H L) : DM H L unit := fun d => (Some tt, f d).
(** [self.queues[idx]]. *)
Definition dexpect {A} (o : option A) : DM H L A := fun d => (o, d).
(** A program of the session that answers its own errors: one that would end with
    an error counts as a panic, and none does. *)
Definition session {A} (p : M H A) : DM H L A := fun d =>
  match p (d_world d) with
  | (Ok a, w) => (Some a, set_d_world w d)
  | (_, w) => (None, set_d_world w d)
  end.
End DevPrograms.

Declare Scope dev_scope.
Delimit Scope dev_scope with dev.
Open Scope dev_scope.
Notation "'let*' x := p 'in' k" := (dbind p (fun x => k)) (at level 10, x binder, p at level 100, k at level 200) : dev_scope.
Notation "p ;* k" := (dbind p (fun _ => k)) (at level 100, right associativity) : dev_scope.

Section Device.
Context {H L : Type} {HF : HostFs H} {IL : IrqLine L}.

Definition dev_queue (qi : nat) : DM H L Queue := let* q := dget (fun d => d_queues d !! qi) in dexpect q.
Definition dev_ram (d : Dev H L) : GuestRam := w_ram (d_world d).
Definition dev_fs (d : Dev H L) : Fs := w_fs (d_world d).

Definition irq_level (d : Dev H L) : bool := negb (d_interrupt d =? 0).
Definition connect_irq (l : L) (d : Dev H L) : Dev H L := set_d_irq (connect (d_irq d) l) d.
Definition sync_irq (d : Dev H L) : Dev H L := set_d_irq (Irq.set (d_irq d) (irq_level d)) d.

(** [self.lock_to_park.take()]. *)
Definition take_lock_to_park : M H (option PendingLock) := update (fun s => (lock_to_park s, set_lock_to_park None s)).

Definition reply_in (output : list Seg) (response : list Z) : DM H L Z :=
  let* m := dget dev_ram in
  let '(m, used) := write_reply m output response in
  dset (put_ram m) ;* dret used.

(** [handle_chain]: the used length, [None] for a SETLKW that is now parked. *)
Definition handle_chain (qi : nat) (head : Z) : DM H L (option Z) :=
  let* q := dev_queue qi in
  let* m := dget dev_ram in
  match request_chain q m head with
  | None => dret (Some 0)
  | Some (input, output) =>
      let* queues := dget d_queues in
      let* r := session (handle_fuse_desc queues input output (segs_len output)) in
      match r with
      | Direct n => dret (Some (u32 n))
      | Buffered response =>
          let* p := session take_lock_to_park in
          match p with
          | Some pending =>
              let* held := dget (fun d => waiters_held qi (d_waiters d)) in
              let descriptors := zlen input + zlen output in
              if lock_cap (Queue.size q) <? held + descriptors then
                let* used := reply_in output (error_response (pl_unique pending) ENOLCK) in dret (Some used)
              else
                dset (fun d => set_d_waiters (d_waiters d ++
                  [mkWaiter qi head descriptors output (pl_unique pending) (pl_fh pending) (pl_call pending)]) d) ;*
                dret None
          | None => let* used := reply_in output response in dret (Some used)
          end
      end
  end.

Definition complete (qi : nat) (head used : Z) : DM H L unit :=
  let* q := dev_queue qi in
  dset (fun d => put_ram (push_used q (dev_ram d) head used) d).

(** The loop of [process_queue_bounded]: [n] chains from index [lst]. *)
Fixpoint serve_chains (n : nat) (qi : nat) (lst : Z) (serviced : bool) : DM H L (Z * bool) :=
  match n with
  | O => dret (lst, serviced)
  | S n =>
      let* q := dev_queue qi in
      let* m := dget dev_ram in
      match (slot ← avail_slot q lst; read_u16 m slot) with
      | None => dret (lst, serviced)
      | Some head =>
          let* r := handle_chain qi head in
          match r with
          | Some used => complete qi head used ;* serve_chains n qi (u16 (lst + 1)) true
          | None => serve_chains n qi (u16 (lst + 1)) serviced
          end
      end
  end.

Definition process_queue_bounded (qi : nat) (budget : Z) : DM H L bool :=
  let* q := dev_queue qi in
  if negb (is_ready q) then dret false
  else
    let* m := dget dev_ram in
    match pending q m with
    | None => dret false
    | Some pend =>
        let take_ := Z.min pend budget in
        let* r := serve_chains (Z.to_nat take_) qi (last_avail q) false in
        let* q := dev_queue qi in
        dset (fun d => set_d_queues (<[qi := set_last_avail q r.1]> (d_queues d)) d) ;*
        (if (r.2 : bool) then dset (fun d => set_d_interrupt (Z.lor (d_interrupt d) 1) d) else dret tt) ;*
        dret (take_ <? pend)
    end.

(** The reply to a parked SETLKW. *)
Definition answer_waiter (w : LockWaiter) (response : list Z) : DM H L unit :=
  let* used := reply_in (w_output w) response in
  complete (w_queue w) (w_head w) used ;*
  dset (fun d => set_d_interrupt (Z.lor (d_interrupt d) 1) d).

(** One parked SETLKW, once: answered, or parked again. *)
Definition retry_one (w : LockWaiter) : DM H L unit :=
  let* q := dev_queue (w_queue w) in
  if negb (is_ready q) then dret tt
  else
    let* r := session (h <- gets (fun s => handles s !! w_fh w) ;;
                       match h with None => ret (inr (Some EBADF)) | Some h => try_lock (h_file h) (w_call w) end) in
    match r with
    | inr None => dset (fun d => set_d_waiters (d_waiters d ++ [w]) d)
    | inr (Some errno) => answer_waiter w (error_response (w_unique w) errno)
    | inl _ =>
        session (modify (note_posix_lock (w_fh w) (w_call w))) ;*
        answer_waiter w (success_response (w_unique w) [])
    end.

Fixpoint retry_each (l : list LockWaiter) : DM H L unit :=
  match l with [] => dret tt | w :: l => retry_one w ;* retry_each l end.

Definition has_lock_waiters (d : Dev H L) : bool := negb (bool_decide (d_waiters d = [])).

Definition retry_lock_waiters : DM H L bool :=
  let* waiters := dget d_waiters in
  if bool_decide (waiters = []) then dret false
  else
    dset (set_d_waiters []) ;*
    retry_each waiters ;*
    dget has_lock_waiters.

Definition take_notified : DM H L Z := fun d => (Some (d_notified d), set_d_notified 0 d).

(** The loop over the rings, from ring [qi] on. *)
Fixpoint drain_rings (l : list nat) (mask budget : Z) (remaining : bool) : DM H L bool :=
  match l with
  | [] => dret remaining
  | qi :: l =>
      if Z.testbit mask (Z.of_nat qi) then
        let* more := process_queue_bounded qi budget in
        (if (more : bool) then dset (fun d => set_d_notified (Z.lor (d_notified d) (Z.shiftl 1 (Z.of_nat qi))) d) else dret tt) ;*
        drain_rings l mask budget (remaining || more)
      else drain_rings l mask budget remaining
  end.

Definition drain_notified_bounded (budget : Z) : DM H L bool :=
  let* mask := take_notified in
  let* remaining := drain_rings [0; 1]%nat mask budget false in
  let* waiting := retry_lock_waiters in
  dset sync_irq ;*
  dret (remaining || waiting).

Definition drain_notified : DM H L unit := drain_notified_bounded 0xffff ;* dret tt.

(** ** Reset *)

Fixpoint remove_temporaries (l : list FileHandle) : M H unit :=
  match l with [] => ret tt | h :: l => attempt (remove_temporary h) ;;; remove_temporaries l end.

(** What [reset] does to the session. *)
Definition clear_session (s : Fs) : Fs :=
  drain_parked
    (set_next_node (FUSE_ROOT_ID + 1)
      (set_inode_ids (filter (fun e : (Z * Z) * Z => e.2 = FUSE_ROOT_ID) (inode_ids s))
        (set_nodes (filter (fun e : Z * Node => e.1 = FUSE_ROOT_ID) (nodes s))
          (set_sockets ∅ s)))).

Definition reset_session : M H unit :=
  hs <- update (fun s => ((map_to_list (handles s)).*2, set_handles ∅ s)) ;;
  remove_temporaries hs ;;;
  modify (fun s => set_fh0_finished ∅ (set_fh0_order [] (set_fh0_listings ∅ (set_dir_handles ∅ s)))) ;;;
  query CReadaheadInvalidate tt ;;;
  modify (fun s => set_lock_to_park None (clear_session s)).

Definition reset : DM H L unit :=
  dset (fun d => set_d_notified 0 (set_d_regs 0 0 0 (set_d_interrupt 0 (set_d_queues (map Queue.reset (d_queues d)) d)))) ;*
  session reset_session ;*
  dset (set_d_waiters []).

(** ** The register window *)

(** [if let Some(queue) = self.queue()]. *)
Definition on_queue (f : GuestRam -> Queue -> Queue) : DM H L unit :=
  dset (fun d => set_d_queues (alter (f (dev_ram d)) (Z.to_nat (d_queue_sel d)) (d_queues d)) d).

Definition serve_write (offset v : Z) : DM H L unit :=
  if offset =? Mmio.DEVICE_FEATURES_SEL then dset (fun d => set_d_regs (d_status d) v (d_queue_sel d) d)
  else if offset =? Mmio.QUEUE_SEL then dset (fun d => set_d_regs (d_status d) (d_feat_sel d) v d)
  else if offset =? Mmio.QUEUE_NUM then on_queue (fun m q => queue_op m q (SetNum v))
  else if offset =? Mmio.QUEUE_READY then on_queue (fun m q => queue_op m q (SetReady v))
  else if (offset =? Mmio.QUEUE_NOTIFY) && (v <? NUM_QUEUES) then
    dset (fun d => set_d_notified (Z.lor (d_notified d) (Z.shiftl 1 v)) d)
  else if offset =? Mmio.INTERRUPT_ACK then dset (fun d => set_d_interrupt (Z.land (d_interrupt d) (Z.lnot v)) d)
  else if offset =? Mmio.STATUS then
    if v =? 0 then reset else dset (fun d => set_d_regs v (d_feat_sel d) (d_queue_sel d) d)
  else if offset =? Mmio.QUEUE_DESC_LOW then on_queue (fun m q => queue_op m q (SetDescLo v))
  else if offset =? Mmio.QUEUE_DESC_HIGH then on_queue (fun m q => queue_op m q (SetDescHi v))
  else if offset =? Mmio.QUEUE_DRIVER_LOW then on_queue (fun m q => queue_op m q (SetAvailLo v))
  else if offset =? Mmio.QUEUE_DRIVER_HIGH then on_queue (fun m q => queue_op m q (SetAvailHi v))
  else if offset =? Mmio.QUEUE_DEVICE_LOW then on_queue (fun m q => queue_op m q (SetUsedLo v))
  else if offset =? Mmio.QUEUE_DEVICE_HIGH then on_queue (fun m q => queue_op m q (SetUsedHi v))
  else dret tt.

(** The tag, then the number of request queues. *)
Definition read_config (tag : list Z) (offset : Z) : Z :=
  le_val ((fun i => default 0 (get_at (tag ++ le_bytes 4 1) (offset + i))) <$> seqZ 0 8).

Definition serve_read (d : Dev H L) (offset : Z) : Z :=
  if offset =? Mmio.MAGIC then MAGIC_VALUE
  else if offset =? Mmio.VERSION then 2
  else if offset =? Mmio.DEVICE_ID then VIRTIO_FS_ID
  else if offset =? Mmio.VENDOR_ID then VENDOR
  else if (offset =? Mmio.DEVICE_FEATURES) && (d_feat_sel d =? 1) then F_VERSION_1_HI
  else if (offset =? Mmio.QUEUE_NUM_MAX) && (d_queue_sel d <? NUM_QUEUES) then QUEUE_NUM_MAX
  else if offset =? Mmio.QUEUE_READY then
    match d_queues d !! Z.to_nat (d_queue_sel d) with Some q => Z.b2z (is_ready q) | None => 0 end
  else if offset =? Mmio.INTERRUPT_STATUS then d_interrupt d
  else if offset =? Mmio.STATUS then d_status d
  else if bool_decide (offset ∈ [Mmio.SHM_LEN_LOW; Mmio.SHM_LEN_HIGH; Mmio.SHM_BASE_LOW; Mmio.SHM_BASE_HIGH]) then 0xffff_ffff
  else if Mmio.CONFIG <=? offset then read_config (d_tag d) (offset - Mmio.CONFIG)
  else 0.

Definition serve_mmio (offset : Z) (is_write : bool) (value : Z) : DM H L Z :=
  if is_write then serve_write offset (u32 value) ;* dret 0 else dget (fun d => serve_read d offset).

Definition mmio (offset : Z) (is_write : bool) (value : Z) : DM H L Z :=
  let* r := serve_mmio offset is_write value in
  dset sync_irq ;*
  dret r.

(** [VirtioFs::new]: [root_ok] is whether the path is absolute and a directory,
    the host's answers are its canonical form, its [lstat] and its descriptor. *)
Definition tag_ok (tag : list Z) : bool :=
  negb (bool_decide (tag = []) || (TAG_LEN <? zlen tag) || bool_decide (0 ∈ tag)).

Definition new (root_ok : bool) (tag : list Z) (writable : bool) (cache : CachePolicy) (canonical : option path)
    (root_meta : option Stat) (root_raw : option Z) (budget : Z) (m : GuestRam) (h : H) : option (Dev H L) :=
  if negb (root_ok && tag_ok tag) then None
  else
    root ← canonical;
    meta ← root_meta;
    fd ← root_raw;
    Some (mkDev (tag ++ zeros (Z.to_nat TAG_LEN - length tag)) 0 0 0 (replicate (Z.to_nat NUM_QUEUES) queue_default) 0
      irq_default 0 []
      (mkWorld (new_session root writable cache (mkGuestIds 0 0) meta (mkFd fd []) budget) m h [])).

(** [set_guest_ids], before the device is served. *)
Definition set_guest_ids (ids : GuestIds) (d : Dev H L) : Dev H L :=
  let w := d_world d in
  let s := w_fs w in
  set_d_world (mkWorld (mkFs (f_root s) (f_writable s) (f_cache s) ids (nodes s) (inode_ids s) (next_node s) (sockets s)
    (next_socket_ino s) (handles s) (dir_handles s) (fh0_listings s) (fh0_order s) (fh0_finished s) (next_fh s)
    (handle_limit s) (peak_handles s) (parked s) (parked_order s) (parked_ticks s) (parked_limit s) (parked_hits s)
    (parked_misses s) (next_tmpfile s) (zero_copy_reads s) (zero_copy_writes s) (dirs s) (dirty s) (host_syncs s)
    (lock_to_park s)) (w_ram w) (w_host w) (w_log w)) d.

End Device.
