(* ===== verification/FsDemo.v ===== *)
(** * A small host and requests for it

    A host whose export holds one regular file [f] and one directory [d], with
    locks that another process may hold, and the FUSE requests a guest sends. The
    laws of [HostFsLaws] hold of it, so the theorems apply to runs on it. *)

From S2P Require Import Prelude Memory Irq Queue Virtio FsWire FsHost FsState FsDev.
Local Open Scope Z_scope.

(** [dh_busy]: another process holds the locks of the file; [dh_signals]: how many
    writes a signal will interrupt. *)
Record DemoHost := mkDemoHost { demo_contents : list Z; dh_busy : bool; dh_signals : nat }.
Definition mkDemo (l : list Z) (busy : bool) : DemoHost := mkDemoHost l busy 0.

Definition demo_stat (inode m size : Z) : Stat := mkStat 1 inode m 1 501 20 size 8 4096 100 0 100 0 100 0 100 0.
Definition demo_root_stat : Stat := demo_stat 2 (Z.lor S_IFDIR 0x1ed) 0.
Definition F_NAME : list Z := [0x66].
Definition D_NAME : list Z := [0x64].

(** What a name in any directory of the export is. *)
Definition demo_entry (h : DemoHost) (n : list Z) : Stat + HostErrno :=
  if bool_decide (n = F_NAME) then inl (demo_stat 10 (Z.lor S_IFREG 0x1a4) (zlen (demo_contents h)))
  else if bool_decide (n = D_NAME) then inl (demo_stat 11 (Z.lor S_IFDIR 0x1ed) 0)
  else inr HENOENT.

(** What a descriptor refers to: the last name it was reached by. *)
Definition demo_fd (h : DemoHost) (fd : Fd) : Stat + HostErrno :=
  match last (via fd) with None => inl demo_root_stat | Some n => demo_entry h n end.

Definition demo_read (l : list Z) (off len : Z) : list Z := take (Z.to_nat len) (drop (Z.to_nat off) (map u8 l)).

Definition demo_sys (A : Set) (e : HostE A) (h : DemoHost) : (A + HostErrno) * DemoHost :=
  (match e in HostE B return B + HostErrno with
   | COpenAt _ n _ _ => match demo_entry h n with inl _ => inl 5 | inr err => inr err end
   | CDup _ => inl 6
   | CFstat fd => demo_fd h fd
   | CFstatAt _ n => demo_entry h n
   | CFaccessAt _ n => match demo_entry h n with inl _ => inl tt | inr err => inr err end
   | CReaddir fd => inl [mkDirent DOT 2 DT_DIR; mkDirent F_NAME 10 DT_REG; mkDirent D_NAME 11 DT_DIR]
   | CPread _ off len => inl (demo_read (demo_contents h) off len)
   | CPwrite _ _ data => match dh_signals h with O => inl (zlen data) | S _ => inr (HEother Interrupted) end
   | CFtruncate _ _ => inl tt
   | CGetxattrLen _ _ => inr HENOATTR
   | CSetxattr _ _ _ _ _ => inl tt
   | CFlock _ _ _ => if dh_busy h then inr HEAGAIN else inl tt
   | COfdSetLk _ _ => if dh_busy h then inr HEAGAIN else inl tt
   | CFsync _ _ => inl tt
   | CNow => inl (100, 0)
   | CClock => inl 0
   | CGeteuid => inl 501
   | CGetegid => inl 20
   | CGetpid => inl 4242
   | CReadaheadTake _ => inl None
   | CReadaheadRequest _ _ _ => inl tt
   | CReadaheadInvalidate => inl tt
   | _ => inr HENOSYS
   end,
   match e with
   | CPwrite _ off data =>
       match dh_signals h with
       | O => mkDemoHost (take (Z.to_nat off) (demo_contents h) ++ data) (dh_busy h) 0
       | S n => mkDemoHost (demo_contents h) (dh_busy h) n
       end
   | CFtruncate _ len => mkDemoHost (take (Z.to_nat len) (demo_contents h)) (dh_busy h) (dh_signals h)
   | _ => h
   end).
#[export] Instance DemoHost_fs : HostFs DemoHost := {| sys := demo_sys; interrupts := dh_signals |}.

Lemma demo_read_ok l off len : bytes_ok (demo_read l off len) /\ zlen (demo_read l off len) <= Z.max len 0.
Proof.
  unfold demo_read. split.
  - apply bytes_ok_take, bytes_ok_drop, Forall_map, Forall_true. intros b. apply u8_range.
  - unfold zlen. rewrite length_take. lia.
Qed.

#[export] Instance DemoHost_laws : HostFsLaws DemoHost.
Proof.
  split; cbn [sys interrupts DemoHost_fs]; unfold demo_sys.
  - intros fd h l h' [= <- _]. repeat constructor; try done; try (intros E; inversion E; done); try lia;
      by apply (bool_decide_unpack (_ ∉ _)).
  - intros p h d h' E. discriminate E.
  - intros fd off len h l h' [= <- _]. apply demo_read_ok.
  - intros fd n sz h l h' E. discriminate E.
  - intros fd n cap h l h' E. discriminate E.
  - intros fd cap h l h' E. discriminate E.
  - intros A e h h' E. unfold demo_fd, demo_entry in E. destruct e; try discriminate E; repeat case_match; simplify_eq; cbn; lia.
Qed.

(** ** Requests *)

Definition fuse_in (opcode unique node : Z) (payload : list Z) : list Z :=
  put_u32 (40 + zlen payload) ++ put_u32 opcode ++ put_u64 unique ++ put_u64 node
  ++ put_u32 1000 ++ put_u32 1000 ++ put_u32 1 ++ put_u32 0 ++ payload.

Definition lookup_f : list Z := fuse_in Op.LOOKUP 7 FUSE_ROOT_ID (F_NAME ++ [0]).
Definition open_f (flags : Z) : list Z := fuse_in Op.OPEN 8 2 (put_u32 flags ++ put_u32 0).
Definition release_fh (fh : Z) : list Z := fuse_in Op.RELEASE 9 2 (put_u64 fh ++ put_u32 0 ++ put_u32 0 ++ put_u64 0).
Definition forget_f (count : Z) : list Z := fuse_in Op.FORGET 10 2 (put_u64 count).

(** A ring of 8 at 0x1000 with one chain: the request at 0x4000, 256 bytes for the
    reply at 0x5000. *)
Definition request_stores (request : list Z) : list (Z * nat * Z) :=
  [(0x1000, 8%nat, 0x4000); (0x1008, 4%nat, zlen request); (0x100c, 2%nat, 1); (0x100e, 2%nat, 1);
   (0x1010, 8%nat, 0x5000); (0x1018, 4%nat, 256); (0x101c, 2%nat, 2); (0x101e, 2%nat, 0);
   (0x2002, 2%nat, 1); (0x2004, 2%nat, 0)]
  ++ imap (fun i b => (0x4000 + Z.of_nat i, 1%nat, b)) request.
Definition request_ram (request : list Z) : GuestRam := run_stores split_ram (request_stores request).

Lemma request_ram_ok request : ram_ok (request_ram request).
Proof. apply run_stores_evolves, split_ram_ok. Qed.

(** A share whose root is [/e]. *)
Definition demo_root : path := [[0x65]].
Definition demo_new (writable : bool) (cache : CachePolicy) (m : GuestRam) (h : DemoHost) : option (Dev DemoHost PlainLine) :=
  new true [0x73] writable cache (Some demo_root) (Some demo_root_stat) (Some 3) (guest_handle_budget (Some 1024)) m h.

(** A session on it with nothing served yet. *)
Definition demo_world : World DemoHost :=
  mkWorld (new_session demo_root true CacheAuto (mkGuestIds 0 0) demo_root_stat (mkFd 3 []) 896) split_ram (mkDemo [1; 2; 3] false) [].
