(* ===== verification/FsInv.v ===== *)
(** * The invariant of the FUSE session, and rules for its programs

    [fs_ok] says what holds of the session between two steps: paths that stay in
    the export, descriptors reached from its root, a node table whose indexes and
    counts agree, and caches within their bounds. [good m Q] says that a program
    keeps it, with every call it makes confined to the export and, on a read-only
    share, none of them changing anything, that it does not panic, and that [Q]
    holds of its result. *)

From S2P Require Import Prelude Memory FsWire FsHost FsState FsDirs FsNodes FsOps FsIo FsReaddir.
Local Open Scope Z_scope.

Definition U64_MAX : Z := 2 ^ 64 - 1.

(** ** Paths of the export *)

Definition in_export (root p : path) : Prop := exists rel, p = root ++ rel /\ Forall name_ok rel.

(** Below the root: there is a last component. *)
Definition below_export (root p : path) : Prop := exists rel n, p = root ++ rel ++ [n] /\ Forall name_ok rel /\ name_ok n.

(** ** Components *)

Record dirs_ok (d : DirCache) : Prop := {
  dk_root : via (dc_root d) = [];
  dk_limit : 1 <= dc_limit d;
  dk_open : forall p fd t, dc_open d !! p = Some (fd, t) -> fd_ok fd;
  dk_lru : forall p fd t, dc_open d !! p = Some (fd, t) -> (p, t) ∈ dc_lru d;
  dk_sorted : StronglySorted (fun a b => a.2 < b.2) (dc_lru d);
  dk_ticks : Forall (fun e => e.2 <= dc_ticks d) (dc_lru d);
  dk_held : held d <= dc_limit d;
}.

(** Handles that name a node. *)
Definition handles_on (node : Z) (hs : gmap Z FileHandle) : gmap Z FileHandle :=
  filter (fun e : Z * FileHandle => h_node e.2 = node) hs.

(** The node table. The clauses on numbers hold until a counter saturates. *)
Record tab_ok (root : path) (rk : Z * Z) (lo : Z) (ns : gmap Z Node) (ids : gmap (Z * Z) Z) (next : Z)
    (hs : gmap Z FileHandle) (fh : Z) : Prop := {
  tk_next : 2 <= next <= U64_MAX;
  tk_lo : lo <= next;
  tk_fh : 1 <= fh <= U64_MAX;
  tk_root : fst rk <> SOCKET_DEV -> exists n, ns !! FUSE_ROOT_ID = Some n /\ n_key n = rk;
  tk_rootid : forall key, ids !! key = Some FUSE_ROOT_ID -> exists n, ns !! FUSE_ROOT_ID = Some n /\ n_key n = key;
  tk_paths : forall id n, ns !! id = Some n -> Forall (in_export root) (n_paths n);
  tk_alias : forall id n, ns !! id = Some n -> (length (n_paths n) <= MAX_NODE_ALIASES)%nat;
  tk_ids : next < U64_MAX -> forall id, is_Some (ns !! id) -> 1 <= id < next;
  tk_inodes : next < U64_MAX -> forall key id, ids !! key = Some id -> exists n, ns !! id = Some n /\ n_key n = key;
  tk_handles : fh < U64_MAX -> forall f, is_Some (hs !! f) -> 1 <= f < fh;
  tk_hnodes : next < U64_MAX -> forall f h, hs !! f = Some h -> h_node h < next;
  tk_counts : next < U64_MAX -> fh < U64_MAX -> forall id n, id <> FUSE_ROOT_ID -> ns !! id = Some n ->
    n_open_handles n = Z.of_nat (size (handles_on id hs));
}.

Definition handle_ok (root : path) (wr : bool) (h : FileHandle) : Prop :=
  fd_ok (h_file h) /\ forall p, h_temporary h = Some p -> wr = true /\ below_export root p.

(** A listing: the dot entries, then entries of the directory. *)
Definition listing_ok (l : list DirEntryInfo) : Prop :=
  exists rest, l = dot_entries ++ rest /\ Forall (fun e => name_ok (e_name e)) rest.

(** The listings of handle 0, all but [ex] in the order they were last read. *)
Record fh0_but (ex : option Z) (ls : gmap Z Fh0Listing) (order : list Z) (finished : gset Z) : Prop := {
  fk_listing : forall node l, ls !! node = Some l -> listing_ok (l_entries l);
  fk_nodup : NoDup order;
  fk_order : forall node, node ∈ order <-> is_Some (ls !! node) /\ ex <> Some node;
  fk_finished : forall node, node ∈ finished -> is_Some (ls !! node);
  fk_max : (length order <= FH0_LISTINGS_MAX)%nat;
}.
Definition fh0_ok : gmap Z Fh0Listing -> list Z -> gset Z -> Prop := fh0_but None.

Record park_ok (pk : gmap Z ParkedFd) (order : list (Z * Z)) (ticks limit : Z) : Prop := {
  pk_fd : forall node p, pk !! node = Some p -> fd_ok (pk_file p);
  pk_order : forall node p, pk !! node = Some p -> (node, pk_tick p) ∈ order;
  pk_sorted : StronglySorted (fun a b => a.2 < b.2) order;
  pk_ticks : Forall (fun e => e.2 <= ticks) order;
  pk_limit : 0 <= limit;
  pk_bound : Z.of_nat (size pk) <= limit;
}.

Record fs_ok (root : path) (wr : bool) (rk : Z * Z) (lo : Z) (s : Fs) : Prop := {
  ok_root : f_root s = root;
  ok_wr : f_writable s = wr;
  ok_dirs : dirs_ok (dirs s);
  ok_tab : tab_ok root rk lo (nodes s) (inode_ids s) (next_node s) (handles s) (next_fh s);
  ok_handles : map_Forall (fun _ h => handle_ok root wr h) (handles s);
  ok_dir_handles : map_Forall (fun _ d => fd_ok (dh_file d) /\ listing_ok (dh_entries d)) (dir_handles s);
  ok_fh0 : fh0_ok (fh0_listings s) (fh0_order s) (fh0_finished s);
  ok_parked : park_ok (parked s) (parked_order s) (parked_ticks s) (parked_limit s);
  ok_sockets : forall p, is_Some (sockets s !! p) -> below_export root p;
}.

(** A call the share allows. *)
Definition call_ok (wr : bool) (c : Call) : Prop := confined c /\ (wr = false -> mutating c = false).

Record world_ok {H : Type} (root : path) (wr : bool) (rk : Z * Z) (rs : list RamRegion) (lo : Z) (w : World H) : Prop := {
  wk_fs : fs_ok root wr rk lo (w_fs w);
  wk_ram : ram_ok (w_ram w);
  wk_mapped : mapped (w_ram w) = rs;
  wk_log : Forall (call_ok wr) (w_log w);
}.

(** ** Rules *)

Section Rules.
Context {H : Type} {HF : HostFs H} {HL : HostFsLaws H}.
Context (root : path) (wr : bool) (rk : Z * Z) (rs : list RamRegion).

(** What a run from [w] gives: the invariant and [Q] of the result; after a success
    at least [up a] node ids have been given out. *)
Definition good_at {A} (lo : Z) (w : World H) (m : M H A) (up : A -> Z) (Q : A -> Prop) : Prop :=
  match m w with
  | (Ok a, w') => world_ok root wr rk rs (Z.max lo (up a)) w' /\ Q a
  | (Err _, w') => world_ok root wr rk rs lo w'
  | (Panicked, _) => False
  end.
Definition good_up {A} (lo : Z) (m : M H A) (up : A -> Z) (Q : A -> Prop) : Prop :=
  forall w, world_ok root wr rk rs lo w -> good_at lo w m up Q.
Definition good {A} (lo : Z) (m : M H A) (Q : A -> Prop) : Prop := good_up lo m (fun _ => lo) Q.

Lemma world_ok_lo lo lo' (w : World H) : lo' <= lo -> world_ok root wr rk rs lo w -> world_ok root wr rk rs lo' w.
Proof.
  intros Hl [[] ? ? ?]. split; [|done..]. split; try done.
  destruct ok_tab0. split; try done. lia.
Qed.

Lemma good_bind_up {A B} lo (m : M H A) (k : A -> M H B) up P Q :
  good_up lo m up P -> (forall a, P a -> good (Z.max lo (up a)) (k a) Q) -> good lo (bind m k) Q.
Proof.
  intros Hm Hk w Hw. unfold good_at, bind. specialize (Hm w Hw). unfold good_at in Hm.
  destruct (m w) as [[a|e|] w1]; [|done|done].
  destruct Hm as [Hw1 Ha]. specialize (Hk a Ha w1 Hw1). unfold good_at in Hk.
  destruct (k a w1) as [[b|e|] w2]; [destruct Hk; split; [|done]| |done];
    (eapply world_ok_lo; [|done]); lia.
Qed.

Lemma good_bind {A B} lo (m : M H A) (k : A -> M H B) P Q :
  good lo m P -> (forall a, P a -> good lo (k a) Q) -> good lo (bind m k) Q.
Proof.
  intros Hm Hk. eapply good_bind_up; [exact Hm|]. intros a Ha. rewrite Z.max_id. auto.
Qed.

Lemma good_mono {A} lo (m : M H A) (P Q : A -> Prop) : good lo m P -> (forall a, P a -> Q a) -> good lo m Q.
Proof.
  intros Hm HPQ w Hw. specialize (Hm w Hw). unfold good_at in *. destruct (m w) as [[a|e|] w1]; [|done|done].
  destruct Hm. auto.
Qed.

(** Reading the session and going on from the same world. *)
Lemma good_at_gets {A B} lo w (f : Fs -> A) (k : A -> M H B) up Q :
  good_at lo w (k (f (w_fs w))) up Q -> good_at lo w (bind (gets f) k) up Q.
Proof. done. Qed.

Lemma good_at_bind {A B} lo w (m : M H A) (k : A -> M H B) P Q :
  good_at lo w m (fun _ => lo) P -> (forall a, P a -> good lo (k a) Q) -> good_at lo w (bind m k) (fun _ => lo) Q.
Proof.
  intros Hm Hk. unfold good_at, bind in *. destruct (m w) as [[a|e|] w1]; [|done|done].
  destruct Hm as [Hw1 Ha]. rewrite Z.max_id in *. specialize (Hk a Ha w1 Hw1). unfold good_at in Hk.
  by rewrite Z.max_id in Hk.
Qed.

Lemma good_at_modify lo w (f : Fs -> Fs) :
  world_ok root wr rk rs lo w -> fs_ok root wr rk lo (f (w_fs w)) -> good_at lo w (modify f) (fun _ => lo) (fun _ => True).
Proof. intros [] Hf. split; [|done]. rewrite Z.max_id. by split. Qed.

Lemma good_at_modify_bind {B} lo w (f : Fs -> Fs) (k : unit -> M H B) up Q :
  good_at lo (mkWorld (f (w_fs w)) (w_ram w) (w_host w) (w_log w)) (k tt) up Q -> good_at lo w (bind (modify f) k) up Q.
Proof. done. Qed.

Lemma good_assoc {A B C} lo (m : M H A) (f : A -> M H B) (k : B -> M H C) up Q :
  good_up lo (bind m (fun a => bind (f a) k)) up Q -> good_up lo (bind (bind m f) k) up Q.
Proof.
  intros Hm w Hw. specialize (Hm w Hw). unfold good_at, bind in *. by destruct (m w) as [[a|e|] w1].
Qed.

Lemma good_assoc_inv {A B C} lo (m : M H A) (f : A -> M H B) (k : B -> M H C) Q :
  good lo (bind (bind m f) k) Q -> good lo (bind m (fun a => bind (f a) k)) Q.
Proof.
  intros Hm w Hw. specialize (Hm w Hw). unfold good_at, bind in *. by destruct (m w) as [[a|e|] w1].
Qed.

Lemma good_ret {A} lo (a : A) (Q : A -> Prop) : Q a -> good lo (ret a) Q.
Proof. intros Ha w Hw. split; [|done]. by rewrite Z.max_id. Qed.

Lemma good_fail {A} lo e (Q : A -> Prop) : good lo (fail e) Q.
Proof. by intros w Hw. Qed.

Lemma good_attempt {A} lo (m : M H A) P :
  good lo m P -> good lo (attempt m) (fun r => match r with inl a => P a | inr _ => True end).
Proof.
  intros Hm w Hw. specialize (Hm w Hw). unfold good_at, attempt in *. destruct (m w) as [[a|e|] w1]; [done| |done].
  split; [|done]. by rewrite Z.max_id.
Qed.

Lemma good_ok_or {A} lo (o : option A) e (Q : A -> Prop) : (forall a, o = Some a -> Q a) -> good lo (ok_or o e) Q.
Proof. intros Ho. destruct o; [by apply good_ret; auto|apply good_fail]. Qed.

Lemma good_guard lo b e : good lo (guard b e) (fun _ => b = true).
Proof. destruct b; [by apply good_ret|apply good_fail]. Qed.

Lemma good_expect {A} lo (o : option A) (Q : A -> Prop) : (exists a, o = Some a /\ Q a) -> good lo (expect o) Q.
Proof. intros (a & -> & Ha). by apply good_ret. Qed.

Lemma good_gets {A} lo (f : Fs -> A) (Q : A -> Prop) :
  (forall s, fs_ok root wr rk lo s -> Q (f s)) -> good lo (gets f) Q.
Proof. intros Hf w Hw. split; [by rewrite Z.max_id|]. apply Hf, Hw. Qed.

Lemma good_update_up {A} lo (f : Fs -> A * Fs) up (Q : A -> Prop) :
  (forall s, fs_ok root wr rk lo s -> fs_ok root wr rk (Z.max lo (up (f s).1)) (f s).2 /\ Q (f s).1) ->
  good_up lo (update f) up Q.
Proof.
  intros Hf w Hw. unfold good_at, update. destruct (Hf (w_fs w)) as [Hs HQ]; [apply Hw|].
  destruct (f (w_fs w)) as [a s]. split; [|done]. destruct Hw. by split.
Qed.

Lemma good_update {A} lo (f : Fs -> A * Fs) (Q : A -> Prop) :
  (forall s, fs_ok root wr rk lo s -> fs_ok root wr rk lo (f s).2 /\ Q (f s).1) -> good lo (update f) Q.
Proof. intros Hf. apply good_update_up. by rewrite Z.max_id. Qed.

Lemma good_modify lo (f : Fs -> Fs) :
  (forall s, fs_ok root wr rk lo s -> fs_ok root wr rk lo (f s)) -> good lo (modify f) (fun _ => True).
Proof. intros Hf. apply good_update. intros s Hs. split; [by apply Hf|done]. Qed.

Lemma good_get_ram lo : good lo get_ram (fun m => ram_ok m /\ mapped m = rs).
Proof. intros w Hw. split; [by rewrite Z.max_id|]. by split; apply Hw. Qed.

Lemma good_set_ram lo m : ram_ok m -> mapped m = rs -> good lo (set_ram m) (fun _ => True).
Proof. intros Hm Hr w [? ? ? ?]. split; [|done]. rewrite Z.max_id. by split. Qed.

(** The result of a call, as the host's laws give it. *)
Definition call_post {A : Set} (e : HostE A) : A -> Prop :=
  match e in HostE B return B -> Prop with
  | CReaddir _ => fun l => Forall (fun e => dirent_name_ok (d_name e)) l
  | CReadaheadTake _ => fun o =>
      match o with Some d => Forall (fun e => name_ok (e_name (p_info e))) (pd_entries d) | None => True end
  | CPread _ _ len => fun l => bytes_ok l /\ zlen l <= Z.max len 0
  | CReadlinkAt _ _ _ | CGetxattr _ _ _ | CListxattr _ _ => bytes_ok
  | _ => fun _ => True
  end.

Lemma call_post_holds {A : Set} (e : HostE A) h a h' : sys A e h = (inl a, h') -> call_post e a.
Proof.
  destruct e; simpl; try done; intros E.
  - by eapply readlink_bytes.
  - by eapply readdir_names.
  - by eapply getxattr_bytes.
  - by eapply listxattr_bytes.
  - by eapply pread_bytes.
  - destruct a; [by eapply prepared_names|done].
Qed.

Lemma good_call {A : Set} lo (e : HostE A) :
  call_ok wr (mkCall e) -> good lo (call e) (fun r => match r with inl a => call_post e a | inr _ => True end).
Proof.
  intros He w [? ? ? ?]. unfold good_at, call. destruct (sys A e (w_host w)) as [r h] eqn:E. rewrite Z.max_id.
  split; [by split; try apply Forall_cons|]. destruct r; [by eapply call_post_holds|done].
Qed.

Lemma good_syscall {A : Set} lo (e : HostE A) : call_ok wr (mkCall e) -> good lo (syscall e) (call_post e).
Proof.
  intros He. eapply good_bind; [by apply good_call|]. intros [a|err] Ha; [by apply good_ret|apply good_fail].
Qed.

Lemma good_retried {A : Set} lo (e : HostE A) :
  call_ok wr (mkCall e) -> good lo (retried e) (fun r => match r with inl a => call_post e a | inr _ => True end).
Proof.
  intros He w Hw. assert (forall n, good lo (retry_loop n e) (fun r => match r with inl a => call_post e a | inr _ => True end)) as Hg; [|exact (Hg (interrupts (w_host w)) w Hw)].
  induction n as [|n IH]; cbn [retry_loop]; (eapply good_bind; [by apply good_call|]); intros r Ha; [by apply good_ret|].
  destruct (interrupted r); [apply IH|by apply good_ret].
Qed.

Lemma good_retried_syscall {A : Set} lo (e : HostE A) : call_ok wr (mkCall e) -> good lo (retried_syscall e) (call_post e).
Proof.
  intros He. eapply good_bind; [by apply good_retried|]. intros [a|err] Ha; [by apply good_ret|apply good_fail].
Qed.

Lemma good_query {A : Set} lo (e : HostE A) (d : A) :
  call_ok wr (mkCall e) -> call_post e d -> good lo (query e d) (call_post e).
Proof.
  intros He Hd. eapply good_bind; [by apply good_call|]. intros [a|err] Ha; by apply good_ret.
Qed.

End Rules.

(** ** Runs that return *)

Lemma attempt_ok {H A} (m : M H A) w a w' : attempt m w = (Ok (inl a), w') -> m w = (Ok a, w').
Proof. unfold attempt. destruct (m w) as [[x|x|] w1]; intros; by simplify_eq. Qed.

Lemma bind_ok {H A B} (m : M H A) (k : A -> M H B) w b w' :
  bind m k w = (Ok b, w') -> exists a w1, m w = (Ok a, w1) /\ k a w1 = (Ok b, w').
Proof. unfold bind. destruct (m w) as [[a|e|] w1]; intros; [eauto|done|done]. Qed.
