(* ===== verification/FsCaches.v ===== *)
(** * The caches of the FUSE session

    The directory cache and the parked descriptors order their entries by stamps
    left behind in a queue; the listings of handle 0 keep an explicit order. The
    lemmas say that every operation keeps the invariants of [FsInv], that the
    bounds hold, and that what is evicted is the oldest. *)

From S2P Require Import Prelude Memory FsWire FsHost FsState FsDirs FsNodes FsOps FsIo FsReaddir FsInv.
Local Open Scope Z_scope.

(** ** Queues of stamped appearances *)

Section Stamped.
Context {K : Type}.
Implicit Types (q : list (K * Z)) (live : K * Z -> bool).

Definition by_stamp (a b : K * Z) : Prop := a.2 < b.2.

Lemma scan_live_some live q q' e :
  scan_live live q = (q', Some e) ->
  live e = true /\ exists pre, q = pre ++ e :: q' /\ Forall (fun x => live x = false) pre.
Proof.
  revert q'. induction q as [|x q IH]; intros q' E; simpl in E; [done|].
  destruct (live x) eqn:Hx.
  - simplify_eq. split; [done|]. by exists [].
  - destruct (IH _ E) as (He & pre & -> & Hp). split; [done|]. exists (x :: pre). by split; [|constructor].
Qed.

Lemma scan_live_none live q q' : scan_live live q = (q', None) -> q' = [] /\ Forall (fun x => live x = false) q.
Proof.
  induction q as [|x q IH]; intros E; simpl in E; [by simplify_eq|].
  destruct (live x) eqn:Hx; [done|]. destruct (IH E). by split; [|constructor].
Qed.

(** A live appearance other than the one popped is still in the queue. *)
Lemma scan_live_keeps live q q' e x :
  scan_live live q = (q', Some e) -> x ∈ q -> live x = true -> x = e \/ x ∈ q'.
Proof.
  intros E Hx Hl. destruct (scan_live_some _ _ _ _ E) as (_ & pre & -> & Hp).
  rewrite elem_of_app, elem_of_cons in Hx. destruct Hx as [Hx|Hx]; [|done].
  rewrite Forall_forall in Hp. by rewrite (Hp _ Hx) in Hl.
Qed.

Lemma scan_live_suffix live q q' r : scan_live live q = (q', r) -> exists pre, q = pre ++ q'.
Proof.
  destruct r as [e|]; intros E.
  - destruct (scan_live_some _ _ _ _ E) as (_ & pre & -> & _). exists (pre ++ [e]). by rewrite <-app_assoc.
  - destruct (scan_live_none _ _ _ E) as [-> _]. exists q. by rewrite app_nil_r.
Qed.

(** In a queue sorted by stamps the popped appearance is the oldest live one. *)
Lemma scan_live_oldest live q q' e x :
  StronglySorted by_stamp q -> scan_live live q = (q', Some e) -> x ∈ q -> live x = true -> e.2 <= x.2.
Proof.
  intros Hs E Hx Hl. destruct (scan_live_some _ _ _ _ E) as (_ & pre & -> & Hp).
  rewrite elem_of_app in Hx. destruct Hx as [Hx|Hx].
  { rewrite Forall_forall in Hp. by rewrite (Hp _ Hx) in Hl. }
  apply elem_of_cons in Hx as [->|Hx]; [done|]. apply StronglySorted_app_1_r in Hs.
  inversion_clear Hs as [|? ? _ Ha]. rewrite Forall_forall in Ha. pose proof (Ha _ Hx). unfold by_stamp in *. lia.
Qed.

Lemma sorted_suffix q pre q' : StronglySorted by_stamp q -> q = pre ++ q' -> StronglySorted by_stamp q'.
Proof. intros Hs ->. by eapply StronglySorted_app_1_r. Qed.

Lemma sorted_push q k t : StronglySorted by_stamp q -> Forall (fun e => e.2 <= t) q -> StronglySorted by_stamp (q ++ [(k, t + 1)]).
Proof.
  induction 1 as [|e q Hs IH Ha]; intros Ht; simpl; [repeat constructor|].
  apply Forall_cons in Ht as [He Hq]. constructor; [auto|]. apply Forall_app. split; [done|].
  repeat constructor. unfold by_stamp. simpl. lia.
Qed.

Lemma ticks_push q k t : Forall (fun e : K * Z => e.2 <= t) q -> Forall (fun e => e.2 <= t + 1) (q ++ [(k, t + 1)]).
Proof.
  intros Hq. apply Forall_app. split; [|repeat constructor; simpl; lia]. eapply Forall_impl; [exact Hq|]. simpl. lia.
Qed.

Lemma sorted_filter live q : StronglySorted by_stamp q -> StronglySorted by_stamp (List.filter live q).
Proof.
  induction 1 as [|e q Hs IH Ha]; simpl; [constructor|]. destruct (live e); [|done]. constructor; [done|].
  rewrite Forall_forall in *. intros x Hx. apply Ha. rewrite list_elem_of_In in *. by apply filter_In in Hx as [? _].
Qed.

Lemma Forall_bfilter (P : K * Z -> Prop) live q : Forall P q -> Forall P (List.filter live q).
Proof.
  rewrite !Forall_forall. intros Hq x Hx. apply Hq. rewrite list_elem_of_In in *. by apply filter_In in Hx as [? _].
Qed.

Lemma elem_of_bfilter live q x : x ∈ List.filter live q <-> x ∈ q /\ live x = true.
Proof. rewrite !list_elem_of_In. apply filter_In. Qed.
End Stamped.

#[export] Hint Resolve sorted_push ticks_push sorted_filter Forall_bfilter : hvi.

Lemma size_insert_le {K A} `{Countable K} (m : gmap K A) (k : K) (x : A) : (size (<[k:=x]> m) <= S (size m))%nat.
Proof. rewrite map_size_insert. destruct (m !! k); simpl; lia. Qed.

(** ** The directory cache *)

Lemma lru_live_true op p t : lru_live op (p, t) = true <-> exists fd, op !! p = Some (fd, t).
Proof.
  unfold lru_live. simpl. rewrite bool_decide_eq_true. split.
  - destruct (op !! p) as [[fd t']|]; simpl; intros; simplify_eq. by exists fd.
  - by intros [fd ->].
Qed.

Lemma held_delete d p lru e :
  dc_open d !! p = Some e -> held (set_dc_open (delete p (dc_open d)) (set_dc_lru lru d)) = held d - 1.
Proof.
  intros Hp. unfold held. simpl. rewrite map_size_delete_Some by done.
  assert (size (dc_open d) <> 0%nat); [|lia]. apply map_size_ne_0_lookup. eauto.
Qed.

(** Entries only go: the rest of the invariant is unaffected. *)
Lemma dirs_ok_sub d op :
  dirs_ok d -> op ⊆ dc_open d -> dirs_ok (set_dc_open op d).
Proof.
  intros [] Hs. split; simpl; try done.
  - intros p fd t Hp. eapply dk_open, lookup_weaken; eauto.
  - intros p fd t Hp. eapply dk_lru, lookup_weaken; eauto.
  - etrans; [|exact dk_held]. unfold held. simpl. apply inj_le. by apply map_subseteq_size.
Qed.

Lemma evict_one_ok d : dirs_ok d -> dirs_ok (evict_one d).2.
Proof.
  intros Hd. pose proof Hd as []. unfold evict_one.
  destruct (scan_live (lru_live (dc_open d)) (dc_lru d)) as [q r] eqn:E.
  destruct (scan_live_suffix _ _ _ _ E) as [pre Epre].
  assert (StronglySorted by_stamp q) by (by eapply sorted_suffix).
  assert (Forall (fun e => e.2 <= dc_ticks d) q) by (rewrite Epre in dk_ticks; by apply Forall_app in dk_ticks as [_ ?]).
  destruct r as [[p t]|]; simpl.
  - destruct (scan_live_some _ _ _ _ E) as (Hl & _). apply lru_live_true in Hl as [fd Hp].
    split; simpl; try done.
    + intros p' fd' t' [_ Hp']%lookup_delete_Some. eauto.
    + intros p' fd' t' [Hne Hp']%lookup_delete_Some.
      destruct (scan_live_keeps _ _ _ _ (p', t') E) as [?|?]; [eauto|apply lru_live_true; eauto|by simplify_eq|done].
    + rewrite (held_delete _ _ _ _ Hp). lia.
  - destruct (scan_live_none _ _ _ E) as [-> Hn]. split; simpl; try done.
    intros p fd t Hp. rewrite Forall_forall in Hn. pose proof (Hn _ (dk_lru _ _ _ Hp)) as Hx.
    assert (lru_live (dc_open d) (p, t) = true) by (apply lru_live_true; eauto). congruence.
Qed.

(** A cache that holds something closes something. *)
Lemma evict_one_progress d :
  dirs_ok d -> dc_open d <> ∅ -> (evict_one d).1 = true /\ held (evict_one d).2 = held d - 1.
Proof.
  intros [] Hne. unfold evict_one.
  destruct (scan_live (lru_live (dc_open d)) (dc_lru d)) as [q [[p t]|]] eqn:E.
  - destruct (scan_live_some _ _ _ _ E) as (Hl & _). apply lru_live_true in Hl as [fd Hp].
    split; [done|]. by eapply held_delete.
  - destruct (scan_live_none _ _ _ E) as [-> Hn]. destruct (map_choose _ Hne) as (p & [fd t] & Hp).
    rewrite Forall_forall in Hn. pose proof (Hn _ (dk_lru _ _ _ Hp)) as Hx.
    assert (lru_live (dc_open d) (p, t) = true) by (apply lru_live_true; eauto). congruence.
Qed.

Lemma evict_to_ok fuel limit d :
  dirs_ok d -> 1 <= limit -> held d < Z.of_nat fuel ->
  dirs_ok (evict_to fuel limit d) /\ held (evict_to fuel limit d) < limit.
Proof.
  revert d. induction fuel as [|fuel IH]; intros d Hd Hl Hf; [unfold held in Hf; lia|]. simpl.
  destruct (limit <=? held d) eqn:Hc; bool_hyps; [|done].
  assert (dc_open d <> ∅) as Hne.
  { intros Ee. unfold held in Hc. rewrite Ee, map_size_empty in Hc. lia. }
  destruct (evict_one_progress d Hd Hne) as [Hw Hh]. pose proof (evict_one_ok d Hd) as Hd'.
  destruct (evict_one d) as [went d']. simpl in *. subst went. apply IH; [done|done|lia].
Qed.

Lemma evict_to_limit fuel limit d : dc_limit (evict_to fuel limit d) = dc_limit d.
Proof.
  revert d. induction fuel as [|fuel IH]; intros d; simpl; [done|].
  destruct (limit <=? held d); [|done]. unfold evict_one.
  destruct (scan_live _ _) as [q [[p t]|]]; simpl; [by rewrite IH|done].
Qed.

Lemma admit_dir_ok p fd d : dirs_ok d -> fd_ok fd -> dirs_ok (admit_dir p fd d).
Proof.
  intros Hd Hfd. unfold admit_dir.
  destruct (evict_to_ok (S (size (dc_open d))) (dc_limit d) d Hd) as [Hd' Hlt]; [apply Hd|unfold held; lia|].
  rewrite <-(evict_to_limit (S (size (dc_open d))) (dc_limit d) d) in Hlt at 2.
  set (d' := evict_to _ _ d) in *. clearbody d'. destruct Hd'. split; simpl; auto with hvi.
  - intros p' fd' t'. rewrite lookup_insert_Some. intros [[? ?]|[? ?]]; simplify_eq; eauto.
  - intros p' fd' t'. rewrite lookup_insert_Some, elem_of_app, list_elem_of_singleton.
    intros [[? ?]|[? ?]]; simplify_eq; eauto.
  - unfold held in *. simpl. pose proof (size_insert_le (dc_open d') p (fd, dc_ticks d' + 1)). lia.
Qed.

Lemma compact_lru_ok d : dirs_ok d -> dirs_ok (compact_lru d).
Proof.
  intros []. unfold compact_lru. destruct (_ <=? _); [by split|]. split; simpl; auto with hvi.
  intros p fd t Hp. apply elem_of_bfilter. split; [eauto|]. apply lru_live_true. eauto.
Qed.

Lemma touch_ok p d : dirs_ok d -> dirs_ok (touch p d).
Proof.
  intros Hd. unfold touch. apply compact_lru_ok. simpl. destruct Hd.
  destruct (dc_open d !! p) as [[fd t]|] eqn:Hp.
  - split; simpl; auto with hvi.
    + intros p' fd' t'. rewrite lookup_insert_Some. intros [[? ?]|[? ?]]; simplify_eq; eauto.
    + intros p' fd' t'. rewrite lookup_insert_Some, elem_of_app, list_elem_of_singleton.
      intros [[? ?]|[? ?]]; simplify_eq; eauto.
    + unfold held in *. simpl. rewrite map_size_insert_Some by eauto. done.
  - split; simpl; try done. eapply Forall_impl; [exact dk_ticks|]. simpl. lia.
Qed.

Lemma forget_dir_ok p d : dirs_ok d -> dirs_ok (forget_dir p d).
Proof. intros. apply dirs_ok_sub; [done|]. apply delete_subseteq. Qed.

Lemma forget_subtree_ok p d : dirs_ok d -> dirs_ok (forget_subtree p d).
Proof.
  intros Hd. unfold forget_subtree. induction (List.filter _ _) as [|q l IH]; simpl; [done|]. by apply forget_dir_ok.
Qed.

Lemma set_dc_scratch_ok fd d : dirs_ok d -> dirs_ok (set_dc_scratch fd d).
Proof. by intros []. Qed.

#[export] Hint Resolve evict_one_ok admit_dir_ok touch_ok forget_dir_ok forget_subtree_ok set_dc_scratch_ok : hvi.

(** ** Parked descriptors *)

Definition parked_ok (s : Fs) : Prop := park_ok (parked s) (parked_order s) (parked_ticks s) (parked_limit s).

(** Only the parked descriptors differ. *)
Definition parked_frame (s s' : Fs) : Prop :=
  exists pk order ticks, s' = set_parked pk (set_parked_order order (set_parked_ticks ticks s)).

Lemma parked_frame_intro s s' :
  s' = set_parked (parked s') (set_parked_order (parked_order s') (set_parked_ticks (parked_ticks s') s)) -> parked_frame s s'.
Proof. intros. by do 3 eexists. Qed.

#[export] Instance parked_frame_preorder : PreOrder parked_frame.
Proof.
  split; [intros s; apply parked_frame_intro; by destruct s|]. intros s1 s2 s3 (? & ? & ? & ->) (? & ? & ? & ->). (do 3 eexists; reflexivity).
Qed.

Lemma parked_frame_limit s s' : parked_frame s s' -> parked_limit s' = parked_limit s.
Proof. by intros (? & ? & ? & ->). Qed.

Lemma parked_live_true pk node t : parked_live pk (node, t) = true <-> exists p, pk !! node = Some p /\ pk_tick p = t.
Proof.
  unfold parked_live. simpl. rewrite bool_decide_eq_true. split.
  - destruct (pk !! node) as [p|]; simpl; intros; simplify_eq. by exists p.
  - by intros (p & -> & <-).
Qed.

Lemma drop_parked_ok node s : parked_ok s -> parked_ok (drop_parked node s).
Proof.
  intros []. split; simpl; try done.
  - intros n p [_ Hp]%lookup_delete_Some. eauto.
  - intros n p [_ Hp]%lookup_delete_Some. eauto.
  - etrans; [|exact pk_bound]. apply inj_le, map_subseteq_size, delete_subseteq.
Qed.

Lemma drop_parked_frame node s : parked_frame s (drop_parked node s).
Proof. apply parked_frame_intro. by destruct s. Qed.

Lemma evict_parked_frame s : parked_frame s (evict_one_parked s).2.
Proof. unfold evict_one_parked. destruct (scan_live _ _) as [q [[node t]|]]; apply parked_frame_intro; by destruct s. Qed.

Lemma evict_parked_ok s : parked_ok s -> parked_ok (evict_one_parked s).2.
Proof.
  intros []. unfold evict_one_parked.
  destruct (scan_live (parked_live (parked s)) (parked_order s)) as [q r] eqn:E.
  destruct (scan_live_suffix _ _ _ _ E) as [pre Epre].
  assert (StronglySorted by_stamp q) by (by eapply sorted_suffix).
  assert (Forall (fun e => e.2 <= parked_ticks s) q) by (rewrite Epre in pk_ticks; by apply Forall_app in pk_ticks as [_ ?]).
  destruct r as [[node t]|]; simpl.
  - split; simpl; try done.
    + intros n p [_ Hp]%lookup_delete_Some. eauto.
    + intros n p [Hne Hp]%lookup_delete_Some.
      destruct (scan_live_keeps _ _ _ _ (n, pk_tick p) E) as [?|?]; [eauto|apply parked_live_true; eauto|by simplify_eq|done].
    + etrans; [|exact pk_bound]. apply inj_le, map_subseteq_size, delete_subseteq.
  - destruct (scan_live_none _ _ _ E) as [-> Hn]. split; simpl; try done.
    intros n p Hp. rewrite Forall_forall in Hn. pose proof (Hn _ (pk_order _ _ Hp)) as Hx.
    assert (parked_live (parked s) (n, pk_tick p) = true) by (apply parked_live_true; eauto). congruence.
Qed.

Lemma evict_parked_progress s :
  parked_ok s -> parked s <> ∅ ->
  (evict_one_parked s).1 = true /\ size (parked s) = S (size (parked (evict_one_parked s).2)).
Proof.
  intros [] Hne. unfold evict_one_parked.
  destruct (scan_live (parked_live (parked s)) (parked_order s)) as [q [[node t]|]] eqn:E.
  - destruct (scan_live_some _ _ _ _ E) as (Hl & _). apply parked_live_true in Hl as (p & Hp & _).
    split; [done|]. simpl. rewrite map_size_delete_Some by eauto.
    assert (size (parked s) <> 0%nat) by (apply map_size_ne_0_lookup; eauto). lia.
  - destruct (scan_live_none _ _ _ E) as [-> Hn]. destruct (map_choose _ Hne) as (n & p & Hp).
    rewrite Forall_forall in Hn. pose proof (Hn _ (pk_order _ _ Hp)) as Hx.
    assert (parked_live (parked s) (n, pk_tick p) = true) by (apply parked_live_true; eauto). congruence.
Qed.

(** The loop makes room whenever the limit allows an entry at all. *)
Lemma make_room_parked_ok fuel s :
  parked_ok s -> 0 < parked_limit s -> (size (parked s) < fuel)%nat ->
  let r := make_room_parked fuel s in
  r.1 = true /\ parked_ok r.2 /\ parked_frame s r.2 /\ Z.of_nat (size (parked r.2)) < parked_limit s.
Proof.
  revert s. induction fuel as [|fuel IH]; intros s Hs Hl Hf; [lia|]. simpl.
  destruct (parked_limit s <=? Z.of_nat (size (parked s))) eqn:Hc; bool_hyps; [|done].
  assert (parked s <> ∅) as Hne by (intros Ee; rewrite Ee, map_size_empty in Hc; lia).
  destruct (evict_parked_progress s Hs Hne) as [Hw Hz]. pose proof (evict_parked_ok s Hs) as Hs'.
  pose proof (evict_parked_frame s) as Hfr. destruct (evict_one_parked s) as [went s']. simpl in *. subst went.
  pose proof (parked_frame_limit _ _ Hfr) as El.
  destruct (IH s' Hs') as (? & ? & ? & ?); [lia|lia|]. rewrite El in *. repeat (split; [done|]). split; [by etrans|done].
Qed.

Lemma compact_parked_ok s : parked_ok s -> parked_ok (compact_parked_order s).
Proof.
  intros []. unfold compact_parked_order. destruct (_ <=? _); [by split|]. split; simpl; auto with hvi.
  intros n p Hp. apply elem_of_bfilter. split; [eauto|]. apply parked_live_true. eauto.
Qed.

Lemma compact_parked_frame s : parked_frame s (compact_parked_order s).
Proof. unfold compact_parked_order. destruct (_ <=? _); apply parked_frame_intro; by destruct s. Qed.

Lemma park_descriptor_ok node flags attrs file s :
  parked_ok s -> fd_ok file ->
  parked_ok (park_descriptor node flags attrs file s) /\ parked_frame s (park_descriptor node flags attrs file s).
Proof.
  intros Hs Hfd. pose proof (pk_limit _ _ _ _ Hs) as Hl. unfold park_descriptor. destruct (_ || _); [by split|].
  pose proof (drop_parked_ok node s Hs) as Hs1. pose proof (drop_parked_frame node s) as Hf1.
  set (s1 := drop_parked node s) in *. pose proof (parked_frame_limit _ _ Hf1) as El. clearbody s1.
  destruct (parked_limit s1 =? 0) eqn:Hz; bool_hyps; [by split|].
  destruct (make_room_parked_ok (S (size (parked s1))) s1 Hs1) as (Hr & Hs2 & Hf2 & Hlt); [lia|lia|].
  destruct (make_room_parked (S (size (parked s1))) s1) as [room s2]. simpl in Hr, Hs2, Hf2, Hlt. subst room. simpl negb. cbv iota.
  pose proof (parked_frame_limit _ _ Hf2) as El2.
  split.
  - apply compact_parked_ok. destruct Hs2. split; simpl; auto with hvi.
    + intros n p. rewrite lookup_insert_Some. intros [[? ?]|[? ?]]; simplify_eq; eauto.
    + intros n p. rewrite lookup_insert_Some, elem_of_app, list_elem_of_singleton.
      intros [[? ?]|[? ?]]; simplify_eq; simpl; eauto.
    + pose proof (size_insert_le (parked s2) node (mkParked file (parked_flag_key flags) attrs (parked_ticks s2 + 1))). lia.
  - etrans; [exact Hf1|]. etrans; [exact Hf2|]. etrans; [|apply compact_parked_frame]. apply parked_frame_intro; by destruct s2.
Qed.

(** ** Listings of handle 0 *)

Definition listings_but (ex : option Z) (s : Fs) : Prop := fh0_but ex (fh0_listings s) (fh0_order s) (fh0_finished s).
Abbreviation listings_ok := (listings_but None).

Definition listings_frame (s s' : Fs) : Prop :=
  exists ls order fin, s' = set_fh0_listings ls (set_fh0_order order (set_fh0_finished fin s)).

Lemma listings_frame_intro s s' :
  s' = set_fh0_listings (fh0_listings s') (set_fh0_order (fh0_order s') (set_fh0_finished (fh0_finished s') s)) ->
  listings_frame s s'.
Proof. intros. by do 3 eexists. Qed.

#[export] Instance listings_frame_preorder : PreOrder listings_frame.
Proof.
  split; [intros s; apply listings_frame_intro; by destruct s|]. intros s1 s2 s3 (? & ? & ? & ->) (? & ? & ? & ->). (do 3 eexists; reflexivity).
Qed.

Lemma elem_of_remove_at {A} (l : list A) i x y :
  NoDup l -> l !! i = Some x -> y ∈ remove_at i l <-> y ∈ l /\ y <> x.
Proof.
  revert i. induction l as [|z l IH]; intros i Hd Hi; [done|]. inversion_clear Hd as [|? ? Hz Hd'].
  destruct i as [|i]; simpl in *.
  - simplify_eq. rewrite elem_of_cons. split.
    + intros Hy. split; [by right|]. by intros ->.
    + by intros [[->|?] ?].
  - rewrite !elem_of_cons, IH by done. apply list_elem_of_lookup_2 in Hi. split.
    + intros [->|[? ?]]; [|by auto]. split; [by left|]. by intros ->.
    + intros [[->|?] ?]; auto.
Qed.

Lemma elem_of_remove_at_1 {A} (l : list A) i x : x ∈ remove_at i l -> x ∈ l.
Proof.
  revert i. induction l as [|y l IH]; intros [|i]; simpl; [done..|by right|].
  rewrite !elem_of_cons. intros [?|?]; eauto.
Qed.

Lemma NoDup_remove_at {A} (l : list A) i : NoDup l -> NoDup (remove_at i l).
Proof.
  revert i. induction l as [|z l IH]; intros [|i] Hd; simpl; [done..| |];
    inversion_clear Hd as [|? ? Hz Hd']; [done|]. constructor; [|auto]. intros Hin. by eapply Hz, elem_of_remove_at_1.
Qed.

Lemma length_remove_at {A} (l : list A) i : (i < length l)%nat -> length l = S (length (remove_at i l)).
Proof.
  revert i. induction l as [|z l IH]; intros [|i] Hi; simpl in *; [lia..|done|]. f_equal. apply IH. lia.
Qed.

Lemma position_spec {A} (f : A -> bool) (l : list A) i :
  position f l = Some i -> exists x, l !! i = Some x /\ f x = true.
Proof.
  revert i. induction l as [|z l IH]; intros i E; simpl in E; [done|].
  destruct (f z) eqn:Hz; simplify_eq/=; [by exists z|].
  destruct (position f l) as [j|]; simplify_eq/=. by apply IH.
Qed.

Lemma position_none {A} (f : A -> bool) (l : list A) x : position f l = None -> x ∈ l -> f x = false.
Proof.
  induction l as [|z l IH]; intros E Hx; simpl in E; [by apply elem_of_nil in Hx|].
  destruct (f z) eqn:Hz; [done|]. destruct (position f l); [done|]. apply elem_of_cons in Hx as [->|?]; auto.
Qed.

Lemma elem_of_remove_first l node x : NoDup l -> x ∈ remove_first (Z.eqb node) l <-> x ∈ l /\ x <> node.
Proof.
  intros Hd. unfold remove_first. destruct (position (Z.eqb node) l) as [i|] eqn:E.
  - destruct (position_spec _ _ _ E) as (y & Hy & Hn). bool_hyps. subst y. by apply elem_of_remove_at.
  - split; [|by intros []]. intros Hx. split; [done|]. intros ->.
    pose proof (position_none _ _ _ E Hx) as Hn. by rewrite Z.eqb_refl in Hn.
Qed.

Lemma NoDup_remove_first {A} f (l : list A) : NoDup l -> NoDup (remove_first f l).
Proof. intros. unfold remove_first. destruct (position f l); [by apply NoDup_remove_at|done]. Qed.

Lemma length_remove_first f l : (length (remove_first (A := Z) f l) <= length l)%nat.
Proof.
  unfold remove_first. destruct (position f l) as [i|] eqn:E; [|done].
  destruct (position_spec _ _ _ E) as (y & Hy & _). apply lookup_lt_Some in Hy. rewrite (length_remove_at l i Hy). lia.
Qed.

(** Taking one node out of the order and out of the tables. *)
Lemma fh0_but_remove ex ls order order' fin node :
  fh0_but ex ls order fin -> NoDup order' -> (forall x, x ∈ order' <-> x ∈ order /\ x <> node) ->
  (length order' <= length order)%nat -> fh0_but ex (delete node ls) order' (fin ∖ {[node]}).
Proof.
  intros [] Hd Ho Hlen. split; try done; [..|lia].
  - intros n l [_ Hl]%lookup_delete_Some. eauto.
  - intros n. rewrite Ho, fk_order. split.
    + intros [[Hn ?] Hne]. by rewrite lookup_delete_ne by done.
    + intros [[l [? ?]%lookup_delete_Some] ?]. by split; [split; [eexists|]|].
  - intros n Hn. apply elem_of_difference in Hn as [Hn Hne]. rewrite elem_of_singleton in Hne.
    rewrite lookup_delete_ne by done. auto.
Qed.

Lemma drop_fh0_ok node s : listings_ok s -> listings_ok (drop_fh0_listing node s) /\ listings_frame s (drop_fh0_listing node s).
Proof.
  intros Hs. unfold drop_fh0_listing. case_bool_decide; [|by split]. split; [|apply listings_frame_intro; by destruct s].
  pose proof (fk_nodup _ _ _ _ Hs). eapply fh0_but_remove; [exact Hs|by apply NoDup_remove_first| |apply length_remove_first].
  intros x. by apply elem_of_remove_first.
Qed.

Lemma evict_fh0_ok ex s :
  listings_but ex s -> fh0_order s <> [] ->
  listings_but ex (evict_fh0 s) /\ listings_frame s (evict_fh0 s) /\ length (fh0_order s) = S (length (fh0_order (evict_fh0 s)))
  /\ forall node, ex = Some node -> fh0_listings (evict_fh0 s) !! node = fh0_listings s !! node.
Proof.
  intros Hs Hne. unfold evict_fh0. set (pos := default O _).
  assert (exists node, fh0_order s !! pos = Some node) as [node Hn].
  { unfold pos. destruct (position _ (fh0_order s)) as [i|] eqn:E; simpl.
    - destruct (position_spec _ _ _ E) as (x & ? & _). by exists x.
    - destruct (fh0_order s) as [|x l]; [done|]. by exists x. }
  rewrite Hn. pose proof (fk_nodup _ _ _ _ Hs). pose proof (length_remove_at (fh0_order s) pos (lookup_lt_Some _ _ _ Hn)).
  split; [|split; [apply listings_frame_intro; by destruct s|split; [done|]]].
  - eapply fh0_but_remove; [exact Hs|by apply NoDup_remove_at| |simpl; lia]. intros x. by apply elem_of_remove_at.
  - intros n ->. simpl. apply list_elem_of_lookup_2, (fk_order _ _ _ _ Hs) in Hn as [_ Hn].
    rewrite lookup_delete_ne; [done|]. congruence.
Qed.

Lemma make_room_fh0_ok ex fuel s :
  listings_but ex s -> (length (fh0_order s) <= fuel)%nat ->
  let s' := make_room_fh0 fuel s in
  listings_but ex s' /\ listings_frame s s' /\ (length (fh0_order s') < FH0_LISTINGS_MAX)%nat
  /\ forall node, ex = Some node -> fh0_listings s' !! node = fh0_listings s !! node.
Proof.
  revert s. induction fuel as [|fuel IH]; intros s Hs Hl; cbv zeta; cbn [make_room_fh0].
  - repeat (split; [done|]). split; [unfold FH0_LISTINGS_MAX; lia|done].
  - destruct (FH0_LISTINGS_MAX <=? length (fh0_order s))%nat eqn:Hc.
    + apply Nat.leb_le in Hc. destruct (evict_fh0_ok ex s Hs) as (Hs' & Hf & Hlen & Hex).
      { intros Ee. rewrite Ee in Hc. unfold FH0_LISTINGS_MAX in Hc. simpl in Hc. lia. }
      destruct (IH _ Hs') as (? & ? & ? & Hex'); [lia|]. split; [done|]. split; [by etrans|]. split; [done|].
      intros n En. by rewrite Hex', Hex.
    + apply Nat.leb_gt in Hc. done.
Qed.

(** Reading a listing puts its node last, and makes room first. *)
Lemma touch_fh0_but node s l :
  fh0_but (Some node) (fh0_listings s) (remove_first (Z.eqb node) (fh0_order s)) (fh0_finished s) ->
  fh0_listings s !! node = Some l ->
  listings_ok (touch_fh0 node s) /\ listings_frame s (touch_fh0 node s) /\ fh0_listings (touch_fh0 node s) !! node = Some l.
Proof.
  intros Hs Hl. unfold touch_fh0, make_room_for_fh0_listing.
  set (s1 := set_fh0_order _ s). destruct (make_room_fh0_ok (Some node) (length (fh0_order s1)) s1 Hs) as (Hs2 & Hf & Hlen & Hex).
  { done. }
  set (s2 := make_room_fh0 _ s1) in *. clearbody s2. assert (fh0_listings s2 !! node = Some l) as Hl2 by (by rewrite Hex).
  assert (node ∉ fh0_order s2) as Hn by (intros Hn; by apply (fk_order _ _ _ _ Hs2) in Hn as [_ []]).
  split; [|split; [|done]].
  - destruct Hs2. split; simpl; try done.
    + apply NoDup_app. split; [done|]. split; [|apply NoDup_singleton]. intros x Hx. rewrite list_elem_of_singleton. by intros ->.
    + intros x. rewrite elem_of_app, list_elem_of_singleton, fk_order. split.
      * intros [[? ?]| ->]; by split.
      * intros [? _]. destruct (decide (x = node)) as [->|]; [by right|left]. split; [done|]. congruence.
    + rewrite length_app. simpl. lia.
  - etrans; [|etrans; [exact Hf|]]; apply listings_frame_intro; [by destruct s|by destruct s2].
Qed.

Lemma fh0_but_less ls order fin node :
  fh0_ok ls order fin -> fh0_but (Some node) ls (remove_first (Z.eqb node) order) fin.
Proof.
  intros []. split; try done; [by apply NoDup_remove_first| |etrans; [apply length_remove_first|done]].
  intros x. rewrite elem_of_remove_first, fk_order by done. split; [intros [[? _] ?]|intros [? ?]];
    (split; [|congruence]); done.
Qed.

Lemma touch_fh0_ok node s : listings_ok s -> is_Some (fh0_listings s !! node) ->
  listings_ok (touch_fh0 node s) /\ listings_frame s (touch_fh0 node s).
Proof.
  intros Hs [l Hl]. destruct (touch_fh0_but node s l) as (? & ? & ?); [by apply fh0_but_less|done|done].
Qed.

Lemma new_fh0_ok node l s : listings_ok s -> listing_ok (l_entries l) ->
  listings_ok (touch_fh0 node (set_listing node l s)) /\ listings_frame s (touch_fh0 node (set_listing node l s)).
Proof.
  intros Hs Hl. destruct (touch_fh0_but node (set_listing node l s) l) as (? & Hf & ?); [|simpl; by rewrite lookup_insert_eq|].
  - destruct (fh0_but_less _ _ _ node Hs). split; simpl; try done.
    + intros n l'. rewrite lookup_insert_Some. intros [[? ?]|[? ?]]; simplify_eq; eauto.
    + intros x. rewrite fk_order. destruct (decide (x = node)) as [->|Hne].
      * split; intros [_ Hn]; by destruct Hn.
      * by rewrite lookup_insert_ne by done.
    + intros x [Hx Hne]%elem_of_difference. rewrite elem_of_singleton in Hne. rewrite lookup_insert_ne by done. eauto.
  - split; [done|]. etrans; [|exact Hf]. apply listings_frame_intro. by destruct s.
Qed.

(** Changes of the listings themselves that keep their entries. *)
Lemma fh0_ok_alter ls ls' order fin :
  fh0_ok ls order fin -> (forall n, is_Some (ls' !! n) <-> is_Some (ls !! n)) ->
  (forall n l', ls' !! n = Some l' -> exists l, ls !! n = Some l /\ l_entries l' = l_entries l) -> fh0_ok ls' order fin.
Proof.
  intros [] Hd He. split; try done.
  - intros n l' Hl'. destruct (He _ _ Hl') as (l & Hl & ->). eauto.
  - intros n. by rewrite fk_order, Hd.
  - intros n Hn. apply Hd. auto.
Qed.
