(* ===== verification/FsTable.v ===== *)
(** * The node table keeps its invariant

    Every step on nodes, handles, parked descriptors and listings keeps [fs_ok]. *)

From S2P Require Import Prelude Memory FsWire FsHost FsState FsDirs FsNodes FsOps FsIo FsReaddir FsInv FsCaches.
Local Open Scope Z_scope.

(** ** Paths *)

Lemma strip_prefix_Some pre p rest : strip_prefix pre p = Some rest <-> p = pre ++ rest.
Proof.
  revert p. induction pre as [|a pre IH]; intros p; simpl; [split; congruence|].
  destruct p as [|b p]; [done|]. case_bool_decide as E; subst; rewrite ?IH; split; intros; simplify_eq/=; done.
Qed.

Lemma below_in root p : below_export root p -> in_export root p.
Proof.
  intros (rel & n & -> & Hr & Hn). exists (rel ++ [n]). split; [done|].
  apply Forall_app. split; [done|]. by apply Forall_singleton.
Qed.

Lemma in_export_root root : in_export root root.
Proof. exists []. by rewrite app_nil_r. Qed.

Lemma in_export_join root p n : in_export root p -> name_ok n -> below_export root (join p n).
Proof. intros (rel & -> & Hr) Hn. exists rel, n. unfold join. by rewrite app_assoc. Qed.

Lemma in_export_strip root p : in_export root p -> exists rel, strip_prefix root p = Some rel /\ Forall name_ok rel.
Proof. intros (rel & -> & Hr). exists rel. split; [|done]. by apply strip_prefix_Some. Qed.

(** A suffix below a path of the export has good names, and can move below another. *)
Lemma in_export_move root old new p suffix :
  in_export root old -> in_export root new -> in_export root p -> p = old ++ suffix -> in_export root (new ++ suffix).
Proof.
  intros (ro & -> & Ho) (rn & -> & Hn) (rp & -> & Hp) E. exists (rn ++ suffix). rewrite app_assoc. split; [done|].
  apply Forall_app. split; [done|]. rewrite <-app_assoc in E. apply app_inv_head in E as ->. by apply Forall_app in Hp as [_ ?].
Qed.

Lemma rewrite_path_in root old new p :
  in_export root old -> in_export root new -> in_export root p -> in_export root (rewrite_path old new p).
Proof.
  intros Ho Hn Hp. unfold rewrite_path. destruct (strip_prefix old p) as [suffix|] eqn:E; [|done].
  apply strip_prefix_Some in E. by eapply (in_export_move root old new).
Qed.

Lemma exchange_path_in root l r p :
  in_export root l -> in_export root r -> in_export root p -> in_export root (exchange_path l r p).
Proof.
  intros Hl Hr Hp. unfold exchange_path. destruct (strip_prefix l p) as [suffix|] eqn:E.
  - apply strip_prefix_Some in E. by eapply (in_export_move root l r).
  - by apply (rewrite_path_in root r l).
Qed.

(** ** Counting handles *)

Lemma handles_on_insert_ne id f h hs : h_node h <> id -> hs !! f = None -> handles_on id (<[f := h]> hs) = handles_on id hs.
Proof. intros Hne Hf. unfold handles_on. rewrite map_filter_insert_False by done. by rewrite delete_id. Qed.

Lemma size_handles_on_insert f h hs :
  hs !! f = None -> size (handles_on (h_node h) (<[f := h]> hs)) = S (size (handles_on (h_node h) hs)).
Proof.
  intros Hf. unfold handles_on. rewrite map_filter_insert_True by done. apply map_size_insert_None.
  apply map_lookup_filter_None. by left.
Qed.

Lemma handles_on_delete_ne id f h hs : hs !! f = Some h -> h_node h <> id -> handles_on id (delete f hs) = handles_on id hs.
Proof.
  intros Hf Hne. unfold handles_on. rewrite map_filter_delete, delete_id; [done|].
  apply map_lookup_filter_None. right. intros h' ?. simplify_eq/=. done.
Qed.

Lemma size_handles_on_delete f h hs :
  hs !! f = Some h -> size (handles_on (h_node h) hs) = S (size (handles_on (h_node h) (delete f hs))).
Proof.
  intros Hf. unfold handles_on. rewrite map_filter_delete.
  assert (filter (fun e : Z * FileHandle => h_node e.2 = h_node h) hs !! f = Some h) as Hf' by (by apply map_lookup_filter_Some).
  rewrite map_size_delete_Some by eauto.
  assert (size (filter (fun e : Z * FileHandle => h_node e.2 = h_node h) hs) <> 0%nat) by (apply map_size_ne_0_lookup; eauto). lia.
Qed.

(** Keys between 1 and [n] bound the size of a table. *)
Lemma size_keys_lt {A} (m : gmap Z A) n : 1 <= n -> (forall k, is_Some (m !! k) -> 1 <= k < n) -> Z.of_nat (size m) < n.
Proof.
  intros Hn Hk. rewrite <-size_dom. assert (dom m ⊆ list_to_set (C := gset Z) (seqZ 1 (n - 1))) as Hs.
  { intros k Hd. apply elem_of_dom, Hk in Hd. rewrite elem_of_list_to_set, elem_of_seqZ. lia. }
  apply subseteq_size in Hs. rewrite size_list_to_set, length_seqZ in Hs by apply NoDup_seqZ. lia.
Qed.

Lemma size_handles_on_le id hs : (size (handles_on id hs) <= size hs)%nat.
Proof. apply map_subseteq_size, map_filter_subseteq. Qed.

Lemma NoDup_fst_bfilter {A B} (f : A * B -> bool) (l : list (A * B)) : NoDup l.*1 -> NoDup (List.filter f l).*1.
Proof.
  induction l as [|e l IH]; simpl; [done|]. intros Hd. inversion_clear Hd as [|? ? Hn Hd']. destruct (f e); [|auto].
  constructor; [|auto]. intros Hin. apply Hn. apply list_elem_of_fmap in Hin as (e' & -> & Hin). apply list_elem_of_fmap.
  exists e'. split; [done|]. rewrite list_elem_of_In in *. by apply filter_In in Hin as [? _].
Qed.

(** ** Steps of the table *)

Section Table.
Context (root : path) (wr : bool) (rk : Z * Z).
Abbreviation tab := (tab_ok root rk).
Abbreviation ok := (fs_ok root wr rk).

Lemma ok_lo lo lo' s : ok lo s -> lo' <= lo -> ok lo' s.
Proof. intros [] ?. split; try done. destruct ok_tab. split; try done. lia. Qed.

Lemma parked_frame_keeps lo s s' : ok lo s -> parked_frame s s' -> parked_ok s' -> ok lo s'.
Proof. intros [] (? & ? & ? & ->) Hp. by split. Qed.

Lemma listings_frame_keeps lo s s' : ok lo s -> listings_frame s s' -> listings_ok s' -> ok lo s'.
Proof. intros [] (? & ? & ? & ->) Hp. by split. Qed.

Lemma drop_parked_keeps lo node s : ok lo s -> ok lo (drop_parked node s).
Proof. intros Hs. eapply parked_frame_keeps; [done|apply drop_parked_frame|]. apply drop_parked_ok, Hs. Qed.

Lemma drop_fh0_keeps lo node s : ok lo s -> ok lo (drop_fh0_listing node s).
Proof. intros Hs. destruct (drop_fh0_ok node s) as [? ?]; [apply Hs|]. by eapply listings_frame_keeps. Qed.

(** A change of nodes that keeps their keys and counts, and good paths. *)
Lemma tab_alter lo ns ns' ids next hs fh :
  tab lo ns ids next hs fh ->
  (forall id, is_Some (ns' !! id) <-> is_Some (ns !! id)) ->
  (forall id n', ns' !! id = Some n' -> exists n, ns !! id = Some n /\ n_key n' = n_key n
     /\ n_open_handles n' = n_open_handles n /\ Forall (in_export root) (n_paths n')
     /\ (length (n_paths n') <= MAX_NODE_ALIASES)%nat) ->
  tab lo ns' ids next hs fh.
Proof.
  intros [] Hd Hn. split; try done.
  - intros Hr. destruct (tk_root Hr) as (n & Hroot & Hk). destruct (proj2 (Hd FUSE_ROOT_ID)) as [n' Hn']; [eauto|].
    exists n'. split; [done|]. destruct (Hn _ _ Hn') as (n2 & ? & -> & _). by simplify_eq.
  - intros key Hk. destruct (tk_rootid _ Hk) as (n & Hroot & <-). destruct (proj2 (Hd FUSE_ROOT_ID)) as [n' Hn']; [eauto|].
    exists n'. split; [done|]. destruct (Hn _ _ Hn') as (n2 & ? & -> & _). by simplify_eq.
  - intros id n' Hn'. by destruct (Hn _ _ Hn') as (? & _ & _ & _ & ? & _).
  - intros id n' Hn'. by destruct (Hn _ _ Hn') as (? & _ & _ & _ & _ & ?).
  - intros Hlt id Hid. apply tk_ids; [done|]. by apply Hd.
  - intros Hlt key id Hk. destruct (tk_inodes Hlt _ _ Hk) as (n & Hid & <-).
    destruct (proj2 (Hd id)) as [n' Hn']; [eauto|]. exists n'. split; [done|].
    destruct (Hn _ _ Hn') as (n2 & ? & -> & _). by simplify_eq.
  - intros Hlt Hfh id n' Hne Hn'. destruct (Hn _ _ Hn') as (n & ? & _ & -> & _). eauto.
Qed.

Lemma upd_node_keeps lo node f s :
  ok lo s ->
  (forall n, nodes s !! node = Some n -> n_key (f n) = n_key n /\ n_open_handles (f n) = n_open_handles n
     /\ Forall (in_export root) (n_paths (f n)) /\ (length (n_paths (f n)) <= MAX_NODE_ALIASES)%nat) ->
  ok lo (upd_node node f s).
Proof.
  intros [] Hf. split; simpl; try done. eapply tab_alter; [exact ok_tab|intros id; apply lookup_alter_is_Some|].
  intros id n'. rewrite lookup_alter_Some. intros [(<- & n & Hn & ->)|[? Hn]].
  - exists n. split; [done|]. by apply Hf.
  - exists n'. repeat (split; [done|]). split; [by eapply tk_paths|by eapply tk_alias].
Qed.

(** A change that leaves key, count and paths alone. *)
Lemma upd_attr_keeps lo node f s :
  ok lo s -> (forall n, n_key (f n) = n_key n /\ n_open_handles (f n) = n_open_handles n /\ n_paths (f n) = n_paths n) ->
  ok lo (upd_node node f s).
Proof.
  intros Hs Hf. apply upd_node_keeps; [done|]. intros n Hn. destruct (Hf n) as (-> & -> & ->).
  repeat (split; [done|]). destruct (ok_tab _ _ _ _ _ Hs). split; eauto.
Qed.

Lemma remember_lookup_keeps lo node s : ok lo s -> ok lo (remember_lookup node s).
Proof. intros. by apply upd_attr_keeps. Qed.
Lemma invalidate_guest_attr_keeps lo node s : ok lo s -> ok lo (invalidate_guest_attr node s).
Proof. intros. by apply upd_attr_keeps. Qed.
Lemma set_guest_attr_keeps lo node a s : ok lo s -> ok lo (upd_node node (set_n_guest_attr a) s).
Proof. intros. by apply upd_attr_keeps. Qed.
Lemma keep_guest_attr_keeps lo node g s : ok lo s -> ok lo (keep_guest_attr node g s).
Proof. intros. apply upd_attr_keeps; [done|]. intros n. by destruct (n_guest_attr n). Qed.

Lemma all_paths_keeps lo (f : path -> path) s :
  ok lo s -> (forall p, in_export root p -> in_export root (f p)) ->
  ok lo (set_nodes ((fun n => set_n_paths (map f (n_paths n)) n) <$> nodes s) s).
Proof.
  intros [] Hf. split; simpl; try done. eapply tab_alter; [exact ok_tab|intros id; by rewrite lookup_fmap, fmap_is_Some|].
  intros id n'. rewrite lookup_fmap, fmap_Some. intros (n & Hn & ->). exists n. repeat (split; [done|]). simpl.
  rewrite length_map. split; [|by eapply tk_alias]. apply Forall_map. eapply Forall_impl; [by eapply tk_paths|]. done.
Qed.

Lemma rewrite_node_paths_keeps lo old new s :
  ok lo s -> in_export root old -> in_export root new -> ok lo (rewrite_node_paths old new s).
Proof. intros. apply all_paths_keeps; [done|]. intros. by apply rewrite_path_in. Qed.
Lemma exchange_node_paths_keeps lo l r s :
  ok lo s -> in_export root l -> in_export root r -> ok lo (exchange_node_paths l r s).
Proof. intros. apply all_paths_keeps; [done|]. intros. by apply exchange_path_in. Qed.

Lemma rewrite_renamed_keeps lo old new m s :
  ok lo s -> in_export root old -> in_export root new -> ok lo (rewrite_renamed_paths old new m s).
Proof.
  intros Hs Ho Hn. unfold rewrite_renamed_paths. destruct (is_dir m); [by apply rewrite_node_paths_keeps|].
  destruct (inode_ids s !! stat_key m) as [id|]; [|by apply rewrite_node_paths_keeps].
  destruct (nodes s !! id) as [n|] eqn:En; [|by apply rewrite_node_paths_keeps].
  apply upd_node_keeps; [done|]. intros n' ?. simplify_eq. repeat (split; [done|]). simpl. rewrite length_map.
  destruct (ok_tab _ _ _ _ _ Hs). split; [|eauto]. apply Forall_map. eapply Forall_impl; [eauto|]. simpl. intros p Hp.
  by case_bool_decide.
Qed.

(** ** Removing nodes *)

(** An entry of the index leads to the node of its key, the root's always. *)
Lemma tab_key lo ns ids next hs fh key i :
  tab lo ns ids next hs fh -> next < U64_MAX \/ i = FUSE_ROOT_ID -> ids !! key = Some i ->
  exists n, ns !! i = Some n /\ n_key n = key.
Proof. intros [] [Hlt| ->] Hk; eauto. Qed.

Lemma tab_remove lo ns ids ids' next hs fh id :
  tab lo ns ids next hs fh -> (fst rk <> SOCKET_DEV -> id <> FUSE_ROOT_ID) ->
  (forall key i, next < U64_MAX \/ i = FUSE_ROOT_ID -> ids' !! key = Some i -> ids !! key = Some i /\ i <> id) ->
  tab lo (delete id ns) ids' next hs fh.
Proof.
  intros [] Hid Hids. split; try done.
  - intros Hr. rewrite lookup_delete_ne by auto. auto.
  - intros key Hk. destruct (Hids key FUSE_ROOT_ID) as [Hk' Hi]; [by right|done|]. rewrite lookup_delete_ne by done. eauto.
  - intros i n' [_ ?]%lookup_delete_Some. eauto.
  - intros i n' [_ ?]%lookup_delete_Some. eauto.
  - intros Hlt i [x [_ ?]%lookup_delete_Some]. eauto.
  - intros Hlt key i Hk. destruct (Hids key i) as [Hk' Hi]; [by left|done|]. rewrite lookup_delete_ne by done. eauto.
  - intros Hlt Hfh i n' Hne [_ ?]%lookup_delete_Some. eauto.
Qed.

Lemma tab_ids lo ns ids ids' next hs fh : tab lo ns ids next hs fh -> ids' ⊆ ids -> tab lo ns ids' next hs fh.
Proof.
  intros [] Hsub. split; try done.
  - intros key Hk. eapply tk_rootid. by eapply lookup_weaken.
  - intros Hlt key i Hk. eapply tk_inodes; [done|]. by eapply lookup_weaken.
Qed.

Lemma remove_node_keeps lo node n s :
  ok lo s -> nodes s !! node = Some n -> node <> FUSE_ROOT_ID -> ok lo (remove_node node (n_key n) s).
Proof.
  intros [] Hn Hr. unfold remove_node. simpl.
  case_bool_decide as Hb; split; simpl; try done; (eapply tab_remove; [exact ok_tab|done|]); intros key i Hlt Hk.
  - apply lookup_delete_Some in Hk as [Hne Hk]. split; [done|]. intros ->.
    destruct (tab_key _ _ _ _ _ _ _ _ ok_tab Hlt Hk) as (n' & ? & <-). by simplify_eq.
  - split; [done|]. intros ->. destruct (tab_key _ _ _ _ _ _ _ _ ok_tab Hlt Hk) as (n' & ? & <-). by simplify_eq.
Qed.

Lemma forget_count_keeps lo node count s : ok lo s -> ok lo (forget_count node count s).
Proof.
  intros Hs. unfold forget_count. destruct (node =? FUSE_ROOT_ID) eqn:Hr; bool_hyps; [done|].
  destruct (nodes s !! node) as [n|] eqn:Hn; [|done].
  set (v := saturating_sub _ _). assert (ok lo (upd_node node (set_n_lookups v) s)) as Hs' by (by apply upd_attr_keeps).
  destruct (negb (v =? 0)); [done|]. destruct (negb (n_open_handles n =? 0)); [done|].
  apply drop_fh0_keeps, drop_parked_keeps.
  apply (remove_node_keeps _ _ (set_n_lookups v n)); [done|simpl; by rewrite lookup_alter_eq, Hn|done].
Qed.

Lemma forget_keeps lo node input s : ok lo s -> ok lo (forget node input s).
Proof. apply forget_count_keeps. Qed.

Lemma batch_forget_loop_keeps lo k i input s : ok lo s -> ok lo (batch_forget_loop k i input s).
Proof.
  revert i s. induction k as [|k IH]; intros i s Hs; cbn [batch_forget_loop]; [done|].
  destruct (get_u64 input _); [|done]. destruct (get_u64 input _); [|done]. apply IH. by apply forget_count_keeps.
Qed.

Lemma batch_forget_keeps lo input s : ok lo s -> ok lo (batch_forget input s).
Proof. apply batch_forget_loop_keeps. Qed.

Lemma forget_node_path_keeps lo p m s : ok lo s -> ok lo (forget_node_path p m s).
Proof.
  intros Hs. unfold forget_node_path. destruct (inode_ids s !! stat_key m) as [id|] eqn:Hk; [|done].
  set (f := fun n => set_n_paths _ n).
  assert (ok lo (upd_node id f (drop_parked id s))) as Hs1.
  { apply upd_node_keeps; [by apply drop_parked_keeps|]. intros n Hn. simpl in Hn. repeat (split; [done|]). simpl.
    destruct (ok_tab _ _ _ _ _ Hs). split.
    - eapply Forall_impl; [|intros q Hq; exact Hq]. rewrite Forall_forall. intros q Hq. rewrite list_elem_of_In in Hq.
      apply filter_In in Hq as [Hq _]. rewrite <-list_elem_of_In in Hq. eapply Forall_forall; [by eapply tk_paths|done].
    - etrans; [apply filter_length_le|eauto]. }
  set (s1 := upd_node id f (drop_parked id s)) in *.
  assert (inode_ids s1 = inode_ids s) as Ei by done.
  assert (forall n, nodes s1 !! id = Some n -> next_node s1 < U64_MAX -> n_key n = stat_key m) as Hkey.
  { intros n Hn Hlt. destruct (tk_inodes _ _ _ _ _ _ _ _ (ok_tab _ _ _ _ _ Hs1) Hlt (stat_key m) id) as (n' & ? & ?); [by rewrite Ei|].
    by simplify_eq. }
  clearbody s1. destruct (nodes s1 !! id) as [n|] eqn:Hn; [|done].
  destruct (bool_decide (n_paths n = []) && negb (id =? FUSE_ROOT_ID)) eqn:Hb; [|done].
  apply andb_true_iff in Hb as [_ Hr]. bool_hyps.
  assert (ok lo (set_inode_ids (delete (stat_key m) (inode_ids s1)) s1)) as Hs2.
  { destruct Hs1. split; simpl; try done. eapply tab_ids; [done|apply delete_subseteq]. }
  apply (drop_fh0_keeps _ id) in Hs2.
  assert (forall s, nodes (drop_fh0_listing id s) = nodes s /\ inode_ids (drop_fh0_listing id s) = inode_ids s
                    /\ next_node (drop_fh0_listing id s) = next_node s) as Hdrop.
  { intros s'. unfold drop_fh0_listing. by case_bool_decide. }
  set (s2 := set_inode_ids _ s1) in *. destruct (Hdrop s2) as (En & Eids & Enx). rewrite En. change (nodes s2) with (nodes s1).
  rewrite Hn. destruct (_ || _); [done|]. set (s3 := drop_fh0_listing id s2) in *.
  destruct Hs2. split; simpl; try done. rewrite En in ok_tab.
  eapply tab_remove; [exact ok_tab|done|]. intros key i Hlt Hk2. split; [done|]. intros ->. destruct Hlt as [Hlt|]; [|done].
  destruct (tk_inodes _ _ _ _ _ _ _ _ ok_tab Hlt _ _ Hk2) as (n' & Hn' & <-).
  rewrite Eids in Hk2. simpl in Hk2. apply lookup_delete_Some in Hk2 as [Hne _]. apply Hne. symmetry.
  apply Hkey; [change (nodes s2) with (nodes s1) in Hn'; by rewrite <-Hn'|by rewrite Enx in Hlt].
Qed.

(** ** Adding nodes *)

Lemma new_node_keeps lo key p s :
  ok lo s -> in_export root p -> ok (Z.max lo (Z.min ((new_node key p s).1 + 1) U64_MAX)) (new_node key p s).2.
Proof.
  intros [] Hp. unfold new_node. simpl. split; simpl; try done. destruct ok_tab. unfold sat_succ. fold U64_MAX.
  assert (forall (P : Prop), (Z.min (next_node s + 1) U64_MAX < U64_MAX -> P) <-> (next_node s + 1 < U64_MAX -> P)) as Hmin.
  { intros P. split; intros HP ?; apply HP; lia. }
  split; try done; rewrite ?Hmin.
  - unfold U64_MAX in *. lia.
  - lia.
  - intros Hr. destruct (tk_root Hr) as (n & Hn & Hk). exists n. split; [|done].
    rewrite lookup_insert_ne; [done|]. unfold FUSE_ROOT_ID. lia.
  - intros k. rewrite lookup_insert_Some. unfold FUSE_ROOT_ID. intros [[_ ?]|[_ Hk]]; [lia|].
    rewrite lookup_insert_ne by lia. eauto.
  - intros id n. rewrite lookup_insert_Some. intros [[<- <-]|[_ ?]]; [|eauto]. by apply Forall_singleton.
  - intros id n. rewrite lookup_insert_Some. intros [[<- <-]|[_ ?]]; [|eauto]. simpl. unfold MAX_NODE_ALIASES. lia.
  - intros Hlt id [n Hn]. rewrite lookup_insert_Some in Hn. destruct Hn as [[<- _]|[_ Hn]]; [lia|].
    assert (1 <= id < next_node s); [|lia]. apply tk_ids; [lia|eauto].
  - intros Hlt k id. rewrite lookup_insert_Some. intros [[<- <-]|[_ Hk]].
    + eexists. by rewrite lookup_insert_eq.
    + destruct (tk_inodes ltac:(lia) _ _ Hk) as (n & Hn & ?). exists n. split; [|done]. rewrite lookup_insert_ne; [done|].
      assert (1 <= id < next_node s); [|lia]. apply tk_ids; [lia|eauto].
  - intros Hlt f h Hh. assert (h_node h < next_node s); [|lia]. eapply tk_hnodes; [lia|done].
  - intros Hlt Hfh id n Hne. rewrite lookup_insert_Some. intros [[<- <-]|[_ Hn]]; [|apply tk_counts; [lia|done..]]. simpl.
    assert (handles_on (next_node s) (handles s) = ∅) as ->; [|by rewrite map_size_empty].
    apply map_empty. intros f. apply map_lookup_filter_None. right. intros h Hh. simpl. intros E. assert (h_node h < next_node s); [|lia].
    eapply tk_hnodes; [lia|done].
Qed.

(** The id of a node in the table, below every id still to be given out. *)
Lemma known_node_lo lo node s :
  ok lo s -> is_Some (nodes s !! node) -> ok (Z.max lo (Z.min (node + 1) U64_MAX)) s.
Proof.
  intros [] Hn. split; try done. destruct ok_tab. split; try done.
  destruct (decide (next_node s < U64_MAX)); [|lia]. destruct (tk_ids ltac:(lia) node Hn). lia.
Qed.

Lemma socket_node_keeps lo p i s : ok lo s -> in_export root p -> ok lo (socket_node_id p i s).2.
Proof.
  intros Hs Hp. unfold socket_node_id. destruct (inode_ids s !! _); [done|].
  eapply ok_lo; [by apply new_node_keeps|]. lia.
Qed.

(** An alias fits: either the list is short, or one name made room. *)
Definition alias_fits (node : Z) (p : path) (stale : option nat) (s : Fs) : Prop :=
  forall n, nodes s !! node = Some n -> p ∉ n_paths n ->
  match stale with Some i => (i < length (n_paths n))%nat | None => (length (n_paths n) < MAX_NODE_ALIASES)%nat end.

Lemma add_alias_keeps lo node p stale s :
  ok lo s -> in_export root p -> alias_fits node p stale s -> ok lo (add_alias node p stale s).
Proof.
  intros Hs Hp Hfit. unfold add_alias. destruct (nodes s !! node) as [n|] eqn:Hn; [|done]. case_bool_decide as Hin; [done|].
  specialize (Hfit n Hn Hin). apply upd_node_keeps; [done|]. intros n' Hn'. simplify_eq. repeat (split; [done|]). simpl.
  pose proof (tk_paths _ _ _ _ _ _ _ _ (ok_tab _ _ _ _ _ Hs) _ _ Hn) as Hpaths. pose proof (tk_alias _ _ _ _ _ _ _ _ (ok_tab _ _ _ _ _ Hs) _ _ Hn) as Halias.
  rewrite Forall_app, Forall_singleton, length_app. destruct stale as [i|]; simpl.
  - rewrite (length_remove_at _ _ Hfit) in Halias. split; [|lia]. split; [|done]. rewrite Forall_forall in *.
    intros q Hq. eapply Hpaths, elem_of_remove_at_1, Hq.
  - split; [done|]. unfold MAX_NODE_ALIASES in *. lia.
Qed.

(** A socket goes with its nodes. *)
Lemma remove_socket_nodes lo (l : list (Z * Node)) s0 s :
  ok lo s -> (forall e, e ∈ l -> nodes s0 !! e.1 = Some e.2 /\ (fst rk <> SOCKET_DEV -> e.1 <> FUSE_ROOT_ID)) -> NoDup l.*1 ->
  (forall e, e ∈ l -> nodes s !! e.1 = nodes s0 !! e.1) ->
  ok lo (foldr (fun e s => set_inode_ids (delete (n_key e.2) (inode_ids s)) (set_nodes (delete e.1 (nodes s)) s)) s l)
  /\ forall id, id ∉ l.*1 ->
    nodes (foldr (fun e s => set_inode_ids (delete (n_key e.2) (inode_ids s)) (set_nodes (delete e.1 (nodes s)) s)) s l) !! id
    = nodes s !! id.
Proof.
  intros Hs. induction l as [|e l IH]; intros Hl Hd He; simpl; [done|]. inversion_clear Hd as [|? ? Hnot Hd'].
  destruct IH as [Hok Hsame]; [intros e' ?; apply Hl; by right|done|intros e' ?; apply He; by right|].
  set (s1 := foldr _ s l) in *. clearbody s1. destruct (Hl e) as [Hn Hr]; [by left|].
  assert (nodes s1 !! e.1 = Some e.2) as Hn1 by (rewrite Hsame, He by (done || by left); done).
  split.
  - destruct Hok. split; simpl; try done. eapply tab_remove; [exact ok_tab|done|].
    intros key i Hlt [Hne Hk]%lookup_delete_Some. split; [done|]. intros ->.
    destruct (tab_key _ _ _ _ _ _ _ _ ok_tab Hlt Hk) as (n' & ? & <-). by simplify_eq.
  - intros id [Hne Hnot']%not_elem_of_cons. simpl. rewrite lookup_delete_ne by done. auto.
Qed.

Lemma remove_socket_keeps lo p s : ok lo s -> ok lo (remove_socket p s).
Proof.
  intros Hs. unfold remove_socket. set (s0 := set_sockets _ s).
  assert (ok lo s0) as Hs0.
  { destruct Hs. split; try done. intros q. simpl. intros [x [_ Hx]%lookup_delete_Some]. eauto. }
  destruct (remove_socket_nodes lo (List.filter (fun e : Z * Node => (fst (n_key e.2) =? SOCKET_DEV) && bool_decide (p ∈ n_paths e.2))
    (map_to_list (nodes s0))) s0 s0 Hs0) as [? _]; [|..|done].
  - intros e He. rewrite list_elem_of_In in He. apply filter_In in He as [He Hk]. rewrite <-list_elem_of_In in He.
    destruct e as [id n]. apply elem_of_map_to_list in He. split; [done|]. simpl in *. intros Hrk ->.
    destruct (tk_root _ _ _ _ _ _ _ _ (ok_tab _ _ _ _ _ Hs0) Hrk) as (n' & Hn' & <-).
    change (nodes s0) with (nodes s) in *. apply andb_true_iff in Hk as [Hk _]. bool_hyps. congruence.
  - apply NoDup_fst_bfilter, NoDup_fst_map_to_list.
  - done.
Qed.

(** ** Handles *)

Definition known_below (node lo : Z) : Prop := Z.min (node + 1) U64_MAX <= lo.

(** Changing a node keeps what leads to a key. *)
Lemma key_alter (f : Node -> Node) (k i : Z) (ns : gmap Z Node) key :
  (forall n, n_key (f n) = n_key n) -> (exists n, ns !! i = Some n /\ n_key n = key) ->
  exists n, alter f k ns !! i = Some n /\ n_key n = key.
Proof.
  intros Hf (n & Hn & <-). destruct (decide (i = k)) as [->|E].
  - exists (f n). by rewrite lookup_alter_eq, Hn.
  - exists n. by rewrite lookup_alter_ne by done.
Qed.

(** A new handle on a node of the table, held by the node. *)
Lemma add_handle_keeps lo h s :
  ok lo s -> handle_ok root wr h -> known_below (h_node h) lo ->
  ok lo (hold_node (h_node h) (set_handles (<[next_fh s := h]> (handles s)) (next_handle s).2)).
Proof.
  intros [] Hh Hlo. split; simpl; try done; [|by apply map_Forall_insert_2].
  destruct ok_tab. unfold sat_succ. fold U64_MAX.
  assert (forall (P : Prop), (Z.max (Z.min (next_fh s + 1) U64_MAX) 1 < U64_MAX -> P) <-> (next_fh s + 1 < U64_MAX -> P)) as Hmin.
  { intros P. unfold U64_MAX. split; intros HP ?; apply HP; lia. }
  set (f := fun n => set_n_open_handles (Z.min (n_open_handles n + 1) U64_MAX) n).
  split; try done; rewrite ?Hmin.
  - unfold U64_MAX in *. lia.
  - intros Hr. apply key_alter; auto.
  - intros key Hk. apply key_alter; auto.
  - intros id n. rewrite lookup_alter_Some. intros [(<- & n' & Hn & ->)|[_ ?]]; [|eauto]. simpl. eauto.
  - intros id n. rewrite lookup_alter_Some. intros [(<- & n' & Hn & ->)|[_ ?]]; [|eauto]. simpl. eauto.
  - intros Hlt id. rewrite lookup_alter_is_Some. auto.
  - intros Hlt key id Hk. apply key_alter; auto.
  - intros Hlt g [h' Hg]. rewrite lookup_insert_Some in Hg. destruct Hg as [[<- _]|[_ Hg]]; [lia|].
    assert (1 <= g < next_fh s); [|lia]. apply tk_handles; [lia|eauto].
  - intros Hlt g h'. rewrite lookup_insert_Some. intros [[<- <-]|[_ Hg]]; [|eauto]. unfold known_below in Hlo. lia.
  - intros Hlt Hfh id n Hne. assert (handles s !! next_fh s = None) as Hfresh.
    { apply eq_None_not_Some. intros Hs. destruct (tk_handles ltac:(lia) _ Hs). lia. }
    rewrite lookup_alter_Some. intros [(<- & n' & Hn & ->)|[E Hn]].
    + simpl. rewrite size_handles_on_insert by done. rewrite (tk_counts Hlt ltac:(lia) _ _ Hne Hn).
      pose proof (size_keys_lt (handles s) (next_fh s) ltac:(lia) (tk_handles ltac:(lia))).
      pose proof (size_handles_on_le (h_node h) (handles s)). lia.
    + rewrite handles_on_insert_ne by done. apply tk_counts; [done|lia|done..].
Qed.

Lemma note_peak_keeps lo s : ok lo s -> ok lo (note_handle_peak s).
Proof. by intros []. Qed.

Lemma insert_handle_keeps lo file w flags attrs p node s :
  ok lo s -> fd_ok file -> known_below node lo -> ok lo (insert_handle file w flags attrs p node s).2.
Proof.
  intros Hs Hfd Hlo. unfold insert_handle. simpl. apply note_peak_keeps.
  apply (add_handle_keeps lo (mkHandle file w flags attrs p None node false)); [done|by split|done].
Qed.

Lemma insert_temporary_keeps lo file flags attrs p node s :
  ok lo s -> fd_ok file -> known_below node lo -> wr = true -> below_export root p ->
  ok lo (insert_temporary file flags attrs p node s).2.
Proof.
  intros Hs Hfd Hlo Hw Hp. unfold insert_temporary. simpl.
  apply (add_handle_keeps lo (mkHandle file true flags attrs p (Some p) node false)); [done| |done].
  split; [done|]. intros q ?. by simplify_eq/=.
Qed.

Lemma add_dir_handle_keeps lo file entries s :
  ok lo s -> fd_ok file -> listing_ok entries -> ok lo (add_dir_handle file entries s).2.
Proof.
  intros [] Hfd Hl. unfold add_dir_handle. simpl. split; simpl; try done; [|by apply map_Forall_insert_2].
  destruct ok_tab. split; try done.
  - unfold sat_succ, U64_MAX in *. lia.
  - intros Hlt f Hf. assert (1 <= f < next_fh s); [|unfold sat_succ, U64_MAX in *; lia].
    apply tk_handles; [|done]. unfold sat_succ, U64_MAX in *. lia.
  - intros Hlt Hfh. apply tk_counts; [done|]. unfold sat_succ, U64_MAX in *. lia.
Qed.

(** A handle goes, and its node with it when nothing else refers to it. *)
Lemma tab_release lo ns ids next hs fh f h v :
  tab lo ns ids next hs fh -> hs !! f = Some h ->
  (forall n, ns !! h_node h = Some n -> v = saturating_sub (n_open_handles n) 1) ->
  tab lo (alter (set_n_open_handles v) (h_node h) ns) ids next (delete f hs) fh.
Proof.
  intros [] Hh Hv. split; try done.
  - intros Hr. apply key_alter; auto.
  - intros key Hk. apply key_alter; auto.
  - intros id n. rewrite lookup_alter_Some. intros [(<- & n' & Hn & ->)|[_ ?]]; simpl; eauto.
  - intros id n. rewrite lookup_alter_Some. intros [(<- & n' & Hn & ->)|[_ ?]]; simpl; eauto.
  - intros Hlt id. rewrite lookup_alter_is_Some. auto.
  - intros Hlt key id Hk. apply key_alter; auto.
  - intros Hlt g [x [_ Hg]%lookup_delete_Some]. eauto.
  - intros Hlt g x [_ Hg]%lookup_delete_Some. eauto.
  - intros Hlt Hfh id n Hne. rewrite lookup_alter_Some. intros [(<- & n' & Hn & ->)|[E Hn]].
    + simpl. rewrite (Hv _ Hn), (tk_counts Hlt Hfh _ _ Hne Hn), (size_handles_on_delete f h) by done.
      unfold saturating_sub. lia.
    + rewrite (handles_on_delete_ne id f h) by done. eauto.
Qed.

Lemma release_keeps lo fh h s :
  ok lo s -> handles s !! fh = Some h -> ok lo (release_node (h_node h) (set_handles (delete fh (handles s)) s)).
Proof.
  intros Hs Hh. unfold release_node. simpl.
  assert (map_Forall (fun _ h => handle_ok root wr h) (delete fh (handles s))) as Hhs by (apply map_Forall_delete, Hs).
  destruct (nodes s !! h_node h) as [n|] eqn:Hn.
  - set (v := saturating_sub (n_open_handles n) 1). set (s1 := upd_node _ _ _).
    assert (ok lo s1) as Hs1.
    { destruct Hs. split; simpl; try done. eapply tab_release; [done..|]. intros n' ?. by simplify_eq. }
    destruct (negb (v =? 0) || negb (n_lookups n =? 0) || (h_node h =? FUSE_ROOT_ID)) eqn:Hc; [done|]. bool_hyps.
    apply (remove_node_keeps lo (h_node h) (set_n_open_handles v n)); [done| |done]. simpl. by rewrite lookup_alter_eq, Hn.
  - destruct Hs. split; simpl; try done.
    pose proof (tab_release _ _ _ _ _ _ _ _ 0 ok_tab Hh ltac:(congruence)) as Ht. by rewrite alter_id in Ht by congruence.
Qed.

(** A change of a handle that leaves its node alone. *)
Lemma size_handles_on_alter (f : FileHandle -> FileHandle) k id hs :
  (forall h, h_node (f h) = h_node h) -> size (handles_on id (alter f k hs)) = size (handles_on id hs).
Proof.
  intros Hf. rewrite <-!size_dom. f_equal. apply set_eq. intros g. rewrite !elem_of_dom. unfold handles_on, is_Some.
  setoid_rewrite map_lookup_filter_Some. simpl. setoid_rewrite lookup_alter_Some. split.
  - intros (h & [(<- & h' & Hh & ->)|[? Hh]] & Hid); [|by eauto]. rewrite Hf in Hid. eauto.
  - intros (h & Hh & Hid). destruct (decide (k = g)) as [->|]; [|by eauto]. exists (f h). rewrite Hf. eauto 6.
Qed.

Lemma note_posix_lock_keeps lo fh c s : ok lo s -> ok lo (note_posix_lock fh c s).
Proof.
  intros Hs. destruct c as [|l]; [done|]. simpl. set (f := fun h => mkHandle _ _ _ _ _ _ _ true).
  destruct Hs as [Hroot Hwr Hdirs [] Hhs Hdh Hfh0 Hpk Hsk]. split; simpl; try done.
  - split; try done.
    + intros Hlt g Hg. apply tk_handles; [done|]. by rewrite lookup_alter_is_Some in Hg.
    + intros Hlt g h. rewrite lookup_alter_Some. intros [(<- & h' & Hh & ->)|[_ Hh]]; simpl; eauto.
    + intros Hlt Hfh id n Hne Hn. rewrite size_handles_on_alter by done. eauto.
  - intros g h. rewrite lookup_alter_Some. intros [(<- & h' & Hh & ->)|[_ Hh]]; [|by eapply Hhs]. by apply (Hhs fh h').
Qed.

End Table.
