(* ===== verification/FsSafe.v ===== *)
(** * Programs of the FUSE server keep the invariant

    One lemma per program of [FsDirs] and [FsNodes], by the rules of [FsInv]: the
    invariant is kept, the calls are allowed, nothing panics, and the result is
    what the callers rely on (descriptors reached inside the export, names of one
    component, paths of the export, bytes). *)

From S2P Require Import Prelude Memory FsWire FsHost FsState FsDirs FsNodes FsOps FsIo FsReaddir FsInv FsCaches FsTable.
Local Open Scope Z_scope.

(** A part of a path: not empty, no slash. *)
Definition comp (n : name) : Prop := n <> [] /\ SLASH ∉ n.

Lemma proper_comp n : proper n -> comp n.
Proof. by intros (? & _ & _ & ? & _). Qed.

Lemma cstring_Some n n' : cstring n = Some n' -> n' = n /\ 0 ∉ n.
Proof. unfold cstring. case_bool_decide; intros; by simplify_eq. Qed.

Lemma comp_proper n : comp n -> n <> DOT -> n <> DOTDOT -> 0 ∉ n -> proper n.
Proof. by intros [? ?]. Qed.

Lemma split_on_no_sep sep l : Forall (fun p => sep ∉ p) (split_on sep l).
Proof.
  induction l as [|b l IH]; simpl; [apply Forall_singleton, not_elem_of_nil|].
  destruct (b =? sep) eqn:Hb; bool_hyps; [by constructor; [apply not_elem_of_nil|]|].
  destruct (split_on sep l) as [|p ps]; [apply Forall_singleton|apply Forall_cons in IH as [Hp Hps]; constructor; [|done]];
    apply not_elem_of_cons; split; auto using not_elem_of_nil.
Qed.

Lemma comp_dotdot : comp DOTDOT.
Proof. split; [done|]. by apply (bool_decide_unpack (SLASH ∉ DOTDOT)). Qed.

(** The names a symlink puts in front are parts of a path. *)
Lemma push_components_comp target pending :
  Forall comp pending -> Forall comp (push_components (components target) pending).
Proof.
  intros Hp. unfold components, push_components. rewrite foldr_app.
  assert (Forall comp (foldr (fun c acc => match c with Normal n => n :: acc | ParentDir => DOTDOT :: acc | _ => acc end) pending
    (map component_of (List.filter (fun n => negb (bool_decide (n = []))) (split_on SLASH target))))) as Hf.
  { pose proof (split_on_no_sep SLASH target) as Hs. induction (split_on SLASH target) as [|n l IH]; simpl; [done|].
    apply Forall_cons in Hs as [Hn Hs]. specialize (IH Hs). case_bool_decide as He; simpl; [done|].
    unfold component_of. case_bool_decide; [done|]. case_bool_decide; constructor; auto using comp_dotdot. by split. }
  by destruct (is_absolute target).
Qed.

Lemma Forall_removelast {A} (P : A -> Prop) l : Forall P l -> Forall P (removelast l).
Proof.
  intros Hl. destruct l as [|x l] using rev_ind; [done|]. rewrite removelast_last. by apply Forall_app in Hl as [? _].
Qed.

Lemma fd_ok_child fd r n : fd_ok fd -> proper n -> fd_ok (mkFd r (via fd ++ [n])).
Proof. intros Hf Hn. apply Forall_app. split; [done|]. by apply Forall_singleton. Qed.

Lemma fd_ok_dup fd r : fd_ok fd -> fd_ok (mkFd r (via fd)).
Proof. done. Qed.

(** The last component of a path below the root, and what is above it. *)
Lemma file_name_ok rel n : Forall name_ok rel -> file_name rel = Some n -> name_ok n.
Proof.
  intros Hr Hn. unfold file_name in Hn. apply last_Some in Hn as [l ->]. apply Forall_app in Hr as [_ Hr].
  by rewrite Forall_singleton in Hr.
Qed.

Lemma parent_ok rel : Forall name_ok rel -> Forall name_ok (default [] (parent rel)).
Proof. intros Hr. destruct rel; [done|]. by apply Forall_removelast. Qed.

Lemma names_proper rel : Forall name_ok rel -> Forall proper rel.
Proof. intros Hr. eapply Forall_impl; [exact Hr|]. by intros ? []. Qed.

Create HintDb fsdb.
#[export] Hint Resolve fd_ok_child fd_ok_dup proper_comp names_proper parent_ok : fsdb.

(** An allowed call: its descriptors and names are in the context, and either it
    changes nothing or the share is writable. *)
Ltac cok := split; [simpl; split_and?; eauto with fsdb | simpl; intros; first [done | congruence]].

(** ** Bytes and names of a request *)

Lemma put_attr_ok node m g : bytes_ok (put_attr node m g).
Proof. unfold put_attr. rewrite !bytes_ok_app. split_and!; apply le_bytes_ok. Qed.
Lemma put_socket_attr_ok node k : bytes_ok (put_socket_attr node k).
Proof. unfold put_socket_attr. destruct (s_time k). rewrite !bytes_ok_app. split_and!; apply le_bytes_ok. Qed.
Lemma put_entry_head_ok a b c d : bytes_ok (put_entry_head a b c d).
Proof. unfold put_entry_head. rewrite !bytes_ok_app. split_and!; apply le_bytes_ok. Qed.
Lemma put_le_ok n v : bytes_ok (le_bytes n v).
Proof. apply le_bytes_ok. Qed.
Lemma statx_out_ok node m c g : bytes_ok (statx_out node m c g).
Proof.
  unfold statx_out, put_statx_time. destruct (metadata_btime m). rewrite !bytes_ok_app.
  split_and!; first [apply le_bytes_ok|apply bytes_ok_replicate0].
Qed.
Lemma bytes_ok_nil : bytes_ok [].
Proof. constructor. Qed.
#[export] Hint Resolve put_attr_ok put_socket_attr_ok put_entry_head_ok statx_out_ok bytes_ok_nil : fsdb.

(** Replies are bytes. *)
Ltac bok :=
  unfold attr_out, entry_out, negative_entry_out, socket_entry_out, socket_attr_out, put_open_out,
    put_u16, put_u32, put_u64, put_i32, put_i64, zeros;
  rewrite ?bytes_ok_app; split_and?;
  first [done | apply le_bytes_ok | apply bytes_ok_replicate0 | solve [eauto with fsdb]].

Lemma get_range_ok input a b l : bytes_ok input -> get_range input a b = Some l -> bytes_ok l.
Proof. intros Hi Hl. apply get_range_Some in Hl as (_ & _ & ->). by apply bytes_ok_take, bytes_ok_drop. Qed.

Lemma zlen_range {A} (l k : list A) a b : get_range l a b = Some k -> zlen k = b - a.
Proof.
  intros (? & ? & ->)%get_range_Some. unfold zlen in *. rewrite length_take, length_drop. lia.
Qed.

Lemma get_u32_range input off v : bytes_ok input -> get_u32 input off = Some v -> 0 <= v < 2 ^ 32.
Proof.
  intros Hi (l & Hl & ->)%fmap_Some. pose proof (le_val_range l (get_range_ok _ _ _ _ Hi Hl)) as Hv.
  by replace (zlen l) with 4 in Hv by (rewrite (zlen_range _ _ _ _ Hl); lia).
Qed.
Lemma get_u64_range input off v : bytes_ok input -> get_u64 input off = Some v -> 0 <= v < 2 ^ 64.
Proof.
  intros Hi (l & Hl & ->)%fmap_Some. pose proof (le_val_range l (get_range_ok _ _ _ _ Hi Hl)) as Hv.
  by replace (zlen l) with 8 in Hv by (rewrite (zlen_range _ _ _ _ Hl); lia).
Qed.

Lemma nul_position_name l i : nul_position l = Some i -> 0 ∉ take i l.
Proof.
  revert i. induction l as [|b l IH]; intros i; simpl; [done|]. destruct (b =? 0) eqn:Hb; bool_hyps.
  - intros [= <-]. apply not_elem_of_nil.
  - intros (j & Hj & ->)%fmap_Some. simpl. apply not_elem_of_cons. split; [done|]. by apply IH.
Qed.

Lemma nul_name_with_end_ok input off n e :
  bytes_ok input -> nul_name_with_end input off = Some (n, e) -> bytes_ok n /\ 0 ∉ n.
Proof.
  intros Hi. unfold nul_name_with_end. intros (rest & Hr & (len & Hl & Hn)%bind_Some)%bind_Some.
  case_bool_decide; simplify_eq. split; [|by apply nul_position_name]. apply bytes_ok_take.
  unfold get_from in Hr. case_match; simplify_eq. by apply bytes_ok_drop.
Qed.

Lemma nul_name_ok input off n : bytes_ok input -> nul_name input off = Some n -> bytes_ok n /\ 0 ∉ n.
Proof. intros Hi ([n' e] & Hn & ->)%fmap_Some. by eapply nul_name_with_end_ok. Qed.

Lemma validated_proper n : validate_mutation_name n = true -> 0 ∉ n -> proper n.
Proof.
  unfold validate_mutation_name. intros Hv H0. apply negb_true_iff in Hv. rewrite !orb_false_iff, !bool_decide_eq_false in Hv.
  destruct Hv as (((? & ?) & ?) & ?). by split_and!.
Qed.

(** Clearing what was prepared keeps the listings. *)
Lemma fh0_ok_clear ls order fin : fh0_ok ls order fin -> fh0_ok (clear_prepared <$> ls) order fin.
Proof.
  intros []. split; try done.
  - intros node l. rewrite lookup_fmap_Some. intros (l0 & <- & Hl). exact (fk_listing node l0 Hl).
  - intros node. rewrite fk_order, lookup_fmap, fmap_is_Some. done.
  - intros node Hn. rewrite lookup_fmap, fmap_is_Some. by apply fk_finished.
Qed.

Section Safe.
Context {H : Type} {HF : HostFs H} {HL : HostFsLaws H}.
Context (root : path) (wr : bool) (rk : Z * Z) (rs : list RamRegion).
Abbreviation good := (FsInv.good (H := H) root wr rk rs).
Abbreviation good_up := (FsInv.good_up (H := H) root wr rk rs).
Abbreviation ok := (fs_ok root wr rk).

(** Reading a field whose value the caller does not need. *)
Lemma good_gets_any {A} lo (f : Fs -> A) : good lo (gets f) (fun _ => True).
Proof. by apply good_gets. Qed.

Lemma good_bind_any {A B} lo (f : Fs -> A) (k : A -> M H B) Q :
  (forall a, good lo (k a) Q) -> good lo (bind (gets f) k) Q.
Proof. intros Hk. eapply good_bind; [apply good_gets_any|auto]. Qed.

(** Programs whose result is not used. *)
Lemma good_seq {B} lo (m : M H unit) (k : M H B) Q :
  good lo m (fun _ => True) -> good lo k Q -> good lo (m ;;; k) Q.
Proof. intros Hm Hk. eapply good_bind; [exact Hm|done]. Qed.

Lemma good_true {A} lo (m : M H A) P : good lo m P -> good lo m (fun _ => True).
Proof. intros Hm. by eapply good_mono. Qed.

(** ** Descriptors *)

Lemma open_dir_nofollow_at_good lo fd n :
  fd_ok fd -> comp n -> n <> DOT -> n <> DOTDOT ->
  good lo (open_dir_nofollow_at fd n) (fun r => fd_ok r /\ via r = via fd ++ [n]).
Proof.
  intros Hfd Hn H1 H2. eapply good_bind; [apply good_ok_or; intros n' Hn'; exact (cstring_Some _ _ Hn')|].
  intros n' [-> H0]. assert (proper n) by by apply comp_proper. eapply good_bind; [apply good_syscall; cok|].
  intros r _. apply good_ret. split; [by apply fd_ok_child|done].
Qed.

Lemma open_entry_nofollow_good lo fd n : fd_ok fd -> proper n -> good lo (open_entry_nofollow fd n) fd_ok.
Proof.
  intros Hfd Hn. eapply good_bind; [apply good_call; cok|]. intros [r|err] _; [apply good_ret; by apply fd_ok_child|].
  destruct err; try apply good_fail. eapply good_bind; [apply good_syscall; cok|]. intros r _.
  apply good_ret. by apply fd_ok_child.
Qed.

Lemma dup_cloexec_good lo fd : fd_ok fd -> good lo (dup_cloexec fd) fd_ok.
Proof. intros Hfd. eapply good_bind; [apply good_syscall; cok|]. intros r _. by apply good_ret. Qed.

Lemma stat_at_good lo fd n : fd_ok fd -> proper n -> good lo (stat_at fd n) (fun _ => True).
Proof. intros. apply good_syscall. cok. Qed.
Lemma stat_of_fd_good lo fd : fd_ok fd -> good lo (stat_of_fd fd) (fun _ => True).
Proof. intros. apply good_syscall. cok. Qed.
Lemma exists_at_good lo fd n : fd_ok fd -> proper n -> good lo (exists_at fd n) (fun _ => True).
Proof. intros. apply good_syscall. cok. Qed.

Lemma read_link_loop_good lo fuel fd n size :
  fd_ok fd -> proper n -> 2 ^ 17 <= size * 2 ^ Z.of_nat (S fuel) -> good lo (read_link_loop fuel fd n size) bytes_ok.
Proof.
  intros Hfd Hn. revert size. induction fuel as [|fuel IH]; intros size Hs; cbn [read_link_loop];
    (eapply good_bind; [apply good_syscall; cok|]); intros t Ht;
    (destruct (zlen t <? size); [by apply good_ret|]); (destruct (64 * 1024 <? size * 2) eqn:Hc; [apply good_fail|]); bool_hyps.
  - change (2 ^ Z.of_nat 1) with 2 in Hs. lia.
  - apply IH. rewrite Nat2Z.inj_succ, Z.pow_succ_r in Hs by lia. lia.
Qed.

Lemma read_link_at_good lo fd n : fd_ok fd -> proper n -> good lo (read_link_at fd n) bytes_ok.
Proof. intros. by apply read_link_loop_good. Qed.

Lemma open_host_file_at_good lo fd n flags create mode :
  fd_ok fd -> proper n -> (wr = true \/ (create = false /\ open_wants_write flags 0 = false)) ->
  good lo (open_host_file_at fd n flags create mode) fd_ok.
Proof.
  intros Hfd Hn Hw. unfold open_host_file_at.
  eapply (good_bind _ _ _ _ _ _ _ (fun fl => no_follow fl = true /\ (wr = false -> writes_through fl = false))).
  - apply good_ok_or. intros fl Hfl. unfold host_open_flags in Hfl. apply bind_Some in Hfl as (acc & Hacc & Hfl).
    simplify_eq. split; [done|]. intros Hf. destruct Hw as [?|[-> Hw]]; [congruence|].
    unfold open_wants_write in Hw. apply orb_false_iff in Hw as [Hw _]. apply orb_false_iff in Hw as [Ha Ht].
    unfold has_flag in Ha. apply negb_false_iff in Ha. rewrite Ha in Hacc. simplify_eq/=. unfold writes_through. simpl.
    by rewrite Ht.
  - intros fl [Hnf Hwt]. eapply good_bind; [apply good_syscall; split; simpl; [by split_and!|done]|].
    intros r _. apply good_ret. by apply fd_ok_child.
Qed.

(** ** The walk *)

Lemma open_chain_good lo fd names cur :
  fd_ok fd -> (forall c, cur = Some c -> fd_ok c) -> Forall proper names ->
  good lo (open_chain cur fd names) (fun r => forall c, r = Some c -> fd_ok c).
Proof.
  intros Hfd. revert cur. induction names as [|n names IH]; intros cur Hc Hn; cbn [open_chain]; [by apply good_ret|].
  apply Forall_cons in Hn as [Hn Hns]. pose proof Hn as (? & ? & ? & ? & ?).
  eapply good_bind; [apply open_dir_nofollow_at_good; [|by auto with fsdb|done..]|].
  - destruct cur; simpl; auto.
  - intros r [Hr _]. apply IH; [|done]. intros c ?. by simplify_eq.
Qed.

Lemma open_resolved_good lo fd names :
  fd_ok fd -> Forall proper names -> good lo (open_resolved fd names) (fun r => forall c, r = Some c -> fd_ok c).
Proof. intros. by apply open_chain_good. Qed.

Lemma walk_from_good lo ex fd pending resolved :
  fd_ok fd -> Forall comp pending -> Forall proper resolved -> good lo (walk_from ex fd pending resolved) (Forall proper).
Proof.
  intros Hfd. revert pending resolved. induction ex as [|ex IHex];
    (induction pending as [|n pending IH]; intros resolved Hp Hr; [by apply good_ret|]);
    apply Forall_cons in Hp as [Hn Hp]; cbn [walk_from];
    (case_bool_decide; [by apply IH|]); (case_bool_decide; [by apply IH; [|apply Forall_removelast]|]);
    (eapply good_bind; [by apply open_resolved_good|]); intros parent Hpar;
    assert (fd_ok (default fd parent)) by (destruct parent; simpl; auto);
    (eapply good_bind; [by apply good_attempt, open_dir_nofollow_at_good|]); intros [r|err] Hres.
  1, 3: apply IH; [done|]; destruct Hres as [Hok Hvia]; apply Forall_app; split; [done|]; apply Forall_singleton;
    unfold fd_ok in Hok; rewrite Hvia in Hok; apply Forall_app in Hok as [_ Hok]; by rewrite Forall_singleton in Hok.
  all: destruct ((err =? ENOTDIR) || (err =? ELOOP)); [|apply good_fail];
    (eapply good_bind; [apply good_ok_or; intros n' Hn'; exact (cstring_Some _ _ Hn')|]); intros n' [-> Hnul];
    assert (proper n) by (by apply comp_proper);
    (eapply good_bind; [apply good_attempt, read_link_at_good; done|]); intros t _;
    (eapply good_bind; [by apply (good_ok_or _ _ _ _ _ _ _ (fun _ => True))|]); intros target _.
  { apply good_fail. }
  apply IHex; [by apply push_components_comp|]. by destruct (is_absolute target).
Qed.

Lemma root_ok lo s : ok lo s -> fd_ok (dc_root (dirs s)).
Proof. intros Hs. unfold fd_ok. by rewrite (dk_root _ (ok_dirs _ _ _ _ _ Hs)). Qed.

Lemma root_fd_good lo : good lo root_fd fd_ok.
Proof. apply good_gets. apply root_ok. Qed.

Lemma walk_good lo rel : Forall proper rel -> good lo (walk rel) fd_ok.
Proof.
  intros Hr. eapply good_bind; [apply good_gets; apply root_ok|]. intros fd Hfd.
  eapply good_seq; [by eapply good_true, good_guard|].
  eapply good_bind; [apply walk_from_good; [done| |done]|].
  - eapply Forall_impl; [done|]. apply proper_comp.
  - intros res Hres. eapply good_bind; [by apply open_resolved_good|]. intros o Ho. by apply good_ok_or.
Qed.

Lemma mod_dirs_good lo f : (forall d, dirs_ok d -> dirs_ok (f d)) -> good lo (mod_dirs f) (fun _ => True).
Proof. intros Hf. apply good_modify. intros s []. split; try done. by apply Hf. Qed.

Lemma touch_lookup (p : path) d e : dc_open d !! p = Some e -> is_Some (dc_open (touch p d) !! p).
Proof.
  intros Hp. unfold touch, compact_lru. simpl. destruct e as [fd t]. rewrite Hp. simpl.
  destruct (_ <=? _); simpl; rewrite lookup_insert_eq; eauto.
Qed.

(** A cached directory is found where the cache was touched. *)
Lemma cached_fd_good lo (w : World H) (rel : path) d :
  world_ok root wr rk rs lo w -> dirs_ok d -> is_Some (dc_open d !! rel) ->
  good_at root wr rk rs lo (mkWorld (set_dirs d (w_fs w)) (w_ram w) (w_host w) (w_log w))
    (e <- gets (fun s => dc_open (dirs s) !! rel) ;; e <- expect e ;; ret e.1) (fun _ => lo) fd_ok.
Proof.
  intros Hw Hd [[fd t] He]. apply good_at_gets. simpl. rewrite He. change (good_at root wr rk rs lo
    (mkWorld (set_dirs d (w_fs w)) (w_ram w) (w_host w) (w_log w)) (ret fd) (fun _ => lo) fd_ok).
  apply good_ret; [by eapply dk_open|]. destruct Hw as [[] ? ? ?]. by split.
Qed.

Lemma dir_fd_good lo (rel : path) : Forall proper rel -> good lo (dir_fd rel) fd_ok.
Proof.
  intros Hr w Hw. unfold dir_fd. apply good_at_gets. cbv beta. set (d := dirs (w_fs w)).
  case_bool_decide; [apply good_ret; [|done]; eapply root_ok, Hw|].
  destruct (negb (dc_caching d)).
  { eapply (good_bind); [by apply walk_good| |done]. intros fd Hfd.
    eapply good_seq; [apply mod_dirs_good; auto with hvi|]. by apply good_ret. }
  assert (dirs_ok d) as Hd by apply Hw. destruct (dc_open d !! rel) as [e|] eqn:He.
  - apply good_at_modify_bind, cached_fd_good; [done|by apply touch_ok|by eapply touch_lookup].
  - apply good_assoc; [|done]. eapply good_bind; [by apply walk_good|]. intros fd Hfd w1 Hw1.
    apply good_at_modify_bind, cached_fd_good; [done|by apply admit_dir_ok; [apply Hw1|]|].
    unfold admit_dir. simpl. rewrite lookup_insert_eq. eauto.
Qed.

Lemma dir_fd_owned_good lo rel : Forall proper rel -> good lo (dir_fd_owned rel) fd_ok.
Proof. intros Hr. eapply good_bind; [by apply dir_fd_good|]. apply dup_cloexec_good. Qed.

(** ** From paths to descriptors *)

Lemma relative_of_path_good lo p : in_export root p -> good lo (relative_of_path p) (Forall name_ok).
Proof.
  intros Hp. eapply (good_bind _ _ _ _ _ _ _ (fun r => r = root)); [apply good_gets; apply ok_root|]. intros r ->.
  apply good_ok_or. intros rel Hrel. destruct (in_export_strip _ _ Hp) as (rel' & ? & ?). by simplify_eq.
Qed.

(** A name for an [*at] call. *)
Lemma entry_name_good lo rel :
  Forall name_ok rel -> good lo (n <- ok_or (file_name rel) EINVAL ;; ok_or (cstring n) EINVAL) name_ok.
Proof.
  intros Hr. eapply good_bind; [apply good_ok_or; intros n; by apply file_name_ok|]. intros n Hn.
  apply good_ok_or. intros n' Hn'. by apply cstring_Some in Hn' as [-> _].
Qed.

Definition entry_ok (e : Fd * name) : Prop := fd_ok e.1 /\ proper e.2.

Lemma at_relative_good lo rel : Forall name_ok rel -> good lo (at_relative rel) entry_ok.
Proof.
  intros Hr. eapply good_bind; [apply good_ok_or; intros n; by apply file_name_ok|]. intros n Hn.
  eapply good_bind; [apply good_ok_or; exact (fun n' Hn' => cstring_Some _ _ Hn')|]. intros n' [-> _].
  eapply good_bind; [apply dir_fd_good; auto with fsdb|]. intros fd Hfd. apply good_ret. by split; [|apply Hn].
Qed.

Lemma at_path_good lo p : in_export root p -> good lo (at_path p) entry_ok.
Proof. intros Hp. eapply good_bind; [by apply relative_of_path_good|]. apply at_relative_good. Qed.

Lemma stat_in_export_good lo p : in_export root p -> good lo (stat_in_export p) (fun _ => True).
Proof.
  intros Hp. eapply good_bind; [by apply relative_of_path_good|]. intros rel Hrel. case_bool_decide.
  - eapply good_bind; [apply root_fd_good|]. intros fd Hfd. by apply stat_of_fd_good.
  - eapply good_bind; [by apply at_relative_good|]. intros e [? ?]. by apply stat_at_good.
Qed.

Lemma stat_uncached_good lo p : in_export root p -> good lo (stat_uncached p) (fun _ => True).
Proof.
  intros Hp. eapply good_bind; [by apply relative_of_path_good|]. intros rel Hrel. case_bool_decide.
  { eapply good_bind; [apply root_fd_good|]. intros fd Hfd. by apply stat_of_fd_good. }
  eapply good_bind; [apply good_ok_or; intros n; by apply file_name_ok|]. intros n Hn.
  eapply good_bind; [apply good_ok_or; exact (fun n' Hn' => cstring_Some _ _ Hn')|]. intros n' [-> _]. destruct Hn as [Hn _].
  pose proof (parent_ok rel Hrel) as Hpar.
  destruct (parent rel) as [[|c up]|]; [by eapply good_bind; [apply root_fd_good|]; intros; apply stat_at_good| |
    by eapply good_bind; [apply root_fd_good|]; intros; apply stat_at_good].
  eapply good_bind; [apply walk_good; exact (names_proper _ Hpar)|]. intros. by apply stat_at_good.
Qed.

Lemma two_entries_at_good lo old new :
  in_export root old -> in_export root new ->
  good lo (two_entries_at old new) (fun e => fd_ok e.1.1.1 /\ proper e.1.1.2 /\ fd_ok e.1.2 /\ proper e.2).
Proof.
  intros Ho Hn. eapply good_bind; [by apply relative_of_path_good|]. intros or Hor.
  eapply good_bind; [by apply relative_of_path_good|]. intros nr Hnr.
  eapply good_bind; [apply good_ok_or; intros n; by apply file_name_ok|]. intros on Hon.
  eapply good_bind; [apply good_ok_or; exact (fun n' Hn' => cstring_Some _ _ Hn')|]. intros on' [-> _].
  eapply good_bind; [apply good_ok_or; intros n; by apply file_name_ok|]. intros nn Hnn.
  eapply good_bind; [apply good_ok_or; exact (fun n' Hn' => cstring_Some _ _ Hn')|]. intros nn' [-> _].
  eapply good_bind; [apply dir_fd_owned_good; auto with fsdb|]. intros ofd Hofd.
  eapply good_bind; [apply dir_fd_owned_good; auto with fsdb|]. intros nfd Hnfd.
  apply good_ret. destruct Hon, Hnn. by split_and!.
Qed.

Lemma invalidate_dirs_good lo p dir : good lo (invalidate_dirs_by_type p dir) (fun _ => True).
Proof.
  eapply good_bind_any. intros r. destruct (strip_prefix r p); [|by apply good_ret].
  apply mod_dirs_good. destruct dir; auto with hvi.
Qed.

(** ** Nodes *)

Lemma find_path_good lo test l (P : path -> Prop) :
  (forall p, P p -> good lo (test p) (fun _ => True)) -> Forall P l ->
  good lo (find_path test l) (fun o => forall p, o = Some p -> P p).
Proof.
  intros Ht. induction l as [|p l IH]; intros Hl; cbn [find_path]; [by apply good_ret|].
  apply Forall_cons in Hl as [Hp Hl]. eapply good_bind; [by apply Ht|]. intros [] _; [|auto].
  apply good_ret. intros q ?. by simplify_eq.
Qed.

Lemma leads_to_good lo key p : in_export root p -> good lo (leads_to key p) (fun _ => True).
Proof. intros Hp. eapply good_bind; [by apply good_attempt, stat_uncached_good|]. intros. by apply good_ret. Qed.

(** Ids already given out count from here on. *)
Lemma good_at_raise {A} lo u (w : World H) (m : M H A) Q :
  good_at root wr rk rs (Z.max lo u) w m (fun _ => Z.max lo u) Q -> good_at root wr rk rs lo w m (fun _ => u) Q.
Proof.
  unfold good_at. destruct (m w) as [[a|e|] w1]; [|apply world_ok_lo; lia|done]. by rewrite Z.max_id.
Qed.

(** The path of a node is in the export, and its id has been given out. *)
Lemma node_path_up lo node :
  good_up lo (node_path node) (fun _ => Z.min (node + 1) U64_MAX) (in_export root).
Proof.
  intros w Hw. unfold node_path. apply good_at_gets. destruct (nodes (w_fs w) !! node) as [n|] eqn:Hn; [|done].
  apply good_at_raise. set (up := Z.max lo _).
  assert (world_ok root wr rk rs up w) as Hw' by (destruct Hw; split; try done; apply known_node_lo; eauto).
  assert (Forall (in_export root) (n_paths n)) as Hps by (eapply tk_paths; [eapply ok_tab, Hw|done]).
  enough (good up (match n_paths n with [only] => ret only | paths =>
    p <- find_path (leads_to (n_key n)) paths ;; ok_or p ENOENT end) (in_export root)) as Hg by exact (Hg w Hw').
  assert (forall ps, Forall (in_export root) ps -> good up (p <- find_path (leads_to (n_key n)) ps ;; ok_or p ENOENT) (in_export root)) as Hf.
  { intros ps Hp. eapply good_bind; [by apply find_path_good; [apply leads_to_good|]|]. intros o Ho. by apply good_ok_or. }
  destruct (n_paths n) as [|p [|p' ps]]; [by apply Hf| |by apply Hf]. apply good_ret. by apply Forall_cons in Hps as [? _].
Qed.

Lemma good_up_good {A} lo (m : M H A) up P : good_up lo m up P -> good lo m P.
Proof.
  intros Hm w Hw. specialize (Hm w Hw). unfold good_at in *. destruct (m w) as [[a|e|] w1]; [|done|done].
  destruct Hm. split; [|done]. eapply world_ok_lo; [|done]. lia.
Qed.

Lemma node_path_good lo node : good lo (node_path node) (in_export root).
Proof. eapply good_up_good, node_path_up. Qed.

Lemma relative_of_good lo node : good lo (relative_of node) (Forall name_ok).
Proof. eapply good_bind; [apply node_path_good|]. apply relative_of_path_good. Qed.

Lemma entry_at_good lo node : good lo (entry_at node) entry_ok.
Proof. eapply good_bind; [apply relative_of_good|]. apply at_relative_good. Qed.

(** ** Programs that only ask the host *)

Definition quiet {A} (m : M H A) : Prop := forall w, w_fs (m w).2 = w_fs w.

Lemma quiet_bind {A B} (m : M H A) (k : A -> M H B) : quiet m -> (forall a, quiet (k a)) -> quiet (bind m k).
Proof.
  intros Hm Hk w. specialize (Hm w). unfold bind. destruct (m w) as [[a|e|] w1]; simpl in *; [|done|done]. by rewrite (Hk a w1).
Qed.
Lemma quiet_ret {A} (a : A) : quiet (ret a).
Proof. by intros w. Qed.
Lemma quiet_fail {A} e : quiet (A := A) (fail e).
Proof. by intros w. Qed.
Lemma quiet_gets {A} (f : Fs -> A) : quiet (gets f).
Proof. by intros w. Qed.
Lemma quiet_attempt {A} (m : M H A) : quiet m -> quiet (attempt m).
Proof. intros Hm w. specialize (Hm w). unfold attempt. by destruct (m w) as [[a|e|] w1]. Qed.
Lemma quiet_ok_or {A} (o : option A) e : quiet (ok_or o e).
Proof. by destruct o. Qed.
Lemma quiet_call {A : Set} (e : HostE A) : quiet (call e).
Proof. intros w. unfold call. by destruct (sys A e (w_host w)). Qed.
Lemma quiet_syscall {A : Set} (e : HostE A) : quiet (syscall e).
Proof. apply quiet_bind; [apply quiet_call|]. by intros []. Qed.
Lemma quiet_guard b e : quiet (guard b e).
Proof. by destruct b. Qed.

Create HintDb quiet.
Hint Resolve quiet_ret quiet_fail quiet_gets quiet_attempt quiet_ok_or quiet_call quiet_syscall quiet_guard : quiet.

Ltac quiet := repeat (first [solve [auto with quiet] | apply quiet_bind; intros | case_bool_decide | case_match]).

Lemma open_dir_quiet fd n : quiet (open_dir_nofollow_at fd n).
Proof. unfold open_dir_nofollow_at. quiet. Qed.
Hint Resolve open_dir_quiet : quiet.

Lemma open_chain_quiet cur fd names : quiet (open_chain cur fd names).
Proof. revert cur. induction names; intros cur; cbn [open_chain]; quiet. Qed.
Hint Resolve open_chain_quiet : quiet.

Lemma read_link_quiet fuel fd n size : quiet (read_link_loop fuel fd n size).
Proof. revert size. induction fuel; intros size; cbn [read_link_loop]; quiet. by intros w. Qed.
Hint Resolve read_link_quiet : quiet.

Lemma walk_from_quiet ex fd pending resolved : quiet (walk_from ex fd pending resolved).
Proof.
  revert pending resolved. induction ex as [|ex IHex];
    induction pending as [|n pending IH]; intros resolved; cbn [walk_from]; unfold open_resolved, read_link_at; quiet.
Qed.
Hint Resolve walk_from_quiet : quiet.

Lemma stat_uncached_quiet p : quiet (stat_uncached p).
Proof. unfold stat_uncached, relative_of_path, root_fd, stat_of_fd, stat_at, walk, open_resolved. quiet. Qed.
Hint Resolve stat_uncached_quiet : quiet.

Lemma leads_to_quiet key p : quiet (leads_to key p).
Proof. unfold leads_to. quiet. Qed.
Hint Resolve leads_to_quiet : quiet.

Lemma position_path_quiet test l i : (forall p, quiet (test p)) -> quiet (position_path test l i).
Proof. intros Ht. revert i. induction l; intros i; cbn [position_path]; quiet. Qed.

Lemma position_path_range lo test l i :
  (forall p, in_export root p -> good lo (test p) (fun _ => True)) -> Forall (in_export root) l ->
  good lo (position_path test l i) (fun o => forall j, o = Some j -> (i <= j < i + length l)%nat).
Proof.
  intros Ht. revert i. induction l as [|p l IH]; intros i Hl; cbn [position_path]; [by apply good_ret|].
  apply Forall_cons in Hl as [Hp Hl]. eapply good_bind; [by apply Ht|]. intros [] _.
  - apply good_ret. intros j ?. simplify_eq. simpl. lia.
  - eapply good_mono; [by apply IH|]. simpl. intros o Ho j Hj. specialize (Ho _ Hj). lia.
Qed.

(** The alias to drop, found while the table stays as it is. *)
Lemma stale_alias_at lo node key p w :
  world_ok root wr rk rs lo w ->
  good_at root wr rk rs lo w (stale_alias node key p) (fun _ => lo) (fun o => alias_fits node p o (w_fs w)).
Proof.
  intros Hw. unfold stale_alias. apply good_at_gets. unfold alias_fits.
  destruct (nodes (w_fs w) !! node) as [n|] eqn:Hn; [|by apply good_ret].
  destruct (negb (bool_decide (p ∈ n_paths n)) && (MAX_NODE_ALIASES <=? length (n_paths n))%nat) eqn:Hc.
  - apply andb_true_iff in Hc as [_ Hc]. apply Nat.leb_le in Hc. unfold MAX_NODE_ALIASES in Hc.
    eapply good_at_bind; [apply position_path_range; [|eapply tk_paths; [eapply ok_tab, Hw|done]|done]|].
    + intros q Hin. eapply good_bind; [by apply leads_to_good|]. intros. by apply good_ret.
    + intros o Ho. apply good_ret. intros n' ? _. simplify_eq. destruct o as [j|]; simpl; [|lia]. destruct (Ho j); [done|lia].
  - apply good_ret; [|done]. intros n' ? Hnot. simplify_eq. apply andb_false_iff in Hc as [Hc|Hc].
    + apply negb_false_iff in Hc. by apply bool_decide_eq_true in Hc.
    + by apply Nat.leb_gt in Hc.
Qed.

Lemma stale_alias_quiet node key p : quiet (stale_alias node key p).
Proof. unfold stale_alias. quiet; apply position_path_quiet; intros; quiet. Qed.

(** The node of an inode: its id has been given out. *)
Lemma known_key_lo lo key node s :
  ok lo s -> inode_ids s !! key = Some node -> ok (Z.max lo (Z.min (node + 1) U64_MAX)) s.
Proof.
  intros Hs Hk. destruct (decide (next_node s < U64_MAX)) as [Hlt|Hge].
  - apply known_node_lo; [done|]. destruct (tk_inodes _ _ _ _ _ _ _ _ (ok_tab _ _ _ _ _ Hs) Hlt _ _ Hk) as (n & ? & _). eauto.
  - destruct Hs. split; try done. destruct ok_tab. split; try done. lia.
Qed.

Lemma node_for_up lo p m :
  in_export root p -> good_up lo (node_for p m) (fun id => Z.min (id + 1) U64_MAX) (fun _ => True).
Proof.
  intros Hp w Hw. unfold node_for. apply good_at_gets. destruct (inode_ids (w_fs w) !! stat_key m) as [node|] eqn:Hk.
  - pose proof (stale_alias_at lo node (stat_key m) p w Hw) as Hst. pose proof (stale_alias_quiet node (stat_key m) p w) as Hq.
    unfold good_at, bind in *. destruct (stale_alias node (stat_key m) p w) as [[o|e|] w1]; [|done|done].
    destruct Hst as [Hw1 Hfit]. simpl in Hq. rewrite Z.max_id in Hw1. simpl. split; [|done].
    rewrite <-Hq in Hfit, Hk. destruct Hw1. split; try done. simpl.
    apply known_key_lo with (key := stat_key m); [by apply add_alias_keeps|].
    unfold add_alias. destruct (nodes (w_fs w1) !! node); [|done]. by case_bool_decide.
  - apply good_update_up; [|done]. intros s Hs. split; [|done]. by apply new_node_keeps.
Qed.

Lemma node_for_good lo p m : in_export root p -> good lo (node_for p m) (fun _ => True).
Proof. intros. by eapply good_up_good, node_for_up. Qed.

Lemma handle_of_node_ok lo node s e :
  ok lo s -> handle_of_node node s = Some e -> handle_ok root wr e.2 /\ h_node e.2 = node.
Proof.
  intros Hs. unfold handle_of_node. set (l := List.filter _ _).
  assert (forall e, e ∈ l -> handle_ok root wr e.2 /\ h_node e.2 = node) as Hl.
  { intros [fh h] Hin. unfold l in Hin. rewrite list_elem_of_In in Hin. apply filter_In in Hin as [Hin Hn].
    rewrite <-list_elem_of_In in Hin. apply elem_of_map_to_list in Hin. simpl in *. bool_hyps. split; [|done].
    by apply (ok_handles _ _ _ _ _ Hs fh). }
  destruct (List.find _ l) as [e'|] eqn:Ef; intros; simplify_eq.
  - apply Hl. apply find_some in Ef as [Ef _]. by apply list_elem_of_In.
  - apply Hl. destruct l as [|x l]; [done|]. simplify_eq/=. by left.
Qed.

Lemma handle_of_node_in node s fh h : handle_of_node node s = Some (fh, h) -> handles s !! fh = Some h.
Proof.
  unfold handle_of_node. set (l := List.filter _ _).
  assert (forall e, e ∈ l -> handles s !! e.1 = Some e.2) as Hl.
  { intros [f k] Hin. unfold l in Hin. rewrite list_elem_of_In in Hin. apply filter_In in Hin as [Hin _].
    rewrite <-list_elem_of_In in Hin. by apply elem_of_map_to_list in Hin. }
  destruct (List.find _ l) as [e'|] eqn:Ef; intros; simplify_eq.
  - apply (Hl (fh, h)). apply find_some in Ef as [Ef _]. by apply list_elem_of_In.
  - apply (Hl (fh, h)). destruct l as [|x l]; [done|]. simplify_eq/=. by left.
Qed.

(** Some handle of a node. *)
Lemma gets_handle_of_node lo node : good lo (gets (handle_of_node node)) (fun o => forall e, o = Some e -> fd_ok (h_file e.2)).
Proof. apply good_gets. intros s Hs e He. by destruct (handle_of_node_ok _ _ _ _ Hs He) as [[? _] _]. Qed.

Lemma open_entry_at_good lo node : good lo (open_entry_at node) fd_ok.
Proof.
  apply good_bind_any. intros [].
  - eapply good_bind; [apply gets_handle_of_node|]. intros o Ho. eapply good_bind; [apply good_ok_or; exact Ho|].
    intros e He. by apply dup_cloexec_good.
  - eapply good_bind; [apply relative_of_good|]. intros rel _. case_bool_decide.
    + eapply good_bind; [apply root_fd_good|]. intros. by apply dup_cloexec_good.
    + eapply good_bind; [apply entry_at_good|]. intros e [? ?]. by apply open_entry_nofollow_good.
Qed.

(** ** Extended attributes *)

Lemma bytes_ok_take_Z n l : bytes_ok l -> bytes_ok (take (Z.to_nat n) l).
Proof. apply bytes_ok_take. Qed.

Lemma fd_getxattr_good lo fd n : fd_ok fd -> good lo (fd_getxattr fd n) bytes_ok.
Proof.
  intros Hfd. eapply good_seq; [by eapply good_true, good_guard|]. eapply good_bind; [apply good_syscall; cok|]. intros len _.
  eapply good_bind; [apply good_syscall; cok|]. intros v Hv. apply good_ret. by apply bytes_ok_take_Z.
Qed.

Lemma fd_setxattr_good lo fd n v flags : fd_ok fd -> wr = true -> good lo (fd_setxattr fd n v flags) (fun _ => True).
Proof. intros Hfd Hw. eapply good_seq; [by eapply good_true, good_guard|]. apply good_syscall. cok. Qed.

Lemma fd_listxattr_good lo fd : fd_ok fd -> good lo (fd_listxattr fd) bytes_ok.
Proof.
  intros Hfd. eapply good_bind; [apply good_syscall; cok|]. intros len _.
  eapply good_bind; [apply good_syscall; cok|]. intros v Hv. apply good_ret. by apply bytes_ok_take_Z.
Qed.

Lemma fd_removexattr_good lo fd n : fd_ok fd -> wr = true -> good lo (fd_removexattr fd n) (fun _ => True).
Proof. intros Hfd Hw. eapply good_seq; [by eapply good_true, good_guard|]. apply good_syscall. cok. Qed.

Lemma set_guest_attr_good lo fd g : fd_ok fd -> wr = true -> good lo (set_guest_attr fd g) (fun _ => True).
Proof. apply fd_setxattr_good. Qed.

Lemma stored_guest_attr_good lo fd : fd_ok fd -> good lo (stored_guest_attr fd) (fun _ => True).
Proof. intros Hfd. eapply good_bind; [apply good_call; cok|]. intros r _. by apply good_ret. Qed.

Lemma host_uid_good lo id : good lo (host_uid_to_guest id) (fun _ => True).
Proof. apply good_bind_any. intros ids. eapply good_bind; [by apply good_query; [cok|]|]. intros. by apply good_ret. Qed.
Lemma host_gid_good lo id : good lo (host_gid_to_guest id) (fun _ => True).
Proof. apply good_bind_any. intros ids. eapply good_bind; [by apply good_query; [cok|]|]. intros. by apply good_ret. Qed.

Lemma shown_attr_good lo st m : good lo (shown_attr st m) (fun _ => True).
Proof.
  destruct st; [by apply good_ret|]. eapply good_bind; [apply host_uid_good|]. intros.
  eapply good_bind; [apply host_gid_good|]. intros. by apply good_ret.
Qed.

Lemma guest_attr_of_fd_good lo fd m : fd_ok fd -> good lo (guest_attr_of_fd fd m) (fun _ => True).
Proof. intros. eapply good_bind; [by apply stored_guest_attr_good|]. intros. apply shown_attr_good. Qed.

Lemma guest_attr_good lo node m : good lo (guest_attr node m) (fun _ => True).
Proof.
  apply good_bind_any. intros c. eapply (good_bind _ _ _ _ _ _ _ (fun _ => True)); [|intros; apply shown_attr_good].
  destruct c; [by apply good_ret|]. eapply good_bind; [apply good_attempt, open_entry_at_good|]. intros r Hr.
  eapply (good_bind _ _ _ _ _ _ _ (fun _ => True)).
  - destruct r; [by apply stored_guest_attr_good|by apply good_ret].
  - intros st _. eapply good_seq; [|by apply good_ret]. apply good_modify. intros. by apply set_guest_attr_keeps.
Qed.

(** Reading the session: the value is that of some state that is well formed. *)
Lemma gets_some {A} lo (f : Fs -> A) : good lo (gets f) (fun a => exists s, ok lo s /\ a = f s).
Proof. apply good_gets. intros s Hs. by exists s. Qed.

Lemma good_ok_or_eq {A} lo (o : option A) e : good lo (ok_or o e) (fun a => o = Some a).
Proof. by apply good_ok_or. Qed.

(** ** Replies and names *)

Lemma self_attr_out_good lo node m : good lo (self_attr_out node m) bytes_ok.
Proof.
  apply good_bind_any. intros secs. eapply good_bind; [apply guest_attr_good|]. intros g _. apply good_ret. bok.
Qed.
Lemma self_entry_out_good lo node m : good lo (self_entry_out node m) bytes_ok.
Proof.
  apply good_bind_any. intros secs. eapply good_bind; [apply guest_attr_good|]. intros g _. apply good_ret. bok.
Qed.

Lemma unlink_at_good lo fd n dir : fd_ok fd -> proper n -> wr = true -> good lo (unlink_at fd n dir) (fun _ => True).
Proof. intros. apply good_syscall. cok. Qed.
Lemma chmod_at_good lo fd n md : fd_ok fd -> proper n -> wr = true -> good lo (chmod_at fd n md) (fun _ => True).
Proof. intros. apply good_syscall. cok. Qed.

Lemma initialize_guest_metadata_good lo fd n md c :
  fd_ok fd -> proper n -> wr = true -> good lo (initialize_guest_metadata fd n md c) (fun _ => True).
Proof.
  intros. eapply good_bind; [by apply stat_at_good|]. intros m _. eapply good_bind; [by apply open_entry_nofollow_good|].
  intros f Hf. eapply good_seq; [|by apply set_guest_attr_good].
  destruct (negb (is_symlink m)); [by apply chmod_at_good|by apply good_ret].
Qed.

Lemma clear_suid_sgid_good lo fd : fd_ok fd -> wr = true -> good lo (clear_suid_sgid fd) (fun _ => True).
Proof.
  intros. eapply good_bind; [by apply stat_of_fd_good|]. intros m _. eapply good_bind; [by apply guest_attr_of_fd_good|].
  intros g _. destruct (has_flag _ _); [by apply set_guest_attr_good|by apply good_ret].
Qed.

Lemma drop_parked_good lo node : good lo (modify (drop_parked node)) (fun _ => True).
Proof. apply good_modify. intros. by apply drop_parked_keeps. Qed.

Lemma take_parked_good lo node flags :
  good lo (take_parked node flags) (fun o => forall e, o = Some e -> fd_ok e.1).
Proof.
  apply good_bind_any. intros p. destruct (negb _); [by apply good_ret|].
  eapply good_bind; [eapply good_attempt, good_bind; [apply entry_at_good|intros e [? ?]; by apply stat_at_good]|].
  intros [m|e] _; [|eapply good_seq; [apply drop_parked_good|by apply good_ret]].
  eapply good_bind; [apply gets_some|]. intros q (s & Hs & ->). destruct (parked s !! node) as [pk|] eqn:E; [|by apply good_ret].
  eapply good_seq; [apply drop_parked_good|]. apply good_ret. intros e. case_bool_decide; intros; simplify_eq/=.
  by apply (pk_fd _ _ _ _ (ok_parked _ _ _ _ _ Hs) node).
Qed.

Lemma set_dirty_keeps lo b s : ok lo s -> ok lo (set_dirty b s).
Proof. by intros []. Qed.

Lemma require_writable_good lo : good lo require_writable (fun _ => wr = true).
Proof.
  eapply good_bind; [apply gets_some|]. intros w (s & Hs & ->). rewrite (ok_wr _ _ _ _ _ Hs).
  assert (good lo (modify (set_dirty true)) (fun _ => True)) as Hd by (apply good_modify; intros; by apply set_dirty_keeps).
  destruct wr; [|apply good_fail]. by eapply good_mono.
Qed.

Lemma child_path_good lo node n : bytes_ok n -> 0 ∉ n -> good lo (child_path node n) (below_export root).
Proof.
  intros Hb Hn. eapply good_bind; [apply good_guard|]. intros [] Hv. eapply good_bind; [apply node_path_good|].
  intros p Hp. apply good_ret. apply in_export_join; [done|]. split; [|done]. by apply validated_proper.
Qed.

Lemma remember_lookup_good lo node : good lo (modify (remember_lookup node)) (fun _ => True).
Proof. apply good_modify. intros. by apply remember_lookup_keeps. Qed.

Lemma new_entry_good lo p : in_export root p -> good lo (new_entry p) bytes_ok.
Proof.
  intros. eapply good_bind; [by apply stat_in_export_good|]. intros m _. eapply good_bind; [by apply node_for_good|].
  intros node _. eapply good_seq; [apply remember_lookup_good|]. apply self_entry_out_good.
Qed.

Lemma sync_file_good lo fd flags : fd_ok fd -> good lo (sync_file fd flags) (fun _ => True).
Proof. intros. apply good_syscall. cok. Qed.

Lemma drop_prepared_good lo : good lo drop_prepared (fun _ => True).
Proof.
  eapply good_bind; [by apply good_query; [cok|]|]. intros _ _. apply good_modify. intros s Hs.
  destruct Hs. split; try done. simpl. by apply fh0_ok_clear.
Qed.

Lemma remove_temporary_good lo h : handle_ok root wr h -> good lo (remove_temporary h) (fun _ => True).
Proof.
  intros [_ Ht]. unfold remove_temporary. destruct (h_temporary h) as [p|]; [|by apply good_ret].
  destruct (Ht p) as [Hw Hp]; [done|]. eapply good_bind; [by apply relative_of_path_good, below_in|]. intros rel Hrel.
  eapply good_bind; [by apply good_attempt, at_relative_good|]. intros [e|e] He.
  - destruct He. eapply good_bind; [by apply good_attempt, unlink_at_good|].
    intros [?|err] _; [by apply good_ret|]. case_match; [by apply good_ret|apply good_fail].
  - case_match; [by apply good_ret|apply good_fail].
Qed.

End Safe.

(** ** Automation for handlers *)

Lemma entry_fd e : entry_ok e -> fd_ok e.1.
Proof. by intros []. Qed.
Lemma entry_name e : entry_ok e -> proper e.2.
Proof. by intros []. Qed.
#[export] Hint Resolve entry_fd entry_name below_in in_export_root : fsdb.

(** Programs the handlers call. *)
Create HintDb gooddb.
#[export] Hint Resolve good_ok_or_eq good_guard stat_at_good stat_of_fd_good exists_at_good read_link_at_good
  open_host_file_at_good root_fd_good dir_fd_good dir_fd_owned_good relative_of_path_good at_relative_good at_path_good
  stat_in_export_good two_entries_at_good invalidate_dirs_good node_path_good relative_of_good entry_at_good node_for_good
  gets_handle_of_node open_entry_at_good open_entry_nofollow_good dup_cloexec_good fd_getxattr_good fd_setxattr_good
  fd_listxattr_good fd_removexattr_good set_guest_attr_good guest_attr_of_fd_good guest_attr_good self_attr_out_good
  self_entry_out_good initialize_guest_metadata_good clear_suid_sgid_good take_parked_good require_writable_good
  child_path_good remember_lookup_good new_entry_good sync_file_good drop_prepared_good remove_temporary_good
  unlink_at_good chmod_at_good drop_parked_good good_attempt good_get_ram : gooddb.
#[export] Hint Extern 2 (@FsInv.good _ _ _ _ _ _ _ (syscall _) _) => apply good_syscall; cok : gooddb.
#[export] Hint Extern 2 (@FsInv.good _ _ _ _ _ _ _ (retried_syscall _) _) => apply good_retried_syscall; cok : gooddb.
#[export] Hint Extern 2 (@FsInv.good _ _ _ _ _ _ _ (retried _) _) => apply good_retried; cok : gooddb.
#[export] Hint Extern 2 (@FsInv.good _ _ _ _ _ _ _ (query _ _) _) => apply good_query; [cok|try done] : gooddb.
#[export] Hint Extern 2 (@FsInv.good _ _ _ _ _ _ _ (call _) _) => apply good_call; cok : gooddb.
#[export] Hint Extern 5 (@FsInv.good _ _ _ _ _ _ _ (gets _) _) => apply gets_some : gooddb.

Ltac facts := intros; simpl in *; simplify_eq; destruct_and?; subst.

Ltac leaf := solve [eauto 6 with gooddb fsdb].

(** One step of a program: a call that has a lemma, a branch, or the end. *)
Ltac gstep :=
  lazymatch goal with
  | |- @FsInv.good _ _ _ _ _ _ _ (ret _) _ => apply good_ret
  | |- @FsInv.good _ _ _ _ _ _ _ (fail _) _ => apply good_fail
  | |- @FsInv.good _ _ _ _ _ _ _ (match ?x with _ => _ end) _ => destruct x eqn:?
  | |- @FsInv.good _ _ _ _ _ _ _ (bind _ _) _ => eapply good_bind; [leaf|]; intros ? ?; cbv beta in *
  | |- @FsInv.good _ _ _ _ _ _ _ (let '(_, _) := ?x in _) _ => destruct x
  | |- @FsInv.good _ _ _ _ _ _ _ _ (fun _ => True) => eapply good_true; leaf
  | |- _ => leaf
  end.

(** A part whose result is not used. *)
Ltac gany := eapply good_bind with (P := fun _ => True).
