(* ===== verification/FsSafeOps.v ===== *)
(** * Requests on names and attributes keep the invariant

    One lemma per handler of [FsOps]: from a well-formed session and a request of
    bytes, the session stays well formed, every call is allowed, nothing panics
    and the reply is bytes. *)

From S2P Require Import Prelude Memory Queue FsWire FsHost FsState FsDirs FsNodes FsOps FsIo FsReaddir FsInv FsCaches FsTable FsSafe.
Local Open Scope Z_scope.

(** The parent of a path below the root is in the export. *)
Lemma in_export_parent root p : in_export root p -> p <> root -> in_export root (default root (parent p)).
Proof.
  intros (rel & -> & Hr) Hne. destruct rel as [|n rel] using rev_ind; [by rewrite app_nil_r in Hne|].
  apply Forall_app in Hr as [Hr _]. exists rel. split; [|done].
  rewrite app_assoc. unfold parent. destruct ((root ++ rel) ++ [n]) eqn:E; [by apply app_eq_nil in E as [_ ?]|].
  rewrite <-E. simpl. apply removelast_last.
Qed.

Section SafeOps.
Context {H : Type} {HF : HostFs H} {HL : HostFsLaws H}.
Context (root : path) (wr : bool) (rk : Z * Z) (rs : list RamRegion).
Abbreviation good := (FsInv.good (H := H) root wr rk rs).
Abbreviation ok := (fs_ok root wr rk).

Lemma init_good lo queues input : good lo (init queues input) bytes_ok.
Proof. unfold init. repeat gstep; bok. Qed.

Lemma lookup_path_good lo node n :
  n <> [] -> SLASH ∉ n -> 0 ∉ n -> bytes_ok n -> good lo (lookup_path node n) (in_export root).
Proof.
  intros. unfold lookup_path. gstep. eapply (good_bind _ _ _ _ _ _ _ (fun r => r = root)); [apply good_gets; apply ok_root|].
  intros r ->. apply good_ret. repeat case_bool_decide; auto with fsdb.
  - by apply in_export_parent.
  - apply below_in, in_export_join; [done|]. split; [|done]. by split_and!.
Qed.

Lemma socket_node_good lo p i : in_export root p -> good lo (update (socket_node_id p i)) (fun _ => True).
Proof. intros. apply good_update. intros. split; [by apply socket_node_keeps|done]. Qed.

Lemma socket_known lo s (p : path) k : ok lo s -> sockets s !! p = Some k -> below_export root p.
Proof. intros Hs Hk. apply (ok_sockets _ _ _ _ _ Hs). eauto. Qed.

Lemma lookup_op_good lo node input : bytes_ok input -> good lo (lookup_op node input) bytes_ok.
Proof.
  intros Hi. unfold lookup_op. gstep. gstep.
  match goal with Hg : negb _ = true |- _ => apply negb_true_iff, orb_false_iff in Hg as [Hg1%bool_decide_eq_false Hg2%bool_decide_eq_false] end.
  eapply good_bind; [apply lookup_path_good; auto using bytes_ok_take, nul_position_name|]. intros p Hp.
  gstep. gstep.
  - eapply good_bind; [by apply socket_node_good|]. intros id _. repeat gstep. bok.
  - repeat gstep. bok.
Qed.

Lemma get_handle_good lo fh : good lo (get_handle fh) (handle_ok root wr).
Proof.
  unfold get_handle. eapply good_bind; [apply gets_some|]. intros h (s & Hs & ->). apply good_ok_or. intros h Hh.
  by apply (ok_handles _ _ _ _ _ Hs fh).
Qed.
Lemma handle_fd h : handle_ok root wr h -> fd_ok (h_file h).
Proof. by intros []. Qed.
Hint Resolve get_handle_good : gooddb.
Hint Resolve handle_fd : fsdb.

Lemma stat_by_handle_good lo node : good lo (stat_by_handle node) (fun _ => True).
Proof. unfold stat_by_handle. gstep. gstep. facts. gstep. Qed.
Hint Resolve stat_by_handle_good : gooddb.

Lemma getattr_good lo node input : good lo (getattr node input) bytes_ok.
Proof.
  unfold getattr. gstep. gstep.
  - destruct p as [? k]. gstep. bok.
  - gstep. gany; [repeat gstep; done|]. intros m _. gstep.
Qed.

Lemma insert_socket_good lo p k : below_export root p -> good lo (modify (fun s => set_sockets (<[p := k]> (sockets s)) s)) (fun _ => True).
Proof.
  intros. apply good_modify. intros s []. split; try done. intros q. simpl. rewrite lookup_insert_is_Some.
  intros [<-|[_ Hq]]; auto.
Qed.
Hint Resolve insert_socket_good : gooddb.

Lemma setattr_socket_good lo node valid input p k :
  below_export root p -> good lo (setattr_socket node valid input p k) bytes_ok.
Proof.
  intros. unfold setattr_socket. do 4 (gany; [repeat gstep; done|intros ? _]). gstep. gstep. bok.
Qed.

Definition target_ok (t : SetattrTarget) : Prop :=
  match t with ByHandle h => handle_ok root wr h | ByEntry _ d n fd => fd_ok d /\ proper n /\ fd_ok fd end.

Lemma target_meta_ok t : target_ok t -> fd_ok (target_meta_fd t).
Proof. destruct t; [apply handle_fd|by intros (? & ? & ?)]. Qed.

Lemma target_stat_good lo t : target_ok t -> good lo (target_stat t) (fun _ => True).
Proof. destruct t; simpl; facts; gstep. Qed.
Hint Resolve target_stat_good : gooddb.
Hint Resolve target_meta_ok : fsdb.

Lemma setattr_target_good lo node valid fh : good lo (setattr_target node valid fh) target_ok.
Proof.
  unfold setattr_target. gstep; [repeat gstep; done|]. gstep. gstep.
  eapply good_bind; [apply good_ok_or; intros n; by apply file_name_ok|]. intros n Hn.
  eapply good_bind; [apply good_ok_or; exact (fun n' Hn' => cstring_Some _ _ Hn')|]. intros n' [-> _]. destruct Hn as [Hn _].
  repeat gstep. by split_and!.
Qed.

Lemma setattr_size_good lo t size : target_ok t -> wr = true -> good lo (setattr_size t size) (fun _ => True).
Proof. intros Ht Hw. unfold setattr_size. destruct t; simpl in Ht; destruct_and?; repeat gstep. Qed.

Lemma setattr_owner_good lo t valid u g : target_ok t -> wr = true -> good lo (setattr_owner t valid u g) (fun _ => True).
Proof. intros Ht Hw. unfold setattr_owner. repeat gstep. Qed.

Lemma setattr_mode_good lo t valid md : target_ok t -> wr = true -> good lo (setattr_mode t valid md) (fun _ => True).
Proof.
  intros Ht Hw. unfold setattr_mode. gstep. gany; [repeat gstep; done|]. intros nm _. cbv zeta.
  apply good_seq; [|repeat gstep]. gstep; [|by gstep]. destruct t; simpl in Ht; destruct_and?; gstep.
Qed.
Hint Resolve setattr_target_good setattr_size_good setattr_owner_good setattr_mode_good : gooddb.

Lemma invalidate_guest_attr_good lo node : good lo (modify (invalidate_guest_attr node)) (fun _ => True).
Proof. apply good_modify. intros. by apply invalidate_guest_attr_keeps. Qed.
Hint Resolve invalidate_guest_attr_good : gooddb.

Lemma socket_at_known lo s node p k : ok lo s -> socket_at node s = Some (p, k) -> below_export root p.
Proof.
  intros Hs. unfold socket_at. intros (n & _ & Hn)%bind_Some. case_match; [done|].
  apply bind_Some in Hn as (q & _ & (k' & Hk & ?)%bind_Some). simplify_eq. by eapply socket_known.
Qed.

Lemma setattr_good lo node input : good lo (setattr node input) bytes_ok.
Proof.
  unfold setattr. gstep. gstep. eapply good_bind; [apply gets_some|]. intros o (s & Hs & ->).
  destruct (socket_at node s) as [[p k]|] eqn:E; [by eapply setattr_socket_good, socket_at_known|].
  gstep. gstep. gany; [repeat gstep; done|]. intros [v f] _. do 9 gstep. gstep.
  do 3 (apply good_seq; [repeat gstep; done|]). apply good_seq; [|repeat gstep].
  gstep; [|by gstep]. gstep. destruct a12; simpl in *; destruct_and?; gstep.
Qed.

(** Names taken from the request. *)
Ltac names Hi :=
  repeat match goal with
  | E : nul_name _ _ = Some ?n |- _ => destruct (nul_name_ok _ _ _ Hi E); clear E
  | E : nul_name_with_end _ _ = Some ?x |- _ =>
      destruct x; destruct (nul_name_with_end_ok _ _ _ _ Hi E); clear E; simpl in *
  end.

Lemma create_socket_good lo p md c : below_export root p -> good lo (create_socket p md c) bytes_ok.
Proof.
  intros Hp. unfold create_socket. do 4 gstep.
  eapply good_bind with (P := fun _ => True).
  { apply good_update. intros s []. split; [by split|done]. }
  intros i _. do 2 gstep. eapply good_bind; [by apply socket_node_good, below_in|]. intros node _. repeat gstep. bok.
Qed.
Hint Resolve create_socket_good : gooddb.

Lemma mknod_good lo node input c : bytes_ok input -> good lo (mknod node input c) bytes_ok.
Proof.
  intros Hi. unfold mknod, mkfifo_at. do 3 gstep. names Hi. gstep. gstep; [gstep|].
  apply good_seq; repeat gstep; done.
Qed.

Lemma mkdir_good lo node input c : bytes_ok input -> good lo (mkdir node input c) bytes_ok.
Proof. intros Hi. unfold mkdir, mkdir_at. do 3 gstep. names Hi. repeat gstep. Qed.

Lemma symlink_good lo node input c : bytes_ok input -> good lo (symlink node input c) bytes_ok.
Proof.
  intros Hi. unfold symlink, symlink_at. do 3 gstep. names Hi. do 2 gstep. apply good_seq; repeat gstep.
Qed.

Lemma link_good lo parent input : bytes_ok input -> good lo (link parent input) bytes_ok.
Proof.
  intros Hi. unfold link, host_link. do 3 gstep. names Hi. do 3 gstep. repeat gstep; simpl in *; destruct_and?; repeat gstep.
Qed.

Lemma remove_good lo node input dir : bytes_ok input -> good lo (remove node input dir) bytes_ok.
Proof.
  intros Hi. unfold remove. do 2 gstep. names Hi. do 2 gstep. gstep.
  - eapply good_seq; [apply good_modify; intros; by apply remove_socket_keeps|]. gstep. bok.
  - repeat gstep.
    eapply good_seq; [apply good_modify; intros; by apply forget_node_path_keeps|]. gstep. bok.
Qed.

Lemma readlink_good lo node : good lo (readlink node) bytes_ok.
Proof. unfold readlink. repeat gstep. Qed.
Lemma statfs_good lo : good lo statfs bytes_ok.
Proof. unfold statfs. repeat gstep. bok. Qed.
Lemma access_good lo node input : good lo (access node input) bytes_ok.
Proof. unfold access. do 2 gstep. apply good_seq; repeat gstep; done || bok. Qed.

Lemma statx_good lo node input : good lo (statx node input) bytes_ok.
Proof. unfold statx. do 3 gstep. gany; [repeat gstep; done|]. intros m _. repeat gstep. Qed.

Lemma rename_forget lo p m : good lo (modify (forget_node_path p m)) (fun _ => True).
Proof. apply good_modify. intros. by apply forget_node_path_keeps. Qed.
Lemma rename_rewrite lo p q m :
  in_export root p -> in_export root q -> good lo (modify (rewrite_renamed_paths p q m)) (fun _ => True).
Proof. intros. apply good_modify. intros. by apply rewrite_renamed_keeps. Qed.
Lemma rename_exchange lo p q :
  in_export root p -> in_export root q -> good lo (modify (exchange_node_paths p q)) (fun _ => True).
Proof. intros. apply good_modify. intros. by apply exchange_node_paths_keeps. Qed.
Hint Resolve rename_forget rename_rewrite rename_exchange : gooddb.

Lemma rename_good lo parent input v2 : bytes_ok input -> good lo (rename parent input v2) bytes_ok.
Proof.
  intros Hi. unfold rename, host_rename. do 2 gstep. gany; [repeat gstep; done|]. intros flags _. do 3 gstep. names Hi.
  do 3 gstep. repeat (gstep || (simpl in *; destruct_and?)); bok.
Qed.

Lemma setxattr_good lo node input : good lo (setxattr node input) bytes_ok.
Proof. unfold setxattr. repeat gstep. Qed.
Lemma removexattr_good lo node input : good lo (removexattr node input) bytes_ok.
Proof. unfold removexattr. repeat gstep. Qed.

Lemma xattr_reply_good lo size v : bytes_ok v -> good lo (xattr_reply size v) bytes_ok.
Proof.
  intros Hv. unfold xattr_reply, xattr_response. repeat case_match; simplify_eq; gstep; bok.
Qed.
Hint Resolve xattr_reply_good : gooddb.
Lemma getxattr_good lo node input : good lo (getxattr node input) bytes_ok.
Proof. unfold getxattr. repeat gstep. Qed.

Lemma split_on_bytes sep l : bytes_ok l -> Forall bytes_ok (split_on sep l).
Proof.
  induction l as [|b l IH]; intros Hl; simpl; [by apply Forall_singleton|]. apply Forall_cons in Hl as [Hb Hl].
  specialize (IH Hl). destruct (b =? sep); [by constructor; [constructor|]|].
  destruct (split_on sep l) as [|p ps]; [by do 2 constructor|apply Forall_cons in IH as [? ?]; by constructor; [constructor|]].
Qed.

Lemma filter_private_ok v : bytes_ok v -> bytes_ok (filter_private_xattrs v).
Proof.
  intros Hv. unfold filter_private_xattrs, bytes_ok. apply Forall_concat, Forall_map, Forall_forall. intros n Hn.
  rewrite list_elem_of_In in Hn. apply filter_In in Hn as [Hn _]. rewrite <-list_elem_of_In in Hn.
  pose proof (split_on_bytes 0 v Hv) as Hs. rewrite Forall_forall in Hs. apply Forall_app. split; [by apply Hs|].
  repeat constructor. lia.
Qed.

Lemma listxattr_good lo node input : good lo (listxattr node input) bytes_ok.
Proof. unfold listxattr. do 3 gstep. by apply xattr_reply_good, filter_private_ok. Qed.

End SafeOps.
#[export] Hint Resolve get_handle_good stat_by_handle_good invalidate_guest_attr_good : gooddb.
#[export] Hint Resolve handle_fd : fsdb.
