(* ===== verification/FsSafeIo.v ===== *)
(** * Requests on open files keep the invariant

    The handlers of [FsIo], as [FsSafeOps] has those of [FsOps]. A new handle is on
    a node the table has given out, which [good_up] carries from where the id came
    from to where the handle is inserted. *)

From S2P Require Import Prelude Memory FsWire FsHost FsState FsDirs FsNodes FsOps FsIo FsReaddir FsInv FsCaches FsTable FsSafe FsSafeOps.
Local Open Scope Z_scope.

(** ** Guest RAM *)

Lemma iov_store_evolves m iov data : bytes_ok data -> ram_evolves m (iov_store m iov data).
Proof.
  revert m data. induction iov as [|[a l] iov IH]; intros m data Hd; cbn [iov_store]; [done|].
  etrans; [|by apply IH, bytes_ok_drop]. unfold ignore. destruct (Memory.write _ _ _) eqn:E; simpl; [|done].
  eapply write_evolves; [|done]. by apply bytes_ok_take.
Qed.

Lemma reply_scatter_evolves m output data : bytes_ok data -> ram_evolves m (scatter m output data).1.1.
Proof.
  revert m data. induction output as [|[a l] output IH]; intros m data Hd; cbn [scatter]; [done|].
  case_bool_decide; [done|]. destruct (Memory.write _ _ _) eqn:E; [|done].
  etrans; [|by apply IH, bytes_ok_drop]. eapply write_evolves; [|done]. by apply bytes_ok_take.
Qed.

Lemma direct_header_evolves m output unique total : ram_evolves m (write_direct_out_header m output unique total).1.
Proof.
  unfold write_direct_out_header. pose proof (reply_scatter_evolves m output (le_bytes 4 total ++ zeros 4 ++ le_bytes 8 unique)) as Hs.
  destruct (scatter _ _ _) as [[m' d] b]. apply Hs. bok.
Qed.

(** ** Names of listings *)

Definition entries_ok (l : list DirEntryInfo) : Prop := Forall (fun e => name_ok (e_name e)) l.

Lemma insert_entry_ok e l : name_ok (e_name e) -> entries_ok l -> entries_ok (insert_entry e l).
Proof.
  intros He. induction l as [|e' l IH]; intros Hl; simpl; [by apply Forall_singleton|].
  apply Forall_cons in Hl as [? Hl]. case_match; [by do 2 (constructor; [done|])|]. constructor; [done|]. by apply IH.
Qed.
Lemma sort_entries_ok l : entries_ok l -> entries_ok (sort_entries l).
Proof. induction 1; simpl; [constructor|]. by apply insert_entry_ok. Qed.

Lemma below_file_name root p n : below_export root p -> file_name p = Some n -> name_ok n.
Proof.
  intros (rel & n' & -> & _ & Hn). unfold file_name. rewrite app_assoc, last_snoc. by intros [= <-].
Qed.

Lemma socket_entries_ok root wr rk lo dir s : fs_ok root wr rk lo s -> entries_ok (socket_entries dir s).
Proof.
  intros Hs. apply Forall_forall. intros e. unfold socket_entries. rewrite list_elem_of_omap. intros ([p k] & Hp & He).
  apply elem_of_map_to_list in Hp. simpl in He. case_bool_decide; [|done].
  apply bind_Some in He as (n & Hn & [= <-]). simpl. eapply below_file_name; [|done].
  apply (ok_sockets _ _ _ _ _ Hs). eauto.
Qed.

Lemma assemble_ok root wr rk lo dir l s : fs_ok root wr rk lo s -> entries_ok l -> listing_ok (assemble_entries dir l s).
Proof.
  intros Hs Hl. eexists. split; [done|]. apply sort_entries_ok, Forall_app. split; [done|]. by eapply socket_entries_ok.
Qed.

(** ** The name of a temporary file *)

Definition tmp_char (b : Z) : Prop := 0x2d <= b <= 0x76 /\ b <> SLASH.

Lemma decimal_loop_chars fuel v acc : Forall tmp_char acc -> Forall tmp_char (decimal_loop fuel v acc).
Proof.
  revert v acc. induction fuel as [|fuel IH]; intros v acc Ha; cbn [decimal_loop]; [done|].
  assert (Forall tmp_char (0x30 + v mod 10 :: acc)).
  { constructor; [|done]. unfold tmp_char, SLASH. pose proof (Z.mod_pos_bound v 10). lia. }
  case_match; auto.
Qed.

Lemma tmpfile_name_ok pid id : name_ok (tmpfile_name pid id).
Proof.
  assert (Forall tmp_char (tmpfile_name pid id)) as Hall.
  { unfold tmpfile_name, decimal. rewrite !Forall_app.
    split_and!; try (by apply decimal_loop_chars); repeat constructor; unfold SLASH; lia. }
  rewrite Forall_forall in Hall. split; [split_and!|]; try done.
  - intros Hs. by destruct (Hall _ Hs).
  - intros Hs. destruct (Hall _ Hs). lia.
  - apply Forall_forall. intros b Hb. destruct (Hall _ Hb). unfold byte_ok. lia.
Qed.

Section SafeIo.
Context {H : Type} {HF : HostFs H} {HL : HostFsLaws H}.
Context (root : path) (wr : bool) (rk : Z * Z) (rs : list RamRegion).
Abbreviation good := (FsInv.good (H := H) root wr rk rs).
Abbreviation good_up := (FsInv.good_up (H := H) root wr rk rs).
Abbreviation ok := (fs_ok root wr rk).

(** ** Opening *)

Lemma make_room_handles_keeps lo fuel s : ok lo s -> ok lo (make_room_handles fuel s).
Proof.
  revert s. induction fuel as [|fuel IH]; intros s Hs; cbn [make_room_handles]; [done|]. case_match; [|done].
  assert (ok lo (evict_one_parked s).2) as H1.
  { eapply parked_frame_keeps; [done|apply evict_parked_frame|apply evict_parked_ok, Hs]. }
  destruct (evict_one_parked s) as [went s1]; simpl in H1. destruct went; [by apply IH|].
  pose proof (evict_one_ok (dirs s1)) as Hd. destruct (evict_one (dirs s1)) as [w d]; simpl in Hd.
  assert (ok lo (set_dirs d s1)) by (destruct H1; split; auto). destruct w; [by apply IH|done].
Qed.

Lemma open_failure_good lo fd n err : fd_ok fd -> proper n -> good lo (open_failure_errno_at fd n err) (fun _ => True).
Proof. intros. unfold open_failure_errno_at. repeat gstep. Qed.
Hint Resolve open_failure_good : gooddb.

(** An open a read-only share allows. *)
Definition open_allowed (flags open_flags : Z) : Prop := wr = true \/ open_wants_write flags open_flags = false.

Lemma open_wants_write_less flags open_flags : open_wants_write flags open_flags = false -> open_wants_write flags 0 = false.
Proof. unfold open_wants_write. rewrite !orb_false_iff. intros [? _]. by split. Qed.

Lemma open_regular_good lo node flags open_flags :
  open_allowed flags open_flags -> good lo (open_regular node flags) (fun fa => fd_ok fa.1).
Proof.
  intros Ha. unfold open_regular. do 4 gstep. eapply good_bind.
  { apply good_attempt, open_host_file_at_good; eauto with fsdb.
    destruct Ha as [->|Ha]; [by left|right; split; [done|by eapply open_wants_write_less]]. }
  intros r Hr. cbv beta in Hr. eapply good_bind with (P := fd_ok); [destruct r; [by gstep|repeat gstep]|].
  intros f Hf. repeat gstep.
Qed.

Lemma open_out_good lo fh : good lo (open_out fh) bytes_ok.
Proof. unfold open_out. gstep. gstep. bok. Qed.
Hint Resolve open_out_good : gooddb.

(** The handle a program inserts is on a node whose id has been given out. *)
Lemma insert_handle_good lo file w flags attrs p node :
  fd_ok file -> known_below node lo -> good lo (update (insert_handle file w flags attrs p node)) (fun _ => True).
Proof. intros. apply good_update. intros. split; [by apply insert_handle_keeps|done]. Qed.
Hint Resolve insert_handle_good : gooddb.

Lemma handle_node_lo lo fh h s : ok lo s -> handles s !! fh = Some h -> ok (Z.max lo (Z.min (h_node h + 1) U64_MAX)) s.
Proof.
  intros [] Hh. split; try done. destruct ok_tab. split; try done.
  destruct (decide (next_node s < U64_MAX)) as [Hlt|]; [|lia]. specialize (tk_hnodes Hlt _ _ Hh). lia.
Qed.

Lemma kill_suid_good lo fd node open_flags flags :
  open_allowed flags open_flags -> fd_ok fd ->
  good lo (if has_flag open_flags FUSE_OPEN_KILL_SUIDGID then clear_suid_sgid fd ;;; modify (invalidate_guest_attr node)
           else ret tt) (fun _ => True).
Proof.
  intros Ha Hfd. destruct (has_flag _ _) eqn:E; [|by gstep]. destruct Ha as [Ha|Ha]; [repeat gstep|].
  unfold open_wants_write in Ha. rewrite E, orb_true_r in Ha. done.
Qed.

(** Carrying a bound on: the id of a node found in the table. *)
Lemma good_bind_known {A B} lo (m : M H A) (k : A -> M H B) node P Q :
  good_up lo m (fun _ => Z.min (node + 1) U64_MAX) P ->
  (forall lo' a, known_below node lo' -> P a -> good lo' (k a) Q) -> good lo (bind m k) Q.
Proof. intros Hm Hk. eapply good_bind_up; [exact Hm|]. intros a Ha. apply Hk; [unfold known_below; lia|done]. Qed.

Lemma handle_of_node_up lo node :
  good_up lo (e <- gets (handle_of_node node) ;; ok_or e ENOENT) (fun _ => Z.min (node + 1) U64_MAX)
    (fun e => handle_ok root wr e.2).
Proof.
  intros w Hw. apply good_at_gets. destruct (handle_of_node node (w_fs w)) as [[fh h]|] eqn:E; [|done].
  destruct (handle_of_node_ok _ _ _ _ _ _ _ (wk_fs _ _ _ _ _ _ Hw) E) as [Hh Hn]. simpl in *. split; [|done].
  destruct Hw. split; try done. rewrite <-Hn. eapply handle_node_lo; [done|]. by eapply handle_of_node_in.
Qed.

Lemma open_orphan_good lo node flags open_flags dir :
  open_allowed flags open_flags -> good lo (open_orphan node flags open_flags dir) bytes_ok.
Proof.
  intros Ha. unfold open_orphan. do 3 gstep. cbv zeta.
  eapply good_assoc_inv, good_bind_known; [apply handle_of_node_up|]. intros lo' e Hlo He. do 2 gstep.
  apply good_seq.
  { destruct (has_flag flags LINUX_O_TRUNC) eqn:E; [|by gstep]. apply good_syscall. destruct Ha as [Ha|Ha]; [cok|].
    unfold open_wants_write in Ha. rewrite E, orb_true_r in Ha. done. }
  apply good_seq; [by eapply kill_suid_good|]. repeat gstep.
Qed.

Lemma read_dir_at_good lo fd : fd_ok fd -> good lo (read_dir_at fd) entries_ok.
Proof.
  intros. unfold read_dir_at. eapply good_bind; [apply good_syscall; cok|]. intros l Hl. simpl in Hl. gstep.
  apply Forall_map, Forall_forall. intros e He. rewrite list_elem_of_In in He. apply filter_In in He as [He Hd].
  rewrite <-list_elem_of_In in He. rewrite Forall_forall in Hl. destruct (Hl _ He) as (? & ? & ? & ?).
  apply negb_true_iff, orb_false_iff in Hd as [?%bool_decide_eq_false ?%bool_decide_eq_false].
  split; [by split_and!|done].
Qed.
Hint Resolve read_dir_at_good : gooddb.

Lemma dir_entries_good lo dir : in_export root dir -> good lo (dir_entries dir) listing_ok.
Proof.
  intros. unfold dir_entries. do 3 gstep. apply good_gets. intros. by eapply assemble_ok.
Qed.
Hint Resolve dir_entries_good : gooddb.

Lemma insert_dir_handle_good lo dir : in_export root dir -> good lo (insert_dir_handle dir) (fun _ => True).
Proof.
  intros. unfold insert_dir_handle. do 3 gstep. apply good_update. intros. split; [by apply add_dir_handle_keeps|done].
Qed.
Hint Resolve insert_dir_handle_good : gooddb.

(** Counters and room. *)
Lemma frame_modify lo f :
  (forall s, ok lo s -> ok lo (f s)) -> good lo (modify f) (fun _ => True).
Proof. apply good_modify. Qed.
Lemma parked_hits_good lo : good lo (modify (fun s => set_parked_hits (parked_hits s + 1) s)) (fun _ => True).
Proof. apply good_modify. by intros s []. Qed.
Lemma parked_misses_good lo : good lo (modify (fun s => set_parked_misses (parked_misses s + 1) s)) (fun _ => True).
Proof. apply good_modify. by intros s []. Qed.
Hint Resolve parked_hits_good parked_misses_good : gooddb.

Lemma open_op_good lo node input dir : good lo (open_op node input dir) bytes_ok.
Proof.
  unfold open_op. do 2 gstep. eapply good_bind; [apply gets_some|]. intros w (s & Hs & ->). rewrite (ok_wr _ _ _ _ _ Hs).
  gstep. assert (open_allowed a a0) as Hal.
  { unfold open_allowed. destruct wr; [by left|]. destruct (open_wants_write a a0); [done|by right]. }
  gstep. gstep; [by apply open_orphan_good|]. eapply good_bind_known; [apply node_path_up|]. intros lo' p Hlo Hp.
  apply good_seq; [repeat gstep|]. gstep.
  eapply good_bind with (P := fun o => forall e, o = Some e -> fd_ok e.1); [gstep; gstep; done|]. intros reused Hr.
  apply good_seq.
  { case_bool_decide; [|by gstep]. eapply good_seq; [apply good_modify; intros; by apply make_room_handles_keeps|]. repeat gstep. }
  gany; [|intros; gstep]. gstep; [gstep|]. eapply good_bind with (P := fun fa => fd_ok fa.1).
  - destruct reused as [fa|]; gstep; [gstep; auto|by eapply open_regular_good].
  - intros fa Hfa. apply good_seq; [by eapply kill_suid_good|gstep].
Qed.

Ltac names Hi := repeat match goal with E : nul_name _ _ = Some _ |- _ => destruct (nul_name_ok _ _ _ Hi E); clear E end.

(** The entry a new file is answered with, and the handle on it. *)
Lemma node_for_bind {B} lo p m (k : Z -> M H B) Q :
  in_export root p -> (forall lo' id, known_below id lo' -> good lo' (k id) Q) -> good lo (id <- node_for p m ;; k id) Q.
Proof.
  intros Hp Hk. eapply good_bind_up; [by apply node_for_up|]. intros id _. apply Hk. unfold known_below. lia.
Qed.

Lemma create_good lo node input c : bytes_ok input -> good lo (create node input c) bytes_ok.
Proof.
  intros Hi. unfold create. do 5 gstep. names Hi. do 5 gstep. apply good_seq; [repeat gstep|]. gstep.
  apply node_for_bind; [auto with fsdb|]. intros lo' id Hlo. repeat gstep. bok.
Qed.

Lemma tmpfile_good lo node input c : good lo (tmpfile node input c) bytes_ok.
Proof.
  unfold tmpfile. do 4 gstep. gany; [apply good_update; intros s []; by split|]. intros id _. gstep. cbv zeta.
  assert (below_export root (join a2 (tmpfile_name a3 id))) as Hp by (apply in_export_join; [done|apply tmpfile_name_ok]).
  set (p := join _ _) in *. clearbody p. do 5 gstep.
  apply node_for_bind; [auto with fsdb|]. intros lo' nid Hlo. do 2 gstep. gany; [|intros; gstep; bok].
  apply good_update. intros. split; [by apply insert_temporary_keeps|done].
Qed.

(** ** Reading and writing *)

Lemma handle_at lo fh (s : Fs) h : ok lo s -> handles s !! fh = Some h -> handle_ok root wr h.
Proof. intros Hs Hh. by apply (ok_handles _ _ _ _ _ Hs fh). Qed.

Lemma read_op_good lo node input cap : good lo (read_op node input cap) bytes_ok.
Proof.
  unfold read_op. do 3 gstep. cbv zeta. eapply good_bind; [apply gets_some|]. intros o (s & Hs & ->).
  destruct (handles s !! _) as [h|] eqn:Hh.
  - eapply good_mono; [apply good_syscall|by intros ? [? _]]. apply handle_at with (1 := Hs) in Hh as [? _]. cok.
  - do 5 gstep. eapply good_bind; [apply open_host_file_at_good; eauto with fsdb; by right|]. intros f Hf.
    eapply good_mono; [apply good_syscall; cok|by intros ? [? _]].
Qed.

Lemma write_op_good lo node input : bytes_ok input -> good lo (write_op node input) bytes_ok.
Proof.
  intros Hi. unfold write_op. do 3 gstep. eapply good_bind; [apply good_ok_or_eq|]. intros size Hsize.
  apply get_u32_range in Hsize; [|done]. gstep. eapply good_bind; [apply good_guard|]. intros _ [Hm Hl]%negb_true_iff%orb_false_iff.
  do 2 gstep. eapply good_bind with (P := fun _ => True).
  { apply good_expect. eexists. split; [|done]. apply get_range_Some. bool_hyps. split_and!; [lia|lia|lia|done]. }
  intros data _. gstep. apply good_seq; repeat gstep. bok.
Qed.

Lemma preadv_good lo fd iov off : fd_ok fd -> good lo (preadv fd iov off) (fun _ => True).
Proof.
  intros. unfold preadv. case_bool_decide; [by gstep|]. eapply good_bind; [apply good_retried_syscall; cok|]. intros data [Hd _].
  eapply good_bind; [apply good_get_ram|]. intros m [Hm Hr].
  eapply good_seq; [|by gstep]. destruct (iov_store_evolves m iov data Hd). apply good_set_ram; [auto|congruence].
Qed.

Lemma pwritev_good lo fd iov off : fd_ok fd -> wr = true -> good lo (pwritev fd iov off) (fun _ => True).
Proof. intros. unfold pwritev. case_bool_decide; [by gstep|]. gstep. eapply good_true. gstep. Qed.
Hint Resolve preadv_good pwritev_good : gooddb.

Definition reply_ok (r : Reply) : Prop := match r with Buffered l => bytes_ok l | Direct _ => True end.
Definition direct_ok (o : option Reply) : Prop := forall r, o = Some r -> reply_ok r.

Lemma error_response_ok u e : bytes_ok (error_response u e).
Proof. unfold error_response. bok. Qed.
Lemma success_response_ok u l : bytes_ok l -> bytes_ok (success_response u l).
Proof. intros. unfold success_response. bok. Qed.
Lemma direct_buffered l : bytes_ok l -> direct_ok (Some (Buffered l)).
Proof. intros Hl r [= <-]. done. Qed.
Lemma direct_none : direct_ok None.
Proof. done. Qed.
Hint Resolve error_response_ok success_response_ok direct_buffered direct_none : fsdb.

Lemma zero_copy_reads_good lo : good lo (modify (fun s => set_zero_copy_reads (zero_copy_reads s + 1) s)) (fun _ => True).
Proof. apply good_modify. by intros s []. Qed.
Lemma zero_copy_writes_good lo : good lo (modify (fun s => set_zero_copy_writes (zero_copy_writes s + 1) s)) (fun _ => True).
Proof. apply good_modify. by intros s []. Qed.
Hint Resolve zero_copy_reads_good zero_copy_writes_good : gooddb.

Lemma read_direct_good lo unique declared input output max_out :
  good lo (read_direct unique declared input output max_out) direct_ok.
Proof.
  unfold read_direct. gstep; [by gstep|]. gstep. eapply good_bind; [apply gets_some|]. intros s0 (s & Hs & ->).
  unfold id. destruct (_ ≫= _) as [[[h iov] off]|] eqn:E; [|by gstep].
  assert (handle_ok root wr h) as [Hh _].
  { apply bind_Some in E as (args & _ & (fh & _ & E)%bind_Some). case_match; [done|].
    apply bind_Some in E as (? & _ & (? & _ & (h' & Hh & (? & _ & ?)%bind_Some)%bind_Some)%bind_Some). simplify_eq.
    by eapply handle_at. }
  gstep. gstep; [|gstep; auto with fsdb]. gstep. eapply good_bind; [apply good_get_ram|]. intros m1 [Hok Hmap].
  pose proof (direct_header_evolves m1 output unique (u32 (OUT_HEADER_LEN + z))) as [? ?].
  destruct (write_direct_out_header _ _ _ _) as [m' b]. simpl in *.
  eapply good_seq; [apply good_set_ram; [by auto|congruence]|]. gstep. destruct b; intros r [= <-]; simpl; auto with fsdb.
Qed.

Lemma write_direct_good lo node unique declared input : good lo (write_direct node unique declared input) direct_ok.
Proof.
  unfold write_direct. eapply good_bind; [apply gets_some|]. intros w (s & Hs & ->). rewrite (ok_wr _ _ _ _ _ Hs). clear s Hs.
  assert (good lo (modify (set_dirty true)) (fun _ => True)) as Hdirty by (apply good_modify; intros; by apply set_dirty_keeps).
  destruct (negb wr) eqn:Hw; [by gstep|]. apply negb_false_iff in Hw. apply good_seq; [done|]. gstep. gstep; [by gstep|].
  gstep. eapply good_bind; [apply gets_some|]. intros s0 (s & Hs & ->).
  unfold id. destruct (_ ≫= _) as [[[[h iov] off] fl]|] eqn:E; [|by gstep].
  assert (handle_ok root wr h) as [Hh _].
  { apply bind_Some in E as (args & _ & (fh & _ & (? & _ & (? & _ & (? & _ & E)%bind_Some)%bind_Some)%bind_Some)%bind_Some).
    case_match; [done|]. apply bind_Some in E as (h' & Hh & E). case_match; [done|].
    apply bind_Some in E as (? & _ & E). case_match; [done|]. injection E as Eh _ _ _. rewrite <-Eh.
    by eapply handle_at. }
  gstep. gstep; [|gstep; auto with fsdb]. gstep. gany; [repeat gstep|]. intros [u|err] _; gstep; apply direct_buffered;
    [apply success_response_ok; bok|apply error_response_ok].
Qed.

(** ** Closing and syncing *)

Lemma park_attrs_good lo h : handle_ok root wr h -> good lo (park_attrs h) (fun _ => True).
Proof. intros. unfold park_attrs. repeat gstep. Qed.
Hint Resolve park_attrs_good : gooddb.

Lemma park_descriptor_good lo node flags attrs file : fd_ok file -> good lo (modify (park_descriptor node flags attrs file)) (fun _ => True).
Proof.
  intros. apply good_modify. intros s Hs. destruct (park_descriptor_ok node flags attrs file s) as [? ?]; [apply Hs|done|].
  by eapply parked_frame_keeps.
Qed.
Hint Resolve park_descriptor_good : gooddb.

Lemma release_good lo input : good lo (release input) bytes_ok.
Proof.
  unfold release. gstep. cbv zeta. intros w Hw. apply good_at_gets.
  destruct (handles (w_fs w) !! a) as [h|] eqn:Hh; [|done]. apply good_at_modify_bind.
  assert (handle_ok root wr h) by (eapply handle_at; [apply Hw|done]).
  enough (good lo ((if has_flag (default 0 (get_u32 input 12)) FUSE_RELEASE_FLOCK_UNLOCK
      then syscall (CFlock (h_file h) LOCK_UN false) else ret tt) ;;;
    if bool_decide (is_Some (h_temporary h)) then remove_temporary h ;;; ret []
    else
      cache <- gets (fun s => negb (bool_decide (f_cache s = CacheNone))) ;;
      (if (cache : bool) && negb (has_flag (default 0 (get_u32 input 12)) FUSE_RELEASE_FLOCK_UNLOCK) && negb (h_locked h) then
         attrs <- park_attrs h ;;
         modify (park_descriptor (h_node h) (h_open_flags h) attrs (h_file h))
       else ret tt) ;;;
      ret []) bytes_ok) as Hg.
  { apply Hg. destruct Hw. split; try done. by apply release_keeps. }
  apply good_seq; [repeat gstep|]. case_bool_decide; [repeat gstep|]. gstep. apply good_seq; repeat gstep.
Qed.

Lemma dir_handle_at lo fh (s : Fs) d : ok lo s -> dir_handles s !! fh = Some d -> fd_ok (dh_file d) /\ listing_ok (dh_entries d).
Proof. intros Hs Hd. by apply (ok_dir_handles _ _ _ _ _ Hs fh). Qed.

Lemma release_dir_good lo input : good lo (release_dir input) bytes_ok.
Proof.
  unfold release_dir. gstep. gstep; [gstep; bok|]. do 2 gstep. eapply good_seq; [|gstep; bok].
  apply good_modify. intros s []. split; try done. by apply map_Forall_delete.
Qed.

Lemma flush_good lo input : good lo (flush input) bytes_ok.
Proof. unfold flush. repeat gstep. Qed.
Lemma fsync_good lo input : good lo (fsync input) bytes_ok.
Proof. unfold fsync. repeat gstep. Qed.
Lemma fsync_dir_good lo node input : good lo (fsync_dir node input) bytes_ok.
Proof.
  unfold fsync_dir. do 2 gstep. gstep; [|repeat gstep]. eapply good_bind; [apply gets_some|]. intros o (s & Hs & ->).
  eapply good_bind; [apply good_ok_or_eq|]. intros d Hd. apply dir_handle_at with (1 := Hs) in Hd as [? _]. repeat gstep.
Qed.

Lemma sync_all_good lo l failed : Forall fd_ok l -> good lo (sync_all l failed) (fun _ => True).
Proof.
  intros Hl. revert failed. induction Hl; intros failed; cbn [sync_all]; [by gstep|]. gstep. auto.
Qed.

Lemma syncfs_good lo : good lo syncfs bytes_ok.
Proof.
  unfold syncfs. eapply good_bind; [apply gets_some|]. intros fds (s & Hs & ->). eapply good_bind.
  { apply sync_all_good. apply Forall_app. split; apply Forall_map, Forall_forall; intros [fh h] Hin; apply elem_of_map_to_list in Hin; simpl.
    - by apply handle_at with (1 := Hs) in Hin as [? _].
    - by apply dir_handle_at with (1 := Hs) in Hin as [? _]. }
  intros failed _. eapply good_bind; [apply gets_some|]. intros due (s' & Hs' & ->). gany; [|intros; repeat gstep].
  destruct (f_writable s' && dirty s') eqn:Ed; [|by gstep]. apply andb_true_iff in Ed as [Hw _]. rewrite (ok_wr _ _ _ _ _ Hs') in Hw.
  eapply good_seq; [apply good_modify; by intros ? []|].
  eapply (good_bind _ _ _ _ _ _ _ (fun r => r = root)); [apply good_gets; apply ok_root|]. intros r ->.
  gstep. gstep; [|by gstep]. eapply good_seq; [apply good_modify; intros; by apply set_dirty_keeps|by gstep].
Qed.

(** ** Locks and the calls on a handle *)

Lemma try_lock_good lo fd c : fd_ok fd -> good lo (try_lock fd c) (fun _ => True).
Proof. intros. unfold try_lock. gany; [destruct c; eapply good_true; gstep|]. intros r _. by gstep. Qed.
Hint Resolve try_lock_good : gooddb.

Lemma settle_lock_good lo fh unique c wait : good lo (settle_lock fh unique c wait) bytes_ok.
Proof.
  unfold settle_lock. do 2 gstep. destruct a0 as [|[err|]].
  - eapply good_seq; [apply good_modify; intros; by apply note_posix_lock_keeps|]. repeat gstep.
  - gstep.
  - gstep; [|gstep]. apply good_seq; [destruct c; repeat gstep|]. eapply good_seq; [apply good_modify; by intros ? []|]. repeat gstep.
Qed.
Hint Resolve settle_lock_good : gooddb.

Lemma lock_good lo input opcode unique : good lo (lock input opcode unique) bytes_ok.
Proof.
  unfold lock. do 7 gstep. gstep; [repeat gstep; bok|]. gany; [repeat gstep|]. intros r _. gstep. cbv zeta.
  gstep; [gstep|]. do 2 gstep. destruct (lock_reply_range _). repeat gstep. bok.
Qed.

Lemma poll_good lo input : good lo (poll input) bytes_ok.
Proof. unfold poll. repeat gstep. bok. Qed.
Lemma lseek_good lo input : good lo (lseek input) bytes_ok.
Proof. unfold lseek. repeat gstep. bok. Qed.

Lemma write_all_good lo fuel fd off data : fd_ok fd -> wr = true -> good lo (write_all fuel fd off data) (fun _ => True).
Proof.
  intros Hfd Hw. revert off data. induction fuel as [|fuel IH]; intros off data; cbn [write_all]; [by gstep|].
  case_bool_decide; [by gstep|]. do 2 gstep. apply IH.
Qed.
Hint Resolve write_all_good : gooddb.

Lemma zero_loop_good lo fuel fd cursor e : fd_ok fd -> wr = true -> good lo (zero_loop fuel fd cursor e) (fun _ => True).
Proof.
  intros Hfd Hw. revert cursor. induction fuel as [|fuel IH]; intros cursor; cbn [zero_loop]; [by gstep|].
  gstep; [by gstep|]. gstep. apply IH.
Qed.
Hint Resolve zero_loop_good : gooddb.

Lemma host_fallocate_good lo fd off len md : fd_ok fd -> wr = true -> good lo (host_fallocate fd off len md) (fun _ => True).
Proof.
  intros. unfold host_fallocate. cbv zeta. do 4 gstep. gstep; [repeat gstep|]. gstep.
  - gstep. gany; [gstep; [repeat gstep|]|]; [apply good_seq; repeat gstep|]. intros ze _. gstep.
  - gstep. apply good_seq; repeat gstep.
Qed.
Hint Resolve host_fallocate_good : gooddb.

Lemma fallocate_good lo input : good lo (fallocate input) bytes_ok.
Proof. unfold fallocate. repeat gstep. Qed.

Lemma copy_loop_good lo fuel src dst so to_ req copied :
  fd_ok src -> fd_ok dst -> wr = true -> good lo (copy_loop fuel src dst so to_ req copied) (fun _ => True).
Proof.
  intros Hs Hd Hw. revert copied. induction fuel as [|fuel IH]; intros copied; cbn [copy_loop]; [by gstep|].
  gstep; [by gstep|]. cbv zeta. gstep. case_bool_decide; [by gstep|]. gstep. gstep; [by gstep|]. apply IH.
Qed.
Hint Resolve copy_loop_good : gooddb.

Lemma copy_file_range_good lo input : good lo (copy_file_range input) bytes_ok.
Proof. unfold copy_file_range. cbv zeta. repeat gstep. bok. Qed.

End SafeIo.
