(* ===== verification/FsSafeReaddir.v ===== *)
(** * Listing directories keeps the invariant

    The records of a page, the listings kept for handle 0, and the request as a
    whole. A page that reached the end of a listing marks it finished, which needs
    that the records leave the listings alone. *)

From S2P Require Import Prelude Memory FsWire FsHost FsState FsDirs FsNodes FsOps FsIo FsReaddir FsInv FsCaches FsTable FsSafe FsSafeOps FsSafeIo.
Local Open Scope Z_scope.

(** ** Batches *)

Definition entry_at_ok (ie : Z * DirEntryInfo) : Prop :=
  0 <= ie.1 /\ bytes_ok (e_name ie.2) /\ (1 < ie.1 -> name_ok (e_name ie.2)).
Definition batch_ok (l : list (Z * DirEntryInfo)) : Prop := Forall entry_at_ok l.

Lemma enumerate_ok i l : 2 <= i -> Forall (fun e => name_ok (e_name e)) l -> batch_ok (enumerate_from i l).
Proof.
  intros Hi Hl. revert i Hi. induction Hl as [|e l [Hp Hb] _ IH]; intros i Hi; cbn [enumerate_from]; [constructor|].
  constructor; [|apply IH; lia]. split_and!; [simpl; lia|done|by split].
Qed.

Lemma page_batch_ok entries offset n : listing_ok entries -> batch_ok (page_batch entries offset n).
Proof.
  intros (rest & -> & Hr). apply Forall_take, Forall_drop. simpl.
  do 2 (constructor; [split_and!; [done|by repeat constructor|done]|]). by apply enumerate_ok.
Qed.

Lemma page_batch_nil offset n : batch_ok (page_batch [] offset n).
Proof. apply Forall_take, Forall_drop. constructor. Qed.

Lemma pad8_ok l : bytes_ok l -> bytes_ok (pad8 l).
Proof. intros. unfold pad8. bok. Qed.

Lemma dirent_record_ok out node idx n t : bytes_ok out -> bytes_ok n -> bytes_ok (dirent_record out node idx n t).
Proof. intros. unfold dirent_record. apply pad8_ok. bok. Qed.

(** ** Programs that leave the listings of handle 0 and the parked descriptors alone *)

Section Same.
Context {H : Type} {HF : HostFs H}.

Definition kept (s' s : Fs) : Prop := fh0_listings s' = fh0_listings s /\ parked s' = parked s.
Definition same {A} (m : M H A) : Prop := forall w, kept (w_fs (m w).2) (w_fs w).

Lemma kept_trans s s' s2 : kept s2 s' -> kept s' s -> kept s2 s.
Proof. unfold kept. intros [? ?] [? ?]. split; congruence. Qed.

Lemma same_bind {A B} (m : M H A) (k : A -> M H B) : same m -> (forall a, same (k a)) -> same (bind m k).
Proof.
  intros Hm Hk w. specialize (Hm w). unfold bind. destruct (m w) as [[a|e|] w1]; simpl in *; [|done|done].
  eapply kept_trans; [apply Hk|done].
Qed.
Lemma same_attempt {A} (m : M H A) : same m -> same (attempt m).
Proof. intros Hm w. specialize (Hm w). unfold attempt. by destruct (m w) as [[a|e|] w1]. Qed.
Lemma same_quiet {A} (m : M H A) : quiet m -> same m.
Proof. intros Hq w. by rewrite (Hq w). Qed.
Lemma same_update {A} (f : Fs -> A * Fs) : (forall s, kept (f s).2 s) -> same (update f).
Proof. intros Hf w. unfold update. specialize (Hf (w_fs w)). by destruct (f (w_fs w)). Qed.
Lemma same_modify f : (forall s, kept (f s) s) -> same (modify f).
Proof. intros Hf. by apply same_update. Qed.

Create HintDb same.
Hint Resolve quiet_ret quiet_fail quiet_gets quiet_attempt quiet_ok_or quiet_call quiet_syscall quiet_guard
  open_dir_quiet open_chain_quiet read_link_quiet walk_from_quiet stat_uncached_quiet leads_to_quiet stale_alias_quiet
  position_path_quiet same_attempt same_quiet : same.

Ltac same := repeat (first [solve [eauto with same] | apply same_bind; intros | case_bool_decide | case_match]).

Lemma dup_same fd : same (dup_cloexec fd).
Proof. unfold dup_cloexec. same. Qed.
Lemma query_same {A : Set} (e : HostE A) d : same (query e d).
Proof. unfold query. same. Qed.
Lemma mod_dirs_same f : same (mod_dirs f).
Proof. by apply same_modify. Qed.
Lemma walk_same rel : same (walk rel).
Proof. unfold walk, open_resolved. same. Qed.
Lemma expect_same {A} (o : option A) : same (expect o).
Proof. by destruct o. Qed.
Hint Resolve dup_same query_same mod_dirs_same walk_same expect_same : same.

Lemma dir_fd_same rel : same (dir_fd rel).
Proof. unfold dir_fd. same. Qed.
Hint Resolve dir_fd_same : same.

Lemma at_relative_same rel : same (at_relative rel).
Proof. unfold at_relative. same. Qed.
Lemma relative_of_path_same p : same (relative_of_path p).
Proof. unfold relative_of_path. same. Qed.
Hint Resolve at_relative_same relative_of_path_same : same.

Lemma find_path_same test l : (forall p, same (test p)) -> same (find_path test l).
Proof. intros Ht. induction l; cbn [find_path]; same. Qed.
Lemma node_path_same node : same (node_path node).
Proof. unfold node_path. same; apply find_path_same; intros; same. Qed.
Hint Resolve node_path_same : same.

Lemma open_entry_at_same node : same (open_entry_at node).
Proof. unfold open_entry_at, relative_of, entry_at, open_entry_nofollow, root_fd. same. Qed.
Lemma stored_same fd : same (stored_guest_attr fd).
Proof. unfold stored_guest_attr. same. Qed.
Lemma shown_same st m : same (shown_attr st m).
Proof. unfold shown_attr, host_uid_to_guest, host_gid_to_guest. same. Qed.
Hint Resolve open_entry_at_same stored_same shown_same : same.

Lemma upd_node_same node f : same (modify (upd_node node f)).
Proof. by apply same_modify. Qed.
Hint Resolve upd_node_same : same.

Lemma self_entry_same node m : same (self_entry_out node m).
Proof. unfold self_entry_out, guest_attr. same. Qed.

Lemma node_for_same p m : same (node_for p m).
Proof.
  unfold node_for. same.
  - apply same_modify. intros s. unfold add_alias. by repeat case_match.
  - by apply same_update.
Qed.
Lemma socket_node_same p i : same (update (socket_node_id p i)).
Proof. apply same_update. intros s. unfold socket_node_id. by destruct (inode_ids s !! _). Qed.
Lemma keep_attr_same id g : same (modify (keep_guest_attr id g)).
Proof. by apply same_modify. Qed.
Lemma remember_same id : same (modify (remember_lookup id)).
Proof. by apply same_modify. Qed.
Hint Resolve self_entry_same node_for_same socket_node_same keep_attr_same remember_same : same.

Lemma stat_listed_same l idx n pm : same (stat_listed l idx n pm).
Proof. unfold stat_listed, stat_of_fd, stat_at. same. Qed.
Hint Resolve stat_listed_same : same.

Lemma page_records_same pg batch out : same (page_records pg batch out).
Proof.
  revert out. induction batch as [|[idx e] batch IH]; intros out; cbn [page_records]; unfold plus_record, plain_record; same.
Qed.

Lemma request_subdirs_same dir fd batch : same (request_subdirs dir fd batch).
Proof. induction batch as [|[idx e] batch IH]; cbn [request_subdirs]; same. Qed.
Hint Resolve request_subdirs_same : same.

Lemma page_listing_same fh dir plus batch : same (page_listing fh dir plus batch).
Proof. unfold page_listing, dir_fd_owned, dir_handle. same. Qed.
Lemma page_readahead_same dir plus l batch : same (page_readahead dir plus l batch).
Proof. unfold page_readahead. same. Qed.

End Same.

Section SafeReaddir.
Context {H : Type} {HF : HostFs H} {HL : HostFsLaws H}.
Context (root : path) (wr : bool) (rk : Z * Z) (rs : list RamRegion).
Abbreviation good := (FsInv.good (H := H) root wr rk rs).
Abbreviation good_at := (FsInv.good_at (H := H) root wr rk rs).
Abbreviation world := (world_ok (H := H) root wr rk rs).
Abbreviation ok := (fs_ok root wr rk).

Lemma prepared_is_fresh_good lo t : good lo (prepared_is_fresh t) (fun _ => True).
Proof. unfold prepared_is_fresh. repeat gstep. Qed.
Hint Resolve prepared_is_fresh_good : gooddb.

Definition fh0_good (l : Fh0Listing) : Prop := listing_ok (l_entries l).

Lemma plain_listing_good lo dir : in_export root dir -> good lo (plain_listing dir) fh0_good.
Proof. intros. unfold plain_listing. eapply good_bind; [by apply dir_entries_good|]. intros. by gstep. Qed.
Hint Resolve plain_listing_good : gooddb.

Lemma fh0_listing_for_good lo dir plus : in_export root dir -> good lo (fh0_listing_for dir plus) fh0_good.
Proof.
  intros. unfold fh0_listing_for. do 2 gstep. gstep; [|gstep]. eapply good_bind; [apply good_query; [cok|done]|].
  intros [d|] Hd; [|gstep]. simpl in Hd. do 3 gstep. case_bool_decide; [|gstep]. gstep. gstep.
  eexists. split; [done|]. by apply Forall_map.
Qed.

(** ** With what is known of the session before and after *)

Definition hoare {A} (lo : Z) (Pre : Fs -> Prop) (m : M H A) (Q : A -> Fs -> Prop) : Prop :=
  forall w, world lo w -> Pre (w_fs w) ->
  match m w with
  | (Ok a, w') => world lo w' /\ Q a (w_fs w')
  | (Err _, w') => world lo w'
  | (Panicked, _) => False
  end.

Lemma hoare_bind {A B} lo Pre (m : M H A) (k : A -> M H B) R Q :
  hoare lo Pre m R -> (forall a, hoare lo (R a) (k a) Q) -> hoare lo Pre (bind m k) Q.
Proof.
  intros Hm Hk w Hw Hp. specialize (Hm w Hw Hp). unfold bind. destruct (m w) as [[a|e|] w1]; [|done|done].
  destruct Hm as [Hw1 Ha]. exact (Hk a w1 Hw1 Ha).
Qed.
Lemma hoare_good {A} lo Pre (m : M H A) P : good lo m P -> hoare lo Pre m (fun a _ => P a).
Proof.
  intros Hm w Hw _. specialize (Hm w Hw). unfold FsInv.good_at in Hm. destruct (m w) as [[a|e|] w1]; [|done|done].
  by rewrite Z.max_id in Hm.
Qed.
Lemma hoare_same {A} lo Pre (m : M H A) P :
  good lo m P -> same m -> (forall s s', fh0_listings s' = fh0_listings s -> Pre s -> Pre s') ->
  hoare lo Pre m (fun a s => P a /\ Pre s).
Proof.
  intros Hm Hs Hext w Hw Hp. pose proof (hoare_good lo Pre m P Hm w Hw Hp) as Hg. specialize (Hs w).
  destruct (m w) as [[a|e|] w1]; [|done|done]. destruct Hg. split; [done|]. split; [done|]. eapply Hext; [apply Hs|done].
Qed.
Lemma hoare_gets {A} lo Pre (f : Fs -> A) : hoare lo Pre (gets f) (fun a s => a = f s /\ Pre s).
Proof. by intros w Hw Hp. Qed.
Lemma good_hoare {A} lo (m : M H A) Q : hoare lo (fun _ => True) m (fun a _ => Q a) -> good lo m Q.
Proof.
  intros Hm w Hw. specialize (Hm w Hw I). unfold FsInv.good_at. destruct (m w) as [[a|e|] w1]; [|done|done].
  by rewrite Z.max_id.
Qed.
Lemma hoare_modify lo (Pre : Fs -> Prop) f :
  (forall s, ok lo s -> Pre s -> ok lo (f s)) -> hoare lo Pre (modify f) (fun _ _ => True).
Proof. intros Hf w [] Hp. split; [|done]. split; simpl; auto. Qed.
Lemma hoare_weaken {A} lo (Pre Pre' : Fs -> Prop) (m : M H A) Q :
  hoare lo Pre m Q -> (forall s, Pre' s -> Pre s) -> hoare lo Pre' m Q.
Proof. intros Hm Hp w Hw Hq. by apply Hm, Hp. Qed.

Lemma hoare_pure {A} lo (P : Prop) Pre (m : M H A) Q : (P -> hoare lo Pre m Q) -> hoare lo (fun s => P /\ Pre s) m Q.
Proof. intros Hm w Hw [HP Hp]. by apply Hm. Qed.

(** A listing is kept for [node]. *)
Definition listed (node : Z) (s : Fs) : Prop := is_Some (fh0_listings s !! node).

Lemma new_listing_good lo node l : fh0_good l -> good lo (modify (fun s => touch_fh0 node (set_listing node l s))) (fun _ => True).
Proof.
  intros Hl. apply good_modify. intros s Hs. destruct (new_fh0_ok node l s) as [? ?]; [apply Hs|done|].
  by eapply listings_frame_keeps.
Qed.

Lemma touch_listing lo node : hoare lo (listed node) (modify (touch_fh0 node)) (fun _ _ => True).
Proof.
  apply hoare_modify. intros s Hs Hn. destruct (touch_fh0_ok node s) as [? ?]; [apply Hs|done|]. by eapply listings_frame_keeps.
Qed.

Lemma clear_prepared_good lo node :
  good lo (modify (fun s => set_fh0_listings (alter clear_prepared node (fh0_listings s)) s)) (fun _ => True).
Proof.
  apply good_modify. intros s []. split; try done. simpl. eapply fh0_ok_alter; [done| |].
  - intros n. by rewrite lookup_alter_is_Some.
  - intros n l'. rewrite lookup_alter_Some. intros [(-> & l & Hl & ->)|[_ Hl]]; eauto.
Qed.

Lemma fh0_batch_hoare lo node dir offset n plus :
  in_export root dir ->
  hoare lo (fun _ => True) (fh0_batch node dir offset n plus) (fun lb s => batch_ok lb.2 /\ (is_Some lb.1 -> listed node s)).
Proof.
  intros Hdir. unfold fh0_batch. eapply hoare_bind; [apply hoare_gets|]. intros known. eapply hoare_bind with (R := fun _ _ => True).
  { destruct (negb (offset =? 0) && known) eqn:Ek; simpl.
    - apply andb_true_iff in Ek as [_ Ek]. eapply hoare_weaken; [apply touch_listing|]. intros s [Hk _]. rewrite Ek in Hk.
      symmetry in Hk. by apply bool_decide_eq_true in Hk.
    - eapply hoare_good, good_bind; [by apply fh0_listing_for_good|]. intros. by apply new_listing_good. }
  intros _. eapply hoare_bind; [apply (hoare_good _ _ _ (fun _ => True)); by eapply good_true, gets_some|]. intros at_.
  eapply hoare_bind; [apply (hoare_good _ _ _ (fun _ => True)); repeat gstep|]. intros stale.
  eapply hoare_bind; [apply (hoare_good _ _ _ (fun _ => True)); destruct stale; [apply clear_prepared_good|by gstep]|]. intros [].
  intros w Hw _. simpl. split; [done|]. destruct (fh0_listings (w_fs w) !! node) as [l|] eqn:El; simpl.
  - split; [|intros; eexists; exact El]. apply page_batch_ok. by apply (fk_listing _ _ _ _ (ok_fh0 _ _ _ _ _ (wk_fs _ _ _ _ _ _ Hw)) node).
  - split; [apply page_batch_nil|]. by intros [].
Qed.

(** ** Records *)

Record page_ok (pg : Page) : Prop := {
  gk_dir : in_export root (pg_dir pg);
  gk_parent : in_export root (pg_parent pg);
  gk_listing : forall fd, pg_listing pg = Some fd -> fd_ok fd;
}.

Lemma record_path_ok pg idx e : page_ok pg -> entry_at_ok (idx, e) -> in_export root (record_path pg idx e).
Proof.
  intros [] (? & _ & Hn). unfold record_path. case_match; [done|]. case_match; [done|]. simpl in *. bool_hyps.
  apply below_in, in_export_join; [done|]. apply Hn. lia.
Qed.

Lemma stat_listed_good lo l idx e pm :
  (forall fd, l = Some fd -> fd_ok fd) -> entry_at_ok (idx, e) -> good lo (stat_listed l idx (e_name e) pm) (fun _ => True).
Proof.
  intros Hl (? & _ & Hn). unfold stat_listed. simpl in *. gstep; [gstep; auto; gstep|]. gstep; [by eapply good_true, good_ok_or_eq|].
  bool_hyps. destruct Hn as [Hn _]; [lia|]. gstep. apply cstring_Some in H1 as [-> _].
  eapply good_bind; [apply good_ok_or; exact Hl|]. intros. gstep.
Qed.
Hint Resolve stat_listed_good : gooddb.

Definition record_ok (o : option (list Z)) : Prop := forall l, o = Some l -> bytes_ok l.

Lemma keep_attr_good lo id g : good lo (modify (keep_guest_attr id g)) (fun _ => True).
Proof. apply good_modify. intros. by apply keep_guest_attr_keeps. Qed.
Hint Resolve keep_attr_good : gooddb.

Lemma plus_record_good lo pg out idx e :
  page_ok pg -> entry_at_ok (idx, e) -> bytes_ok out -> good lo (plus_record pg out idx e) record_ok.
Proof.
  intros Hpg He Ho. pose proof (record_path_ok _ _ _ Hpg He) as Hp. pose proof He as (_ & Hb & _). pose proof (gk_listing _ Hpg).
  unfold plus_record. cbv zeta. gstep. gstep.
  - eapply good_bind; [by apply socket_node_good|]. intros id _. gstep. gstep. intros l [= <-].
    apply dirent_record_ok; [bok|done].
  - gstep. gany; [repeat gstep|]. intros [m|err] _; [|by gstep].
    gany; [repeat gstep|]. intros id _. apply good_seq; [repeat gstep|]. apply good_seq; [repeat gstep|]. gstep. gstep.
    intros l [= <-]. apply dirent_record_ok; [bok|done].
Qed.

Lemma plain_record_good lo pg out idx e :
  page_ok pg -> entry_at_ok (idx, e) -> bytes_ok out -> good lo (plain_record pg out idx e) record_ok.
Proof.
  intros Hpg He Ho. pose proof He as (_ & Hb & _). pose proof (gk_listing _ Hpg). unfold plain_record. cbv zeta.
  gany; [repeat gstep|]. intros it _. gstep. destruct it as [[? ?]|]; [|done]. intros l [= <-]. by apply dirent_record_ok.
Qed.
Hint Resolve plus_record_good plain_record_good : gooddb.

Lemma page_records_good lo pg batch out :
  page_ok pg -> batch_ok batch -> bytes_ok out -> good lo (page_records pg batch out) (fun r => bytes_ok r.1).
Proof.
  intros Hpg Hb. revert out. induction Hb as [|[idx e] batch He _ IH]; intros out Ho; cbn [page_records]; [by gstep|].
  gstep; [by gstep|]. eapply good_bind with (P := record_ok); [repeat gstep|]. intros r Hr. apply IH. destruct r; simpl; auto.
Qed.

Lemma request_subdirs_good lo dir fd batch : fd_ok fd -> batch_ok batch -> good lo (request_subdirs dir fd batch) (fun _ => True).
Proof.
  intros Hfd. induction 1 as [|[idx e] batch He _ IH]; cbn [request_subdirs]; [by gstep|]. apply good_seq; [|done].
  destruct ((idx <=? 1) || _) eqn:Ei; [by gstep|]. apply orb_false_iff in Ei as [Ei _]. bool_hyps.
  destruct (cstring (e_name e)) as [n|] eqn:En; [|by gstep]. apply cstring_Some in En as [-> _].
  destruct He as (_ & _ & [Hn _]); [simpl; lia|]. by apply good_query; [cok|].
Qed.
Hint Resolve request_subdirs_good : gooddb.

Definition fd_some (o : option Fd) : Prop := forall fd, o = Some fd -> fd_ok fd.

Lemma dir_handle_good lo fh : good lo (dir_handle fh) (fun d => fd_ok (dh_file d) /\ listing_ok (dh_entries d)).
Proof.
  unfold dir_handle. eapply good_bind; [apply gets_some|]. intros o (s & Hs & ->). apply good_ok_or. intros d. by eapply dir_handle_at.
Qed.

Lemma page_listing_good lo fh dir plus batch : in_export root dir -> good lo (page_listing fh dir plus batch) fd_some.
Proof.
  intros. unfold page_listing. gstep; [|by gstep]. eapply good_bind with (P := fd_ok); [|intros; gstep; by intros ? [= <-]].
  gstep; [repeat gstep|]. eapply good_bind; [apply dir_handle_good|]. intros d [? ?]. gstep.
Qed.

Lemma page_readahead_good lo dir plus l batch : fd_some l -> batch_ok batch -> good lo (page_readahead dir plus l batch) (fun _ => True).
Proof.
  intros Hl Hb. unfold page_readahead. gstep. gstep; [|by gstep]. destruct l as [fd|]; [|by gstep].
  assert (fd_ok fd) by auto. gstep. gstep; [|by gstep]. apply request_subdirs_good; [done|]. by apply Forall_rev.
Qed.

(** ** The request *)

(** From the batch on: the same whatever the handle. *)
Lemma page_good lo node fh dir plus pp pm pn limit offset fh0_len batch :
  in_export root dir -> in_export root pp -> batch_ok batch ->
  hoare lo (fun s => is_Some fh0_len -> listed node s)
    (listing <- page_listing fh dir plus batch ;;
     page_readahead dir plus listing batch ;;;
     recs <- page_records (mkPage node fh dir pp pm pn listing limit plus) batch [] ;;
     let '(out, full) := recs in
     (if match fh0_len with Some len => negb full && (len <=? batch_end offset batch) | None => false end
      then modify (fun s => set_fh0_finished ({[node]} ∪ fh0_finished s) s) else ret tt) ;;;
     ret out) (fun out _ => bytes_ok out).
Proof.
  intros Hdir Hpp Hb. assert (forall s s', fh0_listings s' = fh0_listings s ->
    (is_Some fh0_len -> listed node s) -> is_Some fh0_len -> listed node s') as Hext by (unfold listed; intros ? ? ->; auto).
  eapply hoare_bind; [apply hoare_same; [by apply page_listing_good|apply page_listing_same|done]|]. intros listing.
  apply hoare_pure. intros Hl. eapply hoare_bind.
  { apply hoare_same; [by apply page_readahead_good|apply page_readahead_same|done]. }
  intros u. eapply hoare_weaken; [|intros s [_ Hs]; exact Hs]. eapply hoare_bind.
  { apply hoare_same; [apply page_records_good; [by split|done|constructor]|apply page_records_same|done]. }
  intros [out full]. apply hoare_pure. intros Ho. apply (hoare_bind _ _ _ _ (fun _ _ => True)); [|intros; by apply hoare_good, good_ret].
  destruct fh0_len as [len|]; [|by apply (hoare_good _ _ _ (fun _ => True)), good_ret].
  destruct (_ && _); [|by apply (hoare_good _ _ _ (fun _ => True)), good_ret].
  apply hoare_modify. intros s Hs Hn. destruct Hs. split; try done. destruct ok_fh0. split; try done.
  simpl. intros n. rewrite elem_of_union, elem_of_singleton. intros [->|?]; [by apply Hn|auto].
Qed.

Lemma readdir_good lo node input cap plus : good lo (readdir node input cap plus) bytes_ok.
Proof.
  unfold readdir. do 3 gstep. cbv zeta. gstep. apply good_seq.
  { gstep; [|by gstep]. eapply good_bind; [apply dir_handle_good|]. intros. by gstep. }
  eapply (good_bind _ _ _ _ _ _ _ (fun r => r = root)); [apply good_gets; apply ok_root|]. intros r ->.
  apply good_seq.
  { destruct (in_export_strip _ _ H3) as (rel & -> & Hrel). repeat gstep. }
  set (pp := if bool_decide (a2 = root) then _ else _). assert (in_export root pp) as Hpp.
  { unfold pp. case_bool_decide; [apply in_export_root|by apply in_export_parent]. }
  gany; [repeat gstep|]. intros pm _. gany; [repeat gstep|]. intros pn _.
  apply good_hoare. eapply hoare_bind with (R := fun lb s => batch_ok lb.2 /\ (is_Some lb.1 -> listed node s)).
  - destruct (a =? 0); [by apply fh0_batch_hoare|]. eapply hoare_bind; [apply hoare_good, dir_handle_good|].
    intros d w Hw [Hf Hl]. split; [done|]. split; [by apply page_batch_ok|by intros []].
  - intros [len batch]. apply hoare_pure. intros Hb. by apply page_good.
Qed.

End SafeReaddir.
