(* ===== verification/FsSafeServer.v ===== *)
(** * Every request keeps the invariant

    The dispatcher, the buffered entry and the entry on a chain, from the lemmas
    of the handlers. *)

From S2P Require Import Prelude Memory Queue FsWire FsHost FsState FsDirs FsNodes FsOps FsIo FsReaddir FsServer FsInv FsCaches FsTable FsSafe FsSafeOps FsSafeIo FsSafeReaddir.
Local Open Scope Z_scope.

#[local] Hint Resolve init_good lookup_op_good getattr_good setattr_good readlink_good symlink_good mknod_good mkdir_good
  remove_good rename_good link_good open_op_good read_op_good write_op_good readdir_good statfs_good access_good create_good
  setxattr_good getxattr_good listxattr_good removexattr_good release_good release_dir_good flush_good fsync_good
  fsync_dir_good lock_good poll_good fallocate_good lseek_good copy_file_range_good syncfs_good tmpfile_good statx_good : gooddb.

Lemma gather_loop_ok m descs pos skip want l : ram_ok m -> gather_loop m descs pos skip want = Some l -> bytes_ok l.
Proof.
  intros Hm. revert pos want l. induction descs as [|[a n] descs IH]; intros pos want l; cbn [gather_loop].
  - case_match; [done|]. intros [= <-]. constructor.
  - case_match; [intros [= <-]; constructor|]. case_match; [|apply IH].
    intros (base & _ & (data & Hd & (rest & Hr & [= <-])%bind_Some)%bind_Some)%bind_Some.
    apply bytes_ok_app. split; [by eapply read_bytes_ok|by eapply IH].
Qed.

Section SafeServer.
Context {H : Type} {HF : HostFs H} {HL : HostFsLaws H}.
Context (root : path) (wr : bool) (rk : Z * Z) (rs : list RamRegion).
Abbreviation good := (FsInv.good (H := H) root wr rk rs).

Lemma dispatch_good lo queues opcode unique node payload capacity c :
  bytes_ok payload -> good lo (dispatch queues opcode unique node payload capacity c) bytes_ok.
Proof.
  intros Hp. unfold dispatch. cbv zeta.
  repeat (lazymatch goal with |- @FsInv.good _ _ _ _ _ _ _ (if ?b then _ else _) _ => destruct b; [by repeat gstep|] end).
  gstep.
Qed.

Lemma handle_fuse_good lo queues raw_ max_out : bytes_ok raw_ -> good lo (handle_fuse queues raw_ max_out) bytes_ok.
Proof.
  intros Hr. unfold handle_fuse. cbv zeta. apply good_seq; [repeat gstep|].
  destruct (_ || _) eqn:Eb; [gstep; apply error_response_ok|]. apply orb_false_iff in Eb as [Hd Hl]. bool_hyps.
  eapply good_bind with (P := bytes_ok).
  { apply good_expect. eexists. split; [apply get_range_Some; split_and!; [done|unfold IN_HEADER_LEN in *; lia|lia|done]|].
    by apply bytes_ok_take, bytes_ok_drop. }
  intros payload Hpay. gstep; [eapply good_seq; [apply good_modify; intros; by apply forget_keeps|gstep; constructor]|].
  gstep; [eapply good_seq; [apply good_modify; intros; by apply batch_forget_keeps|gstep; constructor]|].
  gstep; [gstep; constructor|]. eapply good_bind; [by apply good_attempt, dispatch_good|]. intros r Hres.
  gstep. gstep. destruct a; [constructor|]. destruct r; [by apply success_response_ok|apply error_response_ok].
Qed.

Lemma handle_fuse_desc_good lo queues input output max_out :
  good lo (handle_fuse_desc queues input output max_out) reply_ok.
Proof.
  unfold handle_fuse_desc. eapply good_bind; [apply good_get_ram|]. intros m [Hm _].
  destruct (gather m input 0 IN_HEADER_LEN) as [hd|]; [|gstep; apply error_response_ok]. cbv zeta.
  eapply good_bind with (P := direct_ok).
  { gstep; [apply read_direct_good|]. gstep; [apply write_direct_good|by gstep]. }
  intros [r|] Hd; [gstep; by apply Hd|]. eapply good_bind; [apply good_get_ram|]. intros m' [Hm' _].
  destruct (gather m' input 0 (segs_len input)) as [req|] eqn:E; [|gstep; apply error_response_ok].
  eapply good_bind; [apply handle_fuse_good; by eapply gather_loop_ok|]. intros. by gstep.
Qed.

End SafeServer.
