(* ===== verification/FsSafeDev.v ===== *)
(** * The device keeps the invariant

    [dev_ok]: the session is well formed, the two rings are inside guest RAM, and
    the parked lock requests hold a bounded part of a ring. Every register access,
    drain and reset keeps it and none panics. *)

From S2P Require Import Prelude Memory Irq Queue Virtio FsWire FsHost FsState FsDirs FsNodes FsOps FsIo FsReaddir FsServer FsDev FsInv FsCaches FsTable FsSafe FsSafeOps FsSafeIo FsSafeReaddir FsSafeServer.
Local Open Scope Z_scope.

(** ** Programs that answer their own errors *)

Section Total.
Context {H : Type} {HF : HostFs H}.

Definition total {A} (m : M H A) : Prop := forall w, match m w with (Err _, _) => False | _ => True end.

Lemma total_bind {A B} (m : M H A) (k : A -> M H B) : total m -> (forall a, total (k a)) -> total (bind m k).
Proof. intros Hm Hk w. specialize (Hm w). unfold bind. destruct (m w) as [[a|e|] w1]; [apply Hk|done|done]. Qed.
Lemma total_ret {A} (a : A) : total (ret a).
Proof. by intros w. Qed.
Lemma total_attempt {A} (m : M H A) : total (attempt m).
Proof. intros w. unfold attempt. by destruct (m w) as [[a|e|] w1]. Qed.
Lemma total_call {A : Set} (e : HostE A) : total (call e).
Proof. intros w. unfold call. by destruct (sys A e (w_host w)). Qed.
Lemma total_retried {A : Set} (e : HostE A) : total (retried e).
Proof.
  intros w. assert (forall n, total (retry_loop n e)) as Hl; [|exact (Hl (interrupts (w_host w)) w)].
  induction n as [|n IH]; cbn [retry_loop]; (apply total_bind; [apply total_call|]); intros; repeat case_match; first [apply IH|apply total_ret].
Qed.
Lemma total_query {A : Set} (e : HostE A) d : total (query e d).
Proof. apply total_bind; [apply total_call|]. intros. apply total_ret. Qed.
Lemma total_gets {A} (f : Fs -> A) : total (gets f).
Proof. by intros w. Qed.
Lemma total_update {A} (f : Fs -> A * Fs) : total (update f).
Proof. intros w. unfold update. by destruct (f (w_fs w)). Qed.
Lemma total_modify f : total (modify f).
Proof. apply total_update. Qed.
Lemma total_expect {A} (o : option A) : total (expect o).
Proof. by destruct o. Qed.
Lemma total_get_ram : total get_ram.
Proof. by intros w. Qed.
Lemma total_set_ram m : total (set_ram m).
Proof. by intros w. Qed.

Create HintDb total.
Hint Resolve total_ret total_attempt total_call total_retried total_query total_gets total_modify total_update total_expect total_get_ram
  total_set_ram : total.
Ltac total := repeat (first [solve [auto with total] | apply total_bind; intros | case_match]).

Lemma drop_prepared_total : total drop_prepared.
Proof. unfold drop_prepared. total. Qed.
Hint Resolve drop_prepared_total : total.

Lemma handle_fuse_total queues r max_out : total (handle_fuse queues r max_out).
Proof. unfold handle_fuse. cbv zeta. total. Qed.
Lemma read_direct_total u d i o mo : total (read_direct u d i o mo).
Proof. unfold read_direct. total. Qed.
Lemma write_direct_total n u d i : total (write_direct n u d i).
Proof. unfold write_direct. total. Qed.
Hint Resolve handle_fuse_total read_direct_total write_direct_total : total.

Lemma handle_fuse_desc_total queues i o mo : total (handle_fuse_desc queues i o mo).
Proof. unfold handle_fuse_desc. cbv zeta. total. Qed.

Lemma try_lock_total fd c : total (try_lock fd c).
Proof. unfold try_lock. total. Qed.
Hint Resolve try_lock_total : total.

Lemma retry_call_total fh c :
  total (h <- gets (fun s => handles s !! fh) ;;
         match h with None => ret (inr (Some EBADF)) | Some h => try_lock (h_file h) c end).
Proof. total. Qed.

Lemma remove_temporaries_total l : total (remove_temporaries l).
Proof. induction l; cbn [remove_temporaries]; total. Qed.
Hint Resolve remove_temporaries_total : total.
Lemma reset_session_total : total reset_session.
Proof. unfold reset_session. total. Qed.

(** ** Programs that use the session's root and its directory cache alone *)

Definition with_fs (s : Fs) (w : World H) : World H := mkWorld s (w_ram w) (w_host w) (w_log w).

Definition dirs_only {A} (m : M H A) : Prop := forall w s1,
  f_root s1 = f_root (w_fs w) -> dirs s1 = dirs (w_fs w) ->
  let '(r, w') := m w in
  w_fs w' = set_dirs (dirs (w_fs w')) (w_fs w) /\
  m (with_fs s1 w) = (r, with_fs (set_dirs (dirs (w_fs w')) s1) w').

Lemma set_dirs_same s : set_dirs (dirs s) s = s.
Proof. by destruct s. Qed.

Lemma only_bind {A B} (m : M H A) (k : A -> M H B) : dirs_only m -> (forall a, dirs_only (k a)) -> dirs_only (bind m k).
Proof.
  intros Hm Hk w s1 Hr Hd. specialize (Hm w s1 Hr Hd). unfold bind. destruct (m w) as [[a|e|] w1].
  - destruct Hm as [E1 ->]. specialize (Hk a w1 (set_dirs (dirs (w_fs w1)) s1)).
    destruct (k a w1) as [r w2]. destruct Hk as [E2 Ek]; [rewrite E1; simpl; exact Hr|done|].
    split; [rewrite E2, E1; done|exact Ek].
  - by destruct Hm as [E1 ->].
  - by destruct Hm as [E1 ->].
Qed.

Lemma only_gets {A} (f : Fs -> A) :
  (forall s s1, f_root s1 = f_root s -> dirs s1 = dirs s -> f s1 = f s) -> dirs_only (gets f).
Proof.
  intros Hf w s1 Hr Hd. unfold gets. simpl. rewrite set_dirs_same. split; [done|].
  rewrite (Hf (w_fs w) s1) by done. f_equal. unfold with_fs. by rewrite <-Hd, set_dirs_same.
Qed.
Lemma only_const {A} (r : Res A) : dirs_only (fun w => (r, w)).
Proof. intros w s1 Hr Hd. rewrite set_dirs_same. split; [done|]. by rewrite <-Hd, set_dirs_same. Qed.
Lemma only_call {A : Set} (e : HostE A) : dirs_only (call e).
Proof.
  intros w s1 Hr Hd. unfold call, with_fs. simpl. destruct (sys A e (w_host w)) as [r h]. simpl. rewrite set_dirs_same.
  split; [done|]. by rewrite <-Hd, set_dirs_same.
Qed.
Lemma only_attempt {A} (m : M H A) : dirs_only m -> dirs_only (attempt m).
Proof.
  intros Hm w s1 Hr Hd. specialize (Hm w s1 Hr Hd). unfold attempt. destruct (m w) as [[a|e|] w1]; by destruct Hm as [E ->].
Qed.
Lemma only_mod_dirs f : dirs_only (mod_dirs f).
Proof. intros w s1 Hr Hd. unfold mod_dirs, modify, update, with_fs. simpl. split; [done|]. by rewrite Hd. Qed.
Lemma only_ret {A} (a : A) : dirs_only (ret a).
Proof. apply only_const. Qed.
Lemma only_fail {A} e : dirs_only (A := A) (fail e).
Proof. apply only_const. Qed.
Lemma only_ok_or {A} (o : option A) e : dirs_only (ok_or o e).
Proof. destruct o; apply only_const. Qed.
Lemma only_expect {A} (o : option A) : dirs_only (expect o).
Proof. destruct o; apply only_const. Qed.
Lemma only_guard b e : dirs_only (guard b e).
Proof. destruct b; apply only_const. Qed.

Create HintDb only.
Hint Resolve only_ret only_fail only_ok_or only_expect only_guard only_call only_mod_dirs only_attempt : only.
Hint Extern 3 (dirs_only (gets _)) => apply only_gets; intros ? ? ? ?; congruence : only.
Ltac rooted := repeat (first [solve [auto with only] | apply only_bind; intros | apply only_attempt | case_bool_decide | case_match]).

Lemma only_syscall {A : Set} (e : HostE A) : dirs_only (syscall e).
Proof. unfold syscall. rooted. Qed.
Hint Resolve only_syscall : only.
Lemma only_open_dir fd n : dirs_only (open_dir_nofollow_at fd n).
Proof. unfold open_dir_nofollow_at. rooted. Qed.
Hint Resolve only_open_dir : only.
Lemma only_open_chain cur fd names : dirs_only (open_chain cur fd names).
Proof. revert cur. induction names; intros cur; cbn [open_chain]; rooted. Qed.
Hint Resolve only_open_chain : only.
Lemma only_read_link fuel fd n size : dirs_only (read_link_loop fuel fd n size).
Proof. revert size. induction fuel; intros size; cbn [read_link_loop]; rooted. apply only_const. Qed.
Hint Resolve only_read_link : only.
Lemma only_walk_from ex fd pending resolved : dirs_only (walk_from ex fd pending resolved).
Proof.
  revert pending resolved. induction ex as [|ex IHex]; induction pending as [|n pending IH]; intros resolved;
    cbn [walk_from]; unfold open_resolved, read_link_at; rooted.
Qed.
Hint Resolve only_walk_from : only.
Lemma only_dir_fd rel : dirs_only (dir_fd rel).
Proof. unfold dir_fd, walk, open_resolved. rooted. Qed.
Hint Resolve only_dir_fd : only.

Lemma only_remove_temporary h : dirs_only (remove_temporary h).
Proof. unfold remove_temporary, relative_of_path, at_relative, unlink_at. rooted. Qed.
Lemma only_remove_temporaries l : dirs_only (remove_temporaries l).
Proof. induction l; cbn [remove_temporaries]; [rooted|]. apply only_bind; [apply only_attempt, only_remove_temporary|auto]. Qed.

End Total.

(** ** The invariant of the device *)

Definition waiter_ok (w : LockWaiter) : Prop := (w_queue w < 2)%nat /\ 0 <= w_descriptors w.

(** Rings are judged against the regions of RAM, which no one changes. *)
Definition ring_ok (rs : list RamRegion) (q : Queue) : Prop := queue_ok (mkGuestRam rs ∅) q.

Record base_ok {H L : Type} (root : path) (wr : bool) (rk : Z * Z) (rs : list RamRegion) (d : Dev H L) : Prop := {
  bk_world : world_ok root wr rk rs 0 (d_world d);
  bk_two : length (d_queues d) = 2%nat;
  bk_rings : Forall (ring_ok rs) (d_queues d);
}.

(** What the waiters hold of each ring. *)
Definition held_ok (ws : list LockWaiter) : Prop :=
  Forall waiter_ok ws /\ forall qi, waiters_held qi ws <= lock_cap QUEUE_NUM_MAX.

Record dev_ok {H L : Type} (root : path) (wr : bool) (rk : Z * Z) (rs : list RamRegion) (d : Dev H L) : Prop := {
  vk_base : base_ok root wr rk rs d;
  vk_held : held_ok (d_waiters d);
  vk_notified : 0 <= d_notified d < 4;
}.

Lemma waiters_held_app qi l l' : waiters_held qi (l ++ l') = waiters_held qi l + waiters_held qi l'.
Proof. induction l as [|w l IH]; simpl; [done|]. rewrite IH. destruct (_ =? _)%nat; lia. Qed.

Lemma waiters_held_one qi w : waiters_held qi [w] = if (w_queue w =? qi)%nat then w_descriptors w else 0.
Proof. simpl. destruct (_ =? _)%nat; lia. Qed.

Lemma waiters_held_nonneg qi l : Forall waiter_ok l -> 0 <= waiters_held qi l.
Proof. induction 1 as [|w l [_ ?] _ IH]; simpl; [done|]. destruct (_ =? _)%nat; lia. Qed.

Lemma notified_range n k : 0 <= n < 4 -> 0 <= k < 2 -> 0 <= Z.lor n (Z.shiftl 1 k) < 4.
Proof.
  intros Hn Hk. assert (n = 0 \/ n = 1 \/ n = 2 \/ n = 3) as Hc by lia. assert (k = 0 \/ k = 1) as Hc' by lia.
  destruct_or? Hc; destruct_or? Hc'; subst; by vm_compute.
Qed.

Section DevSafe.
Context {H L : Type} {HF : HostFs H} {HL : HostFsLaws H} {IL : IrqLine L}.
Context (root : path) (wr : bool) (rk : Z * Z) (rs : list RamRegion).
Abbreviation good := (FsInv.good (H := H) root wr rk rs).
Abbreviation base := (base_ok (H := H) (L := L) root wr rk rs).

(** What is known of the notifications and the waiters. *)
Definition Assertion : Type := Z -> list LockWaiter -> Prop.

Definition dgood {A} (I : Assertion) (p : DM H L A) (J : A -> Assertion) : Prop := forall d,
  base d -> I (d_notified d) (d_waiters d) ->
  match p d with
  | (Some a, d') => base d' /\ J a (d_notified d') (d_waiters d')
  | (None, _) => False
  end.

Lemma dg_bind {A B} I (p : DM H L A) (k : A -> DM H L B) J K :
  dgood I p J -> (forall a, dgood (J a) (k a) K) -> dgood I (dbind p k) K.
Proof.
  intros Hp Hk d Hd Hi. specialize (Hp d Hd Hi). unfold dbind. destruct (p d) as [[a|] d']; [|done].
  destruct Hp as [Hd' Ha]. by apply Hk.
Qed.
Lemma dg_ret {A} I (a : A) (J : A -> Assertion) : (forall n w, I n w -> J a n w) -> dgood I (dret a) J.
Proof. intros HJ d Hd Hi. split; [done|]. by apply HJ. Qed.
Lemma dg_get {A} I (f : Dev H L -> A) (J : A -> Assertion) :
  (forall d, base d -> I (d_notified d) (d_waiters d) -> J (f d) (d_notified d) (d_waiters d)) -> dgood I (dget f) J.
Proof. intros HJ d Hd Hi. split; [done|]. by apply HJ. Qed.
Lemma dg_get_any {A} I (f : Dev H L -> A) : dgood I (dget f) (fun _ => I).
Proof. by apply dg_get. Qed.
Lemma dg_set I f (J : Assertion) :
  (forall d, base d -> I (d_notified d) (d_waiters d) -> base (f d) /\ J (d_notified (f d)) (d_waiters (f d))) ->
  dgood I (dset f) (fun _ => J).
Proof. intros HJ d Hd Hi. by apply HJ. Qed.
(** Registers and the line: neither the session, the rings, the notifications nor the waiters. *)
Lemma dg_regs I f :
  (forall d, d_world (f d) = d_world d /\ d_queues (f d) = d_queues d /\ d_notified (f d) = d_notified d /\ d_waiters (f d) = d_waiters d) ->
  dgood I (dset f) (fun _ => I).
Proof.
  intros Hf. apply dg_set. intros d [] Hi. destruct (Hf d) as (Ew & Eq & -> & ->). split; [|done]. split; by rewrite ?Ew, ?Eq.
Qed.
Lemma dg_pure {A} (P : Prop) (I : Assertion) (p : DM H L A) J : (P -> dgood I p J) -> dgood (fun n w => P /\ I n w) p J.
Proof. intros Hp d Hd [HP Hi]. by apply Hp. Qed.
Lemma dg_weaken {A} (I I' : Assertion) (p : DM H L A) J : dgood I p J -> (forall n w, I' n w -> I n w) -> dgood I' p J.
Proof. intros Hp HI d Hd Hi. by apply Hp, HI. Qed.
Lemma dg_post {A} (I : Assertion) (p : DM H L A) (J J' : A -> Assertion) :
  dgood I p J -> (forall a n w, J a n w -> J' a n w) -> dgood I p J'.
Proof.
  intros Hp HJ d Hd Hi. specialize (Hp d Hd Hi). destruct (p d) as [[a|] d']; [|done]. destruct Hp. auto.
Qed.

Lemma dg_session {A} I (p : M H A) P :
  good 0 p P -> total p -> dgood I (session p) (fun a n w => P a /\ I n w).
Proof.
  intros Hp Ht d [Hw Ht2 Hq] Hi. unfold session. specialize (Hp _ Hw). specialize (Ht (d_world d)). unfold good_at in Hp.
  destruct (p (d_world d)) as [[a|e|] w]; [|done|done]. destruct Hp as [Hw' Ha]. split; [by split|done].
Qed.

Lemma dg_queue I qi : (qi < 2)%nat -> dgood I (dev_queue qi) (fun q n w => ring_ok rs q /\ I n w).
Proof.
  intros Hlt d Hd Hi. unfold dev_queue, dbind, dget, dexpect. pose proof Hd as [_ Hl Hq].
  destruct (lookup_lt_is_Some_2 (d_queues d) qi) as [q Hqi]; [lia|]. rewrite Hqi. split; [done|]. split; [|done].
  by eapply Forall_lookup_1 in Hqi.
Qed.

Lemma dg_ram I : dgood I (dget dev_ram) (fun m n w => (ram_ok m /\ mapped m = rs) /\ I n w).
Proof. apply dg_get. intros d [[] _ _] Hi. done. Qed.

Lemma base_put_ram d m : base d -> ram_evolves (dev_ram d) m -> base (put_ram m d).
Proof.
  intros [[] ? ?] [Hok Hm]. split; [|done..]. split; try done; simpl; [by apply Hok|]. unfold dev_ram in Hm. congruence.
Qed.

Lemma write_reply_evolves m output response : bytes_ok response -> ram_evolves m (write_reply m output response).1.
Proof.
  intros Hr. unfold write_reply. case_match; [done|]. pose proof (reply_scatter_evolves m output response Hr) as Hs.
  by destruct (scatter m output response) as [[m' ?] ?].
Qed.

Lemma dg_reply I output response : bytes_ok response -> dgood I (reply_in output response) (fun _ => I).
Proof.
  intros Hr d Hd Hi. unfold reply_in, dbind, dget. pose proof (write_reply_evolves (dev_ram d) output response Hr) as He.
  destruct (write_reply _ _ _) as [m used]. unfold dset, dret. simpl in *. split; [by apply base_put_ram|done].
Qed.

Lemma dg_complete I qi head used : (qi < 2)%nat -> dgood I (complete qi head used) (fun _ => I).
Proof.
  intros Hqi. unfold complete. eapply dg_bind; [by apply dg_queue|]. intros q. apply dg_pure. intros _.
  apply dg_set. intros d Hd Hi. split; [|done]. apply base_put_ram; [done|]. apply push_used_evolves.
Qed.

Lemma take_lock_good lo : good lo take_lock_to_park (fun _ => True).
Proof. apply good_update. intros s []. by split; [split|]. Qed.

Lemma lock_cap_le m q : queue_ok m q -> lock_cap (Queue.size q) <= lock_cap QUEUE_NUM_MAX.
Proof.
  intros Hq. rewrite (size_num m q Hq). unfold lock_cap. apply Z.div_le_mono; [done|]. unfold QUEUE_NUM_MAX.
  destruct (q_num m q Hq) as [->|[? _]]; unfold QUEUE_NUM_MAX in *; lia.
Qed.

(** One more waiter within the cap of its ring. *)
Lemma held_ok_snoc ws w : held_ok ws -> waiter_ok w ->
  waiters_held (w_queue w) ws + w_descriptors w <= lock_cap QUEUE_NUM_MAX -> held_ok (ws ++ [w]).
Proof.
  intros [Hf Hh] Hw Hc. split; [apply Forall_app; split; [done|by apply Forall_singleton]|]. intros qi.
  rewrite waiters_held_app, waiters_held_one. destruct (Nat.eqb_spec (w_queue w) qi) as [<-|]; [done|]. specialize (Hh qi). lia.
Qed.

(** Chains leave the notifications alone and park within the cap. *)
Lemma handle_chain_good n0 qi head : (qi < 2)%nat ->
  dgood (fun n w => n = n0 /\ held_ok w) (handle_chain qi head) (fun _ n w => n = n0 /\ held_ok w).
Proof.
  intros Hqi. unfold handle_chain. eapply dg_bind; [by apply dg_queue|]. intros q. apply dg_pure. intros Hq.
  eapply dg_bind; [apply dg_ram|]. intros m. apply dg_pure. intros _.
  destruct (request_chain q m head) as [[input output]|]; [|by apply dg_ret].
  eapply dg_bind; [apply dg_get_any|]. intros queues.
  eapply dg_bind; [apply dg_session; [apply handle_fuse_desc_good|apply handle_fuse_desc_total]|]. intros r. apply dg_pure.
  intros Hr. destruct r as [response|nn]; [|by apply dg_ret].
  eapply dg_bind; [apply dg_session; [apply take_lock_good|apply total_update]|]. intros p. apply dg_pure. intros _.
  destruct p as [pending|]; [|eapply dg_bind; [by apply dg_reply|intros; by apply dg_ret]].
  eapply dg_bind; [apply (dg_get _ _ (fun held n w => held = waiters_held qi w /\ n = n0 /\ held_ok w)); done|]. intros held.
  cbv zeta. destruct (lock_cap (Queue.size q) <? _) eqn:Hc; bool_hyps.
  - eapply dg_weaken; [|intros n w [_ Hi]; exact Hi]. eapply dg_bind; [apply dg_reply, error_response_ok|]. intros. by apply dg_ret.
  - eapply dg_bind with (J := fun _ n w => n = n0 /\ held_ok w); [|intros; by apply dg_ret]. apply dg_set. intros d Hd (-> & Hn & Hh). split; [by destruct Hd|]. simpl.
    split; [done|]. apply held_ok_snoc; [done| |].
    + split; [done|]. simpl. unfold zlen. lia.
    + simpl. pose proof (lock_cap_le _ _ Hq). lia.
Qed.

Lemma complete_serve I qi head used {B} (k : DM H L B) J :
  (qi < 2)%nat -> dgood I k J -> dgood I (complete qi head used ;* k) J.
Proof. intros Hqi Hk. eapply dg_bind; [by apply dg_complete|]. done. Qed.

Lemma serve_chains_good n0 k qi lst serviced : (qi < 2)%nat -> 0 <= lst < 2 ^ 16 ->
  dgood (fun n w => n = n0 /\ held_ok w) (serve_chains k qi lst serviced) (fun r n w => 0 <= r.1 < 2 ^ 16 /\ n = n0 /\ held_ok w).
Proof.
  intros Hqi. revert lst serviced. induction k as [|k IH]; intros lst serviced Hl; cbn [serve_chains]; [by apply dg_ret|].
  eapply dg_bind; [by apply dg_queue|]. intros q. apply dg_pure. intros _. eapply dg_bind; [apply dg_ram|]. intros m. apply dg_pure.
  intros _. destruct (_ ≫= _) as [head|]; [|by apply dg_ret]. eapply dg_bind; [by apply handle_chain_good|].
  pose proof (u16_range (lst + 1)). intros [used|]; [apply complete_serve; [done|]|]; by apply IH.
Qed.

Lemma process_queue_good n0 qi budget : (qi < 2)%nat ->
  dgood (fun n w => n = n0 /\ held_ok w) (process_queue_bounded qi budget)
    (fun more n w => (QUEUE_NUM_MAX <= budget -> more = false) /\ n = n0 /\ held_ok w).
Proof.
  intros Hqi. unfold process_queue_bounded. eapply dg_bind; [by apply dg_queue|]. intros q. apply dg_pure. intros Hq.
  destruct (negb (is_ready q)); [by apply dg_ret|]. eapply dg_bind; [apply dg_ram|]. intros m. apply dg_pure. intros _.
  destruct (pending q m) as [pend|] eqn:Ep; [|by apply dg_ret]. cbv zeta.
  eapply dg_bind; [apply serve_chains_good; [done|apply Hq]|]. intros [lst serviced]. apply dg_pure. simpl. intros Hl.
  eapply dg_bind; [by apply dg_queue|]. intros q'. apply dg_pure. intros Hq'.
  eapply dg_bind with (J := fun _ n w => n = n0 /\ held_ok w).
  { apply dg_set. intros d [] Hi. split; [|done]. split; [done|simpl; by rewrite length_insert|].
    apply Forall_insert; [done|]. by apply set_last_avail_ok. }
  intros _. eapply dg_bind with (J := fun _ n w => n = n0 /\ held_ok w).
  { destruct serviced; [by apply dg_regs|by apply dg_ret]. }
  intros _. apply dg_ret. intros n w Hi. split; [|done]. intros Hb. unfold pending in Ep. apply bind_Some in Ep as (idx & _ & Ep).
  destruct (_ <=? _) eqn:Hle in Ep; [|done]. simplify_eq. bool_hyps. rewrite (size_num _ _ Hq) in Hle.
  destruct (q_num _ _ Hq) as [Hz|[? _]]; apply Z.ltb_ge; unfold QUEUE_NUM_MAX in *; lia.
Qed.

(** What a retry puts back is no more than what was taken. *)
Definition retry_left (n0 : Z) (l : list LockWaiter) : Assertion := fun n w =>
  n = n0 /\ Forall waiter_ok (w ++ l) /\ forall qi, waiters_held qi (w ++ l) <= lock_cap QUEUE_NUM_MAX.

Lemma retry_left_drop n0 x l n w : retry_left n0 (x :: l) n w -> retry_left n0 l n w.
Proof.
  intros (-> & Hf & Hh). apply Forall_app in Hf as [Hw Hl]. apply Forall_cons in Hl as [Hx Hl]. split; [done|].
  split; [by apply Forall_app|]. intros qi. specialize (Hh qi). rewrite waiters_held_app in *. cbn [waiters_held foldr] in Hh.
  fold (waiters_held qi l) in Hh. destruct Hx. destruct (_ =? _)%nat; lia.
Qed.

Lemma answer_waiter_good I x response : waiter_ok x -> bytes_ok response -> dgood I (answer_waiter x response) (fun _ => I).
Proof.
  intros [Hq _] Hr. unfold answer_waiter. eapply dg_bind; [by apply dg_reply|]. intros used. apply complete_serve; [done|].
  by apply dg_regs.
Qed.

Lemma retry_call_good fh c :
  good 0 (h <- gets (fun s => handles s !! fh) ;;
          match h with None => ret (inr (Some EBADF)) | Some h => try_lock (h_file h) c end) (fun _ => True).
Proof.
  eapply good_bind; [apply gets_some|]. intros o (s & Hs & ->). destruct (handles s !! fh) as [h|] eqn:Hh; [|by apply good_ret].
  apply try_lock_good. by apply handle_at with (1 := Hs) in Hh as [? _].
Qed.

Lemma retry_one_good n0 x l : waiter_ok x -> dgood (retry_left n0 (x :: l)) (retry_one x) (fun _ => retry_left n0 l).
Proof.
  intros Hx. unfold retry_one. eapply dg_bind; [apply dg_queue, Hx|]. intros q. apply dg_pure. intros _.
  destruct (negb (is_ready q)); [apply dg_ret; apply retry_left_drop|].
  eapply dg_bind; [apply dg_session; [apply retry_call_good|apply retry_call_total]|]. intros r. apply dg_pure. intros _.
  destruct r as [u|[errno|]].
  - eapply dg_weaken; [|apply retry_left_drop]. eapply dg_bind.
    + apply dg_session; [apply (good_modify _ _ _ _ 0); intros; by apply note_posix_lock_keeps|apply total_modify].
    + intros v. apply dg_pure. intros _. apply answer_waiter_good; [done|]. apply success_response_ok. constructor.
  - eapply dg_weaken; [|apply retry_left_drop]. apply answer_waiter_good; [done|apply error_response_ok].
  - apply dg_set. intros d [] (Hn & Hf & Hh). split; [by split|]. unfold retry_left. simpl. by rewrite <-app_assoc.
Qed.

Lemma retry_each_good n0 l : Forall waiter_ok l -> dgood (retry_left n0 l) (retry_each l) (fun _ n w => n = n0 /\ held_ok w).
Proof.
  induction 1 as [|x l Hx _ IH]; cbn [retry_each].
  - apply dg_ret. intros n w (-> & Hf & Hh). rewrite app_nil_r in *. done.
  - eapply dg_bind; [by apply retry_one_good|]. done.
Qed.

Lemma retry_lock_waiters_good n0 :
  dgood (fun n w => n = n0 /\ held_ok w) retry_lock_waiters (fun more n w => more = negb (bool_decide (w = [])) /\ n = n0 /\ held_ok w).
Proof.
  unfold retry_lock_waiters. eapply dg_bind; [apply (dg_get _ _ (fun ws n w => ws = w /\ n = n0 /\ held_ok w)); done|]. intros ws.
  case_bool_decide as Hws; [apply dg_ret; intros n w (<- & ? & ?); rewrite Hws; done|].
  intros d Hd (-> & Hn & Hf & Hh).
  enough (dgood (fun n w => n = n0 /\ w = d_waiters d) (dset (set_d_waiters []) ;* retry_each (d_waiters d) ;* dget has_lock_waiters)
    (fun more n w => more = negb (bool_decide (w = [])) /\ n = n0 /\ held_ok w)) as Hg by (by apply Hg).
  eapply dg_bind with (J := fun _ => retry_left n0 (d_waiters d)).
  - apply dg_set. intros d' [] [Hn' Hw']. split; [by split|]. unfold retry_left. simpl. done.
  - intros _. eapply dg_bind; [by apply retry_each_good|]. intros u. by apply dg_get.
Qed.

Lemma drain_rings_good l mask budget r0 : Forall (fun qi => (qi < 2)%nat) l ->
  dgood (fun n w => (n <> 0 -> r0 = true) /\ 0 <= n < 4 /\ held_ok w) (drain_rings l mask budget r0)
    (fun r n w => ((n <> 0 -> r = true) /\ (QUEUE_NUM_MAX <= budget -> r = r0)) /\ 0 <= n < 4 /\ held_ok w).
Proof.
  intros Hl. revert r0. induction Hl as [|qi l Hqi _ IH]; intros r0; cbn [drain_rings]; [apply dg_ret; intros n w (? & ? & ?); split; [by split|by split]|].
  destruct (Z.testbit mask (Z.of_nat qi)); [|apply IH]. intros d Hd (Hr & Hn & Hh).
  enough (dgood (fun n w => n = d_notified d /\ held_ok w)
    (let* more := process_queue_bounded qi budget in
     (if (more : bool) then dset (fun d => set_d_notified (Z.lor (d_notified d) (Z.shiftl 1 (Z.of_nat qi))) d) else dret tt) ;*
     drain_rings l mask budget (r0 || more))
    (fun r n w => ((n <> 0 -> r = true) /\ (QUEUE_NUM_MAX <= budget -> r = r0)) /\ 0 <= n < 4 /\ held_ok w)) as Hg by (by apply Hg).
  eapply dg_bind; [by apply process_queue_good|]. intros more. apply dg_pure. intros Hm.
  eapply dg_bind with (J := fun _ n w => (n <> 0 -> r0 || more = true) /\ 0 <= n < 4 /\ held_ok w).
  - destruct more.
    + apply dg_set. intros d' [] [Hn' Hh']. split; [by split|]. simpl. split; [by rewrite orb_true_r|]. split; [|done].
      rewrite Hn'. apply notified_range; [done|lia].
    + apply dg_ret. intros n w [-> Hw]. rewrite orb_false_r. done.
  - intros _. eapply dg_post; [apply IH|]. intros r n w ([Hr1 Hr2] & Hrest). split; [|done]. split; [done|].
    intros Hb. rewrite (Hr2 Hb), (Hm Hb). apply orb_false_r.
Qed.

Abbreviation whole := (dev_ok (H := H) (L := L) root wr rk rs).

(** A drain: what is left is reported, and an unbounded one leaves only waiters. *)
Definition drained (budget : Z) (r : bool) : Assertion := fun n w =>
  (r = false -> n = 0 /\ w = []) /\ (QUEUE_NUM_MAX <= budget -> n = 0).

Lemma drain_good budget :
  dgood (fun n w => 0 <= n < 4 /\ held_ok w) (drain_notified_bounded budget)
    (fun r n w => drained budget r n w /\ 0 <= n < 4 /\ held_ok w).
Proof.
  unfold drain_notified_bounded. eapply dg_bind with (J := fun _ n w => (n <> 0 -> false = true) /\ 0 <= n < 4 /\ held_ok w).
  { intros d [] [_ Hh]. unfold take_notified. simpl. by split; [split|]. }
  intros mask. eapply dg_bind; [apply drain_rings_good; by repeat constructor|]. intros r.
  intros d Hd [[Hr Hb] [Hn Hh]].
  enough (dgood (fun n w => n = d_notified d /\ held_ok w)
    (let* waiting := retry_lock_waiters in dset sync_irq ;* dret (r || waiting))
    (fun r n w => drained budget r n w /\ 0 <= n < 4 /\ held_ok w)) as Hg by (by apply Hg).
  eapply dg_bind; [apply retry_lock_waiters_good|]. intros waiting.
  eapply dg_bind; [by apply dg_regs|]. intros u.
  apply dg_ret. intros n w (-> & -> & Hw). split; [|done]. split.
  - intros [-> Hw0]%orb_false_iff. apply negb_false_iff, bool_decide_eq_true in Hw0. split; [|done].
    destruct (decide (d_notified d = 0)) as [|Hne]; [done|]. by specialize (Hr Hne).
  - intros Hbud. destruct (decide (d_notified d = 0)) as [|Hne]; [done|]. specialize (Hr Hne). specialize (Hb Hbud). congruence.
Qed.

(** ** Reset *)

Lemma remove_temporaries_good lo l : Forall (handle_ok root wr) l -> good lo (remove_temporaries l) (fun _ => True).
Proof.
  induction 1; cbn [remove_temporaries]; [by apply good_ret|].
  eapply good_bind; [by apply good_attempt, remove_temporary_good|]. done.
Qed.

(** The session a reset leaves, the directory cache apart. *)
Definition reset_fs (s : Fs) : Fs :=
  set_lock_to_park None (clear_session (set_fh0_finished ∅ (set_fh0_order [] (set_fh0_listings ∅ (set_dir_handles ∅
    (set_handles ∅ s)))))).

Lemma reset_fs_ok lo s : fs_ok root wr rk lo s -> fs_ok root wr rk 0 (reset_fs s).
Proof.
  intros [? ? ? Ht ? ? ? Hp ?]. split; simpl; try done.
  - destruct Ht. split; simpl; try done; try lia.
    + intros Hr. destruct (tk_root Hr) as (n & Hn & Hk). exists n. split; [|done]. by apply map_lookup_filter_Some.
    + intros key [Hk _]%map_lookup_filter_Some. destruct (tk_rootid _ Hk) as (n & Hn & ?). exists n.
      split; [|done]. by apply map_lookup_filter_Some.
    + intros id n [Hn _]%map_lookup_filter_Some. eauto.
    + intros id n [Hn _]%map_lookup_filter_Some. eauto.
    + intros _ id [n [_ Hid]%map_lookup_filter_Some]. simpl in Hid. subst. unfold FUSE_ROOT_ID. lia.
    + intros _ key id [Hk Hid]%map_lookup_filter_Some. simpl in Hid. subst. destruct (tk_rootid _ Hk) as (n & Hn & ?). exists n.
      split; [|done]. by apply map_lookup_filter_Some.
    + intros _ f [h Hf]. by rewrite lookup_empty in Hf.
    + intros _ _ id n Hne [_ Hid]%map_lookup_filter_Some. done.
  - split; try done.
    + apply NoDup_nil_2.
    + intros node. split; [by intros ?%elem_of_nil|]. intros [[l Hl] _]. by rewrite lookup_empty in Hl.
    + simpl. unfold FH0_LISTINGS_MAX. lia.
  - destruct Hp. split; simpl; try done; try constructor.
  - intros p [k Hk]. by rewrite lookup_empty in Hk.
Qed.

Lemma reset_session_keeps w : world_ok root wr rk rs 0 w ->
  match reset_session w with (Ok _, w') => world_ok root wr rk rs 0 w' | _ => False end.
Proof.
  intros Hw. unfold reset_session, bind at 1, update. set (hs := (map_to_list (handles (w_fs w))).*2).
  set (w0 := mkWorld (set_handles ∅ (w_fs w)) _ _ _).
  pose proof (only_remove_temporaries hs w0 (reset_fs (w_fs w)) eq_refl eq_refl) as Ho.
  assert (Forall (handle_ok root wr) hs) as Hh.
  { apply Forall_fmap, Forall_forall. intros [fh h] Hin%elem_of_map_to_list. by apply (ok_handles _ _ _ _ _ (wk_fs _ _ _ _ _ _ Hw) fh). }
  pose proof (remove_temporaries_good 0 hs Hh (with_fs (reset_fs (w_fs w)) w0)) as Hg.
  assert (world_ok root wr rk rs 0 (with_fs (reset_fs (w_fs w)) w0)) as Hw1.
  { destruct Hw. split; try done. simpl. by eapply reset_fs_ok. }
  specialize (Hg Hw1). unfold good_at in Hg. pose proof (remove_temporaries_total hs w0) as Ht.
  unfold bind at 1. destruct (remove_temporaries hs w0) as [r w1]. destruct Ho as [E1 E2]. rewrite E2 in Hg.
  destruct r as [u|e|]; [|done|done]. destruct Hg as [Hg _]. simpl in Hg.
  unfold query, call. cbv [bind modify update ret w_host w_fs w_ram w_log].
  destruct w1 as [s1 m1 h1 log1]. simpl in *. destruct (sys _ CReadaheadInvalidate h1) as [q h] eqn:Eq.
  destruct Hg as [Hf Hm Hma Hlog]. split; simpl in *; try done; [|by apply Forall_cons; split; [split|]]. by rewrite E1.
Qed.

Lemma reset_good : dgood (fun n w => 0 <= n < 4 /\ held_ok w) reset (fun _ n w => n = 0 /\ w = []).
Proof.
  unfold reset. eapply dg_bind with (J := fun _ n w => n = 0).
  { apply dg_set. intros d [] _. split; [|done]. split; [done|simpl; by rewrite length_map|]. simpl. apply Forall_map, Forall_true.
    intros q. apply queue_default_ok. }
  intros _. eapply dg_bind with (J := fun _ n w => n = 0); [|intros _; apply dg_set; intros d [] Hn; split; [by split|done]].
  intros d [Hw ? ?] Hn. unfold session. pose proof (reset_session_keeps _ Hw) as Hr.
  destruct (reset_session (d_world d)) as [[u|e|] w]; [|done|done]. by split; [split|].
Qed.

(** ** The register window *)

Definition same_work (n0 : Z) (w0 : list LockWaiter) : Assertion := fun n w => n = n0 /\ w = w0.

Lemma on_queue_good I op : op_ok op -> dgood I (on_queue (fun m q => queue_op m q op)) (fun _ => I).
Proof.
  intros Hop. apply dg_set. intros d [Hw Hl Hq] Hi. split; [|done]. split; [done|simpl; by rewrite length_alter|]. simpl.
  apply Forall_alter; [done|]. intros q Hin Hok. eapply queue_ok_mapped; [|apply queue_op_ok; [|done]].
  - simpl. symmetry. exact (wk_mapped _ _ _ _ _ _ Hw).
  - eapply queue_ok_mapped; [|exact Hok]. exact (wk_mapped _ _ _ _ _ _ Hw).
Qed.

Lemma serve_write_good offset v :
  0 <= v < 2 ^ 32 -> dgood (fun n w => 0 <= n < 4 /\ held_ok w) (serve_write offset v) (fun _ n w => 0 <= n < 4 /\ held_ok w).
Proof.
  intros Hv. unfold serve_write.
  repeat (case_match; [first [by apply dg_regs | by apply on_queue_good | idtac]|]); [..|by apply dg_ret].
  - apply dg_set. intros d [] [Hn Hh]. split; [by split|]. simpl. split; [|done]. bool_hyps. apply notified_range; [done|].
    unfold NUM_QUEUES in *. lia.
  - eapply dg_post; [apply reset_good|]. intros _ n w [-> ->]. split; [lia|]. split; [constructor|]. intros qi. by vm_compute.
  - by apply dg_regs.
Qed.

Lemma mmio_good offset is_write value :
  dgood (fun n w => 0 <= n < 4 /\ held_ok w) (mmio offset is_write value) (fun _ n w => 0 <= n < 4 /\ held_ok w).
Proof.
  unfold mmio, serve_mmio. eapply dg_bind with (J := fun _ n w => 0 <= n < 4 /\ held_ok w).
  - destruct is_write; [|apply dg_get_any]. eapply dg_bind; [apply serve_write_good, u32_range|]. intros u. by apply dg_ret.
  - intros r. eapply dg_bind; [by apply dg_regs|]. intros u. by apply dg_ret.
Qed.

(** Any device program with these bounds keeps the invariant and does not panic. *)
Lemma dgood_whole {A} (p : DM H L A) J d :
  dgood (fun n w => 0 <= n < 4 /\ held_ok w) p J -> (forall a n w, J a n w -> 0 <= n < 4 /\ held_ok w) -> whole d ->
  exists a d', p d = (Some a, d') /\ whole d' /\ J a (d_notified d') (d_waiters d').
Proof.
  intros Hp HJ [Hb Hh Hn]. specialize (Hp d Hb (conj Hn Hh)). destruct (p d) as [[a|] d']; [|done].
  destruct Hp as [Hb' Ha]. exists a, d'. split; [done|]. split; [|done]. by destruct (HJ _ _ _ Ha); split.
Qed.

Lemma mmio_whole offset is_write value d : whole d ->
  exists r d', mmio offset is_write value d = (Some r, d') /\ whole d'.
Proof.
  intros Hd. destruct (dgood_whole _ _ _ (mmio_good offset is_write value) ltac:(done) Hd) as (r & d' & ? & ? & _). eauto.
Qed.

Lemma drain_whole budget d : whole d ->
  exists r d', drain_notified_bounded budget d = (Some r, d') /\ whole d' /\ drained budget r (d_notified d') (d_waiters d').
Proof.
  intros Hd. destruct (dgood_whole _ _ _ (drain_good budget) ltac:(by intros ? ? ? (? & ? & ?)) Hd) as (r & d' & ? & ? & ? & _). eauto.
Qed.

End DevSafe.

(** ** The start *)

Section Start.
Context {H L : Type} {HF : HostFs H} {IL : IrqLine L}.

Lemma dir_cache_new_ok fd limit caching : via fd = [] -> dirs_ok (dir_cache_new fd limit caching).
Proof.
  intros Hfd. split; simpl; try done; try lia; [constructor|]. unfold held. simpl. rewrite map_size_empty. lia.
Qed.

Lemma new_session_ok root wr cache ids meta fd budget :
  via fd = [] -> 64 <= budget -> fs_ok root wr (stat_key meta) 0 (new_session root wr cache ids meta fd budget).
Proof.
  intros Hfd Hb. split; simpl; try done.
  - by apply dir_cache_new_ok.
  - split; try done; try (unfold U64_MAX, FUSE_ROOT_ID; lia).
    + intros _. eexists. by rewrite lookup_singleton_eq.
    + intros key [-> _]%lookup_singleton_Some. eexists. by rewrite lookup_singleton_eq.
    + intros id n [_ <-]%lookup_singleton_Some. apply Forall_singleton, in_export_root.
    + intros id n [_ <-]%lookup_singleton_Some. simpl. unfold MAX_NODE_ALIASES. lia.
    + intros _ id [n [<- _]%lookup_singleton_Some]. unfold FUSE_ROOT_ID. lia.
    + intros _ key id [<- <-]%lookup_singleton_Some. eexists. by rewrite lookup_singleton_eq.
    + intros _ f [h Hf]. by rewrite lookup_empty in Hf.
    + intros _ _ id n Hne [<- _]%lookup_singleton_Some. done.
  - split; try done.
    + apply NoDup_nil_2.
    + intros node. split; [by intros ?%elem_of_nil|]. intros [[l Hl] _]. by rewrite lookup_empty in Hl.
    + simpl. unfold FH0_LISTINGS_MAX. lia.
  - split; simpl; try done; try constructor. all: try rewrite map_size_empty; apply Z.div_pos; lia.
  - intros p [k Hk]. by rewrite lookup_empty in Hk.
Qed.

End Start.
