(* ===== verification/FsWorker.v ===== *)
(** * The virtio-fs device among its threads ([worker.rs], [service_fs])

    The vCPUs serve a shallow ring in their own exit and hand the rest to the
    device's worker thread, which parks on a wake signal. Each section under the
    device mutex is one step; between two steps any thread may run, the guest may
    store to RAM, and the host's file system may change. The theorems hold of
    every interleaving: the calls stay in the export, a read-only share changes
    nothing, the caches stay within their bounds, nothing panics, and work left
    in the device is always on some thread's way. *)

From S2P Require Import Prelude Memory Irq Queue Virtio FsWire FsHost FsState FsDirs FsNodes FsOps FsIo FsReaddir FsServer FsDev FsDemo FsInv FsCaches FsTable FsSafe FsSafeOps FsSafeIo FsSafeReaddir FsSafeServer FsSafeDev.
Local Open Scope Z_scope.

(** ** The wake signal *)

Record FsWakeState := mkWake { woken : bool; stopped : bool }.
Definition wake_new : FsWakeState := mkWake false false.
Definition wake (s : FsWakeState) : FsWakeState := mkWake true (stopped s).
Definition stop (s : FsWakeState) : FsWakeState := mkWake (woken s) true.

(** [park_until] returns when a flag is set, or when there is a deadline and it
    has passed: the flags it leaves, and its result. *)
Definition park_may_return (s : FsWakeState) (deadline_passed : bool) : bool := woken s || stopped s || deadline_passed.
Definition park_return (s : FsWakeState) : FsWakeState * bool := (mkWake false (stopped s), negb (stopped s)).

Definition FS_INLINE_BUDGET : Z := 8.

(** ** Threads *)

(** [run_fs_worker]: parked, with a deadline while lock requests wait; about to
    drain; about to make its last pass; gone. *)
Inductive WorkerPc := WParked (timed : bool) | WDrain | WFinal | WDone.
(** [service_fs]: in the guest; the notification is recorded; the worker is to be woken. *)
Inductive VcpuPc := VRunning | VNotified | VWake.

#[export] Instance VcpuPc_eq_dec : EqDecision VcpuPc.
Proof. solve_decision. Defined.

Section System.
Context {H L : Type} {HF : HostFs H} {IL : IrqLine L}.

Record Sys := mkSys { y_dev : Dev H L; y_wake : FsWakeState; y_worker : WorkerPc; y_vcpus : list VcpuPc }.

(** What happens next. *)
Inductive Event :=
  | EAccess (i : nat) (offset : Z) (is_write : bool) (value : Z)
  | EInline (i : nat)
  | EWake (i : nat)
  | EUnpark
  | EDrain
  | EStop
  | EStore (g : Z) (data : list Z)
  | EHost (h : H).

Definition set_host (h : H) (d : Dev H L) : Dev H L :=
  let w := d_world d in set_d_world (mkWorld (w_fs w) (w_ram w) h (w_log w)) d.

(** One step, [None] when the event cannot happen here. A panic is [None] too. *)
Definition step (e : Event) (s : Sys) : option Sys :=
  let '(mkSys d wk wp vs) := s in
  match e with
  | EAccess i offset is_write value =>
      match vs !! i, mmio offset is_write value d with
      | Some VRunning, (Some _, d) =>
          Some (mkSys d wk wp (<[i := if is_write && (offset =? Mmio.QUEUE_NOTIFY) then VNotified else VRunning]> vs))
      | _, _ => None
      end
  | EInline i =>
      match vs !! i, drain_notified_bounded FS_INLINE_BUDGET d with
      | Some VNotified, (Some remaining, d) => Some (mkSys d wk wp (<[i := if (remaining : bool) then VWake else VRunning]> vs))
      | _, _ => None
      end
  | EWake i =>
      match vs !! i with Some VWake => Some (mkSys d (wake wk) wp (<[i := VRunning]> vs)) | _ => None end
  | EUnpark =>
      match wp with
      | WParked timed =>
          if park_may_return wk timed then
            let '(wk, alive) := park_return wk in Some (mkSys d wk (if (alive : bool) then WDrain else WFinal) vs)
          else None
      | _ => None
      end
  | EDrain =>
      match wp, drain_notified d with
      | WDrain, (Some _, d) => Some (mkSys d wk (WParked (has_lock_waiters d)) vs)
      | WFinal, (Some _, d) => Some (mkSys d wk WDone vs)
      | _, _ => None
      end
  | EStop => Some (mkSys d (stop wk) wp vs)
  | EStore g data =>
      if bool_decide (Forall (fun b => 0 <= b < 256) data) then
        m ← write (dev_ram d) g data; Some (mkSys (put_ram m d) wk wp vs)
      else None
  | EHost h => Some (mkSys (set_host h d) wk wp vs)
  end.

Fixpoint run_events (l : list Event) (s : Sys) : option Sys :=
  match l with [] => Some s | e :: l => s ← step e s; run_events l s end.

(** The device as the backend starts it: connected to its line, with the guest's
    ids, its worker parked and its vCPUs in the guest. *)
Definition start (d : Dev H L) (ids : GuestIds) (line : L) (vcpus : nat) : Sys :=
  mkSys (connect_irq line (set_guest_ids ids d)) wake_new (WParked false) (replicate vcpus VRunning).

(** Work in the device: rings notified and not served, or lock requests waiting. *)
Definition outstanding (d : Dev H L) : bool := negb (d_notified d =? 0) || has_lock_waiters d.

(** A thread will come to it: a vCPU in the middle of its service, or a worker
    that has been signalled, that is past its park, or whose park has a deadline. *)
Definition attended (s : Sys) : bool :=
  existsb (fun pc => negb (bool_decide (pc = VRunning))) (y_vcpus s)
  || woken (y_wake s) || stopped (y_wake s)
  || match y_worker s with WParked timed => timed | WDrain | WFinal => true | WDone => false end.

End System.
Arguments Sys : clear implicits.
Arguments Event : clear implicits.

(** ** Every interleaving *)

Section Safe.
Context {H L : Type} {HF : HostFs H} {HL : HostFsLaws H} {IL : IrqLine L}.
Context (root : path) (wr : bool) (rk : Z * Z) (rs : list RamRegion).
Abbreviation whole := (dev_ok (H := H) (L := L) root wr rk rs).
Abbreviation dgood := (FsSafeDev.dgood (H := H) (L := L) root wr rk rs).

Definition sys_ok (s : Sys H L) : Prop :=
  whole (y_dev s) /\ (y_worker s <> WDone -> outstanding (y_dev s) = true -> attended s = true).

(** A write to another register than the doorbell leaves no more work than there was. *)
Definition work_kept (n0 : Z) (w0 : list LockWaiter) : Assertion := fun n w => (n = n0 /\ w = w0) \/ (n = 0 /\ w = []).

Lemma serve_write_work n0 w0 offset v : offset <> Mmio.QUEUE_NOTIFY -> 0 <= v < 2 ^ 32 ->
  dgood (fun n w => (0 <= n < 4 /\ held_ok w) /\ n = n0 /\ w = w0) (serve_write offset v) (fun _ => work_kept n0 w0).
Proof.
  intros Hne Hv. apply (dg_weaken root wr rk rs (fun n w => (0 <= n < 4 /\ held_ok w) /\ work_kept n0 w0 n w));
    [|intros n w [? ?]; split; [done|by left]].
  assert (forall p : DM H L unit, dgood (work_kept n0 w0) p (fun _ => work_kept n0 w0) ->
    dgood (fun n w => (0 <= n < 4 /\ held_ok w) /\ work_kept n0 w0 n w) p (fun _ => work_kept n0 w0)) as Hw.
  { intros p Hp. eapply dg_weaken; [exact Hp|]. by intros n w [_ ?]. }
  unfold serve_write.
  repeat (case_match; [first [apply Hw; by apply dg_regs | apply Hw; by apply on_queue_good | idtac]|]); [..|apply Hw; by apply dg_ret].
  - bool_hyps. done.
  - eapply dg_weaken; [|intros n w [Hi _]; exact Hi]. eapply dg_post; [apply reset_good|]. intros u n w Hr. by right.
  - apply Hw. by apply dg_regs.
Qed.

Lemma mmio_work offset is_write value d d' r :
  is_write && (offset =? Mmio.QUEUE_NOTIFY) = false -> whole d -> mmio offset is_write value d = (Some r, d') ->
  outstanding d' = true -> outstanding d = true.
Proof.
  intros Hn Hd E Ho.
  assert (dgood (fun n w => (0 <= n < 4 /\ held_ok w) /\ n = d_notified d /\ w = d_waiters d) (mmio offset is_write value)
    (fun _ => work_kept (d_notified d) (d_waiters d))) as Hg.
  { unfold mmio, serve_mmio. eapply dg_bind with (J := fun _ => work_kept (d_notified d) (d_waiters d)).
    - destruct is_write; [|apply dg_get; intros ? _ [_ ?]; by left]. simpl in Hn. bool_hyps.
      eapply dg_bind; [apply serve_write_work; [done|apply u32_range]|]. intros u. by apply dg_ret.
    - intros x. eapply dg_bind; [by apply dg_regs|]. intros u. by apply dg_ret. }
  destruct Hd as [Hb Hh Hnn]. specialize (Hg d Hb (conj (conj Hnn Hh) (conj eq_refl eq_refl))). rewrite E in Hg.
  destruct Hg as [_ [[E1 E2]|[E1 E2]]]; revert Ho; unfold outstanding, has_lock_waiters; by rewrite E1, E2.
Qed.

Definition busy (vs : list VcpuPc) : bool := existsb (fun pc => negb (bool_decide (pc = VRunning))) vs.

Lemma busy_insert i pc vs : (i < length vs)%nat -> pc <> VRunning -> busy (<[i := pc]> vs) = true.
Proof.
  intros Hi Hpc. apply existsb_exists. exists pc. split; [|by rewrite bool_decide_false].
  apply list_elem_of_In. eapply list_elem_of_lookup_2. by apply list_lookup_insert_eq.
Qed.

Lemma drain_all_whole d : whole d ->
  exists d', drain_notified d = (Some tt, d') /\ whole d' /\ d_notified d' = 0.
Proof.
  intros Hd. destruct (drain_whole root wr rk rs 0xffff d Hd) as (r & d' & E & Hd' & _ & Hn). exists d'.
  unfold drain_notified, dbind. rewrite E. split; [done|]. split; [done|]. by apply Hn.
Qed.

Lemma step_ok e s s' : step e s = Some s' -> sys_ok s -> sys_ok s'.
Proof.
  destruct s as [d wk wp vs]. intros Hs [Hd Ha]. simpl in Hd, Ha. destruct e as [i o w v|i|i| | | |g data|h]; simpl in Hs.
  - destruct (vs !! i) as [[]|] eqn:Hi; try done. destruct (mmio_whole root wr rk rs o w v d Hd) as (r & d' & E & Hd').
    rewrite E in Hs. simplify_eq. split; [done|]. simpl. intros Hw Ho. destruct (w && (o =? Mmio.QUEUE_NOTIFY)) eqn:En.
    + unfold attended. simpl. fold (busy (<[i := VNotified]> vs)). rewrite busy_insert; [done| |done]. by eapply lookup_lt_Some.
    + unfold attended. simpl. rewrite list_insert_id by done. apply Ha; [done|]. by eapply mmio_work.
  - destruct (vs !! i) as [[]|] eqn:Hi; try done. destruct (drain_whole root wr rk rs FS_INLINE_BUDGET d Hd) as (r & d' & E & Hd' & Hdr & _).
    rewrite E in Hs. simplify_eq. split; [done|]. simpl. intros Hw Ho. destruct r.
    + unfold attended. simpl. fold (busy (<[i := VWake]> vs)). rewrite busy_insert; [done| |done]. by eapply lookup_lt_Some.
    + destruct (Hdr eq_refl) as [En Ew]. unfold outstanding, has_lock_waiters in Ho. by rewrite En, Ew in Ho.
  - destruct (vs !! i) as [[]|] eqn:Hi; try done. simplify_eq. split; [done|]. intros _ _. unfold attended. simpl.
    by rewrite orb_true_r.
  - destruct wp as [timed| | |]; try done. destruct (park_may_return wk timed); [|done]. simplify_eq. split; [done|].
    intros _ _. unfold attended. simpl. destruct (negb (stopped wk)); by rewrite orb_true_r.
  - destruct (drain_all_whole d Hd) as (d' & E & Hd' & Hn). rewrite E in Hs. destruct wp as [timed| | |]; try done; simplify_eq.
    + split; [done|]. simpl. intros _ Ho. unfold outstanding in Ho. rewrite Hn in Ho. simpl in Ho. unfold attended. simpl.
      by rewrite Ho, orb_true_r.
    + by split.
  - simplify_eq. split; [done|]. simpl. intros Hw Ho. unfold attended. simpl. by rewrite orb_true_r.
  - case_bool_decide as Hb; [|done]. apply bind_Some in Hs as (m & Hm & [= <-]). split; [|done]. simpl.
    destruct Hd as [Hbase ? ?]. split; [|done..]. apply base_put_ram; [done|]. by eapply write_evolves.
  - simplify_eq. split; [|done]. simpl. destruct Hd as [[[] ? ?] ? ?]. by split; [split; [split|..]|..].
Qed.

Lemma run_events_ok l s s' : run_events l s = Some s' -> sys_ok s -> sys_ok s'.
Proof.
  revert s. induction l as [|e l IH]; intros s; simpl; [by intros [= <-]|].
  intros (s1 & Hs & Hr)%bind_Some Hok. eapply IH; [done|]. by eapply step_ok.
Qed.
End Safe.

Section Runs.
Context {H L : Type} {HF : HostFs H} {HL : HostFsLaws H} {IL : IrqLine L}.

Lemma budget_min soft : 64 <= guest_handle_budget soft.
Proof. unfold guest_handle_budget. lia. Qed.

Lemma set_guest_ids_ok root wr rk rs ids (d : Dev H L) : dev_ok root wr rk rs d -> dev_ok root wr rk rs (set_guest_ids ids d).
Proof.
  intros [[[[] ? ? ?] ? ?] ? ?]. split; [|done..]. split; [|done..]. split; [|done..]. by split.
Qed.

(** The state any run from the start of a share reaches. *)
Lemma sys_start_ok (root_ok : bool) (tag : list Z) (wr : bool) cache root meta raw_ soft m (h : H) ids (line : L) n d :
  ram_ok m -> new root_ok tag wr cache (Some root) (Some meta) (Some raw_) (guest_handle_budget soft) m h = Some d ->
  sys_ok root wr (stat_key meta) (mapped m) (start d ids line n).
Proof.
  intros Hm Hn. unfold new in Hn. case_match; [done|]. simpl in Hn. simplify_eq. split; [|done]. simpl.
  assert (forall d : Dev H L, dev_ok root wr (stat_key meta) (mapped m) d -> dev_ok root wr (stat_key meta) (mapped m) (connect_irq line d)) as Hc.
  { intros d' [[] ? ?]. by split. }
  apply Hc, set_guest_ids_ok. split; simpl; [|split; [constructor|]; intros qi; by vm_compute|lia].
  split; simpl; [|done|do 2 (constructor; [apply queue_default_ok|]); constructor].
  split; simpl; [|done|done|constructor]. apply new_session_ok; [done|apply budget_min].
Qed.
End Runs.

(** ** The share *)

(** C1. Whatever the guest sends, in any order and from any number of vCPUs, while
    the worker drains, locks are retried, RAM is rewritten and the host's file
    system changes under the share: every host call the device makes stays in
    the export. Each name it passes is one component that is neither empty nor a
    dot entry and holds no slash and no NUL, every descriptor it passes was
    reached from the export's root by such names alone, and every open refuses
    to follow a link in its last component. *)
Theorem fs_host_calls_confined {H L : Type} `{HostFsLaws H} `{IrqLine L} (root_ok : bool) (tag : list Z) (writable : bool)
    (cache : CachePolicy) (root : path) (meta : Stat) (root_raw : Z) (soft : option Z) (m : GuestRam) (h : H)
    (d : Dev H L) (ids : GuestIds) (line : L) (vcpus : nat) (events : list (Event H)) (s : Sys H L) :
  ram_ok m ->
  new root_ok tag writable cache (Some root) (Some meta) (Some root_raw) (guest_handle_budget soft) m h = Some d ->
  run_events events (start d ids line vcpus) = Some s ->
  Forall confined (w_log (d_world (y_dev s))).
Proof.
  intros Hm Hn Hr. destruct (run_events_ok _ _ _ _ _ _ _ Hr (sys_start_ok _ _ _ _ _ _ _ _ _ _ ids line vcpus _ Hm Hn)) as [Hd _].
  eapply Forall_impl; [exact (wk_log _ _ _ _ _ _ (bk_world _ _ _ _ _ (vk_base _ _ _ _ _ Hd)))|]. by intros c [? _].
Qed.

(** C4. A read-only share never changes the host's file system: whatever the guest
    does, no call creates, removes, renames or links a name, opens for writing,
    writes, truncates, allocates, or sets attributes or times. *)
Theorem fs_read_only_share {H L : Type} `{HostFsLaws H} `{IrqLine L} (root_ok : bool) (tag : list Z)
    (cache : CachePolicy) (root : path) (meta : Stat) (root_raw : Z) (soft : option Z) (m : GuestRam) (h : H)
    (d : Dev H L) (ids : GuestIds) (line : L) (vcpus : nat) (events : list (Event H)) (s : Sys H L) :
  ram_ok m ->
  new root_ok tag false cache (Some root) (Some meta) (Some root_raw) (guest_handle_budget soft) m h = Some d ->
  run_events events (start d ids line vcpus) = Some s ->
  Forall (fun c => mutating c = false) (w_log (d_world (y_dev s))).
Proof.
  intros Hm Hn Hr. destruct (run_events_ok _ _ _ _ _ _ _ Hr (sys_start_ok _ _ _ _ _ _ _ _ _ _ ids line vcpus _ Hm Hn)) as [Hd _].
  eapply Forall_impl; [exact (wk_log _ _ _ _ _ _ (bk_world _ _ _ _ _ (vk_base _ _ _ _ _ Hd)))|]. intros c [_ Hc]. by apply Hc.
Qed.

(** C11. A session cannot break the server or make it grow without bound. After any
    run: the directory descriptors are within their limit and the parked ones
    within theirs, at most 64 listings are kept for handle 0 and no node has more
    than 16 names, every node other than the root counts exactly the handles that
    name it (until an id counter saturates at 2^64-1), the parked lock requests
    hold at most a quarter of the largest ring, and whatever the guest does next,
    every register access and every drain ends without a panic. *)
Theorem fs_session_bounded {H L : Type} `{HostFsLaws H} `{IrqLine L} (root_ok : bool) (tag : list Z) (writable : bool)
    (cache : CachePolicy) (root : path) (meta : Stat) (root_raw : Z) (soft : option Z) (m : GuestRam) (h : H)
    (d : Dev H L) (ids : GuestIds) (line : L) (vcpus : nat) (events : list (Event H)) (s : Sys H L) :
  ram_ok m ->
  new root_ok tag writable cache (Some root) (Some meta) (Some root_raw) (guest_handle_budget soft) m h = Some d ->
  run_events events (start d ids line vcpus) = Some s ->
  let fs := dev_fs (y_dev s) in
  held (dirs fs) <= dc_limit (dirs fs) /\
  Z.of_nat (base.size (parked fs)) <= parked_limit fs /\
  (length (fh0_order fs) <= 64)%nat /\ (forall node, is_Some (fh0_listings fs !! node) -> node ∈ fh0_order fs) /\
  (forall id n, nodes fs !! id = Some n -> (length (n_paths n) <= 16)%nat /\
     (id <> FUSE_ROOT_ID -> next_node fs < 2 ^ 64 - 1 -> next_fh fs < 2 ^ 64 - 1 ->
      n_open_handles n = Z.of_nat (base.size (filter (fun e : Z * FileHandle => h_node e.2 = id) (handles fs))))) /\
  (forall qi, waiters_held qi (d_waiters (y_dev s)) <= 64) /\
  (forall offset is_write value, exists r d', mmio offset is_write value (y_dev s) = (Some r, d')) /\
  (forall budget, exists r d', drain_notified_bounded budget (y_dev s) = (Some r, d')).
Proof.
  intros Hm Hn Hr. destruct (run_events_ok _ _ _ _ _ _ _ Hr (sys_start_ok _ _ _ _ _ _ _ _ _ _ ids line vcpus _ Hm Hn)) as [Hd _].
  pose proof (wk_fs _ _ _ _ _ _ (bk_world _ _ _ _ _ (vk_base _ _ _ _ _ Hd))) as Hf. cbv zeta.
  change (w_fs (d_world (y_dev s))) with (dev_fs (y_dev s)) in Hf. pose proof (ok_fh0 _ _ _ _ _ Hf) as Hl.
  split_and!.
  - apply Hf.
  - apply (pk_bound _ _ _ _ (ok_parked _ _ _ _ _ Hf)).
  - apply (fk_max _ _ _ _ Hl).
  - intros node Hs. by apply (fk_order _ _ _ _ Hl).
  - intros id n Hid. split; [by apply (tk_alias _ _ _ _ _ _ _ _ (ok_tab _ _ _ _ _ Hf) id)|].
    intros Hne Hnx Hfh. by apply (tk_counts _ _ _ _ _ _ _ _ (ok_tab _ _ _ _ _ Hf) Hnx Hfh).
  - apply (vk_held _ _ _ _ _ Hd).
  - intros o w v. destruct (mmio_whole _ _ _ _ o w v _ Hd) as (r & d' & E & _). eauto.
  - intros budget. destruct (drain_whole _ _ _ _ budget _ Hd) as (r & d' & E & _ & _). eauto.
Qed.

(** C12. No request is left behind. In any interleaving, as long as the worker has not
    ended: when a ring is notified and not served, or a lock request waits, a
    vCPU is in the middle of its service or the worker is signalled, past its
    park, or parked with a deadline. Each vCPU in its service has its next step
    open, and when there is none, the worker's next one or two steps are open
    and end with every notification served. *)
Theorem fs_work_attended {H L : Type} `{HostFsLaws H} `{IrqLine L} (root_ok : bool) (tag : list Z) (writable : bool)
    (cache : CachePolicy) (root : path) (meta : Stat) (root_raw : Z) (soft : option Z) (m : GuestRam) (h : H)
    (d : Dev H L) (ids : GuestIds) (line : L) (vcpus : nat) (events : list (Event H)) (s : Sys H L) :
  ram_ok m ->
  new root_ok tag writable cache (Some root) (Some meta) (Some root_raw) (guest_handle_budget soft) m h = Some d ->
  run_events events (start d ids line vcpus) = Some s ->
  y_worker s <> WDone -> outstanding (y_dev s) = true ->
  attended s = true /\
  (forall i, y_vcpus s !! i = Some VNotified -> is_Some (step (EInline i) s)) /\
  (forall i, y_vcpus s !! i = Some VWake -> is_Some (step (EWake i) s)) /\
  (Forall (fun pc => pc = VRunning) (y_vcpus s) ->
   exists l s', l ∈ [[EDrain]; [EUnpark; EDrain]] /\ run_events l s = Some s' /\ d_notified (y_dev s') = 0).
Proof.
  intros Hm Hn Hr Hw Ho. destruct (run_events_ok _ _ _ _ _ _ _ Hr (sys_start_ok _ _ _ _ _ _ _ _ _ _ ids line vcpus _ Hm Hn)) as [Hd Ha].
  specialize (Ha Hw Ho). split; [done|]. destruct s as [dev wk wp vs]. simpl in *. split_and!.
  - intros i ->. destruct (drain_whole _ _ _ _ FS_INLINE_BUDGET _ Hd) as (r & d' & -> & _). eauto.
  - intros i ->. eauto.
  - intros Hvs. assert (existsb (fun pc => negb (bool_decide (pc = VRunning))) vs = false) as Hb.
    { apply not_true_is_false. intros (pc & Hin & Hpc)%existsb_exists. rewrite Forall_forall in Hvs.
      rewrite <-list_elem_of_In in Hin. rewrite (Hvs _ Hin), bool_decide_true in Hpc by done. done. }
    unfold attended in Ha. simpl in Ha. rewrite Hb in Ha. simpl in Ha.
    destruct (drain_all_whole _ _ _ _ _ Hd) as (d' & E & Hd' & Hnot). destruct wp as [timed| | |]; [| | |done].
    + exists [EUnpark; EDrain]. destruct (negb (stopped wk)) eqn:Est; eexists; (split; [right; by left|]); simpl;
        unfold park_may_return; rewrite Ha; simpl; rewrite Est, E; by split.
    + exists [EDrain]. eexists. split; [by left|]. simpl. rewrite E. by split.
    + exists [EDrain]. eexists. split; [by left|]. simpl. rewrite E. by split.
Qed.

(** ** A run *)

(** The driver programs ring 0 and notifies it. *)
Definition ring_events : list (Event DemoHost) :=
  [EAccess 0 Mmio.QUEUE_NUM true 8; EAccess 0 Mmio.QUEUE_DESC_LOW true 0x1000; EAccess 0 Mmio.QUEUE_DRIVER_LOW true 0x2000;
   EAccess 0 Mmio.QUEUE_DEVICE_LOW true 0x3000; EAccess 0 Mmio.QUEUE_READY true 1; EAccess 0 Mmio.QUEUE_NOTIFY true 0].

Definition demo_run (writable : bool) (request : list Z) (events : list (Event DemoHost)) : option (Sys DemoHost PlainLine) :=
  d ← demo_new writable CacheAuto (request_ram request) (mkDemo [1; 2; 3] false);
  run_events events (start d (mkGuestIds 0 0) (mkPlainLine false) 2).

Lemma demo_run_some writable request events (f : Sys DemoHost PlainLine -> bool) :
  match demo_run writable request events with Some s => f s | None => false end = true ->
  exists d s, demo_new writable CacheAuto (request_ram request) (mkDemo [1; 2; 3] false) = Some d /\
    run_events events (start d (mkGuestIds 0 0) (mkPlainLine false) 2) = Some s /\ f s = true.
Proof.
  unfold demo_run. destruct (demo_new _ _ _ _) as [d|]; simpl; [|done]. destruct (run_events _ _) as [s|] eqn:E; [|done]. eauto.
Qed.

Lemma fs_host_calls_confined_witness :
  exists s, demo_run true lookup_f (ring_events ++ [EInline 0]) = Some s /\
    (1 <? zlen (w_log (d_world (y_dev s)))) = true /\ Forall confined (w_log (d_world (y_dev s))).
Proof.
  destruct (demo_run_some true lookup_f (ring_events ++ [EInline 0]) (fun s => 1 <? zlen (w_log (d_world (y_dev s)))))
    as (d & s & Hn & Hr & Hf); [vm_compute; reflexivity|].
  exists s. split; [unfold demo_run; rewrite Hn; exact Hr|]. split; [exact Hf|].
  exact (fs_host_calls_confined _ _ _ _ _ _ _ _ _ _ _ _ _ _ _ _ (request_ram_ok lookup_f) Hn Hr).
Defined.

Lemma fs_read_only_share_witness :
  exists s, demo_run false (fuse_in Op.UNLINK 7 FUSE_ROOT_ID (F_NAME ++ [0])) (ring_events ++ [EInline 0]) = Some s /\
    Forall (fun c => mutating c = false) (w_log (d_world (y_dev s))).
Proof.
  destruct (demo_run_some false (fuse_in Op.UNLINK 7 FUSE_ROOT_ID (F_NAME ++ [0])) (ring_events ++ [EInline 0]) (fun s => true))
    as (d & s & Hn & Hr & Hf); [vm_compute; reflexivity|].
  exists s. split; [unfold demo_run; rewrite Hn; exact Hr|].
  exact (fs_read_only_share _ _ _ _ _ _ _ _ _ _ _ _ _ _ _ (request_ram_ok _) Hn Hr).
Defined.

Lemma fs_session_bounded_witness :
  exists s, demo_run true lookup_f (ring_events ++ [EInline 0]) = Some s /\ base.size (nodes (dev_fs (y_dev s))) = 2%nat /\
    exists r d', mmio Mmio.STATUS true 0 (y_dev s) = (Some r, d').
Proof.
  destruct (demo_run_some true lookup_f (ring_events ++ [EInline 0])
    (fun s => bool_decide (base.size (nodes (dev_fs (y_dev s))) = 2%nat))) as (d & s & Hn & Hr & Hf); [vm_compute; reflexivity|].
  exists s. split; [unfold demo_run; rewrite Hn; exact Hr|]. split; [by apply bool_decide_eq_true in Hf|].
  apply (fs_session_bounded _ _ _ _ _ _ _ _ _ _ _ _ _ _ _ _ (request_ram_ok lookup_f) Hn Hr).
Defined.

(** A ring notified by one vCPU, and its chains drained by the worker. *)
Lemma fs_work_attended_witness :
  exists s, demo_run true lookup_f ring_events = Some s /\ outstanding (y_dev s) = true /\ attended s = true.
Proof.
  destruct (demo_run_some true lookup_f ring_events
    (fun s => outstanding (y_dev s) && match y_worker s with WDone => false | _ => true end)) as (d & s & Hn & Hr & Hf);
    [vm_compute; reflexivity|]. apply andb_true_iff in Hf as [Ho Hw].
  exists s. split; [unfold demo_run; rewrite Hn; exact Hr|]. split; [exact Ho|].
  refine (proj1 (fs_work_attended _ _ _ _ _ _ _ _ _ _ _ _ _ _ _ _ (request_ram_ok lookup_f) Hn Hr _ Ho)).
  intros E. by rewrite E in Hw.
Defined.
