(* ===== verification/FsSpec.v ===== *)
(** * What the parts of the FUSE session promise

    The directory cache as a bounded list in order of use, and the parked
    descriptors: what reusing one requires, and where one is left behind. *)

From S2P Require Import Prelude Memory Irq Queue FsWire FsHost FsState FsDirs FsNodes FsOps FsIo FsReaddir FsServer FsDev FsDemo FsInv FsCaches FsTable FsSafe FsSafeOps FsSafeIo FsSafeReaddir FsSafeServer FsSafeDev.
Local Open Scope Z_scope.

(** ** The directory cache as a list in order of use *)

(** The paths with an open descriptor, the least recently used first. *)
Definition lru_view (d : DirCache) : list path := map fst (List.filter (lru_live (dc_open d)) (dc_lru d)).

Definition but (p : path) (l : list path) : list path := List.filter (fun q => negb (bool_decide (q = p))) l.
(** A use moves a path to the end; a new path makes room at the front. *)
Definition lru_use (p : path) (l : list path) : list path := if bool_decide (p ∈ l) then but p l ++ [p] else l.
Definition lru_admit (limit : Z) (p : path) (l : list path) : list path := drop (length l - (Z.to_nat limit - 1)) l ++ [p].

Lemma filter_map_fst (f : path -> bool) (l : list (path * Z)) :
  List.filter f (map fst l) = map fst (List.filter (fun e => f e.1) l).
Proof. induction l as [|e l IH]; simpl; [done|]. destruct (f e.1); simpl; by rewrite IH. Qed.

Lemma bfilter_ext {A} (f g : A -> bool) l : (forall x, x ∈ l -> f x = g x) -> List.filter f l = List.filter g l.
Proof.
  induction l as [|x l IH]; intros Hx; simpl; [done|]. rewrite (Hx x) by by left.
  rewrite IH; [done|]. intros. apply Hx. by right.
Qed.

Lemma bfilter_and {A} (f g : A -> bool) l : List.filter g (List.filter f l) = List.filter (fun x => f x && g x) l.
Proof. induction l as [|x l IH]; simpl; [done|]. destruct (f x); simpl; [destruct (g x)|]; by rewrite IH. Qed.

Lemma live_delete op p e : lru_live (delete p op) e = lru_live op e && negb (bool_decide (e.1 = p)).
Proof.
  unfold lru_live. destruct (decide (e.1 = p)) as [E|E].
  - rewrite (bool_decide_true (e.1 = p)), andb_false_r by done. apply bool_decide_false. by rewrite E, lookup_delete_eq.
  - rewrite (bool_decide_false (e.1 = p)), andb_true_r by done. by rewrite lookup_delete_ne.
Qed.

Lemma view_delete d p : lru_view (set_dc_open (delete p (dc_open d)) d) = but p (lru_view d).
Proof.
  unfold lru_view, but. simpl. rewrite filter_map_fst, bfilter_and. f_equal. apply bfilter_ext. intros. apply live_delete.
Qed.

(** A new stamp, younger than the whole queue. *)
Lemma view_push d p fd t : Forall (fun e => e.2 <= t) (dc_lru d) ->
  map fst (List.filter (lru_live (<[p := (fd, t + 1)]> (dc_open d))) (dc_lru d ++ [(p, t + 1)])) = but p (lru_view d) ++ [p].
Proof.
  intros Ht. rewrite List.filter_app, map_app. f_equal.
  - unfold lru_view, but. rewrite filter_map_fst, bfilter_and. f_equal. apply bfilter_ext. intros e He.
    rewrite Forall_forall in Ht. specialize (Ht _ He). unfold lru_live. destruct (decide (e.1 = p)) as [E|E].
    + rewrite (bool_decide_true (e.1 = p)), andb_false_r by done. apply bool_decide_false.
      rewrite E, lookup_insert_eq. simpl. intros [=]. lia.
    + rewrite (bool_decide_false (e.1 = p)), andb_true_r by done. by rewrite lookup_insert_ne.
  - simpl. unfold lru_live. simpl. rewrite lookup_insert_eq. by rewrite bool_decide_true.
Qed.

Lemma view_compact d : lru_view (compact_lru d) = lru_view d.
Proof.
  unfold compact_lru. case_match; [done|]. unfold lru_view. simpl. rewrite bfilter_and. f_equal. apply bfilter_ext. intros.
  apply andb_diag.
Qed.

Lemma but_absent p l : p ∉ l -> but p l = l.
Proof.
  intros Hp. induction l as [|q l IH]; simpl; [done|]. apply not_elem_of_cons in Hp as [Hne Hp].
  unfold but in *. simpl. rewrite bool_decide_false by done. simpl. by rewrite IH.
Qed.

Lemma elem_of_view d p : dirs_ok d -> p ∈ lru_view d <-> is_Some (dc_open d !! p).
Proof.
  intros Hd. unfold lru_view. rewrite list_elem_of_fmap. split.
  - intros ([q t] & -> & [_ Hl]%elem_of_bfilter). apply lru_live_true in Hl as [fd Hl]. simpl. eauto.
  - intros [[fd t] Hp]. exists (p, t). split; [done|]. apply elem_of_bfilter.
    split; [by eapply dk_lru|]. apply lru_live_true. eauto.
Qed.

Lemma NoDup_view d : dirs_ok d -> NoDup (lru_view d).
Proof.
  intros [_ _ _ _ Hs _ _]. unfold lru_view. induction Hs as [|e l Hs IH Ha]; simpl; [constructor|].
  destruct (lru_live (dc_open d) e) eqn:He; [|done]. simpl. constructor; [|done]. intros ([q t] & Eq & [Hin Hl]%elem_of_bfilter)%list_elem_of_fmap.
  rewrite Forall_forall in Ha. specialize (Ha _ Hin). simpl in *. destruct e as [p t0]. simpl in *. subst q.
  apply lru_live_true in He as [fd He]. apply lru_live_true in Hl as [fd' Hl]. simplify_eq. lia.
Qed.

Lemma length_view d : dirs_ok d -> Z.of_nat (length (lru_view d)) = held d.
Proof.
  intros Hd. unfold held. f_equal. rewrite <-size_dom, <-(size_list_to_set (C := gset path)) by by apply NoDup_view. f_equal.
  apply set_eq. intros p. rewrite elem_of_list_to_set, elem_of_view, elem_of_dom by done. done.
Qed.

Lemma view_evict d : dirs_ok d ->
  lru_view (evict_one d).2 = tail (lru_view d) /\ (evict_one d).1 = negb (bool_decide (lru_view d = [])).
Proof.
  intros Hd. unfold evict_one. destruct (scan_live (lru_live (dc_open d)) (dc_lru d)) as [q r] eqn:E.
  destruct r as [[p t]|].
  - destruct (scan_live_some _ _ _ _ E) as (Hl & pre & Eq & Hpre).
    assert (lru_view d = p :: map fst (List.filter (lru_live (dc_open d)) q)) as Ev.
    { unfold lru_view. rewrite Eq, List.filter_app. simpl. rewrite Hl.
      replace (List.filter (lru_live (dc_open d)) pre) with (@nil (path * Z)); [done|]. symmetry.
      clear -Hpre. induction Hpre as [|x pre Hx _ IH]; simpl; [done|]. by rewrite Hx. }
    pose proof (NoDup_view d Hd) as Hnd. rewrite Ev in *. split; [|done].
    change (lru_view (set_dc_open (delete p (dc_open (set_dc_lru q d))) (set_dc_lru q d)) = map fst (List.filter (lru_live (dc_open d)) q)).
    rewrite view_delete. unfold lru_view. simpl. apply NoDup_cons in Hnd as [Hnot _]. by apply but_absent.
  - destruct (scan_live_none _ _ _ E) as [-> Hall]. assert (lru_view d = []) as Ev.
    { unfold lru_view. clear -Hall. induction Hall as [|x l Hx _ IH]; simpl; [done|]. by rewrite Hx. }
    by rewrite Ev.
Qed.

Lemma view_evict_to fuel limit d : dirs_ok d -> 1 <= limit -> held d < Z.of_nat fuel ->
  lru_view (evict_to fuel limit d) = drop (length (lru_view d) - (Z.to_nat limit - 1)) (lru_view d).
Proof.
  revert d. induction fuel as [|fuel IH]; intros d Hd Hl Hf; [unfold held in Hf; lia|]. cbn [evict_to].
  pose proof (length_view d Hd) as Hlen. destruct (limit <=? held d) eqn:Hc; bool_hyps.
  - destruct (view_evict d Hd) as [Ev Ew]. pose proof (evict_one_ok d Hd) as Hok.
    destruct (lru_view d) as [|p l] eqn:E; [simpl in Hlen; lia|]. rewrite bool_decide_false in Ew by done.
    pose proof (length_view _ Hok) as Hlen'. rewrite Ev in Hlen'. destruct (evict_one d) as [went d']. simpl in *. subst went.
    rewrite IH by (done || lia). rewrite Ev.
    replace (S (length l) - (Z.to_nat limit - 1))%nat with (S (length l - (Z.to_nat limit - 1))) by lia. done.
  - replace (length (lru_view d) - (Z.to_nat limit - 1))%nat with 0%nat by lia. by rewrite drop_0.
Qed.

Lemma view_subtree p d l : Forall (fun q => beneath p q = true) l -> (forall q, q ∈ l \/ q ∉ lru_view d \/ beneath p q = false) ->
  lru_view (foldr forget_dir d l) = List.filter (fun q => negb (beneath p q)) (lru_view d).
Proof.
  intros Hl Hall. assert (lru_view (foldr forget_dir d l) = List.filter (fun q => negb (bool_decide (q ∈ l))) (lru_view d)) as ->.
  { clear Hl Hall. induction l as [|x l IH]; simpl.
    - induction (lru_view d) as [|q v IHv]; simpl; [done|]. by f_equal.
    - unfold forget_dir at 1. rewrite view_delete, IH. unfold but. rewrite bfilter_and. apply bfilter_ext. intros q _.
      rewrite <-negb_orb. f_equal. rewrite orb_comm, <-bool_decide_or. apply bool_decide_ext. rewrite elem_of_cons. done. }
  apply bfilter_ext. intros q Hq. f_equal. rewrite Forall_forall in Hl. destruct (Hall q) as [Hin|[Hin|Hin]]; [|done|].
  - rewrite bool_decide_true by done. by rewrite (Hl _ Hin).
  - rewrite Hin. apply bool_decide_false. intros Hin'. by rewrite (Hl _ Hin') in Hin.
Qed.

(** C23. The directory cache is a bounded list in order of use. Its stamps and its
    queue of appearances, with the ones left behind and the compactions, always
    stand for the list of the open paths without repetition, the least recently
    used first: a use moves a path to the end, an eviction closes the first one
    and reports whether there was one, admitting a path closes just enough of the
    front to stay within the limit and appends it, and forgetting a path or a
    subtree drops exactly those. *)
Theorem dir_cache_refines_lru (d : DirCache) (p : path) (fd : Fd) :
  dirs_ok d ->
  NoDup (lru_view d) /\ (forall q, q ∈ lru_view d <-> is_Some (dc_open d !! q)) /\
  lru_view (touch p d) = lru_use p (lru_view d) /\
  lru_view (evict_one d).2 = tail (lru_view d) /\ (evict_one d).1 = negb (bool_decide (lru_view d = [])) /\
  (dc_open d !! p = None -> lru_view (admit_dir p fd d) = lru_admit (dc_limit d) p (lru_view d)) /\
  lru_view (forget_dir p d) = but p (lru_view d) /\
  lru_view (forget_subtree p d) = List.filter (fun q => negb (beneath p q)) (lru_view d).
Proof.
  intros Hd. pose proof (elem_of_view d p Hd) as Hin. destruct (view_evict d Hd) as [Ev Ew]. split_and!.
  - by apply NoDup_view.
  - intros q. by apply elem_of_view.
  - unfold touch. rewrite view_compact. simpl. unfold lru_use. destruct (dc_open d !! p) as [[f t]|] eqn:E.
    + rewrite bool_decide_true by (rewrite Hin; eauto). apply (view_push d), Hd.
    + rewrite bool_decide_false by (rewrite Hin; by intros []). done.
  - done.
  - done.
  - intros Hp. unfold admit_dir. destruct (evict_to_ok (S (base.size (dc_open d))) (dc_limit d) d) as [Hok _]; [done|apply Hd|unfold held; lia|].
    unfold lru_admit. rewrite <-(view_evict_to (S (base.size (dc_open d))) (dc_limit d) d) by (done || apply Hd || (unfold held; lia)).
    set (d' := evict_to _ _ _) in *. etrans; [apply (view_push d'), Hok|]. f_equal. apply but_absent.
    unfold d'. rewrite view_evict_to by (done || apply Hd || (unfold held; lia)).
    intros Hx%(subseteq_drop _ _ _)%Hin. rewrite Hp in Hx. by destruct Hx.
  - apply view_delete.
  - apply view_subtree.
    + apply Forall_forall. intros q. rewrite list_elem_of_In. by intros [_ ?]%filter_In.
    + intros q. destruct (beneath p q) eqn:Eb; [|by right; right]. destruct (decide (q ∈ lru_view d)) as [Hq|]; [left|by right; left].
      apply elem_of_view in Hq as [e Hq]; [|done]. rewrite list_elem_of_In. apply filter_In. split; [|done].
      rewrite <-list_elem_of_In. apply list_elem_of_fmap. exists (q, e). split; [done|]. by apply elem_of_map_to_list.
Qed.

(** Two directories, the older one used again, in a cache of two. *)
Definition demo_dirs : DirCache :=
  touch [D_NAME] (admit_dir [F_NAME] (mkFd 8 [F_NAME]) (admit_dir [D_NAME] (mkFd 7 [D_NAME]) (dir_cache_new (mkFd 3 []) 2 true))).

Lemma name_fd_ok r n : proper n -> fd_ok (mkFd r [n]).
Proof. intros. by apply Forall_singleton. Qed.

Lemma demo_dirs_ok : dirs_ok demo_dirs.
Proof.
  assert (forall n, n = D_NAME \/ n = F_NAME -> proper n) as Hn.
  { intros n [-> | ->]; split_and!; try done; by apply (bool_decide_unpack (_ ∉ _)). }
  apply touch_ok, admit_dir_ok; [apply admit_dir_ok; [|apply name_fd_ok; auto]|apply name_fd_ok; auto].
  by apply dir_cache_new_ok.
Qed.

Lemma dir_cache_refines_lru_witness :
  lru_view demo_dirs = [[F_NAME]; [D_NAME]] /\ lru_view (admit_dir [F_NAME; D_NAME] (mkFd 9 []) demo_dirs) = [[D_NAME]; [F_NAME; D_NAME]].
Proof.
  split; [vm_compute; reflexivity|].
  destruct (dir_cache_refines_lru demo_dirs [F_NAME; D_NAME] (mkFd 9 []) demo_dirs_ok) as (_ & _ & _ & _ & _ & Ha & _).
  rewrite Ha; vm_compute; reflexivity.
Defined.

(** ** Reusing a parked descriptor *)

Lemma stat_at_ok {H} `{HostFs H} fd n (w : World H) m w' :
  stat_at fd n w = (Ok m, w') ->
  sys _ (CFstatAt fd n) (w_host w) = (inl m, w_host w') /\ head (w_log w') = Some (mkCall (CFstatAt fd n)) /\ w_fs w' = w_fs w.
Proof.
  unfold stat_at, syscall, bind, call. destruct (sys _ (CFstatAt fd n) (w_host w)) as [[s|e] h] eqn:E; intros Hx;
    [|done]. injection Hx as <- <-. done.
Qed.

Lemma entry_at_same {H} `{HostFs H} node : same (H := H) (entry_at node).
Proof.
  unfold entry_at, relative_of. apply same_bind; [apply same_bind; [apply node_path_same|intros; apply relative_of_path_same]|].
  intros. apply at_relative_same.
Qed.

(** The last thing asked of the host was the state of a name, and it was [m]. *)
Definition last_stat {H} `{HostFs H} (w : World H) (m : Stat) : Prop :=
  exists d n h, sys _ (CFstatAt d n) h = (inl m, w_host w) /\ head (w_log w) = Some (mkCall (CFstatAt d n)).

(** A descriptor parked by a RELEASE is handed to a later OPEN only when it is the
    same file opened the same way: the access mode and flags are those it was
    parked under, and the last thing asked of the host was the state of the name
    the node leads to, which has the same device and inode, mode, owner and change
    time it was parked with. It is handed out once. *)
Theorem parked_reuse_checked {H} `{HostFs H} (node flags : Z) (w : World H) (fd : Fd) (attrs : HandleAttrs) (w' : World H) :
  take_parked node flags w = (Ok (Some (fd, attrs)), w') ->
  exists p m,
    parked (w_fs w) !! node = Some p /\ pk_flags p = parked_flag_key flags /\ fd = pk_file p /\ attrs = pk_attrs p /\
    last_stat w' m /\ attrs_of m = attrs /\ parked (w_fs w') !! node = None.
Proof.
  unfold take_parked. intros (o & w0 & [= <- <-] & E)%bind_ok. cbv beta in E.
  destruct (bool_decide (pk_flags <$> parked (w_fs w) !! node = Some (parked_flag_key flags))) eqn:Hf; simpl in E; [|done].
  apply bool_decide_eq_true in Hf. apply bind_ok in E as (r & w1 & Ea & E).
  destruct r as [m|err]; [|by apply bind_ok in E as (? & ? & _ & [=])].
  apply attempt_ok, bind_ok in Ea as ([d n] & w2 & Een & Est). pose proof (entry_at_same node w) as [_ Hpk]. rewrite Een in Hpk.
  apply stat_at_ok in Est as (Hsys & Hlog & Efs). apply bind_ok in E as (q & w3 & [= <- <-] & E). rewrite Efs in E.
  simpl in Hpk. rewrite Hpk in E. destruct (parked (w_fs w) !! node) as [p|] eqn:Ep; [|done].
  apply bind_ok in E as (u & w4 & [= <- <-] & E). unfold ret in E. case_bool_decide as Hat; [|done]. simplify_eq. simpl in Hf. simplify_eq.
  exists p, m. split_and!; try done; [by exists d, n, (w_host w2)|]. simpl. apply lookup_delete_eq.
Qed.

(** ** A session served request by request *)

Fixpoint requests (l : list (list Z)) : M DemoHost (list (list Z)) :=
  match l with
  | [] => ret []
  | r :: l => x <- handle_fuse [] r 4096 ;; xs <- requests l ;; ret (x :: xs)
  end.

Lemma parked_reuse_checked_witness :
  exists fd attrs w', take_parked 2 0 (requests [lookup_f; open_f 0; release_fh 1] demo_world).2 = (Ok (Some (fd, attrs)), w') /\
    parked (w_fs w') !! 2 = None.
Proof.
  destruct (take_parked 2 0 (requests [lookup_f; open_f 0; release_fh 1] demo_world).2) as [[[[fd attrs]|]|e|] w'] eqn:E.
  - exists fd, attrs, w'. split; [done|]. by destruct (parked_reuse_checked _ _ _ _ _ _ E) as (p & m & _ & _ & _ & _ & _ & _ & Hn).
  - exfalso. apply (f_equal (fun r : Res (option (Fd * HandleAttrs)) * World DemoHost =>
      match r.1 with Ok (Some _) => true | _ => false end)) in E. vm_compute in E. discriminate E.
  - exfalso. apply (f_equal (fun r : Res (option (Fd * HandleAttrs)) * World DemoHost =>
      match r.1 with Ok (Some _) => true | _ => false end)) in E. vm_compute in E. discriminate E.
  - exfalso. apply (f_equal (fun r : Res (option (Fd * HandleAttrs)) * World DemoHost =>
      match r.1 with Ok (Some _) => true | _ => false end)) in E. vm_compute in E. discriminate E.
Defined.

Lemma remove_node_gone node k s :
  nodes (remove_node node k s) !! node = None /\ parked (remove_node node k s) = parked s.
Proof. unfold remove_node. cbv zeta. case_bool_decide; cbn; by rewrite lookup_delete_eq. Qed.

Lemma drop_fh0_nodes node s : nodes (drop_fh0_listing node s) = nodes s /\ parked (drop_fh0_listing node s) = parked s.
Proof. unfold drop_fh0_listing. by case_bool_decide. Qed.

(** A descriptor parked under a node that is gone. *)
Definition stranded (node : Z) (s : Fs) : Prop := nodes s !! node = None /\ is_Some (parked s !! node).

(** The last RELEASE of a forgotten file removes its node but leaves a descriptor
    parked under it, where a FORGET that removes a node removes both: the parked one
    stays open on the host under a node that no OPEN can name again. *)
Theorem release_leaves_parked (s : Fs) (node : Z) (n : Node) (p : ParkedFd) :
  nodes s !! node = Some n -> n_lookups n = 0 -> n_open_handles n = 1 -> node <> FUSE_ROOT_ID -> parked s !! node = Some p ->
  stranded node (release_node node s) /\
  forall n' count s', nodes s' !! node = Some n' -> n_open_handles n' = 0 -> n_lookups n' <= count ->
    nodes (forget_count node count s') !! node = None /\ parked (forget_count node count s') !! node = None.
Proof.
  intros Hn Hl Ho Hr Hp. assert ((node =? FUSE_ROOT_ID) = false) as Er by by apply Z.eqb_neq.
  unfold release_node. rewrite Hn, Ho, Hl, Er. cbv zeta.
  change (negb (saturating_sub 1 1 =? 0) || negb (0 =? 0) || false) with false. cbv iota.
  destruct (remove_node_gone node (n_key n) (upd_node node (set_n_open_handles (saturating_sub 1 1)) s)) as [E1 E2].
  unfold stranded. rewrite E1, E2. split; [split; [done|by eexists]|]. intros n' count s' Hn' Ho' Hc. unfold forget_count. rewrite Er, Hn', Ho'. cbv zeta.
  replace (saturating_sub (n_lookups n') count) with 0 by (unfold saturating_sub; lia). cbn [negb Z.eqb].
  set (t := upd_node _ _ _). destruct (remove_node_gone node (n_key n') t) as [E3 _].
  destruct (drop_fh0_nodes node (drop_parked node (remove_node node (n_key n') t))) as [-> ->]. split; [exact E3|apply lookup_delete_eq].
Qed.

(** A file opened twice, closed once, forgotten and closed. *)
Definition forgotten_file : Fs :=
  w_fs (requests [lookup_f; open_f 0; release_fh 1; open_f 1; forget_f 1] demo_world).2.

Lemma release_leaves_parked_witness :
  bool_decide (nodes (release_node 2 forgotten_file) !! 2 = None) = true /\
  bool_decide (is_Some (parked (release_node 2 forgotten_file) !! 2)) = true.
Proof.
  assert (match nodes forgotten_file !! 2, parked forgotten_file !! 2 with
    | Some n, Some _ => (n_lookups n =? 0) && (n_open_handles n =? 1) | _, _ => false end = true) as Hx by (vm_compute; reflexivity).
  destruct (nodes forgotten_file !! 2) as [n|] eqn:En; [|discriminate Hx].
  destruct (parked forgotten_file !! 2) as [p|] eqn:Ep; [|discriminate Hx]. apply andb_true_iff in Hx as [Hl%Z.eqb_eq Ho%Z.eqb_eq].
  destruct (release_leaves_parked forgotten_file 2 n p En Hl Ho ltac:(discriminate) Ep) as [[E1 E2] _].
  split; by apply bool_decide_eq_true.
Defined.
