(* ===== verification/FsZeroCopy.v ===== *)
(** * READ and WRITE straight from the chain

    [build_iov] and [gather] describe the same bytes of a descriptor chain, and a
    WRITE whose data goes to the host from guest RAM is the WRITE of the gathered
    request: the same reply, the same host calls and the same session, apart from
    the counter that notes it. *)

From S2P Require Import Prelude Memory Queue FsWire FsHost FsState FsDirs FsNodes FsOps FsIo FsReaddir FsServer FsDev FsDemo FsInv FsSafe FsSafeServer.
Local Open Scope Z_scope.

(** ** The bytes of a chain *)

Definition segs_ok (l : list Seg) : Prop := Forall (fun d : Seg => 0 <= d.2) l.

Lemma segs_len_cons a n l : segs_len ((a, n) :: l) = n + segs_len l.
Proof. done. Qed.

Lemma segs_len_nonneg l : segs_ok l -> 0 <= segs_len l.
Proof. induction 1 as [|[a n] l Hn _ IH]; [done|]. rewrite segs_len_cons. cbn [snd] in Hn. lia. Qed.

Lemma read_sub m a n bs i k :
  ram_ok m -> read m a n = Some bs -> 0 <= i -> 0 < k -> i + k <= n ->
  read m (a + i) k = Some (take (Z.to_nat k) (drop (Z.to_nat i) bs)).
Proof.
  intros Hm (p & Hp & [= <-])%bind_Some Hi Hk Hik. unfold read. rewrite (slice_sub m a n p i k) by done. cbn.
  pose proof (obj_bytes_sub (object m) p n i (i + k)) as Hs. replace (i + k - i) with k in Hs by lia.
  rewrite <-Hs, sub_bytes_eq by (rewrite ?zlen_obj_bytes by lia; lia). by replace (i + k - i) with k by lia.
Qed.

(** A descriptor in front of the rest: what it holds of a range, and what is left. *)
Lemma take_drop_piece (d rest : list Z) (pos skip want : Z) :
  0 <= pos -> 0 <= skip -> 0 <= want -> skip < pos + zlen d ->
  let start := saturating_sub skip pos in
  let avail := Z.min (zlen d - start) want in
  take (Z.to_nat want) (drop (Z.to_nat (skip - pos)) (d ++ rest)) =
  take (Z.to_nat avail) (drop (Z.to_nat start) d) ++
  take (Z.to_nat (want - avail)) (drop (Z.to_nat (skip - (pos + zlen d))) rest).
Proof.
  intros. unfold start, avail, saturating_sub, zlen in *. rewrite drop_app_le by lia. rewrite take_app, length_drop.
  replace (Z.to_nat (Z.max 0 (skip - pos))) with (Z.to_nat (skip - pos)) by lia.
  replace (Z.to_nat (skip - (pos + Z.of_nat (length d)))) with 0%nat by lia. rewrite drop_0. f_equal.
  - destruct (decide (want <= Z.of_nat (length d) - (Z.max 0 (skip - pos)))).
    + f_equal. lia.
    + rewrite !take_ge; [done|rewrite length_drop; lia..].
  - f_equal. lia.
Qed.

Lemma drop_piece (d rest : list Z) (pos skip : Z) :
  0 <= pos -> pos + zlen d <= skip ->
  drop (Z.to_nat (skip - pos)) (d ++ rest) = drop (Z.to_nat (skip - (pos + zlen d))) rest.
Proof. intros. unfold zlen in *. rewrite drop_app_ge by lia. f_equal. lia. Qed.

(** The whole of a chain, its first descriptor apart. *)
Lemma gather_all_cons m a n ds pos raw :
  ram_ok m -> 0 <= n -> segs_ok ds -> 0 <= pos -> gather_loop m ((a, n) :: ds) pos 0 (n + segs_len ds) = Some raw ->
  exists d rest, raw = d ++ rest /\ zlen d = n /\ gather_loop m ds (pos + n) 0 (segs_len ds) = Some rest /\
    (0 < n -> read m a n = Some d).
Proof.
  intros Hm Hn Hds Hp. pose proof (segs_len_nonneg ds Hds) as Hl. cbn [gather_loop].
  destruct (Z.eqb_spec (n + segs_len ds) 0) as [E0|E0].
  { intros [= <-]. assert (n = 0) as -> by lia. assert (segs_len ds = 0) as E by lia. exists [], []. rewrite E.
    split_and!; try done. destruct ds as [|[]]; done. }
  destruct (Z.ltb_spec 0 (pos + n)) as [Hc|Hc].
  - replace (saturating_sub 0 pos) with 0 by (unfold saturating_sub; lia). rewrite Z.sub_0_r, Z.min_l by lia.
    intros (b & [-> _]%checked_add_Some & (d & Hd & (rest & Hr & [= <-])%bind_Some)%bind_Some)%bind_Some.
    exists d, rest. rewrite Z.add_0_r in Hd. replace (n + segs_len ds - n) with (segs_len ds) in Hr by lia.
    split_and!; try done. by apply read_ok in Hd as [? _].
  - intros Hr. assert (n = 0) as -> by lia. exists [], raw. by split_and!.
Qed.

Lemma gather_all_len m ds pos raw :
  ram_ok m -> segs_ok ds -> 0 <= pos -> gather_loop m ds pos 0 (segs_len ds) = Some raw -> zlen raw = segs_len ds.
Proof.
  intros Hm Hds. revert pos raw. induction Hds as [|[a n] ds Hn Hds IH]; intros pos raw Hp; [by intros [= <-]|].
  intros (d & rest & -> & <- & Hr & _)%gather_all_cons; [|done..]. rewrite segs_len_cons. cbn [snd] in Hn.
  rewrite <-(IH (pos + zlen d) rest) by (done || lia). unfold zlen. rewrite length_app. lia.
Qed.

(** What is read of a descriptor is the part of its bytes. *)
Lemma read_piece m a n d start avail data :
  ram_ok m -> 0 <= start -> 0 <= avail -> start + avail <= n -> (0 < n -> read m a n = Some d) ->
  read m (a + start) avail = Some data -> data = take (Z.to_nat avail) (drop (Z.to_nat start) d).
Proof.
  intros Hm Hs Ha Hn Hd Hr. destruct (decide (avail = 0)) as [->|].
  - apply read_ok in Hr as [Hl _]; [|done..]. by destruct data.
  - rewrite (read_sub m a n d start avail) in Hr by (lia || auto with lia). by simplify_eq.
Qed.

(** [gather] is a range of the whole. *)
Lemma gather_range m ds pos skip want l raw :
  ram_ok m -> segs_ok ds -> 0 <= pos -> 0 <= skip -> 0 <= want ->
  gather_loop m ds pos 0 (segs_len ds) = Some raw -> gather_loop m ds pos skip want = Some l ->
  l = take (Z.to_nat want) (drop (Z.to_nat (skip - pos)) raw).
Proof.
  intros Hm Hds. revert pos want l raw. induction Hds as [|[a n] ds Hn Hds IH]; intros pos want l raw Hp Hs Hw Hraw.
  - injection Hraw as <-. cbn. case_match; [done|]. intros [= <-]. by rewrite drop_nil, take_nil.
  - apply gather_all_cons in Hraw as (d & rest & -> & <- & Hr & Hd); [|done..]. cbn [snd gather_loop] in *.
    destruct (Z.eqb_spec want 0) as [->|]; [by intros [= <-]|]. destruct (Z.ltb_spec skip (pos + zlen d)) as [Hc|Hc].
    + intros (b & [-> _]%checked_add_Some & (data & Hdata & (rest' & Hrest & [= <-])%bind_Some)%bind_Some)%bind_Some.
      rewrite take_drop_piece by done. assert (0 <= saturating_sub skip pos <= zlen d) by (unfold saturating_sub; lia). f_equal.
      * apply (read_piece m a (zlen d) d (saturating_sub skip pos)) in Hdata; [done|done || lia..].
      * apply (IH _ _ _ rest) in Hrest; [done|done || lia..].
    + intros Hl. rewrite drop_piece by lia. apply (IH _ _ _ rest) in Hl; [done|done || lia..].
Qed.

(** An iovec covers the same range. *)
Lemma iov_range m ds pos skip cap total iov total' raw :
  ram_ok m -> segs_ok ds -> 0 <= pos -> 0 <= skip -> 0 <= total <= cap ->
  gather_loop m ds pos 0 (segs_len ds) = Some raw -> iov_loop m ds pos skip cap total = Some (iov, total') ->
  iov_load m iov = take (Z.to_nat (cap - total)) (drop (Z.to_nat (skip - pos)) raw) /\ total' = total + zlen (iov_load m iov).
Proof.
  intros Hm Hds. revert pos total iov total' raw.
  induction Hds as [|[a n] ds Hn Hds IH]; intros pos total iov total' raw Hp Hs Ht Hraw.
  - injection Hraw as <-. intros [= <- <-]. cbn [iov_load]. rewrite drop_nil, take_nil. cbn. split; [done|unfold zlen; cbn; lia].
  - apply gather_all_cons in Hraw as (d & rest & -> & <- & Hr & Hd); [|done..]. cbn [snd iov_loop] in *.
    destruct (Z.eqb_spec total cap) as [->|].
    { intros [= <- <-]. rewrite Z.sub_diag. cbn [iov_load]. split; [done|unfold zlen; cbn; lia]. }
    destruct (Z.ltb_spec skip (pos + zlen d)) as [Hc|Hc].
    + rewrite take_drop_piece by (done || lia).
      assert (0 <= saturating_sub skip pos <= zlen d) by (unfold saturating_sub; lia).
      destruct (Z.ltb_spec 0 (Z.min (zlen d - saturating_sub skip pos) (cap - total))) as [Hv|Hv].
      * intros (b & [-> _]%checked_add_Some & (? & Hsl & ([iov' t'] & Hi & [= <- <-])%bind_Some)%bind_Some)%bind_Some.
        apply (IH _ _ _ _ rest) in Hi as [Hi ->]; [|done || lia..]. cbn [iov_load fst snd] in *. rewrite Hi.
        erewrite read_sub; [|done|apply Hd; lia|lia..]. cbn [default from_option]. unfold id.
        set (avail := Z.min _ _) in *. replace (cap - (total + avail)) with (cap - total - avail) by lia. split; [done|].
        rewrite zlen_app. rewrite (zlen_take (Z.to_nat avail)), zlen_drop. lia.
      * intros Hi. apply (IH _ _ _ _ rest) in Hi as [-> ->]; [|done || lia..].
        assert (zlen d - saturating_sub skip pos = 0) as E by lia. rewrite E, Z.min_l, Z.sub_0_r by lia. done.
    + intros Hi. apply (IH _ _ _ _ rest) in Hi as [-> ->]; [|done || lia..]. by rewrite drop_piece by lia.
Qed.

(** ** A WRITE of the chain and a WRITE of the gathered request *)

Lemma get_range_prefix {A} (l l' : list A) a b x : get_range l a b = Some x -> l `prefix_of` l' -> get_range l' a b = Some x.
Proof.
  intros (Ha & Hb & ->)%get_range_Some [k ->]. apply get_range_Some. rewrite zlen_app. zlen_pos. split_and!; try lia.
  unfold zlen in *. rewrite drop_app_le by lia. rewrite take_app_le by (rewrite length_drop; lia). done.
Qed.
Lemma get_u64_prefix l l' o v : get_u64 l o = Some v -> l `prefix_of` l' -> get_u64 l' o = Some v.
Proof. unfold get_u64. intros (x & Hx & ->)%fmap_Some Hp. by rewrite (get_range_prefix l l' _ _ x). Qed.
Lemma get_u32_prefix l l' o v : get_u32 l o = Some v -> l `prefix_of` l' -> get_u32 l' o = Some v.
Proof. unfold get_u32. intros (x & Hx & ->)%fmap_Some Hp. by rewrite (get_range_prefix l l' _ _ x). Qed.

Create HintDb hostdb.

Section Blind.
Context {H : Type} {HF : HostFs H}.

(** Programs that only ask the host: of the session they read the guest's ids. *)
Definition with_fs (s : Fs) (w : World H) : World H := mkWorld s (w_ram w) (w_host w) (w_log w).
Definition host_only {A} (m : M H A) : Prop :=
  forall s w, f_ids s = f_ids (w_fs w) -> m (with_fs s w) = ((m w).1, with_fs s (m w).2).

Lemma with_fs_same (w : World H) : with_fs (w_fs w) w = w.
Proof. by destruct w. Qed.
Lemma host_only_fs {A} (m : M H A) w : host_only m -> w_fs (m w).2 = w_fs w.
Proof. intros Hm. specialize (Hm (w_fs w) w eq_refl). rewrite with_fs_same in Hm. rewrite Hm. done. Qed.

Lemma host_only_ret {A} (a : A) : host_only (ret a).
Proof. done. Qed.
Lemma host_only_fail {A} e : host_only (fail (A := A) e).
Proof. done. Qed.
Lemma host_only_bind {A B} (m : M H A) (k : A -> M H B) : host_only m -> (forall a, host_only (k a)) -> host_only (bind m k).
Proof.
  intros Hm Hk s w Hs. pose proof (host_only_fs m w Hm) as Hfs. unfold bind. rewrite Hm by done.
  destruct (m w) as [[a|e|] w']; cbn in *; [apply Hk; by rewrite Hfs|done..].
Qed.
Lemma host_only_call {A : Set} (e : HostE A) : host_only (call e).
Proof. intros s w Hs. unfold call. cbn. by destruct (sys A e (w_host w)). Qed.
Lemma host_only_syscall {A : Set} (e : HostE A) : host_only (syscall e).
Proof. apply host_only_bind; [apply host_only_call|]. intros []; done. Qed.
Lemma host_only_query {A : Set} (e : HostE A) d : host_only (query e d).
Proof. apply host_only_bind; [apply host_only_call|]. done. Qed.
Lemma host_only_ids : host_only (gets f_ids).
Proof. intros s w Hs. unfold gets. cbn. by rewrite Hs. Qed.

#[local] Hint Resolve host_only_ret host_only_fail host_only_call host_only_syscall host_only_query host_only_ids : hostdb.
Ltac host_only := repeat first [solve [auto with hostdb] | apply host_only_bind; [|intros ?] | case_match].

Lemma clear_suid_sgid_host_only file : host_only (clear_suid_sgid file).
Proof.
  unfold clear_suid_sgid, stat_of_fd, guest_attr_of_fd, stored_guest_attr, shown_attr, host_uid_to_guest, host_gid_to_guest,
    set_guest_attr, fd_setxattr, guard. host_only.
Qed.

Lemma drop_prepared_eq (w : World H) : drop_prepared w =
  (Ok tt, mkWorld (set_fh0_listings (clear_prepared <$> fh0_listings (w_fs w)) (w_fs w)) (w_ram w)
    (sys _ CReadaheadInvalidate (w_host w)).2 (mkCall CReadaheadInvalidate :: w_log w)).
Proof. unfold drop_prepared, query, bind, call. by destruct (sys _ CReadaheadInvalidate (w_host w)) as [[]]. Qed.

(** The end of both paths: the set-user and set-group bits go, and the reply counts
    the bytes. *)
Definition finish_write (file : Fd) (node write_flags n : Z) : M H (list Z) :=
  (if has_flag write_flags FUSE_WRITE_KILL_SUIDGID then clear_suid_sgid file ;;; modify (invalidate_guest_attr node) else ret tt) ;;;
  ret (put_u32 n ++ put_u32 0).

(** The count of zero-copy writes does not matter to it, and it parks no lock. *)
Lemma finish_write_recount file node write_flags n k w :
  let recount w := with_fs (set_zero_copy_writes k (w_fs w)) w in
  finish_write file node write_flags n (recount w) =
    ((finish_write file node write_flags n w).1, recount (finish_write file node write_flags n w).2) /\
  lock_to_park (w_fs (finish_write file node write_flags n w).2) = lock_to_park (w_fs w).
Proof.
  unfold finish_write, bind, ret. destruct (has_flag _ _); [|done]. pose proof (clear_suid_sgid_host_only file) as Hc.
  pose proof (host_only_fs _ w Hc) as Hfs. cbv zeta. rewrite (Hc _ w) by done.
  destruct (clear_suid_sgid file w) as [[u|e|] w']; cbn in *; rewrite Hfs; done.
Qed.

(** The request a WRITE holds: [payload] is what follows the header. *)
Record WriteArgs := mkWriteArgs { wa_handle : FileHandle; wa_fh : Z; wa_offset : Z; wa_flags : Z; wa_data : list Z }.
Record write_args (s : Fs) (payload : list Z) (a : WriteArgs) : Prop := {
  wa_fh_at : get_u64 payload 0 = Some (wa_fh a);
  wa_offset_at : get_u64 payload 8 = Some (wa_offset a);
  wa_size_at : get_u32 payload 16 = Some (zlen (wa_data a));
  wa_flags_at : get_u32 payload 20 = Some (wa_flags a);
  wa_data_at : get_range payload 40 (40 + zlen (wa_data a)) = Some (wa_data a);
  wa_size_ok : zlen (wa_data a) <= MAX_WRITE;
  wa_handle_at : handles s !! wa_fh a = Some (wa_handle a);
  wa_writable : h_writable (wa_handle a) = true }.

Definition dirtied (w : World H) : World H := mkWorld (set_dirty true (w_fs w)) (w_ram w) (w_host w) (w_log w).

Lemma write_op_run node payload (w : World H) a :
  f_writable (w_fs w) = true -> write_args (w_fs w) payload a ->
  write_op node payload w =
    (n <- syscall (CPwrite (h_file (wa_handle a)) (wa_offset a) (wa_data a)) ;;
     finish_write (h_file (wa_handle a)) node (wa_flags a) n) (dirtied w).
Proof.
  intros Hw [E0 E8 E16 E20 E40 Hsize Hh Hwr]. unfold write_op, require_writable, get_handle, bind, gets, ok_or, guard, expect.
  rewrite Hw, E0, E8, E16, E20. cbn [modify update ret]. pose proof E40 as (_ & Hlen & _)%get_range_Some.
  rewrite (proj2 (Z.ltb_ge _ _) Hsize), (proj2 (Z.ltb_ge _ _) Hlen). cbn [orb negb]. unfold ret. cbn [w_fs].
  change (handles (set_dirty true (w_fs w))) with (handles (w_fs w)). rewrite Hh, Hwr, E40.
  fold (dirtied w). pose proof (host_only_fs _ (dirtied w) (host_only_syscall (CPwrite (h_file (wa_handle a)) (wa_offset a) (wa_data a)))) as Hfs.
  destruct (syscall _ (dirtied w)) as [[n|e|] w1]; [|done..]. cbn in Hfs. unfold finish_write, bind, ret.
  assert (handles (w_fs w1) !! wa_fh a = Some (wa_handle a)) as Hh1 by (rewrite Hfs; exact Hh).
  destruct (has_flag _ _); [|done]. rewrite Hh1. done.
Qed.

(** A WRITE in the middle of its chain. *)
Lemma handle_fuse_write queues raw_ max_out (w : World H) payload a :
  get_u32 raw_ 4 = Some Op.WRITE ->
  IN_HEADER_LEN <= default 0 (get_u32 raw_ 0) <= zlen raw_ -> get_range raw_ IN_HEADER_LEN (default 0 (get_u32 raw_ 0)) = Some payload ->
  f_writable (w_fs w) = true -> lock_to_park (w_fs w) = None -> write_args (w_fs w) payload a ->
  let '(r, w') := (n <- syscall (CPwrite (h_file (wa_handle a)) (wa_offset a) (wa_data a)) ;;
     finish_write (h_file (wa_handle a)) (default 0 (get_u64 raw_ 16)) (wa_flags a) n) (drop_prepared (dirtied w)).2 in
  r <> Panicked -> handle_fuse queues raw_ max_out w = (Ok (match r with
     | Ok p => success_response (default 0 (get_u64 raw_ 8)) p
     | Err e => error_response (default 0 (get_u64 raw_ 8)) e
     | Panicked => [] end), w').
Proof.
  intros Eop Hdecl Epay Hw Hlock Ha. destruct (bind _ _ _) as [r w'] eqn:Er. intros Hr.
  unfold handle_fuse. rewrite Eop. cbn [default].
  change (request_is_read_only Op.WRITE (default [] (get_from raw_ IN_HEADER_LEN))) with false. cbn [negb].
  unfold bind at 1. rewrite drop_prepared_eq. rewrite (proj2 (Z.ltb_ge _ _)), (proj2 (Z.ltb_ge _ _)) by lia. cbn [orb].
  rewrite Epay. cbn [expect]. unfold ret at 1, bind at 1.
  cbn [default from_option]. unfold id. set (w0 := mkWorld _ _ _ _).
  change (Op.WRITE =? Op.FORGET) with false. change (Op.WRITE =? Op.BATCH_FORGET) with false. change (Op.WRITE =? Op.DESTROY) with false.
  set (node := default 0 (get_u64 raw_ 16)) in *. cbv iota.
  assert (forall u c x, dispatch queues Op.WRITE u node payload c x = write_op (H := H) node payload) as -> by reflexivity.
  unfold bind at 1, attempt. rewrite (write_op_run node payload w0 a Hw) by (destruct Ha; by constructor).
  rewrite drop_prepared_eq in Er. change (_, _).2 with (dirtied w0) in Er. rewrite Er.
  assert (lock_to_park (w_fs w') = None) as Hl.
  { unfold bind in Er. pose proof (host_only_fs _ (dirtied w0) (host_only_syscall (CPwrite (h_file (wa_handle a)) (wa_offset a) (wa_data a)))) as Hfs.
    destruct (syscall _ (dirtied w0)) as [[n|e|] w1]; cbn in Hfs; [|injection Er as _ <-; by rewrite Hfs..].
    destruct (finish_write_recount (h_file (wa_handle a)) node (wa_flags a) n 0 w1) as [_ Hl]. rewrite Er, Hfs in Hl. exact (eq_trans Hl Hlock). }
  destruct r as [x|e|]; [..|done]; unfold bind, gets; cbn; by rewrite Hl.
Qed.
(** The arguments the direct path takes from the chain are those of the payload. *)
Lemma direct_write_args m input raw_ declared s args fh offset size write_flags h iov :
  ram_ok m -> segs_ok input -> gather m input 0 (segs_len input) = Some raw_ -> declared <= segs_len input ->
  gather m input IN_HEADER_LEN 24 = Some args -> get_u64 args 0 = Some fh -> get_u64 args 8 = Some offset ->
  get_u32 args 16 = Some size -> get_u32 args 20 = Some write_flags -> 0 <= size <= MAX_WRITE -> IN_HEADER_LEN + 40 + size <= declared ->
  handles s !! fh = Some h -> h_writable h = true -> build_iov m input (IN_HEADER_LEN + 40) size = Some iov -> size <= iov.2 ->
  exists payload, get_range raw_ IN_HEADER_LEN declared = Some payload /\ zlen (iov_load m iov.1) = size /\
    write_args s payload (mkWriteArgs h fh offset write_flags (iov_load m iov.1)).
Proof.
  intros Hm Hin Hraw Hdecl Hargs E0 E8 E16 E20 Hsize Hbig Hh Hw Hiov Hcov. unfold gather in *.
  pose proof (gather_all_len _ _ _ _ Hm Hin ltac:(done) Hraw) as Hlen. unfold IN_HEADER_LEN in *.
  apply (gather_range m input 0 40 24 args raw_) in Hargs; [|done..]. unfold build_iov in Hiov.
  destruct (IOV_MAX <? zlen input); [done|]. destruct iov as [iov total]. cbn [fst snd] in *.
  apply (iov_range m input 0 (40 + 40) size 0 iov total raw_) in Hiov as [Hdata ->]; [|done || lia..].
  rewrite Z.sub_0_r in *. change (Z.to_nat (40 + 40)) with 80%nat in Hdata.
  assert (zlen (iov_load m iov) = size) as Hz.
  { rewrite Hdata, zlen_take, zlen_drop. lia. }
  exists (take (Z.to_nat (declared - 40)) (drop 40 raw_)). split; [apply get_range_Some; split_and!; lia || done|].
  split; [done|]. assert (args `prefix_of` take (Z.to_nat (declared - 40)) (drop 40 raw_)) as Hpre.
  { rewrite Hargs. change (Z.to_nat 40) with 40%nat. replace (Z.to_nat 24) with (Z.to_nat 24 `min` Z.to_nat (declared - 40))%nat by lia.
    rewrite <-take_take. apply prefix_take. }
  constructor; cbn [wa_fh wa_offset wa_flags wa_data wa_handle]; rewrite ?Hz;
    try done; try lia; try (by eapply get_u64_prefix); try (by eapply get_u32_prefix).
  apply get_range_Some. split_and!; [lia..|rewrite zlen_take, zlen_drop; lia|].
  rewrite Hdata. change (Z.to_nat 40) with 40%nat. rewrite skipn_firstn_comm, drop_drop, take_take. f_equal. lia.
Qed.

Lemma recount_same (w : World H) : w = with_fs (set_zero_copy_writes (zero_copy_writes (w_fs w)) (w_fs w)) w.
Proof. by destruct w as [[]]. Qed.

(** The end of the direct path, after the write is submitted. *)
Lemma direct_finish file node unique write_flags offset data (w : World H) reply w1 :
  (r <- attempt (retried_syscall (CPwrite file offset data)) ;;
   match r with
   | inr err => ret (Some (Buffered (error_response unique err)))
   | inl n =>
       modify (fun s => set_zero_copy_writes (zero_copy_writes s + 1) s) ;;;
       r <- (if has_flag write_flags FUSE_WRITE_KILL_SUIDGID then
               r <- attempt (clear_suid_sgid file) ;;
               match r with
               | inr err => ret (inr err)
               | inl _ => modify (invalidate_guest_attr node) ;;; ret (inl tt)
               end
             else ret (inl tt)) ;;
       ret (Some (Buffered (match r with
         | inr err => error_response unique err
         | inl _ => success_response unique (put_u32 n ++ put_u32 0)
         end)))
   end) w = (Ok (Some reply), w1) ->
  let '(r, w') := (n <- retried_syscall (CPwrite file offset data) ;; finish_write file node write_flags n) w in
  (exists k, w1 = with_fs (set_zero_copy_writes k (w_fs w')) w') /\
  match r with Ok p => reply = Buffered (success_response unique p) | Err e => reply = Buffered (error_response unique e) | Panicked => False end.
Proof.
  unfold attempt, bind. destruct (retried_syscall _ w) as [[n|e|] w2]; [|intros [= <- <-]; split; [eexists; apply recount_same|done]|done].
  unfold finish_write, bind, ret. cbn [modify update]. set (k := zero_copy_writes (w_fs w2) + 1). fold (with_fs (set_zero_copy_writes k (w_fs w2)) w2).
  destruct (has_flag _ _); [|intros [= <- <-]; split; [by exists k|done]]. pose proof (clear_suid_sgid_host_only file) as Hc.
  pose proof (host_only_fs _ w2 Hc) as Hfs. rewrite (Hc _ w2) by done.
  destruct (clear_suid_sgid file w2) as [[u|e|] w3]; cbn in Hfs |- *; intros; simplify_eq; (split; [exists k|done]);
    unfold with_fs; cbn; by rewrite Hfs.
Qed.

Lemma write_direct_run node unique declared input (w : World H) reply w1 raw_ :
  ram_ok (w_ram w) -> segs_ok input -> gather (w_ram w) input 0 (segs_len input) = Some raw_ -> bytes_ok raw_ ->
  write_direct node unique declared input w = (Ok (Some reply), w1) ->
  f_writable (w_fs w) = true /\ IN_HEADER_LEN <= declared <= segs_len input /\
  exists payload a iov, get_range raw_ IN_HEADER_LEN declared = Some payload /\ write_args (w_fs w) payload a /\
    wa_data a = iov_load (w_ram w) iov /\ 
    (wa_data a <> [] -> let '(r, w') := (n <- retried_syscall (CPwrite (h_file (wa_handle a)) (wa_offset a) (wa_data a)) ;;
       finish_write (h_file (wa_handle a)) node (wa_flags a) n) (drop_prepared (dirtied w)).2 in
     (exists k, w1 = with_fs (set_zero_copy_writes k (w_fs w')) w') /\
     match r with Ok p => reply = Buffered (success_response unique p) | Err e => reply = Buffered (error_response unique e) | Panicked => False end).
Proof.
  intros Hm Hin Hraw Hrb. unfold write_direct. intros (wr & ? & [= <- <-] & E)%bind_ok.
  destruct (f_writable (w_fs w)) eqn:Hw; cbn [negb] in E; [|done].
  apply bind_ok in E as (u & wa & Ed & E). injection Ed as _ <-. fold (dirtied w) in E.
  apply bind_ok in E as (u' & wb & Ep & E). rewrite drop_prepared_eq in *. injection Ep as _ <-. cbn [snd].
  set (wb := mkWorld _ _ _ _) in *. destruct ((declared <? IN_HEADER_LEN) || (segs_len input <? declared)) eqn:Eb; [done|].
  apply orb_false_iff in Eb as [Hd1%Z.ltb_ge Hd2%Z.ltb_ge]. split; [done|]. split; [done|].
  apply bind_ok in E as (m & ? & [= <- <-] & E). apply bind_ok in E as (s & ? & [= <- <-] & E). unfold id in E.
  change (w_ram wb) with (w_ram w) in E. change (handles (w_fs wb)) with (handles (w_fs w)) in E.
  destruct (args ← gather (w_ram w) input IN_HEADER_LEN 24; _) as [[[[h iov] offset] write_flags]|] eqn:Ea; [|done].
  apply bind_Some in Ea as (args & Hargs & (fh & E0 & (off & E8 & (size & E16 & (wf & E20 & Ea)%bind_Some)%bind_Some)%bind_Some)%bind_Some).
  destruct ((MAX_WRITE <? size) || _) eqn:Eb; [done|]. apply orb_false_iff in Eb as [Hs1%Z.ltb_ge Hs2%Z.ltb_ge].
  apply bind_Some in Ea as (h' & Hh & Ea). destruct (h_writable h') eqn:Hwr; cbn [negb] in Ea; [|done].
  apply bind_Some in Ea as (iv & Hiov & Ea). destruct (iv.2 <? size) eqn:Hcov; [done|]. apply Z.ltb_ge in Hcov. simplify_eq.
  destruct (direct_write_args (w_ram w) input raw_ declared (w_fs w) args fh offset size write_flags h iv)
    as (payload & Hp & Hz & Ha); try done.
  { split; [|done]. eapply get_u32_range; [|exact E16]. by eapply gather_loop_ok in Hargs. }
  exists payload, (mkWriteArgs h fh offset write_flags (iov_load (w_ram w) iv.1)), iv.1. split_and!; try done.
  cbn [wa_data wa_handle wa_offset wa_flags]. intros Hne. eapply direct_finish. rewrite <-E. unfold pwritev, bind, attempt.
  rewrite bool_decide_false by (intros Hx; by rewrite Hx in Hne). done.
Qed.
(** A WRITE whose size field is not 0 has data. *)
Lemma write_has_data (s : Fs) raw_ declared payload a :
  get_range raw_ IN_HEADER_LEN declared = Some payload -> write_args s payload a -> get_u32 raw_ 56 <> Some 0 -> wa_data a <> [].
Proof.
  intros Hp Ha Hsize Hx. apply Hsize. pose proof (wa_size_at _ _ _ Ha) as Hs. rewrite Hx in Hs. unfold get_u32 in *.
    apply fmap_Some in Hs as (x & (_ & Hl & ->)%get_range_Some & Hv). apply fmap_Some. exists (take 4 (drop 56 raw_)).
    apply get_range_Some in Hp as (Hd1 & Hd2 & ->). rewrite zlen_take, zlen_drop in Hl. unfold IN_HEADER_LEN in *. split; [|refine (eq_trans Hv _)].
    - apply get_range_Some. split_and!; [done..|lia|done].
    - f_equal. change (Z.to_nat (16 + 4 - 16)) with 4%nat. change (Z.to_nat 16) with 16%nat. change (Z.to_nat 40) with 40%nat.
      rewrite skipn_firstn_comm, drop_drop, take_take. f_equal. lia.
Qed.

(** Programs that do not look at the log: what they add to it is the same. *)
Definition with_log (l : list Call) (w : World H) : World H := mkWorld (w_fs w) (w_ram w) (w_host w) l.
Definition log_free {A} (m : M H A) : Prop := forall w, exists added, forall l, m (with_log l w) = ((m w).1, with_log (added ++ l) (m w).2).

Lemma log_free_const {A} (r : Res A) : log_free (fun w => (r, w)).
Proof. intros w. by exists []. Qed.
Lemma log_free_bind {A B} (m : M H A) (k : A -> M H B) : log_free m -> (forall a, log_free (k a)) -> log_free (bind m k).
Proof.
  intros Hm Hk w. destruct (Hm w) as [a1 H1]. unfold bind. destruct (m w) as [[a|e|] w'] eqn:E; cbn [fst snd] in *;
    [|exists a1; intros l; by rewrite H1..]. destruct (Hk a w') as [a2 H2]. exists (a2 ++ a1). intros l. rewrite H1, H2. by rewrite <-app_assoc.
Qed.
Lemma log_free_call {A : Set} (e : HostE A) : log_free (call e).
Proof. intros w. exists [mkCall e]. intros l. unfold call, with_log. cbn. by destruct (sys A e (w_host w)). Qed.
Lemma log_free_gets {A} (f : Fs -> A) : log_free (gets f).
Proof. intros w. by exists []. Qed.
Lemma log_free_modify f : log_free (modify f).
Proof. intros w. by exists []. Qed.

Ltac log_free := repeat first [apply log_free_bind; [|intros ?] | apply log_free_call | apply log_free_gets | apply log_free_modify | apply log_free_const | case_match].

Lemma finish_write_log_free file node write_flags n : log_free (finish_write file node write_flags n).
Proof.
  unfold finish_write, clear_suid_sgid, stat_of_fd, guest_attr_of_fd, stored_guest_attr, shown_attr, host_uid_to_guest, host_gid_to_guest,
    set_guest_attr, fd_setxattr, guard, syscall, query, ret, fail. log_free.
Qed.

Lemma log_free_same {A} (m : M H A) (w : World H) : log_free m -> exists added, w_log (m w).2 = added ++ w_log w /\
  forall l, m (with_log l w) = ((m w).1, with_log (added ++ l) (m w).2).
Proof.
  intros Hm. destruct (Hm w) as [added Ha]. exists added. split; [|done]. pose proof (Ha (w_log w)) as E.
  assert (with_log (w_log w) w = w) as Ew by (by destruct w). rewrite Ew in E. by rewrite E.
Qed.

End Blind.

(** ** The host behind the loop

    The host as [pwritev_retry] presents it: a write that a signal interrupts is made
    again. *)
Section Retrying.
Context {H : Type} {HF : HostFs H}.

Definition is_write {A : Set} (e : HostE A) : bool := match e with CPwrite _ _ _ => true | _ => false end.
Fixpoint answer_loop {A : Set} (fuel : nat) (e : HostE A) (h : H) : (A + HostErrno) * H :=
  match fuel with
  | S fuel => if interrupted (sys A e h).1 then answer_loop fuel e (sys A e h).2 else sys A e h
  | O => sys A e h
  end.
Definition retrying : HostFs H := {|
  sys A e h := if is_write e then answer_loop (interrupts h) e h else sys A e h;
  interrupts := interrupts |}.

Lemma interrupted_true {A : Set} (r : A + HostErrno) : interrupted r = true <-> r = inr (HEother Interrupted).
Proof.
  split; [|by intros ->]. destruct r as [a|err]; [done|]. destruct err as [| | | | | | | | | | | | | | | | | | | | | | | | | | | | | | | | |k]; try done. by destruct k.
Qed.

(** A loop makes its call a number of times and ends with the answer of that host. *)
Lemma retry_loop_answers {A : Set} (e : HostE A) n : forall w : World H, exists k,
  let '(r, h) := answer_loop n e (w_host w) in
  retry_loop n e w = (Ok r, mkWorld (w_fs w) (w_ram w) h (replicate (S k) (mkCall e) ++ w_log w)) /\
  match k with O => sys A e (w_host w) = (r, h) | S _ => (sys A e (w_host w)).1 = inr (HEother Interrupted) end.
Proof.
  induction n as [|n IH]; intros w; cbn [answer_loop retry_loop]; unfold bind, call; [exists O; by destruct (sys A e (w_host w))|].
  destruct (sys A e (w_host w)) as [r h] eqn:E. cbn [fst snd]. destruct (interrupted r) eqn:Ei; [|by exists O].
  destruct (IH (mkWorld (w_fs w) (w_ram w) h (mkCall e :: w_log w))) as [k Hk]. exists (S k).
  cbn [w_host w_fs w_ram w_log] in Hk. destruct (answer_loop n e _) as [r' h']. destruct Hk as [-> _]. split; [|by apply interrupted_true].
  do 2 f_equal. rewrite (replicate_S_end (S k)), <-app_assoc. done.
Qed.

(** The fuel is enough: the loop never ends with an interruption. *)
Lemma answer_loop_ends {HL : HostFsLaws H} {A : Set} (e : HostE A) n : forall h, (interrupts h <= n)%nat -> (answer_loop n e h).1 <> inr (HEother Interrupted).
Proof.
  induction n as [|n IH]; intros h Hn; cbn [answer_loop]; destruct (sys A e h) as [r h'] eqn:E; cbn [fst snd].
  - intros ->. apply interrupts_end in E. lia.
  - destruct (interrupted r) eqn:Ei; [|by intros Hr%interrupted_true; cbn in Hr; rewrite Hr in Ei]. apply interrupted_true in Ei as ->.
    apply interrupts_end in E. apply IH. lia.
Qed.

(** The end of a WRITE, and the calls before it, are answered alike. *)
Lemma finish_write_retrying file node write_flags n : finish_write (HF := retrying) file node write_flags n = finish_write (HF := HF) file node write_flags n.
Proof. reflexivity. Qed.
Lemma drop_prepared_retrying : drop_prepared (HF := retrying) = drop_prepared (HF := HF).
Proof. reflexivity. Qed.

(** The write and the end of the request, on the host as it is in a loop, on the host
    behind the loop, and on the host as it is. *)
Lemma write_runs file offset data node flags (w0 : World H) :
  let c := CPwrite file offset data in
  let after m : M H (list Z) := bind m (finish_write (HF := HF) file node flags) in
  let '(r1, w1) := after (retried_syscall c) w0 in
  let '(r2, w2) := after (syscall (HF := retrying) c) w0 in
  r1 = r2 /\ w_fs w1 = w_fs w2 /\ w_ram w1 = w_ram w2 /\ w_host w1 = w_host w2 /\
  exists signals later, w_log w2 = later ++ mkCall c :: w_log w0 /\ w_log w1 = later ++ replicate (S signals) (mkCall c) ++ w_log w0 /\
    match signals with O => after (syscall c) w0 = (r2, w2) | S _ => (after (syscall c) w0).1 = Err EIO end.
Proof.
  cbv zeta. set (c := CPwrite file offset data). destruct (retry_loop_answers c (interrupts (w_host w0)) w0) as [signals Hs].
  assert (syscall (HF := retrying) c w0 = let '(r, h) := answer_loop (interrupts (w_host w0)) c (w_host w0) in
    ((match r with inl a => Ok a | inr err => Err (io_errno err) end), mkWorld (w_fs w0) (w_ram w0) h (mkCall c :: w_log w0))) as ER.
  { unfold syscall, call, bind. change (sys (HostFs := retrying) Z c (w_host w0)) with (answer_loop (interrupts (w_host w0)) c (w_host w0)).
    by destruct (answer_loop _ c (w_host w0)) as [[n|err] h]. }
  assert (forall r h, sys Z c (w_host w0) = (r, h) -> syscall c w0 =
    ((match r with inl a => Ok a | inr err => Err (io_errno err) end), mkWorld (w_fs w0) (w_ram w0) h (mkCall c :: w_log w0))) as EH.
  { intros r h E. unfold syscall, call, bind. rewrite E. by destruct r. }
  unfold retried_syscall, retried. unfold bind. destruct (answer_loop _ c (w_host w0)) as [r h]. destruct Hs as [-> Hs]. rewrite ER.
  assert (match signals with O => syscall c w0 = (match r with inl a => Ok a | inr err => Err (io_errno err) end, mkWorld (w_fs w0) (w_ram w0) h (mkCall c :: w_log w0))
    | S _ => exists w', syscall c w0 = (Err EIO, w') end) as Hsys.
  { destruct signals; [by apply EH|]. destruct (sys Z c (w_host w0)) as [r' h'] eqn:E. cbn [fst] in Hs. subst r'. eexists. by rewrite (EH _ _ eq_refl). }
  destruct r as [n|err].
  - destruct (log_free_same (finish_write file node flags n) (mkWorld (w_fs w0) (w_ram w0) h (mkCall c :: w_log w0)) (finish_write_log_free _ _ _ _)) as (later & El & Eall).
    specialize (Eall (replicate (S signals) (mkCall c) ++ w_log w0)). unfold with_log at 1 in Eall. cbn [w_fs w_ram w_host] in Eall.
    cbn [ret]. unfold ret. rewrite Eall. destruct (finish_write file node flags n _) as [r2 w2] eqn:Ef. cbn [fst snd] in *.
    split_and!; try done. exists signals, later. split; [done|]. split; [done|].
    destruct signals; [by rewrite Hsys|]. destruct Hsys as [w' Hsys]. by rewrite Hsys.
  - cbn. split_and!; try done. exists signals, []. split; [done|]. split; [done|].
    destruct signals; [by rewrite Hsys|]. destruct Hsys as [w' Hsys]. by rewrite Hsys.
Qed.

(** C22. A WRITE served straight from guest RAM is the WRITE of the gathered request, but
    for signals. Whenever the direct path answers a WRITE of at least one byte, on any
    chain inside guest RAM however its descriptors cut the request, handling the gathered
    bytes on a host that makes an interrupted write again gives the same reply, leaves the
    host, guest RAM and the session the same but for the count of zero-copy writes, and
    asks the host the same calls with the same data in the same order, except that the
    direct path made the write once more for each signal that interrupted it, and never
    ends with an interruption. If no signal did, handling the gathered bytes on the host as
    it is gives the same; if one did, it answers EIO, since its own write is made once. *)
Theorem zero_copy_write_equiv {HL : HostFsLaws H} queues max_out input raw_ (w : World H) reply w1 :
  ram_ok (w_ram w) -> segs_ok input -> gather (w_ram w) input 0 (segs_len input) = Some raw_ -> lock_to_park (w_fs w) = None ->
  get_u32 raw_ 4 = Some Op.WRITE -> get_u32 raw_ 56 <> Some 0 ->
  write_direct (default 0 (get_u64 raw_ 16)) (default 0 (get_u64 raw_ 8)) (default 0 (get_u32 raw_ 0)) input w = (Ok (Some reply), w1) ->
  exists r w2 k signals file offset data later before,
    handle_fuse (HF := retrying) queues raw_ max_out w = (Ok r, w2) /\ reply = Buffered r /\
    w_fs w1 = set_zero_copy_writes k (w_fs w2) /\ w_ram w1 = w_ram w2 /\ w_host w1 = w_host w2 /\
    w_log w2 = later ++ mkCall (CPwrite file offset data) :: before /\
    w_log w1 = later ++ replicate (S signals) (mkCall (CPwrite file offset data)) ++ before /\
    (forall h, (sys (HostFs := retrying) Z (CPwrite file offset data) h).1 <> inr (HEother Interrupted)) /\
    match signals with
    | O => handle_fuse queues raw_ max_out w = (Ok r, w2)
    | S _ => (handle_fuse queues raw_ max_out w).1 = Ok (error_response (default 0 (get_u64 raw_ 8)) EIO)
    end.
Proof.
  intros Hm Hin Hraw Hlock Eop Hsize Hd.
  assert (bytes_ok raw_) as Hrb by by eapply gather_loop_ok in Hraw.
  destruct (write_direct_run _ _ _ _ _ _ _ _ Hm Hin Hraw Hrb Hd) as (Hw & Hdecl & payload & a & iov & Hp & Ha & _ & Hrun).
  rewrite <-(gather_all_len _ _ _ _ Hm Hin ltac:(done) Hraw) in Hdecl. specialize (Hrun (write_has_data _ _ _ _ _ Hp Ha Hsize)).
  pose proof (handle_fuse_write (HF := HF) queues raw_ max_out w payload a Eop Hdecl Hp Hw Hlock Ha) as Hb.
  pose proof (handle_fuse_write (HF := retrying) queues raw_ max_out w payload a Eop Hdecl Hp Hw Hlock Ha) as Hr.
  rewrite drop_prepared_retrying in Hr.
  pose proof (write_runs (h_file (wa_handle a)) (wa_offset a) (wa_data a) (default 0 (get_u64 raw_ 16)) (wa_flags a) (drop_prepared (dirtied w)).2) as Hruns.
  cbv beta zeta in Hruns. change (finish_write (HF := retrying)) with (finish_write (HF := HF)) in Hr.
  match type of Hruns with context [bind (retried_syscall ?c) ?k ?v] => destruct (bind (retried_syscall c) k v) as [r1 w1'] end.
  match type of Hruns with context [bind (syscall (HF := retrying) ?c) ?k ?v] => destruct (bind (syscall (HF := retrying) c) k v) as [r2 w2] end. destruct Hruns as (<- & Ef & Em & Eh & signals & later & L2 & L1 & Hcase).
  destruct Hrun as [[k ->] Hreply]. assert (r1 <> Panicked) as Hnp by (by destruct r1).
  eexists _, w2, k, signals, _, _, _, later, _. split; [by apply Hr|]. split; [by destruct r1|]. cbn [w_fs w_ram w_host w_log].
  split; [by rewrite Ef|]. split; [done|]. split; [done|]. split; [exact L2|]. split; [exact L1|]. split; [intros h; by apply answer_loop_ends|].
  destruct signals as [|n].
  - match type of Hcase with ?run = _ => assert (let '(r, w') := run in r <> Panicked -> handle_fuse queues raw_ max_out w = (Ok (match r with
      | Ok p => success_response (default 0 (get_u64 raw_ 8)) p | Err e => error_response (default 0 (get_u64 raw_ 8)) e | Panicked => [] end), w')) as Hb' by exact Hb end.
    rewrite Hcase in Hb'. by apply Hb'.
  - match type of Hcase with ?run.1 = _ => assert (let '(r, w') := run in r <> Panicked -> handle_fuse queues raw_ max_out w = (Ok (match r with
      | Ok p => success_response (default 0 (get_u64 raw_ 8)) p | Err e => error_response (default 0 (get_u64 raw_ 8)) e | Panicked => [] end), w')) as Hb' by exact Hb;
      destruct run as [r3 w3] end. cbn [fst] in Hcase. subst r3. by rewrite Hb'.
Qed.

End Retrying.

(** ** A run of it *)

(** Two bytes written at offset 1 through handle 1, the request in two descriptors
    that cut its data. *)
Definition write_f : list Z :=
  fuse_in Op.WRITE 12 2 (put_u64 1 ++ put_u64 1 ++ put_u32 2 ++ put_u32 0 ++ zeros 16 ++ [0x41; 0x42]).
Definition write_chain : list Seg := [(0x4000, 81); (0x4051, 1)].
Definition write_world : World DemoHost :=
  let w := mkWorld (w_fs demo_world) (request_ram write_f) (w_host demo_world) [] in
  (handle_fuse [] (open_f 1) 4096 (handle_fuse [] lookup_f 4096 w).2).2.

(** The same session, with a signal waiting to interrupt the next write. *)
Definition signalled_world : World DemoHost :=
  mkWorld (w_fs write_world) (w_ram write_world) (mkDemoHost (demo_contents (w_host write_world)) false 1) (w_log write_world).

Lemma zero_copy_write_equiv_witness :
  exists r w2, handle_fuse (HF := retrying) [] write_f 4096 signalled_world = (Ok r, w2) /\
    Buffered r = Buffered (success_response 12 (put_u32 2 ++ put_u32 0)) /\ demo_contents (w_host w2) = [1; 0x41; 0x42] /\
    (handle_fuse [] write_f 4096 signalled_world).1 = Ok (error_response 12 EIO).
Proof.
  set (w1 := (write_direct 2 12 82 write_chain signalled_world).2).
  assert (write_direct 2 12 82 write_chain signalled_world = (Ok (Some (Buffered (success_response 12 (put_u32 2 ++ put_u32 0)))), w1)) as Hd.
  { assert ((write_direct 2 12 82 write_chain signalled_world).1 = Ok (Some (Buffered (success_response 12 (put_u32 2 ++ put_u32 0)))))
      as Hx by (vm_compute; reflexivity). unfold w1. destruct (write_direct 2 12 82 write_chain signalled_world). cbn [fst snd] in *. by rewrite Hx. }
  destruct (zero_copy_write_equiv [] 4096 write_chain write_f signalled_world (Buffered (success_response 12 (put_u32 2 ++ put_u32 0))) w1)
    as (r & w2 & k & signals & file & offset & data & later & before & Hr & Heq & _ & _ & Hh & _ & Hl & _ & Hs).
  - change (w_ram signalled_world) with (request_ram write_f). apply request_ram_ok.
  - by repeat constructor.
  - vm_compute. reflexivity.
  - vm_compute. reflexivity.
  - vm_compute. reflexivity.
  - vm_compute. discriminate.
  - exact Hd.
  - exists r, w2. rewrite <-Hh. split; [exact Hr|]. split; [by rewrite Heq|]. split; [vm_compute; reflexivity|].
    assert ((handle_fuse [] write_f 4096 signalled_world).1 = Ok (error_response 12 EIO)) as E by (vm_compute; reflexivity). exact E.
Defined.
