(* ===== verification/FsReply.v ===== *)
(** * The form of replies

    Every reply has a header that says how long it is, which request it answers and
    with which error; INIT offers no more pages than the smallest ring has room for;
    the ranges of POSIX locks on the way to the host and back. *)

From S2P Require Import Prelude Memory Queue FsWire FsHost FsState FsDirs FsNodes FsOps FsIo FsReaddir FsServer FsDev FsDemo FsInv FsSafe.
Local Open Scope Z_scope.

(** ** Reading back what was put *)

Lemma le_val_mod n v : le_val (le_bytes n v) = v mod 2 ^ (8 * Z.of_nat n).
Proof.
  revert v. induction n as [|n IH]; intros v; cbn [le_val le_bytes]; [by rewrite Z.mod_1_r|].
  rewrite IH, pow_8_S. rewrite (Z.rem_mul_r v (2 ^ 8)) by lia. lia.
Qed.

Lemma get_u32_at l v r o : o = zlen l -> get_u32 (l ++ put_u32 v ++ r) o = Some (v mod 2 ^ 32).
Proof.
  intros ->. unfold get_u32, put_u32. rewrite (get_range_app3 l (le_bytes 4 v) r) by (rewrite ?zlen_le_bytes; done).
  cbn [fmap option_fmap option_map]. by rewrite le_val_mod.
Qed.
Lemma get_u64_at l v r o : o = zlen l -> get_u64 (l ++ put_u64 v ++ r) o = Some (v mod 2 ^ 64).
Proof.
  intros ->. unfold get_u64, put_u64. rewrite (get_range_app3 l (le_bytes 8 v) r) by (rewrite ?zlen_le_bytes; done).
  cbn [fmap option_fmap option_map]. by rewrite le_val_mod.
Qed.

(** ** The header of a reply *)

(** A reply to request [unique] with an error, 0 for none, and a payload. *)
Record reply_to (unique error : Z) (payload r : list Z) : Prop := {
  rt_len : zlen r = OUT_HEADER_LEN + zlen payload;
  rt_len_at : get_u32 r 0 = Some (zlen r mod 2 ^ 32);
  rt_error_at : get_u32 r 4 = Some ((- error) mod 2 ^ 32);
  rt_unique_at : get_u64 r 8 = Some unique;
  rt_payload_at : get_from r OUT_HEADER_LEN = Some payload }.

Lemma header_reply len err unique payload : 0 <= unique < 2 ^ 64 -> len = OUT_HEADER_LEN + zlen payload ->
  reply_to unique (- err) payload (put_u32 len ++ put_i32 err ++ put_u64 unique ++ payload).
Proof.
  intros Hu ->. unfold OUT_HEADER_LEN.
  assert (zlen (put_u32 (16 + zlen payload) ++ put_i32 err ++ put_u64 unique ++ payload) = 16 + zlen payload) as Hl.
  { unfold put_u32, put_i32, put_u64. rewrite !zlen_app, !zlen_le_bytes. lia. }
  constructor; rewrite ?Hl; unfold OUT_HEADER_LEN; try lia.
  - apply (get_u32_at []). done.
  - rewrite Z.opp_involutive. apply get_u32_at. unfold put_u32. by rewrite zlen_le_bytes.
  - rewrite app_assoc, get_u64_at by (unfold put_u32, put_i32; rewrite zlen_app, !zlen_le_bytes; done).
    by rewrite Z.mod_small.
  - apply get_from_Some. rewrite Hl. split; [pose proof (zlen_nonneg payload); lia|].
    rewrite !app_assoc, drop_app_length'; [done|]. rewrite !length_app. unfold put_u32, put_i32, put_u64. by rewrite !length_le_bytes.
Qed.

Lemma success_reply unique payload : 0 <= unique < 2 ^ 64 -> reply_to unique 0 payload (success_response unique payload).
Proof. intros. by apply (header_reply _ 0). Qed.
Lemma error_reply unique errno : 0 <= unique < 2 ^ 64 -> reply_to unique (Z.abs errno) [] (error_response unique errno).
Proof.
  intros. unfold error_response. rewrite <-(Z.opp_involutive (Z.abs errno)) at 1.
  rewrite <-(app_nil_r (put_u64 unique)). by apply header_reply.
Qed.

(** C25. Every answer is of one of three forms. A request whose declared length is
    shorter than its header or longer than what arrived is answered EINVAL, whatever
    its opcode. Any other FORGET, BATCH_FORGET or DESTROY is answered with nothing at
    all. Any other request is answered with nothing only when it is a lock that now
    waits, and otherwise with a reply to it: the reply carries its own length, the
    request's unique number and, after 16 bytes of header, a payload with error 0, or
    nothing with the error negated. *)
Theorem fuse_reply_wellformed {H} `{HostFs H} queues raw_ max_out (w : World H) r w' :
  bytes_ok raw_ -> handle_fuse queues raw_ max_out w = (Ok r, w') ->
  let declared := default 0 (get_u32 raw_ 0) in
  let opcode := default 0 (get_u32 raw_ 4) in
  let unique := default 0 (get_u64 raw_ 8) in
  if bool_decide (40 <= declared <= zlen raw_) then
    if bool_decide (opcode ∈ [Op.FORGET; Op.BATCH_FORGET; Op.DESTROY]) then r = []
    else (r = [] /\ is_Some (lock_to_park (w_fs w'))) \/
      exists error payload, reply_to unique error payload r /\ 0 <= error /\ (error <> 0 -> payload = [])
  else reply_to unique EINVAL [] r.
Proof.
  intros Hraw. unfold handle_fuse. cbv zeta. intros (u & w0 & _ & E)%bind_ok.
  assert (0 <= default 0 (get_u64 raw_ 8) < 2 ^ 64) as Hu.
  { destruct (get_u64 raw_ 8) as [v|] eqn:Ev; cbn; [by eapply get_u64_range|lia]. }
  set (declared := default 0 (get_u32 raw_ 0)) in *. unfold IN_HEADER_LEN in E at 1.
  destruct (_ || _) eqn:Hbad; [rewrite bool_decide_false by (apply orb_true_iff in Hbad as [?%Z.ltb_lt|?%Z.ltb_lt]; lia); injection E as <- <-; exact (error_reply _ EINVAL Hu)|].
  rewrite bool_decide_true by (apply orb_false_iff in Hbad as [?%Z.ltb_ge ?%Z.ltb_ge]; lia).
  apply bind_ok in E as (payload & w1 & _ & E). set (op := default 0 (get_u32 raw_ 4)) in *. clearbody op.
  case_bool_decide as Hs.
  - rewrite !elem_of_cons in Hs. destruct Hs as [->|[->|[->|[]%not_elem_of_nil]]]; cbn in E; by injection E as <- <-.
  - rewrite !elem_of_cons in Hs. rewrite !(proj2 (Z.eqb_neq op _)) in E by naive_solver.
    apply bind_ok in E as (x & w2 & _ & E). apply bind_ok in E as (parked & w3 & [= <- <-] & [= <- <-]).
    destruct (bool_decide (is_Some (lock_to_park (w_fs w2)))) eqn:Hp;
      [apply bool_decide_eq_true in Hp; by left|]. right. destruct x as [p|e].
    + exists 0, p. split_and!; [by apply success_reply|done..].
    + exists (Z.abs e), []. split_and!; [by apply error_reply|lia|done..].
Qed.

Lemma fuse_reply_wellformed_witness :
  exists r w', handle_fuse [] lookup_f 4096 demo_world = (Ok r, w') /\ get_u64 r 8 = Some 7.
Proof.
  destruct (handle_fuse [] lookup_f 4096 demo_world) as [[r|e|] w'] eqn:E;
    [|apply (f_equal (fun x : Res (list Z) * World DemoHost => match x.1 with Ok _ => true | _ => false end)) in E; vm_compute in E; discriminate E..].
  exists r, w'. split; [done|].
  assert (r <> []) as Hne.
  { intros ->. apply (f_equal (fun x : Res (list Z) * World DemoHost => match x.1 with Ok [] => true | _ => false end)) in E. vm_compute in E. discriminate E. }
  assert (bytes_ok lookup_f) as Hb by (repeat (constructor; [split; done|]); constructor).
  pose proof (fuse_reply_wellformed [] lookup_f 4096 demo_world r w' Hb E) as Hr. cbv zeta in Hr.
  assert (default 0 (get_u32 lookup_f 0) = zlen lookup_f /\ default 0 (get_u32 lookup_f 4) = 1 /\ 40 <= zlen lookup_f) as (Hd & Ho & Hl)
    by (vm_compute; split_and!; [reflexivity..|discriminate]).
  rewrite Hd, Ho, bool_decide_true, bool_decide_false in Hr; [|by rewrite !elem_of_cons, elem_of_nil; intros [|[|[|]]]|lia].
  destruct Hr as [[Hr _]|(err & p & [_ _ _ Hu _] & _)]; [exfalso; exact (Hne Hr)|].
  rewrite Hu. vm_compute. reflexivity.
Defined.

(** ** What INIT offers *)

Lemma foldr_min_le (l : list Z) n x : x ∈ n :: l -> foldr Z.min n l <= x.
Proof.
  induction l as [|y l IH]; cbn; intros Hx.
  - apply list_elem_of_singleton in Hx as ->. lia.
  - apply elem_of_cons in Hx as [->|[->|Hx]%elem_of_cons]; [|lia|].
    + etrans; [apply Z.le_min_r|]. apply IH. by left.
    + etrans; [apply Z.le_min_r|]. apply IH. by right.
Qed.
Lemma foldr_min_in (l : list Z) n : foldr Z.min n l ∈ n :: l.
Proof.
  induction l as [|y l IH]; cbn; [by left|]. destruct (Z.min_spec y (foldr Z.min n l)) as [[_ ->]|[_ ->]]; [by right; left|].
  apply elem_of_cons in IH as [->|IH]; [by left|by right; right].
Qed.

(** The ring INIT counts with: none, or one of the programmed and the smallest. *)
Lemma init_ring_spec queues :
  (init_ring queues = 0 /\ forall q, q ∈ queues -> Queue.size q = 0) \/
  (init_ring queues <> 0 /\ (exists q, q ∈ queues /\ Queue.size q = init_ring queues) /\
   forall q, q ∈ queues -> Queue.size q <> 0 -> init_ring queues <= Queue.size q).
Proof.
  unfold init_ring. set (sizes := List.filter _ _).
  assert (forall x, x ∈ sizes <-> x <> 0 /\ exists q, q ∈ queues /\ Queue.size q = x) as Hin.
  { intros x. unfold sizes. rewrite list_elem_of_In, filter_In, <-list_elem_of_In, list_elem_of_fmap, negb_true_iff, Z.eqb_neq.
    split; [intros [(q & -> & ?) ?]; eauto|intros [? (q & ? & <-)]; eauto]. }
  clearbody sizes. destruct sizes as [|n l]; [left|right].
  - split; [done|]. intros q Hq. destruct (decide (Queue.size q = 0)); [done|]. exfalso.
    apply (not_elem_of_nil (Queue.size q)), Hin. eauto.
  - destruct (proj1 (Hin _) (foldr_min_in l n)) as [Hne Hq]. split; [done|]. split; [done|].
    intros q Hq' Hs. apply foldr_min_le, Hin. eauto.
Qed.

(** A request of [pages] pages, one descriptor each, with its headers and all the
    descriptors parked locks may hold, in a ring of [size]. *)
Definition fits_ring (pages size : Z) : Prop := pages + FUSE_HEADER_OVERHEAD + lock_cap size <= size.

(** What INIT offers fits the ring. A request of the largest size offered, one
    descriptor a page, with the headers beside it fits every programmed ring even
    while parked locks hold all the descriptors they may: at least one page and at
    most the largest write, and the limit in bytes is exactly that many pages. The
    reply is 64 bytes, and the flags in it are flags the guest asked for. *)
Theorem init_fits_ring {H} `{HostFs H} queues input (w : World H) out w' :
  Forall (fun q => Queue.size q = 0 \/ 6 <= Queue.size q) queues -> get_u32 input 0 = Some 7 ->
  init queues input w = (Ok out, w') ->
  exists pages, 1 <= pages <= MAX_WRITE / 4096 /\ zlen out = 64 /\
    get_u32 out 20 = Some (pages * 4096) /\ get_range out 28 30 = Some (put_u16 pages) /\
    (exists flags, get_u32 out 12 = Some flags /\ Z.land flags (default 0 (get_u32 input 12)) = flags) /\
    forall q, q ∈ queues -> Queue.size q <> 0 -> fits_ring pages (Queue.size q).
Proof.
  intros Hq Hmaj. unfold init. rewrite Hmaj. cbn [ok_or]. intros (? & ? & [= <- <-] & (minor & w1 & _ & E)%bind_ok)%bind_ok.
  cbn [Z.eqb Pos.eqb negb] in E. apply bind_ok in E as (sup & w2 & [= <- <-] & E). cbv zeta in E.
  match type of E with ret ?o _ = _ => assert (out = o) as -> by (unfold ret in E; congruence) end. clear E.
  exists (init_max_pages queues).
  assert (1 <= init_max_pages queues <= MAX_WRITE / 4096) as Hp.
  { unfold init_max_pages. case_match; [done|]. change (MAX_WRITE / 4096) with 256. lia. }
  change (MAX_WRITE / 4096) with 256 in *. split; [done|].
  set (flags := Z.land (default 0 (get_u32 input 12)) _). set (pages := init_max_pages queues) in *.
  match goal with |- context [zeros (64 - length ?o)] => set (out := o) end. assert (length out = 36%nat) as Hlen.
  { unfold out, put_u32, put_u16. by rewrite !length_app, !length_le_bytes. }
  rewrite Hlen. change (64 - 36)%nat with 28%nat. unfold out. rewrite <-!app_assoc. split_and!.
  - unfold zlen. rewrite !length_app. unfold put_u32, put_u16. by rewrite !length_le_bytes.
  - do 5 rewrite app_assoc. rewrite get_u32_at by (unfold put_u32, put_u16; rewrite !zlen_app, !zlen_le_bytes; done).
    f_equal. apply Z.mod_small. lia.
  - do 7 rewrite app_assoc.
    apply get_range_app3; unfold put_u32, put_u16; rewrite !zlen_app, !zlen_le_bytes; done.
  - exists (flags mod 2 ^ 32). split; [do 2 rewrite app_assoc; apply get_u32_at; unfold put_u32; rewrite !zlen_app, !zlen_le_bytes; done|].
    rewrite <-Z.land_ones by done. unfold flags. apply Z.bits_inj'. intros i _. rewrite !Z.land_spec.
    by destruct (Z.testbit (default 0 (get_u32 input 12)) i), (Z.testbit (Z.ones 32) i), (Z.testbit (init_supported _) i).
  - intros q Hin Hne. unfold fits_ring, pages, init_max_pages, saturating_sub, lock_cap, FUSE_HEADER_OVERHEAD.
    change (MAX_WRITE / 4096) with 256. destruct (init_ring_spec queues) as [[_ Hz]|(Hr & (q0 & Hq0 & E0) & Hmin)]; [by apply Hz in Hin|].
    specialize (Hmin q Hin Hne). rewrite Forall_forall in Hq. specialize (Hq q0 Hq0).
    destruct (Z.eqb_spec (init_ring queues) 0) as [|_]; [done|]. set (R := init_ring queues) in *. set (n := Queue.size q) in *.
    pose proof (Z.div_mod R 4). pose proof (Z.mod_pos_bound R 4). pose proof (Z.div_mod n 4). pose proof (Z.mod_pos_bound n 4). lia.
Qed.

Definition ring_of (n : Z) : Queue := mkQueue n true 0 0 0 0.

Lemma init_fits_ring_witness :
  exists out w', init [ring_of 0; ring_of 8] (put_u32 7 ++ put_u32 39 ++ put_u32 0 ++ put_u32 0) demo_world = (Ok out, w') /\ get_u32 out 20 = Some 8192.
Proof.
  destruct (init [ring_of 0; ring_of 8] (put_u32 7 ++ put_u32 39 ++ put_u32 0 ++ put_u32 0) demo_world) as [[out|e|] w'] eqn:E;
    [|apply (f_equal (fun x : Res (list Z) * World DemoHost => match x.1 with Ok _ => true | _ => false end)) in E; vm_compute in E; discriminate E..].
  exists out, w'. split; [done|].
  destruct (init_fits_ring [ring_of 0; ring_of 8] (put_u32 7 ++ put_u32 39 ++ put_u32 0 ++ put_u32 0) demo_world out w') as (pages & [Hp _] & _ & -> & Hb & _ & Hf).
  - constructor; [by left|constructor; [by right|constructor]].
  - vm_compute. reflexivity.
  - exact E.
  - assert (pages + 4 + 2 <= 8) by exact (Hf (ring_of 8) ltac:(right; left) ltac:(discriminate)). destruct (decide (pages = 2)) as [->|Hne]; [done|]. assert (pages = 1) as -> by lia.
    apply (f_equal (fun x : Res (list Z) * World DemoHost => match x.1 with Ok o => get_range o 28 30 | _ => None end)) in E.
    cbn [fst] in E. rewrite Hb in E. vm_compute in E. discriminate E.
Defined.

(** ** POSIX lock ranges *)

(** The end of a range as the guest reads it back: every end past the signed range
    is the end of the file. *)
Definition reported_end (end_ : Z) : Z := if 2 ^ 63 - 1 <=? end_ then 2 ^ 64 - 1 else end_.

(** The range of a lock on the way to the host and back. A start past the signed
    range is EFBIG and an end before the start EINVAL; every other request becomes
    a range the host's signed fields hold, with length 0 for one through the end of
    the file, and the guest reads the same bounds back, except that an unbounded
    lock, which it asked for with an end of 2^63-1 or more, is reported with an end
    of 2^64-1. *)
Theorem lock_range_roundtrip (start end_ : Z) (t : LockType) (pid : Z) :
  0 <= start < 2 ^ 64 -> 0 <= end_ < 2 ^ 64 ->
  match lock_range start end_ with
  | inr e => (e = EFBIG /\ 2 ^ 63 <= start) \/ (e = EINVAL /\ end_ < start < 2 ^ 63 /\ end_ < 2 ^ 63 - 1)
  | inl (s, len) =>
      0 <= s < 2 ^ 63 /\ 0 <= len < 2 ^ 63 /\ (len = 0 <-> 2 ^ 63 - 1 <= end_) /\
      lock_reply_range (mkFLock s len pid t) = (start, reported_end end_)
  end.
Proof.
  intros Hs He. unfold lock_range, reported_end. destruct (Z.ltb_spec (2 ^ 63 - 1) start); [left; split; [done|lia]|].
  destruct (Z.leb_spec (2 ^ 63 - 1) end_).
  - unfold lock_reply_range. cbn [l_start l_len Z.eqb]. rewrite Z.max_l by lia. split_and!; try done; lia.
  - destruct (Z.ltb_spec end_ start); [right; split_and!; [done|lia..]|]. rewrite Z.min_l by lia.
    destruct (Z.ltb_spec (2 ^ 63 - 1) (end_ - start + 1)); [lia|]. unfold lock_reply_range. cbn [l_start l_len].
    rewrite Z.max_l by lia. destruct (Z.eqb_spec (end_ - start + 1) 0); [lia|]. unfold u64, saturating_sub. rewrite Z.mod_small by lia.
    split_and!; [lia..|f_equal; lia].
Qed.

Lemma lock_range_roundtrip_witness :
  lock_range 10 19 = inl (10, 10) /\ lock_reply_range (mkFLock 10 10 0 F_RDLCK) = (10, 19).
Proof. pose proof (lock_range_roundtrip 10 19 F_RDLCK 0 ltac:(done) ltac:(done)) as (_ & _ & _ & Hr). split; [done|exact Hr]. Defined.
