(* ===== verification/FsReadahead.v ===== *)
(** * The readahead of directory listings ([Readahead], [src/devices/virtio/fs/server.rs])

    Two workers prepare listings ahead of the guest; the serving thread asks for
    them, takes them and drops them all when a request changes the share. What the
    threads share is one record under one lock, so each critical section is a
    function on it, and the threads are a step relation over those functions: a
    worker at the top of its loop, spinning, waiting on the condition variable,
    reading a directory without the lock, or gone. *)

From S2P Require Import Prelude Memory FsWire FsHost FsState FsDirs FsNodes FsIo FsDemo FsInv FsCaches FsSafe FsSafeIo FsSafeDev.
Local Open Scope Z_scope.

Definition READAHEAD_MAX_DIRS : nat := 256.
Definition READAHEAD_MAX_QUEUED : nat := 64.
Definition READAHEAD_SUBDIRS_PER_DIR : nat := Nat.div READAHEAD_MAX_QUEUED 2.
Definition READAHEAD_DEPTH : Z := 3.
Definition READAHEAD_WORKERS : nat := 2.

Record QueuedDir := mkQueued { q_path : path; q_parent : Fd; q_name : list Z; q_depth : Z }.

(** [ReadaheadState]; the queue has its earliest entry first. *)
Record ReadaheadState := mkRa {
  ra_queue : list QueuedDir;
  ra_order : list path;
  in_flight : gset path;
  ra_skip : gset path;
  ra_cache : gmap path PreparedDir;
  generation : Z;
  ra_stopped : bool }.

Definition ra_new : ReadaheadState := mkRa [] [] ∅ ∅ ∅ 0 false.

Definition set_ra_queue v (s : ReadaheadState) :=
  mkRa v (ra_order s) (in_flight s) (ra_skip s) (ra_cache s) (generation s) (ra_stopped s).
Definition set_ra_cache o c (s : ReadaheadState) :=
  mkRa (ra_queue s) o (in_flight s) (ra_skip s) c (generation s) (ra_stopped s).
Definition set_in_flight v (s : ReadaheadState) :=
  mkRa (ra_queue s) (ra_order s) v (ra_skip s) (ra_cache s) (generation s) (ra_stopped s).
Definition set_ra_skip v (s : ReadaheadState) :=
  mkRa (ra_queue s) (ra_order s) (in_flight s) v (ra_cache s) (generation s) (ra_stopped s).

(** ** Under the lock *)

(** A directory already queued moves to the end with the shallower depth; a full
    queue drops its front. *)
Definition ra_push (dir : QueuedDir) (s : ReadaheadState) : ReadaheadState :=
  let '(dir, queue) :=
    match position (fun q => bool_decide (q_path q = q_path dir)) (ra_queue s) with
    | Some pos =>
        (match ra_queue s !! pos with
         | Some q => mkQueued (q_path dir) (q_parent dir) (q_name dir) (Z.min (q_depth dir) (q_depth q))
         | None => dir
         end, remove_at pos (ra_queue s))
    | None => (dir, ra_queue s)
    end in
  let queue := if (READAHEAD_MAX_QUEUED <=? length queue)%nat then tail queue else queue in
  set_ra_queue (queue ++ [dir]) s.

(** Prepared, or being read. *)
Definition known (p : path) (s : ReadaheadState) : bool :=
  bool_decide (is_Some (ra_cache s !! p)) || bool_decide (p ∈ in_flight s).

Definition queue_subdirs (p : path) (entries : list PreparedEntry) (dir_fd : Fd) (depth : Z) (s : ReadaheadState) : ReadaheadState :=
  let subdirs := take READAHEAD_SUBDIRS_PER_DIR (List.filter (fun e => is_dir (p_meta e)) entries) in
  foldr (fun e s =>
    let child := join p (e_name (p_info e)) in
    if known child s then s
    else match cstring (e_name (p_info e)) with
    | None => s
    | Some n => ra_push (mkQueued child dir_fd n depth) s
    end) s subdirs.

Definition mark_served (p : path) (s : ReadaheadState) : ReadaheadState :=
  if bool_decide (p ∈ in_flight s) || existsb (fun q => bool_decide (q_path q = p)) (ra_queue s)
  then set_ra_skip ({[p]} ∪ ra_skip s) s else s.

Definition take_prepared (p : path) (s : ReadaheadState) : option PreparedDir * ReadaheadState :=
  match ra_cache s !! p with
  | None => (None, s)
  | Some d =>
      let s := set_ra_cache (remove_first (fun q => bool_decide (q = p)) (ra_order s)) (delete p (ra_cache s)) s in
      (Some d, mark_served p s)
  end.

(** [request]: [false] when there is nothing to do. *)
Definition ra_request (p : path) (parent : Fd) (n : list Z) (s : ReadaheadState) : bool * ReadaheadState :=
  if known p s then (false, s)
  else (true, ra_push (mkQueued p parent n 0) (set_ra_skip (ra_skip s ∖ {[p]}) s)).

(** [take], up to its wait ([inr] when a worker is reading the directory), and
    after it. *)
Definition take_now (p : path) (s : ReadaheadState) : (option PreparedDir + unit) * ReadaheadState :=
  match take_prepared p s with
  | (Some d, s) => (inl (Some d), s)
  | (None, s) => if bool_decide (p ∈ in_flight s) then (inr tt, s) else (inl None, mark_served p s)
  end.
Definition take_waited (p : path) (s : ReadaheadState) : option PreparedDir * ReadaheadState :=
  match take_prepared p s with
  | (Some d, s) => (Some d, s)
  | (None, s) => (None, mark_served p s)
  end.

(** The generation is a [u64] that 2^64 requests would overflow. *)
Definition ra_invalidate (s : ReadaheadState) : ReadaheadState :=
  mkRa [] [] (in_flight s) ∅ ∅ (generation s + 1) (ra_stopped s).

Definition ra_stop (s : ReadaheadState) : ReadaheadState :=
  mkRa (ra_queue s) (ra_order s) (in_flight s) (ra_skip s) (ra_cache s) (generation s) true.

(** [skip] is emptied when no worker can reach a path in it. *)
Definition clear_skip (s : ReadaheadState) : ReadaheadState :=
  if bool_decide (ra_queue s = []) && bool_decide (in_flight s = ∅) then set_ra_skip ∅ s else s.

(** ** A worker's critical sections *)

(** What a worker finds at the top of its loop. *)
Inductive Found := FStop | FEmpty | FDropped (s : ReadaheadState) | FRead (q : QueuedDir) (s : ReadaheadState).

Definition worker_top (s : ReadaheadState) : Found :=
  if ra_stopped s then FStop
  else match last (ra_queue s) with
  | None => FEmpty
  | Some q =>
      let p := q_path q in
      let s := set_ra_queue (removelast (ra_queue s)) s in
      if bool_decide (p ∈ ra_skip s) || known p s
      then FDropped (clear_skip (set_ra_skip (ra_skip s ∖ {[p]}) s))
      else FRead q (set_in_flight ({[p]} ∪ in_flight s) s)
  end.

(** The eviction loop, over the prepared listings in the order they came. *)
Fixpoint evict_prepared (order : list path) (cache : gmap path PreparedDir) : list path * gmap path PreparedDir :=
  match order with
  | [] => ([], cache)
  | oldest :: rest =>
      if (READAHEAD_MAX_DIRS <=? base.size cache)%nat then evict_prepared rest (delete oldest cache) else (order, cache)
  end.

(** What a worker does with a directory it read from generation [began] on: the
    flag says whether it posted new work. *)
Definition worker_done (q : QueuedDir) (began : Z) (result : option (PreparedDir * Fd)) (s : ReadaheadState) : bool * ReadaheadState :=
  let p := q_path q in
  let s := set_in_flight (in_flight s ∖ {[p]}) s in
  let abandoned := bool_decide (p ∈ ra_skip s) in
  let s := clear_skip (set_ra_skip (ra_skip s ∖ {[p]}) s) in
  match result with
  | Some (prepared, dir_fd) =>
      if negb abandoned && (generation s =? began) then
        let s := if q_depth q <? READAHEAD_DEPTH then queue_subdirs p (pd_entries prepared) dir_fd (q_depth q + 1) s else s in
        let '(order, cache) := evict_prepared (ra_order s) (ra_cache s) in
        (true, set_ra_cache (order ++ [p]) (<[p := prepared]> cache) s)
      else (false, s)
  | None => (false, s)
  end.

(** ** Reading a directory *)

Fixpoint insert_prepared (e : PreparedEntry) (l : list PreparedEntry) : list PreparedEntry :=
  match l with
  | [] => [e]
  | e' :: l => if bytes_le (e_name (p_info e)) (e_name (p_info e')) then e :: e' :: l else e' :: insert_prepared e l
  end.

Section Reading.
Context {H : Type} {HF : HostFs H}.

(** The loop over the entries; [stop_at] is the entry before which the stop flag
    is seen, if it is. *)
Fixpoint prepare_entries (stop_at : option nat) (dir_fd : Fd) (listing : list DirEntryInfo) : M H (option (list PreparedEntry)) :=
  match listing, stop_at with
  | [], _ => ret (Some [])
  | _ :: _, Some O => ret None
  | info :: listing, _ =>
      let stop_at := Nat.pred <$> stop_at in
      match cstring (e_name info) with
      | None => prepare_entries stop_at dir_fd listing
      | Some n =>
          r <- attempt (stat_at dir_fd n) ;;
          match r with
          | inr _ => prepare_entries stop_at dir_fd listing
          | inl meta =>
              r <- attempt (open_entry_nofollow dir_fd n) ;;
              guest <- match r with inl fd => stored_guest_attr fd | inr _ => ret None end ;;
              rest <- prepare_entries stop_at dir_fd listing ;;
              ret (cons (mkPrepared info meta guest) <$> rest)
          end
      end
  end.

Definition prepare_dir (stop_at : option nat) (dir_fd : Fd) : M H (option PreparedDir) :=
  r <- attempt (m <- stat_of_fd dir_fd ;; d <- dup_cloexec dir_fd ;; l <- read_dir_at d ;; ret (m, l)) ;;
  match r with
  | inr _ => ret None
  | inl (m, listing) =>
      entries <- prepare_entries stop_at dir_fd listing ;;
      match entries with
      | None => ret None
      | Some entries =>
          now <- query CClock 0 ;;
          ret (Some (mkPreparedDir (st_ctime m, st_ctime_nsec m) now (foldr insert_prepared [] entries)))
      end
  end.

(** Outside the lock: the one name under the parent, then the directory. *)
Definition read_queued (stop_at : option nat) (q : QueuedDir) : M H (option (PreparedDir * Fd)) :=
  r <- attempt (open_entry_nofollow (q_parent q) (q_name q)) ;;
  match r with
  | inr _ => ret None
  | inl fd => d <- prepare_dir stop_at fd ;; ret (match d with Some d => Some (d, fd) | None => None end)
  end.

End Reading.

(** ** The threads *)

Inductive ReaderPc :=
  | RTop                                  (** about to take the lock *)
  | RSpin (seen : Z)                      (** found no work, watching the counter *)
  | RWait                                 (** in [Condvar::wait] *)
  | RRead (q : QueuedDir) (began : Z)     (** reading, without the lock *)
  | RExit.

(** The shared state, the [posted] counter, the workers, the path the serving
    thread waits for, the listings it took with the generation it took them in, and
    whether [stop] has got past its [notify_all]. *)
Record Readers := mkReaders {
  rd_state : ReadaheadState; rd_posted : Z; rd_workers : list ReaderPc; rd_taker : option path;
  rd_taken : list (Z * path * PreparedDir); rd_stop_told : bool }.

Definition readers_new : Readers := mkReaders ra_new 0 (repeat RTop READAHEAD_WORKERS) None [] false.

Definition notify_all (l : list ReaderPc) : list ReaderPc := map (fun pc => match pc with RWait => RTop | _ => pc end) l.

Definition taken (g : Z) (p : path) (r : option PreparedDir) (l : list (Z * path * PreparedDir)) : list (Z * path * PreparedDir) :=
  match r with Some d => (g, p, d) :: l | None => l end.

(** One critical section or one move of a thread. [reads began q r]: a worker that
    set out in generation [began] may come back from [q] with [r]. [asks p d n]: the
    serving thread may request [p] as [n] under [d]. *)
Inductive rstep (reads : Z -> QueuedDir -> option (PreparedDir * Fd) -> Prop) (asks : path -> Fd -> list Z -> Prop) :
    Readers -> Readers -> Prop :=
  | S_known s c ws t l st p d n :
      asks p d n -> (ra_request p d n s).1 = false ->
      rstep reads asks (mkReaders s c ws t l st) (mkReaders s c ws t l st)
  | S_request s c ws t l st p d n i :
      asks p d n -> (ra_request p d n s).1 = true -> ws !! i = Some RWait ->
      rstep reads asks (mkReaders s c ws t l st) (mkReaders (ra_request p d n s).2 (c + 1) (<[i := RTop]> ws) t l st)
  | S_request_none s c ws t l st p d n :
      asks p d n -> (ra_request p d n s).1 = true -> RWait ∉ ws ->
      rstep reads asks (mkReaders s c ws t l st) (mkReaders (ra_request p d n s).2 (c + 1) ws t l st)
  | S_take s c ws l st p r s' :
      take_now p s = (inl r, s') ->
      rstep reads asks (mkReaders s c ws None l st) (mkReaders s' c ws None (taken (generation s) p r l) st)
  | S_take_wait s c ws l st p s' :
      take_now p s = (inr tt, s') ->
      rstep reads asks (mkReaders s c ws None l st) (mkReaders s' c ws (Some p) l st)
  | S_take_waited s c ws l st p r s' :
      take_waited p s = (r, s') ->
      rstep reads asks (mkReaders s c ws (Some p) l st) (mkReaders s' c ws None (taken (generation s) p r l) st)
  | S_invalidate s c ws t l st :
      rstep reads asks (mkReaders s c ws t l st) (mkReaders (ra_invalidate s) c ws t l st)
  | S_stop s c ws t l st :
      rstep reads asks (mkReaders s c ws t l st) (mkReaders (ra_stop s) c ws t l st)
  | S_stop_told s c ws t l st :
      ra_stopped s = true ->
      rstep reads asks (mkReaders s c ws t l st) (mkReaders s (c + 1) (notify_all ws) t l true)
  | S_top_stop s c ws t l st i :
      ws !! i = Some RTop -> worker_top s = FStop ->
      rstep reads asks (mkReaders s c ws t l st) (mkReaders s c (<[i := RExit]> ws) t l st)
  | S_top_empty s c ws t l st i :
      ws !! i = Some RTop -> worker_top s = FEmpty ->
      rstep reads asks (mkReaders s c ws t l st) (mkReaders s c (<[i := RSpin c]> ws) t l st)
  | S_top_dropped s c ws t l st i s' :
      ws !! i = Some RTop -> worker_top s = FDropped s' ->
      rstep reads asks (mkReaders s c ws t l st) (mkReaders s' c ws t l st)
  | S_top_read s c ws t l st i q s' :
      ws !! i = Some RTop -> worker_top s = FRead q s' ->
      rstep reads asks (mkReaders s c ws t l st) (mkReaders s' c (<[i := RRead q (generation s)]> ws) t l st)
  | S_spin_again s c ws t l st i seen :
      ws !! i = Some (RSpin seen) -> (c =? seen) && negb (ra_stopped s) = false ->
      rstep reads asks (mkReaders s c ws t l st) (mkReaders s c (<[i := RTop]> ws) t l st)
  | S_spin_wait s c ws t l st i seen :
      ws !! i = Some (RSpin seen) -> (c =? seen) && negb (ra_stopped s) = true ->
      rstep reads asks (mkReaders s c ws t l st) (mkReaders s c (<[i := RWait]> ws) t l st)
  | S_spurious s c ws t l st i :
      ws !! i = Some RWait ->
      rstep reads asks (mkReaders s c ws t l st) (mkReaders s c (<[i := RTop]> ws) t l st)
  | S_read_quiet s c ws t l st i q began r :
      ws !! i = Some (RRead q began) -> reads began q r -> (worker_done q began r s).1 = false ->
      rstep reads asks (mkReaders s c ws t l st) (mkReaders (worker_done q began r s).2 c (<[i := RTop]> ws) t l st)
  | S_read_posts s c ws t l st i q began r :
      ws !! i = Some (RRead q began) -> reads began q r -> (worker_done q began r s).1 = true ->
      rstep reads asks (mkReaders s c ws t l st) (mkReaders (worker_done q began r s).2 (c + 1) (notify_all (<[i := RTop]> ws)) t l st).

(** ** Lists *)

Lemma elem_of_remove_first_path (l : list path) p x :
  NoDup l -> x ∈ remove_first (fun q => bool_decide (q = p)) l <-> x ∈ l /\ x <> p.
Proof.
  intros Hnd. unfold remove_first. destruct (position _ l) as [i|] eqn:E.
  - apply position_spec in E as (y & Hy & ->%bool_decide_eq_true). by apply elem_of_remove_at.
  - split; [|by intros []]. intros Hx. split; [done|]. apply (position_none _ _ x E), bool_decide_eq_false in Hx. done.
Qed.

Lemma map_remove_at {A B} (f : A -> B) i l : map f (remove_at i l) = remove_at i (map f l).
Proof. revert i. induction l as [|x l IH]; intros [|i]; simpl; [done..|]. by rewrite IH. Qed.

Lemma elem_of_tail {A} (l : list A) x : x ∈ tail l -> x ∈ l.
Proof. destruct l; [done|]. by right. Qed.

Lemma last_removelast {A} (l : list A) x : last l = Some x -> l = removelast l ++ [x].
Proof.
  intros Hl. destruct l as [|y l]; [done|]. rewrite (app_removelast_last y (l := y :: l)) at 1 by done. do 2 f_equal.
  apply last_Some in Hl as [k Hk]. rewrite Hk. by rewrite List.last_last.
Qed.

(** ** What each critical section keeps

    [named d n] is what is known of every name and the descriptor it is opened
    under; the bounds do not depend on it. *)
Section Keeps.
Context (named : Fd -> list Z -> Prop).

Definition queued_ok (q : QueuedDir) : Prop := 0 <= q_depth q <= READAHEAD_DEPTH /\ named (q_parent q) (q_name q).

Record ra_ok (s : ReadaheadState) : Prop := {
  rk_len : (length (ra_queue s) <= READAHEAD_MAX_QUEUED)%nat;
  rk_paths : NoDup (map q_path (ra_queue s));
  rk_queued : Forall queued_ok (ra_queue s);
  rk_order : NoDup (ra_order s);
  rk_cached : forall p, p ∈ ra_order s <-> is_Some (ra_cache s !! p);
  rk_size : (base.size (ra_cache s) <= READAHEAD_MAX_DIRS)%nat }.

(** The sections that touch neither the queue nor the cache. *)
Definition same_work (s s' : ReadaheadState) : Prop :=
  ra_queue s' = ra_queue s /\ ra_order s' = ra_order s /\ ra_cache s' = ra_cache s /\ in_flight s' = in_flight s /\
  generation s' = generation s /\ ra_stopped s' = ra_stopped s.

Lemma same_work_ok s s' : same_work s s' -> ra_ok s -> ra_ok s'.
Proof. intros (E1 & E2 & E3 & _) []. constructor; by rewrite ?E1, ?E2, ?E3. Qed.

Lemma ra_empty_ok s : ra_queue s = [] -> ra_order s = [] -> ra_cache s = ∅ -> ra_ok s.
Proof.
  intros E1 E2 E3. constructor; rewrite ?E1, ?E2, ?E3, ?map_size_empty; cbn; try constructor; try lia.
  - intros Hp. by apply elem_of_nil in Hp.
  - rewrite lookup_empty. by intros [].
Qed.

Lemma mark_served_same p s : same_work s (mark_served p s).
Proof. unfold mark_served. by destruct (_ || _). Qed.
Lemma clear_skip_same s : same_work s (clear_skip s).
Proof. unfold clear_skip. by destruct (_ && _). Qed.
Lemma set_ra_skip_same v s : same_work s (set_ra_skip v s).
Proof. done. Qed.

Lemma ra_push_ok dir s : ra_ok s -> queued_ok dir -> ra_ok (ra_push dir s).
Proof.
  intros [Hl Hp Hq Ho Hc Hz] [Hd Hn]. unfold ra_push.
  destruct (position _ (ra_queue s)) as [pos|] eqn:E.
  - destruct (position_spec _ _ _ E) as (q & Hpos & Heq%bool_decide_eq_true). rewrite Hpos.
    assert (queued_ok q) as [Hdq _] by (eapply Forall_lookup_1; [exact Hq|exact Hpos]).
    set (rest := remove_at pos (ra_queue s)). pose proof (lookup_lt_Some _ _ _ Hpos) as Hlt.
    pose proof (length_remove_at (ra_queue s) pos Hlt) as Hlen. fold rest in Hlen.
    assert (map q_path (ra_queue s) !! pos = Some (q_path dir)) as Hmp by (rewrite list_lookup_fmap, Hpos; simpl; by rewrite Heq).
    assert ((READAHEAD_MAX_QUEUED <=? length rest)%nat = false) as -> by (apply Nat.leb_gt; lia).
    constructor; cbn; try done.
    + rewrite length_app. cbn. lia.
    + rewrite map_app. unfold rest. rewrite map_remove_at. cbn. apply NoDup_app. split_and!; [by apply NoDup_remove_at| |apply NoDup_singleton].
      intros x Hx ->%list_elem_of_singleton. apply (elem_of_remove_at _ _ _ _ Hp Hmp) in Hx. by destruct Hx.
    + apply Forall_app. split; [|apply Forall_singleton; split; [|done]; cbn; unfold READAHEAD_DEPTH in *; lia].
      apply Forall_forall. intros x Hx%elem_of_remove_at_1. rewrite Forall_forall in Hq. auto.
  - set (rest := if (READAHEAD_MAX_QUEUED <=? length (ra_queue s))%nat then tail (ra_queue s) else ra_queue s).
    assert (forall x, x ∈ rest -> x ∈ ra_queue s) as Hsub by (intros x; unfold rest; case_match; [apply elem_of_tail|done]).
    constructor; cbn; try done.
    + rewrite length_app. unfold rest. destruct (Nat.leb_spec READAHEAD_MAX_QUEUED (length (ra_queue s))); [|cbn; lia].
      unfold READAHEAD_MAX_QUEUED in *. destruct (ra_queue s); cbn in *; lia.
    + rewrite map_app. apply NoDup_app. split_and!; [|intros x Hx ->%list_elem_of_singleton|apply NoDup_singleton].
      * unfold rest. case_match; [|done]. destruct (ra_queue s); [done|]. by inversion Hp.
      * apply list_elem_of_fmap in Hx as (q & Hq' & Hin%Hsub). apply (position_none _ _ q E), bool_decide_eq_false in Hin. by apply Hin.
    + apply Forall_app. split; [|by apply Forall_singleton]. apply Forall_forall. intros x Hx%Hsub. rewrite Forall_forall in Hq. auto.
Qed.

Lemma ra_push_frame dir s : ra_order (ra_push dir s) = ra_order s /\ ra_cache (ra_push dir s) = ra_cache s /\
  in_flight (ra_push dir s) = in_flight s /\ generation (ra_push dir s) = generation s /\ ra_stopped (ra_push dir s) = ra_stopped s.
Proof. unfold ra_push. by destruct (position _ _). Qed.

(** The prepared entries of a directory have good names under its descriptor. *)
Definition entries_named (fd : Fd) (l : list PreparedEntry) : Prop :=
  Forall (fun e => forall n, cstring (e_name (p_info e)) = Some n -> named fd n) l.

Lemma queue_subdirs_keeps p entries fd depth s :
  ra_ok s -> entries_named fd entries -> 0 <= depth <= READAHEAD_DEPTH ->
  let s' := queue_subdirs p entries fd depth s in
  ra_ok s' /\ ra_order s' = ra_order s /\ ra_cache s' = ra_cache s /\ in_flight s' = in_flight s /\
  generation s' = generation s /\ ra_stopped s' = ra_stopped s.
Proof.
  intros Hs He Hd. unfold queue_subdirs. cbv zeta.
  assert (entries_named fd (take READAHEAD_SUBDIRS_PER_DIR (List.filter (fun e => is_dir (p_meta e)) entries))) as Hsub.
  { apply Forall_take, Forall_forall. intros e [Hin _]%list_elem_of_In%filter_In. apply list_elem_of_In in Hin.
    unfold entries_named in He. rewrite Forall_forall in He. exact (He e Hin). }
  induction Hsub as [|e l Hn _ IH]; cbn [foldr]; [done|]. set (s1 := foldr _ _ l) in *. destruct IH as (Hok & Eo & Ec & Ef & Eg & Et).
  destruct (known _ _); [done|]. destruct (cstring _) as [n|] eqn:En; [|done].
  destruct (ra_push_frame (mkQueued (join p (e_name (p_info e))) fd n depth) s1) as (-> & -> & -> & -> & ->).
  split; [|done]. apply ra_push_ok; [done|]. split; [done|]. by apply Hn.
Qed.

Lemma take_prepared_keeps p s : ra_ok s ->
  let '(r, s') := take_prepared p s in
  ra_ok s' /\ in_flight s' = in_flight s /\ generation s' = generation s /\ ra_stopped s' = ra_stopped s /\ ra_queue s' = ra_queue s /\
  r = ra_cache s !! p /\ (forall k d, ra_cache s' !! k = Some d -> ra_cache s !! k = Some d).
Proof.
  intros Hs. unfold take_prepared. destruct (ra_cache s !! p) as [d|] eqn:E; [|done].
  set (s1 := set_ra_cache _ _ s). destruct (mark_served_same p s1) as (E1 & E2 & E3 & E4 & E5 & E6).
  rewrite E1, E3, E4, E5, E6. split_and!; try done.
  - apply (same_work_ok s1); [by split_and!|]. destruct Hs. constructor; cbn; try done.
    + by apply NoDup_remove_first.
    + intros x. rewrite elem_of_remove_first_path, rk_cached0 by done. destruct (decide (x = p)) as [->|].
      * rewrite lookup_delete_eq. split; [by intros []|by intros []].
      * rewrite lookup_delete_ne by done. split; [by intros []|done].
    + etrans; [|exact rk_size0]. apply map_subseteq_size, delete_subseteq.
  - cbn. intros k x [_ Hk]%lookup_delete_Some. done.
Qed.

Lemma worker_top_keeps s : ra_ok s ->
  match worker_top s with
  | FStop => ra_stopped s = true
  | FEmpty => ra_queue s = [] /\ ra_stopped s = false
  | FDropped s' => ra_ok s' /\ in_flight s' = in_flight s /\ ra_cache s' = ra_cache s /\ generation s' = generation s /\
      ra_stopped s = false /\ ra_stopped s' = false
  | FRead q s' => ra_ok s' /\ queued_ok q /\ (q_path q ∉ in_flight s) /\ ra_cache s !! q_path q = None /\
      in_flight s' = {[q_path q]} ∪ in_flight s /\ ra_cache s' = ra_cache s /\ generation s' = generation s /\
      ra_stopped s = false /\ ra_stopped s' = false
  end.
Proof.
  intros [Hl Hp Hq Ho Hc Hz]. unfold worker_top. destruct (ra_stopped s) eqn:Es; [done|].
  destruct (last (ra_queue s)) as [q|] eqn:E; [|by apply last_None in E].
  apply last_removelast in E. set (k := removelast (ra_queue s)) in *. rewrite E in Hl, Hp, Hq.
  rewrite map_app in Hp. apply NoDup_app in Hp as (Hp & _ & _). apply Forall_app in Hq as [Hq Hlast]. apply (proj1 (Forall_singleton _ _)) in Hlast.
  rewrite length_app in Hl. set (s1 := set_ra_queue k s). assert (ra_ok s1) as Hs1 by (constructor; cbn; try done; lia).
  destruct (_ || _) eqn:Ek.
  - pose proof (clear_skip_same (set_ra_skip (ra_skip s1 ∖ {[q_path q]}) s1)) as Hsame.
    pose proof (same_work_ok _ _ Hsame (same_work_ok s1 _ (set_ra_skip_same _ s1) Hs1)) as Hok. destruct Hsame as (E1 & E2 & E3 & E4 & E5 & E6).
    rewrite E3, E4, E5, E6. by split_and!.
  - apply orb_false_iff in Ek as [_ Ek]. apply orb_false_iff in Ek as [Ec%bool_decide_eq_false Ef%bool_decide_eq_false].
    split_and!; try done.
    + destruct Hs1. by constructor.
    + by apply eq_None_not_Some.
Qed.

Lemma evict_prepared_keeps (order : list path) (cache : gmap path PreparedDir) :
  NoDup order -> (forall p, p ∈ order <-> is_Some (cache !! p)) ->
  let '(o, c) := evict_prepared order cache in
  NoDup o /\ (forall p, p ∈ o <-> is_Some (c !! p)) /\ (base.size c < READAHEAD_MAX_DIRS)%nat /\
  (forall p d, c !! p = Some d -> cache !! p = Some d).
Proof.
  intros Hnd. revert cache. induction Hnd as [|x order Hx Hnd IH]; intros cache Hc; cbn [evict_prepared].
  - split_and!; try done; [constructor|]. assert (cache = ∅) as ->.
    { apply map_eq. intros p. rewrite lookup_empty. apply eq_None_not_Some. intros Hp%Hc. by apply elem_of_nil in Hp. }
    rewrite map_size_empty. unfold READAHEAD_MAX_DIRS. lia.
  - destruct (Nat.leb_spec READAHEAD_MAX_DIRS (base.size cache)) as [Hs|Hs].
    + specialize (IH (delete x cache)). destruct (evict_prepared order (delete x cache)) as [o c]. destruct IH as (H1 & H2 & H3 & H4).
      { intros p. destruct (decide (p = x)) as [->|].
        - rewrite lookup_delete_eq. split; [done|by intros []].
        - rewrite lookup_delete_ne, <-Hc, elem_of_cons by done. split; [by right|by intros [|]]. }
      split_and!; try done. intros p d [_ Hp]%H4%lookup_delete_Some. done.
    + split_and!; try done. by constructor.
Qed.

Lemma worker_done_keeps q began r s : ra_ok s -> queued_ok q -> ra_cache s !! q_path q = None ->
  (forall d fd, r = Some (d, fd) -> entries_named fd (pd_entries d)) ->
  let '(posts, s') := worker_done q began r s in
  ra_ok s' /\ in_flight s' = in_flight s ∖ {[q_path q]} /\ generation s' = generation s /\ ra_stopped s' = ra_stopped s /\
  (posts = false -> ra_queue s' = ra_queue s) /\
  (forall k d, ra_cache s' !! k = Some d -> ra_cache s !! k = Some d \/
     (k = q_path q /\ generation s = began /\ exists fd, r = Some (d, fd))).
Proof.
  intros Hs [Hd _] Hnone He. unfold worker_done. set (s1 := set_in_flight _ s). set (s2 := clear_skip _).
  destruct (clear_skip_same (set_ra_skip (ra_skip s1 ∖ {[q_path q]}) s1)) as (E1 & E2 & E3 & E4 & E5 & E6). fold s2 in E1, E2, E3, E4, E5, E6.
  assert (ra_ok s2) as Hs2 by (destruct Hs; constructor; rewrite ?E1, ?E2, ?E3; done).
  assert (forall b, ra_ok s2 /\ in_flight s2 = in_flight s ∖ {[q_path q]} /\ generation s2 = generation s /\ ra_stopped s2 = ra_stopped s /\
    (b = false -> ra_queue s2 = ra_queue s) /\ (forall k d, ra_cache s2 !! k = Some d -> ra_cache s !! k = Some d \/
     (k = q_path q /\ generation s = began /\ exists fd, r = Some (d, fd)))) as Hquiet.
  { intros b. rewrite E1, E3, E4, E5, E6. split_and!; try done. by left. }
  destruct r as [[d fd]|]; [|apply Hquiet]. destruct (_ && _) eqn:Eb; [|apply Hquiet].
  apply andb_true_iff in Eb as [_ Eg%Z.eqb_eq]. clear Hquiet.
  set (s3 := if q_depth q <? READAHEAD_DEPTH then _ else s2).
  assert (ra_ok s3 /\ ra_order s3 = ra_order s2 /\ ra_cache s3 = ra_cache s2 /\ in_flight s3 = in_flight s2 /\
    generation s3 = generation s2 /\ ra_stopped s3 = ra_stopped s2) as (H3 & F1 & F2 & F3 & F4 & F5).
  { unfold s3. destruct (Z.ltb_spec (q_depth q) READAHEAD_DEPTH); [|done]. apply queue_subdirs_keeps; [done|by eapply He|lia]. }
  clearbody s3. pose proof (evict_prepared_keeps (ra_order s3) (ra_cache s3) (rk_order _ H3) (rk_cached _ H3)) as Hev.
  destruct (evict_prepared (ra_order s3) (ra_cache s3)) as [o c]. destruct Hev as (V1 & V2 & V3 & V4).
  assert (c !! q_path q = None) as Hcq.
  { destruct (c !! q_path q) eqn:Ex; [|done]. apply V4 in Ex. rewrite F2, E3 in Ex. change (ra_cache _) with (ra_cache s) in Ex. congruence. }
  cbn. rewrite F3, F4, F5, E4, E5, E6. split_and!; try done.
  - destruct H3. constructor; cbn; try done.
    + apply NoDup_app. split_and!; [done| |apply NoDup_singleton]. intros x Hx%V2 ->%list_elem_of_singleton. rewrite Hcq in Hx. by destruct Hx.
    + intros p. rewrite elem_of_app, V2, list_elem_of_singleton. destruct (decide (p = q_path q)) as [->|].
      * rewrite lookup_insert_eq. split; [by eexists|by right].
      * rewrite lookup_insert_ne by done. split; [by intros [|]|by left].
    + rewrite map_size_insert_None by done. lia.
  - intros k x [[-> ->]|[_ Hk]]%lookup_insert_Some.
    + right. split_and!; [done| |by eexists]. rewrite <-Eg, E5. done.
    + left. apply V4 in Hk. rewrite F2, E3 in Hk. exact Hk.
Qed.

End Keeps.

(** ** The threads, together *)

Lemma elem_of_insert_pc (ws : list ReaderPc) i pc0 pc j x :
  ws !! i = Some pc0 -> <[i := pc]> ws !! j = Some x -> (j = i /\ x = pc) \/ (j <> i /\ ws !! j = Some x).
Proof.
  intros Hi. destruct (decide (j = i)) as [->|Hne].
  - rewrite list_lookup_insert_eq by (by eapply lookup_lt_Some). intros [= <-]. by left.
  - rewrite list_lookup_insert_ne by done. by right.
Qed.

Lemma notify_all_lookup ws j x : notify_all ws !! j = Some x -> x <> RWait /\ (ws !! j = Some x \/ (x = RTop /\ ws !! j = Some RWait)).
Proof.
  unfold notify_all. rewrite list_lookup_fmap. destruct (ws !! j) as [pc|]; cbn; [|done]. intros [= <-]. destruct pc; split; try done; (by left) || (by right).
Qed.

Section Threads.
Context (named : Fd -> list Z -> Prop) (reads : Z -> QueuedDir -> option (PreparedDir * Fd) -> Prop) (asks : path -> Fd -> list Z -> Prop).
Context (asks_named : forall p d n, asks p d n -> named d n).
Context (reads_named : forall g q d fd, named (q_parent q) (q_name q) -> reads g q (Some (d, fd)) -> entries_named named fd (pd_entries d)).

Definition reading (ws : list ReaderPc) (i : nat) (q : QueuedDir) : Prop := exists began, ws !! i = Some (RRead q began).

(** A listing read in generation [g]. *)
Definition read_in (g : Z) (p : path) (d : PreparedDir) : Prop :=
  exists q fd, q_path q = p /\ named (q_parent q) (q_name q) /\ reads g q (Some (d, fd)).

Record readers_ok (r : Readers) : Prop := {
  dk_state : ra_ok named (rd_state r);
  dk_flight : forall p, p ∈ in_flight (rd_state r) <-> exists i q, reading (rd_workers r) i q /\ q_path q = p;
  dk_apart : forall i j q q', reading (rd_workers r) i q -> reading (rd_workers r) j q' -> q_path q = q_path q' -> i = j;
  dk_read : forall i q, reading (rd_workers r) i q -> queued_ok named q /\ ra_cache (rd_state r) !! q_path q = None;
  dk_cached : forall p d, ra_cache (rd_state r) !! p = Some d -> read_in (generation (rd_state r)) p d;
  dk_taken : Forall (fun e => read_in e.1.1 e.1.2 e.2) (rd_taken r) }.

(** Steps that change no worker that reads. *)
Definition same_reading (ws ws' : list ReaderPc) : Prop := forall i q, reading ws' i q <-> reading ws i q.

Lemma insert_same_reading ws i pc0 pc : ws !! i = Some pc0 ->
  (forall q b, pc0 <> RRead q b) -> (forall q b, pc <> RRead q b) -> same_reading ws (<[i := pc]> ws).
Proof.
  intros Hi H0 H1 j q. split.
  - intros [b Hb]. destruct (elem_of_insert_pc _ _ _ _ _ _ Hi Hb) as [[-> E]|[_ E]]; [by destruct (H1 q b)|by exists b].
  - intros [b Hb]. exists b. rewrite list_lookup_insert_ne; [done|]. intros ->. rewrite Hi in Hb. simplify_eq. by destruct (H0 q b).
Qed.

Lemma notify_same_reading ws : same_reading ws (notify_all ws).
Proof.
  intros j q. unfold reading, notify_all. setoid_rewrite list_lookup_fmap. destruct (ws !! j) as [pc|]; cbn; [|done].
  by destruct pc; split; intros [b Hb]; simplify_eq; exists b.
Qed.

(** The serving thread's sections: no reader moves, nothing is added to the cache. *)
Lemma readers_serving r s' c' ws' t' l' st' : readers_ok r -> same_reading (rd_workers r) ws' -> ra_ok named s' ->
  in_flight s' = in_flight (rd_state r) ->
  (forall p d, ra_cache s' !! p = Some d -> ra_cache (rd_state r) !! p = Some d /\ generation s' = generation (rd_state r)) ->
  Forall (fun e => read_in e.1.1 e.1.2 e.2) l' -> readers_ok (mkReaders s' c' ws' t' l' st').
Proof.
  intros [Hs Hf Ha Hr Hc Ht] Hsame Hs' Ef Hsub Hl. constructor; cbn; try done.
  - intros p. rewrite Ef, Hf. by setoid_rewrite (Hsame _ _).
  - intros i j q q' Hi%Hsame Hj%Hsame. by apply Ha.
  - intros i q Hi%Hsame. destruct (Hr i q Hi) as [? Hn]. split; [done|]. destruct (ra_cache s' !! q_path q) eqn:E; [|done].
    apply Hsub in E as [E _]. congruence.
  - intros p d Hp. destruct (Hsub _ _ Hp) as [Hp' ->]. by apply Hc.
Qed.

Lemma same_reading_refl ws : same_reading ws ws.
Proof. done. Qed.

Lemma ra_request_keeps p d n s : ra_ok named s -> named d n ->
  let s' := (ra_request p d n s).2 in
  ra_ok named s' /\ in_flight s' = in_flight s /\ ra_cache s' = ra_cache s /\ generation s' = generation s /\ ra_stopped s' = ra_stopped s.
Proof.
  intros Hs Hn. unfold ra_request. destruct (known p s); [done|]. cbn [snd]. set (s1 := set_ra_skip _ s).
  destruct (ra_push_frame (mkQueued p d n 0) s1) as (E1 & E2 & E3 & E4 & E5). cbv zeta. rewrite E2, E3, E4, E5. split_and!; try done.
  apply ra_push_ok; [by apply (same_work_ok _ s)|]. split; [done|]. exact Hn.
Qed.

Lemma take_now_keeps p s : ra_ok named s ->
  let '(r, s') := take_now p s in
  ra_ok named s' /\ in_flight s' = in_flight s /\ generation s' = generation s /\ ra_stopped s' = ra_stopped s /\ ra_queue s' = ra_queue s /\
  (forall d, r = inl (Some d) -> ra_cache s !! p = Some d) /\ (forall k d, ra_cache s' !! k = Some d -> ra_cache s !! k = Some d).
Proof.
  intros Hs. unfold take_now. pose proof (take_prepared_keeps named p s Hs) as Ht. destruct (take_prepared p s) as [r s'].
  destruct Ht as (H1 & H2 & H3 & H4 & H5 & -> & H7). destruct (ra_cache s !! p) as [d|].
  - split_and!; try done. intros d' Hd. congruence.
  - case_bool_decide; [by split_and!|]. destruct (mark_served_same p s') as (E1 & E2 & E3 & E4 & E5 & E6).
    rewrite E1, E3, E4, E5, E6. split_and!; try done. by apply (same_work_ok _ s').
Qed.

Lemma take_waited_keeps p s : ra_ok named s ->
  let '(r, s') := take_waited p s in
  ra_ok named s' /\ in_flight s' = in_flight s /\ generation s' = generation s /\ ra_stopped s' = ra_stopped s /\ ra_queue s' = ra_queue s /\
  (forall d, r = Some d -> ra_cache s !! p = Some d) /\ (forall k d, ra_cache s' !! k = Some d -> ra_cache s !! k = Some d).
Proof.
  intros Hs. unfold take_waited. pose proof (take_prepared_keeps named p s Hs) as Ht. destruct (take_prepared p s) as [r s'].
  destruct Ht as (H1 & H2 & H3 & H4 & H5 & -> & H7). destruct (ra_cache s !! p) as [d|]; [by split_and!|].
  destruct (mark_served_same p s') as (E1 & E2 & E3 & E4 & E5 & E6). rewrite E1, E3, E4, E5, E6.
  split_and!; try done. by apply (same_work_ok _ s').
Qed.

Lemma taken_ok g p r l : (forall d, r = Some d -> read_in g p d) ->
  Forall (fun e => read_in e.1.1 e.1.2 e.2) l -> Forall (fun e => read_in e.1.1 e.1.2 e.2) (taken g p r l).
Proof. intros Hr Hl. destruct r as [d|]; [|done]. constructor; [|done]. by apply Hr. Qed.

(** A worker comes back from its directory. *)
Lemma readers_done s c ws t l st i q began r c' f : readers_ok (mkReaders s c ws t l st) -> ws !! i = Some (RRead q began) ->
  reads began q r -> same_reading (<[i := RTop]> ws) f ->
  readers_ok (mkReaders (worker_done q began r s).2 c' f t l st).
Proof.
  intros [Hs Hf Ha Hr Hc Ht] Hi Hread Hsame. cbn in *. assert (reading ws i q) as Hri by by exists began.
  destruct (Hr i q Hri) as [Hq Hn]. pose proof (worker_done_keeps named q began r s Hs Hq Hn) as Hw.
  destruct (worker_done q began r s) as [posts s']. destruct Hw as (H1 & H2 & H3 & H4 & H5 & H6).
  { intros d fd ->. eapply reads_named; [apply Hq|done]. }
  assert (forall j q', reading f j q' <-> j <> i /\ reading ws j q') as Hrd.
  { intros j q'. rewrite (Hsame j q'). split.
    - intros [b Hb]. destruct (elem_of_insert_pc _ _ _ _ _ _ Hi Hb) as [[_ ?]|[? ?]]; [done|]. split; [done|by exists b].
    - intros [Hne [b Hb]]. exists b. by rewrite list_lookup_insert_ne. }
  constructor; cbn; try done.
  - intros p. rewrite H2, elem_of_difference, elem_of_singleton, Hf. split.
    + intros [(j & q' & Hj & <-) Hne]. exists j, q'. rewrite Hrd. split_and!; try done. intros ->.
      destruct Hj as [b' Hj]. rewrite Hi in Hj. simplify_eq.
    + intros (j & q' & [Hne Hj]%Hrd & <-). split; [eauto|]. intros Heq. by apply Hne, (Ha j i q' q).
  - intros j k q' q'' [_ Hj]%Hrd [_ Hk]%Hrd. by apply Ha.
  - intros j q' [Hne Hj]%Hrd. destruct (Hr j q' Hj) as [? Hn']. split; [done|]. destruct (ra_cache s' !! q_path q') eqn:E; [|done].
    apply H6 in E as [E|[E _]]; [congruence|]. exfalso. apply Hne. by apply (Ha j i q' q).
  - intros p d Hp. rewrite H3. apply H6 in Hp as [Hp|(-> & <- & fd & ->)]; [by apply Hc|]. exists q, fd. by destruct Hq.
Qed.

(** A worker sets out. *)
Lemma readers_begin s c ws t l st i q s' : readers_ok (mkReaders s c ws t l st) -> ws !! i = Some RTop -> worker_top s = FRead q s' ->
  readers_ok (mkReaders s' c (<[i := RRead q (generation s)]> ws) t l st).
Proof.
  intros [Hs Hf Ha Hr Hc Ht] Hi E. cbn in *. pose proof (worker_top_keeps named s Hs) as Hk. rewrite E in Hk.
  destruct Hk as (H1 & H2 & H3 & H4 & H5 & H6 & H7 & _).
  assert (forall j q', reading (<[i := RRead q (generation s)]> ws) j q' <-> (j = i /\ q' = q) \/ (j <> i /\ reading ws j q')) as Hrd.
  { intros j q'. split.
    - intros [b Hb]. destruct (elem_of_insert_pc _ _ _ _ _ _ Hi Hb) as [[-> ?]|[? ?]]; [left; by simplify_eq|]. right. split; [done|by exists b].
    - intros [[-> ->]|[Hne [b Hb]]]; [exists (generation s)|exists b]; [|by rewrite list_lookup_insert_ne].
      rewrite list_lookup_insert_eq; [done|by eapply lookup_lt_Some]. }
  constructor; cbn; try done.
  - intros p. rewrite H5, elem_of_union, elem_of_singleton, Hf. split.
    + intros [->|(j & q' & Hj & <-)]; [exists i, q; rewrite Hrd; by auto|]. exists j, q'. rewrite Hrd. split; [|done].
      right. split; [|done]. intros ->. destruct Hj as [b Hj]. congruence.
    + intros (j & q' & [[-> ->]|[_ Hj]]%Hrd & <-); [by left|right; eauto].
  - assert (forall j q', reading ws j q' -> q_path q' <> q_path q) as Hne.
    { intros j q' Hj Heq. apply H3, Hf. eauto. }
    intros j k q' q'' [[-> ->]|[_ Hj]]%Hrd [[-> ->]|[_ Hk]]%Hrd Heq; [done|by destruct (Hne k q'')|by destruct (Hne j q')|by eapply Ha].
  - intros j q' [[-> ->]|[_ Hj]]%Hrd; rewrite H6; [done|by apply (Hr j)].
  - intros p d. rewrite H6, H7. apply Hc.
Qed.

Lemma rstep_ok r r' : readers_ok r -> rstep reads asks r r' -> readers_ok r'.
Proof.
  intros Hr Hstep. pose proof (dk_state r Hr) as Hs. pose proof (dk_cached r Hr) as Hc. pose proof (dk_taken r Hr) as Ht.
  destruct Hstep as [s c ws t l st p d n Hask E|s c ws t l st p d n i Hask E Hi|s c ws t l st p d n Hask E Hno|s c ws l st p res s' E
    |s c ws l st p s' E|s c ws l st p res s' E|s c ws t l st|s c ws t l st|s c ws t l st E|s c ws t l st i Hi E|s c ws t l st i Hi E
    |s c ws t l st i s' Hi E|s c ws t l st i q s' Hi E|s c ws t l st i seen Hi E|s c ws t l st i seen Hi E|s c ws t l st i Hi
    |s c ws t l st i q began res Hi Hread E|s c ws t l st i q began res Hi Hread E]; cbn in Hs, Hc, Ht.
  - done.
  - destruct (ra_request_keeps p d n s Hs (asks_named _ _ _ Hask)) as (H1 & H2 & H3 & H4 & _).
    apply (readers_serving _ _ _ _ _ _ _ Hr); cbn; try done; [by eapply insert_same_reading|]. intros k x. by rewrite H3, H4.
  - destruct (ra_request_keeps p d n s Hs (asks_named _ _ _ Hask)) as (H1 & H2 & H3 & H4 & _).
    apply (readers_serving _ _ _ _ _ _ _ Hr); cbn; try done. intros k x. by rewrite H3, H4.
  - pose proof (take_now_keeps p s Hs) as Hk. rewrite E in Hk. destruct Hk as (H1 & H2 & H3 & _ & _ & H6 & H7).
    apply (readers_serving _ _ _ _ _ _ _ Hr); cbn; try done; [by intros; split; [apply H7|]|].
    apply taken_ok; [|done]. intros d ->. by apply Hc, H6.
  - pose proof (take_now_keeps p s Hs) as Hk. rewrite E in Hk. destruct Hk as (H1 & H2 & H3 & _ & _ & _ & H7).
    apply (readers_serving _ _ _ _ _ _ _ Hr); cbn; try done. by intros; split; [apply H7|].
  - pose proof (take_waited_keeps p s Hs) as Hk. rewrite E in Hk. destruct Hk as (H1 & H2 & H3 & _ & _ & H6 & H7).
    apply (readers_serving _ _ _ _ _ _ _ Hr); cbn; try done; [by intros; split; [apply H7|]|].
    apply taken_ok; [|done]. intros d ->. by apply Hc, H6.
  - apply (readers_serving _ _ _ _ _ _ _ Hr); cbn; try done. by apply ra_empty_ok.
  - apply (readers_serving _ _ _ _ _ _ _ Hr); cbn; try done. destruct Hs. by constructor.
  - apply (readers_serving _ _ _ _ _ _ _ Hr); cbn; try done. apply notify_same_reading.
  - apply (readers_serving _ _ _ _ _ _ _ Hr); cbn; try done. by eapply insert_same_reading.
  - apply (readers_serving _ _ _ _ _ _ _ Hr); cbn; try done. by eapply insert_same_reading.
  - pose proof (worker_top_keeps named s Hs) as Hk. rewrite E in Hk. destruct Hk as (H1 & H2 & H3 & H4 & _).
    apply (readers_serving _ _ _ _ _ _ _ Hr); cbn; try done. intros k x. by rewrite H3, H4.
  - by eapply readers_begin.
  - apply (readers_serving _ _ _ _ _ _ _ Hr); cbn; try done. by eapply insert_same_reading.
  - apply (readers_serving _ _ _ _ _ _ _ Hr); cbn; try done. by eapply insert_same_reading.
  - apply (readers_serving _ _ _ _ _ _ _ Hr); cbn; try done. by eapply insert_same_reading.
  - by eapply readers_done.
  - eapply readers_done; try done. apply notify_same_reading.
Qed.
(** ** No wakeup is lost *)

Definition active (pc : ReaderPc) : Prop := pc <> RWait /\ pc <> RExit.

Record wakes_ok (r : Readers) : Prop := {
  wk_some : rd_workers r <> [];
  wk_spin : forall i seen, rd_workers r !! i = Some (RSpin seen) ->
    seen <= rd_posted r /\ (seen = rd_posted r -> ra_queue (rd_state r) = []);
  wk_busy : ra_queue (rd_state r) <> [] -> ra_stopped (rd_state r) = false ->
    exists i pc, rd_workers r !! i = Some pc /\ active pc;
  wk_exit : ra_stopped (rd_state r) = false -> forall i, rd_workers r !! i <> Some RExit;
  wk_told : rd_stop_told r = true -> ra_stopped (rd_state r) = true /\ forall i, rd_workers r !! i <> Some RWait }.

(** A section that posts nothing. *)
Lemma wakes_still s c ws t l st s' t' l' : wakes_ok (mkReaders s c ws t l st) ->
  (ra_queue s = [] -> ra_queue s' = []) -> ra_stopped s' = ra_stopped s -> wakes_ok (mkReaders s' c ws t' l' st).
Proof.
  intros [H1 H2 H3 H4 H5] Hq Hs. constructor; cbn in *; rewrite ?Hs; try done.
  - intros i seen Hi. destruct (H2 i seen Hi) as [? Hx]. split; [done|]. intros E. by apply Hq, Hx.
  - intros Hne. apply H3. intros E. by apply Hne, Hq.
Qed.

(** One worker moves, after a post or not. *)
Lemma wakes_move s c ws t l st i pc0 pc s' c' : wakes_ok (mkReaders s c ws t l st) -> ws !! i = Some pc0 ->
  c <= c' -> (c' = c -> ra_queue s = [] -> ra_queue s' = []) -> ra_stopped s' = ra_stopped s ->
  (forall seen, pc = RSpin seen -> seen = c' /\ ra_queue s' = []) -> (pc = RWait -> ra_queue s' = [] /\ ra_stopped s' = false) ->
  (pc = RExit -> ra_stopped s' = true) -> wakes_ok (mkReaders s' c' (<[i := pc]> ws) t l st).
Proof.
  intros [H1 H2 H3 H4 H5] Hi Hc Hq Hs Hspin Hwait Hexit. constructor; cbn in *.
  - intros E. apply (f_equal length) in E. rewrite length_insert in E. by destruct ws.
  - intros j seen Hj. destruct (elem_of_insert_pc _ _ _ _ _ _ Hi Hj) as [[_ E]|[_ E]].
    + destruct (Hspin seen (eq_sym E)) as [-> ?]. by split.
    + destruct (H2 j seen E) as [? Hx]. split; [lia|]. intros ->. assert (c' = c) as Ec by lia. apply Hq; [done|]. by apply Hx.
  - intros Hne Hst. exists i, pc. split; [apply list_lookup_insert_eq; by eapply lookup_lt_Some|]. split; intros ->.
    + by destruct (Hwait eq_refl).
    + by rewrite (Hexit eq_refl) in Hst.
  - intros E j Hj. destruct (elem_of_insert_pc _ _ _ _ _ _ Hi Hj) as [[_ Ex]|[_ Ex]]; [by rewrite (Hexit (eq_sym Ex)) in E|].
    rewrite Hs in E. by apply (H4 E j).
  - intros E. destruct (H5 E) as [Est Hw]. rewrite Hs. split; [done|]. intros j Hj.
    destruct (elem_of_insert_pc _ _ _ _ _ _ Hi Hj) as [[_ Ex]|[_ Ex]]; [|by apply (Hw j)]. destruct (Hwait (eq_sym Ex)). congruence.
Qed.

Lemma wakes_notify s c ws t l st c' : wakes_ok (mkReaders s c ws t l st) -> c <= c' -> wakes_ok (mkReaders s c' (notify_all ws) t l st).
Proof.
  intros [H1 H2 H3 H4 H5] Hc. constructor; cbn in *.
  - unfold notify_all. by destruct ws.
  - intros j seen (_ & [Hj|[E _]])%notify_all_lookup; [|done]. destruct (H2 j seen Hj) as [? Hx]. split; [lia|]. intros ->. apply Hx. lia.
  - intros Hq Hs. destruct (H3 Hq Hs) as (i & pc & Hi & Ha). exists i, pc. split; [|done]. unfold notify_all.
    rewrite list_lookup_fmap, Hi. cbn. destruct Ha. by destruct pc.
  - intros E j (_ & [Hj|[Ex _]])%notify_all_lookup; [by apply (H4 E j)|done].
  - intros E. destruct (H5 E) as [? Hw]. split; [done|]. by intros j [? _]%notify_all_lookup.
Qed.

(** A request that finds no worker waiting. *)
Lemma wakes_request_none s c ws t l st s' : wakes_ok (mkReaders s c ws t l st) -> RWait ∉ ws -> ra_stopped s' = ra_stopped s ->
  wakes_ok (mkReaders s' (c + 1) ws t l st).
Proof.
  intros [H1 H2 H3 H4 H6] Hno H5. constructor; cbn in *; rewrite ?H5; try done.
  - intros j seen Hj. destruct (H2 j seen Hj) as [? _]. split; lia.
  - intros _ Hst. destruct ws as [|pc ws]; [done|]. exists 0%nat, pc. split; [done|]. split; intros ->.
    + apply Hno. by left.
    + by apply (H4 Hst 0%nat).
Qed.

(** The two ends of a worker's read, of the queue and the stop flag. *)
Lemma worker_done_wakes s c ws t l st i q began res : readers_ok (mkReaders s c ws t l st) -> ws !! i = Some (RRead q began) -> reads began q res ->
  let '(posts, s') := worker_done q began res s in ra_stopped s' = ra_stopped s /\ (posts = false -> ra_queue s' = ra_queue s).
Proof.
  intros Hr Hi Hread. destruct (dk_read _ Hr i q (ex_intro _ began Hi)) as [Hq Hn].
  pose proof (worker_done_keeps named q began res s (dk_state _ Hr) Hq Hn) as Hk.
  destruct (worker_done q began res s) as [posts s']. destruct Hk as (_ & _ & _ & H4 & H5 & _); [|done].
  intros d fd ->. eapply reads_named; [apply Hq|done].
Qed.

Lemma worker_top_queue s s' : (exists q, worker_top s = FRead q s') \/ worker_top s = FDropped s' -> ra_queue s <> [].
Proof. intros Hx E. unfold worker_top in Hx. rewrite E in Hx. cbn in Hx. destruct (ra_stopped s), Hx as [[q Hx]|Hx]; done. Qed.

Lemma rstep_wakes r r' : readers_ok r -> wakes_ok r -> rstep reads asks r r' -> wakes_ok r'.
Proof.
  intros Hr Hw Hstep. pose proof (dk_state r Hr) as Hs.
  destruct Hstep as [s c ws t l st p d n Hask E|s c ws t l st p d n i Hask E Hi|s c ws t l st p d n Hask E Hno|s c ws l st p res s' E
    |s c ws l st p s' E|s c ws l st p res s' E|s c ws t l st|s c ws t l st|s c ws t l st E|s c ws t l st i Hi E|s c ws t l st i Hi E
    |s c ws t l st i s' Hi E|s c ws t l st i q s' Hi E|s c ws t l st i seen Hi E|s c ws t l st i seen Hi E|s c ws t l st i Hi
    |s c ws t l st i q began res Hi Hread E|s c ws t l st i q began res Hi Hread E]; cbn in Hs;
    try (pose proof (worker_top_keeps named s Hs) as Hk; rewrite E in Hk); try done.
  - destruct (ra_request_keeps p d n s Hs (asks_named _ _ _ Hask)) as (_ & _ & _ & _ & H5). eapply wakes_move; try done; lia.
  - destruct (ra_request_keeps p d n s Hs (asks_named _ _ _ Hask)) as (_ & _ & _ & _ & H5). by eapply wakes_request_none.
  - pose proof (take_now_keeps p s Hs) as Hk. rewrite E in Hk. destruct Hk as (_ & _ & _ & H4 & H5 & _). eapply wakes_still; [done|by rewrite H5|done].
  - pose proof (take_now_keeps p s Hs) as Hk. rewrite E in Hk. destruct Hk as (_ & _ & _ & H4 & H5 & _). eapply wakes_still; [done|by rewrite H5|done].
  - pose proof (take_waited_keeps p s Hs) as Hk. rewrite E in Hk. destruct Hk as (_ & _ & _ & H4 & H5 & _). eapply wakes_still; [done|by rewrite H5|done].
  - by eapply wakes_still.
  - destruct Hw as [H1 H2 H3 H4 H6]. constructor; cbn in *; try done. intros Et. by destruct (H6 Et).
  - apply (wakes_notify _ _ _ _ _ _ (c + 1)) in Hw; [|lia]. destruct Hw as [H1 H2 H3 H4 H6]. constructor; cbn in *; try done.
    intros _. split; [done|]. by intros j [? _]%notify_all_lookup.
  - by eapply wakes_move.
  - destruct Hk as [Hq Hst]. eapply wakes_move; try done. intros seen [= ->]. done.
  - destruct Hk as (_ & _ & _ & _ & Hs1 & Hs2). pose proof (worker_top_queue s s' (or_intror E)). eapply wakes_still; [done|by intros ?|congruence].
  - destruct Hk as (_ & _ & _ & _ & _ & _ & _ & Hs1 & Hs2). pose proof (worker_top_queue s s' (or_introl (ex_intro _ q E))).
    eapply wakes_move; try done. congruence.
  - by eapply wakes_move.
  - apply andb_true_iff in E as [Ec%Z.eqb_eq Est%negb_true_iff]. destruct (wk_spin _ Hw i seen Hi) as [_ Hq]. cbn in Hq.
    eapply wakes_move; try done. intros _. split; [by apply Hq|done].
  - by eapply wakes_move.
  - pose proof (worker_done_wakes _ _ _ _ _ _ _ _ _ _ Hr Hi Hread) as Hk. destruct (worker_done q began res s) as [posts s']. cbn in E |- *.
    destruct Hk as [H4 H5]. eapply wakes_move; try done. intros _. by rewrite H5.
  - pose proof (worker_done_wakes _ _ _ _ _ _ _ _ _ _ Hr Hi Hread) as Hk. destruct (worker_done q began res s) as [posts s']. cbn in E |- *.
    destruct Hk as [H4 H5]. eapply wakes_notify; [|apply Z.le_refl]. eapply wakes_move; try done; lia.
Qed.

Lemma readers_new_ok : readers_ok readers_new /\ wakes_ok readers_new.
Proof.
  assert (forall i pc, rd_workers readers_new !! i = Some pc -> pc = RTop) as Htop.
  { intros i pc Hi. cbn in Hi. by destruct i as [|[|[]]]; simplify_eq/=. }
  assert (forall i q, ~ reading (rd_workers readers_new) i q) as Hno by (intros i q [b Hb%Htop]; done).
  split; constructor.
  - by apply ra_empty_ok.
  - intros p. split; [by intros Hp%elem_of_empty|]. intros (i & q & Hi & _). by destruct (Hno i q).
  - intros i j q q' Hi. by destruct (Hno i q).
  - intros i q Hi. by destruct (Hno i q).
  - done.
  - constructor.
  - done.
  - intros i seen Hi%Htop. done.
  - done.
  - intros _ i Hi%Htop. done.
  - done.
Qed.

Lemma reachable_ok r : rtc (rstep reads asks) readers_new r -> readers_ok r /\ wakes_ok r.
Proof.
  intros Hr. pose proof readers_new_ok as Hnew. revert Hnew. generalize readers_new, Hr. clear Hr. intros r0 Hr.
  induction Hr as [r|r r1 r2 Hstep _ IH]; [done|]. intros [H1 H2]. apply IH. split; [by eapply rstep_ok|by eapply rstep_wakes].
Qed.

(** ** After [stop] *)

(** How many moves a worker is from having left. *)
Definition to_exit (pc : ReaderPc) : nat :=
  match pc with RExit => 0 | RTop => 1 | RSpin _ | RRead _ _ => 2 | RWait => 3 end.
Definition work_left (ws : list ReaderPc) : nat := list_sum (map to_exit ws).

Lemma work_left_insert ws i pc0 pc : ws !! i = Some pc0 -> (to_exit pc < to_exit pc0)%nat -> (work_left (<[i := pc]> ws) < work_left ws)%nat.
Proof.
  unfold work_left. revert i. induction ws as [|x ws IH]; intros [|i] Hi Hlt; cbn in *; simplify_eq.
  { apply Nat.add_lt_mono_r, Hlt. }
  apply Nat.add_lt_mono_l. exact (IH _ Hi Hlt).
Qed.

Lemma notify_none ws : (forall i, ws !! i <> Some RWait) -> notify_all ws = ws.
Proof.
  intros Hno. apply list_eq. intros i. unfold notify_all. rewrite list_lookup_fmap. specialize (Hno i).
  destruct (ws !! i) as [[]|]; done.
Qed.

Lemma insert_no_wait (ws : list ReaderPc) (i : nat) pc : pc <> RWait -> (forall j, ws !! j <> Some RWait) -> forall j, <[i := pc]> ws !! j <> Some RWait.
Proof. intros Hpc Hno j [(_ & ? & _)|[_ Hj]]%list_lookup_insert_Some; [done|by apply (Hno j)]. Qed.

(** Once [stop] has told them, a move of a worker brings it nearer its end. *)
Lemma stopped_step r r' : wakes_ok r -> rd_stop_told r = true -> rstep reads asks r r' ->
  rd_stop_told r' = true /\ (rd_workers r' = rd_workers r \/ (work_left (rd_workers r') < work_left (rd_workers r))%nat).
Proof.
  intros Hw Htold Hstep. destruct (wk_told r Hw Htold) as [Hst Hno].
  destruct Hstep as [| | | | | | | | |s c ws t l st i Hi E|s c ws t l st i Hi E|s c ws t l st i s' Hi E|s c ws t l st i q s' Hi E
    |s c ws t l st i seen Hi E|s c ws t l st i seen Hi E|s c ws t l st i Hi|s c ws t l st i q began res Hi Hread E|s c ws t l st i q began res Hi Hread E];
    cbn in *; try by (split; [done|by left]).
  - by destruct (Hno i).
  - split; [done|left]. by apply notify_none.
  - split; [done|right]. apply (work_left_insert _ _ _ _ Hi). cbn. lia.
  - unfold worker_top in E. by rewrite Hst in E.
  - unfold worker_top in E. by rewrite Hst in E.
  - split; [done|right]. apply (work_left_insert _ _ _ _ Hi). cbn. lia.
  - rewrite Hst in E. by destruct (c =? seen).
  - by destruct (Hno i).
  - split; [done|right]. apply (work_left_insert _ _ _ _ Hi). cbn. lia.
  - split; [done|right]. rewrite notify_none by by apply insert_no_wait. apply (work_left_insert _ _ _ _ Hi). cbn. lia.
Qed.

(** A worker that has not left can move, if the directory it reads ends. *)
Lemma stopped_moves r i pc : wakes_ok r -> rd_stop_told r = true -> (forall g q, exists x, reads g q x) ->
  rd_workers r !! i = Some pc -> pc <> RExit -> exists r', rstep reads asks r r' /\ (work_left (rd_workers r') < work_left (rd_workers r))%nat.
Proof.
  intros Hw Htold Hends Hi Hpc. destruct (wk_told r Hw Htold) as [Hst Hno]. destruct r as [s c ws t l st]. cbn in *.
  destruct pc as [|seen| |q began|].
  - eexists. split; [apply S_top_stop; [exact Hi|]|cbn; apply (work_left_insert _ _ _ _ Hi); cbn; lia]. unfold worker_top. by rewrite Hst.
  - eexists. split; [eapply S_spin_again; [exact Hi|]|cbn; apply (work_left_insert _ _ _ _ Hi); cbn; lia]. rewrite Hst. by rewrite andb_false_r.
  - by destruct (Hno i).
  - destruct (Hends began q) as [x Hx]. destruct (worker_done q began x s).1 eqn:E.
    + eexists. split; [eapply S_read_posts; done|]. cbn. rewrite notify_none by by apply insert_no_wait.
      apply (work_left_insert _ _ _ _ Hi). cbn. lia.
    + eexists. split; [eapply S_read_quiet; done|]. cbn. apply (work_left_insert _ _ _ _ Hi). cbn. lia.
  - done.
Qed.

End Threads.

(** ** What a worker asks of the host *)

Section Host.
Context {H : Type} {HF : HostFs H} {HL : HostFsLaws H}.
Context (root : path) (wr : bool) (rk : Z * Z) (rs : list RamRegion).
Abbreviation good := (FsInv.good (H := H) root wr rk rs).

Definition prepared_ok (l : list PreparedEntry) : Prop := Forall (fun e => name_ok (e_name (p_info e))) l.

Lemma prepare_entries_good lo stop_at fd listing : fd_ok fd -> Forall (fun e => name_ok (e_name e)) listing ->
  good lo (prepare_entries stop_at fd listing) (fun r => forall l, r = Some l -> prepared_ok l).
Proof.
  intros Hfd Hl. revert stop_at. induction Hl as [|info listing Hn _ IH]; intros stop_at; cbn [prepare_entries].
  { apply good_ret. intros l [= <-]. constructor. }
  destruct (match stop_at with Some O => true | _ => false end) eqn:Es.
  { destruct stop_at as [[|]|]; try done. by apply good_ret. }
  assert (forall (A B : M H (option (list PreparedEntry))) P, good lo B P -> good lo (match stop_at with Some O => A | _ => B end) P) as Hif
    by (intros; by destruct stop_at as [[|]|]).
  apply Hif. cbv zeta. destruct (cstring _) as [n|] eqn:En; [|apply IH].
  apply cstring_Some in En as [-> _]. destruct Hn as [Hp Hb].
  eapply good_bind; [by apply good_attempt, stat_at_good|]. intros [meta|e] _; [|apply IH].
  eapply good_bind; [by apply good_attempt, open_entry_nofollow_good|]. intros r Hr.
  eapply good_bind with (P := fun _ => True); [destruct r; [by apply stored_guest_attr_good|by apply good_ret]|].
  intros guest _. eapply good_bind; [apply IH|]. intros rest Hrest. apply good_ret. intros l.
  destruct rest as [rest|]; cbn; [|done]. intros [= <-]. constructor; [by split|by apply Hrest].
Qed.

Lemma insert_prepared_ok e l : name_ok (e_name (p_info e)) -> prepared_ok l -> prepared_ok (insert_prepared e l).
Proof.
  intros He. induction 1 as [|e' l He' Hl IH]; cbn; [by apply Forall_singleton|].
  case_match; [|by constructor]. constructor; [done|by constructor].
Qed.

Lemma prepare_dir_good lo stop_at fd : fd_ok fd ->
  good lo (prepare_dir stop_at fd) (fun r => forall d, r = Some d -> prepared_ok (pd_entries d)).
Proof.
  intros Hfd. unfold prepare_dir.
  eapply good_bind with (P := fun r => match r with inl (_, l) => Forall (fun e => name_ok (e_name e)) l | inr _ => True end).
  { eapply good_mono; [apply good_attempt with (P := fun r => Forall (fun e => name_ok (e_name e)) r.2)|by intros [[]|]].
    eapply good_bind; [by apply stat_of_fd_good|]. intros m _. eapply good_bind; [by apply dup_cloexec_good|]. intros d Hd.
    eapply good_bind; [by apply read_dir_at_good|]. intros l Hl. by apply good_ret. }
  intros [[m l]|e] Hl; [|by apply good_ret]. eapply good_bind; [by apply prepare_entries_good|]. intros [es|] Hes; [|by apply good_ret].
  eapply good_bind; [by apply good_query; [cok|]|]. intros now _. apply good_ret. intros d [= <-]. cbn.
  specialize (Hes es eq_refl). clear -Hes. induction Hes as [|e l He _ IH]; cbn; [constructor|by apply insert_prepared_ok].
Qed.

Lemma read_queued_good lo stop_at q : fd_ok (q_parent q) -> proper (q_name q) ->
  good lo (read_queued stop_at q) (fun r => forall d fd, r = Some (d, fd) -> fd_ok fd /\ prepared_ok (pd_entries d)).
Proof.
  intros Hd Hn. unfold read_queued. eapply good_bind; [by apply good_attempt, open_entry_nofollow_good|].
  intros [fd|e] Hfd; [|by apply good_ret]. eapply good_bind; [by apply prepare_dir_good|]. intros r Hr. apply good_ret.
  intros d fd' E. destruct r as [d'|]; [|done]. injection E as <- <-. split; [done|by apply Hr].
Qed.

(** What a worker may come back with from a host that keeps the laws, and what the
    serving thread may request: the calls of a session are [confined]. *)
Definition host_reads (_ : Z) (q : QueuedDir) (r : option (PreparedDir * Fd)) : Prop :=
  exists stop_at lo (w w' : World H), world_ok root wr rk rs lo w /\ read_queued stop_at q w = (Ok r, w').
Definition session_asks (p : path) (d : Fd) (n : list Z) : Prop := confined (mkCall (CReadaheadRequest p d n)).

Definition within_share (d : Fd) (n : list Z) : Prop := fd_ok d /\ proper n.

Lemma host_reads_named g q d fd : within_share (q_parent q) (q_name q) -> host_reads g q (Some (d, fd)) ->
  fd_ok fd /\ prepared_ok (pd_entries d).
Proof.
  intros [Hd Hn] (stop_at & lo & w & w' & Hw & E). pose proof (read_queued_good lo stop_at q Hd Hn w Hw) as Hg.
  unfold good_at in Hg. rewrite E in Hg. by apply Hg.
Qed.

Lemma host_reads_entries g q d fd : within_share (q_parent q) (q_name q) -> host_reads g q (Some (d, fd)) ->
  entries_named within_share fd (pd_entries d).
Proof.
  intros Hq [Hfd Hes]%host_reads_named; [|done]. eapply Forall_impl; [exact Hes|]. intros e [Hp _] n [-> _]%cstring_Some. by split.
Qed.

(** The readahead stays inside the share. In every state the two workers and the
    serving thread can reach, when the serving thread requests what a session may
    request and a host that keeps its laws answers, a worker that reads a queued
    directory does not panic and makes only calls the share allows: one proper name at
    a time, under descriptors that were reached by such names, and none that changes a
    read-only share. Every listing the serving thread takes names only proper entries,
    which is what the session relies on when it takes one. *)
Theorem readahead_confined r : rtc (rstep host_reads session_asks) readers_new r ->
  (forall i q g stop_at lo (w : World H), rd_workers r !! i = Some (RRead q g) -> world_ok root wr rk rs lo w ->
     match read_queued stop_at q w with (Panicked, _) => False | (_, w') => Forall (call_ok wr) (w_log w') end) /\
  Forall (fun e => Forall (fun x => name_ok (e_name (p_info x))) (pd_entries e.2)) (rd_taken r).
Proof.
  intros Hr. apply (reachable_ok within_share) in Hr as [Hr _]; [|by intros p d n [? ?]|by apply host_reads_entries]. split.
  - intros i q g stop_at lo w Hi Hw. destruct (dk_read _ _ _ Hr i q (ex_intro _ g Hi)) as [[_ [Hd Hn]] _].
    pose proof (read_queued_good lo stop_at q Hd Hn w Hw) as Hg. unfold good_at in Hg.
    destruct (read_queued stop_at q w) as [[x|e|] w']; [destruct Hg| |]; by eauto using wk_log.
  - eapply Forall_impl; [exact (dk_taken _ _ _ Hr)|]. intros [[g p] d] (q & fd & _ & Hq & Hread). by eapply host_reads_named.
Qed.
End Host.

(** ** What the threads promise *)

(** C24. The readahead's state under any interleaving of its two workers with the
    serving thread, for any host and any requests: the queue holds at most 64 directories, on distinct paths
    and at most three levels below a request; at most 256 listings are prepared, and
    the eviction order lists exactly these; the paths in flight are those the workers
    are reading, and no two workers read the same one. A listing the serving thread
    takes was read by a worker that set out in the very generation the listing is
    taken in, so no request that changed the share came between. *)
Theorem readahead_current reads asks r : rtc (rstep reads asks) readers_new r ->
  let s := rd_state r in
  (length (ra_queue s) <= READAHEAD_MAX_QUEUED)%nat /\ NoDup (map q_path (ra_queue s)) /\
  Forall (fun q => 0 <= q_depth q <= READAHEAD_DEPTH) (ra_queue s) /\
  (base.size (ra_cache s) <= READAHEAD_MAX_DIRS)%nat /\ NoDup (ra_order s) /\
  (forall p, p ∈ ra_order s <-> is_Some (ra_cache s !! p)) /\
  (forall p, p ∈ in_flight s <-> exists i q g, rd_workers r !! i = Some (RRead q g) /\ q_path q = p) /\
  (forall i j q q' g g', rd_workers r !! i = Some (RRead q g) -> rd_workers r !! j = Some (RRead q' g') -> q_path q = q_path q' -> i = j) /\
  Forall (fun e => exists q fd, q_path q = e.1.2 /\ reads e.1.1 q (Some (e.2, fd))) (rd_taken r).
Proof.
  intros Hr. apply (reachable_ok (fun _ _ => True)) in Hr as [[[H1 H2 H3 H4 H5 H6] Hf Ha _ _ Ht] _]; [|done|].
  2: { intros. by apply Forall_true. }
  split_and!; try done.
  - eapply Forall_impl; [exact H3|]. by intros q [? _].
  - intros p. rewrite Hf. split; [intros (i & q & [g Hi] & Hp)|intros (i & q & g & Hi & Hp)]; [by exists i, q, g|exists i, q]. split; [by exists g|done].
  - intros i j q q' g g' Hi Hj. apply Ha; by eexists.
  - eapply Forall_impl; [exact Ht|]. intros [[g p] d] (q & fd & ? & _ & ?). by exists q, fd.
Qed.

(** No post to the readahead's workers is lost. While directories are queued and
    nobody has stopped the workers, one of them is not asleep; a worker that saw the
    queue empty and finds it no longer so cannot go to sleep, for the counter it
    watches has moved. A worker leaves only after a stop, and once the stop has
    been told nobody sleeps; from then on each move of a worker brings it nearer its
    end, and while one is left there is such a move, so the stop's join returns if
    every directory read does. *)
Theorem readahead_wakes reads asks r : rtc (rstep reads asks) readers_new r ->
  (ra_queue (rd_state r) <> [] -> ra_stopped (rd_state r) = false -> exists i pc, rd_workers r !! i = Some pc /\ pc <> RWait /\ pc <> RExit) /\
  (forall i seen, rd_workers r !! i = Some (RSpin seen) -> ra_queue (rd_state r) <> [] -> rd_posted r <> seen) /\
  (ra_stopped (rd_state r) = false -> forall i, rd_workers r !! i <> Some RExit) /\
  (rd_stop_told r = true ->
     (forall i, rd_workers r !! i <> Some RWait) /\
     (forall r', rstep reads asks r r' -> rd_stop_told r' = true /\
        (rd_workers r' = rd_workers r \/ (work_left (rd_workers r') < work_left (rd_workers r))%nat)) /\
     ((forall g q, exists x, reads g q x) -> forall i pc, rd_workers r !! i = Some pc -> pc <> RExit ->
        exists r', rstep reads asks r r' /\ (work_left (rd_workers r') < work_left (rd_workers r))%nat)).
Proof.
  intros Hr. apply (reachable_ok (fun _ _ => True)) in Hr as [_ Hw]; [|done|by intros; apply Forall_true].
  split_and!; [apply Hw| |apply Hw|].
  - intros i seen Hi Hq E. apply Hq. by apply (wk_spin r Hw i seen Hi).
  - intros Ht. split_and!; [by apply (wk_told r Hw Ht)|by intros r'; apply stopped_step|by intros Hends i pc; apply stopped_moves].
Qed.

(** ** A run: a request, its listing taken, the subdirectory being read *)

Definition demo_path : path := join demo_root D_NAME.
Definition demo_queued : QueuedDir := mkQueued demo_path (mkFd 3 []) D_NAME 0.
Definition demo_listed : option (PreparedDir * Fd) :=
  match (read_queued None demo_queued demo_world).1 with Ok r => r | _ => None end.
Definition demo_dir : PreparedDir := match demo_listed with Some (d, _) => d | None => mkPreparedDir (0, 0) 0 [] end.
Definition found_state (f : Found) : ReadaheadState := match f with FDropped s | FRead _ s => s | _ => ra_new end.
Definition demo_requested : ReadaheadState := (ra_request demo_path (mkFd 3 []) D_NAME ra_new).2.
Definition demo_reading : ReadaheadState := found_state (worker_top demo_requested).
Definition demo_prepared : ReadaheadState := (worker_done demo_queued 0 demo_listed demo_reading).2.
Definition demo_taken : ReadaheadState := (take_now demo_path demo_prepared).2.
Definition demo_subdir : QueuedDir := mkQueued (join demo_path D_NAME) (mkFd 5 [D_NAME]) D_NAME 1.
Definition demo_readers : Readers :=
  mkReaders (found_state (worker_top demo_taken)) 2 [RRead demo_subdir 0; RTop] None [(0, demo_path, demo_dir)] false.
Definition demo_stopped : Readers :=
  mkReaders (ra_stop (rd_state demo_readers)) 3 [RRead demo_subdir 0; RTop] None [(0, demo_path, demo_dir)] true.

Lemma demo_reads_run reads asks : asks demo_path (mkFd 3 []) D_NAME -> reads 0 demo_queued demo_listed ->
  rtc (rstep reads asks) readers_new demo_readers.
Proof.
  intros Ha Hr.
  eapply rtc_l; [eapply (S_request_none _ _ ra_new 0 [RTop; RTop] None [] false demo_path (mkFd 3 []) D_NAME);
                 [exact Ha|vm_compute; reflexivity|by intros [|[|?%elem_of_nil]%elem_of_cons]%elem_of_cons]|].
  eapply rtc_l; [eapply (S_top_read _ _ demo_requested 1 [RTop; RTop] None [] false 0 demo_queued demo_reading); vm_compute; reflexivity|].
  eapply rtc_l; [eapply (S_read_posts _ _ demo_reading 1 [RRead demo_queued 0; RTop] None [] false 0 demo_queued 0 demo_listed);
                 [reflexivity|exact Hr|vm_compute; reflexivity]|].
  eapply rtc_l; [eapply (S_take _ _ demo_prepared 2 [RTop; RTop] [] false demo_path (Some demo_dir) demo_taken); vm_compute; reflexivity|].
  eapply rtc_l; [eapply (S_top_read _ _ demo_taken 2 [RTop; RTop] None [(0, demo_path, demo_dir)] false 0 demo_subdir); vm_compute; reflexivity|].
  apply rtc_refl.
Qed.

Lemma demo_run_stopped reads asks : asks demo_path (mkFd 3 []) D_NAME -> reads 0 demo_queued demo_listed ->
  rtc (rstep reads asks) readers_new demo_stopped.
Proof.
  intros Ha Hr. eapply rtc_r; [eapply rtc_r; [by apply demo_reads_run|apply S_stop]|].
  by apply (S_stop_told _ _ (ra_stop (rd_state demo_readers)) 2 [RRead demo_subdir 0; RTop]).
Qed.

Lemma demo_world_ok : world_ok demo_root true (stat_key demo_root_stat) (mapped split_ram) 0 demo_world.
Proof. split; [by apply new_session_ok|apply split_ram_ok|done|constructor]. Qed.

Lemma readahead_confined_witness :
  rd_workers demo_readers !! 0%nat = Some (RRead demo_subdir 0) /\
  match read_queued None demo_subdir demo_world with (Ok (Some _), w') => Forall (call_ok true) (w_log w') | _ => False end /\
  Forall (fun e => Forall (fun x => name_ok (e_name (p_info x))) (pd_entries e.2)) (rd_taken demo_readers).
Proof.
  assert (rtc (rstep (host_reads demo_root true (stat_key demo_root_stat) (mapped split_ram)) session_asks) readers_new demo_readers) as Hrun.
  { apply demo_reads_run; [split; [constructor|apply (bool_decide_unpack _); vm_compute; exact I]|]. exists None, 0, demo_world, (read_queued None demo_queued demo_world).2.
    split; [apply demo_world_ok|vm_compute; reflexivity]. }
  destruct (readahead_confined demo_root true (stat_key demo_root_stat) (mapped split_ram) demo_readers Hrun) as [H1 H2].
  split; [reflexivity|]. split; [|exact H2]. specialize (H1 0%nat demo_subdir 0 None 0 demo_world eq_refl demo_world_ok).
  destruct (read_queued None demo_subdir demo_world) as [res w'] eqn:E.
  assert (exists x, res = Ok (Some x)) as [x ->]; [|exact H1].
  apply (f_equal fst) in E. vm_compute in E. subst res. by eexists.
Defined.

Lemma readahead_current_witness :
  rd_taken demo_readers = [(0, demo_path, demo_dir)] /\
  forall p, p ∈ in_flight (rd_state demo_readers) <-> exists i q g, rd_workers demo_readers !! i = Some (RRead q g) /\ q_path q = p.
Proof.
  split; [reflexivity|].
  refine (proj1 (proj2 (proj2 (proj2 (proj2 (proj2 (proj2 (readahead_current (fun _ _ _ => True) (fun _ _ _ => True) demo_readers _)))))))).
  by apply demo_reads_run.
Defined.

Lemma readahead_wakes_witness :
  rd_stop_told demo_stopped = true /\
  exists r', rstep (fun _ _ _ => True) (fun _ _ _ => True) demo_stopped r' /\ (work_left (rd_workers r') < work_left (rd_workers demo_stopped))%nat.
Proof.
  split; [reflexivity|].
  destruct (readahead_wakes (fun _ _ _ => True) (fun _ _ _ => True) demo_stopped) as (_ & _ & _ & H); [by apply demo_run_stopped|].
  destruct (H eq_refl) as (_ & _ & Hm). apply (Hm ltac:(intros; by exists None) 1%nat RTop); [reflexivity|discriminate].
Defined.

(** A directory served while it is queued, then pushed out of a full queue, stays in
    [skip] though no worker can reach it any more. *)
Lemma skip_outlives_queue :
  let dir i := mkQueued [[i]] (mkFd 3 []) [i] 0 in
  let full := foldr (fun i s => ra_push (dir i) s) ra_new (rev (map Z.of_nat (seq 1 READAHEAD_MAX_QUEUED))) in
  let s := ra_push (dir 100) (mark_served [[1]] full) in
  [[1]] ∈ ra_skip s /\ ([[1]] ∉ map q_path (ra_queue s)) /\ ([[1]] ∉ in_flight s) /\ length (ra_queue s) = READAHEAD_MAX_QUEUED.
Proof.
  cbv zeta.
  assert (forall s, bool_decide ([[1]] ∈ ra_skip s) && negb (bool_decide ([[1]] ∈ map q_path (ra_queue s))) &&
    negb (bool_decide ([[1]] ∈ in_flight s)) && (length (ra_queue s) =? READAHEAD_MAX_QUEUED)%nat = true ->
    [[1]] ∈ ra_skip s /\ ([[1]] ∉ map q_path (ra_queue s)) /\ ([[1]] ∉ in_flight s) /\ length (ra_queue s) = READAHEAD_MAX_QUEUED) as H.
  { intros s. rewrite !andb_true_iff, !negb_true_iff, bool_decide_eq_true, !bool_decide_eq_false, Nat.eqb_eq. by intros [[[? ?] ?] ?]. }
  apply H. vm_compute. reflexivity.
Qed.
