(* ===== verification/VhostUser.v ===== *)
(** * The vhost-user front end ([src/devices/virtio/fs/vhost_user.rs])

    On Linux a daemon serves the shared directory. The device keeps the register
    window, negotiates the features, and hands the rings the guest programmed to the
    daemon, which walks them in its own process through the memory table it is sent.
    The daemon is a parameter that answers each message with a value or an error;
    the messages that went out are part of the state, so what the daemon was told
    can be stated over them. *)

From S2P Require Import Prelude Memory Irq Virtio Queue.
Local Open Scope Z_scope.

Definition TAG_LEN : Z := 36.
Definition CONFIG_LEN : Z := TAG_LEN + 4.
Definition TRANSPORT_FEATURES : Z := Z.lor (Z.lor (Z.shiftl 1 32) (Z.shiftl 1 28)) (Z.shiftl 1 29).
Definition MAGIC_VALUE : Z := 0x7472_6976.
Definition VENDOR : Z := 0x4649_4f4e.
Definition VIRTIO_FS_ID : Z := 26.
Definition STATUS_DRIVER_OK : Z := 4.

(** [VhostUserVirtioFeatures::PROTOCOL_FEATURES] and
    [VhostUserProtocolFeatures::MQ]. *)
Definition PROTOCOL_FEATURES : Z := Z.shiftl 1 30.
Definition MQ : Z := 1.

Definition config_space (tag : list Z) (request_queues : Z) : list Z :=
  let tag := take (Z.to_nat TAG_LEN) tag in
  tag ++ replicate (Z.to_nat TAG_LEN - length tag) 0 ++ le_bytes 4 request_queues.

(** The word lands in the half its selector names, masked to the offer. *)
Definition ack_features (current value select offered : Z) : Z :=
  Z.lor current (Z.land (u64 (Z.shiftl value (32 * Z.land select 1))) offered).

Definition ring_extents (size max : Z) : option (Z * Z * Z) :=
  if (size =? 0) || (max <? size) || negb (is_power_of_two size) then None
  else Some (16 * size, 6 + 2 * size, 6 + 8 * size).

Definition queue_count (request_queues : Z) : Z := request_queues + 1.

Record Ring := mkRing {
  r_size : Z; r_ready : bool; r_desc : Z; r_avail : Z; r_used : Z; handed_over : bool }.
Definition ring_default : Ring := mkRing 0 false 0 0 0 false.

(** ** Messages *)

Record MemoryRegion := mkMemoryRegion {
  guest_phys_addr : Z; memory_size : Z; userspace_addr : Z; mmap_offset : Z; mmap_handle : Z }.
Record VringConfig := mkVringConfig {
  queue_max_size : Z; vc_size : Z; desc_table_addr : Z; used_ring_addr : Z; avail_ring_addr : Z }.

Inductive Msg :=
  | SET_OWNER
  | GET_FEATURES
  | GET_PROTOCOL_FEATURES
  | SET_PROTOCOL_FEATURES (v : Z)
  | GET_QUEUE_NUM
  | SET_FEATURES (v : Z)
  | SET_MEM_TABLE (l : list MemoryRegion)
  | SET_VRING_NUM (i : nat) (size : Z)
  | SET_VRING_ADDR (i : nat) (c : VringConfig)
  | SET_VRING_BASE (i : nat) (base : Z)
  | SET_VRING_CALL (i : nat)
  | SET_VRING_KICK (i : nat)
  | SET_VRING_ENABLE (i : nat) (on : bool)
  | GET_VRING_BASE (i : nat).

(** The errors of the [vhost] crate: the three the frontend raises before it sends
    anything, and every other. *)
Inductive VhostError := InvalidParam | InactiveFeature | InactiveOperation | OnSocket.

Definition breaks_connection (e : VhostError) : bool :=
  match e with InvalidParam | InactiveFeature | InactiveOperation => false | OnSocket => true end.

(** The frontend and the daemon behind it: what a message returns, 0 for one that
    has no reply. *)
Class Backend (D : Type) := talk : Msg -> D -> (Z + VhostError) * D.

(** [Peer], with the messages that went out. *)
Record Peer (D : Type) := mkPeer { daemon : D; broken : bool; sent : list Msg }.
Arguments mkPeer {D}. Arguments daemon {D}. Arguments broken {D}. Arguments sent {D}.

Section Send.
Context {D : Type} `{Backend D}.

Definition send (m : Msg) (p : Peer D) : option Z * Peer D :=
  if broken p then (None, p)
  else match talk m (daemon p) with
  | (inl v, d) => (Some v, mkPeer d false (sent p ++ [m]))
  | (inr e, d) =>
      if breaks_connection e then (None, mkPeer d true (sent p ++ [m])) else (None, mkPeer d false (sent p))
  end.

End Send.

(** ** The device *)

Record VhostUserFs (D L : Type) := mkVhost {
  v_tag : list Z; peer : Peer D; ram_fd : Z; rings : list Ring; kicked : list nat; v_config : list Z;
  device_features : Z; acked_features : Z; v_queue_size : Z; protocol_features_offered : bool;
  dev_feat_sel : Z; drv_feat_sel : Z; queue_sel : Z; v_status : Z; v_interrupt : Z; v_irq : Irq L;
  handover_attempted : bool }.
Arguments mkVhost {D L}. Arguments v_tag {D L}. Arguments peer {D L}. Arguments ram_fd {D L}. Arguments rings {D L}.
Arguments kicked {D L}. Arguments v_config {D L}. Arguments device_features {D L}. Arguments acked_features {D L}.
Arguments v_queue_size {D L}. Arguments protocol_features_offered {D L}. Arguments dev_feat_sel {D L}.
Arguments drv_feat_sel {D L}. Arguments queue_sel {D L}. Arguments v_status {D L}. Arguments v_interrupt {D L}.
Arguments v_irq {D L}. Arguments handover_attempted {D L}.

Section Device.
Context {D L : Type} `{Backend D} `{IrqLine L}.
Abbreviation Dev := (VhostUserFs D L).

Definition set_peer p (d : Dev) : Dev :=
  mkVhost (v_tag d) p (ram_fd d) (rings d) (kicked d) (v_config d) (device_features d) (acked_features d) (v_queue_size d)
    (protocol_features_offered d) (dev_feat_sel d) (drv_feat_sel d) (queue_sel d) (v_status d) (v_interrupt d) (v_irq d) (handover_attempted d).
Definition set_rings r (d : Dev) : Dev :=
  mkVhost (v_tag d) (peer d) (ram_fd d) r (kicked d) (v_config d) (device_features d) (acked_features d) (v_queue_size d)
    (protocol_features_offered d) (dev_feat_sel d) (drv_feat_sel d) (queue_sel d) (v_status d) (v_interrupt d) (v_irq d) (handover_attempted d).
Definition set_kicked k (d : Dev) : Dev :=
  mkVhost (v_tag d) (peer d) (ram_fd d) (rings d) k (v_config d) (device_features d) (acked_features d) (v_queue_size d)
    (protocol_features_offered d) (dev_feat_sel d) (drv_feat_sel d) (queue_sel d) (v_status d) (v_interrupt d) (v_irq d) (handover_attempted d).
Definition set_sel acked dev drv q (d : Dev) : Dev :=
  mkVhost (v_tag d) (peer d) (ram_fd d) (rings d) (kicked d) (v_config d) (device_features d) acked (v_queue_size d)
    (protocol_features_offered d) dev drv q (v_status d) (v_interrupt d) (v_irq d) (handover_attempted d).
Definition set_regs st int attempted (d : Dev) : Dev :=
  mkVhost (v_tag d) (peer d) (ram_fd d) (rings d) (kicked d) (v_config d) (device_features d) (acked_features d) (v_queue_size d)
    (protocol_features_offered d) (dev_feat_sel d) (drv_feat_sel d) (queue_sel d) st int (v_irq d) attempted.
Definition set_v_irq i (d : Dev) : Dev :=
  mkVhost (v_tag d) (peer d) (ram_fd d) (rings d) (kicked d) (v_config d) (device_features d) (acked_features d) (v_queue_size d)
    (protocol_features_offered d) (dev_feat_sel d) (drv_feat_sel d) (queue_sel d) (v_status d) (v_interrupt d) i (handover_attempted d).

(** The methods that may fail: [None] is the error, with the state it leaves. *)
Definition VM (A : Type) : Type := Dev -> option A * Dev.
Definition vret {A} (a : A) : VM A := fun d => (Some a, d).
Definition vfail {A} : VM A := fun d => (None, d).
Definition vbind {A B} (m : VM A) (k : A -> VM B) : VM B :=
  fun d => match m d with (Some a, d) => k a d | (None, d) => (None, d) end.
Definition vmodify (f : Dev -> Dev) : VM unit := fun d => (Some tt, f d).
Definition vsend (m : Msg) : VM Z := fun d => let '(r, p) := send m (peer d) in (r, set_peer p d).
Definition vignore {A} (m : VM A) : VM unit := fun d => (Some tt, (m d).2).

Fixpoint veach {A} (f : A -> VM unit) (l : list A) : VM unit :=
  match l with
  | [] => vret tt
  | x :: l => vbind (f x) (fun _ => veach f l)
  end.

(** ** Guest RAM as the daemon sees it

    [hva r] is where this process maps region [r]. *)
Context (hva : RamRegion -> Z).

Fixpoint host_in (l : list RamRegion) (g len : Z) : option Z :=
  match l with
  | [] => None
  | r :: l => match resolve r g len with Some _ => Some (hva r + (g - gpa r)) | None => host_in l g len end
  end.
Definition host_addr (m : GuestRam) (g len : Z) : option Z := host_in (mapped m) g len.

Definition memory_table (m : GuestRam) (fd : Z) : option (list MemoryRegion) :=
  mapM (fun r => a ← host_addr m (gpa r) 1; Some (mkMemoryRegion (gpa r) (rsize r) a (file_offset r) fd)) (mapped m).

(** ** The handover *)

Definition set_handed (i : nat) (d : Dev) : Dev :=
  set_rings (alter (fun r => mkRing (r_size r) (r_ready r) (r_desc r) (r_avail r) (r_used r) true) i (rings d)) d.

(** The messages of one ring, in order. *)
Definition ring_messages (i : nat) (size : Z) (c : VringConfig) : list Msg :=
  [SET_VRING_NUM i size; SET_VRING_ADDR i c; SET_VRING_BASE i 0; SET_VRING_CALL i; SET_VRING_KICK i].

(** The addresses of a ring that may be handed over: ready, of a legal size, inside
    guest RAM. *)
Definition ring_config (m : GuestRam) (max : Z) (r : Ring) : option VringConfig :=
  if negb (r_ready r) then None
  else '(desc_len, avail_len, used_len) ← ring_extents (r_size r) max;
  desc ← host_addr m (r_desc r) desc_len;
  avail ← host_addr m (r_avail r) avail_len;
  used ← host_addr m (r_used r) used_len;
  Some (mkVringConfig max (r_size r) desc used avail).

Definition hand_ring (m : GuestRam) (i : nat) : VM unit := fun d =>
  match r ← rings d !! i; c ← ring_config m (v_queue_size d) r; Some (r, c) with
  | None => vret tt d
  | Some (r, c) =>
      vbind (vmodify (set_handed i)) (fun _ =>
        veach (fun msg => vbind (vsend msg) (fun _ => vret tt)) (ring_messages i (r_size r) c)) d
  end.

Definition enable_ring (i : nat) : VM unit := fun d =>
  match rings d !! i with
  | Some r => if handed_over r then vbind (vsend (SET_VRING_ENABLE i true)) (fun _ => vret tt) d else vret tt d
  | None => vret tt d
  end.

Definition hand_over (m : GuestRam) : VM unit := fun d =>
  let indices := seq 0 (length (rings d)) in
  let features := if protocol_features_offered d then Z.lor (acked_features d) PROTOCOL_FEATURES else acked_features d in
  vbind (vsend (SET_FEATURES features)) (fun _ =>
  vbind (match memory_table m (ram_fd d) with Some t => vret t | None => vfail end) (fun regions =>
  vbind (vsend (SET_MEM_TABLE regions)) (fun _ =>
  vbind (veach (hand_ring m) indices) (fun _ =>
  if protocol_features_offered d then veach enable_ring indices else vret tt)))) d.

Definition start (m : GuestRam) (d : Dev) : Dev :=
  (hand_over m (set_regs (v_status d) (v_interrupt d) true d)).2.

(** Best effort: an error of the two messages is printed, and a broken connection
    ends the loop. *)
Fixpoint stop_rings (indices : list nat) (d : Dev) : Dev :=
  match indices with
  | [] => d
  | i :: indices =>
      if broken (peer d) then d
      else match rings d !! i with
      | Some r =>
          if handed_over r then
            let d := if protocol_features_offered d then (vsend (SET_VRING_ENABLE i false) d).2 else d in
            stop_rings indices (vsend (GET_VRING_BASE i) d).2
          else stop_rings indices d
      | None => d
      end
  end.

(** [queue_sel] keeps its value. *)
Definition vreset (d : Dev) : Dev :=
  let d := if handover_attempted d then stop_rings (seq 0 (length (rings d))) d else d in
  set_sel 0 0 0 (queue_sel d) (set_regs 0 0 false (set_rings ((fun _ => ring_default) <$> rings d) d)).

(** ** Registers *)

Definition ring_mut (edit : Ring -> Ring) (d : Dev) : Dev :=
  set_rings (alter edit (Z.to_nat (queue_sel d)) (rings d)) d.

Definition kick_queue (index : Z) (d : Dev) : Dev :=
  if index <? zlen (rings d) then set_kicked (kicked d ++ [Z.to_nat index]) d else d.

Definition edit_desc (f : Z -> Z) (r : Ring) : Ring := mkRing (r_size r) (r_ready r) (f (r_desc r)) (r_avail r) (r_used r) (handed_over r).
Definition edit_avail (f : Z -> Z) (r : Ring) : Ring := mkRing (r_size r) (r_ready r) (r_desc r) (f (r_avail r)) (r_used r) (handed_over r).
Definition edit_used (f : Z -> Z) (r : Ring) : Ring := mkRing (r_size r) (r_ready r) (r_desc r) (r_avail r) (f (r_used r)) (handed_over r).

Definition write_reg (m : GuestRam) (offset v : Z) (d : Dev) : Dev :=
  if offset =? Mmio.DEVICE_FEATURES_SEL then set_sel (acked_features d) v (drv_feat_sel d) (queue_sel d) d
  else if offset =? Mmio.DRIVER_FEATURES_SEL then set_sel (acked_features d) (dev_feat_sel d) v (queue_sel d) d
  else if offset =? Mmio.DRIVER_FEATURES then
    set_sel (ack_features (acked_features d) v (drv_feat_sel d) (device_features d)) (dev_feat_sel d) (drv_feat_sel d) (queue_sel d) d
  else if offset =? Mmio.QUEUE_SEL then set_sel (acked_features d) (dev_feat_sel d) (drv_feat_sel d) v d
  else if offset =? Mmio.QUEUE_NUM then
    ring_mut (fun r => mkRing (u16 v) (r_ready r) (r_desc r) (r_avail r) (r_used r) (handed_over r)) d
  else if offset =? Mmio.QUEUE_READY then
    ring_mut (fun r => mkRing (r_size r) (negb (Z.land v 1 =? 0)) (r_desc r) (r_avail r) (r_used r) (handed_over r)) d
  else if offset =? Mmio.QUEUE_NOTIFY then kick_queue v d
  else if offset =? Mmio.INTERRUPT_ACK then set_regs (v_status d) (Z.ldiff (v_interrupt d) v) (handover_attempted d) d
  else if offset =? Mmio.STATUS then
    if v =? 0 then vreset d
    else
      let d := set_regs v (v_interrupt d) (handover_attempted d) d in
      if negb (Z.land v STATUS_DRIVER_OK =? 0) && negb (handover_attempted d) then start m d else d
  else if offset =? Mmio.QUEUE_DESC_LOW then ring_mut (edit_desc (fun a => set_lo a v)) d
  else if offset =? Mmio.QUEUE_DESC_HIGH then ring_mut (edit_desc (fun a => set_hi a v)) d
  else if offset =? Mmio.QUEUE_DRIVER_LOW then ring_mut (edit_avail (fun a => set_lo a v)) d
  else if offset =? Mmio.QUEUE_DRIVER_HIGH then ring_mut (edit_avail (fun a => set_hi a v)) d
  else if offset =? Mmio.QUEUE_DEVICE_LOW then ring_mut (edit_used (fun a => set_lo a v)) d
  else if offset =? Mmio.QUEUE_DEVICE_HIGH then ring_mut (edit_used (fun a => set_hi a v)) d
  else d.

Definition read_reg (d : Dev) (offset : Z) : Z :=
  if offset =? Mmio.MAGIC then MAGIC_VALUE
  else if offset =? Mmio.VERSION then 2
  else if offset =? Mmio.DEVICE_ID then VIRTIO_FS_ID
  else if offset =? Mmio.VENDOR_ID then VENDOR
  else if offset =? Mmio.DEVICE_FEATURES then Z.land (Z.shiftr (device_features d) (32 * Z.land (dev_feat_sel d) 1)) 0xffff_ffff
  else if offset =? Mmio.QUEUE_NUM_MAX then v_queue_size d
  else if offset =? Mmio.QUEUE_READY then
    match rings d !! Z.to_nat (queue_sel d) with Some r => if r_ready r then 1 else 0 | None => 0 end
  else if (offset =? Mmio.SHM_LEN_LOW) || (offset =? Mmio.SHM_LEN_HIGH) || (offset =? Mmio.SHM_BASE_LOW) || (offset =? Mmio.SHM_BASE_HIGH)
  then 0xffff_ffff
  else if offset =? Mmio.INTERRUPT_STATUS then v_interrupt d
  else if offset =? Mmio.STATUS then v_status d
  else if Mmio.CONFIG <=? offset then
    le_val ((fun i => default 0 (get_at (v_config d) (offset - Mmio.CONFIG + i))) <$> seqZ 0 8)
  else 0.

Definition irq_level (d : Dev) : bool := negb (v_interrupt d =? 0).
Definition sync_irq (d : Dev) : Dev := set_v_irq (set (v_irq d) (irq_level d)) d.

Definition mmio (m : GuestRam) (offset : Z) (is_write : bool) (value : Z) (d : Dev) : Z * Dev :=
  let '(r, d) := if is_write then (0, write_reg m offset (u32 value) d) else (read_reg d offset, d) in
  (r, sync_irq d).

Definition signal_used (d : Dev) : Dev :=
  sync_irq (set_regs (v_status d) (Z.lor (v_interrupt d) 1) (handover_attempted d) d).

(** One turn of [serve_interrupts]: what the wait on the call descriptor and the
    read of it gave. *)
Inductive CallWait := CallReadable | CallReadFailed | StopRequested | WaitFailed.

Fixpoint serve_interrupts (waits : list CallWait) (d : Dev) : Dev :=
  match waits with
  | CallReadable :: waits => serve_interrupts waits (signal_used d)
  | _ => d
  end.

(** ** The handshake

    [eventfds] says whether the descriptors of the queues could be created. The
    handshake calls the frontend itself and returns its first error, so a message
    that fails is also the last. *)
Definition over (dm : D) (eventfds : bool) (tag : list Z) (request_queues size fd : Z) : option Dev * list Msg :=
  let queues := queue_count request_queues in
  let p0 := mkPeer dm false [] in
  let '(r, p1) := send SET_OWNER p0 in
  match r with None => (None, sent p1) | Some _ =>
  let '(r, p2) := send GET_FEATURES p1 in
  match r with None => (None, sent p2) | Some offered =>
  let proto := negb (Z.land offered PROTOCOL_FEATURES =? 0) in
  let '(features, p3) :=
    if proto then
      let '(r, p) := send GET_PROTOCOL_FEATURES p2 in
      match r with
      | None => (None, p)
      | Some available =>
          let '(r, p) := send (SET_PROTOCOL_FEATURES (Z.land available MQ)) p in
          (match r with None => None | Some _ => Some (Z.land available MQ) end, p)
      end
    else (Some 0, p2) in
  match features with None => (None, sent p3) | Some protocol_features =>
  let '(served, p4) := if negb (Z.land protocol_features MQ =? 0) then send GET_QUEUE_NUM p3 else (Some (queue_count 1), p3) in
  match served with None => (None, sent p4) | Some served =>
  if served <? queues then (None, sent p4)
  else if negb eventfds then (None, sent p4)
  else (Some (mkVhost tag p4 fd (replicate (Z.to_nat queues) ring_default) [] (config_space tag (u32 request_queues))
          (Z.land offered TRANSPORT_FEATURES) 0 size proto 0 0 0 0 0 irq_default false), sent p4)
  end end end end.

(** ** Reaching the daemon

    Each attempt is what [connect] returned and whether the deadline had passed
    when it failed. *)
Inductive ConnectError := NotFound | ConnectionRefused | OtherError.
Definition later (e : ConnectError) : bool := match e with NotFound | ConnectionRefused => true | OtherError => false end.

Fixpoint connect_waiting {A} (attempts : list ((A + ConnectError) * bool)) : option (A + ConnectError) :=
  match attempts with
  | [] => None
  | (inl stream, _) :: _ => Some (inl stream)
  | (inr e, passed) :: attempts => if negb (later e) || passed then Some (inr e) else connect_waiting attempts
  end.

(** ** The exports of a machine *)

Record FsConfig := mkFsConfig { c_tag : list Z; num_queues : Z; c_queue_size : Z; socket : list ((D + ConnectError) * bool); eventfds_ok : bool }.
Record Export := mkExport { base : Z; e_irq : Z; dev : Dev }.

Definition connect (c : FsConfig) (fd : Z) : option Dev * list Msg :=
  match connect_waiting (socket c) with
  | Some (inl dm) => over dm (eventfds_ok c) (c_tag c) (num_queues c) (c_queue_size c) fd
  | _ => (None, [])
  end.

Fixpoint attach_placed (l : list (FsConfig * (Z * Z))) (fd : Z) : option (list Export) * list (list Msg) :=
  match l with
  | [] => (Some [], [])
  | (c, (b, i)) :: l =>
      match connect c fd with
      | (None, log) => (None, [log])
      | (Some d, log) => let '(r, logs) := attach_placed l fd in (cons (mkExport b i d) <$> r, log :: logs)
      end
  end.

(** Every export is placed before any is connected; the second result is what each
    daemon was sent. *)
Definition attach (sockets : list FsConfig) (fd : Z) (place : nat -> option (Z * Z)) : option (list Export) * list (list Msg) :=
  match mapM place (seq 0 (length sockets)) with
  | None => (None, [])
  | Some placed => attach_placed (zip sockets placed) fd
  end.

Definition export_at (exports : list Export) (addr size : Z) : option Export :=
  snd <$> list_find (fun e => base e <= addr /\ addr < base e + size) exports.

End Device.

(** ** What the daemon was told

    A ring is the daemon's from the first message that names it until a
    [GET_VRING_BASE]; it serves the ring from its enable, or from its kick where
    protocol features were not negotiated. *)
Definition held_step (h : gset nat) (m : Msg) : gset nat :=
  match m with
  | SET_VRING_NUM i _ | SET_VRING_ADDR i _ | SET_VRING_BASE i _ | SET_VRING_CALL i | SET_VRING_KICK i | SET_VRING_ENABLE i true => {[i]} ∪ h
  | GET_VRING_BASE i => h ∖ {[i]}
  | _ => h
  end.
Definition held (l : list Msg) : gset nat := foldl held_step ∅ l.

Definition serves_step (proto : bool) (h : gset nat) (m : Msg) : gset nat :=
  match m with
  | SET_VRING_KICK i => if proto then h else {[i]} ∪ h
  | SET_VRING_ENABLE i on => if on then {[i]} ∪ h else h ∖ {[i]}
  | GET_VRING_BASE i => h ∖ {[i]}
  | _ => h
  end.
Definition serves (proto : bool) (l : list Msg) : gset nat := foldl (serves_step proto) ∅ l.

(** The table in force, and an address translated through it. *)
Definition table_step (t : option (list MemoryRegion)) (m : Msg) : option (list MemoryRegion) :=
  match m with SET_MEM_TABLE l => Some l | _ => t end.
Definition table_of (l : list Msg) : option (list MemoryRegion) := foldl table_step None l.

Fixpoint translate (t : list MemoryRegion) (a len : Z) : option Z :=
  match t with
  | [] => None
  | r :: t =>
      if (userspace_addr r <=? a) && (a + len <=? userspace_addr r + memory_size r) then Some (guest_phys_addr r + (a - userspace_addr r))
      else translate t a len
  end.

(** The daemon's answers to the messages of a log, in order. *)
Fixpoint answers {D} `{Backend D} (x : D) (l : list Msg) : list (Msg * (Z + VhostError)) :=
  match l with
  | [] => []
  | m :: l => let '(r, x') := talk m x in (m, r) :: answers x' l
  end.

(** A daemon with this bit in its features has protocol features to negotiate. *)
Definition negotiable (offered : Z) : bool := negb (Z.land offered PROTOCOL_FEATURES =? 0).

Section Told.
Context (rs : list RamRegion) (offered avail : Z) (proto : bool) (max : Z).

(** The whole of a ring of [len] bytes at host address [a] is guest RAM, as the
    daemon finds it. *)
Definition in_table (t : option (list MemoryRegion)) (a len : Z) : Prop :=
  exists l g, t = Some l /\ translate l a len = Some g /\ is_Some (slice_in rs g len).

Definition legal_size (n : Z) : Prop := 0 < n <= max /\ is_power_of_two n = true.

Definition msg_ok (t : option (list MemoryRegion)) (m : Msg) : Prop :=
  match m with
  | SET_PROTOCOL_FEATURES v => Z.ldiff v (Z.land avail MQ) = 0
  | SET_FEATURES v => Z.ldiff v (Z.lor offered (if proto then PROTOCOL_FEATURES else 0)) = 0
  | SET_VRING_NUM _ n => legal_size n
  | SET_VRING_ADDR _ c =>
      legal_size (vc_size c) /\ in_table t (desc_table_addr c) (16 * vc_size c) /\
      in_table t (avail_ring_addr c) (6 + 2 * vc_size c) /\ in_table t (used_ring_addr c) (6 + 8 * vc_size c)
  | SET_VRING_ENABLE _ true => proto = true
  | _ => True
  end.

Fixpoint log_ok (t : option (list MemoryRegion)) (l : list Msg) : Prop :=
  match l with
  | [] => True
  | m :: l => msg_ok t m /\ log_ok (table_step t m) l
  end.

Lemma log_ok_snoc t l m : log_ok t (l ++ [m]) <-> log_ok t l /\ msg_ok (foldl table_step t l) m.
Proof. revert t. induction l as [|m' l IH]; intros t; cbn; [tauto|]. rewrite IH. tauto. Qed.

End Told.

Section Host.
Context (hva : RamRegion -> Z) (rs : list RamRegion).
(** Two mappings of this process do not overlap. *)
Context (hva_apart : forall a b, a ∈ rs -> b ∈ rs -> a = b \/ hva a + rsize a <= hva b \/ hva b + rsize b <= hva a).
Context (rs_ok : Forall region_ok rs) (rs_apart : pairwise gpa_disjoint rs).

Lemma host_in_Some l g len a : host_in hva l g len = Some a ->
  exists r, r ∈ l /\ gpa r <= g /\ g + len <= gpa r + rsize r /\ a = hva r + (g - gpa r).
Proof.
  induction l as [|r l IH]; cbn; [done|]. destruct (resolve r g len) as [p|] eqn:E.
  - intros [= <-]. apply resolve_Some in E. exists r. split_and!; [by left|lia|lia|done].
  - intros (r' & ? & ?)%IH. exists r'. by split; [right|].
Qed.

Lemma host_in_region r : r ∈ rs -> host_in hva rs (gpa r) 1 = Some (hva r).
Proof.
  intros Hr. assert (is_Some (host_in hva rs (gpa r) 1)) as [a Ha].
  { assert (Forall region_ok rs) as Hok by done. clear rs_ok rs_apart hva_apart. induction Hr as [r l|r x l _ IH]; cbn.
    - apply Forall_cons in Hok as [(? & ? & ? & ?) _]. destruct (resolve r (gpa r) 1) as [p|] eqn:E; [by eexists|].
      exfalso. assert (resolve r (gpa r) 1 = Some (file_offset r + (gpa r - gpa r))) by (apply resolve_Some; lia). congruence.
    - destruct (resolve x (gpa r) 1); [by eexists|]. apply IH. by apply Forall_cons in Hok as [_ ?]. }
  rewrite Ha. destruct (host_in_Some _ _ _ _ Ha) as (r' & Hr' & ? & ? & ->).
  rewrite Forall_forall in rs_ok. destruct (rs_ok r Hr) as (? & ? & _), (rs_ok r' Hr') as (? & ? & _).
  destruct (rs_apart r r' Hr Hr') as [->|[|]]; [f_equal; lia|lia|lia].
Qed.

Definition table_row (fd : Z) (r : RamRegion) : MemoryRegion := mkMemoryRegion (gpa r) (rsize r) (hva r) (file_offset r) fd.

Lemma memory_table_rows m fd : mapped m = rs -> memory_table hva m fd = Some (table_row fd <$> rs).
Proof.
  intros Hm. unfold memory_table, host_addr. rewrite Hm.
  assert (forall l, (forall r, r ∈ l -> r ∈ rs) ->
    mapM (fun r => a ← host_in hva rs (gpa r) 1; Some (mkMemoryRegion (gpa r) (rsize r) a (file_offset r) fd)) l = Some (table_row fd <$> l)) as Hl.
  { induction l as [|r l IH]; intros Hsub; [done|]. cbn. rewrite host_in_region by (apply Hsub; by left). cbn.
    rewrite IH by (intros; apply Hsub; by right). done. }
  by apply Hl.
Qed.

(** The daemon's translation undoes ours. *)
Lemma translate_rows fd g len a : 0 < len -> host_in hva rs g len = Some a ->
  translate (table_row fd <$> rs) a len = Some g /\ is_Some (slice_in rs g len).
Proof.
  intros Hlen Ha. destruct (host_in_Some _ _ _ _ Ha) as (r & Hr & Hg1 & Hg2 & ->). split.
  - assert (forall l, (forall x, x ∈ l -> x ∈ rs) -> r ∈ l -> translate (table_row fd <$> l) (hva r + (g - gpa r)) len = Some g) as Hl.
    { induction l as [|x l IH]; intros Hsub Hin; [by apply elem_of_nil in Hin|]. cbn.
      assert (x ∈ rs) as Hx by (apply Hsub; by left).
      destruct (hva_apart x r Hx Hr) as [->|Hap].
      - destruct (Z.leb_spec (hva r) (hva r + (g - gpa r))); [|lia]. destruct (Z.leb_spec (hva r + (g - gpa r) + len) (hva r + rsize r)); [|lia].
        cbn. f_equal. lia.
      - assert ((hva x <=? hva r + (g - gpa r)) && (hva r + (g - gpa r) + len <=? hva x + rsize x) = false) as ->
          by (apply andb_false_iff; rewrite !Z.leb_gt; lia).
        apply IH; [intros; apply Hsub; by right|]. apply elem_of_cons in Hin as [->|?]; [lia|done]. }
    by apply Hl.
  - apply (slice_in_is_Some _ _ _ r); [done|]. rewrite Forall_forall in rs_ok. destruct (rs_ok r Hr) as (? & ? & ? & ?).
    exists (file_offset r + (g - gpa r)). apply resolve_Some. lia.
Qed.

End Host.

(** ** The invariant of a session *)

Definition handed (l : list Ring) (i : nat) : Prop := exists r, l !! i = Some r /\ handed_over r = true.

Section Session.
Context {D L : Type} `{Backend D} `{IrqLine L}.
Abbreviation Dev := (VhostUserFs D L).
Context (hva : RamRegion -> Z) (rs : list RamRegion).
Context (hva_apart : forall a b, a ∈ rs -> b ∈ rs -> a = b \/ hva a + rsize a <= hva b \/ hva b + rsize b <= hva a).
Context (rs_ok : Forall region_ok rs) (rs_apart : pairwise gpa_disjoint rs).
Context (offered avail : Z) (proto : bool) (max : Z) (n : nat).

Record vh_ok (d : Dev) : Prop := {
  vh_len : length (rings d) = n;
  vh_sizes : Forall (fun r => 0 <= r_size r) (rings d);
  vh_offered : device_features d = offered;
  vh_proto : protocol_features_offered d = proto;
  vh_max : v_queue_size d = max;
  vh_acked : Z.ldiff (acked_features d) (device_features d) = 0;
  vh_log : log_ok rs offered avail proto max None (sent (peer d));
  vh_held : broken (peer d) = false -> forall i, i ∈ held (sent (peer d)) -> handed (rings d) i;
  vh_fresh : handover_attempted d = false -> forall i, ~ handed (rings d) i }.

Lemma send_cases (msg : Msg) (p : Peer D) :
  let '(r, p') := send msg p in
  (broken p = true /\ r = None /\ p' = p) \/
  (broken p = false /\ sent p' = sent p ++ [msg] /\ (r = None -> broken p' = true) /\ (is_Some r -> broken p' = false)) \/
  (broken p = false /\ r = None /\ sent p' = sent p /\ broken p' = false /\ exists e x, talk msg (daemon p) = (inr e, x) /\ breaks_connection e = false).
Proof.
  unfold send. destruct (broken p) eqn:Eb; [by left|]. destruct (talk msg (daemon p)) as [[v|e] x] eqn:E.
  - right. left. by split_and!.
  - destruct (breaks_connection e) eqn:Ee; [right; left; by split_and!|]. right. right. split_and!; try done. by exists e, x.
Qed.

Lemma held_snoc l m : held (l ++ [m]) = held_step (held l) m.
Proof. unfold held. by rewrite foldl_app. Qed.
Lemma table_snoc l m : table_of (l ++ [m]) = table_step (table_of l) m.
Proof. unfold table_of. by rewrite foldl_app. Qed.

(** A message that is true of the device and names only a ring handed over. *)
Definition may_send (d : Dev) (m : Msg) : Prop :=
  msg_ok rs offered avail proto max (table_of (sent (peer d))) m /\
  forall i, i ∈ held_step (held (sent (peer d))) m -> i ∈ held (sent (peer d)) \/ handed (rings d) i.

Lemma vsend_ok m d : vh_ok d -> may_send d m -> vh_ok (vsend m d).2.
Proof.
  intros [H1 Hz H2 H3 H4 H5 H6 H7 H8] [Hm Hh]. unfold vsend. pose proof (send_cases m (peer d)) as Hs. destruct (send m (peer d)) as [r p].
  cbn. destruct Hs as [(Eb & -> & ->)|[(Eb & Es & _ & _)|(Eb & -> & Es & Eb' & _)]]; constructor; cbn; try done; rewrite ?Es.
  - by apply log_ok_snoc.
  - intros _ i. rewrite held_snoc. intros Hi. destruct (Hh i Hi); [|done]. by apply H7.
  - done.
  - intros _. by apply H7.
Qed.

(** A failure that is not the frontend's refusal breaks the connection. *)
Lemma vsend_table m (d : Dev) t : (forall l, m <> SET_MEM_TABLE l) -> table_of (sent (peer d)) = Some t -> table_of (sent (peer (vsend m d).2)) = Some t.
Proof.
  intros Hm Ht. unfold vsend. pose proof (send_cases m (peer d)) as Hs. destruct (send m (peer d)) as [r p]. cbn.
  destruct Hs as [(_ & _ & ->)|[(_ & -> & _)|(_ & _ & -> & _)]]; [done| |done]. rewrite table_snoc, Ht. by destruct m; try done; destruct (Hm l).
Qed.

Lemma vsend_rings m (d : Dev) : rings (vsend m d).2 = rings d.
Proof. unfold vsend. by destruct (send m (peer d)). Qed.

(** ** Programs that keep a property *)

Definition vkeeps {A} (P : Dev -> Prop) (m : VM (D := D) (L := L) A) : Prop := forall d, P d -> P (m d).2.

Lemma vbind_keeps {A B} P (m : VM A) (k : A -> VM B) : vkeeps P m -> (forall a, vkeeps P (k a)) -> vkeeps P (vbind m k).
Proof. intros Hm Hk d Hd. unfold vbind. specialize (Hm d Hd). destruct (m d) as [[a|] d']; [by apply Hk|done]. Qed.
Lemma vret_keeps {A} P (a : A) : vkeeps P (vret a).
Proof. by intros d. Qed.
Lemma veach_keeps {A} P (f : A -> VM unit) l : (forall x, x ∈ l -> vkeeps P (f x)) -> vkeeps P (veach f l).
Proof.
  induction l as [|x l IH]; intros Hf; cbn; [apply vret_keeps|].
  apply vbind_keeps; [apply Hf; by left|]. intros _. apply IH. intros y Hy. apply Hf. by right.
Qed.

(** While the rings are handed over: the table is in force. *)
Definition handing (d : Dev) : Prop :=
  vh_ok d /\ handover_attempted d = true /\ exists fd, table_of (sent (peer d)) = Some (table_row hva fd <$> rs).

Lemma handed_set_handed i (d : Dev) r j : rings d !! i = Some r -> handed (rings (set_handed i d)) j <-> j = i \/ handed (rings d) j.
Proof.
  intros Hr. unfold handed. cbn. destruct (decide (j = i)) as [->|Hne].
  - rewrite list_lookup_alter_eq, Hr. cbn. split; [by left|]. intros _. eexists. by split.
  - rewrite list_lookup_alter_ne by done. split; [by right|by intros [|]].
Qed.

Lemma set_handed_ok i (d : Dev) r : rings d !! i = Some r -> handing d -> handing (set_handed i d).
Proof.
  intros Hr ([H1 Hz H2 H3 H4 H5 H6 H7 H8] & Ha & Ht). split_and!; [|done|done]. constructor; try done.
  - cbn. by rewrite length_alter.
  - cbn. by apply Forall_alter.
  - intros Hb j Hj. rewrite (handed_set_handed _ _ r) by done. right. by apply H7.
  - cbn. congruence.
Qed.

Lemma legal_extents s a b c : 0 <= s -> ring_extents s max = Some (a, b, c) -> legal_size max s /\ a = 16 * s /\ b = 6 + 2 * s /\ c = 6 + 8 * s.
Proof.
  intros Hs. unfold ring_extents. destruct (_ || _) eqn:E; [done|]. intros [= <- <- <-]. bool_hyps. unfold legal_size. split_and!; try done; lia.
Qed.

(** A ring that may be handed over, in the daemon's terms. *)
Definition config_ok (r : Ring) (c : VringConfig) : Prop :=
  vc_size c = r_size r /\ legal_size max (vc_size c) /\ forall fd,
  let t := table_row hva fd <$> rs in
  translate t (desc_table_addr c) (16 * vc_size c) = Some (r_desc r) /\ is_Some (slice_in rs (r_desc r) (16 * vc_size c)) /\
  translate t (avail_ring_addr c) (6 + 2 * vc_size c) = Some (r_avail r) /\ is_Some (slice_in rs (r_avail r) (6 + 2 * vc_size c)) /\
  translate t (used_ring_addr c) (6 + 8 * vc_size c) = Some (r_used r) /\ is_Some (slice_in rs (r_used r) (6 + 8 * vc_size c)).

Lemma ring_config_ok m r c : mapped m = rs -> 0 <= r_size r -> ring_config hva m max r = Some c -> config_ok r c.
Proof.
  intros Hm Hs. unfold ring_config, host_addr. rewrite Hm. destruct (negb _); [done|].
  destruct (ring_extents _ _) as [[[dl al] ul]|] eqn:E; [|done]. apply legal_extents in E as (Hl & -> & -> & ->); [|done]. cbn.
  destruct (host_in hva rs (r_desc r) _) as [a1|] eqn:E1; [|done]. cbn.
  destruct (host_in hva rs (r_avail r) _) as [a2|] eqn:E2; [|done]. cbn.
  destruct (host_in hva rs (r_used r) _) as [a3|] eqn:E3; [|done]. cbn. intros [= <-]. split; [done|]. split; [done|]. cbn. intros fd.
  destruct Hl as [Hl _]. apply (translate_rows hva rs hva_apart rs_ok fd) in E1 as [? ?], E2 as [? ?], E3 as [? ?]; [done|lia..].
Qed.

(** The messages of a ring keep the invariant once it is marked. *)
Lemma ring_message_keeps i r c msg : config_ok r c -> msg ∈ ring_messages i (r_size r) c ->
  vkeeps (fun d => handing d /\ handed (rings d) i) (vbind (vsend msg) (fun _ => vret tt)).
Proof.
  intros (Es & Hl & Hc) Hin. apply vbind_keeps; [|intros; apply vret_keeps]. intros d ((Hd & Ha & fd & Ht) & Hi).
  assert (handover_attempted (vsend msg d).2 = true) as Ha' by (unfold vsend; by destruct (send msg (peer d))).
  split; [|by rewrite vsend_rings]. split; [|split; [done|]].
  - apply vsend_ok; [done|]. split.
    + rewrite Ht. specialize (Hc fd). rewrite Es in Hl. apply list_elem_of_In in Hin. cbn in Hin.
      destruct Hin as [<-|[<-|[<-|[<-|[<-|[]]]]]]; cbn; try done.
      rewrite Es in *. cbv zeta in Hc. destruct Hc as (T1 & S1 & T2 & S2 & T3 & S3).
      split; [done|]. split_and!; (eexists _, _; split_and!; [done|eassumption|done]).
    + intros j Hj. apply list_elem_of_In in Hin. cbn in Hin.
      destruct Hin as [<-|[<-|[<-|[<-|[<-|[]]]]]]; cbn in Hj; (apply elem_of_union in Hj as [->%elem_of_singleton|]; [by right|by left]).
  - exists fd. apply vsend_table; [|done]. intros l ->. apply list_elem_of_In in Hin. cbn in Hin. by destruct_or! Hin.
Qed.

Lemma hand_ring_keeps m i : mapped m = rs -> vkeeps handing (hand_ring hva m i).
Proof.
  intros Hm d Hd. unfold hand_ring. destruct (rings d !! i) as [r|] eqn:Er; [|done]. cbn.
  destruct (ring_config hva m (v_queue_size d) r) as [c|] eqn:Ec; [|done]. cbn.
  destruct Hd as (Hok & Hd). rewrite (vh_max _ Hok) in Ec. apply ring_config_ok in Ec; [|done|].
  2: { pose proof (vh_sizes _ Hok) as Hz. rewrite Forall_lookup in Hz. by apply (Hz i). }
  assert (vkeeps (fun d => handing d /\ handed (rings d) i)
    (veach (fun msg => vbind (vsend msg) (fun _ => vret tt)) (ring_messages i (r_size r) c))) as Hk.
  { apply veach_keeps. intros msg Hin. by eapply ring_message_keeps. }
  apply (Hk (set_handed i d)). split; [by eapply set_handed_ok|]. rewrite (handed_set_handed _ _ r) by done. by left.
Qed.

Lemma enable_ring_keeps i : proto = true -> vkeeps handing (enable_ring i).
Proof.
  intros Hp d (Hok & Ha & fd & Ht). unfold enable_ring. destruct (rings d !! i) as [r|] eqn:Er; [|by split_and!; [..|exists fd]].
  destruct (handed_over r) eqn:Eh; [|by split_and!; [..|exists fd]].
  assert (vkeeps (fun d => handing d /\ handed (rings d) i) (vbind (vsend (SET_VRING_ENABLE i true)) (fun _ => vret tt))) as Hk.
  { apply vbind_keeps; [|intros; apply vret_keeps]. clear -Hp. intros d ((Hd & Ha & fd & Ht) & Hi). split; [|by rewrite vsend_rings].
    split; [|split; [unfold vsend; by destruct (send _ (peer d))|]].
    - apply vsend_ok; [done|]. split; [done|]. cbn. intros j [->%elem_of_singleton|]%elem_of_union; [by right|by left].
    - exists fd. by apply vsend_table. }
  apply (Hk d). split; [|by exists r]. split_and!; [done|done|by exists fd].
Qed.

Lemma ldiff_features a o (b : bool) : Z.ldiff a o = 0 ->
  Z.ldiff (if b then Z.lor a PROTOCOL_FEATURES else a) (Z.lor o (if b then PROTOCOL_FEATURES else 0)) = 0.
Proof.
  intros Ha. apply Z.bits_inj'. intros k Hk. rewrite Z.bits_0.
  assert (Z.testbit (Z.ldiff a o) k = false) as Hb by (by rewrite Ha, Z.bits_0). rewrite Z.ldiff_spec in Hb.
  rewrite Z.ldiff_spec, Z.lor_spec. destruct b; [rewrite Z.lor_spec|rewrite Z.bits_0];
    destruct (Z.testbit a k), (Z.testbit o k), (Z.testbit PROTOCOL_FEATURES k); done.
Qed.

Lemma hand_over_keeps m d : mapped m = rs -> vh_ok d -> handover_attempted d = true -> vh_ok (hand_over hva m d).2.
Proof.
  intros Hm Hd Ha. unfold hand_over. unfold vbind at 1.
  assert (may_send d (SET_FEATURES (if protocol_features_offered d then Z.lor (acked_features d) PROTOCOL_FEATURES else acked_features d))) as Hf.
  { split; [|by left]. cbn. rewrite <-(vh_offered _ Hd), (vh_proto _ Hd). apply ldiff_features, (vh_acked _ Hd). }
  pose proof (vsend_ok _ _ Hd Hf) as H1. set (msg := SET_FEATURES _) in *. pose proof (vsend_rings msg d) as Hr1.
  assert (handover_attempted (vsend msg d).2 = true) as Ha1 by (unfold vsend; by destruct (send msg (peer d))).
  destruct (vsend msg d) as [[v|] d1]; [|done]. cbn in H1, Hr1, Ha1.
  rewrite (memory_table_rows hva rs rs_ok rs_apart m _ Hm). unfold vbind at 1. cbn [vret]. unfold vbind at 1.
  set (t := table_row hva (ram_fd d) <$> rs).
  assert (vh_ok (vsend (SET_MEM_TABLE t) d1).2) as H2 by (apply vsend_ok; [done|split; [done|by left]]).
  assert (handover_attempted (vsend (SET_MEM_TABLE t) d1).2 = true) as Ha2 by (unfold vsend; by destruct (send _ (peer d1))).
  assert (forall v d2, vsend (SET_MEM_TABLE t) d1 = (Some v, d2) -> table_of (sent (peer d2)) = Some t) as Ht.
  { intros v' d2. unfold vsend. pose proof (send_cases (SET_MEM_TABLE t) (peer d1)) as Hc. destruct (send (SET_MEM_TABLE t) (peer d1)) as [r p].
    intros [= -> <-]. cbn. destruct Hc as [(_ & ? & _)|[(_ & -> & _)|(_ & ? & _)]]; [done| |done]. by rewrite table_snoc. }
  destruct (vsend (SET_MEM_TABLE t) d1) as [[v'|] d2] eqn:E2; [|done]. cbn in H2, Ha2. specialize (Ht v' d2 eq_refl).
  assert (handing d2) as Hh by (split_and!; [done|done|by exists (ram_fd d)]).
  assert (vkeeps handing (vbind (veach (hand_ring hva m) (seq 0 (length (rings d)))) (fun _ =>
    if protocol_features_offered d then veach enable_ring (seq 0 (length (rings d))) else vret tt))) as Hk.
  { apply vbind_keeps; [apply veach_keeps; intros; by apply hand_ring_keeps|]. intros _.
    destruct (protocol_features_offered d) eqn:Ep; [|apply vret_keeps]. apply veach_keeps. intros. apply enable_ring_keeps.
    by rewrite (vh_proto _ Hd) in Ep. }
  apply (Hk d2 Hh).
Qed.

(** ** The reset *)

(** The frontend sends [GET_VRING_BASE] for every queue it was made for. *)
Context (base_sent : forall i x e x', (i < n)%nat -> talk (GET_VRING_BASE i) x = (inr e, x') -> breaks_connection e = true).

Lemma vsend_quiet m d : vh_ok d -> (exists i, m = SET_VRING_ENABLE i false \/ m = GET_VRING_BASE i) -> vh_ok (vsend m d).2.
Proof.
  intros Hd Hm. apply vsend_ok; [done|]. destruct Hm as (i & [->| ->]); (split; [done|]); cbn; intros j Hj; left; try done; by apply elem_of_difference in Hj as [? _].
Qed.

(** Taking one ring back. *)
Definition take_back (i : nat) (d : Dev) : Dev :=
  (vsend (GET_VRING_BASE i) (if protocol_features_offered d then (vsend (SET_VRING_ENABLE i false) d).2 else d)).2.

Lemma vsend_held m (d : Dev) i : i ∈ held (sent (peer (vsend m d).2)) -> i ∈ held (sent (peer d)) \/ i ∈ held_step (held (sent (peer d))) m.
Proof.
  unfold vsend. pose proof (send_cases m (peer d)) as Hs. destruct (send m (peer d)) as [r p]. cbn.
  destruct Hs as [(_ & _ & ->)|[(_ & -> & _)|(_ & _ & -> & _)]]; [by left| |by left]. rewrite held_snoc. by right.
Qed.

Lemma take_back_spec i d : vh_ok d -> (i < n)%nat ->
  let d' := take_back i d in
  vh_ok d' /\ rings d' = rings d /\ handover_attempted d' = handover_attempted d /\ protocol_features_offered d' = protocol_features_offered d /\
  (broken (peer d') = false -> forall j, j ∈ held (sent (peer d')) -> j ∈ held (sent (peer d)) /\ j <> i).
Proof.
  intros Hd Hi. unfold take_back. set (d1 := if protocol_features_offered d then _ else d).
  assert (vh_ok d1 /\ rings d1 = rings d /\ handover_attempted d1 = handover_attempted d /\ protocol_features_offered d1 = protocol_features_offered d /\
    forall j, j ∈ held (sent (peer d1)) -> j ∈ held (sent (peer d))) as (H1 & Er & Ea & Ep & Hh).
  { unfold d1. destruct (protocol_features_offered d) eqn:E; [|done]. split_and!.
    - apply vsend_quiet; [done|]. exists i. by left.
    - apply vsend_rings.
    - unfold vsend. by destruct (send _ (peer d)).
    - unfold vsend. by destruct (send _ (peer d)).
    - intros j [Hj|Hj]%vsend_held; done. }
  cbv zeta. split_and!.
  - apply vsend_quiet; [done|]. exists i. by right.
  - by rewrite vsend_rings.
  - unfold vsend. by destruct (send _ (peer d1)).
  - unfold vsend. by destruct (send _ (peer d1)).
  - unfold vsend. pose proof (send_cases (GET_VRING_BASE i) (peer d1)) as Hs. destruct (send (GET_VRING_BASE i) (peer d1)) as [r p]. cbn.
    intros Hb j Hj. destruct Hs as [(Hb' & _ & ->)|[(_ & Es & _)|(_ & _ & _ & _ & e & x & He & He')]].
    + congruence.
    + rewrite Es, held_snoc in Hj. cbn in Hj. apply elem_of_difference in Hj as [Hj Hne]. split; [by apply Hh|]. intros ->. by apply Hne, elem_of_singleton.
    + by rewrite (base_sent _ _ _ _ Hi He) in He'.
Qed.

Lemma stop_rings_spec l d : vh_ok d -> Forall (fun i => (i < n)%nat) l ->
  let d' := stop_rings l d in
  vh_ok d' /\ rings d' = rings d /\ protocol_features_offered d' = protocol_features_offered d /\
  (broken (peer d') = false -> forall j, j ∈ held (sent (peer d')) -> j ∈ held (sent (peer d)) /\ (j ∈ l -> ~ handed (rings d) j)).
Proof.
  intros Hd Hl. revert d Hd. induction Hl as [|i l Hi _ IH]; intros d Hd; cbn [stop_rings].
  { split_and!; try done. intros _ j Hj. split; [done|]. by intros ?%elem_of_nil. }
  destruct (broken (peer d)) eqn:Eb; [split_and!; try done; congruence|].
  destruct (rings d !! i) as [r|] eqn:Er.
  2: { apply lookup_ge_None in Er. rewrite (vh_len _ Hd) in Er. lia. }
  destruct (handed_over r) eqn:Eh.
  - change (stop_rings l _) with (stop_rings l (take_back i d)). destruct (take_back_spec i d Hd Hi) as (H1 & E1 & _ & E2 & H2).
    destruct (IH _ H1) as (H3 & E3 & E4 & H4). cbv zeta. rewrite E3, E1, E4, E2. split_and!; try done. intros Hb j Hj.
    destruct (H4 Hb j Hj) as [Hj1 Hj2]. assert (broken (peer (take_back i d)) = false) as Hb1.
    { destruct (broken (peer (take_back i d))) eqn:E; [|done]. exfalso. revert Hb. destruct l; cbn; [congruence|]. rewrite E. congruence. }
    destruct (H2 Hb1 j Hj1) as [Hj3 Hne]. split; [done|]. intros [->|Hin]%elem_of_cons; [done|]. rewrite E1 in Hj2. by apply Hj2.
  - destruct (IH d Hd) as (H3 & E3 & E4 & H4). cbv zeta. rewrite E3, E4. split_and!; try done. intros Hb j Hj.
    destruct (H4 Hb j Hj) as [Hj1 Hj2]. split; [done|]. intros [->|Hin]%elem_of_cons; [|by apply Hj2]. intros (r' & Hr' & ?). congruence.
Qed.

Lemma handed_default (l : list Ring) i : ~ handed ((fun _ => ring_default) <$> l) i.
Proof. intros (r & Hr & Hh). rewrite list_lookup_fmap in Hr. destruct (l !! i); cbn in Hr; simplify_eq. Qed.

(** After a reset that kept its connection the daemon holds no ring. *)
Lemma vreset_spec d : vh_ok d ->
  vh_ok (vreset d) /\ (broken (peer (vreset d)) = false -> held (sent (peer (vreset d))) = ∅).
Proof.
  intros Hd. unfold vreset. set (d1 := if handover_attempted d then _ else d).
  assert (vh_ok d1 /\ (broken (peer d1) = false -> held (sent (peer d1)) = ∅)) as [H1 H2].
  { unfold d1. destruct (handover_attempted d) eqn:Ea.
    - assert (Forall (fun i => (i < n)%nat) (seq 0 (length (rings d)))) as Hl.
      { apply Forall_forall. intros i Hi%elem_of_seq. rewrite <-(vh_len _ Hd). lia. }
      destruct (stop_rings_spec _ d Hd Hl) as (H1 & E1 & _ & H2). split; [done|]. intros Hb. apply set_eq. intros j. split; [|by intros ?%elem_of_empty].
      intros Hj. exfalso. destruct (H2 Hb j Hj) as [_ Hno]. pose proof (vh_held _ H1 Hb j Hj) as (r & Hr & Hh). rewrite E1 in Hr.
      apply Hno; [|by exists r]. apply elem_of_seq. apply lookup_lt_Some in Hr. lia.
    - split; [done|]. intros Hb. apply set_eq. intros j. split; [|by intros ?%elem_of_empty]. intros Hj.
      exfalso. by apply (vh_fresh _ Hd Ea j), (vh_held _ Hd). }
  split; [|done]. destruct H1 as [E1 Hz E2 E3 E4 E5 E6 E7 E8]. constructor; cbn; try done.
  - by rewrite length_fmap.
  - apply Forall_fmap, Forall_true. cbn. lia.
  - intros Hb i. by rewrite H2.
  - intros _ i. apply handed_default.
Qed.

(** ** Every access *)

Lemma alter_handed (edit : Ring -> Ring) (l : list Ring) k i : (forall r, handed_over (edit r) = handed_over r) ->
  handed (alter edit k l) i <-> handed l i.
Proof.
  intros He. unfold handed. destruct (decide (i = k)) as [->|Hne]; [|by rewrite list_lookup_alter_ne].
  rewrite list_lookup_alter_eq. destruct (l !! k) as [r|]; cbn; [|done].
  split; intros (r' & [= <-] & Hh); eexists; (split; [done|]); by rewrite ?He in *.
Qed.

Lemma ring_mut_ok edit d : (forall r, handed_over (edit r) = handed_over r) -> (forall r, 0 <= r_size r -> 0 <= r_size (edit r)) ->
  vh_ok d -> vh_ok (ring_mut edit d).
Proof.
  intros He Hs [H1 Hz H2 H3 H4 H5 H6 H7 H8]. constructor; cbn; try done.
  - by rewrite length_alter.
  - apply Forall_alter; [done|]. intros r Hr Hr2. by apply Hs.
  - intros Hb i Hi. apply alter_handed; [done|]. by apply H7.
  - intros Ha i Hi%alter_handed; [|done]. by apply (H8 Ha i).
Qed.

Lemma ack_features_offered cur v sel o : Z.ldiff cur o = 0 -> Z.ldiff (ack_features cur v sel o) o = 0.
Proof.
  intros Hc. apply Z.bits_inj'. intros k Hk. rewrite Z.bits_0. unfold ack_features.
  assert (Z.testbit (Z.ldiff cur o) k = false) as Hb by (by rewrite Hc, Z.bits_0). rewrite Z.ldiff_spec in Hb.
  rewrite Z.ldiff_spec, Z.lor_spec, Z.land_spec. destruct (Z.testbit cur k), (Z.testbit o k), (Z.testbit (u64 _) k); done.
Qed.

Lemma set_sel_ok a x y z d : Z.ldiff a (device_features d) = 0 -> vh_ok d -> vh_ok (set_sel a x y z d).
Proof. by intros Ha []. Qed.
Lemma set_regs_ok st int d : vh_ok d -> vh_ok (set_regs st int (handover_attempted d) d).
Proof. by intros []. Qed.
Lemma set_v_irq_ok i d : vh_ok d -> vh_ok (set_v_irq i d).
Proof. by intros []. Qed.
Lemma set_kicked_ok k d : vh_ok d -> vh_ok (set_kicked k d).
Proof. by intros []. Qed.

Lemma vhost_start_ok m d : mapped m = rs -> vh_ok d -> vh_ok (start hva m d).
Proof. intros Hm Hd. unfold start. apply hand_over_keeps; [done| |done]. destruct Hd as [H1 Hz H2 H3 H4 H5 H6 H7 H8]. by constructor. Qed.

Lemma write_reg_ok m o v d : mapped m = rs -> 0 <= v -> vh_ok d -> vh_ok (write_reg hva m o v d).
Proof.
  intros Hm Hv Hd. pose proof (vh_acked _ Hd) as Ha. unfold write_reg.
  repeat match goal with |- vh_ok (if ?b then _ else _) => destruct b end;
    try (apply set_sel_ok; [|done]; try done; by apply ack_features_offered); try (by apply set_regs_ok); try done.
  - apply ring_mut_ok; try done. intros. apply u16_range.
  - by apply ring_mut_ok.
  - unfold kick_queue. destruct (_ <? _); [by apply set_kicked_ok|done].
  - by apply vreset_spec.
  - apply vhost_start_ok; [done|]. by apply set_regs_ok.
  - by apply ring_mut_ok.
  - by apply ring_mut_ok.
  - by apply ring_mut_ok.
  - by apply ring_mut_ok.
  - by apply ring_mut_ok.
  - by apply ring_mut_ok.
Qed.

(** One step of a session: an access of the guest, a signal of the daemon on a call
    descriptor, or anything the daemon does on its own, the end of the connection
    included. RAM's bytes may be any; its regions are [rs]. *)
Inductive vstep : Dev -> Dev -> Prop :=
  | V_access m a d : mapped m = rs -> mmio_access_ok a -> vstep d (mmio hva m (a_offset a) (a_write a) (a_value a) d).2
  | V_used d : vstep d (signal_used d)
  | V_daemon x d : vstep d (set_peer (mkPeer x (broken (peer d)) (sent (peer d))) d).

Lemma vhost_step_ok d d' : vstep d d' -> vh_ok d -> vh_ok d'.
Proof.
  intros Hs Hd. destruct Hs as [m [o w v] d Hm [Ho Hv]|d|x d]; cbn in *.
  - unfold mmio. destruct w; cbn; apply set_v_irq_ok; [|done]. apply write_reg_ok; [done| |done]. apply u32_range.
  - apply set_v_irq_ok. by apply set_regs_ok.
  - by destruct Hd.
Qed.

Lemma vhost_session_ok d d' : rtc vstep d d' -> vh_ok d -> vh_ok d'.
Proof. induction 1; [done|]. intros. apply IHrtc. by eapply vhost_step_ok. Qed.

(** ** A broken connection stays silent *)

Definition silent (l : list Msg) (d : Dev) : Prop := broken (peer d) = true /\ sent (peer d) = l.

Lemma vsend_silent l m : vkeeps (silent l) (vsend m).
Proof.
  intros d [Hb Hs]. unfold vsend. pose proof (send_cases m (peer d)) as Hc. destruct (send m (peer d)) as [r p]. cbn.
  destruct Hc as [(_ & _ & ->)|[(Hb' & _)|(Hb' & _)]]; [done|congruence..].
Qed.

Lemma vsends_silent l ms : vkeeps (silent l) (veach (fun msg => vbind (vsend msg) (fun _ => vret tt)) ms).
Proof. apply veach_keeps. intros m _. apply vbind_keeps; [apply vsend_silent|]. intros. apply vret_keeps. Qed.

Lemma hand_over_silent l m : vkeeps (silent l) (hand_over hva m).
Proof.
  intros d Hd. unfold hand_over. revert Hd.
  assert (forall ds, vkeeps (silent l) (veach (hand_ring hva m) ds)) as H1.
  { intros ds. apply veach_keeps. intros i _ d' Hd'. unfold hand_ring. destruct (r ← rings d' !! i; _) as [[r c]|]; [|done].
    apply (vsends_silent l (ring_messages i (r_size r) c) (set_handed i d')). by destruct Hd'. }
  assert (forall ds, vkeeps (silent l) (veach enable_ring ds)) as H2.
  { intros ds. apply veach_keeps. intros i _ d' Hd'. unfold enable_ring. destruct (rings d' !! i) as [r|]; [|done].
    destruct (handed_over r); [|done]. refine (vbind_keeps (silent l) _ _ (vsend_silent l _) _ d' Hd'). intros. apply vret_keeps. }
  intros Hd. refine (vbind_keeps (silent l) _ _ (vsend_silent l _) _ d Hd). intros _.
  apply vbind_keeps; [destruct (memory_table _ _ _); by intros ? ?|]. intros t.
  apply vbind_keeps; [apply vsend_silent|]. intros _. apply vbind_keeps; [apply H1|]. intros _.
  destruct (protocol_features_offered d); [apply H2|apply vret_keeps].
Qed.

Lemma vreset_silent l d : silent l d -> silent l (vreset d).
Proof.
  intros [Hb Hs]. unfold vreset. destruct (handover_attempted d); [|done].
  assert (forall js, stop_rings js d = d) as E by (intros [|j js]; cbn; [done|by rewrite Hb]). by rewrite E.
Qed.

Lemma vstep_silent l d d' : vstep d d' -> silent l d -> silent l d'.
Proof.
  intros Hs Hd. destruct Hs as [m [o w v] d Hm _|d|x d]; cbn in *.
  - unfold mmio. destruct w; cbn; [|done].
    assert (silent l (write_reg hva m o (u32 v) d)) as Hw; [|by destruct Hw].
    unfold write_reg. repeat match goal with |- silent _ (if ?b then _ else _) => destruct b end; try done.
    + unfold kick_queue. by destruct (_ <? _).
    + by apply vreset_silent.
    + unfold start. by apply hand_over_silent.
  - done.
  - done.
Qed.

Lemma session_silent l d d' : rtc vstep d d' -> silent l d -> silent l d'.
Proof. induction 1; [done|]. intros. apply IHrtc. by eapply vstep_silent. Qed.


(** ** A handover the daemon answers *)

(** The rings a handover sends, with their addresses, and the messages it makes. *)
Definition to_hand (m : GuestRam) (d : Dev) (l : list nat) : list (nat * Ring * VringConfig) :=
  omap (fun i => r ← rings d !! i; c ← ring_config hva m (v_queue_size d) r; Some (i, r, c)) l.
Definition ring_sends (l : list (nat * Ring * VringConfig)) : list Msg := l ≫= fun '(i, r, c) => ring_messages i (r_size r) c.
Definition enables (l : list (nat * Ring * VringConfig)) : list Msg := (fun '(i, _, _) => SET_VRING_ENABLE i true) <$> l.

Definition handover_messages (m : GuestRam) (d : Dev) : list Msg :=
  let l := to_hand m d (seq 0 (length (rings d))) in
  [SET_FEATURES (if protocol_features_offered d then Z.lor (acked_features d) PROTOCOL_FEATURES else acked_features d);
   SET_MEM_TABLE (table_row hva (ram_fd d) <$> rs)] ++
  ring_sends l ++ (if protocol_features_offered d then enables l else []).

Context (answers : forall m x, exists v x', talk m x = (inl v, x')).

Lemma vsend_answered m (d : Dev) : broken (peer d) = false ->
  exists v x, vsend m d = (Some v, set_peer (mkPeer x false (sent (peer d) ++ [m])) d).
Proof. intros Hb. unfold vsend, send. rewrite Hb. destruct (answers m (daemon (peer d))) as (v & x & ->). by exists v, x. Qed.

Lemma vsends_answered ms (d : Dev) : broken (peer d) = false ->
  exists x, veach (fun msg => vbind (vsend msg) (fun _ => vret tt)) ms d = (Some tt, set_peer (mkPeer x false (sent (peer d) ++ ms)) d).
Proof.
  revert d. induction ms as [|m ms IH]; intros d Hb; cbn [veach].
  - exists (daemon (peer d)). rewrite app_nil_r, <-Hb. by destruct d as [? []].
  - unfold vbind at 1. destruct (vsend_answered m d Hb) as (v & x & E). unfold vbind at 1. rewrite E. cbn [vret].
    destruct (IH (set_peer (mkPeer x false (sent (peer d) ++ [m])) d) eq_refl) as (x' & ->). exists x'. cbn. by rewrite <-app_assoc.
Qed.

(** What a ring was programmed with, apart from the mark. *)
Definition unmarked (r : Ring) : Ring := mkRing (r_size r) (r_ready r) (r_desc r) (r_avail r) (r_used r) false.

Record handed_on (m : GuestRam) (l : list nat) (d d' : Dev) : Prop := {
  ho_rings : unmarked <$> rings d' = unmarked <$> rings d;
  ho_sent : sent (peer d') = sent (peer d) ++ ring_sends (to_hand m d l);
  ho_sound : broken (peer d') = false;
  ho_size : v_queue_size d' = v_queue_size d;
  ho_handed : forall i, handed (rings d') i <-> handed (rings d) i \/ i ∈ (to_hand m d l).*1.*1 }.

Lemma ring_config_unmarked m mx r r' : unmarked r = unmarked r' -> ring_config hva m mx r = ring_config hva m mx r'.
Proof. unfold unmarked, ring_config. by intros [= -> -> -> -> ->]. Qed.

Lemma to_hand_cons m d i l : to_hand m d (i :: l) =
  match rings d !! i with
  | Some r => match ring_config hva m (v_queue_size d) r with Some c => (i, r, c) :: to_hand m d l | None => to_hand m d l end
  | None => to_hand m d l
  end.
Proof. unfold to_hand. cbn. destruct (rings d !! i) as [r|]; cbn; [|done]. by destruct (ring_config hva m (v_queue_size d) r). Qed.

Lemma to_hand_same m d d' l : unmarked <$> rings d' = unmarked <$> rings d -> v_queue_size d' = v_queue_size d ->
  ring_sends (to_hand m d' l) = ring_sends (to_hand m d l) /\ (to_hand m d' l).*1.*1 = (to_hand m d l).*1.*1.
Proof.
  intros Hr Hq. induction l as [|i l [IH1 IH2]]; [done|]. rewrite !to_hand_cons, Hq.
  assert (unmarked <$> (rings d' !! i) = unmarked <$> (rings d !! i)) as Hi by (by rewrite <-!list_lookup_fmap, Hr).
  destruct (rings d' !! i) as [r'|], (rings d !! i) as [r|]; cbn in Hi; try done.
  assert (unmarked r' = unmarked r) as Hu by congruence. rewrite (ring_config_unmarked m _ r' r Hu).
  destruct (ring_config hva m (v_queue_size d) r) as [c|]; [|done]. cbn.
  rewrite IH2. change (l ≫= ?f) with (l ≫= f). unfold ring_sends in IH1. rewrite IH1. unfold unmarked in Hu. by injection Hu as -> _ _ _ _.
Qed.

Lemma hand_ring_answered m i d : broken (peer d) = false -> exists d', hand_ring hva m i d = (Some tt, d') /\ handed_on m [i] d d' /\ protocol_features_offered d' = protocol_features_offered d.
Proof.
  intros Hb. unfold hand_ring. destruct (rings d !! i) as [r|] eqn:Er; cbn [mbind option_bind].
  2: { exists d. split; [done|]. split; [|done]. constructor; try done; rewrite to_hand_cons, Er; [by rewrite app_nil_r|].
       intros j. split; [by left|]. intros [?|?%elem_of_nil]; done. }
  destruct (ring_config hva m (v_queue_size d) r) as [c|] eqn:Ec; cbn [mbind option_bind].
  2: { exists d. split; [done|]. split; [|done]. constructor; try done; rewrite to_hand_cons, Er, Ec; [by rewrite app_nil_r|].
       intros j. split; [by left|]. intros [?|?%elem_of_nil]; done. }
  unfold vbind at 1, vmodify. destruct (vsends_answered (ring_messages i (r_size r) c) (set_handed i d) Hb) as (x & E).
  rewrite E. eexists. split; [done|]. split; [|done]. constructor; try done.
  - cbn. apply list_eq. intros j. rewrite !list_lookup_fmap. destruct (decide (j = i)) as [->|Hne]; [|by rewrite list_lookup_alter_ne].
    rewrite list_lookup_alter_eq. by destruct (rings d !! i).
  - rewrite to_hand_cons, Er, Ec. cbn. done.
  - intros j. rewrite to_hand_cons, Er, Ec. cbn [fmap list_fmap fst to_hand omap list_omap].
    pose proof (handed_set_handed i d r j Er) as Hh. rewrite list_elem_of_singleton. cbn in Hh |- *. tauto.
Qed.

Lemma hand_rings_answered m l d : broken (peer d) = false ->
  exists d', veach (hand_ring hva m) l d = (Some tt, d') /\ handed_on m l d d' /\ protocol_features_offered d' = protocol_features_offered d.
Proof.
  revert d. induction l as [|i l IH]; intros d Hb; cbn [veach].
  { exists d. split; [done|]. split; [|done]. constructor; try done; [by rewrite app_nil_r|]. intros j. split; [by left|]. by intros [?|?%elem_of_nil]. }
  destruct (hand_ring_answered m i d Hb) as (d1 & E1 & [A1 A2 A3 A4 A5] & P1). unfold vbind at 1. rewrite E1.
  destruct (IH d1 A3) as (d2 & E2 & [B1 B2 B3 B4 B5] & P2). exists d2. split; [done|]. split; [|congruence].
  destruct (to_hand_same m d d1 l A1 A4) as [T1 T2]. assert (to_hand m d (i :: l) = to_hand m d [i] ++ to_hand m d l) as Ecat.
  { rewrite !to_hand_cons. destruct (rings d !! i) as [r|]; [|done]. by destruct (ring_config hva m (v_queue_size d) r). }
  constructor; try congruence.
  - rewrite B2, A2, T1, Ecat. unfold ring_sends. by rewrite bind_app, app_assoc.
  - intros j. rewrite B5, A5, T2, Ecat, !fmap_app, elem_of_app. tauto.
Qed.

Lemma enable_rings_answered l (d : Dev) : broken (peer d) = false ->
  exists x, veach enable_ring l d = (Some tt, set_peer (mkPeer x false
    (sent (peer d) ++ ((fun i => SET_VRING_ENABLE i true) <$> base.filter (fun i => handed_over <$> (rings d !! i) = Some true) l))) d).
Proof.
  revert d. induction l as [|i l IH]; intros d Hb; cbn [veach].
  { exists (daemon (peer d)). cbn. rewrite app_nil_r, <-Hb. by destruct d as [? []]. }
  unfold vbind at 1, enable_ring at 1. rewrite filter_cons. destruct (rings d !! i) as [r|] eqn:Er; cbn [fmap option_fmap option_map].
  2: { rewrite decide_False by done. by apply IH. }
  destruct (handed_over r) eqn:Eh.
  - rewrite decide_True by done. destruct (vsend_answered (SET_VRING_ENABLE i true) d Hb) as (v & x & E). unfold vbind at 1. rewrite E. cbn [vret].
    destruct (IH (set_peer (mkPeer x false (sent (peer d) ++ [SET_VRING_ENABLE i true])) d) eq_refl) as (x' & ->).
    exists x'. cbn. by rewrite <-app_assoc.
  - rewrite decide_False by (cbn; congruence). by apply IH.
Qed.


Lemma to_hand_indices m d l : (to_hand m d l).*1.*1 =
  base.filter (fun i => is_Some (r ← rings d !! i; ring_config hva m (v_queue_size d) r)) l.
Proof.
  induction l as [|i l IH]; [done|]. rewrite to_hand_cons, filter_cons, <-IH. destruct (rings d !! i) as [r|]; cbn [mbind option_bind].
  - destruct (ring_config hva m (v_queue_size d) r); [rewrite decide_True by by eexists|rewrite decide_False by by intros []]; done.
  - rewrite decide_False by by intros []. done.
Qed.

Lemma hand_over_answered m d : mapped m = rs -> broken (peer d) = false -> (forall i, ~ handed (rings d) i) ->
  exists d', hand_over hva m d = (Some tt, d') /\ sent (peer d') = sent (peer d) ++ handover_messages m d /\ broken (peer d') = false.
Proof.
  intros Hm Hb Hno. unfold hand_over, handover_messages. set (f := if protocol_features_offered d then _ else _). set (l := seq 0 _).
  unfold vbind at 1. destruct (vsend_answered (SET_FEATURES f) d Hb) as (v1 & x1 & ->).
  rewrite (memory_table_rows hva rs rs_ok rs_apart m _ Hm). unfold vbind at 1. cbn [vret]. unfold vbind at 1.
  set (d1 := set_peer _ d). set (t := table_row hva (ram_fd d) <$> rs).
  destruct (vsend_answered (SET_MEM_TABLE t) d1 eq_refl) as (v2 & x2 & ->). set (d2 := set_peer _ d1). unfold vbind at 1.
  destruct (hand_rings_answered m l d2 eq_refl) as (d3 & -> & [A1 A2 A3 A4 A5] & P3).
  change (to_hand m d2 l) with (to_hand m d l) in A2, A5. cbn in A2. rewrite <-app_assoc in A2. cbn in A2.
  destruct (protocol_features_offered d) eqn:Ep.
  - destruct (enable_rings_answered l d3 A3) as (x4 & ->). eexists. split; [done|]. split; [|done]. cbn. rewrite A2.
    rewrite <-!app_assoc. cbn. do 4 f_equal. unfold enables.
    transitivity ((fun i => SET_VRING_ENABLE i true) <$> (to_hand m d l).*1.*1).
    + f_equal. rewrite to_hand_indices. apply list_filter_iff. intros i. 
      assert (handed (rings d3) i <-> is_Some (r ← rings d !! i; ring_config hva m (v_queue_size d) r)) as <-.
      { rewrite A5, to_hand_indices, list_elem_of_filter. split; [by intros [?%Hno|[? _]]|]. intros Hc. right. split; [done|].
        apply elem_of_seq. destruct (rings d !! i) as [r|] eqn:Er; [|by destruct Hc]. apply lookup_lt_Some in Er. lia. }
      unfold handed. destruct (rings d3 !! i) as [r|]; cbn; [|by split; [|intros (? & ? & _)]].
      split; [intros [= Hh]; by exists r|by intros (? & [= <-] & ->)].
    + rewrite <-!list_fmap_compose. apply list_fmap_ext. by intros _ [[i r] c] _.
  - exists d3. split; [done|]. split; [|done]. rewrite A2, app_nil_r. by rewrite <-app_assoc.
Qed.

End Session.

(** ** Serving *)

Lemma serves_held proto l : serves proto l ⊆ held l.
Proof.
  unfold serves, held. assert (forall h h' : gset nat, h ⊆ h' -> foldl (serves_step proto) h l ⊆ foldl held_step h' l) as Hl; [|by apply Hl].
  induction l as [|m l IH]; intros h h' Hh; cbn; [done|]. apply IH. destruct m; cbn; try (destruct on); try (destruct proto); clear IH; set_solver.
Qed.

Lemma serves_sends proto h l j :
  j ∈ foldl (serves_step proto) h (ring_sends l ++ (if proto then enables l else [])) <-> j ∈ h \/ j ∈ l.*1.*1.
Proof.
  rewrite foldl_app. assert (forall h, j ∈ foldl (serves_step proto) h (ring_sends l) <-> j ∈ h \/ (proto = false /\ j ∈ l.*1.*1)) as H1.
  { clear h. induction l as [|[[i r] c] l IH]; intros h; cbn.
    - split; [by left|]. by intros [?|[_ ?%elem_of_nil]].
    - rewrite IH. rewrite elem_of_cons. destruct proto; cbn; [clear; split; [intros [?|[? _]]; [by left|done]|intros [?|[? _]]; [by left|done]]|]. rewrite elem_of_union, elem_of_singleton. tauto. }
  destruct proto; cbn; [|rewrite H1; tauto].
  assert (forall h, j ∈ foldl (serves_step true) h (enables l) <-> j ∈ h \/ j ∈ l.*1.*1) as H2.
  { clear. induction l as [|[[i r] c] l IH]; intros h; cbn.
    - split; [by left|]. by intros [?|?%elem_of_nil].
    - rewrite IH, elem_of_cons, elem_of_union, elem_of_singleton. tauto. }
  rewrite H2, H1. split; [|tauto]. by intros [[?|[? _]]|?]; [left| |right].
Qed.

(** ** The handshake *)

Section Handshake.
Context {D L : Type} `{Backend D} `{IrqLine L}.
Abbreviation Dev := (VhostUserFs D L).

(** A message that is answered went out, and the daemon answered it. *)
Lemma send_sent msg (p : Peer D) v p' : send msg p = (Some v, p') ->
  sent p' = sent p ++ [msg] /\ broken p' = false /\ talk msg (daemon p) = (inl v, daemon p').
Proof.
  unfold send. destruct (broken p); [done|]. destruct (talk msg (daemon p)) as [[x|e] d]; [|by destruct (breaks_connection e)].
  by intros [= <- <-].
Qed.

Lemma ldiff_land_self a : Z.ldiff a a = 0.
Proof. apply Z.ldiff_diag. Qed.

Lemma over_ok rs dm ev tag rq size fd (d : Dev) log : over dm ev tag rq size fd = (Some d, log) ->
  log = sent (peer d) /\ broken (peer d) = false /\
  exists offered avail, answers dm log !! 1%nat = Some (GET_FEATURES, inl offered) /\ device_features d = Z.land offered TRANSPORT_FEATURES /\
    protocol_features_offered d = negotiable offered /\
    (negotiable offered = true -> answers dm log !! 2%nat = Some (GET_PROTOCOL_FEATURES, inl avail)) /\
    vh_ok rs (device_features d) avail (protocol_features_offered d) size (Z.to_nat (queue_count rq)) d.
Proof.
  unfold over. destruct (send SET_OWNER _) as [[v1|] p1] eqn:E1; [|done]. destruct (send GET_FEATURES p1) as [[o|] p2] eqn:E2; [|done].
  apply send_sent in E1 as (S1 & _ & T1), E2 as (S2 & B2 & T2). fold (negotiable o). cbn [daemon sent app] in *.
  assert (sent p2 = [SET_OWNER; GET_FEATURES]) as S by by rewrite S2, S1. clear S1 S2.
  assert (forall (p : Peer D) avail rest, sent p = sent p2 ++ rest -> broken p = false ->
    (rest = [] \/ rest = [GET_QUEUE_NUM] \/ rest = [GET_PROTOCOL_FEATURES; SET_PROTOCOL_FEATURES (Z.land avail MQ)] \/
       rest = [GET_PROTOCOL_FEATURES; SET_PROTOCOL_FEATURES (Z.land avail MQ); GET_QUEUE_NUM]) ->
    (negotiable o = true -> exists rest', rest = GET_PROTOCOL_FEATURES :: rest' /\ (talk GET_PROTOCOL_FEATURES (daemon p2)).1 = inl avail) ->
    let d' := mkVhost tag p fd (replicate (Z.to_nat (queue_count rq)) ring_default) [] (config_space tag (u32 rq))
      (Z.land o TRANSPORT_FEATURES) 0 size (negotiable o) 0 0 0 0 0 irq_default false : Dev in
    sent p = sent (peer d') /\ broken (peer d') = false /\
    exists offered avail, answers dm (sent p) !! 1%nat = Some (GET_FEATURES, inl offered) /\ device_features d' = Z.land offered TRANSPORT_FEATURES /\
      protocol_features_offered d' = negotiable offered /\
      (negotiable offered = true -> answers dm (sent p) !! 2%nat = Some (GET_PROTOCOL_FEATURES, inl avail)) /\
      vh_ok rs (device_features d') avail (protocol_features_offered d') size (Z.to_nat (queue_count rq)) d') as Hdev.
  { intros p avail rest Hs Hb Hrest Hneg d'. rewrite S in Hs. split_and!; [done|done|].
    exists o, avail. rewrite Hs. cbn [answers app]. rewrite T1, T2. split_and!; [done..| |].
    - intros (rest' & -> & T3)%Hneg. cbn [answers]. destruct (talk GET_PROTOCOL_FEATURES (daemon p2)) as [x y]. cbn in T3. by subst x.
    - assert (log_ok rs (Z.land o TRANSPORT_FEATURES) avail (negotiable o) size None (sent p) /\ held (sent p) = ∅) as [Hl Hh].
      { rewrite Hs. destruct Hrest as [->|[->|[->| ->]]]; cbn; split_and!; try done; apply ldiff_land_self. }
      constructor; cbn; try done.
      + by rewrite length_replicate.
      + apply Forall_replicate. cbn. lia.
      + intros _ i. rewrite Hh. by intros ?%elem_of_empty.
      + intros _ i (r & [-> _]%lookup_replicate & ?). done. }
  destruct (negotiable o).
  - destruct (send GET_PROTOCOL_FEATURES p2) as [[a|] p3] eqn:E3; [|done]. apply send_sent in E3 as (S3 & _ & T3).
    destruct (send (SET_PROTOCOL_FEATURES (Z.land a MQ)) p3) as [[v4|] p4] eqn:E4; [|done]. apply send_sent in E4 as (S4 & B4 & _).
    rewrite S3, <-app_assoc in S4. cbn [app] in S4.
    destruct (negb (Z.land (Z.land a MQ) MQ =? 0)).
    + destruct (send GET_QUEUE_NUM p4) as [[served|] p5] eqn:E5; [|done]. apply send_sent in E5 as (S5 & B5 & _). rewrite S4, <-app_assoc in S5.
      destruct (_ <? _); [done|]. destruct (negb ev); [done|]. intros [= <- <-]. eapply (Hdev p5 a); [exact S5|done|by right; right; right|].
      intros _. eexists. split; [done|]. by rewrite T3.
    + destruct (_ <? _); [done|]. destruct (negb ev); [done|]. intros [= <- <-]. eapply (Hdev p4 a); [exact S4|done|by right; right; left|].
      intros _. eexists. split; [done|]. by rewrite T3.
  - change (Z.land 0 MQ) with 0. cbn [negb Z.eqb]. destruct (queue_count 1 <? queue_count rq); [done|]. destruct (negb ev); [done|]. intros [= <- <-].
    apply (Hdev p2 0 []); [by rewrite app_nil_r|done|by left|done].
Qed.

End Handshake.

(** * Claims *)

(** What this process's mappings of guest RAM promise. *)
Definition host_ok (hva : RamRegion -> Z) (rs : list RamRegion) : Prop :=
  (forall a b, a ∈ rs -> b ∈ rs -> a = b \/ hva a + rsize a <= hva b \/ hva b + rsize b <= hva a) /\
  Forall region_ok rs /\ pairwise gpa_disjoint rs.

(** The frontend, made for [n] queues, sends a [GET_VRING_BASE] that names one of
    them: an error it returns is the socket's. *)
Definition sends_base {D} `{Backend D} (n : nat) : Prop :=
  forall i (x : D) e x', (i < n)%nat -> talk (GET_VRING_BASE i) x = (inr e, x') -> breaks_connection e = true.

Lemma write_driver_ok {D L} `{Backend D} hva m v (d : VhostUserFs D L) : Z.land v STATUS_DRIVER_OK <> 0 -> handover_attempted d = false ->
  write_reg hva m Mmio.STATUS v d = start hva m (set_regs v (v_interrupt d) false d).
Proof.
  intros Hv Ha. transitivity (if v =? 0 then vreset d else
    let d1 := set_regs v (v_interrupt d) (handover_attempted d) d in
    if negb (Z.land v STATUS_DRIVER_OK =? 0) && negb (handover_attempted d1) then start hva m d1 else d1); [done|].
  destruct (Z.eqb_spec v 0) as [->|_]; [done|]. destruct (Z.eqb_spec (Z.land v STATUS_DRIVER_OK) 0); [done|]. cbn. by rewrite Ha.
Qed.

Section Claims.
Context {D L : Type} `{Backend D} `{IrqLine L}.
Context (hva : RamRegion -> Z) (rs : list RamRegion) (rq size fd : Z) (dm : D) (ev : bool) (tag : list Z).
Abbreviation Dev := (VhostUserFs D L).
Abbreviation queues := (Z.to_nat (queue_count rq)).

(** C6. Whatever the guest writes to the register window and whatever the daemon
    answers or does, every message the device sends is fit to be sent. The features
    sent are a subset of those the daemon answered GET_FEATURES with that this
    transport carries, which are also all the guest is shown, with the protocol bit
    only where the daemon's answer has it; the protocol features are at most MQ, and
    only where the daemon's own answer to GET_PROTOCOL_FEATURES has it; every ring size
    is a power of two within the maximum; every ring address translates, through the
    memory table sent before it, to a range inside guest RAM that holds the whole ring;
    and rings are enabled only where protocol features were negotiated. *)
Theorem vhost_daemon_confined (d0 d : Dev) log :
  host_ok hva rs -> sends_base (D := D) queues -> over dm ev tag rq size fd = (Some d0, log) -> rtc (vstep hva rs) d0 d ->
  exists offered available,
    answers dm log !! 1%nat = Some (GET_FEATURES, inl offered) /\
    (negotiable offered = true -> answers dm log !! 2%nat = Some (GET_PROTOCOL_FEATURES, inl available)) /\
    device_features d = Z.land offered TRANSPORT_FEATURES /\
    log_ok rs (Z.land offered TRANSPORT_FEATURES) available (negotiable offered) size None (sent (peer d)).
Proof.
  intros (H1 & H2 & H3) Hbase Hd0 Hsteps. destruct (over_ok rs _ _ _ _ _ _ _ _ Hd0) as (_ & _ & o & a & Ha & Hf & Hp & Hn & Hok).
  pose proof (vhost_session_ok hva rs H1 H2 H3 _ _ _ _ _ Hbase _ _ Hsteps Hok) as Hd. exists o, a. rewrite Hf, Hp in Hd.
  split_and!; [done..|apply (vh_offered _ _ _ _ _ _ _ Hd)|apply (vh_log _ _ _ _ _ _ _ Hd)].
Qed.

(** C37. While the connection stands, the daemon holds no ring that the device does not
    know to be handed over; a reset takes every ring back, so none is held when the
    driver is told it is done, and once the connection broke nothing more is sent. *)
Theorem vhost_rings_taken_back (d0 d : Dev) log m :
  host_ok hva rs -> sends_base (D := D) queues -> over dm ev tag rq size fd = (Some d0, log) -> rtc (vstep hva rs) d0 d ->
  let d' := (mmio hva m Mmio.STATUS true 0 d).2 in
  (broken (peer d) = false -> forall i, i ∈ held (sent (peer d)) -> handed (rings d) i) /\
  (broken (peer d') = false -> held (sent (peer d')) = ∅) /\
  (broken (peer d) = true -> forall d'', rtc (vstep hva rs) d d'' -> sent (peer d'') = sent (peer d)).
Proof.
  intros (H1 & H2 & H3) Hbase Hd0 Hsteps. destruct (over_ok rs _ _ _ _ _ _ _ _ Hd0) as (_ & _ & o & a & _ & _ & _ & _ & Hok).
  pose proof (vhost_session_ok hva rs H1 H2 H3 _ _ _ _ _ Hbase _ _ Hsteps Hok) as Hd. cbv zeta. split_and!.
  - apply (vh_held _ _ _ _ _ _ _ Hd).
  - apply (vreset_spec rs _ _ _ _ _ Hbase _ Hd).
  - intros Hb d'' Hs. by destruct (session_silent hva rs (sent (peer d)) _ _ Hs (conj Hb eq_refl)).
Qed.

(** With a daemon that answers, the write of DRIVER_OK after a reset sends the
    features, the table and, for each ring that is ready, legal and in guest RAM, its
    five messages, then the enables; the daemon then serves exactly those rings, each
    of the size and at the guest addresses the driver programmed. *)
Theorem vhost_handover_serves (d0 d : Dev) log m v :
  host_ok hva rs -> (forall msg (x : D), exists r x', talk msg x = (inl r, x')) -> over dm ev tag rq size fd = (Some d0, log) ->
  rtc (vstep hva rs) d0 d -> broken (peer d) = false -> handover_attempted d = false -> mapped m = rs ->
  0 <= v < 2 ^ 32 -> Z.land v STATUS_DRIVER_OK <> 0 ->
  let d' := (mmio hva m Mmio.STATUS true v d).2 in
  sent (peer d') = sent (peer d) ++ handover_messages hva rs m d /\
  (forall i, i ∈ serves (protocol_features_offered d0) (sent (peer d')) <->
     exists r c, rings d !! i = Some r /\ ring_config hva m size r = Some c) /\
  forall i r c, rings d !! i = Some r -> ring_config hva m size r = Some c ->
    SET_VRING_ADDR i c ∈ handover_messages hva rs m d /\ config_ok hva rs size r c.
Proof.
  intros (H1 & H2 & H3) Hans Hd0 Hsteps Hb Ha Hm Hv Hok d'.
  assert (sends_base (D := D) queues) as Hbase by (intros i x e x' _ E; destruct (Hans (GET_VRING_BASE i) x) as (? & ? & ?); congruence).
  destruct (over_ok rs _ _ _ _ _ _ _ _ Hd0) as (_ & _ & o & a & _ & _ & _ & _ & Hok0).
  pose proof (vhost_session_ok hva rs H1 H2 H3 _ _ _ _ _ Hbase _ _ Hsteps Hok0) as Hd.
  assert (sent (peer d') = sent (peer d) ++ handover_messages hva rs m d) as Hsent.
  { unfold d', mmio. cbn [snd fst]. rewrite u32_small by lia. rewrite write_driver_ok by done. cbn -[start sync_irq].
    unfold start. destruct (hand_over_answered hva rs H2 H3 Hans m (set_regs v (v_interrupt d) true d) Hm Hb) as (d2 & E & Es & _);
      [apply (vh_fresh _ _ _ _ _ _ _ Hd Ha)|]. change (sent (peer (hand_over hva m (set_regs v (v_interrupt d) true d)).2) = sent (peer d) ++ handover_messages hva rs m d). by rewrite E. }
  split; [done|]. rewrite <-(vh_max _ _ _ _ _ _ _ Hd). split.
  - intros i. rewrite Hsent. unfold serves. rewrite foldl_app.
    assert (serves (protocol_features_offered d0) (sent (peer d)) = ∅) as E.
    { apply set_eq. intros j. split; [|by intros ?%elem_of_empty]. intros Hj%serves_held%(vh_held _ _ _ _ _ _ _ Hd Hb).
      by destruct (vh_fresh _ _ _ _ _ _ _ Hd Ha j). }
    unfold serves in E. rewrite E. unfold handover_messages. rewrite foldl_app. cbn [foldl serves_step].
    rewrite (vh_proto _ _ _ _ _ _ _ Hd), serves_sends, to_hand_indices, list_elem_of_filter, elem_of_seq. split.
    + intros [?%elem_of_empty|[[c Hc] _]]; [done|]. destruct (rings d !! i) as [r|] eqn:Er; [|done]. by exists r, c.
    + intros (r & c & Hr & Hc). right. rewrite Hr. split; [by exists c|]. apply lookup_lt_Some in Hr. lia.
  - intros i r c Hr Hc. split.
    + unfold handover_messages. apply elem_of_app. right. apply elem_of_app. left. unfold ring_sends. apply list_elem_of_bind.
      exists (i, r, c). split; [by right; left|]. unfold to_hand. apply list_elem_of_omap. exists i. rewrite elem_of_seq, Hr. cbn. rewrite Hc.
      apply lookup_lt_Some in Hr. split; [lia|done].
    + rewrite (vh_max _ _ _ _ _ _ _ Hd) in *. apply (ring_config_ok hva rs H1 H2 _ m); [done| |done].
      pose proof (vh_sizes _ _ _ _ _ _ _ Hd) as Hz. rewrite Forall_lookup in Hz. by apply (Hz i).
Qed.

End Claims.

(** ** Exports *)

Section Exports.
Context {D L : Type} `{Backend D} `{IrqLine L}.

(** A machine with too few windows is refused before any daemon sees a connection. *)
Lemma attach_places_first (sockets : list (FsConfig (D := D))) fd place i :
  (i < length sockets)%nat -> place i = None -> attach (L := L) sockets fd place = (None, []).
Proof.
  intros Hi Hp. unfold attach. assert (mapM place (seq 0 (length sockets)) = None) as ->; [|done].
  destruct (mapM place _) as [k|] eqn:E; [|done]. apply mapM_Some_1 in E.
  assert (seq 0 (length sockets) !! i = Some i) as Hl by (by apply lookup_seq_lt).
  destruct (Forall2_lookup_l _ _ _ _ _ E Hl) as (y & _ & ?). congruence.
Qed.

(** Windows that do not overlap: an address inside one finds that export. *)
Lemma export_at_window (l : list (Export (D := D) (L := L))) size e addr :
  (forall a b, a ∈ l -> b ∈ l -> a = b \/ base a + size <= base b \/ base b + size <= base a) ->
  e ∈ l -> base e <= addr < base e + size -> export_at l addr size = Some e.
Proof.
  intros Hap He Ha. unfold export_at. destruct (list_find _ l) as [[i e']|] eqn:E; cbn.
  - apply list_find_Some in E as (Hi & Hr & _). apply list_elem_of_lookup_2 in Hi. f_equal.
    destruct (Hap e e' He Hi) as [->|?]; [done|lia].
  - apply list_find_None in E. rewrite Forall_forall in E. destruct (E e He). lia.
Qed.

End Exports.

(** ** A daemon that answers everything *)

Module Example.
#[local] Instance line_unit : IrqLine unit := fun l _ => (l, true).
#[local] Instance daemon_unit : Backend unit := fun m x =>
  (inl match m with GET_FEATURES => Z.lor (Z.shiftl 1 32) (Z.lor PROTOCOL_FEATURES 2) | GET_PROTOCOL_FEATURES => 3 | GET_QUEUE_NUM => 2 | _ => 0 end, x).
Definition hva (r : RamRegion) : Z := 2 ^ 40 + file_offset r.
Definition ram : GuestRam := mkGuestRam [mkRamRegion 0 4096 0; mkRamRegion 8192 4096 4096] ∅.

Lemma ram_host_ok : host_ok hva (mapped ram).
Proof.
  unfold ram. cbn [mapped]. split_and!.
  - intros a b. rewrite !elem_of_cons, !elem_of_nil. unfold hva. intros [->|[->|[]]] [->|[->|[]]]; cbn; auto; lia.
  - repeat constructor; cbn; lia.
  - intros a b. rewrite !elem_of_cons, !elem_of_nil. unfold gpa_disjoint. intros [->|[->|[]]] [->|[->|[]]]; cbn; auto; lia.
Qed.

Definition device : VhostUserFs unit unit := default (mkVhost [] (mkPeer tt true []) 0 [] [] [] 0 0 0 false 0 0 0 0 0 irq_default false)
  (over tt true [102] 1 256 7).1.
(** The driver programs queue 1 and leaves queue 0 alone. *)
Definition writes : list (Z * Z) :=
  [(Mmio.DRIVER_FEATURES_SEL, 1); (Mmio.DRIVER_FEATURES, 1); (Mmio.QUEUE_SEL, 1); (Mmio.QUEUE_NUM, 128); (Mmio.QUEUE_DESC_LOW, 8192);
   (Mmio.QUEUE_DRIVER_LOW, 10240); (Mmio.QUEUE_DEVICE_LOW, 0); (Mmio.QUEUE_READY, 1)].
Definition run_writes (l : list (Z * Z)) (d : VhostUserFs unit unit) : VhostUserFs unit unit :=
  foldl (fun d '(o, v) => (mmio hva ram o true v d).2) d l.

Lemma run_writes_steps l d : Forall (fun '(o, v) => 0 <= o < 2 ^ 64 /\ 0 <= v < 2 ^ 64) l -> rtc (vstep hva (mapped ram)) d (run_writes l d).
Proof.
  revert d. induction l as [|[o v] l IH]; intros d Hl; [done|]. apply Forall_cons in Hl as [Hv Hl].
  eapply rtc_l; [|by apply IH]. by apply (V_access hva (mapped ram) ram (mkMmio o true v)).
Qed.

Definition programmed : VhostUserFs unit unit := run_writes writes device.
Definition running : VhostUserFs unit unit := run_writes (writes ++ [(Mmio.STATUS, 4)]) device.

Lemma programmed_steps : rtc (vstep hva (mapped ram)) device programmed.
Proof. apply run_writes_steps. repeat constructor; vm_compute; congruence. Qed.
Lemma running_steps : rtc (vstep hva (mapped ram)) device running.
Proof. apply run_writes_steps. repeat constructor; vm_compute; congruence. Qed.
Lemma answers_base n : sends_base (D := unit) n.
Proof. intros i x e x' _. done. Qed.

Lemma vhost_daemon_confined_witness : exists l, sent (peer running) = l /\ length l = 13%nat /\
  log_ok (mapped ram) (2 ^ 32) 3 true 256 None l /\ device_features running = 2 ^ 32.
Proof.
  exists (sent (peer running)). split; [done|]. split; [vm_compute; reflexivity|].
  destruct (vhost_daemon_confined hva (mapped ram) 1 256 7 tt true [102] device running (sent (peer device)) ram_host_ok (answers_base _) eq_refl running_steps)
    as (o & a & Ho & Ha & Hf & Hl).
  assert (o = Z.lor (Z.shiftl 1 32) (Z.lor PROTOCOL_FEATURES 2)) as -> by (vm_compute in Ho; injection Ho as <-; reflexivity).
  assert (a = 3) as -> by (specialize (Ha eq_refl); vm_compute in Ha; by injection Ha as <-).
  split; [exact Hl|exact Hf].
Defined.

Lemma vhost_rings_taken_back_witness : held (sent (peer running)) = {[1%nat]} /\
  held (sent (peer (mmio hva ram Mmio.STATUS true 0 running).2)) = ∅.
Proof.
  split; [vm_compute; reflexivity|].
  refine (proj1 (proj2 (vhost_rings_taken_back hva (mapped ram) 1 256 7 tt true [102] device running (sent (peer device)) ram ram_host_ok (answers_base _) _ running_steps)) _);
  vm_compute; reflexivity.
Defined.

Lemma vhost_handover_serves_witness :
  1%nat ∈ serves true (sent (peer (mmio hva ram Mmio.STATUS true 4 programmed).2)) /\
  ~ 0%nat ∈ serves true (sent (peer (mmio hva ram Mmio.STATUS true 4 programmed).2)).
Proof.
  assert (forall i, i ∈ serves true (sent (peer (mmio hva ram Mmio.STATUS true 4 programmed).2)) <->
    exists r c, rings programmed !! i = Some r /\ ring_config hva ram 256 r = Some c) as H.
  { refine (proj1 (proj2 (vhost_handover_serves hva (mapped ram) 1 256 7 tt true [102] device programmed (sent (peer device)) ram 4
      ram_host_ok _ _ programmed_steps _ _ eq_refl _ _))); [intros msg x; by eexists _, _|vm_compute; reflexivity..|vm_compute; by split|vm_compute; done]. }
  split.
  - apply (proj2 (H 1%nat)). exists (mkRing 128 true 8192 10240 0 false), (mkVringConfig 256 128 (2 ^ 40 + 4096) (2 ^ 40) (2 ^ 40 + 6144)). split; vm_compute; reflexivity.
  - intros (r & c & Hr & Hc)%(proj1 (H 0%nat)). vm_compute in Hr. injection Hr as <-. by vm_compute in Hc.
Defined.
End Example.
