(* ===== verification/Ledger.v ===== *)
(** * The event ledger ([src/events.rs])

    Threads add lines to a buffer under a lock; one writer thread takes the buffer
    and writes it to the file at an offset it keeps. The state under the lock is
    [State], one definition per critical section, and the whole ledger is a
    transition system in which the threads, the writer and the notifications of the
    two condition variables interleave in any order. A write may fail after any
    number of bytes. *)

From stdpp Require Import strings.
From S2P Require Import Prelude Memory Irq Virtio.
Local Open Scope Z_scope.

Definition MAX_BUFFERED_BYTES : Z := 4 * 1024 * 1024.
(** Durations in nanoseconds. *)
Definition OVERFLOW_QUIET_INTERVAL : Z := 1_000_000_000.
Definition STOP_TIMEOUT : Z := 1_000_000_000.

(** ** Records *)

Record RawEvent := mkRawEvent { sandbox_id : list Z; ts : Z; provenance : string; source : string; payload : list Z }.

Inductive Payload :=
  | DroppedPayload (records : Z)
  | BlockPayload (disk : option (list Z)) (lba : option Z) (len : Z) (rw : string) (path : option (list Z))
  | NetPayload (proto : Z) (src_ip : list Z) (src_port : Z) (dst_ip : list Z) (dst_port : Z) (direction : string)
      (guest_initiated : option bool) (bytes : Z) (sni dns : option (list Z)).

Record LRecord := mkLRecord { r_provenance : string; r_source : string; r_payload : list Z }.

Record Batch := mkBatch { b_enabled : bool; records : list LRecord; b_error : bool }.
Definition batch_new (enabled : bool) : Batch := mkBatch enabled [] false.

(** A payload that does not serialize is [None]; the first such error is kept. *)
Definition push (b : Batch) (prov src : string) (p : option (list Z)) : Batch :=
  match p with
  | Some bytes => mkBatch (b_enabled b) (records b ++ [mkLRecord prov src bytes]) (b_error b)
  | None => mkBatch (b_enabled b) (records b) true
  end.

Definition emit_payload (b : Batch) (prov src : string) (p : option (list Z)) : Batch :=
  if negb (b_enabled b) then b else push b prov src p.

(** ** The state under the lock *)

Record Overflow := mkOverflow { o_dropped : Z; last_drop : Z }.
Record OverflowReport := mkReport { started : bool; ended : Z }.
Definition report_default : OverflowReport := mkReport false 0.

Record State := mkState {
  lines : list Z; pending : Z; added : nat; written : nat; dropped : Z; unmarked : Z; overflow : option Overflow;
  urgent : bool; idle : bool; closed : bool; failing : bool; gave_up : bool }.
Definition state_default : State := mkState [] 0 0 0 0 0 None false false false false false.

Definition set_lines l (s : State) : State :=
  mkState l (pending s) (added s) (written s) (dropped s) (unmarked s) (overflow s) (urgent s) (idle s) (closed s) (failing s) (gave_up s).
Definition set_pending p (s : State) : State :=
  mkState (lines s) p (added s) (written s) (dropped s) (unmarked s) (overflow s) (urgent s) (idle s) (closed s) (failing s) (gave_up s).
Definition set_added a (s : State) : State :=
  mkState (lines s) (pending s) a (written s) (dropped s) (unmarked s) (overflow s) (urgent s) (idle s) (closed s) (failing s) (gave_up s).
Definition set_written w (s : State) : State :=
  mkState (lines s) (pending s) (added s) w (dropped s) (unmarked s) (overflow s) (urgent s) (idle s) (closed s) (failing s) (gave_up s).
Definition set_drops d u o (s : State) : State :=
  mkState (lines s) (pending s) (added s) (written s) d u o (urgent s) (idle s) (closed s) (failing s) (gave_up s).
Definition set_urgent b (s : State) : State :=
  mkState (lines s) (pending s) (added s) (written s) (dropped s) (unmarked s) (overflow s) b (idle s) (closed s) (failing s) (gave_up s).
Definition set_idle b (s : State) : State :=
  mkState (lines s) (pending s) (added s) (written s) (dropped s) (unmarked s) (overflow s) (urgent s) b (closed s) (failing s) (gave_up s).
Definition set_closed b (s : State) : State :=
  mkState (lines s) (pending s) (added s) (written s) (dropped s) (unmarked s) (overflow s) (urgent s) (idle s) b (failing s) (gave_up s).
Definition set_failing b (s : State) : State :=
  mkState (lines s) (pending s) (added s) (written s) (dropped s) (unmarked s) (overflow s) (urgent s) (idle s) (closed s) b (gave_up s).
Definition set_gave_up b (s : State) : State :=
  mkState (lines s) (pending s) (added s) (written s) (dropped s) (unmarked s) (overflow s) (urgent s) (idle s) (closed s) (failing s) b.

Definition is_empty {A} (l : list A) : bool := match l with [] => true | _ => false end.
Definition is_due (s : State) : bool := closed s || urgent s.
Definition is_over_cap (s : State) : bool := MAX_BUFFERED_BYTES <? zlen (lines s) + pending s.

Definition end_overflow (s : State) (r : OverflowReport) : State * OverflowReport :=
  match overflow s with
  | Some o => (set_drops (dropped s) (unmarked s) None s, mkReport false (o_dropped o))
  | None => (s, r)
  end.

Definition close (s : State) : State * OverflowReport := end_overflow (set_closed true s) report_default.

Section Encode.
(** serde_json: a payload, and an event as one line without its newline. *)
Context (to_raw_value : Payload -> list Z) (to_writer : RawEvent -> list Z).

(** [Batch::captured]; the payloads of this crate always serialize. *)
Definition captured_push (b : Batch) (e : CapturedEvent) : Batch :=
  match e with
  | EvBlock disk lba len w =>
      push b "boundary" "block" (Some (to_raw_value (BlockPayload (Some disk) (Some lba) len (if w then "w" else "r") None)))
  | EvNetFlow proto src sp dst dp bytes dns sni =>
      push b "boundary" "net" (Some (to_raw_value (NetPayload proto src sp dst dp "egress" (Some true) bytes sni dns)))
  end.

Context (sid : list Z).

(** The clock as one record sees it: the timestamps of the marker and of the record,
    and the monotonic instant. *)
Record Clock := mkClock { ts_marker : Z; ts_record : Z; instant : Z }.

Definition marker_line (n t : Z) : list Z :=
  to_writer (mkRawEvent sid t "vmm" "vmm.dropped" (to_raw_value (DroppedPayload n))) ++ [10].
Definition record_line (r : LRecord) (t : Z) : list Z :=
  to_writer (mkRawEvent sid t (r_provenance r) (r_source r) (r_payload r)) ++ [10].

(** The buffer with the record serialized into it, before the check. *)
Definition with_record (s : State) (r : LRecord) (c : Clock) : State :=
  let s := if 0 <? unmarked s then set_lines (lines s ++ marker_line (unmarked s) (ts_marker c)) s else s in
  set_lines (lines s ++ record_line r (ts_record c)) s.

Definition add_record (droppable : bool) (s : State) (rep : OverflowReport) (r : LRecord) (c : Clock) : State * OverflowReport :=
  let end_ := length (lines s) in
  let s := with_record s r c in
  if droppable && is_over_cap s then
    let s := set_lines (take end_ (lines s)) s in
    let '(o, rep) := match overflow s with Some o => (o, rep) | None => (mkOverflow 0 (instant c), mkReport true (ended rep)) end in
    (set_drops (dropped s + 1) (unmarked s + 1) (Some (mkOverflow (o_dropped o + 1) (instant c))) s, rep)
  else
    let s := set_drops (dropped s) 0 (overflow s) s in
    let is_quiet := match overflow s with Some o => OVERFLOW_QUIET_INTERVAL <=? Z.max 0 (instant c - last_drop o) | None => false end in
    if droppable && is_quiet then end_overflow s rep else (s, rep).

Fixpoint add_records (droppable : bool) (s : State) (rep : OverflowReport) (l : list (LRecord * Clock)) : State * OverflowReport :=
  match l with
  | [] => (s, rep)
  | (r, c) :: l => let '(s, rep) := add_record droppable s rep r c in add_records droppable s rep l
  end.

(** [Ledger::add]: whether the writer has to be woken, and the report. *)
Definition add (s : State) (l : list (LRecord * Clock)) (droppable : bool) : State * bool * OverflowReport :=
  let before := zlen (lines s) in
  let '(s, rep) := add_records droppable s report_default l in
  let s := set_added (S (added s)) s in
  let wake := idle s && (before <? zlen (lines s)) in
  (if wake then set_idle false s else s, wake, rep).

(** ** The critical sections of the threads *)

(** [captured], under the lock, with the records of the events. *)
Definition captured (s : State) (l : list (LRecord * Clock)) : State * bool * OverflowReport :=
  if closed s then (s, false, report_default) else add s l true.

Inductive Submit := Refused | Closed | Submitted (added : nat).

(** [submit], up to the wait. [None] is a batch with no serialization error. *)
Definition submit (s : State) (b : Batch) (clocks : list Clock) (last : bool) : State * Submit :=
  if b_error b && negb last then (s, Refused)
  else
    let recs := if b_error b then [] else zip (records b) clocks in
    if closed s then (s, Closed)
    else
      let '(s, _, _) := add s recs false in
      let s := if last then (close s).1 else set_urgent true s in
      (s, Submitted (added s)).

Definition drop_ledger (s : State) : State * bool :=
  if closed s then (s, false) else let s := (close s).1 in (set_added (S (added s)) s, true).

Inductive WaitResult := Written | GaveUp | Buffered (still_failing in_write : bool).

(** [wait_for_writes]: whether the wait goes on, and what it returns with the state
    it ends in. *)
Definition waits_on (s : State) (n : nat) (last : bool) : bool :=
  (written s <? n)%nat && negb (gave_up s) && (last || negb (failing s)).
Definition wait_result (s : State) (n : nat) : WaitResult :=
  if (n <=? written s)%nat then Written
  else if gave_up s then GaveUp else Buffered (failing s) (0 <? pending s).

End Encode.

(** ** The writer *)

(** Where the writer is between two critical sections: at the top of its loop, asleep
    while it gathers or idle, in a write that covers the first [n] batches, after a
    write that succeeded or failed, past the loop, returned, or gone. *)
Inductive WPc :=
  | WTop | WGather | WIdle | WWrite (n : nat) | WWrote (n : nat) | WFailed | WClosing | WDone | WGone.

Record Writer := mkWriter { pc : WPc; taken : list Z; offset : nat; w_failing : bool; give_up_at : option Z; wrote : bool }.
Definition writer_default : Writer := mkWriter WTop [] 0 false None false.

Definition at_pc (p : WPc) (w : Writer) : Writer := mkWriter p (taken w) (offset w) (w_failing w) (give_up_at w) (wrote w).

(** The whole ledger. [signalled] is a notification the sleeping writer has not taken
    yet, [owed] the notifications threads make once they released the lock. [log]
    is, batch by batch, what was added. *)
Record Sys := mkSys { st : State; file : list Z; w : Writer; signalled : bool; owed : nat; log : list (list Z) }.
Definition sys_default : Sys := mkSys state_default [] writer_default false 0 [].

(** What the host decides at a step of the writer: whether a timed wait ended, whether
    a wait ends without a notification, how many bytes of a write were written before
    it failed, and two readings of the clock. *)
Record Choice := mkChoice { timed_out : bool; spurious : bool; fails_after : option nat; now1 : Z; now2 : Z }.

Definition has_work (s : State) : bool := negb (is_empty (lines s)) || is_due s.

(** [write_all_at]: a failed write has written a prefix. *)
Definition pwrite (f : list Z) (off : nat) (bytes : list Z) : list Z := take off f ++ bytes ++ drop (off + length bytes) f.

(** The body of the loop of [run_writer] under its first lock. *)
Definition take_lines (c : Choice) (s : State) (wr : Writer) : State * Writer :=
  if closed s && is_empty (lines s) && is_empty (taken wr) then (s, at_pc WClosing wr)
  else
    let due := if w_failing wr && closed s then Some (default (now1 c + STOP_TIMEOUT) (give_up_at wr)) else give_up_at wr in
    let wr := mkWriter (pc wr) (taken wr) (offset wr) (w_failing wr) due (wrote wr) in
    if w_failing wr && closed s && (default 0 due <=? now2 c) then
      (set_gave_up true (set_pending 0 (set_lines [] s)), at_pc WGone wr)
    else
      let t := if is_empty (taken wr) then lines s else taken wr ++ lines s in
      (set_urgent false (set_pending (zlen t) (set_lines [] s)),
       mkWriter (WWrite (added s)) t (offset wr) (w_failing wr) (give_up_at wr) (wrote wr)).

(** [wait_for_lines] at its second check, with nothing gathered. *)
Definition go_idle (s : State) (wr : Writer) : State * Writer := (set_idle true s, at_pc WIdle wr).

(** One step of the writer; [None] while it sleeps. *)
Definition wstep (c : Choice) (y : Sys) : option Sys :=
  let s := st y in let wr := w y in
  let upd '(s', wr') := Some (mkSys s' (file y) wr' false (owed y) (log y)) in
  match pc wr with
  | WTop =>
      if w_failing wr then upd (take_lines c s wr)
      else if has_work s then upd (take_lines c s wr)
      else if wrote wr then upd (s, at_pc WGather wr)
      else upd (go_idle s wr)
  | WGather =>
      if negb (signalled y || timed_out c || spurious c) then None
      else if has_work s then upd (take_lines c s wr)
      else if timed_out c then upd (go_idle s wr)
      else upd (s, wr)
  | WIdle =>
      if negb (signalled y || spurious c) then None
      else if has_work s then upd (take_lines c (set_idle false s) wr)
      else upd (s, wr)
  | WWrite n =>
      match fails_after c with
      | None => Some (mkSys s (pwrite (file y) (offset wr) (taken wr))
                  (mkWriter (WWrote n) (taken wr) (offset wr) false (give_up_at wr) (wrote wr)) (signalled y) (owed y) (log y))
      | Some j => Some (mkSys s (pwrite (file y) (offset wr) (take j (taken wr)))
                  (mkWriter WFailed (taken wr) (offset wr) true (give_up_at wr) (wrote wr)) (signalled y) (owed y) (log y))
      end
  | WFailed => upd (set_failing true s, at_pc WTop wr)
  | WWrote n =>
      let wr := mkWriter WTop [] (offset wr + length (taken wr)) (w_failing wr) (give_up_at wr) true in
      let s := set_pending 0 (set_failing false s) in
      if closed s && is_empty (lines s) then upd (s, at_pc WClosing wr)
      else upd (set_written n s, wr)
  | WClosing => upd (set_written (added s) s, at_pc WDone wr)
  | WDone | WGone => None
  end.

(** [notify_one] on the writer's condition variable: lost unless the writer sleeps. *)
Definition notify (y : Sys) : Sys :=
  mkSys (st y) (file y) (w y) (match pc (w y) with WGather | WIdle => true | _ => signalled y end) (owed y) (log y).

(** The threads. *)
Inductive Thread :=
  | TSubmit (b : Batch) (clocks : list Clock) (last : bool)
  | TCaptured (l : list (LRecord * Clock))
  | TDrop
  | TNotify.

Section System.
Context (to_raw_value : Payload -> list Z) (to_writer : RawEvent -> list Z) (sid : list Z).

(** The batch that was added, as the bytes it appended. *)
Definition logged (s s' : State) (y : Sys) : list (list Z) :=
  if decide (added s' = added s) then log y else log y ++ [drop (length (lines s)) (lines s')].

Definition tstep (t : Thread) (y : Sys) : Sys :=
  let s := st y in
  match t with
  | TSubmit b clocks last =>
      let '(s', r) := submit to_raw_value to_writer sid s b clocks last in
      let y' := mkSys s' (file y) (w y) (signalled y) (owed y) (logged s s' y) in
      match r with Submitted _ => notify y' | _ => y' end
  | TCaptured l =>
      let '(s', wake, _) := captured to_raw_value to_writer sid s l in
      mkSys s' (file y) (w y) (signalled y) (if wake then S (owed y) else owed y) (logged s s' y)
  | TDrop =>
      let '(s', n) := drop_ledger s in
      let y' := mkSys s' (file y) (w y) (signalled y) (owed y) (logged s s' y) in
      if n then notify y' else y'
  | TNotify =>
      match owed y with
      | O => y
      | S k => notify (mkSys (st y) (file y) (w y) (signalled y) k (log y))
      end
  end.

Inductive lstep : Sys -> Sys -> Prop :=
  | L_thread t y : lstep y (tstep t y)
  | L_writer c y y' : wstep c y = Some y' -> lstep y y'.

(** What was added, in order. *)
Definition stream (y : Sys) : list Z := concat (log y).

(** ** The invariant *)

Record ledger_ok (y : Sys) : Prop := {
  lo_added : added (st y) = length (log y);
  lo_written : (written (st y) <= added (st y))%nat;
  lo_pending : pending (st y) = zlen (taken (w y)) \/ taken (w y) = [] \/ pc (w y) = WGone;
  lo_flushed : offset (w y) = length (take (offset (w y)) (file y));
  (** Nothing added is lost while the writer has not given up. *)
  lo_stream : pc (w y) <> WGone -> stream y = take (offset (w y)) (file y) ++ taken (w y) ++ lines (st y);
  lo_gone : pc (w y) = WGone <-> gave_up (st y) = true;
  lo_gone_closed : gave_up (st y) = true -> closed (st y) = true;
  lo_prefix : file y `prefix_of` stream y;
  (** Past a failed write the file is a prefix of what the next try writes. *)
  lo_file : pc (w y) <> WGone -> file y `prefix_of` take (offset (w y)) (file y) ++ taken (w y);
  lo_top : w_failing (w y) = false -> match pc (w y) with WWrite _ | WWrote _ | WFailed => True | _ => pc (w y) <> WGone -> taken (w y) = [] end;
  lo_pc : match pc (w y) with
    | WWrite n => (n <= added (st y))%nat /\ (written (st y) <= n)%nat /\ concat (take n (log y)) = take (offset (w y)) (file y) ++ taken (w y)
    | WWrote n => (n <= added (st y))%nat /\ (written (st y) <= n)%nat /\ concat (take n (log y)) = take (offset (w y)) (file y) ++ taken (w y) /\
        file y = take (offset (w y)) (file y) ++ taken (w y) /\ w_failing (w y) = false
    | WFailed => w_failing (w y) = true
    | WClosing | WDone => closed (st y) = true /\ lines (st y) = [] /\ taken (w y) = []
    | WGather | WIdle => w_failing (w y) = false
    | WTop | WGone => True
    end;
  lo_done : pc (w y) = WDone -> written (st y) = added (st y);
  lo_reported : concat (take (written (st y)) (log y)) `prefix_of` take (offset (w y)) (file y) }.

(** ** Adding *)

(** The fields the writer and the waiting threads see. *)
Record frame (s s' : State) : Prop := {
  fr_pending : pending s' = pending s; fr_added : added s' = added s; fr_written : written s' = written s; fr_urgent : urgent s' = urgent s;
  fr_idle : idle s' = idle s; fr_closed : closed s' = closed s; fr_failing : failing s' = failing s; fr_gave_up : gave_up s' = gave_up s }.

#[local] Instance frame_preorder : PreOrder frame.
Proof. split; [by intros s; constructor|]. intros s1 s2 s3 [] []. constructor; congruence. Qed.

Lemma with_record_frame s r c : frame s (with_record to_raw_value to_writer sid s r c) /\
  exists e, lines (with_record to_raw_value to_writer sid s r c) = lines s ++ e.
Proof.
  unfold with_record. destruct (0 <? unmarked s); (split; [done|]); cbn; [|by eexists]. eexists. by rewrite <-app_assoc.
Qed.

Lemma add_record_frame d s rep r c : let s' := (add_record to_raw_value to_writer sid d s rep r c).1 in
  frame s s' /\ exists e, lines s' = lines s ++ e.
Proof.
  cbv zeta. unfold add_record. destruct (with_record_frame s r c) as [F [e He]]. set (s1 := with_record _ _ _ s r c) in *. clearbody s1.
  destruct (d && is_over_cap s1); [|destruct (d && _)].
  - assert (overflow (set_lines (take (length (lines s)) (lines s1)) s1) = overflow s1) as -> by done.
    destruct (overflow s1); cbn; (split; [by destruct F|]); exists []; by rewrite He, take_app_length, app_nil_r.
  - unfold end_overflow. cbn. destruct (overflow s1); cbn; (split; [by destruct F|]); by exists e.
  - cbn. split; [by destruct F|]. by exists e.
Qed.

Lemma add_records_frame d l s rep : let s' := (add_records to_raw_value to_writer sid d s rep l).1 in
  frame s s' /\ exists e, lines s' = lines s ++ e.
Proof.
  cbv zeta. revert s rep. induction l as [|[r c] l IH]; intros s rep; cbn; [split; [done|]; exists []; by rewrite app_nil_r|].
  destruct (add_record_frame d s rep r c) as [F [e He]]. destruct (add_record _ _ _ d s rep r c) as [s1 rep1]. cbn in *.
  destruct (IH s1 rep1) as [F' [e' He']]. split; [by transitivity s1|]. exists (e ++ e'). by rewrite He', He, app_assoc.
Qed.

(** What a batch that was added did to the state: it appended [e], counted itself and
    may have woken the writer, asked for a write or closed the ledger. *)
Record added_batch (s s' : State) (e : list Z) : Prop := {
  ab_lines : lines s' = lines s ++ e; ab_added : added s' = S (added s); ab_pending : pending s' = pending s;
  ab_written : written s' = written s; ab_gave_up : gave_up s' = gave_up s; ab_open : closed s = false; ab_failing : failing s' = failing s;
  ab_due : is_due s = true -> is_due s' = true }.

Lemma add_batch s l d s' wake rep : closed s = false -> add to_raw_value to_writer sid s l d = (s', wake, rep) ->
  exists e, added_batch s s' e /\ wake = idle s && negb (is_empty e) /\ idle s' = idle s && is_empty e /\ is_due s' = is_due s.
Proof.
  intros Hc. unfold add. destruct (add_records_frame d l s report_default) as [F [e He]].
  destruct (add_records _ _ _ d s report_default l) as [s1 rep1]. cbn in *. destruct F. intros [= <- <- <-].
  assert ((zlen (lines s) <? zlen (lines s1)) = negb (is_empty e)) as ->.
  { rewrite He. unfold zlen. rewrite length_app. destruct e; cbn; [apply Z.ltb_ge; lia|apply Z.ltb_lt; lia]. }
  exists e. rewrite fr_idle0. assert (is_due s1 = is_due s) as Hd by (unfold is_due; congruence).
  destruct (idle s && negb (is_empty e)) eqn:E; cbn; (split_and!; [|done| |done]).
  1,3: (constructor; cbn; try congruence; unfold is_due in *; cbn; congruence).
  - destruct (idle s), (is_empty e); done.
  - rewrite fr_idle0. destruct (idle s), (is_empty e); done.
Qed.

Lemma end_overflow_frame s r : frame s (end_overflow s r).1 /\ lines (end_overflow s r).1 = lines s.
Proof. unfold end_overflow. by destruct (overflow s). Qed.

Lemma close_frame s : lines (close s).1 = lines s /\ frame (set_closed true s) (close s).1.
Proof. unfold close. by destruct (end_overflow_frame (set_closed true s) report_default). Qed.

Lemma finish_batch s s1 e (last : bool) : added_batch s s1 e -> added_batch s (if last then (close s1).1 else set_urgent true s1) e.
Proof.
  intros []. destruct last; [|constructor; cbn; try done; unfold is_due; cbn; by rewrite orb_true_r].
  destruct (close_frame s1) as [El [F1 F2 F3 F4 F5 F6 F7 F8]]. cbn in *. constructor; try congruence. unfold is_due. by rewrite F6.
Qed.

Lemma logged_batch s s' e y : added_batch s s' e -> logged s s' y = log y ++ [e].
Proof. intros []. unfold logged. rewrite decide_False by lia. by rewrite ab_lines0, drop_app_length. Qed.
Lemma logged_same s y : logged s s y = log y.
Proof. unfold logged. by rewrite decide_True. Qed.

(** A step of a thread adds one batch, or leaves the state as it was. *)
Lemma tstep_cases t y : let y' := tstep t y in
  file y' = file y /\ w y' = w y /\
  ((st y' = st y /\ log y' = log y) \/ exists e, added_batch (st y) (st y') e /\ log y' = log y ++ [e]).
Proof.
  assert (forall y0, st (notify y0) = st y0 /\ file (notify y0) = file y0 /\ w (notify y0) = w y0 /\ log (notify y0) = log y0) as Hn by done.
  destruct t as [b clocks last|l| |]; cbv zeta; cbn [tstep].
  - unfold submit. destruct (b_error b && negb last); [cbn; rewrite logged_same; auto|]. destruct (closed (st y)) eqn:Hc; [cbn; rewrite logged_same; auto|].
    destruct (add _ _ _ (st y) _ false) as [[s1 wake] rep] eqn:E. apply add_batch in E as (e & Hb & _); [|done].
    apply (finish_batch _ _ _ last) in Hb.
    cbn. rewrite (logged_batch _ _ e) by done. split_and!; [done..|]. right. by exists e.
  - unfold captured. destruct (closed (st y)) eqn:Hc; [cbn; rewrite logged_same; auto|].
    destruct (add _ _ _ (st y) l true) as [[s1 wake] rep] eqn:E. apply add_batch in E as (e & Hb & _); [|done]. cbn.
    rewrite (logged_batch _ _ e) by done. split_and!; [done..|]. right. by exists e.
  - unfold drop_ledger. destruct (closed (st y)) eqn:Hc; [cbn; rewrite logged_same; auto|]. cbn.
    destruct (close_frame (st y)) as [El [F1 F2 F3 F4 F5 F6 F7 F8]]. cbn in *.
    assert (added_batch (st y) (set_added (S (added (close (st y)).1)) (close (st y)).1) []) as Hb.
    { constructor; cbn; try congruence; [by rewrite El, app_nil_r|]. unfold is_due. cbn. by rewrite F6. }
    rewrite (logged_batch _ _ []) by done. split_and!; [done..|]. right. by exists [].
  - destruct (owed y); cbn; auto.
Qed.

Lemma prefix_app_r {A} (l k m : list A) : l `prefix_of` k -> l `prefix_of` k ++ m.
Proof. intros [r ->]. exists (r ++ m). by rewrite app_assoc. Qed.

Lemma tstep_ok t y : ledger_ok y -> ledger_ok (tstep t y).
Proof.
  intros Hy. destruct (tstep_cases t y) as (Ef & Ew & Hc). destruct Hc as [[Es El]|(e & Hb & El)].
  - destruct Hy as [H1 H2 H3 H4 H5 H6 H7 H8 H9 H10 H11 H13 H12]. constructor; unfold stream in *; rewrite ?Ef, ?Ew, ?Es, ?El; done.
  - destruct Hy as [H1 H2 H3 H4 H5 H6 H7 H8 H9 H10 H11 H13 H12]. destruct Hb as [B1 B2 B3 B4 B5 B6 B7 B8].
    assert (forall n, (n <= added (st y))%nat -> take n (log y ++ [e]) = take n (log y)) as Ht by (intros n Hn; rewrite take_app_le; [done|lia]).
    constructor; unfold stream in *; rewrite ?Ef, ?Ew, ?B1, ?B2, ?B3, ?B4, ?B5, ?El; try done.
    + rewrite length_app. cbn. lia.
    + lia.
    + intros Hp. rewrite concat_app, H5 by done. cbn. by rewrite app_nil_r, <-!app_assoc.
    + intros Hg. specialize (H7 Hg). congruence.
    + rewrite concat_app. by apply prefix_app_r.
    + destruct (pc (w y)); try done.
      * destruct H11 as (? & ? & ?). split_and!; [lia|done|]. by rewrite Ht.
      * destruct H11 as (? & ? & ? & ? & ?). split_and!; [lia|done| |done|done]. by rewrite Ht.
      * destruct H11 as [? _]. congruence.
      * destruct H11 as [? _]. congruence.
    + intros Hd. rewrite Hd in H11. destruct H11 as [? _]. congruence.
    + by rewrite Ht.
Qed.

(** ** The writer keeps the invariant *)

Lemma is_empty_true {A} (l : list A) : is_empty l = true -> l = [].
Proof. by destruct l. Qed.

(** [idle], the notifications and a program counter that sleeps are not part of it. *)
Lemma sleep_ok y p b sg ow : ledger_ok y -> pc (w y) = WTop \/ pc (w y) = WGather \/ pc (w y) = WIdle -> p = WTop \/ p = WGather \/ p = WIdle ->
  w_failing (w y) = false \/ p = pc (w y) ->
  ledger_ok (mkSys (set_idle b (st y)) (file y) (at_pc p (w y)) sg ow (log y)).
Proof.
  intros [H1 H2 H3 H4 H5 H6 H7 H8 H9 H10 H11 H13 H12] Hp Hp' Hf. assert (pc (w y) <> WGone) as Hng by (by destruct_or! Hp; rewrite Hp).
  constructor; cbn; try done.
  - destruct H3 as [|[|]]; [by left|by right; left|done].
  - intros _. by apply H5.
  - rewrite <-H6. split; intros E; [|done]. subst p. by destruct_or! Hp'.
  - intros _. by apply H9.
  - intros Hw. specialize (H10 Hw). destruct_or! Hp; rewrite Hp in H10; destruct_or! Hp'; subst p; intros _; by apply H10.
  - destruct_or! Hp'; subst p; [done| |]; (destruct Hf as [?|E]; [done|]; by rewrite <-E in H11).
  - intros ->. by destruct_or! Hp'.
Qed.

Lemma take_lines_ok c y sg ow : ledger_ok y -> pc (w y) = WTop \/ pc (w y) = WGather \/ pc (w y) = WIdle ->
  let '(s', w') := take_lines c (st y) (w y) in ledger_ok (mkSys s' (file y) w' sg ow (log y)).
Proof.
  intros Hy Hp. assert (pc (w y) <> WGone) as Hng by (by destruct_or! Hp; rewrite Hp).
  destruct Hy as [H1 H2 H3 H4 H5 H6 H7 H8 H9 H10 H11 H13 H12]. specialize (H5 Hng). specialize (H9 Hng). unfold stream in *. unfold take_lines.
  assert (gave_up (st y) = false) as Hg by (apply not_true_iff_false; by rewrite <-H6).
  destruct (closed (st y) && is_empty (lines (st y)) && is_empty (taken (w y))) eqn:E1.
  { apply andb_true_iff in E1 as [[Ec ?%is_empty_true]%andb_true_iff ?%is_empty_true]. constructor; cbn; try done; [by right; left|by rewrite Hg]. }
  set (due := if w_failing (w y) && closed (st y) then _ else _). cbn [w_failing taken offset give_up_at wrote pc].
  destruct (w_failing (w y) && closed (st y) && (default 0 due <=? now2 c)) eqn:E2.
  { apply andb_true_iff in E2 as [[Ef Ec]%andb_true_iff _]. constructor; cbn; try done. by right; right. }
  assert (forall t, t = taken (w y) ++ lines (st y) -> ledger_ok (mkSys (set_urgent false (set_pending (zlen t) (set_lines [] (st y)))) (file y)
    (mkWriter (WWrite (added (st y))) t (offset (w y)) (w_failing (w y)) due (wrote (w y))) sg ow (log y))) as Hw.
  { intros t ->. constructor; cbn; unfold stream; cbn; try done.
    - by left.
    - intros _. by rewrite app_nil_r.
    - by rewrite Hg.
    - intros _. rewrite app_assoc. by apply prefix_app_r.
    - split_and!; [lia|done|]. by rewrite H1, firstn_all. }
  apply Hw. destruct (is_empty (taken (w y))) eqn:E; [|done]. by apply is_empty_true in E as ->.
Qed.

Lemma pwrite_ok (f t : list Z) off j : length (take off f) = off -> f `prefix_of` take off f ++ t ->
  take off (pwrite f off (take j t)) = take off f /\ pwrite f off (take j t) `prefix_of` take off f ++ t /\
  pwrite f off t = take off f ++ t.
Proof.
  intros Hoff Hf. unfold pwrite. split; [by rewrite take_app_length' by done|].
  destruct Hf as [r Hr]. assert (t = drop off f ++ r) as Ht.
  { rewrite <-(take_drop off f) in Hr at 2. rewrite <-app_assoc in Hr. by apply app_inv_head in Hr. }
  split.
  - apply prefix_app. destruct (decide (j <= length (drop off f))%nat) as [Hj|Hj].
    + rewrite Ht, take_app_le by done. rewrite length_take, <-drop_drop, Nat.min_l by done. rewrite take_drop. by exists r.
    + rewrite drop_ge; [rewrite app_nil_r; apply prefix_take|]. rewrite length_take. rewrite length_drop in Hj. rewrite Ht, length_app, length_drop. lia.
  - rewrite drop_ge; [by rewrite app_nil_r|]. rewrite Ht, length_app, length_drop. lia.
Qed.

Lemma wstep_ok c y y' : wstep c y = Some y' -> ledger_ok y -> ledger_ok y'.
Proof.
  unfold wstep. intros E Hy. destruct (pc (w y)) as [| | |n|n| | | |] eqn:Ep; try done.
  - assert (let '(s', w') := take_lines c (st y) (w y) in ledger_ok (mkSys s' (file y) w' false (owed y) (log y))) as Ht by (apply take_lines_ok; [done|auto]).
    destruct (take_lines c (st y) (w y)) as [s' w'].
    destruct (w_failing (w y)) eqn:Ef; [by injection E as <-|]. destruct (has_work (st y)); [by injection E as <-|].
    destruct (wrote (w y)); injection E as <-.
    + assert (st y = set_idle (idle (st y)) (st y)) as -> by (by destruct (st y)). apply sleep_ok; auto.
    + apply sleep_ok; auto.
  - destruct (negb _); [done|].
    assert (let '(s', w') := take_lines c (st y) (w y) in ledger_ok (mkSys s' (file y) w' false (owed y) (log y))) as Ht by (apply take_lines_ok; [done|auto]).
    destruct (take_lines c (st y) (w y)) as [s' w']. destruct (has_work (st y)); [by injection E as <-|].
    pose proof (lo_pc y Hy) as Hf. rewrite Ep in Hf.
    destruct (timed_out c); injection E as <-; [apply sleep_ok; auto|].
    pose proof (sleep_ok y WGather (idle (st y)) false (owed y) Hy) as Hs. unfold at_pc in Hs. rewrite <-Ep in Hs.
    destruct y as [[] f [] sg ow lg]. cbn in *. apply Hs; auto.
  - destruct (negb _); [done|].
    assert (ledger_ok (mkSys (set_idle false (st y)) (file y) (w y) (signalled y) (owed y) (log y))) as Hy0.
    { pose proof (sleep_ok y WIdle false (signalled y) (owed y) Hy) as Hs. unfold at_pc in Hs. rewrite <-Ep in Hs.
      destruct y as [s f [] sg ow lg]. cbn in *. apply Hs; auto. }
    pose proof (take_lines_ok c _ false (owed y) Hy0) as Ht. cbn in Ht. specialize (Ht (or_intror (or_intror Ep))).
    destruct (take_lines c (set_idle false (st y)) (w y)) as [s' w']. destruct (has_work (st y)); injection E as <-; [done|].
    pose proof (sleep_ok y WIdle (idle (st y)) false (owed y) Hy) as Hs. unfold at_pc in Hs. rewrite <-Ep in Hs.
    destruct y as [[] f [] sg ow lg]. cbn in *. apply Hs; auto.
  - destruct Hy as [H1 H2 H3 H4 H5 H6 H7 H8 H9 H10 H11 H13 H12]. unfold stream in *. rewrite Ep in *. assert (gave_up (st y) = false) as Hg by (apply not_true_iff_false; by rewrite <-H6). specialize (H5 ltac:(done)). specialize (H9 ltac:(done)).
    destruct H11 as (Hn & Hwn & Hc). destruct (fails_after c) as [j|]; injection E as <-.
    + destruct (pwrite_ok (file y) (taken (w y)) (offset (w y)) j (eq_sym H4) H9) as (P1 & P2 & _).
      constructor; cbn; unfold stream; cbn; rewrite ?P1; try done; try (by rewrite Hg).
      * destruct H3 as [|[|]]; [by left|by right; left|done].
      * etrans; [apply P2|]. rewrite H5, app_assoc. by apply prefix_app_r.
    + destruct (pwrite_ok (file y) (taken (w y)) (offset (w y)) (length (taken (w y))) (eq_sym H4) H9) as (P1 & _ & P3).
      rewrite firstn_all in P1. constructor; cbn; unfold stream; cbn; rewrite ?P1; try done; try (by rewrite Hg).
      * destruct H3 as [|[|]]; [by left|by right; left|done].
      * rewrite P3, H5, app_assoc. by apply prefix_app_r.
      * intros _. by rewrite P3.
  - destruct Hy as [H1 H2 H3 H4 H5 H6 H7 H8 H9 H10 H11 H13 H12]. unfold stream in *. rewrite Ep in *. assert (gave_up (st y) = false) as Hg by (apply not_true_iff_false; by rewrite <-H6). specialize (H5 ltac:(done)). specialize (H9 ltac:(done)).
    destruct H11 as (Hn & Hwn & Hc & Hf & Hfl). assert (take (offset (w y) + length (taken (w y))) (file y) = file y) as Et.
    { apply take_ge. rewrite Hf, length_app. lia. }
    assert (length (file y) = offset (w y) + length (taken (w y)))%nat as Hlen by (rewrite Hf, length_app; lia).
    cbn [st closed lines set_pending set_failing] in E. destruct (closed (st y) && is_empty (lines (st y))) eqn:Ec; injection E as <-.
    + apply andb_true_iff in Ec as [Ec El%is_empty_true]. constructor; cbn; unfold stream; cbn; rewrite ?Et; try done; auto; try (by rewrite Hg).
      * intros _. by rewrite H5, app_assoc, <-Hf.
      * intros _. by rewrite app_nil_r.
      * etrans; [done|]. rewrite Hf at 2. by apply prefix_app_r.
    + constructor; cbn; unfold stream; cbn; rewrite ?Et; try done; auto; try (by rewrite Hg).
      * intros _. by rewrite H5, app_assoc, <-Hf.
      * intros _. by rewrite app_nil_r.
      * rewrite Hc, <-Hf. done.
  - injection E as <-. destruct Hy as [H1 H2 H3 H4 H5 H6 H7 H8 H9 H10 H11 H13 H12]. rewrite Ep in *. assert (gave_up (st y) = false) as Hg by (apply not_true_iff_false; by rewrite <-H6). constructor; cbn; try done; try (by rewrite Hg).
    + destruct H3 as [|[|]]; [by left|by right; left|done].
    + intros _. by apply H5.
    + intros _. by apply H9.
    + rewrite H11. done.
  - injection E as <-. destruct Hy as [H1 H2 H3 H4 H5 H6 H7 H8 H9 H10 H11 H13 H12]. unfold stream in *. rewrite Ep in *. assert (gave_up (st y) = false) as Hg by (apply not_true_iff_false; by rewrite <-H6). specialize (H5 ltac:(done)).
    destruct H11 as (Hc & Hl & Ht). constructor; cbn; unfold stream; cbn; try done; try (by rewrite Hg).
    + destruct H3 as [|[|]]; [by left|by right; left|done].
    + intros _. by apply H9.
    + rewrite H1, firstn_all, H5, Ht, Hl. cbn. by rewrite app_nil_r.
Qed.

Lemma sys_default_ok : ledger_ok sys_default.
Proof. constructor; cbn; try done; auto. Qed.

Lemma ledger_reachable y : rtc lstep sys_default y -> ledger_ok y.
Proof.
  assert (forall y0, ledger_ok y0 -> rtc lstep y0 y -> ledger_ok y) as H.
  { intros y0 H0 Hs. induction Hs as [|y0 y1 y2 Hs _ IH]; [done|]. apply IH. destruct Hs; [by apply tstep_ok|by eapply wstep_ok]. }
  apply H, sys_default_ok.
Qed.

(** ** What a batch adds, record by record *)

Inductive Entry := Mark (n t : Z) | Keep (r : LRecord) (t : Z).
Definition entry_line (e : Entry) : list Z :=
  match e with Mark n t => marker_line to_raw_value to_writer sid n t | Keep r t => record_line to_writer sid r t end.
Definition bytes_of (l : list Entry) : list Z := concat (entry_line <$> l).
Definition kept (l : list Entry) : list LRecord := omap (fun e => match e with Keep r _ => Some r | Mark _ _ => None end) l.
Definition marked (l : list Entry) : Z := foldr (fun e n => match e with Mark k _ => k + n | Keep _ _ => n end) 0 l.

(** A count of drops stands right before the record that follows them. *)
Fixpoint marks_lead (l : list Entry) : Prop :=
  match l with
  | [] => True
  | Mark n _ :: l => 0 < n /\ (match l with Keep _ _ :: _ => True | _ => False end) /\ marks_lead l
  | Keep _ _ :: l => marks_lead l
  end.

Lemma bytes_of_app l k : bytes_of (l ++ k) = bytes_of l ++ bytes_of k.
Proof. unfold bytes_of. by rewrite fmap_app, concat_app. Qed.
Lemma kept_app l k : kept (l ++ k) = kept l ++ kept k.
Proof. unfold kept. by rewrite omap_app. Qed.
Lemma marked_app l k : marked (l ++ k) = marked l + marked k.
Proof. unfold marked. induction l as [|[] l IH]; cbn; lia. Qed.
Lemma marks_lead_app l k : marks_lead l -> marks_lead k -> marks_lead (l ++ k).
Proof.
  induction l as [|[n t|r t] l IH]; cbn; [done| |auto]. intros (? & Hn & ?) Hk. split_and!; [done| |auto]. by destruct l as [|[] l].
Qed.

(** What adding the records [rs] appended. *)
Record batch_entries (d : bool) (rs : list LRecord) (s s' : State) (es : list Entry) : Prop := {
  be_lines : lines s' = lines s ++ bytes_of es;
  be_kept : kept es `sublist_of` rs;
  be_all : d = false -> kept es = rs;
  be_count : Z.of_nat (length rs) = Z.of_nat (length (kept es)) + (dropped s' - dropped s);
  be_marked : dropped s' - unmarked s' = dropped s - unmarked s + marked es;
  be_unmarked : 0 <= unmarked s';
  be_lead : marks_lead es;
  be_cap : d = true -> zlen (lines s') + pending s <= Z.max MAX_BUFFERED_BYTES (zlen (lines s) + pending s) }.

Lemma add_record_entries d s rep r c : 0 <= unmarked s ->
  exists es, batch_entries d [r] s (add_record to_raw_value to_writer sid d s rep r c).1 es.
Proof.
  intros Hu. unfold add_record.
  set (es := (if 0 <? unmarked s then [Mark (unmarked s) (ts_marker c)] else []) ++ [Keep r (ts_record c)]).
  assert (lines (with_record to_raw_value to_writer sid s r c) = lines s ++ bytes_of es /\ dropped (with_record to_raw_value to_writer sid s r c) = dropped s /\
    unmarked (with_record to_raw_value to_writer sid s r c) = unmarked s /\ pending (with_record to_raw_value to_writer sid s r c) = pending s) as (El & Ed & Eu & Ep).
  { unfold with_record, es, bytes_of. destruct (0 <? unmarked s); cbn; rewrite ?app_nil_r, <-?app_assoc; done. }
  set (s1 := with_record _ _ _ s r c) in *. clearbody s1. unfold is_over_cap. rewrite Ep. assert (kept es = [r]) as Ek by (unfold es; by destruct (0 <? unmarked s)).
  assert (marked es = unmarked s) as Em by (unfold es; destruct (Z.ltb_spec 0 (unmarked s)); cbn; lia).
  assert (marks_lead es) as Hl by (unfold es; destruct (Z.ltb_spec 0 (unmarked s)); cbn; auto).
  destruct (d && (MAX_BUFFERED_BYTES <? zlen (lines s1) + pending s)) eqn:E.
  - apply andb_true_iff in E as [-> _]. exists []. cbn [overflow set_lines lines].
    destruct (overflow s1); (constructor; cbn [set_drops set_lines lines dropped unmarked fst kept omap list_omap length marked foldr bytes_of];
      rewrite ?El, ?Ed, ?Eu, ?take_app_length; cbn; try done; try lia; [by rewrite app_nil_r|by apply sublist_nil_l]).
  - assert (d = true -> zlen (lines s1) + pending s <= MAX_BUFFERED_BYTES) as Hcap by (intros ->; cbn in E; lia).
    exists es. match goal with |- context [if ?b then end_overflow _ _ else _] => destruct b end.
    + unfold end_overflow. cbn [overflow set_drops]. destruct (overflow s1); (constructor; cbn [set_drops lines dropped unmarked fst]; rewrite ?El, ?Ed, ?Ek, ?Em;
        try done; try (cbn; lia); intros Hd; specialize (Hcap Hd); rewrite El in Hcap; lia).
    + constructor; cbn [set_drops lines dropped unmarked fst]; rewrite ?El, ?Ed, ?Ek, ?Em; try done; try (cbn; lia); intros Hd; specialize (Hcap Hd); rewrite El in Hcap; lia.
Qed.

Lemma add_records_entries d l s rep : 0 <= unmarked s ->
  exists es, batch_entries d l.*1 s (add_records to_raw_value to_writer sid d s rep l).1 es.
Proof.
  revert s rep. induction l as [|[r c] l IH]; intros s rep Hu; cbn.
  - exists []. constructor; cbn; try done; try lia. by rewrite app_nil_r.
  - destruct (add_record_entries d s rep r c Hu) as (e1 & [A1 A2 A3 A4 A5 A6 A7 A8]). destruct (add_record_frame d s rep r c) as [[Ep _ _ _ _ _ _ _] _].
    destruct (add_record _ _ _ d s rep r c) as [s1 rep1]. cbn in *. destruct (IH s1 rep1 A6) as (e2 & [B1 B2 B3 B4 B5 B6 B7 B8]).
    exists (e1 ++ e2). rewrite Ep in *. constructor; rewrite ?kept_app, ?bytes_of_app, ?marked_app, ?length_app; try lia.
    + by rewrite B1, A1, app_assoc.
    + by apply (sublist_app _ [r]).
    + intros Hd. by rewrite A3, B3.
    + cbn [length]. lia.
    + by apply marks_lead_app.
    + intros Hd. specialize (A8 Hd). specialize (B8 Hd). lia.
Qed.

Lemma add_entries s l d s' wake rep : 0 <= unmarked s -> add to_raw_value to_writer sid s l d = (s', wake, rep) -> exists es, batch_entries d l.*1 s s' es.
Proof.
  intros Hu. unfold add. destruct (add_records_entries d l s report_default Hu) as (es & [A1 A2 A3 A4 A5 A6 A7 A8]).
  destruct (add_records _ _ _ d s report_default l) as [s1 rep1]. cbn in *. intros [= <- <- <-]. exists es. by destruct (idle s1 && _); constructor.
Qed.

(** Everything added so far, in those terms. *)
Definition accounted (y : Sys) : Prop :=
  exists es, stream y = bytes_of es /\ dropped (st y) = marked es + unmarked (st y) /\ 0 <= unmarked (st y) /\ marks_lead es.

Lemma close_drops s : dropped (close s).1 = dropped s /\ unmarked (close s).1 = unmarked s.
Proof. unfold close, end_overflow. cbn. by destruct (overflow s). Qed.

Lemma accounted_batch y s s1 d rs e es : accounted y -> st y = s -> batch_entries d rs s s1 es -> lines s1 = lines s ++ e ->
  exists es', concat (log y ++ [e]) = bytes_of es' /\ dropped s1 = marked es' + unmarked s1 /\ 0 <= unmarked s1 /\ marks_lead es'.
Proof.
  intros (es0 & E1 & E2 & E3 & E4) Es [A1 A2 A3 A4 A5 A6 A7 A8] El. rewrite A1 in El. apply app_inv_head in El. subst e s. unfold stream in E1.
  exists (es0 ++ es). rewrite concat_app, bytes_of_app, marked_app, E1. cbn. rewrite app_nil_r. split_and!; [done|lia|done|by apply marks_lead_app].
Qed.

Lemma tstep_accounted t y : accounted y -> accounted (tstep t y).
Proof.
  intros Hy. pose proof Hy as (es0 & E1 & E2 & E3 & E4).
  destruct t as [b clocks last|l| |]; cbn [tstep].
  - unfold submit. destruct (b_error b && negb last); [unfold accounted, stream; cbn; by rewrite logged_same|].
    destruct (closed (st y)) eqn:Hc; [unfold accounted, stream; cbn; by rewrite logged_same|]. set (l := if b_error b then [] else _).
    destruct (add _ _ _ (st y) l false) as [[s1 wake] rep] eqn:E. destruct (add_entries _ _ _ _ _ _ E3 E) as (es & Hes).
    apply add_batch in E as (e & Hb & _); [|done]. set (s2 := if last then _ else _).
    assert (logged (st y) s2 y = log y ++ [e] /\ dropped s2 = dropped s1 /\ unmarked s2 = unmarked s1) as (El & Ed & Eu).
    { split; [by apply logged_batch, finish_batch|]. unfold s2. destruct last; [|done]. apply close_drops. }
    unfold accounted, stream; cbn. rewrite El, Ed, Eu. eapply accounted_batch; [done..|]. by destruct Hb.
  - unfold captured. destruct (closed (st y)) eqn:Hc; [unfold accounted, stream; cbn; by rewrite logged_same|].
    destruct (add _ _ _ (st y) l true) as [[s1 wake] rep] eqn:E. destruct (add_entries _ _ _ _ _ _ E3 E) as (es & Hes).
    apply add_batch in E as (e & Hb & _); [|done]. unfold accounted, stream. cbn. rewrite (logged_batch _ _ e) by done.
    eapply accounted_batch; [done..|]. by destruct Hb.
  - unfold drop_ledger. destruct (closed (st y)) eqn:Hc; [unfold accounted, stream; cbn; by rewrite logged_same|].
    destruct (close_drops (st y)) as [Hd Hu]. destruct (close_frame (st y)) as [El' F]. unfold accounted, stream. cbn. rewrite Hd, Hu. exists es0.
    split_and!; [|done..]. unfold logged. cbn. destruct F. cbn in *. rewrite fr_added0, decide_False by lia. rewrite El', drop_all, concat_app. cbn.
    by rewrite app_nil_r.
  - unfold accounted, stream in *. destruct (owed y); cbn; exists es0; auto.
Qed.

Lemma wstep_accounted c y y' : wstep c y = Some y' -> accounted y -> accounted y'.
Proof.
  intros E Hy. assert (log y' = log y /\ dropped (st y') = dropped (st y) /\ unmarked (st y') = unmarked (st y)) as (El & Ed & Eu).
  { assert (forall s wr s' wr', take_lines c s wr = (s', wr') -> dropped s' = dropped s /\ unmarked s' = unmarked s) as Ht.
    { intros s wr s' wr'. unfold take_lines. destruct (_ && _ && _); [by intros [= <- <-]|]. cbn. destruct (_ && _ && _); by intros [= <- <-]. }
    pose proof (Ht (st y) (w y)) as H1. pose proof (Ht (set_idle false (st y)) (w y)) as H2.
    unfold wstep in E. destruct (take_lines c (st y) (w y)) as [s1 w1], (take_lines c (set_idle false (st y)) (w y)) as [s2 w2].
    specialize (H1 _ _ eq_refl). specialize (H2 _ _ eq_refl).
    repeat (case_match; try done; try (injection E as <-; done)). }
  unfold accounted, stream in *. by rewrite El, Ed, Eu.
Qed.

Lemma accounted_reachable y : rtc lstep sys_default y -> accounted y.
Proof.
  assert (forall y0, accounted y0 -> rtc lstep y0 y -> accounted y) as H.
  { intros y0 H0 Hs. induction Hs as [|y0 y1 y2 Hs _ IH]; [done|]. apply IH. destruct Hs; [by apply tstep_accounted|by eapply wstep_accounted]. }
  apply H. exists []. by cbn.
Qed.

(** ** No wakeup is lost *)

Definition wake_ok (y : Sys) : Prop :=
  pc (w y) = WIdle ->
  (idle (st y) = true /\ has_work (st y) = false) \/ (has_work (st y) = true /\ (signalled y = true \/ (0 < owed y)%nat)).

Lemma has_work_more s s' e : lines s' = lines s ++ e -> (is_due s = true -> is_due s' = true) -> has_work s = true -> has_work s' = true.
Proof.
  intros El Hd. unfold has_work. rewrite El. destruct (lines s); cbn; [|done]. intros Hh. rewrite Hd by done. by rewrite orb_true_r.
Qed.

Lemma has_work_due s : is_due s = true -> has_work s = true.
Proof. unfold has_work. intros ->. by rewrite orb_true_r. Qed.

Lemma tstep_wake t y : wake_ok y -> wake_ok (tstep t y).
Proof.
  intros Hy. destruct t as [b clocks last|l| |]; cbn [tstep]; unfold wake_ok; cbn.
  - unfold submit. destruct (b_error b && negb last); [done|]. destruct (closed (st y)) eqn:Hc; [done|].
    destruct (add _ _ _ (st y) _ false) as [[s1 wake] rep] eqn:E. cbn. intros Hp. right. rewrite Hp. split; [|by left]. apply has_work_due.
    unfold is_due. destruct last; cbn; [|by rewrite orb_true_r]. destruct (close_frame s1) as [_ []]. by rewrite fr_closed0.
  - unfold captured. destruct (closed (st y)) eqn:Hc; [done|].
    destruct (add _ _ _ (st y) l true) as [[s1 wake] rep] eqn:E. apply add_batch in E as (e & [] & -> & Ei & Ed); [|done]. cbn. intros Hp.
    destruct (Hy Hp) as [[Hi Hw]|[Hw Hs]].
    + rewrite Hi in *. destruct e as [|z e]; cbn in *.
      * left. split; [done|]. unfold has_work in *. by rewrite ab_lines0, app_nil_r, Ed.
      * right. split; [|right; lia]. unfold has_work. rewrite ab_lines0. by destruct (lines (st y)).
    + right. split; [by eapply has_work_more|]. destruct Hs as [|]; [by left|]. right. case_match; lia.
  - unfold drop_ledger. destruct (closed (st y)) eqn:Hc; [done|]. cbn. intros Hp. right. rewrite Hp. split; [|by left]. apply has_work_due.
    unfold is_due. cbn. destruct (close_frame (st y)) as [_ []]. by rewrite fr_closed0.
  - destruct (owed y) as [|k] eqn:Eo; [intros Hp; specialize (Hy Hp); rewrite ?Eo in *; exact Hy|]. cbn. intros Hp. rewrite Hp. destruct (Hy Hp) as [?|[? _]]; [by left|]. right. split; [done|by left].
Qed.

Lemma take_lines_awake c s wr : pc (take_lines c s wr).2 <> WIdle.
Proof. unfold take_lines. destruct (_ && _ && _); [done|]. cbn. by destruct (_ && _ && _). Qed.

Lemma wstep_wake c y y' : wstep c y = Some y' -> wake_ok y -> wake_ok y'.
Proof.
  intros E Hy. unfold wake_ok, wstep in *. pose proof (take_lines_awake c (st y) (w y)) as H1. pose proof (take_lines_awake c (set_idle false (st y)) (w y)) as H2.
  destruct (take_lines c (st y) (w y)) as [s1 w1], (take_lines c (set_idle false (st y)) (w y)) as [s2 w2]. cbn in H1, H2.
  destruct (pc (w y)) as [| | |n|n| | | |] eqn:Ep.
  - destruct (w_failing (w y)); [by injection E as <-|]. destruct (has_work (st y)) eqn:Eh; [by injection E as <-|].
    destruct (wrote (w y)); injection E as <-; cbn; [done|]. intros _. left. by split.
  - destruct (negb _); [done|]. destruct (has_work (st y)) eqn:Eh; [by injection E as <-|].
    destruct (timed_out c); injection E as <-; cbn; [|by rewrite Ep]. intros _. left. by split.
  - destruct (negb _); [done|]. destruct (has_work (st y)) eqn:Eh; injection E as <-; [done|]. cbn. intros _.
    destruct (Hy eq_refl) as [[? ?]|[? _]]; [left; split; congruence|congruence].
  - destruct (fails_after c); by injection E as <-.
  - cbn in E. destruct (closed (st y) && _); by injection E as <-.
  - by injection E as <-.
  - by injection E as <-.
  - done.
  - done.
Qed.

Lemma wake_reachable y : rtc lstep sys_default y -> wake_ok y.
Proof.
  assert (forall y0, wake_ok y0 -> rtc lstep y0 y -> wake_ok y) as H.
  { intros y0 H0 Hs. induction Hs as [|y0 y1 y2 Hs _ IH]; [done|]. apply IH. destruct Hs; [by apply tstep_wake|by eapply wstep_wake]. }
  by apply H.
Qed.

(** ** A writer whose writes succeed *)

(** The writer left to run at time [t] with writes that succeed: it steps, or is woken
    by a notification a thread still owes. *)
Definition good (t : Z) : Choice := mkChoice true false None t t.
Definition drive (t : Z) (y : Sys) : Sys := match wstep (good t) y with Some y' => y' | None => tstep TNotify y end.

Lemma drive_step t y : lstep y (drive t y).
Proof. unfold drive. destruct (wstep (good t) y) eqn:E; [by eapply L_writer|apply L_thread]. Qed.

Fixpoint runs (t : Z) (n : nat) (y : Sys) : Sys := match n with O => y | S n => runs t n (drive t y) end.

Lemma runs_steps t n y : rtc lstep y (runs t n y).
Proof. revert y. induction n as [|n IH]; intros y; cbn; [done|]. eapply rtc_l; [apply drive_step|apply IH]. Qed.
Lemma runs_add t j k y : runs t (j + k) y = runs t k (runs t j y).
Proof. revert y. induction j as [|j IH]; intros y; cbn; auto. Qed.

Lemma runs_next t n y y' : wstep (good t) y = Some y' -> runs t (S n) y = runs t n y'.
Proof. cbn. unfold drive. by intros ->. Qed.

Ltac next H := erewrite runs_next by (unfold wstep; cbv zeta; rewrite ?H; cbn; rewrite ?H; reflexivity); cbn [st w lines closed added pc].

Definition patient (t : Z) (y : Sys) : Prop := forall g, give_up_at (w y) = Some g -> t < g.

(** The writer in its write, with the batches of [y] taken. *)
Lemma write_flushes t y n : pc (w y) = WWrite n -> (added (st y) <= n)%nat ->
  exists k, (k <= 3)%nat /\ (added (st y) <= written (st (runs t k y)))%nat.
Proof.
  intros Hp Hn. destruct (closed (st y) && is_empty (lines (st y))) eqn:Ec.
  - exists 3%nat. split; [lia|]. next Hp. next Ec. by next Ec.
  - exists 2%nat. split; [lia|]. next Hp. by next Ec.
Qed.

Lemma drive_take t y : has_work (st y) = true -> patient t y -> (pc (w y) = WTop \/ pc (w y) = WGather \/ (pc (w y) = WIdle /\ signalled y = true)) ->
  let y' := drive t y in
  added (st y') = added (st y) /\ (pc (w y') = WWrite (added (st y)) \/ pc (w y') = WClosing).
Proof.
  intros Hw Ht Hp.
  assert (forall s wr, give_up_at wr = give_up_at (w y) -> added (take_lines (good t) s wr).1 = added s /\
    (pc (take_lines (good t) s wr).2 = WWrite (added s) \/ pc (take_lines (good t) s wr).2 = WClosing)) as Hk.
  { intros s wr Hg. unfold take_lines. destruct (closed s && _ && _); [by auto|].
    set (due := if w_failing wr && closed s then _ else _). cbn [w_failing].
    assert (w_failing wr && closed s && (default 0 due <=? now2 (good t)) = false) as ->; [|by auto].
    apply andb_false_iff. unfold due. destruct (w_failing wr && closed s); [right|by left]. rewrite Hg. cbn. apply Z.leb_gt.
    destruct (give_up_at (w y)) eqn:Eg; cbn; [by apply Ht|unfold STOP_TIMEOUT; lia]. }
  pose proof (Hk (st y) (w y) eq_refl) as H1. pose proof (Hk (set_idle false (st y)) (w y) eq_refl) as H2.
  unfold drive, wstep. cbv zeta. destruct (take_lines (good t) (st y) (w y)) as [s1 w1], (take_lines (good t) (set_idle false (st y)) (w y)) as [s2 w2]. cbn in H1, H2.
  destruct Hp as [->|[->|[-> ->]]]; rewrite Hw; cbn; [by destruct (w_failing (w y))|by rewrite orb_true_r|done].
Qed.

Lemma top_flushes t y : has_work (st y) = true -> patient t y -> (pc (w y) = WTop \/ pc (w y) = WGather \/ (pc (w y) = WIdle /\ signalled y = true)) ->
  exists k, (k <= 4)%nat /\ (added (st y) <= written (st (runs t k y)))%nat.
Proof.
  intros Hw Ht Hp. destruct (drive_take t y Hw Ht Hp) as [Ea [E|E]].
  - destruct (write_flushes t (drive t y) _ E) as (k & Hk & Hf); [lia|]. exists (S k). split; [lia|]. cbn. lia.
  - exists 2%nat. split; [lia|]. change (runs t 2 y) with (runs t 1 (drive t y)). next E. cbn. lia.
Qed.

Lemma flushes_after t y y0 j : runs t j y = y0 -> (j <= 2)%nat -> added (st y0) = added (st y) -> has_work (st y0) = true -> patient t y0 ->
  (pc (w y0) = WTop \/ pc (w y0) = WGather \/ (pc (w y0) = WIdle /\ signalled y0 = true)) ->
  exists k, (k <= 7)%nat /\ (added (st y) <= written (st (runs t k y)))%nat.
Proof.
  intros <- Hj Ha Hw Ht Hp. destruct (top_flushes t _ Hw Ht Hp) as (k & ? & ?). exists (j + k)%nat. split; [lia|]. rewrite runs_add. lia.
Qed.

(** From any point, seven steps are enough. *)
Lemma work_flushes t y : ledger_ok y -> wake_ok y -> has_work (st y) = true -> patient t y -> pc (w y) <> WGone ->
  exists k, (k <= 7)%nat /\ (added (st y) <= written (st (runs t k y)))%nat.
Proof.
  intros Hok Hwake Hw Ht Hng. destruct (pc (w y)) as [| | |n|n| | | |] eqn:Ep; try done.
  - apply (flushes_after t y y 0); auto.
  - apply (flushes_after t y y 0); auto.
  - destruct (Hwake Ep) as [[_ ?]|[_ Hs]]; [congruence|]. destruct (signalled y) eqn:Es; [apply (flushes_after t y y 0); auto|].
    destruct Hs as [|Ho]; [done|]. destruct (owed y) as [|k] eqn:Eo; [lia|].
    apply (flushes_after t y (tstep TNotify y) 1); cbn [tstep]; rewrite ?Eo; cbn; auto.
    + unfold drive. assert (wstep (good t) y = None) as ->; [unfold wstep; cbv zeta; by rewrite Ep, Es|]. cbn [tstep]. by rewrite Eo.
    + rewrite Ep. auto.
  - destruct (closed (st y) && is_empty (lines (st y))) eqn:Ec.
    + exists 3%nat. split; [lia|]. next Ep. next Ec. by next Ec.
    + eapply (flushes_after t y _ 2); [next Ep; by next Ec|lia|cbn; auto..].
  - destruct (closed (st y) && is_empty (lines (st y))) eqn:Ec.
    + exists 2%nat. split; [lia|]. erewrite runs_next by (unfold wstep; cbv zeta; rewrite Ep; cbn; rewrite Ec; reflexivity). by next Ec.
    + eapply (flushes_after t y _ 1); [erewrite runs_next by (unfold wstep; cbv zeta; rewrite Ep; cbn; rewrite Ec; reflexivity); done|lia|cbn; auto..].
  - eapply (flushes_after t y _ 1); [by next Ep|lia|cbn; auto..].
  - exists 1%nat. split; [lia|]. by next Ep.
  - exists 0%nat. split; [lia|]. cbn. by rewrite (lo_done y Hok Ep).
Qed.

End System.

(** ** Opening the file ([open])

    What the system calls return: the open, whether the path is a link, the lock,
    the type and length of the file, and the truncation. *)
Inductive TryLock := LockTaken | WouldBlock | LockUnsupported | LockError.
Inductive OpenResult := SymbolicLink | OpenFailed | OpenElsewhere | LockFailed | MetadataFailed | NotRegular | TruncateFailed | Opened (len : Z) (locked : bool).

Definition open (opened : unit + bool) (is_link : bool) (lock : TryLock) (meta : option (bool * Z)) (set_len : bool) : OpenResult :=
  match opened with
  | inr eloop => if eloop && is_link then SymbolicLink else OpenFailed
  | inl _ =>
      match lock with
      | WouldBlock => OpenElsewhere
      | LockError => LockFailed
      | LockTaken | LockUnsupported =>
          let locked := match lock with LockTaken => true | _ => false end in
          match meta with
          | None => MetadataFailed
          | Some (is_file, len) =>
              if negb is_file then NotRegular
              else if 0 <? len then if set_len then Opened 0 locked else TruncateFailed
              else Opened len locked
          end
      end
  end.

(** The ledger starts on an empty regular file, which its writer has locked wherever
    the file system can lock; an empty file is not truncated. *)
Lemma open_empty opened is_link lock is_file len set_len n locked : 0 <= len ->
  open opened is_link lock (Some (is_file, len)) set_len = Opened n locked ->
  n = 0 /\ is_file = true /\ (locked = true \/ lock = LockUnsupported).
Proof.
  intros Hl. unfold open. destruct opened as [|e]; [|by destruct (e && is_link)]. destruct lock; try done; destruct is_file; cbn; try done;
    (destruct (Z.ltb_spec 0 len); [destruct set_len; [|done]|]; intros [= <- <-]; split_and!; auto; lia).
Qed.

(** * Claims *)

Section Claims.
Context (to_raw_value : Payload -> list Z) (to_writer : RawEvent -> list Z) (sid : list Z).
Abbreviation lstep := (lstep to_raw_value to_writer sid).

(** C19. However the threads, the writer and failing writes interleave, the file is a
    prefix of what was added, in the order it was added; until the writer gives up,
    which it does only once the ledger is closed, every byte added is in the file,
    taken or buffered; and a wait that reports its batch written finds every batch up
    to it whole in the file. *)
Theorem ledger_file_prefix y : rtc lstep sys_default y ->
  file y `prefix_of` stream y /\
  (gave_up (st y) = false -> stream y = take (offset (w y)) (file y) ++ taken (w y) ++ lines (st y)) /\
  (gave_up (st y) = true -> closed (st y) = true) /\
  forall n, wait_result (st y) n = Written -> concat (take n (log y)) `prefix_of` file y.
Proof.
  intros H%ledger_reachable. split_and!; [apply H| |apply H|].
  - intros Hg. apply (lo_stream y H). rewrite (lo_gone y H). congruence.
  - intros n. unfold wait_result. destruct (Nat.leb_spec n (written (st y))) as [Hn|]; [|by destruct (gave_up (st y))]. intros _.
    etrans; [|etrans; [apply (lo_reported y H)|apply prefix_take]]. exists (concat (take (written (st y) - n) (drop n (log y)))).
    rewrite <-concat_app, take_take_drop. do 2 f_equal. lia.
Qed.

(** C20. Every record is accounted for: what was added is records and counts of drops,
    each count right before the record that follows the drops; the drops counted are
    the counts plus those not counted yet; a batch that waits keeps all its records,
    in order; a capture keeps some of them in order, counts the others as dropped,
    and never takes the buffer past its cap. *)
Theorem ledger_accounts y l d s' wake rep : rtc lstep sys_default y -> add to_raw_value to_writer sid (st y) l d = (s', wake, rep) ->
  exists es es', stream y = bytes_of to_raw_value to_writer sid es /\ marks_lead es /\ dropped (st y) = marked es + unmarked (st y) /\
  lines s' = lines (st y) ++ bytes_of to_raw_value to_writer sid es' /\ marks_lead es' /\ dropped s' = marked (es ++ es') + unmarked s' /\
  kept es' `sublist_of` l.*1 /\ (d = false -> kept es' = l.*1) /\
  Z.of_nat (length l) = Z.of_nat (length (kept es')) + (dropped s' - dropped (st y)) /\
  (d = true -> zlen (lines s') + pending s' <= Z.max MAX_BUFFERED_BYTES (zlen (lines (st y)) + pending (st y))).
Proof.
  intros (es & E1 & E2 & E3 & E4)%accounted_reachable E. destruct (add_entries _ _ _ _ _ _ _ _ _ E3 E) as (es' & [A1 A2 A3 A4 A5 A6 A7 A8]).
  assert (pending s' = pending (st y)) as Ep.
  { unfold add in E. destruct (add_records_frame to_raw_value to_writer sid d l (st y) report_default) as [[] _].
    destruct (add_records _ _ _ d (st y) report_default l) as [s1 rep1]. cbn in *. injection E as <- _ _. by destruct (idle s1 && _). }
  exists es, es'. rewrite Ep, marked_app. rewrite length_fmap in A4. split_and!; try done. lia.
Qed.

(** C21. A batch handed to an open ledger is written: if the writes succeed, the writer
    needs at most seven steps, wherever it was, asleep included, to write the batch
    and all before it, after which the thread that waits is told so. *)
Theorem ledger_flushes y b clocks last t :
  rtc lstep sys_default y -> closed (st y) = false -> b_error b && negb last = false ->
  (forall g, give_up_at (w y) = Some g -> t < g) ->
  let y1 := tstep to_raw_value to_writer sid (TSubmit b clocks last) y in
  exists k, (k <= 7)%nat /\ let y2 := runs to_raw_value to_writer sid t k y1 in
    wait_result (st y2) (added (st y1)) = Written /\ stream y1 `prefix_of` file y2.
Proof.
  intros Hy Hc Hb Ht y1. assert (rtc lstep sys_default y1) as Hy1 by (eapply rtc_r; [done|apply L_thread]).
  pose proof (ledger_reachable _ _ _ _ Hy1) as Hok. pose proof (ledger_reachable _ _ _ _ Hy) as Hok0.
  assert (has_work (st y1) = true /\ w y1 = w y) as [Hw Ew].
  { unfold y1. cbn [tstep]. unfold submit. rewrite Hb, Hc. destruct (add _ _ _ (st y) _ false) as [[s1 wake] rep]. cbn. split; [|done].
    apply has_work_due. unfold is_due. destruct last; cbn; [|by rewrite orb_true_r]. destruct (close_frame s1) as [_ [_ _ _ _ _ F _ _]]. by rewrite F. }
  destruct (work_flushes to_raw_value to_writer sid t y1) as (k & Hk & Hf); try done.
  - by eapply wake_reachable.
  - unfold patient. by rewrite Ew.
  - rewrite Ew. intros Hg%(lo_gone _ Hok0)%(lo_gone_closed _ Hok0). congruence.
  - exists k. split; [done|]. cbv zeta. set (y2 := runs _ _ _ t k y1) in *. split; [unfold wait_result; by rewrite (proj2 (Nat.leb_le _ _) Hf)|].
    assert (rtc lstep y1 y2) as Hs by apply runs_steps. assert (ledger_ok y2) as Hok2 by (eapply ledger_reachable; by etrans).
    etrans; [|etrans; [apply (lo_reported y2 Hok2)|apply prefix_take]].
    assert (log y1 `prefix_of` log y2) as [r Hr].
    { clear -Hs. induction Hs as [|a0 b0 c0 [t0 a'|ch a' b' E] _ IH]; [done| |]; (etrans; [|exact IH]).
      - destruct (tstep_cases to_raw_value to_writer sid t0 a') as (_ & _ & [[_ ->]|(e & _ & ->)]); [done|by apply prefix_app_r].
      - assert (log b' = log a') as ->; [|done]. unfold wstep in E. repeat (case_match; try done; try (injection E as <-; done)). }
    rewrite Hr, take_app_ge, concat_app by (rewrite <-(lo_added y1 Hok); lia). unfold stream. by apply prefix_app_r.
Qed.

End Claims.

(** ** A run with a failed write *)

Module Example.
Definition raw (p : Payload) : list Z := match p with DroppedPayload n => [n] | _ => [99] end.
Definition json (e : RawEvent) : list Z := payload e.
Definition clk : Clock := mkClock 0 0 0.
Definition batch (n : Z) : Batch := push (batch_new true) "vmm" "vmm.start" (Some [n]).
Definition rec (n : Z) : LRecord := mkLRecord "boundary" "block" [n].
Definition ok : Choice := mkChoice false false None 0 0.
Definition fails (j : nat) : Choice := mkChoice false false (Some j) 0 0.

Fixpoint script (l : list (Thread + Choice)) (y : Sys) : option Sys :=
  match l with
  | [] => Some y
  | inl t :: l => script l (tstep raw json [] t y)
  | inr c :: l => y ← wstep c y; script l y
  end.

Lemma ledger_script_steps l y y' : script l y = Some y' -> rtc (lstep raw json []) y y'.
Proof.
  revert y. induction l as [|[t|c] l IH]; intros y; cbn; [by intros [= ->]| |].
  - intros H%IH. eapply rtc_l; [apply L_thread|done].
  - destruct (wstep c y) as [y1|] eqn:E; [|done]. intros H%IH. eapply rtc_l; [by eapply L_writer|done].
Qed.

(** The first write fails after one byte; a capture is added; the retry writes both. *)
Definition steps : list (Thread + Choice) :=
  [inl (TSubmit (batch 65) [clk] false); inr ok; inr (fails 1); inr ok; inl (TCaptured [(rec 66, clk)]); inr ok; inr ok; inr ok].
Definition after : Sys := default sys_default (script steps sys_default).
Lemma after_steps : rtc (lstep raw json []) sys_default after.
Proof. apply (ledger_script_steps steps). vm_compute. reflexivity. Qed.

Lemma ledger_file_prefix_witness : file after = [65; 10; 66; 10] /\ concat (take 2 (log after)) `prefix_of` file after.
Proof.
  split; [vm_compute; reflexivity|]. apply (proj2 (proj2 (proj2 (ledger_file_prefix raw json [] after after_steps)))). vm_compute. reflexivity.
Defined.

Lemma ledger_accounts_witness : exists es, stream after = bytes_of raw json [] es /\ marks_lead es.
Proof.
  destruct (add raw json [] (st after) [(rec 67, clk)] true) as [[s' wake] rep] eqn:E.
  destruct (ledger_accounts raw json [] after [(rec 67, clk)] true s' wake rep after_steps E) as (es & _ & H1 & H2 & _). exists es. split; [exact H1|exact H2].
Defined.

Lemma ledger_flushes_witness : exists k, (k <= 7)%nat /\
  let y2 := runs raw json [] 0 k (tstep raw json [] (TSubmit (batch 68) [clk] true) after) in wait_result (st y2) 3 = Written.
Proof.
  assert (closed (st after) = false) as Hc by (vm_compute; reflexivity).
  assert (forall g, give_up_at (w after) = Some g -> 0 < g) as Hg by (intros g; vm_compute; discriminate).
  assert (added (st (tstep raw json [] (TSubmit (batch 68) [clk] true) after)) = 3%nat) as Ha by (vm_compute; reflexivity).
  destruct (ledger_flushes raw json [] after (batch 68) [clk] true 0 after_steps Hc eq_refl Hg) as (k & Hk & H & _). rewrite Ha in H.
  exists k. split; [exact Hk|exact H].
Defined.
End Example.
