(* ===== verification/Vcpus.v ===== *)
(** * The vCPU threads ([src/hypervisor/vcpus.rs], [src/hypervisor/quiesce.rs], [src/run/stop.rs])

    A plugin on the boot vCPU pauses the guest: it raises a request, waits until as
    many vCPUs have parked as have started, looks, and releases them. Any thread may
    stop the machine meanwhile. The threads are a transition system over the running
    flag, the request flag, the count of parked vCPUs and the lock that guards it;
    one step is one atomic access or one use of the lock, taken in any order. The
    atomics are sequentially consistent, as the accesses to the flags are. *)

From S2P Require Import Prelude AcpiPm.
Local Open Scope Z_scope.

(** ** How a run ended *)

Inductive Outcome := Stopped (s : Stop) | Failed (text : list Z).

(** [Vcpus::report]: what is kept, and the failure that is only printed. *)
Definition report (kept : option Outcome) (o : Outcome) : option Outcome * option (list Z) :=
  match kept, o with
  | None, _ | Some (Stopped _), Failed _ => (Some o, None)
  | _, Failed text => (kept, Some text)
  | _, Stopped _ => (kept, None)
  end.

Definition outcome (kept : option Outcome) (stop_requested : bool) : Outcome :=
  default (Stopped (if stop_requested then Requested else SystemOff)) kept.

Definition into_result (o : Outcome) : Stop + list Z := match o with Stopped s => inl s | Failed t => inr t end.

(** ** The request to stop ([StopHandle]) *)

Definition NO_SIGNAL : Z := -1.
(** [Inner]: what asked first, the first signal, and the bytes in the pipe, of which
    it holds [cap]. *)
Record StopHandle := mkStop { first : Z; signal_ : Z; pipe : nat }.
Definition new_pair : StopHandle := mkStop 0 0 0.

Definition compare_exchange (cur expected new : Z) : Z := if cur =? expected then new else cur.

Section Handle.
Context (cap : nat).

Definition wake (h : StopHandle) : StopHandle := mkStop (first h) (signal_ h) (Nat.min cap (S (pipe h))).

Definition request (h : StopHandle) (by_ : Z) : StopHandle :=
  let h := if by_ =? NO_SIGNAL then h else mkStop (first h) (compare_exchange (signal_ h) 0 by_) (pipe h) in
  wake (mkStop (compare_exchange (first h) 0 by_) (signal_ h) (pipe h)).

Definition signal (h : StopHandle) : option Z := if signal_ h =? 0 then None else Some (signal_ h).
Definition first_signal (h : StopHandle) : option Z := if (first h =? 0) || (first h =? NO_SIGNAL) then None else Some (first h).
Definition is_stop_requested (h : StopHandle) : bool := negb (first h =? 0).

(** [Waker::wait]: [None] while nothing is pending and no deadline has passed; up to
    64 bytes are drained. *)
Definition wait (h : StopHandle) (passed : bool) : option StopHandle :=
  match pipe h with
  | O => if passed then Some h else None
  | n => Some (mkStop (first h) (signal_ h) (n - 64))
  end.

End Handle.

(** ** The threads *)

(** Where a vCPU thread is. [VLeave], [PGot] and [PCmp] hold the lock; [VParked] and
    [PWait] sleep on the condition variable, with whether they were notified. The
    states that begin with [P] are [Vcpus::pause] and [resume] on the boot vCPU, and
    [VPaused] is the plugin between a pause that succeeded and its resume. *)
Inductive VPc :=
  | VNew | VTop | VCheck | VLock | VParked (woken : bool) | VLeave | VGo | VGuest | VExited | VGone
  | VPlugin | PReq | PLock | PGot | PCmp (b : bool) | PWait (woken : bool) | PPass | VPaused | PRel1 | PRel2.

#[export] Instance vpc_eq_dec : EqDecision VPc.
Proof. solve_decision. Defined.

Record VSys := mkVSys {
  running : bool; requested : bool; parked : nat; locked : bool; started : nat;
  (** The stops that cleared [running], and those that cleared [requested] and have
      not notified yet. *)
  stopping : nat; releasing : nat;
  vs : list VPc }.

Definition vsys_new (count : nat) : VSys := mkVSys true false 0 false 0 0 0 (replicate count VNew).

Definition set_running b (s : VSys) : VSys := mkVSys b (requested s) (parked s) (locked s) (started s) (stopping s) (releasing s) (vs s).
Definition set_requested b (s : VSys) : VSys := mkVSys (running s) b (parked s) (locked s) (started s) (stopping s) (releasing s) (vs s).
Definition set_parked n (s : VSys) : VSys := mkVSys (running s) (requested s) n (locked s) (started s) (stopping s) (releasing s) (vs s).
Definition set_locked b (s : VSys) : VSys := mkVSys (running s) (requested s) (parked s) b (started s) (stopping s) (releasing s) (vs s).
Definition set_started n (s : VSys) : VSys := mkVSys (running s) (requested s) (parked s) (locked s) n (stopping s) (releasing s) (vs s).
Definition set_stops a b (s : VSys) : VSys := mkVSys (running s) (requested s) (parked s) (locked s) (started s) a b (vs s).
Definition set_vs l (s : VSys) : VSys := mkVSys (running s) (requested s) (parked s) (locked s) (started s) (stopping s) (releasing s) l.
Definition go (i : nat) (p : VPc) (s : VSys) : VSys := set_vs (<[i := p]> (vs s)) s.

(** [notify_all]. *)
Definition woken_pc (p : VPc) : VPc := match p with VParked _ => VParked true | PWait _ => PWait true | p => p end.
Definition notify_all (s : VSys) : VSys := set_vs (woken_pc <$> vs s) s.

(** What the host or the plugin decides at a step: a wait that ends without a
    notification, a deadline that passed, a run of the guest that ends the vCPU's
    loop, and the plugin's next call. *)
Record VChoice := mkVChoice { v_spurious : bool; v_timed_out : bool; breaks : bool; pauses : bool }.

(** The end of a checkpoint: the plugin on the boot vCPU, the guest elsewhere. *)
Definition safe (i : nat) : VPc := if decide (i = 0%nat) then VPlugin else VGo.

(** One step of the thread of vCPU [i]; [None] while it cannot move. *)
Definition cpu_step (c : VChoice) (i : nat) (s : VSys) : option VSys :=
  match vs s !! i with
  | None => None
  | Some p =>
      match p with
      | VNew => if breaks c && negb (running s) then Some (go i VGone s) else Some (go i VTop (set_started (S (started s)) s))
      | VTop => Some (go i (if running s then VCheck else VExited) s)
      (* Quiesce::checkpoint *)
      | VCheck => Some (go i (if requested s then VLock else safe i) s)
      | VLock =>
          if locked s then None
          else
            let s := notify_all (set_parked (S (parked s)) s) in
            Some (if requested s then go i (VParked false) s else go i VLeave (set_locked true s))
      | VParked woken =>
          if locked s || negb (woken || v_spurious c) then None
          else Some (if requested s then go i (VParked false) s else go i VLeave (set_locked true s))
      | VLeave => Some (go i (safe i) (set_locked false (set_parked (parked s - 1) s)))
      | VGo => Some (go i VGuest s)
      | VGuest => Some (go i (if breaks c then VExited else VTop) s)
      | VExited | VGone => None
      (* Vcpus::pause *)
      | VPlugin => Some (go i (if pauses c then PReq else VGo) s)
      | PReq => Some (go i PLock (set_requested true s))
      | PLock => if locked s then None else Some (go i PGot (set_locked true s))
      | PGot => Some (go i (PCmp (running s)) s)
      | PCmp b =>
          let target := if b then (started s - 1)%nat else 0%nat in
          if (parked s <? target)%nat then
            if v_timed_out c then Some (go i PRel1 (set_locked false s)) else Some (go i (PWait false) (set_locked false s))
          else Some (go i PPass (set_locked false s))
      | PWait woken => if woken || v_spurious c || v_timed_out c then Some (go i PLock s) else None
      | PPass => Some (go i (if running s then VPaused else PRel1) s)
      | VPaused => Some (go i (if pauses c then PReq else PRel1) s)
      (* Quiesce::release *)
      | PRel1 => Some (go i PRel2 (set_requested false s))
      | PRel2 => if locked s then None else Some (go i VPlugin (notify_all s))
      end
  end.

(** [Vcpus::stop], called by any thread any number of times: the flag, the store of
    the release, its notification under the lock. *)
Inductive VEvent := Cpu (i : nat) (c : VChoice) | StopFlag | StopRelease | StopNotify.

Definition vcpus_step (e : VEvent) (s : VSys) : option VSys :=
  match e with
  | Cpu i c => cpu_step c i s
  | StopFlag => Some (set_stops (S (stopping s)) (releasing s) (set_running false s))
  | StopRelease => match stopping s with S n => Some (set_stops n (S (releasing s)) (set_requested false s)) | O => None end
  | StopNotify => match releasing s with S n => if locked s then None else Some (set_stops (stopping s) n (notify_all s)) | O => None end
  end.

Definition vreach (s s' : VSys) : Prop := exists e, vcpus_step e s = Some s'.

(** ** The invariant *)

Definition is_parked (p : VPc) : bool := match p with VParked _ | VLeave => true | _ => false end.
Definition is_started (p : VPc) : bool := match p with VNew | VGone => false | _ => true end.
Definition holds (p : VPc) : bool := match p with VLeave | PGot | PCmp _ => true | _ => false end.
(** Only the boot vCPU runs the plugin; it never parks. *)
Definition boot_only (p : VPc) : bool :=
  match p with VPlugin | PReq | PLock | PGot | PCmp _ | PWait _ | PPass | VPaused | PRel1 | PRel2 => true | _ => false end.
Definition parks (p : VPc) : bool := match p with VLock | VParked _ | VLeave => true | _ => false end.
(** The boot vCPU while its request may stand, and while it must. *)
Definition may_ask (p : VPc) : bool := match p with PReq | PLock | PGot | PCmp _ | PWait _ | PPass | VPaused | PRel1 => true | _ => false end.
Definition asks (p : VPc) : bool := match p with PLock | PGot | PCmp _ | PWait _ | PPass | VPaused | PRel1 => true | _ => false end.
(** Out of the guest, and not on the way to it while the request stands. *)
Definition still (p : VPc) : bool := match p with VNew | VGone | VTop | VCheck | VLock | VParked _ => true | _ => false end.
Definition passed (p : VPc) : bool := match p with PPass | VPaused => true | _ => false end.

Fixpoint count {A} (f : A -> bool) (l : list A) : nat := match l with [] => 0 | x :: l => (if f x then 1 else 0) + count f l end.

Definition boot (s : VSys) (f : VPc -> bool) : bool := match vs s !! 0%nat with Some p => f p | None => false end.

(** What holds of vCPU [j] at [q]. *)
Record cpu_ok (s : VSys) (j : nat) (q : VPc) : Prop := {
  co_other : j <> 0%nat -> boot_only q = false;
  co_boot : j = 0%nat -> parks q = false;
  co_woken : requested s = false -> releasing s = 0%nat -> boot s (fun p => bool_decide (p = PRel2)) = false -> q <> VParked false;
  co_still : running s = true -> boot s passed = true -> j <> 0%nat -> still q = true }.

Record vcpus_ok (s : VSys) : Prop := {
  vo_parked : parked s = count is_parked (vs s);
  vo_started : started s = count is_started (vs s);
  vo_locked : count holds (vs s) = if locked s then 1%nat else 0%nat;
  vo_stops : (0 < stopping s + releasing s)%nat -> running s = false;
  vo_quiet : boot s may_ask = false -> requested s = false;
  vo_asked : running s = true -> boot s asks = true -> requested s = true;
  vo_cmp : vs s !! 0%nat = Some (PCmp false) -> running s = false;
  vo_cpus : forall j q, vs s !! j = Some q -> cpu_ok s j q }.

Lemma count_insert {A} (f : A -> bool) l i p q : l !! i = Some p ->
  (count f (<[i := q]> l) + (if f p then 1 else 0) = count f l + (if f q then 1 else 0))%nat.
Proof.
  revert i. induction l as [|x l IH]; intros [|i]; try done.
  - intros [= ->]. cbn. lia.
  - intros Hi. specialize (IH i Hi). change (<[S i := q]> (x :: l)) with (x :: <[i := q]> l). cbn [count]. lia.
Qed.

Lemma count_fmap {A B} (g : A -> B) (f : B -> bool) l : count f (g <$> l) = count (fun x => f (g x)) l.
Proof. induction l as [|x l IH]; cbn; [done|]. by rewrite IH. Qed.
Lemma count_ext {A} (f g : A -> bool) l : (forall x, f x = g x) -> count f l = count g l.
Proof. intros H. induction l as [|x l IH]; cbn; [done|]. by rewrite IH, H. Qed.

Lemma woken_count f l : (forall p, f (woken_pc p) = f p) -> count f (woken_pc <$> l) = count f l.
Proof. intros H. rewrite count_fmap. by apply count_ext. Qed.

(** As many parked as started: then the same vCPUs. *)
Lemma count_all {A} (f g : A -> bool) l : (forall x, f x = true -> g x = true) -> (count g l <= count f l)%nat ->
  forall j x, l !! j = Some x -> g x = true -> f x = true.
Proof.
  intros Hfg. assert (forall l, (count f l <= count g l)%nat) as Hle.
  { intros k. induction k as [|x k IH]; cbn; [done|]. specialize (Hfg x). destruct (f x), (g x); try lia; by specialize (Hfg eq_refl). }
  induction l as [|x l IH]; [done|]. cbn. intros Hc j y. pose proof (Hle l). assert (g x = true -> f x = true) as Hx.
  { intros Hg. rewrite Hg in Hc. destruct (f x); [done|lia]. }
  destruct j as [|j]; cbn; [by intros [= <-]|]. apply IH. specialize (Hfg x). destruct (f x), (g x); try lia; by specialize (Hfg eq_refl).
Qed.

Lemma boot_go s i p f : (i < length (vs s))%nat -> boot (go i p s) f = if decide (i = 0%nat) then f p else boot s f.
Proof.
  intros Hi. unfold boot, go. cbn. destruct (decide (i = 0%nat)) as [->|Hne]; [by rewrite list_lookup_insert_eq|by rewrite list_lookup_insert_ne].
Qed.
Lemma boot_notify s f : (forall p, f (woken_pc p) = f p) -> boot (notify_all s) f = boot s f.
Proof. intros Hf. unfold boot, notify_all. cbn. rewrite list_lookup_fmap. destruct (vs s !! 0%nat); cbn; [apply Hf|done]. Qed.

Lemma lookup_go s i p j q : vs (go i p s) !! j = Some q -> (j = i /\ q = p) \/ (j <> i /\ vs s !! j = Some q).
Proof. unfold go. cbn. intros [(-> & -> & _)|[? ?]]%list_lookup_insert_Some; auto. Qed.

(** A notification changes no fact but who is awake. *)
Lemma notify_ok s : vcpus_ok s -> vcpus_ok (notify_all s).
Proof.
  intros [H1 H2 H3 H4 H5 H6 H7 H8]. constructor; cbn; rewrite ?woken_count by (by intros []); try done; rewrite ?boot_notify by (by intros []); try done.
  - rewrite list_lookup_fmap. destruct (vs s !! 0%nat) as [[]|]; cbn; try done; intros [= ->]; by apply H7.
  - intros j q. rewrite list_lookup_fmap. destruct (vs s !! j) as [q'|] eqn:E; cbn; [|done]. intros [= <-]. destruct (H8 j q' E) as [A1 A2 A3 A4].
    constructor; rewrite ?boot_notify by (by intros []).
    + intros Hj. specialize (A1 Hj). by destruct q'.
    + intros Hj. specialize (A2 Hj). by destruct q'.
    + intros _ _ _. by destruct q'.
    + intros Hr Hb Hj. specialize (A4 Hr Hb Hj). by destruct q'.
Qed.

Abbreviation b2n b := (if b then 1%nat else 0%nat).

(** What a step of vCPU [i] from [p] to [q] does to the shared state. *)
Record moves (i : nat) (p q : VPc) (s s1 : VSys) : Prop := {
  mv_vs : vs s1 = vs s;
  mv_parked : (parked s1 + b2n (is_parked p) = parked s + b2n (is_parked q))%nat;
  mv_started : (started s1 + b2n (is_started p) = started s + b2n (is_started q))%nat;
  mv_locked : (b2n (locked s1) + b2n (holds p) = b2n (locked s) + b2n (holds q))%nat;
  mv_running : running s1 = running s; mv_stopping : stopping s1 = stopping s; mv_releasing : releasing s1 = releasing s;
  mv_asked : i <> 0%nat -> requested s1 = requested s }.

(** A step of a vCPU that is not the boot one. *)
Lemma go_other s s1 i p q : vcpus_ok s -> vs s !! i = Some p -> i <> 0%nat -> moves i p q s s1 ->
  boot_only q = false -> (requested s = false -> q <> VParked false) -> (running s = true -> boot s passed = true -> still q = true) ->
  vcpus_ok (go i q s1).
Proof.
  intros [H1 H2 H3 H4 H5 H6 H7 H8] Hp Hi [M1 M2 M3 M4 M5 M6 M7 M8] Hb Hw Hst. specialize (M8 Hi).
  assert (i < length (vs s1))%nat as Hlt by (rewrite M1; by eapply lookup_lt_Some).
  assert (forall f, boot (go i q s1) f = boot s f) as Hboot by (intros f; rewrite boot_go, decide_False by done; unfold boot; by rewrite M1).
  pose proof (count_insert is_parked (vs s) i p q Hp). pose proof (count_insert is_started (vs s) i p q Hp). pose proof (count_insert holds (vs s) i p q Hp).
  constructor; rewrite ?Hboot; cbn; rewrite ?M1, ?M5, ?M6, ?M7, ?M8; try done; try lia.
  - by rewrite list_lookup_insert_ne.
  - intros j r Hr. assert (vs (go i q s1) !! j = Some r) as [[-> ->]|[Hne Hr']]%lookup_go by (cbn; by rewrite M1).
    + constructor; rewrite ?Hboot; cbn; rewrite ?M5, ?M7, ?M8; auto. done.
    + rewrite M1 in Hr'. destruct (H8 j r Hr') as [A1 A2 A3 A4]. constructor; rewrite ?Hboot; cbn; rewrite ?M5, ?M7, ?M8; auto.
Qed.

(** A step of the boot vCPU. *)
Lemma go_boot s s1 p q : vcpus_ok s -> vs s !! 0%nat = Some p -> moves 0 p q s s1 ->
  parks q = false -> (may_ask q = false -> requested s1 = false) -> (running s = true -> asks q = true -> requested s1 = true) ->
  (q = PCmp false -> running s = false) ->
  (running s = true -> passed q = true -> forall j r, j <> 0%nat -> vs s !! j = Some r -> still r = true) ->
  (requested s1 = false -> releasing s = 0%nat -> q <> PRel2 -> (requested s = false /\ p <> PRel2) \/ forall j, vs s !! j <> Some (VParked false)) ->
  vcpus_ok (go 0 q s1).
Proof.
  intros [H1 H2 H3 H4 H5 H6 H7 H8] Hp [M1 M2 M3 M4 M5 M6 M7 _] Hpk Hq Ha Hc Hst Hw.
  assert (0 < length (vs s1))%nat as Hlt by (rewrite M1; by eapply lookup_lt_Some).
  assert (forall f, boot (go 0 q s1) f = f q) as Hboot by (intros f; by rewrite boot_go, decide_True by done).
  pose proof (count_insert is_parked (vs s) 0 p q Hp). pose proof (count_insert is_started (vs s) 0 p q Hp). pose proof (count_insert holds (vs s) 0 p q Hp).
  constructor; rewrite ?Hboot; cbn; rewrite ?M1, ?M5, ?M6, ?M7; try done; try lia.
  - rewrite list_lookup_insert_eq by (by rewrite <-M1). intros [= Hqc]. by apply Hc.
  - intros j r Hr. assert (vs (go 0 q s1) !! j = Some r) as [[-> ->]|[Hne Hr']]%lookup_go by (cbn; by rewrite M1).
    + constructor; rewrite ?Hboot; cbn; rewrite ?M5, ?M7; try done; auto. intros _ _ _ ->. done.
    + rewrite M1 in Hr'. destruct (H8 j r Hr') as [A1 A2 A3 A4]. constructor; rewrite ?Hboot; cbn; rewrite ?M5, ?M7; auto.
      * intros Hr1 Hrel Hq2%bool_decide_eq_false. destruct (Hw Hr1 Hrel Hq2) as [[Hr0 Hp2]|Hno]; [|intros ->; by apply (Hno j)]. apply A3; [done|done|]. unfold boot. rewrite Hp. by apply bool_decide_eq_false.
      * intros Hrun Hpas Hj. by eapply Hst.
Qed.

(** The check that ends a wait: every other vCPU that started is parked. *)
Lemma compare_still s : vcpus_ok s -> vs s !! 0%nat = Some (PCmp true) -> (started s - 1 <= parked s)%nat ->
  forall j r, j <> 0%nat -> vs s !! j = Some r -> still r = true.
Proof.
  intros [H1 H2 H3 H4 H5 H6 H7 H8] Hp Hle j r Hj Hr. destruct (vs s) as [|p0 l] eqn:El; [done|]. injection Hp as ->. destruct j as [|j]; [done|]. cbn in Hr.
  rewrite H1, H2 in Hle. cbn in Hle. destruct (is_started r) eqn:Es; [|by destruct r].
  assert (is_parked r = true) as Hpk by (apply (count_all is_parked is_started l) with j; [by intros []|lia|done|done]).
  destruct r; try done. exfalso. cbn in H3. assert (0 < count holds l)%nat.
  { clear -Hr. revert j Hr. induction l as [|x l IH]; intros [|j]; cbn; try done; [intros [= ->]; cbn; lia|]. intros H%IH. lia. }
  destruct (locked s); lia.
Qed.

Ltac moved := constructor; cbn; try done; try lia; intros; done.

Lemma unlocked_holds s i p : vcpus_ok s -> vs s !! i = Some p -> holds p = true -> locked s = true.
Proof.
  intros Hs Hp Hh. pose proof (vo_locked s Hs) as Hl. pose proof (count_insert holds (vs s) i p VNew Hp) as Hc. rewrite Hh in Hc. cbn in Hc.
  destruct (locked s); [done|lia].
Qed.

Lemma parked_pos s i p : vcpus_ok s -> vs s !! i = Some p -> is_parked p = true -> (0 < parked s)%nat.
Proof.
  intros Hs Hp Hh. rewrite (vo_parked s Hs). pose proof (count_insert is_parked (vs s) i p VNew Hp) as Hc. rewrite Hh in Hc. cbn in Hc. lia.
Qed.

Lemma other_step_ok c i s s' : vcpus_ok s -> i <> 0%nat -> cpu_step c i s = Some s' -> vcpus_ok s'.
Proof.
  intros Hs Hi E. unfold cpu_step in E. destruct (vs s !! i) as [p|] eqn:Hp; [|done]. destruct (vo_cpus s Hs i p Hp) as [A1 _ A3 A4]. specialize (A1 Hi).
  assert (safe i = VGo) as Hsafe by (unfold safe; by rewrite decide_False). rewrite ?Hsafe in E.
  assert (running s = true -> boot s passed = true -> requested s = true) as Hreq.
  { intros Hr Hb. apply (vo_asked s Hs Hr). unfold boot in *. by destruct (vs s !! 0%nat) as [[]|]. }
  destruct p; try done.
  - destruct (breaks c && _); injection E as <-; (eapply go_other; [done..|moved|done|done|done]).
  - destruct (running s) eqn:Er; injection E as <-; (eapply go_other; [done..|moved|done|done|try done; congruence]).
  - destruct (requested s) eqn:Er; injection E as <-; (eapply go_other; [done..|moved|done|done|try done; intros Hr Hb; by specialize (Hreq Hr Hb)]).
  - destruct (locked s) eqn:El; [done|]. set (s1 := notify_all s). assert (vcpus_ok s1) as Hs1 by by apply notify_ok.
    assert (vs s1 !! i = Some VLock) as Hp1 by (unfold s1; cbn; by rewrite list_lookup_fmap, Hp).
    assert (boot s1 passed = boot s passed) as Hb1 by (apply boot_notify; by intros []).
    cbn [requested notify_all set_vs set_parked] in E. destruct (requested s) eqn:Er; injection E as <-.
    + apply (go_other s1 (notify_all (set_parked (S (parked s)) s)) i VLock); [done..|moved|done|cbn; congruence|done].
    + apply (go_other s1 (set_locked true (notify_all (set_parked (S (parked s)) s))) i VLock); [done..| |done|done|].
      * constructor; cbn; try done; try lia; rewrite El; lia.
      * rewrite Hb1. intros Hr Hb. by specialize (Hreq Hr Hb).
  - destruct (locked s || _) eqn:El; [done|]. apply orb_false_iff in El as [El _]. destruct (requested s) eqn:Er; injection E as <-.
    + eapply go_other; [done..|moved|done|congruence|done].
    + eapply go_other; [done..| |done|done|]; [constructor; cbn; try done; try lia; rewrite El; lia|]. intros Hr Hb. by specialize (Hreq Hr Hb).
  - injection E as <-. pose proof (unlocked_holds s i _ Hs Hp eq_refl) as El. pose proof (parked_pos s i _ Hs Hp eq_refl).
    eapply go_other; [done..| |done|done|]; [constructor; cbn; try done; try lia; rewrite El; lia|]. intros Hr Hb. by specialize (A4 Hr Hb Hi).
  - injection E as <-. eapply go_other; [done..|moved|done|done|]. intros Hr Hb. by specialize (A4 Hr Hb Hi).
  - injection E as <-. destruct (breaks c); (eapply go_other; [done..|moved|done|done|]; intros Hr Hb; by specialize (A4 Hr Hb Hi)).
Qed.

Lemma boot_step_ok c s s' : vcpus_ok s -> cpu_step c 0 s = Some s' -> vcpus_ok s'.
Proof.
  intros Hs E. unfold cpu_step in E. destruct (vs s !! 0%nat) as [p|] eqn:Hp; [|done]. destruct (vo_cpus s Hs 0 p Hp) as [_ A2 _ _]. specialize (A2 eq_refl).
  pose proof (vo_quiet s Hs) as Hq. pose proof (vo_asked s Hs) as Ha. unfold boot in Hq, Ha. rewrite Hp in Hq, Ha. change (safe 0) with VPlugin in E.
  destruct p; try done; cbn in Hq, Ha.
  - specialize (Hq eq_refl). destruct (breaks c && _); injection E as <-; (eapply go_boot; [done..|moved|done|done|done|done|done|auto]).
  - specialize (Hq eq_refl). destruct (running s) eqn:Er; injection E as <-; (eapply go_boot; [done..|moved|done|done|done|done|done|auto]).
  - specialize (Hq eq_refl). rewrite Hq in E. injection E as <-. eapply go_boot; [done..|moved|done|done|done|done|done|auto].
  - specialize (Hq eq_refl). injection E as <-. eapply go_boot; [done..|moved|done|done|done|done|done|auto].
  - specialize (Hq eq_refl). destruct (breaks c); injection E as <-; (eapply go_boot; [done..|moved|done|done|done|done|done|auto]).
  - specialize (Hq eq_refl). destruct (pauses c); injection E as <-; (eapply go_boot; [done..|moved|done|done|done|done|done|auto]).
  - injection E as <-. eapply go_boot; [done..|moved|done|done|done|done|done|done].
  - destruct (locked s) eqn:El; [done|]. injection E as <-. eapply go_boot; [done..| |done|done|auto|done|done|auto]. constructor; cbn; try done; rewrite El; lia.
  - injection E as <-. eapply go_boot; [done..|moved|done|done|auto| |done|auto]. by intros [= ->].
  - pose proof (unlocked_holds s 0 _ Hs Hp eq_refl) as El. destruct (Nat.ltb_spec (parked s) (if b then started s - 1 else 0)) as [Hlt|Hge].
    + destruct (v_timed_out c); injection E as <-; (eapply go_boot; [done..| |done|done|auto|done|done|auto]; constructor; cbn; try done; rewrite El; lia).
    + injection E as <-. eapply go_boot; [done..| |done|done|auto|done| |auto]; [constructor; cbn; try done; rewrite El; lia|].
      intros Hr _. destruct b; [by apply compare_still|]. pose proof (vo_cmp s Hs Hp). congruence.
  - destruct (_ || _); [|done]. injection E as <-. eapply go_boot; [done..|moved|done|done|auto|done|done|auto].
  - destruct (running s) eqn:Er; injection E as <-; (eapply go_boot; [done..|moved|done|done|try done; auto|done| |auto]).
    + intros _ _ j r Hj Hr. apply (co_still s j r (vo_cpus s Hs j r Hr) Er); [|done]. unfold boot. by rewrite Hp.
    + congruence.
    + done.
  - destruct (pauses c); injection E as <-; (eapply go_boot; [done..|moved|done|done|try done; auto|done|done|auto]).
  - injection E as <-. eapply go_boot; [done..|moved|done|done|done|done|done|done].
  - destruct (locked s) eqn:El; [done|]. injection E as <-. specialize (Hq eq_refl). pose proof (notify_ok s Hs) as Hs1.
    eapply (go_boot _ (notify_all s)); [exact Hs1|cbn; by rewrite list_lookup_fmap, Hp|moved|done|done|done|done|done|].
    intros _ _ _. right. intros j. cbn. rewrite list_lookup_fmap. by destruct (vs s !! j) as [[]|].
Qed.

Lemma stop_step_ok e s s' : vcpus_ok s -> (forall i c, e <> Cpu i c) -> vcpus_step e s = Some s' -> vcpus_ok s'.
Proof.
  intros Hs He. destruct e as [i c| | |]; [by destruct (He i c)| | |]; cbn.
  - intros [= <-]. destruct Hs as [H1 H2 H3 H4 H5 H6 H7 H8]. constructor; cbn; try done. intros j q Hq. destruct (H8 j q Hq) as [A1 A2 A3 A4]. by constructor.
  - destruct (stopping s) as [|n] eqn:Es; [done|]. intros [= <-]. destruct Hs as [H1 H2 H3 H4 H5 H6 H7 H8].
    assert (running s = false) as Hr by (apply H4; lia). constructor; cbn; try done; [congruence|].
    intros j q Hq. destruct (H8 j q Hq) as [A1 A2 A3 A4]. constructor; cbn; try done.
  - destruct (releasing s) as [|n] eqn:Es; [done|]. destruct (locked s) eqn:El; [done|]. intros [= <-].
    assert (running s = false) as Hr by (apply (vo_stops s Hs); lia).
    destruct (notify_ok s Hs) as [H1 H2 H3 H4 H5 H6 H7 H8]. constructor; cbn in *; try done.
    intros j q Hq. destruct (H8 j q Hq) as [A1 A2 A3 A4]. constructor; cbn in *; try done.
    intros _ _ _ ->. rewrite list_lookup_fmap in Hq. by destruct (vs s !! j) as [[]|].
Qed.

Lemma vsys_new_ok n : vcpus_ok (vsys_new n).
Proof.
  assert (forall f, f VNew = false -> count f (replicate n VNew) = 0%nat) as Hc.
  { intros f Hf. induction n as [|n IH]; cbn; [done|]. by rewrite Hf, IH. }
  assert (forall f, f VNew = false -> boot (vsys_new n) f = false) as Hb.
  { intros f Hf. unfold boot. cbn. destruct (replicate n VNew !! 0%nat) as [p|] eqn:E; [|done]. by apply lookup_replicate in E as [-> _]. }
  constructor; cbn; rewrite ?Hc by done; rewrite ?Hb by done; try done; try lia.
  - by intros [? _]%lookup_replicate.
  - intros j q [-> _]%lookup_replicate. constructor; try done.
Qed.

Lemma vcpus_reachable n s : rtc vreach (vsys_new n) s -> vcpus_ok s.
Proof.
  assert (forall s0, vcpus_ok s0 -> rtc vreach s0 s -> vcpus_ok s) as H; [|by apply H, vsys_new_ok].
  intros s0 H0 Hs. induction Hs as [|s0 s1 s2 [e He] _ IH]; [done|]. apply IH. destruct e as [i c| | |].
  - destruct (decide (i = 0%nat)) as [->|Hi]; [by eapply boot_step_ok|by eapply other_step_ok].
  - by apply (stop_step_ok StopFlag s0).
  - by apply (stop_step_ok StopRelease s0).
  - by apply (stop_step_ok StopNotify s0).
Qed.

(** ** Stopping *)

(** The thread of vCPU [j] alone. *)
Definition quick : VChoice := mkVChoice false true false false.
Fixpoint cpu_runs (n j : nat) (s : VSys) : VSys :=
  match n with O => s | S n => cpu_runs n j (default s (cpu_step quick j s)) end.

Lemma cpu_runs_next n j s s' : cpu_step quick j s = Some s' -> cpu_runs (S n) j s = cpu_runs n j s'.
Proof. cbn. by intros ->. Qed.

Lemma cpu_at s j p : vs s !! j = Some p -> cpu_step quick j s = cpu_step quick j (go j p s) /\ forall q s1, vs s1 = vs s -> vs (go j q s1) !! j = Some q.
Proof.
  intros Hp. split.
  - unfold go. rewrite list_insert_id by done. by destruct s.
  - intros q s1 E. unfold go. cbn. apply list_lookup_insert_eq. rewrite E. by eapply lookup_lt_Some.
Qed.

(** ** Spawning and joining *)

(** [Vcpus::spawn]: the threads that run, whether it succeeded, and whether it
    stopped the machine; [oks] is what each spawn returned. *)
Fixpoint spawn_loop (oks : list bool) (threads : nat) : nat * bool * bool :=
  match oks with
  | [] => (threads, true, false)
  | true :: oks => spawn_loop oks (S threads)
  | false :: _ => (threads, false, true)
  end.
Definition spawn (count items : nat) (oks : list bool) : nat * bool * bool :=
  if negb (items =? count)%nat then (0%nat, false, true) else spawn_loop (take count oks) 0.

(** [join_timeout] after its wait: the threads that exited are joined, the first that
    did not is the error. *)
Fixpoint join_threads (l : list (nat * bool)) : list nat * option nat :=
  match l with
  | [] => ([], None)
  | (id, true) :: l => let '(joined, failure) := join_threads l in (id :: joined, failure)
  | (id, false) :: l => let '(joined, _) := join_threads l in (joined, Some id)
  end.

Lemma join_threads_spec l : (join_threads l).1 = (base.filter (fun x => x.2 = true) l).*1 /\
  ((join_threads l).2 = None <-> Forall (fun x => x.2 = true) l).
Proof.
  induction l as [|[id []] l [IH1 IH2]]; cbn; [by split|..]; destruct (join_threads l) as [jn f]; cbn in *.
  - split; [by rewrite IH1|]. rewrite IH2, Forall_cons. tauto.
  - split; [by rewrite IH1|]. rewrite Forall_cons. split; [done|]. by intros [? _].
Qed.

(** ** The waker *)

(** A request is seen by the loop: it is stored before its byte, so the wait the loop
    makes after a check that missed it returns. *)
Lemma request_wakes cap h b : (0 < cap)%nat -> b <> 0 ->
  let h' := request cap h b in is_stop_requested h' = true /\ forall passed, is_Some (wait h' passed).
Proof.
  intros Hc Hb. unfold request, wake. cbv zeta. set (h1 := if b =? NO_SIGNAL then h else _). cbn. split.
  - unfold is_stop_requested, compare_exchange. cbn. destruct (Z.eqb_spec (first h1) 0); apply negb_true_iff, Z.eqb_neq; lia.
  - intros passed. unfold wait. cbn. destruct (Nat.min cap (S (pipe h1))) eqn:E; [lia|by eexists].
Qed.

(** The first request is kept, and so is the first signal, whichever came first. *)
Lemma request_keeps cap h l : first h <> 0 -> first (foldl (request cap) h l) = first h.
Proof.
  revert h. induction l as [|b l IH]; intros h Hh; cbn; [done|]. assert (first (request cap h b) = first h) as E.
  { unfold request, wake, compare_exchange. destruct (b =? NO_SIGNAL); cbn; destruct (Z.eqb_spec (first h) 0); done. }
  rewrite IH; congruence.
Qed.

(** * Claims *)

(** C13. When a pause has returned true and the machine still runs, every other vCPU is
    out of the guest, parked or not started, or on its way to park before its first
    entry, whatever the threads did and whenever a vCPU started; and the request that
    keeps them there stands. *)
Theorem pause_quiesces n s : rtc vreach (vsys_new n) s -> vs s !! 0%nat = Some VPaused -> running s = true ->
  requested s = true /\ forall j q, j <> 0%nat -> vs s !! j = Some q -> still q = true.
Proof.
  intros Hs%vcpus_reachable Hp Hr. assert (forall f, boot s f = f VPaused) as Hb by (intros f; unfold boot; by rewrite Hp). split.
  - apply (vo_asked s Hs Hr). by rewrite Hb.
  - intros j q Hj Hq. apply (co_still s j q (vo_cpus s Hs j q Hq) Hr); [|done]. by rewrite Hb.
Qed.

(** C14. A stop leaves no vCPU asleep: once the machine stopped, its releases are done
    and the plugin is not in a pause, no request stands, every parked vCPU has been
    woken, and the lock permitting its own thread takes it out of its loop in five
    steps, with one run of the guest at most. *)
Theorem stop_frees_parked n s j b : rtc vreach (vsys_new n) s -> running s = false -> stopping s = 0%nat -> releasing s = 0%nat ->
  boot s may_ask = false -> boot s (fun p => bool_decide (p = PRel2)) = false -> vs s !! j = Some (VParked b) -> locked s = false ->
  requested s = false /\ b = true /\ vs (cpu_runs 5 j s) !! j = Some VExited.
Proof.
  intros Hs%vcpus_reachable Hr _ Hrel Hask Hrel2 Hj Hl. pose proof (vo_quiet s Hs Hask) as Hq. destruct (vo_cpus s Hs j _ Hj) as [_ A2 A3 _].
  assert (b = true) as -> by (destruct b; [done|by destruct (A3 Hq Hrel Hrel2)]).
  assert (j <> 0%nat) as Hne by (intros ->; by specialize (A2 eq_refl)). assert (safe j = VGo) as Hsafe by (unfold safe; by rewrite decide_False).
  split; [done|]. split; [done|]. rewrite (cpu_runs_next 4 j s (go j VLeave (set_locked true s))) by (unfold cpu_step; rewrite Hj, Hl, Hq; done).
  set (s1 := go j VLeave (set_locked true s)). assert (vs s1 !! j = Some VLeave) as H1 by (by apply (cpu_at s j _ Hj)).
  erewrite cpu_runs_next by (unfold cpu_step; rewrite H1, Hsafe; reflexivity). set (s2 := go j VGo _). assert (vs s2 !! j = Some VGo) as H2 by (by apply (cpu_at s1 j _ H1)).
  erewrite cpu_runs_next by (unfold cpu_step; rewrite H2; reflexivity). set (s3 := go j VGuest s2). assert (vs s3 !! j = Some VGuest) as H3 by (by apply (cpu_at s2 j _ H2)).
  erewrite cpu_runs_next by (unfold cpu_step; rewrite H3; reflexivity). set (s4 := go j _ s3). assert (vs s4 !! j = Some VTop) as H4 by (by apply (cpu_at s3 j _ H3)).
  assert (running s4 = false) as Hr4 by done. erewrite cpu_runs_next by (unfold cpu_step; rewrite H4, Hr4; reflexivity). cbn [cpu_runs]. by apply (cpu_at s4 j _ H4).
Qed.

(** The failures among the reports, in order. *)
Definition failures (l : list Outcome) : list (list Z) := omap (fun o => match o with Failed t => Some t | Stopped _ => None end) l.

(** What the reports of a run leave: what is kept, and what was printed. *)
Definition reports (l : list Outcome) : option Outcome * list (list Z) :=
  foldl (fun '(k, printed) o => let '(k, p) := report k o in (k, printed ++ option_list p)) (None, []) l.

Lemma reports_from k pr l : foldl (fun '(k, printed) o => let '(k, p) := report k o in (k, printed ++ option_list p)) (k, pr) l =
  match k with
  | Some (Failed t) => (k, pr ++ failures l)
  | Some (Stopped s) => match failures l with [] => (k, pr) | t :: ts => (Some (Failed t), pr ++ ts) end
  | None => match failures l with [] => (head l, pr) | t :: ts => (Some (Failed t), pr ++ ts) end
  end.
Proof.
  revert k pr. induction l as [|o l IH]; intros k pr; cbn [foldl].
  - destruct k as [[]|]; cbn; by rewrite ?app_nil_r.
  - destruct k as [[s|t]|], o as [s'|t']; cbn [report option_list]; rewrite IH; cbn [failures omap list_omap]; rewrite ?app_nil_r, <-?app_assoc; try done; by destruct (failures l).
Qed.

(** However many threads report, and in whatever order, the run ends with the first
    failure when there is one, else with the first stop reported, else as the host
    asked or with a power-off; and every failure but the one returned is printed, in
    order, so none is lost. *)
Theorem run_outcome l requested :
  let '(kept, printed) := reports l in
  outcome kept requested =
    match failures l, l with
    | t :: _, _ => Failed t
    | [], o :: _ => o
    | [], [] => Stopped (if requested then Requested else SystemOff)
    end /\
  printed = tail (failures l).
Proof.
  unfold reports. rewrite reports_from. destruct (failures l) as [|t ts] eqn:E; [|done]. by destruct l as [|[] l].
Qed.

(** ** A pause of two vCPUs, and a stop during it *)

Module Example.
Definition plain : VChoice := mkVChoice false false false false.
Definition pausing : VChoice := mkVChoice false false false true.
Fixpoint script (l : list VEvent) (s : VSys) : option VSys := match l with [] => Some s | e :: l => s ← vcpus_step e s; script l s end.
Lemma vcpus_script_steps l s s' : script l s = Some s' -> rtc vreach s s'.
Proof.
  revert s. induction l as [|e l IH]; intros s; cbn; [by intros [= ->]|]. destruct (vcpus_step e s) as [s1|] eqn:E; [|done]. intros H%IH.
  eapply rtc_l; [by exists e|done].
Qed.

(** Both vCPUs enter the guest; the plugin asks for a pause; vCPU 1 comes back and parks. *)
Definition pause_steps : list VEvent :=
  [Cpu 0 plain; Cpu 1 plain; Cpu 0 plain; Cpu 1 plain; Cpu 1 plain; Cpu 1 plain; Cpu 0 plain; Cpu 0 pausing; Cpu 0 plain; Cpu 0 plain; Cpu 0 plain;
   Cpu 0 plain; Cpu 1 plain; Cpu 1 plain; Cpu 1 plain; Cpu 1 plain; Cpu 0 plain; Cpu 0 plain; Cpu 0 plain; Cpu 0 plain; Cpu 0 plain].
Definition paused : VSys := default (vsys_new 2) (script pause_steps (vsys_new 2)).
Lemma paused_steps : rtc vreach (vsys_new 2) paused.
Proof. apply (vcpus_script_steps pause_steps). vm_compute. reflexivity. Qed.

Lemma pause_quiesces_witness : vs paused = [VPaused; VParked false] /\ still (VParked false) = true.
Proof.
  split; [vm_compute; reflexivity|]. apply (proj2 (pause_quiesces 2 paused paused_steps eq_refl eq_refl) 1%nat); [discriminate|vm_compute; reflexivity].
Defined.

(** The machine stops while the plugin looks; the plugin then leaves. *)
Definition stop_steps : list VEvent := [StopFlag; StopRelease; StopNotify; Cpu 0 plain; Cpu 0 plain; Cpu 0 plain].
Definition stopped : VSys := default (vsys_new 2) (script stop_steps paused).
Lemma stopped_steps : rtc vreach (vsys_new 2) stopped.
Proof. etrans; [apply paused_steps|]. apply (vcpus_script_steps stop_steps). vm_compute. reflexivity. Qed.

Lemma stop_frees_parked_witness : vs stopped = [VPlugin; VParked true] /\ vs (cpu_runs 5 1 stopped) !! 1%nat = Some VExited.
Proof.
  split; [vm_compute; reflexivity|]. refine (proj2 (proj2 (stop_frees_parked 2 stopped 1 true stopped_steps _ _ _ _ _ _ _))); vm_compute; reflexivity.
Defined.
End Example.
