(* ===== verification/Guest.v ===== *)
(** * The guest a backend holds ([src/hypervisor/guest.rs])

    Where the disks go and which window an address is in, for both machines; the access
    of a device, with its sink and its ledger; the threads a plugin asks for while it
    attaches; and the time a safe point held the boot vCPU. *)

From S2P Require Import Prelude Memory Virtio Vcpus.
Local Open Scope Z_scope.

(** ** Windows *)

Definition in_window (a base size : Z) : bool := (base <=? a) && (a <? base + size).

(** [disk_at] and [export_at] over the bases of the windows: which one, and its base. *)
Definition find_window (size : Z) (bases : list Z) (a : Z) : option (nat * Z) := list_find (fun b => in_window a b size = true) bases.

(** [Disk::place]: the window of each disk; [None] is its panic. *)
Definition place (base : Z -> option Z) (disks : nat) : option (list Z) := mapM (fun i => base (Z.of_nat i)) (seq 0 disks).

(** The devices of a machine: the bases of its disks and exports, and whether it has a
    network and a socket device. *)
Record Devices := mkDevices { disk_bases : list Z; has_net : bool; has_vsock : bool; fs_bases : list Z }.

Lemma in_window_spec a b s : in_window a b s = true <-> b <= a < b + s.
Proof. unfold in_window. rewrite andb_true_iff, Z.leb_le, Z.ltb_lt. done. Qed.
Lemma in_window_out a b s : a < b \/ b + s <= a -> in_window a b s = false.
Proof. intros H. apply not_true_iff_false. rewrite in_window_spec. lia. Qed.

Lemma find_window_none size l a : (forall b, b ∈ l -> a < b \/ b + size <= a) -> find_window size l a = None.
Proof. intros Hl. apply list_find_None, Forall_forall. intros b Hb. rewrite in_window_spec. specialize (Hl b Hb). lia. Qed.

(** An address in the [i]th window and in none before it finds it. *)
Lemma find_window_nth size l i b a : l !! i = Some b -> b <= a < b + size ->
  (forall j b', (j < i)%nat -> l !! j = Some b' -> a < b' \/ b' + size <= a) -> find_window size l a = Some (i, b).
Proof.
  intros Hi Ha Hj. apply list_find_Some. split_and!; [done|by apply in_window_spec|]. intros j b' Hb' Hlt. rewrite in_window_spec. specialize (Hj j b' Hlt Hb'). lia.
Qed.

Lemma mapM_nth {A} (f : nat -> option A) n l i x : mapM f (seq 0 n) = Some l -> l !! i = Some x -> f i = Some x.
Proof.
  intros E Hx. apply mapM_Some_1 in E. destruct (Forall2_lookup_r _ _ _ _ _ E Hx) as (k & Hk & Hf). apply lookup_seq in Hk as [-> _]. done.
Qed.

Lemma place_nth base n l i b : place base n = Some l -> l !! i = Some b -> base (Z.of_nat i) = Some b.
Proof. intros E Hb. exact (mapM_nth (fun i => base (Z.of_nat i)) n l i b E Hb). Qed.

(** ** An access of a device *)

(** What leaves the device once its lock is released, in order. *)
Inductive Effect := BatchEnd (sink : Z) | ToLedger (events : list CapturedEvent).

Definition access_device {D} `{VirtioMmio D} (m : GuestRam) (d : D) (offset : Z) (is_write : bool) (value : Z) : D * GuestRam * Z * list Effect :=
  let '(d, m, r) := dev_mmio d m offset is_write value in
  let '(d, events) := dev_take_events d in
  let '(d, sink) := dev_take_fed_sink d in
  (d, m, r, (match sink with Some k => [BatchEnd k] | None => [] end) ++ [ToLedger events]).

Definition read_device {D} `{VirtioMmio D} (m : GuestRam) (d : D) (offset : Z) := access_device m d offset false 0.
Definition write_device {D} `{VirtioMmio D} (m : GuestRam) (d : D) (offset value : Z) := access_device m d offset true value.

(** ** The threads a plugin asks for *)

Record PluginThread := mkPluginThread { t_name : list Z; t_id : Z }.
Definition PluginThreads : Type := option (list PluginThread).
Definition plugin_threads_new : PluginThreads := Some [].

Inductive QueueError := NulInName | AttachOver.
Definition queue (q : PluginThreads) (t : PluginThread) : PluginThreads * option QueueError :=
  if bool_decide (0 ∈ t_name t) then (q, Some NulInName)
  else match q with Some l => (Some (l ++ [t]), None) | None => (q, Some AttachOver) end.

Definition take_threads (q : PluginThreads) : PluginThreads * list PluginThread := (None, default [] q).

(** [attach] of a plugin whose [on_attach] makes the requests [asked] and returns [ok]:
    the threads to start, or [None] when the plugin refused, which closes the ledger. *)
Definition attach (q : PluginThreads) (asked : list PluginThread) (ok : bool) : PluginThreads * option (list PluginThread) * bool :=
  let q := foldl (fun q t => (queue q t).1) q asked in
  let '(q, l) := take_threads q in
  (q, if ok then Some l else None, negb ok).

(** ** The time at a safe point *)

(** [Cpu]: when the pause in effect began, and the time of those that ended. *)
Record SafeCpu := mkSafeCpu { paused_at : option Z; paused_time : Z }.
Definition safe_cpu_new : SafeCpu := mkSafeCpu None 0.

Definition cpu_pause (c : SafeCpu) (start : Z) (paused : bool) : SafeCpu * bool :=
  (if paused && bool_decide (paused_at c = None) then mkSafeCpu (Some start) (paused_time c) else c, paused).

(** [now] is what the clock reads when the elapsed time is taken. *)
Definition cpu_resume (c : SafeCpu) (now : Z) : SafeCpu :=
  match paused_at c with Some at_ => mkSafeCpu None (paused_time c + (now - at_)) | None => c end.

(** The calls of one plugin to its handle. *)
Inductive SafeOp := SPause (start : Z) (paused : bool) | SResume (now : Z).
Definition safe_op (c : SafeCpu) (o : SafeOp) : SafeCpu :=
  match o with SPause start paused => (cpu_pause c start paused).1 | SResume now => cpu_resume c now end.
Definition op_time (o : SafeOp) : Z := match o with SPause t _ | SResume t => t end.

(** * What they show *)

(** Requests and takes, in any order. *)
Inductive QOp := QQueue (t : PluginThread) | QTake.
Record QRun := mkQRun { q_state : PluginThreads; accepted : list PluginThread; taken : list PluginThread; refused : list (PluginThread * QueueError) }.
Definition qrun0 : QRun := mkQRun plugin_threads_new [] [] [].
Definition qstep (r : QRun) (o : QOp) : QRun :=
  match o with
  | QQueue t =>
      match queue (q_state r) t with
      | (q, None) => mkQRun q (accepted r ++ [t]) (taken r) (refused r)
      | (q, Some e) => mkQRun q (accepted r) (taken r) (refused r ++ [(t, e)])
      end
  | QTake => let '(q, l) := take_threads (q_state r) in mkQRun q (accepted r) (taken r ++ l) (refused r)
  end.

Definition qrun_ok (r : QRun) : Prop :=
  match q_state r with
  | Some l => accepted r = l /\ taken r = [] /\ Forall (fun p => p.2 = NulInName) (refused r)
  | None => taken r = accepted r
  end.

Lemma qstep_ok r o : qrun_ok r -> qrun_ok (qstep r o).
Proof.
  unfold qrun_ok. destruct o as [t|]; cbn [qstep].
  - unfold queue. destruct (bool_decide _); cbn [q_state accepted taken refused].
    + destruct (q_state r); [|done]. intros (? & ? & H). split_and!; [done..|]. apply Forall_app_2; [done|by constructor].
    + destruct (q_state r) as [l|]; cbn [q_state accepted taken refused]; [|done]. by intros (-> & -> & H).
  - unfold take_threads. cbn [q_state accepted taken]. destruct (q_state r) as [l|]; cbn [default].
    + by intros (-> & -> & _).
    + intros ->. by rewrite app_nil_r.
Qed.

Lemma qstep_over r o : q_state r = None -> q_state (qstep r o) = None /\ taken (qstep r o) = taken r /\ accepted (qstep r o) = accepted r.
Proof.
  intros Hr. destruct o as [t|]; unfold qstep, queue, take_threads; rewrite Hr; [by destruct (bool_decide _)|]. cbn. by rewrite app_nil_r.
Qed.

(** A thread a plugin asks for is started once or refused. Over any requests and
    takes, the threads taken are the ones accepted, in order and once each; before the
    attach is over only a name with a NUL byte is refused; and once the queue was taken
    nothing is accepted any more, so no thread starts outside the filters. *)
Theorem plugin_threads_once ops ops' : Forall (fun o => o <> QTake) ops ->
  let before := foldl qstep qrun0 ops in let after := foldl qstep (qstep before QTake) ops' in
  taken after = accepted before /\ accepted after = accepted before /\
  accepted before = base.filter (fun t => 0 ∉ t_name t) (omap (fun o => match o with QQueue t => Some t | QTake => None end) ops) /\
  Forall (fun p => p.2 = NulInName) (refused before).
Proof.
  intros Hops. cbv zeta.
  assert (forall l r, q_state r <> None -> qrun_ok r -> Forall (fun o => o <> QTake) l -> let r' := foldl qstep r l in q_state r' <> None /\ qrun_ok r' /\
    accepted r' = accepted r ++ base.filter (fun t => 0 ∉ t_name t) (omap (fun o => match o with QQueue t => Some t | QTake => None end) l)) as H1.
  { induction l as [|o l IH]; intros r Hq Hok Hl; cbn [foldl]; [cbn; by rewrite app_nil_r|]. apply Forall_cons in Hl as [Ho Hl]. destruct o as [t|]; [|done].
    pose proof (qstep_ok r (QQueue t) Hok) as Hok'. cbn [omap list_omap]. destruct (q_state r) as [k|] eqn:Ek; [|done].
    specialize (IH (qstep r (QQueue t))). unfold qstep, queue in *. rewrite filter_cons. rewrite Ek in *.
    destruct (bool_decide_reflect (0 ∈ t_name t)) as [Hz|Hz]; cbn [q_state accepted taken refused] in *.
    - destruct IH as (A & B & C); [done..|]. rewrite decide_False by (intros H; done). split_and!; done.
    - destruct IH as (A & B & C); [done..|]. rewrite decide_True by done. split; [done|]. split; [done|]. by rewrite C, <- (assoc_L (++)). }
  assert (forall l r, q_state r = None -> let r' := foldl qstep r l in q_state r' = None /\ taken r' = taken r /\ accepted r' = accepted r) as H2.
  { induction l as [|o l IH]; intros r Hr; cbn [foldl]; [done|]. destruct (qstep_over r o Hr) as (Q & T & A). destruct (IH _ Q) as (? & -> & ->). by rewrite T, A. }
  destruct (H1 ops qrun0) as (Hq & Hok & Ha); [done|done|done|]. set (b := foldl qstep qrun0 ops) in *.
  destruct (H2 ops' (qstep b QTake)) as (_ & Ht & Hac); [done|]. rewrite Ht, Hac. unfold qrun_ok in Hok. unfold qstep, take_threads. cbn [taken accepted].
  destruct (q_state b) as [k|]; [|done]. destruct Hok as (Hk & -> & Hr). split; [by rewrite Hk|]. split; [done|]. by split.
Qed.

(** The time a safe point reports to the guest is time it took: over any calls on a
    clock that does not go back, the pauses that ended add up to no more than the time
    since the safe point began, and with the pause still open to no more than that. *)
Theorem paused_time_bounded ops : forall t0, Sorted Z.le (t0 :: (op_time <$> ops)) ->
  let c := foldl safe_op safe_cpu_new ops in let now := default t0 (last (op_time <$> ops)) in
  0 <= paused_time c /\ paused_time c + match paused_at c with Some a => now - a | None => 0 end <= now - t0.
Proof.
  intros t0 Hs. cbv zeta.
  assert (forall l c t, Sorted Z.le (t :: (op_time <$> l)) -> 0 <= paused_time c -> paused_time c + match paused_at c with Some a => t - a | None => 0 end <= t - t0 ->
    (forall a, paused_at c = Some a -> a <= t) ->
    let c' := foldl safe_op c l in let now := default t (last (op_time <$> l)) in
    0 <= paused_time c' /\ paused_time c' + match paused_at c' with Some a => now - a | None => 0 end <= now - t0) as H.
  { induction l as [|o l IH]; intros c t Hst H0 H1 H2; [done|]. cbn [fmap list_fmap] in Hst. apply Sorted_inv in Hst as [Hst Ht]. apply HdRel_inv in Ht.
    replace (default t (last (op_time <$> o :: l))) with (default (op_time o) (last (op_time <$> l))) by (cbn [fmap list_fmap]; rewrite last_cons; by destruct (last _)).
    cbn [foldl]. apply (IH (safe_op c o) (op_time o) Hst); destruct o as [s p|n]; cbn [safe_op op_time] in *; unfold cpu_pause, cpu_resume; cbn [fst];
      try (destruct p, (bool_decide_reflect (paused_at c = None)) as [E|E]; cbn [andb fst paused_at paused_time]; rewrite ?E in *);
      try (destruct (paused_at c) as [a|] eqn:Ea; cbn [paused_at paused_time]; rewrite ?Ea; try specialize (H2 _ eq_refl));
      try done; try lia; intros ? [= <-]; lia. }
  apply H; [done|done|cbn; lia|done].
Qed.

Module Example.

Definition t1 : PluginThread := mkPluginThread [100] 1.
Definition t2 : PluginThread := mkPluginThread [0] 2.
Lemma plugin_threads_once_witness : taken (foldl qstep (qstep (foldl qstep qrun0 [QQueue t1; QQueue t2]) QTake) [QQueue t1]) = [t1].
Proof.
  pose proof (plugin_threads_once [QQueue t1; QQueue t2] [QQueue t1] ltac:(by repeat constructor)) as (-> & _ & -> & _). reflexivity.
Defined.

Lemma paused_time_bounded_witness : paused_time (foldl safe_op safe_cpu_new [SPause 5 true; SPause 6 true; SResume 9]) <= 9 - 2.
Proof.
  pose proof (paused_time_bounded [SPause 5 true; SPause 6 true; SResume 9] 2 ltac:(repeat constructor; cbn; lia)) as [_ H]. cbn in H |- *. lia.
Defined.

End Example.
