(* ===== verification/Aarch64.v ===== *)
(** * The aarch64 machine ([src/arch/aarch64]: [layout.rs], [loader.rs], [esr.rs], [psci.rs], [hvf/vcpu.rs], [hvf/kick.rs])

    Where the devices, the interrupt controller and the images go in the guest's
    address space; how an exit of a vCPU is decoded and served; how the guest starts a
    secondary vCPU. Sums of addresses wrap, as they do in a release build. *)

From S2P Require Import Prelude AcpiPm Vcpus Guest.
Local Open Scope Z_scope.

Definition MAX_DISKS : Z := 4.

(** ** Windows and interrupts *)

Definition RAM_BASE : Z := 0x4000_0000.
Definition DEVICE_WINDOW_BASE : Z := 0x0800_0000.
Definition DEVICE_WINDOW_END : Z := RAM_BASE.
Definition UART_BASE : Z := 0x0c00_0000.
Definition UART_SIZE : Z := 0x1000.
Definition UART_SPI : Z := 1.
Definition RTC_BASE : Z := 0x0c00_1000.
Definition RTC_SIZE : Z := 0x1000.
Definition VIRTIO_SIZE : Z := 0x0200.
Definition VIRTIO_BASE : Z := 0x0d00_0000.
Definition VIRTIO_SPI : Z := 2.
Definition VIRTIO_NET_BASE : Z := 0x0d00_0200.
Definition VIRTIO_NET_SPI : Z := 3.
Definition VIRTIO_VSOCK_BASE : Z := 0x0d00_0400.
Definition VIRTIO_VSOCK_SPI : Z := 4.
Definition VIRTIO_BLK_EXTRA_BASE : Z := 0x0d00_0600.
Definition VIRTIO_BLK_EXTRA_SPI : Z := 5.
Definition VIRTIO_FS_BASE : Z := VIRTIO_BLK_EXTRA_BASE + (MAX_DISKS - 1) * VIRTIO_SIZE.
Definition VIRTIO_FS_SPI : Z := VIRTIO_BLK_EXTRA_SPI + MAX_DISKS - 1.
Definition GIC_NUM_IRQS : Z := 256.

Definition virtio_fs_base (index : Z) : option Z := off ← checked_mul index VIRTIO_SIZE; checked_add VIRTIO_FS_BASE off.

(** The index converts to [u32] or not, and the sum is checked. *)
Definition virtio_fs_spi (index : Z) : option Z :=
  if index <? 2 ^ 32 then if VIRTIO_FS_SPI + index <? 2 ^ 32 then Some (VIRTIO_FS_SPI + index) else None else None.

Inductive GicVersion := V3 | V2.
Record GicLayout := mkGic { version : GicVersion; gicd_base : Z; gicd_size : Z; gicr_base : Z; gicr_size : Z }.
Definition QEMU_VIRT : GicLayout := mkGic V3 0x0800_0000 0x0001_0000 0x080a_0000 0x0002_0000.
Definition QEMU_VIRT_V2 : GicLayout := mkGic V2 0x0800_0000 0x0001_0000 0x0801_0000 0x0001_0000.
Definition V2_MAX_CPUS : Z := 8.
Definition V3_MAX_CPUS : Z := (UART_BASE - gicr_base QEMU_VIRT) / gicr_size QEMU_VIRT.

Definition for_vcpus (v : GicVersion) (vcpus : Z) : option GicLayout :=
  match v with
  | V3 =>
      if V3_MAX_CPUS <? vcpus then None
      else Some (mkGic V3 (gicd_base QEMU_VIRT) (gicd_size QEMU_VIRT) (gicr_base QEMU_VIRT) (vcpus * gicr_size QEMU_VIRT))
  | V2 => if V2_MAX_CPUS <? vcpus then None else Some QEMU_VIRT_V2
  end.

Definition place_virtio_fs (index : Z) (gic : GicLayout) (num_irqs : option Z) : option (Z * Z) :=
  base ← virtio_fs_base index;
  spi ← virtio_fs_spi index;
  end_ ← checked_add base VIRTIO_SIZE;
  let gic_end := Z.min (gicr_base gic + gicr_size gic) (2 ^ 64 - 1) in
  if (base <? gic_end) || (DEVICE_WINDOW_END <? end_) then None
  else match num_irqs with
  | Some n => if n <=? 32 + spi then None else Some (base, spi)
  | None => Some (base, spi)
  end.

Definition virtio_blk_base (index : Z) : option Z :=
  if index =? 0 then Some VIRTIO_BASE
  else if index <? MAX_DISKS then Some (VIRTIO_BLK_EXTRA_BASE + (index - 1) * VIRTIO_SIZE) else None.
Definition virtio_blk_spi (index : Z) : option Z :=
  if index =? 0 then Some VIRTIO_SPI
  else if index <? MAX_DISKS then Some (VIRTIO_BLK_EXTRA_SPI + (index - 1)) else None.

(** ** vCPU numbers *)

Definition MPIDR_AFFINITY_MASK : Z := 0xff_00ff_ffff.

Definition mpidr_affinity (index : Z) : Z :=
  Z.lor (Z.lor (Z.land index 0xf) (Z.shiftl (Z.land (Z.shiftr index 4) 0xff) 8)) (Z.shiftl (Z.land (Z.shiftr index 12) 0xff) 16).

Definition vcpu_index (affinity : Z) : option Z :=
  if negb (Z.ldiff affinity 0xff_ffff =? 0) || (0xf <? Z.land affinity 0xff) then None
  else
    let aff0 := Z.land affinity 0xf in
    let aff1 := Z.land (Z.shiftr affinity 8) 0xff in
    let aff2 := Z.land (Z.shiftr affinity 16) 0xff in
    Some (Z.lor (Z.lor aff0 (Z.shiftl aff1 4)) (Z.shiftl aff2 12)).

(** ** The images *)

Definition align_up (v align : Z) : Z := Z.ldiff (add64 v (align - 1)) (align - 1).

Record GuestLayout := mkLayout {
  ram_base : Z; ram_size : Z; kernel_addr : Z; kernel_size : Z; dtb_addr : Z; dtb_size : Z; initrd_addr : Z; initrd_size : Z }.
Definition KERNEL_ALIGN : Z := 0x20_0000.

Definition layout_new (ram_size kernel_addr kernel_size dtb_size initrd_size : Z) : GuestLayout :=
  let dtb_addr := align_up (add64 kernel_addr kernel_size) KERNEL_ALIGN in
  let initrd_addr := align_up (add64 dtb_addr dtb_size) 0x1000 in
  mkLayout RAM_BASE ram_size kernel_addr kernel_size dtb_addr dtb_size initrd_addr initrd_size.

Definition initrd_end (l : GuestLayout) : Z :=
  if initrd_size l =? 0 then initrd_addr l else align_up (add64 (initrd_addr l) (initrd_size l)) 0x1000.
Definition top (l : GuestLayout) : Z := initrd_end l.
Definition validate (l : GuestLayout) : bool := negb (add64 (ram_base l) (ram_size l) <? top l).

Definition IMAGE_MAGIC : Z := 0x644d_5241.
Definition LEGACY_TEXT_OFFSET : Z := 0x8_0000.
Definition PROVISIONAL_DTB_SIZE : Z := 0x4000.

(** The fields of the 64-byte header: [text_offset] at 8, [image_size] at 16 and
    [magic] at 56. *)
Definition from_header (kernel : list Z) : option (Z * Z) :=
  if zlen kernel <? 64 then None
  else if negb (le_val (take 4 (drop 56 kernel)) =? IMAGE_MAGIC) then None
  else
    let image_size := le_val (take 8 (drop 16 kernel)) in
    let text_offset := if image_size =? 0 then LEGACY_TEXT_OFFSET else le_val (take 8 (drop 8 kernel)) in
    Some (add64 RAM_BASE text_offset, Z.max image_size (zlen kernel)).

(** [LoadedKernel::plan]: the blob is built for a provisional layout and again for
    the settled one; [build] is the devicetree writer. *)
Definition plan (build : GuestLayout -> option (list Z)) (addr size ram_size initrd_size : Z) : option (GuestLayout * list Z) :=
  dtb0 ← build (layout_new ram_size addr size PROVISIONAL_DTB_SIZE initrd_size);
  let layout := layout_new ram_size addr size (zlen dtb0) initrd_size in
  dtb ← build layout;
  if validate layout then Some (layout, dtb) else None.

(** ** Lemmas on placement *)

Lemma ldiff_ones v k : 0 <= k -> Z.ldiff v (2 ^ k - 1) = v / 2 ^ k * 2 ^ k.
Proof. intros Hk. replace (2 ^ k - 1) with (Z.ones k) by (rewrite Z.ones_equiv; lia). by rewrite Z.ldiff_ones_r, Z.shiftr_div_pow2, Z.shiftl_mul_pow2. Qed.

Lemma align_up_spec v k : 0 <= k -> 0 <= v -> v + 2 ^ k <= 2 ^ 64 ->
  v <= align_up v (2 ^ k) < v + 2 ^ k /\ align_up v (2 ^ k) mod 2 ^ k = 0.
Proof.
  intros Hk Hv Hlt. assert (0 < 2 ^ k) as Hp by lia. unfold align_up. rewrite add64_small, ldiff_ones by lia. split; [|by apply Z.mod_mul; lia].
  pose proof (Z.div_mod (v + (2 ^ k - 1)) (2 ^ k)). pose proof (Z.mod_pos_bound (v + (2 ^ k - 1)) (2 ^ k) Hp). nia.
Qed.

(** The devices of a machine: each with its window and its interrupt. *)
Record Window := mkWindow { w_base : Z; w_size : Z; w_spi : option Z }.
Definition apart (a b : Window) : Prop :=
  (w_base a + w_size a <= w_base b \/ w_base b + w_size b <= w_base a) /\ (w_spi a = None \/ w_spi b = None \/ w_spi a <> w_spi b).

Definition blk_windows : list Window :=
  omap (fun i => b ← virtio_blk_base i; s ← virtio_blk_spi i; Some (mkWindow b VIRTIO_SIZE (Some s))) (seqZ 0 MAX_DISKS).
Definition fixed_windows : list Window :=
  [mkWindow UART_BASE UART_SIZE (Some UART_SPI); mkWindow RTC_BASE RTC_SIZE None; mkWindow VIRTIO_NET_BASE VIRTIO_SIZE (Some VIRTIO_NET_SPI);
   mkWindow VIRTIO_VSOCK_BASE VIRTIO_SIZE (Some VIRTIO_VSOCK_SPI)] ++ blk_windows.

Lemma place_virtio_fs_Some i gic n b s : 0 <= i -> place_virtio_fs i gic n = Some (b, s) ->
  b = VIRTIO_FS_BASE + i * VIRTIO_SIZE /\ s = VIRTIO_FS_SPI + i /\ gicr_base gic + gicr_size gic <= b /\ b + VIRTIO_SIZE <= DEVICE_WINDOW_END /\
  (forall k, n = Some k -> 32 + s < k).
Proof.
  intros Hi. unfold place_virtio_fs, virtio_fs_base. destruct (checked_mul i VIRTIO_SIZE) as [o|] eqn:E1; [|done]. apply checked_mul_Some in E1 as [-> ?]. cbn.
  destruct (checked_add VIRTIO_FS_BASE _) as [b'|] eqn:E2; [|done]. apply checked_add_Some in E2 as [-> ?]. cbn.
  unfold virtio_fs_spi. destruct (i <? 2 ^ 32); [|done]. destruct (_ <? 2 ^ 32); [|done]. cbn.
  destruct (checked_add _ VIRTIO_SIZE) as [e|] eqn:E3; [|done]. apply checked_add_Some in E3 as [-> ?]. cbn.
  destruct (_ || _) eqn:E4; [done|]. apply orb_false_iff in E4 as [E4 E5]. apply Z.ltb_ge in E4, E5.
  destruct n as [k|]; [destruct (Z.leb_spec k (32 + (VIRTIO_FS_SPI + i))); [done|]|]; intros [= <- <-]; unfold VIRTIO_SIZE in *; (split_and!; [done|done|lia|lia|by intros ? [= <-]]).
Qed.

Lemma fixed_windows_below w : w ∈ fixed_windows -> w_base w + w_size w <= VIRTIO_FS_BASE /\ forall s, w_spi w = Some s -> s < VIRTIO_FS_SPI.
Proof.
  intros Hw. assert (forallb (fun w => (w_base w + w_size w <=? VIRTIO_FS_BASE) && match w_spi w with Some s => s <? VIRTIO_FS_SPI | None => true end) fixed_windows = true)
    as H by (vm_compute; reflexivity). rewrite forallb_forall in H. specialize (H w (proj1 (list_elem_of_In _ _) Hw)). bool_hyps. split; [done|].
  intros s Hs. rewrite Hs in *. lia.
Qed.

Lemma fixed_windows_apart i j a b : fixed_windows !! i = Some a -> fixed_windows !! j = Some b -> i <> j -> apart a b.
Proof.
  assert (forallb (fun '(i, a) => forallb (fun '(j, b) => (i =? j)%nat ||
      (((w_base a + w_size a <=? w_base b) || (w_base b + w_size b <=? w_base a)) &&
       match w_spi a, w_spi b with Some x, Some y => negb (x =? y) | _, _ => true end)) (imap pair fixed_windows)) (imap pair fixed_windows) = true)
    as H by (vm_compute; reflexivity).
  intros Ha Hb Hne. rewrite forallb_forall in H.
  assert (forall k c, fixed_windows !! k = Some c -> In (k, c) (imap pair fixed_windows)) as Hin.
  { intros k c Hc. apply list_elem_of_In, list_elem_of_lookup. exists k. by rewrite list_lookup_imap, Hc. }
  specialize (H _ (Hin _ _ Ha)). cbv beta iota in H. rewrite forallb_forall in H. specialize (H _ (Hin _ _ Hb)). cbv beta iota in H.
  apply orb_true_iff in H as [H|H]; [by apply Nat.eqb_eq in H|]. apply andb_true_iff in H as [H1 H2]. split.
  - apply orb_true_iff in H1 as [?%Z.leb_le|?%Z.leb_le]; auto.
  - destruct (w_spi a), (w_spi b); auto. right. right. intros [= ->]. by rewrite Z.eqb_refl in H2.
Qed.

(** ** vCPU numbers, as fields *)

Lemma land_ones_mod v k : 0 <= k -> Z.land v (2 ^ k - 1) = v mod 2 ^ k.
Proof. intros Hk. replace (2 ^ k - 1) with (Z.ones k) by (rewrite Z.ones_equiv; lia). by apply Z.land_ones. Qed.

Lemma mpidr_affinity_fields i : 0 <= i < 2 ^ 20 ->
  mpidr_affinity i = i mod 2 ^ 4 + (i / 2 ^ 4 mod 2 ^ 8) * 2 ^ 8 + (i / 2 ^ 12) * 2 ^ 16.
Proof.
  intros Hi. unfold mpidr_affinity. change 0xf with (2 ^ 4 - 1). change 0xff with (2 ^ 8 - 1). rewrite !land_ones_mod, !Z.shiftr_div_pow2 by lia.
  assert (i / 2 ^ 12 < 2 ^ 8) by (apply Z.div_lt_upper_bound; lia). assert (0 <= i / 2 ^ 12) by (apply Z.div_pos; lia).
  rewrite (Z.mod_small (i / 2 ^ 12)) by lia.
  pose proof (Z.mod_pos_bound i (2 ^ 4)). pose proof (Z.mod_pos_bound (i / 2 ^ 4) (2 ^ 8)).
  rewrite (Z.lor_comm (i mod 2 ^ 4)), lor_shiftl_add by lia. rewrite Z.lor_comm, lor_shiftl_add by lia. lia.
Qed.

Lemma vcpu_index_fields a i : 0 <= a -> vcpu_index a = Some i <->
  a < 2 ^ 24 /\ a mod 2 ^ 8 < 2 ^ 4 /\ i = a mod 2 ^ 4 + (a / 2 ^ 8 mod 2 ^ 8) * 2 ^ 4 + (a / 2 ^ 16 mod 2 ^ 8) * 2 ^ 12.
Proof.
  intros Ha. unfold vcpu_index. change 0xff_ffff with (2 ^ 24 - 1). rewrite ldiff_ones by lia. change 0xff with (2 ^ 8 - 1). change 0xf with (2 ^ 4 - 1).
  rewrite !land_ones_mod, !Z.shiftr_div_pow2 by lia.
  pose proof (Z.mod_pos_bound a (2 ^ 4)). pose proof (Z.mod_pos_bound (a / 2 ^ 8) (2 ^ 8)). pose proof (Z.mod_pos_bound (a / 2 ^ 16) (2 ^ 8)).
  rewrite (Z.lor_comm (a mod 2 ^ 4)), lor_shiftl_add by lia. rewrite Z.lor_comm, lor_shiftl_add by lia.
  pose proof (Z.div_mod a (2 ^ 24)). pose proof (Z.mod_pos_bound a (2 ^ 24)).
  destruct (Z.eqb_spec (a / 2 ^ 24 * 2 ^ 24) 0) as [E1|E1]; cbn [negb orb].
  - destruct (Z.ltb_spec (2 ^ 4 - 1) (a mod 2 ^ 8)) as [E2|E2].
    + split; [done|]. intros (_ & ? & _). lia.
    + split; [intros [= <-]|intros (_ & _ & ->)]; [|f_equal; lia]. split_and!; lia.
  - split; [done|]. intros (? & _ & _). rewrite Z.div_small in E1 by lia. lia.
Qed.

(** ** Exits *)

Inductive Ec := Svc | Hvc | Smc | SysReg | InstructionAbort | DataAbortEc | Brk | Other (ec : Z).

Definition ec_from_syndrome (syndrome : Z) : Ec :=
  let ec := Z.land (Z.shiftr syndrome 26) 0x3f in
  if ec =? 0x15 then Svc else if ec =? 0x16 then Hvc else if ec =? 0x17 then Smc else if ec =? 0x18 then SysReg
  else if (ec =? 0x20) || (ec =? 0x21) then InstructionAbort
  else if (ec =? 0x24) || (ec =? 0x25) then DataAbortEc
  else if ec =? 0x3c then Brk else Other ec.

Record DataAbort := mkDataAbort { width : Z; is_write : bool; da_reg : Z; isv : bool }.
Definition abort_from_syndrome (syndrome : Z) : DataAbort :=
  let iss := Z.land syndrome 0x01ff_ffff in
  mkDataAbort (Z.shiftl 1 (Z.land (Z.shiftr iss 22) 3)) (Z.land (Z.shiftr iss 6) 1 =? 1) (Z.land (Z.shiftr iss 16) 0x1f) (Z.land (Z.shiftr iss 24) 1 =? 1).

(** PSCI *)
Definition PSCI_VERSION : Z := 0x8400_0000.
Definition CPU_OFF : Z := 0x8400_0002.
Definition SYSTEM_OFF : Z := 0x8400_0008.
Definition SYSTEM_RESET : Z := 0x8400_0009.
Definition FEATURES : Z := 0x8400_000a.
Definition CPU_ON_64 : Z := 0xc400_0003.
Definition SUCCESS : Z := 0.
Definition NOT_SUPPORTED : Z := 2 ^ 64 - 1.

(** The registers of the vCPU that exited. *)
Record Cpu := mkCpu { xs : list Z; pcr : Z; vtimer_masked : bool }.
Definition read_gpr (c : Cpu) (idx : Z) : Z := if idx <? 31 then default 0 (get_at (xs c) idx) else 0.
Definition write_gpr (c : Cpu) (idx v : Z) : Cpu := if idx <? 31 then mkCpu (<[Z.to_nat idx := v]> (xs c)) (pcr c) (vtimer_masked c) else c.
Definition advance_pc (c : Cpu) : Cpu := mkCpu (xs c) (add64 (pcr c) 4) (vtimer_masked c).
Definition width_mask (w : Z) : Z := if 8 <=? w then 2 ^ 64 - 1 else Z.shiftl 1 (w * 8) - 1.

(** The mailboxes of the secondaries ([Kicker]). *)
Definition Mailboxes : Type := list (option (Z * Z)).
Definition cpu_on (k : Mailboxes) (cpu entry context : Z) : Mailboxes * bool :=
  if (cpu =? 0) || (zlen k <=? cpu) then (k, false) else (<[Z.to_nat cpu := Some (entry, context)]> k, true).

(** [wait_for_cpu_on]: [None] while it waits. *)
Definition wait_for_cpu_on (k : Mailboxes) (cpu : nat) (running : bool) : option (option (Z * Z) * Mailboxes) :=
  match k !! cpu with
  | Some None => if running then None else Some (None, k)
  | Some (Some post) => Some (Some post, <[cpu := None]> k)
  | None => None
  end.

(** [service_psci]. *)
Definition service_psci (c : Cpu) (k : Mailboxes) : Cpu * Mailboxes * option Outcome :=
  let fid := read_gpr c 0 in
  if fid =? PSCI_VERSION then (write_gpr c 0 0x1_0000, k, None)
  else if fid =? SYSTEM_OFF then (c, k, Some (Stopped SystemOff))
  else if fid =? SYSTEM_RESET then (c, k, Some (Stopped SystemReset))
  else if fid =? FEATURES then
    let q := read_gpr c 1 in
    let known := (q =? PSCI_VERSION) || (q =? SYSTEM_OFF) || (q =? SYSTEM_RESET) || (q =? FEATURES) || (q =? CPU_ON_64) in
    (write_gpr c 0 (if known then SUCCESS else NOT_SUPPORTED), k, None)
  else if fid =? CPU_ON_64 then
    let '(k, ret) :=
      match vcpu_index (read_gpr c 1) with
      | Some cpu => let '(k, ok) := cpu_on k cpu (read_gpr c 2) (read_gpr c 3) in (k, if ok then SUCCESS else NOT_SUPPORTED)
      | None => (k, NOT_SUPPORTED)
      end in
    (write_gpr c 0 ret, k, None)
  else if fid =? CPU_OFF then (write_gpr c 0 SUCCESS, k, None)
  else (write_gpr c 0 NOT_SUPPORTED, k, None).

(** The device an address belongs to. *)
Inductive Target := TUart | TRtc | TDisk (i : nat) | TNet | TVsock | TFs (i : nat).

(** The chain of windows of [handle_exit]: [Some None] is a window whose device the
    guest does not have. *)
Definition route (d : Devices) (ipa : Z) : option (option Target * Z) :=
  if in_window ipa UART_BASE UART_SIZE then Some (Some TUart, ipa - UART_BASE)
  else if in_window ipa RTC_BASE RTC_SIZE then Some (Some TRtc, ipa - RTC_BASE)
  else match find_window VIRTIO_SIZE (disk_bases d) ipa with
  | Some (i, b) => Some (Some (TDisk i), ipa - b)
  | None =>
      if in_window ipa VIRTIO_NET_BASE VIRTIO_SIZE then Some (if has_net d then Some TNet else None, ipa - VIRTIO_NET_BASE)
      else if in_window ipa VIRTIO_VSOCK_BASE VIRTIO_SIZE then Some (if has_vsock d then Some TVsock else None, ipa - VIRTIO_VSOCK_BASE)
      else match find_window VIRTIO_SIZE (fs_bases d) ipa with
      | Some (i, b) => Some (Some (TFs i), ipa - b)
      | None => None
      end
  end.

Inductive Exit := Exception (syndrome ipa : Z) | VtimerActivated | Canceled | UnknownExit.

Section Serve.
(** The devices behind the windows: an access of a device at an offset, with its
    width and its value, and what a read gives. *)
Context {B : Type} (access : Target -> Z -> Z -> bool -> Z -> B -> Z * B).

(** [service_uart], [service_rtc], [service_device] and [service_fs]: the clock
    masks its own reads. *)
Definition service (t : Target) (offset syndrome : Z) (c : Cpu) (b : B) : Cpu * B :=
  let da := abort_from_syndrome syndrome in
  if negb (isv da) then (c, b)
  else if is_write da then (c, (access t offset (width da) true (read_gpr c (da_reg da)) b).2)
  else
    let '(v, b) := access t offset (width da) false 0 b in
    (write_gpr c (da_reg da) (match t with TRtc => v | _ => Z.land v (width_mask (width da)) end), b).

Definition handle_exit (d : Devices) (e : Exit) (c : Cpu) (k : Mailboxes) (b : B) : Cpu * Mailboxes * B * option Outcome :=
  match e with
  | Exception syn ipa =>
      match ec_from_syndrome syn with
      | Hvc | Smc => let '(c, k, o) := service_psci c k in (c, k, b, o)
      | DataAbortEc =>
          match route d ipa with
          | Some (Some t, offset) => let '(c, b) := service t offset syn c b in (advance_pc c, k, b, None)
          | Some (None, _) => (advance_pc c, k, b, None)
          | None => (c, k, b, Some (Failed []))
          end
      | SysReg =>
          let iss := Z.land syn 0x1ff_ffff in
          let c := if Z.land iss 1 =? 1 then write_gpr c (Z.land (Z.shiftr iss 5) 0x1f) 0 else c in
          (advance_pc c, k, b, None)
      | Other ec => if ec =? 1 then (c, k, b, None) else (c, k, b, Some (Failed []))
      | _ => (c, k, b, Some (Failed []))
      end
  | VtimerActivated => (mkCpu (xs c) (pcr c) true, k, b, None)
  | Canceled => (c, k, b, None)
  | UnknownExit => (c, k, b, Some (Failed []))
  end.

End Serve.

(** ** Routing *)

(** The devices of a machine, placed by the layout. *)
Record laid_out (d : Devices) (nd nf : nat) (gic : GicLayout) (irqs : option Z) : Prop := {
  lo_disks : place virtio_blk_base nd = Some (disk_bases d);
  lo_fs : mapM (fun i => fst <$> place_virtio_fs (Z.of_nat i) gic irqs) (seq 0 nf) = Some (fs_bases d) }.

Lemma blk_base_range i b : virtio_blk_base (Z.of_nat i) = Some b ->
  (i = 0%nat /\ b = VIRTIO_BASE) \/ ((1 <= i <= 3)%nat /\ b = VIRTIO_BLK_EXTRA_BASE + (Z.of_nat i - 1) * VIRTIO_SIZE).
Proof.
  unfold virtio_blk_base, MAX_DISKS. destruct (Z.eqb_spec (Z.of_nat i) 0); [intros [= <-]; left; lia|].
  destruct (Z.ltb_spec (Z.of_nat i) 4); [|done]. intros [= <-]. right. lia.
Qed.

(** The layout, its numbers spelled out. *)
Ltac layout := unfold VIRTIO_FS_BASE, DEVICE_WINDOW_END in *; unfold UART_BASE, UART_SIZE, RTC_BASE, RTC_SIZE, VIRTIO_NET_BASE, VIRTIO_VSOCK_BASE, VIRTIO_BASE, VIRTIO_BLK_EXTRA_BASE, VIRTIO_SIZE,
  DEVICE_WINDOW_BASE, RAM_BASE, MAX_DISKS in *.

Section Routes.
Context d nd nf gic irqs (Hlaid : laid_out d nd nf gic irqs).

Lemma disk_base i b : disk_bases d !! i = Some b ->
  (i = 0%nat /\ b = VIRTIO_BASE) \/ ((1 <= i <= 3)%nat /\ b = VIRTIO_BLK_EXTRA_BASE + (Z.of_nat i - 1) * VIRTIO_SIZE).
Proof. intros Hb. apply blk_base_range. by apply (place_nth _ nd _ _ _ (lo_disks _ _ _ _ _ Hlaid)). Qed.

Lemma fs_base i b : fs_bases d !! i = Some b -> b = VIRTIO_FS_BASE + Z.of_nat i * VIRTIO_SIZE.
Proof.
  intros Hb. pose proof (mapM_nth _ nf _ _ _ (lo_fs _ _ _ _ _ Hlaid) Hb) as Hp. cbn beta in Hp.
  destruct (place_virtio_fs _ gic irqs) as [[b' s']|] eqn:E; [|done]. injection Hp as <-. by apply place_virtio_fs_Some in E as (? & _); [|lia].
Qed.

Lemma no_disk a : (forall i b, disk_bases d !! i = Some b -> a < b \/ b + VIRTIO_SIZE <= a) -> find_window VIRTIO_SIZE (disk_bases d) a = None.
Proof. intros H. apply find_window_none. intros b [i Hi]%list_elem_of_lookup. by eapply H. Qed.

Lemma route_disk i b o : disk_bases d !! i = Some b -> 0 <= o < VIRTIO_SIZE -> route d (b + o) = Some (Some (TDisk i), o).
Proof.
  intros Hb Ho. pose proof (disk_base i b Hb) as Hr. unfold route. rewrite (in_window_out _ UART_BASE), (in_window_out _ RTC_BASE) by (layout; lia).
  rewrite (find_window_nth _ _ i b) by (try done; try lia; intros j b' Hlt Hb'; pose proof (disk_base j b' Hb'); layout; lia). do 2 f_equal. lia.
Qed.

Lemma route_fs i b o : fs_bases d !! i = Some b -> 0 <= o < VIRTIO_SIZE -> route d (b + o) = Some (Some (TFs i), o).
Proof.
  intros Hb Ho. pose proof (fs_base i b Hb) as ->. unfold route. rewrite !in_window_out by (layout; lia).
  rewrite no_disk by (intros j b' Hb'; pose proof (disk_base j b' Hb'); layout; lia). rewrite ?in_window_out by (layout; lia).
  rewrite (find_window_nth _ _ i (VIRTIO_FS_BASE + Z.of_nat i * VIRTIO_SIZE)) by (try done; try (layout; lia); intros j b' Hlt Hb'; pose proof (fs_base j b' Hb'); layout; lia).
  do 2 f_equal. lia.
Qed.

Lemma route_fixed o : 
  (0 <= o < UART_SIZE -> route d (UART_BASE + o) = Some (Some TUart, o)) /\ (0 <= o < RTC_SIZE -> route d (RTC_BASE + o) = Some (Some TRtc, o)) /\
  (0 <= o < VIRTIO_SIZE -> route d (VIRTIO_NET_BASE + o) = Some (if has_net d then Some TNet else None, o)) /\
  (0 <= o < VIRTIO_SIZE -> route d (VIRTIO_VSOCK_BASE + o) = Some (if has_vsock d then Some TVsock else None, o)).
Proof.
  unfold route. split_and!; intros Ho.
  - rewrite (proj2 (in_window_spec _ _ _)) by lia. do 2 f_equal. lia.
  - rewrite in_window_out by (layout; lia). rewrite (proj2 (in_window_spec _ _ _)) by lia. do 2 f_equal. lia.
  - rewrite (in_window_out _ UART_BASE), (in_window_out _ RTC_BASE) by (layout; lia). rewrite no_disk by (intros j b' Hb'; pose proof (disk_base j b' Hb'); layout; lia).
    rewrite (proj2 (in_window_spec _ _ _)) by lia. do 2 f_equal. lia.
  - rewrite (in_window_out _ UART_BASE), (in_window_out _ RTC_BASE) by (layout; lia). rewrite no_disk by (intros j b' Hb'; pose proof (disk_base j b' Hb'); layout; lia).
    rewrite in_window_out by (layout; lia). rewrite (proj2 (in_window_spec _ _ _)) by lia. do 2 f_equal. lia.
Qed.

Lemma route_only a t o : route d a = Some (t, o) -> DEVICE_WINDOW_BASE <= a < DEVICE_WINDOW_END \/ exists i b, fs_bases d !! i = Some b /\ b <= a < b + VIRTIO_SIZE.
Proof.
  unfold route. destruct (in_window a UART_BASE _) eqn:E1; [apply in_window_spec in E1; layout; lia|].
  destruct (in_window a RTC_BASE _) eqn:E2; [apply in_window_spec in E2; layout; lia|].
  destruct (find_window VIRTIO_SIZE (disk_bases d) a) as [[i b]|] eqn:E3.
  { apply list_find_Some in E3 as (Hb & Hw%in_window_spec & _). pose proof (disk_base i b Hb). layout. lia. }
  destruct (in_window a VIRTIO_NET_BASE _) eqn:E4; [apply in_window_spec in E4; layout; lia|].
  destruct (in_window a VIRTIO_VSOCK_BASE _) eqn:E5; [apply in_window_spec in E5; layout; lia|].
  destruct (find_window VIRTIO_SIZE (fs_bases d) a) as [[i b]|] eqn:E6; [|done]. apply list_find_Some in E6 as (Hb & Hw%in_window_spec & _). right. by exists i, b.
Qed.

End Routes.

(** * Claims *)

(** On the machine of any vCPU count the controller can serve, the distributor,
    the redistributors or CPU interface, the UART, the clock, the disks, the network,
    the vsock and every export placed lie apart, in that order of address, all inside
    the window the guest maps as device memory; no two devices share an interrupt, and
    every export's interrupt is one the controller has. *)
Theorem aarch64_windows_apart v n gic irqs i b s : 0 < n -> for_vcpus v n = Some gic -> 0 <= i -> place_virtio_fs i gic irqs = Some (b, s) ->
  let fs := mkWindow b VIRTIO_SIZE (Some s) in
  DEVICE_WINDOW_BASE <= gicd_base gic /\ gicd_base gic + gicd_size gic <= gicr_base gic /\ gicr_base gic + gicr_size gic <= UART_BASE /\
  (forall j k x y, fixed_windows !! j = Some x -> fixed_windows !! k = Some y -> j <> k -> apart x y) /\
  (forall x, x ∈ fixed_windows -> UART_BASE <= w_base x /\ w_base x + w_size x <= DEVICE_WINDOW_END /\ apart x fs) /\
  (forall j b' s', 0 <= j -> j <> i -> place_virtio_fs j gic irqs = Some (b', s') -> apart fs (mkWindow b' VIRTIO_SIZE (Some s'))) /\
  UART_BASE <= b /\ b + VIRTIO_SIZE <= DEVICE_WINDOW_END /\ (forall k, irqs = Some k -> 32 + s < k).
Proof.
  intros Hn Hg Hi Hp. destruct (place_virtio_fs_Some _ _ _ _ _ Hi Hp) as (Eb & Es & Hb1 & Hb2 & Hk). cbv zeta.
  assert (DEVICE_WINDOW_BASE <= gicd_base gic /\ gicd_base gic + gicd_size gic <= gicr_base gic /\ gicr_base gic + gicr_size gic <= UART_BASE) as (G1 & G2 & G3).
  { destruct v; cbn in Hg.
    - destruct (Z.ltb_spec V3_MAX_CPUS n) as [|Hle]; [done|]. injection Hg as <-. cbn. change V3_MAX_CPUS with 507 in Hle. layout. lia.
    - destruct (V2_MAX_CPUS <? n); [done|]. injection Hg as <-. cbn. layout. lia. }
  split_and!; try done.
  - intros j k x y Hx Hy Hne. by eapply fixed_windows_apart.
  - intros x Hx. destruct (fixed_windows_below x Hx) as [Hx1 Hx2].
    assert (UART_BASE <= w_base x) as Hx0.
    { assert (forallb (fun w => UART_BASE <=? w_base w) fixed_windows = true) as H by (vm_compute; reflexivity). rewrite forallb_forall in H.
      by apply Z.leb_le, H, list_elem_of_In. }
    split_and!; [done|unfold VIRTIO_SIZE in *; lia|]. split; cbn; [left; unfold VIRTIO_SIZE in *; lia|]. destruct (w_spi x) as [sx|] eqn:E; [|by left].
    right. right. intros [= ->]. specialize (Hx2 _ eq_refl). lia.
  - intros j b' s' Hj Hne Hp'. destruct (place_virtio_fs_Some _ _ _ _ _ Hj Hp') as (Eb' & Es' & _). split; cbn; [unfold VIRTIO_SIZE in *; lia|].
    right. right. intros [= E]. lia.
  - layout. lia.
Qed.

Lemma aarch64_windows_apart_witness : exists gic b s, for_vcpus V3 507 = Some gic /\ place_virtio_fs 2 gic (Some GIC_NUM_IRQS) = Some (b, s) /\ UART_BASE <= b /\ 32 + s < 256.
Proof.
  assert (for_vcpus V3 507 = Some (mkGic V3 0x800_0000 0x1_0000 0x80a_0000 66453504)) as Hg by (vm_compute; reflexivity).
  assert (place_virtio_fs 2 (mkGic V3 0x800_0000 0x1_0000 0x80a_0000 66453504) (Some GIC_NUM_IRQS) = Some (0xd00_1000, 10)) as Hp by (vm_compute; reflexivity).
  destruct (aarch64_windows_apart V3 507 _ (Some GIC_NUM_IRQS) 2 0xd00_1000 10 ltac:(lia) Hg ltac:(lia) Hp) as (_ & _ & _ & _ & _ & _ & H1 & _ & H2).
  exists (mkGic V3 0x800_0000 0x1_0000 0x80a_0000 66453504), 0xd00_1000, 10. split; [exact Hg|]. split; [exact Hp|]. split; [exact H1|]. apply (H2 256). reflexivity.
Defined.

Lemma mpidr_fields_index i a : 0 <= i < 2 ^ 20 -> 0 <= a ->
  vcpu_index (mpidr_affinity i) = Some i /\ (vcpu_index a = Some i -> mpidr_affinity i = a).
Proof.
  intros Hi Ha. pose proof (mpidr_affinity_fields i Hi) as Hm.
  pose proof (Z.mod_pos_bound i (2 ^ 4)). pose proof (Z.mod_pos_bound (i / 2 ^ 4) (2 ^ 8)). pose proof (Z.div_mod i (2 ^ 4)).
  assert (i / 2 ^ 12 = i / 2 ^ 4 / 2 ^ 8) as E12 by (rewrite Z.div_div by lia; done).
  pose proof (Z.div_mod (i / 2 ^ 4) (2 ^ 8)). assert (0 <= i / 2 ^ 12 < 2 ^ 8) by (split; [apply Z.div_pos; lia|apply Z.div_lt_upper_bound; lia]).
  set (lo := i mod 2 ^ 4) in *. set (mid := i / 2 ^ 4 mod 2 ^ 8) in *. set (hi := i / 2 ^ 12) in *. split.
  - rewrite Hm. apply vcpu_index_fields; [lia|].
    assert ((lo + mid * 2 ^ 8 + hi * 2 ^ 16) mod 2 ^ 8 = lo) as -> by (replace (lo + mid * 2 ^ 8 + hi * 2 ^ 16) with (lo + (mid + hi * 2 ^ 8) * 2 ^ 8) by lia; rewrite Z.mod_add, Z.mod_small; lia).
    assert ((lo + mid * 2 ^ 8 + hi * 2 ^ 16) mod 2 ^ 4 = lo) as -> by (replace (lo + mid * 2 ^ 8 + hi * 2 ^ 16) with (lo + (mid * 2 ^ 4 + hi * 2 ^ 12) * 2 ^ 4) by lia; rewrite Z.mod_add, Z.mod_small; lia).
    assert ((lo + mid * 2 ^ 8 + hi * 2 ^ 16) / 2 ^ 8 = mid + hi * 2 ^ 8) as -> by (replace (lo + mid * 2 ^ 8 + hi * 2 ^ 16) with (lo + (mid + hi * 2 ^ 8) * 2 ^ 8) by lia; rewrite Z.div_add, Z.div_small; lia).
    assert ((lo + mid * 2 ^ 8 + hi * 2 ^ 16) / 2 ^ 16 = hi) as -> by (rewrite Z.div_add, Z.div_small; lia).
    rewrite Z.mod_add, !Z.mod_small by lia. lia.
  - intros (Hlt & Hlo & Ei)%vcpu_index_fields; [|done]. rewrite Hm. unfold lo, mid. clear Hm.
    pose proof (Z.div_mod a (2 ^ 8)). pose proof (Z.mod_pos_bound a (2 ^ 8)). pose proof (Z.div_mod (a / 2 ^ 8) (2 ^ 8)). pose proof (Z.mod_pos_bound (a / 2 ^ 8) (2 ^ 8)).
    assert (a / 2 ^ 16 = a / 2 ^ 8 / 2 ^ 8) as E16 by (rewrite Z.div_div by lia; done).
    assert (0 <= a / 2 ^ 16 < 2 ^ 8) by (split; [apply Z.div_pos; lia|apply Z.div_lt_upper_bound; lia]). rewrite (Z.mod_small (a / 2 ^ 16)) in Ei by lia.
    assert (a mod 2 ^ 4 = a mod 2 ^ 8) as E4.
    { symmetry. apply (Z.mod_unique a (2 ^ 4) (2 ^ 4 * (a / 2 ^ 8))); lia. }
    rewrite E4 in Ei. set (p := a mod 2 ^ 8) in *. set (q := a / 2 ^ 8 mod 2 ^ 8) in *. set (r := a / 2 ^ 16) in *.
    assert (i mod 2 ^ 4 = p) as -> by (rewrite Ei; replace (p + q * 2 ^ 4 + r * 2 ^ 12) with (p + (q + r * 2 ^ 8) * 2 ^ 4) by lia; rewrite Z.mod_add, Z.mod_small; lia).
    assert (i / 2 ^ 4 = q + r * 2 ^ 8) as E by (rewrite Ei; replace (p + q * 2 ^ 4 + r * 2 ^ 12) with (p + (q + r * 2 ^ 8) * 2 ^ 4) by lia; rewrite Z.div_add, Z.div_small; lia).
    rewrite E12, E, Z.mod_add, (Z.mod_small q), Z.div_add, (Z.div_small q) by lia. lia.
Qed.

(** The affinity a vCPU is given names that vCPU and no other, and an affinity
    that names a vCPU is the one it was given. *)
Theorem mpidr_roundtrip i a : 0 <= i < 2 ^ 20 -> 0 <= a ->
  vcpu_index (mpidr_affinity i) = Some i /\ (vcpu_index a = Some i -> mpidr_affinity i = a).
Proof. apply mpidr_fields_index. Qed.

Lemma mpidr_roundtrip_witness : vcpu_index (mpidr_affinity 507) = Some 507 /\ mpidr_affinity 507 = 0x1f0b.
Proof. split; [apply (proj1 (mpidr_roundtrip 507 0 ltac:(lia) ltac:(lia)))|vm_compute; reflexivity]. Defined.

(** C27. A data abort with a valid syndrome inside a device's window makes one access of
    that device, at the offset, width, direction and register the instruction named,
    zero-extends what it read, and moves past the instruction; the rest of the
    registers, the mailboxes and the run are left alone. *)
Theorem exit_reaches_device {B} (access : Target -> Z -> Z -> bool -> Z -> B -> Z * B) d nd nf gic irqs t base o syn c k b :
  laid_out d nd nf gic irqs ->
  match t with
  | TUart => base = UART_BASE /\ 0 <= o < UART_SIZE
  | TRtc => base = RTC_BASE /\ 0 <= o < RTC_SIZE
  | TDisk i => disk_bases d !! i = Some base /\ 0 <= o < VIRTIO_SIZE
  | TNet => base = VIRTIO_NET_BASE /\ 0 <= o < VIRTIO_SIZE /\ has_net d = true
  | TVsock => base = VIRTIO_VSOCK_BASE /\ 0 <= o < VIRTIO_SIZE /\ has_vsock d = true
  | TFs i => fs_bases d !! i = Some base /\ 0 <= o < VIRTIO_SIZE
  end ->
  ec_from_syndrome syn = DataAbortEc -> isv (abort_from_syndrome syn) = true ->
  let da := abort_from_syndrome syn in
  let '(v, b') := access t o (width da) (is_write da) (if is_write da then read_gpr c (da_reg da) else 0) b in
  let v := match t with TRtc => v | _ => Z.land v (width_mask (width da)) end in
  handle_exit access d (Exception syn (base + o)) c k b =
    (advance_pc (if is_write da then c else write_gpr c (da_reg da) v), k, b', None).
Proof.
  intros Hl Ht Hec Hisv. cbv zeta. assert (route d (base + o) = Some (Some t, o)) as Hr.
  { destruct (route_fixed d nd nf gic irqs Hl o) as (R1 & R2 & R3 & R4).
    destruct t as [| |i| | |i]; [destruct Ht as [-> ?]; auto|destruct Ht as [-> ?]; auto| | | |].
    - destruct Ht. by eapply route_disk.
    - destruct Ht as (-> & Ho & Hn). rewrite R3, Hn by done. done.
    - destruct Ht as (-> & Ho & Hn). rewrite R4, Hn by done. done.
    - destruct Ht. by eapply route_fs. }
  unfold handle_exit. rewrite Hec, Hr. unfold service. rewrite Hisv. cbn [negb]. destruct (is_write _).
  - destruct (access t o _ true _ b) as [v b']. done.
  - destruct (access t o _ false 0 b) as [v b']. done.
Qed.

Definition example_devices : Devices := mkDevices [VIRTIO_BASE; VIRTIO_BLK_EXTRA_BASE] true false [VIRTIO_FS_BASE; VIRTIO_FS_BASE + VIRTIO_SIZE].

(** A 4-byte load of W3 from the second export's register 0x70. *)
Lemma exit_reaches_device_witness :
  let syn := 0x24 * 2 ^ 26 + 2 ^ 24 + 2 * 2 ^ 22 + 3 * 2 ^ 16 in
  handle_exit (fun t o w wr v (b : list (Target * Z * Z)) => (2 ^ 40 + 15, b ++ [(t, o, w)])) example_devices (Exception syn (VIRTIO_FS_BASE + VIRTIO_SIZE + 0x70))
    (mkCpu (replicate 31 7) 0x1000 false) [] [] = (mkCpu (<[3%nat := 15]> (replicate 31 7)) 0x1004 false, [], [(TFs 1, 0x70, 4)], None).
Proof.
  assert (laid_out example_devices 2 2 QEMU_VIRT (Some GIC_NUM_IRQS)) as Hl by (constructor; vm_compute; reflexivity).
  etransitivity; [|vm_compute; reflexivity].
  apply (exit_reaches_device (fun t o w wr v (b : list (Target * Z * Z)) => (2 ^ 40 + 15, b ++ [(t, o, w)])) example_devices 2 2 QEMU_VIRT (Some GIC_NUM_IRQS) (TFs 1)
    (VIRTIO_FS_BASE + VIRTIO_SIZE) 0x70 (0x24 * 2 ^ 26 + 2 ^ 24 + 2 * 2 ^ 22 + 3 * 2 ^ 16) (mkCpu (replicate 31 7) 0x1000 false) [] [] Hl);
    [split; vm_compute; split; congruence || reflexivity|vm_compute; reflexivity|vm_compute; reflexivity].
Defined.

(** The images a plan places do not overlap and fit: the kernel with the memory it
    claims, the devicetree 2 MiB-aligned above it, the initramfs page-aligned above
    that, all before the end of RAM, provided the sizes do not add up past the address
    space and the devicetree's length does not depend on the addresses in it. *)
Theorem guest_images_disjoint build addr size rsz isz l dtb :
  (forall l1 l2 d1 d2, initrd_size l1 = initrd_size l2 -> build l1 = Some d1 -> build l2 = Some d2 -> zlen d1 = zlen d2) ->
  RAM_BASE <= addr -> 0 <= size -> 0 <= isz -> RAM_BASE + rsz < 2 ^ 64 -> 0 <= rsz ->
  addr + size + zlen dtb + isz + 2 ^ 22 <= 2 ^ 64 ->
  plan build addr size rsz isz = Some (l, dtb) ->
  kernel_addr l = addr /\ addr + size <= dtb_addr l /\ dtb_addr l mod KERNEL_ALIGN = 0 /\
  dtb_size l = zlen dtb /\ dtb_addr l + zlen dtb <= initrd_addr l /\ initrd_addr l mod 0x1000 = 0 /\
  initrd_addr l + isz <= initrd_end l /\ initrd_end l <= RAM_BASE + rsz.
Proof.
  intros Hlen Ha Hs Hi Hr Hr0 Hsum. unfold plan. destruct (build (layout_new _ _ _ PROVISIONAL_DTB_SIZE _)) as [d0|] eqn:E0; [|done]. cbn [mbind option_bind].
  destruct (build (layout_new _ _ _ (zlen d0) _)) as [d1|] eqn:E1; [|done]. cbn [mbind option_bind].
  assert (zlen d0 = zlen d1) as El by (refine (Hlen _ _ d0 d1 _ E0 E1); done).
  destruct (validate _) eqn:Ev; [|done]. intros [= <- <-]. unfold layout_new in *. cbn [kernel_addr dtb_addr dtb_size initrd_addr initrd_end initrd_size].
  rewrite El in *. zlen_pos. assert (0 <= RAM_BASE) by done.
  destruct (align_up_spec (addr + size) 21) as [A1 A2]; [lia|lia|lia|]. change (2 ^ 21) with KERNEL_ALIGN in *.
  rewrite add64_small in * by lia. set (da := align_up (addr + size) KERNEL_ALIGN) in *. change KERNEL_ALIGN with (2 ^ 21) in A1.
  assert (2 ^ 22 = 2 ^ 21 + 2 ^ 21) as E22 by done. assert (2 ^ 12 + 2 ^ 12 < 2 ^ 21) by done.
  rewrite (add64_small da) in * by lia.
  destruct (align_up_spec (da + zlen d1) 12) as [B1 B2]; [lia|lia|lia|]. change (2 ^ 12) with 0x1000 in *.
  set (ia := align_up (da + zlen d1) 0x1000) in *. unfold validate, top in Ev. cbn [ram_base ram_size] in Ev. rewrite add64_small in Ev by lia.
  apply negb_true_iff, Z.ltb_ge in Ev. split_and!; try done; try lia. unfold initrd_end. cbn [initrd_size initrd_addr].
  destruct (Z.eqb_spec isz 0) as [->|]; [lia|]. rewrite add64_small by lia.
  destruct (align_up_spec (ia + isz) 12) as [C1 _]; [lia|lia|change (2 ^ 12) with 0x1000; lia|]. change (2 ^ 12) with 0x1000 in C1. lia.
Qed.

(** A devicetree of 300 bytes. *)
Lemma guest_images_disjoint_witness : exists l, plan (fun _ => Some (replicate 300 0)) (RAM_BASE + 0x8_0000) 0x123_4567 0x800_0000 5000 = Some (l, replicate 300 0) /\
  dtb_addr l + 300 <= initrd_addr l.
Proof.
  assert (plan (fun _ => Some (replicate 300 0)) (RAM_BASE + 0x8_0000) 0x123_4567 0x800_0000 5000 =
    Some (layout_new 0x800_0000 (RAM_BASE + 0x8_0000) 0x123_4567 300 5000, replicate 300 0)) as Hp by (vm_compute; reflexivity).
  exists (layout_new 0x800_0000 (RAM_BASE + 0x8_0000) 0x123_4567 300 5000). split; [exact Hp|].
  refine (proj1 (proj2 (proj2 (proj2 (proj2 (guest_images_disjoint (fun _ => Some (replicate 300 0)) (RAM_BASE + 0x8_0000) 0x123_4567 0x800_0000 5000 _ _ _ _ _ _ _ _ _ Hp))))));
    try (vm_compute; congruence). intros l1 l2 d1 d2 _ H1 H2. congruence.
Defined.

Lemma gpr_write_read c i v j : length (xs c) = 31%nat -> 0 <= i < 31 -> 0 <= j -> read_gpr (write_gpr c i v) j = if j =? i then v else read_gpr c j.
Proof.
  intros Hl Hi Hj. unfold read_gpr, write_gpr. destruct (Z.ltb_spec i 31); [|lia]. cbn [xs]. destruct (Z.ltb_spec j 31); [|destruct (Z.eqb_spec j i); [lia|done]].
  unfold get_at. destruct (Z.leb_spec 0 j); [|lia]. destruct (Z.eqb_spec j i) as [->|Hne]; [rewrite list_lookup_insert_eq by lia; done|]. rewrite list_lookup_insert_ne by lia. done.
Qed.

(** CPU_ON succeeds exactly for the affinity of a secondary of the machine: it
    then leaves the entry point and the context in that secondary's mailbox, from
    which its thread takes them even if the machine stops meanwhile, and no other
    mailbox changes; any other target changes nothing and is answered NOT_SUPPORTED. *)
Theorem cpu_on_posts c k target : length (xs c) = 31%nat -> zlen k <= 2 ^ 20 -> read_gpr c 0 = CPU_ON_64 -> read_gpr c 1 = target -> 0 <= target ->
  let '(c', k', o) := service_psci c k in
  o = None /\ (forall j, 0 < j -> read_gpr c' j = read_gpr c j) /\
  (read_gpr c' 0 = SUCCESS <-> exists cpu, 0 < cpu < zlen k /\ target = mpidr_affinity cpu) /\
  (read_gpr c' 0 <> SUCCESS -> k' = k /\ read_gpr c' 0 = NOT_SUPPORTED) /\
  forall cpu, 0 < cpu < zlen k -> target = mpidr_affinity cpu ->
    (forall j, j <> Z.to_nat cpu -> k' !! j = k !! j) /\
    forall running, exists k'', wait_for_cpu_on k' (Z.to_nat cpu) running = Some (Some (read_gpr c 2, read_gpr c 3), k'').
Proof.
  intros Hl Hk Hf Ht Ht0. unfold service_psci. rewrite Hf, Ht. cbn -[vcpu_index cpu_on write_gpr read_gpr].
  assert (forall r, (forall j, 0 < j -> read_gpr (write_gpr c 0 r) j = read_gpr c j) /\ read_gpr (write_gpr c 0 r) 0 = r) as Hw.
  { intros r. split; [intros j Hj; rewrite gpr_write_read by (done || lia); destruct (Z.eqb_spec j 0); [lia|done]|by rewrite gpr_write_read by (done || lia)]. }
  assert (forall cpu, 0 < cpu < zlen k -> target = mpidr_affinity cpu -> vcpu_index target = Some cpu) as Hin
    by (intros cpu Hcpu ->; apply (proj1 (mpidr_fields_index cpu 0 ltac:(lia) ltac:(lia)))).
  destruct (vcpu_index target) as [cpu|] eqn:Ei.
  2: { destruct (Hw NOT_SUPPORTED) as [Hj H0]. rewrite H0. split_and!; try done.
       - split; [done|]. intros (cpu & Hcpu & E). by specialize (Hin cpu Hcpu E).
       - intros cpu Hcpu E. by specialize (Hin cpu Hcpu E). }
  assert (0 <= cpu) as Hc0 by (apply vcpu_index_fields in Ei as (_ & _ & ->); [|done]; pose proof (Z.mod_pos_bound target (2 ^ 4));
    pose proof (Z.mod_pos_bound (target / 2 ^ 8) (2 ^ 8)); pose proof (Z.mod_pos_bound (target / 2 ^ 16) (2 ^ 8)); lia).
  unfold cpu_on. destruct ((cpu =? 0) || (zlen k <=? cpu)) eqn:Eb.
  - destruct (Hw NOT_SUPPORTED) as [Hj H0]. rewrite H0.
    assert (forall cpu', 0 < cpu' < zlen k -> target <> mpidr_affinity cpu') as Hno.
    { intros cpu' Hcpu' E. specialize (Hin cpu' Hcpu' E). injection Hin as ->. bool_cases; lia. }
    split_and!; try done; [split; [done|]; intros (cpu' & Hcpu' & E); by destruct (Hno cpu' Hcpu')|]. intros cpu' Hcpu' E. by destruct (Hno cpu' Hcpu').
  - bool_hyps. destruct (Hw SUCCESS) as [Hj HX]. rewrite HX.
    assert (target = mpidr_affinity cpu) as Et by (symmetry; apply (proj2 (mpidr_fields_index cpu target ltac:(lia) Ht0)); done).
    split_and!; try done; [split; [|done]; intros _; exists cpu; split; [lia|done]|]. intros cpu' Hcpu' E. specialize (Hin cpu' Hcpu' E). injection Hin as <-. split.
    + intros j Hne. by apply list_lookup_insert_ne.
    + intros running. unfold wait_for_cpu_on.
      assert (<[Z.to_nat cpu := Some (read_gpr c 2, read_gpr c 3)]> k !! Z.to_nat cpu = Some (Some (read_gpr c 2, read_gpr c 3))) as Ek
        by (apply list_lookup_insert_eq; unfold zlen in *; lia).
      match goal with |- context [match ?x with _ => _ end] => change x with (<[Z.to_nat cpu := Some (read_gpr c 2, read_gpr c 3)]> k !! Z.to_nat cpu) end.
      rewrite Ek. by eexists.
Qed.

Definition psci_call (x0 x1 x2 x3 : Z) : Cpu := mkCpu ([x0; x1; x2; x3] ++ replicate 27 0) 0 false.

Lemma cpu_on_posts_witness :
  let '(c', k', _) := service_psci (psci_call CPU_ON_64 1 0x4008_0000 9) [None; None; None] in
  read_gpr c' 0 = SUCCESS /\ k' = [None; Some (0x4008_0000, 9); None].
Proof.
  pose proof (cpu_on_posts (psci_call CPU_ON_64 1 0x4008_0000 9) [None; None; None] 1 eq_refl ltac:(vm_compute; congruence) eq_refl eq_refl ltac:(lia)) as H.
  destruct (service_psci (psci_call CPU_ON_64 1 0x4008_0000 9) [None; None; None]) as [[c' k'] o] eqn:E. destruct H as (_ & _ & H & _). split.
  - apply (proj2 H). exists 1. split; [split; reflexivity|vm_compute; reflexivity].
  - vm_compute in E. injection E as _ <- _. reflexivity.
Defined.

(** CPU_OFF answers SUCCESS and lets the vCPU run on, while FEATURES answers that
    CPU_OFF is not supported: a guest that takes a vCPU down is told the call, which
    does not return when it succeeds, has returned. *)
Theorem cpu_off_returns c k : length (xs c) = 31%nat -> read_gpr c 0 = CPU_OFF ->
  service_psci c k = (write_gpr c 0 SUCCESS, k, None) /\
  forall c2, length (xs c2) = 31%nat -> read_gpr c2 0 = FEATURES -> read_gpr c2 1 = CPU_OFF -> service_psci c2 k = (write_gpr c2 0 NOT_SUPPORTED, k, None).
Proof.
  intros _ Hf. split; [unfold service_psci; by rewrite Hf|]. intros c2 _ H0 H1. unfold service_psci. by rewrite H0, H1.
Qed.

Lemma cpu_off_returns_witness : service_psci (psci_call CPU_OFF 0 0 0) [None; None] = (psci_call SUCCESS 0 0 0, [None; None], None).
Proof. etransitivity; [apply (proj1 (cpu_off_returns (psci_call CPU_OFF 0 0 0) [None; None] eq_refl eq_refl))|vm_compute; reflexivity]. Defined.

(** A header whose [image_size] makes the kernel's end wrap passes the check that
    the images fit in RAM: the devicetree and the initramfs are then planned at the
    bottom of RAM, the initramfs over the kernel itself. *)
Theorem image_size_wraps : exists kernel addr size l,
  from_header kernel = Some (addr, size) /\ plan (fun _ => Some (replicate 4096 0)) addr size 0x4000_0000 0x40_0000 = Some (l, replicate 4096 0) /\
  dtb_addr l = RAM_BASE /\ initrd_addr l < addr < initrd_addr l + initrd_size l.
Proof.
  exists (replicate 8 0 ++ le_bytes 8 0x20_0000 ++ le_bytes 8 (2 ^ 64 - 0x20_0000) ++ replicate 32 0 ++ le_bytes 4 IMAGE_MAGIC ++ replicate 4 0),
    (RAM_BASE + 0x20_0000), (2 ^ 64 - 0x20_0000), (layout_new 0x4000_0000 (RAM_BASE + 0x20_0000) (2 ^ 64 - 0x20_0000) 4096 0x40_0000).
  split; [vm_compute; reflexivity|]. split; [vm_compute; reflexivity|]. split; [vm_compute; reflexivity|]. vm_compute. split; reflexivity.
Qed.
