(* ===== verification/X86.v ===== *)
(** * The x86-64 machine ([src/arch/x86_64]: [layout.rs], [mptable.rs], [loader.rs], [kvm/boot.rs])

    Where RAM, the devices and the tables go; the MP table; and the memory map, the
    initramfs and the entry point the loader hands the kernel. The crate [linux-loader]
    is an argument that says where it put the kernel and where that ends. *)

From stdpp Require Import strings.
From S2P Require Import Prelude Memory Vcpus.
Local Open Scope Z_scope.

(** ** Addresses *)

Definition MAX_DISKS : Z := 4.
Definition RAM_BASE : Z := 0.
Definition ZERO_PAGE : Z := 0x7000.
Definition CMDLINE_ADDR : Z := 0x2_0000.
Definition CMDLINE_MAX : Z := 0x1_0000.
Definition EBDA_START : Z := 0x9_fc00.
Definition MPTABLE_ADDR : Z := EBDA_START.
Definition ACPI_ADDR : Z := 0xe_0000.
Definition PML4_ADDR : Z := 0x9000.
Definition PDPT_ADDR : Z := 0xa000.
Definition PD_ADDR : Z := 0xb000.
Definition GDT_ADDR : Z := 0xc000.
Definition HIGH_MEM_START : Z := 0x10_0000.
Definition KERNEL_ENTRY_OFF : Z := 0x200.
Definition BOOT_STACK : Z := 0x6ff0.
Definition COM1_PORT : Z := 0x3f8.
Definition COM1_GSI : Z := 4.
Definition I8042_COMMAND_PORT : Z := 0x64.
Definition ACPI_PM_PORT : Z := 0x600.
Definition SCI_GSI : Z := 23.
Definition LAPIC_ADDR : Z := 0xfee0_0000.
Definition IOAPIC_ADDR : Z := 0xfec0_0000.
Definition IOAPIC_INPUTS : Z := 24.
Definition VIRTIO_MMIO_BASE : Z := 0xd000_0000.
Definition VIRTIO_SIZE : Z := 0x200.
Definition VIRTIO_BLK_BASE : Z := VIRTIO_MMIO_BASE.
Definition VIRTIO_NET_BASE : Z := VIRTIO_MMIO_BASE + 0x200.
Definition VIRTIO_VSOCK_BASE : Z := VIRTIO_MMIO_BASE + 0x400.
Definition VIRTIO_BLK_GSI : Z := 5.
Definition VIRTIO_NET_GSI : Z := 6.
Definition VIRTIO_VSOCK_GSI : Z := 7.
Definition VIRTIO_BLK_EXTRA_BASE : Z := VIRTIO_MMIO_BASE + 0x600.
Definition VIRTIO_BLK_EXTRA_GSI : Z := 9.
Definition VIRTIO_FS_BASE : Z := VIRTIO_BLK_EXTRA_BASE + (MAX_DISKS - 1) * VIRTIO_SIZE.
Definition VIRTIO_FS_GSI : Z := VIRTIO_BLK_EXTRA_GSI + MAX_DISKS - 1.
Definition MAX_FS_DEVICES : Z := SCI_GSI - VIRTIO_FS_GSI.
Definition MMIO_GAP_START : Z := VIRTIO_MMIO_BASE.
Definition HIGH_RAM_BASE : Z := 0x1_0000_0000.
Definition MAX_VCPUS : Z := 254.

Definition virtio_blk_base (index : Z) : option Z :=
  if index =? 0 then Some VIRTIO_BLK_BASE
  else if index <? MAX_DISKS then Some (VIRTIO_BLK_EXTRA_BASE + (index - 1) * VIRTIO_SIZE) else None.
Definition virtio_blk_gsi (index : Z) : option Z :=
  if index =? 0 then Some VIRTIO_BLK_GSI
  else if index <? MAX_DISKS then Some (VIRTIO_BLK_EXTRA_GSI + index - 1) else None.
Definition virtio_fs_base (index : Z) : option Z :=
  if MAX_FS_DEVICES <=? index then None else Some (VIRTIO_FS_BASE + index * VIRTIO_SIZE).
Definition virtio_fs_gsi (index : Z) : option Z :=
  if MAX_FS_DEVICES <=? index then None else Some (VIRTIO_FS_GSI + index).

(** The regions of RAM around the hole ([boot]). *)
Definition ram_regions (mem_bytes : Z) : list RamRegion :=
  let low_bytes := Z.min mem_bytes MMIO_GAP_START in
  let high_bytes := Z.max 0 (mem_bytes - low_bytes) in
  mkRamRegion RAM_BASE low_bytes 0 :: (if 0 <? high_bytes then [mkRamRegion HIGH_RAM_BASE high_bytes low_bytes] else []).

(** The devices the DSDT describes ([mmio_devices]). *)
Record MmioDevice := mkMmioDevice { d_base : Z; d_size : Z; d_gsi : Z }.
Definition mmio_devices (disks : Z) (net vsock : bool) (exports : list (Z * Z)) : list MmioDevice :=
  omap (fun i => b ← virtio_blk_base i; g ← virtio_blk_gsi i; Some (mkMmioDevice b VIRTIO_SIZE g)) (seqZ 0 disks) ++
  (if net then [mkMmioDevice VIRTIO_NET_BASE VIRTIO_SIZE VIRTIO_NET_GSI] else []) ++
  (if vsock then [mkMmioDevice VIRTIO_VSOCK_BASE VIRTIO_SIZE VIRTIO_VSOCK_GSI] else []) ++
  ((fun '(b, g) => mkMmioDevice b VIRTIO_SIZE g) <$> exports).

(** ** The MP table ([mptable.rs]) *)

Definition APIC_VERSION : Z := 0x14.
Definition CPU_STEPPING : Z := 0x600.
Definition CPU_FEATURE_FPU_APIC : Z := 0x0201.

Definition sum_bytes (l : list Z) : Z := foldl (fun a b => u8 (a + b)) 0 l.
Definition checksum (l : list Z) : Z := u8 (255 - sum_bytes l + 1).

(** A literal of the code as bytes. *)
Definition ascii (s : string) : list Z := (fun c => Z.of_nat (Ascii.nat_of_ascii c)) <$> String.list_ascii_of_string s.

Definition processor_entry (id : Z) : list Z :=
  [0; u8 id; APIC_VERSION; Z.lor 1 (if id =? 0 then 2 else 0)] ++ le_bytes 4 CPU_STEPPING ++ le_bytes 4 CPU_FEATURE_FPU_APIC ++ replicate 8 0.
Definition bus_entry : list Z := [1; 0] ++ ascii "ISA   ".
Definition ioapic_entry (num_cpus : Z) : list Z := [2; u8 num_cpus; APIC_VERSION; 1] ++ le_bytes 4 IOAPIC_ADDR.
Definition interrupt_entry (num_cpus irq : Z) : list Z := [3; 0; 0; 0; 0; irq; u8 num_cpus; irq].

Definition mp_entries (num_cpus : Z) : list Z :=
  concat (processor_entry <$> seqZ 0 num_cpus) ++ bus_entry ++ ioapic_entry num_cpus ++ concat (interrupt_entry num_cpus <$> seqZ 0 IOAPIC_INPUTS).

(** The header with a checksum in its byte 7. *)
Definition mp_header (num_cpus cksum : Z) : list Z :=
  let base_len := u16 (44 + zlen (mp_entries num_cpus)) in
  let entry_count := u16 (num_cpus + 1 + 1 + IOAPIC_INPUTS) in
  ascii "PCMP" ++ le_bytes 2 base_len ++ [4; cksum] ++ ascii "HVI     " ++ ascii "HVI x86 vm  " ++ replicate 6 0 ++
  le_bytes 2 entry_count ++ le_bytes 4 LAPIC_ADDR ++ replicate 4 0.

Definition mp_pointer (cksum : Z) : list Z := ascii "_MP_" ++ le_bytes 4 (MPTABLE_ADDR + 16) ++ [1; 4; cksum] ++ replicate 5 0.

(** [mptable::build]; [None] is its assertion. *)
Definition mptable_build (num_cpus : Z) : option (list Z) :=
  if MAX_VCPUS <? num_cpus then None
  else
    let entries := mp_entries num_cpus in
    let cksum := checksum (mp_header num_cpus 0 ++ entries) in
    Some (mp_pointer (checksum (mp_pointer 0)) ++ mp_header num_cpus cksum ++ entries).

Definition total (l : list Z) : Z := foldr Z.add 0 l.
Lemma total_app l k : total (l ++ k) = total l + total k.
Proof. unfold total. induction l as [|x l IH]; cbn; lia. Qed.

Lemma sum_bytes_total l : sum_bytes l = u8 (total l).
Proof.
  unfold sum_bytes. assert (forall a, foldl (fun a b => u8 (a + b)) (u8 a) l = u8 (a + total l)) as H.
  { induction l as [|x l IH]; intros a; cbn [foldl total foldr]; [by rewrite Z.add_0_r|].
    replace (u8 (u8 a + x)) with (u8 (a + x)) by (unfold u8; by rewrite Zplus_mod_idemp_l). rewrite IH. f_equal. unfold total. lia. }
  apply (H 0).
Qed.

Lemma checksum_zero l k c : total k = total l + c -> c = checksum l -> u8 (total k) = 0.
Proof.
  intros -> ->. unfold checksum. rewrite sum_bytes_total. unfold u8. rewrite Zplus_mod_idemp_r. pose proof (Z.div_mod (total l) (2 ^ 8)).
  replace (total l + (255 - total l mod 2 ^ 8 + 1)) with ((total l / 2 ^ 8 + 1) * 2 ^ 8) by lia. apply Z.mod_mul. lia.
Qed.

Lemma length_concat_const {A} (ls : list (list A)) n : (forall l, l ∈ ls -> length l = n) -> length (concat ls) = (length ls * n)%nat.
Proof.
  induction ls as [|l ls IH]; intros H; [done|]. cbn [concat length]. rewrite length_app, IH by (intros k Hk; apply H; by right). rewrite (H l) by by left. lia.
Qed.

Lemma length_mp_entries n : 0 <= n -> zlen (mp_entries n) = 20 * n + 208.
Proof.
  intros Hn. unfold mp_entries, zlen. rewrite !length_app. rewrite (length_concat_const _ 20), (length_concat_const _ 8).
  - rewrite !length_fmap, !length_seqZ. change (length bus_entry) with 8%nat. change (length (ioapic_entry n)) with 8%nat. unfold IOAPIC_INPUTS. lia.
  - intros l (i & -> & _)%list_elem_of_fmap. done.
  - intros l (i & -> & _)%list_elem_of_fmap. unfold processor_entry. rewrite !length_app, !length_le_bytes, length_replicate. done.
Qed.

Lemma length_mp_header n c : length (mp_header n c) = 44%nat.
Proof. unfold mp_header. rewrite !length_app, !length_le_bytes, !length_replicate. done. Qed.

Lemma mp_header_total n c : total (mp_header n c) = total (mp_header n 0) + c.
Proof. unfold mp_header. rewrite !total_app. cbn [total foldr]. unfold total. cbn [foldr]. lia. Qed.
Lemma mp_pointer_total c : total (mp_pointer c) = total (mp_pointer 0) + c.
Proof. unfold mp_pointer. rewrite !total_app. unfold total. cbn [foldr]. lia. Qed.

Lemma checksum_byte l : 0 <= checksum l < 2 ^ 8.
Proof. apply u8_range. Qed.

Lemma ascii_ok s : bytes_ok (ascii s).
Proof.
  apply Forall_fmap, Forall_true. intros c. unfold compose. pose proof (Ascii.nat_ascii_bounded c). split; [lia|].
  change (2 ^ 8) with 256. lia.
Qed.

Lemma bytes_ok_concat l k : bytes_ok l -> bytes_ok k -> bytes_ok (l ++ k).
Proof. apply Forall_app_2. Qed.

Lemma mp_entries_ok n : bytes_ok (mp_entries n).
Proof.
  assert (forall id : Z, bytes_ok (processor_entry id)) as Hp.
  { intros id. unfold processor_entry. apply bytes_ok_concat; [|apply bytes_ok_concat; [apply le_bytes_ok|apply bytes_ok_concat; [apply le_bytes_ok|]]].
    - unfold bytes_ok. rewrite !Forall_cons, Forall_nil. split_and!; try apply u8_range; try (cbv; split; congruence). destruct (id =? 0); cbv; split; congruence.
    - apply Forall_replicate. cbv; split; congruence. }
  assert (forall id i, 0 <= i < 24 -> bytes_ok (interrupt_entry id i)) as Hi.
  { intros id i Hi. unfold bytes_ok, interrupt_entry. rewrite !Forall_cons, Forall_nil. unfold byte_ok. split_and!; try apply u8_range; lia. }
  unfold mp_entries. apply bytes_ok_concat; [|apply bytes_ok_concat; [|apply bytes_ok_concat]].
  - apply Forall_concat, Forall_fmap, Forall_true. intros x. apply Hp.
  - unfold bus_entry. apply bytes_ok_concat; [unfold bytes_ok; rewrite !Forall_cons, Forall_nil; cbv; intuition congruence|apply ascii_ok].
  - unfold ioapic_entry. apply bytes_ok_concat; [|apply le_bytes_ok]. unfold bytes_ok. rewrite !Forall_cons, Forall_nil. split_and!; try apply u8_range; cbv; intuition congruence.
  - apply Forall_concat, Forall_fmap, Forall_forall. intros i Hel%elem_of_seqZ. apply Hi. unfold IOAPIC_INPUTS in Hel. lia.
Qed.

(** ** The loader ([loader.rs]) *)

Inductive KernelFormat := BzImage | Vmlinux.
Definition ELFMAG : list Z := 127 :: ascii "ELF".
Definition detect (kernel : list Z) : KernelFormat := if bool_decide (take 4 kernel = ELFMAG) then Vmlinux else BzImage.

Record E820Entry := mkE820 { e_addr : Z; e_size : Z }.
Definition E820_MAX : Z := 128.

Definition add_e820 (t : list E820Entry) (addr size : Z) : option (list E820Entry) :=
  if zlen t =? E820_MAX then None else Some (t ++ [mkE820 addr size]).

Fixpoint e820_loop (low_end : Z) (regions : list (Z * Z)) (t : list E820Entry) : option (list E820Entry) :=
  match regions with
  | [] => Some t
  | (start, len) :: regions =>
      t ← (if start =? RAM_BASE then
             t ← add_e820 t RAM_BASE (Z.min EBDA_START low_end);
             if HIGH_MEM_START <? low_end then add_e820 t HIGH_MEM_START (low_end - HIGH_MEM_START) else Some t
           else add_e820 t start len);
      e820_loop low_end regions t
  end.

(** What [linux-loader] returns: where it put the kernel, its end, and the header of a
    bzImage with its boot flag and the room it decompresses into. *)
Record Loaded := mkLoaded { kernel_load : Z; kernel_end : Z; setup_header : option (Z * Z) }.
Definition BOOT_FLAG : Z := 0xaa55.

Inductive LoadError := NoLowRegion | NotLoaded | BadSignature | CmdlineTooLong | E820Full | InitrdNoRoom | InitrdTooHigh | InitrdTooLong | BootParams.

Record LoadedKernel := mkLoadedKernel { l_format : KernelFormat; zero_page_addr : Z; l_initrd : option Z; entry : Z; e820_table : list E820Entry }.

Definition place_initrd (low_end initrd_len kend kload init_size : Z) : Z + LoadError :=
  let kernel_room := Z.max kend (kload + init_size) in
  let addr := Z.ldiff (Z.max 0 (low_end - initrd_len)) 0x1f_ffff in
  if addr <? kernel_room then inr InitrdNoRoom
  else if 2 ^ 32 <=? addr then inr InitrdTooHigh
  else if 2 ^ 32 <=? initrd_len then inr InitrdTooLong
  else inl addr.

(** [LoadedKernel::load] over the regions of guest memory; [loader] is the crate's,
    [cmdline_ok] whether the command line fits, [params_ok] whether the zero page
    could be written. *)
Definition load (loader : KernelFormat -> option Loaded) (cmdline_ok params_ok : bool) (regions : list (Z * Z)) (kernel : list Z) (initrd_len : Z) :
    LoadedKernel + LoadError :=
  match list_find (fun '(start, len) => start <= RAM_BASE < start + len) regions with
  | None => inr NoLowRegion
  | Some (_, (_, low_end)) =>
      let format := detect kernel in
      match loader format with
      | None => inr NotLoaded
      | Some k =>
          if match format, setup_header k with BzImage, Some (flag, _) => negb (flag =? BOOT_FLAG) | _, _ => false end then inr BadSignature
          else if negb cmdline_ok then inr CmdlineTooLong
          else match e820_loop low_end regions [] with
          | None => inr E820Full
          | Some table =>
              let init_size := match setup_header k with Some (_, n) => n | None => 0 end in
              match (if 0 <? initrd_len then match place_initrd low_end initrd_len (kernel_end k) (kernel_load k) init_size with inl a => inl (Some a) | inr e => inr e end
                     else inl None) with
              | inr e => inr e
              | inl initrd =>
                  if negb params_ok then inr BootParams
                  else inl (mkLoadedKernel format ZERO_PAGE initrd
                              (match format with BzImage => kernel_load k + KERNEL_ENTRY_OFF | Vmlinux => kernel_load k end) table)
              end
          end
      end
  end.

Definition pair_of (r : RamRegion) : Z * Z := (gpa r, rsize r).
Definition in_e820 (t : list E820Entry) (a : Z) : Prop := exists e, e ∈ t /\ e_addr e <= a < e_addr e + e_size e.
Definition in_ram (mem a : Z) : Prop := exists r, r ∈ ram_regions mem /\ gpa r <= a < gpa r + rsize r.

Lemma in_e820_cons e t a : in_e820 (e :: t) a <-> e_addr e <= a < e_addr e + e_size e \/ in_e820 t a.
Proof.
  unfold in_e820. split.
  - intros (x & [->|Hx]%elem_of_cons & Ha); [by left|right; by exists x].
  - intros [Ha|(x & Hx & Ha)]; [exists e; by split; [left|]|exists x; by split; [right|]].
Qed.
Lemma in_e820_nil a : ~ in_e820 [] a.
Proof. by intros (x & ?%elem_of_nil & _). Qed.

Lemma in_ram_spec mem a : 0 < mem -> in_ram mem a <-> 0 <= a < Z.min mem MMIO_GAP_START \/ HIGH_RAM_BASE <= a < HIGH_RAM_BASE + (mem - MMIO_GAP_START).
Proof.
  intros Hm. unfold in_ram, ram_regions. destruct (Z.ltb_spec 0 (Z.max 0 (mem - Z.min mem MMIO_GAP_START))) as [Hh|Hh]; split.
  - intros (r & [->|[->|[]%elem_of_nil]%elem_of_cons]%elem_of_cons & Ha); cbn in Ha; unfold RAM_BASE in *; lia.
  - intros [Ha|Ha]; eexists; [split; [by left|]|split; [right; by left|]]; cbn; unfold RAM_BASE in *; lia.
  - intros (r & [->|[]%elem_of_nil]%elem_of_cons & Ha); cbn in Ha; unfold RAM_BASE in *; lia.
  - intros [Ha|Ha]; [|lia]. eexists. split; [by left|cbn; unfold RAM_BASE; lia].
Qed.

Lemma add_e820_some t a n : zlen t < E820_MAX -> add_e820 t a n = Some (t ++ [mkE820 a n]).
Proof. intros H. unfold add_e820. by rewrite (proj2 (Z.eqb_neq _ _)) by lia. Qed.

(** The entries of one region, low RAM split around the EBDA. *)
Definition region_e820 (low_end : Z) (r : Z * Z) : list E820Entry :=
  if r.1 =? RAM_BASE then mkE820 RAM_BASE (Z.min EBDA_START low_end) :: (if HIGH_MEM_START <? low_end then [mkE820 HIGH_MEM_START (low_end - HIGH_MEM_START)] else [])
  else [mkE820 r.1 r.2].

Lemma e820_loop_concat low_end regions : forall t, zlen t + 2 * zlen regions < E820_MAX ->
  e820_loop low_end regions t = Some (t ++ concat (region_e820 low_end <$> regions)).
Proof.
  induction regions as [|[start len] regions IH]; intros t Ht; cbn [e820_loop fmap list_fmap concat]; [by rewrite app_nil_r|].
  unfold zlen in *. cbn [length] in Ht. unfold region_e820 at 1. cbn [fst snd].
  destruct (start =? RAM_BASE); [rewrite add_e820_some by (unfold zlen; lia); cbn [mbind option_bind]; destruct (HIGH_MEM_START <? low_end)|];
    rewrite ?add_e820_some by (unfold zlen; rewrite ?length_app; cbn; lia); cbn [mbind option_bind]; rewrite IH by (rewrite ?length_app; cbn; lia);
    by rewrite <- ?(assoc_L (++)).
Qed.

(** The memory map of the two regions. *)
Lemma e820_regions mem : 0 < mem -> exists t, e820_loop (Z.min mem MMIO_GAP_START) (pair_of <$> ram_regions mem) [] = Some t /\ zlen t <= 3 /\
  forall a, in_e820 t a <-> in_ram mem a /\ ~ (EBDA_START <= a < HIGH_MEM_START).
Proof.
  intros Hm. assert (HIGH_MEM_START < MMIO_GAP_START < HIGH_RAM_BASE /\ 0 < EBDA_START < HIGH_MEM_START) as Hc by (cbv; intuition congruence).
  assert (forall a, in_ram mem a <-> 0 <= a < Z.min mem MMIO_GAP_START \/ HIGH_RAM_BASE <= a < HIGH_RAM_BASE + (mem - MMIO_GAP_START)) as Hr by (intros; by apply in_ram_spec).
  rewrite e820_loop_concat by (unfold ram_regions; destruct (0 <? _); vm_compute; congruence).
  eexists. split; [reflexivity|]. unfold ram_regions. cbn [app fmap list_fmap].
  destruct (Z.ltb_spec 0 (Z.max 0 (mem - Z.min mem MMIO_GAP_START))) as [Hh|Hh]; cbn [fmap list_fmap concat]; unfold region_e820, pair_of; cbn [fst snd gpa rsize];
    change (RAM_BASE =? RAM_BASE) with true; try change (HIGH_RAM_BASE =? RAM_BASE) with false; cbn [app];
    destruct (Z.ltb_spec HIGH_MEM_START (Z.min mem MMIO_GAP_START)); cbn [app]; (split; [unfold zlen; cbn; lia|]);
    intros a; rewrite !in_e820_cons, Hr; cbn [e_addr e_size]; (assert (in_e820 [] a <-> False) as -> by (split; [apply in_e820_nil|done]));
    unfold RAM_BASE in *; clear Hr; lia.
Qed.

(** ** The tables and the load *)

(** The little-endian field of [n] bytes at [off]. *)
Definition le_field (l : list Z) (off n : nat) : Z := le_val (take n (drop off l)).

Lemma bytes_ok_header n c : byte_ok c -> bytes_ok (mp_header n c).
Proof.
  intros Hc. unfold mp_header. repeat apply bytes_ok_concat; try apply le_bytes_ok; try apply ascii_ok; try (apply Forall_replicate; done).
  unfold bytes_ok. rewrite !Forall_cons, Forall_nil. split_and!; done.
Qed.
Lemma bytes_ok_pointer c : byte_ok c -> bytes_ok (mp_pointer c).
Proof.
  intros Hc. unfold mp_pointer. repeat apply bytes_ok_concat; try apply le_bytes_ok; try apply ascii_ok; try (apply Forall_replicate; done).
  unfold bytes_ok. rewrite !Forall_cons, Forall_nil. split_and!; done.
Qed.

Lemma take_drop_field (a b c : list Z) off n : length a = off -> length b = n -> take n (drop off (a ++ b ++ c)) = b.
Proof. intros <- <-. by rewrite drop_app_length, take_app_length. Qed.

Lemma mp_header_fields n c : 0 <= n <= MAX_VCPUS ->
  le_field (mp_header n c) 4 2 = 44 + zlen (mp_entries n) /\ le_field (mp_header n c) 34 2 = n + 26 /\ le_field (mp_header n c) 36 4 = LAPIC_ADDR.
Proof.
  intros Hn. unfold MAX_VCPUS in Hn. assert (2 ^ (8 * Z.of_nat 2) = 65536) as H16 by done.
  unfold le_field, mp_header. cbv zeta. split_and!.
  - rewrite (take_drop_field (ascii "PCMP") (le_bytes 2 _)) by done. rewrite le_val_le_bytes; rewrite length_mp_entries by lia; unfold u16; rewrite ?Z.mod_small; lia.
  - rewrite 5!(assoc_L (++)), (take_drop_field _ (le_bytes 2 _)) by (rewrite ?length_app, ?length_le_bytes; done).
    rewrite le_val_le_bytes; unfold u16, IOAPIC_INPUTS; rewrite ?Z.mod_small; lia.
  - rewrite 6!(assoc_L (++)), (take_drop_field _ (le_bytes 4 _)) by (rewrite ?length_app, ?length_le_bytes; done). by rewrite le_val_le_bytes.
Qed.

Lemma get_at_app_r {A} (l k : list A) i : zlen l <= i -> get_at (l ++ k) i = get_at k (i - zlen l).
Proof.
  intros Hi. unfold get_at, zlen in *. rewrite !(proj2 (Z.leb_le 0 _)) by lia. rewrite lookup_app_r by lia. f_equal. lia.
Qed.

Lemma get_at_second {A} (a b : A) l : get_at (a :: b :: l) 1 = Some b.
Proof. done. Qed.

Lemma length_processors n : 0 <= n -> length (concat (processor_entry <$> seqZ 0 n)) = Z.to_nat (20 * n).
Proof.
  intros Hn. rewrite (length_concat_const _ 20), length_fmap, length_seqZ; [lia|]. intros l (j & -> & _)%list_elem_of_fmap. unfold processor_entry.
  rewrite !length_app, !length_le_bytes, length_replicate. done.
Qed.

Lemma mp_entries_processor n i : 0 <= i < n -> n <= MAX_VCPUS -> get_at (mp_entries n) (20 * i + 1) = Some i.
Proof.
  intros Hi Hn. unfold mp_entries. replace n with (i + (n - i)) at 1 by lia. rewrite seqZ_app by lia.
  rewrite fmap_app, concat_app, <- (assoc_L (++)). rewrite (seqZ_cons _ (n - i)) by lia. cbn [fmap list_fmap concat].
  pose proof (length_processors i ltac:(lia)) as Hl.
  rewrite get_at_app_r by (unfold zlen; lia). replace (20 * i + 1 - zlen _) with 1 by (unfold zlen; lia).
  unfold processor_entry. cbn [app]. rewrite get_at_second. f_equal. unfold u8, MAX_VCPUS in *. rewrite Z.add_0_l. apply Z.mod_small. change (2 ^ 8) with 256. lia.
Qed.

Lemma mp_entries_ioapic n : 0 <= n <= MAX_VCPUS -> get_at (mp_entries n) (20 * n + 9) = Some n.
Proof.
  intros Hn. unfold mp_entries.
  pose proof (length_processors n ltac:(lia)) as Hl.
  rewrite get_at_app_r by (unfold zlen; lia). replace (20 * n + 9 - zlen _) with 9 by (unfold zlen; lia).
  rewrite get_at_app_r by done. change (9 - zlen bus_entry) with 1.
  unfold ioapic_entry. cbn [app]. rewrite get_at_second. f_equal. unfold u8, MAX_VCPUS in *. apply Z.mod_small. change (2 ^ 8) with 256. lia.
Qed.

(** The size of the table and its bytes. *)
Lemma mptable_size n t : 0 <= n -> mptable_build n = Some t -> bytes_ok t /\ MPTABLE_ADDR + zlen t <= ACPI_ADDR.
Proof.
  intros Hn. unfold mptable_build. destruct (Z.ltb_spec MAX_VCPUS n); [done|]. intros Ht. apply (inj Some) in Ht as <-.
  pose proof (length_mp_entries n Hn) as He. pose proof (length_mp_header n (checksum (mp_header n 0 ++ mp_entries n))) as Hh. split.
  - apply bytes_ok_concat; [apply bytes_ok_pointer, checksum_byte|apply bytes_ok_concat; [apply bytes_ok_header, checksum_byte|apply mp_entries_ok]].
  - unfold zlen in *. rewrite !length_app, Hh. change (length (mp_pointer _)) with 16%nat. unfold MPTABLE_ADDR, EBDA_START, ACPI_ADDR, MAX_VCPUS in *. lia.
Qed.

(** For up to 254 vCPUs the MP table is built, and it is one a guest accepts: the
    floating pointer sums to zero and points at the configuration table 16 bytes on,
    the configuration table sums to zero over the length its header gives, the header
    counts one processor entry per vCPU, the bus, the IOAPIC and 24 interrupt entries,
    the IOAPIC's id is none of the processors', and the table ends below the ACPI
    tables. *)
Theorem mptable_wellformed n : 0 <= n <= MAX_VCPUS -> exists p h e, mptable_build n = Some (p ++ h ++ e) /\
  length p = 16%nat /\ u8 (total p) = 0 /\ le_field p 4 4 = MPTABLE_ADDR + zlen p /\
  u8 (total (h ++ e)) = 0 /\ le_field h 4 2 = zlen (h ++ e) /\
  le_field h 34 2 = n + 26 /\ zlen e = 20 * n + 8 * 26 /\
  (forall i, 0 <= i < n -> get_at e (20 * i + 1) = Some i) /\ get_at e (20 * n + 9) = Some n /\ n < 255 /\
  bytes_ok (p ++ h ++ e) /\ MPTABLE_ADDR + zlen (p ++ h ++ e) <= ACPI_ADDR.
Proof.
  intros Hn. pose proof (mp_header_fields n (checksum (mp_header n 0 ++ mp_entries n)) Hn) as (Hl & Hc & _). pose proof (length_mp_entries n ltac:(lia)) as He.
  eexists (mp_pointer _), (mp_header n _), (mp_entries n). unfold mptable_build. rewrite (proj2 (Z.ltb_ge MAX_VCPUS n)) by lia. split; [reflexivity|].
  assert (zlen (mp_header n (checksum (mp_header n 0 ++ mp_entries n)) ++ mp_entries n) = 44 + zlen (mp_entries n)) as Hlen
    by (unfold zlen; rewrite length_app, length_mp_header; lia).
  split_and!; [done| |done| | | | | | | | |].
  - eapply checksum_zero; [apply mp_pointer_total|done].
  - eapply (checksum_zero (mp_header n 0 ++ mp_entries n)); [|reflexivity]. rewrite !total_app, mp_header_total. lia.
  - by rewrite Hlen.
  - done.
  - lia.
  - intros i Hi. apply mp_entries_processor; lia.
  - apply mp_entries_ioapic; lia.
  - unfold MAX_VCPUS in Hn; lia.
  - apply (mptable_size n); [lia|]. unfold mptable_build. by rewrite (proj2 (Z.ltb_ge MAX_VCPUS n)) by lia.
  - apply (mptable_size n); [lia|]. unfold mptable_build. by rewrite (proj2 (Z.ltb_ge MAX_VCPUS n)) by lia.
Qed.

Lemma find_low mem : 0 < mem ->
  list_find (fun '(start, len) => start <= RAM_BASE < start + len) (pair_of <$> ram_regions mem) = Some (0%nat, (RAM_BASE, Z.min mem MMIO_GAP_START)).
Proof.
  intros Hm. unfold ram_regions. cbn [fmap list_fmap pair_of gpa rsize list_find].
  destruct (decide _) as [_|H]; [done|]. exfalso. apply H. cbn. unfold RAM_BASE, MMIO_GAP_START, VIRTIO_MMIO_BASE. lia.
Qed.

Lemma place_initrd_inl low_end n kend kload isize a : 0 < n -> place_initrd low_end n kend kload isize = inl a ->
  a mod 2 ^ 21 = 0 /\ Z.max kend (kload + isize) <= a < 2 ^ 32 /\ n < 2 ^ 32 /\ (0 < a -> a + n <= low_end).
Proof.
  intros Hn. unfold place_initrd. destruct (Z.ltb_spec (Z.ldiff (Z.max 0 (low_end - n)) 0x1f_ffff) (Z.max kend (kload + isize))) as [|Hr]; [done|].
  destruct (Z.leb_spec (2 ^ 32) (Z.ldiff (Z.max 0 (low_end - n)) 0x1f_ffff)); [done|]. destruct (Z.leb_spec (2 ^ 32) n); [done|]. intros [= <-].
  change 0x1f_ffff with (Z.ones 21) in *. rewrite Z.ldiff_ones_r, Z.shiftl_mul_pow2, Z.shiftr_div_pow2 in * by lia.
  split; [apply Z.mod_mul; lia|]. split; [lia|]. split; [lia|]. intros Ha. pose proof (Z.mul_div_le (Z.max 0 (low_end - n)) (2 ^ 21) ltac:(lia)).
  destruct (Z.max_spec 0 (low_end - n)) as [[? E]|[? E]]; rewrite E in *; [lia|]. change (0 / 2 ^ 21) with 0 in *. lia.
Qed.

(** C26. What the loader hands the guest. The e820 map is the guest's RAM exactly, less
    the bytes from the EBDA to 1 MiB, so the MP table, the ACPI tables and the device
    hole are never taken for RAM; and the initramfs is 2 MiB-aligned below 4 GiB, above
    the end of the kernel and the room it unpacks into, and inside low RAM the map
    lists. The map is never full, and low RAM is always found. *)
Theorem load_places loader cmdline_ok params_ok mem kernel initrd_len : 0 < mem -> 0 <= initrd_len ->
  (forall f k, loader f = Some k -> HIGH_MEM_START <= kernel_end k) ->
  match load loader cmdline_ok params_ok (pair_of <$> ram_regions mem) kernel initrd_len with
  | inl l =>
      (forall a, in_e820 (e820_table l) a <-> in_ram mem a /\ ~ (EBDA_START <= a < HIGH_MEM_START)) /\
      match l_initrd l with
      | None => initrd_len = 0
      | Some a => exists k, loader (detect kernel) = Some k /\ a mod 2 ^ 21 = 0 /\ kernel_end k <= a /\ kernel_load k + default 0 (snd <$> setup_header k) <= a /\
          a + initrd_len <= MMIO_GAP_START /\ (forall b, a <= b < a + initrd_len -> in_e820 (e820_table l) b)
      end
  | inr e => e <> E820Full /\ e <> NoLowRegion
  end.
Proof.
  intros Hm Hi Hk. unfold load. rewrite find_low by done.
  destruct (loader (detect kernel)) as [k|] eqn:El; [|done]. destruct (match detect kernel with BzImage => _ | Vmlinux => _ end); [done|].
  destruct cmdline_ok; [|done]. destruct (e820_regions mem Hm) as (t & -> & _ & Ht). cbn [negb].
  replace (match setup_header k with Some (_, n) => n | None => 0 end) with (default 0 (snd <$> setup_header k)) by (destruct (setup_header k) as [[]|]; done).
  destruct (Z.ltb_spec 0 initrd_len) as [Hl|Hl]; [|destruct params_ok; [cbn; split; [done|lia]|done]].
  destruct (place_initrd _ _ _ _ _) as [a|e] eqn:Ep; [|by (unfold place_initrd in Ep; repeat case_match; simplify_eq)].
  destruct params_ok; [|done]. cbn [e820_table l_initrd]. split; [done|]. pose proof (Hk _ _ El).
  destruct (place_initrd_inl _ _ _ _ _ _ Hl Ep) as (Hal & Hroom & _ & Hfit). assert (0 < HIGH_MEM_START) by done.
  exists k. split_and!; try done; try lia. intros b Hb. apply Ht. rewrite in_ram_spec by done. lia.
Qed.

(** Every window a device can have, and its line. *)
Definition windows : list (Z * Z) :=
  [(VIRTIO_NET_BASE, VIRTIO_NET_GSI); (VIRTIO_VSOCK_BASE, VIRTIO_VSOCK_GSI)] ++
  omap (fun i => b ← virtio_blk_base i; g ← virtio_blk_gsi i; Some (b, g)) (seqZ 0 MAX_DISKS) ++
  omap (fun i => b ← virtio_fs_base i; g ← virtio_fs_gsi i; Some (b, g)) (seqZ 0 MAX_FS_DEVICES).

(** The windows and lines of the network, the socket, the four disks and the eleven
    exports never meet: each window lies in the hole below the IOAPIC, two windows share
    no byte, and each line is an IOAPIC input of its own, apart from the console's, the
    real-time clock's and the system control interrupt's. *)
Theorem x86_windows_apart i j w v : windows !! i = Some w -> windows !! j = Some v ->
  MMIO_GAP_START <= w.1 /\ w.1 + VIRTIO_SIZE <= IOAPIC_ADDR /\ w.2 < IOAPIC_INPUTS /\ w.2 <> COM1_GSI /\ w.2 <> 8 /\ w.2 <> SCI_GSI /\
  (i <> j -> (w.1 + VIRTIO_SIZE <= v.1 \/ v.1 + VIRTIO_SIZE <= w.1) /\ w.2 <> v.2).
Proof.
  pose (ok := fun '((i, w), (j, v)) => (MMIO_GAP_START <=? w.1) && (w.1 + VIRTIO_SIZE <=? IOAPIC_ADDR) && (w.2 <? IOAPIC_INPUTS) && negb (w.2 =? COM1_GSI) && negb (w.2 =? 8) &&
    negb (w.2 =? SCI_GSI) && (bool_decide (i = j :> nat) || ((w.1 + VIRTIO_SIZE <=? v.1) || (v.1 + VIRTIO_SIZE <=? w.1)) && negb (w.2 =? v.2))).
  assert (forallb (fun p => forallb (fun q => ok (p, q)) (imap pair windows)) (imap pair windows) = true) as H by (vm_compute; reflexivity).
  assert (forall n x, windows !! n = Some x -> In (n, x) (imap pair windows)) as Hin.
  { intros n x Hx. apply list_elem_of_In, list_elem_of_lookup. exists n. by rewrite list_lookup_imap, Hx. }
  intros Hi%Hin Hj%Hin. rewrite forallb_forall in H. specialize (H _ Hi). rewrite forallb_forall in H. specialize (H _ Hj). unfold ok in H.
  destruct (bool_decide_reflect (i = j)) as [E|E]; rewrite ?orb_true_l, ?orb_false_l in H; split_and!; lia.
Qed.

(** ** The layout at work *)

Module Example.

Lemma mptable_wellformed_witness : exists p h e, mptable_build 4 = Some (p ++ h ++ e) /\ u8 (total (h ++ e)) = 0.
Proof. destruct (mptable_wellformed 4) as (p & h & e & H1 & _ & _ & _ & H2 & _); [by (cbv; split; congruence)|]. exists p, h, e. by split. Defined.

(** An image at 1 MiB that unpacks into 32 MiB. *)
Definition a_loader (f : KernelFormat) : option Loaded := Some (mkLoaded HIGH_MEM_START (HIGH_MEM_START + 0x80_0000) (Some (BOOT_FLAG, 0x200_0000))).

Lemma load_places_witness : exists l a, load a_loader true true (pair_of <$> ram_regions (2 ^ 32)) [77; 90] 0x30_0000 = inl l /\ l_initrd l = Some a /\
  a mod 2 ^ 21 = 0 /\ in_e820 (e820_table l) a.
Proof.
  pose proof (load_places a_loader true true (2 ^ 32) [77; 90] 0x30_0000 ltac:(lia) ltac:(lia)) as H.
  destruct (load a_loader true true _ _ _) as [l|e] eqn:E; [|vm_compute in E; congruence].
  assert (l_initrd l = Some 0xcfc0_0000) as Hl by (vm_compute in E; injection E as <-; reflexivity). rewrite Hl in H.
  destruct H as (_ & k & _ & Ha & _ & _ & _ & Hin); [by intros f k [= <-]|]. exists l, 0xcfc0_0000. split_and!; [done|done|done|]. apply Hin. lia.
Defined.

Lemma x86_windows_apart_witness : windows !! 5%nat = Some (0xd000_0a00, 11) /\ windows !! 6%nat = Some (0xd000_0c00, 12) /\ 0xd000_0a00 + VIRTIO_SIZE <= 0xd000_0c00.
Proof.
  assert (windows !! 5%nat = Some (0xd000_0a00, 11)) as H5 by reflexivity. assert (windows !! 6%nat = Some (0xd000_0c00, 12)) as H6 by reflexivity.
  split; [done|]. split; [done|]. destruct (x86_windows_apart 5 6 _ _ H5 H6) as (_ & _ & _ & _ & _ & _ & H). cbn [fst snd] in H.
  destruct H as [[H|H] _]; [lia|done|]. exfalso. revert H. vm_compute. congruence.
Defined.

End Example.
