(* ===== verification/X86Cpu.v ===== *)
(** * The exits of an x86-64 vCPU ([src/arch/x86_64/kvm/vcpu.rs], [cpuid.rs])

    A port access goes to the ACPI registers, COM1, the real-time clock or the keyboard
    controller's reset; a memory access goes to the virtio device whose window holds it.
    The port devices are the models of their own files; the virtio devices are behind an
    access function, as the bus gives it to either machine. *)

From S2P Require Import Prelude Irq Uart16550 RtcCmos AcpiPm Vcpus Guest X86.
Local Open Scope Z_scope.

Definition I8042_RESET_CPU : Z := 0xfe.
Definition I8042_STATUS : Z := 0xfd.
Definition MIN_NOTIFIED_PAUSE : Z := 1_000_000_000.

(** The virtio device of a window. *)
Inductive Target := TDisk (i : nat) | TNet | TVsock | TFs (i : nat).

(** The chain of windows of [mmio_read] and [mmio_write]; [Some None] is the window of a
    device the guest does not have. *)
Definition route (d : Devices) (addr : Z) : option (option Target * Z) :=
  match find_window VIRTIO_SIZE (disk_bases d) addr with
  | Some (i, b) => Some (Some (TDisk i), addr - b)
  | None =>
      if in_window addr VIRTIO_NET_BASE VIRTIO_SIZE then Some (if has_net d then Some TNet else None, addr - VIRTIO_NET_BASE)
      else if in_window addr VIRTIO_VSOCK_BASE VIRTIO_SIZE then Some (if has_vsock d then Some TVsock else None, addr - VIRTIO_VSOCK_BASE)
      else match find_window VIRTIO_SIZE (fs_bases d) addr with
      | Some (i, b) => Some (Some (TFs i), addr - b)
      | None => None
      end
  end.

(** [pm_offset]. *)
Definition pm_offset (port : Z) : option Z :=
  if port <? ACPI_PM_PORT then None else if port - ACPI_PM_PORT <? PM_REGISTERS_LEN then Some (port - ACPI_PM_PORT) else None.

Definition pio_stop (port : Z) (data : list Z) : option Stop :=
  if (port =? I8042_COMMAND_PORT) && bool_decide (data = [I8042_RESET_CPU]) then Some SystemReset else None.

Definition is_com1 (port : Z) : bool := (COM1_PORT <=? port) && (port <? COM1_PORT + 8).
Definition is_rtc (port : Z) : bool := (port =? RTC_INDEX_PORT) || (port =? RTC_DATA_PORT).

(** [guest_cpuid]. *)
Record CpuidEntry := mkCpuid { function : Z; ecx : Z }.
Definition CPUID_1_ECX_TSC_DEADLINE_TIMER : Z := Z.shiftl 1 24.
Definition CPUID_1_ECX_HYPERVISOR : Z := Z.shiftl 1 31.
Definition guest_cpuid (supported : list CpuidEntry) : list CpuidEntry :=
  (fun e => if function e =? 1 then mkCpuid (function e) (Z.lor (ecx e) (Z.lor CPUID_1_ECX_TSC_DEADLINE_TIMER CPUID_1_ECX_HYPERVISOR)) else e) <$> supported.

(** [notify_guest_paused]: whether the guest is told. *)
Definition notify_guest_paused (paused_for : Z) : bool := negb (paused_for <? MIN_NOTIFIED_PAUSE).

Section Cpu.
Context {S L B : Type} `{Serial S} `{IrqLine L}.
(** The virtio devices: an access of one at an offset, and what a read gives. *)
Context (access : Target -> Z -> bool -> Z -> B -> Z * B).

Record VcpuContext := mkCtx { uart : Uart16550 S L; rtc_ : RtcCmos; pm : PmRegisters; bus : B }.

Definition set_uart u (c : VcpuContext) : VcpuContext := mkCtx u (rtc_ c) (pm c) (bus c).
Definition set_rtc r (c : VcpuContext) : VcpuContext := mkCtx (uart c) r (pm c) (bus c).
Definition set_pm p (c : VcpuContext) : VcpuContext := mkCtx (uart c) (rtc_ c) p (bus c).
Definition set_bus b (c : VcpuContext) : VcpuContext := mkCtx (uart c) (rtc_ c) (pm c) b.

Definition pio_dispatch_read (c : VcpuContext) (port : Z) (r : Readings) : VcpuContext * Z :=
  if is_com1 port then let '(u, v) := Uart16550.pio_read (uart c) (port - COM1_PORT) in (set_uart u c, v)
  else if is_rtc port then let '(s, v) := RtcCmos.pio_read (rtc_ c) port r in (set_rtc s c, v)
  else (c, if port =? I8042_COMMAND_PORT then I8042_STATUS else 0xff).

Definition pio_dispatch_write (c : VcpuContext) (port val : Z) : VcpuContext :=
  if is_com1 port then set_uart (Uart16550.pio_write (uart c) (port - COM1_PORT) val) c
  else if is_rtc port then set_rtc (RtcCmos.pio_write (rtc_ c) port val) c
  else c.

(** [mmio_read] and [mmio_write]. *)
Definition mmio_read (d : Devices) (c : VcpuContext) (addr : Z) : VcpuContext * Z :=
  match route d addr with
  | Some (Some t, off) => let '(v, b) := access t off false 0 (bus c) in (set_bus b c, v)
  | _ => (c, 0)
  end.
Definition mmio_write (d : Devices) (c : VcpuContext) (addr val : Z) : VcpuContext :=
  match route d addr with
  | Some (Some t, off) => set_bus (access t off true val (bus c)).2 c
  | _ => c
  end.

(** An exit: an [in] with a reading of the clocks for each byte, an [out], a read of
    [n] bytes, a write. *)
Inductive VcpuExit := IoIn (port : Z) (rs : list Readings) | IoOut (port : Z) (data : list Z) | MmioRead (addr : Z) (data : list Z) | MmioWrite (addr : Z) (data : list Z)
  | Shutdown | Intr | OtherExit (text : list Z).

Fixpoint in_bytes (c : VcpuContext) (port : Z) (rs : list Readings) : VcpuContext * list Z :=
  match rs with
  | [] => (c, [])
  | r :: rs => let '(c, v) := pio_dispatch_read c port r in let '(c, l) := in_bytes c port rs in (c, v :: l)
  end.

(** The handler of [run_cpu]: the bytes an access reads, and what ends the vCPU. *)
Definition vcpu_exit (d : Devices) (e : VcpuExit) (c : VcpuContext) : VcpuContext * list Z * option Outcome :=
  match e with
  | IoIn port rs =>
      match pm_offset port with
      | Some off => (c, AcpiPm.read (pm c) off (length rs), None)
      | None => (in_bytes c port rs, None)
      end
  | IoOut port data =>
      match pm_offset port with
      | Some off => let '(p, stop) := AcpiPm.write (pm c) off data in (set_pm p c, [], Stopped <$> stop)
      | None => (foldl (fun c b => pio_dispatch_write c port b) c data, [], Stopped <$> pio_stop port data)
      end
  | MmioRead addr data =>
      let '(c, val) := mmio_read d c addr in
      let n := Nat.min (length data) 8 in
      (c, take n (le_bytes 8 val) ++ drop n data, None)
  | MmioWrite addr data =>
      let n := Nat.min (length data) 8 in
      (mmio_write d c addr (le_val (take n data ++ replicate (8 - n) 0)), [], None)
  | Shutdown => (c, [], Some (Stopped SystemReset))
  | Intr => (c, [], None)
  | OtherExit text => (c, [], Some (Failed text))
  end.

End Cpu.
Arguments VcpuContext : clear implicits.

(** ** Routing *)

(** The devices placed by the layout. *)
Record x86_placed (d : Devices) (nd nf : nat) : Prop := {
  placed_disks : place virtio_blk_base nd = Some (disk_bases d);
  placed_fs : place virtio_fs_base nf = Some (fs_bases d) }.

(** Where the window of a device the guest has begins. *)
Definition base_of (d : Devices) (t : Target) : option Z :=
  match t with
  | TDisk i => disk_bases d !! i
  | TFs i => fs_bases d !! i
  | TNet => if has_net d then Some VIRTIO_NET_BASE else None
  | TVsock => if has_vsock d then Some VIRTIO_VSOCK_BASE else None
  end.

Ltac x86_layout := unfold VIRTIO_FS_BASE, VIRTIO_BLK_BASE, VIRTIO_NET_BASE, VIRTIO_VSOCK_BASE, VIRTIO_BLK_EXTRA_BASE, VIRTIO_MMIO_BASE, VIRTIO_SIZE, MAX_DISKS in *.

Section Routes.
Context d nd nf (Hp : x86_placed d nd nf).

Lemma x86_disk_base i b : disk_bases d !! i = Some b -> (i = 0%nat /\ b = VIRTIO_BLK_BASE) \/ ((1 <= i <= 3)%nat /\ b = VIRTIO_BLK_EXTRA_BASE + (Z.of_nat i - 1) * VIRTIO_SIZE).
Proof.
  intros Hb%(place_nth _ nd _ _ _ (placed_disks _ _ _ Hp)). unfold virtio_blk_base, MAX_DISKS in Hb. destruct (Z.eqb_spec (Z.of_nat i) 0); [injection Hb as <-; left; lia|].
  destruct (Z.ltb_spec (Z.of_nat i) 4); [|done]. injection Hb as <-. right. lia.
Qed.

Lemma x86_fs_base i b : fs_bases d !! i = Some b -> b = VIRTIO_FS_BASE + Z.of_nat i * VIRTIO_SIZE.
Proof.
  intros Hb%(place_nth _ nf _ _ _ (placed_fs _ _ _ Hp)). unfold virtio_fs_base in Hb. destruct (MAX_FS_DEVICES <=? _); [done|]. by injection Hb as <-.
Qed.

Lemma x86_no_disk a : (forall i b, disk_bases d !! i = Some b -> a < b \/ b + VIRTIO_SIZE <= a) -> find_window VIRTIO_SIZE (disk_bases d) a = None.
Proof. intros H. apply find_window_none. intros b [i Hi]%list_elem_of_lookup. by eapply H. Qed.

Lemma x86_route_base t b o : base_of d t = Some b -> 0 <= o < VIRTIO_SIZE -> route d (b + o) = Some (Some t, o).
Proof.
  intros Hb Ho. unfold route. destruct t as [i| | |i]; cbn [base_of] in Hb.
  - pose proof (x86_disk_base i b Hb). rewrite (find_window_nth _ _ i b) by (try done; try lia; intros j b' Hlt Hb'; pose proof (x86_disk_base j b' Hb'); x86_layout; lia).
    do 2 f_equal. lia.
  - destruct (has_net d); [|done]. injection Hb as <-. rewrite x86_no_disk by (intros j b' Hb'; pose proof (x86_disk_base j b' Hb'); x86_layout; lia).
    rewrite (proj2 (in_window_spec _ _ _)) by lia. do 2 f_equal. lia.
  - destruct (has_vsock d); [|done]. injection Hb as <-. rewrite x86_no_disk by (intros j b' Hb'; pose proof (x86_disk_base j b' Hb'); x86_layout; lia).
    rewrite in_window_out by (x86_layout; lia). rewrite (proj2 (in_window_spec _ _ _)) by lia. do 2 f_equal. lia.
  - pose proof (x86_fs_base i b Hb) as ->. rewrite x86_no_disk by (intros j b' Hb'; pose proof (x86_disk_base j b' Hb'); x86_layout; lia).
    rewrite !in_window_out by (x86_layout; lia).
    rewrite (find_window_nth _ _ i (VIRTIO_FS_BASE + Z.of_nat i * VIRTIO_SIZE)) by (try done; try (x86_layout; lia); intros j b' Hlt Hb'; pose proof (x86_fs_base j b' Hb'); x86_layout; lia).
    do 2 f_equal. lia.
Qed.

Lemma x86_route_only a t o : route d a = Some (Some t, o) -> base_of d t = Some (a - o) /\ 0 <= o < VIRTIO_SIZE.
Proof.
  unfold route. destruct (find_window _ (disk_bases d) a) as [[i b]|] eqn:E3.
  { apply list_find_Some in E3 as (Hb & Hw%in_window_spec & _). intros [= <- <-]. cbn. split; [|lia]. rewrite Hb. f_equal. lia. }
  destruct (in_window a VIRTIO_NET_BASE _) eqn:E4; [apply in_window_spec in E4; destruct (has_net d) eqn:En; [|done]; intros [= <- <-]; cbn; rewrite En; split; [f_equal; lia|lia]|].
  destruct (in_window a VIRTIO_VSOCK_BASE _) eqn:E5; [apply in_window_spec in E5; destruct (has_vsock d) eqn:En; [|done]; intros [= <- <-]; cbn; rewrite En; split; [f_equal; lia|lia]|].
  destruct (find_window _ (fs_bases d) a) as [[i b]|] eqn:E6; [|done]. apply list_find_Some in E6 as (Hb & Hw%in_window_spec & _). intros [= <- <-]. cbn.
  split; [|lia]. rewrite Hb. f_equal. lia.
Qed.

End Routes.

Lemma le_val_zeros l k : le_val (l ++ replicate k 0) = le_val l.
Proof.
  induction l as [|b l IH]; cbn [app le_val]; [|by rewrite IH]. induction k as [|k IH]; cbn [replicate le_val]; [done|]. rewrite IH. done.
Qed.

(** ** Exits *)

(** The stop an exit asks for. *)
Definition exit_stop (e : VcpuExit) : option Outcome :=
  match e with
  | IoOut port data => Stopped <$> (if (ACPI_PM_PORT <=? port) && (port <? ACPI_PM_PORT + 7) then stop_of (port - ACPI_PM_PORT) data
                                    else if bool_decide (port = I8042_COMMAND_PORT /\ data = [0xfe]) then Some SystemReset else None)
  | Shutdown => Some (Stopped SystemReset)
  | OtherExit text => Some (Failed text)
  | IoIn _ _ | MmioRead _ _ | MmioWrite _ _ | Intr => None
  end.

(** An access the hypervisor can report: a port and its bytes. *)
Definition exit_ok (e : VcpuExit) : Prop :=
  match e with
  | IoOut port data => 0 <= port < 2 ^ 16 /\ bytes_ok data /\ zlen data < 2 ^ 15
  | IoIn port _ => 0 <= port < 2 ^ 16
  | MmioRead _ data | MmioWrite _ data => (length data <= 8)%nat /\ bytes_ok data
  | _ => True
  end.

Lemma pm_offset_spec port : pm_offset port = if (ACPI_PM_PORT <=? port) && (port <? ACPI_PM_PORT + 7) then Some (port - ACPI_PM_PORT) else None.
Proof.
  unfold pm_offset. destruct (Z.ltb_spec port ACPI_PM_PORT), (Z.leb_spec ACPI_PM_PORT port); try lia; [done|]. cbn [andb].
  destruct (Z.ltb_spec (port - ACPI_PM_PORT) PM_REGISTERS_LEN), (Z.ltb_spec port (ACPI_PM_PORT + 7)); try done; unfold PM_REGISTERS_LEN, RESET_REGISTER in *; lia.
Qed.

Section Claims.
Context {S L B : Type} `{Serial S} `{IrqLine L} (access : Target -> Z -> bool -> Z -> B -> Z * B).

(** The devices a port reaches. *)
Record port_effect (port : Z) (c c' : VcpuContext S L B) : Prop := {
  pe_bus : bus c' = bus c;
  pe_uart : is_com1 port = false -> uart c' = uart c;
  pe_rtc : is_rtc port = false -> rtc_ c' = rtc_ c;
  pe_pm : pm_offset port = None -> pm c' = pm c }.

#[local] Instance port_effect_trans port : PreOrder (port_effect port).
Proof. split; [by intros ?|]. intros a b c [p1 p2 p3 p4] [q1 q2 q3 q4]. split; [congruence|intros E; by rewrite q2, p2|intros E; by rewrite q3, p3|intros E; by rewrite q4, p4]. Qed.

Lemma write_port_effect c port v : port_effect port c (pio_dispatch_write c port v).
Proof. unfold pio_dispatch_write. destruct (is_com1 port) eqn:E1; [split; cbn; congruence|]. destruct (is_rtc port) eqn:E2; split; cbn; congruence. Qed.
Lemma read_port_effect c port r : port_effect port c (pio_dispatch_read c port r).1.
Proof.
  unfold pio_dispatch_read. destruct (is_com1 port) eqn:E1; [destruct (Uart16550.pio_read _ _); split; cbn; congruence|].
  destruct (is_rtc port) eqn:E2; [destruct (RtcCmos.pio_read _ _ _)|]; split; cbn; congruence.
Qed.
Lemma in_bytes_effect port rs : forall c, port_effect port c (in_bytes c port rs).1.
Proof.
  induction rs as [|r rs IH]; intros c; cbn [in_bytes]; [reflexivity|]. pose proof (read_port_effect c port r) as Hr. destruct (pio_dispatch_read c port r) as [c1 v].
  specialize (IH c1). destruct (in_bytes c1 port rs) as [c2 l]. cbn in *. by etrans.
Qed.

(** An access of the guest's memory space reaches the device whose window it is in,
    and no other. With the disks and exports the layout placed, a read of up to eight
    bytes in the window of a device it has gives the little-endian bytes of the register
    at that offset, a write hands the device the little-endian value, and neither ends
    the vCPU or touches a port device; an address in no window reads zero and is
    otherwise ignored. *)
Theorem x86_exit_reaches_device d nd nf (c : VcpuContext S L B) addr data : x86_placed d nd nf -> (length data <= 8)%nat ->
  (forall t b, base_of d t = Some b -> b <= addr < b + VIRTIO_SIZE ->
    let '(v, b') := access t (addr - b) false 0 (bus c) in
    vcpu_exit access d (MmioRead addr data) c = (set_bus b' c, take (length data) (le_bytes 8 v), None) /\
    vcpu_exit access d (MmioWrite addr data) c = (set_bus (access t (addr - b) true (le_val data) (bus c)).2 c, [], None)) /\
  ((forall t b, base_of d t = Some b -> ~ b <= addr < b + VIRTIO_SIZE) ->
    vcpu_exit access d (MmioRead addr data) c = (c, replicate (length data) 0, None) /\ vcpu_exit access d (MmioWrite addr data) c = (c, [], None)).
Proof.
  intros Hp Hlen. split.
  - intros t b Hb Ha. destruct (access t (addr - b) false 0 (bus c)) as [v b'] eqn:Ea.
    pose proof (x86_route_base d nd nf Hp t b (addr - b) Hb ltac:(lia)) as Hr. replace (b + (addr - b)) with addr in Hr by lia.
    unfold vcpu_exit, mmio_read, mmio_write. rewrite Hr, Ea, Nat.min_l by lia. split.
    + by rewrite (drop_ge data), app_nil_r by lia.
    + by rewrite (take_ge data), le_val_zeros by lia.
  - intros Hno. unfold vcpu_exit, mmio_read, mmio_write. rewrite Nat.min_l by lia. destruct (route d addr) as [[[t|] o]|] eqn:Hr.
    + destruct (x86_route_only d addr t o Hr) as [Hb Ho]. destruct (Hno t _ Hb). lia.
    + rewrite (drop_ge data), app_nil_r by lia. split; [|done]. f_equal. f_equal. do 9 (destruct data as [|? data]; [reflexivity|]). cbn in Hlen. lia.
    + rewrite (drop_ge data), app_nil_r by lia. split; [|done]. f_equal. f_equal. do 9 (destruct data as [|? data]; [reflexivity|]). cbn in Hlen. lia.
Qed.

(** What a vCPU's exit does to the machine. It ends the run exactly on a sleep or
    reset the ACPI registers take, on the keyboard controller's one-byte reset, on a
    shutdown and on an exit the backend does not serve, each with its outcome; and a
    port access changes only the device the port belongs to. *)
Theorem x86_exit_outcome d e (c : VcpuContext S L B) : exit_ok e -> pm_ok (pm c) ->
  (vcpu_exit access d e c).2 = exit_stop e /\ pm_ok (pm (vcpu_exit access d e c).1.1) /\
  match e with IoIn port _ | IoOut port _ => port_effect port c (vcpu_exit access d e c).1.1 | _ => True end.
Proof.
  intros He Hc. destruct e as [port rs|port data|addr data|addr data| | |text]; cbn [vcpu_exit exit_stop exit_ok] in *; try done.
  - pose proof (in_bytes_effect port rs c) as Hi. destruct (pm_offset port) as [off|] eqn:Eo; [by split_and!|]. destruct (in_bytes c port rs) as [c1 l]. cbn in *.
    split_and!; [done| |done]. by rewrite (pe_pm _ _ _ Hi).
  - destruct He as (Hport & Hd & Hlen). rewrite (pm_offset_spec port) at 1 2 3. destruct ((ACPI_PM_PORT <=? port) && (port <? ACPI_PM_PORT + 7)) eqn:Ew.
    + apply andb_true_iff in Ew as [Ew1%Z.leb_le Ew2%Z.ltb_lt].
      destruct (acpi_write_outcome (pm c) (port - ACPI_PM_PORT) data) as (Hs & _ & Hok); [done|done|lia|unfold ACPI_PM_PORT in *; lia|].
      destruct (AcpiPm.write (pm c) (port - ACPI_PM_PORT) data) as [p stop]. cbn in *. split_and!; [by rewrite Hs|done|].
      split; [done..|]. rewrite pm_offset_spec. rewrite (proj2 (andb_true_iff _ _)) by (rewrite Z.leb_le, Z.ltb_lt; lia). done.
    + assert (port_effect port c (foldl (fun c b => pio_dispatch_write c port b) c data)) as Hf.
      { clear -Ew. revert c. induction data as [|b data IH]; intros c; cbn [foldl]; [reflexivity|]. etrans; [apply write_port_effect|apply IH]. }
      cbn. split_and!; [|rewrite (pe_pm _ _ _ Hf); [done|by rewrite pm_offset_spec, Ew]|done]. f_equal. unfold pio_stop.
      destruct (Z.eqb_spec port I8042_COMMAND_PORT) as [->|]; cbn [andb]; [|by rewrite bool_decide_false by tauto].
      unfold I8042_RESET_CPU. destruct (bool_decide_reflect (data = [0xfe])) as [->|]; [done|]. by rewrite bool_decide_false by tauto.
  - by destruct (mmio_read access d c addr) as [c1 v] eqn:E; cbn; split_and!; [done| |done]; unfold mmio_read in E; destruct (route d addr) as [[[t|] o]|]; [destruct (access _ _ _ _ _)| |]; simplify_eq.
  - split_and!; [done| |done]. cbn. unfold mmio_write. by destruct (route d addr) as [[[t|] o]|].
Qed.

End Claims.

(** ** Exits of a small machine *)

Module Example.

Definition devs : Devices := mkDevices [VIRTIO_BLK_BASE; VIRTIO_BLK_EXTRA_BASE] false true [VIRTIO_FS_BASE].
Lemma devs_placed : x86_placed devs 2 1.
Proof. split; reflexivity. Qed.

(** A bus that keeps its last write and reads the offset. *)
Definition plain_access (t : Target) (off : Z) (w : bool) (v : Z) (b : Z) : Z * Z := if w then (0, v) else (off, b).
Definition ctx : VcpuContext DemoSerial PlainLine Z :=
  mkCtx Uart16550.new (RtcCmos.new (mkReadings 0 (Some 0) 0)) (mkPm 0) 0.

Lemma x86_exit_reaches_device_witness : (vcpu_exit plain_access devs (MmioRead (VIRTIO_BLK_EXTRA_BASE + 0x34) [0; 0; 0; 0]) ctx).1.2 = [0x34; 0; 0; 0].
Proof.
  destruct (x86_exit_reaches_device plain_access devs 2 1 ctx (VIRTIO_BLK_EXTRA_BASE + 0x34) [0; 0; 0; 0] devs_placed ltac:(cbn; lia)) as [H _].
  specialize (H (TDisk 1) VIRTIO_BLK_EXTRA_BASE eq_refl ltac:(cbv; split; congruence)). cbn [plain_access] in H. destruct H as [-> _]. reflexivity.
Defined.

Lemma x86_exit_outcome_witness : (vcpu_exit plain_access devs (IoOut 0x604 [0; 0x34]) ctx).2 = Some (Stopped SystemOff).
Proof.
  destruct (x86_exit_outcome plain_access devs (IoOut 0x604 [0; 0x34]) ctx) as [-> _]; [|done|reflexivity].
  split; [lia|]. split; [by repeat constructor|done].
Defined.

End Example.
