(* ===== verification/X86Boot.v ===== *)
(** * The boot of an x86-64 guest ([src/arch/x86_64]: [loader.rs], [acpi.rs], [kvm/regs.rs], [kvm/boot.rs])

    The command line hvi splices its own parameters into, the placement of the ACPI
    tables, the page tables and descriptors the boot vCPU enters with, and the order in
    which the images are written to guest RAM. The bytes of the ACPI tables and the
    layout of the kernel image come from the crates [acpi_tables] and [linux-loader],
    which are arguments here. *)

From stdpp Require Import strings.
From S2P Require Import Prelude Memory X86.
Local Open Scope Z_scope.

(** ** The command line ([splice_kernel_args])

    A string is its characters. The code searches bytes, and a dash or a space is one
    byte that no other character contains. *)

Definition DASH : Z := 45.
Definition SPACE : Z := 32.

(** The characters Unicode gives the property White_Space. *)
Definition is_whitespace (c : Z) : bool :=
  ((9 <=? c) && (c <=? 13)) || (c =? 32) || (c =? 0x85) || (c =? 0xa0) || (c =? 0x1680) || ((0x2000 <=? c) && (c <=? 0x200a)) ||
  (c =? 0x2028) || (c =? 0x2029) || (c =? 0x202f) || (c =? 0x205f) || (c =? 0x3000).

Fixpoint drop_while {A} (f : A -> bool) (l : list A) : list A := match l with x :: l' => if f x then drop_while f l' else l | [] => [] end.
Fixpoint take_while {A} (f : A -> bool) (l : list A) : list A := match l with x :: l => if f x then x :: take_while f l else [] | [] => [] end.
Definition trim_end (l : list Z) : list Z := rev (drop_while is_whitespace (rev l)).

(** [match_indices] of two dashes: the matches do not overlap. *)
Fixpoint match_indices (l : list Z) (i : nat) : list nat :=
  match l with
  | a :: ((b :: l2) as l1) => if (a =? DASH) && (b =? DASH) then i :: match_indices l2 (2 + i) else match_indices l1 (1 + i)
  | _ => []
  end.

Definition standalone (base : list Z) (i : nat) : bool :=
  ((i =? 0)%nat || bool_decide (base !! (i - 1)%nat = Some SPACE)) && ((i + 2 =? length base)%nat || bool_decide (base !! (i + 2)%nat = Some SPACE)).

Definition separator (base : list Z) : option nat := List.find (standalone base) (match_indices base 0).

Definition splice_kernel_args (base extra : list Z) : list Z :=
  if bool_decide (extra = []) then base
  else if bool_decide (base = []) then extra
  else match separator base with
  | Some i => trim_end (take i base) ++ [SPACE] ++ extra ++ [SPACE] ++ drop i base
  | None => base ++ [SPACE] ++ extra
  end.

(** The words of a line, and the ones before and from the first that is two dashes. *)
Fixpoint words_from (cur l : list Z) : list (list Z) :=
  match l with
  | [] => if bool_decide (cur = []) then [] else [rev cur]
  | c :: l => if c =? SPACE then (if bool_decide (cur = []) then [] else [rev cur]) ++ words_from [] l else words_from (c :: cur) l
  end.
Definition words (l : list Z) : list (list Z) := words_from [] l.
Definition SEP : list Z := [DASH; DASH].
Definition kernel_args (l : list Z) : list (list Z) := take_while (fun w => negb (bool_decide (w = SEP))) (words l).
Definition init_args (l : list Z) : list (list Z) := drop_while (fun w => negb (bool_decide (w = SEP))) (words l).

Lemma words_from_space a b : forall cur, words_from cur (a ++ SPACE :: b) = words_from cur a ++ words b.
Proof.
  induction a as [|c a IH]; intros cur; cbn [app words_from]; [done|]. destruct (c =? SPACE); [|apply IH]. by rewrite IH, (assoc_L (++)).
Qed.
Lemma words_space a b : words (a ++ SPACE :: b) = words a ++ words b.
Proof. apply words_from_space. Qed.

(** The reference search: every position, with whether a word starts there. *)
Definition ends (l : list Z) : bool := match l with [] => true | c :: _ => c =? SPACE end.
Fixpoint first_sep (start : bool) (l : list Z) (i : nat) : option nat :=
  match l with
  | a :: ((b :: l2) as l1) => if start && (a =? DASH) && (b =? DASH) && ends l2 then Some i else first_sep (a =? SPACE) l1 (1 + i)
  | _ => None
  end.

Definition starts_at (pre : list Z) : bool := match last pre with None => true | Some c => c =? SPACE end.

Lemma standalone_spec pre l : standalone (pre ++ DASH :: DASH :: l) (length pre) = starts_at pre && ends l.
Proof.
  unfold standalone, starts_at, ends. f_equal.
  - destruct pre as [|c pre _] using rev_ind; [done|]. rewrite last_snoc, length_app. cbn [length]. replace (length pre + 1 - 1)%nat with (length pre) by lia.
    rewrite <- (assoc_L (++)). cbn [app]. rewrite list_lookup_middle by done. destruct (Nat.eqb_spec (length pre + 1) 0); [lia|]. cbn.
    destruct (Z.eqb_spec c SPACE) as [->|]; [by rewrite bool_decide_true|]. rewrite bool_decide_false; [done|congruence].
  - rewrite length_app. cbn [length]. rewrite lookup_app_r by lia. replace (length pre + 2 - length pre)%nat with 2%nat by lia. cbn [lookup list_lookup].
    destruct l as [|c l]; cbn [length]; [by rewrite (proj2 (Nat.eqb_eq _ _)) by lia|]. rewrite (proj2 (Nat.eqb_neq _ _)) by lia. cbn.
    destruct (Z.eqb_spec c SPACE) as [->|]; [by rewrite bool_decide_true|]. rewrite bool_decide_false; [done|congruence].
Qed.

Lemma starts_snoc pre c : starts_at (pre ++ [c]) = (c =? SPACE).
Proof. unfold starts_at. by rewrite last_snoc. Qed.

Lemma first_sep_dash l i : first_sep false l i = match l with a :: l1 => first_sep (a =? SPACE) l1 (1 + i) | [] => None end.
Proof. destruct l as [|a [|b l]]; done. Qed.

Lemma match_indices_cons a b l i : match_indices (a :: b :: l) i = if (a =? DASH) && (b =? DASH) then i :: match_indices l (2 + i) else match_indices (b :: l) (1 + i).
Proof. done. Qed.
Lemma first_sep_cons s a b l i : first_sep s (a :: b :: l) i = if s && (a =? DASH) && (b =? DASH) && ends l then Some i else first_sep (a =? SPACE) (b :: l) (1 + i).
Proof. done. Qed.

(** Overlapping dashes hide no separator. *)
Lemma separator_from n : forall pre l, (length l <= n)%nat -> List.find (standalone (pre ++ l)) (match_indices l (length pre)) = first_sep (starts_at pre) l (length pre).
Proof.
  induction n as [|n IH]; intros pre l Hl; [by destruct l; cbn in Hl; [|lia]|]. destruct l as [|a [|b l]]; [done..|].
  rewrite match_indices_cons, first_sep_cons. destruct (Z.eqb_spec a DASH) as [->|Ha]; [destruct (Z.eqb_spec b DASH) as [->|Hb]|]; cbn [andb].
  - cbn [List.find]. rewrite standalone_spec, !andb_true_r. destruct (starts_at pre && ends l); [done|].
    rewrite first_sep_dash. change (DASH =? SPACE) with false.
    specialize (IH (pre ++ [DASH; DASH]) l ltac:(cbn in Hl; lia)). rewrite length_app, <- (assoc_L (++)) in IH. cbn [length app] in IH.
    replace (length pre + 2)%nat with (2 + length pre)%nat in IH by lia. rewrite IH.
    assert (starts_at (pre ++ [DASH; DASH]) = false) as -> by (change [DASH; DASH] with ([DASH] ++ [DASH]); by rewrite (assoc_L (++)), starts_snoc).
    done.
  - rewrite !andb_false_r. cbn [andb]. specialize (IH (pre ++ [DASH]) (b :: l) ltac:(cbn in *; lia)). rewrite length_app, <- (assoc_L (++)), starts_snoc in IH. cbn [length app] in IH.
    replace (length pre + 1)%nat with (1 + length pre)%nat in IH by lia. exact IH.
  - rewrite !andb_false_r. cbn [andb]. specialize (IH (pre ++ [a]) (b :: l) ltac:(cbn in *; lia)). rewrite length_app, <- (assoc_L (++)), starts_snoc in IH. cbn [length app] in IH.
    replace (length pre + 1)%nat with (1 + length pre)%nat in IH by lia. exact IH.
Qed.

Lemma separator_first base : separator base = first_sep true base 0.
Proof. apply (separator_from (length base) [] base). lia. Qed.

(** ** Words and the separator *)

Definition word_rest (l : list Z) : list Z := take_while (fun c => negb (c =? SPACE)) l.

(** One step of the search. *)
Lemma first_sep_step s a l i :
  (s = true /\ exists l2, a = DASH /\ l = DASH :: l2 /\ ends l2 = true /\ first_sep s (a :: l) i = Some i) \/
  (first_sep s (a :: l) i = first_sep (a =? SPACE) l (1 + i) /\ (s = true -> a :: word_rest l <> SEP)).
Proof.
  destruct l as [|b l]; [by right|]. rewrite first_sep_cons. destruct s; cbn [andb]; [|by right].
  destruct (Z.eqb_spec a DASH) as [->|Ha]; [destruct (Z.eqb_spec b DASH) as [->|Hb]; [destruct (ends l) eqn:He; [left; eauto 10|]|]|]; cbn [andb]; right; (split; [done|]); intros _; unfold SEP.
  - unfold word_rest. cbn. destruct l as [|c l]; [done|]. cbn in He |- *. rewrite He. done.
  - unfold word_rest. cbn. destruct (b =? SPACE); cbn; congruence.
  - congruence.
Qed.

Lemma rev_empty (cur : list Z) : rev cur = [] -> cur = [].
Proof. destruct cur as [|c cur]; [done|]. cbn. intros H. by apply app_nil in H as [_ ?]. Qed.

Lemma flush_sep cur : (cur <> [] -> rev cur <> SEP) -> SEP ∉ (if bool_decide (cur = []) then [] else [rev cur]).
Proof. intros H. case_bool_decide as E; [apply not_elem_of_nil|]. rewrite list_elem_of_singleton. intros E'. by apply (H E). Qed.

Lemma no_sep l : forall cur i, first_sep (bool_decide (cur = [])) l i = None -> (cur <> [] -> rev cur ++ word_rest l <> SEP) -> SEP ∉ words_from cur l.
Proof.
  induction l as [|a l IH]; intros cur i Hf Hc; cbn [words_from].
  - apply flush_sep. intros E. specialize (Hc E). by rewrite app_nil_r in Hc.
  - destruct (first_sep_step (bool_decide (cur = [])) a l i) as [(_ & l2 & _ & _ & _ & E)|[E Hs]]; [congruence|]. rewrite E in Hf.
    destruct (Z.eqb_spec a SPACE) as [->|Ha].
    + rewrite elem_of_app. intros [H|H]; revert H; [|by apply (IH [] (1 + i)%nat)]. apply flush_sep. intros Hne. specialize (Hc Hne). by rewrite app_nil_r in Hc.
    + apply (IH (a :: cur) (1 + i)%nat); [done|]. intros _. cbn [rev]. rewrite <- (assoc_L (++)). cbn [app].
      case_bool_decide as Ec; [subst cur; by apply Hs|]. specialize (Hc Ec). unfold word_rest in *. cbn [take_while] in Hc. by rewrite (proj2 (Z.eqb_neq a SPACE)) in Hc.
Qed.

Lemma sep_found l : forall cur i j, first_sep (bool_decide (cur = [])) l i = Some j -> (cur <> [] -> rev cur ++ word_rest l <> SEP) ->
  exists a b, l = a ++ DASH :: DASH :: b /\ j = (i + length a)%nat /\ ends b = true /\ (SEP ∉ words_from cur a) /\ (a = [] /\ cur = [] \/ exists a', a = a' ++ [SPACE]).
Proof.
  induction l as [|c l IH]; intros cur i j Hf Hc; [done|].
  destruct (first_sep_step (bool_decide (cur = [])) c l i) as [(Es & l2 & -> & -> & He & E)|[E Hs]]; rewrite E in Hf.
  - apply bool_decide_eq_true in Es as ->. injection Hf as <-. exists [], l2.
    split_and!; try done; [apply not_elem_of_nil|by left].
  - destruct (Z.eqb_spec c SPACE) as [->|Ha].
    + destruct (IH [] (1 + i)%nat j) as (a & b & -> & -> & He & Hn & Hend); [done|done|]. exists (SPACE :: a), b. split_and!; try done; [cbn; lia| |].
      * cbn. rewrite elem_of_app. intros [H|H]; [|done]. revert H. apply flush_sep. intros Hne. specialize (Hc Hne). by rewrite app_nil_r in Hc.
      * right. destruct Hend as [[-> _]|[a' ->]]; [by exists []|by exists (SPACE :: a')].
    + destruct (IH (c :: cur) (1 + i)%nat j) as (a & b & -> & -> & He & Hn & Hend); [done| |].
      * intros _. cbn [rev]. rewrite <- (assoc_L (++)). cbn [app]. case_bool_decide as Ec; [subst cur; by apply Hs|]. specialize (Hc Ec).
        unfold word_rest in *. cbn [take_while] in Hc. by rewrite (proj2 (Z.eqb_neq c SPACE)) in Hc.
      * exists (c :: a), b. split_and!; try done; [cbn; lia| |]; [cbn; by rewrite (proj2 (Z.eqb_neq c SPACE))|].
        right. destruct Hend as [[_ ?]|[a' ->]]; [done|by exists (c :: a')].
Qed.

Lemma take_while_app {A} (f : A -> bool) l k : Forall (fun x => f x = true) l -> take_while f (l ++ k) = l ++ take_while f k.
Proof. induction 1 as [|x l Hx _ IH]; [done|]. cbn. by rewrite Hx, IH. Qed.
Lemma drop_while_app {A} (f : A -> bool) l k : Forall (fun x => f x = true) l -> drop_while f (l ++ k) = drop_while f k.
Proof. induction 1 as [|x l Hx _ IH]; [done|]. cbn. by rewrite Hx, IH. Qed.

Lemma no_sep_forall ws : SEP ∉ ws -> Forall (fun w => negb (bool_decide (w = SEP)) = true) ws.
Proof. intros H. apply Forall_forall. intros w Hw. rewrite bool_decide_false; [done|]. by intros ->. Qed.

Lemma words_spaces k : words (replicate k SPACE) = [].
Proof. unfold words. induction k as [|k IH]; [done|]. cbn. by rewrite IH. Qed.

Lemma trim_end_spaces l : (forall c, c ∈ l -> is_whitespace c = true -> c = SPACE) -> exists k, l = trim_end l ++ replicate k SPACE.
Proof.
  unfold trim_end. induction l as [|c l IH] using rev_ind; intros H; [by exists 0%nat|]. rewrite rev_app_distr. cbn [rev app drop_while].
  destruct (is_whitespace c) eqn:Ec.
  - destruct IH as [k Hk]; [intros x Hx; apply H, elem_of_app; by left|]. exists (S k). rewrite (H c) by (try done; apply elem_of_app; right; by left).
    rewrite Hk at 1. by rewrite <- (assoc_L (++)), <- replicate_cons_app.
  - exists 0%nat. cbn [rev replicate]. by rewrite rev_involutive, app_nil_r.
Qed.

Lemma words_trim l : (forall c, c ∈ l -> is_whitespace c = true -> c = SPACE) -> words (trim_end l) = words l.
Proof.
  intros H. destruct (trim_end_spaces l H) as [k Hk]. rewrite Hk at 2. destruct k as [|k]; [by rewrite app_nil_r|]. cbn [replicate].
  by rewrite words_space, words_spaces, app_nil_r.
Qed.

Lemma words_sep b : ends b = true -> exists ws, words (DASH :: DASH :: b) = SEP :: ws.
Proof.
  intros He. unfold words. cbn [words_from]. change (DASH =? SPACE) with false. cbn iota. destruct b as [|c b]; [by exists []|].
  cbn in He. cbn [words_from]. rewrite He. by eexists.
Qed.

(** hvi's own parameters always reach the kernel. When the caller's line has no
    white space but spaces and hvi's parameters have no bare double dash, the kernel's
    words of the spliced line are the kernel's words of the caller's line followed by
    hvi's, and the words from the first bare double dash on, which init gets, are the
    caller's unchanged. *)
Theorem splice_reaches_kernel base extra : (forall c, c ∈ base -> is_whitespace c = true -> c = SPACE) -> SEP ∉ words extra ->
  kernel_args (splice_kernel_args base extra) = kernel_args base ++ words extra /\ init_args (splice_kernel_args base extra) = init_args base.
Proof.
  intros Hb Hx. unfold splice_kernel_args. case_bool_decide as E1; [subst extra; by rewrite app_nil_r|]. unfold kernel_args, init_args.
  pose proof (no_sep_forall _ Hx) as Fx. case_bool_decide as E2.
  { subst base. cbn [words]. rewrite <- (app_nil_r (words extra)) at 1 3. by rewrite take_while_app, drop_while_app, app_nil_r by done. }
  rewrite separator_first. destruct (first_sep true base 0) as [i|] eqn:Es.
  - destruct (sep_found base [] 0 i Es ltac:(done)) as (a & b & -> & -> & He & Hn & Hend). cbn [Nat.add]. rewrite take_app_length, drop_app_length.
    cbn [app]. rewrite words_space, words_space, words_trim by (intros c Hc; apply Hb, elem_of_app; by left). destruct (words_sep b He) as [ws Hws]. rewrite Hws.
    assert (words (a ++ DASH :: DASH :: b) = words a ++ SEP :: ws) as ->.
    { destruct Hend as [[-> _]|[a' ->]]; [done|]. rewrite <- (assoc_L (++)). cbn [app]. rewrite !words_space, Hws. cbn. by rewrite app_nil_r. }
    pose proof (no_sep_forall _ Hn) as Fa. rewrite !take_while_app, !drop_while_app by done. cbn. split; [|done]. by rewrite !app_nil_r.
  - pose proof (no_sep_forall _ (no_sep base [] 0 Es ltac:(done))) as Fb. cbn [app]. rewrite words_space.
    rewrite <- (app_nil_r (words extra)) at 1 3. rewrite !take_while_app, !drop_while_app by done.
    fold (words base) in Fb. rewrite <- (app_nil_r (words base)) at 2 3. rewrite take_while_app, drop_while_app by done. by rewrite !app_nil_r.
Qed.

(** ** The ACPI tables ([acpi.rs]) *)

Definition RSDP_LEN : nat := 36.
Definition FACS_ALIGN : nat := 64.

Definition tables_new : list Z := replicate RSDP_LEN 0.
Definition next_multiple_of (n align : nat) : nat := ((n + align - 1) / align * align)%nat.

(** [Tables::place]: the table goes at the next multiple of [align]. *)
Definition tables_place (bytes table : list Z) (align : nat) : list Z * Z :=
  let at_ := next_multiple_of (length bytes) align in
  (bytes ++ replicate (at_ - length bytes) 0 ++ table, ACPI_ADDR + Z.of_nat at_).

(** [Tables::finish]. *)
Definition tables_finish (bytes rsdp : list Z) : list Z := rsdp ++ drop (length rsdp) bytes.

(** A table somewhere past the RSDP, at guest address [addr]. *)
Definition found (bytes : list Z) (addr : Z) (table : list Z) : Prop :=
  exists pre post, bytes = pre ++ table ++ post /\ addr = ACPI_ADDR + Z.of_nat (length pre) /\ (RSDP_LEN <= length pre)%nat.

Lemma next_multiple_spec n align : (0 < align)%nat -> (n <= next_multiple_of n align)%nat /\ (next_multiple_of n align mod align = 0)%nat.
Proof.
  intros Ha. unfold next_multiple_of. split; [|apply Nat.Div0.mod_mul]. pose proof (Nat.div_mod (n + align - 1) align ltac:(lia)).
  pose proof (Nat.mod_upper_bound (n + align - 1) align ltac:(lia)). lia.
Qed.

Lemma place_found bytes table align bytes' addr : (0 < align)%nat -> (RSDP_LEN <= length bytes)%nat -> tables_place bytes table align = (bytes', addr) ->
  found bytes' addr table /\ (RSDP_LEN <= length bytes')%nat /\ ACPI_ADDR + Z.of_nat (length bytes) <= addr /\ length bytes' = (Z.to_nat (addr - ACPI_ADDR) + length table)%nat /\
  (Z.to_nat (addr - ACPI_ADDR) mod align = 0)%nat /\ (forall a t, found bytes a t -> found bytes' a t).
Proof.
  intros Ha Hb [= <- <-]. destruct (next_multiple_spec (length bytes) align Ha) as [Hle Hm]. split_and!.
  - exists (bytes ++ replicate (next_multiple_of (length bytes) align - length bytes) 0), []. split_and!; [by rewrite <- (assoc_L (++)), app_nil_r|..];
      rewrite length_app, length_replicate; [f_equal|]; lia.
  - rewrite length_app. lia.
  - lia.
  - rewrite !length_app, length_replicate. lia.
  - rewrite Z.add_simpl_l, Nat2Z.id. done.
  - intros a t (pre & post & -> & -> & Hp). eexists pre, _. split; [by rewrite <- !(assoc_L (++))|]. done.
Qed.

Lemma finish_found bytes rsdp a t : length rsdp = RSDP_LEN -> found bytes a t -> found (tables_finish bytes rsdp) a t.
Proof.
  intros Hr (pre & post & -> & -> & Hp). exists (rsdp ++ drop (length rsdp) pre), post. unfold tables_finish. rewrite drop_app_le by (rewrite Hr; lia).
  split; [by rewrite <- (assoc_L (++))|]. rewrite length_app, length_drop, Hr. unfold RSDP_LEN in *. lia.
Qed.

(** The tables as the crate writes them: the definition block for the devices, the
    fixed table for the addresses of two others, the table of interrupt controllers, the
    root tables. *)
Record Aml := mkAml { dsdt_aml : list MmioDevice -> list Z; facs_aml : list Z; fadt_aml : Z -> Z -> list Z; madt_aml : Z -> list Z; xsdt_aml : list Z -> list Z; rsdp_aml : Z -> list Z }.

(** [acpi::build]; [None] is one of its assertions. *)
Definition acpi_build (t : Aml) (num_cpus : Z) (devices : list MmioDevice) : option (list Z) :=
  if MAX_VCPUS <? num_cpus then None
  else if 100 <=? zlen devices then None
  else if negb (forallb (fun d => (d_base d <? 2 ^ 32) && (d_size d <? 2 ^ 32)) devices) then None
  else
    let '(tables, dsdt) := tables_place tables_new (dsdt_aml t devices) 1 in
    let '(tables, facs) := tables_place tables (facs_aml t) FACS_ALIGN in
    let '(tables, fadt) := tables_place tables (fadt_aml t dsdt facs) 1 in
    let '(tables, madt) := tables_place tables (madt_aml t num_cpus) 1 in
    let '(tables, xsdt) := tables_place tables (xsdt_aml t [fadt; madt]) 1 in
    Some (tables_finish tables (rsdp_aml t xsdt)).

(** A guest that follows the ACPI tables finds them all. For up to 254 vCPUs and fewer
    than 100 windows below 4 GiB the tables are built; the RSDP is at the start of the
    BIOS area and points at the XSDT, the XSDT at the fixed table and the table of
    interrupt controllers, the fixed table at the definition block of these devices and at
    a FACS on a 64-byte boundary; each is written whole at the address it is known by, and
    none overlaps another or the RSDP. *)
Theorem acpi_tables_found t num_cpus devices : (forall a, length (rsdp_aml t a) = RSDP_LEN) -> num_cpus <= MAX_VCPUS -> zlen devices < 100 ->
  Forall (fun d => d_base d < 2 ^ 32 /\ d_size d < 2 ^ 32) devices ->
  exists blob dsdt facs fadt madt xsdt, acpi_build t num_cpus devices = Some blob /\ take RSDP_LEN blob = rsdp_aml t xsdt /\
    found blob dsdt (dsdt_aml t devices) /\ found blob facs (facs_aml t) /\ found blob fadt (fadt_aml t dsdt facs) /\ found blob madt (madt_aml t num_cpus) /\
    found blob xsdt (xsdt_aml t [fadt; madt]) /\ (facs - ACPI_ADDR) mod 64 = 0 /\
    ACPI_ADDR + 36 <= dsdt /\ dsdt + zlen (dsdt_aml t devices) <= facs /\ facs + zlen (facs_aml t) <= fadt /\ fadt + zlen (fadt_aml t dsdt facs) <= madt /\
    madt + zlen (madt_aml t num_cpus) <= xsdt /\ xsdt + zlen (xsdt_aml t [fadt; madt]) = ACPI_ADDR + zlen blob.
Proof.
  intros Hr Hn Hd Hw. unfold acpi_build. rewrite (proj2 (Z.ltb_ge _ _)), (proj2 (Z.leb_gt _ _)) by done.
  rewrite (proj2 (forallb_forall _ _)) by (intros d Hd'%list_elem_of_In; rewrite Forall_forall in Hw; specialize (Hw d Hd'); lia). cbn [negb].
  destruct (tables_place tables_new _ 1) as [b1 dsdt] eqn:E1. apply place_found in E1 as (F1 & L1 & A1 & N1 & _ & K1); [|lia|done].
  destruct (tables_place b1 _ FACS_ALIGN) as [b2 facs] eqn:E2. apply place_found in E2 as (F2 & L2 & A2 & N2 & M2 & K2); [|unfold FACS_ALIGN; lia|done].
  destruct (tables_place b2 _ 1) as [b3 fadt] eqn:E3. apply place_found in E3 as (F3 & L3 & A3 & N3 & _ & K3); [|lia|done].
  destruct (tables_place b3 _ 1) as [b4 madt] eqn:E4. apply place_found in E4 as (F4 & L4 & A4 & N4 & _ & K4); [|lia|done].
  destruct (tables_place b4 _ 1) as [b5 xsdt] eqn:E5. apply place_found in E5 as (F5 & L5 & A5 & N5 & _ & K5); [|lia|done].
  exists (tables_finish b5 (rsdp_aml t xsdt)), dsdt, facs, fadt, madt, xsdt. change (length tables_new) with 36%nat in A1.
  split; [done|]. split; [unfold tables_finish; by rewrite <- (Hr xsdt), take_app_length|].
  split_and!; try (apply finish_found; [apply Hr|]; auto); try (unfold zlen; lia).
  - unfold FACS_ALIGN in M2. rewrite <- (Z2Nat.id (facs - ACPI_ADDR)), <- (Nat2Z.inj_mod _ 64), M2 by lia. done.
  - unfold tables_finish, zlen. rewrite length_app, length_drop, Hr. unfold RSDP_LEN in *. lia.
Qed.

(** ** The state the boot vCPU enters with ([kvm/regs.rs]) *)

Definition CR0_PE_PG : Z := 0x8005_0033.
Definition CR4_PAE : Z := 0x20.
Definition EFER_LME_LMA : Z := 0x500.
Definition PDE64_PRESENT_RW_PS : Z := 0x83.
Definition PDE64_PRESENT_RW : Z := 0x03.

Record Segment := mkSegment { s_limit : Z; s_selector : Z; s_type : Z; s_db : Z; s_s : Z; s_l : Z; s_g : Z; s_dpl : Z; s_present : Z }.
Definition seg (selector : Z) (code : bool) : Segment :=
  mkSegment 0xf_ffff selector (if code then 11 else 3) (if code then 0 else 1) 1 (if code then 1 else 0) 1 0 1.

Record BootRegs := mkBootRegs { cs : Segment; ds : Segment; gdt_base : Z; gdt_limit : Z; cr3 : Z; cr0 : Z; cr4 : Z; efer : Z; rip : Z; rsi : Z; rsp : Z; rbp : Z; rflags : Z }.
Definition setup_long_mode (entry zero_page : Z) : BootRegs :=
  mkBootRegs (seg 0x08 true) (seg 0x10 false) GDT_ADDR (3 * 8 - 1) PML4_ADDR CR0_PE_PG CR4_PAE EFER_LME_LMA entry zero_page BOOT_STACK BOOT_STACK 2.

Definition write_boot_page_tables (m : GuestRam) : option GuestRam :=
  m ← write_u64 m PML4_ADDR (Z.lor PDPT_ADDR PDE64_PRESENT_RW);
  foldl (fun m i => m ← m; write_u64 m (PDPT_ADDR + i * 8) (Z.lor (Z.shiftl i 30) PDE64_PRESENT_RW_PS)) (Some m) (seqZ 0 4).

Definition GDT_CODE : Z := 0x00af_9b00_0000_ffff.
Definition GDT_DATA : Z := 0x00cf_9300_0000_ffff.
Definition write_boot_gdt (m : GuestRam) : option GuestRam :=
  m ← write_u64 m GDT_ADDR 0; m ← write_u64 m (GDT_ADDR + 8) GDT_CODE; write_u64 m (GDT_ADDR + 16) GDT_DATA.

(** ** The images of the boot *)

(** Writes one after another. *)
Fixpoint write_all (m : GuestRam) (ws : list (Z * list Z)) : option GuestRam :=
  match ws with [] => Some m | (g, data) :: ws => m ← write m g data; write_all m ws end.

Definition page_table_writes : list (Z * list Z) :=
  (PML4_ADDR, le_bytes 8 (Z.lor PDPT_ADDR PDE64_PRESENT_RW)) ::
  ((fun i => (PDPT_ADDR + i * 8, le_bytes 8 (Z.lor (Z.shiftl i 30) PDE64_PRESENT_RW_PS))) <$> seqZ 0 4).
Definition gdt_writes : list (Z * list Z) := [(GDT_ADDR, le_bytes 8 0); (GDT_ADDR + 8, le_bytes 8 GDT_CODE); (GDT_ADDR + 16, le_bytes 8 GDT_DATA)].

Lemma write_all_app m ws ws' : write_all m (ws ++ ws') = (m ← write_all m ws; write_all m ws').
Proof. revert m. induction ws as [|[g d] ws IH]; intros m; cbn; [done|]. destruct (write m g d); cbn; [apply IH|done]. Qed.

Lemma page_tables_writes m : write_boot_page_tables m = write_all m page_table_writes.
Proof.
  unfold write_boot_page_tables, page_table_writes, write_u64, store. change (seqZ 0 4) with [0; 1; 2; 3]. cbn [fmap list_fmap write_all foldl mbind option_bind].
  repeat (destruct (write _ _ _); cbn [mbind option_bind]; [|done]). done.
Qed.
Lemma gdt_writes_eq m : write_boot_gdt m = write_all m gdt_writes.
Proof. unfold write_boot_gdt, gdt_writes, write_u64, store. cbn [write_all]. repeat (destruct (write _ _ _); cbn [mbind option_bind]; [|done]). done. Qed.

Definition write_apart (a b : Z * list Z) : Prop := a.1 + zlen a.2 <= b.1 \/ b.1 + zlen b.2 <= a.1.

Lemma write_all_ok ws : forall m m', ram_ok m -> Forall (fun w => bytes_ok w.2) ws -> write_all m ws = Some m' -> ram_ok m' /\ mapped m' = mapped m.
Proof.
  induction ws as [|[g d] ws IH]; intros m m' Hm Hb; cbn; [by intros [= <-]|]. apply Forall_cons in Hb as [Hd Hb]. destruct (write m g d) as [m1|] eqn:E; [|done]. cbn. intros Hw.
  destruct (IH m1 m') as [H1 H2]; [by eapply write_ram_ok|done|done|]. split; [done|]. rewrite H2. by eapply write_mapped.
Qed.

Lemma write_all_total ws : forall m, Forall (fun w => contains m w.1 (zlen w.2) = true) ws -> is_Some (write_all m ws).
Proof.
  induction ws as [|[g d] ws IH]; intros m Hc; cbn; [by eexists|]. apply Forall_cons in Hc as [Hg Hc]. apply write_contains in Hg as [m1 E]. cbn in E. rewrite E. cbn. apply IH.
  eapply Forall_impl; [exact Hc|]. intros w. cbn. by rewrite (contains_mapped m m1) by (by eapply write_mapped).
Qed.

Lemma write_all_keeps ws : forall m m' h len, ram_ok m -> Forall (fun w => bytes_ok w.2) ws -> write_all m ws = Some m' -> 0 <= len ->
  Forall (fun w => h + len <= w.1 \/ w.1 + zlen w.2 <= h) ws -> read m' h len = read m h len.
Proof.
  induction ws as [|[g d] ws IH]; intros m m' h len Hm Hb; cbn; [by intros [= <-]|]. apply Forall_cons in Hb as [Hd Hb]. destruct (write m g d) as [m1|] eqn:E; [|done]. cbn.
  intros Hw Hl [Hg Hf]%Forall_cons. rewrite (IH m1 m') by (try done; by eapply write_ram_ok). by eapply write_read_disjoint.
Qed.

(** Writes that lie apart all read back. *)
Lemma write_all_reads ws : forall m m', ram_ok m -> Forall (fun w => bytes_ok w.2) ws -> ForallOrdPairs write_apart ws -> write_all m ws = Some m' ->
  Forall (fun w => read m' w.1 (zlen w.2) = Some w.2) ws.
Proof.
  induction ws as [|[g d] ws IH]; intros m m' Hm Hb Ha; cbn; [constructor|]. apply Forall_cons in Hb as [Hd Hb]. inversion Ha as [|? ? Hap Ha']; subst.
  destruct (write m g d) as [m1|] eqn:E; [|done]. cbn in *. intros Hw. assert (ram_ok m1) by (by eapply write_ram_ok). constructor; [|by eapply IH]. cbn.
  assert (Forall (fun w => g + zlen d <= w.1 \/ w.1 + zlen w.2 <= g) ws) as Hg by (eapply List.Forall_impl; [|exact Hap]; intros w [?|?]; cbn in *; lia).
  rewrite (write_all_keeps ws m1 m') by (try done; unfold zlen; lia). exact (write_read_same m g d m1 Hm Hd E).
Qed.

(** The images in the order [boot] writes them: the kernel, the command line and the
    zero page by the loader, then the initramfs, the MP table, the ACPI tables, the page
    tables and the descriptors. *)
Definition boot_writes (kload : Z) (image cmdline zero_page : list Z) (initrd : option (Z * list Z)) (mp acpi : list Z) : list (Z * list Z) :=
  [(kload, image); (CMDLINE_ADDR, cmdline); (ZERO_PAGE, zero_page)] ++ option_list initrd ++ [(MPTABLE_ADDR, mp); (ACPI_ADDR, acpi)] ++ page_table_writes ++ gdt_writes.

(** The walk of the processor through a page map of one level of tables, over 1 GiB pages. *)
Definition entry_addr (e : Z) : Z := Z.land e 0x000f_ffff_ffff_f000.
Definition walk (m : GuestRam) (root va : Z) : option Z :=
  e ← read_u64 m (entry_addr root + 8 * Z.land (Z.shiftr va 39) 511);
  if negb (Z.testbit e 0) then None
  else d ← read_u64 m (entry_addr e + 8 * Z.land (Z.shiftr va 30) 511);
  if Z.testbit d 0 && Z.testbit d 7 then Some (Z.land d 0x000f_ffff_c000_0000 + va mod 2 ^ 30) else None.

(** The fields of a descriptor. *)
Definition decode (selector e : Z) : Segment :=
  let f lo n := Z.land (Z.shiftr e lo) (Z.ones n) in
  mkSegment (f 0 16 + Z.shiftl (f 48 4) 16) selector (f 40 4) (f 54 1) (f 44 1) (f 53 1) (f 55 1) (f 45 2) (f 47 1).

Lemma read_u64_write m g v : read m g (zlen (le_bytes 8 v)) = Some (le_bytes 8 v) -> 0 <= v < 2 ^ 64 -> read_u64 m g = Some v.
Proof. rewrite zlen_le_bytes. intros H Hv. unfold read_u64, Memory.load. rewrite H. cbn [fmap option_fmap option_map]. by rewrite le_val_le_bytes. Qed.

Lemma small_writes_apart : ForallOrdPairs write_apart (page_table_writes ++ gdt_writes).
Proof.
  unfold page_table_writes, gdt_writes. change (seqZ 0 4) with [0; 1; 2; 3]. cbn [fmap list_fmap app].
  repeat (constructor; [repeat constructor; unfold write_apart; cbn [fst snd]; rewrite !zlen_le_bytes; unfold PML4_ADDR, PDPT_ADDR, GDT_ADDR; lia|]). constructor.
Qed.
Lemma small_writes_bytes : Forall (fun w => bytes_ok w.2) (page_table_writes ++ gdt_writes).
Proof.
  unfold page_table_writes, gdt_writes. change (seqZ 0 4) with [0; 1; 2; 3]. cbn [fmap list_fmap app].
  repeat (apply Forall_cons_2; [apply le_bytes_ok|]). apply Forall_nil_2.
Qed.
Lemma small_writes_range : Forall (fun w => PML4_ADDR <= w.1 /\ w.1 + zlen w.2 <= GDT_ADDR + 24 /\ 0 < zlen w.2) (page_table_writes ++ gdt_writes).
Proof.
  unfold page_table_writes, gdt_writes. change (seqZ 0 4) with [0; 1; 2; 3]. cbn [fmap list_fmap app].
  repeat constructor; cbn [fst snd]; rewrite ?zlen_le_bytes; unfold PML4_ADDR, PDPT_ADDR, GDT_ADDR; lia.
Qed.

(** ** Claims *)

(** The boot vCPU enters with memory it can use. Where guest RAM has the low pages,
    writing the page tables and the descriptors succeeds, and then the processor's walk
    from the root the registers name maps every address below 4 GiB to itself, and the
    code and data descriptors in memory are the segments the registers hold. *)
Theorem boot_vcpu_identity m entry zero_page : ram_ok m -> contains m PML4_ADDR 0x4000 = true ->
  exists m1 m2, write_boot_page_tables m = Some m1 /\ write_boot_gdt m1 = Some m2 /\
  let r := setup_long_mode entry zero_page in
  (forall va, 0 <= va < 2 ^ 32 -> walk m2 (cr3 r) va = Some va) /\
  (decode (s_selector (cs r)) <$> read_u64 m2 (gdt_base r + s_selector (cs r))) = Some (cs r) /\
  (decode (s_selector (ds r)) <$> read_u64 m2 (gdt_base r + s_selector (ds r))) = Some (ds r) /\ s_selector (ds r) + 7 = gdt_limit r.
Proof.
  intros Hm Hc. destruct (write_all_total (page_table_writes ++ gdt_writes) m) as [m2 Hw].
  { eapply Forall_impl; [exact small_writes_range|]. intros [g d] (H1 & H2 & H3). cbn in *. replace g with (PML4_ADDR + (g - PML4_ADDR)) by lia.
    eapply contains_sub; [done|exact Hc|..]; unfold GDT_ADDR, PML4_ADDR in *; lia. }
  pose proof (write_all_reads _ _ _ Hm small_writes_bytes small_writes_apart Hw) as Hr. rewrite write_all_app in Hw.
  destruct (write_all m page_table_writes) as [m1|] eqn:E1; [|done]. cbn in Hw. exists m1, m2. rewrite page_tables_writes, gdt_writes_eq. split; [done|]. split; [done|].
  unfold page_table_writes, gdt_writes in Hr. change (seqZ 0 4) with [0; 1; 2; 3] in Hr. cbn [fmap list_fmap app] in Hr.
  rewrite !Forall_cons in Hr. cbn [fst snd] in Hr. destruct Hr as (R0 & P0 & P1 & P2 & P3 & G0 & G1 & G2 & _).
  apply read_u64_write in R0; [|vm_compute; split; congruence].
  apply read_u64_write in P0; [|vm_compute; split; congruence].
  apply read_u64_write in P1; [|vm_compute; split; congruence].
  apply read_u64_write in P2; [|vm_compute; split; congruence]. apply read_u64_write in P3; [|vm_compute; split; congruence]. apply read_u64_write in G1; [|vm_compute; split; congruence]. apply read_u64_write in G2; [|vm_compute; split; congruence]. cbn [setup_long_mode cr3 cs ds seg s_selector gdt_base gdt_limit].
  split_and!; [|by rewrite G1|by rewrite G2|done]. intros va Hva. unfold walk. change (entry_addr PML4_ADDR) with PML4_ADDR.
  assert (Z.shiftr va 39 = 0) as -> by (rewrite Z.shiftr_div_pow2 by lia; apply Z.div_small; lia). change (PML4_ADDR + 8 * Z.land 0 511) with PML4_ADDR. rewrite R0.
  cbn [mbind option_bind]. change (negb (Z.testbit (Z.lor PDPT_ADDR PDE64_PRESENT_RW) 0)) with false. cbn iota. change (entry_addr (Z.lor PDPT_ADDR PDE64_PRESENT_RW)) with PDPT_ADDR.
  rewrite Z.shiftr_div_pow2 by lia. pose proof (Z.div_mod va (2 ^ 30) ltac:(lia)). assert (0 <= va / 2 ^ 30 < 4) by (split; [apply Z.div_pos; lia|apply Z.div_lt_upper_bound; lia]).
  assert (va / 2 ^ 30 = 0 \/ va / 2 ^ 30 = 1 \/ va / 2 ^ 30 = 2 \/ va / 2 ^ 30 = 3) as [E|[E|[E|E]]] by lia; rewrite E in *;
    [change (8 * Z.land 0 511) with (0 * 8); rewrite P0|change (8 * Z.land 1 511) with (1 * 8); rewrite P1|change (8 * Z.land 2 511) with (2 * 8); rewrite P2|change (8 * Z.land 3 511) with (3 * 8); rewrite P3];
    cbn [mbind option_bind]; match goal with |- (if ?b then _ else _) = _ => change b with true end; cbn iota; f_equal;
    match goal with |- ?x + _ = _ => let v := eval vm_compute in x in change x with v end; lia.
Qed.

(** C8. Nothing the boot writes overwrites anything else. For up to 254 vCPUs, with a
    kernel from 1 MiB up, a command line within its 64 KiB, a zero page of a page, ACPI
    tables that end by 1 MiB and an initramfs after the kernel, every image the boot
    wrote reads back from guest RAM as it was written once the boot is done. *)
Theorem boot_images_intact m m' kload image cmdline zero_page initrd n mp acpi : ram_ok m ->
  HIGH_MEM_START <= kload -> zlen cmdline <= CMDLINE_MAX -> zlen zero_page = 0x1000 -> 0 <= n -> mptable_build n = Some mp ->
  ACPI_ADDR + zlen acpi <= HIGH_MEM_START -> (forall a d, initrd = Some (a, d) -> kload + zlen image <= a /\ bytes_ok d) ->
  bytes_ok image -> bytes_ok cmdline -> bytes_ok zero_page -> bytes_ok acpi ->
  let ws := boot_writes kload image cmdline zero_page initrd mp acpi in
  write_all m ws = Some m' -> Forall (fun w => read m' w.1 (zlen w.2) = Some w.2) ws.
Proof.
  intros Hm Hk Hcl Hzp Hn Hmp Hac Hin B1 B2 B3 B4 ws Hw. assert (bytes_ok mp /\ MPTABLE_ADDR + zlen mp <= ACPI_ADDR) as [B5 Hml].
  { apply mptable_size in Hmp; [|done]. done. }
  assert (forall l : list Z, 0 <= zlen l) as Hz by (intros; unfold zlen; lia). pose proof (Hz image). pose proof (Hz cmdline). pose proof (Hz mp). pose proof (Hz acpi).
  eapply write_all_reads; [exact Hm|..|exact Hw]; unfold ws, boot_writes.
  - cbn [app]. repeat (constructor; [done|]). apply Forall_app_2; [destruct initrd as [[a d]|]; cbn; [|constructor]; constructor; [by apply (Hin a d)|constructor]|].
    repeat (constructor; [done|]). apply small_writes_bytes.
  - pose proof small_writes_range as Hs. assert (forall x, (forall w, PML4_ADDR <= w.1 /\ w.1 + zlen w.2 <= GDT_ADDR + 24 /\ 0 < zlen w.2 -> write_apart x w) -> List.Forall (write_apart x) (page_table_writes ++ gdt_writes)) as Hsm.
    { intros x Hx. eapply List.Forall_impl; [|exact Hs]. exact Hx. }
    unfold write_apart, CMDLINE_ADDR, CMDLINE_MAX, ZERO_PAGE, MPTABLE_ADDR, EBDA_START, ACPI_ADDR, PML4_ADDR, GDT_ADDR, HIGH_MEM_START in *.
    destruct initrd as [[a d]|]; cbn [option_list app]; [destruct (Hin a d eq_refl) as [Ha _]|];
      repeat (apply FOP_cons; [repeat (apply Forall_cons_2; [cbn [fst snd]; lia|]); apply Hsm; intros w Hr; cbn [fst snd]; lia|]); apply small_writes_apart.
Qed.

(** ** A boot of a small guest *)

Module Example.

Definition boot_ram : GuestRam := mkGuestRam [mkRamRegion 0 0x20_0000 0] ∅.
Lemma boot_ram_ok : ram_ok boot_ram.
Proof.
  split; cbn.
  - repeat constructor; cbn; lia.
  - intros a b ->%list_elem_of_singleton ->%list_elem_of_singleton. by left.
  - intros a b ->%list_elem_of_singleton ->%list_elem_of_singleton. by left.
  - apply map_Forall_empty.
Qed.

Definition line : list Z := ascii "quiet rdinit=/init -- sh".
Lemma splice_reaches_kernel_witness : splice_kernel_args line (ascii "console=ttyS0") = ascii "quiet rdinit=/init console=ttyS0 -- sh" /\
  kernel_args (splice_kernel_args line (ascii "console=ttyS0")) = [ascii "quiet"; ascii "rdinit=/init"; ascii "console=ttyS0"].
Proof.
  split; [vm_compute; reflexivity|]. assert (Forall (fun c => is_whitespace c = true -> c = SPACE) line) as Hl by (vm_compute; repeat constructor; done).
  rewrite (proj1 (splice_reaches_kernel line (ascii "console=ttyS0") ltac:(by rewrite Forall_forall in Hl) ltac:(by apply (bool_decide_unpack _)))).
  vm_compute. reflexivity.
Defined.

(** Tables that are their addresses. *)
Definition aml : Aml := mkAml (fun l => [1; zlen l]) (replicate 64 2) (fun a b => [a; b]) (fun n => [n]) (fun l => l) (fun a => a :: replicate 35 0).
Lemma acpi_tables_found_witness : exists blob xsdt, acpi_build aml 2 [mkMmioDevice VIRTIO_BLK_BASE VIRTIO_SIZE VIRTIO_BLK_GSI] = Some blob /\ take RSDP_LEN blob = rsdp_aml aml xsdt.
Proof.
  destruct (acpi_tables_found aml 2 [mkMmioDevice VIRTIO_BLK_BASE VIRTIO_SIZE VIRTIO_BLK_GSI]) as (blob & ? & ? & ? & ? & xsdt & H1 & H2 & _).
  - done.
  - done.
  - done.
  - constructor; [done|constructor].
  - by exists blob, xsdt.
Defined.

Lemma boot_vcpu_identity_witness : exists m1 m2, write_boot_page_tables boot_ram = Some m1 /\ write_boot_gdt m1 = Some m2 /\ walk m2 PML4_ADDR 0xd000_0034 = Some 0xd000_0034.
Proof.
  destruct (boot_vcpu_identity boot_ram (HIGH_MEM_START + KERNEL_ENTRY_OFF) ZERO_PAGE boot_ram_ok ltac:(vm_compute; reflexivity)) as (m1 & m2 & H1 & H2 & H3 & _).
  exists m1, m2. split; [done|]. split; [done|]. apply H3. lia.
Defined.

Definition one_mp : list Z := default [] (mptable_build 1).
Definition blank_page : list Z := replicate (Z.to_nat 0x1000) 0.
Lemma blank_page_ok : bytes_ok blank_page /\ zlen blank_page = 0x1000.
Proof. split; [apply Forall_replicate; done|]. unfold zlen, blank_page. by rewrite length_replicate. Qed.
Definition one_boot : list (Z * list Z) := boot_writes HIGH_MEM_START [77; 90] line blank_page (Some (0x1f_0000, [1; 2])) one_mp [3; 4].
Lemma boot_images_intact_witness : exists m', write_all boot_ram one_boot = Some m' /\ read m' 0x1f_0000 2 = Some [1; 2].
Proof.
  assert (forallb (fun w => contains boot_ram w.1 (zlen w.2)) one_boot = true) as Hc by (vm_compute; reflexivity).
  destruct (write_all_total one_boot boot_ram) as [m' Hw].
  { apply Forall_forall. intros w Hw. rewrite forallb_forall in Hc. apply Hc. by apply list_elem_of_In. }
  exists m'. split; [done|]. assert (mptable_build 1 = Some one_mp) as Hmp by (vm_compute; reflexivity).
  assert (bytes_ok line) as Hline by (apply ascii_ok).
  assert (Forall (fun w => read m' w.1 (zlen w.2) = Some w.2) one_boot) as Hall.
  { refine (boot_images_intact boot_ram m' HIGH_MEM_START [77; 90] line blank_page (Some (0x1f_0000, [1; 2])) 1 one_mp [3; 4] boot_ram_ok
      _ _ _ _ Hmp _ _ _ Hline (proj1 blank_page_ok) _ Hw); [lia|by vm_compute|apply blank_page_ok|lia|by vm_compute| |by repeat constructor|by repeat constructor].
    intros a d [= <- <-]. split; [by vm_compute|by repeat constructor]. }
  rewrite Forall_forall in Hall. apply (Hall (0x1f_0000, [1; 2])). unfold one_boot, boot_writes. cbn [app option_list]. do 3 right. by left.
Defined.

End Example.
