(* ===== verification/Config.v ===== *)
(** * The configuration of a boot ([src/config.rs], with [open_disks] of [src/devices/virtio/block.rs])

    The [--fs] and [--disk] arguments, the checks every backend makes of the exports and
    the disks, and the disks the guest then has. Strings are their bytes. *)

From stdpp Require Import strings.
From S2P Require Import Prelude Memory Irq Virtio Block FsIo.
Local Open Scope Z_scope.

(** A literal of the code as bytes. *)
Definition lit (s : string) : list Z := (fun c => Z.of_nat (Ascii.nat_of_ascii c)) <$> String.list_ascii_of_string s.

(** [format!("{:x}", v)] for an unsigned integer; a [u64] has at most 16 digits. *)
Fixpoint hex_loop (fuel : nat) (v : Z) (acc : list Z) : list Z :=
  match fuel with
  | O => acc
  | S fuel => let d := v mod 16 in let acc := (if d <? 10 then 48 + d else 87 + d) :: acc in if v <? 16 then acc else hex_loop fuel (v / 16) acc
  end.
Definition lower_hex (v : Z) : list Z := hex_loop 16 v [].

Definition COMMA : Z := 44.
Definition EQUALS : Z := 61.

(** [split] and [split_once] on a byte. *)
Fixpoint split_on (c : Z) (l : list Z) : list (list Z) :=
  match l with
  | [] => [[]]
  | x :: l => if x =? c then [] :: split_on c l else match split_on c l with w :: ws => (x :: w) :: ws | [] => [[x]] end
  end.
Fixpoint split_once (c : Z) (l : list Z) : option (list Z * list Z) :=
  match l with
  | [] => None
  | x :: l => if x =? c then Some ([], l) else '(k, v) ← split_once c l; Some (x :: k, v)
  end.

(** [str::parse] of an unsigned integer up to [max]. *)
Fixpoint digits (max acc : Z) (l : list Z) : option Z :=
  match l with
  | [] => Some acc
  | c :: l => if (48 <=? c) && (c <=? 57) then let v := acc * 10 + (c - 48) in if max <? v then None else digits max v l else None
  end.
Definition parse_uint (max : Z) (l : list Z) : option Z :=
  match l with
  | [] => None
  | c :: r => digits max 0 (if (c =? 43) && negb (bool_decide (r = [])) then r else l)
  end.
Definition USIZE_MAX : Z := 2 ^ 64 - 1.

(** ** Exports *)

Inductive ShareMode := ReadOnly | ReadWrite.
#[export] Instance ShareMode_eq : EqDecision ShareMode.
Proof. solve_decision. Defined.
Inductive CachePolicy := CacheAuto | CacheAlways | CacheNone.
Record FsShare := mkShare { path : list Z; s_tag : list Z; mode : ShareMode; cache : CachePolicy; uid : Z; gid : Z }.
Record FsConfig := mkFs { tag : list Z; socket : list Z; num_queues : Z; queue_size : Z }.
Inductive FsSpec := Share (s : FsShare) | Socket (f : FsConfig).

Definition DEFAULT_NUM_QUEUES : Z := 1.
Definition DEFAULT_QUEUE_SIZE : Z := 1024.
Definition MAX_QUEUE_SIZE : Z := 32768.
Definition MAX_TAG_LEN : Z := 36.

Inductive ConfigError :=
  | NotKeyValue | UnknownKey | GivenTwice | NoTag | BadTag | TwoKinds | NoPathOrSocket | OtherForm (key : list Z) | NotACount | ZeroQueues | BadQueueSize
  | BadReadonly | BadCache | BadId | DuplicateTag (t : list Z) | TooManyQueues (t : list Z) | Overlap | NoPath | BadSerial | TooManyDisks | SameSerial (s : list Z)
  | NoMetadata | SameImage (earlier : nat) | NotOpened.

(** [u16::is_power_of_two]. *)
Definition is_power_of_two (n : Z) : bool := (0 <? n) && (Z.land n (n - 1) =? 0).

Definition tag_ok (t : list Z) : bool := negb (bool_decide (t = []) || (MAX_TAG_LEN <? zlen t) || bool_decide (0 ∈ t)).

Definition validate (f : FsConfig) : option ConfigError :=
  if negb (tag_ok (tag f)) then Some BadTag
  else if num_queues f =? 0 then Some ZeroQueues
  else if negb (is_power_of_two (queue_size f)) || (MAX_QUEUE_SIZE <? queue_size f) then Some BadQueueSize
  else None.

Fixpoint key_values_loop (allowed : list (list Z)) (l : list (list Z)) (fields : list (list Z * list Z)) : list (list Z * list Z) + ConfigError :=
  match l with
  | [] => inl fields
  | field :: l =>
      match split_once EQUALS field with
      | None => inr NotKeyValue
      | Some (key, value) =>
          if negb (bool_decide (key ∈ allowed)) then inr UnknownKey
          else if bool_decide (key ∈ fields.*1) then inr GivenTwice
          else key_values_loop allowed l (fields ++ [(key, value)])
      end
  end.
Definition key_values (spec : list Z) (allowed : list (list Z)) := key_values_loop allowed (split_on COMMA spec) [].

Definition get (fields : list (list Z * list Z)) (key : list Z) : option (list Z) := snd <$> List.find (fun p => bool_decide (p.1 = key)) fields.
Definition given (o : option (list Z)) : option (list Z) := match o with Some [] => None | o => o end.

Definition FS_KEYS : list (list Z) :=
  lit <$> ["tag"; "socket"; "num_queues"; "queue_size"; "path"; "readonly"; "cache"; "uid"; "gid"]%string.
Definition other (fields : list (list Z * list Z)) (keys : list (list Z)) : option ConfigError :=
  OtherForm <$> List.find (fun k => bool_decide (is_Some (get fields k))) keys.

Definition parse_socket (fields : list (list Z * list Z)) (t sock : list Z) : FsSpec + ConfigError :=
  match other fields (lit <$> ["readonly"; "cache"; "uid"; "gid"]%string) with
  | Some e => inr e
  | None =>
      match (match get fields (lit "num_queues") with None => Some DEFAULT_NUM_QUEUES | Some n => parse_uint USIZE_MAX n end) with
      | None => inr NotACount
      | Some nq =>
          match (match get fields (lit "queue_size") with None => Some DEFAULT_QUEUE_SIZE | Some n => parse_uint (2 ^ 16 - 1) n end) with
          | None => inr BadQueueSize
          | Some qs => let fs := mkFs t sock nq qs in match validate fs with Some e => inr e | None => inl (Socket fs) end
          end
      end
  end.

Definition parse_share (fields : list (list Z * list Z)) (t p : list Z) : FsSpec + ConfigError :=
  match other fields (lit <$> ["num_queues"; "queue_size"]%string) with
  | Some e => inr e
  | None =>
      match (match get fields (lit "readonly") with
             | None => Some ReadWrite
             | Some v => if bool_decide (v = lit "off") then Some ReadWrite else if bool_decide (v = lit "on") then Some ReadOnly else None end) with
      | None => inr BadReadonly
      | Some md =>
          match (match get fields (lit "cache") with
                 | None => Some CacheAuto
                 | Some v => if bool_decide (v = lit "auto") then Some CacheAuto else if bool_decide (v = lit "always") then Some CacheAlways
                             else if bool_decide (v = lit "none") then Some CacheNone else None end) with
          | None => inr BadCache
          | Some c =>
              let id key := match get fields key with None => Some 0 | Some v => parse_uint (2 ^ 32 - 1) v end in
              match id (lit "uid"), id (lit "gid") with
              | Some u, Some g => inl (Share (mkShare p t md c u g))
              | _, _ => inr BadId
              end
          end
      end
  end.

(** [FsSpec::parse]. *)
Definition fs_parse (spec : list Z) : FsSpec + ConfigError :=
  match key_values spec FS_KEYS with
  | inr e => inr e
  | inl fields =>
      match get fields (lit "tag") with
      | None => inr NoTag
      | Some t =>
          if negb (tag_ok t) then inr BadTag
          else match given (get fields (lit "path")), given (get fields (lit "socket")) with
          | Some _, Some _ => inr TwoKinds
          | None, None => inr NoPathOrSocket
          | None, Some s => parse_socket fields t s
          | Some p, None => parse_share fields t p
          end
      end
  end.

Fixpoint check_fs_loop (vcpus : Z) (seen : list (list Z)) (exports : list FsConfig) : option ConfigError :=
  match exports with
  | [] => None
  | e :: exports =>
      match validate e with
      | Some err => Some err
      | None =>
          if bool_decide (tag e ∈ seen) then Some (DuplicateTag (tag e))
          else if vcpus <? num_queues e then Some (TooManyQueues (tag e))
          else check_fs_loop vcpus (tag e :: seen) exports
      end
  end.
Definition check_fs (exports : list FsConfig) (vcpus : Z) : option ConfigError := check_fs_loop vcpus [] exports.

(** A path as its components; [canonicalize] is the host's. *)
Inductive Component := RootDir | CurDir | ParentDir | Normal (name : list Z).
#[export] Instance Component_eq : EqDecision Component.
Proof. solve_decision. Defined.

Definition SLASH : Z := 47.
Definition component (first : bool) (w : list Z) : option Component :=
  if bool_decide (w = []) then None
  else if bool_decide (w = lit ".") then (if first then Some CurDir else None)
  else if bool_decide (w = lit "..") then Some ParentDir
  else Some (Normal w).
Definition components (p : list Z) : list Component :=
  match split_on SLASH p with
  | [] => []
  | w :: ws =>
      let rooted := bool_decide (w = []) && negb (bool_decide (ws = [])) in
      (if rooted then [RootDir] else []) ++ option_list (component true w) ++ omap (component false) ws
  end.

Definition conflict (a b : FsShare * list Component) : bool :=
  negb (bool_decide (mode a.1 = mode b.1)) && (bool_decide (a.2 = b.2) || bool_decide (b.2 `prefix_of` a.2) || bool_decide (a.2 `prefix_of` b.2)).

Fixpoint overlap_loop (l : list (FsShare * list Component)) : bool :=
  match l with [] => false | a :: l => existsb (conflict a) l || overlap_loop l end.
Definition check_export_overlap (canonicalize : list Z -> option (list Z)) (shares : list FsShare) : option ConfigError :=
  let roots := (fun s => (s, components (default (path s) (canonicalize (path s))))) <$> shares in
  if overlap_loop roots then Some Overlap else None.

(** ** Disks *)

Definition MAX_DISKS : Z := 4.
Record DiskConfig := mkDisk { d_path : list Z; d_read_only : bool; d_serial : option (list Z) }.
Definition disk_rw (p : list Z) : DiskConfig := mkDisk p false None.

Definition check_serial (s : list Z) : bool :=
  negb (bool_decide (s = []) || (SERIAL_LEN <? zlen s)) && forallb (fun b => (32 <=? b) && (b <=? 126)) s.

(** [DiskConfig::parse]. *)
Definition disk_parse (spec : list Z) : DiskConfig + ConfigError :=
  if negb (bool_decide (take 5 spec = lit "path=")) then (if bool_decide (spec = []) then inr NoPath else inl (disk_rw spec))
  else match key_values spec (lit <$> ["path"; "readonly"; "serial"]%string) with
  | inr e => inr e
  | inl fields =>
      match given (get fields (lit "path")) with
      | None => inr NoPath
      | Some p =>
          match (match get fields (lit "readonly") with
                 | None => Some false
                 | Some v => if bool_decide (v = lit "off") then Some false else if bool_decide (v = lit "on") then Some true else None end) with
          | None => inr BadReadonly
          | Some ro =>
              match get fields (lit "serial") with
              | None => inl (mkDisk p ro None)
              | Some s => if check_serial s then inl (mkDisk p ro (Some s)) else inr BadSerial
              end
          end
      end
  end.

Definition disk_serial (index : nat) : list Z := lit "disk" ++ decimal (Z.of_nat index).
Definition serial_at (d : DiskConfig) (index : nat) : list Z := default (disk_serial index) (d_serial d).
Definition serials (disks : list DiskConfig) : list (list Z) := imap (fun i d => serial_at d i) disks.

Fixpoint same_serial (seen l : list (list Z)) : option ConfigError :=
  match l with [] => None | s :: l => if bool_decide (s ∈ seen) then Some (SameSerial s) else same_serial (seen ++ [s]) l end.

Definition check_disks (disks : list DiskConfig) : option ConfigError :=
  if MAX_DISKS <? zlen disks then Some TooManyDisks
  else if negb (forallb (fun d => match d_serial d with Some s => check_serial s | None => true end) disks) then Some BadSerial
  else same_serial [] (serials disks).

Section Disks.
Context {F L : Type} `{BackingFile F} `{IrqLine L}.

(** What the host answers for one disk: the identity of the image at its path, and the
    file it opens and locks with the identity it has then. *)
Record HostDisk := mkHostDisk { meta_id : option Z; host_file : option F; open_id : Z }.

Fixpoint open_loop (disks : list DiskConfig) (hosts : list HostDisk) (index : nat) (opened : list (VirtioBlk F L * Z * bool)) : list (VirtioBlk F L) + ConfigError :=
  match disks, hosts with
  | disk :: disks, h :: hosts =>
      match meta_id h with
      | None => inr NoMetadata
      | Some id =>
          match list_find (fun o => o.1.2 = id) opened with
          | Some (earlier, o) =>
              if negb o.2 || negb (d_read_only disk) then inr (SameImage earlier)
              else match open_as (host_file h) (open_id h) (d_read_only disk) (serial_at disk index) with
              | None => inr NotOpened
              | Some b => open_loop disks hosts (S index) (opened ++ [(b, id, d_read_only disk)])
              end
          | None =>
              match open_as (host_file h) (open_id h) (d_read_only disk) (serial_at disk index) with
              | None => inr NotOpened
              | Some b => open_loop disks hosts (S index) (opened ++ [(b, id, d_read_only disk)])
              end
          end
      end
  | _, _ => inl (opened.*1.*1)
  end.

Definition open_disks (disks : list DiskConfig) (hosts : list HostDisk) : list (VirtioBlk F L) + ConfigError :=
  match check_disks disks with Some e => inr e | None => open_loop disks hosts 0 [] end.

End Disks.
Arguments HostDisk : clear implicits.

(** * What the checks show *)

Lemma same_serial_spec l : forall seen, same_serial seen l = None <-> NoDup l /\ forall s, s ∈ l -> s ∉ seen.
Proof.
  induction l as [|s l IH]; intros seen; cbn; [split; [intros _; split; [constructor|by intros ? ?%elem_of_nil]|done]|].
  case_bool_decide as E.
  - split; [done|]. intros [_ H]. by destruct (H s ltac:(by left)).
  - rewrite IH, NoDup_cons. split.
    + intros [Hn Hl]. split_and!; [|done|].
      * intros Hs. apply (Hl s Hs), elem_of_app. right. by left.
      * intros t [->|Ht]%elem_of_cons; [done|]. intros Hs. apply (Hl t Ht), elem_of_app. by left.
    + intros [[Hs Hn] Hl]. split; [done|]. intros t Ht [?| ->%list_elem_of_singleton]%elem_of_app; [by apply (Hl t); [right|]|done].
Qed.

Lemma check_serial_spec s : check_serial s = true -> s <> [] /\ zlen s <= SERIAL_LEN /\ Forall (fun b => 32 <= b <= 126) s.
Proof.
  unfold check_serial. rewrite andb_true_iff, negb_true_iff, orb_false_iff, Z.ltb_ge, bool_decide_eq_false, forallb_forall. intros [[H1 H2] H3].
  split_and!; [done|done|]. apply Forall_forall. intros b Hb%list_elem_of_In. specialize (H3 b Hb). lia.
Qed.

(** The bytes [GET_ID] answers with. *)
Definition get_id (s : list Z) : list Z := s ++ replicate (Z.to_nat SERIAL_LEN - length s) 0.

Lemma get_id_inj s t : 0 ∉ s -> 0 ∉ t -> get_id s = get_id t -> s = t.
Proof.
  unfold get_id. intros Hs Ht E.
  assert (forall (a b : list Z) n k, 0 ∉ a -> 0 ∉ b -> a ++ replicate n 0 = b ++ replicate k 0 -> a = b) as H.
  { induction a as [|x a IH]; intros b n k Ha Hb Eab; destruct b as [|y b]; [done| | |].
    - destruct n; cbn in Eab; [done|]. injection Eab as <- _. destruct Hb. by left.
    - destruct k; cbn in Eab; [done|]. injection Eab as -> _. destruct Ha. by left.
    - cbn in Eab. injection Eab as -> Eab. f_equal. eapply IH; [| |exact Eab]; intros ?; [apply Ha|apply Hb]; by right. }
  by eapply H.
Qed.

Lemma decimal_chars v : Forall (fun b => 48 <= b <= 57) (decimal v).
Proof.
  unfold decimal. assert (forall fuel v acc, Forall (fun b => 48 <= b <= 57) acc -> Forall (fun b => 48 <= b <= 57) (decimal_loop fuel v acc)) as H.
  { induction fuel as [|fuel IH]; intros w acc Ha; cbn [decimal_loop]; [done|]. assert (Forall (fun b => 48 <= b <= 57) (0x30 + w mod 10 :: acc)).
    { constructor; [|done]. pose proof (Z.mod_pos_bound w 10). lia. }
    destruct (w <? 10); [done|]. by apply IH. }
  by apply H.
Qed.

Lemma disk_serial_ok i : 0 ∉ disk_serial i.
Proof.
  unfold disk_serial. rewrite elem_of_app. intros [Hin|Hin]; [by apply (bool_decide_unpack (0 ∉ lit "disk")) in Hin|].
  pose proof (decimal_chars (Z.of_nat i)) as Hd. rewrite Forall_forall in Hd. specialize (Hd 0 Hin). lia.
Qed.

Lemma serial_at_ok d i : match d_serial d with Some s => check_serial s | None => true end = true -> 0 ∉ serial_at d i.
Proof.
  unfold serial_at. destruct (d_serial d) as [s|]; cbn.
  - intros (_ & _ & H)%check_serial_spec Hin. rewrite Forall_forall in H. specialize (H 0 Hin). lia.
  - intros _. apply disk_serial_ok.
Qed.

Section OpenDisks.
Context {F L : Type} `{BackingFile F} `{IrqLine L}.
Implicit Types l : list (VirtioBlk F L * Z * bool).

Definition exclusive l : Prop := forall i j a b, i <> j -> l !! i = Some a -> l !! j = Some b -> a.1.2 = b.1.2 -> a.2 = true /\ b.2 = true.

Lemma exclusive_snoc l n : exclusive l -> (forall i a, l !! i = Some a -> a.1.2 = n.1.2 -> a.2 = true /\ n.2 = true) -> exclusive (l ++ [n]).
Proof.
  intros He Hn i j a b Hij Ha Hb E. destruct (decide (i < length l)%nat) as [Hi|Hi], (decide (j < length l)%nat) as [Hj|Hj].
  - rewrite lookup_app_l in Ha, Hb by done. by eapply He.
  - rewrite lookup_app_l in Ha by done. rewrite lookup_app_r in Hb by lia. apply list_lookup_singleton_Some in Hb as [_ <-]. by eapply Hn.
  - rewrite lookup_app_l in Hb by done. rewrite lookup_app_r in Ha by lia. apply list_lookup_singleton_Some in Ha as [_ <-]. destruct (Hn j b Hb); [done|]. done.
  - rewrite lookup_app_r in Ha, Hb by lia. apply list_lookup_singleton_Some in Ha as [? _], Hb as [? _]. lia.
Qed.

(** The disk opened at each position. *)
Definition opened_from (index : nat) (d : DiskConfig) (h : HostDisk F) (n : VirtioBlk F L * Z * bool) : Prop :=
  exists f, meta_id h = Some n.1.2 /\ n.2 = d_read_only d /\ host_file h = Some f /\ zlen (serial_at d index) <= SERIAL_LEN /\
    n.1.1 = Block.opened f (open_id h) (d_read_only d) (serial_at d index).

Lemma open_loop_spec disks : forall hosts index l bs, length hosts = length disks -> exclusive l -> open_loop disks hosts index l = inl bs ->
  exists new, bs = (l ++ new).*1.*1 /\ length new = length disks /\ exclusive (l ++ new) /\
    forall i d h n, disks !! i = Some d -> hosts !! i = Some h -> new !! i = Some n -> opened_from (index + i) d h n.
Proof.
  induction disks as [|d disks IH]; intros [|h hosts] index l bs Hl He; try done; cbn [open_loop].
  { intros [= <-]. exists []. rewrite app_nil_r. split_and!; [done|done|done|]. intros i ? ? ? Hi. by rewrite lookup_nil in Hi. }
  destruct (meta_id h) as [id|] eqn:Em; [|done]. intros Ho.
  assert (exists b, open_as (host_file h) (open_id h) (d_read_only d) (serial_at d index) = Some b /\ exclusive (l ++ [(b, id, d_read_only d)]) /\
    open_loop disks hosts (S index) (l ++ [(b, id, d_read_only d)]) = inl bs) as (b & Hb & He' & Ho').
  { destruct (list_find _ l) as [[k o]|] eqn:Ef.
    - destruct (negb o.2 || negb (d_read_only d)) eqn:Er; [done|]. apply orb_false_iff in Er as [Er1%negb_false_iff Er2%negb_false_iff].
      destruct (open_as _ _ _ _) as [b|]; [|done]. exists b. split_and!; [done| |done]. apply exclusive_snoc; [done|]. intros i a Ha E. cbn [fst snd] in *.
      apply list_find_Some in Ef as (Hk & Hid & _). split; [|done]. destruct (decide (i = k)) as [->|Hne]; [congruence|].
      destruct (He i k a o Hne Ha Hk); [congruence|done].
    - destruct (open_as _ _ _ _) as [b|]; [|done]. exists b. split_and!; [done| |done]. apply exclusive_snoc; [done|]. intros i a Ha E. cbn [fst snd] in *.
      apply list_find_None in Ef. rewrite Forall_forall in Ef. destruct (Ef a); [by eapply list_elem_of_lookup_2|done]. }
  destruct (IH hosts (S index) _ bs ltac:(cbn in Hl; lia) He' Ho') as (new & -> & Hlen & Hex & Hall). exists ((b, id, d_read_only d) :: new).
  rewrite <- (assoc_L (++)) in *. cbn [app] in *. split_and!; [done|cbn; lia|done|]. intros [|i] d' h' n Hd Hh Hn; cbn in Hd, Hh, Hn.
  - simplify_eq. rewrite Nat.add_0_r. unfold open_as in Hb. destruct (Z.ltb_spec SERIAL_LEN (zlen (serial_at d' index))); [done|].
    destruct (host_file h') as [f|] eqn:Ef; [|done]. injection Hb as <-. exists f. by split_and!.
  - replace (index + S i)%nat with (S index + i)%nat by lia. by eapply Hall.
Qed.

(** What the types of the code say of a configured serial and of a file's length. *)
Definition disk_bytes_ok (d : DiskConfig) : Prop := default True (bytes_ok <$> d_serial d).
Definition host_len_ok (h : HostDisk F) : Prop := forall f, host_file h = Some f -> 0 <= file_len f < 2 ^ 64.

Lemma serial_at_bytes d i : disk_bytes_ok d -> bytes_ok (serial_at d i).
Proof.
  unfold disk_bytes_ok, serial_at. destruct (d_serial d) as [s|]; [done|]. intros _. change (bytes_ok (lit "disk" ++ decimal (Z.of_nat i))).
  pose proof (decimal_chars (Z.of_nat i)) as Hd. apply bytes_ok_app. split.
  - cbn. repeat (constructor; [split; [discriminate|done]|]). constructor.
  - eapply Forall_impl; [exact Hd|]. unfold byte_ok. intros x Hx. cbn in Hx. lia.
Qed.

Context `{!BackingFileLaws F, !IrqLineLaws L}.

(** A disk just opened, whatever the guest does with it. *)
Lemma opened_serves (f : F) id ro text (line : L) m (b' : VirtioBlk F L) m' :
  0 <= file_len f < 2 ^ 64 -> bytes_ok text -> zlen text <= SERIAL_LEN -> ram_ok m ->
  rtc BusStep (connect_irq (opened f id ro text) line, m) (b', m') ->
  identifies_as b' (get_id text) /\ if ro then refuses_writes b' else takes_writes b' (file_len f / 512).
Proof.
  intros Hf Ht Hl Hm Hsteps. pose proof (opened_ok (L := L) f id ro text m Hf Ht) as Hok.
  destruct (bus_steps_confined _ _ Hsteps Hm Hok) as [Ec Er Es _ _ _].
  assert (disk_ok b') as Hd by (apply (confined_disk_ok (connect_irq (opened f id ro text) line)); [by apply (bus_steps_confined _ _ Hsteps Hm Hok)|apply Hok]).
  cbn [fst connect_irq with_irq opened capacity_sectors read_only serial] in Ec, Er, Es.
  split.
  - unfold get_id. rewrite <-Es. apply identifies_spec; [done|]. rewrite Es. unfold zlen in *. rewrite length_app, length_replicate. unfold SERIAL_LEN in *. lia.
  - destruct ro; [by apply refuses_spec|]. pose proof (takes_spec b' Hd Er) as Htk. by rewrite Ec in Htk.
Qed.

(** C28. A guest can tell its disks apart and never shares an image with a writer. When
    [open_disks] succeeds there are at most four disks, and whatever the guest has done
    with the disk at a position since, a request for its identifier is answered with the
    serial of that position, padded to 20 bytes; no two positions have the same 20
    bytes. A disk configured read-only answers every request to write with an error and
    is left as it was, any other stores what a write within the image's length asks for,
    and two disks on one image are both read-only. *)
Theorem open_disks_distinct disks hosts (bs : list (VirtioBlk F L)) :
  length hosts = length disks -> Forall disk_bytes_ok disks -> Forall host_len_ok hosts -> open_disks disks hosts = inl bs ->
  length bs = length disks /\ zlen disks <= MAX_DISKS /\
  (forall i d h b line m b' m', disks !! i = Some d -> hosts !! i = Some h -> bs !! i = Some b ->
    ram_ok m -> rtc BusStep (connect_irq b line, m) (b', m') ->
    identifies_as b' (get_id (serial_at d i)) /\
    if d_read_only d then refuses_writes b' else exists f, host_file h = Some f /\ takes_writes b' (file_len f / 512)) /\
  (forall i j di dj, i <> j -> disks !! i = Some di -> disks !! j = Some dj -> get_id (serial_at di i) <> get_id (serial_at dj j)) /\
  (forall i j hi hj di dj, i <> j -> hosts !! i = Some hi -> hosts !! j = Some hj -> disks !! i = Some di -> disks !! j = Some dj -> meta_id hi = meta_id hj ->
    d_read_only di = true /\ d_read_only dj = true).
Proof.
  intros Hl Hbytes Hlens. unfold open_disks. destruct (check_disks disks) eqn:Ec; [done|]. intros Ho.
  destruct (open_loop_spec disks hosts 0 [] bs Hl ltac:(by intros [] ? ? ? ?) Ho) as (new & -> & Hlen & Hex & Hall). cbn [app] in *.
  unfold check_disks in Ec. destruct (Z.ltb_spec MAX_DISKS (zlen disks)) as [|Hmax]; [done|]. destruct (forallb _ disks) eqn:Ev; [|done]. cbn [negb] in Ec.
  rewrite forallb_forall in Ev. apply same_serial_spec in Ec as [Hnd _].
  assert (length ((new.*1).*1) = length disks) as Hln by (by rewrite !length_fmap).
  assert (forall i d, disks !! i = Some d -> serials disks !! i = Some (serial_at d i)) as Hser by (intros i d Hd; unfold serials; by rewrite list_lookup_imap, Hd).
  split_and!; [done|done| | |].
  - intros i d h b line m b' m' Hd Hh Hi Hm Hsteps. rewrite !list_lookup_fmap in Hi. destruct (new !! i) as [n|] eqn:En; [|done]. injection Hi as <-.
    destruct (Hall i d h n Hd Hh En) as (f & _ & _ & Hf & Hs & E). rewrite E in Hsteps.
    destruct (opened_serves f (open_id h) (d_read_only d) (serial_at d i) line m b' m') as [H3 H4]; [|apply serial_at_bytes| |done..|].
    + by eapply (Forall_lookup_1 _ _ _ _ Hlens Hh).
    + by eapply (Forall_lookup_1 _ _ _ _ Hbytes Hd).
    + done.
    + split; [exact H3|]. destruct (d_read_only d); [exact H4|]. by exists f.
  - intros i j di dj Hij Hi Hj E. apply Hij. eapply NoDup_lookup; [exact Hnd|by apply Hser|]. rewrite (Hser j dj Hj). f_equal. symmetry. apply get_id_inj; [..|exact E];
      apply serial_at_ok, Ev, list_elem_of_In; by eapply list_elem_of_lookup_2.
  - intros i j hi hj di dj Hij Hhi Hhj Hdi Hdj E. apply lookup_lt_Some in Hdi as Hi, Hdj as Hj. destruct (lookup_lt_is_Some_2 new i) as [ni Hni]; [lia|]. destruct (lookup_lt_is_Some_2 new j) as [nj Hnj]; [lia|].
    destruct (Hall i di hi ni Hdi Hhi Hni) as (fi & Mi & Ri & _). destruct (Hall j dj hj nj Hdj Hhj Hnj) as (fj & Mj & Rj & _). rewrite <- Ri, <- Rj.
    eapply Hex; [exact Hij|done|done|congruence].
Qed.

End OpenDisks.

(** ** Exports *)

(** An export a guest can use. *)
Record fs_valid (f : FsConfig) : Prop := {
  fv_tag : 0 < zlen (tag f) <= MAX_TAG_LEN /\ 0 ∉ tag f;
  fv_queues : num_queues f <> 0;
  fv_size : exists k, 0 <= k <= 15 /\ queue_size f = 2 ^ k }.

Lemma tag_ok_spec t : tag_ok t = true <-> 0 < zlen t <= MAX_TAG_LEN /\ 0 ∉ t.
Proof.
  unfold tag_ok. rewrite negb_true_iff, !orb_false_iff, !bool_decide_eq_false, Z.ltb_ge. unfold zlen. destruct t as [|c t]; [cbn; split; [by intros [[? _] _]|intros [? _]; lia]|].
  cbn [length]. split; [intros [[_ H1] H2]; split; [lia|done]|intros [H1 H2]; split_and!; [done|lia|done]].
Qed.

Lemma single_bit n : 0 < n -> Z.land n (n - 1) = 0 -> n = 2 ^ Z.log2 n.
Proof.
  intros Hn Hl. pose proof (Z.log2_spec n Hn) as [H1 H2]. pose proof (Z.log2_nonneg n) as Hk. destruct (decide (n = 2 ^ Z.log2 n)) as [|Hne]; [done|].
  assert (Z.log2 (n - 1) = Z.log2 n) as E by (apply Z.log2_unique; lia).
  pose proof (f_equal (fun v => Z.testbit v (Z.log2 n)) Hl) as Hb. cbn beta in Hb. rewrite Z.land_spec, Z.bit_log2, Z.bits_0 in Hb by lia.
  rewrite <-E, Z.bit_log2 in Hb by lia. done.
Qed.

Lemma power_of_two_spec n : 0 <= n <= MAX_QUEUE_SIZE -> is_power_of_two n = true <-> exists k, 0 <= k <= 15 /\ n = 2 ^ k.
Proof.
  intros Hn. unfold is_power_of_two, MAX_QUEUE_SIZE in *. rewrite andb_true_iff, Z.ltb_lt, Z.eqb_eq. split.
  - intros [Hp Hl]. exists (Z.log2 n). split; [|by apply single_bit]. split; [apply Z.log2_nonneg|].
    change 15 with (Z.log2 32768). apply Z.log2_le_mono. lia.
  - intros (k & Hk & ->). split; [lia|]. rewrite Z.sub_1_r, <-Z.ones_equiv, Z.land_ones by lia. apply Z.mod_same. lia.
Qed.

Lemma validate_spec f : 0 <= queue_size f -> validate f = None <-> fs_valid f.
Proof.
  intros Hq. unfold validate. destruct (tag_ok (tag f)) eqn:Et; cbn [negb].
  - apply tag_ok_spec in Et. destruct (Z.eqb_spec (num_queues f) 0) as [E|E]; [split; [done|by intros [_ ? _]]|].
    destruct (Z.ltb_spec MAX_QUEUE_SIZE (queue_size f)) as [Hm|Hm].
    + rewrite orb_true_r. split; [done|]. intros [_ _ (k & Hk & E')]. rewrite E' in Hm. assert (2 ^ k <= 2 ^ 15) by (apply Z.pow_le_mono_r; lia). unfold MAX_QUEUE_SIZE in Hm. lia.
    + rewrite orb_false_r. destruct (is_power_of_two (queue_size f)) eqn:Ep; cbn [negb].
      * apply power_of_two_spec in Ep; [|lia]. split; [by split|done].
      * split; [done|]. intros [_ _ Hp]. apply power_of_two_spec in Hp; [congruence|lia].
  - split; [done|]. intros [Ht _ _]. apply tag_ok_spec in Ht. congruence.
Qed.

Lemma check_fs_loop_spec vcpus exports : Forall (fun f => 0 <= queue_size f) exports -> forall seen,
  check_fs_loop vcpus seen exports = None <-> Forall fs_valid exports /\ NoDup (tag <$> exports) /\ Forall (fun f => num_queues f <= vcpus) exports /\ (forall t, t ∈ tag <$> exports -> t ∉ seen).
Proof.
  induction 1 as [|f exports Hf _ IH]; intros seen; cbn [check_fs_loop fmap list_fmap].
  { split; [intros _; split_and!; try constructor; by intros ? ?%elem_of_nil|done]. }
  pose proof (validate_spec f Hf) as Hv. destruct (validate f) as [e|].
  { split; [done|]. intros ([Hx _]%Forall_cons & _). apply Hv in Hx. done. }
  case_bool_decide as Ed; [split; [done|]; intros (_ & _ & _ & Hs); by destruct (Hs (tag f) ltac:(by left))|].
  destruct (Z.ltb_spec vcpus (num_queues f)); [split; [done|]; intros (_ & _ & [? _]%Forall_cons & _); lia|].
  rewrite IH, NoDup_cons, !Forall_cons. split.
  - intros (H1 & H2 & H3 & H4). split_and!; try done; [by apply Hv|intros Hin; by apply (H4 _ Hin); left|].
    intros t [->|Ht]%elem_of_cons; [done|]. intros Hs. apply (H4 t Ht). by right.
  - intros ([_ H1] & [H2 H2'] & [_ H3] & H4). split_and!; try done. intros t Ht [->|Hs]%elem_of_cons; [done|]. by apply (H4 t); [right|].
Qed.

(** A backend takes the exports exactly when a guest can use them all and tell them
    apart: every tag is 1 to 36 bytes with no NUL, every export has a request queue and a
    queue size that is a power of two up to 32768, no two tags are equal and no export has
    more request queues than the guest has vCPUs. *)
Theorem check_fs_exact exports vcpus : Forall (fun f => 0 <= queue_size f) exports ->
  check_fs exports vcpus = None <-> Forall fs_valid exports /\ NoDup (tag <$> exports) /\ Forall (fun f => num_queues f <= vcpus) exports.
Proof.
  intros He. unfold check_fs. rewrite check_fs_loop_spec by done. split; [tauto|]. intros (? & ? & ?). split_and!; try done. intros t _. apply not_elem_of_nil.
Qed.

(** Whether one directory is the other or lies under it. *)
Definition nested (a b : list Component) : Prop := a `prefix_of` b \/ b `prefix_of` a.

Lemma conflict_spec a b : conflict a b = true <-> mode a.1 <> mode b.1 /\ nested a.2 b.2.
Proof.
  unfold conflict, nested. rewrite andb_true_iff, !orb_true_iff, negb_true_iff, bool_decide_eq_false, !bool_decide_eq_true. split; [|tauto].
  intros [H [[->|?]|?]]; split; try done; [by left|by right|by left].
Qed.

Lemma overlap_loop_spec l : overlap_loop l = false <-> forall i j a b, i <> j -> l !! i = Some a -> l !! j = Some b -> mode a.1 <> mode b.1 -> ~ nested a.2 b.2.
Proof.
  induction l as [|x l IH]; cbn [overlap_loop]; [split; [by intros _ []|done]|].
  rewrite orb_false_iff, IH, <- not_true_iff_false, existsb_exists. split.
  - intros [Hx Hl] [|i] [|j] a b Hij Ha Hb Hm Hn; cbn in Ha, Hb; [done| | |].
    + injection Ha as <-. apply Hx. exists b. split; [apply list_elem_of_In; by eapply list_elem_of_lookup_2|]. by apply conflict_spec.
    + injection Hb as <-. apply Hx. exists a. split; [apply list_elem_of_In; by eapply list_elem_of_lookup_2|]. apply conflict_spec. split; [congruence|]. destruct Hn; [by right|by left].
    + eapply (Hl i j); try done. congruence.
  - intros H. split.
    + intros (b & [j Hj]%list_elem_of_In%list_elem_of_lookup & [Hm Hn]%conflict_spec). exact (H 0%nat (S j) x b ltac:(done) eq_refl Hj Hm Hn).
    + intros i j a b Hij Ha Hb. apply (H (S i) (S j)); [congruence|done|done].
Qed.

(** C29. A read-only export stays read-only. Exports are accepted exactly when no two that
    disagree on writing are one directory or one inside the other, by the components of
    their canonical paths, or of the path given where it does not resolve. *)
Theorem export_overlap_exact canonicalize shares :
  let root s := components (default (path s) (canonicalize (path s))) in
  check_export_overlap canonicalize shares = None <->
  forall i j a b, i <> j -> shares !! i = Some a -> shares !! j = Some b -> mode a <> mode b -> ~ nested (root a) (root b).
Proof.
  cbv zeta. unfold check_export_overlap. destruct (overlap_loop _) eqn:E.
  - split; [done|]. intros H. apply not_false_iff_true in E. destruct E. apply overlap_loop_spec. intros i j a b Hij Ha Hb. rewrite list_lookup_fmap in Ha, Hb.
    destruct (shares !! i) as [a'|] eqn:Ea; [|done]. destruct (shares !! j) as [b'|] eqn:Eb; [|done]. injection Ha as <-. injection Hb as <-. by eapply H.
  - split; [|done]. intros _ i j a b Hij Ha Hb Hm. rewrite overlap_loop_spec in E.
    set (r := fun s => components (default (path s) (canonicalize (path s)))).
    apply (E i j (a, r a) (b, r b) Hij); [by rewrite list_lookup_fmap, Ha|by rewrite list_lookup_fmap, Hb|done].
Qed.

(** ** Arguments *)

Lemma split_on_app c a b : c ∉ a -> split_on c (a ++ c :: b) = a :: split_on c b.
Proof.
  induction a as [|x a IH]; intros Hc; cbn [app split_on]; [by rewrite Z.eqb_refl|]. apply not_elem_of_cons in Hc as [Hx Hc].
  rewrite (proj2 (Z.eqb_neq x c)) by done. by rewrite IH.
Qed.
Lemma split_on_single c a : c ∉ a -> split_on c a = [a].
Proof. induction a as [|x a IH]; intros Hc; [done|]. apply not_elem_of_cons in Hc as [Hx Hc]. cbn [split_on]. rewrite (proj2 (Z.eqb_neq x c)) by done. by rewrite IH. Qed.
Lemma split_once_app c k v : c ∉ k -> split_once c (k ++ c :: v) = Some (k, v).
Proof.
  induction k as [|x k IH]; intros Hc; cbn [app split_once]; [by rewrite Z.eqb_refl|]. apply not_elem_of_cons in Hc as [Hx Hc].
  rewrite (proj2 (Z.eqb_neq x c)) by done. by rewrite IH.
Qed.

(** An argument written out of its fields. *)
Definition field (p : list Z * list Z) : list Z := p.1 ++ EQUALS :: p.2.
Fixpoint join (l : list (list Z * list Z)) : list Z := match l with [] => [] | [p] => field p | p :: l => field p ++ COMMA :: join l end.
Definition field_ok (allowed : list (list Z)) (p : list Z * list Z) : Prop := (p.1 ∈ allowed) /\ (EQUALS ∉ p.1) /\ (COMMA ∉ p.1) /\ (COMMA ∉ p.2).

Lemma field_no_comma allowed p : field_ok allowed p -> COMMA ∉ field p.
Proof. intros (_ & _ & H1 & H2) [?|[?|?]%elem_of_cons]%elem_of_app; done. Qed.

Lemma key_values_loop_ok allowed fields : Forall (field_ok allowed) fields -> forall before, NoDup ((before ++ fields).*1) -> 
  key_values_loop allowed (field <$> fields) before = inl (before ++ fields).
Proof.
  induction 1 as [|[k v] fields (Ha & He & _ & _) _ IH]; intros before Hn; cbn [fmap list_fmap key_values_loop]; [by rewrite app_nil_r|].
  unfold field at 1. cbn [fst snd] in *. rewrite split_once_app by done. rewrite (bool_decide_true _ Ha). cbn [negb].
  rewrite bool_decide_false.
  - rewrite IH; rewrite <- (assoc_L (++)); done.
  - rewrite fmap_app in Hn. apply NoDup_app in Hn as (_ & Hd & _). intros Hin. apply (Hd k Hin). by left.
Qed.

Lemma key_values_ok allowed fields : fields <> [] -> Forall (field_ok allowed) fields -> NoDup (fields.*1) -> key_values (join fields) allowed = inl fields.
Proof.
  intros Hne Hf Hn. unfold key_values. replace (split_on COMMA (join fields)) with (field <$> fields); [by apply key_values_loop_ok|].
  induction Hf as [|p fields Hp Hf IH]; [done|]. destruct fields as [|q fields]; cbn [join fmap list_fmap].
  - by rewrite (split_on_single COMMA (field p)) by (by eapply field_no_comma).
  - rewrite split_on_app by (by eapply field_no_comma). f_equal. apply IH; [done|]. by apply NoDup_cons in Hn as [_ ?].
Qed.

Lemma digits_decimal max fuel : forall v acc, 0 <= v < 10 ^ Z.of_nat fuel -> v <= max -> (0 < fuel)%nat ->
  exists c ds, decimal_loop fuel v acc = (c :: ds) ++ acc /\ 48 <= c <= 57 /\ forall rest, digits max 0 (c :: ds ++ rest) = digits max v rest.
Proof.
  induction fuel as [|fuel IH]; intros v acc Hv Hm Hf; [lia|]. cbn [decimal_loop]. pose proof (Z.div_mod v 10 ltac:(lia)) as Hd. pose proof (Z.mod_pos_bound v 10 ltac:(lia)) as Hr.
  assert (forall x, 0 <= x <= v -> forall rest, x * 10 + v mod 10 = v -> digits max x (0x30 + v mod 10 :: rest) = digits max v rest) as Hstep.
  { intros x Hx rest E. cbn [digits]. rewrite (proj2 (andb_true_iff _ _)) by (rewrite !Z.leb_le; lia). replace (x * 10 + (48 + v mod 10 - 48)) with v by lia.
    by rewrite (proj2 (Z.ltb_ge max v)) by lia. }
  destruct (Z.ltb_spec v 10) as [Hs|Hs].
  - exists (0x30 + v mod 10), []. split_and!; [done|lia|lia|]. intros rest. apply Hstep; [lia|]. rewrite Z.mod_small; lia.
  - assert (0 < v / 10) by (apply Z.div_str_pos; lia). destruct fuel as [|fuel]; [cbn in Hv; lia|].
    destruct (IH (v / 10) (0x30 + v mod 10 :: acc)) as (c & ds & E & Hc & Hrest); [|lia|lia|].
    { split; [lia|]. apply Z.div_lt_upper_bound; [lia|]. rewrite <- Z.pow_succ_r by lia. replace (Z.succ (Z.of_nat (S fuel))) with (Z.of_nat (S (S fuel))) by lia. lia. }
    exists c, (ds ++ [0x30 + v mod 10]). split_and!; [|lia|lia|].
    + rewrite E. cbn [app]. by rewrite <- (assoc_L (++)).
    + intros rest. rewrite <- (assoc_L (++)). cbn [app]. rewrite Hrest. apply Hstep; lia.
Qed.

Lemma parse_decimal max v : 0 <= v < 10 ^ 20 -> v <= max -> parse_uint max (decimal v) = Some v.
Proof.
  intros Hv Hm. unfold decimal. destruct (digits_decimal max 20 v [] ltac:(change (Z.of_nat 20) with 20; lia) Hm ltac:(lia)) as (c & ds & -> & Hc & Hd).
  rewrite app_nil_r. cbn [parse_uint]. rewrite (proj2 (Z.eqb_neq c 43)) by lia. cbn [andb]. specialize (Hd []). rewrite app_nil_r in Hd. by rewrite Hd.
Qed.

Lemma parse_uint_pos max l v : parse_uint max l = Some v -> 0 <= v.
Proof.
  assert (forall k acc, 0 <= acc -> forall w, digits max acc k = Some w -> 0 <= w) as H.
  { induction k as [|c k IH]; intros acc Ha w; cbn [digits]; [by intros [= <-]|]. destruct ((48 <=? c) && (c <=? 57)) eqn:E; [|done]. apply andb_true_iff in E as [E1%Z.leb_le E2%Z.leb_le].
    destruct (max <? acc * 10 + (c - 48)); [done|]. apply IH. lia. }
  destruct l as [|c l]; [done|]. cbn [parse_uint]. apply H. lia.
Qed.

Lemma decimal_no_comma v : COMMA ∉ decimal v.
Proof. intros H. pose proof (decimal_chars v) as Hd. rewrite Forall_forall in Hd. specialize (Hd _ H). unfold COMMA in Hd. lia. Qed.

Lemma given_some s : s <> [] -> given (Some s) = Some s.
Proof. by destruct s. Qed.

(** ** What an argument of fields says *)

(** One of the fields of [spec] is [key=value]. *)
Definition says (spec : list Z) (key : string) (value : list Z) : Prop := (lit key ++ EQUALS :: value) ∈ split_on COMMA spec.

Lemma split_once_Some c l k v : split_once c l = Some (k, v) -> l = k ++ c :: v /\ c ∉ k.
Proof.
  revert k v. induction l as [|x l IH]; intros k v; cbn [split_once]; [done|]. destruct (Z.eqb_spec x c) as [->|Hne].
  - intros [= <- <-]. split; [done|apply not_elem_of_nil].
  - destruct (split_once c l) as [[k' v']|]; [|done]. intros [= <- <-]. destruct (IH k' v' eq_refl) as [-> ?]. split; [done|]. by apply not_elem_of_cons.
Qed.

Lemma key_values_loop_spec allowed l : forall before fields, key_values_loop allowed l before = inl fields -> NoDup (before.*1) ->
  NoDup (fields.*1) /\ forall k v, EQUALS ∉ k -> (k, v) ∈ fields <-> (k, v) ∈ before \/ (k ++ EQUALS :: v) ∈ l.
Proof.
  induction l as [|w l IH]; intros before fields; cbn [key_values_loop].
  { intros [= <-] Hn. split; [done|]. intros k v _. rewrite elem_of_nil. tauto. }
  destruct (split_once EQUALS w) as [[k0 v0]|] eqn:E; [|done]. apply split_once_Some in E as [-> Hk0].
  destruct (negb (bool_decide (k0 ∈ allowed))); [done|]. case_bool_decide as Hin; [done|]. intros Hr Hn.
  destruct (IH _ _ Hr) as [H1 H2].
  { rewrite fmap_app. apply NoDup_app. split; [done|]. split; [|repeat constructor; apply not_elem_of_nil]. by intros x Hx ->%list_elem_of_singleton. }
  split; [done|]. intros k v Hk. rewrite H2 by done. rewrite elem_of_app, list_elem_of_singleton, elem_of_cons.
  assert ((k, v) = (k0, v0) <-> k ++ EQUALS :: v = k0 ++ EQUALS :: v0) as ->; [|tauto].
  split; [by intros [= -> ->]|]. intros Ek. pose proof (split_once_app EQUALS k v Hk) as E1. rewrite Ek, split_once_app in E1 by done. congruence.
Qed.

Lemma get_spec fields k v : NoDup (fields.*1) -> get fields k = Some v <-> (k, v) ∈ fields.
Proof.
  unfold get. induction fields as [|[k0 v0] fields IH]; cbn [List.find fst]; intros Hn; [split; [done|by intros ?%elem_of_nil]|].
  apply NoDup_cons in Hn as [Hn0 Hn]. case_bool_decide as Ek; cbn [fst snd fmap option_fmap option_map] in *.
  - subst k0. split; [intros [= ->]; by left|]. intros [[= ->]|Hin]%elem_of_cons; [done|]. destruct Hn0. apply list_elem_of_fmap. by exists (k, v).
  - rewrite IH by done. rewrite elem_of_cons. split; [by right|]. intros [[= -> ->]|?]; done.
Qed.

Lemma key_values_says spec allowed fields key v : key_values spec allowed = inl fields -> EQUALS ∉ lit key ->
  get fields (lit key) = Some v <-> says spec key v.
Proof.
  intros H Hk. destruct (key_values_loop_spec allowed _ [] fields H) as [H1 H2]; [constructor|].
  rewrite get_spec, H2 by done. unfold says. rewrite elem_of_nil. tauto.
Qed.

(** The directory export that an argument asks for, field by field. *)
Record share_asked (spec : list Z) (s : FsShare) : Prop := {
  sa_tag : says spec "tag" (s_tag s);
  sa_path : says spec "path" (path s);
  sa_mode : mode s = ReadOnly <-> says spec "readonly" (lit "on");
  sa_always : cache s = CacheAlways <-> says spec "cache" (lit "always");
  sa_none : cache s = CacheNone <-> says spec "cache" (lit "none");
  sa_uid : forall v, says spec "uid" v -> parse_uint (2 ^ 32 - 1) v = Some (uid s);
  sa_no_uid : (forall v, ~ says spec "uid" v) -> uid s = 0;
  sa_gid : forall v, says spec "gid" v -> parse_uint (2 ^ 32 - 1) v = Some (gid s);
  sa_no_gid : (forall v, ~ says spec "gid" v) -> gid s = 0 }.

Lemma fs_parse_share spec s : fs_parse spec = inl (Share s) -> share_asked spec s.
Proof.
  unfold fs_parse. destruct (key_values spec FS_KEYS) as [fields|] eqn:Ef; [|done].
  assert (forall key v, EQUALS ∉ lit key -> get fields (lit key) = Some v <-> says spec key v) as Hg by (intros; by eapply key_values_says).
  destruct (get fields (lit "tag")) as [t|] eqn:Et; [|done]. destruct (tag_ok t); [|done]. cbn [negb].
  destruct (given (get fields (lit "path"))) as [p|] eqn:Ep, (given (get fields (lit "socket"))); try done; [|unfold parse_socket; repeat case_match; done].
  unfold parse_share. destruct (other _ _); [done|].
  destruct (match get fields (lit "readonly") with None => _ | Some _ => _ end) as [md|] eqn:Em; [|done].
  destruct (match get fields (lit "cache") with None => _ | Some _ => _ end) as [c|] eqn:Ec; [|done]. cbv zeta.
  destruct (match get fields (lit "uid") with None => _ | Some _ => _ end) as [u|] eqn:Eu; [|done].
  destruct (match get fields (lit "gid") with None => _ | Some _ => _ end) as [g|] eqn:Egid; [|done]. intros [= <-].
  split; cbn [s_tag path mode cache uid gid].
  - by apply Hg; [apply (bool_decide_unpack _)|].
  - apply Hg; [by apply (bool_decide_unpack _)|]. destruct (get fields (lit "path")) as [[|? ?]|]; cbn in Ep; congruence.
  - rewrite <-Hg by (by apply (bool_decide_unpack _)). destruct (get fields (lit "readonly")) as [v|]; [|injection Em as <-; done].
    case_bool_decide as Hv; [injection Em as <-; subst v; split; [done|intros [=]]|]. case_bool_decide as Hw; [|done]. injection Em as <-. by subst v.
  - rewrite <-Hg by (by apply (bool_decide_unpack _)). destruct (get fields (lit "cache")) as [v|]; [|injection Ec as <-; done].
    repeat (case_bool_decide as Hv; [injection Ec as <-; subst v; first [by split|(split; [done|intros [=]])]|clear Hv]). done.
  - rewrite <-Hg by (by apply (bool_decide_unpack _)). destruct (get fields (lit "cache")) as [v|]; [|injection Ec as <-; done].
    repeat (case_bool_decide as Hv; [injection Ec as <-; subst v; first [by split|(split; [done|intros [=]])]|clear Hv]). done.
  - intros v Hv. rewrite <-Hg in Hv by (by apply (bool_decide_unpack _)). by rewrite Hv in Eu.
  - intros Hv. destruct (get fields (lit "uid")) as [v|] eqn:E; [|by injection Eu]. destruct (Hv v). by apply Hg; [apply (bool_decide_unpack _)|].
  - intros v Hv. rewrite <-Hg in Hv by (by apply (bool_decide_unpack _)). by rewrite Hv in Egid.
  - intros Hv. destruct (get fields (lit "gid")) as [v|] eqn:E; [|by injection Egid]. destruct (Hv v). by apply Hg; [apply (bool_decide_unpack _)|].
Qed.

(** The argument that describes a socket export. *)
Definition socket_fields (f : FsConfig) : list (list Z * list Z) :=
  [(lit "tag", tag f); (lit "socket", socket f); (lit "num_queues", decimal (num_queues f)); (lit "queue_size", decimal (queue_size f))].

Lemma get_four a b c d :
  let l := [(lit "tag", a); (lit "socket", b); (lit "num_queues", c); (lit "queue_size", d)] in
  get l (lit "tag") = Some a /\ get l (lit "socket") = Some b /\ get l (lit "num_queues") = Some c /\ get l (lit "queue_size") = Some d /\
  get l (lit "path") = None /\ other l (lit <$> ["readonly"; "cache"; "uid"; "gid"]%string) = None.
Proof. split_and!; vm_compute; reflexivity. Qed.

(** C30. Every usable socket export can be asked for, and is what was asked. The argument
    that spells out a valid export, with no comma in its tag or its socket, parses to that
    export; and whatever argument parses to a socket export gives a valid one, with a
    socket. *)
Theorem fs_argument_roundtrip :
  (forall f, fs_valid f -> COMMA ∉ tag f -> COMMA ∉ socket f -> socket f <> [] -> 0 <= num_queues f <= USIZE_MAX -> fs_parse (join (socket_fields f)) = inl (Socket f)) /\
  (forall spec f, fs_parse spec = inl (Socket f) -> fs_valid f /\ socket f <> []).
Proof.
  split.
  - intros f Hv Ht Hs Hne Hn. unfold fs_parse. rewrite key_values_ok.
    + destruct (get_four (tag f) (socket f) (decimal (num_queues f)) (decimal (queue_size f))) as (E1 & E2 & E3 & E4 & E5 & E6). fold (socket_fields f) in *.
      rewrite E1, E2, E5. rewrite (proj2 (tag_ok_spec _)) by apply Hv. cbn [negb]. change (given None) with (@None (list Z)). rewrite given_some by done.
      unfold parse_socket. rewrite E6, E3, E4. destruct Hv as [Hv1 Hv2 (k & Hk & Eq)]. assert (2 ^ k <= 2 ^ 15) by (apply Z.pow_le_mono_r; lia). assert (0 < 2 ^ k) by (apply Z.pow_pos_nonneg; lia).
      rewrite !parse_decimal by (unfold USIZE_MAX in *; lia). cbv zeta. destruct f as [t s n q]. cbn [tag socket num_queues queue_size] in *.
      rewrite (proj2 (validate_spec (mkFs t s n q) ltac:(cbn; lia))); [done|]. split; cbn; try done. by exists k.
    + done.
    + unfold socket_fields. repeat (apply Forall_cons_2; [split_and!; cbn [fst snd]; try done; try apply decimal_no_comma; by apply (bool_decide_unpack _)|]). apply Forall_nil_2.
    + cbn [socket_fields fmap list_fmap fst]. by apply (bool_decide_unpack _).
  - intros spec f. unfold fs_parse. destruct (key_values spec FS_KEYS) as [fields|]; [|done]. destruct (get fields (lit "tag")) as [t|]; [|done].
    destruct (tag_ok t); [|done]. cbn [negb]. destruct (given (get fields (lit "path"))) as [p|], (given (get fields (lit "socket"))) as [s|] eqn:Es; try done.
    + unfold parse_share. repeat case_match; intros; simplify_eq.
    + unfold parse_socket. destruct (other _ _); [done|]. destruct (match get fields (lit "num_queues") with None => _ | Some _ => _ end) as [n|]; [|done].
      destruct (match get fields (lit "queue_size") with None => _ | Some _ => _ end) as [q|] eqn:Eq; [|done]. destruct (validate _) eqn:Ev; [done|]. intros [= <-]. split.
      * apply validate_spec; [|done]. cbn. destruct (get fields (lit "queue_size")) as [x|]; [|by injection Eq as <-]. by eapply parse_uint_pos.
      * cbn. intros ->. destruct (get fields (lit "socket")) as [[|? ?]|]; done.
Qed.

(** ** A configuration *)

Module Example.

Definition export : FsConfig := mkFs (lit "home") (lit "/run/fs.sock") 2 1024.
Lemma check_fs_exact_witness : check_fs [export; mkFs (lit "work") (lit "/run/w.sock") 1 256] 2 = None.
Proof.
  assert (fs_valid export) as H1 by (split; [split; [vm_compute; split; congruence|by apply (bool_decide_unpack _)]|done|by exists 10]). assert (fs_valid (mkFs (lit "work") (lit "/run/w.sock") 1 256)) as H2 by (split; [split; [vm_compute; split; congruence|by apply (bool_decide_unpack _)]|done|by exists 8]).
  apply check_fs_exact; [by repeat constructor|]. split_and!; [constructor; [done|]; constructor; [done|constructor]|by apply (bool_decide_unpack _)|by repeat constructor].
Defined.

Lemma fs_argument_roundtrip_witness : fs_parse (lit "tag=home,socket=/run/fs.sock,num_queues=2,queue_size=1024") = inl (Socket export).
Proof.
  change (lit "tag=home,socket=/run/fs.sock,num_queues=2,queue_size=1024") with (join (socket_fields export)).
  apply fs_argument_roundtrip; [split; [split; [vm_compute; split; congruence|by apply (bool_decide_unpack _)]|done|by exists 10]|by apply (bool_decide_unpack _)|by apply (bool_decide_unpack _)|done|].
  vm_compute. split; congruence.
Defined.

Definition two : list DiskConfig := [disk_rw (lit "a.img"); mkDisk (lit "b.img") true (Some (lit "data"))].
Definition two_hosts : list (HostDisk ByteFile) := [mkHostDisk (Some 7) (Some (mkByteFile 512 (fun _ => 0))) 7; mkHostDisk (Some 8) (Some (mkByteFile 1024 (fun _ => 0))) 8].
Lemma open_disks_distinct_witness : exists a b : VirtioBlk ByteFile PlainLine, open_disks two two_hosts = inl [a; b] /\
  identifies_as (connect_irq a (mkPlainLine false)) (lit "disk0" ++ replicate 15 0) /\ takes_writes (connect_irq a (mkPlainLine false)) 1 /\
  identifies_as (connect_irq b (mkPlainLine false)) (lit "data" ++ replicate 16 0) /\ refuses_writes (connect_irq b (mkPlainLine false)).
Proof.
  destruct (open_disks (L := PlainLine) two two_hosts) as [[|a [|b [|? ?]]]|e] eqn:E; try (vm_compute in E; congruence).
  exists a, b. split; [done|]. destruct (open_disks_distinct two two_hosts [a; b] eq_refl) as (_ & _ & H & _); [| |exact E|].
  - constructor; [done|]. constructor; [|constructor]. cbn. vm_compute. repeat (constructor; [split; [discriminate|done]|]). constructor.
  - repeat (constructor; [intros f [= <-]; vm_compute; split; [discriminate|done]|]). constructor.
  - destruct (H 0%nat _ _ a (mkPlainLine false) small_ram (connect_irq a (mkPlainLine false)) small_ram eq_refl eq_refl eq_refl small_ram_ok) as [H1 (f & [= <-] & H2)]; [done|].
    destruct (H 1%nat _ _ b (mkPlainLine false) small_ram (connect_irq b (mkPlainLine false)) small_ram eq_refl eq_refl eq_refl small_ram_ok) as [H3 H4]; [done|].
    split_and!; done.
Defined.

End Example.
