(* ===== verification/Supervisor.v ===== *)
(** * The run and its stop ([src/run/supervisor.rs], [src/teardown.rs], [src/io_threads.rs], [boot] of [src/lib.rs])

    One run at a time holds the process; the loop that owns the stop of the run writes
    its lifecycle to the ledger, stops the threads and decides what [boot] returns; the
    helper threads wait on a stop token with [poll]. *)

From stdpp Require Import strings.
From S2P Require Import Prelude AcpiPm Vcpus.
Local Open Scope Z_scope.

(** ** The slot of the run *)

Inductive Slot := FREE | HELD | KEPT.
#[export] Instance Slot_eq : EqDecision Slot.
Proof. solve_decision. Defined.

(** [RunSlot::claim]; the refusal tells the two cases apart. *)
Definition claim (s : Slot) : Slot * (bool + unit) :=
  match s with FREE => (HELD, inr ()) | KEPT => (s, inl true) | HELD => (s, inl false) end.

(** The drop of a [RunClaim]. *)
Definition drop_claim (keep panicking : bool) : Slot := if keep || panicking then KEPT else FREE.

(** The process: the slot, and whether each claim in existence keeps it. *)
Record Process := mkProcess { slot : Slot; claims : list bool }.
Inductive RunEvent := EClaim | EKeep (i : nat) | EDrop (i : nat) (panicking : bool).
Definition run_event (p : Process) (e : RunEvent) : Process :=
  match e with
  | EClaim => let '(s, r) := claim (slot p) in mkProcess s (claims p ++ match r with inr _ => [false] | inl _ => [] end)
  | EKeep i => mkProcess (slot p) (<[i := true]> (claims p))
  | EDrop i panicking => match claims p !! i with Some k => mkProcess (drop_claim k panicking) (delete i (claims p)) | None => p end
  end.

(** ** The result of a run *)

(** An error of the run: its text, or the error of a run that left a thread running, with
    the thread it names. *)
Inductive RunError := Plain (text : list Z) | LeftRunning (text : list Z) (thread : option (list Z)).
Definition is_left_running (e : RunError) : bool := match e with LeftRunning _ _ => true | Plain _ => false end.

Definition AND : list Z := [0x2c; 0x20; 0x61; 0x6e; 0x64; 0x20].
(** [Display] of the error; [to_debug] names a stop. *)
Definition display (e : RunError) : list Z :=
  match e with Plain t => t | LeftRunning t (Some l) => t ++ AND ++ l | LeftRunning t None => t end.

Section Run.
(** [format!("{e}, after the run stopped with {stop:?}")]. *)
Context (after_stop : list Z -> Stop -> list Z).

(** The match that ends [run_to_stop]. *)
Definition run_result (failure : option (list Z)) (o : Outcome) (left_running : option (list Z)) : Stop + RunError :=
  match failure, o, left_running with
  | Some e, _, Some thread => inr (LeftRunning e (Some thread))
  | Some e, _, None => inr (Plain e)
  | None, o, None => match into_result o with inl s => inl s | inr t => inr (Plain t) end
  | None, Failed t, Some e => inr (LeftRunning t (Some e))
  | None, Stopped s, Some e => inr (LeftRunning (after_stop e s) None)
  end.

(** ** The lifecycle in the ledger *)

Inductive Reason := SystemOffReason | SystemResetReason | RequestedReason | FailedReason.
Inductive LifeRecord := VcpuStarted (cpu : Z) | StopRecord (reason : Reason) (signal : option Z) (error : option (list Z)) (dropped : Z).

Definition reason_of (r : Stop + RunError) : Reason :=
  match r with inl SystemOff => SystemOffReason | inl SystemReset => SystemResetReason | inl Requested => RequestedReason | inr _ => FailedReason end.
Definition stop_record (r : Stop + RunError) (h : StopHandle) (dropped : Z) : LifeRecord :=
  StopRecord (reason_of r) (match r with inl Requested => first_signal h | _ => None end) (match r with inr e => Some (display e) | inl _ => None end) dropped.

(** [started_after]. *)
Definition started_after (ids : list Z) (seen : nat) : list Z := drop seen ids.

(** One turn of [wait_for_stop]: the vCPUs started by then, whether a thread has exited
    or a stop is asked for, and whether the wait then works. *)
Record Wake := mkWake { w_started : list Z; w_over : bool; w_wait_ok : bool }.

(** The loop of [wait_for_stop] with the announcements of [run_to_stop]; [None] while it
    still waits. It gives the records, how many were announced, and whether it failed. *)
Fixpoint announce_loop (wakes : list Wake) (announced : nat) (out : list LifeRecord) : option (list LifeRecord * nat * bool) :=
  match wakes with
  | [] => None
  | w :: wakes =>
      let started := started_after (w_started w) announced in
      let '(out, announced) := match started with [] => (out, announced) | _ => (out ++ (VcpuStarted <$> started), (announced + length started)%nat) end in
      if w_over w then Some (out, announced, true) else if w_wait_ok w then announce_loop wakes announced out else Some (out, announced, false)
  end.

(** [run_to_stop]: the failure it is given, the wakes it sees, what the threads left and
    the outcome they reported, the vCPUs started by the end, the stop handle and the
    ledger's count of drops. [wait_failed] is the text of a wait that fails. *)
Definition run_to_stop (failure : option (list Z)) (wait_failed : list Z) (wakes : list Wake) (vcpu_left io_left : option (list Z)) (o : Outcome) (final_started : list Z)
    (h : StopHandle) (dropped : Z) : option ((Stop + RunError) * list LifeRecord) :=
  '(out, announced, failure) ← match failure with
    | Some _ => Some ([], 0%nat, failure)
    | None => '(out, announced, ok) ← announce_loop wakes 0 []; Some (out, announced, if (ok : bool) then None else Some wait_failed)
    end;
  let left_running := match vcpu_left with Some l => Some l | None => io_left end in
  let result := run_result failure o left_running in
  Some (result, out ++ (VcpuStarted <$> started_after final_started announced) ++ [stop_record result h dropped]).

(** [boot]: the claim, the sandbox check, the backend, which may unwind, and the drop of
    the claim. *)
Inductive BootResult := Refused (kept : bool) | SandboxRefused | Returned (r : Stop + RunError) | Unwound.
Definition boot (s : Slot) (sandbox_ok : bool) (backend : option (Stop + RunError)) : Slot * BootResult :=
  match claim s with
  | (s, inl kept) => (s, Refused kept)
  | (_, inr _) =>
      if negb sandbox_ok then (drop_claim false false, SandboxRefused)
      else match backend with
      | None => (drop_claim false true, Unwound)
      | Some r => (drop_claim (match r with inr e => is_left_running e | inl _ => false end) false, Returned r)
      end
  end.

End Run.

(** ** The helper threads *)

Record StopPlan := mkPlan { requested_stop : bool; actions : list Z; ran : list Z }.
Definition plan_run (p : StopPlan) : StopPlan := mkPlan true [] (ran p ++ actions p).
Definition on_stop (p : StopPlan) (a : Z) : StopPlan := mkPlan (requested_stop p) (actions p ++ [a]) (ran p).

(** [IoThreads::stop] after the wait: which threads are finished, the console first, by
    name; the ones left running and the error. *)
Definition io_stop (p : StopPlan) (console : list Z * bool) (threads : list (list Z * bool)) : StopPlan * list (list Z) * option (list Z) :=
  let running := (base.filter (fun t => t.2 = false) (console :: threads)).*1 in (plan_run (plan_run p), running, head running).

(** [poll]: the timeout of one call, in milliseconds, and the loop over what each call
    returns at the time it is made: ready descriptors, none, or an error. *)
Definition INT_MAX : Z := 2 ^ 31 - 1.
Definition timeout_millis (deadline : option Z) (now : Z) : Z :=
  match deadline with
  | None => -1
  | Some d => let micros := Z.max 0 (d - now) / 1000 in let ms := (micros + 999) / 1000 in if INT_MAX <? ms then INT_MAX else ms
  end.
Inductive PollRet := Ready | NoneReady | Interrupted | PollErr.
Inductive PollResult := POk (ready : bool) | PErr.
Fixpoint poll (deadline : option Z) (calls : list (Z * PollRet)) : option PollResult :=
  match calls with
  | [] => None
  | (now, ret) :: calls =>
      let t := timeout_millis deadline now in
      match ret with
      | Ready => Some (POk true)
      | NoneReady => if t =? 0 then Some (POk false) else poll deadline calls
      | Interrupted => poll deadline calls
      | PollErr => Some PErr
      end
  end.

(** What a [StopToken] makes of the events of the descriptor and of the stop. *)
Record Revents := mkRevents { pollin : bool; pollhup : bool; pollerr : bool; pollnval : bool }.
Definition hangup (r : Revents) : bool := pollhup r || pollerr r || pollnval r.
Definition token_wait (fd : Revents) (stop : bool) : option bool := if stop then Some false else if pollin fd || pollhup fd then Some true else None.
Definition token_wait_writable (stop : bool) : bool := negb stop.
Definition keep_waiting (polled : bool) (fd : Revents) (stop : bool) : bool := if polled then negb stop && negb (hangup fd) else false.

(** * What they show *)

(** The slot and the claims that exist agree. *)
Definition process_ok (p : Process) : Prop :=
  match slot p with FREE => claims p = [] | HELD => length (claims p) = 1%nat | KEPT => claims p = [] end.

Lemma run_event_ok p e : process_ok p -> process_ok (run_event p e) /\ (slot p = KEPT -> run_event p e = p).
Proof.
  unfold process_ok, run_event. destruct p as [s cs]. cbn [slot claims]. destruct e as [|i|i pan].
  - destruct s; cbn; intros H; rewrite ?H; cbn; [done|split; [by rewrite app_nil_r|done]|done].
  - cbn [slot claims]. destruct s; intros H; rewrite ?length_insert, ?H; split; try done; intros; subst; by destruct i.
  - destruct (cs !! i) as [k|] eqn:E; [|done]. destruct s; cbn [slot claims]; intros H; [by subst cs; rewrite lookup_nil in E| |by subst cs; rewrite lookup_nil in E].
    destruct cs as [|c [|? ?]]; [done| |done]. destruct i; [|done]. cbn in E |- *. injection E as ->. unfold drop_claim. by destruct (k || pan).
Qed.

(** A process runs one guest at a time. Over any claims, keeps and drops, at most one
    claim exists, one exists exactly while the slot is held, and a claim is refused then;
    and once a run has kept the slot no event frees it, so no run ever starts again beside
    what it left behind. *)
Theorem one_run_at_a_time es : let p := foldl run_event (mkProcess FREE []) es in
  (length (claims p) <= 1)%nat /\ (slot p = HELD <-> length (claims p) = 1%nat) /\ (claims p <> [] -> (claim (slot p)).2 = inl false) /\
  (slot p = KEPT -> forall es', slot (foldl run_event p es') = KEPT /\ (claim (slot p)).2 = inl true).
Proof.
  cbv zeta. assert (forall es p, process_ok p -> process_ok (foldl run_event p es)) as Hok.
  { induction es0 as [|e es0 IH]; intros p Hp; cbn; [done|]. by apply IH, run_event_ok. }
  specialize (Hok es (mkProcess FREE []) eq_refl). set (p := foldl run_event _ es) in *. clearbody p. unfold process_ok in Hok. split_and!.
  - destruct (slot p); rewrite ?Hok; cbn; lia.
  - destruct (slot p); rewrite ?Hok; done.
  - destruct (slot p); rewrite ?Hok; done.
  - intros Hs es'. rewrite Hs. split; [|done]. assert (process_ok p) as Hp by (unfold process_ok; by rewrite Hs in *). clear Hok. revert p Hs Hp. induction es' as [|e es' IH]; intros p Hs Hp; cbn; [done|].
    destruct (run_event_ok p e Hp) as [_ H]. rewrite (H Hs). by apply IH.
Qed.

Section Claims.
Context (after_stop : list Z -> Stop -> list Z).

(** C40. What a run left running decides whether the process may run again. The result of a
    run is a stop exactly when nothing failed, the threads reported that stop and none was
    left running; the error of a run that left a thread running is marked as such, and only
    that; and then [boot] gives the slot back, except after such an error or an unwind,
    which keep it for good. *)
Theorem left_running_keeps_slot failure o left_running :
  let r := run_result after_stop failure o left_running in
  (forall s, r = inl s <-> failure = None /\ o = Stopped s /\ left_running = None) /\
  (forall e, r = inr e -> (is_left_running e = true <-> left_running <> None) /\
    match failure, o with Some t, _ | None, Failed t => display e = match left_running with Some l => t ++ AND ++ l | None => t end | None, Stopped s => True end) /\
  boot FREE true (Some r) = ((if bool_decide (left_running = None) then FREE else KEPT), Returned r) /\
  (boot FREE true None).1 = KEPT /\ (boot FREE false (Some r)).1 = FREE /\ boot KEPT true (Some r) = (KEPT, Refused true).
Proof.
  cbv zeta. unfold run_result. split_and!; try done.
  - intros s. destruct failure as [t|], o as [s'|t'], left_running as [l|]; cbn; split; try done; try (intros [= <-]; done); intros (? & ? & ?); simplify_eq; done.
  - intros e. destruct failure as [t|], o as [s'|t'], left_running as [l|]; cbn; intros [= <-]; cbn; (split; [by split|]); done.
  - destruct failure as [t|], o as [s'|t'], left_running as [l|]; reflexivity.
Qed.

(** The wakes of one run see the list of started vCPUs grow. *)
Definition grows (seen : list Z) (wakes : list Wake) (final : list Z) : Prop := 
  exists l, (seen :: (w_started <$> wakes)) ++ [final] = l /\ forall i a b, l !! i = Some a -> l !! (S i) = Some b -> a `prefix_of` b.

Lemma grows_cons seen w wakes final : grows seen (w :: wakes) final -> seen `prefix_of` w_started w /\ grows (w_started w) wakes final.
Proof.
  intros (l & <- & Hl). split; [by apply (Hl 0%nat)|]. eexists. split; [reflexivity|]. intros i a b Ha Hb. by apply (Hl (S i)).
Qed.
Lemma grows_prefix wakes final : forall seen, grows seen wakes final -> seen `prefix_of` final.
Proof.
  induction wakes as [|w wakes IH]; intros seen H; [destruct H as (l & <- & Hl); by apply (Hl 0%nat)|].
  apply grows_cons in H as [H1 H2]. etrans; [exact H1|]. by apply IH.
Qed.

Lemma announce_loop_spec wakes final : forall seen out out' n ok, grows seen wakes final -> announce_loop wakes (length seen) out = Some (out', n, ok) ->
  exists l, out' = out ++ (VcpuStarted <$> l) /\ n = length (seen ++ l) /\ (seen ++ l) `prefix_of` final.
Proof.
  induction wakes as [|w wakes IH]; intros seen out out' n ok Hg; [done|]. cbn [announce_loop]. apply grows_cons in Hg as [[k Hk] Hg].
  unfold started_after. rewrite Hk, drop_app_length. pose proof (grows_prefix _ _ _ Hg) as Hp. rewrite Hk in *.
  assert ((match k with [] => (out, length seen) | _ => (out ++ (VcpuStarted <$> k), (length seen + length k)%nat) end) = (out ++ (VcpuStarted <$> k), length (seen ++ k))) as ->.
  { rewrite length_app. destruct k; cbn; [by rewrite app_nil_r, Nat.add_0_r|done]. }
  destruct (w_over w); [intros [= <- <- <-]; by exists k|]. destruct (w_wait_ok w); [|intros [= <- <- <-]; by exists k].
  intros Ha. destruct (IH (seen ++ k) _ _ _ _ Hg Ha) as (l & -> & -> & Hf). exists (k ++ l). rewrite fmap_app, !(assoc_L (++)). split_and!; [done|by rewrite <- (assoc_L (++))|].
  by rewrite <- (assoc_L (++)) in *.
Qed.

(** The ledger tells how the run went. Whenever the run ends, its records are one
    [vmm.vcpu_started] for each vCPU that had entered its loop by then, in the order they
    did and none twice, and then the one [vmm.stop] record, whose reason and error are
    those of the result [boot] returns and whose signal is the first asked for, and only
    when the run stopped on a request. *)
Theorem run_records_exact failure wait_failed wakes vcpu_left io_left o final h dropped r recs :
  grows [] wakes final -> run_to_stop after_stop failure wait_failed wakes vcpu_left io_left o final h dropped = Some (r, recs) ->
  recs = (VcpuStarted <$> final) ++ [stop_record r h dropped] /\
  (exists failure', r = run_result after_stop failure' o (match vcpu_left with Some l => Some l | None => io_left end) /\ (failure' = failure \/ failure = None /\ failure' = Some wait_failed)).
Proof.
  intros Hg. unfold run_to_stop. destruct failure as [f|].
  - cbn [mbind option_bind]. intros [= <- <-]. split; [done|]. exists (Some f). split; [reflexivity|by left].
  - destruct (announce_loop wakes 0 []) as [[[out n] ok]|] eqn:E; [|done]. cbn [mbind option_bind].
    destruct (announce_loop_spec wakes final [] [] out n ok Hg E) as (l & -> & -> & [k ->]). intros [= <- <-]. split.
    + unfold started_after. cbn [app]. rewrite drop_app_length, fmap_app, <- (assoc_L (++)). done.
    + exists (if ok then None else Some wait_failed). split; [reflexivity|]. destruct ok; [by left|by right].
Qed.

End Claims.

(** A wait for a deadline is waited out. A [poll] that gives up with nothing ready does
    so within a microsecond of its deadline, however often a signal interrupts it; the
    timeout of each call covers the time left, to the microsecond, unless it is the longest
    there is; and with no deadline it never gives up. *)
Theorem poll_waits_out deadline calls :
  (poll deadline calls = Some (POk false) -> exists d now, deadline = Some d /\ now ∈ calls.*1 /\ d - now < 1000) /\
  (forall d now, deadline = Some d -> timeout_millis deadline now < INT_MAX -> d - now < timeout_millis deadline now * 1000000 + 1000) /\
  (forall d now, deadline = Some d -> 0 <= timeout_millis deadline now <= INT_MAX) /\
  (poll deadline calls = Some PErr -> PollErr ∈ calls.*2).
Proof.
  assert (forall d now, timeout_millis (Some d) now < INT_MAX -> d - now < timeout_millis (Some d) now * 1000000 + 1000) as Ht.
  { intros d now. unfold timeout_millis. destruct (Z.ltb_spec INT_MAX ((Z.max 0 (d - now) / 1000 + 999) / 1000)); [lia|]. intros _.
    pose proof (Z.div_mod (Z.max 0 (d - now)) 1000 ltac:(lia)). pose proof (Z.mod_pos_bound (Z.max 0 (d - now)) 1000 ltac:(lia)).
    pose proof (Z.div_mod (Z.max 0 (d - now) / 1000 + 999) 1000 ltac:(lia)). pose proof (Z.mod_pos_bound (Z.max 0 (d - now) / 1000 + 999) 1000 ltac:(lia)). lia. }
  split_and!.
  - induction calls as [|[now ret] calls IH]; [done|]. cbn [poll fmap list_fmap fst]. destruct ret; try done.
    + destruct (Z.eqb_spec (timeout_millis deadline now) 0) as [E|E].
      * intros _. destruct deadline as [d|]; [|done]. exists d, now. split_and!; [done|by left|]. specialize (Ht d now ltac:(rewrite E; done)). lia.
      * intros H. destruct (IH H) as (d & x & ? & ? & ?). exists d, x. split_and!; [done|by right|done].
    + intros H. destruct (IH H) as (d & x & ? & ? & ?). exists d, x. split_and!; [done|by right|done].
  - intros d now -> H. by apply Ht.
  - intros d now ->. unfold timeout_millis. destruct (Z.ltb_spec INT_MAX ((Z.max 0 (d - now) / 1000 + 999) / 1000)); [by (unfold INT_MAX; lia)|]. split; [|done].
    apply Z.div_pos; [|lia]. pose proof (Z.div_pos (Z.max 0 (d - now)) 1000 ltac:(lia) ltac:(lia)). lia.
  - induction calls as [|[now ret] calls IH]; [done|]. cbn [poll fmap list_fmap snd]. destruct ret; try done; [|intros H; right; by apply IH|by left].
    destruct (timeout_millis deadline now =? 0); [done|]. intros H. right. by apply IH.
Qed.

(** The stop actions run once, in order, and the error is the first thread left. *)
Lemma io_stop_spec p console threads : let '(p', running, e) := io_stop p console threads in
  requested_stop p' = true /\ ran p' = ran p ++ actions p /\ actions p' = [] /\ (e = None <-> Forall (fun t => t.2 = true) (console :: threads)).
Proof.
  unfold io_stop. cbn [plan_run requested_stop ran actions]. split_and!; [done|by rewrite app_nil_r|done|]. rewrite Forall_forall.
  destruct (base.filter (fun t => t.2 = false) (console :: threads)) as [|x l] eqn:E; cbn.
  - split; [|done]. intros _ t Ht. destruct t as [n []]; [done|]. assert ((n, false) ∈ base.filter (fun t => t.2 = false) (console :: threads)) as H by (by apply list_elem_of_filter).
    rewrite E in H. by apply elem_of_nil in H.
  - split; [done|]. intros H. assert (x ∈ base.filter (fun t => t.2 = false) (console :: threads)) as Hx by (rewrite E; by left). apply list_elem_of_filter in Hx as [Hx1 Hx2].
    specialize (H x Hx2). congruence.
Qed.

Module Example.

Definition quiet (e : list Z) (s : Stop) : list Z := e.
Definition two_wakes : list Wake := [mkWake [0] false true; mkWake [0; 1] true true].
Lemma run_records_exact_witness : exists r, run_to_stop quiet None [] two_wakes None None (Stopped SystemOff) [0; 1; 2] new_pair 0 =
  Some (r, [VcpuStarted 0; VcpuStarted 1; VcpuStarted 2; StopRecord SystemOffReason None None 0]).
Proof.
  destruct (run_to_stop quiet None [] two_wakes None None (Stopped SystemOff) [0; 1; 2] new_pair 0) as [[r recs]|] eqn:E; [|by vm_compute in E].
  assert (grows [] two_wakes [0; 1; 2]) as Hg.
  { eexists. split; [reflexivity|]. intros [|[|[|i]]] a b Ha Hb; cbn in Ha, Hb; simplify_eq; [by exists [0]|by exists [1]|by exists [2]]. }
  destruct (run_records_exact quiet None [] two_wakes None None (Stopped SystemOff) [0; 1; 2] new_pair 0 r recs Hg E) as [-> _].
  assert (r = inl SystemOff) as Hr by (vm_compute in E; congruence). exists r. rewrite Hr. reflexivity.
Defined.

End Example.
