(* ===== verification/Seccomp.v ===== *)
(** * The system call filters ([src/sandbox/seccomp.rs], [src/sandbox/mod.rs], [resources/seccomp])

    Each thread installs its own allowlist, on a glibc build behind a filter that refuses
    the opens. The kernel gives a call the strictest answer of the thread's filters, and
    judges the installation of a filter by the ones already there. The crate [seccompiler]
    turns a list into a program, and refuses a name it does not know. *)

From stdpp Require Import strings.
From S2P Require Import Prelude.
Local Open Scope string_scope.
Local Open Scope list_scope.

(** ** Filters *)

Inductive Arch := X86_64 | Aarch64.
Inductive Libc := Gnu | Musl.
Inductive Thread := Vmm | Vcpu.

(** What a filter answers, and the strictest of two answers. *)
Inductive Action := Allow | Log | Errno | Trap.
Definition strictness (a : Action) : nat := match a with Allow => 0 | Log => 1 | Errno => 2 | Trap => 3 end.
Definition strictest (a b : Action) : Action := if (strictness a <? strictness b)%nat then b else a.

Record Program := mkProgram { listed : list string; on_match : Action; on_mismatch : Action }.
Definition answer (p : Program) (sc : string) : Action := if bool_decide (sc ∈ listed p) then on_match p else on_mismatch p.
Definition effective (fs : list Program) (sc : string) : Action := foldr (fun p a => strictest (answer p sc) a) Allow fs.

Definition x86_64_vmm : list string := ["read"; "write"; "pread64"; "pwrite64"; "readv"; "writev"; "lseek"; "fdatasync"; "fsync"; "close"; "shutdown"; "fcntl";
   "ioctl"; "accept4"; "recvfrom"; "recvmsg"; "sendmsg"; "sendto"; "eventfd2"; "clone"; "clone3"; "futex"; "mmap"; "munmap"; "mprotect"; "mremap"; "madvise"; "brk";
   "poll"; "ppoll"; "clock_nanosleep"; "clock_gettime"; "sched_yield"; "sched_getaffinity"; "getrandom"; "getpid"; "gettid"; "tgkill"; "tkill"; "rseq";
   "set_robust_list"; "sigaltstack"; "rt_sigaction"; "rt_sigprocmask"; "rt_sigreturn"; "restart_syscall"; "exit"; "exit_group"].
Definition x86_64_vcpu : list string := ["ioctl"; "write"; "pread64"; "read"; "pwrite64"; "writev"; "lseek"; "fdatasync"; "fsync"; "sendto"; "futex"; "poll";
   "ppoll"; "mmap"; "munmap"; "mprotect"; "mremap"; "madvise"; "brk"; "getrandom"; "getpid"; "gettid"; "tgkill"; "tkill"; "sched_yield"; "sched_getaffinity"; "rseq";
   "set_robust_list"; "sigaltstack"; "rt_sigprocmask"; "rt_sigreturn"; "rt_sigaction"; "restart_syscall"; "clock_gettime"; "close"; "shutdown"; "sendmsg"; "recvmsg";
   "exit"; "exit_group"].
Definition aarch64_vmm : list string := ["read"; "write"; "pread64"; "pwrite64"; "readv"; "writev"; "lseek"; "fdatasync"; "fsync"; "close"; "shutdown"; "fcntl";
   "ioctl"; "accept4"; "recvfrom"; "recvmsg"; "sendmsg"; "sendto"; "eventfd2"; "clone"; "clone3"; "futex"; "mmap"; "munmap"; "mprotect"; "mremap"; "madvise"; "brk";
   "ppoll"; "clock_nanosleep"; "clock_gettime"; "sched_yield"; "sched_getaffinity"; "getrandom"; "getpid"; "gettid"; "tgkill"; "tkill"; "rseq"; "set_robust_list";
   "sigaltstack"; "rt_sigaction"; "rt_sigprocmask"; "rt_sigreturn"; "restart_syscall"; "exit"; "exit_group"].
Definition aarch64_vcpu : list string := ["ioctl"; "write"; "pread64"; "read"; "pwrite64"; "writev"; "lseek"; "fdatasync"; "fsync"; "sendto"; "futex"; "ppoll";
   "mmap"; "munmap"; "mprotect"; "mremap"; "madvise"; "brk"; "getrandom"; "getpid"; "gettid"; "tgkill"; "tkill"; "sched_yield"; "sched_getaffinity"; "rseq";
   "set_robust_list"; "sigaltstack"; "rt_sigprocmask"; "rt_sigreturn"; "rt_sigaction"; "restart_syscall"; "clock_gettime"; "close"; "shutdown"; "sendmsg"; "recvmsg";
   "exit"; "exit_group"].

(** [FILTERS], by the thread. *)
Definition FILTERS (a : Arch) (t : Thread) : list string :=
  match a, t with X86_64, Vmm => x86_64_vmm | X86_64, Vcpu => x86_64_vcpu | Aarch64, Vmm => aarch64_vmm | Aarch64, Vcpu => aarch64_vcpu end.

Definition OPEN_SYSCALLS (a : Arch) : list string := (match a with X86_64 => ["open"] | Aarch64 => [] end) ++ ["openat"; "openat2"].

(** The state of a thread: the filters on it, and whether it installed one. *)
Record ThreadState := mkThread { filters : list Program; installed : bool }.
Definition fresh : ThreadState := mkThread [] false.
(** A thread another one starts. *)
Definition inherit (s : ThreadState) : ThreadState := mkThread (filters s) false.

Inductive Installed := InstallOk | InstallErr | Killed.

Section Seccomp.
(** The architecture, the C library, whether [HVI_SECCOMP=log] is set, and the calls the
    crate knows. *)
Context (arch : Arch) (libc : Libc) (log_mode : bool) (known : string -> bool).

(** [compile_from_json] of one list. *)
Definition compile (names : list string) (on_match on_mismatch : Action) : option Program :=
  if forallb known names then Some (mkProgram names on_match on_mismatch) else None.

Definition allowlist (t : Thread) : option Program :=
  compile (FILTERS arch t ++ match libc with Gnu => OPEN_SYSCALLS arch | Musl => [] end) Allow (if log_mode then Log else Trap).

Definition open_refusal_program : option Program := Some (mkProgram (OPEN_SYSCALLS arch) Errno Allow).

Definition programs (t : Thread) : option (list Program) :=
  match libc with
  | Gnu => o ← open_refusal_program; a ← allowlist t; Some [o; a]
  | Musl => a ← allowlist t; Some [a]
  end.

(** [apply_filter]: the calls it makes, judged by the filters in place; [accepts] is
    whether the kernel takes the program. *)
Definition apply_filter (s : ThreadState) (p : Program) (accepts : bool) : ThreadState * Installed :=
  if existsb (fun sc => bool_decide (strictness (effective (filters s) sc) = 3%nat)) ["prctl"; "seccomp"] then (s, Killed)
  else if existsb (fun sc => bool_decide (strictness (effective (filters s) sc) = 2%nat)) ["prctl"; "seccomp"] then (s, InstallErr)
  else if accepts then (mkThread (p :: filters s) (installed s), InstallOk) else (s, InstallErr).

Fixpoint install_loop (s : ThreadState) (ps : list Program) (accepts : bool) : ThreadState * Installed :=
  match ps with
  | [] => (s, InstallOk)
  | p :: ps => match apply_filter s p accepts with (s, InstallOk) => install_loop (mkThread (filters s) true) ps accepts | r => r end
  end.
Definition install (s : ThreadState) (t : Thread) (accepts : bool) : ThreadState * Installed :=
  match programs t with None => (s, InstallErr) | Some ps => install_loop s ps accepts end.

(** [arm]: [Some] is the flag it sets. *)
Definition arm (armed : bool) : option bool := _ ← programs Vmm; _ ← programs Vcpu; Some true.

(** [install_thread]; an installation that fails ends the process. *)
Definition install_thread (armed : bool) (s : ThreadState) (t : Thread) (accepts : bool) : ThreadState * Installed :=
  if negb armed then (s, InstallOk)
  else if installed s then (s, InstallOk)
  else match install (mkThread (filters s) true) t accepts with (s, InstallOk) => (s, InstallOk) | (s, _) => (s, Killed) end.

Definition is_trapping (armed : bool) : bool := armed && negb log_mode.
(** [check_run] on Linux; [true] is that the run may start. *)
Definition check_thread (s : ThreadState) : bool := negb (installed s).
Definition check_run (armed sandbox : bool) (s : ThreadState) : bool := if armed && negb sandbox then false else check_thread s.

End Seccomp.

(** * What they show *)

(** The answer a thread gets once it is filtered. *)
Definition confined (arch : Arch) (libc : Libc) (log_mode : bool) (t : Thread) (sc : string) : Action :=
  if match libc with Gnu => bool_decide (sc ∈ OPEN_SYSCALLS arch) | Musl => false end then Errno
  else if bool_decide (sc ∈ FILTERS arch t) then Allow
  else if log_mode then Log else Trap.

Lemma list_refuses arch t sc : sc ∈ ["prctl"; "seccomp"; "socket"; "execve"; "execveat"; "open"; "openat"; "openat2"; "unlink"; "unlinkat"; "chmod"; "fchmodat"; "kill"; "ptrace"; "memfd_create"; "bpf"] ->
  sc ∉ FILTERS arch t.
Proof.
  assert (forallb (fun sc => negb (bool_decide (sc ∈ FILTERS arch t))) ["prctl"; "seccomp"; "socket"; "execve"; "execveat"; "open"; "openat"; "openat2"; "unlink"; "unlinkat"; "chmod"; "fchmodat"; "kill"; "ptrace"; "memfd_create"; "bpf"] = true) as H
    by (destruct arch, t; vm_compute; reflexivity).
  intros Hsc%list_elem_of_In. rewrite forallb_forall in H. specialize (H sc Hsc). by apply negb_true_iff, bool_decide_eq_false in H.
Qed.

Section Claims.
Context (arch : Arch) (libc : Libc) (log_mode : bool) (known : string -> bool).
Context (Hknown : forall t sc, sc ∈ FILTERS arch t ++ OPEN_SYSCALLS arch -> known sc = true).

Lemma allowlist_some t : allowlist arch libc log_mode known t =
  Some (mkProgram (FILTERS arch t ++ match libc with Gnu => OPEN_SYSCALLS arch | Musl => [] end) Allow (if log_mode then Log else Trap)).
Proof.
  unfold allowlist, compile. rewrite (proj2 (forallb_forall _ _)); [done|]. intros sc Hsc%list_elem_of_In. apply (Hknown t). rewrite elem_of_app in *.
  destruct Hsc as [?|Hsc]; [by left|]. destruct libc; [by right|by apply elem_of_nil in Hsc].
Qed.

(** The filters of a thread, the last installed first. *)
Definition thread_filters (t : Thread) : list Program :=
  mkProgram (FILTERS arch t ++ match libc with Gnu => OPEN_SYSCALLS arch | Musl => [] end) Allow (if log_mode then Log else Trap) ::
  match libc with Gnu => [mkProgram (OPEN_SYSCALLS arch) Errno Allow] | Musl => [] end.

Lemma install_fresh t b : install arch libc log_mode known (mkThread [] b) t true = (mkThread (thread_filters t) true, InstallOk).
Proof.
  unfold install, programs, thread_filters. rewrite allowlist_some. destruct libc; cbn [mbind option_bind open_refusal_program install_loop].
  - assert (forall p, apply_filter (mkThread [] b) p true = (mkThread [p] b, InstallOk)) as Ha by done. rewrite Ha.
    assert (forall p, apply_filter (mkThread [mkProgram (OPEN_SYSCALLS arch) Errno Allow] true) p true = (mkThread [p; mkProgram (OPEN_SYSCALLS arch) Errno Allow] true, InstallOk)) as Hb.
    { intros p. unfold apply_filter. replace (existsb _ _) with false by (by destruct arch). replace (existsb _ _) with false by (by destruct arch). done. }
    cbn [filters]. by rewrite Hb.
  - done.
Qed.

Lemma effective_confined t sc : effective (thread_filters t) sc = confined arch libc log_mode t sc.
Proof.
  unfold effective, thread_filters, confined, answer. cbn [foldr listed on_match on_mismatch]. destruct libc; cbn [foldr listed on_match on_mismatch].
  - destruct (bool_decide_reflect (sc ∈ OPEN_SYSCALLS arch)) as [Ho|Ho].
    + by rewrite bool_decide_true by (apply elem_of_app; by right).
    + destruct (bool_decide_reflect (sc ∈ FILTERS arch t)) as [Hf|Hf]; [by rewrite bool_decide_true by (apply elem_of_app; by left)|].
      rewrite bool_decide_false by (rewrite elem_of_app; tauto). by destruct log_mode.
  - rewrite app_nil_r. destruct (bool_decide (sc ∈ FILTERS arch t)); [done|]. by destruct log_mode.
Qed.

(** C7. A filtered thread can make the calls of its list and no others. On either
    architecture and C library, installing the filters on a thread that has none succeeds
    when the kernel takes them; then a call of the list runs, a glibc build refuses every
    open with an error, and any other call traps, or is logged in log mode. No list has one
    of the calls the theorem names: the opens, socket, the execs, the unlinks and
    chmods, kill, ptrace, memfd_create, bpf, and the two that install a filter. (Every
    list does have tgkill and tkill, with no condition on their arguments, so a filtered
    thread can still signal a thread whose id it knows.) A vCPU thread cannot start a
    thread, and a thread inherits the filters of the one that starts it. *)
Theorem filtered_thread_confined t : 
  let '(s, r) := install arch libc log_mode known fresh t true in
  r = InstallOk /\ installed s = true /\ (forall sc, effective (filters s) sc = confined arch libc log_mode t sc) /\ filters (inherit s) = filters s /\
  (forall sc, sc ∈ ["prctl"; "seccomp"; "socket"; "execve"; "execveat"; "open"; "openat"; "openat2"; "unlink"; "unlinkat"; "chmod"; "fchmodat"; "kill"; "ptrace"; "memfd_create"; "bpf"] -> effective (filters s) sc <> Allow) /\
  (t = Vcpu -> effective (filters s) "clone" <> Allow /\ effective (filters s) "clone3" <> Allow).
Proof.
  unfold fresh. rewrite install_fresh. cbn [filters installed inherit]. split_and!; try done.
  - intros sc. apply effective_confined.
  - intros sc Hsc. rewrite effective_confined. unfold confined. rewrite (bool_decide_false _ (list_refuses arch t sc Hsc)).
    destruct (match libc with Gnu => _ | Musl => _ end), log_mode; done.
  - intros ->. rewrite !effective_confined. unfold confined. destruct arch, libc, log_mode; vm_compute; split; congruence.
Qed.

(** Asking twice is harmless, and only because it is remembered. Once the filters are
    armed, every call of [install_thread] after the first leaves the thread as the first
    left it, whatever filter it asks for; a thread that installed the filters again would
    be killed by them outside log mode; and before they are armed nothing is installed. *)
Theorem install_thread_once t ts : 
  let call s t := (install_thread arch libc log_mode known true s t true).1 in
  let once := call fresh t in
  foldl call once ts = once /\ (install_thread arch libc log_mode known true fresh t true).2 = InstallOk /\
  Forall (fun t' => (install_thread arch libc log_mode known true once t' true).2 = InstallOk) ts /\
  (log_mode = false -> forall t', (install arch libc log_mode known once t' true).2 = Killed) /\
  install_thread arch libc log_mode known false fresh t true = (fresh, InstallOk).
Proof.
  cbv beta zeta. assert (install_thread arch libc log_mode known true fresh t true = (mkThread (thread_filters t) true, InstallOk)) as E
    by (unfold install_thread, fresh; cbn [negb installed filters]; by rewrite install_fresh).
  rewrite E. cbn [fst snd]. split_and!; try done.
  - induction ts as [|t' ts IH]; [done|]. cbn [foldl]. exact IH.
  - by apply Forall_forall.
  - intros Hl t'. unfold install, programs. rewrite allowlist_some. assert (forall p, (apply_filter (mkThread (thread_filters t) true) p true) = (mkThread (thread_filters t) true, Killed)) as Ha.
    { intros p. unfold apply_filter. cbn [filters]. replace (existsb _ _) with true; [done|]. symmetry. apply existsb_exists. exists "prctl". split; [by left|]. apply bool_decide_eq_true.
      rewrite effective_confined. unfold confined. rewrite (bool_decide_false ("prctl" ∈ FILTERS arch t)) by (apply list_refuses; by left). rewrite Hl.
      destruct libc; [|done]. by destruct arch. }
    destruct libc; cbn [mbind option_bind open_refusal_program install_loop]; by rewrite Ha.
Qed.

End Claims.

Module Example.

Lemma all_known a t sc : sc ∈ FILTERS a t ++ OPEN_SYSCALLS a -> (fun _ : string => true) sc = true.
Proof. done. Qed.

Lemma filtered_thread_confined_witness : effective (filters (install X86_64 Gnu false (fun _ => true) fresh Vcpu true).1) "openat" = Errno.
Proof.
  pose proof (filtered_thread_confined X86_64 Gnu false (fun _ => true) (all_known X86_64) Vcpu) as H.
  destruct (install X86_64 Gnu false (fun _ => true) fresh Vcpu true) as [s r]. destruct H as (_ & _ & H & _). cbn [fst]. by rewrite H.
Defined.

Lemma install_thread_once_witness : (install Aarch64 Musl false (fun _ => true) (install_thread Aarch64 Musl false (fun _ => true) true fresh Vmm true).1 Vmm true).2 = Killed.
Proof. destruct (install_thread_once Aarch64 Musl false (fun _ => true) (all_known Aarch64) Vmm []) as (_ & _ & _ & H & _). by apply H. Defined.

End Example.
