(* ===== verification/Seatbelt.v ===== *)
(** * The Seatbelt profile ([src/sandbox/seatbelt.rs], [src/sandbox/mod.rs])

    On macOS one profile confines the process. Its text is a fixed part and a rule for
    each exported directory, whose path the caller chose: the path is escaped into a
    string of the profile. A path is its characters, or [None] where it is not UTF-8.
    [sandbox_init] is an argument. *)

From stdpp Require Import strings.
From S2P Require Import Prelude Config.
Local Open Scope Z_scope.

Definition QUOTE : Z := 34.
Definition BACKSLASH : Z := 92.
Definition NEWLINE : Z := 10.

(** A line of the profile, with its end. *)
Definition ln (s : string) : list Z := lit s ++ [NEWLINE].

Definition PROFILE : list Z :=
  ln "(version 1)"
  ++ ln ";; hvi VMM confinement -- see src/sandbox/seatbelt.rs for the reasoning behind each line."
  ++ ln ";;"
  ++ ln ";; Installed after the VM is built and every host resource is already open, and"
  ++ ln ";; before any guest I/O is serviced. Seatbelt polices acquiring resources rather"
  ++ ln ";; than using descriptors already held, so the VMM keeps working on what it has"
  ++ ln ";; and can obtain nothing new."
  ++ ln ";;"
  ++ ln ";; sandbox_init(3) is formally deprecated (10.8) and still the mechanism in"
  ++ ln ";; practice (Chrome, sandbox-exec). Re-prove this profile per OS release:"
  ++ ln ";; `hvi sandbox-selftest`."
  ++ ln "(deny default)"
  ++ ln ""
  ++ ln ";; Restoring the user's terminal on exit runs after this point. Opening a tty"
  ++ ln ";; stays denied, so this only ever applies to a descriptor already inherited,"
  ++ ln ";; and macOS refuses TIOCSTI on its own account."
  ++ lit "(allow file-ioctl (regex #" ++ [QUOTE] ++ lit "^/dev/tty" ++ [QUOTE] ++ ln "))".

Inductive SeatbeltError := PathNotUtf8 | PathHasControl | ProfileHasNul | SandboxInit.

(** [char::is_control]: the general category Cc. *)
Definition is_control (c : Z) : bool := ((0 <=? c) && (c <? 0x20)) || ((0x7f <=? c) && (c <? 0xa0)).

(** [str::replace] of a character. *)
Definition replace (c : Z) (by_ : list Z) (l : list Z) : list Z := l ≫= (fun x => if x =? c then by_ else [x]).

Definition escape (root : list Z) : list Z := replace QUOTE [BACKSLASH; QUOTE] (replace BACKSLASH [BACKSLASH; BACKSLASH] root).

Definition export_rule (writable : bool) (escaped : list Z) : list Z :=
  if writable then
    ln "" ++ ln ";; virtio-fs may read and mutate only below this canonical writable export."
    ++ lit "(allow file-read* file-write* (subpath " ++ [QUOTE] ++ escaped ++ [QUOTE] ++ ln "))"
  else
    ln "" ++ ln ";; virtio-fs may acquire files only below this canonical read-only export."
    ++ lit "(allow file-read* (subpath " ++ [QUOTE] ++ escaped ++ [QUOTE] ++ ln "))".

Definition sync_rule : list Z :=
  ln "" ++ ln ";; virtio-fs SYNCFS: sync a volume (FSIOC_SYNC_VOLUME), and no other fsctl."
  ++ ln "(allow system-fsctl (fsctl-command 2147762433))".

Fixpoint policy_loop (roots : list (option (list Z) * bool)) (policy : list Z) (any_writable : bool) : list Z * bool + SeatbeltError :=
  match roots with
  | [] => inl (policy, any_writable)
  | (root, writable) :: roots =>
      match root with
      | None => inr PathNotUtf8
      | Some root =>
          if existsb is_control root then inr PathHasControl
          else policy_loop roots (policy ++ export_rule writable (escape root)) (any_writable || writable)
      end
  end.

Definition policy_for (roots : list (option (list Z) * bool)) : list Z + SeatbeltError :=
  match policy_loop roots PROFILE false with
  | inr e => inr e
  | inl (policy, any_writable) => inl (if any_writable then policy ++ sync_rule else policy)
  end.

(** [sandbox_init] is given the text and says whether it took it; [ENTERED] is the state
    of the process. *)
Definition install (sandbox_init : list Z -> bool) (policy : list Z) (entered : bool) : bool * option SeatbeltError :=
  if bool_decide (0 ∈ policy) then (entered, Some ProfileHasNul)
  else if sandbox_init policy then (true, None)
  else (entered, Some SandboxInit).

Definition enter_with_paths (sandbox_init : list Z -> bool) (roots : list (option (list Z) * bool)) (entered : bool) : bool * option SeatbeltError :=
  match policy_for roots with inr e => (entered, Some e) | inl policy => install sandbox_init policy entered end.
Definition enter_with_shares sandbox_init (shares : list (option (list Z) * bool)) entered := enter_with_paths sandbox_init shares entered.
Definition enter_with_readonly_shares sandbox_init (roots : list (option (list Z))) entered :=
  enter_with_paths sandbox_init ((fun root => (root, false)) <$> roots) entered.
Definition enter sandbox_init entered := enter_with_readonly_shares sandbox_init [] entered.

(** [check_run] on macOS; [true] is that the run may start. *)
Definition macos_check_run (entered : bool) : bool := negb entered.

(** * The profile as it is read

    The words of the profile language: parentheses, strings with a backslash before a
    quote or a backslash, and symbols; a semicolon starts a comment to the end of its
    line. Any other escape, and a string left open, is an error. *)

Inductive Token := Open | Close | Str (s : list Z) | Sym (s : list Z).
Inductive Mode := Top | Comment | InStr (acc : list Z) | InEsc (acc : list Z) | InSym (acc : list Z).

Definition LPAR : Z := 40.
Definition RPAR : Z := 41.
Definition SEMI : Z := 59.

Definition top (c : Z) : list Token * Mode :=
  if c =? LPAR then ([Open], Top)
  else if c =? RPAR then ([Close], Top)
  else if c =? QUOTE then ([], InStr [])
  else if c =? SEMI then ([], Comment)
  else if bool_decide (c ∈ [32; 9; 10; 13]) then ([], Top)
  else ([], InSym [c]).

Definition ends_symbol (c : Z) : bool := bool_decide (c ∈ [LPAR; RPAR; QUOTE; SEMI; 32; 9; 10; 13]).

Definition read_char (m : Mode) (c : Z) : option (list Token * Mode) :=
  match m with
  | Top => Some (top c)
  | Comment => Some ([], if c =? NEWLINE then Top else Comment)
  | InStr acc => Some (if c =? QUOTE then ([Str acc], Top) else if c =? BACKSLASH then ([], InEsc acc) else ([], InStr (acc ++ [c])))
  | InEsc acc => if (c =? QUOTE) || (c =? BACKSLASH) then Some ([], InStr (acc ++ [c])) else None
  | InSym acc => Some (if ends_symbol c then (Sym acc :: (top c).1, (top c).2) else ([], InSym (acc ++ [c])))
  end.

Fixpoint read_from (m : Mode) (l : list Z) : option (list Token * Mode) :=
  match l with
  | [] => Some ([], m)
  | c :: l => '(ts, m) ← read_char m c; '(us, m) ← read_from m l; Some (ts ++ us, m)
  end.

Definition read_profile (l : list Z) : option (list Token) :=
  '(ts, m) ← read_from Top l;
  match m with Top | Comment => Some ts | InSym acc => Some (ts ++ [Sym acc]) | InStr _ | InEsc _ => None end.

(** * What it shows *)

Lemma read_from_app m l k : read_from m (l ++ k) = ('(ts, m1) ← read_from m l; '(us, m2) ← read_from m1 k; Some (ts ++ us, m2)).
Proof.
  revert m. induction l as [|c l IH]; intros m; cbn [app read_from mbind option_bind]; [by destruct (read_from m k) as [[]|]|].
  destruct (read_char m c) as [[ts m1]|]; cbn [mbind option_bind]; [|done]. rewrite IH. destruct (read_from m1 l) as [[us m2]|]; cbn [mbind option_bind]; [|done].
  destruct (read_from m2 k) as [[vs m3]|]; cbn [mbind option_bind]; [|done]. by rewrite app_assoc.
Qed.

(** Reading a text in two parts. *)
Lemma read_from_step m l k ts m1 us m2 : read_from m l = Some (ts, m1) -> read_from m1 k = Some (us, m2) -> read_from m (l ++ k) = Some (ts ++ us, m2).
Proof. intros H1 H2. by rewrite read_from_app, H1; cbn; rewrite H2. Qed.

Lemma escape_cons c l : escape (c :: l) = (if c =? QUOTE then [BACKSLASH; QUOTE] else if c =? BACKSLASH then [BACKSLASH; BACKSLASH] else [c]) ++ escape l.
Proof.
  unfold escape, replace. cbn [mbind list_bind]. rewrite bind_app. f_equal.
  destruct (c =? BACKSLASH) eqn:Eb; [apply Z.eqb_eq in Eb as ->; done|]. cbn. by destruct (c =? QUOTE).
Qed.

(** An escaped path is one string to the reader: the path, whatever it holds. *)
Lemma read_escaped root acc : read_from (InStr acc) (escape root ++ [QUOTE]) = Some ([Str (acc ++ root)], Top).
Proof.
  revert acc. induction root as [|c root IH]; intros acc; [by rewrite app_nil_r|]. rewrite escape_cons, <-app_assoc.
  replace (acc ++ c :: root) with ((acc ++ [c]) ++ root) by (by rewrite <-app_assoc).
  destruct (c =? QUOTE) eqn:Eq; [apply Z.eqb_eq in Eq as ->; by apply (read_from_step _ [BACKSLASH; QUOTE] _ [] (InStr (acc ++ [QUOTE])))|].
  destruct (c =? BACKSLASH) eqn:Eb; [apply Z.eqb_eq in Eb as ->; by apply (read_from_step _ [BACKSLASH; BACKSLASH] _ [] (InStr (acc ++ [BACKSLASH])))|].
  apply (read_from_step _ [c] _ [] (InStr (acc ++ [c]))); [cbn; by rewrite Eq, Eb|apply IH].
Qed.

Definition sym (s : string) : Token := Sym (lit s).

Definition profile_tokens : list Token :=
  [Open; sym "version"; sym "1"; Close; Open; sym "deny"; sym "default"; Close;
   Open; sym "allow"; sym "file-ioctl"; Open; sym "regex"; sym "#"; Str (lit "^/dev/tty"); Close; Close].
Definition rule_tokens (r : option (list Z) * bool) : list Token :=
  [Open; sym "allow"; sym "file-read*"] ++ (if r.2 then [sym "file-write*"] else []) ++ [Open; sym "subpath"; Str (default [] r.1); Close; Close].
Definition sync_tokens : list Token := [Open; sym "allow"; sym "system-fsctl"; Open; sym "fsctl-command"; sym "2147762433"; Close; Close].

(** An export the profile can name: UTF-8, without control characters. *)
Definition usable (r : option (list Z) * bool) : bool := match r.1 with Some root => negb (existsb is_control root) | None => false end.

Lemma read_base : read_from Top PROFILE = Some (profile_tokens, Top).
Proof. vm_compute. reflexivity. Qed.
Lemma read_sync : read_from Top sync_rule = Some (sync_tokens, Top).
Proof. vm_compute. reflexivity. Qed.

Lemma read_rule w root : read_from Top (export_rule w (escape root)) = Some (rule_tokens (Some root, w), Top).
Proof.
  assert (forall pre ts, read_from Top (pre ++ [QUOTE]) = Some (ts, InStr []) ->
    read_from Top (pre ++ [QUOTE] ++ escape root ++ [QUOTE] ++ ln "))") = Some (ts ++ [Str root; Close; Close], Top)) as Hr.
  { intros pre ts Hp. rewrite (app_assoc pre). apply (read_from_step _ _ _ _ _ _ _ Hp). rewrite (app_assoc (escape root)).
    by apply (read_from_step _ _ _ _ _ [Close; Close] Top (read_escaped root [])). }
  destruct w; unfold export_rule; rewrite !(app_assoc (ln _)), (app_assoc (_ ++ ln _)).
  - apply (Hr _ ([Open; sym "allow"; sym "file-read*"; sym "file-write*"; Open; sym "subpath"])). vm_compute. reflexivity.
  - apply (Hr _ ([Open; sym "allow"; sym "file-read*"; Open; sym "subpath"])). vm_compute. reflexivity.
Qed.

(** The text has no NUL: neither its fixed parts nor a path it takes. *)
Lemma escape_elem c root : c ∈ escape root -> c = BACKSLASH \/ c ∈ root.
Proof.
  induction root as [|x root IH]; [by intros ?%elem_of_nil|]. rewrite escape_cons, elem_of_app, elem_of_cons. intros [H|H]; [|tauto].
  destruct (x =? QUOTE) eqn:E1; [apply Z.eqb_eq in E1 as ->|destruct (x =? BACKSLASH) eqn:E2; [apply Z.eqb_eq in E2 as ->|]];
    rewrite ?elem_of_cons, elem_of_nil in H; tauto.
Qed.

Lemma rule_no_nul w root : existsb is_control root = false -> 0 ∉ export_rule w (escape root).
Proof.
  intros Hc Hin. assert (0 ∉ escape root) as He.
  { intros [?|H0]%escape_elem; [done|]. apply list_elem_of_In in H0. assert (existsb is_control root = true); [|congruence]. apply existsb_exists. by exists 0. }
  assert (forall pre post, bool_decide (0 ∈ pre ++ post) = false -> 0 ∉ pre ++ escape root ++ post) as Hs.
  { intros pre post Hb%bool_decide_eq_false. rewrite !elem_of_app in *. tauto. }
  revert Hin. destruct w; unfold export_rule; rewrite !(app_assoc (ln _)), (app_assoc (_ ++ ln _)), (app_assoc _ [QUOTE]); apply Hs; vm_compute; reflexivity.
Qed.

Lemma policy_loop_reads roots : forall policy ts w, read_from Top policy = Some (ts, Top) -> 0 ∉ policy ->
  if forallb usable roots then
    exists p, policy_loop roots policy w = inl (p, w || existsb snd roots) /\ read_from Top p = Some (ts ++ (roots ≫= rule_tokens), Top) /\ 0 ∉ p
  else exists e, policy_loop roots policy w = inr e /\ (e = PathNotUtf8 \/ e = PathHasControl).
Proof.
  induction roots as [|[r wr] roots IH]; intros policy ts w Hr Hn; cbn [forallb policy_loop existsb].
  - exists policy. rewrite orb_false_r. cbn. by rewrite app_nil_r.
  - unfold usable at 1. cbn [fst]. destruct r as [root|]; [|cbn; eauto]. destruct (existsb is_control root) eqn:Ec; cbn [negb andb]; [eauto|].
    specialize (IH (policy ++ export_rule wr (escape root)) (ts ++ rule_tokens (Some root, wr)) (w || wr)).
    rewrite (read_from_step _ _ _ _ _ _ _ Hr (read_rule wr root)) in IH. specialize (IH eq_refl). rewrite elem_of_app in IH.
    pose proof (rule_no_nul wr root Ec) as Hn2. specialize (IH ltac:(tauto)). destruct (forallb usable roots); [|done].
    destruct IH as (p & -> & Hp & Hnp). exists p. rewrite <-orb_assoc. split; [done|]. split; [|done]. by rewrite Hp, <-app_assoc.
Qed.

(** C33. What an export's path says is data, never policy. Exports whose paths are UTF-8 and
    free of control characters give a profile that reads as the fixed rules, one rule for
    each export that grants writing exactly where the export is writable, on exactly its
    path, and the volume sync when one is writable; the process enters it when the system
    takes it, after which no other run starts. With any other path nothing is entered. *)
Theorem seatbelt_policy_exact roots sandbox_init entered :
  if forallb usable roots then
    exists p, policy_for roots = inl p /\
      read_profile p = Some (profile_tokens ++ (roots ≫= rule_tokens) ++ if existsb snd roots then sync_tokens else []) /\
      enter_with_shares sandbox_init roots entered = (if sandbox_init p then (true, None) else (entered, Some SandboxInit)) /\
      (sandbox_init p = true -> macos_check_run (enter_with_shares sandbox_init roots entered).1 = false)
  else exists e, enter_with_shares sandbox_init roots entered = (entered, Some e) /\ (e = PathNotUtf8 \/ e = PathHasControl).
Proof.
  assert (0 ∉ PROFILE) as Hb by (refine (bool_decide_eq_false_1 _ _); vm_compute; reflexivity).
  assert (0 ∉ sync_rule) as Hs by (refine (bool_decide_eq_false_1 _ _); vm_compute; reflexivity).
  pose proof (policy_loop_reads roots _ _ false read_base Hb) as H. unfold enter_with_shares, enter_with_paths, policy_for.
  destruct (forallb usable roots); [|destruct H as (e & -> & He); eauto]. destruct H as (p & -> & Hp & Hn). rewrite orb_false_l.
  eexists. split; [done|]. assert (0 ∉ (if existsb snd roots then p ++ sync_rule else p)) as Hn2 by (destruct (existsb snd roots); rewrite ?elem_of_app; tauto).
  unfold install. rewrite bool_decide_eq_false_2 by done. split; [|split; [done|intros ->; done]].
  unfold read_profile. destruct (existsb snd roots).
  - rewrite (read_from_step _ _ _ _ _ _ _ Hp read_sync). cbn [mbind option_bind]. by rewrite <-app_assoc.
  - rewrite Hp. cbn [mbind option_bind]. by rewrite app_nil_r.
Qed.
