(* ===== verification/Signals.v ===== *)
(** * Signals and the terminal ([src/signal.rs], [src/terminal/raw.rs])

    A stop signal asks the run to stop, a second one much later ends the process, and a
    fatal signal restores the operator's terminal before it ends the process. The state
    is that of the process: the action of each signal, the stops that exist, the settings
    of the terminal and what was published of them, and its threads: the one that takes
    the terminal over and gives it back, the one that receives the stop signals, and the
    fatal handlers in progress, on any thread. Each reads the published settings, applies
    settings and raises its signal in steps of its own, which interleave freely; only a
    handler holds up the thread it interrupted. *)

From stdpp Require Import gmap.
From S2P Require Import Prelude Ledger Vcpus.
Local Open Scope Z_scope.

(** ** Signals *)

Inductive Os := Linux | Macos.

Definition SIGHUP : Z := 1.
Definition SIGINT : Z := 2.
Definition SIGTERM : Z := 15.
Definition SIGSEGV : Z := 11.
Definition SIGBUS (os : Os) : Z := match os with Linux => 7 | Macos => 10 end.
Definition SIGUSR1 (os : Os) : Z := match os with Linux => 10 | Macos => 30 end.
Definition SIGRTMIN : Z := 34.
Definition SIGRTMAX : Z := 64.

Definition STOP_SIGNALS : list Z := [SIGTERM; SIGINT; SIGHUP].

Definition kick_signal (os : Os) : Z := match os with Linux => SIGRTMIN | Macos => SIGUSR1 Macos end.

(** [SIGQUIT], [SIGILL], [SIGTRAP], [SIGABRT], [SIGBUS], [SIGFPE], [SIGSEGV], [SIGSYS],
    [SIGXCPU], [SIGXFSZ], [SIGALRM], [SIGPIPE], [SIGPROF], [SIGUSR1], [SIGUSR2],
    [SIGVTALRM]; then [SIGIO], [SIGPWR], [SIGSTKFLT] and the real-time signals, or [SIGEMT]. *)
Definition fatal_signals (os : Os) : list Z :=
  base.filter (fun s => s <> kick_signal os)
    ([3; 4; 5; 6; SIGBUS os; 8; SIGSEGV; match os with Linux => 31 | Macos => 12 end; 24; 25; 14; 13; 27; SIGUSR1 os;
      match os with Linux => 12 | Macos => 31 end; 26]
     ++ match os with Linux => [29; 30; 16] ++ seqZ SIGRTMIN (SIGRTMAX - SIGRTMIN + 1) | Macos => [7] end).

(** The action of a signal: the default, ignored, a handler of the process's own, the one
    of signal-hook over the action it replaced, the one of [restore_on_fatal_signals], or
    the kick's. *)
Inductive Disp := Dfl | Ign | User (h : Z) | Hook (old : Disp) | Fatal | Noop.
#[export] Instance Disp_eq : EqDecision Disp.
Proof. solve_decision. Defined.

Definition is_handler (d : Disp) : bool := match d with Dfl | Ign => false | _ => true end.

(** ** The process *)

Record StopSignals := mkStopSignals { target : nat; first_at : option Z; signals : bool; registered : list Z }.

(** Where the thread that runs the console is in [RawTerm::enable] and its drop, with the
    settings it found. *)
Inductive RawPc := NoRaw | Published (orig : Z) | InRaw (orig : Z) | Restored (orig : Z).

(** Where a thread is in [RawTerm::restore_saved]: before the load of the published
    settings, before it applies those it loaded, or past both. *)
Inductive RestorePc := Load | Apply (orig : Z) | Past.

(** The thread that receives the stop signals: waiting, before it takes the lock for a
    signal, or ending the process by one. *)
Inductive StopPc := Waiting | Received (s : Z) | Ending (s : Z) (r : RestorePc).

(** A fatal handler in progress: the thread it interrupted, its signal and [si_code], and
    whether it has entered, is about to run the handler it replaced, or restores. *)
Inductive Thread := Console | Stopper | Other (n : nat).
#[export] Instance Thread_eq : EqDecision Thread.
Proof. solve_decision. Defined.
Inductive HandlerPc := Entered | Previous (d : Disp) | Restoring (r : RestorePc).
Record Frame := mkFrame { f_thread : Thread; f_sig : Z; f_code : Z; f_pc : HandlerPc }.

(** How the process ended: by a signal's default action alone, by the fatal handler, or
    by a second stop signal. *)
Inductive End := ByDefault (s : Z) | ByFatal (s : Z) | ByStop (s : Z).

(** [arrived] holds the stop signals passed to the thread and not received yet; [frames]
    has the newest handler first; [booted] says that the boot's start of the thread
    succeeded. *)
Record Threads := mkThreads { stopper : StopPc; arrived : list Z; frames : list Frame; booted : bool }.

Record Proc := mkProc {
  acts : gmap Z Disp; stop_state : option StopSignals; handles : list StopHandle;
  tty : option Z; saved : option Z; raw : RawPc;
  previous_segv : option Disp; previous_bus : option Disp; segv_used : bool; bus_used : bool;
  threads : Threads; ended : option End }.

Definition set_acts v p := mkProc v (stop_state p) (handles p) (tty p) (saved p) (raw p) (previous_segv p) (previous_bus p) (segv_used p) (bus_used p) (threads p) (ended p).
Definition set_stop v h p := mkProc (acts p) v h (tty p) (saved p) (raw p) (previous_segv p) (previous_bus p) (segv_used p) (bus_used p) (threads p) (ended p).
Definition set_term t s r p := mkProc (acts p) (stop_state p) (handles p) t s r (previous_segv p) (previous_bus p) (segv_used p) (bus_used p) (threads p) (ended p).
Definition set_previous a b p := mkProc (acts p) (stop_state p) (handles p) (tty p) (saved p) (raw p) a b (segv_used p) (bus_used p) (threads p) (ended p).
Definition set_used a b p := mkProc (acts p) (stop_state p) (handles p) (tty p) (saved p) (raw p) (previous_segv p) (previous_bus p) a b (threads p) (ended p).
Definition set_threads t p := mkProc (acts p) (stop_state p) (handles p) (tty p) (saved p) (raw p) (previous_segv p) (previous_bus p) (segv_used p) (bus_used p) t (ended p).
Definition set_ended e p := mkProc (acts p) (stop_state p) (handles p) (tty p) (saved p) (raw p) (previous_segv p) (previous_bus p) (segv_used p) (bus_used p) (threads p) (Some e).

Definition set_stopper v p := set_threads (mkThreads v (arrived (threads p)) (frames (threads p)) (booted (threads p))) p.
Definition set_arrived v p := set_threads (mkThreads (stopper (threads p)) v (frames (threads p)) (booted (threads p))) p.
Definition set_frames v p := set_threads (mkThreads (stopper (threads p)) (arrived (threads p)) v (booted (threads p))) p.
Definition set_booted v p := set_threads (mkThreads (stopper (threads p)) (arrived (threads p)) (frames (threads p)) v) p.

Definition action (p : Proc) (s : Z) : Disp := default Dfl (acts p !! s).
Definition set_action (s : Z) (d : Disp) (p : Proc) : Proc := set_acts (<[s := d]> (acts p)) p.

Definition install_kick_handler (os : Os) (p : Proc) : Proc := set_action (kick_signal os) Noop p.

(** The signal's default action ends the process, for every signal here. *)
Definition raise_with_default_action (e : End) (s : Z) (p : Proc) : Proc := set_ended e (set_action s Dfl p).

(** ** Stop signals *)

(** [StopSignals::register]; [add_signal] may fail, which ends the loop. *)
Fixpoint register_loop (add_signal : Z -> bool) (l : list Z) (ss : StopSignals) (p : Proc) : StopSignals * Proc * bool :=
  match l with
  | [] => (ss, p, true)
  | s :: l =>
      if bool_decide (s ∈ registered ss) || bool_decide (action p s = Ign) then register_loop add_signal l ss p
      else if add_signal s then
        register_loop add_signal l (mkStopSignals (target ss) (first_at ss) (signals ss) (registered ss ++ [s])) (set_action s (Hook (action p s)) p)
      else (ss, p, false)
  end.
Definition register (add_signal : Z -> bool) (ss : StopSignals) (p : Proc) : Proc * bool :=
  if signals ss then let '(ss, p, ok) := register_loop add_signal STOP_SIGNALS ss p in (set_stop (Some ss) (handles p) p, ok)
  else (set_stop (Some ss) (handles p) p, true).

Definition stop_on_signals (add_signal : Z -> bool) (h : nat) (p : Proc) : Proc * bool :=
  let ss := default (mkStopSignals h None false []) (stop_state p) in
  register add_signal (mkStopSignals h None (signals ss) (registered ss)) p.

Definition start_stop_signal_thread (spawned : bool) (add_signal : Z -> bool) (p : Proc) : Proc * bool :=
  match stop_state p with
  | None => (p, true)
  | Some ss =>
      if negb (signals ss) && negb spawned then (p, false)
      else register add_signal (mkStopSignals (target ss) (first_at ss) true (registered ss)) p
  end.

(** What the thread decides under the lock, on [s] at [now]: the first signal for a
    target requests its stop, and the flag says that a later one ends the process. A
    stop's pipe holds [cap] bytes. *)
Definition decide_stop (cap : nat) (now s : Z) (p : Proc) : Proc * bool :=
  match stop_state p with
  | None => (p, false)
  | Some ss =>
      match first_at ss with
      | None => (set_stop (Some (mkStopSignals (target ss) (Some now) (signals ss) (registered ss))) (alter (fun h => request cap h s) (target ss) (handles p)) p, false)
      | Some f => (p, STOP_TIMEOUT <=? Z.max 0 (now - f))
      end
  end.

(** ** The raw terminal *)

(** [restore]: discards the input and applies the settings; nobody looks at whether
    [tcsetattr] took them. *)
Definition apply_settings (took : bool) (orig : Z) (p : Proc) : Proc :=
  if took then set_term (Some orig) (saved p) (raw p) p else p.

(** The next step of [RawTerm::restore_saved]. *)
Definition restore_step (took : bool) (r : RestorePc) (p : Proc) : RestorePc * Proc :=
  match r with
  | Load => (match saved p with Some orig => Apply orig | None => Past end, p)
  | Apply orig => (Past, apply_settings took orig p)
  | Past => (Past, p)
  end.

Definition enable_publish (p : Proc) : Proc :=
  match tty p with Some orig => set_term (tty p) (Some orig) (Published orig) p | None => p end.
(** [tcsetattr] gives the settings [cfmakeraw] made of them, or fails. *)
Definition enable_set (made_raw : option Z) (orig : Z) (p : Proc) : Proc :=
  match made_raw with Some r => set_term (Some r) (saved p) (InRaw orig) p | None => set_term (tty p) None NoRaw p end.
Definition drop_restore (took : bool) (orig : Z) (p : Proc) : Proc :=
  let p := apply_settings took orig p in set_term (tty p) (saved p) (Restored orig) p.
Definition drop_withdraw (p : Proc) : Proc := set_term (tty p) None NoRaw p.

(** ** Fatal signals *)

Section Fatal.
(** The system, and whether a handler of the process's own was installed to run once, as
    the system reports it. *)
Context (os : Os) (resethand : Disp -> bool).

Definition is_fault (si_code : Z) : bool := match os with Linux => 0 <? si_code | Macos => false end.

Definition previous_of (s : Z) (p : Proc) : option Disp := if s =? SIGSEGV then previous_segv p else if s =? SIGBUS os then previous_bus p else None.
Definition used_of (s : Z) (p : Proc) : bool := if s =? SIGSEGV then segv_used p else if s =? SIGBUS os then bus_used p else false.
Definition mark_used (s : Z) (p : Proc) : Proc :=
  if s =? SIGSEGV then set_used true (bus_used p) p else if s =? SIGBUS os then set_used (segv_used p) true p else p.

(** [on_fatal_signal]: whether the handler it replaced runs first. *)
Definition handler_enter (s : Z) (p : Proc) : HandlerPc * Proc :=
  match previous_of s p with
  | Some d =>
      if is_handler d && negb (used_of s p) then (Previous d, if resethand d then mark_used s p else p)
      else (Restoring Load, p)
  | None => (Restoring Load, p)
  end.

(** The replaced handler runs, and may set the default action; when it does not, it
    recovered and the handler returns. *)
Definition handler_previous (sets_default : bool) (s : Z) (p : Proc) : option HandlerPc * Proc :=
  let p := if sets_default then set_action s Dfl p else p in
  (if bool_decide (action p s = Dfl) then Some (Restoring Load) else None, p).

(** The end of the handler. A fault whose action was set to the default ends the process
    when the instruction runs again. *)
Definition handler_end (s si_code : Z) (p : Proc) : Proc :=
  if bool_decide (is_Some (previous_of s p)) && is_fault si_code then set_ended (ByFatal s) (set_action s Dfl p)
  else raise_with_default_action (ByFatal s) s p.

(** One step of handler [i]; a handler waits for the newer ones on its thread. *)
Definition frame_waits (i : nat) (fr : Frame) (l : list Frame) : bool :=
  existsb (fun f => bool_decide (f_thread f = f_thread fr)) (take i l).
Definition frame_step (i : nat) (took sets_default : bool) (p : Proc) : option Proc :=
  let fs := frames (threads p) in
  fr ← fs !! i;
  if frame_waits i fr fs then None
  else
    let goto pc p := set_frames (<[i := mkFrame (f_thread fr) (f_sig fr) (f_code fr) pc]> fs) p in
    match f_pc fr with
    | Entered => let '(pc, p) := handler_enter (f_sig fr) p in Some (goto pc p)
    | Previous d =>
        let '(pc, p) := handler_previous sets_default (f_sig fr) p in
        Some (match pc with Some pc => goto pc p | None => set_frames (take i fs ++ drop (S i) fs) p end)
    | Restoring Past => Some (handler_end (f_sig fr) (f_code fr) p)
    | Restoring r => let '(r, p) := restore_step took r p in Some (goto (Restoring r) p)
    end.

(** One step of [receive_stop_signals]. *)
Definition stopper_step (cap : nat) (now : Z) (took : bool) (p : Proc) : option Proc :=
  match stopper (threads p) with
  | Waiting =>
      match arrived (threads p) with s :: l => Some (set_arrived l (set_stopper (Received s) p)) | [] => None end
  | Received s =>
      let '(p, escalate) := decide_stop cap now s p in
      Some (set_stopper (if (escalate : bool) then Ending s Load else Waiting) p)
  | Ending s Past => Some (raise_with_default_action (ByStop s) s p)
  | Ending s r => let '(r, p) := restore_step took r p in Some (set_stopper (Ending s r) p)
  end.

(** [restore_on_fatal_signals]; a [OnceLock] keeps what it was set to first. *)
Definition take_over (s : Z) (p : Proc) : Proc :=
  let keep (old : option Disp) := Some (default (action p s) old) in
  if s =? SIGSEGV then set_action s Fatal (set_previous (keep (previous_segv p)) (previous_bus p) p)
  else if s =? SIGBUS os then set_action s Fatal (set_previous (previous_segv p) (keep (previous_bus p)) p)
  else if bool_decide (action p s = Dfl) then set_action s Fatal p else p.
Definition restore_on_fatal_signals (p : Proc) : Proc := foldl (fun p s => take_over s p) p (fatal_signals os).

(** ** What happens to the process *)

Inductive Event :=
  | EvStopOn (h : nat) (add_signal : Z -> bool) | EvStart (spawned : bool) (add_signal : Z -> bool)
  | EvSignal (t : Thread) (s si_code : Z) | EvStopper (now : Z) (took : bool) | EvHandler (i : nat) (took sets_default : bool)
  | EvRequest (h : nat) | EvPublish | EvSet (made_raw : option Z) | EvRestore (took : bool) | EvWithdraw | EvTty (v : Z).

(** A signal that arrives at a thread takes its action. A signal is blocked on a thread
    while its handler runs there. The handler of signal-hook runs the one it replaced and
    passes the signal to the thread; one that already waits there is not passed twice. *)
Definition deliver (t : Thread) (s si_code : Z) (p : Proc) : option Proc :=
  let fs := frames (threads p) in
  if existsb (fun f => bool_decide (f_thread f = t) && (f_sig f =? s)) fs then None
  else Some (match action p s with
  | Dfl => set_ended (ByDefault s) p
  | Hook _ => if bool_decide (s ∈ arrived (threads p)) then p else set_arrived (arrived (threads p) ++ [s]) p
  | Fatal => set_frames (mkFrame t s si_code Entered :: fs) p
  | Ign | User _ | Noop => p
  end).

(** A thread runs while no handler interrupts it. *)
Definition interrupted (t : Thread) (p : Proc) : bool := existsb (fun f => bool_decide (f_thread f = t)) (frames (threads p)).
Definition on_console (p : Proc) (q : option Proc) : option Proc := if interrupted Console p then None else q.

(** A boot starts the thread of the stop signals before it takes the terminal, and takes
    it only when that succeeded. The operator's own changes come while hvi has not taken
    the terminal. *)
Definition pstep (cap : nat) (e : Event) (p : Proc) : option Proc :=
  match ended p with
  | Some _ => None
  | None =>
      match e with
      | EvStopOn h add => Some (stop_on_signals add h p).1
      | EvStart sp add =>
          on_console p (match raw p with NoRaw => let '(p, ok) := start_stop_signal_thread sp add (set_booted false p) in Some (set_booted ok p) | _ => None end)
      | EvSignal t s code => deliver t s code p
      | EvStopper now took => if interrupted Stopper p then None else stopper_step cap now took p
      | EvHandler i took sets => frame_step i took sets p
      | EvRequest h => Some (set_stop (stop_state p) (alter (fun x => request cap x NO_SIGNAL) h (handles p)) p)
      | EvPublish => on_console p (match raw p with NoRaw => if booted (threads p) then Some (enable_publish p) else None | _ => None end)
      | EvSet r => on_console p (match raw p with Published orig => Some (enable_set r orig p) | _ => None end)
      | EvRestore took => on_console p (match raw p with InRaw orig => Some (drop_restore took orig p) | _ => None end)
      | EvWithdraw => on_console p (match raw p with Restored _ => Some (drop_withdraw p) | _ => None end)
      | EvTty v => match raw p, tty p with NoRaw, Some _ => Some (set_term (Some v) (saved p) (raw p) p) | _, _ => None end
      end
  end.

End Fatal.

(** ** The end of the binary *)

Inductive Exit := Status (n : Z) | SignalExit (s : Z).

(** [exit_by_signal]: the raised signal, or the unblocked one, ends the process unless
    its default action does not. *)
Definition exit_by_signal (terminates : bool) (s : Z) : Exit := if terminates then SignalExit s else Status (128 + s).

(** [StopOnSignals::finish]; [None] waits for the abort of a panic. *)
Definition finish (aborting : bool) (terminates : bool) (failed : bool) (h : StopHandle) : option Exit :=
  if aborting then None
  else Some (match signal h with Some s => exit_by_signal terminates s | None => Status (if failed then 1 else 0) end).

(** * What it shows *)

Lemma action_set s d p s' : action (set_action s d p) s' = if decide (s = s') then d else action p s'.
Proof. unfold action, set_action. cbn. destruct (decide (s = s')) as [->|Hne]; [by rewrite lookup_insert_eq|by rewrite lookup_insert_ne]. Qed.

Arguments fatal_signals : simpl never.

Lemma fatal_not_stop os s : s ∈ fatal_signals os -> s ∉ STOP_SIGNALS.
Proof.
  assert (forallb (fun s => negb (bool_decide (s ∈ STOP_SIGNALS))) (fatal_signals os) = true) as H by (destruct os; vm_compute; reflexivity).
  rewrite forallb_forall in H. intros Hs%list_elem_of_In%H. by apply negb_true_iff, bool_decide_eq_false in Hs.
Qed.

(** *** Registering *)

(** What a loop over the stop signals leaves of the rest of the process. *)
Definition same_but_signals (p p' : Proc) : Prop :=
  tty p' = tty p /\ saved p' = saved p /\ raw p' = raw p /\ ended p' = ended p /\ handles p' = handles p /\
  previous_segv p' = previous_segv p /\ previous_bus p' = previous_bus p /\ threads p' = threads p.

Lemma register_loop_frame add l ss p ss' p' ok : register_loop add l ss p = (ss', p', ok) ->
  same_but_signals p p' /\ (forall s, s ∉ l -> action p' s = action p s) /\
  target ss' = target ss /\ first_at ss' = first_at ss /\ signals ss' = signals ss.
Proof.
  revert ss p. induction l as [|s l IH]; intros ss p; cbn [register_loop]; [by intros [= <- <- <-]|].
  destruct (bool_decide (s ∈ registered ss) || bool_decide (action p s = Ign)).
  - intros (H1 & H2 & H3)%IH. split; [done|]. split; [|done]. intros s' Hs'. apply H2. set_solver.
  - destruct (add s); [|by intros [= <- <- <-]]. intros (H1 & H2 & H3)%IH. split; [done|]. split; [|done].
    intros s' Hs'. rewrite H2 by set_solver. rewrite action_set, decide_False; [done|set_solver].
Qed.

(** With every installation taken, a signal of the list is ignored as before, or has its
    handler over what it had, once. *)
Lemma register_loop_spec add l ss p ss' p' : NoDup l -> (forall s, s ∈ l -> add s = true) ->
  (forall s, s ∈ l -> s ∉ registered ss) -> register_loop add l ss p = (ss', p', true) ->
  registered ss' = registered ss ++ base.filter (fun s => action p s <> Ign) l /\
  forall s, s ∈ l -> action p' s = if decide (action p s = Ign) then Ign else Hook (action p s).
Proof.
  revert ss p. induction l as [|s l IH]; intros ss p Hnd Hadd Hreg; cbn [register_loop].
  { intros [= <- <-]. rewrite app_nil_r. split; [done|]. by intros s ?%elem_of_nil. }
  apply NoDup_cons in Hnd as [Hs Hnd]. rewrite (bool_decide_eq_false_2 (s ∈ registered ss)) by (apply Hreg; set_solver). cbn [orb].
  rewrite filter_cons. case_bool_decide as Ha.
  - intros H. pose proof (register_loop_frame _ _ _ _ _ _ _ H) as (_ & Hf & _). apply IH in H as [H1 H2]; [|done|set_solver|set_solver].
    rewrite decide_False by tauto. split; [done|]. intros s' [->|Hs']%elem_of_cons; [|by apply H2]. rewrite decide_True by done. by rewrite Hf.
  - rewrite Hadd by set_solver. intros H. pose proof (register_loop_frame _ _ _ _ _ _ _ H) as (_ & Hf & _).
    apply IH in H as [H1 H2]; [|done|set_solver|cbn; set_solver]. rewrite decide_True by done. cbn [registered] in H1.
    assert (forall s', s' ∈ l -> action (set_action s (Hook (action p s)) p) s' = action p s') as He.
    { intros s' Hs'. rewrite action_set, decide_False; [done|]. by intros ->. }
    split.
    + rewrite H1, <-app_assoc. f_equal. cbn. f_equal. clear -He.
      induction l as [|x l IHl]; [done|]. rewrite !filter_cons, He by set_solver. rewrite IHl; [done|]. intros ??; apply He; set_solver.
    + intros s' [->|Hs']%elem_of_cons; [|by rewrite H2, He by done]. rewrite decide_False by done. rewrite Hf by done. rewrite action_set. by rewrite decide_True.
Qed.

(** A stop signal that is ignored stays so, and each of the others gets its handler, once,
    over the one it had: after the first start of the thread, when every installation is
    taken, and with nothing else changed. *)
Theorem stop_signals_registered add h p :
  (forall s, s ∈ STOP_SIGNALS -> add s = true) -> stop_state p = None ->
  let '(p1, ok1) := stop_on_signals add h p in
  let '(p2, ok2) := start_stop_signal_thread true add p1 in
  ok1 = true /\ ok2 = true /\
  (forall s, action p1 s = action p s) /\
  (forall s, action p2 s = if decide (s ∈ STOP_SIGNALS /\ action p s <> Ign) then Hook (action p s) else action p s) /\
  (ss ← stop_state p2; Some (registered ss)) = Some (base.filter (fun s => action p s <> Ign) STOP_SIGNALS) /\
  stop_on_signals add h p2 = (p2, true).
Proof.
  intros Hadd Hp. unfold stop_on_signals at 1, register at 1. rewrite Hp. cbn [default signals registered].
  unfold start_stop_signal_thread, register. cbn [stop_state set_stop signals negb andb target first_at registered handles].
  set (p1 := set_stop _ _ p). set (ss0 := mkStopSignals h None true []).
  assert (forall s, action p1 s = action p s) as Hact by done.
  destruct (register_loop add STOP_SIGNALS ss0 p1) as [[ss p2] ok] eqn:E.
  assert (ok = true) as ->.
  { revert E. generalize ss0 p1. clear -Hadd. induction STOP_SIGNALS as [|s l IH]; intros ss0 p1; cbn [register_loop]; [by intros [= <- <- <-]|].
    rewrite Hadd by set_solver. destruct (_ || _); apply IH; set_solver. }
  pose proof (register_loop_frame _ _ _ _ _ _ _ E) as (Hsame & Hf & Ht & Hfa & Hsi).
  apply register_loop_spec in E as [Hr Ha]; [|repeat constructor; set_solver|done|set_solver].
  assert (forall s, action p2 s = if decide (s ∈ STOP_SIGNALS /\ action p s <> Ign) then Hook (action p s) else action p s) as Hall.
  { intros s. destruct (decide (s ∈ STOP_SIGNALS)) as [Hs|Hs].
    - rewrite Ha, Hact by done. destruct (decide (action p s = Ign)) as [Hi|]; [rewrite decide_False by tauto|rewrite decide_True by done]; done.
    - rewrite Hf, Hact by done. rewrite decide_False; [done|tauto]. }
  split; [done|]. split; [done|]. split; [done|]. split; [exact Hall|]. split; [cbn; by rewrite Hr|].
  destruct ss as [tg fa si rg]. cbn [target first_at signals registered ss0] in *. subst tg fa si.
  unfold stop_on_signals, register. cbn [stop_state set_stop default from_option id signals registered].
  assert (forall l q, (forall s, s ∈ l -> s ∈ rg \/ action q s = Ign) ->
    register_loop add l (mkStopSignals h None true rg) q = (mkStopSignals h None true rg, q, true)) as Hid.
  { induction l as [|s l IH]; intros q Hq; [done|]. cbn [register_loop registered].
    destruct (Hq s ltac:(set_solver)) as [Hi|Hi]; [rewrite (bool_decide_eq_true_2 (s ∈ rg)) by done|rewrite (bool_decide_eq_true_2 (action q s = Ign)), orb_true_r by done];
      apply IH; set_solver. }
  rewrite Hid; [done|]. intros s Hs. change (action (set_stop _ _ p2) s) with (action p2 s). rewrite Hall, Hr. cbn [app registered ss0].
  rewrite list_elem_of_filter. destruct (decide (action p s = Ign)) as [->|]; [right; rewrite decide_False; [done|tauto]|left; done].
Qed.

(** *** Stop signals *)

(** The body of the loop of [receive_stop_signals], run with nothing in between. *)
Definition restore_saved (took : bool) (p : Proc) : Proc :=
  let '(r, p) := restore_step took Load p in (restore_step took r p).2.
Definition receive_stop_signal (cap : nat) (now s : Z) (p : Proc) : Proc :=
  let '(p, escalate) := decide_stop cap now s p in
  if escalate then raise_with_default_action (ByStop s) s (restore_saved true p) else p.

Fixpoint receive_all (cap : nat) (l : list (Z * Z)) (p : Proc) : Proc :=
  match l with
  | [] => p
  | (now, s) :: l => match ended p with Some _ => p | None => receive_all cap l (receive_stop_signal cap now s p) end
  end.

Lemma receive_later cap l : forall p ss f, ended p = None -> stop_state p = Some ss -> first_at ss = Some f ->
  ended (receive_all cap l p) = ByStop <$> (snd <$> List.find (fun e => STOP_TIMEOUT <=? Z.max 0 (e.1 - f)) l) /\ handles (receive_all cap l p) = handles p.
Proof.
  induction l as [|[now s] l IH]; intros p ss f He Hs Hf; cbn [receive_all List.find]; [by rewrite He|]. rewrite He. unfold receive_stop_signal, decide_stop. rewrite Hs, Hf.
  cbn [fst]. destruct (STOP_TIMEOUT <=? Z.max 0 (now - f)).
  - assert (forall q, ended q = Some (ByStop s) -> receive_all cap l q = q) as Hst by (intros q Hq; destruct l as [|[] l]; cbn; by rewrite ?Hq).
    rewrite Hst by done. unfold restore_saved, restore_step. by destruct (saved p).
  - by eapply IH.
Qed.

(** The first stop signal asks the run to stop and nothing more; the process ends at the
    first of the later ones that comes a stop timeout or more after it, by that signal,
    and none that comes sooner has an effect. The run's handle carries the first signal,
    and the binary that finishes then ends by it, however the run ended. *)
Theorem stop_signals_once cap t0 s0 later p ss h :
  ended p = None -> stop_state p = Some ss -> first_at ss = None -> handles p !! target ss = Some h -> signal h = None -> s0 ∈ STOP_SIGNALS ->
  let p' := receive_all cap ((t0, s0) :: later) p in
  ended p' = ByStop <$> (snd <$> List.find (fun e => STOP_TIMEOUT <=? Z.max 0 (e.1 - t0)) later) /\
  exists h', handles p' !! target ss = Some h' /\ signal h' = Some s0 /\ is_stop_requested h' = true /\
    forall failed, finish false true failed h' = Some (SignalExit s0).
Proof.
  intros He Hs Hf Hh Hn Hs0. cbn [receive_all]. rewrite He. unfold receive_stop_signal, decide_stop. rewrite Hs, Hf.
  set (p1 := set_stop _ _ p). destruct (receive_later cap later p1 (mkStopSignals (target ss) (Some t0) (signals ss) (registered ss)) t0 He eq_refl eq_refl) as [H1 H2].
  split; [exact H1|]. rewrite H2. exists (request cap h s0). split; [cbn [p1 set_stop handles]; rewrite list_lookup_alter_eq, Hh; done|].
  assert (0 < s0) as Hpos by (unfold STOP_SIGNALS in Hs0; rewrite !elem_of_cons, elem_of_nil in Hs0; unfold SIGTERM, SIGINT, SIGHUP in Hs0; lia).
  assert (signal (request cap h s0) = Some s0) as Hsig.
  { unfold signal in Hn. destruct (signal_ h =? 0) eqn:E0; [|done]. unfold request. rewrite (proj2 (Z.eqb_neq s0 NO_SIGNAL)) by (unfold NO_SIGNAL; lia).
    unfold signal, wake, compare_exchange. cbn [signal_ first]. rewrite E0. by rewrite (proj2 (Z.eqb_neq s0 0)) by lia. }
  split; [done|]. split; [|intros failed; unfold finish; by rewrite Hsig].
  unfold is_stop_requested, request, wake, compare_exchange. cbn [first]. destruct (s0 =? NO_SIGNAL); cbn [first];
    (destruct (first h =? 0) eqn:Ef; [by rewrite (proj2 (Z.eqb_neq s0 0)) by lia|by rewrite Ef]).
Qed.

(** *** The terminal *)

(** The settings hvi found, while it holds the terminal. *)
Definition taken_over (p : Proc) : option Z := match raw p with NoRaw => None | Published o | InRaw o | Restored o => Some o end.

Section Terminal.
Context (os : Os) (resethand : Disp -> bool) (cap : nat).

(** Whether a handler of the process's own was replaced for [s]: it may set the default
    action. *)
Definition replaced (s : Z) (p : Proc) : Prop := exists d, previous_of os s p = Some d /\ is_handler d = true.

Definition stops_asked (p : Proc) : bool := match stop_state p with Some ss => signals ss | None => false end.

(** A handler in progress is of a fatal signal, and one that runs the handler it replaced
    has one. *)
Definition frame_ok (p : Proc) (f : Frame) : Prop := f_sig f ∈ fatal_signals os /\ forall d, f_pc f = Previous d -> replaced (f_sig f) p.

(** What holds while the process lives: what is published is what the terminal had while
    it is held, and the terminal is held only by a boot whose stop signals were started;
    a fatal signal, and a stop signal of such a boot, finds a handler. *)
Record inv (p : Proc) : Prop := {
  i_saved : saved p = taken_over p;
  i_booted : raw p <> NoRaw -> booted (threads p) = true;
  i_fatal : forall s, s ∈ fatal_signals os -> action p s <> Dfl \/ replaced s p;
  i_reg : forall ss s, stop_state p = Some ss -> s ∈ registered ss -> s ∈ STOP_SIGNALS /\ action p s <> Dfl;
  i_stop : booted (threads p) = true -> stops_asked p = true -> forall s, s ∈ STOP_SIGNALS -> action p s <> Dfl;
  i_acts : forall s, action p s = Fatal -> s ∈ fatal_signals os;
  i_frames : Forall (frame_ok p) (frames (threads p));
}.

Lemma inv_threads t p :
  inv p -> Forall (frame_ok p) (frames t) -> booted t = booted (threads p) -> inv (set_threads t p).
Proof. intros [] Hf Hb. split; cbn; rewrite ?Hb; done. Qed.

Lemma inv_used a b p : inv p -> inv (set_used a b p).
Proof. intros []. by split. Qed.

Lemma inv_tty t p : inv p -> inv (set_term t (saved p) (raw p) p).
Proof. intros []. by split. Qed.

Lemma inv_apply took o p : inv p -> inv (apply_settings took o p).
Proof. destruct took; [apply inv_tty|done]. Qed.

Lemma inv_restore took r p r' p' : inv p -> restore_step took r p = (r', p') -> inv p'.
Proof. intros Hp. destruct r; cbn; intros [= <- <-]; [done|by apply inv_apply|done]. Qed.

Lemma inv_dfl s p : inv p -> s ∈ fatal_signals os -> replaced s p -> inv (set_action s Dfl p).
Proof.
  intros [] Hs Hr. split; try done; cbn [saved raw threads set_action set_acts stop_state].
  - intros s' Hs'. destruct (decide (s = s')) as [<-|Hne]; [by right|]. rewrite action_set, decide_False by done. by apply i_fatal0.
  - intros ss s' E Hin. destruct (i_reg0 ss s' E Hin) as [H1 H2]. split; [done|]. rewrite action_set, decide_False; [done|].
    intros ->. by eapply fatal_not_stop.
  - intros Hb Ha s' Hs'. rewrite action_set, decide_False; [by apply i_stop0|]. intros ->. by eapply fatal_not_stop.
  - intros s'. rewrite action_set. destruct (decide (s = s')); [done|apply i_acts0].
Qed.

(** Registering leaves a stop signal it lists with a handler or ignored. *)
Lemma register_loop_acts add l ss p ss' p' ok : register_loop add l ss p = (ss', p', ok) -> (forall s, s ∈ l -> s ∈ STOP_SIGNALS) ->
  (forall s, s ∈ registered ss -> s ∈ STOP_SIGNALS /\ action p s <> Dfl) ->
  (forall s, s ∈ registered ss' -> s ∈ STOP_SIGNALS /\ action p' s <> Dfl) /\
  (forall s, action p s <> Dfl -> action p' s <> Dfl) /\ (forall s, action p' s = Fatal -> action p s = Fatal) /\
  (ok = true -> forall s, s ∈ l -> action p' s <> Dfl).
Proof.
  revert ss p. induction l as [|s l IH]; intros ss p; cbn [register_loop].
  { intros [= <- <- <-] _ Hr. repeat split; try done; [by apply Hr..|]. by intros _ s ?%elem_of_nil. }
  intros H Hl Hr. destruct (bool_decide (s ∈ registered ss) || bool_decide (action p s = Ign)) eqn:Eb.
  - destruct (IH _ _ H ltac:(set_solver) Hr) as (H1 & H2 & H3 & H4). repeat (split; [done|]).
    intros Hok s' [->|Hs']%elem_of_cons; [|by apply H4]. apply H2. apply orb_prop in Eb as [Eb|Eb]; apply bool_decide_eq_true in Eb; [by apply Hr|by rewrite Eb].
  - destruct (add s); [|simplify_eq; done].
    destruct (IH _ _ H ltac:(set_solver)) as (H1 & H2 & H3 & H4).
    { intros s' [Hs'|Hs'%list_elem_of_singleton]%elem_of_app.
      - destruct (Hr s' Hs') as [? Ha]. split; [done|]. rewrite action_set. by destruct (decide (s = s')).
      - subst s'. split; [set_solver|]. by rewrite action_set, decide_True. }
    split; [done|]. split; [intros s' Hs'; apply H2; rewrite action_set; by destruct (decide (s = s'))|].
    split; [intros s' Hs'%H3; rewrite action_set in Hs'; by destruct (decide (s = s'))|].
    intros Hok s' [->|Hs']%elem_of_cons; [apply H2; by rewrite action_set, decide_True|by apply H4].
Qed.

Lemma inv_register add ss p p' ok :
  inv p -> (forall s, s ∈ registered ss -> s ∈ STOP_SIGNALS /\ action p s <> Dfl) -> register add ss p = (p', ok) ->
  (booted (threads p) = true -> signals ss = true -> ok = true \/ forall s, s ∈ STOP_SIGNALS -> action p s <> Dfl) ->
  inv p' /\ threads p' = threads p /\ saved p' = saved p /\ raw p' = raw p /\ tty p' = tty p /\ ended p' = ended p /\
  stops_asked p' = signals ss /\ (signals ss = true -> ok = true -> forall s, s ∈ STOP_SIGNALS -> action p' s <> Dfl).
Proof.
  intros [] Hreg. unfold register. destruct (signals ss) eqn:Es.
  - destruct (register_loop add STOP_SIGNALS ss p) as [[ss' q] ok'] eqn:E. intros [= <- <-] Hb.
    pose proof (register_loop_frame _ _ _ _ _ _ _ E) as ((T1 & T2 & T3 & T4 & T5 & T6 & T7 & T8) & Ha & _ & _ & Hsig).
    destruct (register_loop_acts _ _ _ _ _ _ _ E ltac:(done) Hreg) as (R1 & R2 & R3 & R4).
    assert (forall s, action (set_stop (Some ss') (handles q) q) s = action q s) as Eact by done.
    split; [|cbn; rewrite T8, T2, T3, T1, T4; repeat (split; [done|]); split; [by rewrite Hsig|by intros _ Hok; apply R4]].
    split; cbn [saved raw threads set_stop stop_state].
    + unfold taken_over. cbn. by rewrite T2, T3.
    + by rewrite T3, T8.
    + intros s Hs. rewrite Eact. destruct (i_fatal0 s Hs) as [Hd|(d & Hd & Hh)]; [left; by apply R2|right]. exists d. split; [|done].
      unfold previous_of in *. cbn. by rewrite T6, T7.
    + intros ss2 s [= <-]. apply R1.
    + rewrite T8. intros Hbt _ s Hs. rewrite Eact. destruct (Hb Hbt eq_refl) as [->|Hd]; [by apply R4|by apply R2, Hd].
    + intros s. rewrite Eact. intros Hf%R3. by apply i_acts0.
    + rewrite T8. eapply Forall_impl; [exact i_frames0|]. intros f [H1 H2]. split; [done|]. intros d Hd. destruct (H2 d Hd) as (d' & Hd' & ?).
      exists d'. split; [|done]. unfold previous_of in *. cbn. by rewrite T6, T7.
  - intros [= <- <-] _. split; [|cbn; repeat (split; [done|]); done]. split; cbn [saved raw threads set_stop stop_state]; try done.
    + intros ss2 s [= <-]. apply Hreg.
    + unfold stops_asked. cbn. by rewrite Es.
Qed.

(** What a handler's own steps do to the process. *)
Lemma handler_enter_inv s p pc p' : inv p -> handler_enter os resethand s p = (pc, p') ->
  inv p' /\ (forall d, pc = Previous d -> replaced s p') /\ (pc = Restoring Load \/ exists d, pc = Previous d) /\
  threads p' = threads p /\ saved p' = saved p /\ raw p' = raw p /\ tty p' = tty p /\ ended p' = ended p.
Proof.
  intros Hp. unfold handler_enter. destruct (previous_of os s p) as [d|] eqn:Ed; [|by intros [= <- <-]; split; [exact Hp|]; split; [done|]; split; [by left|]].
  destruct (is_handler d && negb (used_of os s p)) eqn:Eh; [|by intros [= <- <-]; split; [exact Hp|]; split; [done|]; split; [by left|]].
  apply andb_prop in Eh as [Eh _]. intros [= <- <-].
  assert (forall q, q = (if resethand d then mark_used os s p else p) -> inv q /\ previous_of os s q = Some d /\
    threads q = threads p /\ saved q = saved p /\ raw q = raw p /\ tty q = tty p /\ ended q = ended p) as Hq.
  { intros q ->. destruct (resethand d); [|done]. unfold mark_used.
    destruct (s =? SIGSEGV) eqn:E1; [by split; [apply inv_used|]|]. destruct (s =? SIGBUS os) eqn:E2; by split; [try apply inv_used|]. }
  destruct (Hq _ eq_refl) as (H1 & H2 & H3). split; [done|]. split; [intros ? _; by exists d|]. split; [right; by eexists|done].
Qed.

Lemma set_booted_inv b p :
  inv p -> (raw p <> NoRaw -> b = true) -> (b = true -> stops_asked p = true -> forall s, s ∈ STOP_SIGNALS -> action p s <> Dfl) ->
  inv (set_booted b p).
Proof. intros [] H1 H2. by split. Qed.

Lemma inv_frames i fr pc p : inv p -> frames (threads p) !! i = Some fr -> (forall d, pc = Previous d -> replaced (f_sig fr) p) -> inv (set_frames (<[i := mkFrame (f_thread fr) (f_sig fr) (f_code fr) pc]> (frames (threads p))) p).
Proof.
  intros Hp Hi Hpc. pose proof (i_frames p Hp) as Hf. apply inv_threads; [done| |done]. cbn. apply Forall_insert; [done|].
  split; [|exact Hpc]. by apply (Forall_lookup_1 _ _ _ _ Hf Hi).
Qed.

(** A step that only registers stop signals. *)
Lemma stop_on_inv add h p : inv p -> let q := (stop_on_signals add h p).1 in
  inv q /\ threads q = threads p /\ saved q = saved p /\ raw q = raw p /\ tty q = tty p /\ ended q = ended p.
Proof.
  intros Hp q. subst q. unfold stop_on_signals. set (ss := default _ _). set (ss1 := mkStopSignals _ _ _ _).
  destruct (register add ss1 p) as [p' ok] eqn:E.
  destruct (inv_register add ss1 p p' ok Hp) as (H1 & H2 & H3 & H4 & H5 & H6 & _); [|exact E| |done].
  - subst ss1 ss. cbn. destruct (stop_state p) as [x|] eqn:Es; cbn; [by intros s Hs; apply (i_reg p Hp x)|by intros s ?%elem_of_nil].
  - intros Hb Hsig. right. apply (i_stop p Hp Hb). unfold stops_asked. subst ss1 ss. cbn in Hsig.
    by destruct (stop_state p).
Qed.

Lemma start_inv sp add p : inv p -> raw p = NoRaw ->
  let '(q, ok) := start_stop_signal_thread sp add (set_booted false p) in
  inv (set_booted ok q) /\ stopper (threads q) = stopper (threads p) /\ frames (threads q) = frames (threads p) /\
  saved q = saved p /\ raw q = raw p /\ tty q = tty p /\ ended q = ended p.
Proof.
  intros Hp Hr. assert (inv (set_booted false p)) as Hp0 by (by apply set_booted_inv).
  unfold start_stop_signal_thread. cbn [stop_state set_booted set_threads]. destruct (stop_state p) as [ss|] eqn:Es.
  - destruct (negb (signals ss) && negb sp).
    + split; [|done]. by apply set_booted_inv.
    + destruct (register _ _ _) as [q ok] eqn:E.
      destruct (inv_register add (mkStopSignals (target ss) (first_at ss) true (registered ss)) _ _ _ Hp0 (fun s Hs => i_reg p Hp ss s Es Hs) E ltac:(done)) as (H1 & H2 & H3 & H4 & H5 & H6 & H7 & H8).
      rewrite H2. split; [|done]. apply set_booted_inv; [done|by rewrite H4|]. intros -> _. by apply H8.
  - split; [|done]. apply set_booted_inv; [done|done|]. unfold stops_asked. cbn. by rewrite Es.
Qed.

(** The restorer of the thread of the stop signals, and those of the fatal handlers. *)
Definition restoring (r : RestorePc) (p : Proc) : Prop :=
  (exists s, stopper (threads p) = Ending s r) \/ exists f, f ∈ frames (threads p) /\ f_pc f = Restoring r.

(** No restorer has loaded the published settings yet. *)
Definition idle (p : Proc) : Prop := forall r, restoring r p -> r = Load.

(** hvi holds a terminal whose settings were [o], or has given it back: what a restorer
    applies is [o], and past one the terminal is back at them. *)
Record held (o : Z) (p : Proc) : Prop := {
  h_inv : inv p;
  h_raw : match raw p with NoRaw => True | Published _ => False | InRaw o' => o' = o | Restored o' => o' = o /\ tty p = Some o end;
  h_restore : forall r, restoring r p ->
    match r with Load => True | Apply o' => o' = o | Past => taken_over p = Some o -> tty p = Some o end;
}.

(** The process ended with the terminal as hvi found it, or by a signal that had no
    handler of hvi's to restore it. *)
Definition end_ok (o : Z) (x : End) (p : Proc) : Prop :=
  (taken_over p = Some o -> tty p = Some o) \/
  exists s, x = ByDefault s /\ (s ∈ fatal_signals os -> replaced s p) /\ (s ∈ STOP_SIGNALS -> stops_asked p = false).

Lemma held_same o p q :
  held o p -> inv q -> saved q = saved p -> raw q = raw p -> tty q = tty p -> (forall r, restoring r q -> r = Load \/ restoring r p) -> held o q.
Proof.
  intros [Hp Hr Hre] Hq Es Er Et Hx. split; [done|by rewrite Er, Et|]. intros r [->|Hr1]%Hx; [done|]. specialize (Hre r Hr1).
  unfold taken_over in *. by rewrite Er, Et.
Qed.

(** A restorer's step, [q] being the process with its new position. *)
Lemma held_restore o r p r' p1 q :
  held o p -> restoring r p -> restore_step true r p = (r', p1) -> inv q ->
  saved q = saved p1 -> raw q = raw p1 -> tty q = tty p1 -> (forall x, restoring x q -> x = r' \/ restoring x p) -> held o q.
Proof.
  intros Hh Hr E Hq Es Er Et Hx. pose proof Hh as [Hp Hraw Hre]. pose proof (i_saved p Hp) as Hsv.
  destruct r as [|o1|]; cbn in E; injection E as <- <-.
  - split; [done|by rewrite Er, Et|]. intros x [->|Hx1]%Hx.
    + rewrite Hsv. unfold taken_over. rewrite Er. destruct (raw p) as [|o'|o'|o']; try done. by destruct Hraw.
    + specialize (Hre x Hx1). unfold taken_over in *. by rewrite Er, Et.
  - pose proof (Hre _ Hr) as Ho. simpl in Ho. subst o1. cbn in Er, Et. split; [done|rewrite Er, Et; by destruct (raw p) as [| | |o'] ; intuition|].
    intros x [->|Hx1]%Hx; [by intros _|]. specialize (Hre x Hx1). by destruct x.
  - by apply (held_same o p); try done; intros x Hx1; destruct (Hx x Hx1) as [->|]; right.
Qed.

(** No second taking of the terminal, and [tcsetattr] takes the settings given back. *)
Definition kept (e : Event) : Prop :=
  match e with EvPublish => False | EvStopper _ took | EvHandler _ took _ | EvRestore took => took = true | _ => True end.

Lemma deliver_held o t s code p p' : held o p -> ended p = None -> deliver t s code p = Some p' ->
  match ended p' with None => held o p' | Some x => end_ok o x p' end.
Proof.
  intros Hh He. pose proof Hh as [Hp Hraw _]. unfold deliver. destruct (existsb _ _); [done|]. intros [= <-].
  destruct (action p s) as [| |u|old| |] eqn:Ea; [|rewrite He; done|rewrite He; done| | |rewrite He; done].
  - cbn. assert (raw p = NoRaw \/ raw p <> NoRaw) as [En|Hn] by (destruct (raw p); [by left|by right..]); [left; unfold taken_over; cbn; by rewrite En|]. right. exists s. split; [done|]. split.
    + intros Hs. destruct (i_fatal p Hp s Hs) as [|(d & Hd)]; [done|]. by exists d.
    + intros Hs. change (stops_asked p = false). destruct (stops_asked p) eqn:Eq; [|done]. by destruct (i_stop p Hp (i_booted p Hp Hn) Eq s Hs).
  - case_bool_decide; [by rewrite He|]. cbn [ended set_arrived set_threads]. rewrite He.
    apply (held_same o p); [done|by apply inv_threads; [|apply Hp|]|done..|]. intros r Hr. right. exact Hr.
  - cbn [ended set_frames set_threads]. rewrite He. apply (held_same o p); [done| |done..|].
    + apply inv_threads; [done| |done]. constructor; [split; [by apply (i_acts p Hp)|done]|apply Hp].
    + intros r [Hr|(f & [->|Hf]%elem_of_cons & Hpc)]; [right; by left|done|right; right; by exists f].
Qed.

Lemma stopper_held o now p p' : held o p -> ended p = None -> stopper_step cap now true p = Some p' ->
  match ended p' with None => held o p' | Some x => end_ok o x p' end.
Proof.
  intros Hh He. pose proof Hh as [Hp Hraw Hre]. unfold stopper_step. destruct (stopper (threads p)) as [|s|s r] eqn:Es.
  - destruct (arrived (threads p)) as [|s l]; [done|]. intros [= <-]. cbn [ended set_arrived set_stopper set_threads]. rewrite He.
    apply (held_same o p); [done|by repeat (apply inv_threads; [|apply Hp|])|done..|].
    intros r [[s' Hs']|Hf]; [done|right; by right].
  - destruct (decide_stop cap now s p) as [q b] eqn:Ed.
    assert (inv q /\ threads q = threads p /\ saved q = saved p /\ raw q = raw p /\ tty q = tty p /\ ended q = ended p) as (Hq & Q1 & Q2 & Q3 & Q4 & Q5).
    { unfold decide_stop in Ed. destruct (stop_state p) as [ss|] eqn:Ess; [|by simplify_eq]. destruct (first_at ss); simplify_eq; [done|].
      split; [|done]. destruct Hp. split; try done; cbn.
      - intros ss2 x [= <-]. by apply (i_reg0 ss).
      - intros Hb Ha. apply (i_stop0 Hb). unfold stops_asked in *. by rewrite Ess. }
    intros [= <-]. cbn [ended set_stopper set_threads]. rewrite Q5, He. apply (held_same o p); [done|apply inv_threads; [done|exact (i_frames q Hq)|done]|done..|].
    intros r [[s' Hs']|Hf]; cbn in *; [destruct b; [left; congruence|done]|right; right; by rewrite Q1 in Hf].
  - destruct r as [|o1|]; intros E.
    + destruct (restore_step true Load p) as [r' p1] eqn:Er. simplify_eq. cbn [ended set_stopper set_threads].
      cbn in Er. injection Er as <- <-. rewrite He.
      eapply (held_restore o Load p _ p); [done|left; by exists s|done|by apply inv_threads; [|apply Hp|]|done..|].
      intros x [[s' Hs']|Hf]; [left; cbn in Hs'; congruence|right; by right].
    + cbn in E. simplify_eq. cbn [ended set_stopper set_threads set_term]. rewrite He.
      eapply (held_restore o (Apply o1) p _ (apply_settings true o1 p)); [done|left; by exists s|done| |done..|].
      * apply inv_threads; [by apply inv_tty|apply Hp|done].
      * intros x [[s' Hs']|Hf]; [left; cbn in Hs'; congruence|right; by right].
    + simplify_eq. cbn. left. apply (Hre Past). left. by exists s.
Qed.

Lemma goto_restoring (i : nat) fr pc (l : list Frame) f r : l !! i = Some fr -> f ∈ <[i := mkFrame (f_thread fr) (f_sig fr) (f_code fr) pc]> l -> f_pc f = Restoring r ->
  pc = Restoring r \/ exists g, g ∈ l /\ f_pc g = Restoring r.
Proof.
  intros Hi (k & Hk)%list_elem_of_lookup Hr. apply list_lookup_insert_Some in Hk as [(<- & <- & _)|[_ Hk]]; [by left|].
  right. exists f. split; [by eapply list_elem_of_lookup_2|done].
Qed.

Lemma frame_held o i sets p p' : held o p -> ended p = None -> frame_step os resethand i true sets p = Some p' ->
  match ended p' with None => held o p' | Some x => end_ok o x p' end.
Proof.
  intros Hh He. pose proof Hh as [Hp Hraw Hre]. unfold frame_step. destruct (frames (threads p) !! i) as [fr|] eqn:Hi; [|done].
  cbn [mbind option_bind]. destruct (frame_waits _ _ _); [done|]. destruct (Forall_lookup_1 _ _ _ _ (i_frames p Hp) Hi) as [Hs Hprev].
  assert (forall r, f_pc fr = Restoring r -> restoring r p) as Hin by (intros r Hr; right; exists fr; split; [by eapply list_elem_of_lookup_2|done]).
  destruct (f_pc fr) as [|d|r] eqn:Epc.
  - destruct (handler_enter _ _ _ _) as [pc q] eqn:Ee. intros [= <-].
    destruct (handler_enter_inv _ _ _ _ Hp Ee) as (Hq & Hrep & Hpc & Q1 & Q2 & Q3 & Q4 & Q5). cbn [ended set_frames set_threads]. rewrite Q5, He.
    apply (held_same o p); [done|rewrite <-Q1; apply inv_frames; [done|by rewrite Q1|exact Hrep]|done..|].
    intros r [Hr|(f & Hf & Hr)]; [right; left; cbn in Hr; by rewrite Q1 in Hr|]. cbn in Hf.
    destruct (goto_restoring i fr pc _ f r Hi Hf Hr) as [->|Hg]; [|right; by right].
    destruct Hpc as [Hpc|[d Hpc]]; [left; congruence|done].
  - unfold handler_previous. set (p1 := if sets then set_action (f_sig fr) Dfl p else p).
    assert (inv p1) as Hp1 by (unfold p1; destruct sets; [apply inv_dfl; [done|done|by apply (Hprev d)]|done]).
    assert (threads p1 = threads p /\ saved p1 = saved p /\ raw p1 = raw p /\ tty p1 = tty p /\ ended p1 = ended p) as (Q1 & Q2 & Q3 & Q4 & Q5)
      by (unfold p1; by destruct sets).
    intros [= <-]. destruct (bool_decide (action p1 (f_sig fr) = Dfl)); cbn [ended set_frames set_threads]; rewrite Q5, He.
    + apply (held_same o p); [done|rewrite <-Q1; apply inv_frames; [done|by rewrite Q1|done]|done..|].
      intros r [Hr|(f & Hf & Hr)]; [right; left; cbn in Hr; by rewrite Q1 in Hr|]. cbn in Hf.
      destruct (goto_restoring i fr _ _ f r Hi Hf Hr) as [Hg|Hg]; [left; congruence|right; by right].
    + assert (forall f, f ∈ take i (frames (threads p)) ++ drop (S i) (frames (threads p)) -> f ∈ frames (threads p)) as Hsub.
      { intros f Hf%elem_of_app. rewrite <-(take_drop_middle (frames (threads p)) i fr Hi), elem_of_app, elem_of_cons. tauto. }
      apply (held_same o p); [done|apply inv_threads; [done| |done]|done..|].
      * cbn. pose proof (i_frames p1 Hp1) as Hf. rewrite Q1, Forall_forall in Hf. apply Forall_forall. intros f Hin'. by apply Hf, Hsub.
      * intros r [Hr|(f & Hf & Hr)]; [right; left; cbn in Hr; by rewrite Q1 in Hr|]. right. right. exists f. split; [by apply Hsub|done].
  - destruct r as [|o1|]; intros E.
    + cbn [restore_step] in E. simplify_eq. cbn [ended set_frames set_threads]. rewrite He.
      eapply (held_restore o Load p _ p); [done|by apply Hin|done|by apply inv_frames; [|exact Hi|]|done..|].
      intros x [Hx|(f & Hf & Hr)]; [right; by left|]. destruct (goto_restoring i fr _ _ f x Hi Hf Hr) as [Hg|Hg]; [left; congruence|right; by right].
    + cbn [restore_step] in E. simplify_eq. cbn [ended set_frames set_threads apply_settings set_term]. rewrite He.
      eapply (held_restore o (Apply o1) p _ (apply_settings true o1 p)); [done|by apply Hin|done| |done..|].
      * apply (inv_frames i fr (Restoring Past) (apply_settings true o1 p)); [by apply inv_tty|done|done].
      * intros x [Hx|(f & Hf & Hr)]; [right; by left|]. destruct (goto_restoring i fr _ _ f x Hi Hf Hr) as [Hg|Hg]; [left; congruence|right; by right].
    + simplify_eq. unfold handler_end. destruct (_ && _); cbn; left; by apply (Hre Past), Hin.
Qed.

Lemma pstep_held o e p p' : held o p -> ended p = None -> kept e -> pstep os resethand cap e p = Some p' ->
  match ended p' with None => held o p' | Some x => end_ok o x p' end.
Proof.
  intros Hh He Hk H. pose proof Hh as [Hp Hraw Hre]. unfold pstep in H. rewrite He in H.
  destruct e as [h add|sp add|t s code|now took|i took sets|h| |r|took| |v]; unfold on_console in H.
  - injection H as <-. destruct (stop_on_inv add h p Hp) as (H1 & H2 & H3 & H4 & H5 & H6). rewrite H6, He.
    apply (held_same o p); try done. intros r Hr. right. unfold restoring in *. by rewrite H2 in Hr.
  - destruct (interrupted _ _); [done|]. destruct (raw p) eqn:Er; try done. pose proof (start_inv sp add p Hp Er) as Hs.
    destruct (start_stop_signal_thread _ _ _) as [q ok]. injection H as <-. destruct Hs as (H1 & H2 & H3 & H4 & H5 & H6 & H7).
    cbn [ended set_booted set_threads]. rewrite H7, He. apply (held_same o p); try done; try (by rewrite Er). intros r Hr. right. unfold restoring in *.
    cbn in Hr. by rewrite H2, H3 in Hr.
  - by eapply deliver_held.
  - cbn in Hk. subst took. destruct (interrupted _ _); [done|]. by eapply stopper_held.
  - cbn in Hk. subst took. by eapply frame_held.
  - injection H as <-. cbn. rewrite He. apply (held_same o p); try done; [destruct Hp; by split|]. intros x Hx. by right.
  - done.
  - destruct (interrupted _ _); [done|]. by destruct (raw p).
  - cbn in Hk. subst took. destruct (interrupted _ _); [done|]. destruct (raw p) as [| |o1|] eqn:Er; try done. injection H as <-. subst o1. cbn. rewrite He.
    assert (saved p = Some o) as Hsv by (rewrite (i_saved p Hp); unfold taken_over; by rewrite Er).
    split; cbn; [|done|].
    + destruct Hp. split; try done; cbn. intros _. apply i_booted0. by rewrite Er.
    + intros r Hr. destruct r; [done|by apply (Hre (Apply _))|done].
  - destruct (interrupted _ _); [done|]. destruct (raw p) as [| | |o1] eqn:Er; try done. injection H as <-. cbn. rewrite He.
    split; cbn; [destruct Hp; by split|done|]. intros r Hr. destruct r; [done|by apply (Hre (Apply _))|done].
  - destruct (raw p) eqn:Er; try done. destruct (tty p); [|done]. injection H as <-. cbn. rewrite He.
    pose proof (inv_tty (Some v) p Hp) as Hv. rewrite Er in Hv. split; [exact Hv|done|]. intros r Hr. destruct r; [done|by apply (Hre (Apply _))|done].
Qed.

(** Every step keeps what holds while the process lives. *)
Lemma pstep_inv e p p' : inv p -> pstep os resethand cap e p = Some p' -> ended p' = None -> inv p'.
Proof.
  intros Hp H Hend. unfold pstep in H. destruct (ended p) as [x|] eqn:He; [done|].
  destruct e as [h add|sp add|t s code|now took|i took sets|h| |r|took| |v]; unfold on_console in H.
  - injection H as <-. by apply stop_on_inv.
  - destruct (interrupted _ _); [done|]. destruct (raw p) eqn:Er; try done. pose proof (start_inv sp add p Hp Er) as Hs.
    destruct (start_stop_signal_thread _ _ _) as [q ok]. injection H as <-. apply Hs.
  - unfold deliver in H. destruct (existsb _ _); [done|]. injection H as <-. destruct (action p s) eqn:Ea; try done.
    + case_bool_decide; [done|]. apply inv_threads; [done|apply Hp|done].
    + apply inv_threads; [done| |done]. constructor; [split; [by apply (i_acts p Hp)|done]|apply Hp].
  - destruct (interrupted _ _); [done|]. unfold stopper_step in H. destruct (stopper (threads p)) as [|s|s r].
    + destruct (arrived (threads p)); [done|]. injection H as <-. by repeat (apply inv_threads; [|apply Hp|]).
    + destruct (decide_stop cap now s p) as [q b] eqn:Ed. injection H as <-.
      assert (inv q) as Hq; [|apply inv_threads; [done|apply Hq|done]]. unfold decide_stop in Ed. destruct (stop_state p) as [ss|] eqn:Ess; [|by simplify_eq].
      destruct (first_at ss); simplify_eq; [done|]. destruct Hp. split; try done; cbn.
      * intros ss2 x [= <-]. by apply (i_reg0 ss).
      * intros Hb Ha. apply (i_stop0 Hb). unfold stops_asked in *. by rewrite Ess.
    + destruct r; [| |by injection H as <-];
        destruct (restore_step took _ p) as [r' p1] eqn:Er; injection H as <-; pose proof (inv_restore _ _ _ _ _ Hp Er) as H1;
        apply inv_threads; [done|apply H1|done|done|apply H1|done].
  - unfold frame_step in H. destruct (frames (threads p) !! i) as [fr|] eqn:Hi; [|done]. cbn [mbind option_bind] in H.
    destruct (frame_waits _ _ _); [done|]. destruct (Forall_lookup_1 _ _ _ _ (i_frames p Hp) Hi) as [Hs Hprev].
    destruct (f_pc fr) as [|d|r].
    + destruct (handler_enter _ _ _ _) as [pc q] eqn:Ee. injection H as <-.
      destruct (handler_enter_inv _ _ _ _ Hp Ee) as (Hq & Hrep & _ & Q1 & _). rewrite <-Q1. apply inv_frames; [done|by rewrite Q1|exact Hrep].
    + unfold handler_previous in H. set (p1 := if sets then set_action (f_sig fr) Dfl p else p) in *.
      assert (inv p1) as Hp1 by (unfold p1; destruct sets; [apply inv_dfl; [done|done|by apply (Hprev d)]|done]).
      assert (threads p1 = threads p) as Q1 by (unfold p1; by destruct sets).
      injection H as <-. destruct (bool_decide _); [rewrite <-Q1; apply inv_frames; [done|by rewrite Q1|done]|].
      apply inv_threads; [done| |done]. cbn. pose proof (i_frames p1 Hp1) as Hf. rewrite Q1, Forall_forall in Hf. apply Forall_forall. intros f Hin. apply Hf.
      rewrite <-(take_drop_middle (frames (threads p)) i fr Hi), elem_of_app, elem_of_cons. apply elem_of_app in Hin. tauto.
    + destruct r; [| |injection H as <-; by unfold handler_end in Hend; destruct (_ && _)];
        destruct (restore_step took _ p) as [r' p1] eqn:Er; injection H as <-; pose proof (inv_restore _ _ _ _ _ Hp Er) as H1;
        (assert (threads p1 = threads p) as Q1 by (cbn in Er; destruct took; by injection Er as <- <-));
        rewrite <-Q1; apply inv_frames; [done|by rewrite Q1|done|done|by rewrite Q1|done].
  - injection H as <-. destruct Hp. by split.
  - destruct (interrupted _ _); [done|]. destruct (raw p) eqn:Er; try done. destruct (booted (threads p)) eqn:Eb; [|done]. injection H as <-.
    unfold enable_publish. destruct (tty p); [|done]. destruct Hp. by split.
  - destruct (interrupted _ _); [done|]. destruct (raw p) as [|o1| |] eqn:Er; try done. injection H as <-. destruct Hp.
    assert (saved p = Some o1) as Hsv by (rewrite i_saved0; unfold taken_over; by rewrite Er).
    assert (booted (threads p) = true) as Hb by (apply i_booted0; by rewrite Er). destruct r; by split.
  - destruct (interrupted _ _); [done|]. destruct (raw p) as [| |o1|] eqn:Er; try done. injection H as <-. apply (inv_apply took o1) in Hp.
    assert (saved (apply_settings took o1 p) = Some o1) as Hsv
      by (rewrite (i_saved _ Hp); unfold taken_over; by destruct took; cbn; rewrite Er).
    assert (booted (threads (apply_settings took o1 p)) = true) as Hb by (apply (i_booted _ Hp); by destruct took; cbn; rewrite Er).
    unfold drop_restore. destruct Hp. by split.
  - destruct (interrupted _ _); [done|]. destruct (raw p) eqn:Er; try done. injection H as <-. destruct Hp. by split.
  - destruct (raw p) eqn:Er; try done. destruct (tty p); [|done]. injection H as <-. pose proof (inv_tty (Some v) p Hp) as Hv. by rewrite Er in Hv.
Qed.

(** *** Before [boot] *)

(** A process in which hvi has changed no action, and the binary may have asked for the
    stop signals. *)
Definition fresh (p : Proc) : Prop :=
  raw p = NoRaw /\ saved p = None /\ ended p = None /\ threads p = mkThreads Waiting [] [] false /\ (forall s, action p s <> Fatal) /\
  match stop_state p with Some ss => signals ss = false /\ registered ss = [] | None => True end.

Lemma take_over_spec s p : let p' := take_over os s p in
  action p' s <> Dfl /\ (forall s', action p s' <> Dfl -> action p' s' <> Dfl) /\ (forall s', action p' s' = Fatal -> s' = s \/ action p s' = Fatal) /\
  raw p' = raw p /\ saved p' = saved p /\ threads p' = threads p /\ stop_state p' = stop_state p /\ ended p' = ended p.
Proof.
  assert (forall a b, let q := set_action s Fatal (set_previous a b p) in action q s <> Dfl /\ (forall s', action p s' <> Dfl -> action q s' <> Dfl) /\
    (forall s', action q s' = Fatal -> s' = s \/ action p s' = Fatal)) as Hset.
  { intros a b q. unfold q. split; [by rewrite action_set, decide_True|]. split; intros s'; rewrite action_set;
      change (action (set_previous a b p) s') with (action p s'); destruct (decide (s = s')); auto. }
  unfold take_over. cbn zeta. destruct (s =? SIGSEGV); [refine (match Hset _ _ with conj a (conj b c) => conj a (conj b (conj c _)) end); done|].
  destruct (s =? SIGBUS os); [refine (match Hset _ _ with conj a (conj b c) => conj a (conj b (conj c _)) end); done|]. case_bool_decide as Ha; [|auto 10].
  split; [by rewrite action_set, decide_True|]. split; [|split; [|done]]; intros s'; rewrite action_set; destruct (decide (s = s')); auto.
Qed.

Lemma fresh_inv p : fresh p -> let q := restore_on_fatal_signals os p in inv q /\ ended q = None.
Proof.
  intros (Hr & Hs & He & Ht & Ha & Hst).
  assert (forall l q, let q' := foldl (fun p s => take_over os s p) q l in
    (forall s, s ∈ l \/ action q s <> Dfl -> action q' s <> Dfl) /\ (forall s, action q' s = Fatal -> s ∈ l \/ action q s = Fatal) /\
    raw q' = raw q /\ saved q' = saved q /\ threads q' = threads q /\ stop_state q' = stop_state q /\ ended q' = ended q) as H.
  { induction l as [|s l IH]; intros q; cbn [foldl]; [split; [by intros s [?%elem_of_nil|?]|split; [by right|done]]|].
    destruct (take_over_spec s q) as (T1 & T2 & T3 & T4 & T5 & T6 & T7 & T8). destruct (IH (take_over os s q)) as (I1 & I2 & -> & -> & -> & -> & ->).
    split; [|split; [|done]].
    - intros s' [[->|Hs']%elem_of_cons|Hs']; apply I1; auto.
    - intros s' [Hs'|[->|Hs']%T3]%I2; rewrite elem_of_cons; auto. }
  destruct (H (fatal_signals os) p) as (H1 & H2 & H3 & H4 & H5 & H6 & H7). cbv zeta. unfold restore_on_fatal_signals. split; [|by rewrite H7].
  split.
  - unfold taken_over. by rewrite H3, H4, Hr.
  - by rewrite H3, Hr.
  - intros s Hin. left. apply H1. by left.
  - intros ss s. rewrite H6. intros E Hin. rewrite E in Hst. destruct Hst as [_ Hreg]. rewrite Hreg in Hin. by apply elem_of_nil in Hin.
  - by rewrite H5, Ht.
  - intros s [?|Hf]%H2; [done|]. by apply Ha in Hf.
  - rewrite H5, Ht. constructor.
Qed.

Definition plives (a b : Proc) : Prop := exists e, pstep os resethand cap e a = Some b.
Definition plives_kept (a b : Proc) : Prop := exists e, kept e /\ pstep os resethand cap e a = Some b.

Lemma plives_alive p p' : rtc plives p p' -> ended p' = None -> ended p = None.
Proof. intros [->|(q & [e He] & _)]%rtc_inv; [done|]. intros _. unfold pstep in He. by destruct (ended p). Qed.

Lemma plives_inv p p' : rtc plives p p' -> inv p -> ended p' = None -> inv p'.
Proof.
  induction 1 as [|a b c [e He] Hr IH]; [done|]. intros Ha Hend. apply IH; [|done]. by eapply pstep_inv; [|exact He|eapply plives_alive].
Qed.

Lemma plives_held o p p' : rtc plives_kept p p' -> held o p -> ended p = None ->
  match ended p' with None => held o p' | Some x => end_ok o x p' end.
Proof.
  induction 1 as [p|a b c (e & Hk & He) Hr IH]; intros Hh Hend; [by rewrite Hend|].
  pose proof (pstep_held o e a b Hh Hend Hk He) as Hb. destruct (ended b) as [x|] eqn:Eb; [|by apply IH].
  apply rtc_inv in Hr as [<-|(q & (e' & _ & He') & _)]; [by rewrite Eb|]. unfold pstep in He'. by rewrite Eb in He'.
Qed.

(** C34. No signal that hvi handles leaves the operator's terminal raw once hvi has taken
    it. Take a process that called [restore_on_fatal_signals], and whatever it and its
    signals did until hvi held the terminal raw with no restore in progress. From then
    on, for any interleaving of the thread of the stop signals, fatal handlers on any
    threads, the drop of the raw terminal and further signals, while the terminal takes
    the settings it is given back: if a signal ends the process before the terminal was
    given back, it has the settings hvi found, or the signal took its default action
    alone, and then it is not a fatal signal, unless the process had a handler of its own
    for it that may have set that action, and not a stop signal once the binary asked for
    those before its boot. *)
Theorem terminal_restored p0 p1 p2 o x :
  fresh p0 -> rtc plives (restore_on_fatal_signals os p0) p1 -> ended p1 = None -> raw p1 = InRaw o -> idle p1 ->
  rtc plives_kept p1 p2 -> ended p2 = Some x -> taken_over p2 = Some o ->
  tty p2 = Some o \/
  exists s, x = ByDefault s /\ (s ∈ fatal_signals os -> replaced s p2) /\ (s ∈ STOP_SIGNALS -> stops_asked p2 = false).
Proof.
  intros Hf Hr1 He Hraw Hi Hr2 Hx Ht. destruct (fresh_inv p0 Hf) as [Hinv _]. pose proof (plives_inv _ _ Hr1 Hinv He) as H1.
  assert (held o p1) as Hh by (split; [done|by rewrite Hraw|intros r Hr; by rewrite (Hi r Hr)]).
  pose proof (plives_held o _ _ Hr2 Hh He) as Hp. rewrite Hx in Hp. destruct Hp as [Hp|Hp]; [left; by apply Hp|by right].
Qed.

End Terminal.

(** A terminal with settings 7, taken over raw as 0, in a process that had a handler for
    [SIGSEGV]. *)
Module Example.
Definition p0 : Proc :=
  mkProc {[ SIGSEGV := User 1 ]} None [new_pair] (Some 7) None NoRaw None None false false (mkThreads Waiting [] [] false) None.
Definition yes (_ : Z) : bool := true.
Definition once (_ : Disp) : bool := false.

Lemma p0_fresh : fresh p0.
Proof.
  do 4 (split; [done|]). split; [|done]. intros s. unfold action, p0. cbn [acts].
  destruct (decide (SIGSEGV = s)) as [<-|Hne]; [by rewrite lookup_singleton_eq|by rewrite lookup_singleton_ne].
Qed.

Fixpoint prun (l : list Event) (p : Proc) : option Proc :=
  match l with [] => Some p | e :: l => p ← pstep Linux once 1 e p; prun l p end.

(** The boot takes the terminal; a thread faults, its old handler sets the default action,
    and a stop signal arrives while the fatal handler restores the terminal. *)
Definition taking : list Event := [EvStopOn 0 yes; EvStart true yes; EvPublish; EvSet (Some 0)].
Definition faulting : list Event :=
  [EvSignal (Other 1) SIGSEGV 1; EvHandler 0 true false; EvSignal Console SIGTERM 0; EvHandler 0 true true; EvStopper 0 true;
   EvHandler 0 true false; EvStopper 0 true; EvHandler 0 true false; EvHandler 0 true false].
Definition p1 : Proc := default p0 (prun taking (restore_on_fatal_signals Linux p0)).
Definition p2 : Proc := default p0 (prun faulting p1).

Lemma prun_lives l p p' : prun l p = Some p' -> rtc (plives Linux once 1) p p'.
Proof.
  revert p. induction l as [|e l IH]; intros p; cbn; [by intros [= ->]|]. destruct (pstep _ _ _ e p) as [q|] eqn:E; [|done]. intros H%IH.
  eapply rtc_l; [by exists e|done].
Qed.
Lemma prun_kept l p p' : Forall kept l -> prun l p = Some p' -> rtc (plives_kept Linux once 1) p p'.
Proof.
  intros Hk. revert p. induction Hk as [|e l He _ IH]; intros p; cbn; [by intros [= ->]|]. destruct (pstep _ _ _ e p) as [q|] eqn:E; [|done].
  intros H%IH. eapply rtc_l; [by exists e|done].
Qed.

Lemma p1_steps : rtc (plives Linux once 1) (restore_on_fatal_signals Linux p0) p1.
Proof. apply (prun_lives taking). vm_compute. reflexivity. Qed.
Lemma p2_steps : rtc (plives_kept Linux once 1) p1 p2.
Proof. apply (prun_kept faulting); [by repeat constructor|vm_compute; reflexivity]. Qed.
Lemma p1_idle : idle p1.
Proof.
  assert (stopper (threads p1) = Waiting) as Hs by (vm_compute; reflexivity).
  assert (frames (threads p1) = []) as Hf by (vm_compute; reflexivity).
  unfold idle, restoring. rewrite Hs, Hf. intros r [[s E]|(f & Hin & _)]; [discriminate E|]. apply elem_of_nil in Hin. contradiction.
Qed.

Lemma terminal_restored_witness : ended p2 = Some (ByFatal SIGSEGV) /\ tty p1 = Some 0 /\ tty p2 = Some 7.
Proof.
  split; [vm_compute; reflexivity|]. split; [vm_compute; reflexivity|].
  destruct (terminal_restored Linux once 1 p0 p1 p2 7 (ByFatal SIGSEGV) p0_fresh p1_steps ltac:(vm_compute; reflexivity)
    ltac:(vm_compute; reflexivity) p1_idle p2_steps ltac:(vm_compute; reflexivity) ltac:(vm_compute; reflexivity))
    as [H|(s & H & _)]; [exact H|discriminate H].
Defined.

(** The theorem starts where no restore is in progress, and it has to: a second stop
    signal that ends the process reads what is published, the boot then takes the
    terminal, and the process ends with the terminal raw. *)
Definition racing : list Event :=
  [EvStopOn 0 yes; EvStart true yes; EvSignal Console SIGTERM 0; EvStopper 0 true; EvStopper 0 true;
   EvSignal Console SIGTERM 0; EvStopper 0 true; EvStopper STOP_TIMEOUT true; EvStopper 0 true; EvPublish; EvSet (Some 0); EvStopper 0 true].
Lemma enable_race :
  (fun p => (ended p, tty p)) <$> prun racing (restore_on_fatal_signals Linux p0) = Some (Some (ByStop SIGTERM), Some 0).
Proof. vm_compute. reflexivity. Qed.
End Example.
