(* ===== verification/Cli.v ===== *)
(** * The command line ([src/main.rs])

    How [hvi boot] reads its arguments into a boot configuration. An argument is its
    bytes. What the host answers for a path is an argument of the definitions: the
    canonical form of an exported directory, the bytes of a file, and whether a file can
    be created. Notes printed on standard error are left out. *)

From stdpp Require Import strings.
From S2P Require Import Prelude Gateway Config.
Local Open Scope Z_scope.

Inductive CliError :=
  | NeedsValue | NotANumber | BadArgument (e : ConfigError) | BadShareTag | TagTaken (t : list Z) | UnknownCache | NotResolved | NotADirectory | NotAMac | UnknownArg (a : list Z)
  | DumpAfterAlone | TraceNotCreated | NoKernel | StopNotSet | FileNotRead | OutOfFuel.

(** The locals of [boot_guest]. *)
Record Opts := mkOpts {
  o_kernel : option (list Z);
  o_initramfs : option (list Z);
  o_mem_mib : Z;
  o_cmdline : list Z;
  o_disks : list DiskConfig;
  o_fs_uid : Z;
  o_fs_gid : Z;
  o_fs_shares : list FsShare;
  o_legacy_shares : list nat;
  o_fs : list FsConfig;
  o_net : bool;
  o_net_gateway : option (list Z);
  o_net_tap : option (list Z);
  o_net_mac : option (list Z);
  o_events : option (list Z);
  o_sandbox_id : list Z;
  o_vcpus : Z;
  o_agent_sock : option (list Z);
  o_dump_memory : option (list Z);
  o_dump_after : option Z;
  o_trace_io : option (list Z);
  o_sandbox : bool }.

Definition opts_default : Opts :=
  mkOpts None None 512 (lit "earlycon console=ttyAMA0 panic=-1") [] 0 0 [] [] [] false None None None None (lit "hvi") 1 None None None None true.

Definition set_kernel (v : option (list Z)) (o : Opts) : Opts :=
  mkOpts v (o_initramfs o) (o_mem_mib o) (o_cmdline o) (o_disks o) (o_fs_uid o) (o_fs_gid o) (o_fs_shares o) (o_legacy_shares o) (o_fs o) (o_net o) (o_net_gateway o) (o_net_tap o) (o_net_mac o) (o_events o) (o_sandbox_id o) (o_vcpus o) (o_agent_sock o) (o_dump_memory o) (o_dump_after o) (o_trace_io o) (o_sandbox o).
Definition set_initramfs (v : option (list Z)) (o : Opts) : Opts :=
  mkOpts (o_kernel o) v (o_mem_mib o) (o_cmdline o) (o_disks o) (o_fs_uid o) (o_fs_gid o) (o_fs_shares o) (o_legacy_shares o) (o_fs o) (o_net o) (o_net_gateway o) (o_net_tap o) (o_net_mac o) (o_events o) (o_sandbox_id o) (o_vcpus o) (o_agent_sock o) (o_dump_memory o) (o_dump_after o) (o_trace_io o) (o_sandbox o).
Definition set_mem_mib (v : Z) (o : Opts) : Opts :=
  mkOpts (o_kernel o) (o_initramfs o) v (o_cmdline o) (o_disks o) (o_fs_uid o) (o_fs_gid o) (o_fs_shares o) (o_legacy_shares o) (o_fs o) (o_net o) (o_net_gateway o) (o_net_tap o) (o_net_mac o) (o_events o) (o_sandbox_id o) (o_vcpus o) (o_agent_sock o) (o_dump_memory o) (o_dump_after o) (o_trace_io o) (o_sandbox o).
Definition set_cmdline (v : list Z) (o : Opts) : Opts :=
  mkOpts (o_kernel o) (o_initramfs o) (o_mem_mib o) v (o_disks o) (o_fs_uid o) (o_fs_gid o) (o_fs_shares o) (o_legacy_shares o) (o_fs o) (o_net o) (o_net_gateway o) (o_net_tap o) (o_net_mac o) (o_events o) (o_sandbox_id o) (o_vcpus o) (o_agent_sock o) (o_dump_memory o) (o_dump_after o) (o_trace_io o) (o_sandbox o).
Definition set_disks (v : list DiskConfig) (o : Opts) : Opts :=
  mkOpts (o_kernel o) (o_initramfs o) (o_mem_mib o) (o_cmdline o) v (o_fs_uid o) (o_fs_gid o) (o_fs_shares o) (o_legacy_shares o) (o_fs o) (o_net o) (o_net_gateway o) (o_net_tap o) (o_net_mac o) (o_events o) (o_sandbox_id o) (o_vcpus o) (o_agent_sock o) (o_dump_memory o) (o_dump_after o) (o_trace_io o) (o_sandbox o).
Definition set_fs_uid (v : Z) (o : Opts) : Opts :=
  mkOpts (o_kernel o) (o_initramfs o) (o_mem_mib o) (o_cmdline o) (o_disks o) v (o_fs_gid o) (o_fs_shares o) (o_legacy_shares o) (o_fs o) (o_net o) (o_net_gateway o) (o_net_tap o) (o_net_mac o) (o_events o) (o_sandbox_id o) (o_vcpus o) (o_agent_sock o) (o_dump_memory o) (o_dump_after o) (o_trace_io o) (o_sandbox o).
Definition set_fs_gid (v : Z) (o : Opts) : Opts :=
  mkOpts (o_kernel o) (o_initramfs o) (o_mem_mib o) (o_cmdline o) (o_disks o) (o_fs_uid o) v (o_fs_shares o) (o_legacy_shares o) (o_fs o) (o_net o) (o_net_gateway o) (o_net_tap o) (o_net_mac o) (o_events o) (o_sandbox_id o) (o_vcpus o) (o_agent_sock o) (o_dump_memory o) (o_dump_after o) (o_trace_io o) (o_sandbox o).
Definition set_fs (v : list FsConfig) (o : Opts) : Opts :=
  mkOpts (o_kernel o) (o_initramfs o) (o_mem_mib o) (o_cmdline o) (o_disks o) (o_fs_uid o) (o_fs_gid o) (o_fs_shares o) (o_legacy_shares o) v (o_net o) (o_net_gateway o) (o_net_tap o) (o_net_mac o) (o_events o) (o_sandbox_id o) (o_vcpus o) (o_agent_sock o) (o_dump_memory o) (o_dump_after o) (o_trace_io o) (o_sandbox o).
Definition set_net (v : bool) (o : Opts) : Opts :=
  mkOpts (o_kernel o) (o_initramfs o) (o_mem_mib o) (o_cmdline o) (o_disks o) (o_fs_uid o) (o_fs_gid o) (o_fs_shares o) (o_legacy_shares o) (o_fs o) v (o_net_gateway o) (o_net_tap o) (o_net_mac o) (o_events o) (o_sandbox_id o) (o_vcpus o) (o_agent_sock o) (o_dump_memory o) (o_dump_after o) (o_trace_io o) (o_sandbox o).
Definition set_net_gateway (v : option (list Z)) (o : Opts) : Opts :=
  mkOpts (o_kernel o) (o_initramfs o) (o_mem_mib o) (o_cmdline o) (o_disks o) (o_fs_uid o) (o_fs_gid o) (o_fs_shares o) (o_legacy_shares o) (o_fs o) (o_net o) v (o_net_tap o) (o_net_mac o) (o_events o) (o_sandbox_id o) (o_vcpus o) (o_agent_sock o) (o_dump_memory o) (o_dump_after o) (o_trace_io o) (o_sandbox o).
Definition set_net_tap (v : option (list Z)) (o : Opts) : Opts :=
  mkOpts (o_kernel o) (o_initramfs o) (o_mem_mib o) (o_cmdline o) (o_disks o) (o_fs_uid o) (o_fs_gid o) (o_fs_shares o) (o_legacy_shares o) (o_fs o) (o_net o) (o_net_gateway o) v (o_net_mac o) (o_events o) (o_sandbox_id o) (o_vcpus o) (o_agent_sock o) (o_dump_memory o) (o_dump_after o) (o_trace_io o) (o_sandbox o).
Definition set_net_mac (v : option (list Z)) (o : Opts) : Opts :=
  mkOpts (o_kernel o) (o_initramfs o) (o_mem_mib o) (o_cmdline o) (o_disks o) (o_fs_uid o) (o_fs_gid o) (o_fs_shares o) (o_legacy_shares o) (o_fs o) (o_net o) (o_net_gateway o) (o_net_tap o) v (o_events o) (o_sandbox_id o) (o_vcpus o) (o_agent_sock o) (o_dump_memory o) (o_dump_after o) (o_trace_io o) (o_sandbox o).
Definition set_events (v : option (list Z)) (o : Opts) : Opts :=
  mkOpts (o_kernel o) (o_initramfs o) (o_mem_mib o) (o_cmdline o) (o_disks o) (o_fs_uid o) (o_fs_gid o) (o_fs_shares o) (o_legacy_shares o) (o_fs o) (o_net o) (o_net_gateway o) (o_net_tap o) (o_net_mac o) v (o_sandbox_id o) (o_vcpus o) (o_agent_sock o) (o_dump_memory o) (o_dump_after o) (o_trace_io o) (o_sandbox o).
Definition set_sandbox_id (v : list Z) (o : Opts) : Opts :=
  mkOpts (o_kernel o) (o_initramfs o) (o_mem_mib o) (o_cmdline o) (o_disks o) (o_fs_uid o) (o_fs_gid o) (o_fs_shares o) (o_legacy_shares o) (o_fs o) (o_net o) (o_net_gateway o) (o_net_tap o) (o_net_mac o) (o_events o) v (o_vcpus o) (o_agent_sock o) (o_dump_memory o) (o_dump_after o) (o_trace_io o) (o_sandbox o).
Definition set_vcpus (v : Z) (o : Opts) : Opts :=
  mkOpts (o_kernel o) (o_initramfs o) (o_mem_mib o) (o_cmdline o) (o_disks o) (o_fs_uid o) (o_fs_gid o) (o_fs_shares o) (o_legacy_shares o) (o_fs o) (o_net o) (o_net_gateway o) (o_net_tap o) (o_net_mac o) (o_events o) (o_sandbox_id o) v (o_agent_sock o) (o_dump_memory o) (o_dump_after o) (o_trace_io o) (o_sandbox o).
Definition set_agent_sock (v : option (list Z)) (o : Opts) : Opts :=
  mkOpts (o_kernel o) (o_initramfs o) (o_mem_mib o) (o_cmdline o) (o_disks o) (o_fs_uid o) (o_fs_gid o) (o_fs_shares o) (o_legacy_shares o) (o_fs o) (o_net o) (o_net_gateway o) (o_net_tap o) (o_net_mac o) (o_events o) (o_sandbox_id o) (o_vcpus o) v (o_dump_memory o) (o_dump_after o) (o_trace_io o) (o_sandbox o).
Definition set_dump_memory (v : option (list Z)) (o : Opts) : Opts :=
  mkOpts (o_kernel o) (o_initramfs o) (o_mem_mib o) (o_cmdline o) (o_disks o) (o_fs_uid o) (o_fs_gid o) (o_fs_shares o) (o_legacy_shares o) (o_fs o) (o_net o) (o_net_gateway o) (o_net_tap o) (o_net_mac o) (o_events o) (o_sandbox_id o) (o_vcpus o) (o_agent_sock o) v (o_dump_after o) (o_trace_io o) (o_sandbox o).
Definition set_dump_after (v : option Z) (o : Opts) : Opts :=
  mkOpts (o_kernel o) (o_initramfs o) (o_mem_mib o) (o_cmdline o) (o_disks o) (o_fs_uid o) (o_fs_gid o) (o_fs_shares o) (o_legacy_shares o) (o_fs o) (o_net o) (o_net_gateway o) (o_net_tap o) (o_net_mac o) (o_events o) (o_sandbox_id o) (o_vcpus o) (o_agent_sock o) (o_dump_memory o) v (o_trace_io o) (o_sandbox o).
Definition set_trace_io (v : option (list Z)) (o : Opts) : Opts :=
  mkOpts (o_kernel o) (o_initramfs o) (o_mem_mib o) (o_cmdline o) (o_disks o) (o_fs_uid o) (o_fs_gid o) (o_fs_shares o) (o_legacy_shares o) (o_fs o) (o_net o) (o_net_gateway o) (o_net_tap o) (o_net_mac o) (o_events o) (o_sandbox_id o) (o_vcpus o) (o_agent_sock o) (o_dump_memory o) (o_dump_after o) v (o_sandbox o).
Definition set_sandbox (v : bool) (o : Opts) : Opts :=
  mkOpts (o_kernel o) (o_initramfs o) (o_mem_mib o) (o_cmdline o) (o_disks o) (o_fs_uid o) (o_fs_gid o) (o_fs_shares o) (o_legacy_shares o) (o_fs o) (o_net o) (o_net_gateway o) (o_net_tap o) (o_net_mac o) (o_events o) (o_sandbox_id o) (o_vcpus o) (o_agent_sock o) (o_dump_memory o) (o_dump_after o) (o_trace_io o) v.
Definition push_share (s : FsShare) (legacy : bool) (o : Opts) : Opts :=
  mkOpts (o_kernel o) (o_initramfs o) (o_mem_mib o) (o_cmdline o) (o_disks o) (o_fs_uid o) (o_fs_gid o) (o_fs_shares o ++ [s]) (if legacy then o_legacy_shares o ++ [length (o_fs_shares o)] else o_legacy_shares o) (o_fs o) (o_net o) (o_net_gateway o) (o_net_tap o) (o_net_mac o) (o_events o) (o_sandbox_id o) (o_vcpus o) (o_agent_sock o) (o_dump_memory o) (o_dump_after o) (o_trace_io o) (o_sandbox o).

Inductive Flag :=
  | FKernel | FInitramfs | FMemMib | FCmdline | FDisk | FFsUid | FFsGid | FShareRo | FShareRw | FFs | FNetStub | FNet | FNetGateway | FNetTap | FNetMac
  | FEvents | FSandboxId | FCpus | FAgentSock | FDumpMemory | FDumpAfter | FTraceIo | FNoSandbox.

Definition FLAGS : list (string * Flag) :=
  [("--kernel", FKernel); ("--initramfs", FInitramfs); ("--mem-mib", FMemMib); ("--cmdline", FCmdline); ("--disk", FDisk); ("--fs-uid", FFsUid); ("--fs-gid", FFsGid);
   ("--share-ro", FShareRo); ("--share-rw", FShareRw); ("--fs", FFs); ("--net-stub", FNetStub); ("--net", FNet); ("--net-gateway", FNetGateway); ("--net-tap", FNetTap);
   ("--net-mac", FNetMac); ("--events", FEvents); ("--sandbox-id", FSandboxId); ("--cpus", FCpus); ("--agent-sock", FAgentSock); ("--dump-memory", FDumpMemory);
   ("--dump-after", FDumpAfter); ("--trace-io", FTraceIo); ("--no-sandbox", FNoSandbox)]%string.
Definition flag_of (a : list Z) : option Flag := snd <$> List.find (fun p => bool_decide (lit p.1 = a)) FLAGS.

Definition tag_taken (shares : list FsShare) (sockets : list FsConfig) (t : list Z) : bool :=
  existsb (fun s => bool_decide (s_tag s = t)) shares || existsb (fun f => bool_decide (tag f = t)) sockets.

(** The policy a trailing [cache=] names, and the arguments after it. *)
Definition cache_arg (rest : list (list Z)) : (CachePolicy * list (list Z)) + CliError :=
  match rest with
  | a :: after =>
      if bool_decide (take 6 a = lit "cache=") then
        let spec := drop 6 a in
        if bool_decide (spec = lit "auto") then inl (CacheAuto, after)
        else if bool_decide (spec = lit "always") then inl (CacheAlways, after)
        else if bool_decide (spec = lit "none") then inl (CacheNone, after)
        else inr UnknownCache
      else inl (CacheAuto, rest)
  | [] => inl (CacheAuto, [])
  end.

Section Cli.
(** What the host makes of a path: its canonical form if it resolves, and whether it is
    a directory. *)
Context (canonicalize : list Z -> option (list Z)) (is_dir : list Z -> bool).

Definition export_dir (path : list Z) : list Z + CliError :=
  match canonicalize path with
  | None => inr NotResolved
  | Some resolved => if is_dir resolved then inl resolved else inr NotADirectory
  end.

Definition push_disk (disks : list DiskConfig) (spec : option (list Z)) : list DiskConfig + CliError :=
  match spec with
  | None => inr NeedsValue
  | Some spec => match disk_parse spec with inr e => inr (BadArgument e) | inl d => inl (disks ++ [d]) end
  end.

(** The arm of [--share-ro] and [--share-rw]. *)
Definition share_arg (md : ShareMode) (rest : list (list Z)) (o : Opts) : (Opts * list (list Z)) + CliError :=
  match rest with
  | p :: t :: rest =>
      if bool_decide (t = []) || (36 <? zlen t) || bool_decide (0 ∈ t) then inr BadShareTag
      else if tag_taken (o_fs_shares o) (o_fs o) t then inr (TagTaken t)
      else match cache_arg rest with
      | inr e => inr e
      | inl (c, rest) =>
          match export_dir p with
          | inr e => inr e
          | inl dir => inl (push_share (mkShare dir t md c 0 0) true o, rest)
          end
      end
  | _ => inr NeedsValue
  end.

(** The arm of [--fs]. *)
Definition fs_arg (rest : list (list Z)) (o : Opts) : (Opts * list (list Z)) + CliError :=
  match rest with
  | [] => inr NeedsValue
  | spec :: rest =>
      match fs_parse spec with
      | inr e => inr (BadArgument e)
      | inl (Share s) =>
          if tag_taken (o_fs_shares o) (o_fs o) (s_tag s) then inr (TagTaken (s_tag s))
          else match export_dir (path s) with
          | inr e => inr e
          | inl dir => inl (push_share (mkShare dir (s_tag s) (mode s) (cache s) (uid s) (gid s)) false o, rest)
          end
      | inl (Socket f) =>
          if tag_taken (o_fs_shares o) (o_fs o) (tag f) then inr (TagTaken (tag f)) else inl (set_fs (o_fs o ++ [f]) o, rest)
      end
  end.

(** A flag whose value may be missing, one that needs a value, and one that needs a
    number. *)
Definition optional (set : option (list Z) -> Opts -> Opts) (rest : list (list Z)) (o : Opts) : (Opts * list (list Z)) + CliError :=
  inl (set (head rest) o, tail rest).
Definition valued (set : list Z -> Opts -> Opts) (rest : list (list Z)) (o : Opts) : (Opts * list (list Z)) + CliError :=
  match rest with [] => inr NeedsValue | v :: rest => inl (set v o, rest) end.
Definition number (max : Z) (set : Z -> Opts -> Opts) (rest : list (list Z)) (o : Opts) : (Opts * list (list Z)) + CliError :=
  match rest with
  | [] => inr NeedsValue
  | v :: rest => match parse_uint max v with None => inr NotANumber | Some n => inl (set n o, rest) end
  end.

(** One turn of the loop, on the argument [a]. *)
Definition boot_arg (a : list Z) (rest : list (list Z)) (o : Opts) : (Opts * list (list Z)) + CliError :=
  match flag_of a with
  | None => inr (UnknownArg a)
  | Some f =>
      match f with
      | FKernel => optional set_kernel rest o
      | FInitramfs => optional set_initramfs rest o
      | FMemMib => number (2 ^ 64 - 1) set_mem_mib rest o
      | FCmdline => valued set_cmdline rest o
      | FDisk => match push_disk (o_disks o) (head rest) with inr e => inr e | inl ds => inl (set_disks ds o, tail rest) end
      | FFsUid => number (2 ^ 32 - 1) set_fs_uid rest o
      | FFsGid => number (2 ^ 32 - 1) set_fs_gid rest o
      | FShareRo => share_arg ReadOnly rest o
      | FShareRw => share_arg ReadWrite rest o
      | FFs => fs_arg rest o
      | FNetStub | FNet => inl (set_net true o, rest)
      | FNetGateway => optional set_net_gateway rest o
      | FNetTap => optional set_net_tap rest o
      | FNetMac =>
          match rest with
          | [] => inr NeedsValue
          | v :: rest => match parse_mac v with None => inr NotAMac | Some m => inl (set_net_mac (Some m) o, rest) end
          end
      | FEvents => optional set_events rest o
      | FSandboxId => valued set_sandbox_id rest o
      | FCpus => number (2 ^ 32 - 1) set_vcpus rest o
      | FAgentSock => optional set_agent_sock rest o
      | FDumpMemory => optional set_dump_memory rest o
      | FDumpAfter => number (2 ^ 64 - 1) (fun n => set_dump_after (Some n)) rest o
      | FTraceIo => optional set_trace_io rest o
      | FNoSandbox => inl (set_sandbox false o, rest)
      end
  end.

(** The loop; every turn takes an argument at least, so their number is fuel enough. *)
Fixpoint boot_loop (fuel : nat) (args : list (list Z)) (o : Opts) : Opts + CliError :=
  match args with
  | [] => inl o
  | a :: rest =>
      match fuel with
      | O => inr OutOfFuel
      | S fuel => match boot_arg a rest o with inr e => inr e | inl (o, rest) => boot_loop fuel rest o end
      end
  end.
Definition boot_args (args : list (list Z)) : Opts + CliError := boot_loop (length args) args opts_default.

(** The tools [--dump-memory] and [--trace-io] ask for, in the order of the chain. *)
Inductive Tool := Dump (p : list Z) (after : option Z) | Trace (p : list Z).

Record BootConfig := mkBootConfig {
  c_kernel : list Z; c_initramfs : option (list Z); mem_bytes : Z; c_cmdline : list Z; c_disks : list DiskConfig; c_fs_shares : list FsShare; c_fs : list FsConfig;
  c_net : bool; c_net_gateway : option (list Z); c_net_tap : option (list Z); c_net_mac : option (list Z); c_events : option (list Z); c_sandbox_id : list Z;
  c_vcpus : Z; c_agent_sock : option (list Z); c_sandbox : bool; plugin : option (list Tool) }.

Definition with_ids (u g : Z) (s : FsShare) : FsShare := mkShare (path s) (s_tag s) (mode s) (cache s) u g.
Definition legacy_ids (o : Opts) : list FsShare :=
  foldl (fun shares i => alter (with_ids (o_fs_uid o) (o_fs_gid o)) i shares) (o_fs_shares o) (o_legacy_shares o).

(** [boot_guest] up to the call of [boot]. [creates] says whether the file of the trace
    can be created, [stop_set] whether the stop signals and the fatal signals could be
    set up, and [read_file] gives the bytes of a file. *)
Definition boot_guest (creates : list Z -> bool) (stop_set : bool) (read_file : list Z -> option (list Z)) (args : list (list Z)) : BootConfig + CliError :=
  match boot_args args with
  | inr e => inr e
  | inl o =>
      if bool_decide (is_Some (o_dump_after o)) && negb (bool_decide (is_Some (o_dump_memory o))) then inr DumpAfterAlone
      else if match o_trace_io o with Some p => negb (creates p) | None => false end then inr TraceNotCreated
      else
        let tools := (match o_dump_memory o with Some p => [Dump p (o_dump_after o)] | None => [] end) ++ (match o_trace_io o with Some p => [Trace p] | None => [] end) in
        match o_kernel o with
        | None => inr NoKernel
        | Some kernel_path =>
            if negb stop_set then inr StopNotSet
            else match check_disks (o_disks o) with
            | Some e => inr (BadArgument e)
            | None =>
                match read_file kernel_path with
                | None => inr FileNotRead
                | Some kernel =>
                    match (match o_initramfs o with None => Some None | Some p => Some <$> read_file p end) with
                    | None => inr FileNotRead
                    | Some initramfs =>
                        inl (mkBootConfig kernel initramfs (u64 (Z.shiftl (o_mem_mib o) 20)) (o_cmdline o) (o_disks o) (legacy_ids o) (o_fs o)
                          (o_net o) (o_net_gateway o) (o_net_tap o) (o_net_mac o) (o_events o) (o_sandbox_id o) (o_vcpus o) (o_agent_sock o) (o_sandbox o)
                          (if bool_decide (tools = []) then None else Some tools))
                    end
                end
            end
        end
  end.

End Cli.

(** * What it shows *)

(** The exports given so far, which most flags leave alone. *)
Definition exports (o : Opts) := (o_fs_shares o, o_legacy_shares o, o_fs o).
Definition tags (o : Opts) : list (list Z) := (s_tag <$> o_fs_shares o) ++ (tag <$> o_fs o).

Lemma tag_taken_spec o t : tag_taken (o_fs_shares o) (o_fs o) t = false -> t ∉ tags o.
Proof.
  unfold tag_taken, tags. rewrite orb_false_iff. intros [H1 H2]. rewrite elem_of_app. intros [(s & -> & Hs)%list_elem_of_fmap|(f & -> & Hf)%list_elem_of_fmap].
  - assert (existsb (fun x => bool_decide (s_tag x = s_tag s)) (o_fs_shares o) = true); [|congruence]. apply existsb_exists. exists s. split; [by apply list_elem_of_In|by apply bool_decide_eq_true].
  - assert (existsb (fun x => bool_decide (tag x = tag f)) (o_fs o) = true); [|congruence]. apply existsb_exists. exists f. split; [by apply list_elem_of_In|by apply bool_decide_eq_true].
Qed.

(** What [--fs] parses is an export a device can have. *)
Lemma fs_parse_valid spec x : fs_parse spec = inl x -> match x with Share s => tag_ok (s_tag s) = true | Socket f => tag_ok (tag f) = true /\ validate f = None end.
Proof.
  unfold fs_parse. destruct (key_values spec FS_KEYS) as [fields|]; [|done]. destruct (get fields (lit "tag")) as [t|]; [|done]. destruct (tag_ok t) eqn:Et; cbn [negb]; [|done].
  destruct (given (get fields (lit "path"))) as [p|], (given (get fields (lit "socket"))) as [s|]; try done.
  - unfold parse_share. destruct (other _ _); [done|]. repeat case_match; try done; intros [= <-]; done.
  - unfold parse_socket. destruct (other _ _); [done|]. destruct (match get fields (lit "num_queues") with Some _ => _ | None => _ end) as [nq|]; [|done].
    destruct (match get fields (lit "queue_size") with Some _ => _ | None => _ end) as [qs|]; [|done]. destruct (validate (mkFs t s nq qs)) eqn:Ev; [done|]. by intros [= <-].
Qed.

Section Shown.
Context (canonicalize : list Z -> option (list Z)) (is_dir : list Z -> bool).
Local Abbreviation export_dir := (export_dir canonicalize is_dir).

Lemma export_dir_spec p : match export_dir p with inl dir => canonicalize p = Some dir /\ is_dir dir = true | inr e => e <> OutOfFuel end.
Proof. unfold Cli.export_dir. destruct (canonicalize p) as [r|]; [|done]. by destruct (is_dir r) eqn:E. Qed.

(** Exports the guest can tell apart and use, and the shares the older flags gave. *)
Record opts_ok (o : Opts) : Prop := {
  ok_tags : NoDup (tags o);
  ok_tag : Forall (fun t => tag_ok t = true) (tags o);
  ok_dirs : Forall (fun s => exists p, canonicalize p = Some (path s) /\ is_dir (path s) = true) (o_fs_shares o);
  ok_fs : Forall (fun f => validate f = None) (o_fs o);
  ok_legacy : Forall (fun i => (i < length (o_fs_shares o))%nat) (o_legacy_shares o) }.

Lemma opts_ok_same o o' : exports o' = exports o -> opts_ok o -> opts_ok o'.
Proof. unfold exports. intros [= H1 H2 H3] [? ? ? ? ?]. by split; unfold tags in *; rewrite ?H1, ?H2, ?H3. Qed.

Lemma opts_ok_share o p t md c u g dir legacy : opts_ok o -> tag_ok t = true -> t ∉ tags o -> canonicalize p = Some dir -> is_dir dir = true -> opts_ok (push_share (mkShare dir t md c u g) legacy o).
Proof.
  intros [H1 H2 H3 H4 H5] Ht Hn Hd Hi. assert (tags (push_share (mkShare dir t md c u g) legacy o) ≡ₚ t :: tags o) as Hp.
  { unfold tags. cbn. rewrite fmap_app, <-app_assoc. cbn. by rewrite <-Permutation_middle. }
  split; rewrite ?Hp; [by constructor|by constructor| |done|].
  - cbn. apply Forall_app. split; [done|]. constructor; [by exists p|done].
  - cbn. rewrite length_app. cbn. assert (Forall (fun i => (i < length (o_fs_shares o) + 1)%nat) (o_legacy_shares o)) by (eapply Forall_impl; [exact H5|cbn; lia]).
    destruct legacy; [|done]. apply Forall_app. split; [done|]. constructor; [lia|done].
Qed.

Lemma opts_ok_socket o f : opts_ok o -> tag_ok (tag f) = true -> validate f = None -> tag f ∉ tags o -> opts_ok (set_fs (o_fs o ++ [f]) o).
Proof.
  intros [H1 H2 H3 H4 H5] Ht Hv Hn. assert (tags (set_fs (o_fs o ++ [f]) o) ≡ₚ tag f :: tags o) as Hp.
  { unfold tags. cbn. rewrite fmap_app, app_assoc. cbn. symmetry. apply Permutation_cons_append. }
  split; rewrite ?Hp; [by constructor|by constructor|done| |done]. cbn. apply Forall_app. by split; [|constructor].
Qed.

Lemma cache_arg_shorter rest c rest' : cache_arg rest = inl (c, rest') -> (length rest' <= length rest)%nat.
Proof. destruct rest as [|a rest]; cbn; [by intros [= _ <-]|]. repeat case_match; try done; intros [= _ <-]; cbn; lia. Qed.

(** What an arm leaves: sound exports, and no more arguments than it was given. *)
Definition arm_ok (rest : list (list Z)) (r : (Opts * list (list Z)) + CliError) : Prop :=
  match r with inl (o', rest') => opts_ok o' /\ (length rest' <= length rest)%nat | inr e => e <> OutOfFuel end.

Lemma optional_arm set rest o : (forall v, exports (set v o) = exports o) -> opts_ok o -> arm_ok rest (optional set rest o).
Proof. intros Hs Ho. split; [by apply (opts_ok_same o)|]. destruct rest; cbn; lia. Qed.
Lemma valued_arm set rest o : (forall v, exports (set v o) = exports o) -> opts_ok o -> arm_ok rest (valued set rest o).
Proof. intros Hs Ho. destruct rest as [|v rest]; [done|]. split; [by apply (opts_ok_same o)|cbn; lia]. Qed.
Lemma number_arm max set rest o : (forall v, exports (set v o) = exports o) -> opts_ok o -> arm_ok rest (number max set rest o).
Proof. intros Hs Ho. destruct rest as [|v rest]; [done|]. cbn. destruct (parse_uint max v); [|done]. split; [by apply (opts_ok_same o)|cbn; lia]. Qed.

Lemma share_arm md rest o : opts_ok o -> arm_ok rest (share_arg canonicalize is_dir md rest o).
Proof.
  intros Ho. destruct rest as [|p [|t rest]]; [done..|]. cbn [share_arg]. destruct (_ || _ || _) eqn:Et; [done|]. destruct (tag_taken _ _ t) eqn:En; [done|].
  destruct (cache_arg rest) as [[c rest']|e] eqn:Ec; [|destruct rest as [|a rest]; cbn in Ec; [done|]; repeat case_match; by simplify_eq].
  pose proof (export_dir_spec p) as Hd. destruct (export_dir p) as [dir|e]; [destruct Hd|exact Hd]. apply cache_arg_shorter in Ec. split; [|cbn; lia].
  eapply opts_ok_share; [done|by unfold tag_ok, MAX_TAG_LEN; rewrite Et|by apply tag_taken_spec|done|done].
Qed.

Lemma fs_arm rest o : opts_ok o -> arm_ok rest (fs_arg canonicalize is_dir rest o).
Proof.
  intros Ho. destruct rest as [|spec rest]; [done|]. cbn [fs_arg]. destruct (fs_parse spec) as [x|] eqn:Ex; [|done]. apply fs_parse_valid in Ex.
  destruct x as [s|f]; destruct (tag_taken _ _ _) eqn:En; [done| |done|].
  - pose proof (export_dir_spec (path s)) as Hd. destruct (export_dir (path s)) as [dir|e]; [destruct Hd|exact Hd]. split; [|cbn; lia]. eapply opts_ok_share; [done|done|by apply tag_taken_spec|done|done].
  - destruct Ex. split; [|cbn; lia]. apply opts_ok_socket; [done..|by apply tag_taken_spec].
Qed.

Lemma boot_arg_ok a rest o : opts_ok o -> arm_ok rest (boot_arg canonicalize is_dir a rest o).
Proof.
  intros Ho. unfold boot_arg. destruct (flag_of a) as [f|]; [|done].
  destruct f; try (by apply optional_arm); try (by apply valued_arm); try (by apply number_arm); try (by apply share_arm); try (by apply fs_arm);
    try (split; [by apply (opts_ok_same o)|done]).
  - destruct rest as [|v rest]; [done|]. cbn. destruct (disk_parse v); [|done]. split; [by apply (opts_ok_same o)|cbn; lia].
  - destruct rest as [|v rest]; [done|]. destruct (parse_mac v); [|done]. split; [by apply (opts_ok_same o)|cbn; lia].
Qed.

Lemma boot_loop_ok fuel : forall args o, (length args <= fuel)%nat -> opts_ok o ->
  match boot_loop canonicalize is_dir fuel args o with inl o' => opts_ok o' | inr e => e <> OutOfFuel end.
Proof.
  induction fuel as [|fuel IH]; intros [|a rest] o Hl Ho; cbn [length] in Hl; [done|lia|done|]. cbn [boot_loop].
  pose proof (boot_arg_ok a rest o Ho) as H. destruct (boot_arg canonicalize is_dir a rest o) as [[o' rest']|e]; [|exact H]. destruct H as [H1 H2]. apply IH; [lia|done].
Qed.

Lemma boot_args_ok args : match boot_args canonicalize is_dir args with inl o' => opts_ok o' | inr e => e <> OutOfFuel end.
Proof. apply boot_loop_ok; [done|]. by split; try constructor. Qed.

Lemma legacy_ids_spec o i : legacy_ids o !! i =
  if bool_decide (i ∈ o_legacy_shares o) then with_ids (o_fs_uid o) (o_fs_gid o) <$> o_fs_shares o !! i else o_fs_shares o !! i.
Proof.
  unfold legacy_ids. generalize (o_fs_shares o). induction (o_legacy_shares o) as [|j l IH]; intros shares; cbn [foldl]; [by rewrite bool_decide_eq_false_2 by apply not_elem_of_nil|].
  rewrite IH. destruct (decide (i = j)) as [->|Hne].
  - rewrite list_lookup_alter_eq, (bool_decide_eq_true_2 (j ∈ j :: l)) by (by left). destruct (shares !! j) as [s|]; cbn; by case_bool_decide.
  - rewrite list_lookup_alter_ne by done. rewrite (bool_decide_ext (i ∈ j :: l) (i ∈ l)); [done|]. rewrite elem_of_cons. tauto.
Qed.

Lemma legacy_ids_same o : s_tag <$> legacy_ids o = s_tag <$> o_fs_shares o /\ path <$> legacy_ids o = path <$> o_fs_shares o.
Proof.
  split; apply list_eq; intros i; rewrite !list_lookup_fmap, legacy_ids_spec; case_bool_decide; [|done| |done]; by destruct (o_fs_shares o !! i).
Qed.

(** ** What a line asks for

    A line read as its options, each with the words that spell it. *)
Inductive Item :=
  | Uid (v : list Z) (n : Z)
  | Gid (v : list Z) (n : Z)
  | Older (md : ShareMode) (p t : list Z) (c : option CachePolicy) (dir : list Z)
  | ShareAt (spec : list Z) (s : FsShare) (dir : list Z)
  | SocketAt (spec : list Z) (f : FsConfig)
  | Other (a : list Z) (r : list (list Z)).

Definition cache_word (c : CachePolicy) : list Z := match c with CacheAuto => lit "cache=auto" | CacheAlways => lit "cache=always" | CacheNone => lit "cache=none" end.
Definition words (i : Item) : list (list Z) :=
  match i with
  | Uid v _ => [lit "--fs-uid"; v]
  | Gid v _ => [lit "--fs-gid"; v]
  | Older md p t c _ => [lit (match md with ReadOnly => "--share-ro" | ReadWrite => "--share-rw" end); p; t] ++ option_list (cache_word <$> c)
  | ShareAt spec _ _ | SocketAt spec _ => [lit "--fs"; spec]
  | Other a r => a :: r
  end.

(** The flags that have nothing to do with exports: those alone and those with a value,
    which the last word of a line may lack. *)
Definition BARE : list (list Z) := lit <$> ["--net-stub"; "--net"; "--no-sandbox"]%string.
Definition WITH_VALUE : list (list Z) :=
  lit <$> ["--kernel"; "--initramfs"; "--mem-mib"; "--cmdline"; "--disk"; "--net-gateway"; "--net-tap"; "--net-mac"; "--events"; "--sandbox-id"; "--cpus";
    "--agent-sock"; "--dump-memory"; "--dump-after"; "--trace-io"]%string.

(** An item is what its words say, [after] being the words behind it: an older share takes
    a cache policy when there is one. *)
Definition item_ok (after : list (list Z)) (i : Item) : Prop :=
  match i with
  | Uid v n | Gid v n => parse_uint (2 ^ 32 - 1) v = Some n
  | Older _ p _ c dir => canonicalize p = Some dir /\ is_dir dir = true /\ (c = None -> take 6 (default [] (head after)) <> lit "cache=")
  | ShareAt spec s dir => share_asked spec s /\ canonicalize (path s) = Some dir /\ is_dir dir = true
  | SocketAt spec f => fs_parse spec = inl (Socket f)
  | Other a r => (a ∈ BARE /\ r = []) \/ (a ∈ WITH_VALUE /\ (length r = 1%nat \/ r = [] /\ after = []))
  end.
Fixpoint line_ok (l : list Item) : Prop :=
  match l with [] => True | i :: l => item_ok (l ≫= words) i /\ line_ok l end.

(** The last number of a kind on the line, 0 when there is none. *)
Definition uid_at (i : Item) : option Z := match i with Uid _ n => Some n | _ => None end.
Definition gid_at (i : Item) : option Z := match i with Gid _ n => Some n | _ => None end.
Definition last_of (f : Item -> option Z) (l : list Item) : Z := default 0 (last (omap f l)).

(** The share an item asks for, on a line whose last identity is [u] and [g]. *)
Definition share_at (u g : Z) (i : Item) : option FsShare :=
  match i with
  | Older md _ t c dir => Some (mkShare dir t md (default CacheAuto c) u g)
  | ShareAt _ s dir => Some (mkShare dir (s_tag s) (mode s) (cache s) (uid s) (gid s))
  | _ => None
  end.
Definition socket_at (i : Item) : option FsConfig := match i with SocketAt _ f => Some f | _ => None end.
Definition older (i : Item) : bool := match i with Older _ _ _ _ _ => true | _ => false end.

(** What a turn of the loop does with the item it reads. *)
Record turned (i : Item) (o o' : Opts) : Prop := {
  tu_uid : o_fs_uid o' = default (o_fs_uid o) (uid_at i);
  tu_gid : o_fs_gid o' = default (o_fs_gid o) (gid_at i);
  tu_shares : o_fs_shares o' = o_fs_shares o ++ option_list (share_at 0 0 i);
  tu_legacy : o_legacy_shares o' = o_legacy_shares o ++ (if older i then [length (o_fs_shares o)] else []);
  tu_fs : o_fs o' = o_fs o ++ option_list (socket_at i) }.

Definition name_of (f : Flag) : string :=
  match f with
  | FKernel => "--kernel" | FInitramfs => "--initramfs" | FMemMib => "--mem-mib" | FCmdline => "--cmdline" | FDisk => "--disk" | FFsUid => "--fs-uid" | FFsGid => "--fs-gid"
  | FShareRo => "--share-ro" | FShareRw => "--share-rw" | FFs => "--fs" | FNetStub => "--net-stub" | FNet => "--net" | FNetGateway => "--net-gateway" | FNetTap => "--net-tap"
  | FNetMac => "--net-mac" | FEvents => "--events" | FSandboxId => "--sandbox-id" | FCpus => "--cpus" | FAgentSock => "--agent-sock" | FDumpMemory => "--dump-memory"
  | FDumpAfter => "--dump-after" | FTraceIo => "--trace-io" | FNoSandbox => "--no-sandbox"
  end%string.

Lemma flag_of_name a f : flag_of a = Some f -> a = lit (name_of f).
Proof.
  unfold flag_of. destruct (List.find _ FLAGS) as [[n f']|] eqn:E; [|done]. intros [= <-]. apply List.find_some in E as [Hin Ha%bool_decide_eq_true]. cbn [fst snd] in *.
  rewrite <-Ha. f_equal. apply list_elem_of_In in Hin. assert (Forall (fun p => p.1 = name_of p.2) FLAGS) as Hf by (repeat constructor).
  rewrite Forall_forall in Hf. by apply (Hf _ Hin).
Qed.

(** An item that leaves the exports and their identity alone. *)
Lemma turned_other a r o o' : exports o' = exports o -> o_fs_uid o' = o_fs_uid o -> o_fs_gid o' = o_fs_gid o -> turned (Other a r) o o'.
Proof. unfold exports. intros [= H1 H2 H3] H4 H5. split; cbn; by rewrite ?app_nil_r. Qed.

Definition reads (a : list Z) (rest : list (list Z)) (o : Opts) (r : (Opts * list (list Z)) + CliError) : Prop :=
  match r with inl (o', rest') => exists i, a :: rest = words i ++ rest' /\ item_ok rest' i /\ turned i o o' | inr _ => True end.

Ltac with_value := right; split; [by apply (bool_decide_unpack _)|].

Lemma optional_reads a set rest o : a ∈ WITH_VALUE -> (forall v, turned (Other a []) o (set v o)) -> reads a rest o (optional set rest o).
Proof.
  intros Ha Hs. destruct rest as [|v rest]; cbn; [exists (Other a [])|exists (Other a [v])]; (split; [done|split; [right; split; [done|]|]]); [by right|apply (Hs None)|by left|].
  by destruct (Hs (Some v)).
Qed.
Lemma valued_reads a set rest o : a ∈ WITH_VALUE -> (forall v, turned (Other a []) o (set v o)) -> reads a rest o (valued set rest o).
Proof. intros Ha Hs. destruct rest as [|v rest]; cbn; [done|]. exists (Other a [v]). split; [done|]. split; [right; split; [done|by left]|]. by destruct (Hs v). Qed.
Lemma number_reads a max set rest o : a ∈ WITH_VALUE -> (forall v, turned (Other a []) o (set v o)) -> reads a rest o (number max set rest o).
Proof.
  intros Ha Hs. destruct rest as [|v rest]; cbn; [done|]. destruct (parse_uint max v) as [n|]; [|done]. exists (Other a [v]).
  split; [done|]. split; [right; split; [done|by left]|]. by destruct (Hs n).
Qed.

Lemma cache_arg_reads rest c rest' : cache_arg rest = inl (c, rest') ->
  exists co, c = default CacheAuto co /\ rest = option_list (cache_word <$> co) ++ rest' /\ (co = None -> take 6 (default [] (head rest')) <> lit "cache=").
Proof.
  destruct rest as [|a after]; cbn [cache_arg]; [intros [= <- <-]; by exists None|]. case_bool_decide as Ht; [|intros [= <- <-]; by exists None].
  assert (forall c x, drop 6 a = lit x -> cache_word c = lit "cache=" ++ lit x -> a = cache_word c) as Ha by (intros ? x Hd ->; by rewrite <-(take_drop 6 a), Ht, Hd).
  case_bool_decide as Hd.
  { intros [= <- <-]. exists (Some CacheAuto). split; [done|]. split; [exact (f_equal (fun x => x :: after) (Ha CacheAuto _ Hd eq_refl))|intros [=]]. }
  clear Hd. case_bool_decide as Hd.
  { intros [= <- <-]. exists (Some CacheAlways). split; [done|]. split; [exact (f_equal (fun x => x :: after) (Ha CacheAlways _ Hd eq_refl))|intros [=]]. }
  clear Hd. case_bool_decide as Hd; [|done].
  intros [= <- <-]. exists (Some CacheNone). split; [done|]. split; [exact (f_equal (fun x => x :: after) (Ha CacheNone _ Hd eq_refl))|intros [=]].
Qed.

Lemma share_reads md rest o : reads (lit (match md with ReadOnly => "--share-ro" | ReadWrite => "--share-rw" end)) rest o (share_arg canonicalize is_dir md rest o).
Proof.
  destruct rest as [|p [|t rest]]; [done..|]. cbn [share_arg]. destruct (_ || _ || _); [done|]. destruct (tag_taken _ _ t); [done|].
  destruct (cache_arg rest) as [[c rest']|e] eqn:Ec; [|done]. apply cache_arg_reads in Ec as (co & -> & -> & Hn).
  pose proof (export_dir_spec p) as Hd. destruct (export_dir p) as [dir|e]; [destruct Hd|done]. exists (Older md p t co dir). split; [done|]. split; [done|].
  by split; cbn; rewrite ?app_nil_r.
Qed.

Lemma fs_reads rest o : reads (lit "--fs") rest o (fs_arg canonicalize is_dir rest o).
Proof.
  destruct rest as [|spec rest]; [done|]. cbn [fs_arg]. destruct (fs_parse spec) as [[s|f]|] eqn:Ex; [| |done].
  - apply fs_parse_share in Ex. destruct (tag_taken _ _ _); [done|]. pose proof (export_dir_spec (path s)) as Hd.
    destruct (export_dir (path s)) as [dir|e]; [destruct Hd|done]. exists (ShareAt spec s dir). split; [done|]. split; [done|]. by split; cbn; rewrite ?app_nil_r.
  - destruct (tag_taken _ _ _); [done|]. exists (SocketAt spec f). split; [done|]. split; [done|]. by split; cbn; rewrite ?app_nil_r.
Qed.

Lemma boot_arg_reads a rest o : reads a rest o (boot_arg canonicalize is_dir a rest o).
Proof.
  unfold boot_arg. destruct (flag_of a) as [f|] eqn:Ef; [|done]. apply flag_of_name in Ef as ->.
  assert (forall b, b ∈ BARE -> forall o', exports o' = exports o -> o_fs_uid o' = o_fs_uid o -> o_fs_gid o' = o_fs_gid o -> reads b rest o (inl (o', rest))) as Hbare.
  { intros b Hb o' H1 H2 H3. exists (Other b []). split; [done|]. split; [by left|by apply turned_other]. }
  assert (forall b v rest' o', b ∈ WITH_VALUE -> exports o' = exports o -> o_fs_uid o' = o_fs_uid o -> o_fs_gid o' = o_fs_gid o -> reads b (v :: rest') o (inl (o', rest'))) as Hone.
  { intros b v rest' o' Hb H1 H2 H3. exists (Other b [v]). split; [done|]. split; [right; split; [done|by left]|by apply turned_other]. }
  destruct f; cbn [name_of];
    try (first [apply optional_reads|apply valued_reads|apply number_reads]; [by apply (bool_decide_unpack _)|intros v; by apply turned_other]);
    try (apply Hbare; [by apply (bool_decide_unpack _)|done..]).
  - destruct rest as [|v rest]; [done|]. cbn. destruct (disk_parse v); [|done]. apply Hone; [by apply (bool_decide_unpack _)|done..].
  - destruct rest as [|v rest]; [done|]. cbn. destruct (parse_uint _ v) as [n|] eqn:En; [|done]. exists (Uid v n). split; [done|]. split; [done|]. by split; cbn; rewrite ?app_nil_r.
  - destruct rest as [|v rest]; [done|]. cbn. destruct (parse_uint _ v) as [n|] eqn:En; [|done]. exists (Gid v n). split; [done|]. split; [done|]. by split; cbn; rewrite ?app_nil_r.
  - apply (share_reads ReadOnly).
  - apply (share_reads ReadWrite).
  - apply fs_reads.
  - destruct rest as [|v rest]; [done|]. destruct (parse_mac v); [|done]. apply Hone; [by apply (bool_decide_unpack _)|done..].
Qed.

(** The positions of the older shares among the shares of a line. *)
Fixpoint older_from (n : nat) (l : list Item) : list nat :=
  match l with
  | [] => []
  | i :: l => (if older i then [n] else []) ++ older_from (n + length (option_list (share_at 0 0 i))) l
  end.

Lemma last_cons_default (x : option Z) (l : list Z) d : default (default d x) (last l) = default d (last (option_list x ++ l)).
Proof. destruct x as [x|]; [|done]. change (option_list (Some x) ++ l) with (x :: l). rewrite last_cons. by destruct (last l). Qed.

Lemma omap_cons_list {A B} (f : A -> option B) x l : omap f (x :: l) = option_list (f x) ++ omap f l.
Proof. cbn. by destruct (f x). Qed.

Lemma boot_loop_reads fuel : forall args o o', boot_loop canonicalize is_dir fuel args o = inl o' ->
  exists items, args = items ≫= words /\ line_ok items /\ o_fs_uid o' = default (o_fs_uid o) (last (omap uid_at items)) /\
    o_fs_gid o' = default (o_fs_gid o) (last (omap gid_at items)) /\ o_fs_shares o' = o_fs_shares o ++ omap (share_at 0 0) items /\
    o_legacy_shares o' = o_legacy_shares o ++ older_from (length (o_fs_shares o)) items /\ o_fs o' = o_fs o ++ omap socket_at items.
Proof.
  induction fuel as [|fuel IH]; intros [|a rest] o o'; cbn [boot_loop]; try done; try (intros [= <-]; exists []; by rewrite !app_nil_r).
  pose proof (boot_arg_reads a rest o) as H. destruct (boot_arg canonicalize is_dir a rest o) as [[o1 rest']|e]; [|done].
  destruct H as (i & -> & Hi & [T1 T2 T3 T4 T5]). intros (items & -> & Hl & E1 & E2 & E3 & E4 & E5)%IH. exists (i :: items).
  rewrite T1, last_cons_default in E1. rewrite T2, last_cons_default in E2. rewrite !omap_cons_list. split; [done|]. split; [done|].
  split; [done|]. split; [done|]. split; [by rewrite E3, T3, <-app_assoc|]. split; [|by rewrite E5, T5, <-app_assoc].
  rewrite E4, T4, <-app_assoc. cbn [older_from]. by rewrite T3, length_app.
Qed.

Lemma older_from_ge n l k : k ∈ older_from n l -> (n <= k)%nat.
Proof.
  revert n. induction l as [|i l IH]; intros n; cbn [older_from]; [by intros ?%elem_of_nil|]. intros [Hk|Hk]%elem_of_app.
  - destruct (older i); [apply list_elem_of_singleton in Hk; lia|by apply elem_of_nil in Hk].
  - apply IH in Hk. lia.
Qed.

Lemma older_ids u g l : forall n k, omap (share_at u g) l !! k =
  if bool_decide ((n + k)%nat ∈ older_from n l) then with_ids u g <$> omap (share_at 0 0) l !! k else omap (share_at 0 0) l !! k.
Proof.
  induction l as [|i l IH]; intros n k; [cbn; rewrite !lookup_nil; by case_bool_decide|]. rewrite !omap_cons_list. cbn [older_from].
  assert (forall m j, (n <= j < m)%nat -> j ∉ older_from m l) as Hge by (intros m j Hj Hin%older_from_ge; lia).
  destruct (share_at 0 0 i) as [s|] eqn:Es.
  - assert (share_at u g i = Some (if older i then with_ids u g s else s)) as -> by (destruct i; cbn in *; by simplify_eq).
    unfold option_list. cbn [option_rect app length].
    destruct k as [|k]; cbn [lookup list_lookup].
    + rewrite Nat.add_0_r. destruct (older i); [by rewrite bool_decide_true by (by left)|]. rewrite bool_decide_false; [done|]. apply Hge. lia.
    + etrans; [exact (IH (n + 1)%nat k)|]. rewrite (bool_decide_ext ((n + S k)%nat ∈ _) ((n + 1 + k)%nat ∈ older_from (n + 1) l)); [done|].
      replace (n + S k)%nat with (n + 1 + k)%nat by lia. rewrite elem_of_app. split; [|by right]. intros [H|H]; [|done].
      destruct (older i); [apply list_elem_of_singleton in H; lia|by apply elem_of_nil in H].
  - assert (share_at u g i = None /\ older i = false) as [-> ->] by (by destruct i). unfold option_list. cbn [option_rect app length]. rewrite Nat.add_0_r. apply IH.
Qed.

(** C35. The command line gives a guest whose exports it can tell apart and use, and the
    exports it asked for. Reading the arguments always ends. An accepted line is a
    sequence of options, and the boot has exactly its exports, in order: each [--share-ro]
    and [--share-rw] is a share of that mode, of the directory its path resolves to, with
    its tag and the cache policy behind it, auto when there is none, and its identity is
    the last [--fs-uid] and [--fs-gid] anywhere on the line, 0 when there is none; each
    [--fs] with a path is a share with the tag, mode, cache policy and identity that its
    own fields say, and each other [--fs] the socket export it describes. The exports have
    distinct tags of 1 to 36 bytes without NUL, every share is a directory, every socket
    export is valid, and there are at most four disks, with distinct serials. *)
Theorem boot_exports_checked creates stop_set read_file args :
  match boot_guest canonicalize is_dir creates stop_set read_file args with
  | inr e => e <> OutOfFuel
  | inl cfg =>
      NoDup ((s_tag <$> c_fs_shares cfg) ++ (tag <$> c_fs cfg)) /\
      (forall t, t ∈ (s_tag <$> c_fs_shares cfg) ++ (tag <$> c_fs cfg) -> 0 < zlen t <= MAX_TAG_LEN /\ 0 ∉ t) /\
      (forall s, s ∈ c_fs_shares cfg -> exists p, canonicalize p = Some (path s) /\ is_dir (path s) = true) /\
      (forall f, f ∈ c_fs cfg -> validate f = None) /\
      zlen (c_disks cfg) <= MAX_DISKS /\ NoDup (serials (c_disks cfg)) /\
      exists items, args = items ≫= words /\ line_ok items /\
        c_fs_shares cfg = omap (share_at (last_of uid_at items) (last_of gid_at items)) items /\
        c_fs cfg = omap socket_at items
  end.
Proof.
  unfold boot_guest. pose proof (boot_args_ok args) as Ho. destruct (boot_args canonicalize is_dir args) as [o|e] eqn:Ea; [|exact Ho].
  destruct (_ && _); [done|]. destruct (match o_trace_io o with Some _ => _ | None => _ end); [done|]. destruct (o_kernel o); [|done]. destruct stop_set; [|done].
  cbn [negb]. destruct (check_disks (o_disks o)) eqn:Ed; [done|]. destruct (read_file l) as [k|]; [|done].
  destruct (match o_initramfs o with Some _ => _ | None => _ end) as [ir|]; [|done]. cbn [c_fs_shares c_fs c_disks].
  destruct Ho as [H1 H2 H3 H4 H5]. destruct (legacy_ids_same o) as [Ht Hp]. rewrite Ht. split; [done|].
  split; [intros t Hin; rewrite Forall_forall in H2; by apply tag_ok_spec, H2|].
  split. { intros s Hs. assert (path s ∈ path <$> o_fs_shares o) as Hs' by (rewrite <-Hp; by apply list_elem_of_fmap_2). apply list_elem_of_fmap in Hs' as (s' & -> & Hs').
    rewrite Forall_forall in H3. by apply H3. }
  split; [by apply Forall_forall|]. unfold check_disks in Ed. destruct (MAX_DISKS <? zlen (o_disks o)) eqn:En; [done|]. apply Z.ltb_ge in En. split; [done|].
  destruct (forallb _ (o_disks o)); [|done]. cbn [negb] in Ed. apply same_serial_spec in Ed as [Ed _]. split; [done|].
  destruct (boot_loop_reads _ _ _ _ Ea) as (items & -> & Hok & E1 & E2 & E3 & E4 & E5). exists items.
  split; [done|]. split; [exact Hok|]. split; [|exact E5].
  apply list_eq. intros i. rewrite legacy_ids_spec, E1, E2, E3, E4, (older_ids _ _ items 0). cbn [app o_fs_shares o_legacy_shares opts_default length Nat.add]. done.
Qed.

End Shown.

(** A size of RAM past 2^44 MiB loses its high bits: a boot that asks for 2^44 + 512 MiB is
    accepted with 512 MiB. *)
Theorem mem_mib_drops_bits : exists args cfg, boot_guest Some (fun _ => true) (fun _ => true) true Some args = inl cfg /\
  lit "17592186044928" ∈ args /\ mem_bytes cfg = 512 * 2 ^ 20.
Proof.
  exists (lit <$> ["--kernel"; "Image"; "--mem-mib"; "17592186044928"]%string). eexists. split; [vm_compute; reflexivity|]. split; [|vm_compute; reflexivity].
  apply list_elem_of_fmap_2. right. right. right. left.
Qed.

(** A line with an older share before its identity, and one with its own. *)
Example boot_line : forall cfg, boot_guest Some (fun _ => true) (fun _ => true) true Some
    (lit <$> ["--kernel"; "Image"; "--share-ro"; "/a"; "one"; "cache=none"; "--fs"; "tag=two,path=/b,uid=7"; "--fs-uid"; "5"; "--disk"; "d.img"]%string) = inl cfg ->
  c_fs_shares cfg = [mkShare (lit "/a") (lit "one") ReadOnly CacheNone 5 0; mkShare (lit "/b") (lit "two") ReadWrite CacheAuto 7 0].
Proof. intros cfg H. vm_compute in H. injection H as <-. vm_compute. reflexivity. Qed.
