(* ===== verification/Plugins.v ===== *)
(** * The built-in plugins ([src/plugin/builtin.rs], [write_to] of [src/memory/guest.rs])

    A chain runs several plugins as one. The memory dump writes guest RAM to a file while
    the guest is paused. The trace logs every request a device serves through a buffered
    writer, which the next safe point flushes; the device threads and the safe point are
    a transition system. A write to a file may fail after any number of bytes. *)

From stdpp Require Import strings.
From S2P Require Import Prelude Memory FsIo Config.
Local Open Scope Z_scope.

(** ** Chain *)

Section Chain.
(** The plugins' own hooks: an attach that may fail, and one that acts. *)
Context {P W : Type} (attach : P -> W -> W * bool) (hook : P -> W -> W).

Fixpoint chain_attach (l : list P) (w : W) : W * bool :=
  match l with
  | [] => (w, true)
  | p :: l => let '(w, ok) := attach p w in if ok then chain_attach l w else (w, false)
  end.
Fixpoint chain_hook (l : list P) (w : W) : W := match l with [] => w | p :: l => chain_hook l (hook p w) end.
End Chain.

(** ** Memory dump *)

Definition SLICE : Z := 2 ^ 20.

(** A file being written, with what each [write_all] on it answers: [None] that it took
    the bytes, [Some n] that it failed after [n] of them; a script that ran out takes all. *)
Record Out := mkOut { out : list Z; answers : list (option nat) }.
Definition write_all (data : list Z) (f : Out) : Out * bool :=
  match answers f with
  | Some n :: a => (mkOut (out f ++ take n data) a, false)
  | a => (mkOut (out f ++ data) (tail a), true)
  end.

Definition write_to (m : GuestRam) (g len : Z) (f : Out) : Out * bool :=
  match read m g len with None => (f, false) | Some data => write_all data f end.

(** The inner loop over one region; a turn writes a slice. *)
Fixpoint dump_region (fuel : nat) (m : GuestRam) (r : RamRegion) (offset written : Z) (f : Out) : Out * option Z :=
  if offset <? rsize r then
    match fuel with
    | O => (f, None)
    | S fuel =>
        let len := Z.min (rsize r - offset) SLICE in
        let '(f, ok) := write_to m (gpa r + offset) len f in
        if ok then dump_region fuel m r (offset + len) (written + len) f else (f, None)
    end
  else (f, Some written).
Definition region_fuel (r : RamRegion) : nat := Z.to_nat (rsize r / SLICE + 1).

Fixpoint dump_regions (m : GuestRam) (l : list RamRegion) (written : Z) (f : Out) : Out * option Z :=
  match l with
  | [] => (f, Some written)
  | r :: l =>
      match dump_region (region_fuel r) m r 0 written f with
      | (f, None) => (f, None)
      | (f, Some written) => dump_regions m l written f
      end
  end.

Record MemoryDump := mkDump { pending : bool; after : option Z; view : bool }.
Definition dump_new : MemoryDump := mkDump false None false.
Definition dump_after (secs : Z) (d : MemoryDump) : MemoryDump := mkDump (pending d) (Some secs) (view d).

(** What the plugin does to the guest and its file, in order. *)
Inductive Call := Pause | Create | Resume.

Definition write_dump (d : MemoryDump) (creates : bool) (a : list (option nat)) (m : GuestRam) : option Out * option Z :=
  if negb (view d) then (None, None)
  else if negb creates then (None, None)
  else let '(f, n) := dump_regions m (mapped m) 0 (mkOut [] a) in (Some f, n).

(** [on_attach]: [maps] is whether the view could be mapped, [spawned] whether the timer
    thread started. *)
Definition dump_attach (maps spawned : bool) (d : MemoryDump) : MemoryDump * bool :=
  if negb maps then (d, false)
  else
    let d := mkDump (pending d) (after d) true in
    match after d with None => (d, true) | Some _ => (d, spawned) end.

(** The timer: it sets the flag and then kicks, unless the stop came first. *)
Definition dump_timer (slept : bool) (d : MemoryDump) : MemoryDump * bool := if slept then (mkDump true (after d) (view d), true) else (d, false).
Definition dump_request (d : MemoryDump) : MemoryDump := mkDump true (after d) (view d).

(** [on_safepoint]: the file that was created, the count, and the calls made. *)
Definition dump_safepoint (d : MemoryDump) (pauses creates : bool) (a : list (option nat)) (m : GuestRam) : MemoryDump * option Out * option Z * list Call :=
  if negb (pending d) then (d, None, None, [])
  else
    let d := mkDump false (after d) (view d) in
    if negb pauses then (d, None, None, [Pause])
    else let '(f, n) := write_dump d creates a m in (d, f, n, [Pause] ++ (match f with Some _ => [Create] | None => [] end) ++ [Resume]).

(** ** Trace *)

(** [{:#x}]. *)
Definition hex (v : Z) : list Z := lit "0x" ++ lower_hex v.

Definition block_line (sector length disk_id : Z) (write : bool) : list Z :=
  lit "blk " ++ (if write then lit "w" else lit "r") ++ lit " disk=" ++ hex disk_id ++ lit " sector=" ++ decimal sector ++ lit " len=" ++ decimal length ++ [10].
Definition net_line (frame : list Z) (egress : bool) : list Z :=
  lit "net " ++ (if egress then lit "tx" else lit "rx") ++ lit " len=" ++ decimal (zlen frame) ++ [10].

(** A device thread in the sink has written its line or is outside; the safe point has
    taken the flag or not. [t_log] is every line handed to the writer, and [t_failed]
    whether a write ever failed. *)
Inductive SinkPc := SIdle | SWrote.
#[export] Instance SinkPc_eq : EqDecision SinkPc.
Proof. solve_decision. Defined.

Record IoTrace := mkTrace { t_file : list Z; t_buf : list Z; dirty : bool; sinks : list SinkPc; swapped : bool; t_log : list Z; t_failed : bool }.
Definition trace_new (threads : nat) : IoTrace := mkTrace [] [] false (replicate threads SIdle) false [] false.

(** The writer takes a line into its buffer and moves [drained] bytes to the file; a
    failing one keeps only the first [kept] bytes of the line. *)
Definition sink_write (i : nat) (line : list Z) (drained : nat) (t : IoTrace) : IoTrace :=
  let buf := t_buf t ++ line in
  mkTrace (t_file t ++ take drained buf) (drop drained buf) (dirty t) (<[i := SWrote]> (sinks t)) (swapped t) (t_log t ++ line) (t_failed t).
Definition sink_write_fails (i : nat) (line : list Z) (kept drained : nat) (t : IoTrace) : IoTrace :=
  let buf := t_buf t ++ take kept line in
  mkTrace (t_file t ++ take drained buf) (drop drained buf) (dirty t) (<[i := SWrote]> (sinks t)) (swapped t) (t_log t ++ line) true.
Definition sink_store (i : nat) (t : IoTrace) : IoTrace :=
  mkTrace (t_file t) (t_buf t) true (<[i := SIdle]> (sinks t)) (swapped t) (t_log t) (t_failed t).

(** [IoTrace::on_safepoint], in its two steps. *)
Definition trace_swap (t : IoTrace) : IoTrace := mkTrace (t_file t) (t_buf t) false (sinks t) (dirty t) (t_log t) (t_failed t).
Definition trace_flush (fails_after : option nat) (t : IoTrace) : IoTrace :=
  match fails_after with
  | None => mkTrace (t_file t ++ t_buf t) [] (dirty t) (sinks t) false (t_log t) (t_failed t)
  | Some n => mkTrace (t_file t ++ take n (t_buf t)) (drop n (t_buf t)) (dirty t) (sinks t) false (t_log t) true
  end.

Inductive tstep : IoTrace -> IoTrace -> Prop :=
  | T_write t i line n : sinks t !! i = Some SIdle -> tstep t (sink_write i line n t)
  | T_fails t i line k n : sinks t !! i = Some SIdle -> tstep t (sink_write_fails i line k n t)
  | T_store t i : sinks t !! i = Some SWrote -> tstep t (sink_store i t)
  | T_swap t : swapped t = false -> tstep t (trace_swap t)
  | T_flush t f : swapped t = true -> tstep t (trace_flush f t).

(** * What they show *)

(** A chain attaches its plugins in order up to the first that fails, and calls a hook of
    all of them in order. *)
Lemma chain_attach_prefix {P W} (attach : P -> W -> W * bool) l w w' ok : chain_attach attach l w = (w', ok) ->
  exists done rest, l = done ++ rest /\ w' = foldl (fun w p => (attach p w).1) w done /\ (ok = true -> rest = []).
Proof.
  revert w. induction l as [|p l IH]; intros w; cbn; [intros [= <- <-]; by exists [], []|]. destruct (attach p w) as [w1 b] eqn:E. destruct b.
  - intros (d & r & -> & -> & Hr)%IH. exists (p :: d), r. cbn. by rewrite E.
  - intros [= <- <-]. exists [p], l. cbn. by rewrite E.
Qed.

(** *** The dump *)

Lemma obj_bytes_app o p a b : 0 <= a -> 0 <= b -> obj_bytes o p a ++ obj_bytes o (p + a) b = obj_bytes o p (a + b).
Proof.
  intros Ha Hb. unfold obj_bytes. rewrite (seqZ_app 0 a b) by lia. rewrite fmap_app. f_equal. rewrite (Z.add_comm 0 a), <-(fmap_add_seqZ a 0 b), <-list_fmap_compose.
  apply list_fmap_ext. intros i x _. cbn. f_equal. lia.
Qed.

Lemma write_to_region m r i n f f' ok : ram_ok m -> r ∈ mapped m -> 0 <= i -> 0 < n -> i + n <= rsize r -> write_to m (gpa r + i) n f = (f', ok) ->
  (ok = true -> out f' = out f ++ obj_bytes (object m) (file_offset r + i) n) /\ (Forall (fun a => a = None) (answers f) -> ok = true /\ Forall (fun a => a = None) (answers f')).
Proof.
  intros Hok Hr Hi Hn Hin. unfold write_to. rewrite (read_region m r i n) by done. unfold region_bytes. rewrite obj_bytes_sub by lia. replace (i + n - i) with n by lia.
  unfold write_all. destruct (answers f) as [|[k|] a]; intros [= <- <-]; cbn.
  - done.
  - split; [done|]. by intros [? _]%Forall_cons.
  - split; [done|]. by intros [_ ?]%Forall_cons.
Qed.

Lemma dump_region_spec m r : ram_ok m -> r ∈ mapped m -> forall fuel offset written f f' n,
  0 <= offset <= rsize r -> rsize r - offset <= Z.of_nat fuel * SLICE -> dump_region fuel m r offset written f = (f', n) ->
  (forall k, n = Some k -> out f' = out f ++ obj_bytes (object m) (file_offset r + offset) (rsize r - offset) /\ k = written + (rsize r - offset)) /\
  (Forall (fun a => a = None) (answers f) -> is_Some n /\ Forall (fun a => a = None) (answers f')).
Proof.
  intros Hok Hr. induction fuel as [|fuel IH]; intros offset written f f' n Ho Hf; cbn [dump_region]; destruct (Z.ltb_spec offset (rsize r)) as [Hlt|Hge].
  - lia.
  - intros [= <- <-]. replace (rsize r - offset) with 0 by lia. split; [|done]. intros k [= <-]. rewrite app_nil_r. split; [done|lia].
  - set (len := Z.min (rsize r - offset) SLICE). assert (0 < len <= rsize r - offset) as Hlen by (unfold len, SLICE in *; lia).
    destruct (write_to m (gpa r + offset) len f) as [f1 ok] eqn:Ew. apply write_to_region in Ew as [W1 W2]; [|done|done|lia..]. destruct ok.
    + intros H. apply IH in H as [I1 I2]; [|lia|unfold len, SLICE in *; lia]. rewrite W1 in I1 by done. split.
      * intros k [-> ->]%I1. rewrite <-app_assoc. split; [|lia]. f_equal. replace (rsize r - offset) with (len + (rsize r - (offset + len))) by lia.
        rewrite <-obj_bytes_app by lia. by rewrite Z.add_assoc.
      * intros [_ Ha]%W2. by apply I2.
    + intros [= <- <-]. split; [done|]. by intros [? _]%W2.
  - intros [= <- <-]. replace (rsize r - offset) with 0 by lia. split; [|done]. intros k [= <-]. rewrite app_nil_r. split; [done|lia].
Qed.

Definition ram_image (m : GuestRam) (l : list RamRegion) : list Z := l ≫= region_bytes (object m).
Definition ram_total (l : list RamRegion) : Z := foldr (fun r n => rsize r + n) 0 l.

Lemma dump_regions_spec m l : ram_ok m -> (forall r, r ∈ l -> r ∈ mapped m) -> forall written f f' n, dump_regions m l written f = (f', n) ->
  (forall k, n = Some k -> out f' = out f ++ ram_image m l /\ k = written + ram_total l) /\ (Forall (fun a => a = None) (answers f) -> is_Some n).
Proof.
  intros Hok. induction l as [|r l IH]; intros Hl written f f' n; cbn [dump_regions].
  { intros [= <- <-]. split; [|done]. intros k [= <-]. cbn. rewrite app_nil_r. split; [done|lia]. }
  pose proof (ok_regions m Hok) as HR. rewrite Forall_forall in HR. destruct (HR r (Hl r ltac:(by left))) as (Hg & Hs & _).
  destruct (dump_region (region_fuel r) m r 0 written f) as [f1 n1] eqn:E. apply dump_region_spec in E as [D1 D2];
    [|done|apply Hl; by left|lia|unfold region_fuel, SLICE; rewrite Z2Nat.id by (pose proof (Z.div_pos (rsize r) (2 ^ 20)); lia); pose proof (Z.mul_succ_div_gt (rsize r) (2 ^ 20)); lia].
  destruct n1 as [k1|].
  - destruct (D1 k1 eq_refl) as [Ho ->]. intros H. apply IH in H as [I1 I2]; [|intros x Hx; apply Hl; by right]. split.
    + intros k [-> ->]%I1. rewrite Ho, <-app_assoc. rewrite Z.add_0_r, Z.sub_0_r. split; [done|]. unfold ram_total. cbn [foldr]. lia.
    + intros Ha. apply I2. by apply D2.
  - intros [= <- <-]. split; [done|]. by intros [[? ?] _]%D2.
Qed.

(** A dump is the RAM of a paused guest, or reports that it failed. A request is consumed
    by one safe point. Without a pause no file is touched; after one the guest is resumed
    exactly once, however the dump went. A dump that reports a count wrote every region,
    in address order and nothing else, and one whose file takes every write succeeds. *)
Theorem dump_is_paused_ram d pauses creates a m : ram_ok m -> pending d = true ->
  let '(d', f, n, calls) := dump_safepoint d pauses creates a m in
  pending d' = false /\
  calls = (if pauses then if view d && creates then [Pause; Create; Resume] else [Pause; Resume] else [Pause]) /\
  (pauses = false -> f = None) /\
  (forall k, n = Some k -> out <$> f = Some (ram_image m (mapped m)) /\ k = ram_total (mapped m)) /\
  (pauses && view d && creates = true -> Forall (fun x => x = None) a -> is_Some n).
Proof.
  intros Hok Hp. unfold dump_safepoint. rewrite Hp. cbn [negb]. destruct pauses; cbn [negb]; [|by split_and!].
  unfold write_dump. cbn [view]. destruct (view d); cbn [negb andb]; [|by split_and!]. destruct creates; cbn [negb]; [|by split_and!].
  destruct (dump_regions m (mapped m) 0 (mkOut [] a)) as [f n] eqn:E. apply dump_regions_spec in E as [D1 D2]; [|done|done]. split_and!; try done.
  intros k [Ho ->]%D1. cbn. by rewrite Ho.
Qed.

(** *** The trace *)

Definition trace_ok (t : IoTrace) : Prop :=
  t_failed t = false -> t_file t ++ t_buf t = t_log t /\ (t_buf t <> [] -> dirty t = true \/ swapped t = true \/ exists i, sinks t !! i = Some SWrote).

Lemma trace_step_ok t t' : tstep t t' -> trace_ok t -> trace_ok t'.
Proof.
  intros Hs Hok. destruct Hs as [t i line n Hi|t i line k n Hi|t i Hi|t Hsw|t f Hsw]; intros Hf; try done; cbn in Hf |- *.
  - destruct (Hok Hf) as [Hl _]. rewrite <-app_assoc, take_drop, app_assoc, Hl. split; [done|]. intros _. right. right. exists i. apply list_lookup_insert_eq. by eapply lookup_lt_Some.
  - destruct (Hok Hf) as [Hl _]. split; [done|]. by left.
  - destruct (Hok Hf) as [Hl Hb]. split; [done|]. intros H. destruct (Hb H) as [Hd|[Hd|Hd]]; [by right; left|congruence|by right; right].
  - destruct f; [done|]. cbn in *. destruct (Hok Hf) as [Hl _]. rewrite app_nil_r. by split.
Qed.

(** The trace file is a prefix of what the devices logged, and loses nothing as long as no
    write fails: whenever no device is inside its hook and no safe point is under way, the
    next safe point leaves every line in the file, in the order they were written. *)
Theorem trace_flushed threads t : rtc tstep (trace_new threads) t -> t_failed t = false -> swapped t = false -> Forall (fun s => s = SIdle) (sinks t) ->
  t_file t `prefix_of` t_log t /\
  let t1 := trace_swap t in t_file (if swapped t1 then trace_flush None t1 else t1) = t_log t.
Proof.
  intros Hr Hf Hs Hi. assert (trace_ok t) as Hok.
  { assert (trace_ok (trace_new threads)) as H0 by done. revert Hr H0. generalize (trace_new threads). intros y Hr. clear -Hr. induction Hr as [|a b c Hab _ IH]; [done|]. intros Ha. by eapply IH, trace_step_ok. }
  destruct (Hok Hf) as [Hl Hb]. split; [exists (t_buf t); by rewrite Hl|]. cbn. destruct (dirty t) eqn:Hd; [done|]. rewrite <-Hl.
  destruct (t_buf t) as [|b buf]; [by rewrite app_nil_r|]. destruct Hb as [?|[?|[i Hw]]]; [done|done|congruence|].
  rewrite Forall_lookup in Hi. by specialize (Hi i _ Hw).
Qed.
