(* ===== verification/Fdt.v ===== *)
(** * The device tree of the aarch64 machine ([src/arch/aarch64/fdt.rs])

    What the guest is told about its machine: the calls [build] makes on the writer, in
    their order. The crate [vm-fdt] turns them into bytes; here a reader with the writer's
    rules (one root, properties before the children of a node, every node closed, no NUL
    in a string) turns them into the tree they describe. *)

From stdpp Require Import strings.
From S2P Require Import Prelude Config Vcpus Guest Aarch64.
Local Open Scope Z_scope.

Definition PHANDLE_GIC : Z := 1.
Definition PHANDLE_CLK : Z := 2.
Definition IRQ_SPI : Z := 0.
Definition IRQ_PPI : Z := 1.
Definition IRQ_LEVEL_HIGH : Z := 4.
Definition RNG_SEED_LEN : Z := 64.

Record VirtioDevices := mkVirtio { blk_count : nat; v_net : bool; v_vsock : bool; fs_count : nat }.

Inductive Value := VNull | VU32 (v : Z) | VU64 (v : Z) | VArray32 (l : list Z) | VArray64 (l : list Z) | VString (s : list Z) | VStrings (l : list (list Z)) | VBytes (l : list Z).
Inductive Call := BeginNode (name : list Z) | Property (name : list Z) (v : Value) | EndNode.

(** ** The calls *)

Definition prop (name : string) (v : Value) : list Call := [Property (lit name) v].
Definition str (s : string) : Value := VString (lit s).
Definition strs (l : list string) : Value := VStrings (lit <$> l).
(** [begin_node], what is written inside, [end_node]. *)
Definition node (name : list Z) (inside : list Call) : list Call := BeginNode name :: inside ++ [EndNode].
(** A name with its unit address. *)
Definition at_ (name : string) (a : Z) : list Z := lit name ++ lower_hex a.

Definition chosen_node (l : GuestLayout) (bootargs rng_seed : list Z) (kaslr_seed : Z) : list Call :=
  node (lit "chosen")
    (prop "bootargs" (VString bootargs) ++ prop "stdout-path" (VString (at_ "/pl011@" UART_BASE))
     ++ (if negb (initrd_size l =? 0) then prop "linux,initrd-start" (VU64 (initrd_addr l)) ++ prop "linux,initrd-end" (VU64 (initrd_end l)) else [])
     ++ prop "rng-seed" (VBytes rng_seed) ++ prop "kaslr-seed" (VU64 kaslr_seed)).

Definition memory_node (l : GuestLayout) : list Call :=
  node (at_ "memory@" (ram_base l)) (prop "device_type" (str "memory") ++ prop "reg" (VArray64 [ram_base l; ram_size l])).

Definition psci_node : list Call :=
  node (lit "psci") (prop "compatible" (strs ["arm,psci-1.0"; "arm,psci-0.2"]%string) ++ prop "method" (str "hvc")).

Definition cpu_node (num_cpus cpu : Z) : list Call :=
  let affinity := mpidr_affinity cpu in
  node (at_ "cpu@" affinity)
    (prop "device_type" (str "cpu") ++ prop "compatible" (str "arm,arm-v8") ++ prop "reg" (VU32 affinity)
     ++ (if 1 <? num_cpus then prop "enable-method" (str "psci") else [])).
Definition cpus_node (num_cpus : Z) : list Call :=
  node (lit "cpus") (prop "#address-cells" (VU32 1) ++ prop "#size-cells" (VU32 0) ++ (seqZ 0 num_cpus ≫= cpu_node num_cpus)).

Definition timer_node : list Call :=
  node (lit "timer")
    (prop "compatible" (str "arm,armv8-timer")
     ++ prop "interrupts" (VArray32 [IRQ_PPI; 13; IRQ_LEVEL_HIGH; IRQ_PPI; 14; IRQ_LEVEL_HIGH; IRQ_PPI; 11; IRQ_LEVEL_HIGH; IRQ_PPI; 10; IRQ_LEVEL_HIGH])
     ++ prop "always-on" VNull).

Definition intc_node (g : GicLayout) : list Call :=
  node (at_ "intc@" (gicd_base g))
    (prop "compatible" (match version g with V3 => str "arm,gic-v3" | V2 => str "arm,cortex-a15-gic" end)
     ++ prop "interrupt-controller" VNull ++ prop "#interrupt-cells" (VU32 3) ++ prop "#address-cells" (VU32 2) ++ prop "#size-cells" (VU32 2)
     ++ prop "reg" (VArray64 [gicd_base g; gicd_size g; gicr_base g; gicr_size g]) ++ prop "phandle" (VU32 PHANDLE_GIC)).

Definition clock_node : list Call :=
  node (lit "apb-pclk")
    (prop "compatible" (str "fixed-clock") ++ prop "#clock-cells" (VU32 0) ++ prop "clock-frequency" (VU32 24000000)
     ++ prop "clock-output-names" (str "clk24mhz") ++ prop "phandle" (VU32 PHANDLE_CLK)).

Definition uart_node : list Call :=
  node (at_ "pl011@" UART_BASE)
    (prop "compatible" (strs ["arm,pl011"; "arm,primecell"]%string) ++ prop "reg" (VArray64 [UART_BASE; UART_SIZE])
     ++ prop "interrupts" (VArray32 [IRQ_SPI; UART_SPI; IRQ_LEVEL_HIGH]) ++ prop "clocks" (VArray32 [PHANDLE_CLK; PHANDLE_CLK])
     ++ prop "clock-names" (strs ["uartclk"; "apb_pclk"]%string)).

Definition rtc_node : list Call :=
  node (at_ "pl031@" RTC_BASE)
    (prop "compatible" (strs ["arm,pl031"; "arm,primecell"]%string) ++ prop "reg" (VArray64 [RTC_BASE; RTC_SIZE])
     ++ prop "clocks" (VArray32 [PHANDLE_CLK]) ++ prop "clock-names" (strs ["apb_pclk"]%string)).

Definition virtio_node (base spi : Z) : list Call :=
  node (at_ "virtio_mmio@" base)
    (prop "compatible" (str "virtio,mmio") ++ prop "reg" (VArray64 [base; VIRTIO_SIZE]) ++ prop "interrupts" (VArray32 [IRQ_SPI; spi; IRQ_LEVEL_HIGH])).

(** The loop over the devices of a kind: those the layout has a place for. *)
Definition virtio_nodes (base spi : Z -> option Z) (count : nat) : list Call :=
  seq 0 count ≫= (fun i => match base (Z.of_nat i), spi (Z.of_nat i) with Some b, Some s => virtio_node b s | _, _ => [] end).

(** [None] is the writer's refusal of a command line with a NUL in it. *)
Definition fdt_build (l : GuestLayout) (g : GicLayout) (num_cpus : Z) (bootargs : list Z) (d : VirtioDevices) (rng_seed : list Z) (kaslr_seed : Z) : option (list Call) :=
  if bool_decide (0 ∈ bootargs) then None
  else Some (node []
    (prop "#address-cells" (VU32 2) ++ prop "#size-cells" (VU32 2) ++ prop "compatible" (str "linux,dummy-virt") ++ prop "interrupt-parent" (VU32 PHANDLE_GIC)
     ++ chosen_node l bootargs rng_seed kaslr_seed ++ memory_node l ++ psci_node ++ cpus_node num_cpus ++ timer_node ++ intc_node g ++ clock_node ++ uart_node ++ rtc_node
     ++ virtio_nodes virtio_blk_base virtio_blk_spi (blk_count d)
     ++ (if v_net d then virtio_node VIRTIO_NET_BASE VIRTIO_NET_SPI else [])
     ++ (if v_vsock d then virtio_node VIRTIO_VSOCK_BASE VIRTIO_VSOCK_SPI else [])
     ++ virtio_nodes virtio_fs_base virtio_fs_spi (fs_count d))).

(** * The tree the calls describe *)

Inductive Tree := Node (name : list Z) (props : list (list Z * Value)) (children : list Tree).
Definition t_name (t : Tree) : list Z := let '(Node n _ _) := t in n.
Definition t_props (t : Tree) : list (list Z * Value) := let '(Node _ p _) := t in p.
Definition t_children (t : Tree) : list Tree := let '(Node _ _ c) := t in c.

(** The nodes that are open, the innermost first, each with what it holds so far; and the
    trees that are closed at the top. *)
Record Reader := mkReader { opened : list (list Z * list (list Z * Value) * list Tree); closed_ : list Tree }.

Definition read_call (r : Reader) (c : Call) : option Reader :=
  match c, opened r with
  | BeginNode n, o => Some (mkReader ((n, [], []) :: o) (closed_ r))
  | Property n v, (name, props, []) :: o => Some (mkReader ((name, props ++ [(n, v)], []) :: o) (closed_ r))
  | EndNode, (name, props, kids) :: (name', props', kids') :: o => Some (mkReader ((name', props', kids' ++ [Node name props kids]) :: o) (closed_ r))
  | EndNode, [(name, props, kids)] => Some (mkReader [] (closed_ r ++ [Node name props kids]))
  | _, _ => None
  end.
Definition read_calls (r : Reader) (l : list Call) : option Reader := foldl (fun r c => r ← r; read_call r c) (Some r) l.
Definition read_tree (l : list Call) : option Tree :=
  match read_calls (mkReader [] []) l with Some (mkReader [] [t]) => Some t | _ => None end.

(** ** Looking things up in it *)

Definition get_prop (t : Tree) (name : string) : option Value := snd <$> List.find (fun p => bool_decide (p.1 = lit name)) (t_props t).
Definition child (t : Tree) (name : list Z) : option Tree := List.find (fun c => bool_decide (t_name c = name)) (t_children t).
(** The address, the size and the interrupt of a virtio-mmio node. *)
Definition virtio_window (t : Tree) : option (Z * Z * Z) :=
  match get_prop t "compatible", get_prop t "reg", get_prop t "interrupts" with
  | Some (VString c), Some (VArray64 [base; size]), Some (VArray32 [0; spi; _]) => if bool_decide (c = lit "virtio,mmio") then Some (base, size, spi) else None
  | _, _, _ => None
  end.
Definition virtio_windows (t : Tree) : list (Z * Z * Z) := omap virtio_window (t_children t).
Definition cpu_reg (t : Tree) : option Z := match get_prop t "reg" with Some (VU32 a) => Some a | _ => None end.

(** * What it shows *)

(** [l] writes the properties [ps] and then the nodes [ts] into the node that is open. *)
Definition writes (l : list Call) (ps : list (list Z * Value)) (ts : list Tree) : Prop := forall n props kids o c, ps = [] \/ kids = [] ->
  read_calls (mkReader ((n, props, kids) :: o) c) l = Some (mkReader ((n, props ++ ps, kids ++ ts) :: o) c).

Lemma read_calls_app r l k : read_calls r (l ++ k) = (r' ← read_calls r l; read_calls r' k).
Proof.
  unfold read_calls. rewrite foldl_app. destruct (foldl _ (Some r) l); [done|]. cbn. induction k as [|x k IH]; [done|]. exact IH.
Qed.

Lemma writes_nil : writes [] [] [].
Proof. intros n props kids o c _. by rewrite !app_nil_r. Qed.

Lemma writes_prop n v : writes (prop n v) [(lit n, v)] [].
Proof. intros m props kids o c [?| ->]; [done|]. by rewrite app_nil_r. Qed.

Lemma writes_app l1 l2 ps1 ps2 ts1 ts2 : writes l1 ps1 ts1 -> writes l2 ps2 ts2 -> ps2 = [] \/ ts1 = [] -> writes (l1 ++ l2) (ps1 ++ ps2) (ts1 ++ ts2).
Proof.
  intros H1 H2 H n props kids o c Hk. rewrite read_calls_app, H1; [|destruct Hk as [E| ->]; [left; by apply app_eq_nil in E as [-> _]|by right]]. cbn [mbind option_bind].
  rewrite H2; [by rewrite <-!app_assoc|]. destruct H as [->| ->]; [by left|]. destruct Hk as [E| ->]; [left; by apply app_eq_nil in E as [_ ->]|by right].
Qed.

(** A property before the rest of a node. *)
Lemma writes_prop_app n v l ps ts : writes l ps ts -> writes (prop n v ++ l) ((lit n, v) :: ps) ts.
Proof. intros H. apply (writes_app _ _ [_] _ []); [apply writes_prop|done|by right]. Qed.

Lemma writes_nodes_app l1 l2 ts1 ts2 : writes l1 [] ts1 -> writes l2 [] ts2 -> writes (l1 ++ l2) [] (ts1 ++ ts2).
Proof. intros H1 H2. apply (writes_app _ _ [] []); [done|done|by left]. Qed.

Lemma writes_node name l ps ts : writes l ps ts -> writes (node name l) [] [Node name ps ts].
Proof.
  intros H n props kids o c _. unfold node. change (BeginNode name :: l ++ [EndNode]) with ([BeginNode name] ++ l ++ [EndNode]).
  rewrite read_calls_app. change (read_calls _ [BeginNode name]) with (Some (mkReader ((name, [], []) :: (n, props, kids) :: o) c)). cbn [mbind option_bind].
  rewrite read_calls_app, H by (by right). cbn. by rewrite app_nil_r.
Qed.

Lemma writes_bind {A} (f : A -> list Call) (g : A -> list Tree) l : (forall x, x ∈ l -> writes (f x) [] (g x)) -> writes (l ≫= f) [] (l ≫= g).
Proof.
  induction l as [|x l IH]; intros H; cbn; [apply writes_nil|]. apply writes_nodes_app; [apply H; by left|]. apply IH. intros y Hy. apply H. by right.
Qed.

Lemma read_root l ps ts : writes l ps ts -> read_tree (node [] l) = Some (Node [] ps ts).
Proof.
  intros H. unfold read_tree, node. change (BeginNode [] :: l ++ [EndNode]) with ([BeginNode []] ++ l ++ [EndNode]). rewrite read_calls_app.
  change (read_calls _ [BeginNode []]) with (Some (mkReader [([], [], [])] [])). cbn [mbind option_bind]. rewrite read_calls_app, H by (by right). done.
Qed.

(** A node of properties only, one after the other. *)
Ltac leaf := apply writes_node; repeat apply writes_prop_app; first [apply writes_nil|apply writes_prop].

Definition cpu_tree (n cpu : Z) : Tree :=
  Node (at_ "cpu@" (mpidr_affinity cpu))
    ([(lit "device_type", str "cpu"); (lit "compatible", str "arm,arm-v8"); (lit "reg", VU32 (mpidr_affinity cpu))]
     ++ if 1 <? n then [(lit "enable-method", str "psci")] else []) [].
Definition virtio_tree (b s : Z) : Tree :=
  Node (at_ "virtio_mmio@" b)
    [(lit "compatible", str "virtio,mmio"); (lit "reg", VArray64 [b; VIRTIO_SIZE]); (lit "interrupts", VArray32 [IRQ_SPI; s; IRQ_LEVEL_HIGH])] [].

Lemma writes_cpu n cpu : writes (cpu_node n cpu) [] [cpu_tree n cpu].
Proof.
  unfold cpu_node, cpu_tree. cbn zeta. apply writes_node. do 3 apply writes_prop_app. destruct (1 <? n); [apply writes_prop|apply writes_nil].
Qed.

Lemma writes_virtio b s : writes (virtio_node b s) [] [virtio_tree b s].
Proof. unfold virtio_node, virtio_tree. leaf. Qed.

Definition virtio_trees (base spi : Z -> option Z) (count : nat) : list Tree :=
  seq 0 count ≫= (fun i => match base (Z.of_nat i), spi (Z.of_nat i) with Some b, Some s => [virtio_tree b s] | _, _ => [] end).

Lemma writes_virtio_nodes base spi count : writes (virtio_nodes base spi count) [] (virtio_trees base spi count).
Proof. apply writes_bind. intros i _. destruct (base (Z.of_nat i)), (spi (Z.of_nat i)); try apply writes_nil. apply writes_virtio. Qed.

(** The nodes of every machine, before the virtio devices. *)
Definition chosen_props (l : GuestLayout) (bootargs rng_seed : list Z) (kaslr_seed : Z) : list (list Z * Value) :=
  [(lit "bootargs", VString bootargs); (lit "stdout-path", VString (at_ "/pl011@" UART_BASE))]
  ++ (if negb (initrd_size l =? 0) then [(lit "linux,initrd-start", VU64 (initrd_addr l)); (lit "linux,initrd-end", VU64 (initrd_end l))] else [])
  ++ [(lit "rng-seed", VBytes rng_seed); (lit "kaslr-seed", VU64 kaslr_seed)].

Lemma writes_chosen l bootargs rng k : writes (chosen_node l bootargs rng k) [] [Node (lit "chosen") (chosen_props l bootargs rng k) []].
Proof.
  unfold chosen_node, chosen_props. apply writes_node. do 2 apply writes_prop_app. destruct (negb (initrd_size l =? 0)); cbn [app]; [do 2 (rewrite <-app_assoc || idtac; apply writes_prop_app)|];
    apply writes_prop_app, writes_prop.
Qed.

Definition memory_tree (l : GuestLayout) : Tree :=
  Node (at_ "memory@" (ram_base l)) [(lit "device_type", str "memory"); (lit "reg", VArray64 [ram_base l; ram_size l])] [].
Definition psci_tree : Tree :=
  Node (lit "psci") [(lit "compatible", strs ["arm,psci-1.0"; "arm,psci-0.2"]%string); (lit "method", str "hvc")] [].
Definition cpus_tree (n : Z) : Tree :=
  Node (lit "cpus") [(lit "#address-cells", VU32 1); (lit "#size-cells", VU32 0)] (cpu_tree n <$> seqZ 0 n).

Lemma writes_cpus n : writes (cpus_node n) [] [cpus_tree n].
Proof.
  unfold cpus_node, cpus_tree. apply writes_node. do 2 apply writes_prop_app. assert (cpu_tree n <$> seqZ 0 n = seqZ 0 n ≫= (fun c => [cpu_tree n c])) as ->.
  { induction (seqZ 0 n) as [|x xs IH]; [done|]. cbn. by rewrite IH. }
  apply writes_bind. intros c _. apply writes_cpu.
Qed.

Lemma fdt_reads l g n bootargs d rng k : 0 ∉ bootargs ->
  exists calls timer intc clk uart rtc ps,
    fdt_build l g n bootargs d rng k = Some calls /\
    read_tree calls = Some (Node [] ps
      ([Node (lit "chosen") (chosen_props l bootargs rng k) []; memory_tree l; psci_tree; cpus_tree n;
        Node (lit "timer") timer []; Node (at_ "intc@" (gicd_base g)) intc []; Node (lit "apb-pclk") clk [];
        Node (at_ "pl011@" UART_BASE) uart []; Node (at_ "pl031@" RTC_BASE) rtc []]
       ++ virtio_trees virtio_blk_base virtio_blk_spi (blk_count d)
       ++ (if v_net d then [virtio_tree VIRTIO_NET_BASE VIRTIO_NET_SPI] else []) ++ (if v_vsock d then [virtio_tree VIRTIO_VSOCK_BASE VIRTIO_VSOCK_SPI] else [])
       ++ virtio_trees virtio_fs_base virtio_fs_spi (fs_count d))) /\
    let look ps name := get_prop (Node [] ps []) name in
    omap virtio_window [memory_tree l; psci_tree; Node (lit "timer") timer []; Node (at_ "intc@" (gicd_base g)) intc []; Node (lit "apb-pclk") clk [];
      Node (at_ "pl011@" UART_BASE) uart []; Node (at_ "pl031@" RTC_BASE) rtc []] = [] /\
    look ps "interrupt-parent" = look intc "phandle" /\ look ps "#address-cells" = Some (VU32 2) /\ look ps "#size-cells" = Some (VU32 2) /\
    look intc "compatible" = Some (match version g with V3 => str "arm,gic-v3" | V2 => str "arm,cortex-a15-gic" end) /\
    look intc "interrupt-controller" = Some VNull /\ look intc "phandle" = Some (VU32 1) /\
    look intc "reg" = Some (VArray64 [gicd_base g; gicd_size g; gicr_base g; gicr_size g]) /\
    look uart "reg" = Some (VArray64 [UART_BASE; UART_SIZE]) /\ look uart "interrupts" = Some (VArray32 [0; UART_SPI; 4]) /\
    look rtc "reg" = Some (VArray64 [RTC_BASE; RTC_SIZE]).
Proof.
  intros Hb. unfold fdt_build. rewrite bool_decide_eq_false_2 by done. do 7 eexists. split; [done|]. split.
  { apply read_root. do 4 apply writes_prop_app.
    apply (writes_nodes_app _ _ [_]); [apply writes_chosen|]. apply (writes_nodes_app _ _ [_]); [unfold memory_node, memory_tree; leaf|].
    apply (writes_nodes_app _ _ [_]); [unfold psci_node, psci_tree; leaf|]. apply (writes_nodes_app _ _ [_]); [apply writes_cpus|].
    apply (writes_nodes_app _ _ [_]); [unfold timer_node; leaf|]. apply (writes_nodes_app _ _ [_]); [unfold intc_node; leaf|].
    apply (writes_nodes_app _ _ [_]); [unfold clock_node; leaf|]. apply (writes_nodes_app _ _ [_]); [unfold uart_node; leaf|].
    apply (writes_nodes_app _ _ [_]); [unfold rtc_node; leaf|]. apply writes_nodes_app; [apply writes_virtio_nodes|].
    apply writes_nodes_app; [destruct (v_net d); [apply writes_virtio|apply writes_nil]|].
    apply writes_nodes_app; [destruct (v_vsock d); [apply writes_virtio|apply writes_nil]|]. apply writes_virtio_nodes. }
  cbv zeta. split; [destruct (version g); reflexivity|]. repeat (split; [reflexivity|]). reflexivity.
Qed.

(** A node is found behind one with another name. *)
Lemma child_here n ps name ps' kids r : child (Node n ps (Node name ps' kids :: r)) name = Some (Node name ps' kids).
Proof. unfold child. cbn [t_children List.find t_name]. by rewrite bool_decide_eq_true_2. Qed.
Lemma child_skip n ps c r name : t_name c <> name -> child (Node n ps (c :: r)) name = child (Node n ps r) name.
Proof. intros H. unfold child. cbn [t_children List.find]. by rewrite bool_decide_eq_false_2. Qed.

(** The windows of the devices of a kind. *)
Definition windows_of (base spi : Z -> option Z) (count : nat) : list (Z * Z * Z) :=
  seq 0 count ≫= (fun i => match base (Z.of_nat i), spi (Z.of_nat i) with Some b, Some s => [(b, VIRTIO_SIZE, s)] | _, _ => [] end).

Lemma windows_of_trees base spi count : omap virtio_window (virtio_trees base spi count) = windows_of base spi count.
Proof.
  unfold virtio_trees, windows_of. induction (seq 0 count) as [|i l IH]; [done|]. cbn [mbind list_bind]. rewrite omap_app, IH. f_equal.
  by destruct (base (Z.of_nat i)), (spi (Z.of_nat i)).
Qed.

(** The disks of a machine that placed them: at most four, with interrupts below those of
    the exports. *)
Lemma blk_windows d nd : place virtio_blk_base nd = Some (disk_bases d) ->
  (fun w => w.1.1) <$> windows_of virtio_blk_base virtio_blk_spi nd = disk_bases d /\
  (forall net vsock : bool, NoDup (UART_SPI :: (snd <$> windows_of virtio_blk_base virtio_blk_spi nd) ++ (if net then [VIRTIO_NET_SPI] else []) ++ (if vsock then [VIRTIO_VSOCK_SPI] else []))) /\
  Forall (fun w => w.2 < VIRTIO_FS_SPI) (windows_of virtio_blk_base virtio_blk_spi nd).
Proof.
  intros H. do 5 (destruct nd as [|nd]; [cbn in H; injection H as <-; split; [reflexivity|]; split; [intros [] []; apply (bool_decide_unpack _); vm_compute; exact I|]; repeat constructor|]).
  exfalso. unfold place in H. cbn in H. done.
Qed.

Lemma fs_windows d nf gic irqs : mapM (fun i => fst <$> place_virtio_fs (Z.of_nat i) gic irqs) (seq 0 nf) = Some (fs_bases d) ->
  windows_of virtio_fs_base virtio_fs_spi nf = (fun i => (VIRTIO_FS_BASE + Z.of_nat i * VIRTIO_SIZE, VIRTIO_SIZE, VIRTIO_FS_SPI + Z.of_nat i)) <$> seq 0 nf /\
  fs_bases d = (fun i => VIRTIO_FS_BASE + Z.of_nat i * VIRTIO_SIZE) <$> seq 0 nf.
Proof.
  unfold windows_of. generalize (fs_bases d). induction (seq 0 nf) as [|i l IH]; intros bases; cbn; [intros [= <-]; done|].
  destruct (place_virtio_fs (Z.of_nat i) gic irqs) as [[b s]|] eqn:Ep; [|done]. cbn. destruct (mapM _ l) as [bs|] eqn:El; [|done]. cbn. intros [= <-].
  destruct (IH bs eq_refl) as [H1 H2]. pose proof (place_virtio_fs_Some (Z.of_nat i) gic irqs b s ltac:(lia) Ep) as (Eb & Es & _).
  assert (virtio_fs_base (Z.of_nat i) = Some b /\ virtio_fs_spi (Z.of_nat i) = Some s) as [-> ->].
  { unfold place_virtio_fs in Ep. destruct (virtio_fs_base _) as [b'|]; [|done]. cbn in Ep. destruct (virtio_fs_spi _) as [s'|]; [|done]. cbn in Ep.
    destruct (checked_add b' VIRTIO_SIZE); [|done]. cbn in Ep. destruct (_ || _); [done|]. destruct irqs as [k|]; [destruct (k <=? 32 + s'); [done|]|]; by injection Ep as <- <-. }
  cbn. rewrite H1, H2, Eb, Es. done.
Qed.

(** The windows of a machine's devices. *)
Definition machine_windows (d : Devices) (v : VirtioDevices) : list (Z * Z * Z) :=
  windows_of virtio_blk_base virtio_blk_spi (blk_count v)
  ++ (if has_net d then [(VIRTIO_NET_BASE, VIRTIO_SIZE, VIRTIO_NET_SPI)] else [])
  ++ (if has_vsock d then [(VIRTIO_VSOCK_BASE, VIRTIO_SIZE, VIRTIO_VSOCK_SPI)] else [])
  ++ windows_of virtio_fs_base virtio_fs_spi (fs_count v).

Section Machine.
Context (d : Devices) (v : VirtioDevices) (g : GicLayout) (irqs : option Z) (Hl : laid_out d (blk_count v) (fs_count v) g irqs).

Lemma machine_bases : (fun w => w.1.1) <$> machine_windows d v =
  disk_bases d ++ (if has_net d then [VIRTIO_NET_BASE] else []) ++ (if has_vsock d then [VIRTIO_VSOCK_BASE] else []) ++ fs_bases d.
Proof.
  destruct (blk_windows d (blk_count v) (lo_disks _ _ _ _ _ Hl)) as (B1 & _). destruct (fs_windows d (fs_count v) g irqs (lo_fs _ _ _ _ _ Hl)) as [F1 F2].
  unfold machine_windows. rewrite !fmap_app, B1, F1, F2. f_equal. destruct (has_net d), (has_vsock d); cbn; repeat f_equal; by rewrite <-list_fmap_compose.
Qed.

Lemma machine_routed b size s o : (b, size, s) ∈ machine_windows d v -> 0 <= o < size -> exists target, route d (b + o) = Some (Some target, o).
Proof.
  destruct (blk_windows d (blk_count v) (lo_disks _ _ _ _ _ Hl)) as (B1 & _). destruct (fs_windows d (fs_count v) g irqs (lo_fs _ _ _ _ _ Hl)) as [F1 F2].
  intros Hin Hos. destruct (route_fixed d _ _ _ _ Hl o) as (_ & _ & R3 & R4). unfold machine_windows in Hin. rewrite !elem_of_app in Hin. destruct Hin as [Hin|[Hin|[Hin|Hin]]].
  - assert (size = VIRTIO_SIZE) as ->.
    { unfold windows_of in Hin. apply list_elem_of_bind in Hin as (i & Hin & _).
      destruct (virtio_blk_base (Z.of_nat i)), (virtio_blk_spi (Z.of_nat i)); try by apply elem_of_nil in Hin. apply list_elem_of_singleton in Hin. by simplify_eq. }
    assert (b ∈ disk_bases d) as [i Hi]%list_elem_of_lookup by (rewrite <-B1; apply list_elem_of_fmap; by exists (b, VIRTIO_SIZE, s)). eexists. by eapply route_disk.
  - destruct (has_net d) eqn:E; [|by apply elem_of_nil in Hin]. apply list_elem_of_singleton in Hin. simplify_eq. eexists. rewrite R3 by done. done.
  - destruct (has_vsock d) eqn:E; [|by apply elem_of_nil in Hin]. apply list_elem_of_singleton in Hin. simplify_eq. eexists. rewrite R4 by done. done.
  - rewrite F1 in Hin. apply list_elem_of_fmap in Hin as (i & [= -> -> ->] & Hi). assert (VIRTIO_FS_BASE + Z.of_nat i * VIRTIO_SIZE ∈ fs_bases d) as [j Hj]%list_elem_of_lookup.
    { rewrite F2. apply list_elem_of_fmap. by exists i. }
    eexists. by eapply route_fs.
Qed.

Lemma machine_spis : NoDup (UART_SPI :: (snd <$> machine_windows d v)).
Proof.
  destruct (blk_windows d (blk_count v) (lo_disks _ _ _ _ _ Hl)) as (_ & B2 & B3). destruct (fs_windows d (fs_count v) g irqs (lo_fs _ _ _ _ _ Hl)) as [F1 F2].
  unfold machine_windows. rewrite !fmap_app. specialize (B2 (has_net d) (has_vsock d)). rewrite F1. rewrite !app_assoc. apply (NoDup_app (UART_SPI :: _)).
  split; [replace (snd <$> (if has_net d then [(VIRTIO_NET_BASE, VIRTIO_SIZE, VIRTIO_NET_SPI)] else [])) with (if has_net d then [VIRTIO_NET_SPI] else []) by (by destruct (has_net d));
    replace (snd <$> (if has_vsock d then [(VIRTIO_VSOCK_BASE, VIRTIO_SIZE, VIRTIO_VSOCK_SPI)] else [])) with (if has_vsock d then [VIRTIO_VSOCK_SPI] else []) by (by destruct (has_vsock d)); by rewrite <-app_assoc|].
  split.
  - intros s Hs (w & -> & Hw)%list_elem_of_fmap. apply list_elem_of_fmap in Hw as (i & -> & _). cbn [snd] in Hs.
    assert (VIRTIO_FS_SPI + Z.of_nat i < VIRTIO_FS_SPI); [|lia]. rewrite elem_of_cons, !elem_of_app in Hs. destruct Hs as [->|[[Hs|Hs]|Hs]].
    + done.
    + apply list_elem_of_fmap in Hs as (w & -> & Hw). rewrite Forall_forall in B3. by apply B3.
    + destruct (has_net d); cbn in Hs; [apply list_elem_of_singleton in Hs as ->; done|by apply elem_of_nil in Hs].
    + destruct (has_vsock d); cbn in Hs; [apply list_elem_of_singleton in Hs as ->; done|by apply elem_of_nil in Hs].
  - rewrite <-list_fmap_compose. apply NoDup_fmap_2; [|apply NoDup_seq]. intros i j. cbn. lia.
Qed.

End Machine.

Lemma cpu_trees_index n : n <= 2 ^ 20 -> omap (fun c => a ← cpu_reg c; vcpu_index a) (cpu_tree n <$> seqZ 0 n) = seqZ 0 n.
Proof.
  intros Hn. assert (forall cs : list Z, (forall i, i ∈ cs -> 0 <= i < 2 ^ 20) -> omap (fun c => a ← cpu_reg c; vcpu_index a) (cpu_tree n <$> cs) = cs) as H.
  { induction cs as [|i cs IH]; intros Hi; [done|]. cbn [fmap list_fmap omap list_omap]. change (cpu_reg (cpu_tree n i)) with (Some (mpidr_affinity i)). cbn [mbind option_bind].
    rewrite (proj1 (mpidr_fields_index i 0 ltac:(apply Hi; by left) ltac:(lia))). f_equal. apply IH. intros j Hj. apply Hi. by right. }
  apply H. intros i Hi%elem_of_seqZ. lia.
Qed.

(** C32. The device tree describes the machine the guest is on. It is well formed for any
    command line without a NUL. Its virtio nodes are exactly the windows of the machine's
    devices, disks first and in order; every address inside a window it describes is one
    at which an exit reaches a device, at that offset; no two devices share an interrupt.
    Its CPU nodes name the vCPUs, each by the affinity that PSCI's CPU_ON finds it by. The
    memory, the console and the clock are where the layout has them; the interrupt
    controller, the one every interrupt goes to, is of the machine's version and has its
    distributor and then its redistributors where the machine has them; and the guest is
    given the command line, the two seeds and, when there is an initramfs, its address and
    an end that holds all of it and goes less than a page past it, to a page's start. *)
Theorem devicetree_describes_machine l g n bootargs v rng k d irqs :
  laid_out d (blk_count v) (fs_count v) g irqs -> has_net d = v_net v -> has_vsock d = v_vsock v -> 0 ∉ bootargs -> n <= 2 ^ 20 ->
  exists calls t, fdt_build l g n bootargs v rng k = Some calls /\ read_tree calls = Some t /\
    (fun w => w.1.1) <$> virtio_windows t = disk_bases d ++ (if has_net d then [VIRTIO_NET_BASE] else []) ++ (if has_vsock d then [VIRTIO_VSOCK_BASE] else []) ++ fs_bases d /\
    (forall b size s o, (b, size, s) ∈ virtio_windows t -> 0 <= o < size -> exists target, route d (b + o) = Some (Some target, o)) /\
    NoDup (UART_SPI :: (snd <$> virtio_windows t)) /\
    (cpus ← child t (lit "cpus"); Some (omap (fun c => a ← cpu_reg c; vcpu_index a) (t_children cpus))) = Some (seqZ 0 n) /\
    let at_node name p := c ← child t name; get_prop c p in
    at_node (at_ "memory@" (ram_base l)) "reg" = Some (VArray64 [ram_base l; ram_size l]) /\
    at_node (at_ "pl011@" UART_BASE) "reg" = Some (VArray64 [UART_BASE; UART_SIZE]) /\
    at_node (at_ "pl011@" UART_BASE) "interrupts" = Some (VArray32 [0; UART_SPI; 4]) /\
    at_node (at_ "pl031@" RTC_BASE) "reg" = Some (VArray64 [RTC_BASE; RTC_SIZE]) /\
    at_node (at_ "intc@" (gicd_base g)) "reg" = Some (VArray64 [gicd_base g; gicd_size g; gicr_base g; gicr_size g]) /\
    at_node (at_ "intc@" (gicd_base g)) "compatible" = Some (match version g with V3 => str "arm,gic-v3" | V2 => str "arm,cortex-a15-gic" end) /\
    at_node (at_ "intc@" (gicd_base g)) "interrupt-controller" = Some VNull /\
    at_node (at_ "intc@" (gicd_base g)) "phandle" = Some (VU32 1) /\ get_prop t "interrupt-parent" = Some (VU32 1) /\
    at_node (lit "chosen") "bootargs" = Some (VString bootargs) /\
    at_node (lit "chosen") "rng-seed" = Some (VBytes rng) /\ at_node (lit "chosen") "kaslr-seed" = Some (VU64 k) /\
    at_node (lit "chosen") "linux,initrd-start" = (if initrd_size l =? 0 then None else Some (VU64 (initrd_addr l))) /\
    (initrd_size l = 0 -> at_node (lit "chosen") "linux,initrd-end" = None) /\
    (0 < initrd_size l -> 0 <= initrd_addr l -> initrd_addr l + initrd_size l + 0x1000 <= 2 ^ 64 -> exists e, at_node (lit "chosen") "linux,initrd-end" = Some (VU64 e) /\
       initrd_addr l + initrd_size l <= e < initrd_addr l + initrd_size l + 0x1000 /\ e mod 0x1000 = 0).
Proof.
  intros Hl Hn Hv Hb Hcpu. destruct (fdt_reads l g n bootargs v rng k Hb) as (calls & timer & intc & clk & uart & rtc & ps & Hc & Hr & Ho & Hi & _ & _ & H1 & H2 & H3 & H4 & H5 & H6 & H7).
  exists calls. eexists. split; [exact Hc|]. split; [exact Hr|].
  match goal with |- context [virtio_windows ?t] => assert (virtio_windows t = machine_windows d v) as -> end.
  { unfold virtio_windows, machine_windows. cbn [t_children]. rewrite !omap_app, !windows_of_trees, Hn, Hv.
    cbn [omap list_omap app] in Ho |- *.
    assert (virtio_window (Node (lit "chosen") (chosen_props l bootargs rng k) []) = None) as -> by (unfold chosen_props; destruct (negb (initrd_size l =? 0)); reflexivity).
    destruct (virtio_window (memory_tree l)); [done|]. destruct (virtio_window psci_tree); [done|]. change (virtio_window (cpus_tree n)) with (@None (Z * Z * Z)).
    rewrite Ho. by destruct (v_net v), (v_vsock v). }
  split; [by eapply machine_bases|]. split; [intros *; by eapply machine_routed|]. split; [by eapply machine_spis|]. cbv zeta.
  cbn [app]. unfold memory_tree, psci_tree, cpus_tree.
  repeat first [rewrite child_here | rewrite child_skip by (cbn [t_name]; unfold at_; discriminate)]. cbn [mbind option_bind t_children].
  split; [f_equal; by apply cpu_trees_index|]. unfold get_prop in *. cbn [t_props] in *. rewrite Hi.
  unfold chosen_props. split_and!; try done; [destruct (initrd_size l =? 0); reflexivity..|by intros ->|].
  intros Hs Ha Ht. rewrite (proj2 (Z.eqb_neq _ _)) by lia. exists (initrd_end l). split; [reflexivity|]. unfold initrd_end. rewrite (proj2 (Z.eqb_neq _ _)), add64_small by lia.
  apply (align_up_spec _ 12); lia.
Qed.

(** Two vCPUs, two disks, a network and two exports. *)
Lemma devicetree_describes_machine_witness : exists calls t,
  fdt_build (layout_new 0x800_0000 (RAM_BASE + 0x8_0000) 0x123_4567 300 5000) QEMU_VIRT 2 (lit "console=ttyAMA0") (mkVirtio 2 true false 2) (replicate 64 7) 9 = Some calls /\
  read_tree calls = Some t /\ (fun w => w.1.1) <$> virtio_windows t = [VIRTIO_BASE; VIRTIO_BLK_EXTRA_BASE; VIRTIO_NET_BASE; VIRTIO_FS_BASE; VIRTIO_FS_BASE + VIRTIO_SIZE].
Proof.
  destruct (devicetree_describes_machine (layout_new 0x800_0000 (RAM_BASE + 0x8_0000) 0x123_4567 300 5000) QEMU_VIRT 2 (lit "console=ttyAMA0") (mkVirtio 2 true false 2) (replicate 64 7) 9
    (mkDevices [VIRTIO_BASE; VIRTIO_BLK_EXTRA_BASE] true false [VIRTIO_FS_BASE; VIRTIO_FS_BASE + VIRTIO_SIZE]) (Some GIC_NUM_IRQS)
    ltac:(constructor; vm_compute; reflexivity) eq_refl eq_refl ltac:(refine (bool_decide_eq_false_1 _ _); vm_compute; reflexivity) ltac:(lia)) as (calls & t & H1 & H2 & H3 & _).
  exists calls, t. split; [exact H1|]. split; [exact H2|]. exact H3.
Defined.
