(* ===== verification/Teardown.v ===== *)
(** * The end of a run ([src/io_threads.rs], [src/teardown.rs], [CurrentRun] of [src/run/supervisor.rs])

    How [IoThreads::stop] waits for the helper threads: each thread, as it ends, sets its
    flag and then counts itself; the stop kicks the console reader until its flag is set,
    waits for the count, and joins the threads whose flags are set. The threads and the
    stop are a transition system, one step for each atomic access or use of the lock. And
    how the stop of a run and a panic on any of its threads agree on one last record. *)

From S2P Require Import Prelude Ledger Vcpus Supervisor.
Local Open Scope Z_scope.

(** ** The helper threads *)

(** Where a thread is: in its body, unwinding from a panic with its report made, past the
    store of its flag, or counted. The guards drop in this order. *)
Inductive IoPc := TRun | TUnwinding | TFlagged | TNoted.
#[export] Instance IoPc_eq : EqDecision IoPc.
Proof. solve_decision. Defined.

Definition flag (p : IoPc) : bool := match p with TFlagged | TNoted => true | TRun | TUnwinding => false end.

(** Where [IoThreads::stop] is: at the top of [kick_until_finished], between reading the
    count and the flag, waiting for a count, waiting for all of them, or done, with
    whether the count was reached. *)
Inductive StopPc := KTop | KCheck (n : nat) | KWait (n : nat) | SAll | SJoin (reached : bool).

Record IoSys := mkIo { io_pcs : list IoPc; count : nat; stopper : StopPc; kicks : nat; io_failed : list nat; io_requested : bool }.
(** The console reader is thread 0. *)
Definition io_start (others : nat) : IoSys := mkIo (replicate (S others) TRun) 0 KTop 0 [] false.

Definition set_pc (i : nat) (p : IoPc) (y : IoSys) : IoSys := mkIo (<[i := p]> (io_pcs y)) (count y) (stopper y) (kicks y) (io_failed y) (io_requested y).
Definition set_stopper (s : StopPc) (y : IoSys) : IoSys := mkIo (io_pcs y) (count y) s (kicks y) (io_failed y) (io_requested y).

(** [FinishCount::note] and [StopOnPanic::drop]. *)
Definition note (i : nat) (y : IoSys) : IoSys := mkIo (<[i := TNoted]> (io_pcs y)) (S (count y)) (stopper y) (kicks y) (io_failed y) (io_requested y).
Definition stop_on_panic (i : nat) (y : IoSys) : IoSys := mkIo (<[i := TUnwinding]> (io_pcs y)) (count y) (stopper y) (kicks y) (io_failed y ++ [i]) true.

(** One step of the stop; [passed] is whether the deadline of the wait has passed. *)
Definition stopper_step (passed : bool) (y : IoSys) : option IoSys :=
  match stopper y with
  | KTop => Some (set_stopper (KCheck (count y)) y)
  | KCheck n =>
      if default false (flag <$> io_pcs y !! 0%nat) || passed then Some (set_stopper SAll y)
      else Some (mkIo (io_pcs y) (count y) (KWait (S n)) (S (kicks y)) (io_failed y) (io_requested y))
  | KWait n => if (n <=? count y)%nat || passed then Some (set_stopper KTop y) else None
  | SAll =>
      if (length (io_pcs y) <=? count y)%nat then Some (set_stopper (SJoin true) y)
      else if passed then Some (set_stopper (SJoin false) y) else None
  | SJoin _ => None
  end.

Inductive iostep : IoSys -> IoSys -> Prop :=
  | Io_return y i : io_pcs y !! i = Some TRun -> iostep y (set_pc i TFlagged y)
  | Io_panic y i : io_pcs y !! i = Some TRun -> iostep y (stop_on_panic i y)
  | Io_unwound y i : io_pcs y !! i = Some TUnwinding -> iostep y (set_pc i TFlagged y)
  | Io_note y i : io_pcs y !! i = Some TFlagged -> iostep y (note i y)
  | Io_stop y y' passed : stopper_step passed y = Some y' -> iostep y y'.

(** The threads as [try_join] finds them, by name. *)
Definition joins (names : list (list Z)) (y : IoSys) : list (list Z * bool) := zip names (flag <$> io_pcs y).

(** ** The run's last record *)

(** What the threads of a run write: batches, captured events, the stop record of
    [run_to_stop], and that of a panic. *)
Inductive RunWrite := WBatch (b : Batch) (c : list Clock) | WCaptured (l : list (LRecord * Clock)) | WStop (b : Batch) (c : list Clock) | WPanic (b : Batch) (c : list Clock).
Definition is_stop (w : RunWrite) : bool := match w with WStop _ _ | WPanic _ _ => true | _ => false end.

Section Record.
Context (to_raw_value : Payload -> list Z) (to_writer : RawEvent -> list Z) (sid : list Z).

(** What the write does to the ledger, and whether it was taken. *)
Definition run_write (s : State) (w : RunWrite) : State * bool :=
  match w with
  | WBatch b c => let '(s, r) := submit to_raw_value to_writer sid s b c false in (s, match r with Submitted _ => true | _ => false end)
  | WCaptured l => ((captured to_raw_value to_writer sid s l).1.1, negb (closed s))
  | WStop b c | WPanic b c => let '(s, r) := submit to_raw_value to_writer sid s b c true in (s, match r with Submitted _ => true | _ => false end)
  end.
Fixpoint run_writes (s : State) (l : list RunWrite) : State * list RunWrite :=
  match l with
  | [] => (s, [])
  | w :: l => let '(s, ok) := run_write s w in let '(s, taken) := run_writes s l in (s, if ok then w :: taken else taken)
  end.

(** [CurrentRun::record_failure] up to the wait for the writer: the tries of the slot,
    each with its time and whether it was free; the ledger of the run that is current,
    once the vCPUs were stopped and waited for; and the record. [None] is that nothing
    was current or the slot was not free in time. *)
Fixpoint lock_slot (deadline : Z) (tries : list (Z * bool)) : bool :=
  match tries with [] => false | (now, free) :: tries => free || ((now <? deadline) && lock_slot deadline tries) end.
Definition record_failure (start : Z) (tries : list (Z * bool)) (current : option State) (stop_batch : State -> Batch) (c : list Clock) : option (State * bool) :=
  if lock_slot (start + STOP_TIMEOUT) tries then ledger ← current; Some (run_write ledger (WPanic (stop_batch ledger) c)) else None.

End Record.

(** * What it shows *)

Definition noted (l : list IoPc) : nat := length (base.filter (fun p => p = TNoted) l).
Arguments noted : simpl never.

Lemma noted_insert l i p q : l !! i = Some p -> p <> TNoted -> noted (<[i := q]> l) = (noted l + if decide (q = TNoted) then 1 else 0)%nat.
Proof.
  unfold noted. revert i. induction l as [|x l IH]; intros [|i] Hi Hp; [done|done| |].
  - change (<[0%nat := q]> (x :: l)) with (q :: l). rewrite !filter_cons. cbn in Hi. injection Hi as ->. destruct (decide (p = TNoted)); [done|]. destruct (decide (q = TNoted)); cbn [length]; lia.
  - change (<[S i := q]> (x :: l)) with (x :: <[i := q]> l). rewrite !filter_cons. cbn in Hi. destruct (decide (x = TNoted)); cbn [length]; rewrite (IH i Hi Hp); lia.
Qed.

Lemma noted_le l : (noted l <= length l)%nat.
Proof. unfold noted. apply length_filter. Qed.

Lemma noted_all l : (length l <= noted l)%nat -> Forall (fun p => p = TNoted) l.
Proof.
  induction l as [|x l IH]; [constructor|]. unfold noted. rewrite filter_cons. pose proof (noted_le l) as Hle. unfold noted in Hle.
  destruct (decide (x = TNoted)); cbn [length]; intros H; [|lia]. constructor; [done|]. apply IH. unfold noted. lia.
Qed.

(** The count is the threads counted. The stop read the count before it looked at the
    console's flag, so that if the console counted itself since, the wait is over; and a
    stop that reached the count found every thread counted. *)
Record io_ok (y : IoSys) : Prop := {
  io_count : count y = noted (io_pcs y);
  io_failures : forall i, io_pcs y !! i = Some TUnwinding -> i ∈ io_failed y /\ io_requested y = true;
  io_stopper : match stopper y with
    | KCheck n => (n <= count y)%nat
    | KWait n => (n <= S (count y))%nat /\ (io_pcs y !! 0%nat = Some TNoted -> (n <= count y)%nat)
    | SJoin true => Forall (fun p => p = TNoted) (io_pcs y)
    | _ => True
    end }.

(** A thread moves on without being counted. *)
Lemma set_pc_ok y i p q : io_ok y -> io_pcs y !! i = Some p -> p <> TNoted -> q <> TNoted -> q <> TUnwinding -> io_ok (set_pc i q y).
Proof.
  intros [H1 H2 H3] Hi Hp Hq Hu. split; cbn.
  - rewrite (noted_insert _ _ p) by done. rewrite decide_False by done. lia.
  - intros j. destruct (decide (i = j)) as [<-|Hne]; [rewrite list_lookup_insert_eq by (by eapply lookup_lt_Some); congruence|rewrite list_lookup_insert_ne by done; apply H2].
  - destruct (stopper y) as [|n|n| |[]]; try done.
    + destruct H3 as [? H3]. split; [done|]. destruct i as [|i]; [rewrite list_lookup_insert_eq by (by eapply lookup_lt_Some); congruence|by rewrite list_lookup_insert_ne].
    + rewrite Forall_lookup in H3. by rewrite (H3 i p Hi) in Hp.
Qed.

Lemma note_ok y i : io_ok y -> io_pcs y !! i = Some TFlagged -> io_ok (note i y).
Proof.
  intros [H1 H2 H3] Hi. split; cbn.
  - rewrite (noted_insert _ _ TFlagged) by done. rewrite decide_True by done. lia.
  - intros j. destruct (decide (i = j)) as [<-|Hne]; [rewrite list_lookup_insert_eq by (by eapply lookup_lt_Some); congruence|rewrite list_lookup_insert_ne by done; apply H2].
  - destruct (stopper y) as [|n|n| |[]]; [done|lia|lia|done| |done]. rewrite Forall_lookup in H3. by specialize (H3 i _ Hi).
Qed.

Lemma panic_ok y i : io_ok y -> io_pcs y !! i = Some TRun -> io_ok (stop_on_panic i y).
Proof.
  intros [H1 H2 H3] Hi. split; cbn.
  - rewrite (noted_insert _ _ TRun) by done. rewrite decide_False by done. lia.
  - intros j. rewrite elem_of_app. destruct (decide (i = j)) as [<-|Hne]; [intros _; split; [right; by left|done]|]. rewrite list_lookup_insert_ne by done. intros [? _]%H2. split; [by left|done].
  - destruct (stopper y) as [|n|n| |[]]; try done.
    + destruct H3 as [? H3]. split; [done|]. destruct i as [|i]; [rewrite list_lookup_insert_eq by (by eapply lookup_lt_Some); done|by rewrite list_lookup_insert_ne].
    + rewrite Forall_lookup in H3. by specialize (H3 i _ Hi).
Qed.

Lemma stopper_ok y y' passed : stopper_step passed y = Some y' -> io_ok y -> io_ok y'.
Proof.
  intros Hs [H1 H2 H3]. unfold stopper_step in Hs. destruct (stopper y) as [|n|n| |b] eqn:E.
  - injection Hs as <-. split; cbn; [done|done|lia].
  - destruct (default false (flag <$> io_pcs y !! 0%nat)) eqn:Ef; cbn in Hs; [by injection Hs as <-|]. destruct passed; injection Hs as <-; [done|].
    split; cbn; [done|done|]. split; [lia|]. intros H0. by rewrite H0 in Ef.
  - destruct (_ || _); [|done]. injection Hs as <-. done.
  - destruct (length (io_pcs y) <=? count y)%nat eqn:El; [injection Hs as <-|destruct passed; [|done]; injection Hs as <-; done].
    split; cbn; [done|done|]. apply noted_all. apply Nat.leb_le in El. lia.
  - done.
Qed.

Lemma iostep_ok y y' : iostep y y' -> io_ok y -> io_ok y'.
Proof.
  intros [y0 i Hi|y0 i Hi|y0 i Hi|y0 i Hi|y0 y1 passed Hs] Hok; [by eapply set_pc_ok|by apply panic_ok|by eapply set_pc_ok|by apply note_ok|by eapply stopper_ok].
Qed.

Lemma io_reach others y : rtc iostep (io_start others) y -> io_ok y.
Proof.
  intros Hr. assert (io_ok (io_start others)) as H0.
  { split; cbn [io_start io_pcs count stopper]; [|intros i Hi; apply (lookup_replicate_1 (S others)) in Hi as [? _]; done|done].
    unfold noted. assert (forall n, base.filter (fun p => p = TNoted) (replicate n TRun) = []) as Hf by (induction n as [|n IH]; [done|]; change (replicate (S n) TRun) with (TRun :: replicate n TRun); by rewrite filter_cons, decide_False).
    by rewrite Hf. }
  revert Hr H0. generalize (io_start others). intros y0 Hr. induction Hr as [|a b c Hab _ IH]; [done|]. intros Ha. by eapply IH, iostep_ok.
Qed.

(** The stop of the helper threads misses nothing. In any interleaving: a thread that
    panicked had reported the failure and asked for the stop before it was counted; the
    stop never sleeps through the console reader's end, since a wait it is in is over once
    the reader is counted; and a stop that reached the count before its deadline joins
    every thread and reports none left running. *)
Theorem stop_joins_threads others y names p : rtc iostep (io_start others) y -> length names = S others ->
  (forall i, io_pcs y !! i = Some TUnwinding -> i ∈ io_failed y /\ io_requested y = true) /\
  (forall n, stopper y = KWait n -> io_pcs y !! 0%nat = Some TNoted -> exists y', stopper_step false y = Some y') /\
  (stopper y = SJoin true -> forall console threads, joins names y = console :: threads -> (io_stop p console threads).2 = None).
Proof.
  intros Hr Hn. destruct (io_reach others y Hr) as [H1 H2 H3]. split; [exact H2|]. split.
  - intros n E H0. rewrite E in H3. destruct H3 as [_ H3]. unfold stopper_step. rewrite E. rewrite (proj2 (Nat.leb_le n (count y))) by auto. by eexists.
  - intros E console threads Hj. rewrite E in H3. pose proof (io_stop_spec p console threads) as Hs. destruct (io_stop p console threads) as [[p' running] e].
    cbn [snd]. apply Hs. rewrite <-Hj. unfold joins. apply Forall_forall. intros [nm fl] Ht%elem_of_zip_r. apply list_elem_of_fmap in Ht as (q & -> & Hq).
    rewrite Forall_forall in H3. by rewrite (H3 q Hq).
Qed.

Section Last.
Context (to_raw_value : Payload -> list Z) (to_writer : RawEvent -> list Z) (sid : list Z).
Local Abbreviation run_write := (run_write to_raw_value to_writer sid).
Local Abbreviation run_writes := (run_writes to_raw_value to_writer sid).

Lemma run_write_closed s w : closed s = true -> run_write s w = (s, false).
Proof.
  intros Hc. destruct w as [b c|l|b c|b c]; cbn; unfold submit, captured; rewrite ?Hc; try done; by destruct (b_error b && _).
Qed.

Lemma run_writes_closed l s : closed s = true -> run_writes s l = (s, []).
Proof. intros Hc. induction l as [|w l IH]; [done|]. cbn [Teardown.run_writes]. by rewrite run_write_closed, IH. Qed.

(** What a write that is not a stop leaves open, and a stop closes. *)
Lemma run_write_open s w : closed s = false -> closed (run_write s w).1 = is_stop w /\ (is_stop w = true -> (run_write s w).2 = true).
Proof.
  intros Hc. assert (forall recs d, closed (add to_raw_value to_writer sid s recs d).1.1 = false) as Ha.
  { intros recs d. destruct (add to_raw_value to_writer sid s recs d) as [[s1 wk] rep] eqn:E. cbn. unfold add in E.
    destruct (add_records to_raw_value to_writer sid d s report_default recs) as [s0 r0] eqn:E0. injection E as <- _ _.
    assert (closed s0 = false) as H0; [|destruct (_ && _); exact H0]. clear -E0 Hc. revert s Hc E0. generalize report_default. induction recs as [|[r c] recs IH]; intros rp s Hc; cbn; [by intros [= <- _]|].
    destruct (add_record to_raw_value to_writer sid d s rp r c) as [s1 r1] eqn:E1. apply IH. unfold add_record, with_record, end_overflow in E1. repeat case_match; simplify_eq; exact Hc. }
  destruct w as [b c|l|b c|b c]; cbn; unfold submit, captured; rewrite ?Hc.
  - destruct (b_error b && negb false); [done|]. specialize (Ha (if b_error b then [] else zip (records b) c) false). destruct (add _ _ _ _ _ _) as [[s1 wk] rep]. done.
  - cbn. split; [apply Ha|done].
  - rewrite andb_false_r. destruct (add _ _ _ _ _ _) as [[s1 wk] rep]. cbn. split; [|done]. destruct (close_frame s1) as [_ [? ? ? ? ? F6 ? ?]]. exact F6.
  - rewrite andb_false_r. destruct (add _ _ _ _ _ _) as [[s1 wk] rep]. cbn. split; [|done]. destruct (close_frame s1) as [_ [? ? ? ? ? F6 ? ?]]. exact F6.
Qed.

(** A run has one stop record, and it is the last. Whatever its threads write, and
    wherever panics strike among them, the first stop record the run or a panic writes is
    taken, every other one is refused, and nothing is added after it. *)
Theorem one_stop_record s before w after : closed s = false -> Forall (fun x => is_stop x = false) before -> is_stop w = true ->
  let '(s', taken) := run_writes s (before ++ w :: after) in
  (s', taken) = run_writes s (before ++ [w]) /\ List.filter is_stop taken = [w] /\ exists front, taken = front ++ [w].
Proof.
  revert s. induction before as [|x before IH]; intros s Hc Hb Hw; cbn [app Teardown.run_writes].
  - destruct (run_write_open s w Hc) as [H1 H2]. destruct (run_write s w) as [s1 ok]. cbn in H1, H2. rewrite H2 by done. rewrite run_writes_closed by congruence. cbn.
    rewrite Hw. split; [done|]. split; [done|]. by exists [].
  - apply Forall_cons in Hb as [Hx Hb]. destruct (run_write_open s x Hc) as [H1 _]. destruct (run_write s x) as [s1 ok]. cbn in H1. specialize (IH s1 ltac:(congruence) Hb Hw).
    destruct (run_writes s1 (before ++ w :: after)) as [s2 tk]. destruct IH as (I1 & I2 & front & ->). rewrite <-I1. split; [done|].
    destruct ok; cbn [List.filter]; rewrite ?Hx; (split; [done|]); [by exists (x :: front)|by exists front].
Qed.

End Last.

(** Two helper threads: the console reader is kicked once and returns, the other panics,
    and the stop joins both. *)
Module Example.
Definition names : list (list Z) := [[99]; [110]].
Definition kicked : IoSys := mkIo [TRun; TRun] 0 (KWait 1) 1 [] false.
Definition joined : IoSys := mkIo [TNoted; TNoted] 2 (SJoin true) 1 [1%nat] true.

Lemma kicked_reached : rtc iostep (io_start 1) kicked.
Proof. apply (rtc_l _ _ (mkIo [TRun; TRun] 0 (KCheck 0) 0 [] false)); [by apply (Io_stop _ _ false)|]. apply rtc_once. by apply (Io_stop _ _ false). Qed.

Lemma joined_reached : rtc iostep kicked joined.
Proof.
  eapply rtc_l; [by apply (Io_return kicked 0)|]. eapply rtc_l; [by apply (Io_note _ 0)|]. eapply rtc_l; [by apply (Io_panic _ 1)|]. eapply rtc_l; [by apply (Io_unwound _ 1)|].
  eapply rtc_l; [by apply (Io_note _ 1)|]. eapply rtc_l; [by eapply (Io_stop _ _ false)|]. eapply rtc_l; [by eapply (Io_stop _ _ false)|].
  eapply rtc_l; [by eapply (Io_stop _ _ false)|]. eapply rtc_l; [by eapply (Io_stop _ _ false)|]. apply rtc_refl.
Qed.

Lemma stop_joins_threads_witness : stopper joined = SJoin true /\ forall p, (io_stop p ([99], true) [([110], true)]).2 = None.
Proof.
  split; [reflexivity|]. intros p. apply (stop_joins_threads 1 joined names p); [|reflexivity..].
  transitivity kicked; [exact kicked_reached|exact joined_reached].
Defined.
End Example.
