(* ===== verification/Kick.v ===== *)
(** * The kick of a KVM vCPU ([src/hypervisor/kvm.rs])

    [Kicker] ends a vCPU's [KVM_RUN] from another thread: it sets the vCPU's
    [immediate_exit] byte, which the kernel reads as a run begins, and then signals the
    thread, which ends a run under way. A signal that finds the thread outside the kernel
    is taken by a handler that does nothing. The vCPU threads, the threads that kick and
    the table they share are a transition system, one step for each atomic access, use of
    the table's lock, entry or exit of the kernel. *)

From S2P Require Import Prelude.
Local Open Scope Z_scope.

(** Where a vCPU thread is in [run_vcpu]: before its registration, at the top of the
    loop, with the byte cleared, with the running flag read, parked at the checkpoint, at
    the plugin, about to enter [KVM_RUN], inside it, back from it, out of the loop, and
    with its registration dropped. *)
Inductive KPc := KNew | KTop | KCleared | KChecked | KParked | KSafe | KRun | KIn | KOut | KLeaving | KDone.
#[export] Instance KPc_eq : EqDecision KPc.
Proof. solve_decision. Defined.

(** A vCPU: its thread, the byte, whether a signal is pending on the thread, whether it
    is in the table; and, of a stop's kicks, whether the byte was stored and the signal
    sent after the running flag was cleared, or the vCPU was not in the table then. *)
Record KCpu := mkKCpu { k_pc : KPc; immediate_exit : bool; sig : bool; registered : bool; armed : bool; told : bool }.
Definition kcpu_new : KCpu := mkKCpu KNew false false false false false.

(** The table's lock, held by a thread that kicks: the vCPU whose thread it is, if any,
    the vCPUs it has still to kick, whether it stored the byte of the first, and whether
    it kicks all of them in a stop, that is, since the flag was cleared. *)
Record Hold := mkHold { caller : option nat; todo : list nat; stored : bool; stops : bool }.

(** [k_rounds] are the callers of the rounds of a stop that are complete. *)
Record KSys := mkKSys { k_running : bool; k_requested : bool; cpus : list KCpu; table : option Hold; k_rounds : list (option nat) }.
Definition ksys_new (count : nat) : KSys := mkKSys true false (replicate count kcpu_new) None [].

Definition set_cpu (i : nat) (c : KCpu) (y : KSys) : KSys := mkKSys (k_running y) (k_requested y) (<[i := c]> (cpus y)) (table y) (k_rounds y).
Definition set_table (t : option Hold) (y : KSys) : KSys := mkKSys (k_running y) (k_requested y) (cpus y) t (k_rounds y).
Definition at_pc (p : KPc) (c : KCpu) : KCpu := mkKCpu p (immediate_exit c) (sig c) (registered c) (armed c) (told c).

(** ** The vCPU's thread *)

(** What the guest and the handlers decide: whether the run or the plugin ends the loop,
    and whether a pending signal is what ends the run. *)
Record KChoice := mkKChoice { ends_loop : bool; by_signal : bool }.

Definition register (c : KCpu) : KCpu := mkKCpu KTop (immediate_exit c) (sig c) true (armed c) (told c).
Definition drop_registration (c : KCpu) : KCpu := mkKCpu KDone (immediate_exit c) (sig c) false (armed c) (told c).
Definition clear_immediate_exit (c : KCpu) : KCpu := mkKCpu KCleared false (sig c) (registered c) (armed c) (told c).
(** A run that a signal ends takes the signal as it returns to the thread. *)
Definition leave_run (ch : KChoice) (c : KCpu) : KCpu :=
  if sig c && by_signal ch then mkKCpu KOut (immediate_exit c) false (registered c) (armed c) (told c) else at_pc KOut c.

(** One step of the thread of vCPU [i] in [run_vcpu]; [None] while it waits. *)
Definition run_vcpu (ch : KChoice) (i : nat) (y : KSys) : option KSys :=
  c ← cpus y !! i;
  match k_pc c with
  | KNew => match table y with None => Some (set_cpu i (register c) y) | Some _ => None end
  | KTop => Some (set_cpu i (clear_immediate_exit c) y)
  | KCleared => Some (set_cpu i (at_pc (if k_running y then KChecked else KLeaving) c) y)
  | KChecked => Some (set_cpu i (at_pc (if k_requested y then KParked else KSafe) c) y)
  | KParked => if k_requested y then None else Some (set_cpu i (at_pc KSafe c) y)
  | KSafe => Some (set_cpu i (at_pc (if ends_loop ch then KLeaving else KRun) c) y)
  | KRun => Some (set_cpu i (at_pc (if immediate_exit c then KOut else KIn) c) y)
  | KIn => Some (set_cpu i (leave_run ch c) y)
  | KOut => Some (set_cpu i (at_pc (if ends_loop ch then KLeaving else KTop) c) y)
  | KLeaving => match table y with None => Some (set_cpu i (drop_registration c) y) | Some _ => None end
  | KDone => None
  end.

(** The no-op handler takes a signal that is pending outside the kernel. *)
Definition handle_signal (i : nat) (y : KSys) : option KSys :=
  c ← cpus y !! i;
  if bool_decide (k_pc c = KIn) || negb (sig c) then None
  else Some (set_cpu i (mkKCpu (k_pc c) (immediate_exit c) false (registered c) (armed c) (told c)) y).

(** ** The kicks *)

(** [Kicker::kick] of one vCPU and [kick_all], which [try_kick_all] is when the lock is
    free. *)
Definition kick_begin (who : option nat) (target : option nat) (y : KSys) : option KSys :=
  match table y with
  | Some _ => None
  | None =>
      Some (set_table (Some (match target with
        | Some i => mkHold who [i] false false
        | None => mkHold who (seq 0 (length (cpus y))) false (negb (k_running y))
        end)) y)
  end.

(** [VcpuThread::kick] of the first vCPU left: the store, unless the caller is its own
    thread or it is not in the table. *)
Definition kick_store (y : KSys) : option KSys :=
  h ← table y;
  match todo h with
  | i :: rest =>
      if stored h then None
      else match cpus y !! i with
      | None => Some (set_table (Some (mkHold (caller h) rest false (stops h))) y)
      | Some c =>
          if bool_decide (caller h = Some i) then Some (set_table (Some (mkHold (caller h) rest false (stops h))) y)
          else if registered c then
            Some (set_table (Some (mkHold (caller h) (i :: rest) true (stops h)))
              (set_cpu i (mkKCpu (k_pc c) true (sig c) (registered c) (armed c || negb (k_running y)) (told c)) y))
          else
            Some (set_table (Some (mkHold (caller h) rest false (stops h)))
              (set_cpu i (mkKCpu (k_pc c) (immediate_exit c) (sig c) (registered c) (armed c || negb (k_running y)) (told c || negb (k_running y))) y))
      end
  | [] => None
  end.

(** Its [pthread_kill]. *)
Definition kick_signal_thread (y : KSys) : option KSys :=
  h ← table y;
  match todo h with
  | i :: rest =>
      if stored h then
        c ← cpus y !! i;
        Some (set_table (Some (mkHold (caller h) rest false (stops h)))
          (set_cpu i (mkKCpu (k_pc c) (immediate_exit c) true (registered c) (armed c) (armed c)) y))
      else None
  | [] => None
  end.

Definition kick_end (y : KSys) : option KSys :=
  h ← table y;
  match todo h with
  | [] => Some (mkKSys (k_running y) (k_requested y) (cpus y) None (if stops h then caller h :: k_rounds y else k_rounds y))
  | _ => None
  end.

(** A thread of a vCPU, a thread that kicks, the stop's flag, a pause and its release. *)
Inductive KEvent :=
  | EvCpu (i : nat) (ch : KChoice) | EvHandle (i : nat) | EvBegin (who target : option nat) | EvStore | EvSignal | EvEnd | EvStop | EvPause (b : bool).

Definition kick_step (e : KEvent) (y : KSys) : option KSys :=
  match e with
  | EvCpu i ch => run_vcpu ch i y
  | EvHandle i => handle_signal i y
  | EvBegin who target => kick_begin who target y
  | EvStore => kick_store y
  | EvSignal => kick_signal_thread y
  | EvEnd => kick_end y
  | EvStop => Some (mkKSys false (k_requested y) (cpus y) (table y) (k_rounds y))
  | EvPause b => Some (mkKSys (k_running y) b (cpus y) (table y) (k_rounds y))
  end.
Definition kreach (y y' : KSys) : Prop := exists e, kick_step e y = Some y'.

(** * What it shows *)

(** Past the check of the running flag and before the run. *)
Definition committed (p : KPc) : bool := match p with KChecked | KParked | KSafe | KRun => true | _ => false end.

(** A vCPU the stop's kicks have reached. *)
Record kcpu_ok (running : bool) (c : KCpu) : Prop := {
  kc_reg : registered c = negb (bool_decide (k_pc c = KNew) || bool_decide (k_pc c = KDone));
  kc_stop : armed c = true -> running = false;
  kc_told : told c = true -> armed c = true;
  kc_armed : armed c = true -> committed (k_pc c) = true -> immediate_exit c = true;
  kc_in : told c = true -> k_pc c = KIn -> sig c = true }.

(** What a round of a stop has reached: every vCPU but the caller's own that it has no
    more to kick. *)
Definition reached (who : option nat) (left : list nat) (y : KSys) : Prop :=
  forall i c, cpus y !! i = Some c -> who <> Some i -> i ∉ left -> told c = true.

Record kick_ok (y : KSys) : Prop := {
  ko_cpus : forall i c, cpus y !! i = Some c -> kcpu_ok (k_running y) c;
  ko_hold : forall h, table y = Some h -> stops h = true -> k_running y = false /\ reached (caller h) (todo h) y;
  ko_stored : forall h i rest, table y = Some h -> stored h = true -> todo h = i :: rest -> stops h = true -> forall c, cpus y !! i = Some c -> armed c = true;
  ko_rounds : forall w, w ∈ k_rounds y -> reached w [] y }.

Lemma reached_cpu who left y i c c' : cpus y !! i = Some c -> (told c = true -> told c' = true) -> reached who left y -> reached who left (set_cpu i c' y).
Proof.
  intros Hi Ht Hr j x. unfold set_cpu. cbn. destruct (decide (i = j)) as [<-|Hne].
  - rewrite list_lookup_insert_eq by (by eapply lookup_lt_Some). intros [= <-] Hw Hl. by apply Ht, (Hr i c).
  - rewrite list_lookup_insert_ne by done. apply Hr.
Qed.

(** A step of one vCPU that keeps what the kicks have reached. *)
Lemma set_cpu_ok y i c c' : kick_ok y -> cpus y !! i = Some c -> kcpu_ok (k_running y) c' -> (told c = true -> told c' = true) -> (armed c = true -> armed c' = true) ->
  kick_ok (set_cpu i c' y).
Proof.
  intros [H1 H2 H3 H4] Hi Hc Ht Ha. split; cbn.
  - intros j x. destruct (decide (i = j)) as [<-|Hne]; [rewrite list_lookup_insert_eq by (by eapply lookup_lt_Some); by intros [= <-]|]. rewrite list_lookup_insert_ne by done. apply H1.
  - intros h Hh Hs. destruct (H2 h Hh Hs) as [Hr Hd]. split; [done|]. by eapply reached_cpu.
  - intros h j rest Hh Hst Htd Hs x. destruct (decide (i = j)) as [<-|Hne].
    + rewrite list_lookup_insert_eq by (by eapply lookup_lt_Some). intros [= <-]. by apply Ha, (H3 h i rest).
    + rewrite list_lookup_insert_ne by done. by apply (H3 h j rest).
  - intros w Hw. eapply reached_cpu; [exact Hi|exact Ht|by apply H4].
Qed.

(** The table changes hands without a change to a vCPU. *)
Lemma set_table_ok y t : kick_ok y ->
  match t with
  | None => True
  | Some h => (stops h = true -> k_running y = false /\ reached (caller h) (todo h) y) /\
      (stored h = true -> stops h = true -> forall i rest, todo h = i :: rest -> forall c, cpus y !! i = Some c -> armed c = true)
  end -> kick_ok (set_table t y).
Proof.
  intros [H1 H2 H3 H4] Ht. split; cbn; [exact H1| | |exact H4].
  - intros h ->. apply Ht.
  - intros h i rest -> Hst Htd Hs. by apply Ht with rest.
Qed.

Lemma run_vcpu_ok ch i y y' : run_vcpu ch i y = Some y' -> kick_ok y -> kick_ok y'.
Proof.
  unfold run_vcpu. destruct (cpus y !! i) as [c|] eqn:Hi; [|done]. cbn [mbind option_bind]. intros Hs Hok. destruct (ko_cpus y Hok i c Hi) as [C1 C2 C3 C4 C5].
  assert (forall c', y' = set_cpu i c' y -> armed c' = armed c -> told c' = told c -> kcpu_ok (k_running y) c' -> kick_ok y') as Hset.
  { intros c' -> Ha Ht Hc. eapply set_cpu_ok; [done|exact Hi|done|by rewrite Ht|by rewrite Ha]. }
  destruct (k_pc c) eqn:Ep; cbn in C1.
  - destruct (table y); [done|]. injection Hs as <-. eapply Hset; [done..|]. by split.
  - injection Hs as <-. eapply Hset; [done..|]. by split.
  - injection Hs as <-. eapply Hset; [done..|]. destruct (k_running y) eqn:Er; [|by split]. split; try done; cbn. intros Ha. by specialize (C2 Ha).
  - injection Hs as <-. eapply Hset; [done..|]. destruct (k_requested y); split; try done; cbn; auto.
  - destruct (k_requested y); [done|]. injection Hs as <-. eapply Hset; [done..|]. split; try done; cbn; auto.
  - injection Hs as <-. eapply Hset; [done..|]. destruct (ends_loop ch); split; try done; cbn; auto.
  - injection Hs as <-. eapply Hset; [done..|]. destruct (immediate_exit c) eqn:Ei; split; try done; cbn. intros Ht. by specialize (C4 (C3 Ht) eq_refl).
  - unfold leave_run in Hs. destruct (sig c && by_signal ch); injection Hs as <-; (eapply Hset; [done..|]); by split.
  - injection Hs as <-. eapply Hset; [done..|]. destruct (ends_loop ch); by split.
  - destruct (table y); [done|]. injection Hs as <-. eapply Hset; [done..|]. by split.
  - done.
Qed.

Lemma kick_store_ok y y' : kick_store y = Some y' -> kick_ok y -> kick_ok y'.
Proof.
  unfold kick_store. destruct (table y) as [h|] eqn:Eh; [|done]. cbn [mbind option_bind]. destruct (todo h) as [|i rest] eqn:Et; [done|]. destruct (stored h); [done|].
  intros Hs Hok. destruct (cpus y !! i) as [c|] eqn:Hi.
  - assert (forall c', (bool_decide (caller h = Some i) = true \/ told c' = true) -> (told c = true -> told c' = true) -> stops h = true ->
      reached (caller h) rest (set_cpu i c' y)) as Hr.
    { intros c' Hc Ht Hst. destruct (ko_hold y Hok h Eh Hst) as [_ Hd]. rewrite Et in Hd. pose proof (reached_cpu _ _ _ _ _ c' Hi Ht Hd) as Hd'. intros j x Hj Hw Hn.
      destruct (decide (i = j)) as [<-|Hne]; [|apply (Hd' j x Hj Hw); rewrite elem_of_cons; naive_solver]. cbn in Hj. rewrite list_lookup_insert_eq in Hj by (by eapply lookup_lt_Some).
      injection Hj as <-. destruct Hc as [Hc|]; [by apply bool_decide_eq_true in Hc|done]. }
    destruct (ko_cpus y Hok i c Hi) as [C1 C2 C3 C4 C5]. destruct (bool_decide (caller h = Some i)) eqn:Eb; [|destruct (registered c) eqn:Er]; injection Hs as <-.
    + apply set_table_ok; [done|]. cbn. split; [|done]. intros Hst. split; [by apply (ko_hold y Hok h)|].
      specialize (Hr c (or_introl eq_refl) id Hst). unfold set_cpu in Hr. intros j x Hj. apply (Hr j x). cbn. by rewrite list_insert_id.
    + apply set_table_ok.
      * eapply set_cpu_ok; [done|exact Hi| |done|cbn; by intros ->]. split; cbn; [exact C1| |intros ->%C3; done|done|done].
        destruct (armed c); [intros _; by apply C2|]. cbn. by destruct (k_running y).
      * cbn. split.
        -- intros Hst. split; [by apply (ko_hold y Hok h)|]. eapply reached_cpu; [exact Hi|done|]. rewrite <-Et. by apply (ko_hold y Hok h).
        -- intros _ Hst j rest' [= <- <-] x. rewrite list_lookup_insert_eq by (by eapply lookup_lt_Some). intros [= <-]. cbn. destruct (ko_hold y Hok h Eh Hst) as [-> _]. by rewrite orb_true_r.
    + apply set_table_ok.
      * eapply set_cpu_ok; [done|exact Hi| |cbn; by intros ->|cbn; by intros ->]. split; cbn.
        -- exact C1.
        -- destruct (armed c); [intros _; by apply C2|]. cbn. by destruct (k_running y).
        -- destruct (told c); [intros _; by rewrite C3|]. cbn. intros ->. by rewrite orb_true_r.
        -- intros _. by destruct (k_pc c).
        -- intros _ Hp. by rewrite Hp in C1.
      * cbn. split; [|done]. intros Hst. destruct (ko_hold y Hok h Eh Hst) as [Hrun _]. split; [done|]. apply Hr; [right; cbn; rewrite Hrun; by rewrite orb_true_r|cbn; by intros ->|done].
  - injection Hs as <-. apply set_table_ok; [done|]. cbn. split; [|done]. intros Hst. destruct (ko_hold y Hok h Eh Hst) as [Hrun Hd]. split; [done|]. intros j x Hj Hw Hn.
    apply (Hd j x Hj Hw). rewrite Et, elem_of_cons. intros [->|?]; [by rewrite Hi in Hj|done].
Qed.

Lemma kick_signal_ok y y' : kick_signal_thread y = Some y' -> kick_ok y -> kick_ok y'.
Proof.
  unfold kick_signal_thread. destruct (table y) as [h|] eqn:Eh; [|done]. cbn [mbind option_bind]. destruct (todo h) as [|i rest] eqn:Et; [done|]. destruct (stored h) eqn:Est; [|done].
  destruct (cpus y !! i) as [c|] eqn:Hi; [|done]. cbn. intros [= <-] Hok. destruct (ko_cpus y Hok i c Hi) as [C1 C2 C3 C4 C5]. apply set_table_ok.
  - eapply set_cpu_ok; [done|exact Hi|by split|exact C3|done].
  - cbn. split; [|done]. intros Hst. destruct (ko_hold y Hok h Eh Hst) as [Hrun Hd]. split; [done|]. intros j x. cbn. destruct (decide (i = j)) as [<-|Hne].
    + rewrite list_lookup_insert_eq by (by eapply lookup_lt_Some). intros [= <-] _ _. cbn. by apply (ko_stored y Hok h i rest).
    + rewrite list_lookup_insert_ne by done. intros Hj Hw Hn. apply (Hd j x Hj Hw). rewrite Et, elem_of_cons. naive_solver.
Qed.

Lemma kick_step_ok e y y' : kick_step e y = Some y' -> kick_ok y -> kick_ok y'.
Proof.
  destruct e as [i ch|i|who target| | | | |b]; cbn [kick_step]; intros Hs Hok.
  - by eapply run_vcpu_ok.
  - unfold handle_signal in Hs. destruct (cpus y !! i) as [c|] eqn:Hi; [|done]. cbn in Hs. destruct (bool_decide (k_pc c = KIn)) eqn:Ep; [done|]. destruct (sig c); [|done].
    injection Hs as <-. apply bool_decide_eq_false in Ep. destruct (ko_cpus y Hok i c Hi) as [C1 C2 C3 C4 C5]. eapply set_cpu_ok; [done|exact Hi|by split|done|done].
  - unfold kick_begin in Hs. destruct (table y); [done|]. injection Hs as <-. apply set_table_ok; [done|]. destruct target as [i|]; cbn; [done|]. split; [|done].
    intros Hr%negb_true_iff. split; [done|]. intros j x Hj _ Hn. destruct Hn. apply elem_of_seq. apply lookup_lt_Some in Hj. lia.
  - by eapply kick_store_ok.
  - by eapply kick_signal_ok.
  - unfold kick_end in Hs. destruct (table y) as [h|] eqn:Eh; [|done]. cbn in Hs. destruct (todo h) eqn:Et; [|done]. injection Hs as <-. split; cbn; [apply Hok|done|done|].
    intros w Hw. destruct (stops h) eqn:Est; [|by apply (ko_rounds y Hok)]. apply elem_of_cons in Hw as [->|Hw]; [|by apply (ko_rounds y Hok)].
    destruct (ko_hold y Hok h Eh Est) as [_ Hd]. by rewrite Et in Hd.
  - injection Hs as <-. destruct Hok as [H1 H2 H3 H4]. split; cbn; [|intros h Hh Hst; by destruct (H2 h Hh Hst)|exact H3|exact H4]. intros i c Hi. by destruct (H1 i c Hi).
  - injection Hs as <-. destruct Hok as [H1 H2 H3 H4]. by split.
Qed.

Lemma kick_reach count y : rtc kreach (ksys_new count) y -> kick_ok y.
Proof.
  assert (kick_ok (ksys_new count)) as H0.
  { split; cbn; [|done|done|by intros w ?%elem_of_nil]. intros i c [-> _]%lookup_replicate_1. by split. }
  revert H0. generalize (ksys_new count). intros y0 H0 Hr. induction Hr as [|a b c [e He] _ IH]; [done|]. by apply IH, (kick_step_ok e a).
Qed.

(** The steps a thread has left before it is gone, once a stop's kick has reached it. *)
Definition left_steps (p : KPc) : nat :=
  match p with KDone => 0 | KLeaving => 1 | KCleared => 2 | KTop => 3 | KNew => 4 | KOut => 4 | KIn => 5 | KRun => 5 | KSafe => 6 | KParked => 7 | KChecked => 8 end.

(** C15. One round of a stop's kicks is enough. Once a round that began after the running flag
    was cleared is over, whatever the vCPUs, other kicks and pauses do: a vCPU still in
    the guest has the signal pending that ends its run; every step its thread takes
    brings it nearer to its end, of which it has at most eight left, and none of them
    enters the guest, also for a vCPU that registers later or was parked; and it can
    always take one unless it waits for the table or is parked under a pause. The
    caller's own vCPU is the one a round leaves out. *)
Theorem kick_not_lost count y who i c : rtc kreach (ksys_new count) y -> who ∈ k_rounds y -> who <> Some i -> cpus y !! i = Some c ->
  k_running y = false /\
  (k_pc c = KIn -> sig c = true) /\
  (left_steps (k_pc c) <= 8)%nat /\
  (forall ch y', run_vcpu ch i y = Some y' -> exists c', cpus y' !! i = Some c' /\ k_pc c' <> KIn /\ (left_steps (k_pc c') < left_steps (k_pc c))%nat) /\
  (k_pc c <> KDone -> table y = None -> k_requested y = false -> forall ch, is_Some (run_vcpu ch i y)).
Proof.
  intros Hr Hw Hne Hi. pose proof (kick_reach count y Hr) as Hok. pose proof (ko_rounds y Hok who Hw i c Hi Hne ltac:(apply not_elem_of_nil)) as Ht.
  destruct (ko_cpus y Hok i c Hi) as [C1 C2 C3 C4 C5]. pose proof (C3 Ht) as Ha. split; [by apply C2|]. split; [by apply C5|]. split; [destruct (k_pc c); cbn; lia|].
  assert (i < length (cpus y))%nat as Hlt by (by eapply lookup_lt_Some). unfold run_vcpu. rewrite Hi. cbn [mbind option_bind]. split.
  - intros ch y' Hs. assert (forall c', y' = set_cpu i c' y -> k_pc c' <> KIn -> (left_steps (k_pc c') < left_steps (k_pc c))%nat ->
      exists c', cpus y' !! i = Some c' /\ k_pc c' <> KIn /\ (left_steps (k_pc c') < left_steps (k_pc c))%nat) as Hex.
    { intros c' -> Hn Hl. exists c'. cbn. by rewrite list_lookup_insert_eq. }
    destruct (k_pc c) eqn:Ep; try (destruct (table y); [done|]); try destruct (k_requested y) eqn:Eq; try done; injection Hs as <-; eapply Hex; try done; cbn;
      rewrite ?C2 by done; rewrite ?C4 by done; unfold leave_run; repeat case_match; cbn; (done || lia).
  - intros Hd -> -> ch. destruct (k_pc c); by eauto.
Qed.

(** A stop whose kick finds one vCPU in the guest and one between the check and its run. *)
Module Example.
Definition plain : KChoice := mkKChoice false false.
Definition events : list KEvent :=
  replicate 6 (EvCpu 0 plain) ++ replicate 5 (EvCpu 1 plain) ++ [EvStop; EvBegin None None; EvStore; EvSignal; EvStore; EvSignal; EvEnd].
Fixpoint krun (l : list KEvent) (y : KSys) : option KSys := match l with [] => Some y | e :: l => y ← kick_step e y; krun l y end.
Definition kicked : KSys := default (ksys_new 2) (krun events (ksys_new 2)).

Lemma krun_reach l y y' : krun l y = Some y' -> rtc kreach y y'.
Proof.
  revert y. induction l as [|e l IH]; intros y; cbn [krun]; [intros [= <-]; apply rtc_refl|]. destruct (kick_step e y) as [y1|] eqn:E; [|done]. cbn. intros H%IH. eapply rtc_l; [by exists e|done].
Qed.

Lemma kick_not_lost_witness :
  exists a b, cpus kicked !! 0%nat = Some a /\ k_pc a = KIn /\ sig a = true /\ cpus kicked !! 1%nat = Some b /\ k_pc b = KRun /\
    (forall ch y', run_vcpu ch 1 kicked = Some y' -> exists c', cpus y' !! 1%nat = Some c' /\ k_pc c' <> KIn /\ (left_steps (k_pc c') < left_steps (k_pc b))%nat).
Proof.
  assert (rtc kreach (ksys_new 2) kicked) as Hr by (apply (krun_reach events); vm_compute; reflexivity).
  assert (None ∈ k_rounds kicked) as Hw by (vm_compute; left). eexists _, _. split; [vm_compute; reflexivity|]. split; [reflexivity|].
  split; [reflexivity|]. split; [vm_compute; reflexivity|]. split; [reflexivity|]. apply (kick_not_lost 2 kicked None 1 _ Hr Hw); [done|vm_compute; reflexivity].
Defined.
End Example.
