(* ===== verification/Bridge.v ===== *)
(** * The agent bridge ([VsockBridge] of [src/devices/virtio/vsock.rs])

    The thread that accepts connections on the agent socket, and the reader and the
    writer of each, around the vsock device they share with the vCPUs. A transition
    system: a poll, a read, a wait on a gate and a call under the device's lock are one
    step each, and the guest's accesses and stores come between any two. What the host's
    sockets answer is a choice of each step. *)

From S2P Require Import Prelude Memory Irq Queue Virtio Vsock VsockInv VsockStream VsockDev VsockSession.
Local Open Scope Z_scope.

(** Where a writer is: at its gate, at the poll, about to flush, about to report that the
    poll failed, or done. *)
Inductive WPc := WGate | WPoll | WFlush | WGone | WDone.
(** Where a reader is: at the poll, about to read, with bytes to hand over, at its gate,
    out of its loop, waiting for a half-closed host to close, about to say that it did,
    or done. *)
Inductive RPc := RPoll | RRead | RData (data : list Z) | RGate | REof | RSleep | RHung | RDone.
(** The bridge: at the poll of the listener, about to accept, with the writers' gates
    opened, joining the relays, or done. *)
Inductive APc := AWait | AAccept | AClosing | AJoin | ADone.

Record Relay := mkRelay { r_port : Z; r_writer : WPc; r_reader : RPc }.

(** What a socket answers: whether its poll fails, whether it is ready, whether it has
    hung up, and what a read of it gives. *)
Inductive ReadAnswer := ReadEof | ReadBytes (data : list Z) | ReadRetry | ReadError.
Record Answer := mkAnswer { poll_fails : bool; ready : bool; hup : bool; reads : ReadAnswer }.

(** The size of a reader's buffer. *)
Definition READ_BUF : Z := 8192.
Definition readable (data : list Z) : bool := (0 <? zlen data) && (zlen data <=? READ_BUF) && forallb (fun b => (0 <=? b) && (b <? 2 ^ 8)) data.

Section Bridge.
Context {L : Type} {IL : IrqLine L}.

(** [b_ops] is what the device was asked to do, in order. *)
Record Bridge := mkBridge {
  b_dev : VirtioVsock L; b_ram : GuestRam; b_hist : History; b_stop : bool; b_acc : APc; b_relays : list Relay; b_ops : list VsockOp }.

Definition bridge_start (l : L) (m : GuestRam) : Bridge := mkBridge (connect_irq new l) m ∅ false AWait [] [].

(** A call under the device's lock. *)
Definition does (o : VsockOp) (y : Bridge) : Bridge :=
  let '(d, m, h) := run_vop (b_dev y, b_ram y, b_hist y) o in mkBridge d m h (b_stop y) (b_acc y) (b_relays y) (b_ops y ++ [o]).
Definition set_acc (a : APc) (y : Bridge) : Bridge := mkBridge (b_dev y) (b_ram y) (b_hist y) (b_stop y) a (b_relays y) (b_ops y).
Definition set_relays (l : list Relay) (y : Bridge) : Bridge := mkBridge (b_dev y) (b_ram y) (b_hist y) (b_stop y) (b_acc y) l (b_ops y).
Definition writer_to (i : nat) (w : WPc) (y : Bridge) : Bridge := set_relays (alter (fun r => mkRelay (r_port r) w (r_reader r)) i (b_relays y)) y.
Definition reader_to (i : nat) (p : RPc) (y : Bridge) : Bridge := set_relays (alter (fun r => mkRelay (r_port r) (r_writer r) p) i (b_relays y)) y.

(** A connection that is gone has its gates open. *)
Definition writer_gate_closed (y : Bridge) (port : Z) : bool := match conns (b_dev y) !! port with Some c => writer_closed c | None => false end.
Definition reader_gate_closed (y : Bridge) (port : Z) : bool := match conns (b_dev y) !! port with Some c => reader_closed c | None => false end.

(** [StopToken::wait]: a failed poll, a stop, or the socket. *)
Inductive WaitAnswer := WaitErr | WaitStop | WaitReady.
Definition stop_wait (a : Answer) (stop : bool) : option WaitAnswer :=
  if poll_fails a then Some WaitErr else if stop then Some WaitStop else if ready a then Some WaitReady else None.

(** [VsockBridge::run]. The relays that ended stay in the list. *)
Definition accept_step (s : option Stream) (a : Answer) (y : Bridge) : option Bridge :=
  match b_acc y with
  | AWait => w ← stop_wait a (b_stop y); Some (set_acc (match w with WaitReady => AAccept | _ => AClosing end) y)
  | AAccept =>
      match s with
      | None => Some (set_acc AWait y)
      | Some s =>
          let port := next_port (b_dev y) in
          let y := does (OpAccept s) y in
          Some (set_acc AWait (match conns (b_dev y) !! port with Some _ => set_relays (b_relays y ++ [mkRelay port WGate RPoll]) y | None => y end))
      end
  | AClosing => Some (set_acc AJoin (does OpDropConns y))
  | AJoin => if forallb (fun r => match r_writer r, r_reader r with WDone, RDone => true | _, _ => false end) (b_relays y) then Some (set_acc ADone y) else None
  | ADone => None
  end.

(** [VsockBridge::spawn_writer]. Once the bridge dropped its list of gates, a writer may
    find its gate open. *)
Definition writer_step (i : nat) (a : Answer) (y : Bridge) : option Bridge :=
  r ← b_relays y !! i;
  match r_writer r with
  | WGate => if writer_gate_closed y (r_port r) && negb (match b_acc y with AClosing => true | _ => false end) then None else Some (writer_to i WPoll y)
  | WPoll => w ← stop_wait a (b_stop y); Some (writer_to i (match w with WaitErr => WGone | WaitStop => WDone | WaitReady => WFlush end) y)
  | WFlush =>
      let more := (flush_to_host (b_dev y) (b_ram y) (r_port r)).2 in
      Some (writer_to i (if more then WGate else WDone) (does (OpFlush (r_port r)) y))
  | WGone => Some (writer_to i WDone (does (OpGone (r_port r)) y))
  | WDone => None
  end.

(** [VsockBridge::spawn_reader], with [HostGate::wait] and [wait_host_close]. *)
Definition reader_step (i : nat) (a : Answer) (y : Bridge) : option Bridge :=
  r ← b_relays y !! i;
  match r_reader r with
  | RPoll => w ← stop_wait a (b_stop y); Some (reader_to i (match w with WaitReady => RRead | _ => REof end) y)
  | RRead =>
      match reads a with
      | ReadEof | ReadError => Some (reader_to i REof y)
      | ReadRetry => Some (reader_to i RPoll y)
      | ReadBytes data => if readable data then Some (reader_to i (RData data) y) else None
      end
  | RData data =>
      let gate := (host_data (b_dev y) (b_ram y) (r_port r) data).2 in
      Some (reader_to i (if gate then RGate else RPoll) (does (OpData (r_port r) data) y))
  | RGate => if reader_gate_closed y (r_port r) && negb (b_stop y || hup a) then None else Some (reader_to i RPoll y)
  | REof =>
      let half_open := (host_eof (b_dev y) (b_ram y) (r_port r)).2 in
      Some (reader_to i (if half_open then RSleep else RDone) (does (OpEof (r_port r)) y))
  | RSleep => if poll_fails a || b_stop y then Some (reader_to i RDone y) else if hup a then Some (reader_to i RHung y) else None
  | RHung => Some (reader_to i RDone (does (OpHungUp (r_port r)) y))
  | RDone => None
  end.

(** The guest's accesses and stores, the stop, and the bridge's threads. Ports are
    32 bits wide and handed out in order ([self.next_port += 1]); a run is one that
    has not handed out the last of them. *)
Inductive bstep : Bridge -> Bridge -> Prop :=
  | B_mmio y a : mmio_access_ok a -> bstep y (does (OpMmio a) y)
  | B_store y g data : bytes_ok data -> bstep y (does (OpStore g data) y)
  | B_stop y : bstep y (mkBridge (b_dev y) (b_ram y) (b_hist y) true (b_acc y) (b_relays y) (b_ops y))
  | B_accept y y' s a : next_port (b_dev y) + 1 < 2 ^ 32 -> accept_step s a y = Some y' -> bstep y y'
  | B_writer y y' i a : writer_step i a y = Some y' -> bstep y y'
  | B_reader y y' i a : reader_step i a y = Some y' -> bstep y y'.

End Bridge.
Arguments Bridge : clear implicits.

(** * What it shows *)

(** A port that was handed out and has no connection never has one again. *)
Lemma vsteps_gone a b p : vsteps a b -> p < w_next a.1 -> w_conns a.1 !! p = None -> w_conns b.1 !! p = None /\ w_next a.1 <= w_next b.1.
Proof.
  induction 1 as [|x y z Hs _ IH]; [intros; split; [done|lia]|]. intros Hp Hn. assert (w_conns y.1 !! p = None /\ w_next x.1 <= w_next y.1) as [H1 H2].
  { destruct Hs; cbn in *; try (split; [done|lia]).
    - split; [|lia]. rewrite lookup_insert_ne; [done|congruence].
    - split; [|lia]. rewrite lookup_insert_ne; [done|congruence].
    - split; [|lia]. rewrite lookup_delete_ne; [done|congruence].
    - split; [|lia]. rewrite lookup_insert_ne; [done|lia]. }
  destruct IH; [lia|done|split; [done|lia]].
Qed.

Section Shown.
Context {L : Type} {IL : IrqLine L} {ILL : IrqLineLaws L}.
Implicit Types (y : Bridge L).

Lemma vsteps_next a b : vsteps a b -> w_next a.1 <= w_next b.1.
Proof. induction 1 as [|x y z Hs _ IH]; [lia|]. assert (w_next x.1 <= w_next y.1); [|lia]. destruct Hs; cbn; lia. Qed.

Lemma run_vop_vsteps (d : VirtioVsock L) m H o d' m' H' : view_ok (view d) H -> shell_ok (d, m) -> vop_ok (d, m, H) o -> run_vop (d, m, H) o = (d', m', H') ->
  vsteps (view d, H) (view d', H').
Proof.
  intros Hv Hs Ho E. assert (forall s', goes H (d, m) s' -> vsteps (view d, H) (view s'.1, H)) as Hg by (intros s' G; apply (G Hv Hs)).
  destruct o as [a|g data|st|port data|port|port|port|port|]; simpl in E.
  - destruct (mmio _ _ _ _ _) as [[d1 m1] r] eqn:Em. simplify_eq/=. apply (Hg (d', m')). by eapply mmio_goes.
  - simplify_eq. apply rtc_refl.
  - destruct (accept d m st) as [d1 m1] eqn:Ea. simplify_eq. apply (Hg (d', m')). rewrite <-Ea. by apply accept_goes.
  - destruct (host_data d m port data) as [[d1 m1] w] eqn:Eh. simplify_eq/=. by destruct (host_data_goes _ _ _ _ _ _ _ _ Ho Hv Hs Eh) as (V & _).
  - pose proof (host_eof_goes H d m port) as G. destruct (host_eof d m port) as [[d1 m1] w]. simplify_eq/=. by apply (Hg (d', m')).
  - pose proof (host_hung_up_goes H d m port) as G. destruct (host_hung_up d m port) as [d1 m1]. simplify_eq/=. by apply (Hg (d', m')).
  - pose proof (host_gone_goes H d m port) as G. destruct (host_gone d m port) as [d1 m1]. simplify_eq/=. by apply (Hg (d', m')).
  - pose proof (flush_to_host_goes H d m port) as G. destruct (flush_to_host d m port) as [[d1 m1] w]. simplify_eq/=. by apply (Hg (d', m')).
  - simplify_eq. apply (Hg (_, m')). apply drop_conns_goes.
Qed.

Lemma session_snoc (s : VirtioVsock L * GuestRam * History) l o : session_ok s (l ++ [o]) <-> session_ok s l /\ vop_ok (foldl run_vop s l) o.
Proof. revert s. induction l as [|x l IH]; intros s; cbn; [tauto|]. rewrite IH. tauto. Qed.

(** The calls so far are a session that led to the device. *)
Definition in_session (l : L) (m : GuestRam) y : Prop :=
  session_ok (vsock_start l m) (b_ops y) /\ foldl run_vop (vsock_start l m) (b_ops y) = (b_dev y, b_ram y, b_hist y).

Lemma does_session l m y o : ram_ok m -> in_session l m y -> vop_ok (b_dev y, b_ram y, b_hist y) o ->
  in_session l m (does o y) /\ next_port (b_dev y) <= next_port (b_dev (does o y)) /\
  (forall p, p < next_port (b_dev y) -> conns (b_dev y) !! p = None -> conns (b_dev (does o y)) !! p = None).
Proof.
  intros Hm [Hs Hr] Ho. unfold does. destruct (run_vop _ o) as [[d h] H'] eqn:E. unfold in_session. cbn. rewrite session_snoc, Hr. rewrite foldl_app, Hr. cbn [foldl].
  split; [by split|]. destruct (start_ok l m Hm) as [V0 S0]. destruct (session_keeps _ _ _ _ _ _ _ V0 S0 Hs Hr) as [V1 S1].
  pose proof (run_vop_vsteps _ _ _ _ _ _ _ V1 S1 Ho E) as V. split; [exact (vsteps_next _ _ V)|]. intros p Hp Hn. exact (proj1 (vsteps_gone _ _ p V Hp Hn)).
Qed.

(** ** What the readers hand over *)

Definition from_reader (port : Z) (o : VsockOp) : bool := match o with OpData p _ | OpEof p | OpHungUp p => p =? port | _ => false end.
Definition is_data (o : VsockOp) : bool := match o with OpData _ _ => true | _ => false end.

(** Bytes, then the end of them once, then at most the close of a half-closed host. *)
Definition reader_log (port : Z) (p : RPc) (l : list VsockOp) : Prop :=
  match p with
  | RPoll | RRead | RData _ | RGate | REof => forallb is_data l = true
  | RSleep | RHung => exists ds, forallb is_data ds = true /\ l = ds ++ [OpEof port]
  | RDone => exists ds, forallb is_data ds = true /\ (l = ds ++ [OpEof port] \/ l = ds ++ [OpEof port; OpHungUp port])
  end.

Definition joining (a : APc) : bool := match a with AJoin | ADone => true | _ => false end.

Record bridge_ok (l : L) (m : GuestRam) y : Prop := {
  bo_session : in_session l m y;
  bo_ports : forall i r, b_relays y !! i = Some r -> r_port r < next_port (b_dev y);
  bo_nodup : forall i j r s, b_relays y !! i = Some r -> b_relays y !! j = Some s -> r_port r = r_port s -> i = j;
  bo_closed : joining (b_acc y) = true -> forall i r, b_relays y !! i = Some r -> conns (b_dev y) !! r_port r = None;
  bo_log : forall i r, b_relays y !! i = Some r -> reader_log (r_port r) (r_reader r) (List.filter (from_reader (r_port r)) (b_ops y));
  bo_fresh : forall p, next_port (b_dev y) <= p -> List.filter (from_reader p) (b_ops y) = [];
  bo_data : forall i r data, b_relays y !! i = Some r -> r_reader r = RData data -> bytes_ok data }.

Lemma filter_snoc p l o : List.filter (from_reader p) (l ++ [o]) = List.filter (from_reader p) l ++ if from_reader p o then [o] else [].
Proof. rewrite List.filter_app. cbn. by destruct (from_reader p o). Qed.

(** The relays as they stand after a step of one of them. *)
Lemma alter_inv (f : Relay -> Relay) (i : nat) (l : list Relay) j r : alter f i l !! j = Some r -> (j = i /\ exists r0, l !! i = Some r0 /\ r = f r0) \/ (j <> i /\ l !! j = Some r).
Proof.
  destruct (decide (i = j)) as [<-|Hne].
  - rewrite list_lookup_alter_eq. destruct (l !! i) as [r0|]; [|done]. intros [= <-]. left. eauto.
  - rewrite list_lookup_alter_ne by done. right. auto.
Qed.

(** A call that no reader makes. *)
Lemma does_ok l m y o : ram_ok m -> bridge_ok l m y -> vop_ok (b_dev y, b_ram y, b_hist y) o -> (forall p, from_reader p o = false) -> bridge_ok l m (does o y).
Proof.
  intros Hm [H1 H2 H3 H4 H5 H6 H7] Ho Hn. destruct (does_session l m y o Hm H1 Ho) as (D1 & D2 & D3).
  assert (b_relays (does o y) = b_relays y /\ b_acc (does o y) = b_acc y /\ b_ops (does o y) = b_ops y ++ [o]) as (Er & Ea & Eo) by (unfold does; by destruct (run_vop _ o) as [[? ?] ?]).
  split; rewrite ?Er, ?Ea, ?Eo; [done| |done| | | |done].
  - intros i r Hi. specialize (H2 i r Hi). lia.
  - intros Hj i r Hi. apply D3; [by eapply H2|by eapply H4].
  - intros i r Hi. rewrite filter_snoc, Hn, app_nil_r. by eapply H5.
  - intros p Hp. rewrite filter_snoc, Hn, app_nil_r. apply H6. lia.
Qed.

Lemma writer_to_ok l m y i w : bridge_ok l m y -> bridge_ok l m (writer_to i w y).
Proof.
  intros [H1 H2 H3 H4 H5 H6 H7]. split; cbn; [done| | | | |done|].
  - intros j r [(-> & r0 & Hr & ->)|[_ Hr]]%alter_inv; by apply (H2 _ _ Hr).
  - intros j k r s Hj Hk. apply alter_inv in Hj as [(-> & r0 & Hr & ->)|[_ Hr]], Hk as [(-> & s0 & Hs & ->)|[_ Hs]]; cbn; intros E; by eapply H3.
  - intros Hj j r [(-> & r0 & Hr & ->)|[_ Hr]]%alter_inv; by apply (H4 Hj _ _ Hr).
  - intros j r [(-> & r0 & Hr & ->)|[_ Hr]]%alter_inv; by apply (H5 _ _ Hr).
  - intros j r data [(-> & r0 & Hr & ->)|[_ Hr]]%alter_inv; by apply (H7 _ _ _ Hr).
Qed.

Lemma reader_to_ok l m y i p : bridge_ok l m y -> (forall r, b_relays y !! i = Some r -> reader_log (r_port r) p (List.filter (from_reader (r_port r)) (b_ops y))) ->
  (forall data, p = RData data -> bytes_ok data) -> bridge_ok l m (reader_to i p y).
Proof.
  intros [H1 H2 H3 H4 H5 H6 H7] Hl Hd. split; cbn; [done| | | | |done|].
  - intros j r [(-> & r0 & Hr & ->)|[_ Hr]]%alter_inv; by apply (H2 _ _ Hr).
  - intros j k r s Hj Hk. apply alter_inv in Hj as [(-> & r0 & Hr & ->)|[_ Hr]], Hk as [(-> & s0 & Hs & ->)|[_ Hs]]; cbn; intros E; by eapply H3.
  - intros Hj j r [(-> & r0 & Hr & ->)|[_ Hr]]%alter_inv; by apply (H4 Hj _ _ Hr).
  - intros j r [(-> & r0 & Hr & ->)|[_ Hr]]%alter_inv; [exact (Hl r0 Hr)|by apply (H5 _ _ Hr)].
  - intros j r data [(-> & r0 & Hr & ->)|[_ Hr]]%alter_inv; [by apply Hd|by apply (H7 _ _ _ Hr)].
Qed.

(** A call the reader of relay [i] makes, and where it goes from there. *)
Lemma reader_does_ok l m y i r o p : ram_ok m -> bridge_ok l m y -> b_relays y !! i = Some r -> vop_ok (b_dev y, b_ram y, b_hist y) o ->
  (forall q, from_reader q o = (r_port r =? q)) -> (forall data, p <> RData data) ->
  reader_log (r_port r) p (List.filter (from_reader (r_port r)) (b_ops y) ++ [o]) -> bridge_ok l m (reader_to i p (does o y)).
Proof.
  intros Hm [H1 H2 H3 H4 H5 H6 H7] Hi Ho Hf Hp Hl. destruct (does_session l m y o Hm H1 Ho) as (D1 & D2 & D3).
  assert (b_relays (does o y) = b_relays y /\ b_acc (does o y) = b_acc y /\ b_ops (does o y) = b_ops y ++ [o]) as (Er & Ea & Eo) by (unfold does; by destruct (run_vop _ o) as [[? ?] ?]).
  unfold reader_to. split; cbn; rewrite ?Er, ?Ea, ?Eo; [done| | | | | |].
  - intros j s [(-> & s0 & Hs & ->)|[_ Hs]]%alter_inv; specialize (H2 _ _ Hs); cbn; lia.
  - intros j k a b Hj Hk. apply alter_inv in Hj as [(-> & r0 & Hr & ->)|[_ Hr]], Hk as [(-> & s0 & Hs & ->)|[_ Hs]]; cbn; intros E; by eapply H3.
  - intros Hj j s [(-> & s0 & Hs & ->)|[_ Hs]]%alter_inv; cbn; (apply D3; [by eapply H2|by eapply H4]).
  - intros j s [(-> & s0 & Hs & ->)|[Hne Hs]]%alter_inv; cbn; rewrite filter_snoc, Hf.
    + rewrite Hi in Hs. injection Hs as <-. by rewrite Z.eqb_refl.
    + destruct (Z.eqb_spec (r_port r) (r_port s)) as [E|_]; [by destruct Hne; eapply H3|]. rewrite app_nil_r. by eapply H5.
  - intros q Hq. rewrite filter_snoc, Hf. specialize (H2 _ _ Hi). rewrite (proj2 (Z.eqb_neq _ _)) by lia. rewrite app_nil_r. apply H6. lia.
  - intros j s data [(-> & s0 & Hs & ->)|[_ Hs]]%alter_inv; [by intros ?%Hp|by apply (H7 _ _ _ Hs)].
Qed.

Lemma readable_bytes data : readable data = true -> bytes_ok data.
Proof.
  unfold readable. intros [_ H]%andb_true_iff. rewrite forallb_forall in H. apply Forall_forall. intros b Hb%list_elem_of_In%H. unfold byte_ok. lia.
Qed.

Lemma reader_step_ok l m y y' i a : ram_ok m -> reader_step i a y = Some y' -> bridge_ok l m y -> bridge_ok l m y'.
Proof.
  unfold reader_step. destruct (b_relays y !! i) as [r|] eqn:Hi; [|done]. cbn [mbind option_bind]. intros Hm Hs Hok. pose proof (bo_log l m y Hok i r Hi) as Hlog.
  assert (forall p, (forall data, p = RData data -> bytes_ok data) -> reader_log (r_port r) p (List.filter (from_reader (r_port r)) (b_ops y)) -> bridge_ok l m (reader_to i p y)) as Hgo.
  { intros p Hd Hl. apply reader_to_ok; [done| |done]. intros r0 Hr. rewrite Hi in Hr. by injection Hr as <-. }
  destruct (r_reader r) as [| |data| | | | |] eqn:Ep; cbn in Hlog.
  - destruct (stop_wait a (b_stop y)) as [[]|]; [| | |done]; injection Hs as <-; by apply Hgo.
  - destruct (reads a) as [|data| |]; [|destruct (readable data) eqn:Er; [|done]| |]; injection Hs as <-; apply Hgo; try done. intros ? [= <-]. by apply readable_bytes.
  - injection Hs as <-. eapply reader_does_ok; [done|done|exact Hi|cbn; by eapply bo_data|done|by destruct (_.2)|]. destruct (_.2); cbn; rewrite forallb_app, Hlog; done.
  - destruct (_ && _); [done|]. injection Hs as <-. by apply Hgo.
  - injection Hs as <-. eapply reader_does_ok; [done|done|exact Hi|done|done|by destruct (_.2)|]. destruct (_.2); cbn; eauto.
  - destruct (_ || _); [injection Hs as <-; apply Hgo; [done|]; destruct Hlog as (ds & ? & ->); exists ds; auto|]. destruct (hup a); [|done]. injection Hs as <-. by apply Hgo.
  - injection Hs as <-. eapply reader_does_ok; [done|done|exact Hi|done|done|done|]. destruct Hlog as (ds & Hd & ->). exists ds. split; [done|]. right. by rewrite <-app_assoc.
  - done.
Qed.

Lemma writer_step_ok l m y y' i a : ram_ok m -> writer_step i a y = Some y' -> bridge_ok l m y -> bridge_ok l m y'.
Proof.
  unfold writer_step. destruct (b_relays y !! i) as [r|] eqn:Hi; [|done]. cbn [mbind option_bind]. intros Hm Hs Hok. destruct (r_writer r).
  - destruct (_ && _); [done|]. injection Hs as <-. by apply writer_to_ok.
  - destruct (stop_wait a (b_stop y)) as [w|]; [|done]. injection Hs as <-. by apply writer_to_ok.
  - injection Hs as <-. apply writer_to_ok, does_ok; done.
  - injection Hs as <-. apply writer_to_ok, does_ok; done.
  - done.
Qed.

Lemma set_acc_ok l m y a : bridge_ok l m y -> (joining a = true -> forall i r, b_relays y !! i = Some r -> conns (b_dev y) !! r_port r = None) -> bridge_ok l m (set_acc a y).
Proof. intros [H1 H2 H3 H4 H5 H6 H7] Ha. by split. Qed.

(** A connection that was accepted gets a relay at a port of its own. *)
Lemma new_relay_ok l m y port c : ram_ok m -> bridge_ok l m y -> conns (b_dev y) !! port = Some c -> (forall i r, b_relays y !! i = Some r -> r_port r < port) ->
  List.filter (from_reader port) (b_ops y) = [] -> joining (b_acc y) = false -> bridge_ok l m (set_relays (b_relays y ++ [mkRelay port WGate RPoll]) y).
Proof.
  intros Hm [H1 H2 H3 H4 H5 H6 H7] Hc Hlt Hf Hj. assert (port < next_port (b_dev y)) as Hp.
  { destruct (start_ok l m Hm) as [V0 S0]. destruct H1 as [Hs Hr]. destruct (session_keeps _ _ _ _ _ _ _ V0 S0 Hs Hr) as [V1 _]. by destruct (wo_conns _ _ V1 port c Hc) as [_ [_ ?]]. }
  assert (forall j r, (b_relays y ++ [mkRelay port WGate RPoll]) !! j = Some r -> b_relays y !! j = Some r \/ (j = length (b_relays y) /\ r = mkRelay port WGate RPoll)) as Hinv.
  { intros j r [Hj1|[Hl Hj1]]%lookup_app_Some; [by left|]. apply list_lookup_singleton_Some in Hj1 as [Hz <-]. right. split; [lia|done]. }
  split; cbn; [done| | |by rewrite Hj| |done|].
  - intros j r [Hr|[-> ->]]%Hinv; [by eapply H2|done].
  - intros j k r s [Hr|[-> ->]]%Hinv [Hs|[-> ->]]%Hinv; cbn; [by eapply H3| | |done]; [specialize (Hlt _ _ Hr)|specialize (Hlt _ _ Hs)]; lia.
  - intros j r [Hr|[-> ->]]%Hinv; [by eapply H5|cbn; by rewrite Hf].
  - intros j r data [Hr|[-> ->]]%Hinv; [by eapply H7|done].
Qed.

Lemma accept_step_ok l m y y' s a : ram_ok m -> next_port (b_dev y) + 1 < 2 ^ 32 -> accept_step s a y = Some y' -> bridge_ok l m y -> bridge_ok l m y'.
Proof.
  unfold accept_step. intros Hm Hlt Hs Hok. destruct (b_acc y) eqn:Ea.
  - destruct (stop_wait a (b_stop y)) as [w|]; [|done]. injection Hs as <-. apply set_acc_ok; [done|]. by destruct w.
  - destruct s as [s|]; [|injection Hs as <-; by apply set_acc_ok].
    assert (vop_ok (b_dev y, b_ram y, b_hist y) (OpAccept s)) as Ho by (cbn; lia). injection Hs as <-. pose proof (does_ok l m y _ Hm Hok Ho (fun _ => eq_refl)) as Hd.
    apply set_acc_ok; [|done]. destruct (conns (b_dev (does (OpAccept s) y)) !! next_port (b_dev y)) as [c|] eqn:Ec; [|done].
    assert (b_relays (does (OpAccept s) y) = b_relays y /\ b_acc (does (OpAccept s) y) = b_acc y /\ b_ops (does (OpAccept s) y) = b_ops y ++ [OpAccept s]) as (Er & Eb & Eo)
      by (unfold does; by destruct (run_vop _ _) as [[? ?] ?]).
    eapply new_relay_ok; [done|done|exact Ec| | |by rewrite Eb, Ea].
    + intros i r. rewrite Er. apply (bo_ports l m y Hok).
    + rewrite Eo, filter_snoc. cbn. rewrite app_nil_r. by apply (bo_fresh l m y Hok).
  - injection Hs as <-. apply set_acc_ok; [by apply does_ok|]. intros _ i r _. cbn. apply lookup_empty.
  - destruct (forallb _ _); [|done]. injection Hs as <-. apply set_acc_ok; [done|]. intros _. apply (bo_closed l m y Hok). by rewrite Ea.
  - done.
Qed.

Lemma bridge_reach l m y : ram_ok m -> rtc bstep (bridge_start l m) y -> bridge_ok l m y.
Proof.
  intros Hm Hr. assert (bridge_ok l m (bridge_start l m)) as H0 by (by split).
  revert H0 Hr. generalize (bridge_start l m). intros y0 H0 Hr. induction Hr as [|a b c Hab _ IH]; [done|]. apply IH. destruct Hab as [x a Ha|x g data Hd|x|x x' s a Hs|x x' i a Hs|x x' i a Hs].
  - by apply does_ok.
  - by apply does_ok.
  - by destruct H0.
  - by eapply accept_step_ok.
  - by eapply writer_step_ok.
  - by eapply reader_step_ok.
Qed.

(** The steps a relay has left once the bridge stops. *)
Definition writer_left (w : WPc) : nat := match w with WDone => 0 | WGone => 1 | WPoll => 2 | WGate => 3 | WFlush => 4 end.
Definition reader_left (p : RPc) : nat :=
  match p with RDone => 0 | RHung => 1 | RSleep => 2 | REof => 3 | RPoll => 4 | RGate => 5 | RData _ => 6 | RRead => 7 end.

Lemma relay_alter (f : Relay -> Relay) i y y1 r : b_relays y !! i = Some r -> b_relays y1 = b_relays y -> alter f i (b_relays y1) !! i = Some (f r).
Proof. intros Hi ->. by rewrite list_lookup_alter_eq, Hi. Qed.
Lemma does_relays o y : b_relays (does o y) = b_relays y.
Proof. unfold does. by destruct (run_vop _ o) as [[? ?] ?]. Qed.

(** C17. The bridge drives the device as the device's theorems assume, and it ends. Whatever
    the guest does and the host's sockets answer, while ports are left: the calls on the device are a session;
    a connection's reader hands over bytes, then their end exactly once, then at most the
    close of a half-closed host. And once the stop is requested and the connections are
    dropped, no relay is left asleep: each one that has not ended can take a step, also
    at its gate, and every step it takes brings it nearer to its end, so that the bridge
    joins them all. *)
Theorem bridge_ends l m y : ram_ok m -> rtc bstep (bridge_start l m) y ->
  (session_ok (vsock_start l m) (b_ops y) /\ foldl run_vop (vsock_start l m) (b_ops y) = (b_dev y, b_ram y, b_hist y)) /\
  (forall i r, b_relays y !! i = Some r -> reader_log (r_port r) (r_reader r) (List.filter (from_reader (r_port r)) (b_ops y))) /\
  (b_stop y = true -> b_acc y = AJoin -> forall i r, b_relays y !! i = Some r ->
    (forall a y', writer_step i a y = Some y' -> exists r', b_relays y' !! i = Some r' /\ (writer_left (r_writer r') < writer_left (r_writer r))%nat) /\
    (forall a y', reader_step i a y = Some y' -> exists r', b_relays y' !! i = Some r' /\ (reader_left (r_reader r') < reader_left (r_reader r))%nat) /\
    (r_writer r <> WDone -> forall a, is_Some (writer_step i a y)) /\
    (r_reader r <> RDone -> forall a, (forall data, reads a = ReadBytes data -> readable data = true) -> is_Some (reader_step i a y))).
Proof.
  intros Hm Hr. pose proof (bridge_reach l m y Hm Hr) as Hok. split; [apply Hok|]. split; [apply Hok|]. intros Hst Ha i r Hi.
  pose proof (bo_closed l m y Hok ltac:(by rewrite Ha) i r Hi) as Hn. unfold writer_step, reader_step, stop_wait, writer_gate_closed, reader_gate_closed. rewrite Hi, Hst. cbn [mbind option_bind]. rewrite Hn. cbn [andb].
  split_and!.
  - intros a y' Hs. destruct (r_writer r) eqn:Ew; [|destruct (poll_fails a)| | |done]; injection Hs as <-; eexists; (split; [eapply (relay_alter _ _ y); [exact Hi|by rewrite ?does_relays]|]); cbn; repeat case_match; cbn; lia.
  - intros a y' Hs. destruct (r_reader r) as [| |data| | | | |] eqn:Ep; [destruct (poll_fails a)|destruct (reads a) as [|data| |]; [|destruct (readable data); [|done]| |]| | | |rewrite orb_true_r in Hs| |done];
      injection Hs as <-; eexists; (split; [eapply (relay_alter _ _ y); [exact Hi|by rewrite ?does_relays]|]); cbn; repeat case_match; cbn; lia.
  - intros Hw a. destruct (r_writer r); try done; by destruct (poll_fails a).
  - intros Hw a Hd. destruct (r_reader r); try done; [by destruct (poll_fails a)|destruct (reads a) as [|data| |]; [done| |done|done]; by rewrite (Hd data)|by rewrite orb_true_r].
Qed.

End Shown.

(** A connection whose reader is behind a poll and whose writer sleeps at its gate as the
    bridge stops. *)
Module Example.
Definition idle : Answer := mkAnswer false true false ReadRetry.
Definition bytes : Answer := mkAnswer false true false (ReadBytes [1; 2; 3]).
Inductive Ev := EvA (s : option Stream) (a : Answer) | EvW (i : nat) (a : Answer) | EvR (i : nat) (a : Answer) | EvStop.
Definition ev_step (e : Ev) (y : Bridge PlainLine) : option (Bridge PlainLine) :=
  match e with
  | EvA s a => if next_port (b_dev y) + 1 <? 2 ^ 32 then accept_step s a y else None
  | EvW i a => writer_step i a y
  | EvR i a => reader_step i a y
  | EvStop => Some (mkBridge (b_dev y) (b_ram y) (b_hist y) true (b_acc y) (b_relays y) (b_ops y))
  end.
Fixpoint brun (l : list Ev) (y : Bridge PlainLine) : option (Bridge PlainLine) := match l with [] => Some y | e :: l => y ← ev_step e y; brun l y end.
Definition start : Bridge PlainLine := bridge_start (mkPlainLine false) vsock_ram.
Definition events : list Ev := [EvA None idle; EvA (Some demo_stream) idle; EvR 0 idle; EvR 0 bytes; EvR 0 idle; EvR 0 idle; EvStop; EvA None idle; EvA None idle].
Definition stopping : Bridge PlainLine := Eval vm_compute in default start (brun events start).

Lemma brun_reach l y y' : brun l y = Some y' -> rtc bstep y y'.
Proof.
  revert y. induction l as [|e l IH]; intros y; cbn [brun]; [intros [= <-]; apply rtc_refl|]. destruct (ev_step e y) as [y1|] eqn:E; [|done]. cbn [mbind option_bind]. intros H%IH. eapply rtc_l; [|done].
  destruct e; cbn [ev_step] in E; [destruct (Z.ltb_spec (next_port (b_dev y) + 1) (2 ^ 32)); [by eapply B_accept|done]|by eapply B_writer|by eapply B_reader|injection E as <-; constructor].
Qed.

Lemma bridge_ends_witness : b_relays stopping = [mkRelay 40000 WGate RRead] /\ b_ops stopping = [OpAccept demo_stream; OpData 40000 [1; 2; 3]; OpDropConns] /\
  is_Some (writer_step 0 idle stopping).
Proof.
  assert (rtc bstep start stopping) as Hr by (apply (brun_reach events); vm_compute; reflexivity). split; [reflexivity|]. split; [reflexivity|].
  destruct (bridge_ends (mkPlainLine false) vsock_ram stopping vsock_ram_ok Hr) as (_ & _ & H).
  destruct (H eq_refl eq_refl 0%nat (mkRelay 40000 WGate RRead) eq_refl) as (_ & _ & Hw & _). by apply Hw.
Defined.
End Example.
