(* ===== verification/KickHvf.v ===== *)
(** * The kick of a Hypervisor.framework vCPU ([src/arch/aarch64/hvf/kick.rs], [run_cpu] of
    [src/arch/aarch64/hvf/vcpu.rs])

    A kick is [hv_vcpus_exit]: it ends a run in progress, and one that finds the vCPU
    outside its run stays pending and ends the next run at once. A secondary that waits
    for the guest's [CPU_ON] is in no run; it sleeps at its mailbox, which the stop
    notifies apart. The vCPU threads, the kicks and the stop are a transition system. *)

From S2P Require Import Prelude.
Local Open Scope Z_scope.

(** Where a vCPU thread is in [run_cpu]: before its registration, about to lock its
    mailbox, holding that lock with the mailbox found empty and the flag found set,
    asleep, with whether it was notified, at the top of its loop, at its safe point,
    about to run, in the guest, back from it, out of the loop, and gone. *)
Inductive HPc := HNew | HMbox | HChecked | HWait (woken : bool) | HTop | HSafe | HRun | HIn | HOut | HLeaving | HDone.
#[export] Instance HPc_eq : EqDecision HPc.
Proof. solve_decision. Defined.

(** A vCPU: its thread, whether a cancel is pending, whether it is in the table, its
    mailbox; and whether the kick and the notification of a stop have reached it, or it
    was not in the table when the kick came. *)
Record HCpu := mkHCpu { h_pc : HPc; cancel : bool; h_registered : bool; mbox : option (Z * Z); h_kicked : bool; h_notified : bool }.
Definition hcpu_new : HCpu := mkHCpu HNew false false None false false.

Record HSys := mkHSys { h_running : bool; hcpus : list HCpu }.
Definition hsys_new (count : nat) : HSys := mkHSys true (replicate count hcpu_new).
Definition set_hcpu (i : nat) (c : HCpu) (y : HSys) : HSys := mkHSys (h_running y) (<[i := c]> (hcpus y)).

Definition h_at (p : HPc) (c : HCpu) : HCpu := mkHCpu p (cancel c) (h_registered c) (mbox c) (h_kicked c) (h_notified c).
Definition h_register (i : nat) (c : HCpu) : HCpu := mkHCpu (if decide (i = 0%nat) then HTop else HMbox) (cancel c) true (mbox c) (h_kicked c) (h_notified c).
Definition h_drop_registration (c : HCpu) : HCpu := mkHCpu HDone (cancel c) false (mbox c) (h_kicked c) (h_notified c).
(** A run that a cancel ends takes it. *)
Definition h_cancelled (c : HCpu) : HCpu := mkHCpu HOut false (h_registered c) (mbox c) (h_kicked c) (h_notified c).
Definition take_mbox (p : HPc) (c : HCpu) : HCpu := mkHCpu p (cancel c) (h_registered c) None (h_kicked c) (h_notified c).

(** [wait_for_cpu_on] with the mailbox locked: the post, the stop, or on to the wait. *)
Definition check_mbox (running : bool) (c : HCpu) : HCpu :=
  match mbox c with
  | Some _ => take_mbox HTop c
  | None => h_at (if running then HChecked else HLeaving) c
  end.

(** What the guest and the handlers decide: whether the thread's creation of the vCPU,
    its run or the plugin ends it, whether a wait ends unnotified, and whether a pending
    cancel is what ends the run. *)
Record HChoice := mkHChoice { h_ends : bool; spurious : bool; by_cancel : bool }.

(** One step of the thread of vCPU [i] in [run_cpu]; [None] while it sleeps. *)
Definition run_cpu (ch : HChoice) (i : nat) (y : HSys) : option HSys :=
  c ← hcpus y !! i;
  match h_pc c with
  | HNew => Some (set_hcpu i (if h_ends ch then h_at HDone c else h_register i c) y)
  | HMbox => Some (set_hcpu i (check_mbox (h_running y) c) y)
  | HChecked => Some (set_hcpu i (h_at (HWait false) c) y)
  | HWait woken => if woken || spurious ch then Some (set_hcpu i (check_mbox (h_running y) c) y) else None
  | HTop => Some (set_hcpu i (h_at (if h_running y then HSafe else HLeaving) c) y)
  | HSafe => Some (set_hcpu i (h_at (if h_ends ch then HLeaving else HRun) c) y)
  | HRun => Some (set_hcpu i (if cancel c then h_cancelled c else h_at HIn c) y)
  | HIn => Some (set_hcpu i (if cancel c && by_cancel ch then h_cancelled c else h_at HOut c) y)
  | HOut => Some (set_hcpu i (h_at (if h_ends ch then HLeaving else HTop) c) y)
  | HLeaving => Some (set_hcpu i (h_drop_registration c) y)
  | HDone => None
  end.

(** [kick_others]: one call for every vCPU in the table but the caller's own; a vCPU that
    a stop finds outside the table has nothing to be kicked out of. *)
Definition kick_cpu (running : bool) (own : option nat) (i : nat) (c : HCpu) : HCpu :=
  if bool_decide (own = Some i) then c
  else mkHCpu (h_pc c) (h_registered c || cancel c) (h_registered c) (mbox c) (h_kicked c || negb running) (h_notified c).
Definition kick_others (own : option nat) (y : HSys) : HSys := mkHSys (h_running y) (imap (kick_cpu (h_running y) own) (hcpus y)).
(** [Kicker::kick] of one vCPU. *)
Definition kick_one (own : option nat) (i : nat) (y : HSys) : HSys := mkHSys (h_running y) (alter (kick_cpu true own i) i (hcpus y)).

Definition wake (c : HCpu) : HPc := match h_pc c with HWait _ => HWait true | p => p end.
Definition lock_free (c : HCpu) : bool := match h_pc c with HChecked => false | _ => true end.

(** [kick_halted] at one mailbox, whose lock it takes. *)
Definition notify_halted (i : nat) (y : HSys) : option HSys :=
  c ← hcpus y !! i;
  if lock_free c then Some (set_hcpu i (mkHCpu (wake c) (cancel c) (h_registered c) (mbox c) (h_kicked c) (h_notified c || negb (h_running y))) y) else None.

Definition cpu_on (i : nat) (post : Z * Z) (y : HSys) : option HSys :=
  c ← hcpus y !! i;
  if bool_decide (i = 0%nat) || negb (lock_free c) then None
  else Some (set_hcpu i (mkHCpu (wake c) (cancel c) (h_registered c) (Some post) (h_kicked c) (h_notified c)) y).

Inductive HEvent := HvCpu (i : nat) (ch : HChoice) | HvKickAll (own : option nat) | HvKick (own : option nat) (i : nat) | HvNotify (i : nat) | HvCpuOn (i : nat) (post : Z * Z) | HvStop.
Definition hvf_step (e : HEvent) (y : HSys) : option HSys :=
  match e with
  | HvCpu i ch => run_cpu ch i y
  | HvKickAll own => Some (kick_others own y)
  | HvKick own i => Some (kick_one own i y)
  | HvNotify i => notify_halted i y
  | HvCpuOn i post => cpu_on i post y
  | HvStop => Some (mkHSys false (hcpus y))
  end.
Definition hreach (y y' : HSys) : Prop := exists e, hvf_step e y = Some y'.

(** * What it shows *)

Definition h_committed (p : HPc) : bool := match p with HSafe | HRun | HIn => true | _ => false end.

Record hcpu_ok (running : bool) (c : HCpu) : Prop := {
  hc_reg : h_registered c = negb (bool_decide (h_pc c = HNew) || bool_decide (h_pc c = HDone));
  hc_stop : h_kicked c || h_notified c = true -> running = false;
  hc_kicked : h_kicked c = true -> h_committed (h_pc c) = true -> cancel c = true;
  hc_notified : h_notified c = true -> h_pc c <> HWait false /\ h_pc c <> HChecked }.

Definition hvf_ok (y : HSys) : Prop := forall i c, hcpus y !! i = Some c -> hcpu_ok (h_running y) c.

Lemma set_hcpu_ok y i c : hvf_ok y -> hcpu_ok (h_running y) c -> hvf_ok (set_hcpu i c y).
Proof.
  intros H Hc j x. unfold set_hcpu. cbn. intros [[_ [-> _]]|[_ Hx]]%list_lookup_insert_Some; [done|by apply (H j)].
Qed.

Lemma check_mbox_ok running c : hcpu_ok running c -> h_registered c = true -> hcpu_ok running (check_mbox running c).
Proof.
  intros [C1 C2 C3 C4] Hr. unfold check_mbox. destruct (mbox c); [by split|]. destruct running; split; try done. cbn. intros Hn. rewrite Hn, orb_true_r in C2. by specialize (C2 eq_refl).
Qed.

Lemma kick_cpu_ok running running' own i c : hcpu_ok running c -> (running' = false -> running = false) -> hcpu_ok running (kick_cpu running' own i c).
Proof.
  intros [C1 C2 C3 C4] Hr. unfold kick_cpu. destruct (bool_decide (own = Some i)); [done|]. split; cbn; [done| | |done].
  - destruct (h_kicked c); [intros _; by apply C2|]. destruct running'; cbn; [apply C2|auto].
  - intros _ Hp. rewrite C1. by destruct (h_pc c).
Qed.

Lemma hvf_step_ok e y y' : hvf_step e y = Some y' -> hvf_ok y -> hvf_ok y'.
Proof.
  destruct e as [i ch|own|own i|i|i post|]; cbn [hvf_step]; intros Hs Hok.
  - unfold run_cpu in Hs. destruct (hcpus y !! i) as [c|] eqn:Hi; [|done]. cbn [mbind option_bind] in Hs. pose proof (Hok i c Hi) as Hc. destruct (Hc) as [C1 C2 C3 C4].
    destruct (h_pc c) as [| | |woken| | | | | | |] eqn:Ep; cbn in C1, C3; [| | |destruct (woken || spurious ch); [|done]| | | | | | |done]; injection Hs as <-; apply set_hcpu_ok; try done.
    + destruct (h_ends ch); [by split|]. unfold h_register. destruct (decide (i = 0%nat)); by split.
    + by apply check_mbox_ok.
    + split; try done. intros Hn. by destruct (C4 Hn).
    + by apply check_mbox_ok.
    + destruct (h_running y) eqn:Er; split; try done; cbn. intros Hk. rewrite Hk in C2. by specialize (C2 eq_refl).
    + destruct (h_ends ch); split; try done; cbn; auto.
    + destruct (cancel c) eqn:Ec; split; try done; cbn. by rewrite Ec.
    + destruct (cancel c && by_cancel ch); by split.
    + destruct (h_ends ch); by split.
  - injection Hs as <-. intros i c. unfold kick_others. cbn. rewrite list_lookup_imap. destruct (hcpus y !! i) as [c0|] eqn:Hi; [|done]. intros [= <-]. by apply kick_cpu_ok; [apply (Hok i)|].
  - injection Hs as <-. intros j c. unfold kick_one. cbn. destruct (decide (i = j)) as [<-|Hne].
    + rewrite list_lookup_alter_eq. destruct (hcpus y !! i) as [c0|] eqn:Hi; [|done]. intros [= <-]. by apply kick_cpu_ok; [apply (Hok i)|].
    + rewrite list_lookup_alter_ne by done. apply Hok.
  - unfold notify_halted in Hs. destruct (hcpus y !! i) as [c|] eqn:Hi; [|done]. cbn in Hs. destruct (lock_free c) eqn:El; [|done]. injection Hs as <-. apply set_hcpu_ok; [done|].
    destruct (Hok i c Hi) as [C1 C2 C3 C4]. unfold lock_free in El. split; cbn; unfold wake.
    + rewrite C1. by destruct (h_pc c).
    + destruct (h_kicked c), (h_notified c); cbn in *; auto; by destruct (h_running y).
    + intros Hk. specialize (C3 Hk). by destruct (h_pc c).
    + intros _. by destruct (h_pc c).
  - unfold cpu_on in Hs. destruct (hcpus y !! i) as [c|] eqn:Hi; [|done]. cbn in Hs. destruct (bool_decide (i = 0%nat)); [done|]. destruct (lock_free c) eqn:El; [|done]. injection Hs as <-. apply set_hcpu_ok; [done|].
    destruct (Hok i c Hi) as [C1 C2 C3 C4]. split; cbn; unfold wake.
    + rewrite C1. by destruct (h_pc c).
    + done.
    + intros Hk. specialize (C3 Hk). by destruct (h_pc c).
    + intros Hn. destruct (C4 Hn). by destruct (h_pc c).
  - injection Hs as <-. intros i c Hi. destruct (Hok i c Hi). by split.
Qed.

Lemma hvf_reach count y : rtc hreach (hsys_new count) y -> hvf_ok y.
Proof.
  assert (hvf_ok (hsys_new count)) as H0 by (intros i c [-> _]%lookup_replicate_1; by split).
  revert H0. generalize (hsys_new count). intros y0 H0 Hr. induction Hr as [|a b c [e He] _ IH]; [done|]. by apply IH, (hvf_step_ok e a).
Qed.

Definition h_left (p : HPc) : nat :=
  match p with HDone => 0 | HLeaving => 1 | HTop => 2 | HOut => 3 | HIn => 4 | HRun => 4 | HSafe => 5 | HWait _ => 6 | HMbox => 6 | HChecked => 7 | HNew => 8 end.

(** C16. A stop on macOS reaches every vCPU. Once its kick and the notification of a vCPU's
    mailbox have come, both after the running flag was cleared, and whatever else the
    vCPUs, the guest's [CPU_ON]s and other kicks do: a run in progress has a cancel
    pending, a secondary does not sleep at its mailbox, the thread can always take a
    step, and each step it takes brings it nearer to its end, of which it has at most
    eight left, and none enters the guest, also when a [CPU_ON] arrives late. *)
Theorem hvf_stop_reaches count y i c : rtc hreach (hsys_new count) y -> hcpus y !! i = Some c -> h_kicked c = true -> h_notified c = true ->
  (h_pc c = HIn -> cancel c = true) /\ h_pc c <> HWait false /\
  (h_left (h_pc c) <= 8)%nat /\
  (h_pc c <> HDone -> forall ch, exists y', run_cpu ch i y = Some y' /\
    exists c', hcpus y' !! i = Some c' /\ h_pc c' <> HIn /\ (h_left (h_pc c') < h_left (h_pc c))%nat).
Proof.
  intros Hr Hi Hk Hn. destruct (hvf_reach count y Hr i c Hi) as [C1 C2 C3 C4]. specialize (C3 Hk). destruct (C4 Hn) as [N1 N2].
  assert (h_running y = false) as Hrun by (apply C2; by rewrite Hk). split; [by intros Hp; rewrite Hp in C3; apply C3|]. split; [done|]. split; [destruct (h_pc c); cbn; lia|].
  intros Hd ch. assert (i < length (hcpus y))%nat as Hlt by (by eapply lookup_lt_Some). unfold run_cpu. rewrite Hi. cbn [mbind option_bind]. rewrite Hrun.
  destruct (h_pc c) as [| | |[]| | | | | | |] eqn:Ep; try done; cbn [orb]; (eexists; split; [done|]); cbn; rewrite list_lookup_insert_eq by done; (eexists; split; [done|]);
    unfold check_mbox, h_register; rewrite ?(C3 eq_refl); repeat case_match; cbn; split; (done || lia).
Qed.

(** A stop that finds the boot vCPU in the guest and a secondary asleep at its mailbox. *)
Module Example.
Definition plain : HChoice := mkHChoice false false true.
Definition events : list HEvent :=
  [HvCpu 0 plain; HvCpu 0 plain; HvCpu 0 plain; HvCpu 0 plain; HvCpu 1 plain; HvCpu 1 plain; HvCpu 1 plain; HvStop; HvKickAll None; HvNotify 0; HvNotify 1].
Fixpoint hrun (l : list HEvent) (y : HSys) : option HSys := match l with [] => Some y | e :: l => y ← hvf_step e y; hrun l y end.
Definition stopped : HSys := default (hsys_new 2) (hrun events (hsys_new 2)).

Lemma hrun_reach l y y' : hrun l y = Some y' -> rtc hreach y y'.
Proof.
  revert y. induction l as [|e l IH]; intros y; cbn [hrun]; [intros [= <-]; apply rtc_refl|]. destruct (hvf_step e y) as [y1|] eqn:E; [|done]. cbn. intros H%IH. eapply rtc_l; [by exists e|done].
Qed.

Lemma hvf_stop_reaches_witness : exists a b, hcpus stopped !! 0%nat = Some a /\ h_pc a = HIn /\ cancel a = true /\
  hcpus stopped !! 1%nat = Some b /\ h_pc b = HWait true /\
  exists y', run_cpu plain 1 stopped = Some y' /\ exists c', hcpus y' !! 1%nat = Some c' /\ h_pc c' <> HIn /\ (h_left (h_pc c') < h_left (h_pc b))%nat.
Proof.
  assert (rtc hreach (hsys_new 2) stopped) as Hr by (apply (hrun_reach events); vm_compute; reflexivity).
  eexists _, _. split; [vm_compute; reflexivity|]. split; [reflexivity|]. split; [reflexivity|]. split; [vm_compute; reflexivity|]. split; [reflexivity|].
  apply (hvf_stop_reaches 2 stopped 1 _ Hr); [vm_compute; reflexivity|reflexivity|reflexivity|done].
Defined.
End Example.
