(* ===== verification/Console.v ===== *)
(** * The console reader ([src/terminal/input.rs])

    The thread that reads standard input byte by byte and hands each byte to the guest's
    serial port, except the request key when a plugin is attached. The port is the PL011;
    its accesses by the guest come between any two turns of the reader. *)

From S2P Require Import Prelude Irq Filter Pl011.
Local Open Scope Z_scope.

Definition REQUEST_KEY : Z := 0x1d.

(** What the wait on the stop and standard input answers, and the read of one byte. *)
Inductive InputWait := InputReady | InputStop | InputError.
Inductive InputRead := InputByte (b : Z) | InputIntr | InputEnd.

(** The calls of the request key: the plugin, then the boot vCPU's kick. *)
Inductive InputCall := OnRequest | KickBoot.

Section Console.
Context {L : Type} `{IrqLine L}.

(** The port, the bytes read so far, the calls made, whether the reader has ended, and
    the accesses of the port in order. *)
Record Console := mkConsole { c_uart : Pl011 L; typed : list Z; calls : list InputCall; c_ended : bool; c_ops : list Op }.
Definition console_new (u : Pl011 L) : Console := mkConsole u [] [] false [].
Definition on_uart (o : Op) (y : Console) : Console := mkConsole (step (c_uart y) o) (typed y) (calls y) (c_ended y) (c_ops y ++ [o]).

(** One turn of [run]. *)
Definition input_turn (plugin : bool) (w : InputWait) (r : InputRead) (y : Console) : Console :=
  if c_ended y then y
  else match w with
  | InputStop | InputError => mkConsole (c_uart y) (typed y) (calls y) true (c_ops y)
  | InputReady =>
      match r with
      | InputIntr => y
      | InputEnd => mkConsole (c_uart y) (typed y) (calls y) true (c_ops y)
      | InputByte b =>
          let y := mkConsole (c_uart y) (typed y ++ [b]) (calls y) (c_ended y) (c_ops y) in
          if (b =? REQUEST_KEY) && plugin then mkConsole (c_uart y) (typed y) (calls y ++ [OnRequest; KickBoot]) (c_ended y) (c_ops y)
          else on_uart (Push b) y
      end
  end.

Inductive CTurn := CGuest (offset : Z) (is_write : bool) (value : Z) | CInput (w : InputWait) (r : InputRead).
Definition console_turn (plugin : bool) (y : Console) (t : CTurn) : Console :=
  match t with CGuest o w v => on_uart (Mmio o w v) y | CInput w r => input_turn plugin w r y end.

(** The keys that are the guest's. *)
Definition keys (plugin : bool) (l : list Z) : list Z := List.filter (fun b => negb ((b =? REQUEST_KEY) && plugin)) l.
Definition pushes (ops : list Op) : list Z := omap (fun o => match o with Push b => Some b | Mmio _ _ _ => None end) ops.

Arguments keys : simpl never.
Arguments pushes : simpl never.

Context `{!IrqLineLaws L}.

Record console_ok (plugin : bool) (u : Pl011 L) (y : Console) : Prop := {
  co_uart : c_uart y = foldl step u (c_ops y);
  co_keys : pushes (c_ops y) = keys plugin (typed y);
  co_calls : calls y = concat (replicate (length (typed y) - length (keys plugin (typed y))) [OnRequest; KickBoot]) }.

Lemma keys_snoc plugin l b : keys plugin (l ++ [b]) = keys plugin l ++ if (b =? REQUEST_KEY) && plugin then [] else [b].
Proof. unfold keys. rewrite List.filter_app. cbn. by destruct ((b =? REQUEST_KEY) && plugin). Qed.
Lemma keys_le plugin l : (length (keys plugin l) <= length l)%nat.
Proof. unfold keys. induction l as [|b l IH]; cbn; [done|]. destruct (negb _); cbn; lia. Qed.

Lemma keys_all l : keys false l = l.
Proof. unfold keys. induction l as [|b l IH]; cbn; [done|]. rewrite andb_false_r. cbn. by rewrite IH. Qed.

Lemma console_turn_ok plugin u y t : console_ok plugin u y -> console_ok plugin u (console_turn plugin y t).
Proof.
  intros [H1 H2 H3]. destruct t as [o w v|w r]; cbn.
  - split; cbn; [by rewrite foldl_app, H1|unfold pushes in *; by rewrite omap_app, H2, app_nil_r|done].
  - unfold input_turn. destruct (c_ended y); [done|]. destruct w; [|by split..]. destruct r as [b| |]; [|done|by split]. destruct ((b =? REQUEST_KEY) && plugin) eqn:E.
    + split; cbn; [done|by rewrite keys_snoc, E, app_nil_r|]. rewrite keys_snoc, E, app_nil_r, length_app, H3. cbn. pose proof (keys_le plugin (typed y)).
      replace (length (typed y) + 1 - length (keys plugin (typed y)))%nat with ((length (typed y) - length (keys plugin (typed y))) + 1)%nat by lia.
      rewrite replicate_add, concat_app. done.
    + split; cbn; [by rewrite foldl_app, H1|unfold pushes in *; rewrite omap_app, H2, keys_snoc, E; done|]. rewrite keys_snoc, E, !length_app, H3. cbn. do 2 f_equal. lia.
Qed.

(** The port accepts a subsequence of what is pushed: it drops a byte when it is full. *)
Lemma accepted_sublist ops a : exists l, accepted (foldl tally a ops) = accepted a ++ l /\ l `sublist_of` pushes ops.
Proof.
  revert a. induction ops as [|o ops IH]; intros a; [exists []; by rewrite app_nil_r|]. cbn [foldl]. destruct (IH (tally a o)) as (l & -> & Hl). destruct o as [b|o w v]; cbn.
  - destruct (_ <? _); cbn [accepted].
    + exists (b :: l). rewrite <-app_assoc. split; [done|]. by apply sublist_skip.
    + exists l. split; [done|]. by apply sublist_cons.
  - exists l. split; [|exact Hl]. destruct w; repeat case_match; done.
Qed.

(** What the operator types reaches the guest in order. Under any interleaving with the
    guest's accesses to its port, the bytes the guest took and those waiting for it are a
    subsequence of what was typed without the request keys, from which bytes are missing
    only where the port was full; each request key asked the plugin and kicked the boot
    vCPU once; and without a plugin every key is the guest's. *)
Theorem console_reaches_guest plugin l turns :
  let y := foldl (console_turn plugin) (console_new (Pl011.connect_irq new l)) turns in
  let a := foldl tally empty_account (c_ops y) in
  agrees (c_uart y) a /\ taken a ++ rx (c_uart y) `sublist_of` keys plugin (typed y) /\
  calls y = concat (replicate (length (typed y) - length (keys plugin (typed y))) [OnRequest; KickBoot]) /\
  (plugin = false -> keys plugin (typed y) = typed y).
Proof.
  intros y a. assert (console_ok plugin (Pl011.connect_irq new l) y) as [H1 H2 H3].
  { unfold y. assert (console_ok plugin (Pl011.connect_irq new l) (console_new (Pl011.connect_irq new l))) as H0 by (by split). revert H0. generalize (console_new (Pl011.connect_irq new l)).
    induction turns as [|t turns IH]; intros z Hz; [done|]. apply IH. by apply console_turn_ok. }
  assert (agrees (c_uart y) a) as Ha by (rewrite H1; apply agrees_session, new_agrees). split; [done|]. split; [|split; [done|]].
  - destruct Ha as (Ea & _). rewrite <-Ea. destruct (accepted_sublist (c_ops y) empty_account) as (k & Ek & Hk). unfold a. rewrite Ek. cbn. by rewrite <-H2.
  - intros ->. apply keys_all.
Qed.

End Console.
